(* ===== verification/_CoqProject ===== *)
-Q . S2P
Prelude.v
RecordUpdate.v
Bytes.v
Json.v
Filepath.v
VolumeIdentity.v
Fsm.v
CapacityUnit.v
Apimachinery.v
Registration.v
GoTime.v
ApiServer.v
VolumeState.v
VolumeProtocol.v
PoolApi.v
VolumeRegistry.v
PoolRegistry.v
MoveApi.v
MoveProtocol.v
Capacity.v
Locker.v
CleanupJournal.v
CleanupProtocol.v
History.v
HelperAuth.v
Uninstall.v
UninstallPermit.v
UninstallGate.v
Kube.v
Mobility.v
MobilityRules.v
MobilityPods.v
MobilityObserve.v
MobilityLifecycle.v
MobilityTransfer.v
MobilityActions.v
MobilityRecovery.v
MobilityReconcile.v
MobilityLogic.v
MobilityEffects.v
MobilityFacts.v
MobilityIdentity.v
MobilityStore.v
MobilityPass.v
MobilitySample.v
MobilityAuthority.v
MobilityDisruption.v
MobilityCapacity.v
Oracle.v
Provisioning.v
CsiController.v
CsiSample.v
ProvisioningLogic.v
CsiCreate.v
CsiDelete.v
CsiCapacity.v
NodeDisk.v
OwnershipMarkers.v
Publication.v
PublicationSafety.v
Readiness.v
ReadinessSafety.v
Ownership.v
LocalStore.v
EffectNode.v
EffectClient.v
EffectSafety.v
EffectClientSafety.v
OwnershipMetadata.v
NodeLogic.v
OwnershipLogic.v
OwnershipReclaim.v
OwnershipServing.v
OwnershipSafety.v
OwnershipExact.v
OwnershipRelease.v
