(* ===== verification/Prelude.v ===== *)
(** * ShiftPV: verification library

    ShiftPV provides node-local persistent volumes for Kubernetes that can move
    between nodes.  A volume is a directory of a Pool (a filesystem of one node); its
    durable record is a ShiftPVVolume object, a Pool's is a ShiftPVPool, and one
    migration is a ShiftPVMove.  Controllers, node agents and helper Pods run
    concurrently and coordinate only through these objects: every durable change is a
    read, a check and a conditional write that the API server refuses when the object
    changed in between.  The safety of the data rests on the checks that surround
    these writes; this library models them and proves what they guarantee together.

    ** How the parts fit

    - Identities name one incarnation of one copy of the data (VolumeIdentity).  They
      travel through every other part, and no write may ever confuse two of them.
    - ApiServer has the compare-and-set loops through which all records are written.
      The API server itself is the class [ApiClient]: a world shared with other
      clients, whose laws are optimistic concurrency as Kubernetes documents it.
    - Volumes: VolumeState has the decoded state and each mutation, VolumeProtocol the
      step relation that the mutations generate and its invariants, VolumeRegistry
      the whole handlers over the loops.
    - Pools: Registration, CapacityUnit and PoolApi decide when a Pool is usable and
      isolated from the others of its node; PoolRegistry has the handlers.
    - Moves: Fsm is the pure decision function that selects each lifecycle step,
      MoveApi the record with its transition checks and handlers, MoveProtocol what
      they guarantee over the life of a Move; History classifies settled Moves.
    - Capacity is the ledger that admits volumes and Moves to a Pool, and Locker the
      keyed mutex under which its decisions are made.
    - Cleanup: CleanupJournal is the record of one physical deletion and its rules,
      CleanupProtocol what they guarantee.
    - CSI: CsiController is the service that the provisioner of Kubernetes calls, over the
      registries, the ledger, the cleanup journal and the inspection of claims and
      consumers (Provisioning); Publication is its counterpart on a node, which mounts a
      copy for a Pod.  Their handlers call the outside through an oracle (Oracle), so that
      every interleaving with other actors is covered.
    - Executors: EffectClient binds a creation or a cleanup to the one executor of its node
      and reads the receipt that EffectNode, the executor itself, records after it worked
      on the disk.  EffectNode runs the ownership operations against the interface
      [LocalStore], which the disk of the node implements.
    - Readiness is the reconciler of a node that observes its Pools: it writes the evidence
      on which the registries, the ledger and the CSI controller decide.
    - Helpers: HelperAuth has the checks a helper Pod makes against volumes, Moves, Pools
      and its own Pod and Job before it touches a Pool.
    - Nodes: Ownership has the operations that create, fill, promote and destroy the
      directories of copies.  They run on a filesystem whose calls may fail (NodeDisk)
      and leave markers from which a later run continues (OwnershipMarkers); the API
      authority they ask is an argument.

    ** Which file models which sources (under src/)

    - Prelude: Go errors and results, machine integers, automation (no source).
    - Bytes, Json, Filepath, GoTime: what the program uses of Go's strings, hex,
      sha256, encoding/json, path/filepath and time packages.
    - Apimachinery: the functions of k8s.io/apimachinery the program calls, as a class.
    - VolumeIdentity: volume/id.go, identity.go, path.go, volume/deletion/admission.go.
    - Fsm: mobility/fsm/fsm.go, decide_lifecycle.go, decide_phases.go.
    - CapacityUnit: pool/capacityunit/extent.go and the identities of sysfs.go.
    - Registration: pool/registration.
    - ApiServer: kubernetes/volumeapi/registry.go.
    - VolumeState, VolumeProtocol, VolumeRegistry: kubernetes/volumeapi/volume.go and
      creation_*.go.
    - PoolApi, PoolRegistry: kubernetes/volumeapi/pool*.go.
    - MoveApi, MoveProtocol: kubernetes/volumeapi/move*.go.
    - Capacity, Locker: pool/capacity.
    - CleanupJournal, CleanupProtocol: kubernetes/cleanupapi.
    - History: mobility/history/classify.go.
    - HelperAuth: kubernetes/helperauth and kubernetes/volumeapi/installation.go.
    - Uninstall: lifecycle/uninstall/checker.go, pool_retirement.go, preserved_pool.go.
    - UninstallPermit: lifecycle/uninstall/permit.go.
    - UninstallGate: lifecycle/uninstall/gate.go and its concurrent execution.
    - RecordUpdate: functional update of record fields (no source); Kube: the Kubernetes
      objects the mobility controller handles (no source).
    - Mobility: the calls the controller makes, their answers (class [Environment]), the
      history of a run and the records of mobility/controller; MobilityRules,
      MobilityPods: its pure rules; MobilityObserve, MobilityLifecycle: the snapshot of a
      Move (observe*.go, preflight.go, the observing parts of preparation.go,
      prepared_*.go, recovery.go, workload_settlement.go); MobilityTransfer: transfer
      objects and the placement Pod; MobilityActions: the action of every decision
      (actions.go, capacity*.go, preparation.go, source_usage.go, cleanup.go);
      MobilityRecovery: recovery*.go and workload_settlement.go; MobilityReconcile:
      move.go, reconciler.go, history.go, discovery.go, owner_placement.go.
    - MobilityLogic: effect signatures and histories of calls; MobilityEffects: the
      signature of every handler; MobilityFacts: what a snapshot rests on;
      MobilityIdentity: the identity of the Move through a pass, and what a pass needs of
      the registry ([FaithfulStore], [CheckedStore], [TypedListings]); MobilityStore: that
      the registry of MoveApi has the first two, over any API server; MobilityPass, MobilityAuthority, MobilityDisruption,
      MobilityCapacity: what a pass guarantees; MobilitySample: an example cluster.
    - Oracle: handlers whose calls are answered by an arbitrary function of their history,
      and a program logic for them (no source).
    - Provisioning: provisioning/consumer, creation and reclaim, and the reconciliation of
      lifecycle/creationcontroller; ProvisioningLogic: what they read and call.
    - CsiController: csi/controller; CsiCreate, CsiDelete, CsiCapacity: what its calls
      guarantee; CsiSample: an example cluster.
    - NodeDisk: the filesystem of a Pool and the system calls on it (no source).
    - OwnershipMarkers: node/ownership/marker.go and the records of store.go and
      transfer.go.
    - Publication: node/mount, node/publication and csi/node; PublicationSafety: what they
      guarantee.
    - Readiness: pool/readiness (reconciler.go, registration.go, work.go, run.go and the
      allocations of capacity_unit.go); ReadinessSafety: what a pass guarantees and the
      schedule of its retries.
    - Ownership: node/ownership/store.go, serving.go, creation_receipt.go, reclaim.go,
      purge_linux.go, transfer.go, creation_cancel.go.
    - LocalStore: the interface of the ownership operations that an executor uses, and the
      proof that on the disk they are the operations of Ownership (no source of its own).
    - EffectNode: node/executor/effects.go, rpc.go and node.go; EffectSafety: what an
      execution guarantees.  EffectClient: provisioning/nodeexecutor; EffectClientSafety:
      what a binding guarantees.
    - OwnershipMetadata: node/ownership/inventory.go, metadata.go, pool_release.go.
    - NodeLogic, OwnershipLogic: the program logic for interrupted operations and the
      specifications of the steps; OwnershipReclaim, OwnershipServing, OwnershipSafety,
      OwnershipExact, OwnershipRelease: what the operations guarantee.

    A definition keeps the name of the Go function or type it translates.  A function
    that returns an error returns a [result]; a handler is a function of the world
    ([io]); the [apply] function of a compare-and-set is a pure function, so that the
    handler and the protocol theorems share it.  Records of the same field names live
    in Modules.  A Go string is a byte string; int64 and uint64 are integers with the
    wrap-around written where the code can reach it; a pointer is an option; a field
    of an API object is absent, malformed or present.

    ** What the theorems show

    - In every reachable state the decision function refuses exactly the evidence that
      contradicts the record; its decisions follow the transition table but for one edge,
      reach success only through the whole protocol, and a recovery that is requested in
      six passes (five to settle) ends (Fsm).
    - Each compare-and-set operation is linearizable under arbitrary interference, and
      the invariants of volumes, Moves, Pools and journals are preserved by every
      write (ApiServer and the Protocol files).
    - Execution authority of a Move is exact and granted at most once; deletion is a
      permanent fence; a completed cleanup was earned by a receipt and a later scan.
    - The ledger is exact and admission keeps it within the limit, through
      reservation, approval and owner commit (Capacity).
    - Block allocations are canonical, overlap is decided exactly, and resolution of a
      device stack refines the sectors that really back it (CapacityUnit).
    - What authorizes a helper composes the protocols of volumes and Moves: a cleanup that
      passes its check spares the serving copy, a copy or promotion writes beside it from
      the Job its Move recorded, and helpers of different purposes exclude each other
      (HelperAuth).
    - On the node, any system call may fail at any time.  Creating and reclaiming a copy
      recover from every interruption (OwnershipServing, OwnershipReclaim); on every
      disk, an operation touches nothing of another copy, a reclaim destroys only the
      inode in its journal, a marker is accepted only byte for byte, and the identity of
      a Pool outlives its data (OwnershipSafety, OwnershipExact, OwnershipRelease).
    - A safe uninstall report means that nothing references the installation, and a
      retired Pool holds no bytes of the ledger (Uninstall); while an acknowledged permit
      is in force no provisioning runs or starts, whatever the interleaving, delayed
      writes or restarts (UninstallGate).
    - A pass of the mobility controller, against any cluster and any registry whose status
      writes answer with the Move they were asked to write ([FaithfulStore]), writes only
      the Volume of its Move and moves the owner only by the handoff with its evidence
      (MobilityAuthority); it evicts only the recorded consumer of a fenced source, or a
      Pod of the claim the Move records that a recovery has displaced
      (MobilityDisruption); it reserves the capacity of the Volume on a Pool within its
      limit inside one critical section, when the registry checks what it stores
      ([CheckedStore], [TypedListings]; MobilityCapacity); and every action is confined to
      the effects of its signature (MobilityPass).
    - Whatever the other actors do between two calls: the CSI controller, with capacity
      admission as it is deployed, records a creation only for the requested volume on a
      Pool of its node and group that was ready and had room inside one critical section,
      makes a copy only for a recorded intent and reports it only when it is durable
      (CsiCreate); it deletes a state only after the absence of its copy was confirmed,
      and never ends a creation whose claim lives (CsiDelete); the capacity it reports is
      exact and saturates (CsiCapacity).
    - A node mounts a copy only under its storage lock, verified there as the serving copy
      of a Ready volume, and only below the target root; it clears a publication only when
      no target remains (PublicationSafety).
    - An executor works only under the lock of the volume and only for the creation or the
      cleanup its last check authorised; the disk is opened, made ready or destroyed
      directly after that check, but for the opening of the store of a reclaim and the
      settlement after a destruction or a proof of absence, which have no check of their
      own (EffectSafety); a creation or cleanup leaves its executor only when that executor is
      gone, for the single ready one of the node (EffectClientSafety).
    - A readiness pass records as ready, approves and releases only what it has inspected
      in that pass, and never replaces an anchored mount or allocation; the delays of its
      retries stay between one and thirty seconds (ReadinessSafety).

    ** Parameters

    Code outside the repository is a parameter with its documented behaviour as laws:
    [Apimachinery] (quantities, DNS names), [ApiClient] (optimistic concurrency, retry
    on conflict), [NodeEnv] (fresh inode numbers and names), the clock, the installation
    identity, and the block inspector that reads sysfs and device-mapper tables.  Each
    class has an instance in the library ([Sample], [ObjectStore], [Snapshot],
    [SampleNode]) on which the witnesses run.  The nil check of a registry's client
    ([Registry.validate]) always passes.

    ** Bounds and fuel

    - [resolve] recurses at most [maxDepth] = 16 levels, as the source does.
    - [BeginCreate] recurs through an object that has no initial Pool; [BeginCreate_settles]
      shows that two levels are enough while nobody removes a recorded reservation.
    - [Sum256] consumes one block of 16 words per step; the number of words suffices.
    - [retry_closure] takes the number of retries of the backoff as its argument; the
      theorems hold for every number.
    - [purgeContents] descends 257 levels, as the source does (depth 0 to 256); a deeper
      tree is an error of the code and is excluded by [purgeable] in the recovery
      theorem.
    - A marker has at most 8192 bytes; validated records always fit ([storable]).
    - [advanceMove] has fuel 2: it calls itself only to cancel a preparation that
      changed, and the second decision, taken on the minimal snapshot of the
      cancellation, only waits, blocks or protects the Move ([cancellation_decides]).
    - [poll] waits as many intervals of 250ms as the timeout of the client holds, and one
      more; [retry_conflict] makes four attempts, as the default backoff of the client
      library does.
    - A call of the mobility controller may be answered in any way that depends on the
      whole history; text arguments of formatted errors and log lines are not kept.

    ** Limits of the model

    Errors keep their sentinels and format strings, not the formatted arguments.  A
    context's cancellation is a failing call on the node and is not modelled elsewhere.
    A structured status field is decoded as a whole: which part of a malformed one is at
    fault is not distinguished.  Go maps
    whose order matters are read in an order that is an argument of the model.

    ** Not modelled

    The watches and work queues that decide when a modelled pass runs; the retry index of
    claims, the lifecycle controllers of Pools, admission webhooks, the upgrade gate, helper
    Pods, the scans of a node and Pool measurement, which drive or read the modelled
    records; the system calls of the readiness probe, which are the answers of an
    inspector; transport, certificates, metrics and process start-up, which have no logic
    of their own; generated code. *)

From stdpp Require Export base list strings gmap.
From stdpp Require Import relations.

(** ** Go errors and results

    An [error] keeps the sentinel it wraps ([%w]) and the format string of its
    message; formatted arguments are not part of the model.  [error_is] is
    [errors.Is]: it searches the wrapped errors. *)

Inductive error : Type :=
| Errorf (message : string)
| Wrapf (causes : list error) (message : string).

Fixpoint error_eqb (left right : error) {struct left} : bool :=
  match left, right with
  | Errorf a, Errorf b => String.eqb a b
  | Wrapf causes a, Wrapf causes' b =>
      String.eqb a b &&
      (fix eqb_all (l l' : list error) : bool :=
         match l, l' with
         | [], [] => true
         | x :: l, x' :: l' => error_eqb x x' && eqb_all l l'
         | _, _ => false
         end) causes causes'
  | _, _ => false
  end.

Fixpoint error_is (err target : error) {struct err} : bool :=
  error_eqb err target ||
  match err with
  | Errorf _ => false
  | Wrapf causes _ => existsb (fun cause => error_is cause target) causes
  end.

Inductive result (A : Type) : Type :=
| Ok (value : A)
| Err (err : error).
Arguments Ok {A} value.
Arguments Err {A} err.

(** Sequencing with early return: [if err != nil { return err }] after a call
    is stdpp's bind notation [x ← c; k]. *)
#[export] Instance result_ret : MRet result := fun A value => Ok value.
#[export] Instance result_bind : MBind result := fun A B k c =>
  match c with
  | Ok value => k value
  | Err err => Err err
  end.

(** [is_ok r] is the Go test [err == nil]. *)
Definition is_ok {A : Type} (r : result A) : bool :=
  match r with Ok _ => true | Err _ => false end.

(** [if condition { return err }] *)
Definition reject_if (condition : bool) (err : error) : result unit :=
  if condition then Err err else Ok tt.

(** [p == nil] on a pointer, modelled as an option. *)
Definition is_nil {A : Type} (p : option A) : bool :=
  match p with None => true | Some _ => false end.

(** [p != nil && f( *p )]. *)
Definition some_and {A : Type} (p : option A) (f : A -> bool) : bool :=
  match p with None => false | Some value => f value end.

Declare Scope go_scope.
Delimit Scope go_scope with go.
Notation "a == b" := (bool_decide (a = b)) (at level 70, no associativity) : go_scope.
Notation "a != b" := (negb (bool_decide (a = b))) (at level 70, no associativity) : go_scope.
#[global] Open Scope go_scope.

(** ** Machine integers *)

Definition MaxInt64 : Z := 9223372036854775807.
Definition MaxUint64 : Z := 18446744073709551615.

(** [int64] values are the integers in this range. *)
Definition int64_range (z : Z) : Prop := (- MaxInt64 - 1 <= z <= MaxInt64)%Z.

(** ** Slices of strings *)

(** [slices.Contains] *)
Definition contains (l : list string) (x : string) : bool := bool_decide (x ∈ l).

(** ** Reflection of the boolean tests into propositions *)

Section reflection.
Context {A B : Type}.

Lemma bind_Ok (c : result A) (k : A -> result B) (v : B) :
  c ≫= k = Ok v <-> exists x, c = Ok x /\ k x = Ok v.
Proof. destruct c; simpl; naive_solver. Qed.

Lemma bind_Err (c : result A) (k : A -> result B) (e : error) :
  c ≫= k = Err e <-> c = Err e \/ exists x, c = Ok x /\ k x = Err e.
Proof. destruct c; simpl; naive_solver. Qed.

Lemma is_ok_true (r : result A) : is_ok r = true <-> exists x, r = Ok x.
Proof. destruct r; simpl; naive_solver. Qed.

Lemma is_ok_false (r : result A) : is_ok r = false <-> exists e, r = Err e.
Proof. destruct r; simpl; naive_solver. Qed.

Lemma is_nil_true (p : option A) : is_nil p = true <-> p = None.
Proof. destruct p; simpl; naive_solver. Qed.

Lemma is_nil_false (p : option A) : is_nil p = false <-> exists x, p = Some x.
Proof. destruct p; simpl; naive_solver. Qed.

Lemma some_and_true (p : option A) (f : A -> bool) :
  some_and p f = true <-> exists x, p = Some x /\ f x = true.
Proof. destruct p; simpl; naive_solver. Qed.
End reflection.

(** A check followed by the rest of the function. *)
Lemma check_Ok {A : Type} (c : result unit) (k : result A) (v : A) :
  (c;; k) = Ok v <-> c = Ok tt /\ k = Ok v.
Proof. destruct c as [[]|]; simpl; naive_solver. Qed.

Lemma reject_if_Ok (b : bool) (e : error) (u : unit) :
  reject_if b e = Ok u <-> b = false.
Proof. destruct b, u; simpl; naive_solver. Qed.

Lemma reject_if_Err (b : bool) (e e' : error) :
  reject_if b e = Err e' <-> b = true /\ e = e'.
Proof. destruct b; simpl; naive_solver. Qed.

Lemma is_ok_unit (r : result unit) : is_ok r = true <-> r = Ok tt.
Proof. destruct r as [[]|]; simpl; naive_solver. Qed.

Lemma contains_true (l : list string) (x : string) : contains l x = true <-> x ∈ l.
Proof. apply bool_decide_eq_true. Qed.

Lemma contains_false (l : list string) (x : string) : contains l x = false <-> x ∉ l.
Proof. apply bool_decide_eq_false. Qed.

(** The same reflections as rewrite rules, for goals. *)
#[export] Hint Rewrite
  orb_false_iff andb_true_iff negb_true_iff negb_false_iff bool_decide_eq_true bool_decide_eq_false
  is_ok_unit contains_true contains_false reject_if_Ok
  Z.leb_le Z.leb_gt Z.ltb_lt Z.ltb_ge Nat.eqb_eq Nat.leb_le : go_reflect.

Ltac go_reflect := autorewrite with go_reflect.

(** One step of [go_inv]: open a boolean or result hypothesis. *)
Ltac go_inv_step :=
  match goal with
  | H : Ok _ = Ok _ |- _ => injection H as H
  | H : Ok _ = Err _ |- _ => discriminate H
  | H : Err _ = Ok _ |- _ => discriminate H
  | H : true = false |- _ => discriminate H
  | H : false = true |- _ => discriminate H
  | H : None = Some _ |- _ => discriminate H
  | H : Some _ = None |- _ => discriminate H
  | H : (_;; _) = Ok _ |- _ => apply check_Ok in H as [? H]
  | H : (_ ≫= _) = Ok _ |- _ => apply bind_Ok in H as (? & ? & H)
  | H : reject_if _ _ = Ok _ |- _ => apply reject_if_Ok in H
  | H : (_ || _)%bool = false |- _ => apply orb_false_iff in H as [? H]
  | H : (_ && _)%bool = true |- _ => apply andb_true_iff in H as [? H]
  | H : negb _ = true |- _ => apply negb_true_iff in H
  | H : negb _ = false |- _ => apply negb_false_iff in H
  | H : bool_decide _ = true |- _ => apply bool_decide_eq_true in H
  | H : bool_decide _ = false |- _ => apply bool_decide_eq_false in H
  | H : is_nil _ = true |- _ => apply is_nil_true in H
  | H : is_nil _ = false |- _ => apply is_nil_false in H as [? H]
  | H : some_and _ _ = true |- _ => apply some_and_true in H as (? & ? & H)
  | H : is_ok (A := unit) _ = true |- _ => apply is_ok_unit in H
  | H : is_ok _ = false |- _ => apply is_ok_false in H as [? H]
  | H : contains _ _ = true |- _ => apply contains_true in H
  | H : contains _ _ = false |- _ => apply contains_false in H
  | H : Nat.eqb _ _ = true |- _ => apply Nat.eqb_eq in H
  | H : Nat.leb _ _ = true |- _ => apply Nat.leb_le in H
  | H : Z.leb _ _ = true |- _ => apply Z.leb_le in H
  | H : Z.leb _ _ = false |- _ => apply Z.leb_gt in H
  | H : Z.ltb _ _ = true |- _ => apply Z.ltb_lt in H
  | H : Z.ltb _ _ = false |- _ => apply Z.ltb_ge in H
  end.

(** Open every guard that a successful call has passed. *)
Ltac go_inv := repeat (go_inv_step; simplify_eq/=).

(** Decide the closed tests of a goal or of the hypotheses by evaluation. *)
Ltac go_eval_test b :=
  let r := eval vm_compute in b in
  match r with
  | true => change b with true in *
  | false => change b with false in *
  end.

Ltac go_eval :=
  repeat match goal with
  | |- context [bool_decide (?a = ?b)] => go_eval_test (bool_decide (a = b))
  | H : context [bool_decide (?a = ?b)] |- _ => go_eval_test (bool_decide (a = b))
  end; simpl in *.

(** Case analysis on the innermost test of the goal. *)
Ltac go_case :=
  match goal with
  | |- context [match ?x with _ => _ end] =>
      lazymatch x with
      | context [match _ with _ => _ end] => fail
      | _ => destruct x eqn:?
      end
  end.

(** [errors.Join]: all operands have been evaluated. *)
Definition join (results : list (result unit)) : result unit :=
  match omap (fun r => match r with Ok _ => None | Err e => Some e end) results with
  | [] => Ok tt
  | errs => Err (Wrapf errs "")
  end.

(** ** Handlers *)

(** A computation in the world [W] that may fail. *)
Definition io (W A : Type) : Type := W -> result A * W.

#[export] Instance io_ret {W : Type} : MRet (io W) := fun A value w => (Ok value, w).
#[export] Instance io_bind {W : Type} : MBind (io W) := fun A B k c w =>
  match c w with
  | (Ok value, w) => k value w
  | (Err err, w) => (Err err, w)
  end.

Definition io_fail {W A : Type} (err : error) : io W A := fun w => (Err err, w).
Definition io_lift {W A : Type} (r : result A) : io W A := fun w => (r, w).
Definition io_reject_if {W : Type} (condition : bool) (err : error) : io W unit :=
  io_lift (reject_if condition err).

Lemma io_bind_Ok {W A B : Type} (c : io W A) (k : A -> io W B) (w w' : W) (b : B) :
  (c ≫= k) w = (Ok b, w') <-> exists a w1, c w = (Ok a, w1) /\ k a w1 = (Ok b, w').
Proof. unfold mbind, io_bind. destruct (c w) as [[a|e] w1]; naive_solver. Qed.

Lemma io_lift_Ok {W A : Type} (r : result A) (w w' : W) (a : A) :
  io_lift r w = (Ok a, w') <-> r = Ok a /\ w' = w.
Proof. unfold io_lift. naive_solver. Qed.

(** Open the steps of a handler that returned. *)
Ltac io_inv :=
  repeat match goal with
  | H : (_ ≫= _) _ = (Ok _, _) |- _ => apply io_bind_Ok in H as (? & ? & ? & H)
  | H : io_lift _ _ = (Ok _, _) |- _ => apply io_lift_Ok in H as [? ->]
  | H : io_reject_if _ _ _ = (Ok _, _) |- _ => unfold io_reject_if in H
  | H : io_fail _ _ = (Ok _, _) |- _ => discriminate H
  | H : reject_if _ _ = Ok _ |- _ => apply reject_if_Ok in H
  end.

(** ** Runs of a step relation *)

(** Facts that close the side conditions of a proof about runs. *)
Create HintDb shiftpv.
#[export] Hint Resolve rtc_refl rtc_once : shiftpv.
#[export] Hint Extern 2 (rtc _ _ _) => eassumption : shiftpv.

(** Compose the runs among the hypotheses into the one of the goal. *)
Ltac rtc_chain :=
  first
    [ solve [auto with shiftpv]
    | match goal with
      | H : rtc ?R ?a ?b |- rtc ?R ?a _ => transitivity b; [exact H|clear H; rtc_chain]
      end ].
