(* ===== verification/RecordUpdate.v ===== *)
(** * Assignments to fields

    Go assigns to single fields of large structs.  [r <| field := value |>] is the
    record [r] after such an assignment.  A record type is made updatable by giving its
    eta expansion ([Settable]); the setter of a projection is then found by replacing
    that projection in the expansion. *)

From S2P Require Import Prelude.

Class Settable (R : Type) := { eta : R -> R; eta_id : forall r, eta r = r }.
#[global] Hint Mode Settable ! : typeclass_instances.

Class Setter {R T : Type} (proj : R -> T) := assign : T -> R -> R.
#[global] Hint Mode Setter ! ! ! : typeclass_instances.

Ltac solve_setter proj :=
  lazymatch goal with
  | |- Setter (R := ?R) (T := ?T) _ =>
      let instance := constr:(_ : Settable R) in
      let instance := eval hnf in instance in
      lazymatch instance with
      | Build_Settable _ ?expand _ =>
          let value := fresh "value" in
          let record := fresh "record" in
          intros value record;
          let body := eval cbv beta in (expand record) in
          let body := eval pattern (proj record) in body in
          lazymatch body with
          | ?replaced _ => let body := eval cbv beta in (replaced value) in exact body
          end
      end
  end.
#[global] Hint Extern 0 (Setter ?proj) => solve_setter proj : typeclass_instances.

Notation "r '<|' proj := value '|>'" := (assign (proj := proj) value r)
  (at level 12, left associativity, proj constr, value at level 200).
