(* ===== verification/Bytes.v ===== *)
(** * Byte strings of the Go standard library

    The parts of [strings], [encoding/hex], [path/filepath] and
    [crypto/sha256] that ShiftPV's identity rules use.  A Go [string] is a
    byte sequence, here a Rocq [string]; a word of SHA-256 is an [N] below
    2^32. *)

From S2P Require Import Prelude.
From Stdlib Require Import Ascii.

(** ** Characters and substrings *)

Fixpoint string_forallb (p : ascii -> bool) (s : string) : bool :=
  match s with
  | EmptyString => true
  | String c s => p c && string_forallb p s
  end.

Definition ascii_eqb (a b : ascii) : bool := Ascii.eqb a b.

(** [strings.ContainsAny] *)
Definition ContainsAny (s chars : string) : bool :=
  negb (string_forallb (fun c => string_forallb (fun d => negb (ascii_eqb c d)) chars) s).

(** [strings.HasPrefix] *)
Definition HasPrefix (s p : string) : bool := String.prefix p s.

(** [strings.HasSuffix] *)
Definition HasSuffix (s p : string) : bool :=
  (String.length p <=? String.length s)%nat &&
  String.eqb (String.substring (String.length s - String.length p) (String.length p) s) p.

(** [strings.TrimPrefix] *)
Fixpoint TrimPrefix (s p : string) : string :=
  match p, s with
  | EmptyString, _ => s
  | String a p', String b s' => if ascii_eqb a b
                                then if HasPrefix s' p' then TrimPrefix s' p' else s
                                else s
  | String _ _, EmptyString => s
  end.

(** [strings.TrimSuffix(s, "/")] *)
Fixpoint TrimSuffixSlash (s : string) : string :=
  match s with
  | EmptyString => EmptyString
  | String c EmptyString => if ascii_eqb c "/"%char then EmptyString else s
  | String c s' => String c (TrimSuffixSlash s')
  end.

Lemma length_append (a b : string) :
  String.length (a +:+ b) = String.length a + String.length b.
Proof. induction a as [|c a IH]; [done|]. simpl. by rewrite <- IH. Qed.

Lemma append_assoc (a b c : string) : (a +:+ b) +:+ c = a +:+ (b +:+ c).
Proof. induction a as [|x a IH]; [done|]. exact (f_equal (String x) IH). Qed.

Lemma append_empty_r (a : string) : a +:+ "" = a.
Proof. induction a as [|x a IH]; [done|]. exact (f_equal (String x) IH). Qed.

Lemma string_forallb_app (p : ascii -> bool) (a b : string) :
  string_forallb p (a +:+ b) = string_forallb p a && string_forallb p b.
Proof.
  induction a as [|c a IH]; [done|].
  change (p c && string_forallb p (a +:+ b) = p c && string_forallb p a && string_forallb p b).
  by rewrite IH, andb_assoc.
Qed.

Lemma HasPrefix_spec (s p : string) : HasPrefix s p = true <-> exists r, s = p +:+ r.
Proof.
  unfold HasPrefix. revert s. induction p as [|c p IH]; intros s.
  - split; [intros _; by exists s|]. intros _. by destruct s.
  - destruct s as [|d s]; simpl.
    { split; [done|]. intros [r H]. discriminate H. }
    destruct (ascii_dec c d) as [->|Hne].
    + rewrite IH. split; intros [r Hr]; exists r.
      * rewrite Hr. done.
      * by injection Hr.
    + split; [done|]. intros [r Hr]. by injection Hr as <- _.
Qed.

Lemma append_inj_l (p a b : string) : p +:+ a = p +:+ b -> a = b.
Proof. induction p as [|c p IH]; [done|]. intros H. apply IH. by injection H. Qed.

(** ** [encoding/hex] *)

Definition hex_digit (n : N) : ascii :=
  ascii_of_N (if (n <? 10)%N then 48 + n else 87 + n).

(** [hex.EncodeToString] of the bytes of a string: two lower-case digits each. *)
Fixpoint EncodeToString (s : string) : string :=
  match s with
  | EmptyString => EmptyString
  | String c s =>
      String (hex_digit (N.div (N_of_ascii c) 16))
        (String (hex_digit (N.modulo (N_of_ascii c) 16)) (EncodeToString s))
  end.

Definition from_hex (c : ascii) : option N :=
  let n := N_of_ascii c in
  if ((48 <=? n) && (n <=? 57))%N then Some (n - 48)%N
  else if ((97 <=? n) && (n <=? 102))%N then Some (n - 87)%N
  else if ((65 <=? n) && (n <=? 70))%N then Some (n - 55)%N
  else None.

(** [hex.DecodeString]: an odd length or a character outside 0-9a-fA-F is an
    error. *)
Fixpoint DecodeString (s : string) : result string :=
  match s with
  | EmptyString => Ok ""
  | String _ EmptyString => Err (Errorf "encoding/hex: odd length hex string")
  | String a (String b s') =>
      match from_hex a, from_hex b with
      | Some high, Some low =>
          rest ← DecodeString s'; Ok (String (ascii_of_N (16 * high + low)) rest)
      | _, _ => Err (Errorf "encoding/hex: invalid byte")
      end
  end.

Definition is_lower_hex (c : ascii) : bool :=
  let n := N_of_ascii c in
  ((48 <=? n) && (n <=? 57) || (97 <=? n) && (n <=? 102))%N.

(** [strings.ToLower] on ASCII letters. *)
Definition lower_ascii (c : ascii) : ascii :=
  let n := N_of_ascii c in
  if ((65 <=? n) && (n <=? 90))%N then ascii_of_N (n + 32) else c.

Fixpoint ToLower (s : string) : string :=
  match s with
  | EmptyString => EmptyString
  | String c s => String (lower_ascii c) (ToLower s)
  end.

Lemma EncodeToString_length (s : string) :
  String.length (EncodeToString s) = 2 * String.length s.
Proof. induction s as [|c s IH]; [done|]. simpl in *. lia. Qed.

Lemma EncodeToString_lower_hex (s : string) :
  string_forallb is_lower_hex (EncodeToString s) = true.
Proof.
  induction s as [|c s IH]; [done|]. cbn [EncodeToString string_forallb]. rewrite IH.
  destruct c as [[] [] [] [] [] [] [] []]; reflexivity.
Qed.

Lemma DecodeString_EncodeToString (s : string) : DecodeString (EncodeToString s) = Ok s.
Proof.
  induction s as [|c s IH]; [done|].
  cbn [EncodeToString DecodeString]. rewrite IH.
  destruct c as [[] [] [] [] [] [] [] []]; reflexivity.
Qed.

(** ** The byte order of strings *)

Lemma string_compare_trans (a b c : string) :
  String.compare a b = Lt -> String.compare b c = Lt -> String.compare a c = Lt.
Proof.
  revert b c. induction a as [|x a IH]; intros [|y b] [|z c] H1 H2; simpl in *; try done.
  unfold Ascii.compare in *.
  destruct (N.compare_spec (N_of_ascii x) (N_of_ascii y)) as [Exy|Exy|Exy]; try done;
  destruct (N.compare_spec (N_of_ascii y) (N_of_ascii z)) as [Eyz|Eyz|Eyz]; try done;
  destruct (N.compare_spec (N_of_ascii x) (N_of_ascii z)) as [Exz|Exz|Exz]; try done; try lia.
  by apply (IH b).
Qed.

Lemma string_compare_refl (a : string) : String.compare a a = Eq.
Proof.
  induction a as [|x a IH]; simpl; [done|]. unfold Ascii.compare. by rewrite N.compare_refl.
Qed.

(** Case analysis on the order of two strings. *)
Lemma string_compare_cases (a b : string) :
  (String.compare a b = Lt /\ String.compare b a = Gt) \/ a = b \/
  (String.compare a b = Gt /\ String.compare b a = Lt).
Proof.
  pose proof (String.compare_antisym a b) as H.
  destruct (String.compare a b) eqn:E; destruct (String.compare b a); try done; auto;
  apply String.compare_eq_iff in E; auto.
Qed.

Lemma compare_Eq (a b : string) : String.compare a b = Eq -> a = b.
Proof. apply String.compare_eq_iff. Qed.

(** The order of [sort.Strings]. *)
Definition string_le (a b : string) : Prop := String.compare a b <> Gt.

#[export] Instance string_le_dec : RelDecision string_le.
Proof. intros a b. unfold string_le. destruct (String.compare a b); [left|left|right]; naive_solver. Defined.

(** ** [crypto/sha256] *)

Module Sha256.
Definition word_mask : N := 4294967295.
Definition add32 (a b : N) : N := N.land (a + b) word_mask.
Definition rotr (n : N) (x : N) : N :=
  N.lor (N.shiftr x n) (N.land (N.shiftl x (32 - n)) word_mask).
Definition not32 (x : N) : N := N.lxor x word_mask.

(** The constants are defined by FIPS 180-4: the first 32 bits of the fractional
    parts of the cube roots of the first 64 primes, and of the square roots of the
    first 8. *)
Fixpoint primes_from (fuel : nat) (n : N) (primes : list N) : list N :=
  match fuel with
  | O => rev primes
  | S fuel =>
      primes_from fuel (n + 1)
        (if existsb (fun p => (n mod p =? 0)%N) primes then primes else n :: primes)
  end.

Definition first_primes : list N := firstn 64 (primes_from 310 2 []).

(** The largest [r] below [2 ^ bits] with [r ^ e <= n], by bisection. *)
Fixpoint root (e : N) (bits : nat) (n r : N) : N :=
  match bits with
  | O => r
  | S bits =>
      let candidate := (r + 2 ^ N.of_nat bits)%N in
      root e bits n (if (candidate ^ e <=? n)%N then candidate else r)
  end.

Definition fractional_root (e p : N) : N := N.land (root e 38 (p * 2 ^ (32 * e)) 0) word_mask.

Definition round_constants : list N := Eval vm_compute in map (fractional_root 3) first_primes.

(** The eight chaining words. *)
Record state := State8 { wa : N; wb : N; wc : N; wd : N; we : N; wf : N; wg : N; wh : N }.

Definition initial : state := Eval vm_compute in
  match map (fractional_root 2) (firstn 8 first_primes) with
  | [a; b; c; d; e; f; g; h] => State8 a b c d e f g h
  | _ => State8 0 0 0 0 0 0 0 0
  end.

Definition big_sigma0 (x : N) : N := N.lxor (rotr 2 x) (N.lxor (rotr 13 x) (rotr 22 x)).
Definition big_sigma1 (x : N) : N := N.lxor (rotr 6 x) (N.lxor (rotr 11 x) (rotr 25 x)).
Definition small_sigma0 (x : N) : N := N.lxor (rotr 7 x) (N.lxor (rotr 18 x) (N.shiftr x 3)).
Definition small_sigma1 (x : N) : N := N.lxor (rotr 17 x) (N.lxor (rotr 19 x) (N.shiftr x 10)).
Definition choose (x y z : N) : N := N.lxor (N.land x y) (N.land (not32 x) z).
Definition majority (x y z : N) : N := N.lxor (N.land x y) (N.lxor (N.land x z) (N.land y z)).

(** The message schedule, newest word first. *)
Fixpoint schedule (fuel : nat) (w : list N) : list N :=
  match fuel with
  | O => w
  | S fuel =>
      let at_ i := nth i w 0%N in
      schedule fuel
        (add32 (add32 (small_sigma1 (at_ 1)) (at_ 6))
           (add32 (small_sigma0 (at_ 14)) (at_ 15)) :: w)
  end.

Definition round (s : state) (kw : N * N) : state :=
  let t1 := add32 (add32 (wh s) (big_sigma1 (we s)))
              (add32 (choose (we s) (wf s) (wg s)) (add32 kw.1 kw.2)) in
  let t2 := add32 (big_sigma0 (wa s)) (majority (wa s) (wb s) (wc s)) in
  State8 (add32 t1 t2) (wa s) (wb s) (wc s) (add32 (wd s) t1) (we s) (wf s) (wg s).

Definition compress (s : state) (block : list N) : state :=
  let w := rev (schedule 48 (rev block)) in
  let r := fold_left round (combine round_constants w) s in
  State8 (add32 (wa s) (wa r)) (add32 (wb s) (wb r)) (add32 (wc s) (wc r)) (add32 (wd s) (wd r))
         (add32 (we s) (we r)) (add32 (wf s) (wf r)) (add32 (wg s) (wg r)) (add32 (wh s) (wh r)).

Fixpoint bytes_of (s : string) : list N :=
  match s with
  | EmptyString => []
  | String c s => N_of_ascii c :: bytes_of s
  end.

Definition be_bytes (count : nat) (x : N) : list N :=
  map (fun i => N.land (N.shiftr x (8 * N.of_nat (count - 1 - i))) 255) (seq 0 count).

Definition pad (message : list N) : list N :=
  let len := length message in
  let zeros := ((64 - (len + 9) mod 64) mod 64)%nat in
  message ++ [128%N] ++ repeat 0%N zeros ++ be_bytes 8 (8 * N.of_nat len).

Fixpoint words_of (bytes : list N) : list N :=
  match bytes with
  | a :: b :: c :: d :: rest =>
      (N.shiftl a 24 + N.shiftl b 16 + N.shiftl c 8 + d)%N :: words_of rest
  | _ => []
  end.

Fixpoint blocks (fuel : nat) (s : state) (words : list N) : state :=
  match fuel, words with
  | S fuel, _ :: _ => blocks fuel (compress s (firstn 16 words)) (skipn 16 words)
  | _, _ => s
  end.

Fixpoint string_of_bytes (bytes : list N) : string :=
  match bytes with
  | [] => EmptyString
  | b :: bytes => String (ascii_of_N b) (string_of_bytes bytes)
  end.

Definition word_bytes (s : state) : list N :=
  be_bytes 4 (wa s) ++ be_bytes 4 (wb s) ++ be_bytes 4 (wc s) ++ be_bytes 4 (wd s) ++
  be_bytes 4 (we s) ++ be_bytes 4 (wf s) ++ be_bytes 4 (wg s) ++ be_bytes 4 (wh s).

(** [sha256.Sum256]; one block per 16 words, so the word count is enough fuel. *)
Definition Sum256 (data : string) : string :=
  let words := words_of (pad (bytes_of data)) in
  string_of_bytes (word_bytes (blocks (length words) initial words)).

Lemma length_string_of_bytes (bytes : list N) :
  String.length (string_of_bytes bytes) = length bytes.
Proof. induction bytes as [|b bytes IH]; [done|]. simpl. by rewrite IH. Qed.

Lemma Sum256_length (data : string) : String.length (Sum256 data) = 32.
Proof. unfold Sum256. rewrite length_string_of_bytes. reflexivity. Qed.

(** FIPS 180-4 test vectors. *)
Example Sum256_abc :
  EncodeToString (Sum256 "abc") =
  "ba7816bf8f01cfea414140de5dae2223b00361a396177a9cb410ff61f20015ad".
Proof. vm_compute. reflexivity. Qed.

Example Sum256_two_blocks :
  EncodeToString (Sum256 "abcdbcdecdefdefgefghfghighijhijkijkljklmklmnlmnomnopnopq") =
  "248d6a61d20638b8e5c026930c3e6039a33ce45964ff2167f6ecedd419db06c1".
Proof. vm_compute. reflexivity. Qed.
End Sha256.
