(* ===== verification/Json.v ===== *)
(** * JSON documents

    What the program uses of encoding/json: [json.Marshal] of structs of strings,
    numbers, booleans and structs, and [json.Unmarshal] of documents that are then
    compared with their canonical encoding.  The encoder escapes quotes, backslashes,
    control characters and the characters of HTML, replaces bytes that are not UTF-8,
    and escapes the two line separators that JavaScript rejects.  The decoder reads
    the compact form that the encoder writes: the program refuses every other form of
    a document, whether it decodes or not, with the same error. *)

From S2P Require Import Prelude Bytes.
From Stdlib Require Import Ascii DecimalString DecimalN DecimalPos Wf_nat.

Definition code (c : ascii) : N := N_of_ascii c.
Definition chr (n : N) : ascii := ascii_of_N n.
Definition within (low high : N) (c : ascii) : bool := ((low <=? code c) && (code c <=? high))%N.
Definition continuation : ascii -> bool := within 0x80 0xBF.

(** The number of bytes of the UTF-8 sequence at the start of a string that starts
    with a byte above 127, or 0 if that byte starts none. *)
Definition sequence (s : string) : nat :=
  match s with
  | String a (String b rest) =>
      if within 0xC2 0xDF a && continuation b then 2
      else match rest with
           | EmptyString => 0
           | String c rest =>
               if ((code a =? 0xE0)%N && within 0xA0 0xBF b ||
                   (within 0xE1 0xEC a || within 0xEE 0xEF a) && continuation b ||
                   (code a =? 0xED)%N && within 0x80 0x9F b) && continuation c then 3
               else match rest with
                    | EmptyString => 0
                    | String d _ =>
                        if ((code a =? 0xF0)%N && within 0x90 0xBF b || within 0xF1 0xF3 a && continuation b ||
                            (code a =? 0xF4)%N && within 0x80 0x8F b) && continuation c && continuation d then 4 else 0
                    end
           end
  | _ => 0
  end.

Definition backslash : ascii := "\"%char.
Definition quotation : ascii := chr 34.

(** A byte below 128. *)
Definition escape_ascii (c : ascii) (rest : string) : string :=
  let n := code c in
  if ((n =? 34) || (n =? 92))%N then String backslash (String c rest)
  else if (n =? 8)%N then String backslash (String "b"%char rest)
  else if (n =? 12)%N then String backslash (String "f"%char rest)
  else if (n =? 10)%N then String backslash (String "n"%char rest)
  else if (n =? 13)%N then String backslash (String "r"%char rest)
  else if (n =? 9)%N then String backslash (String "t"%char rest)
  else if ((n <? 32) || (n =? 60) || (n =? 62) || (n =? 38))%N
  then String backslash ("u00" +:+ EncodeToString (String c "") +:+ rest)
  else String c rest.

(** [copied] bytes of the current sequence are still to be copied. *)
Fixpoint escape (copied : nat) (s : string) : string :=
  match s with
  | EmptyString => ""
  | String c s' =>
      match copied with
      | S copied => String c (escape copied s')
      | O =>
          if (code c <? 128)%N then escape_ascii c (escape 0 s')
          else match sequence s with
               | O => String backslash ("ufffd" +:+ escape 0 s')
               | S width =>
                   match s' with
                   | String b (String d s'') =>
                       if ((code c =? 0xE2) && (code b =? 0x80) && ((code d =? 0xA8) || (code d =? 0xA9)))%N
                       then String backslash ((if (code d =? 0xA8)%N then "u2028" else "u2029") +:+ escape 0 s'')
                       else String c (escape width s')
                   | _ => String c (escape width s')
                   end
               end
      end
  end.

Definition quote (s : string) : string := String quotation (escape 0 s +:+ String quotation "").

(** The members of an object of strings, in the order of the struct. *)
Fixpoint members (fields : list (string * string)) : string :=
  match fields with
  | [] => ""
  | [(name, value)] => quote name +:+ ":" +:+ quote value
  | (name, value) :: fields => quote name +:+ ":" +:+ quote value +:+ "," +:+ members fields
  end.

Definition marshal_object (fields : list (string * string)) : string := "{" +:+ members fields +:+ "}".

(** Check against the encoder's documented output for the bytes a<LF>b, then an
    ampersand, U+2028 and an invalid byte. *)
Example escape_sample :
  escape 0 (String "a" (String (chr 10) (String "&" (String (chr 0xE2) (String (chr 0x80) (String (chr 0xA8)
    (String (chr 0xC3) (String (chr 0xA9) (String (chr 0xFF) ""))))))))) =
  "a\n\u0026\u2028" +:+ String (chr 0xC3) (String (chr 0xA9) "\ufffd").
Proof. vm_compute. reflexivity. Qed.

(** ** Documents *)

Inductive json : Type :=
| JString (s : string)
| JNumber (n : N)
| JBool (b : bool)
| JObject (fields : list (string * json)).

Definition decimal (n : N) : string := NilEmpty.string_of_uint (N.to_uint n).

Fixpoint marshal (v : json) : string :=
  match v with
  | JString s => quote s
  | JNumber n => decimal n
  | JBool b => if b then "true" else "false"
  | JObject fields =>
      "{" +:+ (fix marshal_members (fields : list (string * json)) : string :=
                 match fields with
                 | [] => ""
                 | [(name, value)] => quote name +:+ ":" +:+ marshal value
                 | (name, value) :: rest => quote name +:+ ":" +:+ marshal value +:+ "," +:+ marshal_members rest
                 end) fields +:+ "}"
  end.

(** ** Decoding *)

Definition hex_value (c : ascii) : option N :=
  if within 48 57 c then Some (code c - 48)%N
  else if within 97 102 c then Some (code c - 87)%N
  else if within 65 70 c then Some (code c - 55)%N
  else None.

(** The UTF-8 form of a code point below 2^16 that is not a surrogate. *)
Definition utf8_encode (n : N) : option string :=
  if (n <? 0x80)%N then Some (String (chr n) "")
  else if (n <? 0x800)%N
  then Some (String (chr (0xC0 + N.shiftr n 6)) (String (chr (0x80 + N.land n 63)) ""))
  else if ((0xD800 <=? n) && (n <? 0xE000))%N then None
  else Some (String (chr (0xE0 + N.shiftr n 12))
              (String (chr (0x80 + N.land (N.shiftr n 6) 63)) (String (chr (0x80 + N.land n 63)) ""))).

Definition simple_escape (c : ascii) : option ascii :=
  let n := code c in
  if ((n =? 34) || (n =? 92) || (n =? 47))%N then Some c
  else if (n =? 98)%N then Some (chr 8)
  else if (n =? 102)%N then Some (chr 12)
  else if (n =? 110)%N then Some (chr 10)
  else if (n =? 114)%N then Some (chr 13)
  else if (n =? 116)%N then Some (chr 9)
  else None.

(** The rest of a string literal after its opening quote: the value and what
    follows the closing quote. *)
Fixpoint unquote (s : string) : option (string * string) :=
  match s with
  | EmptyString => None
  | String c s' =>
      if (code c =? 34)%N then Some ("", s')
      else if (code c =? 92)%N then
        match s' with
        | String "u" (String h1 (String h2 (String h3 (String h4 rest)))) =>
            match hex_value h1, hex_value h2, hex_value h3, hex_value h4 with
            | Some a, Some b, Some c, Some d =>
                match utf8_encode (a * 4096 + b * 256 + c * 16 + d)%N, unquote rest with
                | Some bytes, Some (value, rest) => Some (bytes +:+ value, rest)
                | _, _ => None
                end
            | _, _, _, _ => None
            end
        | String e rest =>
            match simple_escape e, unquote rest with
            | Some c, Some (value, rest) => Some (String c value, rest)
            | _, _ => None
            end
        | EmptyString => None
        end
      else if (code c <? 32)%N then None
      else match unquote s' with
           | Some (value, rest) => Some (String c value, rest)
           | None => None
           end
  end.

(** [expect literal s]: what follows [literal] in [s]. *)
Fixpoint expect (literal s : string) : option string :=
  match literal, s with
  | EmptyString, _ => Some s
  | String a literal, String b s => if ascii_eqb a b then expect literal s else None
  | _, EmptyString => None
  end.

Fixpoint take_digits (s : string) : string * string :=
  match s with
  | String c s' => if within 48 57 c then let '(digits, rest) := take_digits s' in (String c digits, rest) else ("", s)
  | EmptyString => ("", "")
  end.

Definition parse_number (s : string) : option (N * string) :=
  match take_digits s with
  | (EmptyString, _) => None
  | (digits, rest) => match NilEmpty.uint_of_string digits with
                      | Some u => Some (N.of_uint u, rest)
                      | None => None
                      end
  end.

(** Each level of a document consumes at least one byte: the length of the text is
    enough fuel. *)
Fixpoint parse_value (fuel : nat) (s : string) {struct fuel} : option (json * string) :=
  match fuel, s with
  | S fuel, String c s' =>
      if (code c =? 34)%N then
        match unquote s' with Some (value, rest) => Some (JString value, rest) | None => None end
      else if (code c =? 123)%N then
        match parse_members fuel s' with Some (fields, rest) => Some (JObject fields, rest) | None => None end
      else if (code c =? 116)%N then
        match expect "true" s with Some rest => Some (JBool true, rest) | None => None end
      else if (code c =? 102)%N then
        match expect "false" s with Some rest => Some (JBool false, rest) | None => None end
      else match parse_number s with Some (n, rest) => Some (JNumber n, rest) | None => None end
  | _, _ => None
  end
(** The members of an object after its opening brace. *)
with parse_members (fuel : nat) (s : string) {struct fuel} : option (list (string * json) * string) :=
  match fuel, s with
  | S fuel, String c s' =>
      if (code c =? 34)%N then
        match unquote s' with
        | Some (name, String colon rest) =>
            if (code colon =? 58)%N then
              match parse_value fuel rest with
              | Some (value, String d rest) =>
                  if (code d =? 125)%N then Some ([(name, value)], rest)
                  else if (code d =? 44)%N then
                    match parse_members fuel rest with
                    | Some (fields, rest) => Some ((name, value) :: fields, rest)
                    | None => None
                    end
                  else None
              | _ => None
              end
            else None
        | _ => None
        end
      else None
  | _, _ => None
  end.

Definition unmarshal (data : string) : option json :=
  match parse_value (S (String.length data)) data with
  | Some (v, EmptyString) => Some v
  | _ => None
  end.

Example unmarshal_sample :
  let v := JObject [("version", JNumber 1); ("value", JObject [("name", JString "a<b"); ("purged", JBool true)])] in
  unmarshal (marshal v) = Some v.
Proof. vm_compute. reflexivity. Qed.

(** ** Round trip *)

(** [s] is UTF-8, of which [copied] bytes of the current sequence are still to come. *)
Fixpoint utf8 (copied : nat) (s : string) : bool :=
  match s with
  | EmptyString => (copied =? 0)%nat
  | String c s' =>
      match copied with
      | S copied => (128 <=? code c)%N && utf8 copied s'
      | O => if (code c <? 128)%N then utf8 0 s'
             else match sequence s with O => false | S width => utf8 width s' end
      end
  end.

Lemma escape_ascii_app (c : ascii) (s t : string) : escape_ascii c s +:+ t = escape_ascii c (s +:+ t).
Proof. destruct c as [[] [] [] [] [] [] [] []]; reflexivity. Qed.

Lemma unquote_escape_ascii (c : ascii) (s : string) :
  (code c <? 128)%N = true ->
  unquote (escape_ascii c s) = match unquote s with Some (value, rest) => Some (String c value, rest) | None => None end.
Proof. destruct c as [[] [] [] [] [] [] [] []]; try discriminate; reflexivity. Qed.

(** A byte above 127 stands for itself. *)
Lemma unquote_high (c : ascii) (s : string) :
  (128 <=? code c)%N = true ->
  unquote (String c s) = match unquote s with Some (value, rest) => Some (String c value, rest) | None => None end.
Proof.
  intros H. apply N.leb_le in H. simpl.
  destruct (N.eqb_spec (code c) 34); [lia|]. destruct (N.eqb_spec (code c) 92); [lia|].
  destruct (N.ltb_spec (code c) 32); [lia|done].
Qed.

Lemma chr_code (c : ascii) : chr (code c) = c.
Proof. apply ascii_N_embedding. Qed.

(** The two escaped line separators. *)
Lemma unquote_separator (last : bool) (u : string) :
  unquote (String backslash ((if last then "u2028" else "u2029") +:+ u)) =
  match unquote u with
  | Some (value, rest) => Some (String (chr 0xE2) (String (chr 0x80) (String (chr (if last then 0xA8 else 0xA9)) value)), rest)
  | None => None
  end.
Proof. destruct last; reflexivity. Qed.

Lemma unquote_escape (s t : string) (copied : nat) :
  utf8 copied s = true -> unquote (escape copied s +:+ String quotation t) = Some (s, t).
Proof.
  remember (String.length s) as n eqn:Hn. revert s copied Hn.
  induction n as [n IH] using (well_founded_induction lt_wf). intros [|c s'] copied -> Hu.
  { by destruct copied. }
  assert (forall k r, String.length r < String.length (String c s') -> utf8 k r = true ->
    unquote (escape k r +:+ String quotation t) = Some (r, t)) as IH' by (intros k r Hr; by apply (IH _ Hr)).
  clear IH. cbn [utf8 escape] in *. destruct copied as [|copied].
  2:{ apply andb_true_iff in Hu as [Hc Hu]. change (String c (escape copied s') +:+ String quotation t)
        with (String c (escape copied s' +:+ String quotation t)).
      rewrite unquote_high, IH' by (simpl; auto; lia). done. }
  destruct (code c <? 128)%N eqn:Ec.
  { rewrite escape_ascii_app, unquote_escape_ascii, IH' by (simpl; auto; lia). done. }
  assert ((128 <=? code c)%N = true) as Hc by (rewrite N.leb_antisym, Ec; done).
  destruct (sequence (String c s')) as [|width] eqn:Es; [done|].
  assert (unquote (String c (escape width s') +:+ String quotation t) = Some (String c s', t)) as Hcopy.
  { change (String c (escape width s') +:+ String quotation t) with (String c (escape width s' +:+ String quotation t)).
    rewrite unquote_high, IH' by (simpl; auto; lia). done. }
  destruct s' as [|b [|d s'']]; [exact Hcopy..|].
  destruct (_ && _ && _)%N eqn:Esep; [|exact Hcopy]. clear Hcopy.
  rewrite !andb_true_iff, orb_true_iff, !N.eqb_eq in Esep. destruct Esep as [[Ec' Eb] Ed].
  assert (c = chr 0xE2) as -> by (by rewrite <- Ec', chr_code).
  assert (b = chr 0x80) as -> by (by rewrite <- Eb, chr_code).
  destruct Ed as [Ed|Ed].
  - assert (d = chr 0xA8) as -> by (by rewrite <- Ed, chr_code). vm_compute in Es. injection Es as <-. change (utf8 0 s'' = true) in Hu.
    change (unquote (String backslash ((if true then "u2028" else "u2029") +:+ (escape 0 s'' +:+ String quotation t))) =
      Some (String (chr 0xE2) (String (chr 0x80) (String (chr 0xA8) s'')), t)).
    pose proof (IH' 0 s'' ltac:(simpl; lia) Hu) as IHs. by rewrite unquote_separator, IHs.
  - assert (d = chr 0xA9) as -> by (by rewrite <- Ed, chr_code). vm_compute in Es. injection Es as <-. change (utf8 0 s'' = true) in Hu.
    change (unquote (String backslash ((if false then "u2028" else "u2029") +:+ (escape 0 s'' +:+ String quotation t))) =
      Some (String (chr 0xE2) (String (chr 0x80) (String (chr 0xA9) s'')), t)).
    pose proof (IH' 0 s'' ltac:(simpl; lia) Hu) as IHs. by rewrite unquote_separator, IHs.
Qed.

Section json_induction.
Variable P : json -> Prop.
Hypothesis HString : forall s, P (JString s).
Hypothesis HNumber : forall n, P (JNumber n).
Hypothesis HBool : forall b, P (JBool b).
Hypothesis HObject : forall fields, Forall (fun f => P (snd f)) fields -> P (JObject fields).

Fixpoint json_nested_ind (v : json) : P v :=
  match v with
  | JString s => HString s
  | JNumber n => HNumber n
  | JBool b => HBool b
  | JObject fields =>
      HObject fields
        ((fix go (l : list (string * json)) : Forall (fun f => P (snd f)) l :=
            match l with
            | [] => List.Forall_nil _
            | (name, value) :: l => List.Forall_cons _ (name, value) l (json_nested_ind value) (go l)
            end) fields)
  end.
End json_induction.

(** The members of a marshalled object. *)
Fixpoint marshal_members (fields : list (string * json)) : string :=
  match fields with
  | [] => ""
  | [(name, value)] => quote name +:+ ":" +:+ marshal value
  | (name, value) :: rest => quote name +:+ ":" +:+ marshal value +:+ "," +:+ marshal_members rest
  end.

Lemma marshal_JObject (fields : list (string * json)) : marshal (JObject fields) = "{" +:+ marshal_members fields +:+ "}".
Proof. done. Qed.

(** Strings are UTF-8 and objects have a member. *)
Fixpoint well_formed (v : json) : bool :=
  match v with
  | JString s => utf8 0 s
  | JObject fields =>
      negb (length fields =? 0)%nat && forallb (fun f => utf8 0 (fst f)) fields && forallb (fun f => well_formed (snd f)) fields
  | _ => true
  end.

(** The number of levels and members the parser passes. *)
Fixpoint size (v : json) : nat :=
  match v with
  | JObject fields => S (foldr (fun f n => S (size (snd f) + n)) 0 fields)
  | _ => 1
  end.
Definition members_size (fields : list (string * json)) : nat := foldr (fun f n => S (size (snd f) + n)) 0 fields.

(** What may follow a value. *)
Definition delimited (t : string) : bool :=
  match t with EmptyString => true | String c _ => negb (within 48 57 c) end.

Lemma unquote_quote (s t : string) : utf8 0 s = true -> unquote (escape 0 s +:+ String quotation "" +:+ t) = Some (s, t).
Proof. intros H. by apply unquote_escape. Qed.

Lemma take_digits_uint (u : Decimal.uint) (t : string) :
  delimited t = true -> take_digits (NilEmpty.string_of_uint u +:+ t) = (NilEmpty.string_of_uint u, t).
Proof.
  intros Ht. induction u as [|u IH|u IH|u IH|u IH|u IH|u IH|u IH|u IH|u IH|u IH]; [|simpl in *; by rewrite IH..].
  simpl. destruct t as [|c t]; [done|]. simpl in *. by rewrite (proj1 (negb_true_iff _) Ht).
Qed.

Lemma parse_number_decimal (n : N) (t : string) :
  delimited t = true -> parse_number (decimal n +:+ t) = Some (n, t).
Proof.
  intros Ht. unfold parse_number, decimal. rewrite take_digits_uint by done.
  destruct (NilEmpty.string_of_uint (N.to_uint n)) as [|c s] eqn:E.
  - exfalso. apply (f_equal NilEmpty.uint_of_string) in E. rewrite NilEmpty.usu in E. injection E as E.
    by destruct n as [|p]; [|apply (f_equal N.of_uint) in E; rewrite DecimalN.Unsigned.of_to in E].
  - rewrite <- E, NilEmpty.usu. by rewrite DecimalN.Unsigned.of_to.
Qed.

Lemma append_String (c : ascii) (s t : string) : String c s +:+ t = String c (s +:+ t).
Proof. done. Qed.

Lemma append_nil_l (t : string) : "" +:+ t = t.
Proof. done. Qed.

Lemma decimal_head (n : N) : exists c s, decimal n = String c s /\ within 48 57 c = true.
Proof.
  pose proof (parse_number_decimal n "" eq_refl) as H. rewrite append_empty_r in H. unfold parse_number in H.
  destruct (decimal n) as [|c s]; [done|]. exists c, s. split; [done|]. simpl in H.
  by destruct (within 48 57 c).
Qed.

Lemma parse_value_number (fuel : nat) (n : N) (t : string) :
  delimited t = true -> parse_value (S fuel) (decimal n +:+ t) = Some (JNumber n, t).
Proof.
  intros Ht. pose proof (parse_number_decimal n t Ht) as Hp.
  destruct (decimal_head n) as (c & s & E & Hc). rewrite E in *. rewrite ?append_String in *. cbn [parse_value].
  unfold within in Hc. rewrite andb_true_iff, !N.leb_le in Hc.
  repeat (match goal with |- context [(code c =? ?k)%N] => destruct (N.eqb_spec (code c) k); [lia|] end).
  by rewrite Hp.
Qed.

Lemma parse_value_string (fuel : nat) (s t : string) :
  utf8 0 s = true -> parse_value (S fuel) (quote s +:+ t) = Some (JString s, t).
Proof.
  intros H. unfold quote. rewrite ?append_String, ?append_nil_l. cbn [parse_value]. rewrite append_assoc. rewrite ?append_String, ?append_nil_l.
  by rewrite unquote_escape.
Qed.

Lemma marshal_members_cons (name : string) (value : json) (rest : list (string * json)) (t : string) :
  marshal_members ((name, value) :: rest) +:+ t =
  quote name +:+ ":" +:+ marshal value +:+ (if (length rest =? 0)%nat then t else "," +:+ marshal_members rest +:+ t).
Proof. destruct rest; simpl; by rewrite !append_assoc. Qed.

Lemma parse_members_marshal (fields : list (string * json)) (fuel : nat) (t : string) :
  Forall (fun f => forall fuel t, well_formed (snd f) = true -> delimited t = true -> size (snd f) <= fuel ->
    parse_value fuel (marshal (snd f) +:+ t) = Some (snd f, t)) fields ->
  fields <> [] -> forallb (fun f => utf8 0 (fst f)) fields = true -> forallb (fun f => well_formed (snd f)) fields = true ->
  members_size fields <= fuel ->
  parse_members fuel (marshal_members fields +:+ "}" +:+ t) = Some (fields, t).
Proof.
  intros HF. revert fuel. induction HF as [|[name value] rest Hv HF IH]; intros fuel Hne Hnames Hwf Hsize; [done|].
  cbn [forallb fst snd] in *. apply andb_true_iff in Hnames as [Hname Hnames], Hwf as [Hwv Hwf].
  rewrite marshal_members_cons. unfold members_size in Hsize. simpl in Hsize.
  destruct fuel as [|fuel]; [lia|]. unfold quote. rewrite ?append_String, ?append_nil_l. cbn [parse_members].
  rewrite append_assoc. rewrite ?append_String, ?append_nil_l. rewrite unquote_escape by done.
  replace (code quotation =? 34)%N with true by done. replace (code ":" =? 58)%N with true by done.
  destruct rest as [|next rest]; cbn [length Nat.eqb]; rewrite ?append_String, ?append_nil_l.
  - rewrite (Hv fuel (String "}" t)) by (done || lia). by replace (code "}" =? 125)%N with true.
  - rewrite (Hv fuel (String "," _)) by (done || lia). replace (code "," =? 125)%N with false by done.
    replace (code "," =? 44)%N with true by done. rewrite ?append_String, ?append_nil_l in IH. rewrite IH; [done..|].
    unfold members_size. simpl in *. lia.
Qed.

Lemma parse_marshal (v : json) (fuel : nat) (t : string) :
  well_formed v = true -> delimited t = true -> size v <= fuel -> parse_value fuel (marshal v +:+ t) = Some (v, t).
Proof.
  revert fuel t. induction v as [s|n|b|fields IH] using json_nested_ind; intros fuel t Hwf Ht Hsize;
    (destruct fuel as [|fuel]; [simpl in Hsize; lia|]).
  - by apply parse_value_string.
  - by apply parse_value_number.
  - by destruct b.
  - rewrite marshal_JObject. rewrite ?append_String, ?append_nil_l. cbn [parse_value]. cbn [well_formed] in Hwf. rewrite !andb_true_iff in Hwf.
    destruct Hwf as [[Hne Hnames] Hwf]. rewrite append_assoc.
    rewrite parse_members_marshal; try done; [by intros ->|].
    unfold members_size. simpl in Hsize. lia.
Qed.

Lemma size_marshal (v : json) : size v <= String.length (marshal v).
Proof.
  induction v as [s|n|b|fields IH] using json_nested_ind; try (simpl; lia).
  - destruct (decimal_head n) as (c & s & E & _). simpl. rewrite E. simpl. lia.
  - by destruct b; simpl; lia.
  - rewrite marshal_JObject. simpl. rewrite !length_append.
    assert (members_size fields <= String.length (marshal_members fields)) as H; [|unfold members_size in H; simpl; lia].
    induction IH as [|[name value] rest Hv _ IH]; [done|].
    pose proof (marshal_members_cons name value rest "") as E. rewrite append_empty_r in E. rewrite E.
    unfold members_size in *. cbn [foldr fst snd] in *. rewrite !length_append.
    assert (1 <= String.length (quote name)) by (unfold quote; simpl; lia).
    destruct rest; cbn [length Nat.eqb]; rewrite ?length_append; simpl String.length in *; simpl in *; lia.
Qed.

(** Decoding what was encoded gives it back. *)
Lemma unmarshal_marshal (v : json) : well_formed v = true -> unmarshal (marshal v) = Some v.
Proof.
  intros H. unfold unmarshal. pose proof (size_marshal v).
  pose proof (parse_marshal v (S (String.length (marshal v))) "" H eq_refl ltac:(lia)) as E.
  rewrite append_empty_r in E. by rewrite E.
Qed.

(** ** Lengths *)

Lemma length_escape_ascii (c : ascii) (rest : string) : String.length (escape_ascii c rest) <= 6 + String.length rest.
Proof.
  unfold escape_ascii. repeat case_match; simpl; rewrite ?length_append; simpl; try lia. 
Qed.

Lemma length_escape (copied : nat) (s : string) : String.length (escape copied s) <= 6 * String.length s.
Proof.
  remember (String.length s) as n eqn:Hn. revert copied s Hn.
  induction n as [n IH] using lt_wf_ind. intros copied [|c s] ->; [simpl; lia|]. cbn [escape String.length] in *.
  assert (forall m, String.length (escape m s) <= 6 * String.length s) as Hs by (intros m; by apply (IH (String.length s)); [lia|]).
  destruct copied as [|copied]; [|specialize (Hs copied); cbn [String.length]; lia].
  destruct (code c <? 128)%N; [pose proof (length_escape_ascii c (escape 0 s)); specialize (Hs 0); lia|].
  destruct (sequence (String c s)) as [|width]; [specialize (Hs 0); cbn [String.length]; rewrite length_append; simpl; lia|].
  destruct s as [|b [|d s]]; [cbn; lia|specialize (Hs width); cbn [String.length] in *; lia|].
  case_match; [|specialize (Hs width); cbn [String.length] in *; lia].
  cbn [String.length]. rewrite length_append. pose proof (IH (String.length s) ltac:(simpl; lia) 0 s eq_refl).
  destruct (code d =? 168)%N; simpl; lia.
Qed.

Lemma length_quote (s : string) : String.length (quote s) <= 6 * String.length s + 2.
Proof. unfold quote. cbn [String.length]. rewrite length_append. pose proof (length_escape 0 s). simpl. lia. Qed.

Lemma length_string_of_uint (d : Decimal.uint) : N.of_nat (String.length (NilEmpty.string_of_uint d)) = Unsigned.usize d.
Proof. induction d; simpl in *; lia. Qed.

Lemma length_decimal (n : N) (k : nat) : (n < 10 ^ N.of_nat k)%N -> 0 < k -> String.length (decimal n) <= k.
Proof.
  intros Hn Hk. unfold decimal. pose proof (DecimalN.Unsigned.of_to n) as Hof. pose proof (DecimalN.Unsigned.to_of (N.to_uint n)) as Hto.
  rewrite Hof in Hto.
  assert (forall d acc, n = Npos (Pos.of_uint_acc d acc) -> S (String.length (NilEmpty.string_of_uint d)) <= k) as Hdigits.
  { intros d acc En. rewrite Unsigned.of_uint_acc_rev, <- length_string_of_uint in En.
    enough (10 ^ N.of_nat (String.length (NilEmpty.string_of_uint d)) < 10 ^ N.of_nat k)%N as Hp by (apply N.pow_lt_mono_r_iff in Hp; lia).
    nia. }
  destruct (N.to_uint n) as [|d|d|d|d|d|d|d|d|d|d]; cbn [NilEmpty.string_of_uint String.length]; [lia| |eapply Hdigits; by rewrite <- Hof..].
  destruct (Decimal.nzhead (Decimal.D0 d)) as [|u|u|u|u|u|u|u|u|u|u] eqn:Ez; unfold Decimal.unorm in Hto; rewrite Ez in Hto; try discriminate.
  - injection Hto as ->. simpl. lia.
  - by destruct (DecimalFacts.nzhead_nonzero (Decimal.D0 d) u).
Qed.
