(* ===== verification/Filepath.v ===== *)
(** * Lexical paths of the Go standard library

    [filepath.IsAbs], [filepath.Clean] and [filepath.Join] on Unix, with the
    characterisation of a cleaned absolute path by its list of components. *)

From S2P Require Import Prelude Bytes.
From Stdlib Require Import Ascii.

Definition slash : ascii := "/"%char.

(** The substrings between slashes; never the empty list. *)
Fixpoint split_slash (s : string) : list string :=
  match s with
  | EmptyString => [""]
  | String c s =>
      if ascii_eqb c slash then "" :: split_slash s
      else match split_slash s with
           | first :: rest => String c first :: rest
           | [] => [String c ""]
           end
  end.

(** One step of [filepath.Clean]: the output so far is kept in reverse. *)
Definition clean_step (rooted : bool) (out : list string) (component : string) : list string :=
  if (component == "") || (component == ".") then out
  else if component == ".." then
    match out with
    | [] => if rooted then [] else [".."]
    | last :: before => if last == ".." then ".." :: out else before
    end
  else component :: out.

Definition clean_components (rooted : bool) (path : string) : list string :=
  rev (fold_left (clean_step rooted) (split_slash path) []).

Definition IsAbs (path : string) : bool := HasPrefix path "/".

(** The components of an absolute path, each preceded by a slash. *)
Fixpoint body (components : list string) : string :=
  match components with
  | [] => ""
  | c :: rest => "/" +:+ (c +:+ body rest)
  end.

Fixpoint join_slash (components : list string) : string :=
  match components with
  | [] => ""
  | [c] => c
  | c :: rest => c +:+ ("/" +:+ join_slash rest)
  end.

Definition Clean (path : string) : string :=
  let components := clean_components (IsAbs path) path in
  if IsAbs path then
    match components with [] => "/" | _ => body components end
  else match components with [] => "." | _ => join_slash components end.

(** [filepath.Join]: empty elements are ignored and the result is cleaned. *)
Definition Join (elements : list string) : string :=
  match filter (fun e => e <> "") elements with
  | [] => ""
  | kept => Clean (join_slash kept)
  end.

(** ** Components *)

Definition slash_free (s : string) : bool := string_forallb (fun c => negb (ascii_eqb c slash)) s.

(** A component that survives cleaning of a rooted path. *)
Definition proper (c : string) : Prop := c <> "" /\ slash_free c = true.

Lemma split_slash_free (s : string) : Forall (fun c => slash_free c = true) (split_slash s).
Proof.
  induction s as [|c s IH]; simpl; [by repeat constructor|].
  destruct (ascii_eqb c slash) eqn:E; [by constructor|].
  destruct (split_slash s) as [|first rest]; inversion IH; simplify_eq; constructor;
    try done; unfold slash_free; simpl; rewrite E; done.
Qed.

Lemma clean_step_proper (rooted : bool) (out : list string) (c : string) :
  Forall proper out -> slash_free c = true -> Forall proper (clean_step rooted out c).
Proof.
  intros Hout Hc. unfold clean_step.
  destruct (bool_decide_reflect (c = "")); [done|].
  destruct (bool_decide_reflect (c = ".")); [done|].
  destruct (bool_decide_reflect (c = "..")); simpl.
  - assert (proper "..") by by split.
    destruct out as [|last before]; [destruct rooted; auto|].
    inversion Hout; simplify_eq. case_bool_decide; auto.
  - by constructor.
Qed.

Lemma clean_components_proper (rooted : bool) (path : string) :
  Forall proper (clean_components rooted path).
Proof.
  unfold clean_components. apply Forall_rev.
  assert (Hgen : forall cs out, Forall (fun c => slash_free c = true) cs -> Forall proper out ->
            Forall proper (fold_left (clean_step rooted) cs out)).
  { induction cs as [|c cs IH]; intros out Hcs Hout; [done|].
    inversion Hcs; simplify_eq. simpl. apply IH; [done|]. by apply clean_step_proper. }
  apply Hgen; [apply split_slash_free|constructor].
Qed.

(** ** Prefixes of cleaned paths are prefixes of component lists *)

Definition slash_or_end (s : string) : Prop := s = "" \/ exists r, s = "/" +:+ r.

Lemma body_slash_or_end (cs : list string) : slash_or_end (body cs).
Proof. destruct cs; [by left|right; eauto]. Qed.

Lemma component_split (c d x y : string) :
  slash_free c = true -> slash_free d = true -> slash_or_end x -> slash_or_end y ->
  c +:+ x = d +:+ y -> c = d /\ x = y.
Proof.
  revert d. induction c as [|a c IH]; intros [|b d] Hc Hd Hx Hy Heq.
  - by split.
  - change (x = String b (d +:+ y)) in Heq.
    destruct Hx as [->|[r ->]]; [discriminate Heq|].
    injection Heq as <- _. by apply andb_true_iff in Hd as [? _].
  - change (String a (c +:+ x) = y) in Heq.
    destruct Hy as [->|[r ->]]; [discriminate Heq|].
    injection Heq as -> _. by apply andb_true_iff in Hc as [? _].
  - injection Heq as -> Heq. apply andb_true_iff in Hc as [_ Hc], Hd as [_ Hd].
    destruct (IH d Hc Hd Hx Hy Heq) as [-> ->]. done.
Qed.

Lemma body_inj (l r : list string) :
  Forall proper l -> Forall proper r -> body l = body r -> l = r.
Proof.
  revert r. induction l as [|c l IH]; intros [|d r] Hl Hr Heq; try done.
  inversion Hl as [|? ? [_ Hc] Hl']; inversion Hr as [|? ? [_ Hd] Hr']; simplify_eq.
  match goal with H : _ +:+ body _ = _ |- _ =>
    apply component_split in H as [-> H]; auto using body_slash_or_end end.
  by rewrite (IH r).
Qed.

Lemma body_prefix_iff (l r : list string) :
  Forall proper l -> Forall proper r ->
  HasPrefix (body l) (body r +:+ "/") = true <-> exists c rest, l = r ++ c :: rest.
Proof.
  intros Hl Hr. rewrite HasPrefix_spec. revert l Hl.
  induction r as [|d r IH]; intros l Hl.
  - split.
    + intros [s Hs]. destruct l as [|c l]; [discriminate Hs|by exists c, l].
    + intros (c & rest & ->). by exists (c +:+ body rest).
  - inversion Hr as [|? ? [_ Hd] Hr']; simplify_eq. specialize (IH Hr').
    destruct l as [|c l].
    { split; [by intros [s Hs]|]. by intros (? & ? & ?). }
    inversion Hl as [|? ? [_ Hc] Hl']; simplify_eq. split.
    + intros [s Hs]. cbn [body] in Hs. rewrite !append_assoc in Hs. apply append_inj_l in Hs.
      apply component_split in Hs as [-> Hs]; auto using body_slash_or_end.
      2: { right. destruct r; [by exists s|].
           exists (s0 +:+ (body r +:+ ("/" +:+ s))). cbn [body]. by rewrite !append_assoc. }
      destruct (proj1 (IH l Hl')) as (x & rest & ->).
      { exists s. by rewrite Hs, append_assoc. }
      by exists x, rest.
    + intros (x & rest & Heq). injection Heq as -> ->.
      destruct (proj2 (IH (r ++ x :: rest) Hl')) as [s Hs]; [eauto|].
      exists s. cbn [body]. rewrite Hs, !append_assoc. done.
Qed.

Lemma TrimSuffixSlash_body (cs : list string) :
  Forall proper cs -> cs <> [] -> TrimSuffixSlash (body cs) = body cs.
Proof.
  intros Hcs Hne.
  assert (Hlast : forall a b, b <> "" -> TrimSuffixSlash b = b -> TrimSuffixSlash (a +:+ b) = a +:+ b).
  { induction a as [|x a IH]; intros b Hb Htrim; [done|].
    change (TrimSuffixSlash (String x (a +:+ b)) = String x (a +:+ b)).
    assert (a +:+ b <> "") as Hab by (destruct a; [done|discriminate]).
    specialize (IH b Hb Htrim). destruct (a +:+ b) as [|y s] eqn:E; [done|].
    change (TrimSuffixSlash (String x (String y s))) with (String x (TrimSuffixSlash (String y s))).
    by rewrite IH. }
  assert (Hfree : forall c, slash_free c = true -> TrimSuffixSlash c = c).
  { induction c as [|x c IH]; intros Hc; [done|].
    apply andb_true_iff in Hc as [Hx Hc]. simpl. rewrite (IH Hc).
    destruct c; [|done]. apply negb_true_iff in Hx. unfold slash in Hx. by rewrite Hx. }
  induction cs as [|c cs IH]; [done|]. inversion Hcs as [|? ? [Hc0 Hc] Hcs']; simplify_eq.
  cbn [body]. apply Hlast.
  { destruct c; [done|discriminate]. }
  destruct cs as [|d cs]; [cbn [body]; rewrite append_empty_r; by apply Hfree|].
  apply Hlast; [discriminate|by apply IH].
Qed.

(** ** Cleaning a rooted path *)

(** A component of a cleaned rooted path: it names a child, never this
    directory or its parent. *)
Definition canonical (c : string) : Prop := proper c /\ c <> "." /\ c <> "..".

Lemma canonical_proper (cs : list string) : Forall canonical cs -> Forall proper cs.
Proof. intros H. eapply Forall_impl; [exact H|]. by intros c []. Qed.

Lemma clean_components_canonical (path : string) : Forall canonical (clean_components true path).
Proof.
  unfold clean_components. apply Forall_rev.
  assert (Hgen : forall cs out, Forall (fun c => slash_free c = true) cs -> Forall canonical out ->
            Forall canonical (fold_left (clean_step true) cs out)).
  { induction cs as [|c cs IH]; intros out Hcs Hout; [done|].
    inversion Hcs; simplify_eq. simpl. apply IH; [done|]. unfold clean_step.
    destruct (bool_decide_reflect (c = "")); [done|].
    destruct (bool_decide_reflect (c = ".")); [done|].
    destruct (bool_decide_reflect (c = "..")); simpl; [|by constructor].
    destruct out as [|last before]; [done|].
    inversion Hout as [|? ? (? & ? & Hlast)]; simplify_eq. by rewrite bool_decide_false. }
  apply Hgen; [apply split_slash_free|constructor].
Qed.

Lemma split_slash_component (c x : string) (rest : list string) :
  slash_free c = true -> split_slash x = "" :: rest -> split_slash (c +:+ x) = c :: rest.
Proof.
  intros Hc Hx. induction c as [|a c IH]; [done|].
  apply andb_true_iff in Hc as [Ha Hc]. apply negb_true_iff in Ha.
  change (split_slash (String a (c +:+ x)) = String a c :: rest).
  cbn [split_slash]. by rewrite Ha, (IH Hc).
Qed.

Lemma split_slash_body (cs : list string) :
  Forall proper cs -> split_slash (body cs) = "" :: cs.
Proof.
  induction 1 as [|c cs [_ Hc] Hcs IH]; [done|].
  change (split_slash (String slash (c +:+ body cs)) = "" :: c :: cs).
  cbn [split_slash]. unfold ascii_eqb. rewrite Ascii.eqb_refl.
  by rewrite (split_slash_component c (body cs) cs).
Qed.

Lemma fold_clean_canonical (rooted : bool) (cs out : list string) :
  Forall canonical cs -> fold_left (clean_step rooted) cs out = rev cs ++ out.
Proof.
  intros Hcs. revert out. induction Hcs as [|c cs ([Hne _] & Hdot & Hdotdot) Hcs IH]; intros out; [done|].
  simpl. rewrite IH. unfold clean_step. rewrite !bool_decide_false by done. simpl.
  by rewrite <- app_assoc.
Qed.

Lemma IsAbs_body (cs : list string) : cs <> [] -> IsAbs (body cs) = true.
Proof. destruct cs as [|c cs]; [done|]. intros _. apply HasPrefix_spec. cbn [body]. eauto. Qed.

Lemma clean_components_body (cs : list string) :
  Forall canonical cs -> clean_components true (body cs) = cs.
Proof.
  intros Hcs. unfold clean_components. rewrite split_slash_body by by apply canonical_proper.
  change (rev (fold_left (clean_step true) cs []) = cs).
  by rewrite fold_clean_canonical, app_nil_r, rev_involutive.
Qed.

Lemma Clean_body (cs : list string) : Forall canonical cs -> cs <> [] -> Clean (body cs) = body cs.
Proof.
  intros Hcs Hne. unfold Clean. rewrite IsAbs_body, clean_components_body by done.
  by destruct cs.
Qed.

Lemma Clean_abs (path : string) :
  IsAbs path = true ->
  Clean path = match clean_components true path with [] => "/" | cs => body cs end.
Proof. intros H. unfold Clean. rewrite H. by destruct (clean_components true path). Qed.

(** Joining a cleaned rooted path with canonical elements appends them to its
    components: no element can leave the directory. *)
Lemma Join_abs (root : string) (extra : list string) :
  IsAbs root = true -> Forall canonical extra -> extra <> [] ->
  Join (Clean root :: extra) = body (clean_components true root ++ extra).
Proof.
  intros Habs Hextra Hne.
  pose proof (clean_components_canonical root) as Hroot.
  rewrite (Clean_abs root Habs). set (cs := clean_components true root) in *.
  assert (Hfilter : filter (fun e => e <> "") extra = extra).
  { clear -Hextra. induction Hextra as [|c l ([Hc _] & _) _ IH]; [done|].
    rewrite filter_cons_True by done. by rewrite IH. }
  assert (Hjoin : forall l p, l <> [] -> join_slash (p :: l) = p +:+ body l).
  { clear. induction l as [|c l IH]; [done|]. intros p _.
    destruct l as [|d l]; [cbn [body join_slash]; by rewrite append_empty_r|].
    cbn [body join_slash] in *. rewrite (IH c) by done. done. }
  assert (Hall : Forall canonical (cs ++ extra)) by (apply Forall_app; done).
  assert (Happ : forall l l', body l +:+ body l' = body (l ++ l')).
  { clear. induction l as [|c l IH]; intros l'; [done|]. cbn [body app].
    rewrite <- IH. by rewrite !append_assoc. }
  destruct cs as [|c cs'] eqn:E; unfold Join;
    (rewrite filter_cons_True by discriminate); rewrite Hfilter, Hjoin by done.
  - change ("/" +:+ body extra) with (String slash (body extra)).
    assert (IsAbs (String slash (body extra)) = true) as Hr
      by (apply HasPrefix_spec; by exists (body extra)).
    rewrite (Clean_abs _ Hr).
    assert (clean_components true (String slash (body extra)) = extra) as ->; [|by destruct extra].
    unfold clean_components. cbn [split_slash]. unfold ascii_eqb. rewrite Ascii.eqb_refl.
    rewrite split_slash_body by by apply canonical_proper.
    change (rev (fold_left (clean_step true) extra []) = extra).
    by rewrite fold_clean_canonical, app_nil_r, rev_involutive.
  - rewrite Happ. by apply Clean_body.
Qed.

Lemma Clean_abs_idempotent (path : string) : IsAbs path = true -> Clean (Clean path) = Clean path.
Proof.
  intros H. rewrite (Clean_abs path H).
  pose proof (clean_components_canonical path) as Hcs.
  destruct (clean_components true path) as [|c cs] eqn:E; [done|].
  by apply Clean_body.
Qed.

(** [filepath.Clean] of an absolute path is injective on components. *)
Lemma Clean_abs_inj (l r : string) :
  IsAbs l = true -> IsAbs r = true ->
  Clean l = Clean r <-> clean_components true l = clean_components true r.
Proof.
  intros Hl Hr. rewrite !Clean_abs by done. split; [|by intros ->].
  pose proof (canonical_proper _ (clean_components_canonical l)) as Pl.
  pose proof (canonical_proper _ (clean_components_canonical r)) as Pr.
  destruct (clean_components true l) as [|c cs], (clean_components true r) as [|d ds]; try done.
  - intros Heq. exfalso. inversion Pr as [|? ? [Hd _]]; simplify_eq.
    by destruct d.
  - intros Heq. exfalso. inversion Pl as [|? ? [Hc _]]; simplify_eq.
    by destruct c.
  - by apply body_inj.
Qed.
