(* ===== verification/VolumeIdentity.v ===== *)
(** * Volume identity and deletion admission

    Package [volume] (src/volume/id.go, identity.go, path.go) and package
    [deletion] (src/volume/deletion/admission.go): the CSI volume identifier,
    the identity of one data-bearing directory, its serving path, and the
    decision that fences an exact copy for deletion. *)

From S2P Require Import Prelude Bytes Filepath.
From Stdlib Require Import Ascii.

(** ** Volume identifiers *)

Definition idPrefix : string := "shiftpv-".

(** [validID.MatchString] for ^shiftpv-[a-f0-9]{32}$. *)
Definition validID (id : string) : bool :=
  HasPrefix id idPrefix &&
  (String.length (TrimPrefix id idPrefix) =? 32)%nat &&
  string_forallb is_lower_hex (TrimPrefix id idPrefix).

Definition IDFromName (name : string) : result string :=
  if name == "" then Err (Errorf "volume name is required")
  else
    let sum := Sha256.Sum256 name in
    Ok (idPrefix +:+ EncodeToString (String.substring 0 16 sum)).

Definition ValidateID (id : string) : result unit :=
  if negb (validID id) then Err (Errorf "invalid ShiftPV volume ID %q") else Ok tt.

(** ** Copy identities *)

Definition DriverName : string := "csi.shiftpv.io".
Definition CreationCancellationPrefix : string := "cancel-create-".

Definition RoleServing : string := "Serving".
Definition RoleIncoming : string := "Incoming".
Definition RoleRetired : string := "Retired".

Record CopyIdentity := {
  InstallationID : string;
  PoolName : string;
  PoolUID : string;
  VolumeID : string;
  VolumeUID : string;
  CopyID : string;
  NodeName : string;
  Role : string
}.

#[export] Instance CopyIdentity_eq_dec : EqDecision CopyIdentity.
Proof. solve_decision. Defined.

(** The characters a path element must not contain: slash, backslash, NUL. *)
Definition separators : string := String "/" (String "\" (String (ascii_of_N 0) EmptyString)).

Definition ValidIdentityToken (value : string) : bool :=
  (value != "") && (String.length value <=? 128)%nat && (value != ".") && (value != "..") &&
  negb (ContainsAny value separators).

Definition ValidObjectName (value : string) : bool :=
  ValidIdentityToken value && (String.length value <=? 253)%nat.

(** [CopyIdentity.Validate] *)
Definition Validate (identity : CopyIdentity) : result unit :=
  reject_if
    (negb (ValidIdentityToken (InstallationID identity)) || negb (ValidObjectName (PoolName identity)) ||
     negb (ValidIdentityToken (PoolUID identity)) || negb (is_ok (ValidateID (VolumeID identity))) ||
     negb (ValidIdentityToken (VolumeUID identity)) || negb (ValidIdentityToken (CopyID identity)) ||
     negb (ValidObjectName (NodeName identity)))
    (Errorf "invalid copy identity");;
  reject_if
    ((Role identity != RoleServing) && (Role identity != RoleIncoming) && (Role identity != RoleRetired))
    (Errorf "invalid copy role %q");;
  Ok tt.

Definition IsCreationCancellation (copy : CopyIdentity) (operationID : string) : bool :=
  is_ok (Validate copy) && (Role copy == RoleServing) && (CopyID copy == "initial-" +:+ VolumeUID copy) &&
  ValidIdentityToken operationID && (operationID == CreationCancellationPrefix +:+ VolumeUID copy).

(** ** Serving path *)

Definition Path (poolRoot id : string) : result string :=
  reject_if (negb (IsAbs poolRoot)) (Errorf "pool root must be absolute");;
  ValidateID id;;
  Ok (Join [Clean poolRoot; "volumes"; id]).

(** ** Deletion admission *)

Module Deletion.
Definition PhaseReady : string := "Ready".
Definition PhaseDeleting : string := "Deleting".

Inductive Disposition := Reject | WaitForUnpublish | Begin | Resume.

Record Observation := {
  UID : string;
  OwnerNode : string;
  Phase : string;
  ActiveMove : string;
  OperationID : string;
  CurrentCopy : option CopyIdentity;
  PublishedNodes : list string
}.

Definition Decide (current : Observation) (uid operationID : string) (copy : CopyIdentity) : Disposition :=
  if (uid == "") || negb (is_ok (Validate copy)) || (VolumeUID copy != uid) || (operationID != "delete-" +:+ uid) ||
     (UID current != uid) || (OwnerNode current != NodeName copy) || (CurrentCopy current != Some copy) ||
     (ActiveMove current != "")
  then Reject
  else if (Phase current == PhaseReady) && (OperationID current == "") && (PublishedNodes current == [NodeName copy])
  then WaitForUnpublish
  else if negb (length (PublishedNodes current) =? 0)%nat then Reject
  else if (Phase current == PhaseReady) && (OperationID current == "") then Begin
  else if (Phase current == PhaseDeleting) && (OperationID current == operationID) then Resume
  else Reject.
End Deletion.

(** ** Lemmas *)

Lemma TrimPrefix_app (p s : string) : TrimPrefix (p +:+ s) p = s.
Proof.
  induction p as [|c p IH]; [by destruct s|].
  change (TrimPrefix (String c (p +:+ s)) (String c p) = s). cbn [TrimPrefix].
  unfold ascii_eqb. rewrite Ascii.eqb_refl.
  assert (HasPrefix (p +:+ s) p = true) as -> by (apply HasPrefix_spec; eauto). done.
Qed.

Lemma length_substring_prefix (n : nat) (s : string) :
  n <= String.length s -> String.length (String.substring 0 n s) = n.
Proof.
  revert s. induction n as [|n IH]; intros [|c s] H; simpl in *; try lia.
  rewrite IH; lia.
Qed.

Lemma validID_shape (id : string) :
  validID id = true <->
  exists digest, id = idPrefix +:+ digest /\ String.length digest = 32 /\
                 string_forallb is_lower_hex digest = true.
Proof.
  unfold validID. rewrite !andb_true_iff, HasPrefix_spec, Nat.eqb_eq. split.
  - intros [[[digest ->] Hlen] Hhex]. rewrite TrimPrefix_app in Hlen, Hhex. eauto.
  - intros (digest & -> & Hlen & Hhex). rewrite TrimPrefix_app. eauto.
Qed.

Lemma ValidateID_ok (id : string) : ValidateID id = Ok tt <-> validID id = true.
Proof. unfold ValidateID. destruct (validID id); simpl; naive_solver. Qed.

Lemma is_lower_hex_not_separator (digest : string) :
  string_forallb is_lower_hex digest = true -> ContainsAny digest separators = false.
Proof.
  unfold ContainsAny. rewrite negb_false_iff. induction digest as [|c s IH]; [done|].
  cbn [string_forallb]. rewrite !andb_true_iff. intros [Hc Hs]. split; [|auto].
  destruct c as [[] [] [] [] [] [] [] []]; done.
Qed.

Lemma Validate_parts (c : CopyIdentity) :
  Validate c = Ok tt ->
  ValidIdentityToken (InstallationID c) = true /\ ValidObjectName (PoolName c) = true /\
  ValidIdentityToken (PoolUID c) = true /\ ValidateID (VolumeID c) = Ok tt /\
  ValidIdentityToken (VolumeUID c) = true /\ ValidIdentityToken (CopyID c) = true /\
  ValidObjectName (NodeName c) = true /\ Role c ∈ [RoleServing; RoleIncoming; RoleRetired].
Proof.
  unfold Validate. intros H. go_inv.
  repeat match goal with H : is_ok _ = true |- _ => apply is_ok_unit in H end.
  repeat split; try done.
  match goal with H : (_ && _)%bool = false |- _ => rename H into Hrole end.
  destruct (bool_decide_reflect (Role c = RoleServing)) as [->|]; [set_solver|].
  destruct (bool_decide_reflect (Role c = RoleIncoming)) as [->|]; [set_solver|].
  destruct (bool_decide_reflect (Role c = RoleRetired)) as [->|]; [set_solver|].
  discriminate Hrole.
Qed.

Lemma validID_canonical (id : string) : validID id = true -> canonical id.
Proof.
  intros (digest & -> & Hlen & Hhex)%validID_shape. repeat split; try discriminate.
  unfold slash_free. rewrite string_forallb_app. apply andb_true_iff. split; [done|].
  clear Hlen. induction digest as [|c s IH]; [done|].
  cbn [string_forallb] in *. apply andb_true_iff in Hhex as [Hc Hs]. rewrite (IH Hs).
  destruct c as [[] [] [] [] [] [] [] []]; done.
Qed.

Lemma Path_ok (poolRoot id p : string) :
  Path poolRoot id = Ok p ->
  IsAbs poolRoot = true /\ validID id = true /\
  p = body (clean_components true poolRoot ++ ["volumes"; id]).
Proof.
  unfold Path. intros H. go_inv.
  match goal with H : ValidateID _ = Ok ?u |- _ => destruct u; apply ValidateID_ok in H end.
  split_and!; [done|done|]. apply Join_abs; [done| |done].
  repeat constructor; try done. all: by apply validID_canonical.
Qed.

(** ** Properties *)

(** [IDFromName] fails exactly on the empty name; every other name gets an
    identifier that [ValidateID] accepts. *)
Theorem IDFromName_valid (name : string) :
  match IDFromName name with
  | Ok id => name <> "" /\ ValidateID id = Ok tt
  | Err _ => name = ""
  end.
Proof.
  unfold IDFromName. case_bool_decide as Hname; [done|]. split; [done|].
  apply ValidateID_ok, validID_shape. eexists. split_and!; [done| |apply EncodeToString_lower_hex].
  rewrite EncodeToString_length, length_substring_prefix; [done|].
  rewrite Sha256.Sum256_length. lia.
Qed.

(** a volume path is lexically confined: it is clean and its components
    are the pool root's components followed by "volumes" and the identifier,
    so no accepted identifier can leave the Pool or name another volume. *)
Theorem Path_confined (poolRoot id p : string) :
  Path poolRoot id = Ok p ->
  Clean p = p /\ clean_components true p = clean_components true poolRoot ++ ["volumes"; id].
Proof.
  intros (_ & Hid & ->)%Path_ok.
  assert (Hcs : Forall canonical (clean_components true poolRoot ++ ["volumes"; id])).
  { apply Forall_app. split; [apply clean_components_canonical|].
    repeat constructor; try done. all: by apply validID_canonical. }
  split; [apply Clean_body; [done|]|by apply clean_components_body].
  by destruct (clean_components true poolRoot).
Qed.

Lemma Path_confined_witness :
  Clean "/mnt/pool/volumes/shiftpv-0123456789abcdef0123456789abcdef" =
    "/mnt/pool/volumes/shiftpv-0123456789abcdef0123456789abcdef" /\
  clean_components true "/mnt/pool/volumes/shiftpv-0123456789abcdef0123456789abcdef" =
    ["mnt"; "pool"; "volumes"; "shiftpv-0123456789abcdef0123456789abcdef"].
Proof.
  apply (Path_confined "/mnt/./x/../pool/" "shiftpv-0123456789abcdef0123456789abcdef").
  vm_compute. reflexivity.
Defined.

(** The caller's expectation names the exact live copy of an idle volume. *)
Definition deletion_exact (current : Deletion.Observation) (uid operationID : string) (copy : CopyIdentity) : Prop :=
  uid <> "" /\ Validate copy = Ok tt /\ VolumeUID copy = uid /\ operationID = "delete-" +:+ uid /\
  Deletion.UID current = uid /\ Deletion.OwnerNode current = NodeName copy /\
  Deletion.CurrentCopy current = Some copy /\ Deletion.ActiveMove current = "".

Lemma deletion_guard (current : Deletion.Observation) (uid operationID : string) (copy : CopyIdentity) :
  (uid == "") || negb (is_ok (Validate copy)) || (VolumeUID copy != uid) || (operationID != "delete-" +:+ uid) ||
  (Deletion.UID current != uid) || (Deletion.OwnerNode current != NodeName copy) ||
  (Deletion.CurrentCopy current != Some copy) || (Deletion.ActiveMove current != "") = false <->
  deletion_exact current uid operationID copy.
Proof. unfold deletion_exact. go_reflect. tauto. Qed.

Lemma Deletion_Decide_spec (current : Deletion.Observation) (uid operationID : string) (copy : CopyIdentity) :
  let decided := Deletion.Decide current uid operationID copy in
  let exact := deletion_exact current uid operationID copy in
  let idle := Deletion.Phase current = Deletion.PhaseReady /\ Deletion.OperationID current = "" in
  (decided = Deletion.Begin <-> exact /\ idle /\ Deletion.PublishedNodes current = []) /\
  (decided = Deletion.WaitForUnpublish <->
     exact /\ idle /\ Deletion.PublishedNodes current = [NodeName copy]) /\
  (decided = Deletion.Resume <->
     exact /\ Deletion.Phase current = Deletion.PhaseDeleting /\
     Deletion.OperationID current = operationID /\ Deletion.PublishedNodes current = []).
Proof.
  cbv zeta. unfold Deletion.Decide, Deletion.PhaseReady, Deletion.PhaseDeleting.
  destruct (_ || _)%bool eqn:Hexact.
  - assert (~ deletion_exact current uid operationID copy) as Hno; [|split_and!; split; (discriminate || tauto)].
    intros Hyes%deletion_guard. congruence.
  - apply deletion_guard in Hexact.
    destruct (Deletion.PublishedNodes current) as [|n ns] eqn:Hnodes; simpl;
      repeat case_bool_decide; simpl; (congruence || naive_solver).
Qed.

(** [deletion.Decide] grants a fence only for the exact live copy of an
    unpublished, unmoved volume: [Begin] exactly on a Ready volume without a
    deletion operation, [Resume] exactly for the operation that already owns the
    fence, and [WaitForUnpublish] exactly while only the owner node publishes. *)
Theorem Deletion_Decide_iff (current : Deletion.Observation) (uid operationID : string) (copy : CopyIdentity) :
  let decided := Deletion.Decide current uid operationID copy in
  let exact := deletion_exact current uid operationID copy in
  let idle := Deletion.Phase current = Deletion.PhaseReady /\ Deletion.OperationID current = "" in
  (decided = Deletion.Begin <-> exact /\ idle /\ Deletion.PublishedNodes current = []) /\
  (decided = Deletion.WaitForUnpublish <->
     exact /\ idle /\ Deletion.PublishedNodes current = [NodeName copy]) /\
  (decided = Deletion.Resume <->
     exact /\ Deletion.Phase current = Deletion.PhaseDeleting /\
     Deletion.OperationID current = operationID /\ Deletion.PublishedNodes current = []).
Proof. apply Deletion_Decide_spec. Qed.

#[global] Arguments Validate : simpl never.
#[global] Arguments ValidIdentityToken : simpl never.
#[global] Arguments ValidObjectName : simpl never.
#[global] Arguments ValidateID : simpl never.
#[global] Arguments IsCreationCancellation : simpl never.
