(* ===== verification/Fsm.v ===== *)
(** * The mobility state machine

    Package [fsm] (src/mobility/fsm/fsm.go, decide_lifecycle.go,
    decide_phases.go): the pure decision function that selects one lifecycle
    step of a Move from its recorded state and a fresh observation.  [Phase]
    and [Action] are Go strings, so unknown values are representable; a
    (Decision, bool, error) triple whose flag says "handled" is an option of a
    result. *)

From S2P Require Import Prelude.

Definition Phase : Type := string.

Definition PhasePending : Phase := "Pending".
Definition PhasePreparing : Phase := "Preparing".
Definition PhaseStartingDisruption : Phase := "StartingDisruption".
Definition PhaseCanceling : Phase := "Canceling".
Definition PhaseCancelled : Phase := "Cancelled".
Definition PhaseWaitingForUnpublish : Phase := "WaitingForUnpublish".
Definition PhaseWaitingForReplacement : Phase := "WaitingForReplacement".
Definition PhaseWaitingForDestination : Phase := "WaitingForDestination".
Definition PhaseWaitingForCapacity : Phase := "WaitingForCapacity".
Definition PhaseCopying : Phase := "Copying".
Definition PhasePromoting : Phase := "Promoting".
Definition PhaseCommitting : Phase := "Committing".
Definition PhaseReleasingDestination : Phase := "ReleasingDestination".
Definition PhaseWaitingForDestinationPublish : Phase := "WaitingForDestinationPublish".
Definition PhaseCleaningSource : Phase := "CleaningSource".
Definition PhaseCompleting : Phase := "Completing".
Definition PhaseSucceeded : Phase := "Succeeded".
Definition PhaseBlocked : Phase := "Blocked".

Definition Action : Type := string.

Definition ActionWait : Action := "Wait".
Definition ActionEnsurePlacement : Action := "EnsurePlacement".
Definition ActionEnsureCapacity : Action := "EnsureCapacity".
Definition ActionDeletePlacement : Action := "DeletePlacement".
Definition ActionReleasePlacement : Action := "ReleasePlacement".
Definition ActionEnsureCopy : Action := "EnsureCopy".
Definition ActionEnsurePromotion : Action := "EnsurePromotion".
Definition ActionCommitOwner : Action := "CommitOwner".
Definition ActionEnsureCleanup : Action := "EnsureCleanup".
Definition ActionConfirmCleanup : Action := "ConfirmCleanup".
Definition ActionMarkSucceeded : Action := "MarkSucceeded".
Definition ActionMarkBlocked : Action := "MarkBlocked".
Definition ActionProtectMove : Action := "ProtectMove".
Definition ActionInitializePreparation : Action := "InitializePreparation".
Definition ActionClaimSource : Action := "ClaimSource".
Definition ActionReservePreparation : Action := "ReservePreparation".
Definition ActionStartDisruption : Action := "StartDisruption".
Definition ActionRestoreSource : Action := "RestoreSource".
Definition ActionReleasePreparation : Action := "ReleasePreparation".
Definition ActionReleaseSource : Action := "ReleaseSource".
Definition ActionFinalizeHistory : Action := "FinalizeHistory".
Definition ActionFinalizeSourceUsage : Action := "FinalizeSourceUsage".
Definition ActionBeginRecovery : Action := "BeginRecovery".
Definition ActionQuiesceRecovery : Action := "QuiesceRecovery".
Definition ActionVerifyRecovery : Action := "VerifyRecovery".
Definition ActionRetireRecovery : Action := "RetireRecovery".
Definition ActionResumeRecovery : Action := "ResumeRecovery".
Definition ActionCompleteRecovery : Action := "CompleteRecovery".
Definition ActionRequestSettlement : Action := "RequestSettlement".

Definition RecoveryQuiescing : string := "Quiescing".
Definition RecoveryVerifying : string := "Verifying".
Definition RecoveryRetiring : string := "Retiring".
Definition RecoveryResuming : string := "Resuming".
Definition RecoveryCompleting : string := "Completing".
Definition RecoveryRecovered : string := "Recovered".

(** [State]: the failed transaction phase is retained while recovery settles
    its owner. *)
Record State := MkState {
  st_Phase : Phase;
  st_RecoveryPhase : string
}.

Record Observation := {
  WorkloadRetired : bool;
  SettlementOnly : bool;
  ProtectionPresent : bool;
  SourcePlanRecorded : bool;
  SourceClaimed : bool;
  PreparationReserved : bool;
  PreparationChangedReason : string;
  PreparationUnavailable : bool;
  SourceMoving : bool;
  SourceBlocked : bool;
  PlacementAbsent : bool;
  DestinationIntentRecorded : bool;
  RecoveryRequested : bool;
  RecoveryOwnerIsDestination : bool;
  RecoveryUnlockObserved : bool;
  PreconditionsValid : bool;
  PreflightDeferred : bool;
  UnsafeReason : string;
  SourceHealthy : bool;
  SourceAuthorityInvalid : bool;
  ConsumerExists : bool;
  ConsumersAmbiguous : bool;
  PublishedOnSource : bool;
  ReplacementExists : bool;
  ReplacementHeld : bool;
  PlacementExists : bool;
  DestinationScheduled : bool;
  DestinationBlocked : bool;
  DestinationUnavailable : bool;
  CapacityApproved : bool;
  CapacityBlocked : bool;
  CopyComplete : bool;
  CopyFailed : bool;
  PromotionComplete : bool;
  PromotionFailed : bool;
  OwnerCommitted : bool;
  PublishedOnDestination : bool;
  CleanupComplete : bool;
  CleanupFailed : bool;
  CompletionReady : bool
}.

Record Decision := MkDecision {
  d_Next : State;
  d_Action : Action;
  d_Reason : string
}.

(** [observation.UnsafeReason = reason] on the callee's copy. *)
Definition with_UnsafeReason (o : Observation) (reason : string) : Observation := {|
  WorkloadRetired := WorkloadRetired o; SettlementOnly := SettlementOnly o;
  ProtectionPresent := ProtectionPresent o; SourcePlanRecorded := SourcePlanRecorded o;
  SourceClaimed := SourceClaimed o; PreparationReserved := PreparationReserved o;
  PreparationChangedReason := PreparationChangedReason o; PreparationUnavailable := PreparationUnavailable o;
  SourceMoving := SourceMoving o; SourceBlocked := SourceBlocked o; PlacementAbsent := PlacementAbsent o;
  DestinationIntentRecorded := DestinationIntentRecorded o; RecoveryRequested := RecoveryRequested o;
  RecoveryOwnerIsDestination := RecoveryOwnerIsDestination o; RecoveryUnlockObserved := RecoveryUnlockObserved o;
  PreconditionsValid := PreconditionsValid o; PreflightDeferred := PreflightDeferred o;
  UnsafeReason := reason; SourceHealthy := SourceHealthy o; SourceAuthorityInvalid := SourceAuthorityInvalid o;
  ConsumerExists := ConsumerExists o; ConsumersAmbiguous := ConsumersAmbiguous o;
  PublishedOnSource := PublishedOnSource o; ReplacementExists := ReplacementExists o;
  ReplacementHeld := ReplacementHeld o; PlacementExists := PlacementExists o;
  DestinationScheduled := DestinationScheduled o; DestinationBlocked := DestinationBlocked o;
  DestinationUnavailable := DestinationUnavailable o; CapacityApproved := CapacityApproved o;
  CapacityBlocked := CapacityBlocked o; CopyComplete := CopyComplete o; CopyFailed := CopyFailed o;
  PromotionComplete := PromotionComplete o; PromotionFailed := PromotionFailed o;
  OwnerCommitted := OwnerCommitted o; PublishedOnDestination := PublishedOnDestination o;
  CleanupComplete := CleanupComplete o; CleanupFailed := CleanupFailed o; CompletionReady := CompletionReady o
|}.

(** ** Transitions *)

Definition allowedTransitions : list (Phase * list Phase) := [
  (PhasePending, [PhasePending; PhasePreparing; PhaseBlocked; PhaseCanceling]);
  (PhasePreparing, [PhasePreparing; PhaseStartingDisruption; PhaseCanceling]);
  (PhaseStartingDisruption, [PhaseStartingDisruption; PhaseWaitingForUnpublish; PhaseCanceling; PhaseBlocked]);
  (PhaseCanceling, [PhaseCanceling; PhaseCancelled]);
  (PhaseCancelled, [PhaseCancelled]);
  (PhaseWaitingForUnpublish, [PhaseWaitingForUnpublish; PhaseWaitingForReplacement; PhaseBlocked; PhaseCanceling]);
  (PhaseWaitingForReplacement, [PhaseWaitingForReplacement; PhaseWaitingForDestination; PhaseBlocked; PhaseCanceling]);
  (PhaseWaitingForDestination, [PhaseWaitingForDestination; PhaseWaitingForCapacity; PhaseBlocked; PhaseCanceling]);
  (PhaseWaitingForCapacity, [PhaseWaitingForCapacity; PhaseCopying; PhaseBlocked; PhaseCanceling]);
  (PhaseCopying, [PhaseCopying; PhasePromoting; PhaseBlocked]);
  (PhasePromoting, [PhasePromoting; PhaseCommitting; PhaseBlocked]);
  (PhaseCommitting, [PhaseCommitting; PhaseReleasingDestination; PhaseBlocked]);
  (PhaseReleasingDestination, [PhaseReleasingDestination; PhaseWaitingForDestinationPublish; PhaseBlocked]);
  (PhaseWaitingForDestinationPublish, [PhaseWaitingForDestinationPublish; PhaseCleaningSource; PhaseBlocked]);
  (PhaseCleaningSource, [PhaseCleaningSource; PhaseCompleting; PhaseBlocked]);
  (PhaseCompleting, [PhaseCompleting; PhaseSucceeded]);
  (PhaseSucceeded, [PhaseSucceeded]);
  (PhaseBlocked, [PhaseBlocked; PhaseCanceling])
].

(** Lookup in the map literal: nil for a missing key. *)
Fixpoint map_lookup (m : list (Phase * list Phase)) (key : Phase) : option (list Phase) :=
  match m with
  | [] => None
  | (k, v) :: m => if k == key then Some v else map_lookup m key
  end.

Definition known (phase : Phase) : bool := negb (is_nil (map_lookup allowedTransitions phase)).

Definition terminal (phase : Phase) : bool := (phase == PhaseSucceeded) || (phase == PhaseCancelled).

Definition ValidateTransition (from to : Phase) : result unit :=
  reject_if (negb (known from) || negb (known to)) (Errorf "transition contains unknown phase: %q -> %q");;
  reject_if (terminal from && (from != to)) (Errorf "terminal phase %q cannot transition to %q");;
  reject_if (negb (contains (default [] (map_lookup allowedTransitions from)) to))
    (Errorf "illegal mobility transition %q -> %q");;
  Ok tt.

Definition transition (from to : Phase) (action : Action) (reason : string) : result Decision :=
  ValidateTransition from to;;
  Ok (MkDecision (MkState to "") action reason).

Definition reasonOr (value fallback : string) : string :=
  if value != "" then value else fallback.

Definition beforeExecutionApproval (o : Observation) : bool :=
  negb (CapacityApproved o) && negb (DestinationIntentRecorded o).

Definition beforeCommit (phase : Phase) : bool :=
  contains [PhasePending; PhaseWaitingForUnpublish; PhaseWaitingForReplacement; PhaseWaitingForDestination;
            PhaseWaitingForCapacity; PhaseCopying; PhasePromoting; PhaseCommitting] phase.

Definition disruptionPossible (phase : Phase) : bool :=
  (phase != "") && (phase != PhasePending) && (phase != PhasePreparing).

Definition blocked (reason : string) : Decision :=
  MkDecision (MkState PhaseBlocked "") ActionMarkBlocked reason.

Definition blockedWith (current : Phase) (o : Observation) (fallback : string) : Decision :=
  if beforeExecutionApproval o && negb (disruptionPossible current)
  then MkDecision (MkState PhaseCanceling "") ActionWait (reasonOr (UnsafeReason o) fallback)
  else blocked (reasonOr (UnsafeReason o) fallback).

Definition preparationChanged (current : Phase) (o : Observation) : result Decision :=
  if disruptionPossible current && PreparationUnavailable o && negb (SourceAuthorityInvalid o)
  then transition current current ActionWait (PreparationChangedReason o)
  else
    let o := with_UnsafeReason o (PreparationChangedReason o) in
    Ok (blockedWith current o "PreparationChanged").

(** ** Guards shared by the execution phases *)

Definition destinationGuard (current : Phase) (o : Observation) : option (result Decision) :=
  if DestinationUnavailable o then Some (transition current current ActionWait "DestinationUnavailable")
  else if DestinationBlocked o then Some (Ok (blockedWith current o "InvalidDestination"))
  else None.

Definition placementGuard (current : Phase) (o : Observation) : option (result Decision) :=
  if negb (PlacementExists o) || negb (DestinationScheduled o)
  then Some (transition current current ActionEnsurePlacement "")
  else None.

Definition consumerGuard (current : Phase) (o : Observation) : option (result Decision) :=
  if ConsumersAmbiguous o && negb (OwnerCommitted o)
  then Some (transition current current ActionWait "MultipleConsumers")
  else None.

(** [if decision, guarded, err := guard(...); guarded { return decision, err }] *)
Definition guarded_by (guard : option (result Decision)) (rest : result Decision) : result Decision :=
  match guard with Some decision => decision | None => rest end.

Notation "'guard' g 'otherwise' k" := (guarded_by g k) (at level 100, g at next level, k at level 200) : go_scope.

Definition lifecycleGuard (current : Phase) (o : Observation) : option (result Decision) :=
  if current == PhaseCompleting then
    if CompletionReady o then Some (transition current PhaseSucceeded ActionMarkSucceeded "")
    else Some (transition current current ActionWait "CompletionAuthorityMismatch")
  else None.

Definition authorityGuard (current : Phase) (o : Observation) : option (result Decision) :=
  if SourceAuthorityInvalid o then Some (Ok (blockedWith current o "SourceAuthorityInvalid"))
  else if beforeCommit current && negb (OwnerCommitted o) && negb (SourceHealthy o) then
    if beforeExecutionApproval o && disruptionPossible current
    then Some (transition current current ActionWait (reasonOr (UnsafeReason o) "SourceUnavailable"))
    else Some (Ok (blockedWith current o "SourceUnavailable"))
  else None.

(** ** Execution phases *)

Definition decideWaitingForUnpublish (current : Phase) (o : Observation) : result Decision :=
  if PublishedOnSource o then transition current current ActionWait ""
  else transition current PhaseWaitingForReplacement ActionWait "".

Definition decideWaitingForReplacement (current : Phase) (o : Observation) : result Decision :=
  if negb (ReplacementExists o) then transition current current ActionWait ""
  else if negb (ReplacementHeld o) then Ok (blockedWith current o "PlacementHoldLost")
  else transition current PhaseWaitingForDestination ActionEnsurePlacement "".

Definition decideWaitingForDestination (current : Phase) (o : Observation) : result Decision :=
  if DestinationBlocked o then Ok (blockedWith current o "DestinationUnavailable")
  else if negb (ReplacementExists o) then transition current current ActionWait ""
  else if negb (ReplacementHeld o) then Ok (blockedWith current o "PlacementHoldLost")
  else if negb (DestinationScheduled o) then transition current current ActionEnsurePlacement ""
  else if DestinationUnavailable o then transition current PhaseWaitingForCapacity ActionWait "DestinationUnavailable"
  else transition current PhaseWaitingForCapacity ActionWait "".

Definition decideWaitingForCapacity (current : Phase) (o : Observation) : result Decision :=
  guard destinationGuard current o otherwise
  guard consumerGuard current o otherwise
  if CapacityBlocked o then
    transition current current ActionEnsureCapacity (reasonOr (UnsafeReason o) "DestinationCapacityInsufficient")
  else if CapacityApproved o then transition current PhaseCopying ActionEnsureCopy ""
  else transition current current ActionEnsureCapacity "".

Definition decideCopying (current : Phase) (o : Observation) : result Decision :=
  guard destinationGuard current o otherwise
  if CopyFailed o then Ok (blockedWith current (with_UnsafeReason o "") "CopyFailed")
  else
  guard consumerGuard current o otherwise
  guard placementGuard current o otherwise
  if CopyComplete o then transition current PhasePromoting ActionEnsurePromotion ""
  else transition current current ActionEnsureCopy "".

Definition decidePromoting (current : Phase) (o : Observation) : result Decision :=
  if OwnerCommitted o then transition current PhaseCommitting ActionCommitOwner ""
  else
  guard destinationGuard current o otherwise
  if PromotionFailed o then Ok (blockedWith current (with_UnsafeReason o "") "PromotionFailed")
  else
  guard consumerGuard current o otherwise
  guard placementGuard current o otherwise
  if PromotionComplete o then transition current PhaseCommitting ActionCommitOwner ""
  else transition current current ActionEnsurePromotion "".

Definition decideCommitting (current : Phase) (o : Observation) : result Decision :=
  if OwnerCommitted o then
    if DestinationUnavailable o then transition current current ActionWait "DestinationUnavailable"
    else transition current PhaseReleasingDestination ActionDeletePlacement ""
  else
  guard destinationGuard current o otherwise
  guard consumerGuard current o otherwise
  guard placementGuard current o otherwise
  transition current current ActionCommitOwner "".

Definition decideReleasingDestination (current : Phase) (o : Observation) : result Decision :=
  if DestinationUnavailable o then transition current current ActionWait "DestinationUnavailable"
  else if PlacementExists o then transition current current ActionDeletePlacement ""
  else if ReplacementExists o && ReplacementHeld o then
    transition current PhaseWaitingForDestinationPublish ActionReleasePlacement ""
  else
    let reason := if ConsumersAmbiguous o && negb (PublishedOnDestination o) then "MultipleConsumers" else "" in
    transition current PhaseWaitingForDestinationPublish ActionWait reason.

Definition decideWaitingForDestinationPublish (current : Phase) (o : Observation) : result Decision :=
  if CleanupFailed o then Ok (blockedWith current (with_UnsafeReason o "") "CleanupFailed")
  else if DestinationUnavailable o then transition current current ActionWait "DestinationUnavailable"
  else if ReplacementExists o && ReplacementHeld o then transition current current ActionReleasePlacement ""
  else if negb (PublishedOnDestination o) then
    let reason := if ConsumersAmbiguous o then "MultipleConsumers" else "" in
    transition current current ActionWait reason
  else transition current PhaseCleaningSource ActionEnsureCleanup "".

Definition decideCleaningSource (current : Phase) (o : Observation) : result Decision :=
  if DestinationUnavailable o then transition current current ActionWait "DestinationUnavailable"
  else if CleanupFailed o then Ok (blockedWith current (with_UnsafeReason o "") "CleanupFailed")
  else if ReplacementExists o && ReplacementHeld o then transition current current ActionReleasePlacement ""
  else if CleanupComplete o then transition current PhaseCompleting ActionConfirmCleanup ""
  else transition current current ActionEnsureCleanup "".

Definition decideExecution (current : Phase) (o : Observation) : result Decision :=
  guard lifecycleGuard current o otherwise
  guard authorityGuard current o otherwise
  if current == PhaseWaitingForUnpublish then decideWaitingForUnpublish current o
  else if current == PhaseWaitingForReplacement then decideWaitingForReplacement current o
  else if current == PhaseWaitingForDestination then decideWaitingForDestination current o
  else if current == PhaseWaitingForCapacity then decideWaitingForCapacity current o
  else if current == PhaseCopying then decideCopying current o
  else if current == PhasePromoting then decidePromoting current o
  else if current == PhaseCommitting then decideCommitting current o
  else if current == PhaseReleasingDestination then decideReleasingDestination current o
  else if current == PhaseWaitingForDestinationPublish then decideWaitingForDestinationPublish current o
  else if current == PhaseCleaningSource then decideCleaningSource current o
  else Err (Errorf "mobility phase %q has no decision rule").

(** ** Lifecycle routing *)

Definition knownRecovery (phase : string) : bool :=
  contains [RecoveryQuiescing; RecoveryVerifying; RecoveryRetiring; RecoveryResuming; RecoveryCompleting;
            RecoveryRecovered] phase.

Definition validatePreparationEvidence (phase : Phase) (o : Observation) : result unit :=
  reject_if ((phase == PhasePending) && (CapacityApproved o || DestinationIntentRecorded o))
    (Errorf "pending preparation cannot carry destination execution authority");;
  reject_if ((phase == PhaseCancelled) && PreparationReserved o)
    (Errorf "cancelled Move still holds its preparation reservation");;
  Ok tt.

Definition validateState (current : State) (o : Observation) : result unit :=
  reject_if (negb (known (st_Phase current))) (Errorf "unknown mobility phase %q");;
  reject_if ((st_RecoveryPhase current != "") &&
             ((st_Phase current != PhaseBlocked) || negb (knownRecovery (st_RecoveryPhase current))))
    (Errorf "invalid recovery state %+v");;
  reject_if (contains [PhasePreparing; PhaseStartingDisruption; PhaseCanceling; PhaseCancelled] (st_Phase current) &&
             (CapacityApproved o || DestinationIntentRecorded o))
    (Errorf "phase %q cannot release destination execution authority");;
  validatePreparationEvidence (st_Phase current) o.

Definition validateReservedSource (o : Observation) : result unit :=
  reject_if (PreparationReserved o && (negb (SourcePlanRecorded o) || negb (SourceClaimed o)))
    (Errorf "preparation reservation lost its recorded source claim").

Definition canCancelRetiredPreparation (current : State) (o : Observation) : bool :=
  WorkloadRetired o && beforeExecutionApproval o &&
  (st_Phase current != PhaseCanceling) && (st_Phase current != PhaseCancelled) &&
  (st_Phase current != PhaseSucceeded) && (st_RecoveryPhase current == "").

Definition canRequestSettlement (current : State) (o : Observation) : bool :=
  if negb (WorkloadRetired o) || (st_RecoveryPhase current == RecoveryRecovered) || beforeExecutionApproval o
  then false
  else negb (contains [PhaseSucceeded; PhaseCancelled; PhaseCanceling] (st_Phase current)).

Definition decidePreparation (current : Phase) (o : Observation) : result Decision :=
  validateReservedSource o;;
  if negb (ProtectionPresent o) then transition current current ActionProtectMove ""
  else if SourceAuthorityInvalid o then Ok (blockedWith current o "SourceAuthorityInvalid")
  else if negb (SourceHealthy o) || negb (PreconditionsValid o) || PreflightDeferred o then
    if PreparationReserved o then Ok (blockedWith current o "PreparationChanged")
    else
      let action := if PlacementExists o then ActionDeletePlacement else ActionWait in
      transition current current action (reasonOr (UnsafeReason o) "PreparationDeferred")
  else if negb (SourcePlanRecorded o) then transition current PhasePreparing ActionInitializePreparation ""
  else if current == PhasePending then transition current PhasePreparing ActionWait ""
  else if negb (SourceClaimed o) then transition current current ActionClaimSource ""
  else if negb (PreparationReserved o) then transition current current ActionReservePreparation ""
  else transition current PhaseStartingDisruption ActionWait "".

Definition decideStartingDisruption (current : Phase) (o : Observation) : result Decision :=
  reject_if (negb (ProtectionPresent o) || negb (SourcePlanRecorded o) || negb (SourceClaimed o) ||
             negb (PreparationReserved o))
    (Errorf "disruption requires the protected plan, source claim and reservation");;
  if SourceAuthorityInvalid o then Ok (blockedWith current o "SourceAuthorityInvalid")
  else if negb (SourceHealthy o) || PreflightDeferred o then
    transition current current ActionWait (reasonOr (UnsafeReason o) "PreparationUnavailable")
  else if ReplacementExists o && negb (ReplacementHeld o) then
    Ok (blockedWith current o "UnexpectedConsumerPlacement")
  else transition current PhaseWaitingForUnpublish ActionStartDisruption "".

Definition decideCancellation (current : State) (o : Observation) : result Decision :=
  validateReservedSource o;;
  if (st_Phase current == PhaseCanceling) && SourcePlanRecorded o && negb (SourceClaimed o) then
    Ok (MkDecision current ActionClaimSource "")
  else if SourceClaimed o && (SourceMoving o || SourceBlocked o) then
    Ok (MkDecision current ActionRestoreSource "")
  else if negb (PlacementAbsent o) then Ok (MkDecision current ActionDeletePlacement "")
  else if st_Phase current == PhaseCanceling then
    transition (st_Phase current) PhaseCancelled ActionReleasePreparation ""
  else if SourceClaimed o then Ok (MkDecision current ActionReleaseSource "")
  else Ok (MkDecision current ActionFinalizeHistory "").

Definition decideRecovery (current : State) (o : Observation) : result Decision :=
  let next phase := MkState (st_Phase current) phase in
  let recovery := st_RecoveryPhase current in
  if recovery == "" then Ok (MkDecision (next RecoveryQuiescing) ActionBeginRecovery "")
  else if recovery == RecoveryQuiescing then Ok (MkDecision (next RecoveryVerifying) ActionQuiesceRecovery "")
  else if recovery == RecoveryVerifying then
    Ok (MkDecision
          (next (if RecoveryOwnerIsDestination o && negb (SettlementOnly o) then RecoveryResuming else RecoveryRetiring))
          ActionVerifyRecovery "")
  else if recovery == RecoveryRetiring then
    Ok (MkDecision
          (next (if RecoveryOwnerIsDestination o || SettlementOnly o then RecoveryCompleting else RecoveryResuming))
          ActionRetireRecovery "")
  else if recovery == RecoveryResuming then
    Ok (MkDecision
          (next (if RecoveryOwnerIsDestination o then RecoveryRetiring else RecoveryCompleting))
          ActionResumeRecovery "")
  else if recovery == RecoveryCompleting then
    Ok (MkDecision (next RecoveryRecovered)
          (if RecoveryUnlockObserved o then ActionWait else ActionCompleteRecovery) "")
  else Err (Errorf "unknown recovery phase %q").

Definition decideLifecycle (current : State) (o : Observation) : option (result Decision) :=
  if canCancelRetiredPreparation current o then
    if SourceAuthorityInvalid o || negb (SourcePlanRecorded o) || negb (SourceClaimed o) || negb (PreparationReserved o)
    then Some (Err (Errorf "retired preparation requires its exact reserved source authority"))
    else Some (transition (st_Phase current) PhaseCanceling ActionWait "WorkloadRetired")
  else if canRequestSettlement current o then
    Some (Ok (MkDecision (MkState PhaseBlocked "") ActionRequestSettlement "WorkloadRetired"))
  else if st_Phase current == PhaseSucceeded then Some (Ok (MkDecision current ActionFinalizeHistory ""))
  else if (st_Phase current == PhaseCanceling) || (st_Phase current == PhaseCancelled) then
    Some (decideCancellation current o)
  else if st_Phase current == PhaseBlocked then
    if st_RecoveryPhase current == RecoveryRecovered then Some (Ok (MkDecision current ActionFinalizeHistory ""))
    else if beforeExecutionApproval o && (st_RecoveryPhase current == "") then
      Some (Ok (MkDecision current ActionFinalizeSourceUsage ""))
    else if RecoveryRequested o then Some (decideRecovery current o)
    else Some (Ok (MkDecision current ActionFinalizeSourceUsage ""))
  else if beforeExecutionApproval o && (PreparationChangedReason o != "") then
    Some (preparationChanged (st_Phase current) o)
  else if (st_Phase current == PhasePending) || (st_Phase current == PhasePreparing) then
    Some (decidePreparation (st_Phase current) o)
  else if st_Phase current == PhaseStartingDisruption then
    Some (decideStartingDisruption (st_Phase current) o)
  else None.

(** The entry point: an empty state is normalised to Pending. *)
Definition normalize (current : State) : State :=
  if (st_Phase current == "") && (st_RecoveryPhase current == "")
  then MkState PhasePending (st_RecoveryPhase current) else current.

Definition Decide (current : State) (o : Observation) : result Decision :=
  let current := normalize current in
  validateState current o;;
  guard decideLifecycle current o otherwise
  decision ← decideExecution (st_Phase current) o;
  ValidateTransition (st_Phase current) (st_Phase (d_Next decision));;
  Ok decision.

(** The observation in which exactly the named facts hold, for examples. *)
Definition observed (flags : list string) : Observation := {|
  WorkloadRetired := contains flags "WorkloadRetired"; SettlementOnly := contains flags "SettlementOnly";
  ProtectionPresent := contains flags "ProtectionPresent"; SourcePlanRecorded := contains flags "SourcePlanRecorded";
  SourceClaimed := contains flags "SourceClaimed"; PreparationReserved := contains flags "PreparationReserved";
  PreparationChangedReason := ""; PreparationUnavailable := contains flags "PreparationUnavailable";
  SourceMoving := contains flags "SourceMoving"; SourceBlocked := contains flags "SourceBlocked";
  PlacementAbsent := contains flags "PlacementAbsent"; DestinationIntentRecorded := contains flags "DestinationIntentRecorded";
  RecoveryRequested := contains flags "RecoveryRequested"; RecoveryOwnerIsDestination := contains flags "RecoveryOwnerIsDestination";
  RecoveryUnlockObserved := contains flags "RecoveryUnlockObserved"; PreconditionsValid := contains flags "PreconditionsValid";
  PreflightDeferred := contains flags "PreflightDeferred"; UnsafeReason := "";
  SourceHealthy := contains flags "SourceHealthy"; SourceAuthorityInvalid := contains flags "SourceAuthorityInvalid";
  ConsumerExists := contains flags "ConsumerExists"; ConsumersAmbiguous := contains flags "ConsumersAmbiguous";
  PublishedOnSource := contains flags "PublishedOnSource"; ReplacementExists := contains flags "ReplacementExists";
  ReplacementHeld := contains flags "ReplacementHeld"; PlacementExists := contains flags "PlacementExists";
  DestinationScheduled := contains flags "DestinationScheduled"; DestinationBlocked := contains flags "DestinationBlocked";
  DestinationUnavailable := contains flags "DestinationUnavailable"; CapacityApproved := contains flags "CapacityApproved";
  CapacityBlocked := contains flags "CapacityBlocked"; CopyComplete := contains flags "CopyComplete";
  CopyFailed := contains flags "CopyFailed"; PromotionComplete := contains flags "PromotionComplete";
  PromotionFailed := contains flags "PromotionFailed"; OwnerCommitted := contains flags "OwnerCommitted";
  PublishedOnDestination := contains flags "PublishedOnDestination"; CleanupComplete := contains flags "CleanupComplete";
  CleanupFailed := contains flags "CleanupFailed"; CompletionReady := contains flags "CompletionReady"
|}.

(** ** Inversion lemmas *)

(** [to] follows [from] in the transition table. *)
Definition legal (from to : Phase) : Prop := to ∈ default [] (map_lookup allowedTransitions from).

Lemma ValidateTransition_legal (from to : Phase) :
  ValidateTransition from to = Ok tt -> known from = true /\ legal from to.
Proof. unfold ValidateTransition, legal. intros H. go_inv. done. Qed.

Lemma transition_Ok (from to : Phase) (action : Action) (reason : string) (d : Decision) :
  transition from to action reason = Ok d ->
  legal from to /\ d = MkDecision (MkState to "") action reason.
Proof.
  unfold transition. intros H. apply bind_Ok in H as ([] & H & Hd).
  apply ValidateTransition_legal in H as [_ H]. by simplify_eq.
Qed.

Lemma transition_total (from to : Phase) (action : Action) (reason : string) :
  ValidateTransition from to = Ok tt ->
  transition from to action reason = Ok (MkDecision (MkState to "") action reason).
Proof. unfold transition. by intros ->. Qed.

(** A successful decision comes from exactly one of the two routers. *)
Lemma Decide_inv (s : State) (o : Observation) (d : Decision) :
  Decide s o = Ok d ->
  let current := normalize s in
  validateState current o = Ok tt /\
  (decideLifecycle current o = Some (Ok d) \/
   (decideLifecycle current o = None /\ decideExecution (st_Phase current) o = Ok d /\
    legal (st_Phase current) (st_Phase (d_Next d)))).
Proof.
  intros H current. unfold Decide in H. fold current in H. apply bind_Ok in H as ([] & Hvalid & H). split; [done|].
  destruct (decideLifecycle current o) as [r|]; simpl in H.
  - left. by subst.
  - right. split; [done|]. apply bind_Ok in H as (d' & Hexec & H).
    apply bind_Ok in H as ([] & Hvt & H). simplify_eq.
    apply ValidateTransition_legal in Hvt as [_ Hvt]. done.
Qed.

Lemma validateState_known (s : State) (o : Observation) :
  validateState s o = Ok tt -> known (st_Phase s) = true.
Proof. unfold validateState. intros H. go_inv. done. Qed.

(** The two strings [Phase] and [RecoveryPhase] a decision may leave behind. *)
Lemma blockedWith_cases (current : Phase) (o : Observation) (fallback : string) :
  (d_Next (blockedWith current o fallback) = MkState PhaseCanceling "" /\
   d_Action (blockedWith current o fallback) = ActionWait /\
   beforeExecutionApproval o = true /\ disruptionPossible current = false) \/
  (d_Next (blockedWith current o fallback) = MkState PhaseBlocked "" /\
   d_Action (blockedWith current o fallback) = ActionMarkBlocked).
Proof.
  unfold blockedWith. destruct (beforeExecutionApproval o) eqn:Hb; simpl; [|by right].
  destruct (disruptionPossible current) eqn:Hd; simpl; [by right|by left].
Qed.

Lemma blockedWith_action (current : Phase) (o : Observation) (fallback : string) :
  d_Action (blockedWith current o fallback) ∈ [ActionWait; ActionMarkBlocked].
Proof.
  destruct (blockedWith_cases current o fallback) as [(_ & -> & _)|[_ ->]]; set_solver.
Qed.

(** Unpack a leaf of a decision function. *)
Ltac fsm_leaf :=
  repeat match goal with
  | H : Some _ = Some _ |- _ => injection H as H
  | H : Ok _ = Ok _ |- _ => injection H as H; subst
  | H : Some _ = None |- _ => discriminate H
  | H : None = Some _ |- _ => discriminate H
  | H : Err _ = Ok _ |- _ => discriminate H
  | H : transition _ _ _ _ = Ok _ |- _ => apply transition_Ok in H as [? ->]
  | H : _ = ?d |- _ => is_var d; match type of d with Decision => subst d end
  end; simpl in *.

(** Split a hypothesis [f current o = Ok d] along the tests of [f]. *)
Ltac fsm_split H :=
  repeat match type of H with
  | Some _ = Some _ => injection H as H
  | (_ ≫= _) = Ok _ => apply bind_Ok in H as ([] & ? & H)
  | guarded_by (if ?b then _ else _) _ = _ => destruct b eqn:?; cbn [guarded_by] in H
  | guarded_by ?g _ = _ => destruct g as [?|] eqn:?; cbn [guarded_by] in H
  | (if ?b then _ else _) = _ => destruct b eqn:?
  | context [if ?b then _ else _] => destruct b eqn:?
  | context [match ?x with Some _ => _ | None => _ end] => destruct x eqn:?
  end; subst; fsm_leaf.

Lemma map_lookup_key (m : list (Phase * list Phase)) (p : Phase) :
  map_lookup m p <> None -> p ∈ m.*1.
Proof.
  induction m as [|[k v] m IH]; [done|]. simpl. case_bool_decide as Hk; [set_solver|].
  intros H. apply IH in H. set_solver.
Qed.

Lemma known_key (p : Phase) : known p = true -> p ∈ allowedTransitions.*1.
Proof.
  unfold known. intros H. apply map_lookup_key. by destruct (map_lookup allowedTransitions p).
Qed.

(** Decide a statement about every known phase by evaluation. *)
Lemma known_forall (P : Phase -> Prop) `{!forall p, base.Decision (P p)} :
  bool_decide (Forall P allowedTransitions.*1) = true -> forall p, known p = true -> P p.
Proof.
  intros Hall%bool_decide_eq_true p Hp. rewrite Forall_forall in Hall. by apply Hall, known_key.
Qed.

#[export] Instance legal_dec (from to : Phase) : base.Decision (legal from to).
Proof. unfold legal. apply _. Defined.

Lemma legal_refl (p : Phase) : known p = true -> legal p p.
Proof. apply (known_forall (fun p => legal p p)). vm_compute. reflexivity. Qed.

Lemma legal_blocked (p : Phase) :
  known p = true ->
  legal p PhaseBlocked \/ p ∈ [PhasePreparing; PhaseCanceling; PhaseCancelled; PhaseCompleting; PhaseSucceeded].
Proof.
  apply (known_forall (fun p => legal p PhaseBlocked \/
    p ∈ [PhasePreparing; PhaseCanceling; PhaseCancelled; PhaseCompleting; PhaseSucceeded])).
  vm_compute. reflexivity.
Qed.

Lemma legal_canceling (p : Phase) :
  known p = true -> disruptionPossible p = false -> legal p PhaseCanceling.
Proof.
  intros Hknown. apply (known_forall (fun p => disruptionPossible p = false -> legal p PhaseCanceling)); [|done].
  vm_compute. reflexivity.
Qed.

(** The phases whose recorded evidence excludes execution authority. *)
Lemma validateState_before_approval (s : State) (o : Observation) :
  validateState s o = Ok tt ->
  st_Phase s ∈ [PhasePending; PhasePreparing; PhaseStartingDisruption; PhaseCanceling; PhaseCancelled] ->
  beforeExecutionApproval o = true.
Proof.
  unfold validateState, validatePreparationEvidence, beforeExecutionApproval. intros H Hphase. go_inv.
  destruct (CapacityApproved o) eqn:Ha, (DestinationIntentRecorded o) eqn:Hi; try done; exfalso; simpl in *;
    repeat match goal with
    | H : (_ && true)%bool = false |- _ => rewrite andb_true_r in H
    end; go_inv; set_solver.
Qed.

(** Where [blockedWith] may lead from a valid state. *)
Lemma blockedWith_legal (s : State) (o o' : Observation) (fallback : string) :
  validateState s o = Ok tt -> beforeExecutionApproval o' = beforeExecutionApproval o ->
  st_Phase s ∉ [PhaseCanceling; PhaseCancelled; PhaseSucceeded] ->
  legal (st_Phase s) (st_Phase (d_Next (blockedWith (st_Phase s) o' fallback))) \/
  (st_Phase s = PhaseCompleting /\ d_Next (blockedWith (st_Phase s) o' fallback) = MkState PhaseBlocked "").
Proof.
  intros Hvalid Hsame Hphase. pose proof (validateState_known s o Hvalid) as Hknown.
  destruct (blockedWith_cases (st_Phase s) o' fallback) as [(Hn & _ & _ & Hd)|[Hn _]]; rewrite Hn; simpl.
  - left. by apply legal_canceling.
  - destruct (legal_blocked (st_Phase s) Hknown) as [|Hin]; [by left|].
    destruct (decide (st_Phase s = PhaseCompleting)); [by right|]. exfalso.
    assert (st_Phase s = PhasePreparing) as Hprep by set_solver.
    assert (beforeExecutionApproval o = true) as Hb
      by (apply (validateState_before_approval s); [done|set_solver]).
    revert Hn. unfold blockedWith. by rewrite Hsame, Hb, Hprep.
Qed.

Ltac fsm_boolean :=
  repeat match goal with
  | H : reject_if _ _ = Ok _ |- _ => apply reject_if_Ok in H
  | H : (_ || _)%bool = true |- _ => apply orb_true_iff in H as [H|H]
  | H : (_ || _)%bool = false |- _ => apply orb_false_iff in H as [? H]
  | H : (_ && _)%bool = true |- _ => apply andb_true_iff in H as [? H]
  | H : negb _ = true |- _ => apply negb_true_iff in H
  | H : negb _ = false |- _ => apply negb_false_iff in H
  | H : bool_decide _ = true |- _ => apply bool_decide_eq_true in H
  | H : bool_decide _ = false |- _ => apply bool_decide_eq_false in H
  | H : contains _ _ = true |- _ => apply contains_true in H
  | H : contains _ _ = false |- _ => apply contains_false in H
  end.

Lemma settlement_legal (s : State) (o : Observation) :
  validateState s o = Ok tt -> canRequestSettlement s o = true ->
  legal (st_Phase s) PhaseBlocked \/ st_Phase s = PhaseCompleting.
Proof.
  intros Hvalid Hsettle. pose proof (validateState_known s o Hvalid) as Hknown.
  unfold canRequestSettlement in Hsettle. destruct (_ || _)%bool eqn:Hpre; [done|]. fsm_boolean.
  destruct (legal_blocked (st_Phase s) Hknown) as [|Hin]; [by left|right].
  assert (st_Phase s <> PhasePreparing); [|set_solver].
  intros Hprep. assert (beforeExecutionApproval o = true); [|congruence].
  apply (validateState_before_approval s); [done|set_solver].
Qed.

(** ** Properties *)

Lemma Decide_legal (s : State) (o : Observation) (d : Decision) :
  Decide s o = Ok d ->
  legal (st_Phase (normalize s)) (st_Phase (d_Next d)) \/
  (st_Phase (normalize s) = PhaseCompleting /\ d_Next d = MkState PhaseBlocked "").
Proof.
  intros H. apply Decide_inv in H. cbv zeta in H. set (c := normalize s) in *.
  destruct H as [Hvalid [H|(_ & _ & H)]]; [|by left].
  pose proof (validateState_known c o Hvalid) as Hknown.
  assert (legal (st_Phase c) (st_Phase c)) as Hrefl by by apply legal_refl.
  unfold decideLifecycle, decideCancellation, decideRecovery, preparationChanged, decidePreparation,
    decideStartingDisruption in H.
  fsm_split H; fsm_boolean; auto;
    try (apply (blockedWith_legal c o); [done|done|set_solver]).
  destruct (settlement_legal c o) as [|]; auto.
Qed.

(** C40: every decision follows the transition table; the one edge it takes
    outside the table is Completing to Blocked. *)
Theorem Decide_follows_table (s : State) (o : Observation) (d : Decision) :
  Decide s o = Ok d ->
  legal (st_Phase (normalize s)) (st_Phase (d_Next d)) \/
  (st_Phase (normalize s) = PhaseCompleting /\ d_Next d = MkState PhaseBlocked "").
Proof. apply Decide_legal. Qed.

Lemma Decide_follows_table_witness :
  legal PhasePromoting PhaseCommitting \/
  (PhasePromoting = PhaseCompleting /\ MkState PhaseCommitting "" = MkState PhaseBlocked "").
Proof.
  apply (Decide_follows_table (MkState PhasePromoting "")
           (observed ["CapacityApproved"; "OwnerCommitted"]) (MkDecision (MkState PhaseCommitting "") ActionCommitOwner "")).
  vm_compute. reflexivity.
Defined.

(** Settled history: no router may give it authority again. *)
Definition settled (s : State) : Prop :=
  st_Phase s = PhaseSucceeded \/ st_Phase s = PhaseCancelled \/
  (st_Phase s = PhaseBlocked /\ st_RecoveryPhase s = RecoveryRecovered).

Lemma settled_routes (s : State) (o : Observation) :
  settled s ->
  normalize s = s /\ canCancelRetiredPreparation s o = false /\ canRequestSettlement s o = false.
Proof.
  unfold settled, normalize, canCancelRetiredPreparation, canRequestSettlement.
  destruct s as [p r]; simpl. intros [->|[->|[-> ->]]]; go_eval;
    rewrite ?andb_false_r, ?orb_true_r; split_and!; try done; by case_match.
Qed.

(** Settled history is absorbing: a Succeeded, Cancelled or Recovered Move
    keeps its state forever and only metadata or release actions are selected
    for it, so a terminal record never regains authority. *)
Theorem terminal_absorbing (s : State) (o : Observation) (d : Decision) :
  settled s -> Decide s o = Ok d ->
  d_Next d = s /\
  d_Action d ∈ [ActionFinalizeHistory; ActionReleaseSource; ActionDeletePlacement; ActionRestoreSource].
Proof.
  intros Hterm H. apply Decide_inv in H. cbv zeta in H.
  destruct (settled_routes s o Hterm) as (Hs & Hcancel & Hsettle). rewrite Hs in H.
  destruct H as [_ [Hd|(Hd & _)]]; unfold decideLifecycle, decideCancellation in Hd;
    rewrite Hcancel, Hsettle in Hd; destruct s as [p r];
    destruct Hterm as [Hp|[Hp|[Hp Hr]]]; simpl in *; subst; go_eval; fsm_split Hd;
    try done; (split; [done|set_solver]).
Qed.

Lemma terminal_absorbing_witness :
  MkState PhaseCancelled "" = MkState PhaseCancelled "" /\
  ActionReleaseSource ∈ [ActionFinalizeHistory; ActionReleaseSource; ActionDeletePlacement; ActionRestoreSource].
Proof.
  apply (terminal_absorbing (MkState PhaseCancelled "")
           (observed ["SourcePlanRecorded"; "SourceClaimed"; "PlacementAbsent"])
           (MkDecision (MkState PhaseCancelled "") ActionReleaseSource "")).
  - right. left. reflexivity.
  - vm_compute. reflexivity.
Defined.

(** Reduce the routers on a concrete phase. *)
Ltac fsm_execution H :=
  unfold decideExecution, lifecycleGuard, authorityGuard, decideWaitingForUnpublish, decideWaitingForReplacement,
    decideWaitingForDestination, decideWaitingForCapacity, decideCopying, decidePromoting, decideCommitting,
    decideReleasingDestination, decideWaitingForDestinationPublish, decideCleaningSource, destinationGuard,
    placementGuard, consumerGuard in H.

Ltac fsm_lifecycle H :=
  unfold decideLifecycle, decideCancellation, decideRecovery, preparationChanged, decidePreparation,
    decideStartingDisruption in H.

Lemma normalize_phase (s : State) (p : Phase) :
  st_Phase (normalize s) = p -> p <> PhasePending -> st_Phase s = p.
Proof. unfold normalize. destruct (_ && _)%bool; simpl; congruence. Qed.

Lemma authority_before_commit (p : Phase) (uncommitted healthy : bool) :
  beforeCommit p && uncommitted && negb healthy = false -> beforeCommit p = true -> uncommitted = true ->
  healthy = true.
Proof. intros H Hb Hu. rewrite Hb, Hu in H. by destruct healthy. Qed.

(** [blockedWith] selects no effect beyond waiting or recording the block. *)
Ltac fsm_not_blocked H :=
  match type of H with
  | d_Action (blockedWith ?p ?o ?f) = _ =>
      destruct (blockedWith_cases p o f) as [(_ & Hb & _)|[_ Hb]]; rewrite Hb in H; discriminate H
  end.

(** The owner compare-and-swap is selected only while promoting or
    committing under a valid source authority, and before the owner has moved only
    with a healthy source, one consumer, and a live scheduled destination whose
    copy has been promoted. *)
Theorem commit_requires_evidence (s : State) (o : Observation) (d : Decision) :
  Decide s o = Ok d -> d_Action d = ActionCommitOwner ->
  st_Phase (d_Next d) = PhaseCommitting /\ SourceAuthorityInvalid o = false /\
  ((st_Phase s = PhasePromoting /\ OwnerCommitted o = true) \/
   ((st_Phase s = PhasePromoting /\ PromotionComplete o = true /\ PromotionFailed o = false \/
     st_Phase s = PhaseCommitting) /\
    OwnerCommitted o = false /\ SourceHealthy o = true /\ ConsumersAmbiguous o = false /\
    DestinationUnavailable o = false /\ DestinationBlocked o = false /\
    PlacementExists o = true /\ DestinationScheduled o = true)).
Proof.
  intros H Haction. apply Decide_inv in H. cbv zeta in H. destruct H as [Hvalid [H|(_ & H & _)]].
  - exfalso. fsm_lifecycle H.
    fsm_split H; try discriminate Haction; try fsm_not_blocked Haction; by destruct (RecoveryUnlockObserved o).
  - fsm_execution H. fsm_split H; try discriminate Haction; try fsm_not_blocked Haction; fsm_boolean;
      match goal with
      | Hp : st_Phase (normalize s) = _, Hc : (beforeCommit _ && _ && _)%bool = false |- _ =>
          pose proof (normalize_phase s _ Hp ltac:(discriminate)) as Hs; rewrite ?Hp; rewrite Hp in Hc;
          pose proof (authority_before_commit _ _ _ Hc eq_refl) as Hhealthy
      end; rewrite ?andb_true_r in *; split_and!; try done; naive_solver.
Qed.

Lemma commit_requires_evidence_witness :
  st_Phase (MkState PhaseCommitting "") = PhaseCommitting /\
  SourceHealthy (observed ["CapacityApproved"; "SourceHealthy"; "PlacementExists"; "DestinationScheduled"; "PromotionComplete"]) = true.
Proof.
  pose proof (commit_requires_evidence (MkState PhasePromoting "")
    (observed ["CapacityApproved"; "SourceHealthy"; "PlacementExists"; "DestinationScheduled"; "PromotionComplete"])
    (MkDecision (MkState PhaseCommitting "") ActionCommitOwner "") ltac:(vm_compute; reflexivity) eq_refl) as (H & _).
  split; [exact H|vm_compute; reflexivity].
Defined.

(** source cleanup is started or confirmed only after the owner has moved
    to a reachable destination: it starts when the destination is published and
    completes on a cleanup receipt, never on a failed cleanup, a revoked source
    authority or a replacement Pod that is still held. *)
Theorem cleanup_requires_publication (s : State) (o : Observation) (d : Decision) :
  Decide s o = Ok d -> d_Action d = ActionEnsureCleanup \/ d_Action d = ActionConfirmCleanup ->
  SourceAuthorityInvalid o = false /\ DestinationUnavailable o = false /\ CleanupFailed o = false /\
  ReplacementExists o && ReplacementHeld o = false /\
  ((st_Phase s = PhaseWaitingForDestinationPublish /\ PublishedOnDestination o = true /\
    d_Action d = ActionEnsureCleanup /\ st_Phase (d_Next d) = PhaseCleaningSource) \/
   (st_Phase s = PhaseCleaningSource /\ CleanupComplete o = false /\
    d_Action d = ActionEnsureCleanup /\ st_Phase (d_Next d) = PhaseCleaningSource) \/
   (st_Phase s = PhaseCleaningSource /\ CleanupComplete o = true /\
    d_Action d = ActionConfirmCleanup /\ st_Phase (d_Next d) = PhaseCompleting)).
Proof.
  intros H Haction. apply Decide_inv in H. cbv zeta in H. destruct H as [Hvalid [H|(_ & H & _)]].
  - exfalso. fsm_lifecycle H. fsm_split H; destruct Haction as [Haction|Haction];
      try discriminate Haction; try fsm_not_blocked Haction; by destruct (RecoveryUnlockObserved o).
  - fsm_execution H. fsm_split H; destruct Haction as [Haction|Haction];
      try discriminate Haction; try fsm_not_blocked Haction; fsm_boolean;
      match goal with
      | Hp : st_Phase (normalize s) = _ |- _ =>
          pose proof (normalize_phase s _ Hp ltac:(discriminate)) as Hs; rewrite ?Hp
      end; split_and!; try done; naive_solver.
Qed.


Lemma cleanup_requires_publication_witness :
  PublishedOnDestination (observed ["CapacityApproved"; "OwnerCommitted"; "PublishedOnDestination"]) = true /\
  ReplacementHeld (observed ["CapacityApproved"; "OwnerCommitted"; "PublishedOnDestination"]) = false /\
  DestinationUnavailable (observed ["CapacityApproved"; "OwnerCommitted"; "PublishedOnDestination"]) = false.
Proof.
  pose proof (cleanup_requires_publication (MkState PhaseWaitingForDestinationPublish "")
    (observed ["CapacityApproved"; "OwnerCommitted"; "PublishedOnDestination"])
    (MkDecision (MkState PhaseCleaningSource "") ActionEnsureCleanup "")
    ltac:(vm_compute; reflexivity) (or_introl eq_refl)) as (_ & H & _).
  split_and!; [vm_compute; reflexivity|vm_compute; reflexivity|exact H].
Defined.

(** ** Runs

    The controller applies [Next] after the selected action completes, and
    re-observes otherwise.  A run is the sequence of recorded states with the
    observation each decision was made from. *)

Inductive run : State -> list (State * Observation) -> State -> Prop :=
| run_start s : run s [] s
| run_step s tr s' o d :
    run s tr s' -> Decide s' o = Ok d -> run s (tr ++ [(s', o)]) (d_Next d).

(** The phases of a successful move after Pending, in order. *)
Definition main_line : list Phase := [
  PhasePreparing; PhaseStartingDisruption; PhaseWaitingForUnpublish; PhaseWaitingForReplacement;
  PhaseWaitingForDestination; PhaseWaitingForCapacity; PhaseCopying; PhasePromoting; PhaseCommitting;
  PhaseReleasingDestination; PhaseWaitingForDestinationPublish; PhaseCleaningSource; PhaseCompleting;
  PhaseSucceeded].

(** The phase from which each main-line phase is entered and what must have
    been observed there. *)
Definition edge (to : Phase) : option (Phase * (Observation -> bool)) :=
  if to == PhasePreparing then Some (PhasePending, fun o =>
    ProtectionPresent o && negb (SourceAuthorityInvalid o) && SourceHealthy o && PreconditionsValid o &&
    negb (PreflightDeferred o))
  else if to == PhaseStartingDisruption then Some (PhasePreparing, fun o =>
    ProtectionPresent o && SourcePlanRecorded o && SourceClaimed o && PreparationReserved o)
  else if to == PhaseWaitingForUnpublish then Some (PhaseStartingDisruption, fun o =>
    ProtectionPresent o && SourcePlanRecorded o && SourceClaimed o && PreparationReserved o && SourceHealthy o)
  else if to == PhaseWaitingForReplacement then Some (PhaseWaitingForUnpublish, fun o => negb (PublishedOnSource o))
  else if to == PhaseWaitingForDestination then Some (PhaseWaitingForReplacement, fun o =>
    ReplacementExists o && ReplacementHeld o)
  else if to == PhaseWaitingForCapacity then Some (PhaseWaitingForDestination, fun o =>
    ReplacementExists o && ReplacementHeld o && DestinationScheduled o && negb (DestinationBlocked o))
  else if to == PhaseCopying then Some (PhaseWaitingForCapacity, fun o =>
    CapacityApproved o && negb (DestinationUnavailable o) && negb (DestinationBlocked o))
  else if to == PhasePromoting then Some (PhaseCopying, fun o => CopyComplete o && negb (CopyFailed o))
  else if to == PhaseCommitting then Some (PhasePromoting, fun o =>
    OwnerCommitted o || PromotionComplete o && negb (PromotionFailed o))
  else if to == PhaseReleasingDestination then Some (PhaseCommitting, fun o => OwnerCommitted o)
  else if to == PhaseWaitingForDestinationPublish then Some (PhaseReleasingDestination, fun o => negb (PlacementExists o))
  else if to == PhaseCleaningSource then Some (PhaseWaitingForDestinationPublish, fun o =>
    PublishedOnDestination o && negb (CleanupFailed o))
  else if to == PhaseCompleting then Some (PhaseCleaningSource, fun o => CleanupComplete o && negb (CleanupFailed o))
  else if to == PhaseSucceeded then Some (PhaseCompleting, fun o => CompletionReady o)
  else None.

(** The entry of a run at which [to] was entered with its evidence. *)
Definition enters (to : Phase) (entry : State * Observation) : Prop :=
  exists from evidence, edge to = Some (from, evidence) /\
    st_Phase (normalize (fst entry)) = from /\ evidence (snd entry) = true.

Lemma edge_blockedWith (current : Phase) (o : Observation) (fallback : string) :
  edge (st_Phase (d_Next (blockedWith current o fallback))) = None.
Proof.
  destruct (blockedWith_cases current o fallback) as [(-> & _)|[-> _]]; vm_compute; reflexivity.
Qed.

(** Close a leaf that enters a main-line phase with the facts in context. *)
Ltac fsm_enters :=
  right; right; unfold enters, edge; eexists _, _; go_eval; split; [reflexivity|]; split; [congruence|];
  simpl; repeat match goal with H : _ = _ :> bool |- _ => rewrite H; clear H end; reflexivity.

Lemma Decide_edge (s : State) (o : Observation) (d : Decision) :
  Decide s o = Ok d ->
  st_Phase (d_Next d) = st_Phase (normalize s) \/ edge (st_Phase (d_Next d)) = None \/
  enters (st_Phase (d_Next d)) (s, o).
Proof.
  intros H. apply Decide_inv in H. cbv zeta in H.
  destruct H as [Hvalid [H|(_ & H & _)]]; [fsm_lifecycle H|fsm_execution H];
    fsm_split H; fsm_boolean; try (left; congruence);
    try (right; left; apply edge_blockedWith); try (right; left; vm_compute; reflexivity); fsm_enters.
Qed.

Lemma edge_main_line (q : Phase) : q ∈ main_line -> is_Some (edge q) /\ q <> PhasePending.
Proof.
  assert (Forall (fun q => is_Some (edge q) /\ q <> PhasePending) main_line) as Hall.
  { repeat constructor; try discriminate; eexists; reflexivity. }
  rewrite Forall_forall in Hall. apply Hall.
Qed.

(** The predecessor named by [edge] is the preceding phase of the main line. *)
Lemma main_line_pred (before after : list Phase) (q from : Phase) (evidence : Observation -> bool) :
  main_line = before ++ q :: after -> edge q = Some (from, evidence) ->
  (before = [] /\ from = PhasePending) \/
  (exists before', before = before' ++ [from] /\ main_line = before' ++ from :: q :: after).
Proof.
  intros Hline Hedge.
  assert (Hall : forall k, k < 14 ->
    match edge (default PhasePending (main_line !! k)) with
    | Some (from, _) => if decide (k = 0) then from = PhasePending
                        else main_line !! (k - 1) = Some from
    | None => False
    end).
  { intros k Hk. do 14 (destruct k as [|k]; [vm_compute; reflexivity|]). lia. }
  assert (main_line !! length before = Some q) as Hq.
  { rewrite Hline. by rewrite list_lookup_middle. }
  specialize (Hall (length before)).
  assert (length before < 14) as Hlen by (by apply lookup_lt_Some in Hq).
  specialize (Hall Hlen). rewrite Hq in Hall. simpl in Hall. rewrite Hedge in Hall.
  destruct (decide (length before = 0)) as [Hz|Hz].
  - left. by apply nil_length_inv in Hz.
  - right. destruct before as [|x before' _] using rev_ind; [done|].
    exists before'. rewrite length_app in Hall. simpl in Hall.
    replace (length before' + 1 - 1) with (length before') in Hall by lia.
    rewrite Hline, <- app_assoc in Hall. simpl in Hall.
    rewrite list_lookup_middle in Hall by done. simplify_eq.
    split; [done|]. rewrite Hline, <- app_assoc. done.
Qed.

Lemma run_main_line (tr : list (State * Observation)) (s : State) :
  run (MkState "" "") tr s ->
  forall before after, main_line = before ++ st_Phase s :: after ->
  exists hits, hits `sublist_of` tr /\ Forall2 enters (before ++ [st_Phase s]) hits.
Proof.
  remember (MkState "" "") as s0 eqn:Hs0. intros Hrun. revert Hs0.
  induction Hrun as [s|s tr s' o d Hrun IH Hd]; intros Hs0 before after Hline.
  { subst s. exfalso. assert ("" ∈ main_line) by (rewrite Hline; set_solver).
    assert (bool_decide ("" ∈ main_line) = false) as Hno by (vm_compute; reflexivity).
    by apply bool_decide_eq_false in Hno. }
  specialize (IH Hs0).
  assert (st_Phase (d_Next d) ∈ main_line) as Hin by (rewrite Hline; set_solver).
  destruct (edge_main_line _ Hin) as [[[from evidence] Hedge] Hnp].
  destruct (Decide_edge s' o d Hd) as [Hsame|[Hnone|Henter]].
  - symmetry in Hsame. apply normalize_phase in Hsame; [|done]. rewrite <- Hsame in *.
    destruct (IH before after Hline) as (hits & Hsub & Hhits).
    exists hits. split; [|done]. by apply sublist_inserts_r.
  - congruence.
  - assert (Hfrom : st_Phase (normalize s') = from) by (destruct Henter as (? & ? & ? & ? & _); by simplify_eq/=).
    destruct (main_line_pred _ _ _ _ _ Hline Hedge) as [[-> _]|(before' & -> & Hline')].
    + exists [(s', o)]. split; [by apply sublist_inserts_l|by repeat constructor].
    + assert (st_Phase s' = from) as Hs'.
      { apply normalize_phase; [done|]. apply (edge_main_line from). rewrite Hline'. set_solver. }
      destruct (IH before' (st_Phase (d_Next d) :: after)) as (hits & Hsub & Hhits).
      { by rewrite Hs'. }
      exists (hits ++ [(s', o)]). split; [by apply sublist_app|].
      rewrite Hs' in Hhits. apply Forall2_app; [done|by repeat constructor].
Qed.


(** Execute a list of observations from a state. *)
Fixpoint execute (s : State) (os : list Observation) : result (list (State * Observation) * State) :=
  match os with
  | [] => Ok ([], s)
  | o :: os =>
      d ← Decide s o;
      rest ← execute (d_Next d) os;
      Ok ((s, o) :: rest.1, rest.2)
  end.

Lemma execute_run (os : list Observation) (s0 s1 s2 : State) (tr tr' : list (State * Observation)) :
  run s0 tr s1 -> execute s1 os = Ok (tr', s2) -> run s0 (tr ++ tr') s2.
Proof.
  revert s1 tr tr'. induction os as [|o os IH]; intros s1 tr tr' Hrun H; simpl in H.
  - simplify_eq. by rewrite app_nil_r.
  - apply bind_Ok in H as (d & Hd & H). apply bind_Ok in H as ([tr1 s'] & Hrest & H). simplify_eq/=.
    replace (tr ++ (s1, o) :: tr1) with ((tr ++ [(s1, o)]) ++ tr1) by by rewrite <- app_assoc.
    eapply IH; [|done]. by apply run_step.
Qed.

(** One successful move, observation by observation. *)
Definition successful_move : list Observation :=
  let plan := ["ProtectionPresent"; "SourceHealthy"; "PreconditionsValid"; "SourcePlanRecorded"] in
  let held := ["SourceHealthy"; "ReplacementExists"; "ReplacementHeld"; "PlacementExists"; "DestinationScheduled"] in
  map observed [
    ["ProtectionPresent"; "SourceHealthy"; "PreconditionsValid"];
    plan; plan ++ ["SourceClaimed"]; plan ++ ["SourceClaimed"; "PreparationReserved"];
    plan ++ ["SourceClaimed"; "PreparationReserved"];
    ["SourceHealthy"; "PublishedOnSource"]; ["SourceHealthy"]; held; held;
    "CapacityApproved" :: held; "CapacityApproved" :: "CopyComplete" :: held;
    "CapacityApproved" :: "PromotionComplete" :: held;
    "CapacityApproved" :: "OwnerCommitted" :: held;
    ["CapacityApproved"; "OwnerCommitted"; "ReplacementExists"; "ReplacementHeld"];
    ["CapacityApproved"; "OwnerCommitted"; "PublishedOnDestination"];
    ["CapacityApproved"; "OwnerCommitted"; "CleanupComplete"];
    ["CapacityApproved"; "CompletionReady"]].


(** ** Recovery *)

(** The facts of one recovery that do not change between its passes: the owner it resumes, whether it only settles, and that the
    workload is not retired meanwhile. *)
Definition steady (ownerIsDestination settlementOnly : bool) (o : Observation) : Prop :=
  WorkloadRetired o = false /\ RecoveryOwnerIsDestination o = ownerIsDestination /\ SettlementOnly o = settlementOnly.

(** A pass that observes the request for recovery, of a Move whose execution was approved. *)
Definition pressing (o : Observation) : bool := RecoveryRequested o && negb (beforeExecutionApproval o).

(** The recovery step that follows each recovery phase. *)
Definition recovery_next (dest settle : bool) (r : string) : string :=
  if r == "" then RecoveryQuiescing
  else if r == RecoveryQuiescing then RecoveryVerifying
  else if r == RecoveryVerifying then if dest && negb settle then RecoveryResuming else RecoveryRetiring
  else if r == RecoveryRetiring then if dest || settle then RecoveryCompleting else RecoveryResuming
  else if r == RecoveryResuming then if dest then RecoveryRetiring else RecoveryCompleting
  else RecoveryRecovered.

Definition recovering : list string :=
  [""; RecoveryQuiescing; RecoveryVerifying; RecoveryRetiring; RecoveryResuming; RecoveryCompleting].

(** How many steps are left. *)
Definition remaining (dest settle : bool) (r : string) : nat :=
  if r == "" then if settle then 5 else 6
  else if r == RecoveryQuiescing then if settle then 4 else 5
  else if r == RecoveryVerifying then if settle then 3 else 4
  else if r == RecoveryRetiring then if dest || settle then 2 else 3
  else if r == RecoveryResuming then if dest then 3 else 2
  else if r == RecoveryCompleting then 1 else 0.

Lemma recovery_progress (dest settle : bool) (r : string) :
  r ∈ recovering -> recovery_next dest settle r ∈ recovering ++ [RecoveryRecovered] /\
    remaining dest settle r = S (remaining dest settle (recovery_next dest settle r)).
Proof.
  revert r. apply Forall_forall. destruct dest, settle; refine (bool_decide_unpack _ _); vm_compute; exact I.
Qed.

(** A pass of a recovery takes one step or none, and a pressing one takes it. *)
Lemma Decide_recovery (r : string) (o : Observation) (dest settle : bool) :
  steady dest settle o -> r ∈ recovering ->
  exists d, Decide (MkState PhaseBlocked r) o = Ok d /\
    (d_Next d = MkState PhaseBlocked (recovery_next dest settle r) \/ d_Next d = MkState PhaseBlocked r /\ pressing o = false).
Proof.
  intros (Hret & Hdest & Hsettle) Hr. unfold Decide, normalize, validateState, validatePreparationEvidence, decideLifecycle,
    canCancelRetiredPreparation, canRequestSettlement, decideRecovery, recovery_next, pressing. simpl.
  rewrite Hret, Hdest, Hsettle. simpl.
  repeat (apply elem_of_cons in Hr as [->|Hr];
    [go_eval; destruct (RecoveryRequested o), (beforeExecutionApproval o); simpl; eexists; (split; [reflexivity|]); auto|]).
  by apply elem_of_nil in Hr.
Qed.

Lemma Decide_recovered (o : Observation) :
  exists d, Decide (MkState PhaseBlocked RecoveryRecovered) o = Ok d /\ d_Next d = MkState PhaseBlocked RecoveryRecovered.
Proof.
  unfold Decide, normalize, validateState, validatePreparationEvidence, decideLifecycle, canCancelRetiredPreparation, canRequestSettlement.
  simpl. go_eval. rewrite andb_false_r, orb_true_r. simpl. eexists. split; reflexivity.
Qed.

Lemma execute_recovery (dest settle : bool) (os : list Observation) (r : string) :
  Forall (steady dest settle) os -> r ∈ recovering ++ [RecoveryRecovered] -> remaining dest settle r <= length (List.filter pressing os) ->
  exists tr, execute (MkState PhaseBlocked r) os = Ok (tr, MkState PhaseBlocked RecoveryRecovered) /\
    Forall (fun entry => st_Phase (fst entry) = PhaseBlocked) tr.
Proof.
  intros Hos. revert r. induction Hos as [|o os Ho _ IH]; intros r Hr Hlen; simpl in Hlen; simpl.
  - apply elem_of_app in Hr as [Hr|Hr%list_elem_of_singleton]; [apply (recovery_progress dest settle) in Hr; lia|]. subst r. by exists [].
  - assert (exists d r', Decide (MkState PhaseBlocked r) o = Ok d /\ d_Next d = MkState PhaseBlocked r' /\
      r' ∈ recovering ++ [RecoveryRecovered] /\ remaining dest settle r' <= length (List.filter pressing os)) as (d & r' & -> & Hd & Hr' & Hle).
    { apply elem_of_app in Hr as [Hr|Hr%list_elem_of_singleton].
      - destruct (Decide_recovery r o dest settle Ho Hr) as (d & Hd & [Hnext|[Hnext Hp]]), (recovery_progress dest settle r Hr) as [Hin Hdown];
          exists d; eexists; (split_and!; [exact Hd|exact Hnext|..]); [done| |by apply elem_of_app; left|by rewrite Hp in Hlen].
        destruct (pressing o); simpl in Hlen; lia.
      - subst r. destruct (Decide_recovered o) as (d & Hd & Hnext). exists d, RecoveryRecovered. split_and!; [done..|set_solver|].
        change (remaining dest settle RecoveryRecovered) with 0. lia. }
    destruct (IH r' Hr' Hle) as (tr & Htr & Hall). cbn [mbind result_bind]. rewrite Hd, Htr. simpl. eexists. split; [reflexivity|by constructor].
Qed.



(** ** Totality *)

(** The phases dispatched by [decideExecution]. *)
Definition execution_phases : list Phase := [
  PhaseWaitingForUnpublish; PhaseWaitingForReplacement; PhaseWaitingForDestination; PhaseWaitingForCapacity;
  PhaseCopying; PhasePromoting; PhaseCommitting; PhaseReleasingDestination; PhaseWaitingForDestinationPublish;
  PhaseCleaningSource; PhaseCompleting].

Lemma blockedWith_disrupted (p : Phase) (o : Observation) (fallback : string) :
  disruptionPossible p = true -> blockedWith p o fallback = blocked (reasonOr (UnsafeReason o) fallback).
Proof. intros H. unfold blockedWith. by rewrite H, andb_false_r. Qed.

(** Evaluate every transition between known phases. *)
Ltac fsm_total :=
  repeat match goal with
  | |- context [transition ?p ?q ?a ?r] => rewrite (transition_total p q a r) by (vm_compute; reflexivity)
  | |- context [blockedWith ?p ?o ?f] => rewrite (blockedWith_disrupted p o f) by (vm_compute; reflexivity)
  end.

Lemma decideExecution_total (p : Phase) (o : Observation) :
  p ∈ execution_phases ->
  exists d, decideExecution p o = Ok d /\ ValidateTransition p (st_Phase (d_Next d)) = Ok tt.
Proof.
  intros Hp. unfold decideExecution, lifecycleGuard, authorityGuard, decideWaitingForUnpublish,
    decideWaitingForReplacement, decideWaitingForDestination, decideWaitingForCapacity, decideCopying,
    decidePromoting, decideCommitting, decideReleasingDestination, decideWaitingForDestinationPublish,
    decideCleaningSource, destinationGuard, placementGuard, consumerGuard.
  repeat (apply elem_of_cons in Hp as [->|Hp]; [go_eval; fsm_total; unfold guarded_by;
    repeat case_match; simplify_eq; eexists; (split; [reflexivity|vm_compute; reflexivity])|]).
  by apply elem_of_nil in Hp.
Qed.

Lemma transition_self (p : Phase) (action : Action) (reason : string) :
  known p = true -> transition p p action reason = Ok (MkDecision (MkState p "") action reason).
Proof.
  intros Hp. apply transition_total, is_ok_unit. revert p Hp.
  apply (known_forall (fun p => is_ok (ValidateTransition p p) = true)). vm_compute. reflexivity.
Qed.

(** ** Reachable states *)

(** The shape of a recorded state: a known phase, and a recovery only of a blocked Move. *)
Definition well_formed (s : State) : Prop :=
  known (st_Phase s) = true /\ (st_RecoveryPhase s = "" \/ st_Phase s = PhaseBlocked /\ knownRecovery (st_RecoveryPhase s) = true).

Lemma validateState_well_formed (s : State) (o : Observation) : validateState s o = Ok tt -> well_formed s.
Proof.
  intros H. split; [by eapply validateState_known|]. unfold validateState in H.
  apply bind_Ok in H as (? & _ & H). apply bind_Ok in H as (? & H & _). apply reject_if_Ok in H.
  destruct (decide (st_RecoveryPhase s = "")) as [|Hr]; [by left|right]. rewrite bool_decide_false in H by done. simpl in H. fsm_boolean. done.
Qed.

Lemma legal_known (p q : Phase) : known p = true -> legal p q -> known q = true.
Proof.
  intros Hp. revert q. apply Forall_forall. revert p Hp.
  apply (known_forall (fun p => Forall (fun q => known q = true) (default [] (map_lookup allowedTransitions p)))). vm_compute. reflexivity.
Qed.

Lemma blockedWith_recovery (p : Phase) (o : Observation) (fallback : string) : st_RecoveryPhase (d_Next (blockedWith p o fallback)) = "".
Proof. by destruct (blockedWith_cases p o fallback) as [(-> & _)|[-> _]]. Qed.

Lemma Decide_well_formed (s : State) (o : Observation) (d : Decision) : Decide s o = Ok d -> well_formed (d_Next d).
Proof.
  intros H. pose proof (Decide_legal s o d H) as Hlegal. apply Decide_inv in H. cbv zeta in H. destruct H as [Hvalid H].
  destruct (validateState_well_formed _ _ Hvalid) as [Hknown Hrecovery]. split.
  { destruct Hlegal as [Hlegal|[_ ->]]; [by eapply legal_known|reflexivity]. }
  clear Hlegal. destruct H as [H|(_ & H & _)]; [fsm_lifecycle H|fsm_execution H]; fsm_split H; fsm_boolean;
    try (left; first [reflexivity|apply blockedWith_recovery]); try exact Hrecovery;
    right; (split; [assumption|vm_compute; reflexivity]).
Qed.

Lemma run_well_formed (tr : list (State * Observation)) (s : State) : run (MkState "" "") tr s -> well_formed (normalize s).
Proof.
  inversion 1 as [|? ? s' o d _ Hd]; subst; [by split; [|left]|]. apply Decide_well_formed in Hd.
  replace (normalize (d_Next d)) with (d_Next d); [done|]. unfold normalize.
  destruct Hd as [Hknown _]. destruct (bool_decide_reflect (st_Phase (d_Next d) = "")) as [Hp|]; [|done]. by rewrite Hp in Hknown.
Qed.

(** ** Errors *)

Lemma known_split (p : Phase) :
  known p = true ->
  p ∈ [PhaseSucceeded; PhaseCanceling; PhaseCancelled; PhaseBlocked; PhasePending; PhasePreparing;
       PhaseStartingDisruption] \/ p ∈ execution_phases.
Proof.
  apply (known_forall (fun p => p ∈ [PhaseSucceeded; PhaseCanceling; PhaseCancelled; PhaseBlocked; PhasePending;
    PhasePreparing; PhaseStartingDisruption] \/ p ∈ execution_phases)).
  vm_compute. reflexivity.
Qed.

(** The phases after the capacity was approved. *)
Definition approved_phases : list Phase := [
  PhaseCopying; PhasePromoting; PhaseCommitting; PhaseReleasingDestination; PhaseWaitingForDestinationPublish; PhaseCleaningSource;
  PhaseCompleting].

(** The contradictions between the recorded phase and the evidence, with the error each is reported with. *)
Inductive contradiction (s : State) (o : Observation) : error -> Prop :=
| early_authority :
    st_Phase s ∈ [PhasePreparing; PhaseStartingDisruption; PhaseCanceling; PhaseCancelled] -> beforeExecutionApproval o = false ->
    contradiction s o (Errorf "phase %q cannot release destination execution authority")
| pending_authority :
    st_Phase s = PhasePending -> beforeExecutionApproval o = false ->
    contradiction s o (Errorf "pending preparation cannot carry destination execution authority")
| cancelled_reservation :
    st_Phase s = PhaseCancelled -> PreparationReserved o = true ->
    contradiction s o (Errorf "cancelled Move still holds its preparation reservation")
| lost_claim :
    st_Phase s ∈ [PhaseCanceling; PhaseCancelled] \/
      st_Phase s ∈ [PhasePending; PhasePreparing] /\ WorkloadRetired o = false /\ PreparationChangedReason o = "" ->
    PreparationReserved o = true -> SourcePlanRecorded o && SourceClaimed o = false ->
    contradiction s o (Errorf "preparation reservation lost its recorded source claim")
| lost_preparation :
    st_Phase s = PhaseStartingDisruption -> WorkloadRetired o = false -> PreparationChangedReason o = "" ->
    ProtectionPresent o && SourcePlanRecorded o && SourceClaimed o && PreparationReserved o = false ->
    contradiction s o (Errorf "disruption requires the protected plan, source claim and reservation")
| retired_unreserved :
    WorkloadRetired o = true -> beforeExecutionApproval o = true -> st_RecoveryPhase s = "" ->
    st_Phase s ∉ [PhaseCanceling; PhaseCancelled; PhaseSucceeded] ->
    SourcePlanRecorded o && SourceClaimed o && PreparationReserved o && negb (SourceAuthorityInvalid o) = false ->
    contradiction s o (Errorf "retired preparation requires its exact reserved source authority")
| retired_approval_lost :
    WorkloadRetired o = true -> beforeExecutionApproval o = true -> st_Phase s ∈ approved_phases ->
    contradiction s o (Errorf "illegal mobility transition %q -> %q").

Lemma authority_observed (o : Observation) : (CapacityApproved o || DestinationIntentRecorded o)%bool = negb (beforeExecutionApproval o).
Proof. unfold beforeExecutionApproval. by destruct (CapacityApproved o), (DestinationIntentRecorded o). Qed.

(** A check that fails. *)
Lemma reject_then_Err {A : Type} (b : bool) (err e : error) (k : result A) :
  (reject_if b err;; k) = Err e -> b = true /\ e = err \/ b = false /\ k = Err e.
Proof. destruct b; simpl; [|by right]. intros [= <-]. by left. Qed.

Lemma validateState_Err (s : State) (o : Observation) (e : error) :
  well_formed s -> validateState s o = Err e -> contradiction s o e.
Proof.
  intros [Hknown Hrecovery] H. unfold validateState in H. rewrite Hknown in H. simpl in H.
  apply reject_then_Err in H as [[H _]|[_ H]].
  { exfalso. destruct Hrecovery as [Hr|[Hp Hr]]; [by rewrite Hr in H|]. rewrite Hp, Hr in H. by rewrite andb_false_r in H. }
  rewrite authority_observed in H. apply reject_then_Err in H as [[H ->]|[_ H]]; [fsm_boolean; by constructor|].
  unfold validatePreparationEvidence in H. rewrite authority_observed in H.
  apply reject_then_Err in H as [[H ->]|[_ H]]; [fsm_boolean; by constructor|].
  apply reject_then_Err in H as [[H ->]|[_ H]]; [fsm_boolean; by constructor|discriminate H].
Qed.

Lemma validateReservedSource_Err (o : Observation) (e : error) :
  validateReservedSource o = Err e ->
  e = Errorf "preparation reservation lost its recorded source claim" /\ PreparationReserved o = true /\ SourcePlanRecorded o && SourceClaimed o = false.
Proof.
  unfold validateReservedSource. destruct (PreparationReserved o), (SourcePlanRecorded o), (SourceClaimed o); simpl; intros [= <-]; done.
Qed.

(** The transitions of the table that the routers take. *)
Lemma transition_Err (p q : Phase) (action : Action) (reason : string) (e : error) :
  known p = true -> known q = true -> terminal p = false -> transition p q action reason = Err e ->
  ~ legal p q /\ e = Errorf "illegal mobility transition %q -> %q".
Proof.
  unfold transition, ValidateTransition, legal. intros -> -> -> H. simpl in H.
  apply bind_Err in H as [H|(? & H & [=])]. apply reject_then_Err in H as [[H ->]|[_ [=]]]. fsm_boolean. done.
Qed.

Lemma retired_Err (s : State) (o : Observation) (e : error) :
  known (st_Phase s) = true -> canCancelRetiredPreparation s o = true ->
  transition (st_Phase s) PhaseCanceling ActionWait "WorkloadRetired" = Err e -> contradiction s o e.
Proof.
  unfold canCancelRetiredPreparation. intros Hknown Hc H. fsm_boolean.
  assert (terminal (st_Phase s) = false) as Hterminal.
  { unfold terminal. apply orb_false_iff. by split; apply bool_decide_eq_false. }
  apply transition_Err in H as [Hlegal ->]; [|done..]. apply retired_approval_lost; [done..|].
  revert Hterminal Hlegal. revert Hknown. generalize (st_Phase s).
  apply (known_forall (fun p => terminal p = false -> ~ legal p PhaseCanceling -> p ∈ approved_phases)). vm_compute. reflexivity.
Qed.

(** Before the approval, a phase that is not the end of a cancellation knows whether its workload is retired. *)
Lemma not_retired (s : State) (o : Observation) :
  well_formed s -> validateState s o = Ok tt -> canCancelRetiredPreparation s o = false ->
  st_Phase s ∈ [PhasePending; PhasePreparing; PhaseStartingDisruption] ->
  WorkloadRetired o = false /\ beforeExecutionApproval o = true.
Proof.
  intros [_ Hrecovery] Hvalid Hcancel Hp.
  assert (beforeExecutionApproval o = true) as Hb by (apply (validateState_before_approval s); [done|set_solver]). split; [|done].
  unfold canCancelRetiredPreparation in Hcancel. rewrite Hb in Hcancel.
  assert (st_RecoveryPhase s = "") as Hr.
  { destruct Hrecovery as [|[Hblocked _]]; [done|]. rewrite Hblocked in Hp. by apply (bool_decide_pack _) in Hp. }
  rewrite Hr in Hcancel. destruct (WorkloadRetired o); [exfalso|done].
  repeat (apply elem_of_cons in Hp as [Hp|Hp]; [by rewrite Hp in Hcancel|]). by apply elem_of_nil in Hp.
Qed.

Lemma decidePreparation_Err (p : Phase) (o : Observation) (e : error) :
  p ∈ [PhasePending; PhasePreparing] -> decidePreparation p o = Err e -> validateReservedSource o = Err e.
Proof.
  unfold decidePreparation. intros Hp H. apply bind_Err in H as [H|([] & _ & H)]; [done|exfalso]. revert H.
  repeat (apply elem_of_cons in Hp as [->|Hp]; [go_eval; fsm_total; repeat case_match; discriminate|]). by apply elem_of_nil in Hp.
Qed.

Lemma decideCancellation_Err (s : State) (o : Observation) (e : error) :
  decideCancellation s o = Err e -> validateReservedSource o = Err e.
Proof.
  unfold decideCancellation. intros H. apply bind_Err in H as [H|([] & _ & H)]; [done|exfalso]. revert H.
  destruct (bool_decide_reflect (st_Phase s = PhaseCanceling)) as [->|]; fsm_total; repeat case_match; discriminate.
Qed.

Lemma decideStartingDisruption_Err (o : Observation) (e : error) :
  decideStartingDisruption PhaseStartingDisruption o = Err e ->
  e = Errorf "disruption requires the protected plan, source claim and reservation" /\
  ProtectionPresent o && SourcePlanRecorded o && SourceClaimed o && PreparationReserved o = false.
Proof.
  unfold decideStartingDisruption. intros H. apply reject_then_Err in H as [[H ->]|[_ H]].
  - split; [done|]. by destruct (ProtectionPresent o), (SourcePlanRecorded o), (SourceClaimed o), (PreparationReserved o).
  - exfalso. revert H. fsm_total. repeat case_match; discriminate.
Qed.

Lemma decideRecovery_total (s : State) (o : Observation) :
  well_formed s -> st_RecoveryPhase s <> RecoveryRecovered -> exists d, decideRecovery s o = Ok d.
Proof.
  intros [_ Hrecovery] Hne. unfold decideRecovery. repeat case_bool_decide; eauto. exfalso.
  destruct Hrecovery as [|[_ Hr]]; [done|]. unfold knownRecovery in Hr. fsm_boolean. set_solver.
Qed.

Lemma decideLifecycle_Err (s : State) (o : Observation) (e : error) :
  well_formed s -> validateState s o = Ok tt -> decideLifecycle s o = Some (Err e) -> contradiction s o e.
Proof.
  intros Hwf Hvalid. pose proof Hwf as [Hknown _]. unfold decideLifecycle.
  destruct (canCancelRetiredPreparation s o) eqn:Hcancel.
  { destruct (_ || _) eqn:Hreserved; [|intros [= H]; by apply retired_Err]. intros [= <-].
    unfold canCancelRetiredPreparation in Hcancel. rewrite !andb_true_iff, !negb_true_iff, !bool_decide_eq_false, bool_decide_eq_true in Hcancel.
    destruct Hcancel as (((((? & ?) & ?) & ?) & ?) & ?). apply retired_unreserved; [done..|set_solver|].
    by destruct (SourcePlanRecorded o), (SourceClaimed o), (PreparationReserved o), (SourceAuthorityInvalid o). }
  destruct (canRequestSettlement s o); [done|]. destruct (st_Phase s == PhaseSucceeded); [done|].
  destruct ((st_Phase s == PhaseCanceling) || (st_Phase s == PhaseCancelled)) eqn:H2.
  { intros [= H]. apply decideCancellation_Err, validateReservedSource_Err in H as (-> & ? & ?). apply lost_claim; [|done..].
    left. fsm_boolean; set_solver. }
  destruct (st_Phase s == PhaseBlocked).
  { destruct (bool_decide_reflect (st_RecoveryPhase s = RecoveryRecovered)); [done|]. destruct (_ && _); [done|].
    destruct (RecoveryRequested o); [|done]. destruct (decideRecovery_total s o Hwf) as [d ->]; [done|]. discriminate. }
  destruct (beforeExecutionApproval o && _)%bool eqn:H4.
  { intros [= H]. exfalso. revert H. unfold preparationChanged. case_match; [|discriminate]. by rewrite transition_self. }
  destruct ((st_Phase s == PhasePending) || (st_Phase s == PhasePreparing)) eqn:H5.
  { assert (st_Phase s ∈ [PhasePending; PhasePreparing]) as Hp by (fsm_boolean; set_solver). clear H5.
    intros [= H]. apply decidePreparation_Err, validateReservedSource_Err in H as (-> & ? & ?); [|done].
    destruct (not_retired s o Hwf Hvalid Hcancel) as [? Hb]; [set_solver|]. rewrite Hb in H4. simpl in H4. fsm_boolean. apply lost_claim; auto. }
  destruct (bool_decide_reflect (st_Phase s = PhaseStartingDisruption)) as [Hp|]; [|done].
  rewrite Hp. intros [= H]. apply decideStartingDisruption_Err in H as [-> ?].
  destruct (not_retired s o Hwf Hvalid Hcancel) as [? Hb]; [set_solver|]. rewrite Hb in H4. simpl in H4. fsm_boolean. by apply lost_preparation.
Qed.

Lemma decideLifecycle_None (s : State) (o : Observation) :
  known (st_Phase s) = true -> decideLifecycle s o = None -> st_Phase s ∈ execution_phases.
Proof.
  intros Hknown H. unfold decideLifecycle in H. repeat case_match; try discriminate H. fsm_boolean.
  destruct (known_split (st_Phase s) Hknown) as [Hin|]; [|done]. rewrite !elem_of_cons, elem_of_nil in Hin. tauto.
Qed.

(** A contradiction is an error of the validation or of the router. *)
Lemma contradiction_Err (s : State) (o : Observation) (e : error) :
  contradiction s o e -> validateState s o = Ok tt -> exists e', decideLifecycle s o = Some (Err e').
Proof.
  intros Hc Hvalid. pose proof (validateState_known s o Hvalid) as Hknown. pose proof (validateState_before_approval s o Hvalid) as Hbefore.
  destruct (validateState_well_formed _ _ Hvalid) as [_ Hrecovery]. unfold decideLifecycle.
  destruct Hc as [Hp Ho|Hp Ho|Hp Ho|Hp Hr Ho|Hp Hw Hreason Ho|Hw Hb Hr Hp Ho|Hw Hb Hp].
  - exfalso. rewrite Hbefore in Ho; [done|set_solver].
  - exfalso. rewrite Hbefore in Ho; [done|set_solver].
  - exfalso. unfold validateState, validatePreparationEvidence in Hvalid. rewrite !check_Ok, !reject_if_Ok, Hp, Ho in Hvalid.
    by destruct Hvalid as (_ & _ & _ & _ & Hvalid & _).
  - assert (Hreserved : exists e, validateReservedSource o = Err e).
    { unfold validateReservedSource. rewrite Hr. apply andb_false_iff in Ho as [->| ->]; rewrite ?orb_true_r; by eexists. }
    destruct Hreserved as [e Hreserved]. exists e. unfold canCancelRetiredPreparation, canRequestSettlement, decideCancellation, decidePreparation.
    destruct Hp as [Hp|(Hp & Hw & Hreason)]; [|rewrite Hw, Hreason]; rewrite Hreserved;
      repeat (apply elem_of_cons in Hp as [Hp|Hp]; [rewrite Hp; go_eval; rewrite ?andb_false_r, ?andb_true_r; repeat case_match; done|]);
      by apply elem_of_nil in Hp.
  - unfold canCancelRetiredPreparation, canRequestSettlement, decideStartingDisruption. rewrite Hw, Hreason, Hp. go_eval. rewrite andb_false_r.
    destruct (ProtectionPresent o), (SourcePlanRecorded o), (SourceClaimed o), (PreparationReserved o); try discriminate Ho; by eexists.
  - assert (canCancelRetiredPreparation s o = true) as ->.
    { unfold canCancelRetiredPreparation. rewrite Hw, Hb, Hr. rewrite !bool_decide_false by set_solver. done. }
    destruct (SourcePlanRecorded o), (SourceClaimed o), (PreparationReserved o), (SourceAuthorityInvalid o); try discriminate Ho; by eexists.
  - assert (st_RecoveryPhase s = "") as Hr.
    { destruct Hrecovery as [|[Hblocked _]]; [done|]. rewrite Hblocked in Hp. by apply (bool_decide_pack _) in Hp. }
    unfold canCancelRetiredPreparation. rewrite Hw, Hb, Hr.
    repeat (apply elem_of_cons in Hp as [Hp|Hp]; [rewrite Hp; go_eval; destruct (_ || _); by eexists|]). by apply elem_of_nil in Hp.
Qed.

(** C39: the errors of [Decide] are exactly the contradictions between the record and the evidence.  In every state that a run of
    decisions from a new Move can reach, and for every observation, a decision is refused only with one of the seven errors of
    [contradiction], each under the facts it names: execution authority observed in a phase before its approval (two errors), a
    reservation on a cancelled Move, a reservation without its recorded plan and claim, a disruption without its protected
    reservation, and a workload retired before the approval without its exact reservation, or in a phase past it.  Conversely each of
    these contradictions is refused.  On all other evidence a step is selected: no reachable state is unknown, has no decision rule or
    has an invalid recovery phase, and no other transition is refused as illegal. *)
Theorem Decide_errors_exact (tr : list (State * Observation)) (s : State) (o : Observation) :
  run (MkState "" "") tr s ->
  (forall e, Decide s o = Err e -> contradiction (normalize s) o e) /\
  ((exists e, contradiction (normalize s) o e) -> exists e, Decide s o = Err e) /\
  ((exists d, Decide s o = Ok d) <-> ~ exists e, contradiction (normalize s) o e).
Proof.
  intros Hwf%run_well_formed.
  assert (Hfwd : forall e, Decide s o = Err e -> contradiction (normalize s) o e).
  { intros e H. unfold Decide in H. cbv zeta in H. apply bind_Err in H as [H|([] & Hvalid & H)]; [by apply validateState_Err|].
    destruct (decideLifecycle (normalize s) o) as [r|] eqn:Hl; cbn [guarded_by] in H; [subst r; by apply decideLifecycle_Err|exfalso].
    destruct (decideExecution_total _ o (decideLifecycle_None _ _ (proj1 Hwf) Hl)) as (d & Hd & Ht). rewrite Hd in H. simpl in H.
    rewrite Ht in H. discriminate H. }
  assert (Hback : (exists e, contradiction (normalize s) o e) -> exists e, Decide s o = Err e).
  { intros [e He]. unfold Decide. cbv zeta. destruct (validateState (normalize s) o) as [[]|e'] eqn:Hvalid; [|by eexists].
    destruct (contradiction_Err _ _ _ He Hvalid) as [e' ->]. by eexists. }
  split_and!; [done..|]. split.
  - intros [d Hd] H. apply Hback in H as [e He]. congruence.
  - intros H. destruct (Decide s o) as [d|e] eqn:Hd; [by eexists|]. exfalso. apply H. exists e. by apply Hfwd.
Qed.

(** A new Move whose record already carries execution authority is refused. *)
Lemma Decide_errors_exact_witness :
  exists e, Decide (MkState "" "") (observed ["CapacityApproved"]) = Err e.
Proof.
  apply (Decide_errors_exact [] (MkState "" "") (observed ["CapacityApproved"]) (run_start _)).
  eexists. apply pending_authority; vm_compute; reflexivity.
Defined.
