(* ===== verification/CapacityUnit.v ===== *)
(** * Fixed block allocations

    Package [capacityunit] (src/pool/capacityunit/extent.go and the device
    identities of sysfs.go): a Pool with a fixed capacity is backed by extents of
    512-byte sectors, and two Pools are independent only when their extents do
    not overlap.  [uint64] values are integers with their wrap-around written
    out; the block inspector behind the [backend] interface is a parameter. *)

From S2P Require Import Prelude Bytes.
From Stdlib Require Import Ascii.
From stdpp Require Import pretty sorting.

Definition maxExtents : nat := 256.
Definition maxDepth : nat := 16.

(** [uint64] addition and subtraction. *)
Definition u64_add (a b : Z) : Z := ((a + b) mod 18446744073709551616)%Z.
Definition u64_sub (a b : Z) : Z := ((a - b) mod 18446744073709551616)%Z.

Record Extent := {
  Device : string;
  Start : Z;
  Sectors : Z
}.

#[export] Instance Extent_eq_dec : EqDecision Extent.
Proof. solve_decision. Defined.

(** ** Device identities *)

Definition digit_value (c : ascii) : option N :=
  let n := N_of_ascii c in
  if ((48 <=? n) && (n <=? 57))%N then Some (n - 48)%N else None.

Fixpoint digits_value (acc : N) (s : string) : option N :=
  match s with
  | EmptyString => Some acc
  | String c s => match digit_value c with
                  | Some d => digits_value (10 * acc + d) s
                  | None => None
                  end
  end.

(** [strconv.ParseUint(s, 10, bits)] with [limit] = 2^bits. *)
Definition ParseUint (s : string) (limit : N) : result N :=
  if s == "" then Err (Errorf "invalid syntax")
  else match digits_value 0 s with
       | None => Err (Errorf "invalid syntax")
       | Some value => if (value <? limit)%N then Ok value else Err (Errorf "value out of range")
       end.

(** [strings.Split(s, ":")] *)
Fixpoint split_colon (s : string) : list string :=
  match s with
  | EmptyString => [""]
  | String c s =>
      if ascii_eqb c ":"%char then "" :: split_colon s
      else match split_colon s with
           | first :: rest => String c first :: rest
           | [] => [String c ""]
           end
  end.

Definition parseDevice (device : string) : result (N * N) :=
  match split_colon device with
  | [major_field; minor_field] =>
      match ParseUint major_field 4294967296 with
      | Err _ => Err (Errorf "invalid block device major")
      | Ok major =>
          match ParseUint minor_field 4294967296 with
          | Err _ => Err (Errorf "invalid block device minor")
          | Ok minor =>
              if device != pretty major +:+ ":" +:+ pretty minor
              then Err (Errorf "block device identity is not canonical")
              else Ok (major, minor)
          end
      end
  | _ => Err (Errorf "invalid block device identity")
  end.

Definition ValidateDevice (device : string) : result unit :=
  match parseDevice device with Ok _ => Ok tt | Err err => Err err end.

Definition validateBackingIdentity (device : string) : result unit :=
  if HasPrefix device "wwid:" then
    match DecodeString (TrimPrefix device "wwid:") with
    | Err _ => Err (Errorf "invalid backing WWID digest")
    | Ok data =>
        if negb (String.length data =? 32)%nat || (device != ToLower device)
        then Err (Errorf "invalid backing WWID digest") else Ok tt
    end
  else ValidateDevice device.

(** ** Normalisation *)

(** A comparison that looks at the device names first and at [P] between equal
    devices. *)
Definition device_then (a b : Extent) (P : Prop) : Prop :=
  match String.compare (Device a) (Device b) with
  | Lt => True
  | Eq => P
  | Gt => False
  end.

(** The order of [sort.Slice]: device bytes, then start sector. *)
Definition extent_le (a b : Extent) : Prop :=
  device_then a b (Start a <= Start b)%Z.

#[export] Instance extent_le_dec : RelDecision extent_le.
Proof. intros a b. unfold extent_le, device_then. destruct (String.compare _ _); apply _. Defined.

(** The loop over the sorted extents; [normalized] is kept in reverse. *)
Fixpoint merge_extents (normalized rest : list Extent) : result (list Extent) :=
  match rest with
  | [] => Ok (rev normalized)
  | e :: rest =>
      validateBackingIdentity (Device e);;
      reject_if (bool_decide (Sectors e = 0%Z) || (u64_sub MaxUint64 (Start e) <? Sectors e)%Z)
        (Errorf "block allocation extent is invalid");;
      match normalized with
      | previous :: before =>
          if Device previous == Device e then
            let end_ := u64_add (Start previous) (Sectors previous) in
            if (Start e <? end_)%Z then Err (Errorf "block allocation contains overlapping extents")
            else if (Start e =? end_)%Z then
              merge_extents
                ({| Device := Device previous; Start := Start previous;
                    Sectors := u64_add (Sectors previous) (Sectors e) |} :: before) rest
            else merge_extents (e :: normalized) rest
          else merge_extents (e :: normalized) rest
      | [] => merge_extents [e] rest
      end
  end.

Definition Normalize (extents : list Extent) : result (list Extent) :=
  reject_if ((length extents =? 0)%nat || (maxExtents <? length extents)%nat)
    (Errorf "block allocation must contain bounded extents");;
  merge_extents [] (merge_sort extent_le extents).

(** The two nested loops of [Overlap]. *)
Definition extents_meet (a b : Extent) : bool :=
  (Device a == Device b) && (Start a <? u64_add (Start b) (Sectors b))%Z &&
  (Start b <? u64_add (Start a) (Sectors a))%Z.

Definition Overlap (left right : list Extent) : result bool :=
  l ← Normalize left;
  r ← Normalize right;
  Ok (existsb (fun a => existsb (fun b => extents_meet a b) r) l).

(** ** Resolution to backing extents *)

Record segment := {
  seg_start : Z;
  seg_sectors : Z;
  seg_device : string;
  seg_offset : Z
}.

Record block := {
  size : Z;
  identity : string;
  parent : string;
  start : Z;
  mapped : bool;
  segments : list segment
}.

Fixpoint validate_table (end_ : Z) (table : list segment) : result Z :=
  match table with
  | [] => Ok end_
  | s :: table =>
      reject_if (negb (seg_start s =? end_)%Z || (seg_sectors s =? 0)%Z ||
                 (u64_sub MaxUint64 end_ <? seg_sectors s)%Z || (seg_device s == ""))
        (Errorf "mapped allocation table has gaps or invalid ranges");;
      validate_table (u64_add end_ (seg_sectors s)) table
  end.

Definition validateSegments (b : block) : result unit :=
  reject_if ((length (segments b) =? 0)%nat || (maxExtents <? length (segments b))%nat)
    (Errorf "mapped allocation has no complete bounded table");;
  end_ ← validate_table 0 (segments b);
  reject_if (negb (end_ =? size b)%Z) (Errorf "mapped allocation table does not cover the device").

Section resolver.
(** The [backend] interface: one read-only inspection per device. *)
Variable inspect : string -> result block.

(** The loop of [resolveSegments]; [resolve_at] is the recursive call. *)
Fixpoint resolve_segments (resolve_at : string -> Z -> Z -> result (list Extent))
    (start_ sectors : Z) (table : list segment) (extents : list Extent) : result (list Extent) :=
  match table with
  | [] => Ok extents
  | s :: table =>
      let first := Z.max start_ (seg_start s) in
      let last := Z.min (u64_add start_ sectors) (u64_add (seg_start s) (seg_sectors s)) in
      if (last <=? first)%Z then resolve_segments resolve_at start_ sectors table extents
      else
        let offset := u64_sub first (seg_start s) in
        reject_if (u64_sub MaxUint64 (seg_offset s) <? offset)%Z (Errorf "mapped allocation offset overflows");;
        resolved ← resolve_at (seg_device s) (u64_add (seg_offset s) offset) (u64_sub last first);
        reject_if (maxExtents <? length (extents ++ resolved))%nat (Errorf "block allocation extent limit exceeded");;
        resolve_segments resolve_at start_ sectors table (extents ++ resolved)
  end.

(** [resolve]: [fuel] is [maxDepth - depth], [visiting] the devices on the
    current path (the deferred delete restores it on return). *)
Fixpoint resolve (fuel : nat) (device : string) (start_ sectors : Z) (visiting : list string) : result (list Extent) :=
  match fuel with
  | O => Err (Errorf "block allocation dependency cycle or depth exceeded")
  | S fuel =>
      reject_if (contains visiting device) (Errorf "block allocation dependency cycle or depth exceeded");;
      b ← inspect device;
      reject_if ((sectors =? 0)%Z || (size b <? start_)%Z || (u64_sub (size b) start_ <? sectors)%Z)
        (Errorf "block allocation range is invalid");;
      if parent b != "" then
        reject_if (u64_sub MaxUint64 (start b) <? start_)%Z (Errorf "partition offset overflows");;
        resolve fuel (parent b) (u64_add (start b) start_) sectors (device :: visiting)
      else if negb (mapped b) then
        let identity_ := if identity b == "" then device else identity b in
        Ok [{| Device := identity_; Start := start_; Sectors := sectors |}]
      else
        validateSegments b;;
        resolve_segments (fun d st sec => resolve fuel d st sec (device :: visiting)) start_ sectors (segments b) []
  end.

Definition Resolve (device : string) : result (list Extent) :=
  b ← inspect device;
  extents ← resolve maxDepth device 0 (size b) [];
  Normalize extents.
End resolver.

(** ** Sector sets *)

(** Every [uint64] field is in range: the type invariant of the Go struct. *)
Definition extent_u64 (e : Extent) : Prop :=
  (0 <= Start e <= MaxUint64)%Z /\ (0 <= Sectors e <= MaxUint64)%Z.

Definition end_of (e : Extent) : Z := (Start e + Sectors e)%Z.

Definition in_extent (e : Extent) (device : string) (sector : Z) : Prop :=
  Device e = device /\ (Start e <= sector < end_of e)%Z.

(** The sectors an allocation names. *)
Definition covers (es : list Extent) (device : string) (sector : Z) : Prop :=
  Exists (fun e => in_extent e device sector) es.

(** An extent that passed the loop's checks. *)
Definition valid_extent (e : Extent) : Prop :=
  validateBackingIdentity (Device e) = Ok tt /\ (0 <= Start e)%Z /\ (0 < Sectors e)%Z /\ (end_of e <= MaxUint64)%Z.

(** [a] lies strictly before [b] with a gap, or on a smaller device. *)
Definition separated (a b : Extent) : Prop :=
  device_then a b (end_of a < Start b)%Z.

(** ** Lemmas on the order *)

Lemma u64_sub_max (a : Z) : (0 <= a <= MaxUint64)%Z -> u64_sub MaxUint64 a = (MaxUint64 - a)%Z.
Proof. unfold u64_sub, MaxUint64. intros H. apply Z.mod_small. lia. Qed.

Lemma u64_add_small (a b : Z) : (0 <= a)%Z -> (0 <= b)%Z -> (a + b <= MaxUint64)%Z -> u64_add a b = (a + b)%Z.
Proof. unfold u64_add, MaxUint64. intros. apply Z.mod_small. lia. Qed.

#[export] Instance extent_le_total : Total extent_le.
Proof.
  intros a b. unfold extent_le, device_then.
  destruct (string_compare_cases (Device a) (Device b)) as [[-> ->]|[->|[-> ->]]]; auto.
  rewrite string_compare_refl. lia.
Qed.

Lemma device_then_trans (a b c : Extent) (P Q R : Prop) :
  (P -> Q -> R) -> device_then a b P -> device_then b c Q -> device_then a c R.
Proof.
  unfold device_then. intros HPQ.
  destruct (String.compare (Device a) (Device b)) eqn:Eab; try done;
  destruct (String.compare (Device b) (Device c)) eqn:Ebc; try done; intros H1 H2.
  - apply compare_Eq in Eab, Ebc. rewrite Eab, Ebc, string_compare_refl. auto.
  - apply compare_Eq in Eab. by rewrite Eab, Ebc.
  - apply compare_Eq in Ebc. by rewrite <- Ebc, Eab.
  - by rewrite (string_compare_trans _ _ _ Eab Ebc).
Qed.

Lemma device_then_impl (a b : Extent) (P Q : Prop) :
  (Device a = Device b -> P -> Q) -> device_then a b P -> device_then a b Q.
Proof. unfold device_then. destruct (String.compare _ _) eqn:E; auto using compare_Eq. Qed.

Lemma device_then_same (a b : Extent) (P : Prop) : Device a = Device b -> device_then a b P <-> P.
Proof. unfold device_then. intros ->. by rewrite string_compare_refl. Qed.

#[export] Instance extent_le_trans : Transitive extent_le.
Proof. intros a b c. apply device_then_trans. lia. Qed.

Lemma separated_trans (a b c : Extent) :
  (0 < Sectors b)%Z -> separated a b -> separated b c -> separated a c.
Proof. intros Hb. apply device_then_trans. unfold end_of. lia. Qed.

Lemma separated_same_device (a b : Extent) :
  separated a b -> Device a = Device b -> (end_of a < Start b)%Z.
Proof. intros H E. unfold separated in H. by rewrite device_then_same in H. Qed.

Lemma separated_le (a b : Extent) : (0 < Sectors a)%Z -> separated a b -> extent_le a b.
Proof. intros Ha. apply device_then_impl. unfold end_of. lia. Qed.

(** ** The loop *)

(** What one accepted iteration establishes about [e]. *)
Lemma accepted_extent (e : Extent) (u v : unit) (err : error) :
  extent_u64 e -> validateBackingIdentity (Device e) = Ok u ->
  reject_if (bool_decide (Sectors e = 0%Z) || (u64_sub MaxUint64 (Start e) <? Sectors e)%Z) err = Ok v ->
  valid_extent e.
Proof.
  intros [Hs Hn] Hid Hr. destruct u. rewrite u64_sub_max in Hr by done. go_inv.
  unfold valid_extent, end_of. split_and!; [done|lia..].
Qed.

(** The end of an accepted extent does not wrap. *)
Lemma end_no_wrap (e : Extent) : valid_extent e -> u64_add (Start e) (Sectors e) = end_of e.
Proof. intros (_ & ? & ? & ?). unfold end_of in *. apply u64_add_small; lia. Qed.

(** [e] extends [p]: the merged extent. *)
Definition merged (p e : Extent) : Extent :=
  {| Device := Device p; Start := Start p; Sectors := u64_add (Sectors p) (Sectors e) |}.

Lemma merged_spec (p e : Extent) :
  valid_extent p -> valid_extent e -> Device p = Device e -> Start e = end_of p ->
  valid_extent (merged p e) /\ end_of (merged p e) = end_of e /\
  (forall d s, in_extent (merged p e) d s <-> in_extent p d s \/ in_extent e d s).
Proof.
  unfold valid_extent, in_extent, end_of, merged. simpl.
  intros (Hid & ? & ? & ?) (_ & ? & ? & ?) Hd Hs. rewrite u64_add_small by lia.
  rewrite <- Hd. split; [split; [done|lia]|]. split; [lia|].
  intros d s. split; [intros [-> ?]; destruct (decide (s < Start p + Sectors p)%Z); [left|right]; (split; [done|lia])|].
  intros [[-> ?]|[-> ?]]; (split; [done|lia]).
Qed.

(** One iteration: the accumulator grows by [e], or its head absorbs [e]. *)
Lemma merge_extents_inv (acc rest ns : list Extent) (e : Extent) :
  extent_u64 e -> Forall valid_extent acc -> merge_extents acc (e :: rest) = Ok ns ->
  valid_extent e /\
  ((merge_extents (e :: acc) rest = Ok ns /\
    (forall p before, acc = p :: before -> Device p = Device e -> (end_of p < Start e)%Z)) \/
   (exists p before, acc = p :: before /\ Device p = Device e /\ Start e = end_of p /\
      merge_extents (merged p e :: before) rest = Ok ns)).
Proof.
  intros Hu Hacc H. simpl in H.
  apply bind_Ok in H as (u & Hid & H). apply bind_Ok in H as (v & Hr & H).
  pose proof (accepted_extent e u v _ Hu Hid Hr) as Hv. split; [done|].
  destruct acc as [|p before]; [left; by split|].
  inversion Hacc as [|? ? Hp Hbefore]; subst. rewrite (end_no_wrap p Hp) in H.
  case_bool_decide as Hd; [|left; split; [done|]; intros p' b' ?; by simplify_eq].
  destruct (Start e <? end_of p)%Z eqn:Hlt; [done|].
  destruct (Start e =? end_of p)%Z eqn:Heq.
  - right. exists p, before. split_and!; try done. by apply Z.eqb_eq.
  - left. split; [done|]. intros p' b' ? _. simplify_eq. lia.
Qed.

Lemma covers_cons (e : Extent) (es : list Extent) (d : string) (s : Z) :
  covers (e :: es) d s <-> in_extent e d s \/ covers es d s.
Proof. unfold covers. by rewrite Exists_cons. Qed.

Lemma covers_app (l r : list Extent) (d : string) (s : Z) :
  covers (l ++ r) d s <-> covers l d s \/ covers r d s.
Proof. unfold covers. by rewrite Exists_app. Qed.

Lemma covers_perm (l r : list Extent) (d : string) (s : Z) : l ≡ₚ r -> covers l d s <-> covers r d s.
Proof. intros H. unfold covers. by rewrite H. Qed.

Lemma merge_extents_covers (rest acc ns : list Extent) :
  Forall extent_u64 rest -> Forall valid_extent acc -> merge_extents acc rest = Ok ns ->
  Forall valid_extent ns /\ (forall d s, covers ns d s <-> covers acc d s \/ covers rest d s).
Proof.
  revert acc. induction rest as [|e rest IH]; intros acc Hrest Hacc H.
  - simpl in H. simplify_eq. split; [by apply Forall_rev|].
    intros d s. rewrite (covers_perm (rev acc) acc) by by rewrite <- Permutation_rev.
    unfold covers at 3. rewrite Exists_nil. tauto.
  - inversion Hrest as [|? ? Hu Hrest']; subst.
    destruct (merge_extents_inv acc rest ns e Hu Hacc H) as (Hv & [[H' _]|(p & before & -> & Hd & Hs & H')]).
    + destruct (IH (e :: acc)) as [Hns Hc]; [done|by constructor|done|].
      split; [done|]. intros d s. rewrite Hc, !covers_cons. tauto.
    + inversion Hacc as [|? ? Hp Hbefore]; subst.
      destruct (merged_spec p e Hp Hv Hd Hs) as (Hm & _ & Hin).
      destruct (IH (merged p e :: before)) as [Hns Hc]; [done|by constructor|done|].
      split; [done|]. intros d s. rewrite Hc, !covers_cons, Hin. tauto.
Qed.

(** [a] ends before [b] starts; touching is allowed. *)
Definition follows (a b : Extent) : Prop :=
  device_then a b (end_of a <= Start b)%Z.

(** No sector belongs to both. *)
Definition disjoint_extents (a b : Extent) : Prop :=
  forall d s, in_extent a d s -> in_extent b d s -> False.

Lemma follows_trans (a b c : Extent) : (0 < Sectors b)%Z -> follows a b -> follows b c -> follows a c.
Proof. intros Hb. apply device_then_trans. unfold end_of. lia. Qed.

Lemma separated_follows (a b : Extent) : separated a b -> follows a b.
Proof. apply device_then_impl. lia. Qed.

Lemma follows_disjoint (a b : Extent) : follows a b -> disjoint_extents a b.
Proof.
  unfold follows. intros H d s [<- ?] [E ?]. rewrite device_then_same in H by done. lia.
Qed.

(** An extent that sorts first and shares no sector ends before the other. *)
Lemma disjoint_follows (a b : Extent) :
  valid_extent a -> valid_extent b -> extent_le a b -> disjoint_extents a b -> follows a b.
Proof.
  intros (_ & ? & ? & _) (_ & ? & ? & _) Hle Hd. revert Hle. apply device_then_impl. intros E Hle.
  apply Z.nlt_ge. intros Hlt. apply (Hd (Device b) (Start b)); split; unfold end_of in *; (done || lia).
Qed.

(** An extent that sorts first and neither overlaps nor touches is separated. *)
Lemma le_gap_separated (p e : Extent) :
  extent_le p e -> (Device p = Device e -> (end_of p < Start e)%Z) -> separated p e.
Proof.
  intros Hle Hgap. revert Hle. apply device_then_impl. auto.
Qed.

(** The head of the accumulator precedes every extent still to come. *)
Definition head_le (acc rest : list Extent) : Prop :=
  forall p, head acc = Some p -> Forall (extent_le p) rest.

Lemma head_le_merged (p e : Extent) (before rest : list Extent) :
  head_le (p :: before) rest -> head_le (merged p e :: before) rest.
Proof. unfold head_le. simpl. intros H q ?. simplify_eq. by apply (H p). Qed.

(** The merged list stays separated when [p] absorbs [e]. *)
Lemma separated_merged (p e : Extent) (before : list Extent) :
  StronglySorted (flip separated) (p :: before) -> StronglySorted (flip separated) (merged p e :: before).
Proof.
  intros H. inversion H as [|? ? Hs Hf]; subst. constructor; [done|].
  eapply Forall_impl; [exact Hf|]. intros q Hq. exact Hq.
Qed.

(** Appending a separated extent keeps the accumulator separated. *)
Lemma separated_push (e : Extent) (acc : list Extent) :
  Forall valid_extent acc -> (forall p, head acc = Some p -> separated p e) ->
  StronglySorted (flip separated) acc -> StronglySorted (flip separated) (e :: acc).
Proof.
  intros Hv Hp Hs. constructor; [done|]. destruct acc as [|p before]; [done|].
  inversion Hs as [|? ? Hs' Hf]; subst. inversion Hv as [|? ? Hvp _]; subst.
  specialize (Hp p eq_refl). constructor; [done|]. eapply Forall_impl; [exact Hf|].
  intros q Hq. apply (separated_trans q p e); [apply Hvp|done..].
Qed.

Lemma StronglySorted_rev {A : Type} (R : relation A) (l : list A) :
  StronglySorted (flip R) l -> StronglySorted R (rev l).
Proof.
  induction 1 as [|x l Hs IH Hf]; simpl; [constructor|].
  apply StronglySorted_app_2; [|done|by repeat constructor].
  intros y z Hy Hz. apply list_elem_of_singleton in Hz as ->.
  rewrite Forall_forall in Hf. apply Hf. by rewrite <- Permutation_rev in Hy.
Qed.

Lemma merge_extents_sorted (rest acc ns : list Extent) :
  Forall extent_u64 rest -> Forall valid_extent acc -> StronglySorted extent_le rest ->
  head_le acc rest -> StronglySorted (flip separated) acc -> merge_extents acc rest = Ok ns ->
  StronglySorted separated ns.
Proof.
  revert acc. induction rest as [|e rest IH]; intros acc Hu Hacc Hrest Hhead Hsep H.
  - simpl in H. simplify_eq. by apply StronglySorted_rev.
  - inversion Hu as [|? ? Hue Hu']; subst. inversion Hrest as [|? ? Hrest' Hle]; subst.
    destruct (merge_extents_inv acc rest ns e Hue Hacc H) as (Hv & [[H' Hgap]|(p & before & -> & Hd & Hs & H')]).
    + apply (IH (e :: acc)); try done; [by constructor|intros q ?; by simplify_eq/=|].
      apply separated_push; [done| |done].
      intros p Hp. destruct acc as [|? before]; [done|]. simplify_eq/=.
      apply le_gap_separated; [|by apply (Hgap p before)].
      by apply (Forall_inv (Hhead p eq_refl)).
    + inversion Hacc as [|? ? Hp Hbefore]; subst. destruct (merged_spec p e Hp Hv Hd Hs) as (Hm & _ & _).
      apply (IH (merged p e :: before)); try done; [by constructor| |by apply separated_merged].
      apply head_le_merged. intros q ?. simplify_eq/=.
      apply (Forall_inv_tail (Hhead q eq_refl)).
Qed.

(** Success means the sorted extents follow one another. *)
Lemma merge_extents_follows (rest acc ns : list Extent) :
  Forall extent_u64 rest -> Forall valid_extent acc -> StronglySorted extent_le rest ->
  head_le acc rest -> merge_extents acc rest = Ok ns ->
  Forall valid_extent rest /\ StronglySorted follows rest /\
  (forall p, head acc = Some p -> Forall (follows p) rest).
Proof.
  revert acc. induction rest as [|e rest IH]; intros acc Hu Hacc Hrest Hhead H; [by repeat constructor|].
  inversion Hu as [|? ? Hue Hu']; subst. inversion Hrest as [|? ? Hrest' Hle]; subst.
  destruct (merge_extents_inv acc rest ns e Hue Hacc H) as (Hv & [[H' Hgap]|(p & before & -> & Hd & Hs & H')]).
  - destruct (IH (e :: acc)) as (Hvs & Hf & He); try done; [by constructor|intros q ?; by simplify_eq/=|].
    specialize (He e eq_refl). split_and!; [by constructor|by constructor|].
    intros p Hp. destruct acc as [|? before]; [done|]. simplify_eq/=.
    assert (follows p e) as Hpe.
    { apply separated_follows, le_gap_separated; [apply (Forall_inv (Hhead p eq_refl))|by apply (Hgap p before)]. }
    constructor; [done|]. eapply Forall_impl; [exact He|]. intros q. apply follows_trans; [apply Hv|done].
  - inversion Hacc as [|? ? Hp Hbefore]; subst. destruct (merged_spec p e Hp Hv Hd Hs) as (Hm & Hend & _).
    destruct (IH (merged p e :: before)) as (Hvs & Hf & Hh); try done; [by constructor| |].
    { apply head_le_merged. intros q ?. simplify_eq/=. apply (Forall_inv_tail (Hhead q eq_refl)). }
    specialize (Hh _ eq_refl).
    assert (Forall (follows e) rest) as He.
    { eapply Forall_impl; [exact Hh|]. intros q. unfold follows, device_then. by rewrite Hend, <- Hd. }
    split_and!; [by constructor|by constructor|]. intros q ?. simplify_eq/=.
    assert (follows q e) as Hqe. { unfold follows. rewrite device_then_same by done. lia. }
    constructor; [done|]. eapply Forall_impl; [exact He|]. intros r. apply follows_trans; [apply Hv|done].
Qed.

(** Completeness of the loop: following extents are never rejected. *)
Lemma merge_extents_complete (rest acc : list Extent) :
  Forall valid_extent rest -> Forall valid_extent acc -> StronglySorted follows rest ->
  (forall p, head acc = Some p -> Forall (follows p) rest) ->
  exists ns, merge_extents acc rest = Ok ns.
Proof.
  revert acc. induction rest as [|e rest IH]; intros acc Hv Hacc Hs Hh; [by eexists|].
  inversion Hv as [|? ? He Hv']; subst. inversion Hs as [|? ? Hs' Hf]; subst.
  assert (exists ns, merge_extents (e :: acc) rest = Ok ns) as Hpush.
  { apply IH; [done|by constructor|done|]. intros p ?. by simplify_eq/=. }
  simpl. destruct He as (Hid & H0 & Hpos & Hend). rewrite Hid. cbn [mbind result_bind].
  rewrite u64_sub_max by (unfold end_of in *; lia).
  rewrite bool_decide_eq_false_2 by lia.
  destruct (Z.ltb_spec (MaxUint64 - Start e) (Sectors e)); [unfold end_of in *; lia|]. simpl.
  destruct acc as [|p before]; [done|]. inversion Hacc as [|? ? Hp Hbefore]; subst.
  case_bool_decide as Hd; [|done]. rewrite (end_no_wrap p Hp).
  pose proof (Forall_inv (Hh p eq_refl)) as Hpe. unfold follows in Hpe. rewrite device_then_same in Hpe by done.
  destruct (Z.ltb_spec (Start e) (end_of p)); [lia|].
  destruct (Z.eqb_spec (Start e) (end_of p)) as [Heq|]; [|done].
  destruct (merged_spec p e Hp ltac:(done) Hd Heq) as (Hm & Hme & _).
  apply (IH (merged p e :: before)); [done|by constructor|done|].
  intros q ?. simplify_eq/=. eapply Forall_impl; [exact Hf|]. intros r. unfold follows, device_then.
  by rewrite Hme, <- Hd.
Qed.

(** ** Normal forms *)

(** The first extent of a separated list starts at the least covered sector. *)
Lemma covers_first (a : Extent) (l : list Extent) (d : string) (s : Z) :
  valid_extent a -> StronglySorted separated (a :: l) -> covers (a :: l) d s ->
  String.compare (Device a) d = Lt \/ (Device a = d /\ (Start a <= s)%Z).
Proof.
  intros (_ & ? & ? & ?) Hs Hc. inversion Hs as [|? ? Hs' Hf]; subst.
  rewrite covers_cons in Hc. destruct Hc as [[<- ?]|Hc]; [right; split; [done|lia]|].
  apply Exists_exists in Hc as (e & He & <- & ?). rewrite Forall_forall in Hf. specialize (Hf e He).
  unfold separated, device_then, end_of in Hf. destruct (String.compare (Device a) (Device e)) eqn:E; [right|by left|done].
  split; [by apply compare_Eq|lia].
Qed.

(** The sector after the first extent is free. *)
Lemma not_covers_end (a : Extent) (l : list Extent) :
  StronglySorted separated (a :: l) -> ~ covers (a :: l) (Device a) (end_of a).
Proof.
  intros Hs Hc. inversion Hs as [|? ? Hs' Hf]; subst. rewrite covers_cons in Hc.
  destruct Hc as [[_ ?]|Hc]; [lia|]. apply Exists_exists in Hc as (e & He & Hd & ?).
  rewrite Forall_forall in Hf. pose proof (separated_same_device a e (Hf e He) (eq_sym Hd)). lia.
Qed.

Lemma not_covers_tail (a : Extent) (l : list Extent) (d : string) (s : Z) :
  StronglySorted separated (a :: l) -> in_extent a d s -> ~ covers l d s.
Proof.
  intros Hs [<- ?] Hc. inversion Hs as [|? ? Hs' Hf]; subst.
  apply Exists_exists in Hc as (e & He & Hd & ?).
  rewrite Forall_forall in Hf. pose proof (separated_same_device a e (Hf e He) (eq_sym Hd)). lia.
Qed.

Lemma covers_head (a : Extent) (l : list Extent) : valid_extent a -> covers (a :: l) (Device a) (Start a).
Proof. intros (_ & ? & ? & _). rewrite covers_cons. left. split; [done|]. unfold end_of. lia. Qed.

(** First extents of equal sector sets agree on device and start. *)
Lemma first_extent_agrees (a b : Extent) (l r : list Extent) :
  valid_extent a -> valid_extent b -> StronglySorted separated (a :: l) -> StronglySorted separated (b :: r) ->
  (forall d s, covers (a :: l) d s <-> covers (b :: r) d s) -> Device a = Device b /\ Start a = Start b.
Proof.
  intros Ha Hb Hl Hr Hc.
  pose proof (covers_first a l _ _ Ha Hl (proj2 (Hc _ _) (covers_head b r Hb))) as H1.
  pose proof (covers_first b r _ _ Hb Hr (proj1 (Hc _ _) (covers_head a l Ha))) as H2.
  destruct (string_compare_cases (Device a) (Device b)) as [[E1 E2]|[E|[E1 E2]]].
  - rewrite E2 in H2. destruct H2 as [H2|[H2 _]]; [done|]. by rewrite H2, string_compare_refl in E1.
  - rewrite E, string_compare_refl in H1, H2. destruct H1 as [|[_ ?]]; [done|].
    destruct H2 as [|[_ ?]]; [done|]. split; [done|lia].
  - rewrite E1 in H1. destruct H1 as [H1|[H1 _]]; [done|]. by rewrite H1, string_compare_refl in E1.
Qed.

(** An extent cannot end inside the first extent of an equal sector set. *)
Lemma first_extent_end (a b : Extent) (l r : list Extent) :
  valid_extent a -> valid_extent b -> StronglySorted separated (a :: l) -> StronglySorted separated (b :: r) ->
  (forall d s, covers (a :: l) d s <-> covers (b :: r) d s) -> (end_of b <= end_of a)%Z.
Proof.
  intros Ha Hb Hl Hr Hc. destruct (first_extent_agrees a b l r Ha Hb Hl Hr Hc) as [Hd Hs].
  apply Z.nlt_ge. intros Hlt. apply (not_covers_end a l Hl), Hc, covers_cons. left.
  destruct Ha as (_ & ? & ? & _). split; [done|]. unfold end_of in *. lia.
Qed.

(** Separated lists are determined by the sectors they cover. *)
Lemma separated_unique (l r : list Extent) :
  Forall valid_extent l -> Forall valid_extent r -> StronglySorted separated l -> StronglySorted separated r ->
  (forall d s, covers l d s <-> covers r d s) -> l = r.
Proof.
  revert r. induction l as [|a l IH]; intros r Hvl Hvr Hl Hr Hc.
  - destruct r as [|b r]; [done|]. apply Forall_inv in Hvr.
    pose proof (proj2 (Hc _ _) (covers_head b r Hvr)) as H. by apply Exists_nil in H.
  - destruct r as [|b r].
    { apply Forall_inv in Hvl. pose proof (proj1 (Hc _ _) (covers_head a l Hvl)) as H. by apply Exists_nil in H. }
    pose proof (Forall_inv Hvl) as Ha. pose proof (Forall_inv Hvr) as Hb.
    destruct (first_extent_agrees a b l r Ha Hb Hl Hr Hc) as [Hd Hs].
    pose proof (first_extent_end a b l r Ha Hb Hl Hr Hc) as He1.
    pose proof (first_extent_end b a r l Hb Ha Hr Hl (fun d s => iff_sym (Hc d s))) as He2.
    assert (a = b) as <-. { destruct a, b. unfold end_of in *. simpl in *. f_equal; [done|done|lia]. }
    f_equal. apply IH; [by inversion Hvl|by inversion Hvr|by inversion Hl|by inversion Hr|].
    intros d s. specialize (Hc d s). rewrite !covers_cons in Hc.
    pose proof (not_covers_tail a l d s Hl). pose proof (not_covers_tail a r d s Hr). tauto.
Qed.

(** ** The contract of [Normalize] *)

(** What [Normalize] accepts: a bounded, non-empty list of valid extents no two
    of which share a sector. *)
Definition well_formed (es : list Extent) : Prop :=
  (1 <= length es <= maxExtents)%nat /\ Forall valid_extent es /\ StronglySorted disjoint_extents es.

Lemma StronglySorted_perm {A : Type} (R : relation A) (l l' : list A) :
  Symmetric R -> l ≡ₚ l' -> StronglySorted R l -> StronglySorted R l'.
Proof.
  intros HR. induction 1 as [|x l l' Hp IH|x y l|]; rewrite ?StronglySorted_cons; [done| | |by auto].
  - intros [Hf Hs]. split; [by rewrite <- Hp|auto].
  - rewrite !Forall_cons. naive_solver.
Qed.

#[export] Instance disjoint_extents_sym : Symmetric disjoint_extents.
Proof. intros a b H d s Ha Hb. by apply (H d s). Qed.

Lemma well_formed_perm (l l' : list Extent) : l ≡ₚ l' -> well_formed l -> well_formed l'.
Proof.
  intros Hp (Hlen & Hv & Hs). split; [by rewrite <- (Permutation_length Hp)|].
  split; [exact (Permutation_Forall Hp Hv)|]. exact (StronglySorted_perm _ l l' disjoint_extents_sym Hp Hs).
Qed.

Lemma StronglySorted_impl {A : Type} (R Q : relation A) (P : A -> Prop) (l : list A) :
  (forall a b, P a -> P b -> R a b -> Q a b) -> Forall P l -> StronglySorted R l -> StronglySorted Q l.
Proof.
  intros HRQ HP. induction 1 as [|x l Hs IH Hf]; [constructor|].
  inversion HP as [|? ? Hx HP']; subst. constructor; [by apply IH|].
  rewrite Forall_forall in *. auto.
Qed.

Lemma StronglySorted_and {A : Type} (R Q : relation A) (l : list A) :
  StronglySorted R l -> StronglySorted Q l -> StronglySorted (fun a b => R a b /\ Q a b) l.
Proof.
  induction 1 as [|x l Hs IH Hf]; intros HQ; [constructor|].
  inversion HQ as [|? ? HQ' HfQ]; subst. constructor; [by apply IH|]. by apply Forall_and.
Qed.

Lemma Normalize_inv (es ns : list Extent) :
  Normalize es = Ok ns ->
  (1 <= length es <= maxExtents)%nat /\ merge_extents [] (merge_sort extent_le es) = Ok ns.
Proof.
  unfold Normalize. intros H. apply bind_Ok in H as ([] & Hr & H). apply reject_if_Ok in Hr. split; [|done].
  apply orb_false_iff in Hr as [H1 H2]. apply Nat.eqb_neq in H1. apply Nat.ltb_ge in H2. lia.
Qed.

(** The sorted copy and what the loop needs of it. *)
Lemma sorted_copy (es : list Extent) :
  merge_sort extent_le es ≡ₚ es /\ StronglySorted extent_le (merge_sort extent_le es).
Proof. split; [apply merge_sort_Permutation|apply StronglySorted_merge_sort; apply _]. Qed.

Lemma head_le_nil (rest : list Extent) : head_le [] rest.
Proof. by intros p. Qed.

Lemma Normalize_normal (es ns : list Extent) :
  Forall extent_u64 es -> Normalize es = Ok ns ->
  Forall valid_extent ns /\ StronglySorted separated ns /\ (forall d s, covers ns d s <-> covers es d s).
Proof.
  intros Hu H. apply Normalize_inv in H as [_ H]. destruct (sorted_copy es) as [Hp Hs].
  apply (Permutation_Forall (Permutation_sym Hp)) in Hu. destruct (merge_extents_covers _ [] ns Hu (Forall_nil_2 _) H) as [Hv Hc].
  split; [done|]. split; [by apply (merge_extents_sorted _ [] ns Hu); try constructor; auto using head_le_nil|].
  intros d s. rewrite Hc, (covers_perm _ _ d s Hp). unfold covers at 1. rewrite Exists_nil. tauto.
Qed.

Lemma Normalize_Ok_well_formed (es ns : list Extent) :
  Forall extent_u64 es -> Normalize es = Ok ns -> well_formed es.
Proof.
  intros Hu H. apply Normalize_inv in H as [Hlen H]. destruct (sorted_copy es) as [Hp Hs].
  apply (Permutation_Forall (Permutation_sym Hp)) in Hu.
  destruct (merge_extents_follows _ [] ns Hu (Forall_nil_2 _) Hs (head_le_nil _) H) as (Hv & Hf & _).
  apply (well_formed_perm _ _ Hp). split; [by rewrite (Permutation_length Hp)|]. split; [done|].
  apply (StronglySorted_impl follows _ (fun _ => True)); [|by apply Forall_true|done].
  intros a b _ _. apply follows_disjoint.
Qed.

Lemma well_formed_Normalize (es : list Extent) : well_formed es -> exists ns, Normalize es = Ok ns.
Proof.
  intros Hw. destruct (sorted_copy es) as [Hp Hs].
  destruct Hw as ([Hl1 Hl2] & Hv & Hd). unfold Normalize.
  rewrite (proj2 (Nat.eqb_neq _ 0)) by lia. rewrite (proj2 (Nat.ltb_ge _ _)) by done. simpl.
  assert (Forall valid_extent (merge_sort extent_le es)) as Hv' by exact (Permutation_Forall (Permutation_sym Hp) Hv).
  apply merge_extents_complete; [done|constructor| |done].
  apply (StronglySorted_impl (fun a b => extent_le a b /\ disjoint_extents a b) _ valid_extent); [|done|].
  - intros a b Ha Hb [Hle Hdis]. by apply disjoint_follows.
  - apply StronglySorted_and; [done|]. exact (StronglySorted_perm _ es _ disjoint_extents_sym (Permutation_sym Hp) Hd).
Qed.

Lemma covers_inhabited (es : list Extent) :
  (1 <= length es)%nat -> Forall valid_extent es -> exists d s, covers es d s.
Proof.
  destruct es as [|e es]; simpl; [lia|]. intros _ Hv. eexists _, _. apply covers_head, (Forall_inv Hv).
Qed.

Lemma merge_extents_length (rest acc ns : list Extent) :
  merge_extents acc rest = Ok ns -> (length ns <= length acc + length rest)%nat.
Proof.
  revert acc. induction rest as [|e rest IH]; intros acc H; simpl in *.
  - simplify_eq. rewrite length_rev. lia.
  - repeat (apply bind_Ok in H as (? & _ & H)). destruct acc as [|p before]; [apply IH in H; simpl in *; lia|].
    case_bool_decide; [|apply IH in H; simpl in *; lia].
    destruct (_ <? _)%Z; [done|]. destruct (_ =? _)%Z; apply IH in H; simpl in *; lia.
Qed.

Lemma Normalize_well_formed (es ns : list Extent) :
  Forall extent_u64 es -> Normalize es = Ok ns -> well_formed ns.
Proof.
  intros Hu H. destruct (Normalize_normal es ns Hu H) as (Hv & Hs & Hc).
  destruct (Normalize_Ok_well_formed es ns Hu H) as ([Hl Hlen] & Hve & _).
  split; [|split; [done|]].
  - apply Normalize_inv in H as [_ H]. apply merge_extents_length in H.
    rewrite (Permutation_length (merge_sort_Permutation _ _)) in H. simpl in H. split; [|lia].
    destruct (covers_inhabited es Hl Hve) as (d & s & Hcov). apply Hc in Hcov.
    destruct ns; [by apply Exists_nil in Hcov|simpl; lia].
  - apply (StronglySorted_impl separated _ (fun _ => True)); [|by apply Forall_true|done].
    intros a b _ _ Hsep. by apply follows_disjoint, separated_follows.
Qed.

Lemma valid_extent_u64 (e : Extent) : valid_extent e -> extent_u64 e.
Proof. intros (_ & ? & ? & ?). unfold extent_u64, end_of in *. lia. Qed.

Lemma well_formed_u64 (es : list Extent) : well_formed es -> Forall extent_u64 es.
Proof. intros (_ & Hv & _). eapply Forall_impl; [exact Hv|]. exact valid_extent_u64. Qed.

(** [Normalize] accepts exactly the bounded, non-empty allocations whose
    extents have a valid backing identity, a positive length and an end inside
    [uint64], and no two of which share a sector; every other allocation is an
    error. *)
Theorem Normalize_accepts (es : list Extent) :
  Forall extent_u64 es -> is_ok (Normalize es) = true <-> well_formed es.
Proof.
  intros Hu. rewrite is_ok_true. split; [|apply well_formed_Normalize].
  intros [ns H]. by apply (Normalize_Ok_well_formed es ns).
Qed.

Definition sample_extents : list Extent :=
  [{| Device := "8:0"; Start := 2048; Sectors := 100 |};
   {| Device := "259:1"; Start := 0; Sectors := 8 |};
   {| Device := "8:0"; Start := 1024; Sectors := 1024 |}].

Lemma sample_extents_u64 : Forall extent_u64 sample_extents.
Proof. repeat constructor; unfold extent_u64, MaxUint64; simpl; lia. Qed.

Lemma Normalize_accepts_witness :
  Forall extent_u64 sample_extents /\ well_formed sample_extents.
Proof.
  split; [exact sample_extents_u64|].
  apply (Normalize_accepts sample_extents sample_extents_u64). vm_compute. reflexivity.
Defined.

(** the normal form is canonical.  It lists the same sectors, sorted by
    device and start, each extent valid and separated by a gap from the next on
    its device; and every acceptable allocation of the same sectors, in whatever
    order and however it is split, has this normal form.  In particular
    [Normalize] is idempotent and does not depend on the order in which an
    unstable sort leaves its input. *)
Theorem Normalize_canonical (es ns : list Extent) :
  Forall extent_u64 es -> Normalize es = Ok ns ->
  (well_formed ns /\ StronglySorted separated ns /\ forall d s, covers ns d s <-> covers es d s) /\
  (forall es', well_formed es' -> (forall d s, covers es' d s <-> covers es d s) -> Normalize es' = Ok ns).
Proof.
  intros Hu H. destruct (Normalize_normal es ns Hu H) as (Hv & Hs & Hc).
  split; [split; [by apply (Normalize_well_formed es)|done]|].
  intros es' Hw Hc'. destruct (well_formed_Normalize es' Hw) as [ns' H']. rewrite H'. f_equal.
  destruct (Normalize_normal es' ns' (well_formed_u64 es' Hw) H') as (Hv' & Hs' & Hn').
  apply separated_unique; try done. intros d s. by rewrite Hn', Hc', Hc.
Qed.

Lemma Normalize_canonical_witness :
  exists ns, Normalize sample_extents = Ok ns /\ length ns = 2 /\ Normalize ns = Ok ns.
Proof.
  eexists. split; [vm_compute; reflexivity|]. split; [reflexivity|].
  match goal with |- Normalize ?n = _ => set (ns := n) end.
  assert (Normalize sample_extents = Ok ns) as H by (vm_compute; reflexivity).
  destruct (Normalize_canonical sample_extents ns sample_extents_u64 H) as [(Hw & _ & Hc) Hall].
  exact (Hall ns Hw Hc).
Defined.

Lemma extents_meet_spec (a b : Extent) :
  valid_extent a -> valid_extent b -> extents_meet a b = true <-> exists d s, in_extent a d s /\ in_extent b d s.
Proof.
  intros Ha Hb. unfold extents_meet. rewrite (end_no_wrap a Ha), (end_no_wrap b Hb).
  rewrite !andb_true_iff, !Z.ltb_lt, bool_decide_eq_true. unfold in_extent. split.
  - intros [[E ?] ?]. destruct Ha as (_ & ? & ? & _), Hb as (_ & ? & ? & _). unfold end_of in *.
    exists (Device b), (Z.max (Start a) (Start b)). split; (split; [done|lia]).
  - intros (d & s & [<- ?] & [-> ?]). split; [split; [done|lia]|lia].
Qed.

Lemma Overlap_sectors (left right : list Extent) :
  Forall extent_u64 left -> Forall extent_u64 right ->
  match Overlap left right with
  | Ok answer => well_formed left /\ well_formed right /\
      (answer = true <-> exists d s, covers left d s /\ covers right d s)
  | Err _ => ~ (well_formed left /\ well_formed right)
  end.
Proof.
  intros Hl Hr. unfold Overlap.
  destruct (Normalize left) as [l|e] eqn:El; cbn [mbind result_bind].
  2:{ intros [Hw _]. apply well_formed_Normalize in Hw as [ns Hw]. congruence. }
  destruct (Normalize right) as [r|e] eqn:Er; cbn [mbind result_bind].
  2:{ intros [_ Hw]. apply well_formed_Normalize in Hw as [ns Hw]. congruence. }
  split; [by apply (Normalize_Ok_well_formed left l)|]. split; [by apply (Normalize_Ok_well_formed right r)|].
  destruct (Normalize_normal left l Hl El) as (Hvl & _ & Hcl).
  destruct (Normalize_normal right r Hr Er) as (Hvr & _ & Hcr).
  rewrite Forall_forall in Hvl, Hvr. setoid_rewrite <- Hcl. setoid_rewrite <- Hcr.
  unfold covers. setoid_rewrite Exists_exists. rewrite existsb_exists. setoid_rewrite existsb_exists.
  setoid_rewrite <- list_elem_of_In. split.
  - intros (a & Ha & b & Hb & Hm). apply extents_meet_spec in Hm; [|auto..]. naive_solver.
  - intros (d & s & (a & Ha & Hina) & (b & Hb & Hinb)). exists a. split; [done|]. exists b. split; [done|].
    apply extents_meet_spec; eauto.
Qed.

(** [Overlap] answers whether two allocations share a sector: when both are
    acceptable it returns true exactly when some sector of some device belongs to
    both, and it fails exactly when one of them is not acceptable. *)
Theorem Overlap_correct (left right : list Extent) :
  Forall extent_u64 left -> Forall extent_u64 right ->
  match Overlap left right with
  | Ok answer => well_formed left /\ well_formed right /\
      (answer = true <-> exists d s, covers left d s /\ covers right d s)
  | Err _ => ~ (well_formed left /\ well_formed right)
  end.
Proof. apply Overlap_sectors. Qed.

Lemma Overlap_correct_witness :
  Overlap sample_extents [{| Device := "8:0"; Start := 1000; Sectors := 25 |}] = Ok true /\
  exists d s, covers sample_extents d s /\ covers [{| Device := "8:0"; Start := 1000; Sectors := 25 |}] d s.
Proof.
  set (right := [{| Device := "8:0"; Start := 1000; Sectors := 25 |}]).
  assert (Overlap sample_extents right = Ok true) as E by (vm_compute; reflexivity).
  split; [exact E|].
  assert (Forall extent_u64 right) as Hr by (repeat constructor; unfold extent_u64, MaxUint64; simpl; lia).
  pose proof (Overlap_correct sample_extents right sample_extents_u64 Hr) as H. rewrite E in H.
  apply H. reflexivity.
Defined.

(** ** Resolution *)

(** Which sector of a physical device backs sector [x] of [device]: the
    specification [Resolve] refines, one rule per kind of block device. *)
Inductive backs (inspect : string -> result block) : string -> Z -> string -> Z -> Prop :=
| backs_physical device b x :
    inspect device = Ok b -> parent b = "" -> mapped b = false ->
    backs inspect device x (if identity b == "" then device else identity b) x
| backs_partition device b x d s :
    inspect device = Ok b -> parent b <> "" ->
    backs inspect (parent b) (start b + x) d s -> backs inspect device x d s
| backs_mapped device b seg x d s :
    inspect device = Ok b -> parent b = "" -> mapped b = true -> seg ∈ segments b ->
    (seg_start seg <= x < seg_start seg + seg_sectors seg)%Z ->
    backs inspect (seg_device seg) (seg_offset seg + (x - seg_start seg)) d s ->
    backs inspect device x d s.

Definition segment_u64 (s : segment) : Prop :=
  (0 <= seg_start s <= MaxUint64)%Z /\ (0 <= seg_sectors s <= MaxUint64)%Z /\ (0 <= seg_offset s <= MaxUint64)%Z.

(** The type invariant of the Go struct returned by the inspector. *)
Definition block_u64 (b : block) : Prop :=
  (0 <= size b <= MaxUint64)%Z /\ (0 <= start b <= MaxUint64)%Z /\ Forall segment_u64 (segments b).

Section resolution.
Context (inspect : string -> result block).
Hypothesis inspect_u64 : forall device b, inspect device = Ok b -> block_u64 b.

(** [es] lists the sectors that back [sectors] sectors of [device] from
    [first], and every one of them has a backing sector. *)
Definition resolves (device : string) (first sectors : Z) (es : list Extent) : Prop :=
  Forall extent_u64 es /\
  (forall d s, covers es d s <-> exists x, (first <= x < first + sectors)%Z /\ backs inspect device x d s) /\
  (forall x, (first <= x < first + sectors)%Z -> exists d s, backs inspect device x d s).

Lemma validate_table_spec (table : list segment) (first last : Z) :
  Forall segment_u64 table -> (0 <= first <= MaxUint64)%Z -> validate_table first table = Ok last ->
  (first <= last <= MaxUint64)%Z /\
  Forall (fun s => first <= seg_start s /\ 0 < seg_sectors s /\ seg_start s + seg_sectors s <= last)%Z table /\
  (forall x, (first <= x < last)%Z ->
     Exists (fun s => seg_start s <= x < seg_start s + seg_sectors s)%Z table).
Proof.
  revert first. induction table as [|seg table IH]; intros first Hu Hf H; simpl in H.
  - simplify_eq. split_and!; [lia|lia|constructor|]. lia.
  - inversion Hu as [|? ? (Hs0 & Hs1 & Hs2) Hu']; subst. rewrite u64_sub_max in H by done. go_inv.
    rename select (seg_start seg =? first = true)%Z into E. apply Z.eqb_eq in E.
    rename select (seg_sectors seg =? 0 = false)%Z into E0. apply Z.eqb_neq in E0.
    rewrite u64_add_small in H by lia.
    destruct (IH (first + seg_sectors seg)%Z) as (Hle & Hall & Hex); [done|lia|done|].
    split; [lia|]. split.
    + constructor; [lia|]. eapply Forall_impl; [exact Hall|]. simpl. lia.
    + intros y Hy. destruct (decide (y < first + seg_sectors seg)%Z); [left; lia|right; apply Hex; lia].
Qed.

(** The segments' share of the range [first, first + sectors). *)
Definition segment_backs (first sectors : Z) (table : list segment) (d : string) (s : Z) : Prop :=
  exists seg x, seg ∈ table /\ (first <= x < first + sectors)%Z /\
    (seg_start seg <= x < seg_start seg + seg_sectors seg)%Z /\
    backs inspect (seg_device seg) (seg_offset seg + (x - seg_start seg)) d s.

Lemma segment_backs_cons (first sectors : Z) (seg : segment) (table : list segment) (d : string) (s : Z) :
  segment_backs first sectors (seg :: table) d s <->
  (exists x, (Z.max first (seg_start seg) <= x < Z.min (first + sectors) (seg_start seg + seg_sectors seg))%Z /\
     backs inspect (seg_device seg) (seg_offset seg + (x - seg_start seg)) d s) \/
  segment_backs first sectors table d s.
Proof.
  unfold segment_backs. setoid_rewrite elem_of_cons. split.
  - intros (seg' & x & [->|Hin] & H1 & H2 & Hb); [left; exists x; split; [lia|done]|right; eauto 10].
  - intros [(x & Hx & Hb)|(seg' & x & Hin & H1 & H2 & Hb)]; [|eauto 10].
    exists seg, x. split_and!; (done || lia || auto).
Qed.

Context (resolve_at : string -> Z -> Z -> result (list Extent)).
Hypothesis resolve_at_spec : forall device first sectors es,
  (0 <= first <= MaxUint64)%Z -> (0 <= sectors <= MaxUint64)%Z ->
  resolve_at device first sectors = Ok es -> resolves device first sectors es.

(** What the loop's recursive call contributes for one segment. *)
Lemma segment_contribution (seg : segment) (first last : Z) (es : list Extent) :
  segment_u64 seg -> (seg_start seg <= first < last)%Z -> (last <= MaxUint64)%Z ->
  (seg_offset seg + (first - seg_start seg) <= MaxUint64)%Z ->
  resolve_at (seg_device seg) (seg_offset seg + (first - seg_start seg)) (last - first) = Ok es ->
  Forall extent_u64 es /\
  (forall d s, covers es d s <-> exists x, (first <= x < last)%Z /\
     backs inspect (seg_device seg) (seg_offset seg + (x - seg_start seg)) d s) /\
  (forall x, (first <= x < last)%Z -> exists d s,
     backs inspect (seg_device seg) (seg_offset seg + (x - seg_start seg)) d s).
Proof.
  intros (? & ? & ?) Hf Hl Ho Hres. apply resolve_at_spec in Hres as (Hu & Hc & Ht); [|lia..].
  split; [done|]. split.
  - intros d s. rewrite Hc. split; intros (x & Hx & Hb).
    + exists (x - seg_offset seg + seg_start seg)%Z. split; [lia|].
      by replace (seg_offset seg + (x - seg_offset seg + seg_start seg - seg_start seg))%Z with x by lia.
    + eexists. split; [|exact Hb]. lia.
  - intros x Hx. apply Ht. lia.
Qed.

Lemma resolve_segments_spec (table : list segment) (first sectors : Z) (acc es : list Extent) :
  Forall segment_u64 table ->
  Forall (fun s => seg_start s + seg_sectors s <= MaxUint64)%Z table ->
  (0 <= first)%Z -> (0 <= sectors)%Z -> (first + sectors <= MaxUint64)%Z -> Forall extent_u64 acc ->
  resolve_segments resolve_at first sectors table acc = Ok es ->
  Forall extent_u64 es /\
  (forall d s, covers es d s <-> covers acc d s \/ segment_backs first sectors table d s) /\
  (forall seg x, seg ∈ table -> (first <= x < first + sectors)%Z ->
     (seg_start seg <= x < seg_start seg + seg_sectors seg)%Z ->
     exists d s, backs inspect (seg_device seg) (seg_offset seg + (x - seg_start seg)) d s).
Proof.
  intros Hu Hend Hf Hn Hsum. revert acc. induction table as [|seg table IH]; intros acc Hacc H.
  { simpl in H. simplify_eq. split; [done|]. split; [|by intros ? ? ?%not_elem_of_nil].
    intros d s. split; [auto|]. by intros [?|(? & ? & ?%not_elem_of_nil & _)]. }
  inversion Hu as [|? ? Hseg Hu']; subst. inversion Hend as [|? ? Hse Hend']; subst.
  pose proof Hseg as (Hs0 & Hs1 & Hs2). simpl in H.
  rewrite !(u64_add_small _ _) in H by lia.
  set (lo := Z.max first (seg_start seg)) in *.
  set (hi := Z.min (first + sectors) (seg_start seg + seg_sectors seg)) in *.
  destruct (Z.leb_spec hi lo) as [Hempty|Hlt].
  - destruct (IH Hu' Hend' acc Hacc H) as (Hes & Hc & Ht). split; [done|]. split.
    + intros d s. rewrite segment_backs_cons, Hc. fold lo hi. split; [tauto|].
      intros [?|[(x & Hx & _)|?]]; [auto|lia|auto].
    + intros seg' x [->|Hin]%elem_of_cons Hx Hin'; [lia|eauto].
  - assert (u64_sub lo (seg_start seg) = lo - seg_start seg)%Z as Eo
      by (unfold u64_sub; apply Z.mod_small; unfold MaxUint64 in *; lia).
    assert (u64_sub hi lo = hi - lo)%Z as Eh by (unfold u64_sub; apply Z.mod_small; unfold MaxUint64 in *; lia).
    rewrite Eo, Eh, u64_sub_max in H by done.
    apply bind_Ok in H as ([] & Hr & H). apply reject_if_Ok, Z.ltb_ge in Hr.
    rewrite u64_add_small in H by lia.
    apply bind_Ok in H as (part & Hpart & H). apply bind_Ok in H as ([] & _ & H).
    apply segment_contribution in Hpart as (Hpu & Hpc & Hpt); [|done|lia..].
    destruct (IH Hu' Hend' (acc ++ part)) as (Hes & Hc & Ht); [by apply Forall_app|done|]. split; [done|]. split.
    + intros d s. rewrite segment_backs_cons, Hc, covers_app, Hpc. fold lo hi. tauto.
    + intros seg' x [->|Hin]%elem_of_cons Hx Hin'; [apply Hpt; lia|eauto].
Qed.
End resolution.

(** The rule that backs a sector of an inspected device. *)
Ltac invert_backs H :=
  inversion H; subst; clear H;
  repeat match goal with
  | H1 : ?i ?d = Ok ?a, H2 : ?i ?d = Ok ?b |- _ => rewrite H1 in H2; injection H2 as <-
  end; try congruence.

Section resolve_refines.
Context (inspect : string -> result block).
Hypothesis inspect_u64 : forall device b, inspect device = Ok b -> block_u64 b.

Lemma resolves_physical (device : string) (b : block) (first sectors : Z) :
  inspect device = Ok b -> parent b = "" -> mapped b = false ->
  (0 <= first <= MaxUint64)%Z -> (0 <= sectors <= MaxUint64)%Z ->
  resolves inspect device first sectors
    [{| Device := if identity b == "" then device else identity b; Start := first; Sectors := sectors |}].
Proof.
  intros Hi Hp Hm Hf Hn. split; [constructor; [by split|constructor]|]. split.
  - intros d s. rewrite covers_cons. unfold covers, in_extent, end_of. rewrite Exists_nil. simpl. split.
    + intros [[<- ?]|[]]. exists s. split; [done|]. by apply backs_physical.
    + intros (x & Hx & Hb). left. invert_backs Hb; split; (done || lia).
  - intros x Hx. eexists _, _. by apply backs_physical.
Qed.

Lemma resolves_partition (device : string) (b : block) (first sectors : Z) (es : list Extent) :
  inspect device = Ok b -> parent b <> "" -> resolves inspect (parent b) (start b + first) sectors es ->
  resolves inspect device first sectors es.
Proof.
  intros Hi Hp (Hu & Hc & Ht). split; [done|]. split.
  - intros d s. rewrite Hc. split; intros (x & Hx & Hb).
    + exists (x - start b)%Z. split; [lia|]. apply (backs_partition _ device b); [done..|].
      by replace (start b + (x - start b))%Z with x by lia.
    + exists (start b + x)%Z. split; [lia|]. by invert_backs Hb.
  - intros x Hx. destruct (Ht (start b + x)%Z) as (d & s & Hb); [lia|].
    exists d, s. by apply (backs_partition _ device b).
Qed.

Lemma resolves_mapped (device : string) (b : block) (first sectors : Z) (es : list Extent)
    (resolve_at : string -> Z -> Z -> result (list Extent)) :
  (forall d f n es, (0 <= f <= MaxUint64)%Z -> (0 <= n <= MaxUint64)%Z ->
     resolve_at d f n = Ok es -> resolves inspect d f n es) ->
  inspect device = Ok b -> parent b = "" -> mapped b = true -> validateSegments b = Ok tt ->
  (0 <= first)%Z -> (0 <= sectors)%Z -> (first + sectors <= size b)%Z ->
  resolve_segments resolve_at first sectors (segments b) [] = Ok es ->
  resolves inspect device first sectors es.
Proof.
  intros Hat Hi Hp Hm Hv Hf Hn Hsize H. destruct (inspect_u64 device b Hi) as (Hb1 & _ & Hsegs).
  unfold validateSegments in Hv. apply bind_Ok in Hv as ([] & _ & Hv).
  apply bind_Ok in Hv as (last & Hv & Hlast). apply reject_if_Ok, negb_false_iff, Z.eqb_eq in Hlast as ->.
  apply validate_table_spec in Hv as (_ & Hall & Hex); [|done|unfold MaxUint64; lia].
  apply (resolve_segments_spec inspect resolve_at Hat) in H as (Hu & Hc & Ht);
    [|done| |lia..|constructor].
  2:{ eapply Forall_impl; [exact Hall|]. simpl. lia. }
  split; [done|]. split.
  - intros d s. rewrite Hc. unfold covers at 1. rewrite Exists_nil. split.
    + intros [[]|(seg & x & Hin & Hx & Hs & Hb)]. exists x. split; [done|]. by apply (backs_mapped _ device b seg).
    + intros (x & Hx & Hb). right. invert_backs Hb. by eexists _, x.
  - intros x Hx. destruct (proj1 (Exists_exists _ _) (Hex x ltac:(lia))) as (seg & Hin & Hs).
    destruct (Ht seg x Hin Hx Hs) as (d & s & Hb). exists d, s. by apply (backs_mapped _ device b seg).
Qed.

Lemma resolve_spec (fuel : nat) (device : string) (first sectors : Z) (visiting : list string) (es : list Extent) :
  (0 <= first <= MaxUint64)%Z -> (0 <= sectors <= MaxUint64)%Z ->
  resolve inspect fuel device first sectors visiting = Ok es -> resolves inspect device first sectors es.
Proof.
  revert device first sectors visiting es.
  induction fuel as [|fuel IH]; intros device first sectors visiting es Hf Hn H; [done|]. simpl in H.
  apply bind_Ok in H as ([] & _ & H). apply bind_Ok in H as (b & Hi & H).
  apply bind_Ok in H as ([] & Hr & H). destruct (inspect_u64 device b Hi) as (Hb1 & Hb2 & Hb3). go_inv.
  assert (u64_sub (size b) first = size b - first)%Z as E
    by (unfold u64_sub; apply Z.mod_small; unfold MaxUint64 in *; lia).
  rewrite E in Hr. case_bool_decide as Hp; simpl in H.
  - destruct (mapped b) eqn:Hm; simpl in H; [|simplify_eq; by apply resolves_physical].
    apply bind_Ok in H as ([] & Hv & H). eapply resolves_mapped; try done; [|lia..].
    simpl. intros d f n es' ? ?. by apply IH.
  - apply bind_Ok in H as ([] & Ho & H). rewrite u64_sub_max in Ho by done. go_inv.
    rewrite u64_add_small in H by lia. eapply resolves_partition; [done..|]. eapply IH; [lia|lia|done].
Qed.
End resolve_refines.

(** C34: what [Resolve] returns refines the device stack: the extents are the
    canonical listing of exactly those physical sectors that back some sector of
    the device, and every sector of the device has a backing sector, through
    partitions and linear mappings of any shape, with no [uint64] wrap-around on
    the way. *)
Theorem Resolve_refines_backs (inspect : string -> result block) (device : string) (ns : list Extent) :
  (forall d b, inspect d = Ok b -> block_u64 b) ->
  Resolve inspect device = Ok ns ->
  exists b, inspect device = Ok b /\ well_formed ns /\ StronglySorted separated ns /\
    (forall d s, covers ns d s <-> exists x, (0 <= x < size b)%Z /\ backs inspect device x d s) /\
    (forall x, (0 <= x < size b)%Z -> exists d s, covers ns d s /\ backs inspect device x d s).
Proof.
  intros Hu H. unfold Resolve in H. apply bind_Ok in H as (b & Hi & H). apply bind_Ok in H as (es & Hr & H).
  destruct (Hu device b Hi) as (Hb & _).
  apply (resolve_spec inspect Hu) in Hr as (Hes & Hc & Ht); [|unfold MaxUint64; lia|done].
  destruct (Normalize_normal es ns Hes H) as (_ & Hs & Hn). exists b.
  split; [done|]. split; [by apply (Normalize_well_formed es)|]. split; [done|]. split.
  - intros d s. rewrite Hn, Hc. done.
  - intros x Hx. destruct (Ht x Hx) as (d & s & Hback). exists d, s. split; [|done]. apply Hn, Hc. by exists x.
Qed.

(** An LVM volume of two segments, one of them on a partition. *)
Definition sample_devices (device : string) : result block :=
  if device == "253:0" then
    Ok {| size := 300; identity := ""; parent := ""; start := 0; mapped := true;
          segments := [{| seg_start := 0; seg_sectors := 100; seg_device := "8:1"; seg_offset := 10 |};
                       {| seg_start := 100; seg_sectors := 200; seg_device := "8:16"; seg_offset := 0 |}] |}
  else if device == "8:1" then
    Ok {| size := 500; identity := ""; parent := "8:0"; start := 2048; mapped := false; segments := [] |}
  else if (device == "8:0") || (device == "8:16") then
    Ok {| size := 4096; identity := ""; parent := ""; start := 0; mapped := false; segments := [] |}
  else Err (Errorf "unknown device").

Lemma Resolve_refines_backs_witness :
  exists ns, Resolve sample_devices "253:0" = Ok ns /\ length ns = 2 /\
    exists d s, covers ns d s /\ backs sample_devices "253:0" 42 d s.
Proof.
  eexists. split; [vm_compute; reflexivity|]. split; [reflexivity|].
  match goal with |- context [covers ?l] => set (ns := l) end.
  assert (forall d b, sample_devices d = Ok b -> block_u64 b) as Hu.
  { intros d b. unfold sample_devices.
    repeat case_bool_decide; simpl; intros Heq; simplify_eq; unfold block_u64, segment_u64, MaxUint64; simpl;
      repeat constructor; simpl; lia. }
  assert (Resolve sample_devices "253:0" = Ok ns) as H by (vm_compute; reflexivity).
  destruct (Resolve_refines_backs sample_devices "253:0" ns Hu H) as (b & Hb & _ & _ & _ & Hall).
  apply (Hall 42%Z). vm_compute in Hb. injection Hb as <-. simpl. lia.
Defined.
