(* ===== verification/Apimachinery.v ===== *)
(** * What ShiftPV uses of k8s.io/apimachinery

    Quantities, DNS names and status conditions are library code: a class states
    the functions the program calls and the documented facts it relies on.
    [Sample] is an instance on which the development's examples run. *)

From S2P Require Import Prelude.
From Stdlib Require Import Ascii.

Module Condition.
Record Condition := {
  Type_ : string;
  Status : string;
  ObservedGeneration : Z;
  Reason : string;
  Message : string
}.
#[export] Instance Condition_eq_dec : EqDecision Condition.
Proof. solve_decision. Defined.
End Condition.
Notation Condition := Condition.Condition.
#[export] Existing Instance Condition.Condition_eq_dec.

(** [metav1.ConditionTrue] *)
Definition ConditionTrue : string := "True".

Class Apimachinery := {
  Quantity : Type;
  ParseQuantity : string -> result Quantity;
  (** the value and whether it is exact *)
  AsInt64 : Quantity -> Z * bool;
  (** [len(validation.IsDNS1123Label(s)) == 0] *)
  IsDNS1123Label : string -> bool;
  IsDNS1123Subdomain : string -> bool;
  FindStatusCondition : list Condition -> string -> option Condition;

  AsInt64_range q : int64_range (fst (AsInt64 q));
  FindStatusCondition_spec cs t c : FindStatusCondition cs t = Some c -> c ∈ cs /\ Condition.Type_ c = t
}.

Module Sample.
(** Quantities without a suffix. *)
Fixpoint decimal (acc : Z) (s : string) : option Z :=
  match s with
  | EmptyString => Some acc
  | String c s =>
      let n := N_of_ascii c in
      if ((48 <=? n) && (n <=? 57))%N then decimal (10 * acc + (Z.of_N n - 48)) s else None
  end.

Definition parse (s : string) : result Z :=
  match s, decimal 0 s with
  | String _ _, Some z => Ok z
  | _, _ => Err (Errorf "quantities must match the regular expression")
  end.

Definition as_int64 (q : Z) : Z * bool :=
  if bool_decide (- MaxInt64 - 1 <= q <= MaxInt64)%Z then (q, true) else (0%Z, false).

Definition find (cs : list Condition) (t : string) : option Condition :=
  List.find (fun c => Condition.Type_ c == t) cs.

#[export] Program Instance sample : Apimachinery := {
  Quantity := Z; ParseQuantity := parse; AsInt64 := as_int64;
  IsDNS1123Label s := s != ""; IsDNS1123Subdomain s := s != "";
  FindStatusCondition := find
}.
Next Obligation.
  intros q. unfold as_int64, int64_range. case_bool_decide; simpl; [lia|]. unfold MaxInt64. lia.
Qed.
Next Obligation.
  intros cs t c Hf. unfold find in Hf. apply List.find_some in Hf as [Hin Ht].
  split; [by apply list_elem_of_In|]. by apply bool_decide_eq_true in Ht.
Qed.
End Sample.
