(* ===== verification/Registration.v ===== *)
(** * Pool registration

    Package [registration] (src/pool/registration): the configuration a Pool
    declares, the evidence of its fixed capacity and the decision whether a Pool
    is independent of the other Pools on its node.  Quantity parsing and the
    DNS-1123 label check are apimachinery's. *)

From S2P Require Import Prelude Bytes Filepath CapacityUnit Apimachinery.

Definition FixedBlock : string := "FixedBlock".

Module Check.
Record Check := {
  OK : bool;
  Known : bool;
  Reason : string;
  Message : string
}.
End Check.
Notation Check := Check.Check.

Definition failed (reason message : string) : Check :=
  {| Check.OK := false; Check.Known := true; Check.Reason := reason; Check.Message := message |}.

Definition verified : Check :=
  {| Check.OK := true; Check.Known := true; Check.Reason := "CapacityAllocationVerified";
     Check.Message := "Pool capacity is independent of its peers" |}.

(** [Check{Known: true, OK: true}] *)
Definition passed : Check :=
  {| Check.OK := true; Check.Known := true; Check.Reason := ""; Check.Message := "" |}.

(** ** Evidence of a fixed allocation *)

Module Unit.
Record CapacityUnit := {
  Device : string;
  Source : string;
  Filesystem : string;
  Extents : list Extent
}.

#[export] Instance CapacityUnit_eq_dec : EqDecision CapacityUnit.
Proof. solve_decision. Defined.

(** A nil unit is [None]. *)
Definition Validate (u : option CapacityUnit) : result unit :=
  match u with
  | None => Err (Errorf "fixed filesystem capacity identity is incomplete or unsupported")
  | Some u =>
      reject_if (negb (is_ok (ValidateDevice (Device u))) || (Source u == "") ||
                 ((Filesystem u != "ext4") && (Filesystem u != "xfs")))
        (Errorf "fixed filesystem capacity identity is incomplete or unsupported");;
      normalized ← Normalize (Extents u);
      reject_if (normalized != Extents u) (Errorf "capacity allocation evidence is not normalized")
  end.

Definition SameCapacityUnit (left right : option CapacityUnit) : bool :=
  negb (is_nil left) && negb (is_nil right) && is_ok (Validate left) && is_ok (Validate right) && (left == right).
End Unit.
Notation CapacityUnit := Unit.CapacityUnit.
#[export] Existing Instance Unit.CapacityUnit_eq_dec.

Module Allocation.
Record Allocation := {
  UID : string;
  NodeName : string;
  MountPath : string;
  Policy : string;
  Approved : bool;
  Deleting : bool;
  Retired : bool;
  Unit : option CapacityUnit;
  Evidence : Check
}.
End Allocation.
Notation Allocation := Allocation.Allocation.

(** ** Configuration *)

Module Configuration.
Record Configuration := {
  NodeName : string;
  PoolGroup : string;
  MountPath : string;
  MountPolicy : string;
  CapacityPolicy : string;
  CapacityLimit : string
}.
End Configuration.
Notation Configuration := Configuration.Configuration.

Definition ErrLimitInexact : error := Errorf "value cannot be represented as bytes".
Definition ErrLimitNotPositive : error := Errorf "value must be greater than zero".

Section configuration.
Context {AM : Apimachinery}.

Definition ParseLimitBytes (limit : string) : result Z :=
  quantity ← ParseQuantity limit;
  let '(value, exact) := AsInt64 quantity in
  if negb exact then Err ErrLimitInexact
  else if (value <=? 0)%Z then Err ErrLimitNotPositive
  else Ok value.

Definition ValidateBackingConfiguration (c : Configuration) : Check :=
  if (Configuration.NodeName c == "") || negb (IsAbs (Configuration.MountPath c)) ||
     (Clean (Configuration.MountPath c) == "/") ||
     ((Configuration.MountPolicy c != "") && (Configuration.MountPolicy c != "RequireMountPoint")) ||
     ((Configuration.CapacityPolicy c != "") && (Configuration.CapacityPolicy c != FixedBlock))
  then failed "PoolConfigurationInvalid" "invalid nodeName, mountPath, mountPolicy, or capacityPolicy"
  else passed.

Definition ValidateTopologyConfiguration (c : Configuration) : Check :=
  let check := ValidateBackingConfiguration c in
  if negb (Check.OK check) then check
  else if negb (IsDNS1123Label (Configuration.PoolGroup c))
  then failed "PoolConfigurationInvalid" "poolGroup must be a DNS-1123 label"
  else passed.

Definition ValidateConfiguration (c : Configuration) : Check :=
  let check := ValidateTopologyConfiguration c in
  if negb (Check.OK check) then check
  else match ParseLimitBytes (Configuration.CapacityLimit c) with
       | Err _ => failed "PoolCapacityLimitInvalid" "capacity.limit must be an exact positive int64 byte count: "
       | Ok _ => passed
       end.
End configuration.

(** ** Independence *)

Definition PathsOverlap (left right : string) : bool :=
  let left := Clean left in
  let right := Clean right in
  (left == right) || HasPrefix left (TrimSuffixSlash right +:+ "/") || HasPrefix right (TrimSuffixSlash left +:+ "/").

(** [None] is the panic of dereferencing a nil [Unit]. *)
Definition independentPair (target peer : Allocation) : option Check :=
  if Allocation.Policy target != FixedBlock
  then Some (failed "CapacityIsolationRequired" "multiple approved Pools on one node require capacityPolicy FixedBlock")
  else if PathsOverlap (Allocation.MountPath target) (Allocation.MountPath peer)
  then Some (failed "CapacityPathsOverlap" "Pool paths overlap or are nested")
  else if (Allocation.Policy peer != FixedBlock) || negb (Check.Known (Allocation.Evidence peer)) ||
          negb (Check.OK (Allocation.Evidence peer)) || negb (is_ok (Unit.Validate (Allocation.Unit peer)))
  then Some (failed "CapacityPeerUnproven" "a peer has no current fixed capacity evidence")
  else match Allocation.Unit target, Allocation.Unit peer with
       | Some target_unit, Some peer_unit =>
           match Overlap (Unit.Extents target_unit) (Unit.Extents peer_unit) with
           | Ok false => Some verified
           | _ => Some (failed "CapacityBackingOverlap" "Pools have overlapping or unproven backing allocations")
           end
       | _, _ => None
       end.

(** The loop over the peers. *)
Fixpoint independent_of (target : Allocation) (allocations : list Allocation) : option Check :=
  match allocations with
  | [] => Some verified
  | peer :: rest =>
      if (Allocation.NodeName peer != Allocation.NodeName target) ||
         (Allocation.UID peer == Allocation.UID target) ||
         (Allocation.Approved target && negb (Allocation.Approved peer))
      then independent_of target rest
      else if Allocation.Retired peer then
        if PathsOverlap (Allocation.MountPath target) (Allocation.MountPath peer)
        then Some (failed "CapacityPathsOverlap" "retired Pool paths remain reserved until physical identity release")
        else independent_of target rest
      else match independentPair target peer with
           | None => None
           | Some check => if negb (Check.OK check) then Some check else independent_of target rest
           end
  end.

Definition Independent (target : Allocation) (allocations : list Allocation) : option Check :=
  if Allocation.Retired target && negb (Allocation.Deleting target)
  then Some (failed "PoolRegistrationRetired" "Pool registration no longer participates in allocation")
  else if (Allocation.Policy target != "") && (Allocation.Policy target != FixedBlock)
  then Some (failed "CapacityPolicyInvalid" "unsupported capacity policy")
  else if (Allocation.Policy target == FixedBlock) &&
          (negb (Check.Known (Allocation.Evidence target)) || negb (Check.OK (Allocation.Evidence target)) ||
           negb (is_ok (Unit.Validate (Allocation.Unit target))))
  then if (Check.Reason (Allocation.Evidence target) != "") && negb (Check.OK (Allocation.Evidence target))
       then Some (Allocation.Evidence target)
       else Some (failed "CapacityIsolationUnproven" "fixed capacity evidence is missing or invalid")
  else if Allocation.Deleting target then Some verified
  else independent_of target allocations.

(** ** Paths *)

(** One path is an ancestor of the other, or they are equal. *)
Definition nested (left right : string) : Prop :=
  clean_components true left `prefix_of` clean_components true right \/
  clean_components true right `prefix_of` clean_components true left.

(** The prefix test of [PathsOverlap] on cleaned paths. *)
Lemma prefix_test (l r : string) :
  IsAbs l = true -> IsAbs r = true ->
  HasPrefix (Clean l) (TrimSuffixSlash (Clean r) +:+ "/") = true ->
  clean_components true r `prefix_of` clean_components true l.
Proof.
  intros Hl Hr. rewrite !Clean_abs by done.
  pose proof (canonical_proper _ (clean_components_canonical l)) as Pl.
  pose proof (canonical_proper _ (clean_components_canonical r)) as Pr.
  destruct (clean_components true r) as [|d ds]; [intros _; apply prefix_nil|].
  rewrite TrimSuffixSlash_body by done.
  destruct (clean_components true l) as [|c cs].
  - intros H. apply HasPrefix_spec in H as [s H]. exfalso. inversion Pr as [|? ? [Hd _]]; simplify_eq.
    cbn [body] in H. destruct d; [done|]. discriminate H.
  - rewrite body_prefix_iff by done. intros (c' & rest & E). exists (c' :: rest). exact E.
Qed.

Lemma prefix_test_complete (l r : string) :
  IsAbs l = true -> IsAbs r = true -> clean_components true r `prefix_of` clean_components true l ->
  Clean l = Clean r \/ HasPrefix (Clean l) (TrimSuffixSlash (Clean r) +:+ "/") = true.
Proof.
  intros Hl Hr [rest E].
  pose proof (canonical_proper _ (clean_components_canonical l)) as Pl.
  pose proof (canonical_proper _ (clean_components_canonical r)) as Pr.
  destruct rest as [|c rest]; [left; rewrite Clean_abs_inj by done; by rewrite E, app_nil_r|]. right.
  rewrite !Clean_abs by done. destruct (clean_components true r) as [|d ds] eqn:Er.
  - rewrite E. apply HasPrefix_spec. by exists (c +:+ body rest).
  - rewrite TrimSuffixSlash_body by done. rewrite E in Pl |- *.
    change (HasPrefix (body (d :: ds ++ c :: rest)) (body (d :: ds) +:+ "/") = true).
    apply body_prefix_iff; [done..|]. by exists c, rest.
Qed.

Lemma PathsOverlap_nested_iff (l r : string) :
  IsAbs l = true -> IsAbs r = true -> PathsOverlap l r = true <-> nested l r.
Proof.
  intros Hl Hr. unfold PathsOverlap, nested. rewrite !orb_true_iff, bool_decide_eq_true. split.
  - intros [[E|H]|H].
    + left. apply Clean_abs_inj in E as ->; done.
    + right. by apply prefix_test.
    + left. by apply prefix_test.
  - intros [H|H].
    + destruct (prefix_test_complete r l Hr Hl H); [left; left; done|by right].
    + destruct (prefix_test_complete l r Hl Hr H); [left; left; done|left; by right].
Qed.

(** On absolute paths the textual test of [PathsOverlap] is path nesting:
    it answers true exactly when the cleaned component list of one path is a
    prefix of the other's, so siblings with a common name prefix do not overlap
    and the root overlaps with everything. *)
Theorem PathsOverlap_is_nesting (left right : string) :
  IsAbs left = true -> IsAbs right = true -> PathsOverlap left right = true <-> nested left right.
Proof. apply PathsOverlap_nested_iff. Qed.

Lemma PathsOverlap_is_nesting_witness :
  PathsOverlap "/data//pool" "/data/pool-b/../pool/x" = true /\ nested "/data//pool" "/data/pool-b/../pool/x".
Proof.
  assert (PathsOverlap "/data//pool" "/data/pool-b/../pool/x" = true) as E by (vm_compute; reflexivity).
  split; [exact E|]. apply PathsOverlap_is_nesting; [reflexivity..|exact E].
Defined.

(** ** Independence *)

Lemma Validate_unit_inv (u : option CapacityUnit) :
  Unit.Validate u = Ok tt -> exists v, u = Some v /\ Normalize (Unit.Extents v) = Ok (Unit.Extents v).
Proof.
  destruct u as [v|]; simpl; [|done]. intros H. exists v. split; [done|]. go_inv. by f_equal.
Qed.

(** The extents of a unit are [uint64] pairs. *)
Definition unit_u64 (a : Allocation) : Prop :=
  forall u, Allocation.Unit a = Some u -> Forall extent_u64 (Unit.Extents u).

(** What a passing decision establishes of a pair of live Pools. *)
Definition isolated (target peer : Allocation) : Prop :=
  exists tu pu, Allocation.Unit target = Some tu /\ Allocation.Unit peer = Some pu /\
    well_formed (Unit.Extents tu) /\ well_formed (Unit.Extents pu) /\
    (forall d s, covers (Unit.Extents tu) d s -> covers (Unit.Extents pu) d s -> False).

Lemma independentPair_spec (target peer : Allocation) :
  unit_u64 target -> unit_u64 peer ->
  (Allocation.Policy target = FixedBlock -> Unit.Validate (Allocation.Unit target) = Ok tt) ->
  exists check, independentPair target peer = Some check /\
    (Check.OK check = true ->
       PathsOverlap (Allocation.MountPath target) (Allocation.MountPath peer) = false /\ isolated target peer).
Proof.
  intros Ht Hp Hv. unfold independentPair.
  destruct (bool_decide_reflect (Allocation.Policy target = FixedBlock)) as [Hpol|_]; simpl; [|by eexists].
  destruct (PathsOverlap _ _) eqn:Epath; [by eexists|].
  destruct (Validate_unit_inv _ (Hv Hpol)) as (tu & Etu & Hnt). rewrite Etu.
  destruct (negb (Allocation.Policy peer == FixedBlock) || _ || _ || _) eqn:E; [by eexists|].
  go_inv. rename select (Unit.Validate _ = Ok tt) into Hvp.
  destruct (Validate_unit_inv _ Hvp) as (pu & Epu & Hnp). rewrite Epu.
  specialize (Ht tu Etu). specialize (Hp pu Epu).
  pose proof (Overlap_sectors (Unit.Extents tu) (Unit.Extents pu) Ht Hp) as Hover.
  destruct (Overlap _ _) as [[]|]; [by eexists| |by eexists]. eexists. split; [done|]. intros _.
  split; [done|]. destruct Hover as (Hwt & Hwp & Hiff). exists tu, pu. split_and!; try done.
  intros d s Hcov1 Hcov2. assert (false = true) by (apply Hiff; eauto). done.
Qed.

(** The peers [Independent] compares [target] with. *)
Definition concerns (target peer : Allocation) : Prop :=
  Allocation.NodeName peer = Allocation.NodeName target /\ Allocation.UID peer <> Allocation.UID target /\
  (Allocation.Approved target = true -> Allocation.Approved peer = true).

Lemma independent_of_spec (target : Allocation) (allocations : list Allocation) :
  unit_u64 target -> Forall unit_u64 allocations ->
  (Allocation.Policy target = FixedBlock -> Unit.Validate (Allocation.Unit target) = Ok tt) ->
  exists check, independent_of target allocations = Some check /\
    (Check.OK check = true ->
       Forall (fun peer => concerns target peer ->
         PathsOverlap (Allocation.MountPath target) (Allocation.MountPath peer) = false /\
         (Allocation.Retired peer = false -> isolated target peer)) allocations).
Proof.
  intros Ht Hall Hv. induction Hall as [|peer rest Hp Hrest IH]; simpl; [by eexists|].
  destruct IH as (check & Erest & Hrest').
  destruct ((Allocation.NodeName peer != _) || _ || _) eqn:Eskip.
  { exists check. split; [done|]. intros Hok. constructor; [|by apply Hrest']. unfold concerns.
    intros (Hn & Hu & Ha). rewrite bool_decide_eq_true_2, bool_decide_eq_false_2 in Eskip by done.
    apply andb_true_iff in Eskip as [E1 E2]. rewrite (Ha E1) in E2. done. }
  destruct (Allocation.Retired peer) eqn:Eret.
  - destruct (PathsOverlap _ _) eqn:Epath; [by eexists|]. exists check. split; [done|]. intros Hok.
    constructor; [|by apply Hrest']. intros _. split; [done|]. congruence.
  - destruct (independentPair_spec target peer Ht Hp Hv) as (pair & -> & Hpair).
    destruct (Check.OK pair) eqn:Eok; simpl; [|eexists; split; [done|congruence]].
    exists check. split; [done|]. intros Hok. constructor; [|by apply Hrest']. intros _.
    destruct (Hpair eq_refl). auto.
Qed.

Lemma Independent_spec (target : Allocation) (allocations : list Allocation) :
  unit_u64 target -> Forall unit_u64 allocations ->
  exists check, Independent target allocations = Some check /\
    (Check.OK check = true -> Allocation.Deleting target = false ->
       Allocation.Retired target = false /\
       forall peer, peer ∈ allocations -> concerns target peer ->
         PathsOverlap (Allocation.MountPath target) (Allocation.MountPath peer) = false /\
         (Allocation.Retired peer = false -> isolated target peer)).
Proof.
  intros Ht Hall. unfold Independent.
  destruct (Allocation.Retired target && negb (Allocation.Deleting target)) eqn:E1; [by eexists|].
  destruct ((Allocation.Policy target != "") && _) eqn:E2; [by eexists|].
  destruct ((Allocation.Policy target == FixedBlock) && _) eqn:E3.
  { destruct ((Check.Reason (Allocation.Evidence target) != "") && _) eqn:E4; [|by eexists]. eexists. split; [done|].
    apply andb_true_iff in E4 as [_ E4]. intros Hok. by rewrite Hok in E4. }
  destruct (Allocation.Deleting target) eqn:Edel; [by eexists|].
  rewrite andb_true_r in E1.
  destruct (independent_of_spec target allocations Ht Hall) as (check & Echeck & Hcheck).
  { intros Hpol. rewrite bool_decide_eq_true_2 in E3 by done. simpl in E3. by go_inv. }
  exists check. split; [done|]. intros Hok _. split; [done|]. intros peer Hin. specialize (Hcheck Hok).
  rewrite Forall_forall in Hcheck. by apply Hcheck.
Qed.

(** [Independent] always returns a decision (no nil evidence is ever
    dereferenced), and a passing decision for a Pool that is not being deleted
    means real isolation: no peer of the node that counts (an unapproved peer
    cannot block an approved Pool) has an overlapping path, retired or not, and
    no sector of the target's backing belongs to a live peer.  A Pool without
    the FixedBlock policy passes only when no live peer counts. *)
Theorem Independent_isolates (target : Allocation) (allocations : list Allocation) :
  unit_u64 target -> Forall unit_u64 allocations ->
  exists check, Independent target allocations = Some check /\
    (Check.OK check = true -> Allocation.Deleting target = false ->
       Allocation.Retired target = false /\
       forall peer, peer ∈ allocations -> concerns target peer ->
         PathsOverlap (Allocation.MountPath target) (Allocation.MountPath peer) = false /\
         (Allocation.Retired peer = false -> isolated target peer)).
Proof. apply Independent_spec. Qed.

Definition sample_pool (uid path : string) (first : Z) : Allocation :=
  {| Allocation.UID := uid; Allocation.NodeName := "node-a"; Allocation.MountPath := path;
     Allocation.Policy := FixedBlock; Allocation.Approved := true; Allocation.Deleting := false;
     Allocation.Retired := false;
     Allocation.Unit := Some {| Unit.Device := "253:0"; Unit.Source := "/dev/vg/a"; Unit.Filesystem := "xfs";
                                Unit.Extents := [{| Device := "8:0"; Start := first; Sectors := 64 |}] |};
     Allocation.Evidence := verified |}.

Lemma Independent_isolates_witness :
  Independent (sample_pool "a" "/pools/a" 0) [sample_pool "a" "/pools/a" 0; sample_pool "b" "/pools/b" 64] = Some verified /\
  isolated (sample_pool "a" "/pools/a" 0) (sample_pool "b" "/pools/b" 64).
Proof.
  set (a := sample_pool "a" "/pools/a" 0). set (b := sample_pool "b" "/pools/b" 64).
  assert (Independent a [a; b] = Some verified) as E by (vm_compute; reflexivity). split; [exact E|].
  assert (unit_u64 a /\ unit_u64 b) as [Ha Hb].
  { split; intros u Hu; injection Hu as <-; repeat constructor; unfold MaxUint64; simpl; lia. }
  assert (Forall unit_u64 [a; b]) as Hall by (constructor; [exact Ha|constructor; [exact Hb|constructor]]).
  destruct (Independent_isolates a [a; b] Ha Hall) as (check & Echeck & H).
  rewrite E in Echeck. injection Echeck as <-. destruct (H eq_refl eq_refl) as [_ Hpeers].
  apply (Hpeers b); [apply elem_of_cons; right; apply list_elem_of_here| |reflexivity].
  split; [reflexivity|]. split; [discriminate|reflexivity].
Defined.
