(* ===== verification/GoTime.v ===== *)
(** * Timestamps

    [time.Parse(time.RFC3339Nano, s)] of the Go standard library, as used for the
    observation times of receipts.  The layout is
    2006-01-02T15:04:05.999999999Z07:00; as in Go, the hour may have one digit,
    the fraction may be written with a comma and may have any number of digits
    (nanoseconds are kept), and an offset is [Z] or [+hh:mm]/[-hh:mm]. *)

From S2P Require Import Prelude Bytes.
From Stdlib Require Import Ascii.

Definition digit (c : ascii) : option Z :=
  let n := N_of_ascii c in
  if ((48 <=? n) && (n <=? 57))%N then Some (Z.of_N n - 48)%Z else None.

(** [n] decimal digits. *)
Fixpoint digits (n : nat) (acc : Z) (s : string) : option (Z * string) :=
  match n with
  | O => Some (acc, s)
  | S n => match s with
           | EmptyString => None
           | String c s => d ← digit c; digits n (10 * acc + d)%Z s
           end
  end.

(** Two digits, or one when [fixed] is not required. *)
Definition getnum (fixed : bool) (s : string) : option (Z * string) :=
  match digits 2 0 s with
  | Some r => Some r
  | None => if fixed then None else digits 1 0 s
  end.

Definition literal (c : ascii) (s : string) : option string :=
  match s with
  | String d s => if ascii_eqb c d then Some s else None
  | EmptyString => None
  end.

Definition leap (year : Z) : bool :=
  ((year mod 4 =? 0) && (negb (year mod 100 =? 0) || (year mod 400 =? 0)))%Z.

Definition daysIn (month year : Z) : Z :=
  (if month =? 2 then (if leap year then 29 else 28)
   else if (month =? 4) || (month =? 6) || (month =? 9) || (month =? 11) then 30 else 31)%Z.

(** Days from 1970-01-01 in the proleptic Gregorian calendar. *)
Definition days_before_year (year : Z) : Z :=
  let y := (year - 1)%Z in (365 * y + y / 4 - y / 100 + y / 400)%Z.

Definition days_before_month (month year : Z) : Z :=
  foldr Z.add 0%Z (map (fun m => daysIn m year) (take (Z.to_nat (month - 1)) [1;2;3;4;5;6;7;8;9;10;11]%Z)).

Definition unix_day (year month day : Z) : Z :=
  (days_before_year year - days_before_year 1970 + days_before_month month year + (day - 1))%Z.

(** Fractional digits: nanoseconds of the first nine, all of them consumed. *)
Fixpoint fraction (scale acc : Z) (s : string) : Z * string :=
  match s with
  | String c rest => match digit c with
                     | Some d => fraction (scale / 10) (acc + scale * d) rest
                     | None => (acc, s)
                     end
  | EmptyString => (acc, s)
  end.

Definition parse_fraction (s : string) : Z * string :=
  match s with
  | String point (String c _ as rest) =>
      if (ascii_eqb point "."%char || ascii_eqb point ","%char) && negb (is_nil (digit c))
      then fraction 100000000 0 rest else (0%Z, s)
  | _ => (0%Z, s)
  end.

(** Offset in seconds. *)
Definition parse_zone (s : string) : option (Z * string) :=
  match s with
  | String "Z" rest => Some (0%Z, rest)
  | String sign rest =>
      '(hours, rest) ← digits 2 0 rest;
      rest ← literal ":" rest;
      '(minutes, rest) ← digits 2 0 rest;
      if ((24 <? hours) || (60 <? minutes))%Z then None
      else if ascii_eqb sign "+" then Some ((hours * 60 + minutes) * 60, rest)%Z
      else if ascii_eqb sign "-" then Some (- ((hours * 60 + minutes) * 60), rest)%Z
      else None
  | EmptyString => None
  end.

(** Nanoseconds since the Unix epoch. *)
Definition parse_rfc3339 (s : string) : option Z :=
  '(year, s) ← digits 4 0 s;
  s ← literal "-" s;
  '(month, s) ← getnum true s;
  s ← literal "-" s;
  '(day, s) ← getnum true s;
  s ← literal "T" s;
  '(hour, s) ← getnum false s;
  s ← literal ":" s;
  '(minute, s) ← getnum true s;
  s ← literal ":" s;
  '(second, s) ← getnum true s;
  let '(nanos, s) := parse_fraction s in
  '(offset, s) ← parse_zone s;
  if (s != "") || (month <? 1)%Z || (12 <? month)%Z || (day <? 1)%Z || (daysIn month year <? day)%Z ||
     (23 <? hour)%Z || (59 <? minute)%Z || (59 <? second)%Z
  then None
  else Some ((((unix_day year month day * 24 + hour) * 60 + minute) * 60 + second - offset) * 1000000000 + nanos)%Z.

Definition Parse (s : string) : result Z :=
  match parse_rfc3339 s with
  | Some t => Ok t
  | None => Err (Errorf "parsing time")
  end.

(** Reference instants. *)
Example parse_epoch : Parse "1970-01-01T00:00:00Z" = Ok 0%Z.
Proof. vm_compute. reflexivity. Qed.

Example parse_offset : Parse "2026-03-01T09:30:00.5+09:00" = Ok 1772325000500000000%Z.
Proof. vm_compute. reflexivity. Qed.

Example parse_leap_day : is_ok (Parse "2024-02-29T00:00:00Z") = true /\ is_ok (Parse "2023-02-29T00:00:00Z") = false.
Proof. vm_compute. split; reflexivity. Qed.

#[global] Arguments Parse : simpl never.
