(* ===== verification/ApiServer.v ===== *)
(** * The API server and the compare-and-set loop

    src/kubernetes/volumeapi/registry.go: every durable change of a ShiftPV
    object is one iteration of [mutateObject] or [updateObjectFinalizer], a loop
    of read, check, change and conditional write.  The API server is not part of
    the repository: what the loops rely on is the class [ApiClient], whose laws
    are the documented optimistic concurrency of the Kubernetes API.  [ObjectStore]
    is an instance, used to run the code on concrete inputs. *)

From S2P Require Import Prelude.
From stdpp Require Import relations pretty.

Definition ErrStateConflict : error := Errorf "ShiftPV state precondition failed".
Definition errObjectUnchanged : error := Errorf "object already holds the desired value".

(** ** Objects *)

Module Metadata.
Record Metadata := {
  Name : string;
  UID : string;
  ResourceVersion : string;
  Generation : Z;
  Finalizers : list string;
  (** nil, or the instant in nanoseconds *)
  DeletionTimestamp : option Z;
  Annotations : gmap string string
}.

#[export] Instance Metadata_eq_dec : EqDecision Metadata.
Proof. solve_decision. Defined.

Definition set_Finalizers (m : Metadata) (finalizers : list string) : Metadata :=
  {| Name := Name m; UID := UID m; ResourceVersion := ResourceVersion m; Generation := Generation m;
     Finalizers := finalizers; DeletionTimestamp := DeletionTimestamp m; Annotations := Annotations m |}.

Definition set_ResourceVersion (m : Metadata) (rv : string) : Metadata :=
  {| Name := Name m; UID := UID m; ResourceVersion := rv; Generation := Generation m;
     Finalizers := Finalizers m; DeletionTimestamp := DeletionTimestamp m; Annotations := Annotations m |}.
End Metadata.
Notation Metadata := Metadata.Metadata.
#[export] Existing Instance Metadata.Metadata_eq_dec.

(** A structured field as the API server returns it. *)
Inductive field (A : Type) : Type :=
| Absent
| Malformed
| Present (value : A).
Arguments Absent {A}.
Arguments Malformed {A}.
Arguments Present {A} value.

Definition decode {A : Type} (f : field A) (message : string) : result (option A) :=
  match f with
  | Absent => Ok None
  | Malformed => Err (Errorf message)
  | Present value => Ok (Some value)
  end.

Definition encode {A : Type} (value : option A) : field A :=
  match value with None => Absent | Some value => Present value end.

Lemma decode_encode {A : Type} (value : option A) (message : string) : decode (encode value) message = Ok value.
Proof. by destruct value. Qed.

(** What the loops need to know of an object type: its metadata, and what the
    server keeps of the stored object [current] when [submitted] is written
    through the status subresource ([persist true]) or the object itself
    ([persist false]).  [None] is the removal of an object whose deletion was
    requested and whose last finalizer went away. *)
Class ApiObject (Obj : Type) := {
  meta : Obj -> Metadata;
  with_finalizers : Obj -> list string -> Obj;
  with_resourceVersion : Obj -> string -> Obj;
  persist : bool -> Obj -> Obj -> option Obj;
  meta_with_resourceVersion o rv : meta (with_resourceVersion o rv) = Metadata.set_ResourceVersion (meta o) rv;
  with_resourceVersion_twice o a b : with_resourceVersion (with_resourceVersion o a) b = with_resourceVersion o b;
  persist_name b current submitted o :
    persist b current submitted = Some o -> Metadata.Name (meta o) = Metadata.Name (meta current);
  meta_with_finalizers o fs : meta (with_finalizers o fs) = Metadata.set_Finalizers (meta o) fs
}.

(** [with_resourceVersion o rv] differs from [o] in nothing the program reads. *)
Definition same_content `{ApiObject Obj} (a b : Obj) : Prop := with_resourceVersion a "" = with_resourceVersion b "".

(** ** The client *)

Section client.
Context {W Obj : Type} `{ApiObject Obj}.

(** Repeated attempts: each but the last ended in a conflict, and other clients
    run in between. *)
Inductive attempts (env : relation W) (IsConflict : error -> bool) (attempt : W -> result unit * W) :
    W -> result unit -> W -> Prop :=
| attempt_last w r w' : attempt w = (r, w') -> attempts env IsConflict attempt w r w'
| attempt_again w e w1 w2 r w' :
    attempt w = (Err e, w1) -> IsConflict e = true -> rtc env w1 w2 ->
    attempts env IsConflict attempt w2 r w' -> attempts env IsConflict attempt w r w'.

(** [n] holds [o] in [w2], and every other object is as in [w1]. *)
Definition committed (stored : W -> string -> option Obj) (w1 w2 : W) (n : string) (o : option Obj) : Prop :=
  match o, stored w2 n with
  | None, None => True
  | Some o, Some o' => same_content o o'
  | _, _ => False
  end /\ forall n', n' <> n -> stored w2 n' = stored w1 n'.
End client.

(** The API client: a world [W] shared with other clients, whose steps are
    [env].  [Get] and [Write] may be preceded and followed by steps of other
    clients; a write takes effect only on the version that was read. *)
Class ApiClient (W Obj : Type) `{ApiObject Obj} := {
  stored : W -> string -> option Obj;
  env : relation W;
  IsNotFound : error -> bool;
  IsConflict : error -> bool;
  Get : string -> W -> result Obj * W;
  Write : bool -> Obj -> W -> result Obj * W;
  RetryOnConflict : (W -> result unit * W) -> W -> result unit * W;

  (** [errors.As] looks through wrapped errors; errors the program makes itself
      carry no API status. *)
  IsConflict_wrap e m : IsConflict (Wrapf [e] m) = IsConflict e;
  IsConflict_state : IsConflict ErrStateConflict = false;
  stored_name w n o : stored w n = Some o -> Metadata.Name (meta o) = n;
  Get_spec n w r w' : Get n w = (r, w') ->
    exists w1, rtc env w w1 /\ rtc env w1 w' /\
      match r with
      | Ok o => stored w1 n = Some o
      | Err e => IsNotFound e = true -> stored w1 n = None
      end;
  (** A version names one content of one object, for ever. *)
  resourceVersion_unique w w' n a b :
    rtc env w w' -> stored w n = Some a -> stored w' n = Some b ->
    Metadata.ResourceVersion (meta a) = Metadata.ResourceVersion (meta b) -> a = b;
  Write_Ok status o w o' w' : Write status o w = (Ok o', w') ->
    exists w1 w2 current, rtc env w w1 /\ rtc env w2 w' /\
      stored w1 (Metadata.Name (meta o)) = Some current /\
      Metadata.ResourceVersion (meta current) = Metadata.ResourceVersion (meta o) /\
      committed stored w1 w2 (Metadata.Name (meta o)) (persist status current o) /\
      (** the answer is the object as stored *)
      (forall next, persist status current o = Some next -> same_content o' next);
  Write_conflict status o w e w' : Write status o w = (Err e, w') -> IsConflict e = true -> rtc env w w';
  RetryOnConflict_spec attempt w r w' :
    RetryOnConflict attempt w = (r, w') -> attempts env IsConflict attempt w r w'
}.

(** ** The loops *)

Section loops.
Context {W Obj : Type} {AO : ApiObject Obj} {AC : ApiClient W Obj}.

Record objectMutation := {
  mut_name : string;
  (** empty when [mut_apply] enforces identity itself *)
  mut_uid : string;
  readError : string;
  writeError : string;
  (** write through the status subresource *)
  status_write : bool;
  mut_apply : Obj -> result Obj
}.

(** One iteration of the loop in [mutateObject]. *)
Definition mutate_attempt (mutation : objectMutation) (w : W) : result unit * W :=
  match Get (mut_name mutation) w with
  | (Err err, w) => (Err (Wrapf [err] (readError mutation)), w)
  | (Ok object, w) =>
      if (mut_uid mutation != "") && (Metadata.UID (meta object) != mut_uid mutation)
      then (Err (Wrapf [ErrStateConflict] "%w: %s %q UID changed from %q to %q"), w)
      else match mut_apply mutation object with
           | Err err => if error_is err errObjectUnchanged then (Ok tt, w) else (Err err, w)
           | Ok next =>
               match Write (status_write mutation) next w with
               | (Err err, w) => (Err (Wrapf [err] (writeError mutation)), w)
               | (Ok _, w) => (Ok tt, w)
               end
           end
  end.

Definition mutateObject (mutation : objectMutation) (w : W) : result unit * W :=
  RetryOnConflict (mutate_attempt mutation) w.

(** One iteration of the loop in [updateObjectFinalizer]. *)
Definition finalizer_attempt (n u finalizer : string) (present : bool) (w : W) : result unit * W :=
  match Get n w with
  | (Err err, w) =>
      if IsNotFound err && negb present then (Ok tt, w) else (Err (Wrapf [err] "read finalizer: %w"), w)
  | (Ok object, w) =>
      if Metadata.UID (meta object) != u
      then (Err (Wrapf [ErrStateConflict] "%w: object %q UID changed from %q to %q"), w)
      else
        let finalizers := Metadata.Finalizers (meta object) in
        let hasFinalizer := contains finalizers finalizer in
        if Bool.eqb present hasFinalizer then (Ok tt, w)
        else if present && negb (is_nil (Metadata.DeletionTimestamp (meta object)))
        then (Err (Wrapf [ErrStateConflict] "%w: object %q is already deleting without protection"), w)
        else
          let next := if present then finalizers ++ [finalizer]
                      else filter (fun current => current <> finalizer) finalizers in
          match Write false (with_finalizers object next) w with
          | (Err err, w) => (Err (Wrapf [err] "update finalizer: %w"), w)
          | (Ok _, w) => (Ok tt, w)
          end
  end.

Definition updateObjectFinalizer (n u finalizer : string) (present : bool) (w : W) : result unit * W :=
  if (n == "") || (u == "") then (Err (Errorf "object name and UID are required"), w)
  else RetryOnConflict (finalizer_attempt n u finalizer present) w.

(** [retry.RetryOnConflict(backoff, closure)] where the closure returns a value and
    keeps captured variables [C] between attempts; [steps] is the number of
    retries the backoff allows. *)
Fixpoint retry_closure {C A : Type} (steps : nat) (closure : C -> W -> C * result A * W) (captured : C) (w : W) :
    result A * W :=
  match closure captured w with
  | (captured, Err err, w) =>
      match steps with
      | S steps => if IsConflict err then retry_closure steps closure captured w else (Err err, w)
      | O => (Err err, w)
      end
  | (_, Ok value, w) => (Ok value, w)
  end.
End loops.
Arguments objectMutation : clear implicits.

(** ** Linearisation *)

Section linearisation.
Context {W Obj : Type} {AO : ApiObject Obj} {AC : ApiClient W Obj}.

(** A change that keeps the name and the version it was computed from. *)
Definition version_preserving (apply : Obj -> result Obj) : Prop :=
  forall o o', apply o = Ok o' ->
    Metadata.Name (meta o') = Metadata.Name (meta o) /\
    Metadata.ResourceVersion (meta o') = Metadata.ResourceVersion (meta o).

(** A read followed by a successful conditional write acts on one version: the
    object read is the object replaced. *)
Lemma read_write_atomic (n : string) (object next : Obj) (status : bool) (w w1 w2 w' : W) (written : Obj) :
  stored w1 n = Some object -> rtc env w1 w2 ->
  Metadata.Name (meta next) = Metadata.Name (meta object) ->
  Metadata.ResourceVersion (meta next) = Metadata.ResourceVersion (meta object) ->
  Write status next w2 = (Ok written, w') ->
  exists wa wb, rtc env w2 wa /\ rtc env wb w' /\ stored wa n = Some object /\
    committed stored wa wb n (persist status object next) /\
    (forall kept, persist status object next = Some kept -> same_content written kept).
Proof.
  intros Hst Henv Hname Hrv HW. pose proof (stored_name w1 n object Hst) as Hn.
  apply Write_Ok in HW as (wa & wb & current & Hwa & Hwb & Hcur & Hver & Hc & Hres).
  rewrite Hname, Hn in Hcur, Hc.
  assert (object = current) as <-.
  { apply (resourceVersion_unique w1 wa n); [by transitivity w2|done|done|congruence]. }
  by exists wa, wb.
Qed.

(** A closure that returned had, before its last attempt, only failed attempts that
    changed nothing. *)
Lemma retry_closure_Ok {C A : Type} (steps : nat) (closure : C -> W -> C * result A * W) (captured : C) (w w' : W) (a : A) :
  (forall c w c' e w', closure c w = (c', Err e, w') -> IsConflict e = true -> rtc env w w') ->
  retry_closure steps closure captured w = (Ok a, w') ->
  exists c w1 c', rtc env w w1 /\ closure c w1 = (c', Ok a, w').
Proof.
  intros Hconf. revert captured w. induction steps as [|steps IH]; intros captured w; simpl;
    destruct (closure captured w) as [[c' [v|e]] w1] eqn:E; intros Hr; [by simplify_eq; eauto using rtc_refl|done| |].
  - simplify_eq. eauto using rtc_refl.
  - destruct (IsConflict e) eqn:Ee; [|done]. destruct (IH _ _ Hr) as (c & w2 & c2 & Hw & Hc).
    exists c, w2, c2. split; [|done]. transitivity w1; [by eapply Hconf|done].
Qed.

(** The atomic effect of a successful mutation, between steps of others. *)
Definition linearized (mutation : objectMutation Obj) (w w' : W) : Prop :=
  exists wa object, rtc env w wa /\ stored wa (mut_name mutation) = Some object /\
    (mut_uid mutation <> "" -> Metadata.UID (meta object) = mut_uid mutation) /\
    ((exists err, mut_apply mutation object = Err err /\ error_is err errObjectUnchanged = true /\ rtc env wa w') \/
     (exists next wb, mut_apply mutation object = Ok next /\
        committed stored wa wb (mut_name mutation) (persist (status_write mutation) object next) /\ rtc env wb w')).

Lemma linearized_env (mutation : objectMutation Obj) (w w1 w' : W) :
  rtc env w w1 -> linearized mutation w1 w' -> linearized mutation w w'.
Proof. intros Henv (wa & object & Hwa & Hrest). exists wa, object. split; [by transitivity w1|done]. Qed.

Lemma mutate_attempt_Ok (mutation : objectMutation Obj) (w w' : W) :
  version_preserving (mut_apply mutation) -> mutate_attempt mutation w = (Ok tt, w') -> linearized mutation w w'.
Proof.
  intros Hv H'. unfold mutate_attempt in H'. destruct (Get (mut_name mutation) w) as [[object|e] w1] eqn:EG; [|done].
  apply Get_spec in EG as (w0 & Hw0 & Hw1 & Hst).
  destruct ((mut_uid mutation != "") && _) eqn:Eu; [done|].
  assert (mut_uid mutation <> "" -> Metadata.UID (meta object) = mut_uid mutation) as Huid.
  { intros Hne. rewrite bool_decide_eq_false_2 in Eu by done. simpl in Eu. by go_inv. }
  destruct (mut_apply mutation object) as [next|e] eqn:Ea.
  - destruct (Write _ next w1) as [[o|e] w2] eqn:EW; [|done]. injection H' as <-.
    destruct (Hv object next Ea) as [Hname Hrv].
    destruct (read_write_atomic _ object next _ w w0 w1 w2 o Hst Hw1 Hname Hrv EW) as (wa & wb & Ha & Hb & Hsa & Hc & _).
    exists wa, object. split; [rtc_chain|]. split; [done|]. split; [done|].
    right. by exists next, wb.
  - destruct (error_is e errObjectUnchanged) eqn:Ee; [|done]. injection H' as <-.
    exists w0, object. split; [done|]. split; [done|]. split; [done|]. left. by exists e.
Qed.

(** An attempt that ends in a conflict changed nothing. *)
Lemma mutate_attempt_conflict (mutation : objectMutation Obj) (w w' : W) (e : error) :
  mutate_attempt mutation w = (Err e, w') -> IsConflict e = true -> rtc env w w'.
Proof.
  intros H' He. unfold mutate_attempt in H'.
  destruct (Get (mut_name mutation) w) as [[object|e'] w1] eqn:EG;
    apply Get_spec in EG as (w0 & Hw0 & Hw1 & _); [|injection H' as <- <-; rtc_chain].
  destruct ((mut_uid mutation != "") && _); [injection H' as <- <-; rtc_chain|].
  destruct (mut_apply mutation object) as [next|e'].
  - destruct (Write _ next w1) as [[o|e'] w2] eqn:EW; [done|]. injection H' as <- <-.
    rewrite IsConflict_wrap in He. apply Write_conflict in EW; [|done].
    rtc_chain.
  - destruct (error_is e' errObjectUnchanged); [done|]. injection H' as <- <-. rtc_chain.
Qed.

Lemma attempts_Ok (mutation : objectMutation Obj) (w w' : W) (r : result unit) :
  version_preserving (mut_apply mutation) ->
  attempts env IsConflict (mutate_attempt mutation) w r w' -> r = Ok tt -> linearized mutation w w'.
Proof.
  intros Hv Hatt Hr. induction Hatt as [w r w' Ha|w e w1 w2 r w' Ha He Henv Hatt IH]; subst r.
  - by apply mutate_attempt_Ok.
  - apply (linearized_env _ w w2); [|by apply IH].
    transitivity w1; [by eapply mutate_attempt_conflict|done].
Qed.

Lemma attempts_conflict (mutation : objectMutation Obj) (w w' : W) (r : result unit) (e : error) :
  attempts env IsConflict (mutate_attempt mutation) w r w' -> r = Err e -> IsConflict e = true -> rtc env w w'.
Proof.
  intros Hatt Hr He. induction Hatt as [w r w' Ha|w e' w1 w2 r w' Ha He' Henv Hatt IH]; subst r.
  - by eapply mutate_attempt_conflict.
  - transitivity w1; [by eapply mutate_attempt_conflict|]. transitivity w2; [done|by apply IH].
Qed.

(** The atomic effect of a finalizer update. *)
Definition finalizer_linearized (n u finalizer : string) (present : bool) (w w' : W) : Prop :=
  exists wa, rtc env w wa /\
    ((present = false /\ stored wa n = None /\ rtc env wa w') \/
     exists object, stored wa n = Some object /\ Metadata.UID (meta object) = u /\
       let finalizers := Metadata.Finalizers (meta object) in
       ((contains finalizers finalizer = present /\ rtc env wa w') \/
        exists next wb, committed stored wa wb n (persist false object (with_finalizers object next)) /\
          rtc env wb w' /\ contains next finalizer = present /\
          (present = true -> Metadata.DeletionTimestamp (meta object) = None) /\
          (forall other, other <> finalizer -> other ∈ next <-> other ∈ finalizers))).

Lemma next_finalizers (finalizers : list string) (finalizer : string) (present : bool) :
  let next := if present then finalizers ++ [finalizer]
              else filter (fun current => current <> finalizer) finalizers in
  contains next finalizer = present /\ forall other, other <> finalizer -> other ∈ next <-> other ∈ finalizers.
Proof.
  destruct present; simpl.
  - rewrite contains_true. setoid_rewrite elem_of_app. setoid_rewrite list_elem_of_singleton. naive_solver.
  - rewrite contains_false. setoid_rewrite list_elem_of_filter. naive_solver.
Qed.

Lemma finalizer_attempt_Ok (n u finalizer : string) (present : bool) (w w' : W) :
  finalizer_attempt n u finalizer present w = (Ok tt, w') -> finalizer_linearized n u finalizer present w w'.
Proof.
  intros H'. unfold finalizer_attempt in H'. destruct (Get n w) as [[object|e] w1] eqn:EG;
    apply Get_spec in EG as (w0 & Hw0 & Hw1 & Hst).
  2:{ destruct (IsNotFound e) eqn:En; [|done]. destruct present; [done|]. injection H' as <-.
      exists w0. split; [done|]. left. auto. }
  destruct (Metadata.UID (meta object) != u) eqn:Eu; [done|]. go_inv.
  destruct (Bool.eqb present _) eqn:Ep.
  { injection H' as <-. exists w0. split; [done|]. right. exists object. apply Bool.eqb_prop in Ep. auto. }
  destruct (present && _) eqn:Ed; [done|].
  set (next := if present then _ else _) in H'.
  destruct (next_finalizers (Metadata.Finalizers (meta object)) finalizer present) as [Hc Ho]. fold next in Hc, Ho.
  destruct (Write false _ w1) as [[o|e] w2] eqn:EW; [|done]. injection H' as <-.
  eapply (read_write_atomic n object _ _ w w0) in EW as (wa & wb & Ha & Hb & Hsa & Hcom & _);
    [|done|done|by rewrite meta_with_finalizers|by rewrite meta_with_finalizers].
  exists wa. split; [rtc_chain|]. right. exists object. split_and!; [done..|].
  right. exists next, wb. split_and!; try done. intros ->. apply negb_false_iff in Ed. by go_inv.
Qed.

Lemma finalizer_attempt_conflict (n u finalizer : string) (present : bool) (w w' : W) (e : error) :
  finalizer_attempt n u finalizer present w = (Err e, w') -> IsConflict e = true -> rtc env w w'.
Proof.
  intros H' He. unfold finalizer_attempt in H'.
  destruct (Get n w) as [[object|e'] w1] eqn:EG; apply Get_spec in EG as (w0 & Hw0 & Hw1 & _);
    assert (rtc env w w1) as Hw by (by transitivity w0).
  2:{ destruct (IsNotFound e' && negb present); by simplify_eq. }
  destruct (Metadata.UID (meta object) != u); [by simplify_eq|].
  destruct (Bool.eqb present _); [done|]. destruct (present && _); [by simplify_eq|].
  destruct (Write false _ w1) as [[o|e'] w2] eqn:EW; [done|]. injection H' as <- <-.
  rewrite IsConflict_wrap in He. apply Write_conflict in EW; [|done]. by transitivity w1.
Qed.

(** [updateObjectFinalizer] is linearizable.  A successful call with the
    object's UID means that at one instant the finalizer was present (or absent)
    as asked, either already, or by one atomic write that leaves every other
    finalizer as it was and never adds protection to an object that is already
    being deleted; removing may also find the object gone. *)
Theorem updateObjectFinalizer_linearizable (n u finalizer : string) (present : bool) (w w' : W) :
  updateObjectFinalizer n u finalizer present w = (Ok tt, w') ->
  n <> "" /\ u <> "" /\ finalizer_linearized n u finalizer present w w'.
Proof.
  unfold updateObjectFinalizer. intros Hr. destruct ((n == "") || (u == "")) eqn:E; [done|]. go_inv.
  split; [done|]. split; [done|]. apply RetryOnConflict_spec in Hr.
  remember (Ok tt) as r eqn:Er. induction Hr as [w r w' Ha|w e w1 w2 r w' Ha He Henv Hatt IH]; subst r.
  - by apply finalizer_attempt_Ok.
  - destruct (IH eq_refl) as (wa & Hwa & Hrest). exists wa. split; [|done].
    transitivity w1; [by eapply finalizer_attempt_conflict|]. by transitivity w2.
Qed.

Lemma mutateObject_linearizable_spec (mutation : objectMutation Obj) (w w' : W) :
  version_preserving (mut_apply mutation) ->
  (mutateObject mutation w = (Ok tt, w') -> linearized mutation w w') /\
  (forall e, mutateObject mutation w = (Err e, w') -> IsConflict e = true -> rtc env w w').
Proof.
  intros Hv. unfold mutateObject. split.
  - intros Hr%RetryOnConflict_spec. by eapply attempts_Ok.
  - intros e Hr%RetryOnConflict_spec He. by eapply attempts_conflict.
Qed.

(** C3: [mutateObject] is linearizable.  Whatever other clients do between its
    reads, its failed writes and its retries, a call that reports success took
    effect exactly once, atomically: at one instant the stored object had the
    expected identity, [mut_apply] accepted that very object, and the write replaced
    it by the result (or [mut_apply] found nothing to change); before and after there
    are only steps of other clients.  A call that reports a conflict changed
    nothing. *)
Theorem mutateObject_linearizable (mutation : objectMutation Obj) (w w' : W) :
  version_preserving (mut_apply mutation) ->
  (mutateObject mutation w = (Ok tt, w') -> linearized mutation w w') /\
  (forall e, mutateObject mutation w = (Err e, w') -> IsConflict e = true -> rtc env w w').
Proof. apply mutateObject_linearizable_spec. Qed.
End linearisation.

(** ** An instance

    A store with one revision counter, and a queue of writes other clients will
    make, one of them right before each of ours. *)
Module ObjectStore.
Section store.
(** [allowed]: what the other clients may write. *)
Context {Obj : Type} `{ApiObject Obj} (allowed : Obj -> bool).

Record Store := {
  objects : gmap string (N * Obj);
  revision : N;
  queue : list (string * Obj)
}.

Definition stored (w : Store) (n : string) : option Obj :=
  match objects w !! n with
  | Some (k, o) => if Metadata.Name (meta o) == n then Some (with_resourceVersion o (pretty k)) else None
  | None => None
  end.

(** Every stored version is at most the counter. *)
Definition fresh (w : Store) : Prop := map_Forall (fun _ e => (fst e <= revision w)%N) (objects w).

#[local] Instance fresh_dec (w : Store) : Decision (fresh w).
Proof. unfold fresh. apply _. Defined.

Definition put (w : Store) (n : string) (o : Obj) (rest : list (string * Obj)) : Store :=
  {| objects := <[n := (revision w + 1, o)]> (objects w); revision := revision w + 1; queue := rest |}%N.

(** The next queued write of another client. *)
Definition interfere (w : Store) : option Store :=
  match queue w with
  | [] => None
  | (n, o) :: rest => if bool_decide (fresh w) && allowed o then Some (put w n o rest) else None
  end.

Definition env (w w' : Store) : Prop := interfere w = Some w'.

Definition conflict : error := Errorf "the object has been modified".
Definition notFound : error := Errorf "not found".

Definition Get (n : string) (w : Store) : result Obj * Store :=
  match stored w n with Some o => (Ok o, w) | None => (Err notFound, w) end.

Definition Write (status : bool) (o : Obj) (w : Store) : result Obj * Store :=
  let w := default w (interfere w) in
  let n := Metadata.Name (meta o) in
  match stored w n with
  | None => (Err notFound, w)
  | Some current =>
      if Metadata.ResourceVersion (meta current) != Metadata.ResourceVersion (meta o) then (Err conflict, w)
      else match persist status current o with
           | Some next => (Ok next, put w n next (queue w))
           | None => (Ok o, {| objects := delete n (objects w); revision := revision w; queue := queue w |})
           end
  end.

Fixpoint retry (steps : nat) (attempt : Store -> result unit * Store) (w : Store) : result unit * Store :=
  match attempt w with
  | (Err e, w') => match steps with
                   | S steps => if error_is e conflict then retry steps attempt w' else (Err e, w')
                   | O => (Err e, w')
                   end
  | r => r
  end.

Lemma interfere_rtc (w : Store) : rtc env w (default w (interfere w)).
Proof. destruct (interfere w) eqn:E; simpl; [by apply rtc_once|apply rtc_refl]. Qed.

Lemma stored_Name (w : Store) (n : string) (o : Obj) : stored w n = Some o -> Metadata.Name (meta o) = n.
Proof.
  unfold stored. destruct (objects w !! n) as [[k o']|]; [|done]. case_bool_decide; [|done].
  intros. simplify_eq. by rewrite meta_with_resourceVersion.
Qed.

Lemma put_other (w : Store) (n n' : string) (o : Obj) (rest : list (string * Obj)) :
  n' <> n -> stored (put w n o rest) n' = stored w n'.
Proof. intros Hn. unfold stored, put. simpl. by rewrite lookup_insert_ne. Qed.

(** Versions only grow. *)
Lemma env_versions (w w' : Store) :
  rtc env w w' -> w = w' \/ (fresh w /\ fresh w' /\ (revision w <= revision w')%N /\
    forall n e, objects w' !! n = Some e -> objects w !! n = Some e \/ (revision w < fst e)%N).
Proof.
  induction 1 as [w|w w1 w' Hstep _ IH]; [by left|]. right.
  unfold env, interfere in Hstep. destruct (queue w) as [|[n o] rest]; [done|]. case_bool_decide as Hf; [|done].
  destruct (allowed o); [|done]. injection Hstep as <-.
  assert (fresh (put w n o rest)) as Hf1.
  { intros n' e. simpl. rewrite lookup_insert_Some. intros [[_ <-]|[_ He]]; simpl; [lia|].
    specialize (Hf n' e He). simpl in Hf. lia. }
  assert (forall n' e, objects (put w n o rest) !! n' = Some e -> objects w !! n' = Some e \/ (revision w < fst e)%N) as Hold.
  { intros n' e. simpl. rewrite lookup_insert_Some. intros [[_ <-]|[_ He]]; simpl; [right; lia|by left]. }
  destruct IH as [<-|(_ & Hf' & Hrev & Hent)]; [split_and!; try done; simpl; lia|].
  simpl in Hrev. split_and!; [done|done|lia|]. intros n' e He.
  destruct (Hent n' e He) as [H1|H1]; [by apply Hold|right; simpl in H1; lia].
Qed.

Lemma version_unique (w w' : Store) (n : string) (a b : Obj) :
  rtc env w w' -> stored w n = Some a -> stored w' n = Some b ->
  Metadata.ResourceVersion (meta a) = Metadata.ResourceVersion (meta b) -> a = b.
Proof.
  intros [->|(Hf & _ & _ & Hent)]%env_versions Ha Hb Hrv; [congruence|]. unfold stored in Ha, Hb.
  destruct (objects w !! n) as [[k o]|] eqn:Ew; [|done].
  destruct (objects w' !! n) as [[k' o']|] eqn:Ew'; [|done].
  repeat case_bool_decide; simplify_eq. rewrite !meta_with_resourceVersion in Hrv. simpl in Hrv.
  apply (inj pretty) in Hrv as <-. destruct (Hent _ _ Ew') as [He|He]; [congruence|].
  specialize (Hf _ _ Ew). simpl in *. lia.
Qed.

Lemma Write_commits (status : bool) (o o' : Obj) (w w' : Store) :
  Write status o w = (Ok o', w') ->
  exists w1 w2 current, rtc env w w1 /\ rtc env w2 w' /\ stored w1 (Metadata.Name (meta o)) = Some current /\
    Metadata.ResourceVersion (meta current) = Metadata.ResourceVersion (meta o) /\
    committed stored w1 w2 (Metadata.Name (meta o)) (persist status current o) /\
    (forall next, persist status current o = Some next -> same_content o' next).
Proof.
  unfold Write. pose proof (interfere_rtc w) as Hi. set (w1 := default w (interfere w)) in *.
  set (n := Metadata.Name (meta o)). destruct (stored w1 n) as [current|] eqn:Es; [|done].
  case_bool_decide as Hrv; simpl; [|done]. intros HW. exists w1, w', current.
  assert (committed stored w1 w' n (persist status current o) /\
          (forall next, persist status current o = Some next -> same_content o' next)) as [Hc Hres]; [|by split_and!].
  destruct (persist status current o) as [next|] eqn:Ep; injection HW as <- <-.
  - split; [|by intros ? [= <-]]. split; [|intros n' Hn; by apply put_other]. unfold stored, put. simpl. rewrite lookup_insert_eq.
    rewrite (persist_name _ _ _ _ Ep), (stored_Name w1 n current Es), bool_decide_eq_true_2 by done.
    unfold same_content. by rewrite with_resourceVersion_twice.
  - split; [|done]. split; [|intros n' Hn; unfold stored; simpl; by rewrite lookup_delete_ne].
    unfold stored. simpl. by rewrite lookup_delete_eq.
Qed.

Lemma retry_attempts (steps : nat) (attempt : Store -> result unit * Store) (w w' : Store) (r : result unit) :
  retry steps attempt w = (r, w') -> attempts env (fun e => error_is e conflict) attempt w r w'.
Proof.
  revert w. induction steps as [|steps IH]; intros w; simpl; destruct (attempt w) as [[u|e] w1] eqn:E; intros Hr;
    [simplify_eq; by apply attempt_last..| |]; [simplify_eq; by apply attempt_last|].
  destruct (error_is e conflict) eqn:Ee; [|simplify_eq; by apply attempt_last].
  eapply attempt_again; [exact E|exact Ee|apply rtc_refl|by apply IH].
Qed.

#[local] Program Instance client : ApiClient Store Obj := {
  ApiServer.stored := stored;
  ApiServer.env := env;
  IsNotFound e := error_is e notFound;
  IsConflict e := error_is e conflict;
  ApiServer.Get := Get;
  ApiServer.Write := Write;
  RetryOnConflict := retry 3
}.
Next Obligation. intros e m. simpl. by rewrite orb_false_r. Qed.
Next Obligation. done. Qed.
Next Obligation. exact stored_Name. Qed.
Next Obligation.
  intros n w r w'. unfold Get. destruct (stored w n) eqn:E; intros Hr; injection Hr as <- <-;
    exists w; split_and!; try apply rtc_refl; done.
Qed.
Next Obligation. exact version_unique. Qed.
Next Obligation. intros status o w o' w'. apply Write_commits. Qed.
Next Obligation.
  intros status o w e w'. unfold Write. pose proof (interfere_rtc w) as Hi.
  set (w1 := default w (interfere w)) in *.
  destruct (stored w1 _) as [current|]; [|intros HW _; by injection HW as _ <-].
  case_bool_decide; simpl; [|intros HW _; by injection HW as _ <-]. by destruct (persist status current o).
Qed.
Next Obligation. intros attempt w r w'. apply retry_attempts. Qed.
End store.
Arguments Store : clear implicits.
End ObjectStore.

(** An object that is all metadata. *)
#[export] Program Instance Metadata_object : ApiObject Metadata := {
  meta m := m;
  with_finalizers m fs := Metadata.set_Finalizers m fs;
  with_resourceVersion m rv := Metadata.set_ResourceVersion m rv;
  persist status current submitted :=
    if status then Some current
    else if negb (is_nil (Metadata.DeletionTimestamp current)) && (length (Metadata.Finalizers submitted) =? 0)%nat then None
    else Some (Metadata.set_Finalizers current (Metadata.Finalizers submitted))
}.
Next Obligation. done. Qed.
Next Obligation. done. Qed.
Next Obligation. intros [] current submitted o; simpl; [by intros [= <-]|]. case_match; [done|]. by intros [= <-]. Qed.
Next Obligation. done. Qed.

Definition sample_meta (finalizers : list string) : Metadata :=
  {| Metadata.Name := "v"; Metadata.UID := "uid-1"; Metadata.ResourceVersion := ""; Metadata.Generation := 1;
     Metadata.Finalizers := finalizers; Metadata.DeletionTimestamp := None; Metadata.Annotations := ∅ |}.

(** Another client adds its finalizer between our read and our write. *)
Definition sample_store : ObjectStore.Store Metadata :=
  {| ObjectStore.objects := {["v" := (4%N, sample_meta [])]}; ObjectStore.revision := 9;
     ObjectStore.queue := [("v", sample_meta ["other"])] |}.

#[local] Instance sample_client : ApiClient (ObjectStore.Store Metadata) Metadata :=
  ObjectStore.client (fun _ => true).

Lemma updateObjectFinalizer_linearizable_witness :
  exists w', updateObjectFinalizer "v" "uid-1" "ours" true sample_store = (Ok tt, w') /\
    option_map Metadata.Finalizers (stored w' "v") = Some ["other"; "ours"] /\
    finalizer_linearized "v" "uid-1" "ours" true sample_store w'.
Proof.
  eexists. split; [vm_compute; reflexivity|]. split; [vm_compute; reflexivity|].
  apply updateObjectFinalizer_linearizable. vm_compute. reflexivity.
Defined.

Definition sample_mutation : objectMutation Metadata :=
  {| mut_name := "v"; mut_uid := "uid-1"; readError := "read"; writeError := "write"; status_write := false;
     mut_apply m := Ok (Metadata.set_Finalizers m (Metadata.Finalizers m ++ ["ours"])) |}.

Lemma mutateObject_linearizable_witness :
  exists w', mutateObject sample_mutation sample_store = (Ok tt, w') /\ linearized sample_mutation sample_store w'.
Proof.
  eexists. split; [vm_compute; reflexivity|].
  apply mutateObject_linearizable; [|vm_compute; reflexivity].
  intros o o' E. simpl in E. injection E as <-. split; reflexivity.
Defined.
