(* ===== verification/VolumeState.v ===== *)
(** * Volume objects

    The ShiftPVVolume API object and the state transitions of
    src/kubernetes/volumeapi (volume.go, creation_intent.go, creation_claim.go,
    creation_executor.go, creation_cancellation.go).  An object carries its
    metadata, its spec and its status; a structured field that the API server
    returns is absent, malformed or decoded.  Every mutation of the source is a
    function from the decoded state to the next one, and [mutateState] lifts it
    to objects as the source does: only the status is written. *)

From S2P Require Import Prelude Bytes VolumeIdentity GoTime Apimachinery ApiServer.
From Stdlib Require Import Ascii.
From stdpp Require Import sorting.

(** ** Names *)

Definition VolumeProtectionFinalizer : string := "shiftpv.io/volume-protection".
Definition PhasePending : string := "Pending".
Definition PhaseNodeCreating : string := "NodeCreating".
Definition PhaseReady : string := Deletion.PhaseReady.
Definition PhaseDeleting : string := Deletion.PhaseDeleting.
Definition PhaseMoving : string := "Moving".
Definition PhaseBlocked : string := "Blocked".

Definition ErrVolumePublished : error := Errorf "volume publication is still being released".
Definition ErrPoolConfiguration : error := Errorf "ShiftPV Pool configuration is invalid".
Definition ErrPoolNotFound : error := Errorf "ShiftPV Pool is not registered".
Definition ErrPoolIdentityChanged : error := Wrapf [ErrStateConflict] "%w: ShiftPV Pool identity changed".
Definition ErrPoolNotReady : error := Errorf "ShiftPV Pool is not ready".
Definition ErrPoolCopyConflict : error := Errorf "ShiftPV Pool contains a conflicting serving copy".
Definition ErrPoolObservationChanged : error := Wrapf [ErrStateConflict] "%w: Pool observation generation changed".
Definition ErrVolumeFinalizersPending : error := Errorf "other Volume finalizers are still present".

(** ** Data *)

Module PoolReference.
Record PoolReference := { Name : string; UID : string }.
#[export] Instance PoolReference_eq_dec : EqDecision PoolReference.
Proof. solve_decision. Defined.
End PoolReference.
Notation PoolReference := PoolReference.PoolReference.
#[export] Existing Instance PoolReference.PoolReference_eq_dec.

Module ClaimReference.
Record ClaimReference := { Namespace : string; Name : string; UID : string }.
#[export] Instance ClaimReference_eq_dec : EqDecision ClaimReference.
Proof. solve_decision. Defined.
End ClaimReference.
Notation ClaimReference := ClaimReference.ClaimReference.
#[export] Existing Instance ClaimReference.ClaimReference_eq_dec.

Module NodeExecutor.
Record NodeExecutor := { Namespace : string; PodName : string; PodUID : string; NodeName : string }.
#[export] Instance NodeExecutor_eq_dec : EqDecision NodeExecutor.
Proof. solve_decision. Defined.

Definition Valid (e : NodeExecutor) : bool :=
  ValidObjectName (Namespace e) && ValidObjectName (PodName e) && ValidIdentityToken (PodUID e) &&
  ValidObjectName (NodeName e).
End NodeExecutor.
Notation NodeExecutor := NodeExecutor.NodeExecutor.
#[export] Existing Instance NodeExecutor.NodeExecutor_eq_dec.

Module CreationReceipt.
Record CreationReceipt := {
  OperationID : string; ExecutorUID : string; ObservedAt : string; LocalReceiptDigest : string }.
#[export] Instance CreationReceipt_eq_dec : EqDecision CreationReceipt.
Proof. solve_decision. Defined.
End CreationReceipt.
Notation CreationReceipt := CreationReceipt.CreationReceipt.
#[export] Existing Instance CreationReceipt.CreationReceipt_eq_dec.

Module State.
Record State := {
  UID : string;
  Finalizers : list string;
  RequestName : string;
  CapacityBytes : Z;
  InitialNode : string;
  InitialPool : option PoolReference;
  CreationClaim : option ClaimReference;
  HasCleanup : bool;
  Deleting : bool;
  Phase : string;
  OwnerNode : string;
  ActiveMove : string;
  PublishedNodes : list string;
  CreationOperationID : string;
  DeletionOperationID : string;
  CurrentCopy : option CopyIdentity;
  CreationExecutor : option NodeExecutor;
  CreationReceipt : option CreationReceipt
}.

(** Assignments to the status fields; everything else is kept. *)
Definition with_status (s : State) (phase ownerNode activeMove : string) (publishedNodes : list string)
    (creationOperationID deletionOperationID : string) (currentCopy : option CopyIdentity)
    (executor : option NodeExecutor) (receipt : option CreationReceipt.CreationReceipt) : State :=
  {| UID := UID s; Finalizers := Finalizers s; RequestName := RequestName s; CapacityBytes := CapacityBytes s;
     InitialNode := InitialNode s; InitialPool := InitialPool s; CreationClaim := CreationClaim s;
     HasCleanup := HasCleanup s; Deleting := Deleting s; Phase := phase; OwnerNode := ownerNode;
     ActiveMove := activeMove; PublishedNodes := publishedNodes; CreationOperationID := creationOperationID;
     DeletionOperationID := deletionOperationID; CurrentCopy := currentCopy; CreationExecutor := executor;
     CreationReceipt := receipt |}.

Definition set_Phase (s : State) (phase : string) : State :=
  with_status s phase (OwnerNode s) (ActiveMove s) (PublishedNodes s) (CreationOperationID s)
    (DeletionOperationID s) (CurrentCopy s) (CreationExecutor s) (CreationReceipt s).

Definition set_deletion (s : State) (phase operationID : string) : State :=
  with_status s phase (OwnerNode s) (ActiveMove s) (PublishedNodes s) (CreationOperationID s)
    operationID (CurrentCopy s) (CreationExecutor s) (CreationReceipt s).

Definition set_PublishedNodes (s : State) (nodes : list string) : State :=
  with_status s (Phase s) (OwnerNode s) (ActiveMove s) nodes (CreationOperationID s)
    (DeletionOperationID s) (CurrentCopy s) (CreationExecutor s) (CreationReceipt s).

Definition set_CurrentCopy (s : State) (copy : option CopyIdentity) : State :=
  with_status s (Phase s) (OwnerNode s) (ActiveMove s) (PublishedNodes s) (CreationOperationID s)
    (DeletionOperationID s) copy (CreationExecutor s) (CreationReceipt s).

Definition set_executor (s : State) (phase : string) (executor : option NodeExecutor) : State :=
  with_status s phase (OwnerNode s) (ActiveMove s) (PublishedNodes s) (CreationOperationID s)
    (DeletionOperationID s) (CurrentCopy s) executor (CreationReceipt s).

Definition set_receipt (s : State) (receipt : option CreationReceipt.CreationReceipt) : State :=
  with_status s (Phase s) (OwnerNode s) (ActiveMove s) (PublishedNodes s) (CreationOperationID s)
    (DeletionOperationID s) (CurrentCopy s) (CreationExecutor s) receipt.
End State.
Notation State := State.State.

(** ** Predicates on the state *)

Definition CreationOperationID (volumeUID : string) : result string :=
  let operationID := "create-" +:+ volumeUID in
  if negb (ValidIdentityToken volumeUID) || negb (ValidIdentityToken operationID)
  then Err (Errorf "invalid volume creation operation identity")
  else Ok operationID.

Definition UnstartedCreation (s : State) : bool :=
  ValidIdentityToken (State.UID s) && (State.RequestName s != "") && (State.InitialNode s != "") &&
  (0 <? State.CapacityBytes s)%Z && contains (State.Finalizers s) VolumeProtectionFinalizer &&
  negb (State.HasCleanup s) && (State.Phase s == "") && (State.OwnerNode s == "") && (State.ActiveMove s == "") &&
  (length (State.PublishedNodes s) =? 0)%nat && is_nil (State.CurrentCopy s) &&
  (State.CreationOperationID s == "") && (State.DeletionOperationID s == "") &&
  is_nil (State.CreationExecutor s) && is_nil (State.CreationReceipt s).

Definition Initializing (s : State) : bool := negb (State.Deleting s) && UnstartedCreation s.

Definition HasInitialReservation (s : State) : bool :=
  some_and (State.InitialPool s) (fun pool =>
    ValidIdentityToken (PoolReference.Name pool) && ValidIdentityToken (PoolReference.UID pool)) &&
  UnstartedCreation s.

Definition ValidCreationReceipt (s : State) : bool :=
  match State.CreationExecutor s, State.CreationReceipt s, State.CurrentCopy s with
  | Some executor, Some receipt, Some copy =>
      if negb (NodeExecutor.Valid executor) || negb (is_ok (Validate copy)) || (VolumeUID copy != State.UID s) ||
         (Role copy != RoleServing)
      then false
      else
        match DecodeString (CreationReceipt.LocalReceiptDigest receipt), Parse (CreationReceipt.ObservedAt receipt),
              CreationOperationID (State.UID s) with
        | Ok digest, Ok _, Ok operation =>
            (String.length digest =? 32)%nat &&
            (EncodeToString digest == CreationReceipt.LocalReceiptDigest receipt) &&
            (CreationReceipt.OperationID receipt == operation) &&
            (CreationReceipt.OperationID receipt == State.CreationOperationID s) &&
            (CreationReceipt.ExecutorUID receipt == NodeExecutor.PodUID executor) &&
            (NodeExecutor.NodeName executor == NodeName copy)
        | _, _, _ => false
        end
  | _, _, _ => false
  end.

(** [copy.NodeName = node] *)
Definition set_NodeName (copy : CopyIdentity) (node : string) : CopyIdentity :=
  {| InstallationID := InstallationID copy; PoolName := PoolName copy; PoolUID := PoolUID copy;
     VolumeID := VolumeID copy; VolumeUID := VolumeUID copy; CopyID := CopyID copy; NodeName := node;
     Role := Role copy |}.

Definition ValidReadyCreationHistory (s : State) : bool :=
  match State.CurrentCopy s with
  | None => false
  | Some copy =>
      if (State.Phase s != PhaseReady) || State.Deleting s || (State.DeletionOperationID s != "") ||
         State.HasCleanup s || negb (is_ok (Validate copy)) || (Role copy != RoleServing) ||
         (VolumeUID copy != State.UID s) || (NodeName copy != State.OwnerNode s)
      then false
      else match State.CreationExecutor s, State.CreationReceipt s with
           | None, None => true
           | None, Some _ => false
           | Some executor, _ =>
               ValidCreationReceipt (State.set_CurrentCopy s (Some (set_NodeName copy (NodeExecutor.NodeName executor))))
           end
  end.

Definition initialCreationHistory (s : State) (copy : CopyIdentity) : bool :=
  if some_and (State.InitialPool s) (fun pool =>
       (PoolReference.Name pool != PoolName copy) || (PoolReference.UID pool != PoolUID copy))
  then false
  else match State.CreationExecutor s with
       | None => is_nil (State.CreationReceipt s)
       | Some executor =>
           NodeExecutor.Valid executor && (NodeExecutor.NodeName executor == State.OwnerNode s) &&
           (is_nil (State.CreationReceipt s) || ValidCreationReceipt s)
       end.

Definition initialCreationIdentity (s : State) : bool :=
  match State.CurrentCopy s with
  | None => false
  | Some copy =>
      if (State.UID s == "") || (State.CapacityBytes s <=? 0)%Z || (State.RequestName s == "") ||
         (State.InitialNode s == "") || (State.OwnerNode s != State.InitialNode s) ||
         (VolumeUID copy != State.UID s) || (NodeName copy != State.OwnerNode s) ||
         negb (IsCreationCancellation copy (CreationCancellationPrefix +:+ State.UID s)) ||
         (State.CreationOperationID s != "create-" +:+ State.UID s) || (State.ActiveMove s != "") ||
         negb (length (State.PublishedNodes s) =? 0)%nat ||
         negb (contains (State.Finalizers s) VolumeProtectionFinalizer)
      then false
      else initialCreationHistory s copy
  end.

Definition CancellableCreation (s : State) : bool :=
  if State.HasCleanup s || (State.DeletionOperationID s != "") || negb (initialCreationIdentity s) then false
  else ((State.Phase s == PhasePending) && is_nil (State.CreationExecutor s) && is_nil (State.CreationReceipt s)) ||
       ((State.Phase s == PhaseNodeCreating) && negb (is_nil (State.CreationExecutor s))).

Definition CancellingCreation (s : State) : bool :=
  (State.Phase s == PhaseDeleting) && initialCreationIdentity s &&
  some_and (State.CurrentCopy s) (fun copy => IsCreationCancellation copy (State.DeletionOperationID s)).

Definition sameClaim (a b : option ClaimReference) : bool := a == b.

Definition servingCopyFor (copy : option CopyIdentity) (volumeID volumeUID nodeName : string) : bool :=
  some_and copy (fun copy =>
    is_ok (Validate copy) && (VolumeID copy == volumeID) && (VolumeUID copy == volumeUID) &&
    (NodeName copy == nodeName) && (Role copy == RoleServing)).

Definition sameNodeCreation (current expected : State) : bool :=
  (State.UID current != "") && (State.UID current == State.UID expected) &&
  (State.CreationOperationID current == State.CreationOperationID expected) &&
  match State.CurrentCopy current, State.CurrentCopy expected with
  | Some copy, Some expected_copy =>
      (copy == expected_copy) && (State.OwnerNode current == State.OwnerNode expected) &&
      (VolumeUID copy == State.UID current) && (NodeName copy == State.OwnerNode current)
  | _, _ => false
  end &&
  (State.CreationOperationID current == "create-" +:+ State.UID current) && (State.ActiveMove current == "") &&
  (length (State.PublishedNodes current) =? 0)%nat &&
  contains (State.Finalizers current) VolumeProtectionFinalizer.

(** The exact identity of the first serving copy, with its creation operation;
    [uid] is the UID the API server gave the object. *)
Definition initialServingCopy (uid : string) (pool : PoolReference) (installationID volumeID ownerNode : string) :
    result (CopyIdentity * string) :=
  if (uid == "") || (PoolReference.UID pool == "")
  then Err (Wrapf [ErrStateConflict] "%w: Kubernetes object identity is missing")
  else match CreationOperationID uid with
       | Err _ => Err (Wrapf [ErrStateConflict] "%w: %v")
       | Ok operationID =>
           let copy := {| InstallationID := installationID; PoolName := PoolReference.Name pool;
                          PoolUID := PoolReference.UID pool; VolumeID := volumeID; VolumeUID := uid;
                          CopyID := "initial-" +:+ uid; NodeName := ownerNode; Role := RoleServing |} in
           match Validate copy with
           | Err err => Err (Wrapf [err] "build creation identity: %w")
           | Ok _ => Ok (copy, operationID)
           end
       end.

(** The state [completeInitialization] hands to [recordCreationIntent]. *)
Definition completeInitialization_intent (uid : string) (deletionTimestamp : bool) (state : State)
    (pool : PoolReference) (installationID id : string) : result State :=
  if negb (Initializing state) || deletionTimestamp then Err ErrStateConflict
  else
    '(copy, operationID) ← initialServingCopy uid pool installationID id (State.InitialNode state);
    Ok (State.with_status state PhasePending (State.InitialNode state) (State.ActiveMove state)
          (State.PublishedNodes state) operationID (State.DeletionOperationID state) (Some copy)
          (State.CreationExecutor state) (State.CreationReceipt state)).

(** ** Mutations

    The function each operation passes to [mutateState]. *)

Definition recordCreationIntent_mutation (next current : State) : result State :=
  if State.UID current != State.UID next
  then Err (Wrapf [ErrStateConflict] "%w: ShiftPVVolume %q UID changed from %q to %q")
  else if State.Phase current != "" then Ok current
  else if negb (Initializing current) || is_nil (State.InitialPool current) || is_nil (State.InitialPool next) ||
          (State.InitialPool current != State.InitialPool next) ||
          (State.RequestName current != State.RequestName next) ||
          (State.InitialNode current != State.InitialNode next) ||
          (State.CapacityBytes current != State.CapacityBytes next) ||
          negb (sameClaim (State.CreationClaim current) (State.CreationClaim next))
  then Err ErrStateConflict
  else Ok next.

Definition CompleteCreate_mutation (uid operationID : string) (copy : CopyIdentity) (current : State) : result State :=
  if (uid == "") || (State.UID current != uid) || (State.CurrentCopy current != Some copy) ||
     (State.CreationOperationID current != operationID) || (State.OwnerNode current != NodeName copy)
  then Err ErrStateConflict
  else if State.Phase current == PhaseReady then Ok current
  else if (State.Phase current != PhasePending) && (State.Phase current != PhaseNodeCreating)
  then Err ErrStateConflict
  else if (State.Phase current == PhaseNodeCreating) && negb (ValidCreationReceipt current)
  then Err ErrStateConflict
  else Ok (State.set_Phase current PhaseReady).

Definition deletion_observation (current : State) : Deletion.Observation :=
  {| Deletion.UID := State.UID current; Deletion.OwnerNode := State.OwnerNode current;
     Deletion.Phase := State.Phase current; Deletion.ActiveMove := State.ActiveMove current;
     Deletion.OperationID := State.DeletionOperationID current;
     Deletion.CurrentCopy := State.CurrentCopy current; Deletion.PublishedNodes := State.PublishedNodes current |}.

Definition fenceForDeletion (current : State) (uid operationID : string) (copy : CopyIdentity) : result State :=
  match Deletion.Decide (deletion_observation current) uid operationID copy with
  | Deletion.WaitForUnpublish => Err (Wrapf [ErrStateConflict; ErrVolumePublished] "%w: %w")
  | Deletion.Begin => Ok (State.set_deletion current PhaseDeleting operationID)
  | Deletion.Resume => Ok current
  | Deletion.Reject => Err ErrStateConflict
  end.

Definition compareAndSetState_mutation (expectedPhase expectedActiveMove expectedOwner : string)
    (expectedCopy : option CopyIdentity) (next current : State) : result State :=
  if (State.UID next == "") || (State.UID current != State.UID next) || (State.Phase current != expectedPhase) ||
     (State.ActiveMove current != expectedActiveMove) || (State.OwnerNode current != expectedOwner)
  then Err (Wrapf [ErrStateConflict] "%w: volume %q is phase=%q activeMove=%q owner=%q")
  else
    match expectedCopy with
    | None => Ok tt
    | Some copy =>
        reject_if (State.CurrentCopy current != Some copy) (Wrapf [ErrStateConflict] "%w: source copy changed");;
        reject_if ((expectedActiveMove == "") && (State.ActiveMove next != "") &&
                   (State.Deleting current || State.HasCleanup current))
          (Wrapf [ErrStateConflict] "%w: source is being deleted")
    end;;
    let next := State.set_PublishedNodes next (State.PublishedNodes current) in
    if (State.Phase next == PhaseReady) &&
       existsb (fun node => node != State.OwnerNode next) (State.PublishedNodes current)
    then Err (Wrapf [ErrStateConflict] "%w: node %q is still published")
    else Ok next.

(** The expected values [CompareAndSetSourceState] hands on; an error is
    returned before any API call. *)
Definition CompareAndSetSourceState_guard (volumeID : string) (expected next : State) : result (CopyIdentity * State) :=
  match State.CurrentCopy expected with
  | None => Err (Wrapf [ErrStateConflict] "%w: source transition must preserve the exact serving copy")
  | Some copy =>
      if negb (is_ok (Validate copy)) || (Role copy != RoleServing) || (VolumeID copy != volumeID) ||
         (VolumeUID copy != State.UID expected) || (NodeName copy != State.OwnerNode expected) ||
         (State.UID next != State.UID expected) || (State.OwnerNode next != State.OwnerNode expected) ||
         some_and (State.CurrentCopy next) (fun c => c != copy)
      then Err (Wrapf [ErrStateConflict] "%w: source transition must preserve the exact serving copy")
      else Ok (copy, State.set_CurrentCopy next (Some copy))
  end.

(** The published nodes collected in a map and sorted. *)
Definition sorted_nodes (nodes : list string) : list string := merge_sort string_le (remove_dups nodes).

Definition BeginPublish_mutation (nodeName : string) (copy : CopyIdentity) (state : State) : result State :=
  if (State.Phase state != PhaseReady) || (State.OwnerNode state != nodeName) || (State.CurrentCopy state != Some copy)
  then Err (Wrapf [ErrStateConflict] "%w: volume is not publishable by this copy")
  else Ok (State.set_PublishedNodes state (sorted_nodes (nodeName :: State.PublishedNodes state))).

Definition ReconcilePublished_mutation (volumeID nodeName : string) (copy : CopyIdentity) (published : bool)
    (state : State) : result State :=
  if negb (is_ok (Validate copy)) || (Role copy != RoleServing) || (VolumeID copy != volumeID) ||
     (NodeName copy != nodeName) || (State.UID state != VolumeUID copy) || (State.OwnerNode state != nodeName) ||
     (State.CurrentCopy state != Some copy)
  then Err (Wrapf [ErrStateConflict] "%w: publication copy identity changed")
  else if published && (State.Phase state != PhaseReady)
  then Err (Wrapf [ErrStateConflict] "%w: volume is not publishable")
  else
    let nodes := if published then nodeName :: State.PublishedNodes state
                 else filter (fun node => node <> nodeName) (State.PublishedNodes state) in
    Ok (State.set_PublishedNodes state (sorted_nodes nodes)).

Definition BindCreation_mutation (expected : State) (executor : NodeExecutor) (current : State) : result State :=
  if negb (sameNodeCreation current expected) || negb (is_nil (State.CreationReceipt current)) ||
     ((State.Phase current != PhasePending) && (State.Phase current != PhaseNodeCreating)) ||
     (State.CreationExecutor current != State.CreationExecutor expected)
  then Err ErrStateConflict
  else Ok (State.set_executor current PhaseNodeCreating (Some executor)).

Definition RecordCreationReceipt_mutation (expected : State) (receipt : CreationReceipt) (current : State) : result State :=
  if negb (sameNodeCreation current expected) || (State.Phase current != PhaseNodeCreating) ||
     (State.CreationExecutor current != State.CreationExecutor expected)
  then Err ErrStateConflict
  else match State.CreationReceipt current with
       | Some recorded => if recorded != receipt then Err ErrStateConflict else Ok current
       | None =>
           let next := State.set_receipt current (Some receipt) in
           if negb (ValidCreationReceipt next) then Err ErrStateConflict else Ok next
       end.

Definition BeginCreationCancellation_mutation (uid : string) (copy : CopyIdentity) (current : State) : result State :=
  if (State.UID current != uid) || (State.CurrentCopy current != Some copy) then Err ErrStateConflict
  else if CancellingCreation current then Ok current
  else if negb (CancellableCreation current) then Err ErrStateConflict
  else Ok (State.set_deletion current PhaseDeleting (CreationCancellationPrefix +:+ uid)).

(** ** API objects *)

Module VolumeSpec.
Record VolumeSpec := {
  requestName : string;
  initialNode : string;
  capacityBytes : Z;
  initialPool : field (string * string);
  creationClaim : field ClaimReference
}.
End VolumeSpec.
Notation VolumeSpec := VolumeSpec.VolumeSpec.

Module VolumeStatus.
Record VolumeStatus := {
  phase : string;
  ownerNode : string;
  activeMove : string;
  publishedNodes : field (list string);
  creationOperationID : string;
  deletionOperationID : string;
  currentCopy : field CopyIdentity;
  creationExecutor : field NodeExecutor;
  creationReceipt : field CreationReceipt;
  (** The raw cleanup journal, kept verbatim by every volume mutation. *)
  cleanup : option string
}.
End VolumeStatus.
Notation VolumeStatus := VolumeStatus.VolumeStatus.

Record VolumeObject := {
  metadata : Metadata;
  spec : VolumeSpec;
  status : VolumeStatus
}.

Section objects.
Context {AM : Apimachinery}.

(** [claimUID.MatchString] for ^[A-Za-z0-9][A-Za-z0-9._-]*$. *)
Definition alphanumeric (c : Ascii.ascii) : bool :=
  let n := Ascii.N_of_ascii c in
  (((48 <=? n) && (n <=? 57)) || ((65 <=? n) && (n <=? 90)) || ((97 <=? n) && (n <=? 122)))%N.

Definition claimUID (s : string) : bool :=
  match s with
  | EmptyString => false
  | String c rest =>
      alphanumeric c &&
      string_forallb (fun c => alphanumeric c || ascii_eqb c "."%char || ascii_eqb c "_"%char || ascii_eqb c "-"%char) rest
  end.

Definition ClaimReference_Valid (c : ClaimReference) : bool :=
  IsDNS1123Label (ClaimReference.Namespace c) && IsDNS1123Subdomain (ClaimReference.Name c) &&
  ValidIdentityToken (ClaimReference.UID c) && claimUID (ClaimReference.UID c).

Definition claimFrom (object : VolumeObject) : result (option ClaimReference) :=
  claim ← decode (VolumeSpec.creationClaim (spec object)) "decode creationClaim: %w";
  match claim with
  | None => Ok None
  | Some claim =>
      if negb (ClaimReference_Valid claim) ||
         (VolumeSpec.requestName (spec object) != "pvc-" +:+ ClaimReference.UID claim)
      then Err (Wrapf [ErrStateConflict] "%w: invalid original creation claim")
      else Ok (Some claim)
  end.

Definition initialPoolFrom (object : VolumeObject) : result (option PoolReference) :=
  data ← decode (VolumeSpec.initialPool (spec object)) "spec.initialPool";
  match data with
  | None => Ok None
  | Some (name, uid) =>
      if negb (ValidIdentityToken name) || negb (ValidIdentityToken uid)
      then Err (Wrapf [ErrStateConflict] "%w: invalid initial Pool reservation")
      else Ok (Some {| PoolReference.Name := name; PoolReference.UID := uid |})
  end.

Definition stateFrom (object : VolumeObject) : result State :=
  claim ← claimFrom object;
  initialPool ← initialPoolFrom object;
  publishedNodes ← decode (VolumeStatus.publishedNodes (status object)) "decode publishedNodes: %w";
  executor ← decode (VolumeStatus.creationExecutor (status object)) "decode %s: %w";
  receipt ← decode (VolumeStatus.creationReceipt (status object)) "decode %s: %w";
  currentCopy ← decode (VolumeStatus.currentCopy (status object)) "decode current copy: %w";
  match currentCopy with None => Ok tt | Some copy => Validate copy end;;
  Ok {| State.UID := Metadata.UID (metadata object); State.Finalizers := Metadata.Finalizers (metadata object);
        State.RequestName := VolumeSpec.requestName (spec object);
        State.CapacityBytes := VolumeSpec.capacityBytes (spec object);
        State.InitialNode := VolumeSpec.initialNode (spec object);
        State.InitialPool := initialPool; State.CreationClaim := claim;
        State.HasCleanup := negb (is_nil (VolumeStatus.cleanup (status object)));
        State.Deleting := negb (is_nil (Metadata.DeletionTimestamp (metadata object)));
        State.Phase := VolumeStatus.phase (status object); State.OwnerNode := VolumeStatus.ownerNode (status object);
        State.ActiveMove := VolumeStatus.activeMove (status object);
        State.PublishedNodes := default [] publishedNodes;
        State.CreationOperationID := VolumeStatus.creationOperationID (status object);
        State.DeletionOperationID := VolumeStatus.deletionOperationID (status object);
        State.CurrentCopy := currentCopy; State.CreationExecutor := executor; State.CreationReceipt := receipt |}.

(** A new status map; only the cleanup journal of the old one is kept. *)
Definition setState (object : VolumeObject) (state : State) : VolumeObject :=
  {| metadata := metadata object;
     spec := spec object;
     status := {|
       VolumeStatus.phase := State.Phase state;
       VolumeStatus.ownerNode := State.OwnerNode state;
       VolumeStatus.activeMove := State.ActiveMove state;
       VolumeStatus.publishedNodes := Present (State.PublishedNodes state);
       VolumeStatus.creationOperationID := State.CreationOperationID state;
       VolumeStatus.deletionOperationID := State.DeletionOperationID state;
       VolumeStatus.currentCopy := encode (State.CurrentCopy state);
       VolumeStatus.creationExecutor := encode (State.CreationExecutor state);
       VolumeStatus.creationReceipt := encode (State.CreationReceipt state);
       VolumeStatus.cleanup := VolumeStatus.cleanup (status object) |} |}.

(** Fields a mutation left empty keep their current value. *)
Definition keep_current (current next : State) : State :=
  State.with_status next (State.Phase next) (State.OwnerNode next) (State.ActiveMove next) (State.PublishedNodes next)
    (if State.CreationOperationID next == "" then State.CreationOperationID current else State.CreationOperationID next)
    (if State.DeletionOperationID next == "" then State.DeletionOperationID current else State.DeletionOperationID next)
    (if is_nil (State.CurrentCopy next) then State.CurrentCopy current else State.CurrentCopy next)
    (if is_nil (State.CreationExecutor next) then State.CreationExecutor current else State.CreationExecutor next)
    (if is_nil (State.CreationReceipt next) then State.CreationReceipt current else State.CreationReceipt next).

(** The [apply] function of [mutateState]. *)
Definition mutateState_apply (mutate : State -> result State) (object : VolumeObject) : result VolumeObject :=
  current ← stateFrom object;
  next ← mutate current;
  Ok (setState object (keep_current current next)).

(** [bindInitialPool]'s apply function: the reservation is written once. *)
Definition bindInitialPool_apply (expected : State) (pool : PoolReference) (object : VolumeObject) : result VolumeObject :=
  current ← stateFrom object;
  if (State.UID current != State.UID expected) || negb (Initializing current) ||
     (State.RequestName current != State.RequestName expected) ||
     (State.InitialNode current != State.InitialNode expected) ||
     (State.CapacityBytes current != State.CapacityBytes expected)
  then Err ErrStateConflict
  else if some_and (State.InitialPool current) (fun p => p != pool) then Err ErrStateConflict
  else Ok {| metadata := metadata object;
             spec := {| VolumeSpec.requestName := VolumeSpec.requestName (spec object);
                        VolumeSpec.initialNode := VolumeSpec.initialNode (spec object);
                        VolumeSpec.capacityBytes := VolumeSpec.capacityBytes (spec object);
                        VolumeSpec.initialPool := Present (PoolReference.Name pool, PoolReference.UID pool);
                        VolumeSpec.creationClaim := VolumeSpec.creationClaim (spec object) |};
             status := status object |}.

(** [finalizeUnstartedCreation]'s apply function. *)
Definition finalizeUnstartedCreation_apply (object : VolumeObject) : result VolumeObject :=
  current ← stateFrom object;
  if negb (State.Deleting current) || negb (UnstartedCreation current) then Err ErrStateConflict
  else if negb (length (State.Finalizers current) =? 1)%nat then Err ErrVolumeFinalizersPending
  else Ok {| metadata := Metadata.set_Finalizers (metadata object) []; spec := spec object; status := status object |}.
End objects.
