(* ===== verification/VolumeProtocol.v ===== *)
(** * The volume protocol

    What the mutations of [VolumeState] guarantee together: each accepted write is
    a step of the decoded state, and the invariants below hold in every state that
    any sequence of writes, by any number of clients, can reach. *)

From S2P Require Import Prelude Bytes VolumeIdentity GoTime Apimachinery ApiServer VolumeState.
From stdpp Require Import sorting relations.

(** ** Reading back a write *)

(** The state read back after [next] was written over [current]: the metadata and
    the spec are those of the stored object. *)
Definition written (current next : State) : State :=
  let kept := keep_current current next in
  State.with_status current (State.Phase kept) (State.OwnerNode kept) (State.ActiveMove kept)
    (State.PublishedNodes kept) (State.CreationOperationID kept) (State.DeletionOperationID kept)
    (State.CurrentCopy kept) (State.CreationExecutor kept) (State.CreationReceipt kept).

Definition copy_valid (copy : option CopyIdentity) : Prop :=
  forall c, copy = Some c -> Validate c = Ok tt.

Section objects.
Context {AM : Apimachinery}.

Lemma stateFrom_setState (object : VolumeObject) (current next : State) :
  stateFrom object = Ok current -> copy_valid (State.CurrentCopy next) ->
  stateFrom (setState object next) =
  Ok (State.with_status current (State.Phase next) (State.OwnerNode next) (State.ActiveMove next)
        (State.PublishedNodes next) (State.CreationOperationID next) (State.DeletionOperationID next)
        (State.CurrentCopy next) (State.CreationExecutor next) (State.CreationReceipt next)).
Proof.
  unfold stateFrom. intros H Hv.
  apply bind_Ok in H as (claim & Hclaim & H). apply bind_Ok in H as (pool & Hpool & H).
  change (claimFrom (setState object next)) with (claimFrom object).
  change (initialPoolFrom (setState object next)) with (initialPoolFrom object).
  rewrite Hclaim, Hpool. cbn [mbind result_bind setState status]. simpl. rewrite !decode_encode. simpl.
  assert (match State.CurrentCopy next with None => Ok tt | Some copy => Validate copy end = Ok tt) as ->
    by (destruct (State.CurrentCopy next) eqn:E; [by apply Hv|done]).
  repeat (apply bind_Ok in H as (? & _ & H)). simpl. by simplify_eq.
Qed.

Lemma copy_valid_kept (object : VolumeObject) (current next : State) :
  stateFrom object = Ok current -> copy_valid (State.CurrentCopy next) ->
  copy_valid (State.CurrentCopy (keep_current current next)).
Proof.
  intros H Hv c. simpl. destruct (State.CurrentCopy next) as [c'|] eqn:E; simpl; [exact (Hv c)|].
  unfold stateFrom in H. do 6 (apply bind_Ok in H as (? & _ & H)).
  apply bind_Ok in H as ([] & Hc & H). simplify_eq. simpl. intros ->. exact Hc.
Qed.

(** A successful write stores exactly [written current next]. *)
Lemma mutateState_written (mutate : State -> result State) (object object' : VolumeObject) (current : State) :
  stateFrom object = Ok current -> mutateState_apply mutate object = Ok object' ->
  exists next, mutate current = Ok next /\
    (copy_valid (State.CurrentCopy next) -> stateFrom object' = Ok (written current next)).
Proof.
  intros Hs H. unfold mutateState_apply in H. rewrite Hs in H. cbn [mbind result_bind] in H.
  apply bind_Ok in H as (next & Hm & H). simplify_eq. exists next. split; [done|]. intros Hv.
  by rewrite (stateFrom_setState object current) by eauto using copy_valid_kept.
Qed.
End objects.

(** ** Steps *)

(** The phases mobility works in. *)
Definition mobile (phase : string) : Prop := phase = PhaseReady \/ phase = PhaseMoving \/ phase = PhaseBlocked.

(** The serving authority of a started volume. *)
Definition serving (s : State) : Prop :=
  exists copy, State.CurrentCopy s = Some copy /\ Validate copy = Ok tt /\ Role copy = RoleServing /\
    VolumeUID copy = State.UID s /\ NodeName copy = State.OwnerNode s.

(** The mutations ShiftPV's clients submit, with any arguments.  A mobility
    transition is [CompareAndSetState] or [CompareAndSetSourceState] between
    mobile phases with a next state that names its serving copy, as every caller
    in src/mobility/controller builds it. *)
Inductive mutation : (State -> result State) -> Prop :=
| mutation_intent uid deleting state pool installationID id next :
    completeInitialization_intent uid deleting state pool installationID id = Ok next -> uid = State.UID state ->
    mutation (recordCreationIntent_mutation next)
| mutation_complete uid operationID copy : mutation (CompleteCreate_mutation uid operationID copy)
| mutation_delete uid copy : mutation (fun current => fenceForDeletion current uid ("delete-" +:+ uid) copy)
| mutation_move phase activeMove owner copy next :
    mobile phase -> mobile (State.Phase next) -> serving next ->
    mutation (compareAndSetState_mutation phase activeMove owner copy next)
| mutation_publish nodeName copy : mutation (BeginPublish_mutation nodeName copy)
| mutation_reconcile volumeID nodeName copy published :
    mutation (ReconcilePublished_mutation volumeID nodeName copy published)
| mutation_bind expected executor : mutation (BindCreation_mutation expected executor)
| mutation_receipt expected receipt : mutation (RecordCreationReceipt_mutation expected receipt)
| mutation_cancel uid copy : mutation (BeginCreationCancellation_mutation uid copy).

(** One accepted write. *)
Inductive step (current : State) : State -> Prop :=
| step_write mutate next : mutation mutate -> mutate current = Ok next -> step current (written current next).

(** A volume as [newVolumeObject] creates it. *)
Definition created (s : State) : Prop :=
  State.Phase s = "" /\ State.OwnerNode s = "" /\ State.ActiveMove s = "" /\ State.PublishedNodes s = [] /\
  State.CurrentCopy s = None /\ State.CreationOperationID s = "" /\ State.DeletionOperationID s = "" /\
  State.CreationExecutor s = None /\ State.CreationReceipt s = None.

(** ** The invariant *)

Record invariant (s : State) : Prop := {
  inv_phase : State.Phase s ∈ [""; PhasePending; PhaseNodeCreating; PhaseReady; PhaseMoving; PhaseBlocked; PhaseDeleting];
  (** a Ready volume is published on its owner at most *)
  inv_ready : State.Phase s = PhaseReady -> Forall (fun node => node = State.OwnerNode s) (State.PublishedNodes s);
  (** outside mobility phases nothing is published and no move is active *)
  inv_idle : ~ mobile (State.Phase s) -> State.PublishedNodes s = [] /\ State.ActiveMove s = "";
  (** a started volume has one serving copy, on its owner *)
  inv_serving : State.Phase s <> "" -> serving s
}.

(** The first guard of a successful mutation did not reject. *)
Ltac pass_guard H E :=
  match type of H with
  | (if ?b then Err _ else _) = Ok _ => destruct b eqn:E; [discriminate H|]
  end.

(** The value a successful mutation returned. *)
Ltac returned H := injection H as <-.

(** A default that falls back to the same value. *)
Lemma string_default_same (x : string) : (if x == "" then x else x) = x.
Proof. by case_bool_decide. Qed.

Lemma option_default_same {A : Type} (x : option A) : (if is_nil x then x else x) = x.
Proof. by destruct x. Qed.

Lemma written_same (s : State) : written s s = s.
Proof.
  unfold written, keep_current. destruct s. simpl. by rewrite !string_default_same, !option_default_same.
Qed.

(** A write that changes only what it names. *)
Ltac solve_written :=
  unfold written, keep_current; simpl; rewrite ?string_default_same, ?option_default_same;
  rewrite ?bool_decide_eq_false_2 by done; done.

Lemma written_Phase (s : State) (phase : string) : written s (State.set_Phase s phase) = State.set_Phase s phase.
Proof. solve_written. Qed.

Lemma written_deletion (s : State) (phase operationID : string) :
  operationID <> "" -> written s (State.set_deletion s phase operationID) = State.set_deletion s phase operationID.
Proof. intros H. solve_written. Qed.

Lemma written_PublishedNodes (s : State) (nodes : list string) :
  written s (State.set_PublishedNodes s nodes) = State.set_PublishedNodes s nodes.
Proof. solve_written. Qed.

Lemma written_executor (s : State) (phase : string) (executor : NodeExecutor) :
  written s (State.set_executor s phase (Some executor)) = State.set_executor s phase (Some executor).
Proof. solve_written. Qed.

Lemma written_receipt (s : State) (receipt : CreationReceipt) :
  written s (State.set_receipt s (Some receipt)) = State.set_receipt s (Some receipt).
Proof. solve_written. Qed.

Lemma append_not_empty (a b : string) : a <> "" -> a +:+ b <> "".
Proof. destruct a; [done|]. discriminate. Qed.

Lemma elem_of_sorted_nodes (nodes : list string) (node : string) : node ∈ sorted_nodes nodes <-> node ∈ nodes.
Proof. unfold sorted_nodes. by rewrite merge_sort_Permutation, elem_of_remove_dups. Qed.

(** Phases are distinct strings. *)
Ltac phases :=
  repeat match goal with
  | H : mobile _ |- _ => destruct H as [H|[H|H]]
  | |- ~ mobile _ => intros [?|[?|?]]
  end; try discriminate; try congruence.

(** ** Every mutation preserves the invariant *)

(** Phase changes between phases in which nothing is published. *)
Lemma invariant_set_deletion (s : State) (operationID : string) :
  invariant s -> serving s -> State.PublishedNodes s = [] -> State.ActiveMove s = "" ->
  invariant (State.set_deletion s PhaseDeleting operationID).
Proof.
  intros Hi Hs Hp Ha. split; simpl; [vm_compute; set_solver|done|by rewrite Hp, Ha|done].
Qed.

Lemma preserve_complete (s next : State) (uid operationID : string) (copy : CopyIdentity) :
  invariant s -> CompleteCreate_mutation uid operationID copy s = Ok next -> invariant (written s next).
Proof.
  intros Hi H. unfold CompleteCreate_mutation in H. pass_guard H Eg.
  case_bool_decide as Er; [returned H; by rewrite written_same|].
  pass_guard H Ep. pass_guard H Ev. returned H. rewrite written_Phase.
  assert (State.Phase s = PhasePending \/ State.Phase s = PhaseNodeCreating) as Hp.
  { apply andb_false_iff in Ep as [Ep|Ep]; go_inv; auto. }
  destruct (inv_idle s Hi) as [Hpub Ham]; [destruct Hp as [->| ->]; phases|].
  split; simpl; [vm_compute; set_solver|by rewrite Hpub|by rewrite Hpub, Ham|].
  intros _. apply (inv_serving s Hi). destruct Hp as [->| ->]; done.
Qed.

Lemma preserve_delete (s next : State) (uid operationID : string) (copy : CopyIdentity) :
  invariant s -> operationID <> "" -> fenceForDeletion s uid operationID copy = Ok next -> invariant (written s next).
Proof.
  intros Hi Hop H. unfold fenceForDeletion in H.
  destruct (Deletion.Decide _ _ _ _) eqn:E; try discriminate H; returned H; [|by rewrite written_same].
  rewrite written_deletion by done. apply Deletion_Decide_spec in E as ((_ & _ & _ & _ & _ & _ & _ & Hmove) & (Hphase & _) & Hpub).
  apply invariant_set_deletion; [done| |done|done].
  apply (inv_serving s Hi). simpl in Hphase. by rewrite Hphase.
Qed.

Lemma UnstartedCreation_idle (s : State) :
  UnstartedCreation s = true -> State.PublishedNodes s = [] /\ State.ActiveMove s = "".
Proof.
  unfold UnstartedCreation. rewrite !andb_true_iff, !bool_decide_eq_true, Nat.eqb_eq.
  intros H. split; [apply length_zero_iff_nil; tauto|tauto].
Qed.

Lemma preserve_intent (s next : State) (uid : string) (deleting : bool) (state : State) (pool : PoolReference)
    (installationID id : string) (written_next : State) :
  invariant s -> completeInitialization_intent uid deleting state pool installationID id = Ok next ->
  uid = State.UID state -> recordCreationIntent_mutation next s = Ok written_next -> invariant (written s written_next).
Proof.
  intros Hi Hc -> H. unfold recordCreationIntent_mutation in H. pass_guard H Euid.
  destruct (State.Phase s != "") eqn:Ephase; [returned H; by rewrite written_same|].
  pass_guard H Eg. returned H. unfold completeInitialization_intent in Hc. pass_guard Hc Einit.
  apply bind_Ok in Hc as ([copy op] & Hcopy & Hc). returned Hc. unfold initialServingCopy in Hcopy.
  pass_guard Hcopy Eids. destruct (CreationOperationID _) as [op'|] eqn:Eop; [|done].
  destruct (Validate _) as [[]|] eqn:Ev; [|done]. injection Hcopy as <- <-.
  apply orb_false_iff in Einit as [Einit _]. apply negb_false_iff, andb_true_iff in Einit as [_ Einit].
  apply UnstartedCreation_idle in Einit as [Epub Eact]. apply negb_false_iff, bool_decide_eq_true in Euid.
  split; [vm_compute; set_solver|done|by intros _; simpl; rewrite Epub|].
  intros _. eexists. split; [reflexivity|]. split_and!; [exact Ev|done| |done]. by symmetry.
Qed.

Lemma existsb_not_owner (nodes : list string) (owner : string) :
  existsb (fun node => node != owner) nodes = false -> Forall (fun node => node = owner) nodes.
Proof.
  induction nodes as [|node nodes IH]; simpl; [constructor|].
  intros H. apply orb_false_iff in H as [H Hrest]. constructor; [by go_inv|by apply IH].
Qed.

Lemma preserve_move (s next moved : State) (phase activeMove owner : string) (copy : option CopyIdentity) :
  invariant s -> mobile phase -> mobile (State.Phase next) -> serving next ->
  compareAndSetState_mutation phase activeMove owner copy next s = Ok moved -> invariant (written s moved).
Proof.
  intros Hi Hp Hn (c & Hc & Hv & Hr & Hu & Hnode) H. unfold compareAndSetState_mutation in H.
  pass_guard H Eg. apply bind_Ok in H as ([] & _ & H).
  destruct (_ && existsb _ _) eqn:E; [discriminate H|]. returned H. simpl in E. go_inv.
  assert (State.Phase next ∈ [""; PhasePending; PhaseNodeCreating; PhaseReady; PhaseMoving; PhaseBlocked; PhaseDeleting])
    as Hin by (destruct Hn as [->|[->| ->]]; vm_compute; set_solver).
  split; simpl; [done| | |].
  - intros Er. rewrite bool_decide_eq_true_2 in E by done. by apply existsb_not_owner.
  - intros []. exact Hn.
  - intros _. exists c. simpl. rewrite Hc. simpl. split_and!; try done. congruence.
Qed.

Lemma invariant_set_PublishedNodes (s : State) (nodes : list string) :
  invariant s ->
  (forall node, node ∈ nodes -> node ∈ State.PublishedNodes s \/ (State.Phase s = PhaseReady /\ node = State.OwnerNode s)) ->
  invariant (State.set_PublishedNodes s nodes).
Proof.
  intros Hi Hn. split; simpl; [apply Hi| | |apply Hi].
  - intros Er. apply Forall_forall. intros node Hin. destruct (Hn node Hin) as [Hold|[_ ?]]; [|done].
    pose proof (inv_ready s Hi Er) as Hf. rewrite Forall_forall in Hf. by apply Hf.
  - intros Hm. destruct (inv_idle s Hi Hm) as [Hpub Ha]. split; [|done].
    destruct nodes as [|node rest]; [done|]. exfalso. destruct (Hn node (list_elem_of_here _ _)) as [Hold|[Er _]].
    + rewrite Hpub in Hold. by apply not_elem_of_nil in Hold.
    + apply Hm. by left.
Qed.

Lemma preserve_publish (s next : State) (nodeName : string) (copy : CopyIdentity) :
  invariant s -> BeginPublish_mutation nodeName copy s = Ok next -> invariant (written s next).
Proof.
  intros Hi H. unfold BeginPublish_mutation in H. pass_guard H Eg. returned H. go_inv.
  rewrite written_PublishedNodes. apply invariant_set_PublishedNodes; [done|].
  intros node Hin. rewrite elem_of_sorted_nodes in Hin. apply elem_of_cons in Hin as [->|?]; [right|by left]. split; congruence.
Qed.

Lemma preserve_reconcile (s next : State) (volumeID nodeName : string) (copy : CopyIdentity) (published : bool) :
  invariant s -> ReconcilePublished_mutation volumeID nodeName copy published s = Ok next -> invariant (written s next).
Proof.
  intros Hi H. unfold ReconcilePublished_mutation in H. pass_guard H Eg. pass_guard H Er. returned H.
  rewrite !orb_false_iff, !negb_false_iff, !bool_decide_eq_true in Eg. destruct Eg as [[_ Eowner] _].
  rewrite written_PublishedNodes. apply invariant_set_PublishedNodes; [done|].
  intros node Hin. rewrite elem_of_sorted_nodes in Hin. destruct published.
  - apply negb_false_iff, bool_decide_eq_true in Er.
    apply elem_of_cons in Hin as [->|?]; [right|by left]. split; congruence.
  - apply list_elem_of_filter in Hin as [_ ?]. by left.
Qed.

Lemma preserve_bind (s next expected : State) (executor : NodeExecutor) :
  invariant s -> BindCreation_mutation expected executor s = Ok next -> invariant (written s next).
Proof.
  intros Hi H. unfold BindCreation_mutation in H. pass_guard H Eg. returned H. rewrite written_executor.
  apply orb_false_iff in Eg as [Eg _]. apply orb_false_iff in Eg as [_ Ep].
  assert (State.Phase s = PhasePending \/ State.Phase s = PhaseNodeCreating) as Hp.
  { apply andb_false_iff in Ep as [Ep|Ep]; go_inv; auto. }
  destruct (inv_idle s Hi) as [Hpub Ham]; [destruct Hp as [->| ->]; phases|].
  split; simpl; [vm_compute; set_solver|done|by rewrite Hpub, Ham|].
  intros _. apply (inv_serving s Hi). destruct Hp as [->| ->]; done.
Qed.

Lemma invariant_set_receipt (s : State) (receipt : option CreationReceipt) :
  invariant s -> invariant (State.set_receipt s receipt).
Proof. intros Hi. split; apply Hi. Qed.

Lemma preserve_receipt (s next expected : State) (receipt : CreationReceipt) :
  invariant s -> RecordCreationReceipt_mutation expected receipt s = Ok next -> invariant (written s next).
Proof.
  intros Hi H. unfold RecordCreationReceipt_mutation in H. pass_guard H Eg.
  destruct (State.CreationReceipt s) as [recorded|].
  - pass_guard H Er. returned H. by rewrite written_same.
  - pass_guard H Ev. returned H. rewrite written_receipt. by apply invariant_set_receipt.
Qed.

Lemma preserve_cancel (s next : State) (uid : string) (copy : CopyIdentity) :
  invariant s -> BeginCreationCancellation_mutation uid copy s = Ok next -> invariant (written s next).
Proof.
  intros Hi H. unfold BeginCreationCancellation_mutation in H. pass_guard H Eg.
  destruct (CancellingCreation s); [returned H; by rewrite written_same|]. pass_guard H Ec. returned H.
  rewrite written_deletion by by apply append_not_empty. apply negb_false_iff in Ec. unfold CancellableCreation in Ec.
  destruct (_ || _) eqn:Eid in Ec; [done|].
  assert (State.Phase s = PhasePending \/ State.Phase s = PhaseNodeCreating) as Hp.
  { apply orb_true_iff in Ec as [Ec|Ec]; go_inv; auto. }
  destruct (inv_idle s Hi) as [Hpub Ham]; [destruct Hp as [->| ->]; phases|].
  apply invariant_set_deletion; [done| |done|done]. apply (inv_serving s Hi). destruct Hp as [->| ->]; done.
Qed.

Lemma step_invariant (s s' : State) : invariant s -> step s s' -> invariant s'.
Proof.
  intros Hi [mutate next Hm H]. destruct Hm;
    eauto using preserve_intent, preserve_complete, preserve_move, preserve_publish, preserve_reconcile,
      preserve_bind, preserve_receipt, preserve_cancel.
  eapply preserve_delete; [done| |exact H]. by apply append_not_empty.
Qed.

Lemma created_invariant (s : State) : created s -> invariant s.
Proof.
  intros (Hp & _ & Ha & Hpub & _). split; rewrite ?Hp, ?Ha, ?Hpub; [vm_compute; set_solver|done..].
Qed.

Lemma steps_invariant (s s' : State) : invariant s -> rtc step s s' -> invariant s'.
Proof. intros Hi H. induction H; eauto using step_invariant. Qed.

(** ** The steps refine the writes *)

Lemma mutation_copy_valid (mutate : State -> result State) (s next : State) :
  mutation mutate -> copy_valid (State.CurrentCopy s) -> mutate s = Ok next -> copy_valid (State.CurrentCopy next).
Proof.
  intros Hm Hv H. destruct Hm as [uid deleting state pool inst id next' Hc Huid| | | | | | | |].
  - unfold recordCreationIntent_mutation in H. pass_guard H E1.
    destruct (State.Phase s != ""); [by returned H|]. pass_guard H E2. returned H.
    unfold completeInitialization_intent in Hc. pass_guard Hc E3. apply bind_Ok in Hc as ([copy op] & Hcopy & Hc).
    returned Hc. unfold initialServingCopy in Hcopy. pass_guard Hcopy E4.
    destruct (CreationOperationID uid); [|done]. destruct (Validate _) as [[]|] eqn:Ev; [|done].
    injection Hcopy as <- <-. intros c Hsome. simpl in Hsome. by injection Hsome as <-.
  - unfold CompleteCreate_mutation in H. pass_guard H E1. destruct (State.Phase s == PhaseReady); [by returned H|].
    pass_guard H E2. pass_guard H E3. by returned H.
  - unfold fenceForDeletion in H. destruct (Deletion.Decide _ _ _ _); try discriminate H; by returned H.
  - unfold compareAndSetState_mutation in H. pass_guard H E1. apply bind_Ok in H as ([] & _ & H).
    destruct (_ && existsb _ _); [discriminate H|]. returned H. intros c Hc. simpl in Hc.
    match goal with H : serving _ |- _ => destruct H as (c' & Hc' & ? & _) end. congruence.
  - unfold BeginPublish_mutation in H. pass_guard H E1. by returned H.
  - unfold ReconcilePublished_mutation in H. pass_guard H E1. pass_guard H E2. by returned H.
  - unfold BindCreation_mutation in H. pass_guard H E1. by returned H.
  - unfold RecordCreationReceipt_mutation in H. pass_guard H E1.
    destruct (State.CreationReceipt s); pass_guard H E2; by returned H.
  - unfold BeginCreationCancellation_mutation in H. pass_guard H E1. destruct (CancellingCreation s); [by returned H|].
    pass_guard H E2. by returned H.
Qed.

Lemma stateFrom_copy_valid {AM : Apimachinery} (object : VolumeObject) (s : State) :
  stateFrom object = Ok s -> copy_valid (State.CurrentCopy s).
Proof.
  intros H. unfold stateFrom in H. do 6 (apply bind_Ok in H as (? & _ & H)).
  apply bind_Ok in H as ([] & Hc & H). returned H. intros c Hsome. simpl in Hsome. by rewrite Hsome in Hc.
Qed.

(** a volume write is a protocol step.  Whenever [mutateState] succeeds with
    one of the clients' mutations on an object that decodes, the new object
    decodes too, to a state one protocol step after the old one, and the write
    touched nothing but the status: metadata, spec and the raw cleanup journal are
    those of the stored object, so no caller can overwrite the volume's identity,
    capacity, claim or cleanup evidence with a stale observation. *)
Theorem mutateState_refines_step {AM : Apimachinery} (mutate : State -> result State)
    (object object' : VolumeObject) (s : State) :
  mutation mutate -> stateFrom object = Ok s ->
  mutateState_apply mutate object = Ok object' ->
  (exists s', step s s' /\ stateFrom object' = Ok s') /\
  metadata object' = metadata object /\ spec object' = spec object /\
  VolumeStatus.cleanup (status object') = VolumeStatus.cleanup (status object).
Proof.
  intros Hm Hs H. destruct (mutateState_written mutate object object' s Hs H) as (next & Hnext & Hread).
  split.
  - exists (written s next). split; [by apply (step_write s mutate)|]. apply Hread.
    by apply (mutation_copy_valid mutate s); eauto using stateFrom_copy_valid.
  - unfold mutateState_apply in H. rewrite Hs in H. cbn [mbind result_bind] in H. rewrite Hnext in H. simpl in H.
    by returned H.
Qed.

(** C2: the volume invariant.  However clients interleave their accepted writes,
    starting from a newly created volume: a Ready volume is never published on a
    node that is not its owner; outside the phases of mobility nothing is
    published and no move is active, so deletion and moving exclude each other; and
    every started volume names exactly one valid serving copy, on its owner and
    with its UID. *)
Theorem reachable_invariant (initial s : State) : created initial -> rtc step initial s -> invariant s.
Proof. intros Hc. apply steps_invariant, created_invariant, Hc. Qed.

(** ** Sample run *)

Definition sample_id : string := "shiftpv-0123456789abcdef0123456789abcdef".

Definition sample_created : State :=
  {| State.UID := "uid-1"; State.Finalizers := [VolumeProtectionFinalizer]; State.RequestName := "pvc-1";
     State.CapacityBytes := 1073741824; State.InitialNode := "node-a";
     State.InitialPool := Some {| PoolReference.Name := "pool-a"; PoolReference.UID := "pool-uid" |};
     State.CreationClaim := None; State.HasCleanup := false; State.Deleting := false; State.Phase := "";
     State.OwnerNode := ""; State.ActiveMove := ""; State.PublishedNodes := []; State.CreationOperationID := "";
     State.DeletionOperationID := ""; State.CurrentCopy := None; State.CreationExecutor := None;
     State.CreationReceipt := None |}.

Definition sample_pool : PoolReference := {| PoolReference.Name := "pool-a"; PoolReference.UID := "pool-uid" |}.

Definition sample_copy : CopyIdentity :=
  {| InstallationID := "cluster"; PoolName := "pool-a"; PoolUID := "pool-uid"; VolumeID := sample_id;
     VolumeUID := "uid-1"; CopyID := "initial-uid-1"; NodeName := "node-a"; Role := RoleServing |}.

Definition sample_pending : State :=
  State.with_status sample_created PhasePending "node-a" "" [] "create-uid-1" "" (Some sample_copy) None None.

Lemma sample_intent :
  completeInitialization_intent "uid-1" false sample_created sample_pool "cluster" sample_id = Ok sample_pending.
Proof. vm_compute. reflexivity. Qed.

Lemma sample_start : step sample_created sample_pending.
Proof.
  apply (step_write sample_created (recordCreationIntent_mutation sample_pending) sample_pending).
  - eapply mutation_intent; [exact sample_intent|reflexivity].
  - vm_compute. reflexivity.
Qed.

Definition sample_ready : State := State.set_Phase sample_pending PhaseReady.

Lemma sample_complete : step sample_pending sample_ready.
Proof.
  apply (step_write sample_pending (CompleteCreate_mutation "uid-1" "create-uid-1" sample_copy) sample_ready).
  - constructor.
  - vm_compute. reflexivity.
Qed.

Lemma reachable_invariant_witness :
  exists s, rtc step sample_created s /\ State.Phase s = PhaseReady /\ invariant s.
Proof.
  assert (rtc step sample_created sample_ready) as H
    by (eapply rtc_l; [exact sample_start|eapply rtc_l; [exact sample_complete|apply rtc_refl]]).
  exists sample_ready. split; [exact H|]. split; [reflexivity|].
  apply (reachable_invariant sample_created sample_ready); [|exact H].
  repeat split.
Defined.

Definition sample_object : VolumeObject :=
  {| metadata := {| Metadata.Name := sample_id; Metadata.UID := "uid-1"; Metadata.ResourceVersion := "7";
                    Metadata.Generation := 1; Metadata.Finalizers := [VolumeProtectionFinalizer];
                    Metadata.DeletionTimestamp := None; Metadata.Annotations := ∅ |};
     spec := {| VolumeSpec.requestName := "pvc-1"; VolumeSpec.initialNode := "node-a";
                VolumeSpec.capacityBytes := 1073741824; VolumeSpec.initialPool := Present ("pool-a", "pool-uid");
                VolumeSpec.creationClaim := Absent |};
     status := {| VolumeStatus.phase := ""; VolumeStatus.ownerNode := ""; VolumeStatus.activeMove := "";
                  VolumeStatus.publishedNodes := Absent; VolumeStatus.creationOperationID := "";
                  VolumeStatus.deletionOperationID := ""; VolumeStatus.currentCopy := Absent;
                  VolumeStatus.creationExecutor := Absent; VolumeStatus.creationReceipt := Absent;
                  VolumeStatus.cleanup := None |} |}.

Lemma mutateState_refines_step_witness :
  exists object', mutateState_apply (AM := Sample.sample) (recordCreationIntent_mutation sample_pending)
                    sample_object = Ok object' /\ spec object' = spec sample_object.
Proof.
  eexists. split; [vm_compute; reflexivity|].
  match goal with |- spec ?o = _ => set (object' := o) end.
  refine (proj1 (proj2 (proj2 (mutateState_refines_step (AM := Sample.sample)
    (recordCreationIntent_mutation sample_pending) sample_object object' sample_created _ _ _)))).
  - eapply mutation_intent; [exact sample_intent|reflexivity].
  - vm_compute. reflexivity.
  - vm_compute. reflexivity.
Defined.

(** ** The deletion fence *)

(** What a fence pins. *)
Definition fenced (s s' : State) : Prop :=
  State.Phase s' = PhaseDeleting /\ State.DeletionOperationID s' = State.DeletionOperationID s /\
  State.CurrentCopy s' = State.CurrentCopy s /\ State.OwnerNode s' = State.OwnerNode s /\
  State.UID s' = State.UID s /\ State.PublishedNodes s' = [] /\ State.ActiveMove s' = "".

(** No mutation accepts a fenced volume with a different result. *)
Lemma fence_step (s s' : State) :
  invariant s -> State.Phase s = PhaseDeleting -> step s s' -> fenced s s'.
Proof.
  intros Hi Hphase Hstep. destruct (inv_idle s Hi) as [Hpub Ham]; [rewrite Hphase; phases|].
  assert (fenced s s) as Hsame by done.
  destruct Hstep as [mutate next Hm H]. destruct Hm.
  - unfold recordCreationIntent_mutation in H. pass_guard H E1. rewrite Hphase in H. simpl in H. returned H.
    by rewrite written_same.
  - unfold CompleteCreate_mutation in H. pass_guard H E1. rewrite Hphase in H. discriminate H.
  - unfold fenceForDeletion in H. destruct (Deletion.Decide _ _ _ _) eqn:E; try discriminate H; returned H.
    + apply Deletion_Decide_spec in E as (_ & (Hr & _) & _). simpl in Hr. rewrite Hphase in Hr. discriminate Hr.
    + by rewrite written_same.
  - unfold compareAndSetState_mutation in H. pass_guard H E1. rewrite !orb_false_iff, !negb_false_iff in E1.
    destruct E1 as [[[_ E1] _] _]. apply bool_decide_eq_true in E1. rewrite Hphase in E1. subst. phases.
  - unfold BeginPublish_mutation in H. rewrite Hphase in H. discriminate H.
  - unfold ReconcilePublished_mutation in H. pass_guard H E1. rewrite Hphase in H.
    destruct published; [discriminate H|]. simpl in H. rewrite Hpub in H. returned H. rewrite written_PublishedNodes.
    unfold fenced. split_and!; try done.
  - unfold BindCreation_mutation in H. rewrite Hphase in H. rewrite !orb_true_r in H. discriminate H.
  - unfold RecordCreationReceipt_mutation in H. rewrite Hphase in H. rewrite !orb_true_r in H. discriminate H.
  - unfold BeginCreationCancellation_mutation in H. pass_guard H E1.
    destruct (CancellingCreation s); [returned H; by rewrite written_same|].
    unfold CancellableCreation in H. rewrite Hphase in H. destruct (_ || _ || _) in H; discriminate H.
Qed.

Lemma fence_steps (s s' : State) :
  invariant s -> State.Phase s = PhaseDeleting -> rtc step s s' -> fenced s s'.
Proof.
  intros Hi Hphase H. induction H as [s|s s1 s' Hstep _ IH].
  - destruct (inv_idle s Hi) as [Hpub Ham]; [rewrite Hphase; phases|]. done.
  - destruct (fence_step s s1 Hi Hphase Hstep) as (Hp & Hop & Hc & Ho & Hu & _).
    destruct (IH (step_invariant s s1 Hi Hstep) Hp) as (Hp' & Hop' & Hc' & Ho' & Hu' & Hpub' & Ham').
    unfold fenced. split_and!; congruence.
Qed.

(** The deletion fence is permanent.  Once a reachable volume is Deleting, no
    write by any client can publish it, start a move on it, return it to another
    phase, or change the deletion operation, owner or copy that the filesystem
    cleanup was authorized for. *)
Theorem deletion_fence_permanent (initial s s' : State) :
  created initial -> rtc step initial s -> State.Phase s = PhaseDeleting -> rtc step s s' -> fenced s s'.
Proof. intros Hc Hr. apply fence_steps. apply (steps_invariant initial); [by apply created_invariant|done]. Qed.

Definition sample_deleting : State := State.set_deletion sample_ready PhaseDeleting "delete-uid-1".

Lemma sample_delete : step sample_ready sample_deleting.
Proof.
  apply (step_write sample_ready (fun current => fenceForDeletion current "uid-1" ("delete-" +:+ "uid-1") sample_copy)
           sample_deleting).
  - constructor.
  - vm_compute. reflexivity.
Qed.

Lemma deletion_fence_permanent_witness :
  rtc step sample_created sample_deleting /\ fenced sample_deleting sample_deleting.
Proof.
  assert (rtc step sample_created sample_deleting) as H
    by (eapply rtc_l; [exact sample_start|eapply rtc_l; [exact sample_complete|eapply rtc_l; [exact sample_delete|apply rtc_refl]]]).
  split; [exact H|].
  apply (deletion_fence_permanent sample_created sample_deleting sample_deleting);
    [repeat split|exact H|reflexivity|apply rtc_refl].
Defined.

(** ** Native creation *)

(** A volume leaves [NodeCreating] in two ways only: to [Ready], which
    requires the recorded receipt of the bound executor for exactly this copy, and
    to [Deleting] under the cancellation operation of its UID.  In both cases the
    copy, its owner and the creation history are kept. *)
Theorem node_creation_exits (s s' : State) :
  State.Phase s = PhaseNodeCreating -> step s s' -> State.Phase s' <> PhaseNodeCreating ->
  State.CurrentCopy s' = State.CurrentCopy s /\ State.OwnerNode s' = State.OwnerNode s /\
  State.CreationExecutor s' = State.CreationExecutor s /\ State.CreationReceipt s' = State.CreationReceipt s /\
  ((State.Phase s' = PhaseReady /\ ValidCreationReceipt s = true) \/
   (State.Phase s' = PhaseDeleting /\ State.DeletionOperationID s' = CreationCancellationPrefix +:+ State.UID s)).
Proof.
  intros Hphase Hstep Hleft. destruct Hstep as [mutate next Hm H]. destruct Hm.
  - unfold recordCreationIntent_mutation in H. pass_guard H E1. rewrite Hphase in H. simpl in H. returned H.
    by rewrite written_same in Hleft.
  - unfold CompleteCreate_mutation in H. pass_guard H E1. rewrite Hphase in H. simpl in H. pass_guard H E2.
    returned H. rewrite written_Phase. simpl. split_and!; try done. left. split; [done|]. by apply negb_false_iff.
  - unfold fenceForDeletion in H. destruct (Deletion.Decide _ _ _ _) eqn:E; try discriminate H; returned H.
    + apply Deletion_Decide_spec in E as (_ & (Hr & _) & _). simpl in Hr. rewrite Hphase in Hr. discriminate Hr.
    + by rewrite written_same in Hleft.
  - unfold compareAndSetState_mutation in H. pass_guard H E1. rewrite !orb_false_iff, !negb_false_iff in E1.
    destruct E1 as [[[_ E1] _] _]. apply bool_decide_eq_true in E1. rewrite Hphase in E1. subst. phases.
  - unfold BeginPublish_mutation in H. rewrite Hphase in H. discriminate H.
  - unfold ReconcilePublished_mutation in H. pass_guard H E1. pass_guard H E2. returned H.
    rewrite written_PublishedNodes in Hleft. done.
  - unfold BindCreation_mutation in H. pass_guard H E1. returned H. by rewrite written_executor in Hleft.
  - unfold RecordCreationReceipt_mutation in H. pass_guard H E1.
    destruct (State.CreationReceipt s); pass_guard H E2; returned H;
      [by rewrite written_same in Hleft|by rewrite written_receipt in Hleft].
  - unfold BeginCreationCancellation_mutation in H. pass_guard H E1.
    destruct (CancellingCreation s); [returned H; by rewrite written_same in Hleft|].
    pass_guard H E2. returned H. rewrite written_deletion by by apply append_not_empty. simpl.
    apply orb_false_iff in E1 as [E1 _]. apply negb_false_iff, bool_decide_eq_true in E1. rewrite E1.
    split_and!; try done. right. done.
Qed.

Definition sample_executor : NodeExecutor :=
  {| NodeExecutor.Namespace := "shiftpv"; NodeExecutor.PodName := "node-x"; NodeExecutor.PodUID := "pod-1";
     NodeExecutor.NodeName := "node-a" |}.

Definition sample_receipt : CreationReceipt :=
  {| CreationReceipt.OperationID := "create-uid-1"; CreationReceipt.ExecutorUID := "pod-1";
     CreationReceipt.ObservedAt := "2026-03-01T09:30:00Z";
     CreationReceipt.LocalReceiptDigest := "0123456789abcdef0123456789abcdef0123456789abcdef0123456789abcdef" |}.

Definition sample_received : State :=
  State.set_receipt (State.set_executor sample_pending PhaseNodeCreating (Some sample_executor)) (Some sample_receipt).

Lemma node_creation_exits_witness :
  step sample_received (State.set_Phase sample_received PhaseReady) /\ ValidCreationReceipt sample_received = true.
Proof.
  assert (step sample_received (State.set_Phase sample_received PhaseReady)) as H.
  { apply (step_write sample_received (CompleteCreate_mutation "uid-1" "create-uid-1" sample_copy)
             (State.set_Phase sample_received PhaseReady)); [constructor|vm_compute; reflexivity]. }
  split; [exact H|].
  destruct (node_creation_exits sample_received (State.set_Phase sample_received PhaseReady) eq_refl H)
    as (_ & _ & _ & _ & [[_ Hv]|[Hd _]]); [discriminate|exact Hv|discriminate Hd].
Defined.
