(* ===== verification/PoolApi.v ===== *)
(** * Pool objects

    The ShiftPVPool API object, its readiness gates and its writes
    (src/kubernetes/volumeapi/pool.go, pool_capacity_unit.go, pool_retirement.go,
    pool_probe.go, pool_scan.go).  Instants are nanoseconds; a zero
    [metav1.Time] is [None].  Functions that list or get objects take the API's
    answer as an argument. *)

From S2P Require Import Prelude Bytes Filepath VolumeIdentity CapacityUnit Apimachinery Registration ApiServer VolumeState.
From stdpp Require Import sorting relations.

(** ** Names *)

Definition PoolConditionReady : string := "Ready".
Definition PoolConditionAccessible : string := "Accessible".
Definition PoolConditionCapacityIndependent : string := "CapacityIndependent".
Definition PoolConditionCapacityBackingVerified : string := "CapacityBackingVerified".
Definition PoolConditionMounted : string := "Mounted".
Definition PoolConditionWritable : string := "Writable".
Definition PoolConditionCapacityReadable : string := "CapacityReadable".
Definition PoolProtectionFinalizer : string := "shiftpv.io/pool-protection".
Definition PoolIdentityReleaseAnnotation : string := "shiftpv.io/release-pool-identity".
Definition PoolRetirementRequestAnnotation : string := "shiftpv.io/retire-registration".
Definition PoolRetirementApprovalAnnotation : string := "shiftpv.io/registration-retired".
Definition PoolCapacityProbeRequestAnnotation : string := "shiftpv.io/capacity-probe-request".
Definition PoolMountPolicyRequireMountPoint : string := "RequireMountPoint".
Definition PoolCapacityPolicyFixedBlock : string := FixedBlock.
Definition DefaultPoolGroup : string := "default".
(** [3 * time.Minute] *)
Definition DefaultPoolReadinessStaleAfter : Z := 180000000000.

(** ** Time *)

(** [now.Sub(t)]: saturating. *)
Definition time_Sub (now t : Z) : Z := Z.max (- MaxInt64 - 1) (Z.min MaxInt64 (now - t)).

(** [t.IsZero() || now.Before(t) || now.Sub(t) > staleAfter] *)
Definition stale (now staleAfter : Z) (t : option Z) : bool :=
  match t with
  | None => true
  | Some t => (now <? t)%Z || (staleAfter <? time_Sub now t)%Z
  end.

(** ** Data *)

Module CopyObservation.
Record CopyObservation := {
  Marker : string;
  Identity : option CopyIdentity;
  Present : bool;
  Published : bool;
  Problem : string
}.
End CopyObservation.
Notation CopyObservation := CopyObservation.CopyObservation.

Module PoolInventory.
Record PoolInventory := {
  ObservedAt : option Z;
  Valid : bool;
  Truncated : bool;
  Reason : string;
  Message : string;
  Copies : list CopyObservation
}.
End PoolInventory.
Notation PoolInventory := PoolInventory.PoolInventory.

Module PoolMountIdentity.
Record PoolMountIdentity := { Device : string; Root : string; Source : string; Filesystem : string }.
#[export] Instance PoolMountIdentity_eq_dec : EqDecision PoolMountIdentity.
Proof. solve_decision. Defined.
End PoolMountIdentity.
Notation PoolMountIdentity := PoolMountIdentity.PoolMountIdentity.
#[export] Existing Instance PoolMountIdentity.PoolMountIdentity_eq_dec.

Module PoolCapacityProbeResult.
Record PoolCapacityProbeResult := {
  RequestID : string;
  Evidence : string;
  TotalBytes : Z;
  AvailableBytes : Z;
  AvailableInodes : Z;
  Error : string;
  ObservedAt : option Z
}.
End PoolCapacityProbeResult.
Notation PoolCapacityProbeResult := PoolCapacityProbeResult.PoolCapacityProbeResult.

Module PoolStatus.
Record PoolStatus := {
  RegistrationApproved : bool;
  CapacityProbeSupported : bool;
  CapacityProbe : option PoolCapacityProbeResult;
  FilesystemTotalBytes : Z;
  FilesystemAvailableBytes : option Z;
  FilesystemAvailableInodes : option Z;
  ObservedGeneration : Z;
  LastProbeTime : option Z;
  CapacityUnit : option CapacityUnit;
  MountIdentity : option PoolMountIdentity;
  Conditions : list Condition;
  Inventory : option PoolInventory
}.

Definition empty : PoolStatus :=
  {| RegistrationApproved := false; CapacityProbeSupported := false; CapacityProbe := None;
     FilesystemTotalBytes := 0; FilesystemAvailableBytes := None; FilesystemAvailableInodes := None;
     ObservedGeneration := 0; LastProbeTime := None; CapacityUnit := None; MountIdentity := None;
     Conditions := []; Inventory := None |}.

Definition set_CapacityProbe (s : PoolStatus) (probe : option PoolCapacityProbeResult) : PoolStatus :=
  {| RegistrationApproved := RegistrationApproved s; CapacityProbeSupported := CapacityProbeSupported s;
     CapacityProbe := probe; FilesystemTotalBytes := FilesystemTotalBytes s;
     FilesystemAvailableBytes := FilesystemAvailableBytes s;
     FilesystemAvailableInodes := FilesystemAvailableInodes s; ObservedGeneration := ObservedGeneration s;
     LastProbeTime := LastProbeTime s; CapacityUnit := CapacityUnit s; MountIdentity := MountIdentity s;
     Conditions := Conditions s; Inventory := Inventory s |}.
End PoolStatus.
Notation PoolStatus := PoolStatus.PoolStatus.

Module Pool.
Record Pool := {
  Name : string;
  UID : string;
  NodeName : string;
  PoolGroup : string;
  MountPath : string;
  CapacityPolicy : string;
  MountPolicy : string;
  CapacityLimit : string;
  Generation : Z;
  DeletionTimestamp : option Z;
  Finalizers : list string;
  IdentityReleaseApproval : string;
  RetirementRequest : string;
  RetirementApproval : string;
  CapacityProbeRequest : string;
  Status : PoolStatus
}.

Definition RetirementRequested (p : Pool) : bool := (UID p != "") && (RetirementRequest p == UID p).
Definition RegistrationRetired (p : Pool) : bool := (UID p != "") && (RetirementApproval p == UID p).

Definition registrationConfiguration (p : Pool) : Configuration :=
  {| Configuration.NodeName := NodeName p; Configuration.PoolGroup := PoolGroup p;
     Configuration.MountPath := MountPath p; Configuration.MountPolicy := MountPolicy p;
     Configuration.CapacityPolicy := CapacityPolicy p; Configuration.CapacityLimit := CapacityLimit p |}.
End Pool.
Notation Pool := Pool.Pool.

(** The stored object. *)
Module PoolSpec.
Record PoolSpec := {
  nodeName : string;
  poolGroup : option string;
  mountPath : string;
  mountPolicy : string;
  capacityPolicy : string;
  capacityLimit : string;
  scanEpoch : field Z
}.
End PoolSpec.
Notation PoolSpec := PoolSpec.PoolSpec.

Module PoolObject.
Record PoolObject := {
  metadata : Metadata;
  spec : PoolSpec;
  status : field PoolStatus
}.
End PoolObject.
Notation PoolObject := PoolObject.PoolObject.

(** ** Readiness *)

(** [ready, reason] pairs: continue with [k] when ready. *)
Definition and_ready (r : bool * string) (k : bool * string) : bool * string :=
  if fst r then k else (false, snd r).

Definition poolInventoryReadyAt (pool : Pool) (now staleAfter : Z) : bool * string :=
  match PoolStatus.Inventory (Pool.Status pool) with
  | None => (false, "InventoryMissing")
  | Some inventory =>
      if negb (PoolInventory.Valid inventory) || (PoolInventory.Message inventory != "") then (false, "InventoryInvalid")
      else if PoolInventory.Truncated inventory then (false, "InventoryTruncated")
      else if stale now staleAfter (PoolInventory.ObservedAt inventory) then (false, "InventoryStale")
      else (true, "")
  end.

Section readiness.
Context {AM : Apimachinery}.

Definition ConfigurationCheck (p : Pool) : Check := ValidateConfiguration (Pool.registrationConfiguration p).
Definition TopologyConfigurationCheck (p : Pool) : Check :=
  ValidateTopologyConfiguration (Pool.registrationConfiguration p).
Definition BackingConfigurationCheck (p : Pool) : Check :=
  ValidateBackingConfiguration (Pool.registrationConfiguration p).

Definition find_condition (p : Pool) (t : string) : option Condition :=
  FindStatusCondition (PoolStatus.Conditions (Pool.Status p)) t.

Definition RegistrationApproved (p : Pool) : bool :=
  if PoolStatus.RegistrationApproved (Pool.Status p) || negb (is_nil (PoolStatus.CapacityUnit (Pool.Status p))) ||
     negb (is_nil (PoolStatus.MountIdentity (Pool.Status p)))
  then true
  else some_and (find_condition p PoolConditionReady) (fun ready => Condition.Status ready == ConditionTrue) &&
       some_and (PoolStatus.Inventory (Pool.Status p)) (fun inventory =>
         PoolInventory.Valid inventory && negb (PoolInventory.Truncated inventory) &&
         (PoolInventory.Message inventory == "")).

Definition DeletingUnapprovedFixedBlock (p : Pool) : bool :=
  negb (is_nil (Pool.DeletionTimestamp p)) && (Pool.CapacityPolicy p == PoolCapacityPolicyFixedBlock) &&
  negb (RegistrationApproved p).

(** A condition that must be true for [generation]. *)
Definition condition_ready (condition : option Condition) (generation : Z) : bool * string :=
  match condition with
  | None => (false, "CapacityProbePending")
  | Some c =>
      if negb (Condition.ObservedGeneration c =? generation)%Z || (Condition.Status c != ConditionTrue)
      then (false, if Condition.Reason c != "" then Condition.Reason c else "CapacityProbePending")
      else (true, "")
  end.

Definition capacityBackingReadyAt (p : Pool) (generation : Z) : bool * string :=
  if Pool.CapacityPolicy p == "" then (true, "")
  else if (Pool.CapacityPolicy p != PoolCapacityPolicyFixedBlock) ||
          negb (is_ok (Unit.Validate (PoolStatus.CapacityUnit (Pool.Status p))))
  then (false, "CapacityIdentityMissing")
  else
    let condition := match find_condition p PoolConditionCapacityBackingVerified with
                     | Some c => Some c
                     | None => find_condition p PoolConditionCapacityIndependent
                     end in
    condition_ready condition generation.

Definition CapacityBackingReady (p : Pool) : bool * string := capacityBackingReadyAt p (Pool.Generation p).

Definition capacityReadyAt (p : Pool) (generation : Z) : bool * string :=
  and_ready (capacityBackingReadyAt p generation)
    (if Pool.CapacityPolicy p == "" then (true, "")
     else condition_ready (find_condition p PoolConditionCapacityIndependent) generation).

Definition mountReady (p : Pool) (generation : Z) : bool * string :=
  if Pool.MountPolicy p == PoolMountPolicyRequireMountPoint then
    if is_nil (PoolStatus.MountIdentity (Pool.Status p)) then (false, "MountIdentityMissing")
    else match find_condition p PoolConditionMounted with
         | None => (false, "MountProbePending")
         | Some mounted =>
             if negb (Condition.ObservedGeneration mounted =? generation)%Z then (false, "MountProbeOutdated")
             else if Condition.Status mounted != ConditionTrue
             then (false, if Condition.Reason mounted != "" then Condition.Reason mounted else "MountProbePending")
             else (true, "")
         end
  else (true, "").

Definition readyAt (p : Pool) (now staleAfter generation : Z) : bool * string :=
  if Pool.RegistrationRetired p then (false, "PoolRegistrationRetired")
  else if Pool.RetirementRequested p then (false, "PoolRetirementPending")
  else if negb (is_nil (Pool.DeletionTimestamp p)) then (false, "PoolDeregistering")
  else match find_condition p PoolConditionReady with
       | None => (false, "ProbePending")
       | Some condition =>
           if Condition.Status condition != ConditionTrue
           then (false, if Condition.Reason condition != "" then Condition.Reason condition else "ProbePending")
           else if negb (PoolStatus.ObservedGeneration (Pool.Status p) =? generation)%Z ||
                   negb (Condition.ObservedGeneration condition =? generation)%Z
           then (false, "ProbeOutdated")
           else if (staleAfter <=? 0)%Z || stale now staleAfter (PoolStatus.LastProbeTime (Pool.Status p))
           then (false, "ProbeStale")
           else and_ready (mountReady p generation)
                  (and_ready (capacityReadyAt p generation) (true, Condition.Reason condition))
       end.

Definition ReadyAt (p : Pool) (now staleAfter : Z) : bool * string := readyAt p now staleAfter (Pool.Generation p).

(** The loop over the required conditions. *)
Fixpoint conditions_ready (p : Pool) (generation : Z) (types : list string) : bool * string :=
  match types with
  | [] => (true, "")
  | t :: types =>
      match find_condition p t with
      | None => (false, "ProbePending")
      | Some condition =>
          if negb (Condition.ObservedGeneration condition =? generation)%Z then (false, "ProbeOutdated")
          else if Condition.Status condition != ConditionTrue
          then (false, if Condition.Reason condition != "" then Condition.Reason condition else "ProbeFailed")
          else conditions_ready p generation types
      end
  end.

Definition required_conditions (p : Pool) : list string :=
  [PoolConditionAccessible; PoolConditionWritable; PoolConditionCapacityReadable] ++
  (if Pool.MountPolicy p == PoolMountPolicyRequireMountPoint then [PoolConditionMounted] else []).

Definition cleanupReadyAt (p : Pool) (now staleAfter generation : Z) : bool * string :=
  if negb (Check.OK (BackingConfigurationCheck p)) then (false, Check.Reason (BackingConfigurationCheck p))
  else if (Pool.MountPolicy p == PoolMountPolicyRequireMountPoint) &&
          is_nil (PoolStatus.MountIdentity (Pool.Status p))
  then (false, "MountIdentityMissing")
  else if negb (PoolStatus.ObservedGeneration (Pool.Status p) =? generation)%Z then (false, "ProbeOutdated")
  else and_ready (capacityBackingReadyAt p generation)
         (and_ready (conditions_ready p generation (required_conditions p))
            (if (staleAfter <=? 0)%Z || stale now staleAfter (PoolStatus.LastProbeTime (Pool.Status p))
             then (false, "ProbeStale") else (true, "PoolCleanupReady"))).

Definition CleanupReadyAt (p : Pool) (now staleAfter : Z) : bool * string :=
  cleanupReadyAt p now staleAfter (Pool.Generation p).

Definition ExecutionReadyAt (p : Pool) (now staleAfter : Z) : bool * string :=
  let observed := PoolStatus.ObservedGeneration (Pool.Status p) in
  if (observed <=? 0)%Z || (Pool.Generation p <? observed)%Z then (false, "ProbeOutdated")
  else cleanupReadyAt p now staleAfter observed.

Definition InventoryReadyAt (p : Pool) (now staleAfter : Z) : bool * string :=
  and_ready (CleanupReadyAt p now staleAfter)
    (and_ready (poolInventoryReadyAt p now staleAfter)
       (if negb (contains (Pool.Finalizers p) PoolProtectionFinalizer) then (false, "PoolProtectionMissing")
        else (true, "PoolInventoryReady"))).

Definition poolReady (pool : Pool) (now staleAfter : Z) : bool * string :=
  if negb (Check.OK (ConfigurationCheck pool)) then (false, Check.Reason (ConfigurationCheck pool))
  else and_ready (ReadyAt pool now staleAfter)
         (and_ready (poolInventoryReadyAt pool now staleAfter)
            (if negb (contains (Pool.Finalizers pool) PoolProtectionFinalizer) then (false, "PoolProtectionMissing")
             else (true, ""))).

Definition registrationAllocation (p : Pool) : Allocation :=
  {| Allocation.UID := Pool.UID p; Allocation.NodeName := Pool.NodeName p; Allocation.MountPath := Pool.MountPath p;
     Allocation.Policy := Pool.CapacityPolicy p; Allocation.Approved := RegistrationApproved p;
     Allocation.Deleting := negb (is_nil (Pool.DeletionTimestamp p));
     Allocation.Retired := Pool.RegistrationRetired p;
     Allocation.Unit := PoolStatus.CapacityUnit (Pool.Status p);
     Allocation.Evidence := {| Check.OK := fst (CapacityBackingReady p); Check.Known := true;
                               Check.Reason := ""; Check.Message := "" |} |}.

(** [None] is the panic of [Independent]. *)
Definition PoolCapacityIndependent (pool : Pool) (pools : list Pool) : option (bool * string) :=
  match Independent (registrationAllocation pool) (map registrationAllocation pools) with
  | Some check => Some (Check.OK check, Check.Reason check)
  | None => None
  end.
End readiness.

(** ** Inventory queries *)

Definition PoolHasConflictingServingVolume (pool : Pool) (volumeID : string) (allowed : option CopyIdentity) : bool :=
  match PoolStatus.Inventory (Pool.Status pool) with
  | None => false
  | Some inventory =>
      existsb (fun observed =>
        CopyObservation.Present observed &&
        some_and (CopyObservation.Identity observed) (fun identity =>
          (Role identity == RoleServing) && (VolumeID identity == volumeID) &&
          negb (some_and allowed (fun allowed => identity == allowed)))) (PoolInventory.Copies inventory)
  end.

Definition PoolHasServingVolume (pool : Pool) (volumeID : string) : bool :=
  PoolHasConflictingServingVolume pool volumeID None.

(** The first observation of [target]. *)
Fixpoint observation_of (target : CopyIdentity) (copies : list CopyObservation) : option CopyObservation :=
  match copies with
  | [] => None
  | observed :: copies =>
      if CopyObservation.Identity observed == Some target then Some observed else observation_of target copies
  end.

Definition PoolHasPublishedCopy (pool : Pool) (target : option CopyIdentity) : bool :=
  match target, PoolStatus.Inventory (Pool.Status pool) with
  | Some target, Some inventory =>
      if negb (is_ok (Validate target)) || (Role target != RoleServing) || (PoolName target != Pool.Name pool) ||
         (PoolUID target != Pool.UID pool) || (NodeName target != Pool.NodeName pool)
      then false
      else match observation_of target (PoolInventory.Copies inventory) with
           | Some observed => CopyObservation.Present observed && CopyObservation.Published observed &&
                              (CopyObservation.Problem observed == "")
           | None => false
           end
  | _, _ => false
  end.

(** ** Decoding *)

Definition annotation (m : Metadata) (key : string) : string := default "" (Metadata.Annotations m !! key).

Definition poolFrom (object : PoolObject) : result Pool :=
  status ← decode (PoolObject.status object) "decode ShiftPVPool %q status: %w";
  let m := PoolObject.metadata object in
  let spec := PoolObject.spec object in
  Ok {| Pool.Name := Metadata.Name m; Pool.UID := Metadata.UID m; Pool.NodeName := PoolSpec.nodeName spec;
        Pool.PoolGroup := default DefaultPoolGroup (PoolSpec.poolGroup spec);
        Pool.MountPath := Clean (PoolSpec.mountPath spec); Pool.CapacityPolicy := PoolSpec.capacityPolicy spec;
        Pool.MountPolicy := PoolSpec.mountPolicy spec; Pool.CapacityLimit := PoolSpec.capacityLimit spec;
        Pool.Generation := Metadata.Generation m; Pool.DeletionTimestamp := Metadata.DeletionTimestamp m;
        Pool.Finalizers := Metadata.Finalizers m;
        Pool.IdentityReleaseApproval := annotation m PoolIdentityReleaseAnnotation;
        Pool.RetirementRequest := annotation m PoolRetirementRequestAnnotation;
        Pool.RetirementApproval := annotation m PoolRetirementApprovalAnnotation;
        Pool.CapacityProbeRequest := annotation m PoolCapacityProbeRequestAnnotation;
        Pool.Status := default PoolStatus.empty status |}.

Definition name_le (a b : Pool) : Prop := string_le (Pool.Name a) (Pool.Name b).

Definition node_le (a b : Pool) : Prop :=
  match String.compare (Pool.NodeName a) (Pool.NodeName b) with
  | Lt => True
  | Eq => name_le a b
  | Gt => False
  end.

#[export] Instance name_le_dec : RelDecision name_le.
Proof. intros a b. unfold name_le. apply _. Defined.

#[export] Instance node_le_dec : RelDecision node_le.
Proof. intros a b. unfold node_le. destruct (String.compare _ _); apply _. Defined.

(** The decoding loop over a list response. *)
Fixpoint decode_pools (items : list PoolObject) : result (list Pool) :=
  match items with
  | [] => Ok []
  | item :: items => pool ← poolFrom item; pools ← decode_pools items; Ok (pool :: pools)
  end.

Definition ListPoolRegistrations (listed : result (list PoolObject)) : result (list Pool) :=
  match listed with
  | Err err => Err (Wrapf [err] "list ShiftPVPool: %w")
  | Ok items => pools ← decode_pools items; Ok (merge_sort name_le pools)
  end.

Definition ListPools (listed : result (list PoolObject)) : result (list Pool) :=
  pools ← ListPoolRegistrations listed;
  Ok (merge_sort node_le pools).

Definition Pools (listed : result (list PoolObject)) : result (list Pool) :=
  pools ← ListPools listed;
  if (length pools =? 0)%nat then Err (Wrapf [ErrPoolConfiguration] "%w: no ShiftPVPool nodes are registered")
  else Ok pools.

Definition duplicatePoolError : error :=
  Wrapf [ErrPoolConfiguration] "%w: multiple ShiftPVPools are registered for node %q".

(** The loop of [PoolForNode]; [found] is the result so far. *)
Fixpoint pool_for_node (nodeName : string) (found : option Pool) (pools : list Pool) : result (option Pool) :=
  match pools with
  | [] => Ok found
  | pool :: pools =>
      if (Pool.NodeName pool != nodeName) || Pool.RegistrationRetired pool then pool_for_node nodeName found pools
      else match found with
           | Some _ => Err duplicatePoolError
           | None => pool_for_node nodeName (Some pool) pools
           end
  end.

Definition PoolForNode (nodeName : string) (listed : result (list PoolObject)) : result Pool :=
  if nodeName == "" then Err (Wrapf [ErrPoolConfiguration] "%w: node name is required")
  else
    pools ← Pools listed;
    found ← pool_for_node nodeName None pools;
    match found with
    | None => Err (Wrapf [ErrPoolNotFound] "%w: no ShiftPVPool is registered for node %q")
    | Some pool => Ok pool
    end.

(** Deletion order: by deletion instant, then by name. *)
Definition deletion_le (a b : Pool) : Prop :=
  match Pool.DeletionTimestamp a, Pool.DeletionTimestamp b with
  | Some ta, Some tb => (ta < tb)%Z \/ (ta = tb /\ name_le a b)
  | _, _ => True
  end.

#[export] Instance deletion_le_dec : RelDecision deletion_le.
Proof. intros a b. unfold deletion_le. destruct (Pool.DeletionTimestamp a), (Pool.DeletionTimestamp b); apply _. Defined.

Definition PoolForNodeLifecycle (nodeName : string) (listed : result (list PoolObject)) : result Pool :=
  if nodeName == "" then Err (Wrapf [ErrPoolConfiguration] "%w: node name is required")
  else
    pools ← ListPoolRegistrations listed;
    let candidates := List.filter (fun pool =>
      negb ((Pool.NodeName pool != nodeName) ||
            (Pool.RegistrationRetired pool && is_nil (Pool.DeletionTimestamp pool)))) pools in
    let deleting := List.filter (fun pool => negb (is_nil (Pool.DeletionTimestamp pool))) candidates in
    match merge_sort deletion_le deleting with
    | first :: _ => Ok first
    | [] => match candidates with
            | [] => Err (Wrapf [ErrPoolNotFound] "%w: no ShiftPVPool is registered for node %q")
            | [pool] => Ok pool
            | _ => Err duplicatePoolError
            end
    end.

Section lookups.
Context {AM : Apimachinery}.
(** [apierrors.IsNotFound] *)
Context (IsNotFound : error -> bool).

(** [got] is the API's answer to the Get by name. *)
Definition PoolForIdentity (poolName uid nodeName : string) (got : result PoolObject) : result Pool :=
  if (poolName == "") || (uid == "") || (nodeName == "")
  then Err (Wrapf [ErrPoolConfiguration] "%w: Pool name, UID, and node name are required")
  else match got with
       | Err err => if IsNotFound err then Err (Wrapf [ErrPoolNotFound] "%w: ShiftPVPool %q")
                    else Err (Wrapf [err] "get ShiftPVPool %q: %w")
       | Ok object =>
           pool ← poolFrom object;
           if (Pool.UID pool != uid) || (Pool.NodeName pool != nodeName)
           then Err (Wrapf [ErrPoolIdentityChanged] "%w: ShiftPVPool %q")
           else if negb (IsAbs (Pool.MountPath pool)) || (Pool.MountPath pool == "/")
           then Err (Wrapf [ErrPoolConfiguration] "%w: ShiftPVPool %q has invalid mountPath")
           else Ok pool
       end.

(** [readiness]: the observation instant and the staleness budget. *)
Definition readiness (configured : Z) : Z := if (configured <=? 0)%Z then DefaultPoolReadinessStaleAfter else configured.

Definition ReadyPoolForNode (nodeName : string) (now staleAfter : Z) (listed : result (list PoolObject)) : result Pool :=
  pool ← PoolForNode nodeName listed;
  if negb (fst (poolReady pool now (readiness staleAfter)))
  then Err (Wrapf [ErrPoolNotReady] "%w: ShiftPVPool %q on node %q: %s")
  else Ok pool.

Definition CleanupPoolForIdentity (poolName uid nodeName : string) (now staleAfter : Z) (got : result PoolObject) : result Pool :=
  pool ← PoolForIdentity poolName uid nodeName got;
  if negb (contains (Pool.Finalizers pool) PoolProtectionFinalizer)
  then Err (Wrapf [ErrStateConflict] "%w: cleanup Pool protection is unavailable")
  else if negb (fst (ExecutionReadyAt pool now (readiness staleAfter)))
  then Err (Wrapf [ErrPoolNotReady] "%w: cleanup Pool %q: %s")
  else Ok pool.

Definition InventoryPoolForIdentity (poolName uid nodeName : string) (now staleAfter : Z) (got : result PoolObject) : result Pool :=
  pool ← PoolForIdentity poolName uid nodeName got;
  if negb (fst (InventoryReadyAt pool now (readiness staleAfter)))
  then Err (Wrapf [ErrPoolNotReady] "%w: inventory Pool %q: %s")
  else Ok pool.

(** The loop of [ReadyPoolForIdentity] over one registration snapshot; the
    outer [None] is a panic of the peer check. *)
Fixpoint ready_pool (poolName uid nodeName : string) (now staleAfter : Z) (peers rest : list Pool) : option (result Pool) :=
  match rest with
  | [] => Some (Err (Wrapf [ErrPoolNotFound] "%w: ShiftPVPool %q"))
  | pool :: rest =>
      if Pool.Name pool != poolName then ready_pool poolName uid nodeName now staleAfter peers rest
      else if (Pool.UID pool != uid) || (Pool.NodeName pool != nodeName)
      then Some (Err (Wrapf [ErrPoolIdentityChanged] "%w: ShiftPVPool %q"))
      else if negb (fst (poolReady pool now (readiness staleAfter)))
      then Some (Err (Wrapf [ErrPoolNotReady] "%w: ShiftPVPool %q on node %q: %s"))
      else match PoolCapacityIndependent pool peers with
           | None => None
           | Some (independent, _) =>
               if negb independent then Some (Err (Wrapf [ErrPoolNotReady] "%w: %s")) else Some (Ok pool)
           end
  end.

Definition ReadyPoolForIdentity (poolName uid nodeName : string) (now staleAfter : Z)
    (got : result PoolObject) (listed : result (list PoolObject)) : option (result Pool) :=
  match PoolForIdentity poolName uid nodeName got with
  | Err err => Some (Err err)
  | Ok _ => match ListPoolRegistrations listed with
            | Err err => Some (Err err)
            | Ok peers => ready_pool poolName uid nodeName now staleAfter peers peers
            end
  end.

(** The loop of [ObservePools]. *)
Fixpoint observe_ready (now staleAfter : Z) (pools rest : list Pool) : option (list Pool) :=
  match rest with
  | [] => Some []
  | pool :: rest =>
      if fst (poolReady pool now staleAfter) then
        match PoolCapacityIndependent pool pools with
        | None => None
        | Some (independent, _) =>
            ready ← observe_ready now staleAfter pools rest;
            Some (if independent then pool :: ready else ready)
        end
      else observe_ready now staleAfter pools rest
  end.

Definition ObservePools (now staleAfter : Z) (listed : result (list PoolObject)) : option (result (list Pool * list Pool)) :=
  match ListPools listed with
  | Err err => Some (Err err)
  | Ok pools => ready ← observe_ready now (readiness staleAfter) pools pools; Some (Ok (pools, ready))
  end.

Definition PoolNodesForGroup (group : string) (listed : result (list PoolObject)) : result (list string) :=
  pools ← Pools listed;
  Ok (sorted_nodes (map Pool.NodeName (List.filter (fun pool =>
    Check.OK (TopologyConfigurationCheck pool) && ((group == "") || (Pool.PoolGroup pool == group))) pools))).

(** [protectedCreationPool]: the owner's Pool with its protection installed. *)
Definition protectedCreationPool (copy : CopyIdentity) (got : result PoolObject) : result Pool :=
  pool ← PoolForIdentity (PoolName copy) (PoolUID copy) (NodeName copy) got;
  if negb (is_nil (Pool.DeletionTimestamp pool)) || negb (contains (Pool.Finalizers pool) PoolProtectionFinalizer)
  then Err (Wrapf [ErrPoolNotReady] "%w: creation Pool protection is unavailable")
  else Ok pool.

Definition CreationPoolForIdentity (copy : CopyIdentity) (now staleAfter : Z) (got : result PoolObject) : result Pool :=
  if negb (is_ok (Validate copy)) || (Role copy != RoleServing) then Err ErrStateConflict
  else
    pool ← protectedCreationPool copy got;
    if negb (Check.OK (BackingConfigurationCheck pool)) then Err (Wrapf [ErrPoolNotReady] "%w: creation Pool %q: %s")
    else if negb (fst (ExecutionReadyAt pool now (readiness staleAfter)))
    then Err (Wrapf [ErrPoolNotReady] "%w: creation Pool %q: %s")
    else Ok pool.
End lookups.

(** ** Writes *)

Definition set_status (object : PoolObject) (status : PoolStatus) : PoolObject :=
  {| PoolObject.metadata := PoolObject.metadata object; PoolObject.spec := PoolObject.spec object;
     PoolObject.status := Present status |}.

Definition set_annotation (object : PoolObject) (key value : string) : PoolObject :=
  let m := PoolObject.metadata object in
  {| PoolObject.metadata :=
       {| Metadata.Name := Metadata.Name m; Metadata.UID := Metadata.UID m;
          Metadata.ResourceVersion := Metadata.ResourceVersion m; Metadata.Generation := Metadata.Generation m;
          Metadata.Finalizers := Metadata.Finalizers m; Metadata.DeletionTimestamp := Metadata.DeletionTimestamp m;
          Metadata.Annotations := <[key := value]> (Metadata.Annotations m) |};
     PoolObject.spec := PoolObject.spec object; PoolObject.status := PoolObject.status object |}.

(** [SetPoolStatus]'s apply function; the probe answer belongs to another writer
    and is kept. *)
Definition SetPoolStatus_apply (nodeName : string) (status : PoolStatus) (object : PoolObject) : result PoolObject :=
  if PoolSpec.nodeName (PoolObject.spec object) != nodeName
  then Err (Wrapf [ErrStateConflict] "%w: ShiftPVPool %q belongs to node %q, not %q")
  else
    current ← poolFrom object;
    if negb (is_nil (PoolStatus.CapacityUnit (Pool.Status current))) &&
       negb (Unit.SameCapacityUnit (PoolStatus.CapacityUnit (Pool.Status current)) (PoolStatus.CapacityUnit status))
    then Err (Wrapf [ErrStateConflict] "%w: ShiftPVPool %q capacity identity cannot be changed or cleared")
    else if PoolStatus.RegistrationApproved (Pool.Status current) && negb (PoolStatus.RegistrationApproved status)
    then Err (Wrapf [ErrStateConflict] "%w: ShiftPVPool %q registration approval cannot be cleared")
    else if negb (PoolStatus.ObservedGeneration status =? 0)%Z &&
            negb (PoolStatus.ObservedGeneration status =? Pool.Generation current)%Z
    then Err (Wrapf [ErrPoolObservationChanged] "%w: ShiftPVPool %q")
    else if negb (is_nil (PoolStatus.CapacityUnit status)) && negb (is_ok (Unit.Validate (PoolStatus.CapacityUnit status)))
    then Err (Errorf "invalid ShiftPVPool capacity identity: %w")
    else Ok (set_status object (PoolStatus.set_CapacityProbe status (PoolStatus.CapacityProbe (Pool.Status current)))).

Definition ApprovePoolIdentityRelease_apply (uid : string) (object : PoolObject) : result PoolObject :=
  if is_nil (Metadata.DeletionTimestamp (PoolObject.metadata object))
  then Err (Wrapf [ErrStateConflict] "%w: ShiftPVPool %q is not deleting")
  else if annotation (PoolObject.metadata object) PoolIdentityReleaseAnnotation == uid then Err errObjectUnchanged
  else Ok (set_annotation object PoolIdentityReleaseAnnotation uid).

Section pool_writes.
Context {AM : Apimachinery}.

Definition ApprovePoolRetirement_apply (uid : string) (object : PoolObject) : result PoolObject :=
  pool ← poolFrom object;
  if Pool.RegistrationRetired pool then Err errObjectUnchanged
  else if negb (Pool.RetirementRequested pool) || negb (RegistrationApproved pool) ||
          negb (contains (Pool.Finalizers pool) PoolProtectionFinalizer)
  then Err (Wrapf [ErrStateConflict] "%w: retirement requires the current UID request and protected approved registration")
  else Ok (set_annotation object PoolRetirementApprovalAnnotation uid).
End pool_writes.

(** [mutatePoolProbe]: the guard around both probe writes. *)
Definition mutatePoolProbe_apply (expected : Pool) (change : PoolObject -> result PoolObject) (object : PoolObject) : result PoolObject :=
  current ← poolFrom object;
  if (Pool.NodeName current != Pool.NodeName expected) || (Pool.Generation current != Pool.Generation expected) ||
     (Pool.MountPath current != Pool.MountPath expected) || negb (is_nil (Pool.DeletionTimestamp current)) ||
     (PoolStatus.MountIdentity (Pool.Status current) != PoolStatus.MountIdentity (Pool.Status expected)) ||
     (PoolStatus.CapacityUnit (Pool.Status current) != PoolStatus.CapacityUnit (Pool.Status expected))
  then Err (Wrapf [ErrStateConflict] "%w: capacity probe Pool evidence changed")
  else change object.

Definition RequestPoolCapacityProbe_apply (expected : Pool) (request : string) : PoolObject -> result PoolObject :=
  mutatePoolProbe_apply expected (fun object => Ok (set_annotation object PoolCapacityProbeRequestAnnotation request)).

Definition RecordPoolCapacityProbe_apply (expected : Pool) (answer : PoolCapacityProbeResult) : PoolObject -> result PoolObject :=
  mutatePoolProbe_apply expected (fun object =>
    if (Pool.CapacityProbeRequest expected == "") ||
       (annotation (PoolObject.metadata object) PoolCapacityProbeRequestAnnotation != Pool.CapacityProbeRequest expected)
    then Err (Wrapf [ErrStateConflict] "%w: capacity probe request changed")
    else
      status ← decode (PoolObject.status object) "status";
      Ok (set_status object (PoolStatus.set_CapacityProbe (default PoolStatus.empty status) (Some answer)))).

(** The object [RequestPoolScan] submits. *)
Definition RequestPoolScan_apply (target : CopyIdentity) (object : PoolObject) : result PoolObject :=
  let m := PoolObject.metadata object in
  let spec := PoolObject.spec object in
  if (Metadata.UID m != PoolUID target) || negb (contains (Metadata.Finalizers m) PoolProtectionFinalizer)
  then Err (Wrapf [ErrStateConflict] "%w: Pool identity or protection changed")
  else if PoolSpec.nodeName spec != NodeName target then Err (Wrapf [ErrStateConflict] "%w: Pool node changed")
  else
    epoch ← decode (PoolSpec.scanEpoch spec) "spec.scanEpoch";
    let epoch := default 0%Z epoch in
    if (epoch <? 0)%Z || (epoch =? MaxInt64)%Z then Err (Wrapf [ErrStateConflict] "%w: Pool scan epoch is exhausted")
    else Ok {| PoolObject.metadata := m;
               PoolObject.spec := {| PoolSpec.nodeName := PoolSpec.nodeName spec; PoolSpec.poolGroup := PoolSpec.poolGroup spec;
                 PoolSpec.mountPath := PoolSpec.mountPath spec; PoolSpec.mountPolicy := PoolSpec.mountPolicy spec;
                 PoolSpec.capacityPolicy := PoolSpec.capacityPolicy spec;
                 PoolSpec.capacityLimit := PoolSpec.capacityLimit spec;
                 PoolSpec.scanEpoch := Present (epoch + 1)%Z |};
               PoolObject.status := PoolObject.status object |}.

(** The generation fence it returns from the API's answer. *)
Definition RequestPoolScan_fence (previousGeneration updated : Z) : result Z :=
  if (updated <=? previousGeneration)%Z || (updated <=? 0)%Z
  then Err (Wrapf [ErrStateConflict] "%w: Pool scan request did not advance generation")
  else Ok updated.

(** ** Anchors *)

(** The writes of ShiftPV's clients to one Pool object; identity writes carry the
    UID that [mutateObject] compared with the object's. *)
Inductive pool_write {AM : Apimachinery} (o : PoolObject) : PoolObject -> Prop :=
| write_status nodeName status o' : SetPoolStatus_apply nodeName status o = Ok o' -> pool_write o o'
| write_release o' :
    ApprovePoolIdentityRelease_apply (Metadata.UID (PoolObject.metadata o)) o = Ok o' -> pool_write o o'
| write_retirement o' :
    ApprovePoolRetirement_apply (Metadata.UID (PoolObject.metadata o)) o = Ok o' -> pool_write o o'
| write_request expected request o' : RequestPoolCapacityProbe_apply expected request o = Ok o' -> pool_write o o'
| write_answer expected answer o' : RecordPoolCapacityProbe_apply expected answer o = Ok o' -> pool_write o o'
| write_scan target o' : RequestPoolScan_apply target o = Ok o' -> pool_write o o'.

(** What no write may lose: the Pool's identity and configuration, an approved
    registration, the evidence of its allocation, and its retirement. *)
Record anchored (p p' : Pool) : Prop := {
  anchored_UID : Pool.UID p' = Pool.UID p;
  anchored_NodeName : Pool.NodeName p' = Pool.NodeName p;
  anchored_MountPath : Pool.MountPath p' = Pool.MountPath p;
  anchored_CapacityPolicy : Pool.CapacityPolicy p' = Pool.CapacityPolicy p;
  anchored_approved :
    PoolStatus.RegistrationApproved (Pool.Status p) = true -> PoolStatus.RegistrationApproved (Pool.Status p') = true;
  anchored_unit u :
    PoolStatus.CapacityUnit (Pool.Status p) = Some u -> PoolStatus.CapacityUnit (Pool.Status p') = Some u;
  anchored_retired : Pool.RegistrationRetired p = true -> Pool.RegistrationRetired p' = true
}.

#[export] Instance anchored_preorder : PreOrder anchored.
Proof.
  split; [by split|]. intros p1 p2 p3 H1 H2. destruct H1, H2. split; try congruence; eauto.
Qed.

Lemma poolFrom_set_status (o : PoolObject) (p : Pool) (status : PoolStatus) :
  poolFrom o = Ok p ->
  exists p', poolFrom (set_status o status) = Ok p' /\ Pool.Status p' = status /\
    ((PoolStatus.RegistrationApproved (Pool.Status p) = true -> PoolStatus.RegistrationApproved status = true) ->
     (forall u, PoolStatus.CapacityUnit (Pool.Status p) = Some u -> PoolStatus.CapacityUnit status = Some u) ->
     anchored p p').
Proof.
  intros H. unfold poolFrom in H. apply bind_Ok in H as (s & Hs & H). injection H as <-.
  eexists. split; [reflexivity|]. split; [done|]. intros Ha Hu. by split.
Qed.

Lemma poolFrom_set_annotation (o : PoolObject) (p : Pool) (key value : string) :
  poolFrom o = Ok p -> (key = PoolRetirementApprovalAnnotation -> value = Pool.UID p) ->
  exists p', poolFrom (set_annotation o key value) = Ok p' /\ anchored p p'.
Proof.
  intros H Hkey. unfold poolFrom in H. apply bind_Ok in H as (s & Hs & H). injection H as <-.
  unfold poolFrom, set_annotation. simpl. rewrite Hs. simpl. eexists. split; [reflexivity|].
  split; try done. unfold Pool.RegistrationRetired, annotation. simpl in *. rewrite !andb_true_iff. intros [Hu Hr].
  split; [done|]. destruct (decide (key = PoolRetirementApprovalAnnotation)) as [->|Hne].
  - rewrite lookup_insert_eq. simpl. rewrite (Hkey eq_refl). by apply bool_decide_eq_true.
  - by rewrite lookup_insert_ne.
Qed.

Lemma SameCapacityUnit_eq (left right : option CapacityUnit) :
  Unit.SameCapacityUnit left right = true -> left = right.
Proof. unfold Unit.SameCapacityUnit. rewrite !andb_true_iff, bool_decide_eq_true. tauto. Qed.

Lemma SetPoolStatus_anchored (o o' : PoolObject) (p : Pool) (nodeName : string) (status : PoolStatus) :
  poolFrom o = Ok p -> SetPoolStatus_apply nodeName status o = Ok o' -> exists p', poolFrom o' = Ok p' /\ anchored p p'.
Proof.
  intros Hp H. unfold SetPoolStatus_apply in H. destruct (PoolSpec.nodeName _ != nodeName); [done|].
  rewrite Hp in H. cbn [mbind result_bind] in H.
  destruct (negb (is_nil _) && negb (Unit.SameCapacityUnit _ _)) eqn:E1; [done|].
  destruct (PoolStatus.RegistrationApproved _ && _) eqn:E2; [done|].
  destruct (_ && _) eqn:E3 in H; [done|]. destruct (_ && _) eqn:E4 in H; [done|]. injection H as <-.
  destruct (poolFrom_set_status o p (PoolStatus.set_CapacityProbe status (PoolStatus.CapacityProbe (Pool.Status p))) Hp)
    as (p' & Hp' & _ & Hanch).
  exists p'. split; [done|]. apply Hanch; simpl.
  - intros Ha. rewrite Ha in E2. simpl in E2. by apply negb_false_iff.
  - intros u Hu. rewrite Hu in E1. simpl in E1. apply negb_false_iff in E1. by apply SameCapacityUnit_eq in E1.
Qed.

Lemma pool_write_anchored {AM : Apimachinery} (o o' : PoolObject) (p : Pool) :
  poolFrom o = Ok p -> pool_write o o' -> exists p', poolFrom o' = Ok p' /\ anchored p p'.
Proof.
  intros Hp Hw.
  assert (Pool.UID p = Metadata.UID (PoolObject.metadata o)) as Huid
    by (unfold poolFrom in Hp; apply bind_Ok in Hp as (? & _ & Hp); by injection Hp as <-).
  destruct Hw as [nodeName status o' H|o' H|o' H|expected request o' H|expected answer o' H|target o' H].
  - by eapply SetPoolStatus_anchored.
  - unfold ApprovePoolIdentityRelease_apply in H. destruct (is_nil _); [done|]. case_bool_decide; [done|].
    injection H as <-. by apply poolFrom_set_annotation.
  - unfold ApprovePoolRetirement_apply in H. rewrite Hp in H. cbn [mbind result_bind] in H.
    destruct (Pool.RegistrationRetired p); [done|]. destruct (_ || _); [done|]. injection H as <-.
    by apply poolFrom_set_annotation.
  - unfold RequestPoolCapacityProbe_apply, mutatePoolProbe_apply in H. rewrite Hp in H. cbn [mbind result_bind] in H.
    destruct (_ || _) in H; [done|]. injection H as <-. by apply poolFrom_set_annotation.
  - unfold RecordPoolCapacityProbe_apply, mutatePoolProbe_apply in H. rewrite Hp in H. cbn [mbind result_bind] in H.
    destruct (_ || _) in H; [done|]. destruct (_ || _) in H; [done|]. apply bind_Ok in H as (s & Hs & H). injection H as <-.
    destruct (poolFrom_set_status o p (PoolStatus.set_CapacityProbe (default PoolStatus.empty s) (Some answer)) Hp)
      as (p' & Hp' & _ & Hanch).
    unfold poolFrom in Hp. apply bind_Ok in Hp as (s' & Hs' & Hp). injection Hp as <-.
    assert (s' = s) as -> by (destruct (PoolObject.status o); simpl in *; congruence).
    exists p'. split; [done|]. by apply Hanch.
  - unfold RequestPoolScan_apply in H. destruct (_ || _) in H; [done|].
    destruct (PoolSpec.nodeName _ != _) in H; [done|]. apply bind_Ok in H as (epoch & _ & H).
    destruct (_ || _) in H; [done|]. injection H as <-.
    unfold poolFrom in Hp |- *. apply bind_Ok in Hp as (s & Hs & Hp). injection Hp as <-. simpl. rewrite Hs.
    eexists. split; [reflexivity|]. by split.
Qed.

Lemma pool_writes_anchored {AM : Apimachinery} (o o' : PoolObject) (p : Pool) :
  poolFrom o = Ok p -> rtc pool_write o o' -> exists p', poolFrom o' = Ok p' /\ anchored p p'.
Proof.
  intros Hp H. revert p Hp. induction H as [o|o o1 o' Hw _ IH]; intros p Hp; [by exists p|].
  destruct (pool_write_anchored o o1 p Hp Hw) as (p1 & Hp1 & H1).
  destruct (IH p1 Hp1) as (p' & Hp' & H2). exists p'. split; [done|]. by transitivity p1.
Qed.

(** A Pool's anchors are permanent.  Through any sequence of writes by the
    node agents and the controllers, in any interleaving, a Pool that decodes keeps
    decoding, keeps its identity and configuration, and once recorded its
    registration approval, its block allocation evidence and its retirement are
    never cleared or replaced. *)
Theorem pool_anchors_permanent {AM : Apimachinery} (o o' : PoolObject) (p : Pool) :
  poolFrom o = Ok p -> rtc pool_write o o' -> exists p', poolFrom o' = Ok p' /\ anchored p p'.
Proof. apply pool_writes_anchored. Qed.

(** ** Readiness *)

Lemma and_ready_true (r k : bool * string) : fst (and_ready r k) = true <-> fst r = true /\ fst k = true.
Proof. unfold and_ready. destruct r as [[] ?]; simpl; naive_solver. Qed.

(** An observation no older than the budget and not in the future. *)
Definition observed_within (now staleAfter : Z) (t : option Z) : Prop :=
  exists at_, t = Some at_ /\ (at_ <= now <= at_ + staleAfter)%Z.

Lemma stale_false (now staleAfter : Z) (t : option Z) :
  (staleAfter < MaxInt64)%Z -> stale now staleAfter t = false <-> observed_within now staleAfter t.
Proof.
  intros Hlt. unfold stale, observed_within, time_Sub. destruct t as [t|]; [|naive_solver].
  rewrite orb_false_iff, Z.ltb_ge, Z.ltb_ge. split.
  - intros [? ?]. exists t. split; [done|]. unfold MaxInt64 in *. lia.
  - intros (at_ & Heq & ?). injection Heq as <-. unfold MaxInt64 in *. lia.
Qed.

(** What a placement decision may rely on. *)
Record placeable {AM : Apimachinery} (p : Pool) (now staleAfter : Z) : Prop := {
  placeable_configuration : Check.OK (ConfigurationCheck p) = true;
  placeable_live :
    Pool.DeletionTimestamp p = None /\ Pool.RegistrationRetired p = false /\ Pool.RetirementRequested p = false;
  placeable_probe :
    PoolStatus.ObservedGeneration (Pool.Status p) = Pool.Generation p /\
    observed_within now staleAfter (PoolStatus.LastProbeTime (Pool.Status p));
  placeable_condition : exists c, find_condition p PoolConditionReady = Some c /\
    Condition.Status c = ConditionTrue /\ Condition.ObservedGeneration c = Pool.Generation p;
  placeable_capacity : Pool.CapacityPolicy p <> "" ->
    Pool.CapacityPolicy p = PoolCapacityPolicyFixedBlock /\
    Unit.Validate (PoolStatus.CapacityUnit (Pool.Status p)) = Ok tt;
  placeable_inventory : exists i, PoolStatus.Inventory (Pool.Status p) = Some i /\ PoolInventory.Valid i = true /\
    PoolInventory.Truncated i = false /\ PoolInventory.Message i = "" /\
    observed_within now staleAfter (PoolInventory.ObservedAt i);
  placeable_protected : PoolProtectionFinalizer ∈ Pool.Finalizers p
}.

Lemma poolInventoryReadyAt_true (p : Pool) (now staleAfter : Z) :
  (staleAfter < MaxInt64)%Z -> fst (poolInventoryReadyAt p now staleAfter) = true ->
  exists i, PoolStatus.Inventory (Pool.Status p) = Some i /\ PoolInventory.Valid i = true /\
    PoolInventory.Truncated i = false /\ PoolInventory.Message i = "" /\
    observed_within now staleAfter (PoolInventory.ObservedAt i).
Proof.
  intros Hlt. unfold poolInventoryReadyAt. destruct (PoolStatus.Inventory _) as [i|]; [|done].
  destruct (negb (PoolInventory.Valid i) || _) eqn:E1; [done|]. destruct (PoolInventory.Truncated i) eqn:E2; [done|].
  destruct (stale _ _ _) eqn:E3; [done|]. intros _. apply stale_false in E3; [|done]. go_inv. exists i. by split_and!.
Qed.

Lemma capacityBackingReadyAt_true {AM : Apimachinery} (p : Pool) (generation : Z) :
  fst (capacityBackingReadyAt p generation) = true -> Pool.CapacityPolicy p <> "" ->
  Pool.CapacityPolicy p = PoolCapacityPolicyFixedBlock /\ Unit.Validate (PoolStatus.CapacityUnit (Pool.Status p)) = Ok tt.
Proof.
  unfold capacityBackingReadyAt. intros H Hne. rewrite bool_decide_eq_false_2 in H by done.
  destruct (_ || _) eqn:E in H; [done|]. apply orb_false_iff in E as [E1 E2].
  apply negb_false_iff, bool_decide_eq_true in E1. apply negb_false_iff, is_ok_unit in E2. done.
Qed.

Lemma readyAt_true {AM : Apimachinery} (p : Pool) (now staleAfter generation : Z) :
  (staleAfter < MaxInt64)%Z -> fst (readyAt p now staleAfter generation) = true ->
  (Pool.DeletionTimestamp p = None /\ Pool.RegistrationRetired p = false /\ Pool.RetirementRequested p = false) /\
  (PoolStatus.ObservedGeneration (Pool.Status p) = generation /\
   observed_within now staleAfter (PoolStatus.LastProbeTime (Pool.Status p))) /\
  (exists c, find_condition p PoolConditionReady = Some c /\ Condition.Status c = ConditionTrue /\
     Condition.ObservedGeneration c = generation) /\
  fst (capacityReadyAt p generation) = true.
Proof.
  intros Hlt H. unfold readyAt in H.
  destruct (Pool.RegistrationRetired p); [done|]. destruct (Pool.RetirementRequested p); [done|].
  destruct (Pool.DeletionTimestamp p); [done|]. simpl in H.
  destruct (find_condition p PoolConditionReady) as [c|] eqn:Ec; [|done].
  destruct (Condition.Status c != ConditionTrue) eqn:E1; [done|].
  destruct (negb _ || negb _) eqn:E2; [done|]. destruct (_ || stale _ _ _) eqn:E3; [done|].
  apply orb_false_iff in E2 as [E2 E2']. apply negb_false_iff, Z.eqb_eq in E2, E2'.
  apply orb_false_iff in E3 as [_ E3]. apply stale_false in E3; [|done].
  apply negb_false_iff, bool_decide_eq_true in E1.
  apply and_ready_true in H as [_ H]. apply and_ready_true in H as [H _].
  split_and!; try done. by exists c.
Qed.

(** [poolReady], the single gate for new placement, admits a Pool only with
    everything placement relies on: a valid configuration, a registration that is
    neither deleting nor retired nor asked to retire, a Ready probe of the current
    generation no older than the staleness budget, valid block allocation evidence
    under the FixedBlock policy, a complete inventory within the same budget, and
    the installed protection. *)
Theorem poolReady_sound {AM : Apimachinery} (p : Pool) (now staleAfter : Z) :
  (staleAfter < MaxInt64)%Z -> fst (poolReady p now staleAfter) = true -> placeable p now staleAfter.
Proof.
  intros Hlt H. unfold poolReady in H. destruct (Check.OK (ConfigurationCheck p)) eqn:Ec; [|done]. simpl in H.
  apply and_ready_true in H as [Hr H]. apply and_ready_true in H as [Hi H].
  apply readyAt_true in Hr as (Hlive & Hprobe & Hcond & Hcap); [|done].
  apply and_ready_true in Hcap as [Hcap _].
  split; try done.
  - by apply (capacityBackingReadyAt_true p (Pool.Generation p)).
  - by apply poolInventoryReadyAt_true.
  - destruct (contains _ _) eqn:E; [|done]. by apply contains_true.
Qed.

(** Readiness for already-approved effects is weaker than readiness for
    cleanup and inventory decisions: whatever is cleanup-ready for a started
    generation is execution-ready, at the same instant and with the same budget,
    because only the generation the evidence must come from is relaxed. *)
Theorem cleanup_ready_executes {AM : Apimachinery} (p : Pool) (now staleAfter : Z) :
  (0 < Pool.Generation p)%Z -> fst (CleanupReadyAt p now staleAfter) = true ->
  fst (ExecutionReadyAt p now staleAfter) = true.
Proof.
  intros Hg H.
  assert (PoolStatus.ObservedGeneration (Pool.Status p) = Pool.Generation p) as E.
  { unfold CleanupReadyAt, cleanupReadyAt in H. destruct (negb (Check.OK _)); [done|]. destruct (_ && _); [done|].
    destruct (_ =? _)%Z eqn:E; [|done]. by apply Z.eqb_eq. }
  unfold ExecutionReadyAt. rewrite E. destruct (Z.leb_spec (Pool.Generation p) 0); [lia|].
  rewrite Z.ltb_irrefl. exact H.
Qed.

(** ** Independent placement *)

Definition pool_u64 (p : Pool) : Prop :=
  forall u, PoolStatus.CapacityUnit (Pool.Status p) = Some u -> Forall extent_u64 (Unit.Extents u).

(** [peer] counts against placing into [pool]. *)
Definition competes {AM : Apimachinery} (pool peer : Pool) : Prop :=
  Pool.NodeName peer = Pool.NodeName pool /\ Pool.UID peer <> Pool.UID pool /\
  (RegistrationApproved pool = true -> RegistrationApproved peer = true).

Lemma PoolCapacityIndependent_spec {AM : Apimachinery} (pool : Pool) (pools : list Pool) :
  pool_u64 pool -> Forall pool_u64 pools ->
  exists independent reason, PoolCapacityIndependent pool pools = Some (independent, reason) /\
    (independent = true -> Pool.DeletionTimestamp pool = None ->
     forall peer, peer ∈ pools -> competes pool peer ->
       PathsOverlap (Pool.MountPath pool) (Pool.MountPath peer) = false /\
       (Pool.RegistrationRetired peer = false -> isolated (registrationAllocation pool) (registrationAllocation peer))).
Proof.
  intros Hp Hall. unfold PoolCapacityIndependent.
  assert (Forall unit_u64 (map registrationAllocation pools)) as Hall'
    by (apply Forall_fmap; eapply Forall_impl; [exact Hall|done]).
  destruct (Independent_spec (registrationAllocation pool) (map registrationAllocation pools) Hp Hall')
    as (check & -> & Hc).
  eexists _, _. split; [done|]. intros Hok Hdel peer Hin (Hn & Hu & Ha).
  destruct Hc as [_ Hpeers]; [done|by simpl; rewrite Hdel|].
  apply (Hpeers (registrationAllocation peer)); [by apply list_elem_of_fmap_2|by split_and!].
Qed.

Lemma ready_pool_spec {AM : Apimachinery} (poolName uid nodeName : string) (now staleAfter : Z) (peers rest : list Pool) :
  Forall pool_u64 peers -> rest ⊆ peers ->
  exists r, ready_pool poolName uid nodeName now staleAfter peers rest = Some r /\
    forall pool, r = Ok pool -> pool ∈ rest /\ Pool.UID pool = uid /\ Pool.NodeName pool = nodeName /\
      fst (poolReady pool now (readiness staleAfter)) = true /\
      exists reason, PoolCapacityIndependent pool peers = Some (true, reason).
Proof.
  intros Hall. induction rest as [|pool rest IH]; intros Hsub; [by eexists|]. simpl.
  destruct IH as (r & Er & Hr); [set_solver|].
  destruct (Pool.Name pool != poolName).
  { exists r. split; [done|]. intros q Hq. destruct (Hr q Hq) as [Hin Hrest]. split; [set_solver|done]. }
  destruct (_ || _) eqn:E1; [by eexists|]. destruct (fst (poolReady _ _ _)) eqn:E2; simpl; [|by eexists].
  assert (pool_u64 pool) as Hp by (rewrite Forall_forall in Hall; apply Hall; set_solver).
  destruct (PoolCapacityIndependent_spec pool peers Hp Hall) as (ind & reason & Ei & _). rewrite Ei.
  destruct ind; simpl; [|by eexists]. eexists. split; [done|]. intros q Hq. injection Hq as <-.
  apply orb_false_iff in E1 as [Eu En]. apply negb_false_iff, bool_decide_eq_true in Eu, En.
  split_and!; [set_solver|done..|by exists reason].
Qed.

(** Placement into an exact Pool is isolated.  [ReadyPoolForIdentity] always
    returns (no missing evidence makes it panic), and a Pool it returns is the
    requested incarnation, is ready for placement, and in the very snapshot it was
    judged by shares no path with any competing registration of its node, retired
    ones included, and no sector of its backing with a live one. *)
Theorem ReadyPoolForIdentity_isolated {AM : Apimachinery} (IsNotFound : error -> bool) (poolName uid nodeName : string)
    (now staleAfter : Z) (got : result PoolObject) (listed : result (list PoolObject)) (peers : list Pool) :
  ListPoolRegistrations listed = Ok peers -> Forall pool_u64 peers ->
  exists r, ReadyPoolForIdentity IsNotFound poolName uid nodeName now staleAfter got listed = Some r /\
    forall pool, r = Ok pool ->
      pool ∈ peers /\ Pool.UID pool = uid /\ Pool.NodeName pool = nodeName /\
      fst (poolReady pool now (readiness staleAfter)) = true /\
      forall peer, peer ∈ peers -> competes pool peer ->
        PathsOverlap (Pool.MountPath pool) (Pool.MountPath peer) = false /\
        (Pool.RegistrationRetired peer = false -> isolated (registrationAllocation pool) (registrationAllocation peer)).
Proof.
  intros Hl Hall. unfold ReadyPoolForIdentity. destruct (PoolForIdentity _ _ _ _ _); [|by eexists]. rewrite Hl.
  destruct (ready_pool_spec poolName uid nodeName now staleAfter peers peers Hall) as (r & Er & Hr); [done|].
  exists r. split; [done|]. intros pool Hpool. destruct (Hr pool Hpool) as (Hin & Hu & Hn & Hready & reason & Hind).
  split_and!; try done. rewrite Forall_forall in Hall.
  destruct (PoolCapacityIndependent_spec pool peers (Hall pool Hin)) as (ind & reason' & E & Hiso);
    [by apply Forall_forall|].
  rewrite Hind in E. injection E as <- <-. apply Hiso; [done|].
  destruct (Pool.DeletionTimestamp pool) eqn:Ed; [|done]. exfalso.
  unfold poolReady in Hready. destruct (negb _) in Hready; [done|]. apply and_ready_true in Hready as [Hready _].
  unfold ReadyAt, readyAt in Hready. rewrite Ed in Hready. repeat case_match; done.
Qed.

(** ** Sample Pools *)

Module SamplePool.
Definition condition (t : string) : Condition :=
  {| Condition.Type_ := t; Condition.Status := ConditionTrue; Condition.ObservedGeneration := 1;
     Condition.Reason := "Verified"; Condition.Message := "" |}.

Definition unit_at (first : Z) : CapacityUnit :=
  {| Unit.Device := "253:0"; Unit.Source := "/dev/vg/a"; Unit.Filesystem := "xfs";
     Unit.Extents := [{| Device := "8:0"; Start := first; Sectors := 64 |}] |}.

Definition status (first : Z) : PoolStatus :=
  {| PoolStatus.RegistrationApproved := true; PoolStatus.CapacityProbeSupported := true;
     PoolStatus.CapacityProbe := None; PoolStatus.FilesystemTotalBytes := 0;
     PoolStatus.FilesystemAvailableBytes := None; PoolStatus.FilesystemAvailableInodes := None;
     PoolStatus.ObservedGeneration := 1; PoolStatus.LastProbeTime := Some 1000%Z;
     PoolStatus.CapacityUnit := Some (unit_at first); PoolStatus.MountIdentity := None;
     PoolStatus.Conditions := map condition [PoolConditionReady; PoolConditionAccessible; PoolConditionWritable;
       PoolConditionCapacityReadable; PoolConditionCapacityBackingVerified; PoolConditionCapacityIndependent];
     PoolStatus.Inventory := Some {| PoolInventory.ObservedAt := Some 1000%Z; PoolInventory.Valid := true;
       PoolInventory.Truncated := false; PoolInventory.Reason := ""; PoolInventory.Message := "";
       PoolInventory.Copies := [] |} |}.

Definition object (n uid path : string) (first : Z) : PoolObject :=
  {| PoolObject.metadata := {| Metadata.Name := n; Metadata.UID := uid; Metadata.ResourceVersion := "1";
       Metadata.Generation := 1; Metadata.Finalizers := [PoolProtectionFinalizer];
       Metadata.DeletionTimestamp := None;
       Metadata.Annotations := {[PoolRetirementRequestAnnotation := ""]} |};
     PoolObject.spec := {| PoolSpec.nodeName := "node-a"; PoolSpec.poolGroup := None; PoolSpec.mountPath := path;
       PoolSpec.mountPolicy := ""; PoolSpec.capacityPolicy := FixedBlock; PoolSpec.capacityLimit := "1000000";
       PoolSpec.scanEpoch := Absent |};
     PoolObject.status := Present (status first) |}.

Definition a : PoolObject := object "a" "uid-a" "/pools/a" 0.
Definition b : PoolObject := object "b" "uid-b" "/pools/b" 64.
Definition notFound (_ : error) : bool := false.
End SamplePool.

Lemma pool_anchors_permanent_witness :
  exists o' p, rtc (pool_write (AM := Sample.sample)) SamplePool.a o' /\ o' <> SamplePool.a /\
    poolFrom SamplePool.a = Ok p /\ exists p', poolFrom o' = Ok p' /\ anchored p p'.
Proof.
  assert (exists p, poolFrom SamplePool.a = Ok p) as [p Hp] by (eexists; reflexivity).
  assert (exists o', RequestPoolScan_apply {| InstallationID := ""; PoolName := "a"; PoolUID := "uid-a"; VolumeID := "";
    VolumeUID := ""; CopyID := ""; NodeName := "node-a"; Role := "" |} SamplePool.a = Ok o')
    as [o2 H2] by (eexists; vm_compute; reflexivity).
  assert (rtc (pool_write (AM := Sample.sample)) SamplePool.a o2) as Hw by (apply rtc_once; by eapply write_scan).
  exists o2, p. split; [exact Hw|]. split; [vm_compute in H2; injection H2 as <-; discriminate|]. split; [exact Hp|].
  exact (pool_anchors_permanent (AM := Sample.sample) SamplePool.a o2 p Hp Hw).
Defined.

Lemma poolReady_sound_witness :
  exists p, poolFrom SamplePool.a = Ok p /\ placeable (AM := Sample.sample) p 2000 180000000000.
Proof.
  eexists. split; [reflexivity|].
  apply (poolReady_sound (AM := Sample.sample)); [reflexivity|vm_compute; reflexivity].
Defined.

Lemma cleanup_ready_executes_witness :
  exists p, poolFrom SamplePool.a = Ok p /\ fst (ExecutionReadyAt (AM := Sample.sample) p 2000 180000000000) = true.
Proof.
  eexists. split; [reflexivity|].
  apply (cleanup_ready_executes (AM := Sample.sample)); [reflexivity|vm_compute; reflexivity].
Defined.

Lemma ReadyPoolForIdentity_isolated_witness :
  exists pool peers, ListPoolRegistrations (Ok [SamplePool.a; SamplePool.b]) = Ok peers /\
    ReadyPoolForIdentity (AM := Sample.sample) SamplePool.notFound "a" "uid-a" "node-a" 2000 0
      (Ok SamplePool.a) (Ok [SamplePool.a; SamplePool.b]) = Some (Ok pool) /\
    Forall (fun peer => Pool.UID peer <> Pool.UID pool ->
      isolated (registrationAllocation (AM := Sample.sample) pool) (registrationAllocation (AM := Sample.sample) peer)) peers.
Proof.
  assert (exists peers, ListPoolRegistrations (Ok [SamplePool.a; SamplePool.b]) = Ok peers) as [peers Hl]
    by (eexists; vm_compute; reflexivity).
  assert (exists pool, ReadyPoolForIdentity (AM := Sample.sample) SamplePool.notFound "a" "uid-a" "node-a" 2000 0
      (Ok SamplePool.a) (Ok [SamplePool.a; SamplePool.b]) = Some (Ok pool)) as [pool Hr]
    by (eexists; vm_compute; reflexivity).
  exists pool, peers. split; [exact Hl|]. split; [exact Hr|].
  assert (Forall pool_u64 peers) as Hu.
  { vm_compute in Hl. injection Hl as <-. repeat constructor; intros u Hu; injection Hu as <-;
      repeat constructor; unfold MaxUint64; simpl; lia. }
  destruct (ReadyPoolForIdentity_isolated (AM := Sample.sample) SamplePool.notFound "a" "uid-a" "node-a" 2000 0
    (Ok SamplePool.a) (Ok [SamplePool.a; SamplePool.b]) peers Hl Hu) as (r & Er & Hiso).
  rewrite Hr in Er. injection Er as <-. destruct (Hiso pool eq_refl) as (_ & _ & _ & _ & Hpeers).
  apply Forall_forall. intros peer Hin Hne.
  vm_compute in Hl. injection Hl as <-. vm_compute in Hr. injection Hr as <-.
  apply (Hpeers peer Hin); apply elem_of_cons in Hin as [->|Hin];
    [congruence| |congruence|]; apply list_elem_of_singleton in Hin as ->;
    [split_and!; [reflexivity|exact Hne|reflexivity]|reflexivity].
Defined.
