(* ===== verification/VolumeRegistry.v ===== *)
(** * The volume registry

    The operations of src/kubernetes/volumeapi on volumes as whole handlers: guards
    before the API is called, the compare-and-set loop, and what is checked on the
    object read back (volume.go, creation_intent.go, creation_claim.go,
    creation_executor.go, creation_cancellation.go).  A handler runs in the world
    [W] of the API client; reads of Pools and of the installation identity, and the
    creation and deletion of objects, are API calls of the same world. *)

From S2P Require Import Prelude Bytes VolumeIdentity Apimachinery ApiServer VolumeState VolumeProtocol PoolApi.
From stdpp Require Import relations.

(** Volumes as API objects: the status subresource changes the status only, and
    an object whose deletion was requested disappears with its last finalizer. *)
#[export] Program Instance VolumeObject_object : ApiObject VolumeObject := {
  meta := metadata;
  with_finalizers o fs :=
    {| metadata := Metadata.set_Finalizers (metadata o) fs; spec := spec o; status := status o |};
  with_resourceVersion o rv :=
    {| metadata := Metadata.set_ResourceVersion (metadata o) rv; spec := spec o; status := status o |};
  persist through_status current submitted :=
    if through_status
    then Some {| metadata := metadata current; spec := spec current; status := status submitted |}
    else if negb (is_nil (Metadata.DeletionTimestamp (metadata current))) &&
            (length (Metadata.Finalizers (metadata submitted)) =? 0)%nat then None
    else Some {| metadata := Metadata.set_Finalizers (metadata current) (Metadata.Finalizers (metadata submitted));
                 spec := spec submitted; status := status current |}
}.
Next Obligation. done. Qed.
Next Obligation. done. Qed.
Next Obligation. intros [] current submitted o; simpl; [by intros [= <-]|]. case_match; [done|]. by intros [= <-]. Qed.
Next Obligation. done. Qed.

Section registry.
Context {AM : Apimachinery} {W : Type} {AC : ApiClient W VolumeObject}.

(** Other API calls of a handler. *)
Context (InstallationID : io W string)
        (get_pool : string -> io W PoolObject)
        (list_pools : io W (list PoolObject))
        (create_volume : VolumeObject -> io W VolumeObject)
        (clock : io W Z) (staleAfter : Z).

Definition catch {A : Type} (c : io W A) : io W (result A) := fun w => let '(r, w) := c w in (Ok r, w).

(** [if err != nil { return fmt.Errorf(format, err) }] *)
Definition wrap_error {A : Type} (format : string) (c : io W A) : io W A := fun w =>
  match c w with
  | (Err err, w) => (Err (Wrapf [err] format), w)
  | r => r
  end.

(** A panic of the peer check of Pools; [ReadyPoolForIdentity_isolated] shows it
    is unreachable. *)
Definition no_panic {A : Type} (r : option (result A)) : result A :=
  match r with Some r => r | None => Err (Errorf "panic") end.

Definition pool_for_identity (poolName uid nodeName : string) : io W Pool :=
  got ← catch (get_pool poolName);
  io_lift (PoolForIdentity IsNotFound poolName uid nodeName got).

Definition ready_pool_for_node (nodeName : string) : io W Pool :=
  listed ← catch list_pools;
  t ← clock;
  io_lift (ReadyPoolForNode nodeName t staleAfter listed).

Definition ready_pool_for_identity (poolName uid nodeName : string) : io W Pool :=
  got ← catch (get_pool poolName);
  listed ← catch list_pools;
  t ← clock;
  io_lift (no_panic (ReadyPoolForIdentity IsNotFound poolName uid nodeName t staleAfter got listed)).

(** [getVolume] and [Get]. *)
Definition getVolume (volumeID : string) : io W VolumeObject :=
  wrap_error "get ShiftPVVolume: %w" (Get volumeID).

Definition GetState (volumeID : string) : io W State :=
  object ← getVolume volumeID;
  io_lift (stateFrom object).

Definition mutateState (volumeID : string) (mutate : State -> result State) : io W unit :=
  mutateObject {| mut_name := volumeID; mut_uid := ""; readError := "get ShiftPVVolume for status update";
                  writeError := "update ShiftPVVolume status"; status_write := true;
                  mut_apply := mutateState_apply mutate |}.

Definition CompleteCreate (volumeID uid : string) (copy : CopyIdentity) : io W unit :=
  match CreationOperationID uid with
  | Err _ => io_fail ErrStateConflict
  | Ok operationID => mutateState volumeID (CompleteCreate_mutation uid operationID copy)
  end.

Definition BeginDelete (volumeID uid : string) (copy : CopyIdentity) : io W State :=
  let operationID := "delete-" +:+ uid in
  io_reject_if ((uid == "") || negb (is_ok (Validate copy)) || (VolumeID copy != volumeID) || (VolumeUID copy != uid))
    ErrStateConflict;;
  mutateState volumeID (fun current => fenceForDeletion current uid operationID copy);;
  state ← GetState volumeID;
  io_reject_if ((State.Phase state != PhaseDeleting) || (State.DeletionOperationID state != operationID) ||
                (State.UID state != uid) || (State.CurrentCopy state != Some copy)) ErrStateConflict;;
  mret state.

Definition BeginCreationCancellation (id uid : string) (copy : CopyIdentity) : io W State :=
  io_reject_if ((VolumeID copy != id) || (VolumeUID copy != uid) ||
                negb (IsCreationCancellation copy (CreationCancellationPrefix +:+ uid))) ErrStateConflict;;
  mutateState id (BeginCreationCancellation_mutation uid copy);;
  current ← GetState id;
  io_reject_if ((State.UID current != uid) || (State.CurrentCopy current != Some copy) ||
                negb (CancellingCreation current)) ErrStateConflict;;
  mret current.

Definition CompareAndSetState (volumeID expectedPhase expectedActiveMove expectedOwner : string) (next : State) : io W unit :=
  mutateState volumeID (compareAndSetState_mutation expectedPhase expectedActiveMove expectedOwner None next).

Definition CompareAndSetSourceState (volumeID : string) (expected next : State) : io W unit :=
  '(copy, next) ← io_lift (CompareAndSetSourceState_guard volumeID expected next);
  mutateState volumeID (compareAndSetState_mutation (State.Phase expected) (State.ActiveMove expected)
                          (State.OwnerNode expected) (Some copy) next).

Definition BeginPublish (volumeID nodeName : string) (copy : CopyIdentity) : io W unit :=
  mutateState volumeID (BeginPublish_mutation nodeName copy).

Definition ReconcilePublished (volumeID nodeName : string) (copy : CopyIdentity) (published : bool) : io W unit :=
  mutateState volumeID (ReconcilePublished_mutation volumeID nodeName copy published).

Definition BindCreation (expected : State) (executor : NodeExecutor) : io W unit :=
  match State.CurrentCopy expected with
  | None => io_fail ErrStateConflict
  | Some copy =>
      io_reject_if (negb (NodeExecutor.Valid executor) || (NodeExecutor.NodeName executor != NodeName copy))
        ErrStateConflict;;
      mutateState (VolumeID copy) (BindCreation_mutation expected executor)
  end.

Definition RecordCreationReceipt (expected : State) (receipt : CreationReceipt) : io W unit :=
  match State.CurrentCopy expected with
  | None => io_fail ErrStateConflict
  | Some copy => mutateState (VolumeID copy) (RecordCreationReceipt_mutation expected receipt)
  end.

Definition RemoveVolumeFinalizer (volumeID uid : string) : io W unit :=
  updateObjectFinalizer volumeID uid VolumeProtectionFinalizer false.

(** ** Creation *)

Definition bindInitialPool (id : string) (expected : State) (pool : PoolReference) : io W unit :=
  mutateObject {| mut_name := id; mut_uid := ""; readError := "read initial Pool reservation";
                  writeError := "record initial Pool reservation"; status_write := false;
                  mut_apply := bindInitialPool_apply expected pool |};;
  bound ← GetState id;
  io_reject_if ((State.UID bound != State.UID expected) || (State.InitialPool bound != Some pool))
    (Wrapf [ErrStateConflict] "%w: initial Pool reservation was not stored; upgrade the Volume CRD").

Definition recordCreationIntent (volumeID : string) (next : State) : io W State :=
  mutateState volumeID (recordCreationIntent_mutation next);;
  GetState volumeID.

Definition freshCreationPlacement (volumeID ownerNode poolName poolUID : string) : io W (string * Pool) :=
  installationID ← InstallationID;
  pool ← (if poolName == "" then ready_pool_for_node ownerNode
          else ready_pool_for_identity poolName poolUID ownerNode);
  if PoolHasServingVolume pool volumeID
  then io_fail (Wrapf [ErrPoolCopyConflict] "%w: Pool %q already contains volume %q")
  else mret (installationID, pool).

Definition sameCreationIntent (uid : string) (state : State) (volumeID requestName ownerNode : string) (capacityBytes : Z) : bool :=
  (uid != "") && (State.UID state == uid) &&
  (State.OwnerNode state == ownerNode) && (State.RequestName state == requestName) &&
  (State.InitialNode state == ownerNode) && (State.CapacityBytes state =? capacityBytes)%Z &&
  ((State.Phase state == PhasePending) || (State.Phase state == PhaseNodeCreating) || (State.Phase state == PhaseReady)) &&
  servingCopyFor (State.CurrentCopy state) volumeID (State.UID state) ownerNode.

Definition resumeCreate (uid : string) (state : State) (volumeID requestName ownerNode : string) (capacityBytes : Z)
    (poolName poolUID : string) : io W State :=
  io_reject_if (negb (sameCreationIntent uid state volumeID requestName ownerNode capacityBytes))
    (Wrapf [ErrStateConflict] "%w: volume creation identity changed");;
  match CreationOperationID (State.UID state), State.CurrentCopy state with
  | Ok operationID, Some copy =>
      io_reject_if (State.CreationOperationID state != operationID)
        (Wrapf [ErrStateConflict] "%w: volume creation operation changed");;
      installationID ← InstallationID;
      io_reject_if ((poolName != "") && ((PoolName copy != poolName) || (PoolUID copy != poolUID)))
        (Wrapf [ErrStateConflict] "%w: volume creation Pool differs from selected Pool");;
      got ← catch (get_pool (PoolName copy));
      pool ← io_lift (protectedCreationPool IsNotFound copy got);
      io_reject_if ((VolumeIdentity.InstallationID copy != installationID) || (PoolName copy != Pool.Name pool) ||
                    (PoolUID copy != Pool.UID pool))
        (Wrapf [ErrStateConflict] "%w: volume creation Pool identity changed");;
      mret state
  | _, _ => io_fail (Wrapf [ErrStateConflict] "%w: volume creation operation changed")
  end.

Definition completeInitialization (object : VolumeObject) (state : State) (pool : Pool) (installationID id : string) : io W State :=
  next ← io_lift (completeInitialization_intent (Metadata.UID (metadata object))
                    (negb (is_nil (Metadata.DeletionTimestamp (metadata object)))) state
                    {| PoolReference.Name := Pool.Name pool; PoolReference.UID := Pool.UID pool |} installationID id);
  state ← recordCreationIntent id next;
  resumeCreate (Metadata.UID (metadata object)) state id (State.RequestName state) (State.InitialNode state)
    (State.CapacityBytes state) (Pool.Name pool) (Pool.UID pool).

Record CreationRequest := {
  req_VolumeID : string;
  req_RequestName : string;
  req_NodeName : string;
  req_CapacityBytes : Z;
  req_Pool : option PoolReference;
  req_Claim : option ClaimReference
}.

Definition CreationRequest_validate (r : CreationRequest) : result unit :=
  reject_if (negb (is_ok (ValidateID (req_VolumeID r))) || (req_RequestName r == "") || (req_NodeName r == "") ||
             (req_CapacityBytes r <=? 0)%Z) ErrStateConflict;;
  reject_if (some_and (req_Pool r) (fun pool => (PoolReference.Name pool == "") || (PoolReference.UID pool == "")))
    ErrPoolConfiguration;;
  reject_if (some_and (req_Claim r) (fun claim =>
    negb (ClaimReference_Valid claim) || (req_RequestName r != "pvc-" +:+ ClaimReference.UID claim))) ErrStateConflict.

Definition newVolumeObject (request : CreationRequest) (pool : PoolReference) : VolumeObject :=
  {| metadata := {| Metadata.Name := req_VolumeID request; Metadata.UID := ""; Metadata.ResourceVersion := "";
                    Metadata.Generation := 0; Metadata.Finalizers := [VolumeProtectionFinalizer];
                    Metadata.DeletionTimestamp := None; Metadata.Annotations := ∅ |};
     spec := {| VolumeSpec.requestName := req_RequestName request; VolumeSpec.initialNode := req_NodeName request;
                VolumeSpec.capacityBytes := req_CapacityBytes request;
                VolumeSpec.initialPool := Present (PoolReference.Name pool, PoolReference.UID pool);
                VolumeSpec.creationClaim := encode (req_Claim request) |};
     status := {| VolumeStatus.phase := ""; VolumeStatus.ownerNode := ""; VolumeStatus.activeMove := "";
                  VolumeStatus.publishedNodes := Absent; VolumeStatus.creationOperationID := "";
                  VolumeStatus.deletionOperationID := ""; VolumeStatus.currentCopy := Absent;
                  VolumeStatus.creationExecutor := Absent; VolumeStatus.creationReceipt := Absent;
                  VolumeStatus.cleanup := None |} |}.

(** [initializeCreate] with the recursive call to [BeginCreate]. *)
Definition initializeCreate (begin_create : CreationRequest -> io W State) (object : VolumeObject) (state : State)
    (id poolName poolUID : string) : io W State :=
  match State.InitialPool state with
  | None =>
      '(_, pool) ← freshCreationPlacement id (State.InitialNode state) poolName poolUID;
      let reference := {| PoolReference.Name := Pool.Name pool; PoolReference.UID := Pool.UID pool |} in
      bindInitialPool id state reference;;
      begin_create {| req_VolumeID := id; req_RequestName := State.RequestName state;
                      req_NodeName := State.InitialNode state; req_CapacityBytes := State.CapacityBytes state;
                      req_Pool := Some reference; req_Claim := State.CreationClaim state |}
  | Some reference =>
      io_reject_if ((poolName != "") &&
                    ((PoolReference.Name reference != poolName) || (PoolReference.UID reference != poolUID)))
        (Wrapf [ErrStateConflict] "%w: initial Pool reservation changed");;
      pool ← pool_for_identity (PoolReference.Name reference) (PoolReference.UID reference) (State.InitialNode state);
      io_reject_if (negb (is_nil (Pool.DeletionTimestamp pool)) ||
                    negb (contains (Pool.Finalizers pool) PoolProtectionFinalizer))
        (Wrapf [ErrPoolNotReady] "%w: creation Pool protection is unavailable");;
      installationID ← InstallationID;
      completeInitialization object state pool installationID id
  end.

(** [BeginCreate]; [fuel] bounds the recursion through legacy objects, each of
    which first binds its initial Pool. *)
Fixpoint BeginCreate (fuel : nat) (request : CreationRequest) : io W State :=
  match fuel with
  | O => io_fail (Errorf "creation did not settle")
  | S fuel =>
      io_lift (CreationRequest_validate request);;
      let volumeID := req_VolumeID request in
      let poolName := match req_Pool request with Some pool => PoolReference.Name pool | None => "" end in
      let poolUID := match req_Pool request with Some pool => PoolReference.UID pool | None => "" end in
      got ← catch (Get volumeID);
      match got with
      | Ok object =>
          state ← io_lift (stateFrom object);
          io_reject_if (negb (is_nil (req_Claim request)) &&
                        negb (sameClaim (State.CreationClaim state) (req_Claim request))) ErrStateConflict;;
          if State.Phase state != "" then
            resumeCreate (Metadata.UID (metadata object)) state volumeID (req_RequestName request)
              (req_NodeName request) (req_CapacityBytes request) poolName poolUID
          else
            io_reject_if (negb (Initializing state) || (State.RequestName state != req_RequestName request) ||
                          (State.InitialNode state != req_NodeName request) ||
                          negb (State.CapacityBytes state =? req_CapacityBytes request)%Z) ErrStateConflict;;
            initializeCreate (BeginCreate fuel) object state volumeID poolName poolUID
      | Err err =>
          io_reject_if (negb (IsNotFound err)) (Wrapf [err] "read ShiftPVVolume creation intent: %w");;
          '(installationID, pool) ← freshCreationPlacement volumeID (req_NodeName request) poolName poolUID;
          let reference := {| PoolReference.Name := Pool.Name pool; PoolReference.UID := Pool.UID pool |} in
          object ← wrap_error "begin ShiftPVVolume creation: %w" (create_volume (newVolumeObject request reference));
          state ← io_lift (stateFrom object);
          io_reject_if (State.InitialPool state != Some reference)
            (Wrapf [ErrStateConflict] "%w: initial Pool reservation was not stored; upgrade the Volume CRD");;
          io_reject_if (negb (sameClaim (State.CreationClaim state) (req_Claim request)))
            (Wrapf [ErrStateConflict] "%w: original claim was not stored; upgrade the Volume CRD");;
          completeInitialization object state pool installationID volumeID
      end
  end.

(** ** Cancelling an unstarted creation *)

(** [delete_volume id uid revision]: DELETE with both preconditions. *)
Context (delete_volume : string -> string -> option string -> io W unit).

Definition tolerate_not_found (c : io W unit) : io W unit := fun w =>
  match c w with
  | (Err err, w) => if IsNotFound err then (Ok tt, w) else (Err err, w)
  | r => r
  end.

Definition finalizeUnstartedCreation (id u : string) : io W unit :=
  tolerate_not_found (mutateObject
    {| mut_name := id; mut_uid := u; readError := "read unstarted creation cancellation";
       writeError := "release unstarted creation protection"; status_write := false;
       mut_apply := finalizeUnstartedCreation_apply |}).

Definition CancelUnstartedCreation (id u : string) : io W unit :=
  got ← catch (getVolume id);
  match got with
  | Err err => if IsNotFound err then mret tt else io_fail err
  | Ok object =>
      state ← io_lift (stateFrom object);
      io_reject_if ((u == "") || (State.UID state != u) || negb (UnstartedCreation state)) ErrStateConflict;;
      (if negb (State.Deleting state) then
         io_reject_if (Metadata.ResourceVersion (metadata object) == "") ErrStateConflict;;
         tolerate_not_found (delete_volume id u (Some (Metadata.ResourceVersion (metadata object))))
       else mret tt);;
      finalizeUnstartedCreation id u
  end.

Definition Delete (volumeID u : string) : io W unit :=
  io_reject_if (u == "") (Errorf "ShiftPVVolume UID is required for deletion");;
  wrap_error "delete ShiftPVVolume: %w" (tolerate_not_found (delete_volume volumeID u None)).
End registry.

(** ** The world's volumes *)

Section guarantee.
Context {AM : Apimachinery} {W : Type} {AC : ApiClient W VolumeObject}.

(** Every stored volume decodes to a state that satisfies the invariant. *)
Definition volumes_ok (w : W) : Prop :=
  forall n o, stored w n = Some o -> exists s, stateFrom o = Ok s /\ invariant s.

Lemma stateFrom_content (a b : VolumeObject) : same_content a b -> stateFrom a = stateFrom b.
Proof.
  destruct a as [[] sa ta], b as [[] sb tb]. intros E. unfold same_content in E. simpl in E. by injection E as -> -> -> -> -> -> -> ->.
Qed.

Lemma volumes_ok_env (w w' : W) :
  (forall w1 w2, env w1 w2 -> volumes_ok w1 -> volumes_ok w2) -> rtc env w w' -> volumes_ok w -> volumes_ok w'.
Proof. intros Hrely H. induction H; eauto. Qed.

(** One committed status write of a protocol mutation. *)
Lemma committed_volumes_ok (w w' : W) (id : string) (mutate : State -> result State) (object next : VolumeObject) :
  mutation mutate -> volumes_ok w -> stored w id = Some object -> mutateState_apply mutate object = Ok next ->
  committed stored w w' id (persist true object next) -> volumes_ok w'.
Proof.
  intros Hm Hw Hst Happ [Hc Hothers] n o Ho. destruct (decide (n = id)) as [->|Hne]; [|rewrite Hothers in Ho by done; eauto].
  destruct (Hw id object Hst) as (s & Hs & Hi).
  destruct (mutateState_written mutate object next s Hs Happ) as (next_state & Hnext & Hread).
  simpl in Hc. rewrite Ho in Hc. apply stateFrom_content in Hc.
  assert (metadata next = metadata object /\ spec next = spec object) as [Emeta Espec].
  { unfold mutateState_apply in Happ. rewrite Hs in Happ. cbn [mbind result_bind] in Happ. rewrite Hnext in Happ.
    by injection Happ as <-. }
  exists (written s next_state). split.
  - rewrite <- Hc, <- Emeta, <- Espec. destruct next. simpl in *. apply Hread.
    by eapply mutation_copy_valid; eauto using stateFrom_copy_valid.
  - apply (step_invariant s); [done|]. by apply (step_write s mutate).
Qed.

Lemma mutateState_version_preserving (mutate : State -> result State) : version_preserving (mutateState_apply mutate).
Proof.
  intros o o' Ho. unfold mutateState_apply in Ho. apply bind_Ok in Ho as (s & _ & Ho).
  apply bind_Ok in Ho as (next & _ & Ho). by injection Ho as <-.
Qed.

(** Rely/guarantee for volumes.  If all other clients keep the stored volumes
    decodable and within the invariant (they run this protocol), then so does
    every [mutateState] call with a protocol mutation, whatever happens between
    its read and its write: the invariant of the protocol is an invariant of the
    cluster's state under arbitrary concurrency, also when the call reports a
    conflict. *)
Theorem mutateState_guarantee (volumeID : string) (mutate : State -> result State) (w w' : W) (r : result unit) :
  (forall w1 w2, env w1 w2 -> volumes_ok w1 -> volumes_ok w2) ->
  mutation mutate -> volumes_ok w -> mutateState volumeID mutate w = (r, w') ->
  match r with Ok _ => True | Err e => IsConflict e = true end -> volumes_ok w'.
Proof.
  intros Hrely Hm Hw H Hr. unfold mutateState in H.
  set (m := {| mut_name := volumeID |}) in H.
  assert (version_preserving (mut_apply m)) as Hv by apply mutateState_version_preserving.
  destruct (mutateObject_linearizable_spec m w w' Hv) as [Hok Hconf].
  destruct r as [[]|e]; [|by apply (volumes_ok_env w w' Hrely); [eapply Hconf|]].
  destruct (Hok H) as (wa & object & Hwa & Hst & _ & [(e & _ & _ & Hend)|(next & wb & Happ & Hc & Hend)]).
  - apply (volumes_ok_env wa w' Hrely Hend). by apply (volumes_ok_env w wa Hrely).
  - apply (volumes_ok_env wb w' Hrely Hend).
    apply (committed_volumes_ok wa wb volumeID mutate object next); try done. by apply (volumes_ok_env w wa Hrely).
Qed.
End guarantee.


(** A world in which other clients only recreate unstarted volumes. *)
Definition unstarted_only (o : VolumeObject) : bool :=
  match stateFrom (AM := Sample.sample) o with
  | Ok s => (State.Phase s == "") && (State.ActiveMove s == "") && (State.PublishedNodes s == [])
  | Err _ => false
  end.

Lemma unstarted_only_ok (o : VolumeObject) :
  unstarted_only o = true -> exists s, stateFrom (AM := Sample.sample) o = Ok s /\ invariant s.
Proof.
  unfold unstarted_only. destruct (stateFrom o) as [s|]; [|done]. intros Hs. exists s. split; [done|].
  rewrite !andb_true_iff, !bool_decide_eq_true in Hs. destruct Hs as [[Hp Ha] Hpub].
  split; rewrite ?Hp, ?Ha, ?Hpub; [vm_compute; set_solver|done..].
Qed.

#[local] Instance sample_client : ApiClient (ObjectStore.Store VolumeObject) VolumeObject :=
  ObjectStore.client unstarted_only.

Definition sample_world : ObjectStore.Store VolumeObject :=
  {| ObjectStore.objects := {[sample_id := (1%N, sample_object)]}; ObjectStore.revision := 1;
     ObjectStore.queue := [(sample_id, with_finalizers sample_object [VolumeProtectionFinalizer; "other"])] |}.

Lemma sample_rely (w1 w2 : ObjectStore.Store VolumeObject) :
  env w1 w2 -> volumes_ok (AM := Sample.sample) w1 -> volumes_ok (AM := Sample.sample) w2.
Proof.
  intros Henv Hok n o Ho. change (ObjectStore.interfere unstarted_only w1 = Some w2) in Henv.
  unfold ObjectStore.interfere in Henv. destruct (ObjectStore.queue w1) as [|[n' o'] rest]; [done|].
  destruct (bool_decide _ && unstarted_only o') eqn:E; [|done]. apply andb_true_iff in E as [_ Ha]. injection Henv as <-.
  destruct (decide (n = n')) as [->|Hne].
  - change (ObjectStore.stored (ObjectStore.put w1 n' o' rest) n' = Some o) in Ho.
    unfold ObjectStore.stored, ObjectStore.put in Ho. simpl in Ho. rewrite lookup_insert_eq in Ho.
    destruct (Metadata.Name (metadata o') == n'); [|done]. injection Ho as <-.
    destruct (unstarted_only_ok o' Ha) as (s & Hs & Hi). exists s. split; [|done]. rewrite <- Hs.
    by apply stateFrom_content.
  - apply (Hok n o). rewrite <- Ho. symmetry. by apply ObjectStore.put_other.
Qed.

Lemma mutateState_guarantee_witness :
  exists w', mutateState (AM := Sample.sample) sample_id (recordCreationIntent_mutation sample_pending) sample_world = (Ok tt, w') /\
    option_map (fun o => VolumeStatus.phase (status o)) (stored w' sample_id) = Some PhasePending /\
    volumes_ok (AM := Sample.sample) w'.
Proof.
  assert (exists w', mutateState (AM := Sample.sample) sample_id (recordCreationIntent_mutation sample_pending) sample_world =
    (Ok tt, w') /\ option_map (fun o => VolumeStatus.phase (status o)) (stored w' sample_id) = Some PhasePending)
    as (w' & Hrun & Hphase) by (eexists; split; vm_compute; reflexivity).
  exists w'. split; [exact Hrun|]. split; [exact Hphase|].
  apply (mutateState_guarantee (AM := Sample.sample) sample_id (recordCreationIntent_mutation sample_pending)
    sample_world w' (Ok tt) sample_rely); [|intros n o Ho|exact Hrun|exact I].
  - eapply mutation_intent; [exact sample_intent|reflexivity].
  - change (ObjectStore.stored sample_world n = Some o) in Ho. unfold ObjectStore.stored in Ho.
    destruct (decide (n = sample_id)) as [->|Hne].
    + vm_compute in Ho. injection Ho as <-. exists sample_created. split; [vm_compute; reflexivity|].
      apply created_invariant. repeat split.
    + simpl in Ho. rewrite lookup_singleton_ne in Ho by congruence. discriminate Ho.
Defined.

(** ** Creation *)

Section creation.
Context {AM : Apimachinery} {W : Type} {AC : ApiClient W VolumeObject}.
Context (InstallationID : io W string) (get_pool : string -> io W PoolObject) (list_pools : io W (list PoolObject))
        (create_volume : VolumeObject -> io W VolumeObject) (clock : io W Z) (staleAfter : Z).
Notation BeginCreate := (BeginCreate InstallationID get_pool list_pools create_volume clock staleAfter).
Notation resumeCreate := (resumeCreate InstallationID get_pool).
Notation completeInitialization := (completeInitialization InstallationID get_pool).
Notation freshCreationPlacement := (freshCreationPlacement InstallationID get_pool list_pools clock staleAfter).

(** The API answers a Get with the object of that name. *)
Hypothesis get_pool_name : forall n w o w', get_pool n w = (Ok o, w') -> Metadata.Name (PoolObject.metadata o) = n.

(** A creation intent for [volumeID], placed in the Pool incarnation [selected]
    if one was asked for. *)
Definition intent (volumeID : string) (selected : option string) (state : State) : Prop :=
  (State.Phase state = PhasePending \/ State.Phase state = PhaseNodeCreating \/ State.Phase state = PhaseReady) /\
  CreationOperationID (State.UID state) = Ok (State.CreationOperationID state) /\
  exists copy, State.CurrentCopy state = Some copy /\ Validate copy = Ok tt /\ Role copy = RoleServing /\
    VolumeID copy = volumeID /\ VolumeUID copy = State.UID state /\ NodeName copy = State.OwnerNode state /\
    (forall uid, selected = Some uid -> PoolUID copy = uid).

(** The Pool selected by a name and a UID. *)
Definition selection (poolName poolUID : string) : option string := if poolName == "" then None else Some poolUID.

Lemma selection_Some (poolName poolUID uid : string) :
  selection poolName poolUID = Some uid -> poolName <> "" /\ uid = poolUID.
Proof. unfold selection. case_bool_decide; naive_solver. Qed.

Lemma intent_weaken (volumeID poolUID : string) (selected : option string) (state : State) :
  (forall uid, selected = Some uid -> uid = poolUID) ->
  intent volumeID (Some poolUID) state -> intent volumeID selected state.
Proof.
  intros Hsel (Hp & Hop & copy & Hc & Hv & Hr & Hi & Hu & Hn & Huid). split; [done|]. split; [done|].
  exists copy. split_and!; try done. intros uid E. rewrite (Hsel uid E). by apply Huid.
Qed.

Lemma sameCreationIntent_inv (uid : string) (state : State) (volumeID requestName ownerNode : string) (capacity : Z) :
  sameCreationIntent uid state volumeID requestName ownerNode capacity = true ->
  (State.Phase state = PhasePending \/ State.Phase state = PhaseNodeCreating \/ State.Phase state = PhaseReady) /\
  exists copy, State.CurrentCopy state = Some copy /\ Validate copy = Ok tt /\ Role copy = RoleServing /\
    VolumeID copy = volumeID /\ VolumeUID copy = State.UID state /\ NodeName copy = State.OwnerNode state.
Proof.
  unfold sameCreationIntent, servingCopyFor. rewrite !andb_true_iff, !orb_true_iff, !bool_decide_eq_true.
  intros [[Hhead Hphase] Hcopy]. apply some_and_true in Hcopy as (copy & Hc & Hcopy).
  rewrite !andb_true_iff, !bool_decide_eq_true, is_ok_unit in Hcopy. split; [clear -Hphase; tauto|].
  exists copy. clear Hphase. repeat match goal with H : _ /\ _ |- _ => destruct H end. split_and!; congruence.
Qed.

Lemma resumeCreate_intent (uid : string) (state : State) (volumeID requestName ownerNode : string) (capacity : Z)
    (poolName poolUID : string) (s : State) (w w' : W) :
  resumeCreate uid state volumeID requestName ownerNode capacity poolName poolUID w = (Ok s, w') ->
  intent volumeID (selection poolName poolUID) s.
Proof.
  intros H. unfold VolumeRegistry.resumeCreate in H. io_inv.
  rename select (negb _ = false) into Hsame. apply negb_false_iff, sameCreationIntent_inv in Hsame as (Hphase & copy & Hc & Hrest).
  rewrite Hc in H. destruct (CreationOperationID (State.UID state)) as [op|] eqn:Eop; [|discriminate H].
  io_inv. injection H as <- <-.
  rename select (negb (State.CreationOperationID state == op) = false) into Hop.
  apply negb_false_iff, bool_decide_eq_true in Hop.
  rename select ((poolName != "") && _ = false) into Hpool.
  split; [done|]. split; [by rewrite Eop, Hop|]. exists copy. split; [done|].
  destruct Hrest as (Hv & Hr & Hid & Hu & Hn). split_and!; try done. intros u Hsel. apply selection_Some in Hsel as [Hne ->].
  rewrite bool_decide_eq_false_2 in Hpool by done. simpl in Hpool. by go_inv.
Qed.

Lemma completeInitialization_returns (object : VolumeObject) (state : State) (pool : Pool)
    (installationID id : string) (s : State) (w w' : W) :
  completeInitialization object state pool installationID id w = (Ok s, w') -> Pool.Name pool <> "" ->
  intent id (Some (Pool.UID pool)) s.
Proof.
  intros H Hne. unfold VolumeRegistry.completeInitialization in H.
  apply io_bind_Ok in H as (next & w1 & _ & H). apply io_bind_Ok in H as (state' & w2 & _ & H).
  apply resumeCreate_intent in H. unfold selection in H. by rewrite bool_decide_eq_false_2 in H.
Qed.

Lemma ready_pool_identity (poolName uid nodeName : string) (now stale : Z) (peers rest : list Pool) (pool : Pool) :
  ready_pool poolName uid nodeName now stale peers rest = Some (Ok pool) ->
  Pool.Name pool = poolName /\ Pool.UID pool = uid.
Proof.
  induction rest as [|p rest IH]; simpl; [done|]. case_bool_decide as En; simpl; [|done].
  destruct (_ || _) eqn:E; [done|]. destruct (fst (poolReady _ _ _)); simpl; [|done].
  destruct (PoolCapacityIndependent p peers) as [[[] reason]|]; simpl; try done. intros Heq. injection Heq as <-.
  apply orb_false_iff in E as [E _]. apply negb_false_iff, bool_decide_eq_true in E. done.
Qed.

Lemma PoolForIdentity_inv (poolName uid nodeName : string) (got : result PoolObject) (pool : Pool) :
  PoolForIdentity IsNotFound poolName uid nodeName got = Ok pool ->
  poolName <> "" /\ Pool.UID pool = uid /\ exists o, got = Ok o /\ Pool.Name pool = Metadata.Name (PoolObject.metadata o).
Proof.
  unfold PoolForIdentity. destruct (_ || _ || _) eqn:E1; [done|]. destruct got as [o|e]; [|by destruct (IsNotFound e)].
  intros H. apply bind_Ok in H as (p & Hp & H). destruct (_ || _) eqn:E2 in H; [done|].
  destruct (_ || _) in H; [done|]. injection H as ->. apply orb_false_iff in E1 as [E1 _].
  apply orb_false_iff in E1 as [E1 _]. apply orb_false_iff in E2 as [E2 _]. go_inv.
  split; [done|]. split; [done|]. exists o. split; [done|].
  unfold poolFrom in Hp. apply bind_Ok in Hp as (st & _ & Hp). by injection Hp as <-.
Qed.

Lemma freshCreationPlacement_pool (volumeID ownerNode poolName poolUID : string) (installationID : string)
    (pool : Pool) (w w' : W) :
  freshCreationPlacement volumeID ownerNode poolName poolUID w = (Ok (installationID, pool), w') ->
  poolName <> "" -> Pool.Name pool = poolName /\ Pool.UID pool = poolUID.
Proof.
  intros H Hne. unfold VolumeRegistry.freshCreationPlacement in H.
  apply io_bind_Ok in H as (inst & w1 & _ & H). apply io_bind_Ok in H as (p & w2 & Hp & H).
  destruct (PoolHasServingVolume p volumeID); [discriminate H|]. injection H as <- <- <-.
  rewrite bool_decide_eq_false_2 in Hp by done. unfold ready_pool_for_identity in Hp.
  apply io_bind_Ok in Hp as (got & w3 & _ & Hp). apply io_bind_Ok in Hp as (listed & w4 & _ & Hp).
  apply io_bind_Ok in Hp as (t & w5 & _ & Hp). apply io_lift_Ok in Hp as [Hp _].
  unfold ReadyPoolForIdentity, no_panic in Hp. destruct (PoolForIdentity _ _ _ _ _); [|done].
  destruct (ListPoolRegistrations listed); [|done].
  destruct (ready_pool _ _ _ _ _ _ _) as [r|] eqn:E; [|done]. subst r. by apply ready_pool_identity in E.
Qed.

(** What a recursive call returns. *)
Definition returns_intent (begin_create : CreationRequest -> io W State) : Prop :=
  forall request s w w', begin_create request w = (Ok s, w') ->
    intent (req_VolumeID request) (PoolReference.UID <$> req_Pool request) s.

Lemma initializeCreate_returns (begin_create : CreationRequest -> io W State) (object : VolumeObject) (state : State)
    (id poolName poolUID : string) (s : State) (w w' : W) :
  returns_intent begin_create ->
  initializeCreate InstallationID get_pool list_pools clock staleAfter begin_create object state id poolName poolUID w =
    (Ok s, w') -> intent id (selection poolName poolUID) s.
Proof.
  intros Hrec H. unfold initializeCreate in H. destruct (State.InitialPool state) as [reference|].
  - apply io_bind_Ok in H as ([] & w1 & Hsel & H). apply io_bind_Ok in H as (pool & w2 & Hget & H).
    apply io_bind_Ok in H as ([] & w3 & _ & H). apply io_bind_Ok in H as (inst & w4 & _ & H).
    unfold pool_for_identity in Hget. apply io_bind_Ok in Hget as (got & w5 & Hgot & Hget).
    apply io_lift_Ok in Hget as [Hget _]. apply PoolForIdentity_inv in Hget as (Hne & Huid & o & -> & Hname).
    unfold catch in Hgot. destruct (get_pool (PoolReference.Name reference) w1) as [r w6] eqn:Eg.
    injection Hgot as -> <-. apply get_pool_name in Eg.
    apply completeInitialization_returns in H; [|congruence].
    eapply intent_weaken; [|exact H]. intros u Hu. apply selection_Some in Hu as [Hp ->].
    unfold io_reject_if in Hsel. apply io_lift_Ok in Hsel as [Hsel _]. apply reject_if_Ok in Hsel.
    rewrite bool_decide_eq_false_2 in Hsel by done. simpl in Hsel. go_inv. congruence.
  - apply io_bind_Ok in H as ([inst pool] & w1 & Hfresh & H). apply io_bind_Ok in H as ([] & w2 & _ & H).
    apply Hrec in H. simpl in H. eapply intent_weaken; [|exact H].
    intros u Hu. apply selection_Some in Hu as [Hp ->].
    by apply freshCreationPlacement_pool in Hfresh as [_ ->].
Qed.

(** A request that names a Pool names it completely. *)
Lemma request_selection (request : CreationRequest) :
  CreationRequest_validate request = Ok tt ->
  selection (match req_Pool request with Some pool => PoolReference.Name pool | None => "" end)
            (match req_Pool request with Some pool => PoolReference.UID pool | None => "" end) =
  PoolReference.UID <$> req_Pool request.
Proof.
  unfold CreationRequest_validate. intros H. apply bind_Ok in H as ([] & _ & H). apply bind_Ok in H as ([] & H & _).
  apply reject_if_Ok in H. unfold selection. destruct (req_Pool request) as [pool|]; [|done]. simpl in *.
  apply orb_false_iff in H as [H _]. by rewrite H.
Qed.

Lemma BeginCreate_returns (fuel : nat) : returns_intent (BeginCreate fuel).
Proof.
  induction fuel as [|fuel IH]; intros request s w w' H; [discriminate H|]. cbn [VolumeRegistry.BeginCreate] in H.
  apply io_bind_Ok in H as ([] & w1 & Hval & H). apply io_lift_Ok in Hval as [Hval ->].
  rewrite <- (request_selection request Hval).
  apply io_bind_Ok in H as (got & w2 & _ & H). destruct got as [object|err].
  - apply io_bind_Ok in H as (state & w3 & _ & H). apply io_bind_Ok in H as ([] & w4 & _ & H).
    destruct (State.Phase state != ""); [by apply resumeCreate_intent in H|].
    apply io_bind_Ok in H as ([] & w5 & _ & H). by apply (initializeCreate_returns (BeginCreate fuel)) in H.
  - apply io_bind_Ok in H as ([] & w3 & _ & H). apply io_bind_Ok in H as ([inst pool] & w4 & Hfresh & H).
    apply io_bind_Ok in H as (object & w5 & _ & H). apply io_bind_Ok in H as (state & w6 & _ & H).
    apply io_bind_Ok in H as ([] & w7 & _ & H). apply io_bind_Ok in H as ([] & w8 & _ & H).
    destruct (decide (Pool.Name pool = "")) as [Hempty|Hne].
    + unfold VolumeRegistry.completeInitialization in H.
      apply io_bind_Ok in H as (next & w9 & _ & H). apply io_bind_Ok in H as (state' & w10 & _ & H).
      apply resumeCreate_intent in H. unfold selection in H |- *. rewrite Hempty in H. simpl in H.
      case_bool_decide as Hp; [done|]. by apply freshCreationPlacement_pool in Hfresh as [? _]; [|done]; congruence.
    + apply completeInitialization_returns in H; [|done]. eapply intent_weaken; [|exact H].
      intros u Hu. apply selection_Some in Hu as [Hp ->].
      by apply freshCreationPlacement_pool in Hfresh as [_ ->].
Qed.
(** ** Fuel *)

(** Nobody removes a recorded reservation: the other clients keep the initial Pool
    of a volume as long as the object exists. *)
Definition keeps_reservations : Prop :=
  forall w w' n o o', rtc env w w' -> stored w n = Some o -> stored w' n = Some o' ->
    VolumeSpec.initialPool (spec o) <> Absent -> VolumeSpec.initialPool (spec o') <> Absent.

Lemma stateFrom_InitialPool (o : VolumeObject) (s : State) :
  stateFrom o = Ok s -> State.InitialPool s = None <-> VolumeSpec.initialPool (spec o) = Absent.
Proof.
  unfold stateFrom. intros H. apply bind_Ok in H as (claim & _ & H). apply bind_Ok in H as (pool & Hp & H).
  go_inv. unfold initialPoolFrom in Hp. destruct (VolumeSpec.initialPool (spec o)) as [| |[n u]]; simpl in Hp; try done.
  - by injection Hp as <-.
  - by destruct (_ || _); [|injection Hp as <-].
Qed.

(** Some volume [id] was stored with a reservation before [w]. *)
Definition reserved (id : string) (w : W) : Prop :=
  exists w1 o, rtc env w1 w /\ stored w1 id = Some o /\ VolumeSpec.initialPool (spec o) <> Absent.

Lemma bindInitialPool_reserved (id : string) (expected : State) (pool : PoolReference) (w w' : W) :
  bindInitialPool id expected pool w = (Ok tt, w') -> reserved id w'.
Proof.
  intros H. unfold bindInitialPool in H. apply io_bind_Ok in H as ([] & w1 & _ & H).
  apply io_bind_Ok in H as (bound & w2 & Hget & H). io_inv. go_inv.
  unfold GetState, getVolume, wrap_error in Hget. apply io_bind_Ok in Hget as (o & w3 & Hget & Hs).
  apply io_lift_Ok in Hs as [Hs ->]. destruct (Get id w1) as [[o'|e] w4] eqn:EG; [|discriminate Hget].
  injection Hget as -> ->. apply Get_spec in EG as (w0 & _ & Hw & Hst). exists w0, o. split_and!; [done..|].
  intros Habs. apply (stateFrom_InitialPool o bound Hs) in Habs. congruence.
Qed.

(** Two handlers that agree on what follows a call agree on the call. *)
Lemma io_bind_ext {A B : Type} (c : io W A) (k k' : A -> io W B) (w : W) :
  (forall a w1, c w = (Ok a, w1) -> k a w1 = k' a w1) -> (c ≫= k) w = (c ≫= k') w.
Proof. unfold mbind, io_bind. destruct (c w) as [[a|e] w1]; auto. Qed.

Lemma initializeCreate_bound (begin_create begin_create' : CreationRequest -> io W State) (object : VolumeObject)
    (state : State) (id poolName poolUID : string) (w : W) :
  State.InitialPool state <> None ->
  initializeCreate InstallationID get_pool list_pools clock staleAfter begin_create object state id poolName poolUID w =
  initializeCreate InstallationID get_pool list_pools clock staleAfter begin_create' object state id poolName poolUID w.
Proof. intros H. unfold initializeCreate. by destruct (State.InitialPool state). Qed.

Lemma initializeCreate_ext (begin_create begin_create' : CreationRequest -> io W State) (object : VolumeObject)
    (state : State) (id poolName poolUID : string) (w : W) :
  (forall request w1, reserved id w1 -> req_VolumeID request = id -> begin_create request w1 = begin_create' request w1) ->
  initializeCreate InstallationID get_pool list_pools clock staleAfter begin_create object state id poolName poolUID w =
  initializeCreate InstallationID get_pool list_pools clock staleAfter begin_create' object state id poolName poolUID w.
Proof.
  intros H. unfold initializeCreate. destruct (State.InitialPool state); [done|].
  apply io_bind_ext. intros [inst pool] w1 _. apply io_bind_ext. intros [] w2 Hb.
  apply H; [by eapply bindInitialPool_reserved|done].
Qed.

(** Unfold one level of [BeginCreate] up to its recursive call. *)
Lemma BeginCreate_level (fuel fuel' : nat) (request : CreationRequest) (w : W) :
  (forall object state w1 w2 poolName poolUID, Get (req_VolumeID request) w = (Ok object, w1) -> stateFrom object = Ok state ->
    initializeCreate InstallationID get_pool list_pools clock staleAfter (BeginCreate fuel) object state
      (req_VolumeID request) poolName poolUID w2 =
    initializeCreate InstallationID get_pool list_pools clock staleAfter (BeginCreate fuel') object state
      (req_VolumeID request) poolName poolUID w2) ->
  BeginCreate (S fuel) request w = BeginCreate (S fuel') request w.
Proof.
  intros H. cbn [VolumeRegistry.BeginCreate]. apply io_bind_ext. intros [] w1 Hv. apply io_lift_Ok in Hv as [_ ->].
  apply io_bind_ext. intros got w2 Hgot. unfold catch in Hgot. destruct (Get _ w) as [r w3] eqn:EG. injection Hgot as -> ->.
  destruct got as [object|]; [|done]. apply io_bind_ext. intros state w4 Hs. apply io_lift_Ok in Hs as [Hs ->].
  apply io_bind_ext. intros [] w5 _. destruct (_ != _); [done|]. apply io_bind_ext. intros [] w6 _. by eapply H.
Qed.

Lemma BeginCreate_bound (fuel : nat) (request : CreationRequest) (w : W) :
  keeps_reservations -> reserved (req_VolumeID request) w -> BeginCreate (S fuel) request w = BeginCreate 1 request w.
Proof.
  intros Hkeep (w0 & o & Hw0 & Hst & Hp). apply BeginCreate_level. intros object state w1 w2 pn pu EG Hs.
  apply initializeCreate_bound. intros Hnone. apply (stateFrom_InitialPool _ _ Hs) in Hnone.
  apply Get_spec in EG as (w3 & Hw3 & _ & Hst'). by apply (Hkeep w0 w3 (req_VolumeID request) o object); [rtc_chain|..].
Qed.

Lemma BeginCreate_settles (fuel : nat) (request : CreationRequest) (w : W) :
  keeps_reservations -> BeginCreate (S (S fuel)) request w = BeginCreate 2 request w.
Proof.
  intros Hkeep. apply BeginCreate_level. intros object state w1 w2 pn pu _ _. apply initializeCreate_ext. intros req w3 Hr E. rewrite <- E in Hr.
  by apply BeginCreate_bound.
Qed.
End creation.

(** What [BeginCreate] promises.  While nobody removes a recorded reservation its
    recursion ends after at most one legacy object is bound to its Pool: every larger
    bound on the depth gives the result of depth two, so the function returns.
    Whatever branch it takes (a fresh object, a legacy object whose Pool is bound
    first, an interrupted initialization, or a creation already under way) and whoever
    else writes meanwhile, a state it returns is a creation intent of the requested
    volume: a pending, executing or completed phase, the operation derived from the
    volume's UID, one valid serving copy of that volume on its owner, and, when the
    request selects a Pool, a copy in exactly that Pool incarnation. *)
Theorem BeginCreate_returns_intent {AM : Apimachinery} {W : Type} {AC : ApiClient W VolumeObject}
    (InstallationID : io W string) (get_pool : string -> io W PoolObject) (list_pools : io W (list PoolObject))
    (create_volume : VolumeObject -> io W VolumeObject) (clock : io W Z) (staleAfter : Z)
    (fuel : nat) (request : CreationRequest) (w : W) :
  (forall n w o w', get_pool n w = (Ok o, w') -> Metadata.Name (PoolObject.metadata o) = n) ->
  keeps_reservations ->
  let begin := BeginCreate InstallationID get_pool list_pools create_volume clock staleAfter in
  begin (S (S fuel)) request w = begin 2 request w /\
  forall s w', begin 2 request w = (Ok s, w') -> intent (req_VolumeID request) (PoolReference.UID <$> req_Pool request) s.
Proof. intros Hname Hkeep. split; [by apply BeginCreate_settles|]. intros s w' H. by eapply BeginCreate_returns. Qed.

(** The other clients of the sample world write unstarted volumes with a Pool. *)
Definition reserved_only (o : VolumeObject) : bool :=
  match VolumeSpec.initialPool (spec o) with Absent => false | _ => true end.

#[local] Instance cluster_client : ApiClient (ObjectStore.Store VolumeObject) VolumeObject :=
  ObjectStore.client reserved_only.

(** A cluster with one Pool and no volume yet. *)
Module SampleCluster.
Definition W : Type := ObjectStore.Store VolumeObject.

Definition get_pool (n : string) : io W PoolObject := fun w =>
  if n == "a" then (Ok SamplePool.a, w) else (Err ObjectStore.notFound, w).

Definition list_pools : io W (list PoolObject) := fun w => (Ok [SamplePool.a], w).

Definition create_volume (o : VolumeObject) : io W VolumeObject := fun w =>
  let m := metadata o in
  let o := {| metadata := {| Metadata.Name := Metadata.Name m; Metadata.UID := "uid-1"; Metadata.ResourceVersion := "";
                Metadata.Generation := 1; Metadata.Finalizers := Metadata.Finalizers m;
                Metadata.DeletionTimestamp := None; Metadata.Annotations := ∅ |};
              spec := spec o; status := status o |} in
  (Ok o, ObjectStore.put w (Metadata.Name m) o []).

Definition request : CreationRequest :=
  {| req_VolumeID := sample_id; req_RequestName := "pvc-1"; req_NodeName := "node-a"; req_CapacityBytes := 4096;
     req_Pool := Some {| PoolReference.Name := "a"; PoolReference.UID := "uid-a" |}; req_Claim := None |}.

Definition empty : W := {| ObjectStore.objects := ∅; ObjectStore.revision := 1; ObjectStore.queue := [] |}.

Definition run : result State * W :=
  BeginCreate (AM := Sample.sample) (AC := cluster_client) (fun w => (Ok "cluster", w)) get_pool list_pools create_volume
    (fun w => (Ok 2000%Z, w)) 0 2 request empty.
End SampleCluster.

Lemma cluster_writes (w w' : ObjectStore.Store VolumeObject) (n : string) (o : VolumeObject) :
  rtc env w w' -> stored w' n = Some o -> stored w n = Some o \/ VolumeSpec.initialPool (spec o) <> Absent.
Proof.
  intros Hw Ho. induction Hw as [w|w w1 w' Hstep _ IH]; [by left|]. destruct (IH Ho) as [H1|]; [|by right].
  change (ObjectStore.interfere reserved_only w = Some w1) in Hstep. unfold ObjectStore.interfere in Hstep.
  destruct (ObjectStore.queue w) as [|[m x] rest]; [done|]. destruct (bool_decide _ && reserved_only x) eqn:E; [|done].
  apply andb_true_iff in E as [_ Hx]. injection Hstep as <-.
  change (ObjectStore.stored (ObjectStore.put w m x rest) n = Some o) in H1.
  destruct (decide (n = m)) as [->|Hne]; [|left; rewrite <- H1; symmetry; by apply ObjectStore.put_other].
  right. unfold ObjectStore.stored, ObjectStore.put in H1. simpl in H1. rewrite lookup_insert_eq in H1.
  destruct (_ == _); [|done]. injection H1 as <-. simpl. intros Habs. unfold reserved_only in Hx. by rewrite Habs in Hx.
Qed.

Lemma cluster_keeps_reservations : keeps_reservations (AC := cluster_client).
Proof. intros w w' n o o' Hw Ho Ho' Hp. destruct (cluster_writes w w' n o' Hw Ho'); congruence. Qed.

Lemma BeginCreate_returns_intent_witness :
  exists s w', SampleCluster.run = (Ok s, w') /\ State.Phase s = PhasePending /\ intent sample_id (Some "uid-a") s.
Proof.
  assert (exists s w', SampleCluster.run = (Ok s, w') /\ State.Phase s = PhasePending) as (s & w' & Hrun & Hp)
    by (eexists _, _; split; vm_compute; reflexivity).
  exists s, w'. split; [exact Hrun|]. split; [exact Hp|].
  destruct (BeginCreate_returns_intent (AM := Sample.sample) (AC := cluster_client) (fun w => (Ok "cluster", w))
    SampleCluster.get_pool SampleCluster.list_pools SampleCluster.create_volume (fun w => (Ok 2000%Z, w)) 0 0
    SampleCluster.request SampleCluster.empty) as [_ H]; [|exact cluster_keeps_reservations|exact (H s w' Hrun)].
  intros n w o w1 Hg. unfold SampleCluster.get_pool in Hg. destruct (bool_decide_reflect (n = "a")) as [->|_]; [|discriminate Hg].
  injection Hg as <- _. reflexivity.
Defined.
