(* ===== verification/PoolRegistry.v ===== *)
(** * The Pool registry

    The operations of src/kubernetes/volumeapi that write Pools, as whole handlers
    over the compare-and-set loop (pool.go, pool_probe.go, pool_retirement.go,
    pool_scan.go).  PoolApi has what each write checks and changes. *)

From S2P Require Import Prelude Bytes VolumeIdentity Apimachinery ApiServer VolumeState PoolApi VolumeRegistry.
From stdpp Require Import relations.

#[export] Instance field_eq_dec {A : Type} `{EqDecision A} : EqDecision (field A).
Proof. solve_decision. Defined.

#[export] Instance PoolSpec_eq_dec : EqDecision PoolSpec.
Proof. solve_decision. Defined.

Definition with_metadata (o : PoolObject) (m : Metadata) : PoolObject :=
  {| PoolObject.metadata := m; PoolObject.spec := PoolObject.spec o; PoolObject.status := PoolObject.status o |}.

(** Pools as API objects: a write of the object keeps the status and advances the
    generation when the spec changed; a write of the status keeps the rest. *)
#[export] Program Instance PoolObject_object : ApiObject PoolObject := {
  meta := PoolObject.metadata;
  with_finalizers o fs := with_metadata o (Metadata.set_Finalizers (PoolObject.metadata o) fs);
  with_resourceVersion o rv := with_metadata o (Metadata.set_ResourceVersion (PoolObject.metadata o) rv);
  persist through_status current submitted :=
    let m := PoolObject.metadata current in
    let s := PoolObject.metadata submitted in
    if through_status
    then Some {| PoolObject.metadata := m; PoolObject.spec := PoolObject.spec current;
                 PoolObject.status := PoolObject.status submitted |}
    else if negb (is_nil (Metadata.DeletionTimestamp m)) && (length (Metadata.Finalizers s) =? 0)%nat then None
    else Some {| PoolObject.metadata :=
                   {| Metadata.Name := Metadata.Name m; Metadata.UID := Metadata.UID m;
                      Metadata.ResourceVersion := Metadata.ResourceVersion m;
                      Metadata.Generation := (Metadata.Generation m +
                        if PoolObject.spec current == PoolObject.spec submitted then 0 else 1)%Z;
                      Metadata.Finalizers := Metadata.Finalizers s;
                      Metadata.DeletionTimestamp := Metadata.DeletionTimestamp m;
                      Metadata.Annotations := Metadata.Annotations s |};
                 PoolObject.spec := PoolObject.spec submitted; PoolObject.status := PoolObject.status current |}
}.
Next Obligation. done. Qed.
Next Obligation. done. Qed.
Next Obligation. intros [] current submitted o; simpl; [by intros [= <-]|]. case_match; [done|]. by intros [= <-]. Qed.
Next Obligation. done. Qed.

Section pools.
Context {AM : Apimachinery} {W : Type} {PC : ApiClient W PoolObject}.

Definition SetPoolStatus (name uid nodeName : string) (status : PoolStatus) : io W unit :=
  io_reject_if ((name == "") || (uid == "") || (nodeName == ""))
    (Errorf "ShiftPVPool name, UID, and node name are required");;
  mutateObject {| mut_name := name; mut_uid := uid; readError := "read ShiftPVPool status";
                  writeError := "update ShiftPVPool status"; status_write := true;
                  mut_apply := SetPoolStatus_apply nodeName status |}.

Definition updatePoolFinalizer (name uid : string) (present : bool) : io W unit :=
  updateObjectFinalizer (Obj := PoolObject) name uid PoolProtectionFinalizer present.

Definition EnsurePoolFinalizer (name uid : string) : io W unit := updatePoolFinalizer name uid true.

Definition RemovePoolFinalizer (name uid : string) : io W unit := updatePoolFinalizer name uid false.

Definition ApprovePoolIdentityRelease (name uid : string) : io W unit :=
  io_reject_if ((name == "") || (uid == "")) (Errorf "ShiftPVPool name and UID are required");;
  mutateObject {| mut_name := name; mut_uid := uid; readError := "read ShiftPVPool identity release approval";
                  writeError := "approve ShiftPVPool identity release"; status_write := false;
                  mut_apply := ApprovePoolIdentityRelease_apply uid |}.

Definition ApprovePoolRetirement (name uid : string) : io W unit :=
  io_reject_if ((name == "") || (uid == "")) (Errorf "ShiftPVPool name and UID are required");;
  mutateObject {| mut_name := name; mut_uid := uid; readError := "read ShiftPVPool retirement";
                  writeError := "approve ShiftPVPool retirement"; status_write := false;
                  mut_apply := ApprovePoolRetirement_apply uid |}.

Definition mutatePoolProbe (expected : Pool) (status : bool) (change : PoolObject -> result PoolObject) : io W unit :=
  mutateObject {| mut_name := Pool.Name expected; mut_uid := Pool.UID expected; readError := "read capacity probe Pool";
                  writeError := "update capacity probe Pool"; status_write := status; mut_apply := change |}.

Definition RequestPoolCapacityProbe (expected : Pool) (request : string) : io W unit :=
  io_reject_if ((request == "") || (512 <? String.length request)%nat)
    (Errorf "capacity probe request is missing or too large");;
  mutatePoolProbe expected false (RequestPoolCapacityProbe_apply expected request).

Definition RecordPoolCapacityProbe (expected : Pool) (answer : PoolCapacityProbeResult) : io W unit :=
  mutatePoolProbe expected true (RecordPoolCapacityProbe_apply expected answer).

(** The closure of [RequestPoolScan]. *)
Definition scan_attempt (target : CopyIdentity) (captured : unit) (w : W) : unit * result Z * W :=
  match Get (PoolName target) w with
  | (Err err, w) => (tt, Err err, w)
  | (Ok pool, w) =>
      match RequestPoolScan_apply target pool with
      | Err err => (tt, Err err, w)
      | Ok submitted =>
          match Write false submitted w with
          | (Err err, w) => (tt, Err err, w)
          | (Ok updated, w) =>
              (tt, RequestPoolScan_fence (Metadata.Generation (meta pool)) (Metadata.Generation (meta updated)), w)
          end
      end
  end.

(** [steps] retries of the default backoff. *)
Definition RequestPoolScan (steps : nat) (target : CopyIdentity) : io W Z :=
  wrap_error "request Pool scan: %w" (retry_closure steps (scan_attempt target) tt).
End pools.

(** ** The scan fence *)

Section scan.
Context {W : Type} {PC : ApiClient W PoolObject}.

Lemma wrap_error_Ok {A : Type} (format : string) (c : io W A) (w w' : W) (a : A) :
  wrap_error format c w = (Ok a, w') <-> c w = (Ok a, w').
Proof. unfold wrap_error. destruct (c w) as [[]]; naive_solver. Qed.

Lemma scan_apply_identity (target : CopyIdentity) (pool submitted : PoolObject) :
  RequestPoolScan_apply target pool = Ok submitted ->
  PoolObject.metadata submitted = PoolObject.metadata pool /\
  Metadata.UID (PoolObject.metadata pool) = PoolUID target /\
  PoolProtectionFinalizer ∈ Metadata.Finalizers (PoolObject.metadata pool) /\
  PoolSpec.nodeName (PoolObject.spec pool) = NodeName target /\ PoolObject.spec submitted <> PoolObject.spec pool.
Proof.
  unfold RequestPoolScan_apply. cbv zeta. intros H.
  destruct (_ || _) eqn:E; [done|]. destruct (PoolSpec.nodeName _ != _) eqn:En; [done|].
  apply bind_Ok in H as (epoch & Hepoch & H). destruct ((default 0%Z epoch <? 0)%Z || _); [done|]. injection H as <-.
  apply orb_false_iff in E as [Eu Ef]. go_inv. split_and!; try done.
  intros Hs. apply (f_equal PoolSpec.scanEpoch) in Hs. simpl in Hs. rewrite <- Hs in Hepoch.
  destruct epoch as [epoch|]; simpl in Hepoch; [|done]. injection Hepoch as Hepoch. lia.
Qed.

Lemma scan_attempt_conflict (target : CopyIdentity) (c c' : unit) (w w' : W) (e : error) :
  scan_attempt target c w = (c', Err e, w') -> IsConflict e = true -> rtc env w w'.
Proof.
  unfold scan_attempt. intros H He. destruct (Get _ w) as [[pool|e1] w1] eqn:EG;
    apply Get_spec in EG as (w0 & Hw0 & Hw1 & _); [|injection H as _ <- <-; by transitivity w0].
  destruct (RequestPoolScan_apply target pool) as [submitted|e1]; [|injection H as _ <- <-; by transitivity w0].
  destruct (Write false submitted w1) as [[updated|e1] w2] eqn:EW.
  - unfold RequestPoolScan_fence in H. destruct (_ || _); [|done]. injection H as _ <- _.
    by rewrite IsConflict_wrap, IsConflict_state in He.
  - injection H as _ <- <-. apply Write_conflict in EW; [|done]. transitivity w0; [done|]. by transitivity w1.
Qed.

(** A scan request is a causal fence.  When [RequestPoolScan] returns a
    generation, then at one instant between steps of other clients the stored Pool
    was the protected Pool with the target's UID on the target's node, and was
    replaced by the same Pool with the next scan epoch; the returned number is the
    generation of that replacement, one above the generation it had, so only an
    inventory taken after this write can carry it. *)
Theorem RequestPoolScan_causal (steps : nat) (target : CopyIdentity) (w w' : W) (generation : Z) :
  RequestPoolScan steps target w = (Ok generation, w') ->
  exists wa wb pool kept,
    rtc env w wa /\ rtc env wb w' /\ stored wa (PoolName target) = Some pool /\
    Metadata.UID (meta pool) = PoolUID target /\ PoolProtectionFinalizer ∈ Metadata.Finalizers (meta pool) /\
    PoolSpec.nodeName (PoolObject.spec pool) = NodeName target /\
    committed stored wa wb (PoolName target) (Some kept) /\ PoolObject.status kept = PoolObject.status pool /\
    Metadata.Generation (meta kept) = generation /\ generation = (Metadata.Generation (meta pool) + 1)%Z.
Proof.
  unfold RequestPoolScan. intros H%wrap_error_Ok.
  apply retry_closure_Ok in H as (c & w1 & c' & Hw1 & H); [|intros *; apply scan_attempt_conflict].
  unfold scan_attempt in H. destruct (Get _ w1) as [[pool|] w2] eqn:EG; [|done].
  destruct (RequestPoolScan_apply target pool) as [submitted|] eqn:Ea; [|done].
  destruct (Write false submitted w2) as [[updated|] w3] eqn:EW; [|done].
  injection H as _ Hf <-. apply Get_spec in EG as (w0 & Hw0 & Hw2 & Hst).
  destruct (scan_apply_identity target pool submitted Ea) as (Hm & Huid & Hprot & Hnode & Hspec).
  eapply (read_write_atomic _ pool submitted false w w0) in EW as (wa & wb & Ha & Hb & Hsa & Hc & Hres);
    [|done|done|simpl; by rewrite Hm|simpl; by rewrite Hm].
  assert (exists kept, persist false pool submitted = Some kept /\ PoolObject.status kept = PoolObject.status pool /\
    Metadata.Generation (meta kept) = (Metadata.Generation (meta pool) + 1)%Z) as (kept & Hk & Hs & Hg).
  { simpl. rewrite Hm. destruct (Metadata.Finalizers (PoolObject.metadata pool)) as [|f fs] eqn:Ef; [set_solver|].
    simpl. rewrite andb_false_r, bool_decide_eq_false_2 by done. by eexists. }
  rewrite Hk in Hc. pose proof (Hres kept Hk) as Hsame. apply (f_equal (fun o => Metadata.Generation (meta o))) in Hsame.
  rewrite !meta_with_resourceVersion in Hsame. simpl in Hsame.
  unfold RequestPoolScan_fence in Hf. destruct (_ || _); [done|]. injection Hf as <-.
  exists wa, wb, pool, kept. split_and!; try done; [|simpl in *; congruence..].
  etrans; [exact Hw1|]. etrans; [exact Hw0|]. by etrans.
Qed.
End scan.

(** Open the steps of a handler that returned, through the errors it wraps. *)
Ltac check_inv :=
  io_inv; repeat match goal with H : wrap_error _ _ _ = (Ok _, _) |- _ => apply wrap_error_Ok in H end; io_inv.

(** A protected Pool on its node, with another client's status write in between. *)
Definition sample_scan_pool (epoch : field Z) (status : field PoolStatus) : PoolObject :=
  {| PoolObject.metadata := {| Metadata.Name := "pool-a"; Metadata.UID := "pool-a-uid"; Metadata.ResourceVersion := "";
                               Metadata.Generation := 3; Metadata.Finalizers := [PoolProtectionFinalizer];
                               Metadata.DeletionTimestamp := None; Metadata.Annotations := ∅ |};
     PoolObject.spec := {| PoolSpec.nodeName := "node-a"; PoolSpec.poolGroup := None; PoolSpec.mountPath := "/pool";
                           PoolSpec.mountPolicy := ""; PoolSpec.capacityPolicy := ""; PoolSpec.capacityLimit := "1";
                           PoolSpec.scanEpoch := epoch |};
     PoolObject.status := status |}.

#[local] Instance sample_pool_client : ApiClient (ObjectStore.Store PoolObject) PoolObject :=
  ObjectStore.client (fun _ => true).

Definition sample_scan_world : ObjectStore.Store PoolObject :=
  {| ObjectStore.objects := {["pool-a" := (1%N, sample_scan_pool Absent Absent)]}; ObjectStore.revision := 1;
     ObjectStore.queue := [("pool-a", sample_scan_pool Absent (Present PoolStatus.empty))] |}.

Definition sample_scan_target : CopyIdentity :=
  {| InstallationID := "cluster"; PoolName := "pool-a"; PoolUID := "pool-a-uid";
     VolumeID := "shiftpv-0123456789abcdef0123456789abcdef"; VolumeUID := "uid-1"; CopyID := "initial-uid-1";
     NodeName := "node-a"; Role := RoleServing |}.

Lemma RequestPoolScan_causal_witness :
  exists w', RequestPoolScan 4 sample_scan_target sample_scan_world = (Ok 4%Z, w') /\
    exists pool : PoolObject, Metadata.UID (meta pool) = "pool-a-uid" /\ 4%Z = (Metadata.Generation (meta pool) + 1)%Z.
Proof.
  assert (exists w', RequestPoolScan 4 sample_scan_target sample_scan_world = (Ok 4%Z, w')) as (w' & H)
    by (eexists; vm_compute; reflexivity).
  exists w'. split; [exact H|].
  destruct (RequestPoolScan_causal _ _ _ _ _ H) as (wa & wb & pool & kept & _ & _ & _ & Hu & _ & _ & _ & _ & _ & Hg).
  exists pool. exact (conj Hu Hg).
Defined.
