(* ===== verification/MoveApi.v ===== *)
(** * Moves

    src/kubernetes/volumeapi/move.go, move_identity.go, move_preparation.go,
    move_settlement.go, move_usage.go and move_repair.go: the durable record of one
    move of a volume.  A Move first reserves its destination ([Preparation]), then
    exchanges that reservation for execution authority ([CapacityApproved]) bound to
    exact transaction identities, and gives it up only through a settled recovery.
    Each durable step is one compare-and-set of the whole status
    ([CompareAndSetMoveStatus]); the transition checks are the component's contract. *)

From S2P Require Import Prelude Bytes VolumeIdentity Apimachinery Registration ApiServer VolumeState PoolApi VolumeRegistry.
From stdpp Require Import relations sorting.

Definition MoveProtocolPreparedV1 : string := "prepared-v1".
Definition MoveProtectionFinalizer : string := "shiftpv.io/move-protection".

(** ** Data *)

Module MoveSpec.
Record MoveSpec := {
  ProtocolVersion : string;
  VolumeID : string;
  SourceNode : string;
  Recovery : string
}.
#[export] Instance MoveSpec_eq_dec : EqDecision MoveSpec.
Proof. solve_decision. Defined.
End MoveSpec.
Notation MoveSpec := MoveSpec.MoveSpec.
#[export] Existing Instance MoveSpec.MoveSpec_eq_dec.

Module MovePreparation.
Record MovePreparation := { Pool : PoolReference; NodeName : string; ReservedBytes : Z }.
#[export] Instance MovePreparation_eq_dec : EqDecision MovePreparation.
Proof. solve_decision. Defined.
End MovePreparation.
Notation MovePreparation := MovePreparation.MovePreparation.
#[export] Existing Instance MovePreparation.MovePreparation_eq_dec.

Module MoveStatus.
Record MoveStatus := {
  Preparation : option MovePreparation;
  PersistentVolumeUID : string;
  ClaimUID : string;
  PlacementPodUID : string;
  Phase : string;
  Reason : string;
  Message : string;
  LastTransitionTime : string;
  LastProgressTime : string;
  PersistentVolumeName : string;
  ClaimNamespace : string;
  ClaimName : string;
  ConsumerName : string;
  ConsumerUID : string;
  ReplacementName : string;
  ReplacementUID : string;
  DestinationNode : string;
  DestinationPoolUID : string;
  SourceBytes : Z;
  CapacityApproved : bool;
  CapacityReason : string;
  CandidateNodes : list string;
  EvictionRequested : bool;
  CopyJobName : string;
  PromotionJobName : string;
  CleanupPhase : string;
  CopyOperationID : string;
  PromotionOperationID : string;
  SourceCopy : option CopyIdentity;
  IncomingCopy : option CopyIdentity;
  DestinationCopy : option CopyIdentity;
  RollbackRequiredGeneration : Z;
  SettlementRequested : bool;
  RecoveryPhase : string;
  RecoveryOwner : string;
  RecoveryReason : string;
  RecoveryMessage : string
}.
#[export] Instance MoveStatus_eq_dec : EqDecision MoveStatus.
Proof. solve_decision. Defined.

(** The zero value. *)
Definition empty : MoveStatus :=
  {|
     Preparation := None; PersistentVolumeUID := ""; ClaimUID := ""; PlacementPodUID := ""; Phase := "";
     Reason := ""; Message := ""; LastTransitionTime := ""; LastProgressTime := ""; PersistentVolumeName := "";
     ClaimNamespace := ""; ClaimName := ""; ConsumerName := ""; ConsumerUID := ""; ReplacementName := "";
     ReplacementUID := ""; DestinationNode := ""; DestinationPoolUID := ""; SourceBytes := 0;
     CapacityApproved := false; CapacityReason := ""; CandidateNodes := []; EvictionRequested := false;
     CopyJobName := ""; PromotionJobName := ""; CleanupPhase := ""; CopyOperationID := "";
     PromotionOperationID := ""; SourceCopy := None; IncomingCopy := None; DestinationCopy := None;
     RollbackRequiredGeneration := 0; SettlementRequested := false; RecoveryPhase := ""; RecoveryOwner := "";
     RecoveryReason := ""; RecoveryMessage := "" |}.

Definition set_CleanupPhase (s : MoveStatus) (phase : string) : MoveStatus :=
  {|
     Preparation := Preparation s; PersistentVolumeUID := PersistentVolumeUID s; ClaimUID := ClaimUID s;
     PlacementPodUID := PlacementPodUID s; Phase := Phase s; Reason := Reason s; Message := Message s;
     LastTransitionTime := LastTransitionTime s; LastProgressTime := LastProgressTime s;
     PersistentVolumeName := PersistentVolumeName s; ClaimNamespace := ClaimNamespace s;
     ClaimName := ClaimName s; ConsumerName := ConsumerName s; ConsumerUID := ConsumerUID s;
     ReplacementName := ReplacementName s; ReplacementUID := ReplacementUID s;
     DestinationNode := DestinationNode s; DestinationPoolUID := DestinationPoolUID s;
     SourceBytes := SourceBytes s; CapacityApproved := CapacityApproved s; CapacityReason := CapacityReason s;
     CandidateNodes := CandidateNodes s; EvictionRequested := EvictionRequested s;
     CopyJobName := CopyJobName s; PromotionJobName := PromotionJobName s; CleanupPhase := phase;
     CopyOperationID := CopyOperationID s; PromotionOperationID := PromotionOperationID s;
     SourceCopy := SourceCopy s; IncomingCopy := IncomingCopy s; DestinationCopy := DestinationCopy s;
     RollbackRequiredGeneration := RollbackRequiredGeneration s; SettlementRequested := SettlementRequested s;
     RecoveryPhase := RecoveryPhase s; RecoveryOwner := RecoveryOwner s; RecoveryReason := RecoveryReason s;
     RecoveryMessage := RecoveryMessage s |}.

Definition set_SourceBytes (s : MoveStatus) (bytes : Z) : MoveStatus :=
  {|
     Preparation := Preparation s; PersistentVolumeUID := PersistentVolumeUID s; ClaimUID := ClaimUID s;
     PlacementPodUID := PlacementPodUID s; Phase := Phase s; Reason := Reason s; Message := Message s;
     LastTransitionTime := LastTransitionTime s; LastProgressTime := LastProgressTime s;
     PersistentVolumeName := PersistentVolumeName s; ClaimNamespace := ClaimNamespace s;
     ClaimName := ClaimName s; ConsumerName := ConsumerName s; ConsumerUID := ConsumerUID s;
     ReplacementName := ReplacementName s; ReplacementUID := ReplacementUID s;
     DestinationNode := DestinationNode s; DestinationPoolUID := DestinationPoolUID s; SourceBytes := bytes;
     CapacityApproved := CapacityApproved s; CapacityReason := CapacityReason s;
     CandidateNodes := CandidateNodes s; EvictionRequested := EvictionRequested s;
     CopyJobName := CopyJobName s; PromotionJobName := PromotionJobName s; CleanupPhase := CleanupPhase s;
     CopyOperationID := CopyOperationID s; PromotionOperationID := PromotionOperationID s;
     SourceCopy := SourceCopy s; IncomingCopy := IncomingCopy s; DestinationCopy := DestinationCopy s;
     RollbackRequiredGeneration := RollbackRequiredGeneration s; SettlementRequested := SettlementRequested s;
     RecoveryPhase := RecoveryPhase s; RecoveryOwner := RecoveryOwner s; RecoveryReason := RecoveryReason s;
     RecoveryMessage := RecoveryMessage s |}.
Definition set_RollbackRequiredGeneration (s : MoveStatus) (generation : Z) : MoveStatus :=
  {|
     Preparation := Preparation s; PersistentVolumeUID := PersistentVolumeUID s; ClaimUID := ClaimUID s;
     PlacementPodUID := PlacementPodUID s; Phase := Phase s; Reason := Reason s; Message := Message s;
     LastTransitionTime := LastTransitionTime s; LastProgressTime := LastProgressTime s;
     PersistentVolumeName := PersistentVolumeName s; ClaimNamespace := ClaimNamespace s;
     ClaimName := ClaimName s; ConsumerName := ConsumerName s; ConsumerUID := ConsumerUID s;
     ReplacementName := ReplacementName s; ReplacementUID := ReplacementUID s;
     DestinationNode := DestinationNode s; DestinationPoolUID := DestinationPoolUID s;
     SourceBytes := SourceBytes s; CapacityApproved := CapacityApproved s; CapacityReason := CapacityReason s;
     CandidateNodes := CandidateNodes s; EvictionRequested := EvictionRequested s;
     CopyJobName := CopyJobName s; PromotionJobName := PromotionJobName s; CleanupPhase := CleanupPhase s;
     CopyOperationID := CopyOperationID s; PromotionOperationID := PromotionOperationID s;
     SourceCopy := SourceCopy s; IncomingCopy := IncomingCopy s; DestinationCopy := DestinationCopy s;
     RollbackRequiredGeneration := generation; SettlementRequested := SettlementRequested s;
     RecoveryPhase := RecoveryPhase s; RecoveryOwner := RecoveryOwner s; RecoveryReason := RecoveryReason s;
     RecoveryMessage := RecoveryMessage s |}.
End MoveStatus.
Notation MoveStatus := MoveStatus.MoveStatus.
#[export] Existing Instance MoveStatus.MoveStatus_eq_dec.

Module Move.
Record Move := {
  Deleting : bool;
  Name : string;
  UID : string;
  ResourceVersion : string;
  Finalizers : list string;
  Spec : MoveSpec;
  Status : MoveStatus
}.

Definition with_Status (m : Move) (s : MoveStatus) : Move :=
  {| Deleting := Deleting m; Name := Name m; UID := UID m; ResourceVersion := ResourceVersion m;
     Finalizers := Finalizers m; Spec := Spec m; Status := s |}.
End Move.
Notation Move := Move.Move.

(** The stored object.  A string or boolean that is missing or of another type
    reads as its zero value; the other fields keep the difference. *)
Record Journal := {
  (** the whole value of status.cleanup, verbatim *)
  journal_raw : string;
  (** its nested status.phase, "" when there is none *)
  journal_phase : string
}.
#[export] Instance Journal_eq_dec : EqDecision Journal.
Proof. solve_decision. Defined.

Module MoveObject.
Record RawSpec := {
  volumeID : string;
  sourceNode : string;
  recovery : string;
  protocolVersion : field string
}.

Record RawStatus := {
  preparation : field MovePreparation;
  persistentVolumeUID : string;
  persistentVolumeClaimUID : string;
  placementPodUID : string;
  phase : string;
  reason : string;
  message : string;
  lastTransitionTime : string;
  lastProgressTime : string;
  persistentVolumeName : string;
  persistentVolumeClaimNamespace : string;
  persistentVolumeClaimName : string;
  consumerName : string;
  consumerUID : string;
  replacementName : string;
  replacementUID : string;
  destinationNode : string;
  destinationPoolUID : string;
  sourceBytes : Z;
  capacityApproved : bool;
  capacityReason : string;
  candidateNodes : field (list string);
  evictionRequested : bool;
  copyJobName : string;
  promotionJobName : string;
  copyOperationID : string;
  promotionOperationID : string;
  sourceCopy : field CopyIdentity;
  incomingCopy : field CopyIdentity;
  destinationCopy : field CopyIdentity;
  rollbackRequiredGeneration : field Z;
  settlementRequested : field bool;
  recoveryPhase : string;
  recoveryOwner : string;
  recoveryReason : string;
  recoveryMessage : string;
  cleanup : option Journal
}.

Record MoveObject := { metadata : Metadata; spec : RawSpec; status : RawStatus }.
End MoveObject.
Notation MoveObject := MoveObject.MoveObject.

(** ** Decoding and encoding *)

(** [validatePreparationFields] *)
Definition validatePreparationFields (preparation : MovePreparation) : result unit :=
  reject_if
    (negb (ValidObjectName (PoolReference.Name (MovePreparation.Pool preparation))) ||
     negb (ValidIdentityToken (PoolReference.UID (MovePreparation.Pool preparation))) ||
     negb (ValidObjectName (MovePreparation.NodeName preparation)) ||
     (MovePreparation.ReservedBytes preparation <=? 0)%Z)
    (Wrapf [ErrStateConflict] "%w: invalid Move preparation reservation").

Definition movePreparationFrom (object : MoveObject) : result (option MovePreparation) :=
  preparation ← decode (MoveObject.preparation (MoveObject.status object)) "decode preparation: %w";
  match preparation with
  | None => Ok None
  | Some preparation => validatePreparationFields preparation;; Ok (Some preparation)
  end.

(** The closure [readCopy] of [moveStatusFrom]. *)
Definition readCopy (data : field CopyIdentity) (message : string) : result (option CopyIdentity) :=
  identity ← decode data message;
  match identity with
  | None => Ok None
  | Some identity =>
      match Validate identity with
      | Ok _ => Ok (Some identity)
      | Err err => Err (Wrapf [err] message)
      end
  end.

Definition moveStatusFrom (object : MoveObject) : result MoveStatus :=
  let raw := MoveObject.status object in
  candidates ← decode (MoveObject.candidateNodes raw) "decode candidateNodes: %w";
  settlementRequested ← decode (MoveObject.settlementRequested raw) "decode settlementRequested: %w";
  rollback ← decode (MoveObject.rollbackRequiredGeneration raw) "decode rollbackRequiredGeneration: %w";
  let rollbackGeneration := default 0%Z rollback in
  reject_if (rollbackGeneration <? 0)%Z (Errorf "rollbackRequiredGeneration must not be negative");;
  sourceCopy ← readCopy (MoveObject.sourceCopy raw) "decode sourceCopy: %w";
  incomingCopy ← readCopy (MoveObject.incomingCopy raw) "decode incomingCopy: %w";
  destinationCopy ← readCopy (MoveObject.destinationCopy raw) "decode destinationCopy: %w";
  preparation ← movePreparationFrom object;
  Ok {|
       MoveStatus.Preparation := preparation;
       MoveStatus.PersistentVolumeUID := MoveObject.persistentVolumeUID raw;
       MoveStatus.ClaimUID := MoveObject.persistentVolumeClaimUID raw;
       MoveStatus.PlacementPodUID := MoveObject.placementPodUID raw; MoveStatus.Phase := MoveObject.phase raw;
       MoveStatus.Reason := MoveObject.reason raw; MoveStatus.Message := MoveObject.message raw;
       MoveStatus.LastTransitionTime := MoveObject.lastTransitionTime raw;
       MoveStatus.LastProgressTime := MoveObject.lastProgressTime raw;
       MoveStatus.PersistentVolumeName := MoveObject.persistentVolumeName raw;
       MoveStatus.ClaimNamespace := MoveObject.persistentVolumeClaimNamespace raw;
       MoveStatus.ClaimName := MoveObject.persistentVolumeClaimName raw;
       MoveStatus.ConsumerName := MoveObject.consumerName raw;
       MoveStatus.ConsumerUID := MoveObject.consumerUID raw;
       MoveStatus.ReplacementName := MoveObject.replacementName raw;
       MoveStatus.ReplacementUID := MoveObject.replacementUID raw;
       MoveStatus.DestinationNode := MoveObject.destinationNode raw;
       MoveStatus.DestinationPoolUID := MoveObject.destinationPoolUID raw;
       MoveStatus.SourceBytes := MoveObject.sourceBytes raw;
       MoveStatus.CapacityApproved := MoveObject.capacityApproved raw;
       MoveStatus.CapacityReason := MoveObject.capacityReason raw;
       MoveStatus.CandidateNodes := default [] candidates;
       MoveStatus.EvictionRequested := MoveObject.evictionRequested raw;
       MoveStatus.CopyJobName := MoveObject.copyJobName raw;
       MoveStatus.PromotionJobName := MoveObject.promotionJobName raw;
       MoveStatus.CleanupPhase := from_option journal_phase "" (MoveObject.cleanup raw);
       MoveStatus.CopyOperationID := MoveObject.copyOperationID raw;
       MoveStatus.PromotionOperationID := MoveObject.promotionOperationID raw;
       MoveStatus.SourceCopy := sourceCopy; MoveStatus.IncomingCopy := incomingCopy;
       MoveStatus.DestinationCopy := destinationCopy;
       MoveStatus.RollbackRequiredGeneration := rollbackGeneration;
       MoveStatus.SettlementRequested := default false settlementRequested;
       MoveStatus.RecoveryPhase := MoveObject.recoveryPhase raw;
       MoveStatus.RecoveryOwner := MoveObject.recoveryOwner raw;
       MoveStatus.RecoveryReason := MoveObject.recoveryReason raw;
       MoveStatus.RecoveryMessage := MoveObject.recoveryMessage raw |}.

Definition moveFrom (object : MoveObject) : result Move :=
  let spec := MoveObject.spec object in
  let metadata := MoveObject.metadata object in
  protocol ← decode (MoveObject.protocolVersion spec) "decode protocolVersion: %w";
  status ← moveStatusFrom object;
  Ok {| Move.Deleting := negb (is_nil (Metadata.DeletionTimestamp metadata)); Move.Name := Metadata.Name metadata;
        Move.UID := Metadata.UID metadata; Move.ResourceVersion := Metadata.ResourceVersion metadata;
        Move.Finalizers := Metadata.Finalizers metadata;
        Move.Spec := {| MoveSpec.ProtocolVersion := default "" protocol; MoveSpec.VolumeID := MoveObject.volumeID spec;
                        MoveSpec.SourceNode := MoveObject.sourceNode spec; MoveSpec.Recovery := MoveObject.recovery spec |};
        Move.Status := status |}.

(** A new status map; only the cleanup journal of the old one is kept. *)
Definition setMoveStatus (object : MoveObject) (status : MoveStatus) : MoveObject :=
  {| MoveObject.metadata := MoveObject.metadata object;
     MoveObject.spec := MoveObject.spec object;
     MoveObject.status := {|
       MoveObject.preparation := encode (MoveStatus.Preparation status);
       MoveObject.persistentVolumeUID := MoveStatus.PersistentVolumeUID status;
       MoveObject.persistentVolumeClaimUID := MoveStatus.ClaimUID status;
       MoveObject.placementPodUID := MoveStatus.PlacementPodUID status;
       MoveObject.phase := MoveStatus.Phase status; MoveObject.reason := MoveStatus.Reason status;
       MoveObject.message := MoveStatus.Message status;
       MoveObject.lastTransitionTime := MoveStatus.LastTransitionTime status;
       MoveObject.lastProgressTime := MoveStatus.LastProgressTime status;
       MoveObject.persistentVolumeName := MoveStatus.PersistentVolumeName status;
       MoveObject.persistentVolumeClaimNamespace := MoveStatus.ClaimNamespace status;
       MoveObject.persistentVolumeClaimName := MoveStatus.ClaimName status;
       MoveObject.consumerName := MoveStatus.ConsumerName status;
       MoveObject.consumerUID := MoveStatus.ConsumerUID status;
       MoveObject.replacementName := MoveStatus.ReplacementName status;
       MoveObject.replacementUID := MoveStatus.ReplacementUID status;
       MoveObject.destinationNode := MoveStatus.DestinationNode status;
       MoveObject.destinationPoolUID := MoveStatus.DestinationPoolUID status;
       MoveObject.sourceBytes := MoveStatus.SourceBytes status;
       MoveObject.capacityApproved := MoveStatus.CapacityApproved status;
       MoveObject.capacityReason := MoveStatus.CapacityReason status;
       MoveObject.candidateNodes := Present (MoveStatus.CandidateNodes status);
       MoveObject.evictionRequested := MoveStatus.EvictionRequested status;
       MoveObject.copyJobName := MoveStatus.CopyJobName status;
       MoveObject.promotionJobName := MoveStatus.PromotionJobName status;
       MoveObject.copyOperationID := MoveStatus.CopyOperationID status;
       MoveObject.promotionOperationID := MoveStatus.PromotionOperationID status;
       MoveObject.sourceCopy := encode (MoveStatus.SourceCopy status);
       MoveObject.incomingCopy := encode (MoveStatus.IncomingCopy status);
       MoveObject.destinationCopy := encode (MoveStatus.DestinationCopy status);
       MoveObject.rollbackRequiredGeneration := if (0 <? MoveStatus.RollbackRequiredGeneration status)%Z then Present (MoveStatus.RollbackRequiredGeneration status) else Absent;
       MoveObject.settlementRequested := if MoveStatus.SettlementRequested status then Present true else Absent;
       MoveObject.recoveryPhase := MoveStatus.RecoveryPhase status;
       MoveObject.recoveryOwner := MoveStatus.RecoveryOwner status;
       MoveObject.recoveryReason := MoveStatus.RecoveryReason status;
       MoveObject.recoveryMessage := MoveStatus.RecoveryMessage status;
       MoveObject.cleanup := MoveObject.cleanup (MoveObject.status object) |} |}.

Definition moveCleanup (object : MoveObject) : option Journal := MoveObject.cleanup (MoveObject.status object).

(** ** Transaction identities *)

Definition MoveCopyIDs (moveUID : string) : string * string :=
  ("move-" +:+ moveUID +:+ "-incoming", "move-" +:+ moveUID +:+ "-serving").
Definition MoveCopyOperationID (moveUID : string) : string := "copy-" +:+ moveUID.
Definition MovePromotionOperationID (moveUID : string) : string := "promote-" +:+ moveUID.
Definition MoveCleanupOperationID (moveUID : string) : string := "cleanup-" +:+ moveUID.
Definition MoveRollbackOperationID (moveUID : string) : string := "rollback-" +:+ moveUID.

Module MoveDestinationAnchor.
Record MoveDestinationAnchor := {
  InstallationID : string;
  PoolName : string;
  PoolUID : string;
  NodeName : string;
  VolumeUID : string
}.
End MoveDestinationAnchor.
Notation MoveDestinationAnchor := MoveDestinationAnchor.MoveDestinationAnchor.

Definition MoveTransactionCopies (moveUID volumeID : string) (anchor : MoveDestinationAnchor) :
    CopyIdentity * CopyIdentity :=
  let copy id role :=
    {| InstallationID := MoveDestinationAnchor.InstallationID anchor;
       PoolName := MoveDestinationAnchor.PoolName anchor; PoolUID := MoveDestinationAnchor.PoolUID anchor;
       VolumeID := volumeID; VolumeUID := MoveDestinationAnchor.VolumeUID anchor; CopyID := id;
       NodeName := MoveDestinationAnchor.NodeName anchor; Role := role |} in
  let '(incoming, serving) := MoveCopyIDs moveUID in
  (copy incoming RoleIncoming, copy serving RoleServing).

Definition MoveIdentityMismatch (term : string) : error :=
  Errorf ("Move " +:+ term +:+ " does not match the exact transaction identity").

(** The loop over the named terms of [matchMoveCopy]. *)
Fixpoint match_terms (name : string) (terms : list (string * string * string)) : result unit :=
  match terms with
  | [] => Ok tt
  | (field, observed, expected) :: terms =>
      if observed != expected then Err (MoveIdentityMismatch (name +:+ "." +:+ field)) else match_terms name terms
  end.

Definition matchMoveCopy (name : string) (observed expected : CopyIdentity) : result unit :=
  match_terms name
    [("InstallationID", InstallationID observed, InstallationID expected);
     ("PoolName", PoolName observed, PoolName expected);
     ("PoolUID", PoolUID observed, PoolUID expected);
     ("VolumeID", VolumeID observed, VolumeID expected);
     ("VolumeUID", VolumeUID observed, VolumeUID expected);
     ("CopyID", CopyID observed, CopyID expected);
     ("NodeName", NodeName observed, NodeName expected);
     ("Role", Role observed, Role expected)];;
  reject_if (observed != expected) (MoveIdentityMismatch name).

(** [copy == nil || copy.Validate() != nil] returns the mismatch of [name]. *)
Definition valid_copy (name : string) (copy : option CopyIdentity) : result CopyIdentity :=
  match copy with
  | None => Err (MoveIdentityMismatch name)
  | Some copy => reject_if (negb (is_ok (Validate copy))) (MoveIdentityMismatch name);; Ok copy
  end.

Definition ValidateMoveTransactionIdentities (move : Move) (anchor : MoveDestinationAnchor) : result unit :=
  let status := Move.Status move in
  reject_if (negb (ValidIdentityToken (Move.UID move))) (MoveIdentityMismatch "UID");;
  incoming ← valid_copy "IncomingCopy" (MoveStatus.IncomingCopy status);
  destination ← valid_copy "DestinationCopy" (MoveStatus.DestinationCopy status);
  let '(expectedIncoming, expectedDestination) :=
    MoveTransactionCopies (Move.UID move) (MoveSpec.VolumeID (Move.Spec move)) anchor in
  matchMoveCopy "IncomingCopy" incoming expectedIncoming;;
  matchMoveCopy "DestinationCopy" destination expectedDestination;;
  reject_if (MoveStatus.CopyOperationID status != MoveCopyOperationID (Move.UID move))
    (MoveIdentityMismatch "CopyOperationID");;
  reject_if (MoveStatus.PromotionOperationID status != MovePromotionOperationID (Move.UID move))
    (MoveIdentityMismatch "PromotionOperationID").

(** ** The plan and its reservation *)

Definition conflict (message : string) : error := Wrapf [ErrStateConflict] message.

Definition hasMoveDestinationIntent (status : MoveStatus) : bool :=
  negb (is_nil (MoveStatus.IncomingCopy status)) || negb (is_nil (MoveStatus.DestinationCopy status)) ||
  (MoveStatus.CopyOperationID status != "") || (MoveStatus.PromotionOperationID status != "") ||
  (MoveStatus.CopyJobName status != "") || (MoveStatus.PromotionJobName status != "") ||
  (MoveStatus.CleanupPhase status != "") || negb (MoveStatus.RollbackRequiredGeneration status =? 0)%Z.

Definition plan_terms (status : MoveStatus) : list string :=
  [MoveStatus.PersistentVolumeName status; MoveStatus.PersistentVolumeUID status; MoveStatus.ClaimNamespace status;
   MoveStatus.ClaimName status; MoveStatus.ClaimUID status; MoveStatus.ConsumerName status;
   MoveStatus.ConsumerUID status].

Definition validatePreparedPlan (move : Move) : result unit :=
  let status := Move.Status move in
  reject_if ((Move.Name move == "") || negb (ValidIdentityToken (Move.UID move)))
    (conflict "%w: prepared Move identity is missing");;
  reject_if (negb (forallb ValidIdentityToken (plan_terms status))) (conflict "%w: prepared Move requires %s");;
  reject_if
    (negb (some_and (MoveStatus.SourceCopy status) (fun source =>
       is_ok (Validate source) && (Role source == RoleServing) &&
       (VolumeID source == MoveSpec.VolumeID (Move.Spec move)) &&
       (NodeName source == MoveSpec.SourceNode (Move.Spec move)))))
    (conflict "%w: prepared Move source copy does not match its spec").

Definition ValidatePreparedMovePlan (move : Move) : result unit :=
  reject_if (MoveSpec.ProtocolVersion (Move.Spec move) != MoveProtocolPreparedV1)
    (conflict "%w: prepared protocol is required");;
  validatePreparedPlan move.

Definition ValidateMovePreparation (move : Move) : result unit :=
  let status := Move.Status move in
  match MoveStatus.Preparation status with
  | None => Ok tt
  | Some preparation =>
      reject_if (MoveSpec.ProtocolVersion (Move.Spec move) != MoveProtocolPreparedV1)
        (conflict "%w: preparation requires protocol %q");;
      validatePreparationFields preparation;;
      validatePreparedPlan move;;
      reject_if (MoveStatus.CapacityApproved status || hasMoveDestinationIntent status)
        (conflict "%w: preparation cannot coexist with destination execution authority");;
      reject_if (negb (ValidIdentityToken (MoveStatus.PlacementPodUID status)))
        (conflict "%w: preparation requires the exact placement Pod UID");;
      reject_if (some_and (MoveStatus.SourceCopy status) (fun source =>
                   PoolReference.UID (MovePreparation.Pool preparation) == PoolUID source))
        (conflict "%w: preparation destination is the source");;
      reject_if
        (((MoveStatus.DestinationNode status != "") &&
          (MoveStatus.DestinationNode status != MovePreparation.NodeName preparation)) ||
         ((MoveStatus.DestinationPoolUID status != "") &&
          (MoveStatus.DestinationPoolUID status != PoolReference.UID (MovePreparation.Pool preparation))))
        (conflict "%w: preparation destination does not match the Move plan")
  end.

(** ** Transition checks *)

(** [p.Field] on a pointer; nil panics. *)
Definition deref {A : Type} (p : option A) : result A :=
  match p with Some value => Ok value | None => Err (Errorf "nil pointer dereference") end.

Definition changed {A : Type} `{EqDecision A} (current next : option A) : bool :=
  some_and current (fun c => next != Some c).

Definition preserveMoveIdentity (current next : MoveStatus) : result unit :=
  reject_if ((MoveStatus.SourceBytes next <? 0)%Z ||
             ((0 <? MoveStatus.SourceBytes current)%Z &&
              negb (MoveStatus.SourceBytes current =? MoveStatus.SourceBytes next)%Z))
    (conflict "%w: recorded Move sourceBytes is immutable");;
  reject_if ((MoveStatus.RollbackRequiredGeneration next <? 0)%Z ||
             ((0 <? MoveStatus.RollbackRequiredGeneration current)%Z &&
              negb (MoveStatus.RollbackRequiredGeneration current =? MoveStatus.RollbackRequiredGeneration next)%Z))
    (conflict "%w: Move rollbackRequiredGeneration is immutable");;
  reject_if (changed (MoveStatus.SourceCopy current) (MoveStatus.SourceCopy next) ||
             changed (MoveStatus.IncomingCopy current) (MoveStatus.IncomingCopy next) ||
             changed (MoveStatus.DestinationCopy current) (MoveStatus.DestinationCopy next))
    (conflict "%w: Move %s is immutable");;
  reject_if (((MoveStatus.CopyOperationID current != "") &&
              (MoveStatus.CopyOperationID current != MoveStatus.CopyOperationID next)) ||
             ((MoveStatus.PromotionOperationID current != "") &&
              (MoveStatus.PromotionOperationID current != MoveStatus.PromotionOperationID next)))
    (conflict "%w: Move %s is immutable").

Definition bindings (status : MoveStatus) : list string :=
  plan_terms status ++
  [MoveStatus.PlacementPodUID status; MoveStatus.DestinationNode status; MoveStatus.DestinationPoolUID status].

Definition preservePreparedPlan (current next : MoveStatus) : result unit :=
  reject_if (negb (forallb (fun '(before, after) => (before == "") || (before == after))
                     (zip (bindings current) (bindings next))))
    (conflict "%w: prepared Move %s is immutable").

Definition validateSettlementTransition (current : Move) (next : MoveStatus) : result unit :=
  reject_if (MoveStatus.SettlementRequested (Move.Status current) && negb (MoveStatus.SettlementRequested next))
    (conflict "%w: settlement intent cannot be removed");;
  reject_if (MoveStatus.SettlementRequested next && (MoveStatus.Phase next != "Blocked"))
    (conflict "%w: settlement requires a blocked Move");;
  reject_if (MoveStatus.SettlementRequested next && negb (MoveStatus.SettlementRequested (Move.Status current)) &&
             negb (MoveStatus.CapacityApproved (Move.Status current)) &&
             negb (hasMoveDestinationIntent (Move.Status current)))
    (conflict "%w: unapproved preparation must use cancellation").

Definition validatePreparedProtection (current : Move) (next : MoveStatus) (hasCleanup : bool) : result unit :=
  reject_if ((MoveStatus.Phase next == "Cancelled") && hasCleanup)
    (conflict "%w: cancellation cannot settle a Move with a cleanup journal");;
  let granting :=
    (is_nil (MoveStatus.Preparation (Move.Status current)) && negb (is_nil (MoveStatus.Preparation next))) ||
    (negb (MoveStatus.CapacityApproved (Move.Status current)) && MoveStatus.CapacityApproved next) in
  reject_if (granting && Move.Deleting current)
    (conflict "%w: deleting Move cannot acquire preparation or execution authority");;
  reject_if (granting && negb (contains (Move.Finalizers current) MoveProtectionFinalizer))
    (conflict "%w: Move protection is required before granting capacity").

Definition validateExecutionHoldRelease (current next : Move) : result unit :=
  let before := Move.Status current in
  let after := Move.Status next in
  if negb (MoveStatus.CapacityApproved before) || MoveStatus.CapacityApproved after then Ok tt
  else
    reject_if ((MoveStatus.Phase before != "Blocked") || (MoveStatus.RecoveryPhase before != "Retiring") ||
               (MoveStatus.Phase after != "Blocked") || (MoveStatus.RecoveryPhase after != "Retiring") ||
               (MoveStatus.CapacityReason after != "RecoverySettled"))
      (conflict "%w: execution hold release requires recovery settlement");;
    reject_if ((MoveStatus.CleanupPhase before != "") && (MoveStatus.CleanupPhase before != "Completed"))
      (conflict "%w: execution cleanup is not settled");;
    reject_if ((MoveStatus.CleanupPhase before == "") && (MoveStatus.RollbackRequiredGeneration before <=? 0)%Z)
      (conflict "%w: execution hold release requires a recorded rollback scan");;
    match MoveStatus.SourceCopy before, MoveStatus.IncomingCopy before with
    | Some source, Some incoming =>
        ValidateMoveTransactionIdentities current
          {| MoveDestinationAnchor.InstallationID := InstallationID source;
             MoveDestinationAnchor.PoolName := PoolName incoming;
             MoveDestinationAnchor.PoolUID := MoveStatus.DestinationPoolUID before;
             MoveDestinationAnchor.NodeName := MoveStatus.DestinationNode before;
             MoveDestinationAnchor.VolumeUID := VolumeUID source |}
    | _, _ => Err (conflict "%w: execution hold has no exact disk plan")
    end.

Definition validatePreparationStart (current next : Move) : result unit :=
  let before := Move.Status current in
  let after := Move.Status next in
  reject_if (MoveStatus.CapacityApproved after && negb (MoveStatus.CapacityApproved before))
    (conflict "%w: execution approval requires the existing preparation reservation");;
  reject_if (hasMoveDestinationIntent after && negb (MoveStatus.CapacityApproved before) &&
             negb (hasMoveDestinationIntent before))
    (conflict "%w: destination intent requires prior execution approval");;
  reject_if (negb (is_nil (MoveStatus.Preparation after)) &&
             (MoveStatus.CapacityApproved before || hasMoveDestinationIntent before ||
              ((MoveStatus.Phase before != "") && (MoveStatus.Phase before != "Pending") &&
               (MoveStatus.Phase before != "Preparing"))))
    (conflict "%w: preparation can only begin before disruption").

Definition preservePreparation (current next : Move) : result unit :=
  match MoveStatus.Preparation (Move.Status current) with
  | None => validatePreparationStart current next
  | Some before =>
      ValidateMovePreparation current;;
      match MoveStatus.Preparation (Move.Status next) with
      | Some after => reject_if (before != after) (conflict "%w: preparation reservation is immutable")
      | None =>
          if (MoveStatus.Phase (Move.Status current) == "Canceling") &&
             (MoveStatus.Phase (Move.Status next) == "Cancelled") &&
             negb (MoveStatus.CapacityApproved (Move.Status next)) &&
             negb (hasMoveDestinationIntent (Move.Status next))
          then Ok tt
          else
            reject_if
              ((MoveStatus.Phase (Move.Status current) != "WaitingForCapacity") ||
               negb (MoveStatus.CapacityApproved (Move.Status next)) ||
               (MoveStatus.DestinationNode (Move.Status next) != MovePreparation.NodeName before) ||
               (MoveStatus.DestinationPoolUID (Move.Status next) != PoolReference.UID (MovePreparation.Pool before)))
              (conflict "%w: preparation may only be released by cancellation or exact execution approval");;
            source ← deref (MoveStatus.SourceCopy (Move.Status current));
            ValidateMoveTransactionIdentities next
              {| MoveDestinationAnchor.InstallationID := InstallationID source;
                 MoveDestinationAnchor.PoolName := PoolReference.Name (MovePreparation.Pool before);
                 MoveDestinationAnchor.PoolUID := PoolReference.UID (MovePreparation.Pool before);
                 MoveDestinationAnchor.NodeName := MovePreparation.NodeName before;
                 MoveDestinationAnchor.VolumeUID := VolumeUID source |}
      end
  end.

Definition validatePreparedTransition (current : Move) (next : MoveStatus) : result unit :=
  validateSettlementTransition current next;;
  preserveMoveIdentity (Move.Status current) next;;
  preservePreparedPlan (Move.Status current) next;;
  let candidate := Move.with_Status current next in
  ValidateMovePreparation candidate;;
  (if negb (is_nil (MoveStatus.SourceCopy next)) || MoveStatus.CapacityApproved next ||
      (MoveStatus.PlacementPodUID next != "") || (MoveStatus.PersistentVolumeUID next != "") ||
      (MoveStatus.ClaimUID next != "")
   then validatePreparedPlan candidate else Ok tt);;
  reject_if (MoveStatus.CapacityApproved next &&
             (negb (ValidIdentityToken (MoveStatus.PlacementPodUID next)) ||
              negb (is_nil (MoveStatus.Preparation next))))
    (conflict "%w: approved Move requires its placement identity and no logical hold");;
  validateExecutionHoldRelease current candidate;;
  preservePreparation current candidate.

(** ** Settlement and capacity holds *)

Definition MoveReservesDestination (move : Move) (state : State) (nodeName : string) : bool :=
  MoveStatus.CapacityApproved (Move.Status move) && (MoveStatus.DestinationNode (Move.Status move) == nodeName) &&
  (State.OwnerNode state != nodeName) && (State.ActiveMove state == Move.Name move).

Definition MoveCleanupSettled (move : Move) : bool :=
  let status := Move.Status move in
  let protocol := MoveSpec.ProtocolVersion (Move.Spec move) in
  if negb (is_nil (MoveStatus.Preparation status)) || ((protocol != "") && (protocol != MoveProtocolPreparedV1))
  then false
  else if (protocol == MoveProtocolPreparedV1) && (MoveStatus.Phase status == "Cancelled")
  then negb (MoveStatus.CapacityApproved status) && negb (hasMoveDestinationIntent status)
  else if (protocol == MoveProtocolPreparedV1) && negb (is_ok (validatePreparedPlan move)) then false
  else if MoveStatus.Phase status == "Succeeded" then MoveStatus.CleanupPhase status == "Completed"
  else (MoveStatus.Phase status == "Blocked") && (MoveStatus.RecoveryPhase status == "Recovered") &&
       negb (MoveStatus.CapacityApproved status) && (MoveStatus.CapacityReason status == "RecoverySettled").

Definition MoveRetiresUnpublishedSource (move : Move) (state : State) : bool :=
  let status := Move.Status move in
  if negb (MoveStatus.SettlementRequested status) || (MoveStatus.Phase status != "Blocked") ||
     (MoveStatus.RecoveryPhase status != "Retiring") ||
     (MoveStatus.RecoveryOwner status != MoveStatus.DestinationNode status) ||
     (MoveStatus.RollbackRequiredGeneration status <=? 0)%Z || negb (is_ok (ValidatePreparedMovePlan move))
  then false
  else match MoveStatus.SourceCopy status, MoveStatus.IncomingCopy status with
       | Some source, Some incoming =>
           if (MoveStatus.DestinationNode status == MoveSpec.SourceNode (Move.Spec move)) ||
              (MoveStatus.DestinationPoolUID status == PoolUID source)
           then false
           else
             let anchor := {| MoveDestinationAnchor.InstallationID := InstallationID source;
                              MoveDestinationAnchor.PoolName := PoolName incoming;
                              MoveDestinationAnchor.PoolUID := MoveStatus.DestinationPoolUID status;
                              MoveDestinationAnchor.NodeName := MoveStatus.DestinationNode status;
                              MoveDestinationAnchor.VolumeUID := VolumeUID source |} in
             is_ok (ValidateMoveTransactionIdentities move anchor) &&
             some_and (MoveStatus.DestinationCopy status) (fun copy =>
               negb (State.Deleting state) && negb (State.HasCleanup state) && (State.Phase state == PhaseBlocked) &&
               (State.ActiveMove state == Move.Name move) && (State.UID state == VolumeUID copy) &&
               (State.OwnerNode state == NodeName copy) && (State.CurrentCopy state == Some copy) &&
               (length (State.PublishedNodes state) =? 0)%nat)
       | _, _ => false
       end.

Definition settlementInventoryCurrent (pool : Pool) (target : option CopyIdentity) (requiredGeneration : Z) : bool :=
  some_and target (fun target =>
    is_ok (Validate target) && (Role target == RoleServing) && (0 <? requiredGeneration)%Z &&
    (requiredGeneration <=? Pool.Generation pool)%Z &&
    (PoolStatus.ObservedGeneration (Pool.Status pool) =? Pool.Generation pool)%Z &&
    (PoolName target == Pool.Name pool) && (PoolUID target == Pool.UID pool) &&
    (NodeName target == Pool.NodeName pool)) &&
  some_and (PoolStatus.Inventory (Pool.Status pool)) (fun inventory =>
    PoolInventory.Valid inventory && negb (PoolInventory.Truncated inventory) &&
    (PoolInventory.Message inventory == "")).

(** The loop of [PoolHasUnpublishedCopy]: [None] is its [return false]. *)
Fixpoint count_unpublished (target : CopyIdentity) (copies : list CopyObservation) (matches : nat) : option nat :=
  match copies with
  | [] => Some matches
  | observed :: copies =>
      match CopyObservation.Identity observed with
      | None => count_unpublished target copies matches
      | Some identity =>
          if VolumeID identity != VolumeID target then count_unpublished target copies matches
          else if identity != target then
            if CopyObservation.Present observed || (CopyObservation.Problem observed != "") then None
            else count_unpublished target copies matches
          else if negb (CopyObservation.Present observed) || CopyObservation.Published observed ||
                  (CopyObservation.Problem observed != "") then None
          else count_unpublished target copies (S matches)
      end
  end.

Definition PoolHasUnpublishedCopy (pool : Pool) (target : option CopyIdentity) (requiredGeneration : Z) : bool :=
  settlementInventoryCurrent pool target requiredGeneration &&
  match target, PoolStatus.Inventory (Pool.Status pool) with
  | Some target, Some inventory => count_unpublished target (PoolInventory.Copies inventory) 0 == Some 1%nat
  | _, _ => false
  end.

(** ** Repair of an interrupted helper *)

Section repair.
Context {AM : Apimachinery}.

Definition repairableInventoryAt (pool : Pool) (now staleAfter : Z) : option PoolInventory :=
  if negb (CleanupReadyAt pool now staleAfter).1 then None
  else match PoolStatus.Inventory (Pool.Status pool) with
       | None => None
       | Some inventory =>
           if PoolInventory.Valid inventory || PoolInventory.Truncated inventory ||
              (PoolInventory.Message inventory != "CopyObservationProblem") ||
              stale now staleAfter (PoolInventory.ObservedAt inventory)
           then None else Some inventory
       end.

Definition moveRepairBindsDestination (pool : Pool) (move : Move) : bool :=
  (Move.Name move != "") && ValidIdentityToken (Move.UID move) &&
  (MoveStatus.DestinationNode (Move.Status move) == Pool.NodeName pool) &&
  (MoveStatus.DestinationPoolUID (Move.Status move) == Pool.UID pool).

Definition moveRepairBindsSourceCopy (move : Move) (state : State) : bool :=
  if (State.UID state == "") || (State.Phase state != PhaseMoving) || (State.ActiveMove state != Move.Name move) ||
     (State.OwnerNode state != MoveSpec.SourceNode (Move.Spec move))
  then false
  else some_and (State.CurrentCopy state) (fun current =>
         some_and (MoveStatus.SourceCopy (Move.Status move)) (fun source =>
           is_ok (Validate current) && (Role current == RoleServing) &&
           (VolumeID current == MoveSpec.VolumeID (Move.Spec move)) && (VolumeUID current == State.UID state) &&
           (NodeName current == MoveSpec.SourceNode (Move.Spec move)) && (current == source))).

Definition moveRepairMarker (pool : Pool) (move : Move) (state : State) (incoming destination : CopyIdentity) :
    option string :=
  let anchor := {| MoveDestinationAnchor.InstallationID := InstallationID incoming;
                   MoveDestinationAnchor.PoolName := Pool.Name pool;
                   MoveDestinationAnchor.PoolUID := Pool.UID pool;
                   MoveDestinationAnchor.NodeName := Pool.NodeName pool;
                   MoveDestinationAnchor.VolumeUID := State.UID state |} in
  if negb (is_ok (ValidateMoveTransactionIdentities move anchor)) then None
  else if MoveStatus.Phase (Move.Status move) == "Copying" then Some ("path:.shiftpv/incoming/" +:+ CopyID incoming)
  else if MoveStatus.Phase (Move.Status move) == "Promoting" then Some ("path:volumes/" +:+ VolumeID destination)
  else None.

(** The loop of [inventoryHoldsOnlyRepairableProblem]. *)
Fixpoint count_repairable (marker : string) (copies : list CopyObservation) (matched : nat) : option nat :=
  match copies with
  | [] => Some matched
  | observed :: copies =>
      if CopyObservation.Problem observed == "" then count_repairable marker copies matched
      else if (CopyObservation.Marker observed != marker) || negb (is_nil (CopyObservation.Identity observed)) ||
              negb (CopyObservation.Present observed) || CopyObservation.Published observed ||
              (CopyObservation.Problem observed != "UnrecordedPath")
      then None
      else count_repairable marker copies (S matched)
  end.

Definition inventoryHoldsOnlyRepairableProblem (inventory : PoolInventory) (expectedMarker : string) : bool :=
  count_repairable expectedMarker (PoolInventory.Copies inventory) 0 == Some 1%nat.

Definition PoolReadyForActiveMoveRepairAt (pool : Pool) (move : Move) (state : State) (now staleAfter : Z) : bool :=
  let status := Move.Status move in
  if negb (MoveStatus.CapacityApproved status) || negb (contains (Pool.Finalizers pool) PoolProtectionFinalizer)
  then false
  else match repairableInventoryAt pool now staleAfter with
       | None => false
       | Some inventory =>
           if negb (moveRepairBindsDestination pool move) || negb (moveRepairBindsSourceCopy move state) then false
           else match MoveStatus.IncomingCopy status, MoveStatus.DestinationCopy status with
                | Some incoming, Some destination =>
                    some_and (moveRepairMarker pool move state incoming destination)
                      (inventoryHoldsOnlyRepairableProblem inventory)
                | _, _ => false
                end
       end.
End repair.

(** ** Source usage *)

Definition sourceUsageRequest (move : Move) (copy : CopyIdentity) (bytes : Z) : result unit :=
  reject_if
    ((Move.Name move == "") || (Move.UID move == "") || (Move.ResourceVersion move == "") || (bytes <=? 0)%Z ||
     negb (is_ok (Validate copy)) || (Role copy != RoleServing) ||
     (VolumeID copy != MoveSpec.VolumeID (Move.Spec move)) || (NodeName copy != MoveSpec.SourceNode (Move.Spec move)))
    (conflict "%w: source usage requires exact Move/copy identity and positive bytes").

Definition sourceUsageMove (move : Move) (copy : CopyIdentity) (bytes : Z) (hasCleanup : bool) : result unit :=
  let status := Move.Status move in
  reject_if (Move.Deleting move || negb (contains (Move.Finalizers move) MoveProtectionFinalizer) ||
             MoveStatus.CapacityApproved status || hasCleanup || hasMoveDestinationIntent status)
    (conflict "%w: source usage requires a protected pre-execution Move");;
  reject_if (MoveSpec.ProtocolVersion (Move.Spec move) != MoveProtocolPreparedV1)
    (conflict "%w: unsupported Move protocol");;
  reject_if ((MoveStatus.Phase status != "WaitingForCapacity") || is_nil (MoveStatus.Preparation status))
    (conflict "%w: prepared Move has no waiting reservation");;
  ValidateMovePreparation move;;
  reject_if (MoveStatus.SourceCopy status != Some copy) (conflict "%w: source copy changed");;
  reject_if ((MoveStatus.SourceBytes status <? 0)%Z ||
             ((0 <? MoveStatus.SourceBytes status)%Z &&
              (negb (MoveStatus.SourceBytes status =? bytes)%Z || is_nil (MoveStatus.SourceCopy status))))
    (conflict "%w: recorded source usage is immutable").

Definition sourceUsageAuthority (move : Move) (copy : CopyIdentity) (state : State) : result unit :=
  reject_if
    (State.Deleting state || State.HasCleanup state ||
     negb (contains (State.Finalizers state) VolumeProtectionFinalizer) || (State.UID state != VolumeUID copy) ||
     (State.Phase state != PhaseMoving) || (State.OwnerNode state != MoveSpec.SourceNode (Move.Spec move)) ||
     (State.ActiveMove state != Move.Name move) || (State.CurrentCopy state != Some copy) ||
     negb (length (State.PublishedNodes state) =? 0)%nat)
    (conflict "%w: source usage no longer has exact quiesced authority").

(** ** Handlers *)

(** Moves as API objects, as for volumes. *)
#[export] Program Instance MoveObject_object : ApiObject MoveObject := {
  meta := MoveObject.metadata;
  with_finalizers o fs :=
    {| MoveObject.metadata := Metadata.set_Finalizers (MoveObject.metadata o) fs; MoveObject.spec := MoveObject.spec o;
       MoveObject.status := MoveObject.status o |};
  with_resourceVersion o rv :=
    {| MoveObject.metadata := Metadata.set_ResourceVersion (MoveObject.metadata o) rv;
       MoveObject.spec := MoveObject.spec o; MoveObject.status := MoveObject.status o |};
  persist through_status current submitted :=
    if through_status
    then Some {| MoveObject.metadata := MoveObject.metadata current; MoveObject.spec := MoveObject.spec current;
                 MoveObject.status := MoveObject.status submitted |}
    else if negb (is_nil (Metadata.DeletionTimestamp (MoveObject.metadata current))) &&
            (length (Metadata.Finalizers (MoveObject.metadata submitted)) =? 0)%nat then None
    else Some {| MoveObject.metadata :=
                   Metadata.set_Finalizers (MoveObject.metadata current) (Metadata.Finalizers (MoveObject.metadata submitted));
                 MoveObject.spec := MoveObject.spec submitted; MoveObject.status := MoveObject.status current |}
}.
Next Obligation. done. Qed.
Next Obligation. done. Qed.
Next Obligation. intros [] current submitted o; simpl; [by intros [= <-]|]. case_match; [done|]. by intros [= <-]. Qed.
Next Obligation. done. Qed.

(** [unstructured.SetNestedField(object, bytes, "status", "sourceBytes")] *)
Definition set_sourceBytes (object : MoveObject) (bytes : Z) : MoveObject :=
  let raw := MoveObject.status object in
  {| MoveObject.metadata := MoveObject.metadata object;
     MoveObject.spec := MoveObject.spec object;
     MoveObject.status := {|
       MoveObject.preparation := MoveObject.preparation raw;
       MoveObject.persistentVolumeUID := MoveObject.persistentVolumeUID raw;
       MoveObject.persistentVolumeClaimUID := MoveObject.persistentVolumeClaimUID raw;
       MoveObject.placementPodUID := MoveObject.placementPodUID raw; MoveObject.phase := MoveObject.phase raw;
       MoveObject.reason := MoveObject.reason raw; MoveObject.message := MoveObject.message raw;
       MoveObject.lastTransitionTime := MoveObject.lastTransitionTime raw;
       MoveObject.lastProgressTime := MoveObject.lastProgressTime raw;
       MoveObject.persistentVolumeName := MoveObject.persistentVolumeName raw;
       MoveObject.persistentVolumeClaimNamespace := MoveObject.persistentVolumeClaimNamespace raw;
       MoveObject.persistentVolumeClaimName := MoveObject.persistentVolumeClaimName raw;
       MoveObject.consumerName := MoveObject.consumerName raw;
       MoveObject.consumerUID := MoveObject.consumerUID raw;
       MoveObject.replacementName := MoveObject.replacementName raw;
       MoveObject.replacementUID := MoveObject.replacementUID raw;
       MoveObject.destinationNode := MoveObject.destinationNode raw;
       MoveObject.destinationPoolUID := MoveObject.destinationPoolUID raw; MoveObject.sourceBytes := bytes;
       MoveObject.capacityApproved := MoveObject.capacityApproved raw;
       MoveObject.capacityReason := MoveObject.capacityReason raw;
       MoveObject.candidateNodes := MoveObject.candidateNodes raw;
       MoveObject.evictionRequested := MoveObject.evictionRequested raw;
       MoveObject.copyJobName := MoveObject.copyJobName raw;
       MoveObject.promotionJobName := MoveObject.promotionJobName raw;
       MoveObject.copyOperationID := MoveObject.copyOperationID raw;
       MoveObject.promotionOperationID := MoveObject.promotionOperationID raw;
       MoveObject.sourceCopy := MoveObject.sourceCopy raw;
       MoveObject.incomingCopy := MoveObject.incomingCopy raw;
       MoveObject.destinationCopy := MoveObject.destinationCopy raw;
       MoveObject.rollbackRequiredGeneration := MoveObject.rollbackRequiredGeneration raw;
       MoveObject.settlementRequested := MoveObject.settlementRequested raw;
       MoveObject.recoveryPhase := MoveObject.recoveryPhase raw;
       MoveObject.recoveryOwner := MoveObject.recoveryOwner raw;
       MoveObject.recoveryReason := MoveObject.recoveryReason raw;
       MoveObject.recoveryMessage := MoveObject.recoveryMessage raw;
       MoveObject.cleanup := MoveObject.cleanup raw |} |}.

Definition storedMoveStatus (current : Move) (expected stored : MoveObject) : result Move :=
  wanted ← moveStatusFrom expected;
  result ← moveFrom stored;
  reject_if ((Move.UID result != Move.UID current) || (Move.Spec result != Move.Spec current))
    (conflict "%w: stored Move identity changed");;
  reject_if ((Move.Status result != wanted) || (moveCleanup expected != moveCleanup stored))
    (conflict "%w: Move status or cleanup journal was not stored exactly");;
  Ok result.

(** The status of an object that has none. *)
Definition no_status : MoveObject.RawStatus :=
  {|
     MoveObject.preparation := Absent; MoveObject.persistentVolumeUID := "";
     MoveObject.persistentVolumeClaimUID := ""; MoveObject.placementPodUID := ""; MoveObject.phase := "";
     MoveObject.reason := ""; MoveObject.message := ""; MoveObject.lastTransitionTime := "";
     MoveObject.lastProgressTime := ""; MoveObject.persistentVolumeName := "";
     MoveObject.persistentVolumeClaimNamespace := ""; MoveObject.persistentVolumeClaimName := "";
     MoveObject.consumerName := ""; MoveObject.consumerUID := ""; MoveObject.replacementName := "";
     MoveObject.replacementUID := ""; MoveObject.destinationNode := ""; MoveObject.destinationPoolUID := "";
     MoveObject.sourceBytes := 0; MoveObject.capacityApproved := false; MoveObject.capacityReason := "";
     MoveObject.candidateNodes := Absent; MoveObject.evictionRequested := false; MoveObject.copyJobName := "";
     MoveObject.promotionJobName := ""; MoveObject.copyOperationID := "";
     MoveObject.promotionOperationID := ""; MoveObject.sourceCopy := Absent; MoveObject.incomingCopy := Absent;
     MoveObject.destinationCopy := Absent; MoveObject.rollbackRequiredGeneration := Absent;
     MoveObject.settlementRequested := Absent; MoveObject.recoveryPhase := ""; MoveObject.recoveryOwner := "";
     MoveObject.recoveryReason := ""; MoveObject.recoveryMessage := ""; MoveObject.cleanup := None |}.

(** The object [CreateMove] submits; the server appends to the name. *)
Definition newMoveObject (generateName : string) (spec : MoveSpec) : MoveObject :=
  {| MoveObject.metadata := {| Metadata.Name := generateName; Metadata.UID := ""; Metadata.ResourceVersion := "";
                                 Metadata.Generation := 0; Metadata.Finalizers := [MoveProtectionFinalizer];
                                 Metadata.DeletionTimestamp := None; Metadata.Annotations := ∅ |};
       MoveObject.spec := {| MoveObject.volumeID := MoveSpec.VolumeID spec;
                             MoveObject.sourceNode := MoveSpec.SourceNode spec; MoveObject.recovery := "";
                             MoveObject.protocolVersion := Present (MoveSpec.ProtocolVersion spec) |};
       MoveObject.status := no_status |}.

Fixpoint decode_moves (items : list MoveObject) : result (list Move) :=
  match items with
  | [] => Ok []
  | item :: items =>
      match moveFrom item with
      | Err err => Err (Wrapf [err] "decode ShiftPVMove %q: %w")
      | Ok move => moves ← decode_moves items; Ok (move :: moves)
      end
  end.

Definition move_le (a b : Move) : Prop := string_le (Move.Name a) (Move.Name b).

#[export] Instance move_le_dec : RelDecision move_le.
Proof. intros a b. unfold move_le. apply _. Defined.

Section handlers.
Context {AM : Apimachinery} {W : Type} {VC : ApiClient W VolumeObject} {MC : ApiClient W MoveObject}.
Context (create_move : MoveObject -> io W MoveObject)
        (delete_move : string -> string -> io W unit)
        (list_moves : io W (list MoveObject)).

Definition CreateMove (generateName : string) (spec : MoveSpec) : io W Move :=
  io_reject_if (MoveSpec.ProtocolVersion spec != MoveProtocolPreparedV1) (Errorf "unsupported Move protocol %q");;
  object ← wrap_error "create ShiftPVMove: %w" (create_move (newMoveObject generateName spec));
  stored ← io_lift (moveFrom object);
  io_reject_if (MoveSpec.ProtocolVersion (Move.Spec stored) != MoveSpec.ProtocolVersion spec)
    (conflict "%w: Move protocol was not stored; upgrade the Move CRD");;
  mret stored.

Definition DeleteMove (name uid : string) : io W unit :=
  io_reject_if ((name == "") || (uid == "")) (Errorf "ShiftPVMove name and UID are required for deletion");;
  deleted ← catch (delete_move name uid);
  match deleted with
  | Ok _ => mret tt
  | Err err => if IsNotFound (Obj := MoveObject) err then mret tt else io_fail (Wrapf [err] "delete ShiftPVMove: %w")
  end.

Definition AddMoveFinalizer (name uid : string) : io W unit :=
  updateObjectFinalizer (Obj := MoveObject) name uid MoveProtectionFinalizer true.

Definition RemoveMoveFinalizer (name uid : string) : io W unit :=
  updateObjectFinalizer (Obj := MoveObject) name uid MoveProtectionFinalizer false.

Definition GetMove (name : string) : io W Move :=
  object ← wrap_error "get ShiftPVMove: %w" (Get name);
  io_lift (moveFrom object).

Definition ListMoves : io W (list Move) :=
  items ← wrap_error "list ShiftPVMove: %w" list_moves;
  moves ← io_lift (decode_moves items);
  mret (merge_sort move_le moves).

Definition CompareAndSetMoveStatus (expected : Move) (next : MoveStatus) : io W Move :=
  io_reject_if ((Move.Name expected == "") || (Move.UID expected == "") || (Move.ResourceVersion expected == ""))
    (conflict "%w: Move name, UID and resourceVersion are required");;
  object ← wrap_error "read Move before status compare-and-set: %w" (Get (Move.Name expected));
  io_reject_if ((Metadata.UID (meta object) != Move.UID expected) ||
                (Metadata.ResourceVersion (meta object) != Move.ResourceVersion expected))
    (conflict "%w: Move UID or resourceVersion changed");;
  current ← io_lift (moveFrom object);
  io_reject_if ((Move.Spec current != Move.Spec expected) ||
                (MoveSpec.ProtocolVersion (Move.Spec current) != MoveProtocolPreparedV1))
    (conflict "%w: Move protocol or spec changed");;
  let next := MoveStatus.set_CleanupPhase next (MoveStatus.CleanupPhase (Move.Status current)) in
  io_lift (validatePreparedProtection current next (negb (is_nil (moveCleanup object))));;
  io_lift (validatePreparedTransition current next);;
  let object := setMoveStatus object next in
  stored ← wrap_error "compare-and-set Move status: %w" (Write true object);
  io_lift (storedMoveStatus current object stored).

Definition RecordSourceUsage (expected : Move) (copy : CopyIdentity) (bytes : Z) : io W Move :=
  io_lift (sourceUsageRequest expected copy bytes);;
  object ← wrap_error "read Move before recording source usage: %w" (Get (Move.Name expected));
  current ← io_lift (moveFrom object);
  io_reject_if ((Move.UID current != Move.UID expected) || (Move.ResourceVersion current != Move.ResourceVersion expected) ||
                (Move.Spec current != Move.Spec expected))
    (conflict "%w: Move identity, version or spec changed");;
  io_lift (sourceUsageMove current copy bytes (negb (is_nil (moveCleanup object))));;
  state ← wrap_error "read source authority before recording usage: %w" (GetState (MoveSpec.VolumeID (Move.Spec current)));
  io_lift (sourceUsageAuthority current copy state);;
  if (MoveStatus.SourceBytes (Move.Status current) =? bytes)%Z then mret current
  else
    let object := set_sourceBytes object bytes in
    stored ← wrap_error "record source usage: %w" (Write true object);
    io_lift (storedMoveStatus current object stored).
End handlers.
