(* ===== verification/MoveProtocol.v ===== *)
(** * The Move protocol

    What the transition checks of MoveApi guarantee over the whole life of a Move:
    the step relation collects every write to the stored Move, and the theorems are
    about its runs. *)

From S2P Require Import Prelude Bytes VolumeIdentity Apimachinery ApiServer VolumeState PoolApi VolumeRegistry PoolRegistry MoveApi.
From stdpp Require Import relations.

(** ** Steps *)

(** One write to a stored Move.  [current] is the decoded object. *)
Inductive move_step (current : Move) : Move -> Prop :=
| status_step next hasCleanup :
    (** [CompareAndSetMoveStatus] *)
    MoveStatus.CleanupPhase next = MoveStatus.CleanupPhase (Move.Status current) ->
    validatePreparedProtection current next hasCleanup = Ok tt ->
    validatePreparedTransition current next = Ok tt ->
    move_step current (Move.with_Status current next)
| usage_step copy bytes hasCleanup :
    (** [RecordSourceUsage] *)
    (0 < bytes)%Z ->
    sourceUsageMove current copy bytes hasCleanup = Ok tt ->
    move_step current (Move.with_Status current (MoveStatus.set_SourceBytes (Move.Status current) bytes))
| cleanup_step phase :
    (** the cleanup journal has its own writer *)
    move_step current (Move.with_Status current (MoveStatus.set_CleanupPhase (Move.Status current) phase))
| metadata_step deleting version finalizers :
    (** finalizers, deletion and the version change under the API server *)
    move_step current
      {| Move.Deleting := deleting; Move.Name := Move.Name current; Move.UID := Move.UID current;
         Move.ResourceVersion := version; Move.Finalizers := finalizers; Move.Spec := Move.Spec current;
         Move.Status := Move.Status current |}.

(** ** Exact identities *)

Lemma match_terms_Ok (name : string) (terms : list (string * string * string)) :
  match_terms name terms = Ok tt <-> Forall (fun '(_, observed, expected) => observed = expected) terms.
Proof.
  induction terms as [|[[field observed] expected] terms IH]; simpl; [by split|].
  rewrite Forall_cons, <- IH. case_bool_decide; simpl; naive_solver.
Qed.

Lemma matchMoveCopy_Ok (name : string) (observed expected : CopyIdentity) :
  matchMoveCopy name observed expected = Ok tt <-> observed = expected.
Proof.
  unfold matchMoveCopy. rewrite bind_Ok. setoid_rewrite reject_if_Ok.
  setoid_rewrite negb_false_iff. setoid_rewrite bool_decide_eq_true.
  split; [naive_solver|]. intros ->. exists tt. split; [|done]. apply match_terms_Ok. repeat constructor.
Qed.

Lemma valid_copy_Ok (name : string) (copy : option CopyIdentity) (c : CopyIdentity) :
  valid_copy name copy = Ok c <-> copy = Some c /\ Validate c = Ok tt.
Proof.
  destruct copy as [copy|]; [|naive_solver]. unfold valid_copy. rewrite bind_Ok. setoid_rewrite reject_if_Ok.
  setoid_rewrite negb_false_iff. setoid_rewrite is_ok_unit. naive_solver.
Qed.

(** [exact_transaction m anchor]: the Move carries exactly the copies and the
    operations that its UID, its volume and the anchor determine. *)
Definition exact_transaction (m : Move) (anchor : MoveDestinationAnchor) : Prop :=
  let copies := MoveTransactionCopies (Move.UID m) (MoveSpec.VolumeID (Move.Spec m)) anchor in
  ValidIdentityToken (Move.UID m) = true /\
  MoveStatus.IncomingCopy (Move.Status m) = Some copies.1 /\
  MoveStatus.DestinationCopy (Move.Status m) = Some copies.2 /\
  Validate copies.1 = Ok tt /\ Validate copies.2 = Ok tt /\
  MoveStatus.CopyOperationID (Move.Status m) = MoveCopyOperationID (Move.UID m) /\
  MoveStatus.PromotionOperationID (Move.Status m) = MovePromotionOperationID (Move.UID m).

Lemma ValidateMoveTransactionIdentities_spec (m : Move) (anchor : MoveDestinationAnchor) :
  ValidateMoveTransactionIdentities m anchor = Ok tt <-> exact_transaction m anchor.
Proof.
  unfold ValidateMoveTransactionIdentities, exact_transaction.
  destruct (MoveTransactionCopies _ _ anchor) as [incoming destination]. cbn [fst snd].
  split.
  - intros H. apply check_Ok in H as [Hu H]. apply bind_Ok in H as (i & [Hi Vi]%valid_copy_Ok & H).
    apply bind_Ok in H as (d & [Hd Vd]%valid_copy_Ok & H).
    rewrite !check_Ok, !matchMoveCopy_Ok in H. destruct H as (-> & -> & Hc & Hp). go_inv. by subst.
  - intros (Hu & Hi & Hd & Vi & Vd & -> & ->). rewrite Hu, Hi, Hd. cbn [negb reject_if].
    rewrite (proj2 (valid_copy_Ok "IncomingCopy" (Some incoming) incoming)) by done.
    rewrite (proj2 (valid_copy_Ok "DestinationCopy" (Some destination) destination)) by done.
    rewrite !check_Ok. split; [done|]. cbn [mbind result_bind]. rewrite !check_Ok, !matchMoveCopy_Ok.
    by rewrite !bool_decide_eq_true_2.
Qed.

(** ** What never changes *)

(** [kept unset before after]: a value that was set stays. *)
Definition kept {A : Type} (unset before after : A) : Prop := before = unset \/ after = before.

#[export] Instance kept_refl {A : Type} (unset : A) : Reflexive (kept unset).
Proof. intros x. by right. Qed.

#[export] Instance kept_trans {A : Type} (unset : A) : Transitive (kept unset).
Proof. intros x y z. unfold kept. naive_solver. Qed.

Record permanent (m m' : Move) : Prop := {
  permanent_name : Move.Name m' = Move.Name m;
  permanent_uid : Move.UID m' = Move.UID m;
  permanent_spec : Move.Spec m' = Move.Spec m;
  permanent_source : kept None (MoveStatus.SourceCopy (Move.Status m)) (MoveStatus.SourceCopy (Move.Status m'));
  permanent_incoming : kept None (MoveStatus.IncomingCopy (Move.Status m)) (MoveStatus.IncomingCopy (Move.Status m'));
  permanent_destination :
    kept None (MoveStatus.DestinationCopy (Move.Status m)) (MoveStatus.DestinationCopy (Move.Status m'));
  permanent_copy_operation :
    kept "" (MoveStatus.CopyOperationID (Move.Status m)) (MoveStatus.CopyOperationID (Move.Status m'));
  permanent_promotion_operation :
    kept "" (MoveStatus.PromotionOperationID (Move.Status m)) (MoveStatus.PromotionOperationID (Move.Status m'));
  permanent_bindings : Forall2 (kept "") (bindings (Move.Status m)) (bindings (Move.Status m'));
  permanent_bytes : (0 < MoveStatus.SourceBytes (Move.Status m))%Z ->
    MoveStatus.SourceBytes (Move.Status m') = MoveStatus.SourceBytes (Move.Status m);
  permanent_rollback : (0 < MoveStatus.RollbackRequiredGeneration (Move.Status m))%Z ->
    MoveStatus.RollbackRequiredGeneration (Move.Status m') = MoveStatus.RollbackRequiredGeneration (Move.Status m);
  permanent_settlement : MoveStatus.SettlementRequested (Move.Status m) = true ->
    MoveStatus.SettlementRequested (Move.Status m') = true
}.

#[export] Instance permanent_preorder : PreOrder permanent.
Proof.
  split.
  - intros m. by split.
  - intros a b c [N1 U1 S1 s1 i1 d1 co1 po1 B1 b1 r1 t1] [N2 U2 S2 s2 i2 d2 co2 po2 B2 b2 r2 t2].
    split; [by rewrite N2|by rewrite U2|by rewrite S2|by etrans..|idtac|idtac|by auto].
    + intros. rewrite b2, b1; [done..|]. by rewrite b1.
    + intros. rewrite r2, r1; [done..|]. by rewrite r1.
Qed.

Lemma changed_false {A : Type} `{EqDecision A} (current next : option A) :
  changed current next = false -> kept None current next.
Proof. unfold changed, kept. destruct current; simpl; [|by left]. intros. right. by go_inv. Qed.

Lemma kept_string (before after : string) : (before != "") && (before != after) = false -> kept "" before after.
Proof.
  unfold kept. destruct (bool_decide (before = "")) eqn:E; simpl; intros; go_inv; [by left|].
  by right.
Qed.

Lemma forallb_zip {A B : Type} (f : A * B -> bool) (l : list A) (l' : list B) :
  length l = length l' -> forallb f (zip l l') = true -> Forall2 (fun a b => f (a, b) = true) l l'.
Proof.
  revert l'. induction l as [|x l IH]; intros [|x' l']; simpl; try done.
  rewrite andb_true_iff. intros [= Hl] [Hx Hf]. constructor; auto.
Qed.

Lemma preservePreparedPlan_spec (current next : MoveStatus) :
  preservePreparedPlan current next = Ok tt -> Forall2 (kept "") (bindings current) (bindings next).
Proof.
  intros H. unfold preservePreparedPlan in H. apply reject_if_Ok, negb_false_iff, forallb_zip in H; [|done].
  eapply Forall2_impl; [exact H|]. intros x y [Hx|Hx]%orb_true_iff; go_inv; [by left|by right].
Qed.

Lemma immutable_number (a b : Z) :
  (b <? 0)%Z || ((0 <? a)%Z && negb (a =? b)%Z) = false -> (0 < a)%Z -> b = a.
Proof. intros. destruct (0 <? a)%Z eqn:?; lia. Qed.

Lemma preserveMoveIdentity_spec (m : Move) (next : MoveStatus) :
  validateSettlementTransition m next = Ok tt -> preserveMoveIdentity (Move.Status m) next = Ok tt ->
  preservePreparedPlan (Move.Status m) next = Ok tt -> permanent m (Move.with_Status m next).
Proof.
  unfold validateSettlementTransition, preserveMoveIdentity. intros Hs H Hp%preservePreparedPlan_spec.
  rewrite !check_Ok, !reject_if_Ok in *. rewrite !orb_false_iff in H. 
  destruct H as (Hb & Hr & ((? & ?) & ?) & Hop & Hop'). destruct Hs as (Hset & _).
  split; simpl; try done; eauto using changed_false, kept_string, immutable_number.
  - apply immutable_number. by apply orb_false_iff.
  - apply immutable_number. by apply orb_false_iff.
  - intros E. rewrite E in Hset. by apply negb_false_iff.
Qed.

(** A change of fields that are not identities. *)
Ltac same_identities := split; simpl; try done.

Lemma move_step_permanent (m m' : Move) : move_step m m' -> permanent m m'.
Proof.
  intros [next hasCleanup _ _ H|copy bytes hasCleanup Hb H|phase|deleting version finalizers].
  - unfold validatePreparedTransition in H. rewrite !check_Ok in H.
    destruct H as (? & ? & ? & _). by apply preserveMoveIdentity_spec.
  - unfold sourceUsageMove in H. rewrite !check_Ok, !reject_if_Ok in H.
    destruct H as (_ & _ & _ & _ & _ & H). same_identities. intros Hp. apply orb_false_iff in H as [_ H].
    rewrite (proj2 (Z.ltb_lt _ _) Hp) in H. simpl in H. go_inv. lia.
  - same_identities.
  - same_identities.
Qed.

(** A Move's identities are permanent.  Through any sequence of accepted status
    writes, source measurements, cleanup journal writes and metadata changes, the
    name, UID and spec of a Move stay, and so do, once recorded, its source,
    incoming and destination copies, its copy and promotion operations, the volume,
    claim, consumer, placement and destination it is bound to, its measured source
    size, its rollback generation and its settlement request. *)
Theorem move_identities_permanent (m m' : Move) : rtc move_step m m' -> permanent m m'.
Proof. induction 1 as [|m m1 m' Hs _ IH]; [done|]. etrans; [by apply move_step_permanent|done]. Qed.

(** ** Execution authority *)

(** The anchor a Move's own plan determines. *)
Definition plan_anchor (m : Move) (source : CopyIdentity) (poolName : string) : MoveDestinationAnchor :=
  {| MoveDestinationAnchor.InstallationID := InstallationID source;
     MoveDestinationAnchor.PoolName := poolName;
     MoveDestinationAnchor.PoolUID := MoveStatus.DestinationPoolUID (Move.Status m);
     MoveDestinationAnchor.NodeName := MoveStatus.DestinationNode (Move.Status m);
     MoveDestinationAnchor.VolumeUID := VolumeUID source |}.

Definition approved (m : Move) : Prop := MoveStatus.CapacityApproved (Move.Status m) = true.

(** What holding execution authority means. *)
Definition authorized (m : Move) : Prop :=
  exists source poolName,
    MoveStatus.SourceCopy (Move.Status m) = Some source /\
    exact_transaction m (plan_anchor m source poolName) /\
    MoveStatus.DestinationPoolUID (Move.Status m) <> PoolUID source /\
    ValidIdentityToken (MoveStatus.PlacementPodUID (Move.Status m)) = true /\
    MoveStatus.Preparation (Move.Status m) = None.

Record authority (m : Move) : Prop := {
  authority_exclusive : MoveStatus.Preparation (Move.Status m) <> None ->
    MoveStatus.CapacityApproved (Move.Status m) = false /\ MoveStatus.IncomingCopy (Move.Status m) = None;
  authority_exact : approved m -> authorized m
}.

Lemma intent_free (s : MoveStatus) : hasMoveDestinationIntent s = false -> MoveStatus.IncomingCopy s = None.
Proof. unfold hasMoveDestinationIntent. intros. go_inv. done. Qed.

Lemma preparation_exclusive (m : Move) :
  ValidateMovePreparation m = Ok tt -> MoveStatus.Preparation (Move.Status m) <> None ->
  MoveStatus.CapacityApproved (Move.Status m) = false /\ MoveStatus.IncomingCopy (Move.Status m) = None.
Proof.
  unfold ValidateMovePreparation. destruct (MoveStatus.Preparation _) as [p|]; [|done]. rewrite !check_Ok, !reject_if_Ok.
  intros (_ & _ & _ & [? ?%intent_free]%orb_false_iff & _) _. done.
Qed.

Lemma preparation_elsewhere (m : Move) (p : MovePreparation) :
  ValidateMovePreparation m = Ok tt -> MoveStatus.Preparation (Move.Status m) = Some p ->
  exists source, MoveStatus.SourceCopy (Move.Status m) = Some source /\
    PoolReference.UID (MovePreparation.Pool p) <> PoolUID source.
Proof.
  unfold ValidateMovePreparation. intros H Hp. rewrite Hp in H. rewrite !check_Ok, !reject_if_Ok in H.
  destruct H as (_ & _ & Hplan & _ & _ & Hpool & _). unfold validatePreparedPlan in Hplan.
  rewrite !check_Ok, !reject_if_Ok in Hplan. destruct Hplan as (_ & _ & Hs).
  apply negb_false_iff, some_and_true in Hs as (source & Hs & _). exists source. split; [done|].
  rewrite Hs in Hpool. simpl in Hpool. by go_inv.
Qed.

(** The components of the identities of an authorized Move cannot be empty, so
    they are frozen. *)
Lemma token_nonempty (s : string) : ValidIdentityToken s = true -> s <> "".
Proof. unfold ValidIdentityToken. intros. go_inv. done. Qed.

Lemma Validate_nonempty (c : CopyIdentity) : Validate c = Ok tt -> PoolUID c <> "" /\ NodeName c <> "".
Proof.
  unfold Validate. rewrite !check_Ok, !reject_if_Ok. intros [H _]. unfold ValidObjectName in H. go_inv.
  split; by apply token_nonempty.
Qed.

Lemma bindings_kept (m m' : Move) :
  permanent m m' ->
  kept "" (MoveStatus.PlacementPodUID (Move.Status m)) (MoveStatus.PlacementPodUID (Move.Status m')) /\
  kept "" (MoveStatus.DestinationNode (Move.Status m)) (MoveStatus.DestinationNode (Move.Status m')) /\
  kept "" (MoveStatus.DestinationPoolUID (Move.Status m)) (MoveStatus.DestinationPoolUID (Move.Status m')).
Proof.
  intros H%permanent_bindings. unfold bindings, plan_terms in H. simpl in H.
  repeat match goal with H : Forall2 _ (_ :: _) (_ :: _) |- _ => apply Forall2_cons in H as [? H] end. done.
Qed.

Lemma kept_set {A : Type} (unset before after : A) : kept unset before after -> before <> unset -> after = before.
Proof. intros [H|H] Hn; [by destruct Hn|done]. Qed.

Lemma authorized_kept (m m' : Move) :
  permanent m m' -> MoveStatus.Preparation (Move.Status m') = None -> authorized m -> authorized m'.
Proof.
  intros Hp Hprep (source & poolName & Hs & (Hu & Hi & Hd & Vi & Vd & Hc & Hpr) & Hne & Hpod & _).
  destruct (bindings_kept m m' Hp) as (Kpod & Knode & Kpool). destruct (Validate_nonempty _ Vi) as [Nuid Nnode].
  apply kept_set in Kpod; [|by apply token_nonempty]. apply kept_set in Knode; [|done]. apply kept_set in Kpool; [|done].
  exists source, poolName. unfold exact_transaction, plan_anchor in *.
  rewrite Kpod, Knode, Kpool, (permanent_uid m m' Hp), (permanent_spec m m' Hp).
  rewrite (kept_set _ _ _ (permanent_source m m' Hp)), (kept_set _ _ _ (permanent_incoming m m' Hp)),
    (kept_set _ _ _ (permanent_destination m m' Hp)), (kept_set _ _ _ (permanent_copy_operation m m' Hp)),
    (kept_set _ _ _ (permanent_promotion_operation m m' Hp)); rewrite ?Hc, ?Hpr, ?Hi, ?Hd, ?Hs; done.
Qed.

(** Authority is acquired only in exchange for the reservation. *)
Lemma acquire_authority (m : Move) (next : MoveStatus) :
  validatePreparedTransition m next = Ok tt -> MoveStatus.CapacityApproved (Move.Status m) = false ->
  MoveStatus.CapacityApproved next = true ->
  MoveStatus.Preparation (Move.Status m) <> None /\ authorized (Move.with_Status m next).
Proof.
  unfold validatePreparedTransition. rewrite !check_Ok. intros (Hset & Hid & Hplan & Hprep & _ & Happ & _ & Hpres) Hm Hnext.
  pose proof (preserveMoveIdentity_spec m next Hset Hid Hplan) as Hperm.
  rewrite Hnext, reject_if_Ok in Happ. simpl in Happ. apply orb_false_iff in Happ as [Hpod Hnil]. go_inv.
  unfold preservePreparation in Hpres.
  destruct (MoveStatus.Preparation (Move.Status m)) as [before|] eqn:Ep.
  2:{ unfold validatePreparationStart in Hpres. rewrite !check_Ok, !reject_if_Ok in Hpres. simpl in Hpres.
      rewrite Hm, Hnext in Hpres. by destruct Hpres. }
  split; [done|]. rewrite check_Ok in Hpres. destruct Hpres as [Hcur Hpres]. simpl in Hpres. rewrite Hnil, Hnext in Hpres.
  rewrite andb_false_r in Hpres. simpl in Hpres. rewrite check_Ok, bind_Ok, reject_if_Ok in Hpres.
  destruct Hpres as (Hrel & source & Hsource & Hids%ValidateMoveTransactionIdentities_spec).
  destruct (preparation_elsewhere m before Hcur Ep) as (source' & Hs & Hne).
  rewrite Hs in Hsource. injection Hsource as ->. simpl in *. go_inv.
  exists source, (PoolReference.Name (MovePreparation.Pool before)).
  pose proof (permanent_source _ _ Hperm) as Ks. simpl in Ks. rewrite Hs in Ks. apply kept_set in Ks; [|done].
  unfold plan_anchor; simpl. split_and!; try done; congruence.
Qed.

Lemma move_step_authority (m m' : Move) : authority m -> move_step m m' -> authority m'.
Proof.
  intros Ha Hs. pose proof (move_step_permanent m m' Hs) as Hperm.
  destruct Hs as [next hasCleanup _ _ H|copy bytes hasCleanup Hb H|phase|deleting version finalizers].
  2-4: split; [apply (authority_exclusive m Ha)|];
       intros Happ; pose proof (authority_exact m Ha Happ) as Hau;
       apply (authorized_kept m _ Hperm); [|done]; destruct Hau as (? & ? & Hau); apply Hau.
  pose proof H as Htrans. unfold validatePreparedTransition in H. rewrite !check_Ok in H.
  destruct H as (_ & _ & _ & Hprep & _ & Happroved & _ & _). split; [by apply preparation_exclusive|].
  unfold approved. simpl. intros Happ. rewrite Happ, reject_if_Ok in Happroved. simpl in Happroved. go_inv.
  destruct (MoveStatus.CapacityApproved (Move.Status m)) eqn:Em.
  - apply (authorized_kept m _ Hperm); [done|]. by apply authority_exact.
  - by apply (acquire_authority m next).
Qed.

(** A Move as [CreateMove] stores it: no status. *)
Definition move_created (m : Move) : Prop := Move.Status m = MoveStatus.empty.

Lemma reachable_authority (initial m : Move) : move_created initial -> rtc move_step initial m -> authority m.
Proof.
  intros Hc Hr. assert (authority initial) as Hi.
  { unfold move_created in Hc. split; unfold approved; by rewrite Hc. }
  clear Hc. induction Hr as [|m m1 m' Hs _ IH]; [done|]. apply IH. by apply (move_step_authority m).
Qed.

(** C4: execution authority is exact.  Whenever a Move that started without a
    status has its capacity approved, it carries exactly the incoming and serving
    copies and the two operations that its UID, its volume, its source copy and its
    recorded destination determine; the destination Pool is not the source Pool; the
    placement Pod is identified; and no reservation is held beside the authority. *)
Theorem move_authority_exact (initial m : Move) :
  move_created initial -> rtc move_step initial m -> approved m -> authorized m.
Proof. intros Hc Hr. apply authority_exact. by eapply reachable_authority. Qed.

(** Once an incoming copy is recorded, authority that was given up never returns. *)
Lemma spent_forever (m m' : Move) :
  authority m -> MoveStatus.IncomingCopy (Move.Status m) <> None -> ~ approved m -> rtc move_step m m' -> ~ approved m'.
Proof.
  intros Ha Hin Hno Hr. induction Hr as [|m m1 m' Hs _ IH]; [done|].
  pose proof (move_step_permanent m m1 Hs) as Hperm.
  assert (MoveStatus.CapacityApproved (Move.Status m) = false) as Hm by (unfold approved in Hno; by destruct (MoveStatus.CapacityApproved _)).
  apply IH; [by eapply move_step_authority|by rewrite (kept_set _ _ _ (permanent_incoming _ _ Hperm))|].
  destruct Hs; [|done..]. unfold approved; simpl. intros Happ.
  destruct (acquire_authority m next) as [Hprep _]; [done..|]. by destruct (authority_exclusive m Ha Hprep).
Qed.

(** The hold is released by a settled recovery only. *)
Definition settled_recovery (m : Move) : Prop :=
  MoveStatus.Phase (Move.Status m) = "Blocked" /\ MoveStatus.RecoveryPhase (Move.Status m) = "Retiring" /\
  (MoveStatus.CleanupPhase (Move.Status m) = "Completed" \/
   (MoveStatus.CleanupPhase (Move.Status m) = "" /\ (0 < MoveStatus.RollbackRequiredGeneration (Move.Status m))%Z)).

Lemma release_settled (m : Move) (next : MoveStatus) :
  validatePreparedTransition m next = Ok tt -> approved m -> MoveStatus.CapacityApproved next = false ->
  settled_recovery m /\ MoveStatus.CapacityReason next = "RecoverySettled".
Proof.
  unfold approved, settled_recovery, validatePreparedTransition. rewrite !check_Ok.
  intros (_ & _ & _ & _ & _ & _ & H & _) Hm Hn. unfold validateExecutionHoldRelease in H. simpl in H.
  rewrite Hm, Hn in H. simpl in H. rewrite !check_Ok, !reject_if_Ok in H. destruct H as (Hph & Hc & Hr & _). go_inv.
  split_and!; try done. destruct (MoveStatus.CleanupPhase (Move.Status m) == "") eqn:E; simpl in *; go_inv; [right|left]; done.
Qed.

(** Execution authority is linear.  A Move gives it up only in a blocked,
    retiring recovery whose cleanup is complete, or that never started one and has
    recorded the scan that proves the destination absent; and once given up it is
    never granted again, so one Move owns at most one execution. *)
Theorem move_authority_linear (initial m m1 m2 : Move) :
  move_created initial -> rtc move_step initial m -> approved m -> move_step m m1 -> ~ approved m1 ->
  rtc move_step m1 m2 ->
  settled_recovery m /\ MoveStatus.CapacityReason (Move.Status m1) = "RecoverySettled" /\ ~ approved m2.
Proof.
  intros Hc Hr Hm Hs Hm1 Hr2. pose proof (reachable_authority initial m Hc Hr) as Ha.
  enough ((settled_recovery m /\ MoveStatus.CapacityReason (Move.Status m1) = "RecoverySettled") /\ ~ approved m2)
    as [[? ?] ?] by done.
  split.
  - destruct Hs; [|done..]. apply release_settled; [done..|]. unfold approved in Hm1. simpl in *.
    by destruct (MoveStatus.CapacityApproved next).
  - apply (spent_forever m1 m2); [by eapply move_step_authority| |done..].
    destruct (authority_exact m Ha Hm) as (source & poolName & _ & (_ & Hi & _) & _).
    by rewrite (kept_set _ _ _ (permanent_incoming _ _ (move_step_permanent _ _ Hs))), Hi; [|rewrite Hi].
Qed.

(** ** Storing a status *)

Lemma set_generation_same (s : MoveStatus) :
  (0 <= MoveStatus.RollbackRequiredGeneration s)%Z ->
  MoveStatus.set_RollbackRequiredGeneration s (Z.max 0 (MoveStatus.RollbackRequiredGeneration s)) = s.
Proof. intros. rewrite Z.max_r by done. by destruct s. Qed.

(** What can be read back: valid copies, a valid reservation, no negative
    generation. *)
Definition storable (s : MoveStatus) : Prop :=
  (forall c, MoveStatus.SourceCopy s = Some c -> Validate c = Ok tt) /\
  (forall c, MoveStatus.IncomingCopy s = Some c -> Validate c = Ok tt) /\
  (forall c, MoveStatus.DestinationCopy s = Some c -> Validate c = Ok tt) /\
  (forall p, MoveStatus.Preparation s = Some p -> validatePreparationFields p = Ok tt) /\
  (0 <= MoveStatus.RollbackRequiredGeneration s)%Z.

Lemma readCopy_encode (c c' : option CopyIdentity) (message : string) :
  readCopy (encode c) message = Ok c' <-> c' = c /\ forall x, c = Some x -> Validate x = Ok tt.
Proof.
  unfold readCopy. rewrite decode_encode. destruct c as [c|]; cbn [mbind result_bind].
  - destruct (Validate c) as [[]|e] eqn:E; split; [intros [= <-]|intros [-> _]; done|done|intros [_ H]].
    + split; [done|]. by intros x [= <-].
    + by rewrite (H c eq_refl) in E.
  - split; [intros [= <-]|by intros [-> _]]. done.
Qed.

Lemma movePreparationFrom_set (o : MoveObject) (s : MoveStatus) (p : option MovePreparation) :
  movePreparationFrom (setMoveStatus o s) = Ok p <->
  p = MoveStatus.Preparation s /\ forall x, MoveStatus.Preparation s = Some x -> validatePreparationFields x = Ok tt.
Proof.
  unfold movePreparationFrom. simpl. rewrite decode_encode. simpl. destruct (MoveStatus.Preparation s) as [q|].
  - destruct (validatePreparationFields q) as [[]|e] eqn:E; simpl;
      split; [intros [= <-]|intros [-> _]; done|done|intros [_ H]].
    + split; [done|]. by intros x [= <-].
    + by rewrite (H q eq_refl) in E.
  - split; [intros [= <-]|by intros [-> _]]. done.
Qed.

Lemma moveStatusFrom_Ok (o : MoveObject) (s s' : MoveStatus) :
  moveStatusFrom (setMoveStatus o s) = Ok s' <->
  (forall c, MoveStatus.SourceCopy s = Some c -> Validate c = Ok tt) /\
  (forall c, MoveStatus.IncomingCopy s = Some c -> Validate c = Ok tt) /\
  (forall c, MoveStatus.DestinationCopy s = Some c -> Validate c = Ok tt) /\
  (forall p, MoveStatus.Preparation s = Some p -> validatePreparationFields p = Ok tt) /\
  s' = MoveStatus.set_CleanupPhase
         (MoveStatus.set_RollbackRequiredGeneration s (Z.max 0 (MoveStatus.RollbackRequiredGeneration s)))
         (from_option journal_phase "" (moveCleanup o)).
Proof.
  unfold moveStatusFrom. cbv zeta. set (raw := MoveObject.status (setMoveStatus o s)).
  assert (decode (MoveObject.settlementRequested raw) "decode settlementRequested: %w" =
          Ok (if MoveStatus.SettlementRequested s then Some true else None))
    as -> by (simpl; by destruct (MoveStatus.SettlementRequested s)).
  assert (decode (MoveObject.rollbackRequiredGeneration raw) "decode rollbackRequiredGeneration: %w" =
          Ok (if (0 <? MoveStatus.RollbackRequiredGeneration s)%Z then Some (MoveStatus.RollbackRequiredGeneration s) else None))
    as -> by (simpl; by destruct (0 <? _)%Z).
  set (generation := MoveStatus.RollbackRequiredGeneration s).
  assert (default 0%Z (if (0 <? generation)%Z then Some generation else None) = Z.max 0 generation) as Hmax
    by (destruct (0 <? generation)%Z eqn:E; simpl; lia).
  assert (default false (if MoveStatus.SettlementRequested s then Some true else None) = MoveStatus.SettlementRequested s)
    as Hset by (by destruct (MoveStatus.SettlementRequested s)).
  cbn [mbind result_bind]. rewrite Hmax, Hset.
  change (decode (MoveObject.candidateNodes raw) _) with (Ok (Some (MoveStatus.CandidateNodes s))).
  replace (Z.max 0 generation <? 0)%Z with false by lia. cbn [mbind result_bind reject_if].
  change (MoveObject.sourceCopy raw) with (encode (MoveStatus.SourceCopy s)).
  change (MoveObject.incomingCopy raw) with (encode (MoveStatus.IncomingCopy s)).
  change (MoveObject.destinationCopy raw) with (encode (MoveStatus.DestinationCopy s)).
  split.
  - intros H. apply bind_Ok in H as (c1 & [-> H1]%readCopy_encode & H). apply bind_Ok in H as (c2 & [-> H2]%readCopy_encode & H).
    apply bind_Ok in H as (c3 & [-> H3]%readCopy_encode & H). apply bind_Ok in H as (q & [-> H4]%movePreparationFrom_set & H).
    injection H as <-. done.
  - intros (H1 & H2 & H3 & H4 & ->).
    rewrite (proj2 (readCopy_encode _ _ _) (conj eq_refl H1)), (proj2 (readCopy_encode _ _ _) (conj eq_refl H2)),
      (proj2 (readCopy_encode _ _ _) (conj eq_refl H3)), (proj2 (movePreparationFrom_set o s _) (conj eq_refl H4)). done.
Qed.

(** A status round trip.  Writing a status and reading the object back gives the
    same status, with the cleanup phase of the journal that the write left in place,
    exactly when its copies and its reservation are valid and its rollback
    generation is not negative; and what is read is never anything else. *)
Theorem move_status_roundtrip (o : MoveObject) (s : MoveStatus) :
  let wanted := MoveStatus.set_CleanupPhase s (from_option journal_phase "" (moveCleanup o)) in
  (moveStatusFrom (setMoveStatus o s) = Ok wanted <-> storable s) /\
  (forall s', moveStatusFrom (setMoveStatus o s) = Ok s' -> (0 <= MoveStatus.RollbackRequiredGeneration s)%Z -> s' = wanted) /\
  moveCleanup (setMoveStatus o s) = moveCleanup o.
Proof.
  cbv zeta. rewrite moveStatusFrom_Ok. setoid_rewrite moveStatusFrom_Ok. unfold storable. split_and!; [|intros s'|done].
  - split; [|intros (? & ? & ? & ? & ?); split_and!; try done; by rewrite set_generation_same].
    intros (? & ? & ? & ? & H). apply (f_equal MoveStatus.RollbackRequiredGeneration) in H. simpl in H. split_and!; [done..|lia].
  - intros (? & ? & ? & ? & ->) ?. by rewrite set_generation_same.
Qed.

(** ** The compare-and-set *)

Section compare_and_set.
Context {W : Type} {MC : ApiClient W MoveObject}.

Lemma storedMoveStatus_Ok (current : Move) (expected written : MoveObject) (m : Move) :
  storedMoveStatus current expected written = Ok m ->
  moveFrom written = Ok m /\ moveStatusFrom expected = Ok (Move.Status m) /\ Move.UID m = Move.UID current /\
  Move.Spec m = Move.Spec current /\ moveCleanup written = moveCleanup expected.
Proof.
  intros H. unfold storedMoveStatus in H. go_inv. split_and!; try done; congruence.
Qed.

Lemma moveFrom_CleanupPhase (object : MoveObject) (m : Move) :
  moveFrom object = Ok m ->
  MoveStatus.CleanupPhase (Move.Status m) = from_option journal_phase "" (moveCleanup object).
Proof.
  unfold moveFrom. cbv zeta. intros H. apply bind_Ok in H as (p & _ & H). apply bind_Ok in H as (s & Hs & H).
  injection H as <-. unfold moveStatusFrom in Hs. go_inv. done.
Qed.

Lemma moveFrom_UID (object : MoveObject) (m : Move) :
  moveFrom object = Ok m -> Move.UID m = Metadata.UID (meta object).
Proof.
  unfold moveFrom. cbv zeta. intros H. apply bind_Ok in H as (p & _ & H). apply bind_Ok in H as (s & _ & H).
  by injection H as <-.
Qed.

Lemma accepted_generation (m : Move) (next : MoveStatus) :
  validatePreparedTransition m next = Ok tt -> (0 <= MoveStatus.RollbackRequiredGeneration next)%Z.
Proof.
  unfold validatePreparedTransition, preserveMoveIdentity. rewrite !check_Ok, !reject_if_Ok, !orb_false_iff.
  intros (_ & (_ & [? _] & _) & _). lia.
Qed.

(** [CompareAndSetMoveStatus] is an atomic protocol step.  When it returns a
    Move, then at one instant the stored Move had the expected UID, version and
    spec, and was replaced by the same object with the proposed status and its own
    cleanup journal; that replacement is an accepted step of the Move protocol;
    before and after there are only steps of other clients; and the returned Move
    has exactly the status that was written. *)
Theorem CompareAndSetMoveStatus_atomic (expected m : Move) (next : MoveStatus) (w w' : W) :
  CompareAndSetMoveStatus expected next w = (Ok m, w') ->
  exists wa wb object current,
    rtc env w wa /\ rtc env wb w' /\
    stored wa (Move.Name expected) = Some object /\ moveFrom object = Ok current /\
    Metadata.UID (meta object) = Move.UID expected /\
    Metadata.ResourceVersion (meta object) = Move.ResourceVersion expected /\ Move.Spec current = Move.Spec expected /\
    let next := MoveStatus.set_CleanupPhase next (MoveStatus.CleanupPhase (Move.Status current)) in
    committed stored wa wb (Move.Name expected) (persist true object (setMoveStatus object next)) /\
    move_step current (Move.with_Status current next) /\ Move.Status m = next /\ Move.UID m = Move.UID expected.
Proof.
  unfold CompareAndSetMoveStatus. intros H.
  apply io_bind_Ok in H as ([] & w1 & [_ ->]%io_lift_Ok & H).
  apply io_bind_Ok in H as (object & w2 & Hget%wrap_error_Ok & H).
  apply io_bind_Ok in H as ([] & w3 & [Hid%reject_if_Ok ->]%io_lift_Ok & H).
  apply io_bind_Ok in H as (current & w4 & [Hcurrent ->]%io_lift_Ok & H).
  apply io_bind_Ok in H as ([] & w5 & [Hspec%reject_if_Ok ->]%io_lift_Ok & H). cbv zeta in *.
  set (next' := MoveStatus.set_CleanupPhase next _) in *.
  apply io_bind_Ok in H as ([] & w6 & [Hprotect ->]%io_lift_Ok & H).
  apply io_bind_Ok in H as ([] & w7 & [Htrans ->]%io_lift_Ok & H).
  apply io_bind_Ok in H as (written & w8 & Hwrite%wrap_error_Ok & [Hstored ->]%io_lift_Ok).
  apply orb_false_iff in Hid as [Huid Hversion]. apply orb_false_iff in Hspec as [Hspec _].
  apply negb_false_iff, bool_decide_eq_true in Huid, Hversion, Hspec.
  apply Get_spec in Hget as (w0 & Hw0 & Hw2 & Hst).
  destruct (read_write_atomic _ object (setMoveStatus object next') true w w0 w2 w8 written Hst Hw2 eq_refl eq_refl Hwrite)
    as (wa & wb & Ha & Hb & Hsa & Hc & _).
  apply storedMoveStatus_Ok in Hstored as (_ & Hs & Hu & _).
  exists wa, wb, object, current. split_and!; try done.
  - etrans; [exact Hw0|]. by etrans.
  - by apply status_step with (negb (is_nil (moveCleanup object))).
  - apply moveStatusFrom_Ok in Hs as (_ & _ & _ & _ & ->). rewrite <- (moveFrom_CleanupPhase object current Hcurrent).
    rewrite set_generation_same; [done|by eapply accepted_generation].
  - rewrite Hu. by rewrite (moveFrom_UID object current Hcurrent).
Qed.
End compare_and_set.

(** ** A sample Move *)

Module SampleMove.
Definition uid : string := "move-uid".
Definition volume : string := "shiftpv-0123456789abcdef0123456789abcdef".

Definition source : CopyIdentity :=
  {| InstallationID := "cluster"; PoolName := "pool-a"; PoolUID := "pool-a-uid"; VolumeID := volume;
     VolumeUID := "uid-1"; CopyID := "initial-uid-1"; NodeName := "node-a"; Role := RoleServing |}.

Definition reservation : MovePreparation :=
  {| MovePreparation.Pool := {| PoolReference.Name := "pool-b"; PoolReference.UID := "pool-b-uid" |};
     MovePreparation.NodeName := "node-b"; MovePreparation.ReservedBytes := 1073741824 |}.

Definition copies : CopyIdentity * CopyIdentity :=
  MoveTransactionCopies uid volume
    {| MoveDestinationAnchor.InstallationID := "cluster"; MoveDestinationAnchor.PoolName := "pool-b";
       MoveDestinationAnchor.PoolUID := "pool-b-uid"; MoveDestinationAnchor.NodeName := "node-b";
       MoveDestinationAnchor.VolumeUID := "uid-1" |}.

(** The status of the sample in a given stage. *)
Definition status (phase recovery reason : string) (executing holding : bool) (generation : Z) : MoveStatus :=
  {| MoveStatus.Preparation := if executing then None else Some reservation;
     MoveStatus.PersistentVolumeUID := "pv-uid"; MoveStatus.ClaimUID := "claim-uid";
     MoveStatus.PlacementPodUID := "pod-uid"; MoveStatus.Phase := phase; MoveStatus.Reason := "";
     MoveStatus.Message := ""; MoveStatus.LastTransitionTime := ""; MoveStatus.LastProgressTime := "";
     MoveStatus.PersistentVolumeName := "pv"; MoveStatus.ClaimNamespace := "default"; MoveStatus.ClaimName := "claim";
     MoveStatus.ConsumerName := "app-0"; MoveStatus.ConsumerUID := "app-uid"; MoveStatus.ReplacementName := "";
     MoveStatus.ReplacementUID := ""; MoveStatus.DestinationNode := "node-b";
     MoveStatus.DestinationPoolUID := "pool-b-uid"; MoveStatus.SourceBytes := 0;
     MoveStatus.CapacityApproved := holding; MoveStatus.CapacityReason := reason; MoveStatus.CandidateNodes := [];
     MoveStatus.EvictionRequested := false; MoveStatus.CopyJobName := ""; MoveStatus.PromotionJobName := "";
     MoveStatus.CleanupPhase := ""; MoveStatus.CopyOperationID := if executing then "copy-move-uid" else "";
     MoveStatus.PromotionOperationID := if executing then "promote-move-uid" else "";
     MoveStatus.SourceCopy := Some source; MoveStatus.IncomingCopy := if executing then Some copies.1 else None;
     MoveStatus.DestinationCopy := if executing then Some copies.2 else None;
     MoveStatus.RollbackRequiredGeneration := generation; MoveStatus.SettlementRequested := false;
     MoveStatus.RecoveryPhase := recovery; MoveStatus.RecoveryOwner := ""; MoveStatus.RecoveryReason := "";
     MoveStatus.RecoveryMessage := "" |}.

Definition created : Move :=
  {| Move.Deleting := false; Move.Name := "move-1"; Move.UID := uid; Move.ResourceVersion := "1";
     Move.Finalizers := [MoveProtectionFinalizer];
     Move.Spec := {| MoveSpec.ProtocolVersion := MoveProtocolPreparedV1; MoveSpec.VolumeID := volume;
                     MoveSpec.SourceNode := "node-a"; MoveSpec.Recovery := "" |};
     Move.Status := MoveStatus.empty |}.

Definition stage (s : MoveStatus) : Move := Move.with_Status created s.
Definition preparing : Move := stage (status "Preparing" "" "" false false 0).
Definition waiting : Move := stage (status "WaitingForCapacity" "" "" false false 0).
Definition copying : Move := stage (status "Copying" "" "" true true 0).
Definition blocked : Move := stage (status "Blocked" "" "" true true 0).
Definition retiring : Move := stage (status "Blocked" "Retiring" "" true true 4).
Definition released : Move := stage (status "Blocked" "Retiring" "RecoverySettled" true false 4).

Ltac stage_step :=
  match goal with
  | |- move_step ?m ?m' =>
      change (move_step m (Move.with_Status m (Move.Status m'))); apply (status_step m _ false)
  end; vm_compute; reflexivity.

Lemma run_copying : rtc move_step created copying.
Proof.
  apply (rtc_l _ _ preparing); [stage_step|]. apply (rtc_l _ _ waiting); [stage_step|].
  apply (rtc_l _ _ copying); [stage_step|]. apply rtc_refl.
Qed.

Lemma run_retiring : rtc move_step created retiring.
Proof.
  etrans; [exact run_copying|]. apply (rtc_l _ _ blocked); [stage_step|]. apply (rtc_l _ _ retiring); [stage_step|].
  apply rtc_refl.
Qed.

Definition object : MoveObject :=
  {| MoveObject.metadata := {| Metadata.Name := "move-1"; Metadata.UID := uid; Metadata.ResourceVersion := "1";
                               Metadata.Generation := 1; Metadata.Finalizers := [MoveProtectionFinalizer];
                               Metadata.DeletionTimestamp := None; Metadata.Annotations := ∅ |};
     MoveObject.spec := {| MoveObject.volumeID := volume; MoveObject.sourceNode := "node-a";
                           MoveObject.recovery := ""; MoveObject.protocolVersion := Present MoveProtocolPreparedV1 |};
     MoveObject.status := no_status |}.

#[export] Instance client : ApiClient (ObjectStore.Store MoveObject) MoveObject := ObjectStore.client (fun _ => true).

Definition world : ObjectStore.Store MoveObject :=
  {| ObjectStore.objects := {["move-1" := (1%N, object)]}; ObjectStore.revision := 1; ObjectStore.queue := [] |}.
End SampleMove.

#[local] Existing Instance SampleMove.client.

Lemma move_identities_permanent_witness :
  permanent SampleMove.created SampleMove.retiring /\
  MoveStatus.IncomingCopy (Move.Status SampleMove.retiring) = Some SampleMove.copies.1.
Proof. split; [apply move_identities_permanent, SampleMove.run_retiring|reflexivity]. Defined.

Lemma move_authority_exact_witness : approved SampleMove.copying /\ authorized SampleMove.copying.
Proof.
  split; [reflexivity|].
  apply (move_authority_exact SampleMove.created); [reflexivity|apply SampleMove.run_copying|reflexivity].
Defined.

Lemma move_authority_linear_witness : settled_recovery SampleMove.retiring /\ ~ approved SampleMove.released.
Proof.
  destruct (move_authority_linear SampleMove.created SampleMove.retiring SampleMove.released SampleMove.released)
    as (H & _ & H'); [reflexivity|apply SampleMove.run_retiring|reflexivity| |discriminate|apply rtc_refl|exact (conj H H')].
  SampleMove.stage_step.
Defined.

Lemma CompareAndSetMoveStatus_atomic_witness :
  exists m w', CompareAndSetMoveStatus SampleMove.created (Move.Status SampleMove.preparing) SampleMove.world = (Ok m, w') /\
    exists current, moveFrom SampleMove.object = Ok current /\ Move.UID m = SampleMove.uid.
Proof.
  assert (exists m w', CompareAndSetMoveStatus SampleMove.created (Move.Status SampleMove.preparing) SampleMove.world = (Ok m, w'))
    as (m & w' & H) by (do 2 eexists; vm_compute; reflexivity).
  exists m, w'. split; [exact H|].
  destruct (CompareAndSetMoveStatus_atomic _ _ _ _ _ H) as (wa & wb & o & c & _ & _ & _ & _ & _ & _ & _ & _ & _ & _ & Hu).
  exists SampleMove.created. split; [vm_compute; reflexivity|exact Hu].
Defined.
