(* ===== verification/Capacity.v ===== *)
(** * Pool capacity

    src/pool/capacity: reading a statfs snapshot (model.go), the reservation limit
    (limit.go), the fit decision (decision.go) and the ledger of durable holds
    (accounting.go, accounting_preparation.go).  Machine integers are integers with
    their wrap-around written out.  The ledger iterates over a Go map, whose order
    is unspecified: the order is an argument of the model, and the theorems hold for
    every one. *)

From S2P Require Import Prelude Bytes VolumeIdentity CapacityUnit Apimachinery Registration ApiServer VolumeState PoolApi.
From S2P Require Import MoveApi MoveProtocol.
From Stdlib Require Import Ascii.

(** ** Machine arithmetic *)

Definition int64_wrap (z : Z) : Z := ((z + (MaxInt64 + 1)) mod (MaxUint64 + 1) - (MaxInt64 + 1))%Z.
Definition uint64_wrap (z : Z) : Z := (z mod (MaxUint64 + 1))%Z.

Lemma int64_wrap_id (z : Z) : int64_range z -> int64_wrap z = z.
Proof. unfold int64_range, int64_wrap, MaxInt64, MaxUint64. intros. rewrite Z.mod_small; lia. Qed.

(** ** statfs output *)

Module Filesystem.
Record Filesystem := { TotalBytes : Z; AvailableBytes : Z; AvailableInodes : Z }.
End Filesystem.
Notation Filesystem := Filesystem.Filesystem.

(** [unicode.IsSpace] on the bytes of a string: how many bytes of white space it
    starts with.  The encodings are those of the Unicode white space runes. *)
Definition byte (c : ascii) : N := N_of_ascii c.

Definition space_width (s : string) : nat :=
  match s with
  | EmptyString => 0
  | String a s =>
      if ((9 <=? byte a) && (byte a <=? 13) || (byte a =? 32))%N then 1
      else match s with
           | EmptyString => 0
           | String b s =>
               if ((byte a =? 0xC2) && ((byte b =? 0x85) || (byte b =? 0xA0)))%N then 2
               else match s with
                    | EmptyString => 0
                    | String c _ =>
                        if ((byte a =? 0xE1) && (byte b =? 0x9A) && (byte c =? 0x80) ||
                            (byte a =? 0xE2) && (byte b =? 0x80) &&
                              ((0x80 <=? byte c) && (byte c <=? 0x8A) || (byte c =? 0xA8) || (byte c =? 0xA9) || (byte c =? 0xAF)) ||
                            (byte a =? 0xE2) && (byte b =? 0x81) && (byte c =? 0x9F) ||
                            (byte a =? 0xE3) && (byte b =? 0x80) && (byte c =? 0x80))%N then 3 else 0
                    end
           end
  end.

(** [skip] more bytes of the white space that was found, [current] the field so
    far (in reverse). *)
Definition flush (current : string) (rest : list string) : list string :=
  if current == "" then rest else current :: rest.

Fixpoint scan_fields (skip : nat) (s current : string) : list string :=
  match s with
  | EmptyString => flush current []
  | String c s' =>
      match skip with
      | S skip => scan_fields skip s' current
      | O => match space_width s with
             | S width => flush current (scan_fields width s' "")
             | O => scan_fields 0 s' (current +:+ String c "")
             end
      end
  end.

(** [strings.Fields] *)
Definition Fields (s : string) : list string := scan_fields 0 s "".

Definition bytes (blocks blockSize : Z) : result Z :=
  if negb (blockSize =? 0)%Z && (MaxInt64 / blockSize <? blocks)%Z
  then Err (Errorf "block count and size overflow int64")
  else Ok (int64_wrap (uint64_wrap (blocks * blockSize))).

(** The parsing loop. *)
Fixpoint parse_fields (fields : list string) : result (list Z) :=
  match fields with
  | [] => Ok []
  | field :: fields =>
      match ParseUint field (2 ^ 64) with
      | Err err => Err (Wrapf [err] "parse statfs field %d: %w")
      | Ok value => values ← parse_fields fields; Ok (Z.of_N value :: values)
      end
  end.

Definition ParseStatOutput (output : string) : result Filesystem :=
  let fields := Fields output in
  reject_if (negb (length fields =? 4)%nat) (Errorf "statfs output must contain four integers");;
  values ← parse_fields fields;
  match values with
  | [blocks; availableBlocks; blockSize; inodes] =>
      match bytes blocks blockSize with
      | Err err => Err (Wrapf [err] "calculate total bytes: %w")
      | Ok total =>
          match bytes availableBlocks blockSize with
          | Err err => Err (Wrapf [err] "calculate available bytes: %w")
          | Ok available =>
              reject_if (MaxInt64 <? inodes)%Z (Errorf "available inode count overflows int64");;
              Ok {| Filesystem.TotalBytes := total; Filesystem.AvailableBytes := available;
                    Filesystem.AvailableInodes := int64_wrap inodes |}
          end
      end
  | _ => Err (Errorf "statfs output must contain four integers")
  end.

(** ** Limits and decisions *)

Definition LimitBytes {AM : Apimachinery} (pool : Pool) : result Z := ParseLimitBytes (Pool.CapacityLimit pool).

Definition FitsReservation (requested reserved limit : Z) : bool :=
  (0 <? requested)%Z && (0 <=? reserved)%Z && (reserved <? limit)%Z &&
  (requested <=? int64_wrap (limit - reserved))%Z.

Definition ExceedsTotal (requested total : Z) : bool := (0 <? total)%Z && (total <? requested)%Z.

(** ** The ledger *)

Definition add (left right : Z) : result Z :=
  reject_if (right <=? 0)%Z (Errorf "capacity must be positive");;
  reject_if (int64_wrap (MaxInt64 - right) <? left)%Z (Errorf "Pool reservation total overflows int64");;
  Ok (int64_wrap (left + right)).

(** The last case of [ownerPoolUID]. *)
Definition current_owner (state : State) : result string :=
  match State.CurrentCopy state with
  | None => Err (Errorf "volume %q has incomplete capacity owner identity")
  | Some copy =>
      reject_if ((State.OwnerNode state == "") || (State.CapacityBytes state <=? 0)%Z || (PoolUID copy == "") ||
                 (NodeName copy != State.OwnerNode state))
        (Errorf "volume %q has incomplete capacity owner identity");;
      Ok (PoolUID copy)
  end.

Definition ownerPoolUID (state : State) : result string :=
  match State.InitialPool state with
  | Some pool => if HasInitialReservation state then Ok (PoolReference.UID pool) else current_owner state
  | None => if UnstartedCreation state then Ok "" else current_owner state
  end.

(** The loop of [ownedBytesForPool], in the order the map yields its entries. *)
Fixpoint owned_loop (total : Z) (entries : list (string * State)) (poolUID : string) : result Z :=
  match entries with
  | [] => Ok total
  | (volumeID, state) :: entries =>
      ownerPool ← ownerPoolUID state;
      if ownerPool == poolUID then
        total ← add total (State.CapacityBytes state);
        owned_loop total entries poolUID
      else owned_loop total entries poolUID
  end.

Definition ownedBytesForPool (entries : list (string * State)) (poolUID : string) : result Z :=
  owned_loop 0 entries poolUID.

Definition preparationReservation (volumes : gmap string State) (move : Move) (preparation : MovePreparation) :
    result (string * Z) :=
  match ValidateMovePreparation move with
  | Err err => Err (Wrapf [err] "move %q has invalid preparation: %w")
  | Ok _ =>
      match volumes !! MoveSpec.VolumeID (Move.Spec move) with
      | None => Err (Errorf "move %q preparation has no volume state")
      | Some state =>
          source ← deref (MoveStatus.SourceCopy (Move.Status move));
          reject_if
            ((State.UID state != VolumeUID source) || (State.ActiveMove state != Move.Name move) ||
             (State.OwnerNode state != MoveSpec.SourceNode (Move.Spec move)) || (State.CurrentCopy state != Some source))
            (Errorf "move %q preparation does not match the active volume owner");;
          reject_if
            (State.Deleting state ||
             ((State.Phase state != PhaseReady) && (State.Phase state != PhaseMoving) && (State.Phase state != PhaseBlocked)) ||
             negb (State.CapacityBytes state =? MovePreparation.ReservedBytes preparation)%Z)
            (Errorf "move %q preparation does not match the volume capacity or lifecycle");;
          Ok (PoolReference.UID (MovePreparation.Pool preparation), MovePreparation.ReservedBytes preparation)
      end
  end.

Definition moveReservation (volumes : gmap string State) (move : Move) : result (string * Z) :=
  let status := Move.Status move in
  match MoveStatus.Preparation status with
  | Some preparation => preparationReservation volumes move preparation
  | None =>
      if MoveCleanupSettled move || negb (MoveStatus.CapacityApproved status) then Ok ("", 0%Z)
      else match volumes !! MoveSpec.VolumeID (Move.Spec move) with
           | None => Err (Errorf "move %q has no volume state")
           | Some state =>
               match State.CurrentCopy state, MoveStatus.SourceCopy status with
               | Some current, Some source =>
                   if (State.ActiveMove state != Move.Name move) || (PoolUID source == "") ||
                      (MoveStatus.DestinationPoolUID status == "")
                   then Err (Errorf "move %q has incomplete capacity hold identity")
                   else Ok (if PoolUID current == MoveStatus.DestinationPoolUID status then PoolUID source
                            else MoveStatus.DestinationPoolUID status, State.CapacityBytes state)
               | _, _ => Err (Errorf "move %q has incomplete capacity hold identity")
               end
           end
  end.

Fixpoint moveHeldBytesForPool (total : Z) (volumes : gmap string State) (moves : list Move) (poolUID : string) : result Z :=
  match moves with
  | [] => Ok total
  | move :: moves =>
      '(heldPoolUID, reserved) ← moveReservation volumes move;
      if heldPoolUID == poolUID then
        total ← add total reserved;
        moveHeldBytesForPool total volumes moves poolUID
      else moveHeldBytesForPool total volumes moves poolUID
  end.

(** [entries] enumerates [volumes]. *)
Definition ReservedBytesForPool (entries : list (string * State)) (volumes : gmap string State) (moves : list Move)
    (poolUID : string) : result Z :=
  reject_if (poolUID == "") (Errorf "Pool UID is required");;
  total ← ownedBytesForPool entries poolUID;
  moveHeldBytesForPool total volumes moves poolUID.

(** ** The ledger is a sum *)

(** The holds of a ledger, as the loops see them: the Pool each hold is on and its
    bytes, or the error that makes the ledger unknown. *)
Definition volume_hold (state : State) : result (string * Z) :=
  ownerPool ← ownerPoolUID state;
  Ok (ownerPool, State.CapacityBytes state).

Definition holds (entries : list (string * State)) (volumes : gmap string State) (moves : list Move) :
    list (result (string * Z)) :=
  map (fun entry => volume_hold entry.2) entries ++ map (moveReservation volumes) moves.

(** The amounts held on one Pool. *)
Definition held (poolUID : string) (l : list (result (string * Z))) : list Z :=
  omap (fun r => match r with Ok (uid, bytes) => if uid == poolUID then Some bytes else None | Err _ => None end) l.

Definition sum (l : list Z) : Z := foldr Z.add 0%Z l.

Fixpoint accumulate (total : Z) (l : list (result (string * Z))) (poolUID : string) : result Z :=
  match l with
  | [] => Ok total
  | r :: l =>
      '(uid, amount) ← r;
      if uid == poolUID then total ← add total amount; accumulate total l poolUID else accumulate total l poolUID
  end.

Lemma add_Ok (left right n : Z) :
  (0 <= left <= MaxInt64)%Z -> int64_range right ->
  add left right = Ok n <-> (0 < right)%Z /\ n = (left + right)%Z /\ (n <= MaxInt64)%Z.
Proof.
  unfold add, int64_range. intros Hl Hr. rewrite !check_Ok, !reject_if_Ok.
  destruct (decide (0 < right)%Z) as [Hp|Hp]; [|split; [intros (? & _)|intros (? & _)]; lia].
  assert (int64_wrap (MaxInt64 - right) = MaxInt64 - right)%Z as -> by (apply int64_wrap_id; unfold int64_range in *; lia).
  split.
  - intros (_ & Hs & [= <-]). rewrite int64_wrap_id; unfold int64_range; lia.
  - intros (_ & -> & Hn). split_and!; [lia..|]. rewrite int64_wrap_id; [done|]. unfold int64_range. lia.
Qed.

Lemma accumulate_owned (total : Z) (entries : list (string * State)) (poolUID : string) (rest : list (result (string * Z))) :
  accumulate total (map (fun entry => volume_hold entry.2) entries ++ rest) poolUID =
  (total ← owned_loop total entries poolUID; accumulate total rest poolUID).
Proof.
  revert total. induction entries as [|[id state] entries IH]; intros total; [done|]. simpl. unfold volume_hold.
  destruct (ownerPoolUID state) as [owner|e]; [|done]. simpl. destruct (owner == poolUID); [|apply IH].
  destruct (add total (State.CapacityBytes state)); [apply IH|done].
Qed.

Lemma accumulate_moves (total : Z) (volumes : gmap string State) (moves : list Move) (poolUID : string) :
  accumulate total (map (moveReservation volumes) moves) poolUID = moveHeldBytesForPool total volumes moves poolUID.
Proof.
  revert total. induction moves as [|m moves IH]; intros total; [done|]. simpl.
  destruct (moveReservation volumes m) as [[uid bytes]|e]; [|done]. simpl. destruct (uid == poolUID); [|apply IH].
  destruct (add total bytes); [apply IH|done].
Qed.

Lemma ReservedBytes_accumulate (entries : list (string * State)) (volumes : gmap string State) (moves : list Move)
    (poolUID : string) :
  poolUID <> "" -> ReservedBytesForPool entries volumes moves poolUID = accumulate 0 (holds entries volumes moves) poolUID.
Proof.
  intros Hp. unfold ReservedBytesForPool, holds. rewrite bool_decide_eq_false_2 by done. simpl.
  rewrite accumulate_owned. unfold ownedBytesForPool. destruct (owned_loop 0 entries poolUID); [|done]. simpl.
  by rewrite accumulate_moves.
Qed.

(** Every hold is known, and every amount is an [int64]. *)
Definition known (l : list (result (string * Z))) : Prop := Forall (fun r => is_ok r = true) l.
Definition amounts_int64 (l : list (result (string * Z))) : Prop :=
  Forall (fun r => match r with Ok (_, bytes) => int64_range bytes | Err _ => True end) l.

Lemma accumulate_spec (total : Z) (l : list (result (string * Z))) (poolUID : string) (n : Z) :
  (0 <= total <= MaxInt64)%Z -> amounts_int64 l ->
  accumulate total l poolUID = Ok n <->
  known l /\ Forall (fun bytes => 0 < bytes)%Z (held poolUID l) /\ n = (total + sum (held poolUID l))%Z /\ (n <= MaxInt64)%Z.
Proof.
  revert total n. induction l as [|r l IH]; intros total n Ht Hl.
  { simpl. unfold known, held. simpl. split; [intros [= <-]|]; [repeat split; try constructor; simpl; lia|].
    intros (_ & _ & -> & _). f_equal. simpl. lia. }
  apply Forall_cons in Hl as [Hr Hl]. destruct r as [[uid amount]|e]; cbn [accumulate].
  2:{ split; [done|]. intros [Hk _]. apply Forall_cons in Hk as [? _]. done. }
  cbn [mbind result_bind]. unfold known, held in *. cbn [omap list_omap]. rewrite Forall_cons.
  destruct (uid == poolUID); cbn [is_ok].
  - rewrite bind_Ok, Forall_cons. cbn [sum foldr]. split.
    + intros (t & (Hp & -> & Hm)%add_Ok & H); [|done..]. apply IH in H as (? & ? & -> & ?); [|lia|done].
      unfold sum in *. split_and!; try done; lia.
    + intros ((_ & Hk) & (Hp & Hpos) & -> & Hm). exists (total + amount)%Z.
      assert (0 <= sum (omap (fun r => match r with Ok (uid, bytes) => if uid == poolUID then Some bytes else None | Err _ => None end) l))%Z as Hs.
      { clear -Hpos. induction Hpos; simpl; unfold sum in *; lia. }
      unfold sum in *. split; [apply add_Ok; [done..|]; lia|]. apply IH; [lia|done|]. split_and!; try done; lia.
  - rewrite IH by done. naive_solver.
Qed.

(** A ledger does not depend on the order of its holds. *)
#[export] Instance held_Permutation (poolUID : string) : Proper ((≡ₚ) ==> (≡ₚ)) (held poolUID).
Proof. intros l l' Hl. unfold held. by rewrite Hl. Qed.

#[export] Instance sum_Permutation : Proper ((≡ₚ) ==> (=)) sum.
Proof. intros l l'. induction 1; simpl; unfold sum in *; lia. Qed.

#[export] Instance known_Permutation : Proper ((≡ₚ) ==> iff) known.
Proof. intros l l' Hl. unfold known. by rewrite Hl. Qed.

(** What [accumulate_spec] says of a ledger. *)
Lemma ledger_Permutation (poolUID : string) (n : Z) (l l' : list (result (string * Z))) :
  l ≡ₚ l' ->
  known l /\ Forall (fun bytes => 0 < bytes)%Z (held poolUID l) /\ n = (0 + sum (held poolUID l))%Z /\ (n <= MaxInt64)%Z <->
  known l' /\ Forall (fun bytes => 0 < bytes)%Z (held poolUID l') /\ n = sum (held poolUID l') /\ (n <= MaxInt64)%Z.
Proof.
  intros Hl. rewrite Z.add_0_l. pose proof (held_Permutation poolUID l l' Hl) as Hh.
  rewrite (known_Permutation l l' Hl), (sum_Permutation _ _ Hh).
  assert (Forall (fun bytes => 0 < bytes)%Z (held poolUID l) <-> Forall (fun bytes => 0 < bytes)%Z (held poolUID l')) as ->
    by (by rewrite Hh).
  done.
Qed.

(** The stored quantities are [int64]. *)
Definition quantities_int64 (volumes : gmap string State) (moves : list Move) : Prop :=
  map_Forall (fun _ state => int64_range (State.CapacityBytes state)) volumes /\
  Forall (fun m => forall p, MoveStatus.Preparation (Move.Status m) = Some p -> int64_range (MovePreparation.ReservedBytes p)) moves.

Lemma moveReservation_bytes (volumes : gmap string State) (m : Move) (uid : string) (bytes : Z) :
  moveReservation volumes m = Ok (uid, bytes) ->
  bytes = 0%Z \/ (exists p, MoveStatus.Preparation (Move.Status m) = Some p /\ bytes = MovePreparation.ReservedBytes p) \/
  exists id state, volumes !! id = Some state /\ bytes = State.CapacityBytes state.
Proof.
  unfold moveReservation, preparationReservation. intros H.
  destruct (MoveStatus.Preparation _) as [p|] eqn:Ep.
  - right. left. exists p. split; [done|]. destruct (ValidateMovePreparation m); [|done].
    destruct (volumes !! _); [|done]. go_inv. done.
  - destruct (MoveCleanupSettled m || _); [left; by simplify_eq|]. right. right.
    destruct (volumes !! _) as [state|] eqn:Ev; [|done]. exists (MoveSpec.VolumeID (Move.Spec m)), state.
    split; [done|]. destruct (State.CurrentCopy state), (MoveStatus.SourceCopy (Move.Status m)); try done.
    destruct (_ || _); by simplify_eq.
Qed.

Lemma holds_int64 (entries : list (string * State)) (volumes : gmap string State) (moves : list Move) :
  entries ≡ₚ map_to_list volumes -> quantities_int64 volumes moves -> amounts_int64 (holds entries volumes moves).
Proof.
  intros He [Hv Hm]. apply Forall_app. split; apply Forall_map, Forall_forall; simpl.
  - intros [id state] Hin. rewrite He in Hin. apply elem_of_map_to_list in Hin. simpl. unfold volume_hold.
    destruct (ownerPoolUID state); [|done]. simpl. by apply (Hv id state).
  - intros m Hin. destruct (moveReservation volumes m) as [[uid bytes]|] eqn:E; [|done].
    apply moveReservation_bytes in E as [->|[(p & Hp & ->)|(id & state & Hs & ->)]]; [done| |by apply (Hv id state)].
    rewrite Forall_forall in Hm. by apply (Hm m).
Qed.

Lemma ReservedBytesForPool_spec (entries : list (string * State)) (volumes : gmap string State) (moves : list Move)
    (poolUID : string) (n : Z) :
  entries ≡ₚ map_to_list volumes -> quantities_int64 volumes moves ->
  let ledger := holds (map_to_list volumes) volumes moves in
  ReservedBytesForPool entries volumes moves poolUID = Ok n <->
  poolUID <> "" /\ known ledger /\ Forall (fun bytes => 0 < bytes)%Z (held poolUID ledger) /\
  n = sum (held poolUID ledger) /\ (n <= MaxInt64)%Z.
Proof.
  intros He Hq. cbv zeta.
  assert (holds entries volumes moves ≡ₚ holds (map_to_list volumes) volumes moves) as Hperm
    by (unfold holds; by rewrite He).
  assert (poolUID = "" -> forall v, ReservedBytesForPool entries volumes moves poolUID <> Ok v) as Hempty
    by (by intros ->).
  destruct (decide (poolUID = "")) as [->|Hp]; [split; [by intros ?%Hempty|naive_solver]|].
  rewrite ReservedBytes_accumulate, accumulate_spec by (done || by apply holds_int64).
  rewrite (ledger_Permutation poolUID n _ _ Hperm). naive_solver.
Qed.

(** C35: the ledger is exact.  Whatever order the map of volumes is read in,
    [ReservedBytesForPool] returns a number exactly when the Pool is named, the
    capacity owner of every volume and the hold of every Move are known, every
    amount counted is positive and the total fits in an int64; and that number is
    the sum of all bytes held on that Pool by volumes and Moves. *)
Theorem ReservedBytesForPool_exact (entries : list (string * State)) (volumes : gmap string State) (moves : list Move)
    (poolUID : string) (n : Z) :
  entries ≡ₚ map_to_list volumes -> quantities_int64 volumes moves ->
  let ledger := holds (map_to_list volumes) volumes moves in
  ReservedBytesForPool entries volumes moves poolUID = Ok n <->
  poolUID <> "" /\ known ledger /\ Forall (fun bytes => 0 < bytes)%Z (held poolUID ledger) /\
  n = sum (held poolUID ledger) /\ (n <= MaxInt64)%Z.
Proof. apply ReservedBytesForPool_spec. Qed.

(** ** Admission *)

Lemma FitsReservation_spec (requested reserved limit : Z) :
  int64_range reserved -> int64_range limit ->
  FitsReservation requested reserved limit = true <-> (0 < requested /\ 0 <= reserved /\ reserved + requested <= limit)%Z.
Proof.
  unfold FitsReservation, int64_range. intros Hr Hl. rewrite !andb_true_iff.
  destruct (decide (0 <= reserved < limit)%Z) as [Hd|Hd]; [|lia].
  rewrite int64_wrap_id by (unfold int64_range; lia). lia.
Qed.

Lemma moveReservation_insert (volumes : gmap string State) (id : string) (state : State) (m : Move) :
  volumes !! id = None -> is_ok (moveReservation volumes m) = true ->
  moveReservation (<[id := state]> volumes) m = moveReservation volumes m.
Proof.
  intros Hid. unfold moveReservation, preparationReservation.
  destruct (decide (id = MoveSpec.VolumeID (Move.Spec m))) as [->|Hne]; [|by rewrite lookup_insert_ne].
  rewrite Hid. destruct (MoveStatus.Preparation _); [by destruct (ValidateMovePreparation m)|].
  by destruct (_ || _).
Qed.

Lemma sum_nonneg (l : list Z) : Forall (fun bytes => 0 < bytes)%Z l -> (0 <= sum l)%Z.
Proof. induction 1; simpl; unfold sum in *; lia. Qed.

Lemma LimitBytes_range {AM : Apimachinery} (pool : Pool) (limit : Z) : LimitBytes pool = Ok limit -> int64_range limit.
Proof.
  unfold LimitBytes, ParseLimitBytes. intros H. apply bind_Ok in H as (q & _ & H).
  pose proof (AsInt64_range q) as Hr. destruct (AsInt64 q) as [value exact]. simpl in *.
  destruct exact; [|done]. simpl in H. destruct (value <=? 0)%Z; by simplify_eq.
Qed.

Lemma holds_insert (volumes : gmap string State) (moves : list Move) (id : string) (state : State) (poolUID : string) :
  volumes !! id = None -> ownerPoolUID state = Ok poolUID -> known (holds (map_to_list volumes) volumes moves) ->
  holds (map_to_list (<[id := state]> volumes)) (<[id := state]> volumes) moves ≡ₚ
  Ok (poolUID, State.CapacityBytes state) :: holds (map_to_list volumes) volumes moves.
Proof.
  intros Hid Howner Hk. unfold holds in *. rewrite map_to_list_insert by done. simpl. unfold volume_hold at 1.
  rewrite Howner. simpl. apply perm_skip, Permutation_app_head. apply Forall_app in Hk as [_ Hk].
  apply Forall_map in Hk. rewrite (map_ext_Forall _ (moveReservation volumes)); [done|].
  eapply Forall_impl; [exact Hk|]. intros m Hm. by apply moveReservation_insert.
Qed.

(** C17: admission keeps the ledger within the limit.  If a Pool's ledger is known,
    its limit is readable and the decision says the request fits, then after a
    volume of the requested size with that Pool as its owner is added, in whatever
    order the ledger is then read, the ledger is again known, is larger by exactly
    the request, and does not exceed the limit. *)
Theorem admission_within_limit {AM : Apimachinery} (pool : Pool) (entries entries' : list (string * State))
    (volumes : gmap string State) (moves : list Move) (requested reserved limit : Z) (id : string) (state : State) :
  entries ≡ₚ map_to_list volumes -> quantities_int64 volumes moves ->
  ReservedBytesForPool entries volumes moves (Pool.UID pool) = Ok reserved ->
  LimitBytes pool = Ok limit -> FitsReservation requested reserved limit = true ->
  volumes !! id = None -> ownerPoolUID state = Ok (Pool.UID pool) -> State.CapacityBytes state = requested ->
  entries' ≡ₚ map_to_list (<[id := state]> volumes) ->
  ReservedBytesForPool entries' (<[id := state]> volumes) moves (Pool.UID pool) = Ok (reserved + requested)%Z /\
  (reserved + requested <= limit)%Z.
Proof.
  intros He Hq Hr Hlimit Hfits Hid Howner Hbytes He'.
  apply (ReservedBytesForPool_spec entries) in Hr as (Hp & Hknown & Hpos & Hsum & Hmax); [|done..].
  apply LimitBytes_range in Hlimit as Hrange.
  assert (0 <= reserved)%Z as Hnonneg by (rewrite Hsum; by apply sum_nonneg).
  apply FitsReservation_spec in Hfits as (Hreq & _ & Hfit); [|unfold int64_range in *; lia..]. split; [|lia].
  assert (holds (map_to_list (<[id := state]> volumes)) (<[id := state]> volumes) moves ≡ₚ
          Ok (Pool.UID pool, requested) :: holds (map_to_list volumes) volumes moves) as Hperm
    by (rewrite <- Hbytes; by apply holds_insert).
  apply (ReservedBytesForPool_spec entries'); [done| |].
  - destruct Hq as [Hv Hm]. split; [|done]. apply map_Forall_insert_2; [|done]. rewrite Hbytes.
    unfold int64_range in *. lia.
  - cbv zeta. split; [done|]. symmetry in Hperm. apply (proj1 (ledger_Permutation _ _ _ _ Hperm)). rewrite Z.add_0_l. unfold known, held in *. cbn [omap list_omap]. rewrite bool_decide_eq_true_2 by done.
    rewrite !Forall_cons. cbn [sum foldr]. unfold sum, held in *. unfold int64_range in *. split_and!; try done; lia.
Qed.

(** ** Holds through the life of a Move *)

Lemma approved_unsettled (m : Move) :
  MoveStatus.CapacityApproved (Move.Status m) = true -> MoveStatus.CleanupPhase (Move.Status m) <> "Completed" ->
  MoveCleanupSettled m = false.
Proof.
  intros Happ Hc. unfold MoveCleanupSettled. cbv zeta. rewrite Happ.
  rewrite (bool_decide_eq_false_2 (MoveStatus.CleanupPhase _ = "Completed")) by done.
  rewrite !andb_false_r. cbn [negb andb].
  repeat match goal with |- context [if ?b then _ else _] => destruct b end; done.
Qed.

(** An approved status names the destination that was reserved. *)
Lemma approved_destination (m : Move) (next : MoveStatus) (p : MovePreparation) :
  validatePreparedTransition m next = Ok tt -> MoveStatus.Preparation (Move.Status m) = Some p ->
  MoveStatus.CapacityApproved (Move.Status m) = false -> MoveStatus.CapacityApproved next = true ->
  MoveStatus.DestinationPoolUID next = PoolReference.UID (MovePreparation.Pool p) /\
  (MoveStatus.SourceCopy (Move.Status m) <> None -> MoveStatus.SourceCopy next = MoveStatus.SourceCopy (Move.Status m)).
Proof.
  intros H Hp Hm Hn. pose proof H as Htrans. unfold validatePreparedTransition in H. rewrite !check_Ok in H.
  destruct H as (Hset & Hid & Hplan & _ & _ & Happ & _ & H).
  destruct (acquire_authority m next Htrans Hm Hn) as (_ & source & poolName & _ & _ & _ & _ & Hnone). simpl in Hnone.
  unfold preservePreparation in H. rewrite Hp in H. simpl in H. rewrite Hnone, Hn, andb_false_r in H. simpl in H.
  rewrite !check_Ok, reject_if_Ok in H. destruct H as (_ & H & _). go_inv. split; [done|].
  apply kept_set, (permanent_source m (Move.with_Status m next)). by apply preserveMoveIdentity_spec.
Qed.

Lemma preparation_source (m : Move) (p : MovePreparation) :
  ValidateMovePreparation m = Ok tt -> MoveStatus.Preparation (Move.Status m) = Some p ->
  exists source, MoveStatus.SourceCopy (Move.Status m) = Some source /\ Validate source = Ok tt /\
    PoolReference.UID (MovePreparation.Pool p) <> PoolUID source /\
    PoolReference.UID (MovePreparation.Pool p) <> "" /\ MoveStatus.CleanupPhase (Move.Status m) = "".
Proof.
  intros H Hp. destruct (preparation_elsewhere m p H Hp) as (source & Hs & Hne). exists source.
  unfold ValidateMovePreparation in H. rewrite Hp in H. rewrite !check_Ok, !reject_if_Ok in H.
  destruct H as (_ & Hf & Hplan & Hint & _). unfold validatePreparationFields in Hf. unfold validatePreparedPlan in Hplan.
  rewrite !check_Ok, !reject_if_Ok in *. destruct Hplan as (_ & _ & Hsrc). rewrite Hs in Hsrc. cbn [some_and] in Hsrc.
  unfold hasMoveDestinationIntent in Hint. rewrite !orb_false_iff in *.
  destruct Hint as (_ & (_ & Hphase) & _), Hf as (((_ & Huid) & _) & _).
  apply negb_false_iff in Hsrc, Huid, Hphase. apply bool_decide_eq_true in Hphase.
  rewrite !andb_true_iff, is_ok_unit in Hsrc. destruct Hsrc as (((Hvalid & _) & _) & _).
  split_and!; [done..|by apply token_nonempty|done].
Qed.

(** Approval keeps the reservation.  When a Move exchanges its reservation for
    execution authority, the ledger entry of the Move does not change: the same
    bytes stay held on the same Pool, so no other request can be admitted in
    between. *)
Theorem approval_keeps_reservation (volumes : gmap string State) (m : Move) (next : MoveStatus) (uid : string) (bytes : Z) :
  MoveStatus.CleanupPhase next = MoveStatus.CleanupPhase (Move.Status m) ->
  validatePreparedTransition m next = Ok tt ->
  MoveStatus.CapacityApproved (Move.Status m) = false -> MoveStatus.CapacityApproved next = true ->
  moveReservation volumes m = Ok (uid, bytes) ->
  moveReservation volumes (Move.with_Status m next) = Ok (uid, bytes).
Proof.
  intros Hcleanup Htrans Hm Hnext Hres.
  destruct (acquire_authority m next Htrans Hm Hnext) as (Hprep & source & poolName & Hs & _ & Hne & _ & Hnone).
  destruct (MoveStatus.Preparation (Move.Status m)) as [p|] eqn:Ep; [|done].
  unfold moveReservation in Hres. rewrite Ep in Hres. unfold preparationReservation in Hres.
  destruct (ValidateMovePreparation m) as [[]|] eqn:Ev; [|done].
  destruct (preparation_source m p Ev Ep) as (source' & Hs' & Hvalid & Hpool & Hempty & Hphase).
  destruct (approved_destination m next p Htrans Ep Hm Hnext) as [Hdest Hsource].
  simpl in Hs. rewrite Hs' in Hres, Hsource. rewrite Hs in Hsource. specialize (Hsource ltac:(done)). injection Hsource as ->.
  destruct (volumes !! _) as [state|] eqn:Estate; [|done]. cbn [deref mbind result_bind] in Hres. go_inv.
  unfold moveReservation. simpl in Hnone. simpl. rewrite Hnone, approved_unsettled; [|done|simpl; by rewrite Hcleanup, Hphase].
  simpl. rewrite Hnext, Estate. simpl.
  rewrite H, Hs, H4, Hdest. destruct (Validate_nonempty source' Hvalid) as [Huid _].
  rewrite (bool_decide_eq_true_2 (Move.Name m = Move.Name m)) by done. rewrite !bool_decide_eq_false_2 by done. simpl.
  apply Z.eqb_eq in H0. by rewrite H0.
Qed.

(** Committing the owner moves no bytes out of the ledger.  When the volume's
    serving copy changes from the source Pool to the approved destination Pool, the
    volume's own bytes move to the destination and the Move's hold moves to the
    source, so that what the volume and its Move hold together on any Pool is the
    same before and after; both copies stay accounted for until cleanup. *)
Theorem owner_commit_conserves (volumes : gmap string State) (m : Move) (state committed : State)
    (source destination : CopyIdentity) (poolUID : string) :
  let id := MoveSpec.VolumeID (Move.Spec m) in
  volumes !! id = Some state -> State.CurrentCopy state = Some source ->
  MoveStatus.SourceCopy (Move.Status m) = Some source -> State.CurrentCopy committed = Some destination ->
  PoolUID destination = MoveStatus.DestinationPoolUID (Move.Status m) -> PoolUID destination <> PoolUID source ->
  State.CapacityBytes committed = State.CapacityBytes state -> State.ActiveMove committed = State.ActiveMove state ->
  MoveStatus.Preparation (Move.Status m) = None -> MoveStatus.CapacityApproved (Move.Status m) = true ->
  MoveCleanupSettled m = false ->
  ownerPoolUID state = Ok (PoolUID source) -> ownerPoolUID committed = Ok (PoolUID destination) ->
  is_ok (moveReservation volumes m) = true ->
  is_ok (moveReservation (<[id := committed]> volumes) m) = true /\
  held poolUID [volume_hold state; moveReservation volumes m] ≡ₚ
  held poolUID [volume_hold committed; moveReservation (<[id := committed]> volumes) m].
Proof.
  cbv zeta. intros Hv Hcur Hsrc Hcom Hdst Hne Hbytes Hactive Hprep Happ Hsettled Howner Howner' Hok.
  unfold moveReservation in *. rewrite Hprep, Happ, Hsettled in *. simpl in *.
  rewrite lookup_insert_eq, Hcom, Hactive, Hbytes. rewrite Hv, Hcur, Hsrc in *.
  destruct (_ || _); [done|]. split; [done|]. unfold held, volume_hold. rewrite Howner, Howner', Hbytes. simpl.
  rewrite Hdst in *. set (target := MoveStatus.DestinationPoolUID (Move.Status m)) in *.
  rewrite (bool_decide_eq_true_2 (target = target)) by done. rewrite (bool_decide_eq_false_2 (PoolUID source = target)) by congruence.
  destruct (bool_decide (PoolUID source = poolUID)), (bool_decide (target = poolUID)); done.
Qed.

(** ** statfs snapshots *)

Lemma bytes_Ok (blocks blockSize n : Z) :
  (0 <= blocks <= MaxUint64)%Z -> (0 <= blockSize <= MaxUint64)%Z ->
  bytes blocks blockSize = Ok n <-> n = (blocks * blockSize)%Z /\ (n <= MaxInt64)%Z.
Proof.
  intros Hb Hs. unfold bytes. destruct (Z.eqb_spec blockSize 0) as [->|Hnz]; simpl.
  { rewrite Z.mul_0_r. split; [intros [= <-]; vm_compute; done|]. by intros [-> _]. }
  assert (MaxInt64 / blockSize < blocks <-> MaxInt64 < blocks * blockSize)%Z as Hdiv.
  { split; intros H.
    - pose proof (Z.mul_succ_div_gt MaxInt64 blockSize ltac:(lia)). nia.
    - apply Z.div_lt_upper_bound; lia. }
  destruct (Z.ltb_spec (MaxInt64 / blockSize) blocks) as [Hlt|Hge].
  - split; [done|]. apply Hdiv in Hlt. intros [-> ?]. lia.
  - assert (blocks * blockSize <= MaxInt64)%Z as Hm by (apply Z.nlt_ge; intros ?%Hdiv; lia).
    unfold uint64_wrap. rewrite Z.mod_small by (unfold MaxInt64, MaxUint64 in *; nia).
    rewrite int64_wrap_id by (unfold int64_range; nia). naive_solver.
Qed.

Lemma digits_value_bound (s : string) (acc v : N) : digits_value acc s = Some v -> (acc <= v)%N.
Proof.
  revert acc. induction s as [|c s IH]; intros acc; simpl; [intros [= ->]; lia|].
  destruct (digit_value c) as [d|]; [|done]. intros ?%IH. lia.
Qed.

Lemma parse_fields_range (fields : list string) (values : list Z) :
  parse_fields fields = Ok values -> Forall (fun v => 0 <= v <= MaxUint64)%Z values.
Proof.
  revert values. induction fields as [|f fields IH]; intros values; simpl; [by intros [= <-]|].
  destruct (ParseUint f (2 ^ 64)) as [v|] eqn:E; [|done]. intros (vs & Hvs & [= <-])%bind_Ok. constructor; [|by apply IH].
  unfold ParseUint in E. destruct (f == ""); [done|]. destruct (digits_value 0 f); [|done].
  destruct (n <? 2 ^ 64)%N eqn:En; [|done]. injection E as ->. apply N.ltb_lt in En. unfold MaxUint64. lia.
Qed.

Lemma parse_fields_length (fields : list string) (values : list Z) :
  parse_fields fields = Ok values -> length fields = length values.
Proof.
  revert values. induction fields as [|f fields IH]; intros values; simpl; [by intros [= <-]|].
  destruct (ParseUint f (2 ^ 64)); [|done]. intros (vs & Hvs & [= <-])%bind_Ok. simpl. by rewrite (IH vs).
Qed.

(** A statfs snapshot is exact.  [ParseStatOutput] accepts an output exactly
    when it is four white-space separated 64-bit decimal numbers whose byte counts
    and inode count fit in an int64; the snapshot then has the exact products, no
    multiplication having wrapped. *)
Theorem ParseStatOutput_exact (output : string) (f : Filesystem) :
  ParseStatOutput output = Ok f <->
  exists blocks available size inodes,
    parse_fields (Fields output) = Ok [blocks; available; size; inodes] /\
    f = {| Filesystem.TotalBytes := blocks * size; Filesystem.AvailableBytes := available * size;
           Filesystem.AvailableInodes := inodes |} /\
    (blocks * size <= MaxInt64 /\ available * size <= MaxInt64 /\ inodes <= MaxInt64)%Z.
Proof.
  unfold ParseStatOutput. cbv zeta. rewrite check_Ok, bind_Ok, reject_if_Ok. split.
  - intros (_ & values & Hv & H). pose proof (parse_fields_range _ _ Hv) as Hr.
    destruct values as [|b [|a [|s [|i [|]]]]]; try done.
    repeat match goal with H : Forall _ (_ :: _) |- _ => apply Forall_cons in H as [? H] end.
    destruct (bytes b s) as [total|] eqn:Et; [|done]. destruct (bytes a s) as [avail|] eqn:Ea; [|done].
    apply bytes_Ok in Et as [-> ?], Ea as [-> ?]; [|done..]. go_inv. exists b, a, s, i. split_and!; try done.
    rewrite int64_wrap_id by (unfold int64_range; lia). done.
  - intros (b & a & s & i & Hv & -> & Hb & Ha & Hi). pose proof (parse_fields_range _ _ Hv) as Hr.
    repeat match goal with H : Forall _ (_ :: _) |- _ => apply Forall_cons in H as [? H] end.
    split; [by rewrite (parse_fields_length _ _ Hv)|]. exists [b; a; s; i]. split; [done|].
    rewrite (proj2 (bytes_Ok b s _ ltac:(done) ltac:(done)) (conj eq_refl Hb)).
    rewrite (proj2 (bytes_Ok a s _ ltac:(done) ltac:(done)) (conj eq_refl Ha)).
    rewrite (proj2 (Z.ltb_ge _ _) Hi), int64_wrap_id by (unfold int64_range; lia). done.
Qed.

(** ** Sample ledger *)

Module SampleLedger.
Definition volume (pool uid node : string) : State :=
  State.with_status
    {| State.UID := uid; State.Finalizers := [VolumeProtectionFinalizer]; State.RequestName := "pvc-1";
       State.CapacityBytes := 1073741824; State.InitialNode := node; State.InitialPool := None;
       State.CreationClaim := None; State.HasCleanup := false; State.Deleting := false; State.Phase := "";
       State.OwnerNode := ""; State.ActiveMove := ""; State.PublishedNodes := []; State.CreationOperationID := "";
       State.DeletionOperationID := ""; State.CurrentCopy := None; State.CreationExecutor := None;
       State.CreationReceipt := None |}
    PhaseMoving node "move-1" [] "" ""
    (Some {| InstallationID := "cluster"; PoolName := pool; PoolUID := pool +:+ "-uid"; VolumeID := SampleMove.volume;
             VolumeUID := uid; CopyID := "initial-uid-1"; NodeName := node; Role := RoleServing |}) None None.

(** The volume of the sample Move, before and after its owner is committed. *)
Definition moving : State := volume "pool-a" "uid-1" "node-a".
Definition moved : State :=
  State.with_status moving PhaseMoving "node-b" "move-1" [] "" "" (Some SampleMove.copies.2) None None.
Definition volumes : gmap string State := {[SampleMove.volume := moving]}.

Definition other : string := "shiftpv-ffffffffffffffffffffffffffffffff".
Definition admitted : State := volume "pool-b" "uid-2" "node-b".

Definition pool : Pool :=
  {| Pool.Name := "pool-b"; Pool.UID := "pool-b-uid"; Pool.NodeName := "node-b"; Pool.PoolGroup := "default";
     Pool.MountPath := "/pool"; Pool.CapacityPolicy := ""; Pool.MountPolicy := ""; Pool.CapacityLimit := "3221225472";
     Pool.Generation := 1; Pool.DeletionTimestamp := None; Pool.Finalizers := []; Pool.IdentityReleaseApproval := "";
     Pool.RetirementRequest := ""; Pool.RetirementApproval := ""; Pool.CapacityProbeRequest := "";
     Pool.Status := PoolStatus.empty |}.

Lemma quantities (m : Move) : MoveStatus.Preparation (Move.Status m) = None -> quantities_int64 volumes [m].
Proof.
  intros Hm. split; [by apply map_Forall_singleton|]. constructor; [|constructor]. intros p Hp. by rewrite Hm in Hp.
Qed.
End SampleLedger.

(** The sample Move holds 1Gi on the destination Pool while it copies. *)
Lemma ReservedBytesForPool_exact_witness :
  ReservedBytesForPool (map_to_list SampleLedger.volumes) SampleLedger.volumes [SampleMove.copying] "pool-b-uid" =
  Ok 1073741824%Z /\
  1073741824%Z = sum (held "pool-b-uid" (holds (map_to_list SampleLedger.volumes) SampleLedger.volumes [SampleMove.copying])).
Proof.
  assert (ReservedBytesForPool (map_to_list SampleLedger.volumes) SampleLedger.volumes [SampleMove.copying] "pool-b-uid" =
    Ok 1073741824%Z) as H by (vm_compute; reflexivity).
  split; [exact H|].
  apply (ReservedBytesForPool_exact (map_to_list SampleLedger.volumes)) in H as (_ & _ & _ & H & _);
    [exact H|reflexivity|by apply SampleLedger.quantities].
Defined.

Lemma admission_within_limit_witness :
  ReservedBytesForPool (map_to_list (<[SampleLedger.other := SampleLedger.admitted]> SampleLedger.volumes))
    (<[SampleLedger.other := SampleLedger.admitted]> SampleLedger.volumes) [SampleMove.copying] "pool-b-uid" =
  Ok 2147483648%Z.
Proof.
  destruct (admission_within_limit (AM := Sample.sample) SampleLedger.pool (map_to_list SampleLedger.volumes)
    (map_to_list (<[SampleLedger.other := SampleLedger.admitted]> SampleLedger.volumes)) SampleLedger.volumes
    [SampleMove.copying] 1073741824 1073741824 3221225472 SampleLedger.other SampleLedger.admitted) as [H _];
    [reflexivity|by apply SampleLedger.quantities|vm_compute; reflexivity..|reflexivity|exact H].
Defined.

Lemma approval_keeps_reservation_witness :
  moveReservation SampleLedger.volumes SampleMove.waiting = Ok ("pool-b-uid", 1073741824%Z) /\
  moveReservation SampleLedger.volumes SampleMove.copying = Ok ("pool-b-uid", 1073741824%Z).
Proof.
  split; [vm_compute; reflexivity|].
  apply (approval_keeps_reservation SampleLedger.volumes SampleMove.waiting (Move.Status SampleMove.copying));
    vm_compute; reflexivity.
Defined.

Lemma owner_commit_conserves_witness :
  held "pool-a-uid" [volume_hold SampleLedger.moving; moveReservation SampleLedger.volumes SampleMove.copying] ≡ₚ
  held "pool-a-uid" [volume_hold SampleLedger.moved;
                     moveReservation (<[SampleMove.volume := SampleLedger.moved]> SampleLedger.volumes) SampleMove.copying].
Proof.
  apply (owner_commit_conserves SampleLedger.volumes SampleMove.copying SampleLedger.moving SampleLedger.moved
    SampleMove.source SampleMove.copies.2 "pool-a-uid"); vm_compute; first [reflexivity|discriminate].
Defined.

Example stat_sample :
  ParseStatOutput " 1000 500	4096 77 " =
  Ok {| Filesystem.TotalBytes := 4096000; Filesystem.AvailableBytes := 2048000; Filesystem.AvailableInodes := 77 |}.
Proof. vm_compute. reflexivity. Qed.
