(* ===== verification/Locker.v ===== *)
(** * The keyed mutex

    src/pool/capacity/locker.go: [Locker] serializes the work on one key (a Pool's
    capacity decision, a volume's lifecycle) and keeps an entry per key only while
    somebody refers to it.  Goroutines interleave between the critical sections of
    the inner mutex, so each operation is split where they can: a goroutine that
    refers to an entry but does not hold it yet, one that holds it, and one that
    released the mutex but not yet its reference. *)

From S2P Require Import Prelude.
From stdpp Require Import relations fin_maps.

(** ** Data *)

Record lockEntry := { locked : bool; refs : Z }.

(** Entries are shared by pointer; [next] is the next pointer to allocate. *)
Record Locker := { entries : gmap string N; heap : gmap N lockEntry; next : N }.

Definition empty : Locker := {| entries := ∅; heap := ∅; next := 0 |}.

Definition store (l : Locker) (e : N) (entry : lockEntry) : Locker :=
  {| entries := entries l; heap := <[e := entry]> (heap l); next := next l |}.

(** ** Operations *)

(** Under [l.mu]. *)
Definition reference (l : Locker) (pool : string) : option (Locker * N) :=
  match entries l !! pool with
  | Some e =>
      entry ← heap l !! e;
      Some (store l e {| locked := locked entry; refs := refs entry + 1 |}, e)
  | None =>
      let e := next l in
      Some ({| entries := <[pool := e]> (entries l); heap := <[e := {| locked := false; refs := 1 |}]> (heap l);
               next := (e + 1)%N |}, e)
  end.

(** [entry.mu.TryLock()]; [entry.mu.Lock()] is the same step when it succeeds and
    waits otherwise. *)
Definition TryLock (l : Locker) (e : N) : option (Locker * bool) :=
  entry ← heap l !! e;
  if locked entry then Some (l, false) else Some (store l e {| locked := true; refs := refs entry |}, true).

(** [entry.mu.Unlock()]: [None] is the runtime's fatal error for a mutex that is not
    locked. *)
Definition Unlock (l : Locker) (e : N) : option Locker :=
  entry ← heap l !! e;
  if locked entry then Some (store l e {| locked := false; refs := refs entry |}) else None.

(** Under [l.mu]. *)
Definition release (l : Locker) (pool : string) (e : N) : option Locker :=
  entry ← heap l !! e;
  let l := store l e {| locked := locked entry; refs := refs entry - 1 |} in
  Some (if (refs entry - 1 =? 0)%Z
        then {| entries := delete pool (entries l); heap := heap l; next := next l |} else l).

(** ** Goroutines *)

Inductive stage := Locking | Trying | Holding | Unlocking | Failing.
#[export] Instance stage_eq_dec : EqDecision stage.
Proof. solve_decision. Defined.

Record goroutine := { key : string; pointer : N; at_stage : stage }.

Record System := { locker : Locker; running : gmap nat goroutine }.

Definition started : System := {| locker := empty; running := ∅ |}.

Inductive run : System -> System -> Prop :=
| run_reference l m t pool e l' s :
    (** the first step of [Lock] and [TryLock] *)
    m !! t = None -> s ∈ [Locking; Trying] -> reference l pool = Some (l', e) ->
    run {| locker := l; running := m |}
        {| locker := l'; running := <[t := {| key := pool; pointer := e; at_stage := s |}]> m |}
| run_lock l m t pool e l' s :
    m !! t = Some {| key := pool; pointer := e; at_stage := s |} -> s ∈ [Locking; Trying] ->
    TryLock l e = Some (l', true) ->
    run {| locker := l; running := m |}
        {| locker := l'; running := <[t := {| key := pool; pointer := e; at_stage := Holding |}]> m |}
| run_busy l m t pool e l' :
    m !! t = Some {| key := pool; pointer := e; at_stage := Trying |} -> TryLock l e = Some (l', false) ->
    run {| locker := l; running := m |}
        {| locker := l'; running := <[t := {| key := pool; pointer := e; at_stage := Failing |}]> m |}
| run_unlock l m t pool e l' :
    (** the first step of [unlock] *)
    m !! t = Some {| key := pool; pointer := e; at_stage := Holding |} -> Unlock l e = Some l' ->
    run {| locker := l; running := m |}
        {| locker := l'; running := <[t := {| key := pool; pointer := e; at_stage := Unlocking |}]> m |}
| run_release l m t pool e l' s :
    m !! t = Some {| key := pool; pointer := e; at_stage := s |} -> s ∈ [Unlocking; Failing] ->
    release l pool e = Some l' ->
    run {| locker := l; running := m |} {| locker := l'; running := delete t m |}.

(** ** Counting references *)

Definition users (m : gmap nat goroutine) (e : N) : nat := size (filter (fun p => pointer p.2 = e) m).

Definition hit (g : goroutine) (e : N) : nat := if decide (pointer g = e) then 1 else 0.

Lemma users_insert (m : gmap nat goroutine) (t : nat) (g : goroutine) (e : N) :
  m !! t = None -> users (<[t := g]> m) e = users m e + hit g e.
Proof.
  intros Ht. unfold users, hit. case_decide.
  - rewrite map_filter_insert_True by done. rewrite map_size_insert_None; [lia|].
    apply map_lookup_filter_None. by left.
  - rewrite map_filter_insert_False by done. rewrite delete_id by done. lia.
Qed.

Lemma users_delete (m : gmap nat goroutine) (t : nat) (g : goroutine) (e : N) :
  m !! t = Some g -> users m e = users (delete t m) e + hit g e.
Proof. intros Ht. rewrite <- (insert_delete_id m t g Ht) at 1. apply users_insert, lookup_delete_eq. Qed.

Lemma users_update (m : gmap nat goroutine) (t : nat) (g g' : goroutine) (e : N) :
  m !! t = Some g -> pointer g' = pointer g -> users (<[t := g']> m) e = users m e.
Proof.
  intros Ht Hp. rewrite <- insert_delete_eq, users_insert by apply lookup_delete_eq. rewrite (users_delete m t g e Ht).
  unfold hit. by rewrite Hp.
Qed.

Lemma users_pos (m : gmap nat goroutine) (e : N) :
  0 < users m e <-> exists t g, m !! t = Some g /\ pointer g = e.
Proof.
  unfold users. split.
  - intros Hs. destruct (map_choose (filter (fun p => pointer p.2 = e) m)) as (t & g & H).
    { intros Hn. rewrite Hn, map_size_empty in Hs. lia. }
    apply map_lookup_filter_Some in H as [? ?]. by exists t, g.
  - intros (t & g & Hg & He). destruct (size _) eqn:E; [|lia]. apply map_size_empty_inv in E.
    apply (map_lookup_filter_Some_2 (fun p => pointer p.2 = e)) with (i := t) in Hg; [|done]. by rewrite E in Hg.
Qed.

(** ** The invariant *)

Definition holder (m : gmap nat goroutine) (t : nat) (e : N) : Prop :=
  exists g, m !! t = Some g /\ pointer g = e /\ at_stage g = Holding.

(** What the heap says of one entry. *)
Definition entry_ok (l : Locker) (m : gmap nat goroutine) (e : N) : Prop :=
  exists entry, heap l !! e = Some entry /\ refs entry = Z.of_nat (users m e) /\ 0 < users m e /\
    (locked entry = true <-> exists t, holder m t e).

Record consistent (s : System) : Prop := {
  goroutine_entry t g : running s !! t = Some g -> entries (locker s) !! key g = Some (pointer g);
  entry_state k e : entries (locker s) !! k = Some e -> entry_ok (locker s) (running s) e /\ (e < next (locker s))%N;
  entry_key k k' e : entries (locker s) !! k = Some e -> entries (locker s) !! k' = Some e -> k = k';
  holder_unique t t' e : holder (running s) t e -> holder (running s) t' e -> t = t'
}.

(** A step of goroutine [t] on entry [e] leaves the other entries as they were. *)
Lemma entry_ok_other (l l' : Locker) (m m' : gmap nat goroutine) (e' : N) :
  heap l' !! e' = heap l !! e' -> users m' e' = users m e' ->
  (forall t, holder m' t e' <-> holder m t e') -> entry_ok l m e' -> entry_ok l' m' e'.
Proof.
  intros Hh Hu Ht (entry & He & Hr & Hp & Hl). exists entry. rewrite Hh, Hu. split_and!; try done.
  rewrite Hl. by setoid_rewrite Ht.
Qed.

Lemma holder_insert (m : gmap nat goroutine) (t t' : nat) (g : goroutine) (e : N) :
  holder (<[t := g]> m) t' e <-> if decide (t' = t) then pointer g = e /\ at_stage g = Holding else holder m t' e.
Proof.
  unfold holder. case_decide as Hd; [subst|].
  - rewrite lookup_insert_eq. naive_solver.
  - by rewrite lookup_insert_ne.
Qed.

Lemma holder_delete (m : gmap nat goroutine) (t t' : nat) (e : N) :
  holder (delete t m) t' e <-> t' <> t /\ holder m t' e.
Proof. unfold holder. rewrite lookup_delete. case_decide; naive_solver. Qed.

(** A goroutine changes stage and the locked bit follows; the references stay. *)
Lemma stage_step (l : Locker) (m : gmap nat goroutine) (t : nat) (g g' : goroutine) (entry : lockEntry) (b : bool) :
  consistent {| locker := l; running := m |} -> m !! t = Some g -> key g' = key g -> pointer g' = pointer g ->
  heap l !! pointer g = Some entry ->
  (b = true <-> at_stage g' = Holding \/ exists t', t' <> t /\ holder m t' (pointer g)) ->
  (at_stage g' = Holding -> forall t', t' <> t -> ~ holder m t' (pointer g)) ->
  consistent {| locker := store l (pointer g) {| locked := b; refs := refs entry |}; running := <[t := g']> m |}.
Proof.
  intros [Hg He Hk Hu] Ht Hkey Hptr Hentry Hb Hx. simpl in *.
  assert (forall t', holder (<[t := g']> m) t' (pointer g) <->
            (t' = t /\ at_stage g' = Holding) \/ (t' <> t /\ holder m t' (pointer g))) as Hh.
  { intros t'. rewrite holder_insert, Hptr. case_decide; naive_solver. }
  assert (forall t' e, e <> pointer g -> holder (<[t := g']> m) t' e <-> holder m t' e) as Hother.
  { intros t' e Hne. rewrite holder_insert. case_decide; [subst t'|done]. split; [naive_solver|].
    intros (g0 & ? & ? & ?). simplify_eq. }
  split; simpl.
  - intros t' g0. destruct (decide (t' = t)) as [->|Hne].
    + rewrite lookup_insert_eq. intros [= <-]. rewrite Hkey, Hptr. by apply (Hg t).
    + rewrite lookup_insert_ne by done. apply Hg.
  - intros k e Hke. destruct (He k e Hke) as [Hok Hlt]. split; [|done].
    destruct (decide (e = pointer g)) as [->|Hne].
    + destruct Hok as (entry' & Hentry' & Hr & Hp & _). rewrite Hentry in Hentry'. injection Hentry' as <-.
      exists {| locked := b; refs := refs entry |}. simpl. rewrite lookup_insert_eq, (users_update m t g g') by done.
      split_and!; try done. rewrite Hb. setoid_rewrite Hh. naive_solver.
    + apply (entry_ok_other l _ m); [simpl; by rewrite lookup_insert_ne|by apply (users_update m t g)| |done].
      intros t'. by apply Hother.
  - apply Hk.
  - intros t1 t2 e H1 H2. destruct (decide (e = pointer g)) as [->|Hne].
    + apply Hh in H1, H2. destruct H1 as [[-> Hs]|[Hn1 H1]], H2 as [[-> Hs']|[Hn2 H2]]; [done| | |by eapply Hu].
      * by destruct (Hx Hs t2).
      * by destruct (Hx Hs' t1).
    + rewrite Hother in H1, H2 by done. by eapply Hu.
Qed.

Lemma holder_start (m : gmap nat goroutine) (t : nat) (g : goroutine) (t' : nat) (e : N) :
  m !! t = None -> at_stage g <> Holding -> holder (<[t := g]> m) t' e <-> holder m t' e.
Proof.
  intros Ht Hs. rewrite holder_insert. case_decide; [subst|done]. split; [naive_solver|].
  intros (g0 & ? & _). simplify_eq.
Qed.

(** A new reference to an entry that exists. *)
Lemma reference_existing (l : Locker) (m : gmap nat goroutine) (t : nat) (g : goroutine) (entry : lockEntry) :
  consistent {| locker := l; running := m |} -> m !! t = None -> at_stage g <> Holding ->
  entries l !! key g = Some (pointer g) -> heap l !! pointer g = Some entry ->
  consistent {| locker := store l (pointer g) {| locked := locked entry; refs := refs entry + 1 |};
                running := <[t := g]> m |}.
Proof.
  intros [Hg He Hk Hu] Ht Hs Hkey Hentry. simpl in *.
  assert (forall t' e', holder (<[t := g]> m) t' e' <-> holder m t' e') as Hh by (intros; by apply holder_start).
  split; simpl; [| |apply Hk|intros t1 t2 e'; rewrite !Hh; apply Hu].
  - intros t' g'. destruct (decide (t' = t)) as [->|Hne]; [rewrite lookup_insert_eq; by intros [= <-]|].
    rewrite lookup_insert_ne by done. apply Hg.
  - intros k e' Hke. destruct (He k e' Hke) as [Hok Hlt]. split; [|done]. destruct (decide (e' = pointer g)) as [->|Hne].
    + destruct Hok as (entry' & Hentry' & Hrefs & Hp & Hl). rewrite Hentry in Hentry'. injection Hentry' as <-.
      eexists. simpl. rewrite lookup_insert_eq. split; [done|]. simpl. rewrite users_insert by done. unfold hit.
      rewrite decide_True by done. split_and!; [lia..|]. rewrite Hl. by setoid_rewrite Hh.
    + apply (entry_ok_other l _ m); [simpl; by rewrite lookup_insert_ne| |by intros; apply Hh|done].
      rewrite users_insert by done. unfold hit. rewrite decide_False by done. lia.
Qed.

Lemma users_fresh (l : Locker) (m : gmap nat goroutine) :
  consistent {| locker := l; running := m |} -> users m (next l) = 0.
Proof.
  intros [Hg He _ _]. simpl in *. destruct (users m (next l)) eqn:E; [done|].
  destruct (proj1 (users_pos m (next l))) as (t & g & Ht & Hp); [lia|]. apply Hg, He in Ht as [_ ?]. lia.
Qed.

(** The first reference to a key. *)
Lemma reference_fresh (l : Locker) (m : gmap nat goroutine) (t : nat) (g : goroutine) :
  consistent {| locker := l; running := m |} -> m !! t = None -> at_stage g <> Holding ->
  entries l !! key g = None -> pointer g = next l ->
  consistent {| locker := {| entries := <[key g := pointer g]> (entries l);
                             heap := <[pointer g := {| locked := false; refs := 1 |}]> (heap l);
                             next := (next l + 1)%N |};
                running := <[t := g]> m |}.
Proof.
  intros Hc Ht Hs Hkey Hptr. pose proof (users_fresh l m Hc) as Hzero. destruct Hc as [Hg He Hk Hu]. simpl in *.
  assert (forall t' e', holder (<[t := g]> m) t' e' <-> holder m t' e') as Hh by (intros; by apply holder_start).
  assert (forall t', ~ holder m t' (pointer g)) as Hno.
  { intros t' (g' & Hg' & Hp & _). apply Hg, He in Hg' as [_ ?]. lia. }
  split; simpl; [| | |intros t1 t2 e'; rewrite !Hh; apply Hu].
  - intros t' g'. destruct (decide (t' = t)) as [->|Hne].
    + rewrite lookup_insert_eq. intros [= <-]. by rewrite lookup_insert_eq.
    + rewrite lookup_insert_ne by done. intros Hg'. apply Hg in Hg'. rewrite lookup_insert_ne; congruence.
  - intros k e'. destruct (decide (k = key g)) as [->|Hne].
    + rewrite lookup_insert_eq. intros [= <-]. split; [|lia]. eexists. simpl. rewrite lookup_insert_eq. split; [done|].
      simpl. rewrite users_insert by done. unfold hit. rewrite Hptr, Hzero, decide_True by done. split_and!; [lia..|].
      split; [done|]. setoid_rewrite Hh. rewrite <- Hptr. naive_solver.
    + rewrite lookup_insert_ne by done. intros Hke. destruct (He k e' Hke) as [Hok Hlt]. split; [|lia].
      apply (entry_ok_other l _ m); [simpl; rewrite lookup_insert_ne by lia; done| |by intros; apply Hh|done].
      rewrite users_insert by done. unfold hit. rewrite decide_False by lia. lia.
  - intros k k' e'. destruct (decide (k = key g)) as [->|Hne], (decide (k' = key g)) as [->|Hne']; [done| | |];
      rewrite ?lookup_insert_eq, ?lookup_insert_ne by done; [| |apply Hk].
    + intros [= <-] Hke. apply He in Hke as [_ ?]. lia.
    + intros Hke [= <-]. apply He in Hke as [_ ?]. lia.
Qed.

Lemma reference_step (l l' : Locker) (m : gmap nat goroutine) (t : nat) (pool : string) (e : N) (s : stage) :
  consistent {| locker := l; running := m |} -> m !! t = None -> s <> Holding -> reference l pool = Some (l', e) ->
  consistent {| locker := l'; running := <[t := {| key := pool; pointer := e; at_stage := s |}]> m |}.
Proof.
  intros Hc Ht Hs Hr. unfold reference in Hr. destruct (entries l !! pool) as [e0|] eqn:Ep.
  - destruct (heap l !! e0) as [entry|] eqn:Eh; [|done]. simpl in Hr. injection Hr as <- <-.
    by apply (reference_existing l m t {| key := pool; pointer := e0; at_stage := s |}).
  - injection Hr as <- <-. by apply (reference_fresh l m t {| key := pool; pointer := next l; at_stage := s |}).
Qed.

Lemma release_step (l l' : Locker) (m : gmap nat goroutine) (t : nat) (pool : string) (e : N) (s : stage) :
  consistent {| locker := l; running := m |} -> m !! t = Some {| key := pool; pointer := e; at_stage := s |} ->
  s <> Holding -> release l pool e = Some l' ->
  consistent {| locker := l'; running := delete t m |}.
Proof.
  intros [Hg He Hk Hu] Ht Hs Hr. simpl in *. pose proof (Hg _ _ Ht) as Hpool. simpl in Hpool.
  destruct (He _ _ Hpool) as [(entry & Hentry & Hrefs & Hpos & Hlocked) Hlt].
  unfold release in Hr. rewrite Hentry in Hr. simpl in Hr. injection Hr as <-.
  assert (forall t' e', holder (delete t m) t' e' <-> holder m t' e') as Hh.
  { intros t' e'. rewrite holder_delete. split; [by intros [_ ?]|]. intros Ho. split; [|done]. intros ->.
    destruct Ho as (g0 & ? & _ & ?). simplify_eq. }
  assert (forall e', users m e' = users (delete t m) e' + hit {| key := pool; pointer := e; at_stage := s |} e') as Hcount
    by (intros e'; by apply users_delete).
  pose proof (Hcount e) as Hself. unfold hit in Hself. simpl in Hself. rewrite decide_True in Hself by done.
  assert (forall e', e' <> e -> users (delete t m) e' = users m e') as Hothers.
  { intros e' Hne. rewrite Hcount. unfold hit. simpl. rewrite decide_False by done. lia. }
  assert (forall t' g', delete t m !! t' = Some g' -> m !! t' = Some g') as Hsub
    by (intros t' g'; rewrite lookup_delete; by case_decide).
  assert (forall k e' l0, entries l !! k = Some e' -> e' <> e -> heap l0 !! e' = heap l !! e' -> entry_ok l0 (delete t m) e')
    as Hokother.
  { intros k e' l0 Hke Hne Hheap. destruct (He k e' Hke) as [Hok _].
    apply (entry_ok_other l _ m); [done|by apply Hothers|by intros; apply Hh|done]. }
  destruct (refs entry - 1 =? 0)%Z eqn:Ez.
  - (* the last reference: the entry is dropped *)
    assert (users (delete t m) e = 0) as Hlast by lia.
    assert (forall t' g', delete t m !! t' = Some g' -> key g' <> pool) as Hnokey.
    { intros t' g' Hg' Hkey. pose proof (Hg _ _ (Hsub _ _ Hg')) as Hp. rewrite Hkey, Hpool in Hp. injection Hp as Hp.
      assert (0 < users (delete t m) e) by (apply users_pos; eauto). lia. }
    split; simpl.
    + intros t' g' Hg'. rewrite lookup_delete_ne by (intros ?; by eapply Hnokey). by apply (Hg t'), Hsub.
    + intros k e' [Hne Hke]%lookup_delete_Some. split; [|by apply (He k)]. assert (e' <> e) by (intros ->; by apply Hne, (Hk _ _ e)).
      apply (Hokother k); [done..|]. simpl. by rewrite lookup_insert_ne.
    + intros k k' e' [_ H1]%lookup_delete_Some [_ H2]%lookup_delete_Some. by apply (Hk _ _ e').
    + intros t1 t2 e'. rewrite !Hh. apply Hu.
  - split; simpl.
    + intros t' g' Hg'. by apply (Hg t'), Hsub.
    + intros k e' Hke. split; [|by apply (He k)]. destruct (decide (e' = e)) as [->|Hne].
      * eexists. simpl. rewrite lookup_insert_eq. split; [done|]. simpl. split_and!; [lia..|].
        rewrite Hlocked. by setoid_rewrite Hh.
      * apply (Hokother k); [done..|]. simpl. by rewrite lookup_insert_ne.
    + apply Hk.
    + intros t1 t2 e'. rewrite !Hh. apply Hu.
Qed.

Lemma run_consistent (s s' : System) : consistent s -> run s s' -> consistent s'.
Proof.
  intros Hc Hrun. destruct Hrun as [l m t pool e l' st Ht Hst Hr|l m t pool e l' st Ht Hst Hr|l m t pool e l' Ht Hr|
                                    l m t pool e l' Ht Hr|l m t pool e l' st Ht Hst Hr].
  - apply (reference_step l); [done..|set_solver|done].
  - unfold TryLock in Hr. destruct (heap l !! e) as [entry|] eqn:Eh; [|done]. simpl in Hr.
    destruct (locked entry) eqn:El; [done|]. injection Hr as <-.
    destruct (entry_state _ Hc pool e) as [(entry' & Hentry & _ & _ & Hl) _];
      [by apply (goroutine_entry _ Hc t _ Ht)|]. simpl in Hentry. rewrite Eh in Hentry. injection Hentry as <-.
    assert (forall t', ~ holder m t' e) as Hno by (intros t' Ho; rewrite (proj2 Hl) in El; [done|by exists t']).
    apply (stage_step l m t _ _ entry true Hc Ht); simpl; try done; naive_solver.
  - unfold TryLock in Hr. destruct (heap l !! e) as [entry|] eqn:Eh; [|done]. simpl in Hr.
    destruct (locked entry) eqn:El; [|done]. injection Hr as <-.
    destruct (entry_state _ Hc pool e) as [(entry' & Hentry & _ & _ & Hl) _];
      [by apply (goroutine_entry _ Hc t _ Ht)|]. simpl in Hentry. rewrite Eh in Hentry. injection Hentry as <-.
    assert (l = store l e {| locked := true; refs := refs entry |}) as ->.
    { destruct l as [es h n]; unfold store; simpl in *. f_equal. rewrite <- El, insert_id; [done|]. by destruct entry. }
    apply (stage_step l m t _ _ entry true Hc Ht); simpl; try done. split; [intros _|done]. right.
    destruct (proj1 Hl El) as [t' Ho]. exists t'. split; [|done]. intros ->. destruct Ho as (g & Hg & _ & ?). simpl in Hg. simplify_eq.
  - unfold Unlock in Hr. destruct (heap l !! e) as [entry|] eqn:Eh; [|done]. simpl in Hr.
    destruct (locked entry) eqn:El; [|done]. injection Hr as <-.
    apply (stage_step l m t _ _ entry false Hc Ht); simpl; try done. split; [done|]. intros [?|(t' & Hne & Ho)]; [done|].
    destruct Hne. apply (holder_unique _ Hc t' t e); [done|]. by eexists.
  - apply (release_step l _ m t pool e st); [done..|set_solver|done].
Qed.

Lemma reachable_consistent (s : System) : rtc run started s -> consistent s.
Proof.
  intros Hr. assert (consistent started) as Hc by (split; simpl; try (intros *; by rewrite lookup_empty); intros ??? (? & ? & _); by simplify_map_eq).
  revert Hc. induction Hr as [|x y z Hxy _ IH]; [done|]. intros Hc. apply IH. by apply (run_consistent x).
Qed.

(** Goroutine [t] is between a successful lock and the unlock of [pool]. *)
Definition owns (s : System) (t : nat) (pool : string) : Prop :=
  exists e, running s !! t = Some {| key := pool; pointer := e; at_stage := Holding |}.

(** C33: the keyed mutex excludes.  In every reachable interleaving at most one
    goroutine is in the critical section of a key, although entries are dropped and
    created again; an owner can always unlock (the runtime's fatal error for an
    unlocked mutex is unreachable); a key has an entry exactly while some goroutine
    refers to it, so nothing leaks; and a goroutine waiting for a key that nobody
    owns can lock it. *)
Theorem locker_excludes (s : System) :
  rtc run started s ->
  (forall t t' pool, owns s t pool -> owns s t' pool -> t = t') /\
  (forall t pool, owns s t pool -> exists e l', running s !! t = Some {| key := pool; pointer := e; at_stage := Holding |} /\
     Unlock (locker s) e = Some l') /\
  (forall pool, entries (locker s) !! pool <> None <-> exists t g, running s !! t = Some g /\ key g = pool) /\
  (forall t pool e, running s !! t = Some {| key := pool; pointer := e; at_stage := Locking |} ->
     (forall t', ~ owns s t' pool) -> exists l', TryLock (locker s) e = Some (l', true)).
Proof.
  intros Hr. pose proof (reachable_consistent s Hr) as Hc.
  assert (forall t g, running s !! t = Some g -> entry_ok (locker s) (running s) (pointer g)) as Hok.
  { intros t g Hg. apply (entry_state s Hc (key g)). by apply (goroutine_entry s Hc t). }
  split_and!.
  - intros t t' pool [e He] [e' He']. pose proof (goroutine_entry s Hc _ _ He) as H1.
    pose proof (goroutine_entry s Hc _ _ He') as H2. simpl in *. rewrite H1 in H2. injection H2 as <-.
    apply (holder_unique s Hc _ _ e); by eexists.
  - intros t pool [e He]. exists e. destruct (Hok _ _ He) as (entry & Hentry & _ & _ & Hl). simpl in *.
    unfold Unlock. rewrite Hentry. simpl. rewrite (proj2 Hl) by (exists t; by eexists). by eexists.
  - intros pool. split.
    + destruct (entries (locker s) !! pool) as [e|] eqn:Ee; [intros _|done].
      destruct (entry_state s Hc pool e Ee) as [(entry & _ & _ & Hp & _) _]. apply users_pos in Hp as (t & g & Hg & Hge).
      exists t, g. split; [done|]. apply (entry_key s Hc _ _ e); [|done]. rewrite <- Hge. by apply (goroutine_entry s Hc t).
    + intros (t & g & Hg & <-). by rewrite (goroutine_entry s Hc _ _ Hg).
  - intros t pool e Ht Hno. destruct (Hok _ _ Ht) as (entry & Hentry & _ & _ & Hl). simpl in *. unfold TryLock.
    rewrite Hentry. simpl. destruct (locked entry) eqn:El; [|by eexists].
    destruct (proj1 Hl eq_refl) as (t' & [k' e' st] & Hg & He' & Hst). simpl in *. subst. destruct (Hno t').
    exists e. assert (k' = pool) as ->; [|done].
    apply (entry_key s Hc _ _ e); [apply (goroutine_entry s Hc _ _ Hg)|apply (goroutine_entry s Hc _ _ Ht)].
Qed.

(** One goroutine holds a key while another waits for it. *)
Definition sample_contended : System :=
  {| locker := {| entries := {["pool" := 0%N]}; heap := {[0%N := {| locked := true; refs := 2 |}]}; next := 1 |};
     running := <[2 := {| key := "pool"; pointer := 0; at_stage := Locking |}]>
                  {[1 := {| key := "pool"; pointer := 0; at_stage := Holding |}]} |}.

Lemma locker_excludes_witness :
  owns sample_contended 1 "pool" /\ forall t, owns sample_contended t "pool" -> t = 1.
Proof.
  assert (rtc run started sample_contended) as Hr.
  { eapply rtc_l; [eapply (run_reference empty ∅ 1 "pool" 0 _ Locking); [done|set_solver|reflexivity]|].
    eapply rtc_l; [eapply (run_lock _ _ 1 "pool" 0 _ Locking); [reflexivity|set_solver|reflexivity]|].
    eapply rtc_l; [eapply (run_reference _ _ 2 "pool" 0 _ Locking); [reflexivity|set_solver|reflexivity]|].
    apply rtc_refl. }
  assert (owns sample_contended 1 "pool") as H1 by (eexists; reflexivity).
  split; [exact H1|]. intros t Ht. exact (proj1 (locker_excludes sample_contended Hr) t 1 "pool" Ht H1).
Defined.
