(* ===== verification/CleanupJournal.v ===== *)
(** * The cleanup journal

    src/kubernetes/cleanupapi: the journal of one physical cleanup, embedded in the
    status of the volume or Move that authorizes it (journal.go, executor.go), the
    rules of its transitions (transition.go), the store that applies them by
    compare-and-set (store.go), and the proof that the cleaned copy is gone
    (absence.go).  A parent is seen as its metadata, its kind and its journal; the
    rest of it is kept verbatim.  [now] is the formatted clock. *)

From S2P Require Import Prelude Bytes Json VolumeIdentity GoTime Apimachinery ApiServer VolumeState PoolApi.
From S2P Require Import VolumeRegistry PoolRegistry MoveApi.
From stdpp Require Import relations pretty.

Definition ErrConflict : error := Errorf "cleanup journal state precondition failed".
Definition ErrNoJournal : error := Errorf "cleanup journal not found".

Definition PhasePending : string := "Pending".
Definition PhaseRunning : string := "Running".
Definition PhaseVerifying : string := "Verifying".
Definition PhaseConfirmingAbsence : string := "ConfirmingAbsence".
Definition PhaseCompleted : string := "Completed".
Definition PhaseNeedsReview : string := "NeedsReview".
Definition ExecutorNode : string := "Node".

(** ** Data *)

Module Authority.
Record Authority := { Kind : string; Name : string; UID : string }.
#[export] Instance Authority_eq_dec : EqDecision Authority.
Proof. solve_decision. Defined.

Definition Validate (a : Authority) : result unit :=
  reject_if (negb (ValidObjectName (Name a)) || negb (ValidIdentityToken (UID a)))
    (Errorf "invalid cleanup parent identity");;
  if (Kind a == "ShiftPVVolume") || (Kind a == "ShiftPVMove") then Ok tt else Err (Errorf "invalid cleanup authority %q").
End Authority.
Notation Authority := Authority.Authority.
#[export] Existing Instance Authority.Authority_eq_dec.

Module Spec.
Record Spec := { OperationID : string; Target : CopyIdentity; Reason : string; Authority : Authority }.
#[export] Instance Spec_eq_dec : EqDecision Spec.
Proof. solve_decision. Defined.

Definition Validate (s : Spec) : result unit :=
  let authority := Authority s in
  let target := Target s in
  reject_if (negb (ValidIdentityToken (OperationID s)) || negb (is_ok (VolumeIdentity.Validate target)))
    (Errorf "invalid cleanup identity");;
  Authority.Validate authority;;
  if (Reason s == "VolumeDelete") || (Reason s == "CreationCancelled") then
    reject_if ((Authority.Kind authority != "ShiftPVVolume") || (Authority.Name authority != VolumeID target) ||
               (Authority.UID authority != VolumeUID target))
      (Errorf "volume cleanup authority does not match the target");;
    reject_if ((Reason s == "CreationCancelled") && negb (IsCreationCancellation target (OperationID s)))
      (Errorf "creation cancellation must identify the original initial copy");;
    reject_if ((Reason s == "VolumeDelete") && (OperationID s == CreationCancellationPrefix +:+ VolumeUID target))
      (Errorf "creation cancellation requires its own cleanup reason")
  else if (Reason s == "MoveSource") || (Reason s == "MoveRollback") then
    reject_if (Authority.Kind authority != "ShiftPVMove") (Errorf "move cleanup requires ShiftPVMove authority")
  else Err (Errorf "invalid cleanup reason %q").
End Spec.
Notation Spec := Spec.Spec.
#[export] Existing Instance Spec.Spec_eq_dec.

Module Executor.
Record Executor := {
  Kind : string;
  Namespace : string;
  PodName : string;
  JobName : string;
  JobUID : string;
  PodUID : string;
  NodeName : string
}.
#[export] Instance Executor_eq_dec : EqDecision Executor.
Proof. solve_decision. Defined.

Definition ExecutionUID (e : Executor) : string := if Kind e == ExecutorNode then PodUID e else JobUID e.

Definition Valid (e : Executor) : bool :=
  if negb (ValidObjectName (NodeName e)) then false
  else if Kind e == ExecutorNode
  then (JobName e == "") && (JobUID e == "") && ValidObjectName (Namespace e) && ValidObjectName (PodName e) &&
       ValidIdentityToken (PodUID e)
  else (Kind e == "") && (Namespace e == "") && (PodName e == "") && ValidObjectName (JobName e) &&
       ValidIdentityToken (JobUID e).
End Executor.
Notation Executor := Executor.Executor.
#[export] Existing Instance Executor.Executor_eq_dec.

Module Receipt.
Record Receipt := {
  OperationID : string;
  ExecutorUID : string;
  ObservedAt : string;
  Retired : bool;
  Purged : bool;
  LocalReceiptDigest : string
}.
#[export] Instance Receipt_eq_dec : EqDecision Receipt.
Proof. solve_decision. Defined.
End Receipt.
Notation Receipt := Receipt.Receipt.
#[export] Existing Instance Receipt.Receipt_eq_dec.

Module AbsenceProof.
Record AbsenceProof := {
  RequestID : string;
  PoolName : string;
  PoolUID : string;
  RequiredGeneration : Z;
  ObservedGeneration : Z;
  Valid : bool;
  Complete : bool;
  Absent : bool;
  ConfirmedAt : string
}.
#[export] Instance AbsenceProof_eq_dec : EqDecision AbsenceProof.
Proof. solve_decision. Defined.
End AbsenceProof.
Notation AbsenceProof := AbsenceProof.AbsenceProof.
#[export] Existing Instance AbsenceProof.AbsenceProof_eq_dec.

Module Status.
Record Status := {
  Phase : string;
  ObservedGeneration : Z;
  Reason : string;
  Message : string;
  LastTransitionTime : string;
  Executor : option Executor;
  Receipt : option Receipt;
  AbsenceProof : option AbsenceProof;
  SettledAt : string
}.
#[export] Instance Status_eq_dec : EqDecision Status.
Proof. solve_decision. Defined.

Definition set_observation (s : Status) (generation : Z) (time : string) : Status :=
  {| Phase := Phase s; ObservedGeneration := generation; Reason := Reason s; Message := Message s;
     LastTransitionTime := time; Executor := Executor s; Receipt := Receipt s; AbsenceProof := AbsenceProof s;
     SettledAt := SettledAt s |}.

Definition set_proof (s : Status) (phase : string) (proof : AbsenceProof.AbsenceProof) (settledAt : string) : Status :=
  {| Phase := phase; ObservedGeneration := ObservedGeneration s; Reason := Reason s; Message := Message s;
     LastTransitionTime := LastTransitionTime s; Executor := Executor s; Receipt := Receipt s;
     AbsenceProof := Some proof; SettledAt := settledAt |}.
End Status.
Notation Status := Status.Status.
#[export] Existing Instance Status.Status_eq_dec.

Module Cleanup.
Record Cleanup := { Name : string; UID : string; Spec : Spec; Status : Status }.

Definition with_Status (c : Cleanup) (s : Status.Status) : Cleanup :=
  {| Name := Name c; UID := UID c; Spec := Spec c; Status := s |}.

(** The zero value. *)
Definition zero : Cleanup :=
  {| Name := ""; UID := "";
     Spec := {| Spec.OperationID := ""; Spec.Reason := "";
                Spec.Target := {| InstallationID := ""; PoolName := ""; PoolUID := ""; VolumeID := ""; VolumeUID := "";
                                  CopyID := ""; NodeName := ""; Role := "" |};
                Spec.Authority := {| Authority.Kind := ""; Authority.Name := ""; Authority.UID := "" |} |};
     Status := {| Status.Phase := ""; Status.ObservedGeneration := 0; Status.Reason := ""; Status.Message := "";
                  Status.LastTransitionTime := ""; Status.Executor := None; Status.Receipt := None;
                  Status.AbsenceProof := None; Status.SettledAt := "" |} |}.
End Cleanup.
Notation Cleanup := Cleanup.Cleanup.

Record journal := { journal_Spec : Spec; journal_Status : Status }.

Definition cleanupName (target : CopyIdentity) : string :=
  let encoded := marshal_object
    [("installationID", InstallationID target); ("poolName", PoolName target); ("poolUID", PoolUID target);
     ("volumeID", VolumeID target); ("volumeUID", VolumeUID target); ("copyID", CopyID target);
     ("nodeName", NodeName target); ("role", Role target)] in
  "shiftpv-cleanup-" +:+ EncodeToString (String.substring 0 16 (Sha256.Sum256 encoded)).

(** ** Transition rules *)

Definition validSHA256Digest (value : string) : bool :=
  match DecodeString value with
  | Err _ => false
  | Ok decoded => (String.length decoded =? 32)%nat && (EncodeToString decoded == value)
  end.

Definition validPurgedReceipt (cleanup : Cleanup) (status : Status) : bool :=
  match Status.Executor status, Status.Receipt status with
  | Some executor, Some receipt =>
      Executor.Valid executor && ValidIdentityToken (Executor.PodUID executor) &&
      (Executor.NodeName executor == NodeName (Spec.Target (Cleanup.Spec cleanup))) &&
      (Receipt.OperationID receipt == Spec.OperationID (Cleanup.Spec cleanup)) &&
      (Receipt.ExecutorUID receipt == Executor.ExecutionUID executor) &&
      Receipt.Retired receipt && Receipt.Purged receipt && validSHA256Digest (Receipt.LocalReceiptDigest receipt) &&
      is_ok (Parse (Receipt.ObservedAt receipt))
  | _, _ => false
  end.

Definition executorTransitionAllowed (currentPhase nextPhase : string) (current next : option Executor)
    (currentReceipt nextReceipt : option Receipt) : bool :=
  (current == next) ||
  ((currentPhase == PhaseRunning) && (nextPhase == PhaseRunning) && is_nil currentReceipt && is_nil nextReceipt &&
   match current, next with
   | Some current, Some next =>
       ValidIdentityToken (Executor.PodUID next) && Executor.Valid next &&
       (Executor.Kind current == Executor.Kind next) && (Executor.Namespace current == Executor.Namespace next) &&
       (Executor.JobName current == Executor.JobName next) && (Executor.JobUID current == Executor.JobUID next) &&
       (Executor.NodeName current == Executor.NodeName next)
   | _, _ => false
   end).

Definition sameAbsenceFence (current next : option AbsenceProof) : bool :=
  match current, next with
  | Some current, Some next =>
      (AbsenceProof.RequestID current == AbsenceProof.RequestID next) &&
      (AbsenceProof.PoolName current == AbsenceProof.PoolName next) &&
      (AbsenceProof.PoolUID current == AbsenceProof.PoolUID next) &&
      (AbsenceProof.RequiredGeneration current =? AbsenceProof.RequiredGeneration next)%Z
  | _, _ => false
  end.

Definition validAbsenceFence (target : CopyIdentity) (proof : option AbsenceProof) : bool :=
  some_and proof (fun proof =>
    ValidIdentityToken (AbsenceProof.RequestID proof) && (AbsenceProof.PoolName proof == PoolName target) &&
    (AbsenceProof.PoolUID proof == PoolUID target) && (0 <? AbsenceProof.RequiredGeneration proof)%Z).

Definition confirmedAbsence (proof : option AbsenceProof) : bool :=
  some_and proof (fun proof =>
    AbsenceProof.Valid proof && AbsenceProof.Complete proof && AbsenceProof.Absent proof &&
    (AbsenceProof.RequiredGeneration proof <=? AbsenceProof.ObservedGeneration proof)%Z &&
    (AbsenceProof.ConfirmedAt proof != "") && is_ok (Parse (AbsenceProof.ConfirmedAt proof))).

Definition cleanup_conflict (message : string) : error := Wrapf [ErrConflict] message.

(** The table of [validatePhaseEdge]. *)
Definition allowed_phases (phase : string) : list string :=
  if phase == PhasePending then [PhasePending; PhaseRunning; PhaseNeedsReview]
  else if phase == PhaseRunning then [PhaseRunning; PhaseVerifying; PhaseNeedsReview]
  else if phase == PhaseVerifying then [PhaseVerifying; PhaseConfirmingAbsence; PhaseNeedsReview]
  else if phase == PhaseConfirmingAbsence then [PhaseConfirmingAbsence; PhaseCompleted; PhaseNeedsReview]
  else if phase == PhaseCompleted then [PhaseCompleted]
  else if phase == PhaseNeedsReview then [PhaseNeedsReview]
  else [].

Definition validatePhaseEdge (current : Cleanup) (phase : string) (next : Status) : result unit :=
  reject_if (negb (contains (allowed_phases phase) (Status.Phase next)))
    (cleanup_conflict "%w: phase %s cannot transition to %s").

Definition validateExecutorRule (current : Cleanup) (phase : string) (next : Status) : result unit :=
  let status := Cleanup.Status current in
  reject_if (negb (is_nil (Status.Executor status)) &&
             negb (executorTransitionAllowed phase (Status.Phase next) (Status.Executor status) (Status.Executor next)
                     (Status.Receipt status) (Status.Receipt next)))
    (cleanup_conflict "%w: executor identity is immutable");;
  reject_if ((Status.Phase next == PhaseRunning) && negb (some_and (Status.Executor next) Executor.Valid))
    (cleanup_conflict "%w: Running requires an executor").

Definition validateReceiptRule (current : Cleanup) (phase : string) (next : Status) : result unit :=
  let status := Cleanup.Status current in
  reject_if (negb (is_nil (Status.Receipt status)) && (Status.Receipt status != Status.Receipt next))
    (cleanup_conflict "%w: receipt is immutable");;
  match Status.Receipt next with
  | None => Ok tt
  | Some receipt =>
      reject_if (negb (some_and (Status.Executor next) (fun executor =>
                   (Receipt.OperationID receipt == Spec.OperationID (Cleanup.Spec current)) &&
                   (Receipt.ExecutorUID receipt == Executor.ExecutionUID executor))))
        (cleanup_conflict "%w: receipt identity does not match intent and executor");;
      reject_if (negb (is_ok (Parse (Receipt.ObservedAt receipt)))) (cleanup_conflict "%w: invalid receipt time")
  end.

Definition validateVerifyingRule (current : Cleanup) (phase : string) (next : Status) : result unit :=
  reject_if ((Status.Phase next == PhaseVerifying) &&
             (negb (validPurgedReceipt current next) || negb (is_nil (Status.AbsenceProof next))))
    (cleanup_conflict "%w: Verifying requires a Pod-bound executor and only the API receipt").

Definition validateFenceIdentityRule (current : Cleanup) (phase : string) (next : Status) : result unit :=
  let proof := Status.AbsenceProof (Cleanup.Status current) in
  if is_nil proof then Ok tt
  else
    reject_if (negb (sameAbsenceFence proof (Status.AbsenceProof next)))
      (cleanup_conflict "%w: absence fence identity is immutable");;
    reject_if (some_and proof (fun p => AbsenceProof.ConfirmedAt p != "") && (proof != Status.AbsenceProof next))
      (cleanup_conflict "%w: confirmed absence proof is immutable").

Definition validateConfirmationRule (current : Cleanup) (phase : string) (next : Status) : result unit :=
  if (Status.Phase next != PhaseConfirmingAbsence) && (Status.Phase next != PhaseCompleted) then Ok tt
  else reject_if (negb (validPurgedReceipt current next) ||
                  negb (validAbsenceFence (Spec.Target (Cleanup.Spec current)) (Status.AbsenceProof next)))
         (cleanup_conflict "%w: cleanup confirmation requires a post-receipt absence fence").

Definition validateCompletedRule (current : Cleanup) (phase : string) (next : Status) : result unit :=
  if Status.Phase next != PhaseCompleted then Ok tt
  else
    reject_if (negb (confirmedAbsence (Status.AbsenceProof next)) || (Status.SettledAt next == ""))
      (cleanup_conflict "%w: Completed requires a purged receipt and later complete exact absence proof");;
    reject_if (negb (is_ok (Parse (Status.SettledAt next)))) (cleanup_conflict "%w: invalid settlement time").

Definition transitionRules : list (Cleanup -> string -> Status -> result unit) :=
  [validatePhaseEdge; validateExecutorRule; validateReceiptRule; validateVerifyingRule; validateFenceIdentityRule;
   validateConfirmationRule; validateCompletedRule].

(** The loop over the rules: the first that rejects decides. *)
Fixpoint apply_rules (rules : list (Cleanup -> string -> Status -> result unit)) (current : Cleanup) (phase : string)
    (next : Status) : result unit :=
  match rules with
  | [] => Ok tt
  | rule :: rules => rule current phase next;; apply_rules rules current phase next
  end.

Definition effective_phase (c : Cleanup) : string :=
  if Status.Phase (Cleanup.Status c) == "" then PhasePending else Status.Phase (Cleanup.Status c).

Definition validateTransition (current : Cleanup) (next : Status) : result unit :=
  apply_rules transitionRules current (effective_phase current) next.

Definition ValidateSettled (current : Cleanup) : result unit :=
  match Spec.Validate (Cleanup.Spec current) with
  | Err _ => Err (cleanup_conflict "%w: invalid completed cleanup intent: %v")
  | Ok _ =>
      let status := Cleanup.Status current in
      reject_if ((Cleanup.UID current != Authority.UID (Spec.Authority (Cleanup.Spec current))) ||
                 (Status.Phase status != PhaseCompleted) || negb (validPurgedReceipt current status) ||
                 negb (validAbsenceFence (Spec.Target (Cleanup.Spec current)) (Status.AbsenceProof status)) ||
                 negb (confirmedAbsence (Status.AbsenceProof status)))
        (cleanup_conflict "%w: completed cleanup proof is invalid");;
      validateCompletedRule current PhaseCompleted status
  end.

(** ** Parents *)

Record Parent := {
  parent_metadata : Metadata;
  parent_kind : string;
  parent_journal : field journal;
  (** everything else, verbatim *)
  parent_rest : string
}.

Definition with_parent_metadata (o : Parent) (m : Metadata) : Parent :=
  {| parent_metadata := m; parent_kind := parent_kind o; parent_journal := parent_journal o; parent_rest := parent_rest o |}.

#[export] Program Instance Parent_object : ApiObject Parent := {
  meta := parent_metadata;
  with_finalizers o fs := with_parent_metadata o (Metadata.set_Finalizers (parent_metadata o) fs);
  with_resourceVersion o rv := with_parent_metadata o (Metadata.set_ResourceVersion (parent_metadata o) rv);
  persist through_status current submitted :=
    if through_status
    then Some {| parent_metadata := parent_metadata current; parent_kind := parent_kind current;
                 parent_journal := parent_journal submitted; parent_rest := parent_rest submitted |}
    else if negb (is_nil (Metadata.DeletionTimestamp (parent_metadata current))) &&
            (length (Metadata.Finalizers (parent_metadata submitted)) =? 0)%nat then None
    else Some (with_parent_metadata current
                 (Metadata.set_Finalizers (parent_metadata current) (Metadata.Finalizers (parent_metadata submitted))))
}.
Next Obligation. done. Qed.
Next Obligation. done. Qed.
Next Obligation. intros [] current submitted o; simpl; [by intros [= <-]|]. case_match; [done|]. by intros [= <-]. Qed.
Next Obligation. done. Qed.

Definition validateParentIdentity (object : Parent) (authority : Authority) : result unit :=
  reject_if ((Metadata.UID (meta object) != Authority.UID authority) ||
             (Metadata.Name (meta object) != Authority.Name authority))
    (cleanup_conflict "%w: cleanup parent identity changed").

Definition hasFinalizer (m : Metadata) (finalizer : string) : bool := contains (Metadata.Finalizers m) finalizer.

Definition validateParent (object : Parent) (authority : Authority) (finalizer : string) : result unit :=
  validateParentIdentity object authority;;
  if hasFinalizer (meta object) finalizer then Ok tt else Err (cleanup_conflict "%w: cleanup parent lacks %q").

(** [None]: the parent carries no journal. *)
Definition journalFromParent (object : Parent) : result (option Cleanup) :=
  stored ← decode (parent_journal object) "decode cleanup journal on %s %q: %w";
  match stored with
  | None => Ok None
  | Some stored =>
      let authority := Spec.Authority (journal_Spec stored) in
      Spec.Validate (journal_Spec stored);;
      reject_if ((Authority.Kind authority != parent_kind object) ||
                 (Authority.Name authority != Metadata.Name (meta object)) ||
                 (Authority.UID authority != Metadata.UID (meta object)))
        (cleanup_conflict "%w: embedded cleanup authority does not match its parent");;
      Ok (Some {| Cleanup.Name := cleanupName (Spec.Target (journal_Spec stored));
                  Cleanup.UID := Metadata.UID (meta object);
                  Cleanup.Spec := journal_Spec stored; Cleanup.Status := journal_Status stored |})
  end.

Definition setJournal (object : Parent) (stored : journal) : Parent :=
  {| parent_metadata := parent_metadata object; parent_kind := parent_kind object; parent_journal := Present stored;
     parent_rest := parent_rest object |}.

Definition boundStatusIntent (expected : Cleanup) : bool :=
  (Cleanup.UID expected != "") && (Cleanup.Name expected == cleanupName (Spec.Target (Cleanup.Spec expected))) &&
  (Cleanup.UID expected == Authority.UID (Spec.Authority (Cleanup.Spec expected))) &&
  is_ok (Spec.Validate (Cleanup.Spec expected)).

Definition inventoryProvesAbsence (inventory : PoolInventory) (poolName poolUID nodeName : string) (target : CopyIdentity) : bool :=
  forallb (fun observed =>
    match CopyObservation.Identity observed with
    | None => false
    | Some identity =>
        (CopyObservation.Marker observed != "") && (CopyObservation.Problem observed == "") &&
        is_ok (Validate identity) && (InstallationID identity == InstallationID target) &&
        (PoolName identity == poolName) && (PoolUID identity == poolUID) && (NodeName identity == nodeName) &&
        (CopyObservation.Marker observed == "placement-" +:+ CopyID identity +:+ ".json") &&
        negb (CopyObservation.Published observed && negb (CopyObservation.Present observed)) &&
        negb ((identity == target) && (CopyObservation.Present observed || CopyObservation.Published observed))
    end) (PoolInventory.Copies inventory).

(** NUL separates the parts. *)
Definition nul : string := String (Ascii.ascii_of_N 0) "".

Definition absenceRequestID (cleanup : Cleanup) (generation : Z) : string :=
  let encoded := Authority.UID (Spec.Authority (Cleanup.Spec cleanup)) +:+ nul +:+
                 Spec.OperationID (Cleanup.Spec cleanup) +:+ nul +:+ pretty generation in
  "scan-" +:+ EncodeToString (String.substring 0 16 (Sha256.Sum256 encoded)).

(** What one read Pool proves: [None] is an ambiguous or stale observation.  A
    missing node name reads as the empty one. *)
Definition scan_evidence (current : Cleanup) (pool : PoolObject) : result (option Z) :=
  let target := Spec.Target (Cleanup.Spec current) in
  let proof := Status.AbsenceProof (Cleanup.Status current) in
  let m := PoolObject.metadata pool in
  let node := PoolSpec.nodeName (PoolObject.spec pool) in
  reject_if ((Metadata.UID m != PoolUID target) || negb (hasFinalizer m PoolProtectionFinalizer))
    (cleanup_conflict "%w: cleanup Pool identity or protection changed");;
  reject_if (negb (validAbsenceFence target proof)) (cleanup_conflict "%w: cleanup absence fence is invalid");;
  proof ← deref proof;
  status ← decode (PoolObject.status pool) "status.observedGeneration";
  let observed := PoolStatus.ObservedGeneration (default PoolStatus.empty status) in
  if negb (observed =? Metadata.Generation m)%Z || (observed <? AbsenceProof.RequiredGeneration proof)%Z then Ok None
  else match PoolStatus.Inventory (default PoolStatus.empty status) with
       | None => Ok None
       | Some inventory =>
           if negb (PoolInventory.Valid inventory) || PoolInventory.Truncated inventory ||
              (PoolInventory.Message inventory != "") then Ok None
           else if (node == "") || negb (inventoryProvesAbsence inventory (Metadata.Name m) (Metadata.UID m) node target)
           then Ok None
           else Ok (Some observed)
       end.

(** ** The store *)

Section store.
Context {W : Type} {PC : ApiClient W PoolObject} (volumes moves : ApiClient W Parent) (now : io W string) (steps : nat).

(** The resource interface of one kind of parent. *)
Inductive resource := VolumeResource | MoveResource.

Definition client_of (r : resource) : ApiClient W Parent :=
  match r with VolumeResource => volumes | MoveResource => moves end.

Definition parentResource (authority : Authority) : result (resource * string) :=
  Authority.Validate authority;;
  if Authority.Kind authority == "ShiftPVVolume" then Ok (VolumeResource, VolumeProtectionFinalizer)
  else if Authority.Kind authority == "ShiftPVMove" then Ok (MoveResource, MoveProtectionFinalizer)
  else Err (Errorf "invalid cleanup authority %q").

(** The closure of [Ensure]. *)
Definition ensure_attempt (spec : Spec) (r : resource) (finalizer : string) (captured : unit) (w : W) :
    unit * result Cleanup * W :=
  let step : io W Cleanup :=
    object ← Get (ApiClient := client_of r) (Authority.Name (Spec.Authority spec));
    io_lift (validateParent object (Spec.Authority spec) finalizer);;
    found ← io_lift (journalFromParent object);
    match found with
    | Some current =>
        io_reject_if (Cleanup.Spec current != spec) (cleanup_conflict "%w: parent cleanup slot is bound to another intent");;
        mret current
    | None =>
        time ← now;
        let status := {| Status.Phase := PhasePending; Status.ObservedGeneration := Metadata.Generation (meta object);
                         Status.Reason := ""; Status.Message := ""; Status.LastTransitionTime := time;
                         Status.Executor := None; Status.Receipt := None; Status.AbsenceProof := None;
                         Status.SettledAt := "" |} in
        updated ← Write (ApiClient := client_of r) true (setJournal object {| journal_Spec := spec; journal_Status := status |});
        found ← io_lift (journalFromParent updated);
        mret (default Cleanup.zero found)
    end in
  let '(answer, w) := step w in (captured, answer, w).

Definition Ensure (spec : Spec) : io W Cleanup :=
  io_lift (Spec.Validate spec);;
  '(r, finalizer) ← io_lift (parentResource (Spec.Authority spec));
  wrap_error "ensure parent cleanup journal: %w"
    (retry_closure (AC := client_of r) steps (ensure_attempt spec r finalizer) tt).

(** [get]; [Get] requires protection, [GetHistory] does not. *)
Definition get (authority : Authority) (protected : bool) : io W Cleanup :=
  '(r, finalizer) ← io_lift (parentResource authority);
  object ← Get (ApiClient := client_of r) (Authority.Name authority);
  io_lift (validateParentIdentity object authority);;
  io_lift (if protected then validateParent object authority finalizer else Ok tt);;
  found ← io_lift (journalFromParent object);
  match found with
  | None => io_fail (Wrapf [ErrNoJournal] "%w: %s %q")
  | Some cleanup => mret cleanup
  end.

Definition GetJournal (authority : Authority) : io W Cleanup := get authority true.
Definition GetHistory (authority : Authority) : io W Cleanup := get authority false.

Definition loadBoundJournal (r : resource) (finalizer : string) (expected : Cleanup) : io W (Parent * Cleanup) :=
  let authority := Spec.Authority (Cleanup.Spec expected) in
  object ← Get (ApiClient := client_of r) (Authority.Name authority);
  io_lift (validateParent object authority finalizer);;
  found ← io_lift (journalFromParent object);
  match found with
  | None => io_fail ErrConflict
  | Some current =>
      io_reject_if ((Cleanup.UID current != Cleanup.UID expected) || (Cleanup.Name current != Cleanup.Name expected) ||
                    (Cleanup.Spec current != Cleanup.Spec expected)) ErrConflict;;
      mret (object, current)
  end.

Definition resolveStatusDefaults (current : Cleanup) (next : Status) (generation : Z) : io W Status :=
  let observed := if (Status.ObservedGeneration next =? 0)%Z then generation else Status.ObservedGeneration next in
  if Status.LastTransitionTime next == "" then
    if (Status.Phase next == Status.Phase (Cleanup.Status current)) &&
       (Status.LastTransitionTime (Cleanup.Status current) != "")
    then mret (Status.set_observation next observed (Status.LastTransitionTime (Cleanup.Status current)))
    else time ← now; mret (Status.set_observation next observed time)
  else mret (Status.set_observation next observed (Status.LastTransitionTime next)).

(** The closure of [UpdateStatus]: [next] is captured and keeps the defaults that
    the first attempt resolved. *)
Definition update_attempt (expected : Cleanup) (r : resource) (finalizer : string) (next : Status) (w : W) :
    Status * result unit * W :=
  match loadBoundJournal r finalizer expected w with
  | (Err err, w) => (next, Err err, w)
  | (Ok (object, current), w) =>
      match resolveStatusDefaults current next (Metadata.Generation (meta object)) w with
      | (Err err, w) => (next, Err err, w)
      | (Ok next, w) =>
          if Cleanup.Status current == next then (next, Ok tt, w)
          else match validateTransition current next with
               | Err err => (next, Err err, w)
               | Ok _ =>
                   match Write (ApiClient := client_of r) true
                           (setJournal object {| journal_Spec := Cleanup.Spec current; journal_Status := next |}) w with
                   | (Err err, w) => (next, Err err, w)
                   | (Ok _, w) => (next, Ok tt, w)
                   end
               end
      end
  end.

Definition UpdateStatus (expected : Cleanup) (next : Status) : io W unit :=
  io_reject_if (negb (boundStatusIntent expected)) ErrConflict;;
  '(r, finalizer) ← io_lift (parentResource (Spec.Authority (Cleanup.Spec expected)));
  retry_closure (AC := client_of r) steps (update_attempt expected r finalizer) next.

(** ** Absence *)

Definition requestPoolScan (target : CopyIdentity) : io W Z := fun w =>
  match RequestPoolScan steps target w with
  | (Err err, w) => if error_is err ErrStateConflict then (Err (cleanup_conflict "%w: %v"), w) else (Err err, w)
  | r => r
  end.

Definition openAbsenceFence (current : Cleanup) : io W (Cleanup * bool) :=
  let target := Spec.Target (Cleanup.Spec current) in
  io_reject_if (negb (validPurgedReceipt current (Cleanup.Status current)))
    (cleanup_conflict "%w: absence scan requires a purged API receipt");;
  generation ← requestPoolScan target;
  let proof := {| AbsenceProof.RequestID := absenceRequestID current generation;
                  AbsenceProof.PoolName := PoolName target; AbsenceProof.PoolUID := PoolUID target;
                  AbsenceProof.RequiredGeneration := generation; AbsenceProof.ObservedGeneration := 0;
                  AbsenceProof.Valid := false; AbsenceProof.Complete := false; AbsenceProof.Absent := false;
                  AbsenceProof.ConfirmedAt := "" |} in
  UpdateStatus current
    (Status.set_proof (Cleanup.Status current) PhaseConfirmingAbsence proof (Status.SettledAt (Cleanup.Status current)));;
  current ← GetJournal (Spec.Authority (Cleanup.Spec current));
  mret (current, false).

Definition scanProvesAbsence (current : Cleanup) : io W (option Z) :=
  pool ← Get (Obj := PoolObject) (PoolName (Spec.Target (Cleanup.Spec current)));
  io_lift (scan_evidence current pool).

Definition settleAbsence (current : Cleanup) (observedGeneration : Z) : io W (Cleanup * bool) :=
  proof ← io_lift (deref (Status.AbsenceProof (Cleanup.Status current)));
  confirmedAt ← now;
  settledAt ← now;
  let proof := {| AbsenceProof.RequestID := AbsenceProof.RequestID proof; AbsenceProof.PoolName := AbsenceProof.PoolName proof;
                  AbsenceProof.PoolUID := AbsenceProof.PoolUID proof;
                  AbsenceProof.RequiredGeneration := AbsenceProof.RequiredGeneration proof;
                  AbsenceProof.ObservedGeneration := observedGeneration; AbsenceProof.Valid := true;
                  AbsenceProof.Complete := true; AbsenceProof.Absent := true; AbsenceProof.ConfirmedAt := confirmedAt |} in
  UpdateStatus current (Status.set_proof (Cleanup.Status current) PhaseCompleted proof settledAt);;
  current ← GetJournal (Spec.Authority (Cleanup.Spec current));
  mret (current, Status.Phase (Cleanup.Status current) == PhaseCompleted).

Definition settledAbsence (current : Cleanup) : result (Cleanup * bool) :=
  ValidateSettled current;; Ok (current, true).

Definition ReconcileAbsence (expected : Cleanup) : io W (Cleanup * bool) :=
  current ← GetJournal (Spec.Authority (Cleanup.Spec expected));
  io_reject_if ((Cleanup.UID current != Cleanup.UID expected) || (Cleanup.Name current != Cleanup.Name expected) ||
                (Cleanup.Spec current != Cleanup.Spec expected)) ErrConflict;;
  let phase := Status.Phase (Cleanup.Status current) in
  if phase == PhaseCompleted then io_lift (settledAbsence current)
  else if phase == PhaseVerifying then openAbsenceFence current
  else if phase == PhaseConfirmingAbsence then
    io_reject_if (negb (validPurgedReceipt current (Cleanup.Status current)))
      (cleanup_conflict "%w: absence confirmation requires a purged API receipt");;
    proven ← scanProvesAbsence current;
    match proven with
    | None => mret (current, false)
    | Some observedGeneration => settleAbsence current observedGeneration
    end
  else io_fail (cleanup_conflict "%w: cleanup is phase=%q").
End store.
