(* ===== verification/CleanupProtocol.v ===== *)
(** * The cleanup protocol

    What the rules of CleanupJournal guarantee: the order of the phases, the
    permanence of receipts and fences, the proof behind a completed cleanup, the
    atomicity of the store's writes, and what a Pool scan proves. *)

From S2P Require Import Prelude Bytes Json VolumeIdentity GoTime Apimachinery ApiServer VolumeState PoolApi.
From S2P Require Import VolumeRegistry PoolRegistry MoveApi CleanupJournal.
From stdpp Require Import relations.

(** ** Steps *)

Inductive journal_step (c : Cleanup) : Cleanup -> Prop :=
| journal_write next : validateTransition c next = Ok tt -> journal_step c (Cleanup.with_Status c next).

(** What a journal that [Ensure] has just created looks like. *)
Definition journal_created (c : Cleanup) : Prop :=
  effective_phase c = PhasePending /\ Status.Executor (Cleanup.Status c) = None /\
  Status.Receipt (Cleanup.Status c) = None /\ Status.AbsenceProof (Cleanup.Status c) = None.

Lemma transition_rules (c : Cleanup) (next : Status) :
  validateTransition c next = Ok tt <->
  validatePhaseEdge c (effective_phase c) next = Ok tt /\ validateExecutorRule c (effective_phase c) next = Ok tt /\
  validateReceiptRule c (effective_phase c) next = Ok tt /\ validateVerifyingRule c (effective_phase c) next = Ok tt /\
  validateFenceIdentityRule c (effective_phase c) next = Ok tt /\
  validateConfirmationRule c (effective_phase c) next = Ok tt /\ validateCompletedRule c (effective_phase c) next = Ok tt.
Proof.
  unfold validateTransition, transitionRules. cbn [apply_rules]. rewrite !check_Ok. naive_solver.
Qed.

Lemma phase_edge (c : Cleanup) (next : Status) :
  validateTransition c next = Ok tt -> Status.Phase next ∈ allowed_phases (effective_phase c).
Proof.
  intros (H & _)%transition_rules. unfold validatePhaseEdge in H. apply reject_if_Ok, negb_false_iff in H. by go_inv.
Qed.

(** A written phase is never empty, so it is the effective one. *)
Lemma effective_written (c : Cleanup) (next : Status) :
  validateTransition c next = Ok tt -> effective_phase (Cleanup.with_Status c next) = Status.Phase next.
Proof.
  intros H%phase_edge. unfold effective_phase at 1. simpl. case_bool_decide as E; [|done]. rewrite E in H.
  unfold allowed_phases in H. repeat case_bool_decide; set_solver.
Qed.

(** ** Permanence *)

Record journal_kept (c c' : Cleanup) : Prop := {
  kept_spec : Cleanup.Spec c' = Cleanup.Spec c;
  kept_uid : Cleanup.UID c' = Cleanup.UID c;
  kept_receipt r : Status.Receipt (Cleanup.Status c) = Some r -> Status.Receipt (Cleanup.Status c') = Some r;
  kept_fence p : Status.AbsenceProof (Cleanup.Status c) = Some p ->
    exists p', Status.AbsenceProof (Cleanup.Status c') = Some p' /\
      AbsenceProof.RequestID p' = AbsenceProof.RequestID p /\ AbsenceProof.PoolName p' = AbsenceProof.PoolName p /\
      AbsenceProof.PoolUID p' = AbsenceProof.PoolUID p /\
      AbsenceProof.RequiredGeneration p' = AbsenceProof.RequiredGeneration p /\
      (AbsenceProof.ConfirmedAt p <> "" -> p' = p)
}.

#[export] Instance journal_kept_preorder : PreOrder journal_kept.
Proof.
  split.
  - intros c. split; try done. intros p Hp. by exists p.
  - intros a b c [S1 U1 R1 F1] [S2 U2 R2 F2]. split; [by rewrite S2|by rewrite U2|by auto|].
    intros p Hp. destruct (F1 p Hp) as (p1 & Hp1 & ? & ? & ? & ? & He1). destruct (F2 p1 Hp1) as (p2 & Hp2 & ? & ? & ? & ? & He2).
    exists p2. split_and!; try congruence. intros Hc. specialize (He1 Hc). subst p1. by apply He2.
Qed.

Lemma journal_step_kept (c c' : Cleanup) : journal_step c c' -> journal_kept c c'.
Proof.
  intros [next (_ & _ & Hr & _ & Hf & _)%transition_rules]. split; simpl; try done.
  - intros r Hc. unfold validateReceiptRule in Hr. rewrite check_Ok, reject_if_Ok, Hc in Hr. simpl in Hr.
    destruct Hr as [Hr _]. by go_inv.
  - intros p Hc. unfold validateFenceIdentityRule in Hf. cbv zeta in Hf. rewrite Hc in Hf. simpl in Hf.
    rewrite check_Ok, !reject_if_Ok in Hf. destruct Hf as [Hs Hconf]. apply negb_false_iff in Hs. unfold sameAbsenceFence in Hs.
    destruct (Status.AbsenceProof next) as [p'|]; [|done]. go_inv. exists p'. split_and!; try (done || congruence || lia).
    intros Hne. rewrite (bool_decide_eq_false_2 (_ = "")) in Hconf by done. simpl in Hconf. by go_inv.
Qed.

Lemma journal_steps_kept (c c' : Cleanup) : rtc journal_step c c' -> journal_kept c c'.
Proof. induction 1 as [|c c1 c' Hs _ IH]; [done|]. etrans; [by apply journal_step_kept|done]. Qed.

(** ** The order of the phases *)

(** The run from [c0] to [c] went through [phase]. *)
Definition passed (c0 c : Cleanup) (phase : string) (P : Cleanup -> Prop) : Prop :=
  exists m, rtc journal_step c0 m /\ effective_phase m = phase /\ P m /\ rtc journal_step m c.

Lemma passed_step (c0 c c' : Cleanup) (phase : string) (P : Cleanup -> Prop) :
  passed c0 c phase P -> journal_step c c' -> passed c0 c' phase P.
Proof. intros (m & ? & ? & ? & ?) Hs. exists m. split_and!; try done. by eapply rtc_r. Qed.

Definition has_executor (c : Cleanup) : Prop :=
  exists e, Status.Executor (Cleanup.Status c) = Some e /\ Executor.Valid e = true.
Definition has_receipt (c : Cleanup) : Prop := validPurgedReceipt c (Cleanup.Status c) = true.
Definition has_fence (c : Cleanup) : Prop :=
  has_receipt c /\ validAbsenceFence (Spec.Target (Cleanup.Spec c)) (Status.AbsenceProof (Cleanup.Status c)) = true.
Definition has_proof (c : Cleanup) : Prop :=
  has_fence c /\ confirmedAbsence (Status.AbsenceProof (Cleanup.Status c)) = true.

(** What each phase of a journal presupposes. *)
Definition evidence (c0 c : Cleanup) : Prop :=
  let phase := effective_phase c in
  (phase = PhaseRunning -> has_executor c) /\
  (phase = PhaseVerifying -> has_receipt c /\ passed c0 c PhaseRunning has_executor) /\
  (phase = PhaseConfirmingAbsence ->
     has_fence c /\ passed c0 c PhaseRunning has_executor /\ passed c0 c PhaseVerifying has_receipt) /\
  (phase = PhaseCompleted ->
     has_proof c /\ passed c0 c PhaseRunning has_executor /\ passed c0 c PhaseVerifying has_receipt /\
     passed c0 c PhaseConfirmingAbsence has_fence).

(** Evidence that the rules require of the written status. *)
Lemma written_evidence (c : Cleanup) (next : Status) :
  validateTransition c next = Ok tt ->
  let c' := Cleanup.with_Status c next in
  (Status.Phase next = PhaseRunning -> has_executor c') /\ (Status.Phase next = PhaseVerifying -> has_receipt c') /\
  (Status.Phase next = PhaseConfirmingAbsence -> has_fence c') /\ (Status.Phase next = PhaseCompleted -> has_proof c').
Proof.
  intros (_ & He & _ & Hv & _ & Hc & Hd)%transition_rules. cbv zeta.
  assert (forall r, validPurgedReceipt c next = r -> validPurgedReceipt (Cleanup.with_Status c next) next = r) as Hpr by done.
  unfold has_executor, has_fence, has_proof, has_fence, has_receipt. cbn [Cleanup.with_Status Cleanup.Status Cleanup.Spec].
  split_and!; intros Hp.
  - unfold validateExecutorRule in He. rewrite check_Ok, !reject_if_Ok in He. destruct He as [_ He].
    rewrite bool_decide_eq_true_2 in He by done. simpl in He. apply negb_false_iff, some_and_true in He as (e & ? & ?). by exists e.
  - unfold validateVerifyingRule in Hv. rewrite reject_if_Ok, bool_decide_eq_true_2 in Hv by done. simpl in Hv.
    apply orb_false_iff in Hv as [Hv _]. by apply negb_false_iff in Hv.
  - unfold validateConfirmationRule in Hc. rewrite Hp in Hc. simpl in Hc. apply reject_if_Ok, orb_false_iff in Hc as [H1 H2].
    apply negb_false_iff in H1, H2. done.
  - unfold validateConfirmationRule in Hc. rewrite Hp in Hc. simpl in Hc. apply reject_if_Ok, orb_false_iff in Hc as [H1 H2].
    apply negb_false_iff in H1, H2. unfold validateCompletedRule in Hd. rewrite Hp in Hd. simpl in Hd.
    rewrite check_Ok, !reject_if_Ok, orb_false_iff in Hd. destruct Hd as [[Hd _] _]. apply negb_false_iff in Hd. done.
Qed.

(** The phases that lead to a phase. *)
Lemma allowed_before (phase phase' : string) :
  phase' ∈ allowed_phases phase ->
  phase = phase' \/ phase' = PhaseNeedsReview \/ (phase = PhasePending /\ phase' = PhaseRunning) \/
  (phase = PhaseRunning /\ phase' = PhaseVerifying) \/ (phase = PhaseVerifying /\ phase' = PhaseConfirmingAbsence) \/
  (phase = PhaseConfirmingAbsence /\ phase' = PhaseCompleted).
Proof.
  unfold allowed_phases. repeat case_bool_decide; rewrite ?elem_of_cons, ?elem_of_nil; subst; intuition (subst; tauto).
Qed.

Lemma passed_here (c0 c c' : Cleanup) (phase : string) (P : Cleanup -> Prop) :
  rtc journal_step c0 c -> journal_step c c' -> effective_phase c = phase -> P c -> passed c0 c' phase P.
Proof. intros. exists c. split_and!; try done. by apply rtc_once. Qed.

Lemma evidence_step (c0 c c' : Cleanup) :
  rtc journal_step c0 c -> evidence c0 c -> journal_step c c' -> evidence c0 c'.
Proof.
  intros Hrun (Her & Hev & Hec & Hed) Hs. pose proof (fun phase P => passed_step c0 c c' phase P) as Hpass.
  destruct Hs as [next Hval]. pose proof (phase_edge c next Hval) as Hedge.
  destruct (written_evidence c next Hval) as (H1 & H2 & H3 & H4). unfold evidence. rewrite (effective_written c next Hval).
  assert (forall phase P, effective_phase c = phase -> P c -> passed c0 (Cleanup.with_Status c next) phase P) as Hhere
    by (intros; eapply passed_here; try done; by constructor).
  assert (journal_step c (Cleanup.with_Status c next)) as Hstep by (by constructor).
  assert (forall phase P, passed c0 c phase P -> passed c0 (Cleanup.with_Status c next) phase P) as Hthen by eauto.
  split_and!; intros Hp; rewrite Hp in Hedge; apply allowed_before in Hedge;
    destruct Hedge as [E|[E|[[E E']|[[E E']|[[E E']|[E E']]]]]]; try discriminate;
    try specialize (Her E); try specialize (Hev E); try specialize (Hec E); try specialize (Hed E); naive_solver.
Qed.

Lemma receipt_kept (m c : Cleanup) :
  has_receipt m -> rtc journal_step m c -> Status.Receipt (Cleanup.Status m) = Status.Receipt (Cleanup.Status c).
Proof.
  intros Hr Hrun. unfold has_receipt, validPurgedReceipt in Hr.
  destruct (Status.Executor (Cleanup.Status m)); [|done]. destruct (Status.Receipt (Cleanup.Status m)) as [r|] eqn:E; [|done].
  symmetry. by apply (kept_receipt m c (journal_steps_kept m c Hrun)).
Qed.

Lemma fence_kept (m c : Cleanup) :
  has_fence m -> rtc journal_step m c ->
  sameAbsenceFence (Status.AbsenceProof (Cleanup.Status m)) (Status.AbsenceProof (Cleanup.Status c)) = true.
Proof.
  intros [_ Hf] Hrun. unfold validAbsenceFence in Hf. apply some_and_true in Hf as (p & Hp & _).
  destruct (kept_fence m c (journal_steps_kept m c Hrun) p Hp) as (p' & -> & Hi & Hn & Hu & Hg & _). rewrite Hp. simpl.
  rewrite Hi, Hn, Hu, Hg, Z.eqb_refl. by rewrite !bool_decide_eq_true_2.
Qed.


(** ** The store *)

Section store.
Context {W : Type} (volumes moves : ApiClient W Parent) (now : io W string) (steps : nat).
(** The clock is not the API: reading it changes nothing that is stored. *)
Context (clock_quiet : forall r w v w', now w = (v, w') -> rtc (env (ApiClient := client_of volumes moves r)) w w').

#[local] Notation client := (client_of volumes moves).

(** The journal [c] of the exact protected parent [expected] names. *)
Definition bound_journal (expected : Cleanup) (finalizer : string) (object : Parent) (c : Cleanup) : Prop :=
  journalFromParent object = Ok (Some c) /\ Metadata.UID (meta object) = Cleanup.UID expected /\
  Cleanup.Spec c = Cleanup.Spec expected /\ finalizer ∈ Metadata.Finalizers (meta object).

Lemma loadBoundJournal_Ok (r : resource) (finalizer : string) (expected : Cleanup) (w w' : W) (object : Parent) (c : Cleanup) :
  boundStatusIntent expected = true ->
  loadBoundJournal volumes moves r finalizer expected w = (Ok (object, c), w') ->
  exists w0, rtc (env (ApiClient := client r)) w w0 /\ rtc (env (ApiClient := client r)) w0 w' /\
    stored (ApiClient := client r) w0 (Authority.Name (Spec.Authority (Cleanup.Spec expected))) = Some object /\
    bound_journal expected finalizer object c.
Proof.
  intros Hb H. unfold loadBoundJournal in H. cbv zeta in H. apply io_bind_Ok in H as (o & w1 & Hget & H).
  apply io_bind_Ok in H as ([] & w2 & [Hparent ->]%io_lift_Ok & H).
  apply io_bind_Ok in H as (found & w3 & [Hj ->]%io_lift_Ok & H). destruct found as [current|]; [|done].
  apply io_bind_Ok in H as ([] & w4 & [Hsame%reject_if_Ok ->]%io_lift_Ok & H). injection H as -> -> ->.
  apply Get_spec in Hget as (w0 & Hw0 & Hw1 & Hst). exists w0. split_and!; try done.
  unfold validateParent, validateParentIdentity, hasFinalizer in Hparent. rewrite check_Ok, reject_if_Ok in Hparent.
  destruct Hparent as [Hid Hf]. destruct (contains _ finalizer) eqn:Ef; [|done].
  rewrite !orb_false_iff in Hsame, Hid. destruct Hsame as [_ Hs], Hid as [Hi _].
  unfold boundStatusIntent in Hb. rewrite !andb_true_iff in Hb. destruct Hb as (((_ & _) & Hb) & _). go_inv.
  split_and!; try done. by rewrite Hb.
Qed.

Lemma loadBoundJournal_quiet (r : resource) (finalizer : string) (expected : Cleanup) (w w' : W) (answer : result (Parent * Cleanup)) :
  loadBoundJournal volumes moves r finalizer expected w = (answer, w') -> rtc (env (ApiClient := client r)) w w'.
Proof.
  unfold loadBoundJournal, mbind, io_bind. cbv zeta. intros H. destruct (Get _ w) as [[o|e] w1] eqn:EG;
    apply Get_spec in EG as (w0 & Hw0 & Hw1 & _); [|injection H as <- <-; by etrans].
  assert (rtc (env (ApiClient := client r)) w w1) as Hw by (by etrans).
  unfold io_lift, io_reject_if, io_lift, io_fail, mret, io_ret in H. destruct (validateParent _ _ _) as [[]|]; [|by simplify_eq/=].
  destruct (journalFromParent o) as [[c|]|]; [|by simplify_eq/=..]. destruct (reject_if _ _) as [[]|]; by simplify_eq/=.
Qed.

Lemma resolve_quiet (r : resource) (c : Cleanup) (next : Status) (generation : Z) (w w' : W) (answer : result Status) :
  resolveStatusDefaults now c next generation w = (answer, w') -> rtc (env (ApiClient := client r)) w w'.
Proof.
  unfold resolveStatusDefaults, mbind, io_bind, mret, io_ret. cbv zeta. intros H.
  destruct (bool_decide (Status.LastTransitionTime next = "")); [|simplify_eq; apply rtc_refl].
  destruct (_ && _); [simplify_eq; apply rtc_refl|].
  destruct (now w) as [[time|e] w1] eqn:En; simplify_eq; by eapply clock_quiet.
Qed.

(** One attempt either leaves the journal as it is, because it already says what was
    asked, or makes one protocol step atomically. *)
Definition updated (expected : Cleanup) (r : resource) (finalizer : string) (w w' : W) : Prop :=
  let name := Authority.Name (Spec.Authority (Cleanup.Spec expected)) in
  exists wa object c, rtc (env (ApiClient := client r)) w wa /\ stored (ApiClient := client r) wa name = Some object /\
    bound_journal expected finalizer object c /\
    (rtc (env (ApiClient := client r)) wa w' \/
     exists next wb, journal_step c (Cleanup.with_Status c next) /\
       committed (stored (ApiClient := client r)) wa wb name
         (Some (setJournal object {| journal_Spec := Cleanup.Spec c; journal_Status := next |})) /\
       rtc (env (ApiClient := client r)) wb w').

Lemma update_attempt_Ok (expected : Cleanup) (r : resource) (finalizer : string) (next next' : Status) (w w' : W) :
  boundStatusIntent expected = true ->
  update_attempt volumes moves now expected r finalizer next w = (next', Ok tt, w') -> updated expected r finalizer w w'.
Proof.
  intros Hb H. unfold update_attempt in H.
  destruct (loadBoundJournal _ _ r finalizer expected w) as [[[object c]|e] w1] eqn:El; [|done].
  apply loadBoundJournal_Ok in El as (w0 & Hw0 & Hw1 & Hst & Hbound); [|done].
  destruct (resolveStatusDefaults now c next _ w1) as [[status|e] w2] eqn:Er; [|done]. apply (resolve_quiet r) in Er.
  destruct (Cleanup.Status c == status) eqn:Es.
  { injection H as _ <-. exists w0, object, c. split_and!; try done. left. by etrans. }
  destruct (validateTransition c status) as [[]|e] eqn:Ev; [|done].
  destruct (Write true _ w2) as [[written|e] w3] eqn:EW; [|done]. injection H as _ <-.
  eapply (read_write_atomic (AC := client r) _ object _ true w w0) in EW as (wa & wb & Ha & Hb' & Hsa & Hc & _);
    [|done|by etrans|done|done].
  exists wa, object, c. split_and!; try done; [etrans; [exact Hw0|]; etrans; [exact Hw1|]; by etrans|].
  right. exists status, wb. by split_and!.
Qed.

Lemma update_attempt_conflict (expected : Cleanup) (r : resource) (finalizer : string) (next next' : Status) (w w' : W) (e : error) :
  update_attempt volumes moves now expected r finalizer next w = (next', Err e, w') ->
  IsConflict (ApiClient := client r) e = true -> rtc (env (ApiClient := client r)) w w'.
Proof.
  intros H He. unfold update_attempt in H.
  destruct (loadBoundJournal _ _ r finalizer expected w) as [[[object c]|e1] w1] eqn:El;
    apply loadBoundJournal_quiet in El; [|by simplify_eq].
  destruct (resolveStatusDefaults now c next _ w1) as [[status|e1] w2] eqn:Er; apply (resolve_quiet r) in Er;
    [|simplify_eq; by etrans].
  destruct (Cleanup.Status c == status); [done|].
  destruct (validateTransition c status) as [[]|e1]; [|simplify_eq; by etrans].
  destruct (Write true _ w2) as [[written|e1] w3] eqn:EW; [done|]. simplify_eq.
  apply Write_conflict in EW; [|done]. etrans; [exact El|]. by etrans.
Qed.

(** [UpdateStatus] is an atomic journal step.  When it returns without an error,
    then at one instant the stored parent was the exact protected parent that the
    caller named, carrying the intent the caller named, and either its journal
    already had the requested status, or the parent was replaced by the same parent
    with a journal whose status is an accepted transition; before and after there
    are only steps of other clients, however often the write was retried. *)
Theorem UpdateStatus_atomic (expected : Cleanup) (next : Status) (w w' : W) :
  UpdateStatus volumes moves now steps expected next w = (Ok tt, w') ->
  exists r finalizer, parentResource (Spec.Authority (Cleanup.Spec expected)) = Ok (r, finalizer) /\
    updated expected r finalizer w w'.
Proof.
  unfold UpdateStatus. intros H. apply io_bind_Ok in H as ([] & w1 & [Hb%reject_if_Ok ->]%io_lift_Ok & H).
  apply negb_false_iff in Hb. apply io_bind_Ok in H as ([r finalizer] & w2 & [Hr ->]%io_lift_Ok & H).
  exists r, finalizer. split; [done|].
  apply retry_closure_Ok in H as (c & w3 & c' & Hw3 & H); [|intros *; apply update_attempt_conflict].
  apply update_attempt_Ok in H as (wa & object & j & Ha & Hrest); [|done].
  exists wa, object, j. split; [|done]. by etrans.
Qed.
End store.

(** ** What a scan proves *)

(** The target is not in this inventory, and the inventory says nothing ambiguous. *)
Definition absent_from (target : CopyIdentity) (inventory : PoolInventory) : Prop :=
  PoolInventory.Valid inventory = true /\ PoolInventory.Truncated inventory = false /\
  Forall (fun observed =>
    CopyObservation.Problem observed = "" /\
    exists identity, CopyObservation.Identity observed = Some identity /\ Validate identity = Ok tt /\
      (identity = target -> CopyObservation.Present observed = false /\ CopyObservation.Published observed = false))
    (PoolInventory.Copies inventory).

Lemma inventoryProvesAbsence_sound (inventory : PoolInventory) (poolName poolUID nodeName : string) (target : CopyIdentity) :
  inventoryProvesAbsence inventory poolName poolUID nodeName target = true ->
  Forall (fun observed =>
    CopyObservation.Problem observed = "" /\
    exists identity, CopyObservation.Identity observed = Some identity /\ Validate identity = Ok tt /\
      (identity = target -> CopyObservation.Present observed = false /\ CopyObservation.Published observed = false))
    (PoolInventory.Copies inventory).
Proof.
  unfold inventoryProvesAbsence. rewrite forallb_forall, Forall_forall. intros H observed Hin.
  specialize (H observed (proj1 (list_elem_of_In _ _) Hin)). destruct (CopyObservation.Identity observed) as [identity|]; [|done].
  rewrite !andb_true_iff, bool_decide_eq_true, is_ok_unit in H.
  destruct H as (((((((((_ & Hproblem) & Hvalid) & _) & _) & _) & _) & _) & _) & Htarget).
  split; [done|]. exists identity. split_and!; [done..|]. intros ->. rewrite bool_decide_eq_true_2 in Htarget by done.
  simpl in Htarget. apply negb_true_iff, orb_false_iff in Htarget. done.
Qed.

Section scan.
Context {W : Type} {PC : ApiClient W PoolObject}.

(** A settled scan is evidence of absence.  When [scanProvesAbsence] reports a
    generation, then at one instant of the call the stored Pool was the protected
    Pool of the target, its inventory was taken at exactly its current generation,
    which is the reported one and has reached the fence recorded in the journal,
    and that complete, unambiguous inventory shows the target neither present nor
    published. *)
Theorem scanProvesAbsence_sound (c : Cleanup) (w w' : W) (generation : Z) :
  scanProvesAbsence c w = (Ok (Some generation), w') ->
  let target := Spec.Target (Cleanup.Spec c) in
  exists w1 pool proof status inventory,
    rtc env w w1 /\ rtc env w1 w' /\ stored w1 (PoolName target) = Some pool /\
    Metadata.UID (meta pool) = PoolUID target /\ PoolProtectionFinalizer ∈ Metadata.Finalizers (meta pool) /\
    Status.AbsenceProof (Cleanup.Status c) = Some proof /\
    PoolObject.status pool = Present status /\ PoolStatus.ObservedGeneration status = generation /\
    Metadata.Generation (meta pool) = generation /\ (AbsenceProof.RequiredGeneration proof <= generation)%Z /\
    PoolStatus.Inventory status = Some inventory /\ absent_from target inventory.
Proof.
  unfold scanProvesAbsence. intros H. apply io_bind_Ok in H as (pool & w1 & Hget & [H ->]%io_lift_Ok).
  apply Get_spec in Hget as (w0 & Hw0 & Hw1 & Hst). unfold scan_evidence in H. cbv zeta in H.
  rewrite !check_Ok, !reject_if_Ok in H. destruct H as (Hid & Hfence & H).
  apply bind_Ok in H as (proof & Hproof & H). apply bind_Ok in H as (status & Hstatus & H).
  destruct (Status.AbsenceProof (Cleanup.Status c)) as [proof'|]; [|done]. injection Hproof as ->.
  destruct (negb _ || (_ <? _)%Z) eqn:Egen; [done|].
  destruct (PoolStatus.Inventory _) as [inventory|] eqn:Einv; [|done].
  destruct (_ || (PoolInventory.Message inventory != "")) eqn:Evalid; [done|].
  destruct (_ || negb (inventoryProvesAbsence _ _ _ _ _)) eqn:Eabs; [done|]. injection H as <-.
  apply orb_false_iff in Hid as [Huid Hfin], Egen as [Hgen Hreq], Evalid as [Evalid _], Eabs as [_ Eabs].
  apply orb_false_iff in Evalid as [Hvalid Htrunc]. apply negb_false_iff in Huid, Hfin, Hgen, Hvalid, Eabs.
  apply inventoryProvesAbsence_sound in Eabs. unfold hasFinalizer in Hfin. go_inv.
  destruct (PoolObject.status pool) as [| |status'] eqn:Ep; simplify_eq/=.
  exists w0, pool, proof, status', inventory. unfold absent_from. split_and!; try done; simpl; lia.
Qed.
End scan.

(** ** A sample cleanup *)

Module SampleCleanup.
Definition target : CopyIdentity :=
  {| InstallationID := "cluster"; PoolName := "pool-a"; PoolUID := "pool-a-uid";
     VolumeID := "shiftpv-0123456789abcdef0123456789abcdef"; VolumeUID := "uid-1"; CopyID := "initial-uid-1";
     NodeName := "node-a"; Role := RoleServing |}.

Definition spec : Spec :=
  {| Spec.OperationID := "delete-uid-1"; Spec.Target := target; Spec.Reason := "VolumeDelete";
     Spec.Authority := {| Authority.Kind := "ShiftPVVolume"; Authority.Name := VolumeID target; Authority.UID := "uid-1" |} |}.

Definition executor : Executor :=
  {| Executor.Kind := "Node"; Executor.Namespace := "shiftpv"; Executor.PodName := "node-pod"; Executor.JobName := "";
     Executor.JobUID := ""; Executor.PodUID := "pod-uid"; Executor.NodeName := "node-a" |}.

Definition time : string := "2026-03-01T09:30:00Z".

Definition receipt : Receipt :=
  {| Receipt.OperationID := "delete-uid-1"; Receipt.ExecutorUID := "pod-uid"; Receipt.ObservedAt := time;
     Receipt.Retired := true; Receipt.Purged := true;
     Receipt.LocalReceiptDigest := "ba7816bf8f01cfea414140de5dae2223b00361a396177a9cb410ff61f20015ad" |}.

Definition proof (confirmed : bool) : AbsenceProof :=
  {| AbsenceProof.RequestID := "scan-1"; AbsenceProof.PoolName := "pool-a"; AbsenceProof.PoolUID := "pool-a-uid";
     AbsenceProof.RequiredGeneration := 4; AbsenceProof.ObservedGeneration := if confirmed then 5 else 0;
     AbsenceProof.Valid := confirmed; AbsenceProof.Complete := confirmed; AbsenceProof.Absent := confirmed;
     AbsenceProof.ConfirmedAt := if confirmed then time else "" |}.

Definition status (phase : string) (e : option Executor) (r : option Receipt) (p : option AbsenceProof) (settled : string) : Status :=
  {| Status.Phase := phase; Status.ObservedGeneration := 1; Status.Reason := ""; Status.Message := "";
     Status.LastTransitionTime := time; Status.Executor := e; Status.Receipt := r; Status.AbsenceProof := p;
     Status.SettledAt := settled |}.

Definition cleanup (s : Status) : Cleanup :=
  {| Cleanup.Name := cleanupName target; Cleanup.UID := "uid-1"; Cleanup.Spec := spec; Cleanup.Status := s |}.

Definition pending : Status := status PhasePending None None None "".
Definition running : Status := status PhaseRunning (Some executor) None None "".
Definition verifying : Status := status PhaseVerifying (Some executor) (Some receipt) None "".
Definition confirming : Status := status PhaseConfirmingAbsence (Some executor) (Some receipt) (Some (proof false)) "".
Definition completed : Status := status PhaseCompleted (Some executor) (Some receipt) (Some (proof true)) time.

Lemma step (s s' : Status) : validateTransition (cleanup s) s' = Ok tt -> journal_step (cleanup s) (cleanup s').
Proof. intros H. exact (journal_write (cleanup s) s' H). Qed.

Lemma run : rtc journal_step (cleanup pending) (cleanup completed).
Proof.
  apply (rtc_l _ _ (cleanup running)); [apply step; vm_compute; reflexivity|].
  apply (rtc_l _ _ (cleanup verifying)); [apply step; vm_compute; reflexivity|].
  apply (rtc_l _ _ (cleanup confirming)); [apply step; vm_compute; reflexivity|].
  apply rtc_once, step. vm_compute. reflexivity.
Qed.

(** The parent volume, and a store of parents. *)
Definition parent (s : Status) (finalizers : list string) : Parent :=
  {| parent_metadata := {| Metadata.Name := VolumeID target; Metadata.UID := "uid-1"; Metadata.ResourceVersion := "";
                           Metadata.Generation := 1; Metadata.Finalizers := finalizers;
                           Metadata.DeletionTimestamp := None; Metadata.Annotations := ∅ |};
     parent_kind := "ShiftPVVolume"; parent_journal := Present {| journal_Spec := spec; journal_Status := s |};
     parent_rest := "" |}.

Definition parents : ApiClient (ObjectStore.Store Parent) Parent := ObjectStore.client (fun _ => true).

(** Another client adds a finalizer between our read and our write. *)
Definition world : ObjectStore.Store Parent :=
  {| ObjectStore.objects := {[VolumeID target := (1%N, parent pending [VolumeProtectionFinalizer])]};
     ObjectStore.revision := 1;
     ObjectStore.queue := [(VolumeID target, parent pending [VolumeProtectionFinalizer; "other"])] |}.

Definition clock : io (ObjectStore.Store Parent) string := fun w => (Ok time, w).

(** A Pool whose inventory was taken after the fence. *)
Definition inventory : PoolInventory :=
  {| PoolInventory.ObservedAt := None; PoolInventory.Valid := true; PoolInventory.Truncated := false;
     PoolInventory.Reason := ""; PoolInventory.Message := "";
     PoolInventory.Copies := [{| CopyObservation.Marker := "placement-initial-uid-1.json";
       CopyObservation.Identity := Some target; CopyObservation.Present := false; CopyObservation.Published := false;
       CopyObservation.Problem := "" |}] |}.

Definition pool : PoolObject :=
  {| PoolObject.metadata := {| Metadata.Name := "pool-a"; Metadata.UID := "pool-a-uid"; Metadata.ResourceVersion := "";
                               Metadata.Generation := 5; Metadata.Finalizers := [PoolProtectionFinalizer];
                               Metadata.DeletionTimestamp := None; Metadata.Annotations := ∅ |};
     PoolObject.spec := {| PoolSpec.nodeName := "node-a"; PoolSpec.poolGroup := None; PoolSpec.mountPath := "/pool";
                           PoolSpec.mountPolicy := ""; PoolSpec.capacityPolicy := ""; PoolSpec.capacityLimit := "1";
                           PoolSpec.scanEpoch := Present 1%Z |};
     PoolObject.status := Present
       {| PoolStatus.RegistrationApproved := true; PoolStatus.CapacityProbeSupported := false;
          PoolStatus.CapacityProbe := None; PoolStatus.FilesystemTotalBytes := 0;
          PoolStatus.FilesystemAvailableBytes := None; PoolStatus.FilesystemAvailableInodes := None;
          PoolStatus.ObservedGeneration := 5; PoolStatus.LastProbeTime := None; PoolStatus.CapacityUnit := None;
          PoolStatus.MountIdentity := None; PoolStatus.Conditions := []; PoolStatus.Inventory := Some inventory |} |}.

Definition pools : ObjectStore.Store PoolObject :=
  {| ObjectStore.objects := {["pool-a" := (1%N, pool)]}; ObjectStore.revision := 1; ObjectStore.queue := [] |}.
End SampleCleanup.


Lemma UpdateStatus_atomic_witness :
  exists w', UpdateStatus SampleCleanup.parents SampleCleanup.parents SampleCleanup.clock 4
    (SampleCleanup.cleanup SampleCleanup.pending) SampleCleanup.running SampleCleanup.world = (Ok tt, w') /\
    exists r finalizer, updated SampleCleanup.parents SampleCleanup.parents (SampleCleanup.cleanup SampleCleanup.pending)
                          r finalizer SampleCleanup.world w'.
Proof.
  assert (exists w', UpdateStatus SampleCleanup.parents SampleCleanup.parents SampleCleanup.clock 4
    (SampleCleanup.cleanup SampleCleanup.pending) SampleCleanup.running SampleCleanup.world = (Ok tt, w')) as (w' & H)
    by (eexists; vm_compute; reflexivity).
  exists w'. split; [exact H|].
  destruct (UpdateStatus_atomic SampleCleanup.parents SampleCleanup.parents SampleCleanup.clock 4
    (fun r w v w' E => match E in _ = p return rtc _ w (snd p) with eq_refl => rtc_refl _ w end) _ _ _ _ H)
    as (r & finalizer & _ & Hu).
  exists r, finalizer. exact Hu.
Defined.

Lemma scanProvesAbsence_sound_witness :
  exists w', scanProvesAbsence (PC := ObjectStore.client (fun _ => true)) (SampleCleanup.cleanup SampleCleanup.confirming)
               SampleCleanup.pools = (Ok (Some 5%Z), w') /\
    exists inventory, absent_from SampleCleanup.target inventory.
Proof.
  assert (exists w', scanProvesAbsence (PC := ObjectStore.client (fun _ => true))
    (SampleCleanup.cleanup SampleCleanup.confirming) SampleCleanup.pools = (Ok (Some 5%Z), w')) as (w' & H)
    by (eexists; vm_compute; reflexivity).
  exists w'. split; [exact H|].
  destruct (scanProvesAbsence_sound _ _ _ _ H) as (w1 & pool & proof & status & inventory & Hrest).
  exists inventory. apply Hrest.
Defined.
