(* ===== verification/History.v ===== *)
(** * Settled Move history

    src/mobility/history/classify.go: when the recorded responsibilities of a Move
    are closed, so that nothing but metadata is left of it. *)

From S2P Require Import Prelude Bytes VolumeIdentity Apimachinery ApiServer VolumeState PoolApi VolumeRegistry PoolRegistry.
From S2P Require Import MoveApi MoveProtocol Capacity CleanupJournal CleanupProtocol.

Definition hasDestinationIntent (move : Move) : bool :=
  let status := Move.Status move in
  negb (is_nil (MoveStatus.IncomingCopy status)) || negb (is_nil (MoveStatus.DestinationCopy status)) ||
  (MoveStatus.CopyJobName status != "") || (MoveStatus.PromotionJobName status != "") ||
  (MoveStatus.CopyOperationID status != "") || (MoveStatus.PromotionOperationID status != "").

Definition validateCancelled (move : Move) (journal : option Cleanup) : result unit :=
  let status := Move.Status move in
  reject_if ((MoveSpec.ProtocolVersion (Move.Spec move) != MoveProtocolPreparedV1) ||
             MoveStatus.CapacityApproved status || hasDestinationIntent move || negb (is_nil journal) ||
             (MoveStatus.CleanupPhase status != "") || negb (MoveStatus.RollbackRequiredGeneration status =? 0)%Z ||
             (MoveStatus.RecoveryPhase status != "") || (MoveStatus.RecoveryOwner status != ""))
    (Errorf "cancelled Move retains execution or cleanup intent");;
  if negb (is_nil (MoveStatus.SourceCopy status)) then ValidatePreparedMovePlan move else Ok tt.

Definition validateSource (move : Move) : result unit :=
  reject_if (negb (some_and (MoveStatus.SourceCopy (Move.Status move)) (fun copy =>
               is_ok (Validate copy) && (Role copy == RoleServing) &&
               (VolumeID copy == MoveSpec.VolumeID (Move.Spec move)) &&
               (NodeName copy == MoveSpec.SourceNode (Move.Spec move)))))
    (Errorf "Move history lacks its exact source copy").

Definition validateTransaction (move : Move) : result unit :=
  let status := Move.Status move in
  source ← deref (MoveStatus.SourceCopy status);
  match MoveStatus.IncomingCopy status with
  | None => Err (Errorf "Move history lacks its exact destination transaction")
  | Some incoming =>
      reject_if ((MoveStatus.SourceBytes status <=? 0)%Z ||
                 (MoveStatus.DestinationNode status == MoveSpec.SourceNode (Move.Spec move)) ||
                 (MoveStatus.DestinationPoolUID status == PoolUID source))
        (Errorf "Move history lacks its exact destination transaction");;
      ValidateMoveTransactionIdentities move
        {| MoveDestinationAnchor.InstallationID := InstallationID source;
           MoveDestinationAnchor.PoolName := PoolName incoming;
           MoveDestinationAnchor.PoolUID := MoveStatus.DestinationPoolUID status;
           MoveDestinationAnchor.NodeName := MoveStatus.DestinationNode status;
           MoveDestinationAnchor.VolumeUID := VolumeUID source |}
  end.

Definition preparedRollbackWithoutCleanup (move : Move) (journal : option Cleanup) : bool :=
  (MoveSpec.ProtocolVersion (Move.Spec move) == MoveProtocolPreparedV1) && is_nil journal &&
  (MoveStatus.CleanupPhase (Move.Status move) == "") &&
  (0 <? MoveStatus.RollbackRequiredGeneration (Move.Status move))%Z.

Definition validateJournal (move : Move) (journal : option Cleanup) (reason : string) (target : CopyIdentity) : result unit :=
  match journal with
  | None => Err (Errorf "Move history lacks a completed cleanup journal")
  | Some journal =>
      reject_if (MoveStatus.CleanupPhase (Move.Status move) != PhaseCompleted)
        (Errorf "Move history lacks a completed cleanup journal");;
      let operation := if reason == "MoveRollback" then MoveRollbackOperationID (Move.UID move)
                       else MoveCleanupOperationID (Move.UID move) in
      let expected := {| Spec.OperationID := operation; Spec.Target := target; Spec.Reason := reason;
                         Spec.Authority := {| Authority.Kind := "ShiftPVMove"; Authority.Name := Move.Name move;
                                              Authority.UID := Move.UID move |} |} in
      reject_if ((Cleanup.UID journal != Move.UID move) || (Cleanup.Spec journal != expected))
        (Errorf "cleanup journal does not match the exact Move transaction");;
      CleanupJournal.ValidateSettled journal
  end.

Definition validateRecoveryArtifacts (move : Move) (journal : option Cleanup) : result unit :=
  let status := Move.Status move in
  reject_if (MoveStatus.CapacityApproved status || (MoveStatus.CapacityReason status != "RecoverySettled"))
    (Errorf "Move capacity settlement is incomplete");;
  (if MoveStatus.SettlementRequested status then validateTransaction move else Ok tt);;
  if (MoveStatus.RecoveryOwner status == MoveSpec.SourceNode (Move.Spec move)) && negb (hasDestinationIntent move) then
    reject_if (negb (is_nil journal) || (MoveStatus.CleanupPhase status != "") ||
               negb (MoveStatus.RollbackRequiredGeneration status =? 0)%Z)
      (Errorf "recovered Move needs independent rollback absence evidence")
  else
    validateTransaction move;;
    if MoveStatus.RecoveryOwner status == MoveStatus.DestinationNode status then
      source ← deref (MoveStatus.SourceCopy status);
      validateJournal move journal "MoveSource" source
    else if MoveStatus.RecoveryOwner status == MoveSpec.SourceNode (Move.Spec move) then
      if preparedRollbackWithoutCleanup move journal then Ok tt
      else match journal with
           | None => Err (Errorf "recovered Move lacks recorded rollback completion evidence")
           | Some recorded =>
               reject_if (MoveStatus.RollbackRequiredGeneration status <=? 0)%Z
                 (Errorf "recovered Move lacks recorded rollback completion evidence");;
               let target := Spec.Target (Cleanup.Spec recorded) in
               reject_if ((MoveStatus.IncomingCopy status != Some target) && (MoveStatus.DestinationCopy status != Some target))
                 (Errorf "rollback cleanup targets another transaction copy");;
               validateJournal move journal "MoveRollback" target;;
               proof ← deref (Status.AbsenceProof (Cleanup.Status recorded));
               reject_if (AbsenceProof.RequiredGeneration proof <? MoveStatus.RollbackRequiredGeneration status)%Z
                 (Errorf "rollback cleanup proof predates the rollback fence")
           end
    else Err (Errorf "Move recovery owner is neither transaction endpoint").

Definition validateRecovered (move : Move) (journal : option Cleanup) : result unit :=
  let status := Move.Status move in
  reject_if (((MoveSpec.Recovery (Move.Spec move) != "ResumeOwner") && negb (MoveStatus.SettlementRequested status)) ||
             (MoveStatus.RecoveryPhase status != "Recovered"))
    (Errorf "Move recovery or capacity settlement is incomplete");;
  validateRecoveryArtifacts move journal.

(** [history.ValidateSettled]: [current] is the volume's state, if it exists. *)
Definition ValidateSettled (move : Move) (current : option State) (journal : option Cleanup) : result unit :=
  let status := Move.Status move in
  let protocol := MoveSpec.ProtocolVersion (Move.Spec move) in
  reject_if (negb (ValidObjectName (Move.Name move)) || negb (ValidIdentityToken (Move.UID move)) ||
             negb (is_ok (ValidateID (MoveSpec.VolumeID (Move.Spec move)))) ||
             negb (ValidObjectName (MoveSpec.SourceNode (Move.Spec move))))
    (Errorf "Move history identity is incomplete");;
  reject_if ((protocol != "") && (protocol != MoveProtocolPreparedV1)) (Errorf "Move history protocol %q is unsupported");;
  reject_if (MoveStatus.SettlementRequested status && (protocol != MoveProtocolPreparedV1))
    (Errorf "workload retirement requires prepared Move history");;
  reject_if (negb (is_nil (MoveStatus.Preparation status)) ||
             some_and current (fun current => State.ActiveMove current == Move.Name move))
    (Errorf "Move still owns a preparation reservation or Volume reference");;
  if MoveStatus.Phase status == "Cancelled" then validateCancelled move journal
  else
    validateSource move;;
    (if protocol == MoveProtocolPreparedV1 then ValidatePreparedMovePlan move else Ok tt);;
    if MoveStatus.Phase status == "Succeeded" then
      validateTransaction move;;
      source ← deref (MoveStatus.SourceCopy status);
      validateJournal move journal "MoveSource" source
    else if MoveStatus.Phase status == "Blocked" then validateRecovered move journal
    else Err (Errorf "Move phase %q is not settled history").

Definition ValidateSettlementCompletion (move : Move) (journal : option Cleanup) : result unit :=
  let status := Move.Status move in
  reject_if (negb (MoveStatus.SettlementRequested status) || (MoveStatus.Phase status != "Blocked") ||
             (MoveStatus.RecoveryPhase status != "Completing") || negb (is_nil (MoveStatus.Preparation status)))
    (Errorf "Move is not completing workload retirement");;
  ValidatePreparedMovePlan move;;
  validateRecoveryArtifacts move journal.

(** ** Settled history owns nothing *)

Lemma cancelled_free (m : Move) (journal : option Cleanup) :
  validateCancelled m journal = Ok tt -> MoveStatus.CapacityApproved (Move.Status m) = false.
Proof. unfold validateCancelled. rewrite check_Ok, reject_if_Ok. intros [H _]. by go_inv. Qed.

Lemma recovered_free (m : Move) (journal : option Cleanup) :
  validateRecovered m journal = Ok tt -> MoveStatus.CapacityApproved (Move.Status m) = false.
Proof.
  unfold validateRecovered, validateRecoveryArtifacts. cbv zeta. rewrite !check_Ok, !reject_if_Ok.
  intros (_ & [H _]%orb_false_iff & _). done.
Qed.

Lemma journal_complete (m : Move) (journal : option Cleanup) (reason : string) (target : CopyIdentity) :
  validateJournal m journal reason target = Ok tt ->
  MoveStatus.CleanupPhase (Move.Status m) = "Completed" /\
  exists c, journal = Some c /\ CleanupJournal.ValidateSettled c = Ok tt /\ Spec.Target (Cleanup.Spec c) = target.
Proof.
  unfold validateJournal. destruct journal as [c|]; [|done]. cbv zeta. rewrite !check_Ok, !reject_if_Ok.
  intros (Hp & [_ Hs]%orb_false_iff & Hc). go_inv. split; [done|]. exists c. split_and!; try done. by rewrite Hs.
Qed.

(** Every journal that counts as settled proves that its target is gone. *)
Lemma settled_proof (c : Cleanup) : CleanupJournal.ValidateSettled c = Ok tt -> has_proof c.
Proof.
  unfold CleanupJournal.ValidateSettled. destruct (Spec.Validate _); [|done]. cbv zeta. rewrite check_Ok, reject_if_Ok.
  intros [H _]. rewrite !orb_false_iff in H. destruct H as [[[_ Hr] Hf] Hc]. apply negb_false_iff in Hr, Hf, Hc. done.
Qed.

(** A succeeded Move with complete cleanup releases its hold. *)
Lemma succeeded_settled (m : Move) :
  MoveStatus.Preparation (Move.Status m) = None -> MoveStatus.Phase (Move.Status m) = "Succeeded" ->
  (MoveSpec.ProtocolVersion (Move.Spec m) != "") && (MoveSpec.ProtocolVersion (Move.Spec m) != MoveProtocolPreparedV1) = false ->
  MoveStatus.CleanupPhase (Move.Status m) = "Completed" ->
  (MoveSpec.ProtocolVersion (Move.Spec m) = MoveProtocolPreparedV1 -> validatePreparedPlan m = Ok tt) ->
  MoveCleanupSettled m = true.
Proof.
  intros Hprep Hphase Hproto Hcleanup Hplan. unfold MoveCleanupSettled. cbv zeta.
  rewrite Hprep, Hphase, Hcleanup, Hproto. simpl. rewrite andb_false_r.
  destruct (bool_decide (MoveSpec.ProtocolVersion (Move.Spec m) = MoveProtocolPreparedV1)) eqn:E; [|done].
  apply bool_decide_eq_true in E. by rewrite (Hplan E).
Qed.

(** Settled history owns nothing and lost nothing.  A Move that
    [ValidateSettled] accepts has no entry in the capacity ledger, whatever the
    volumes are; and if it succeeded, the source copy that it replaced was purged
    and proven absent from its Pool. *)
Theorem settled_history_owns_nothing (volumes : gmap string State) (m : Move) (current : option State) (journal : option Cleanup) :
  ValidateSettled m current journal = Ok tt ->
  moveReservation volumes m = Ok ("", 0%Z) /\
  (MoveStatus.Phase (Move.Status m) = "Succeeded" ->
   exists source c, MoveStatus.SourceCopy (Move.Status m) = Some source /\ journal = Some c /\
     Spec.Target (Cleanup.Spec c) = source /\ has_proof c).
Proof.
  unfold ValidateSettled. cbv zeta. rewrite !check_Ok, !reject_if_Ok.
  intros (_ & Hproto & _ & [Hprep _]%orb_false_iff & H). apply negb_false_iff, is_nil_true in Hprep.
  unfold moveReservation. cbv zeta. rewrite Hprep.
  destruct (bool_decide (MoveStatus.Phase (Move.Status m) = "Cancelled")) eqn:Ec.
  { apply bool_decide_eq_true in Ec. rewrite (cancelled_free m journal H), orb_true_r. split; [done|]. by rewrite Ec. }
  rewrite !check_Ok in H. destruct H as (_ & Hplan & H).
  destruct (bool_decide (MoveStatus.Phase (Move.Status m) = "Succeeded")) eqn:Es.
  - apply check_Ok in H as [_ H]. apply bind_Ok in H as (source & Hsource & H).
    destruct (journal_complete m journal _ _ H) as (Hphase & c & -> & Hsettled & Htarget).
    destruct (MoveStatus.SourceCopy (Move.Status m)) as [source'|]; [|done]. injection Hsource as ->. split.
    + rewrite (succeeded_settled m); [done|done|by go_inv|done|done|].
      intros Ep. rewrite bool_decide_eq_true_2 in Hplan by done. unfold ValidatePreparedMovePlan in Hplan.
      by apply check_Ok in Hplan as [_ Hplan].
    + intros _. exists source, c. split_and!; try done. by apply settled_proof.
  - apply bool_decide_eq_false in Es. destruct (bool_decide (_ = "Blocked")); [|done].
    rewrite (recovered_free m journal H), orb_true_r. done.
Qed.

(** The sample Move, succeeded and cleaned. *)
Definition sample_succeeded : Move :=
  SampleMove.stage (MoveStatus.set_CleanupPhase
    (MoveStatus.set_SourceBytes (SampleMove.status "Succeeded" "" "" true true 0) 4096) PhaseCompleted).

Definition sample_journal : Cleanup :=
  {| Cleanup.Name := cleanupName SampleMove.source; Cleanup.UID := SampleMove.uid;
     Cleanup.Spec := {| Spec.OperationID := "cleanup-move-uid"; Spec.Target := SampleMove.source;
                        Spec.Reason := "MoveSource";
                        Spec.Authority := {| Authority.Kind := "ShiftPVMove"; Authority.Name := "move-1";
                                             Authority.UID := SampleMove.uid |} |};
     Cleanup.Status := SampleCleanup.status PhaseCompleted (Some SampleCleanup.executor)
       (Some {| Receipt.OperationID := "cleanup-move-uid"; Receipt.ExecutorUID := "pod-uid";
                Receipt.ObservedAt := SampleCleanup.time; Receipt.Retired := true; Receipt.Purged := true;
                Receipt.LocalReceiptDigest := Receipt.LocalReceiptDigest SampleCleanup.receipt |})
       (Some (SampleCleanup.proof true)) SampleCleanup.time |}.

Lemma settled_history_owns_nothing_witness :
  moveReservation SampleLedger.volumes sample_succeeded = Ok ("", 0%Z) /\ has_proof sample_journal.
Proof.
  destruct (settled_history_owns_nothing SampleLedger.volumes sample_succeeded None (Some sample_journal)) as [H1 H2];
    [vm_compute; reflexivity|].
  destruct (H2 eq_refl) as (source & c & _ & Hc & _ & Hp). split; [exact H1|]. injection Hc as ->. exact Hp.
Defined.
