(* ===== verification/HelperAuth.v ===== *)
(** * Helper authority

    src/kubernetes/helperauth: what a helper Pod rechecks against the API before it
    touches a Pool.  cleanup.go: the durable state of the volume or Move behind a
    cleanup; move.go: the Move, volume, Pool, installation and executor behind serving
    the source, copying, promoting and verifying.  installation.go of volumeapi gives
    the identity of the cluster.  The checks are reads of one shared world; the
    theorems say what they establish about that world when the stored volumes and
    Moves follow their protocols. *)

From S2P Require Import Prelude Bytes VolumeIdentity Apimachinery ApiServer VolumeState VolumeProtocol PoolApi.
From S2P Require Import VolumeRegistry PoolRegistry MoveApi MoveProtocol CleanupJournal.
From stdpp Require Import relations.

(** ** Kubernetes objects *)

(** The fields of [metav1.OwnerReference], [corev1.Pod] and [batchv1.Job] that are read. *)
Module OwnerReference.
Record OwnerReference := { APIVersion : string; Kind : string; Name : string; UID : string; Controller : option bool }.
End OwnerReference.
Notation OwnerReference := OwnerReference.OwnerReference.

Module Pod.
Record Pod := {
  UID : string;
  DeletionTimestamp : option Z;
  Labels : gmap string string;
  OwnerReferences : list OwnerReference;
  NodeName : string
}.
End Pod.
Notation Pod := Pod.Pod.

Module Job.
Record Job := {
  Name : string;
  UID : string;
  DeletionTimestamp : option Z;
  Labels : gmap string string;
  OwnerReferences : list OwnerReference
}.
End Job.
Notation Job := Job.Job.

Module MoveOptions.
Record MoveOptions := { MoveName : string; MoveUID : string; OperationID : string; Namespace : string; PodName : string }.
End MoveOptions.
Notation MoveOptions := MoveOptions.MoveOptions.

(** [owner.Controller != nil && *owner.Controller] *)
Definition controlling (owner : OwnerReference) : bool := some_and (OwnerReference.Controller owner) id.

(** [labels[key]] *)
Definition label (labels : gmap string string) (key : string) : string := default "" (labels !! key).

(** [*left == *right] behind checks that both are set. *)
Definition same_copy (left right : option CopyIdentity) : bool :=
  some_and left (fun l => some_and right (fun r => l == r)).

(** ** Decisions of cleanup.go *)

Definition movePostcommitCleanupPhase (move : Move) : bool :=
  (MoveStatus.Phase (Move.Status move) == "WaitingForDestinationPublish") ||
  (MoveStatus.Phase (Move.Status move) == "CleaningSource").

Definition moveRetiringUnderRecoveryOwner (move : Move) (owner : string) : bool :=
  (MoveStatus.Phase (Move.Status move) == "Blocked") &&
  ((MoveSpec.Recovery (Move.Spec move) == "ResumeOwner") || MoveStatus.SettlementRequested (Move.Status move)) &&
  (MoveStatus.RecoveryPhase (Move.Status move) == "Retiring") && (MoveStatus.RecoveryOwner (Move.Status move) == owner).

Definition destinationOwnsPublishedCopy (move : Move) (state : State) : bool :=
  (State.Phase state == PhaseReady) && (State.OwnerNode state == MoveStatus.DestinationNode (Move.Status move)) &&
  same_copy (State.CurrentCopy state) (MoveStatus.DestinationCopy (Move.Status move)) &&
  contains (State.PublishedNodes state) (MoveStatus.DestinationNode (Move.Status move)) &&
  negb (contains (State.PublishedNodes state) (MoveSpec.SourceNode (Move.Spec move))).

Definition moveOwnsDestinationArtifact (move : Move) (target : CopyIdentity) : bool :=
  some_and (MoveStatus.IncomingCopy (Move.Status move)) (fun copy => copy == target) ||
  some_and (MoveStatus.DestinationCopy (Move.Status move)) (fun copy => copy == target).

Definition verifyMoveRollbackCleanupAuthority (cleanup : Cleanup) (move : Move) (state : State) : result unit :=
  let spec := Cleanup.Spec cleanup in
  let target := Spec.Target spec in
  reject_if
    ((Spec.OperationID spec != MoveRollbackOperationID (Move.UID move)) || negb (moveOwnsDestinationArtifact move target) ||
     (NodeName target != MoveStatus.DestinationNode (Move.Status move)) ||
     (PoolUID target != MoveStatus.DestinationPoolUID (Move.Status move)) ||
     negb (moveRetiringUnderRecoveryOwner move (MoveSpec.SourceNode (Move.Spec move))) ||
     (State.Phase state != PhaseBlocked) || (State.OwnerNode state != MoveSpec.SourceNode (Move.Spec move)) ||
     negb (same_copy (State.CurrentCopy state) (MoveStatus.SourceCopy (Move.Status move))) ||
     contains (State.PublishedNodes state) (NodeName target))
    (Wrapf [ErrStateConflict] "move rollback cleanup authority changed: %w").

(** ** Decisions of move.go *)

Definition sourceServiceAuthorizes (move : Move) (options : MoveOptions) (identity : CopyIdentity) : bool :=
  (MoveSpec.ProtocolVersion (Move.Spec move) == MoveProtocolPreparedV1) && (Move.UID move == MoveOptions.MoveUID options) &&
  some_and (MoveStatus.SourceCopy (Move.Status move)) (fun copy => copy == identity) &&
  (MoveStatus.CopyOperationID (Move.Status move) == MoveOptions.OperationID options) &&
  ((MoveStatus.Phase (Move.Status move) == "WaitingForCapacity") || (MoveStatus.Phase (Move.Status move) == "Copying")).

Definition sourceVolumeAuthorizes (state : State) (move : Move) (identity : CopyIdentity) : bool :=
  (State.UID state == VolumeUID identity) && (State.Phase state == PhaseMoving) &&
  (State.ActiveMove state == Move.Name move) && (State.OwnerNode state == NodeName identity) &&
  some_and (State.CurrentCopy state) (fun copy => copy == identity) &&
  negb (contains (State.PublishedNodes state) (NodeName identity)).

Definition sourceExecutorAuthorizes (pod : Pod) (move : Move) (identity : CopyIdentity) : bool :=
  (Pod.UID pod != "") && is_nil (Pod.DeletionTimestamp pod) && (Pod.NodeName pod == NodeName identity) &&
  (label (Pod.Labels pod) "shiftpv.io/move-uid" == Move.UID move).

Definition podControlledByMove (pod : Pod) (move : Move) : bool :=
  existsb (fun owner =>
    controlling owner && (OwnerReference.APIVersion owner == "shiftpv.io/v1alpha1") &&
    (OwnerReference.Kind owner == "ShiftPVMove") && (OwnerReference.Name owner == Move.Name move) &&
    (OwnerReference.UID owner == Move.UID move)) (Pod.OwnerReferences pod).

Definition poolMatchesIdentity (pool : Pool) (identity : CopyIdentity) : bool :=
  (Pool.Name pool == PoolName identity) && (Pool.UID pool == PoolUID identity).

Definition moveTransactionIntact (move : Move) (options : MoveOptions) : bool :=
  (MoveSpec.ProtocolVersion (Move.Spec move) == MoveProtocolPreparedV1) && (Move.UID move == MoveOptions.MoveUID options) &&
  negb (is_nil (MoveStatus.SourceCopy (Move.Status move))) && negb (is_nil (MoveStatus.IncomingCopy (Move.Status move))).

Definition moveActionPhaseAllowed (move : Move) (action : string) : bool :=
  ((action == "copy") && ((MoveStatus.Phase (Move.Status move) == "WaitingForCapacity") ||
                          (MoveStatus.Phase (Move.Status move) == "Copying"))) ||
  ((action == "promote") && ((MoveStatus.Phase (Move.Status move) == "Copying") ||
                             (MoveStatus.Phase (Move.Status move) == "Promoting"))).

Definition moveActionOperationMatches (move : Move) (options : MoveOptions) (action : string) (target : CopyIdentity) : bool :=
  let incoming := some_and (MoveStatus.IncomingCopy (Move.Status move)) (fun copy => copy == target) in
  ((action == "copy") && (MoveStatus.CopyJobName (Move.Status move) != "") &&
   (MoveStatus.CopyOperationID (Move.Status move) == MoveOptions.OperationID options) && incoming) ||
  ((action == "promote") && (MoveStatus.PromotionJobName (Move.Status move) != "") &&
   (MoveStatus.PromotionOperationID (Move.Status move) == MoveOptions.OperationID options) && incoming &&
   negb (is_nil (MoveStatus.DestinationCopy (Move.Status move)))).

Definition moveSourceVolumeAuthorizes (state : State) (move : Move) (target : CopyIdentity) : bool :=
  (State.UID state == VolumeUID target) && (State.Phase state == PhaseMoving) &&
  (State.ActiveMove state == Move.Name move) && (State.OwnerNode state == MoveSpec.SourceNode (Move.Spec move)) &&
  same_copy (State.CurrentCopy state) (MoveStatus.SourceCopy (Move.Status move)) &&
  negb (contains (State.PublishedNodes state) (MoveSpec.SourceNode (Move.Spec move))).

Definition recoveryOwnerAuthorizes (move : Move) (options : MoveOptions) (identity : CopyIdentity) : bool :=
  (MoveSpec.ProtocolVersion (Move.Spec move) == MoveProtocolPreparedV1) && (Move.UID move == MoveOptions.MoveUID options) &&
  (MoveStatus.Phase (Move.Status move) == "Blocked") && (MoveStatus.RecoveryPhase (Move.Status move) == "Verifying") &&
  (MoveStatus.RecoveryOwner (Move.Status move) == NodeName identity).

Definition recoveryVolumeAuthorizes (state : State) (move : Move) (identity : CopyIdentity) : bool :=
  (State.UID state == VolumeUID identity) && (State.Phase state == PhaseBlocked) &&
  (State.ActiveMove state == Move.Name move) && (State.OwnerNode state == NodeName identity) &&
  some_and (State.CurrentCopy state) (fun copy => copy == identity).

(** The loop of [ownedMoveJob] over the owners of the Pod. *)
Definition controller_job (pod : Pod) : string * string :=
  match List.find (fun owner => controlling owner && (OwnerReference.Kind owner == "Job")) (Pod.OwnerReferences pod) with
  | Some owner => (OwnerReference.Name owner, OwnerReference.UID owner)
  | None => ("", "")
  end.

(** The loop of [ownedMoveJob] over the owners of the Job. *)
Definition job_of_move (job : Job) (move : Move) : bool :=
  existsb (fun owner =>
    controlling owner && (OwnerReference.Kind owner == "ShiftPVMove") && (OwnerReference.Name owner == Move.Name move) &&
    (OwnerReference.UID owner == Move.UID move)) (Job.OwnerReferences job).

Definition installationNamespace : string := "kube-system".

(** ** The checks *)

Section checks.
Context {AM : Apimachinery} {W : Type} {VC : ApiClient W VolumeObject} {MC : ApiClient W MoveObject}.
Context (get_namespace : string -> io W Metadata)
        (get_pool : string -> io W PoolObject) (clock : io W Z) (staleAfter : Z)
        (get_pod : string -> string -> io W Pod) (get_job : string -> string -> io W Job).

(** [Registry.InstallationID] *)
Definition registryInstallationID : io W string :=
  namespace ← wrap_error "read ShiftPV installation identity: %w" (get_namespace installationNamespace);
  io_reject_if ((Metadata.UID namespace == "") || negb (is_nil (Metadata.DeletionTimestamp namespace)))
    (Wrapf [ErrStateConflict] "%w: cluster identity is missing or terminating");;
  mret (Metadata.UID namespace).

Definition inventory_pool_for_identity (poolName uid nodeName : string) : io W Pool :=
  got ← catch (get_pool poolName);
  t ← clock;
  io_lift (InventoryPoolForIdentity IsNotFound poolName uid nodeName t staleAfter got).

Definition verifyUnpublishedDestination (move : Move) (state : State) : io W unit :=
  io_reject_if (negb (MoveRetiresUnpublishedSource move state))
    (Wrapf [ErrStateConflict] "unpublished destination settlement authority changed: %w");;
  copy ← io_lift (deref (MoveStatus.DestinationCopy (Move.Status move)));
  pool ← inventory_pool_for_identity (PoolName copy) (PoolUID copy) (NodeName copy);
  io_reject_if (negb (PoolHasUnpublishedCopy pool (Some copy) (MoveStatus.RollbackRequiredGeneration (Move.Status move))))
    (Wrapf [ErrStateConflict] "unpublished destination settlement inventory changed: %w").

Definition verifyMoveSourceCleanupAuthority (cleanup : Cleanup) (move : Move) (state : State) : io W unit :=
  let spec := Cleanup.Spec cleanup in
  io_reject_if ((Spec.OperationID spec != MoveCleanupOperationID (Move.UID move)) ||
                negb (some_and (MoveStatus.SourceCopy (Move.Status move)) (fun copy => copy == Spec.Target spec)) ||
                is_nil (MoveStatus.DestinationCopy (Move.Status move)))
    (Wrapf [ErrStateConflict] "move source cleanup identity changed: %w");;
  if MoveStatus.SettlementRequested (Move.Status move) then verifyUnpublishedDestination move state
  else
    let settling := movePostcommitCleanupPhase move ||
                    moveRetiringUnderRecoveryOwner move (MoveStatus.DestinationNode (Move.Status move)) in
    io_reject_if (negb settling || negb (destinationOwnsPublishedCopy move state))
      (Wrapf [ErrStateConflict] "move source cleanup authority changed: %w");;
    copy ← io_lift (deref (MoveStatus.DestinationCopy (Move.Status move)));
    destinationPool ← wrap_error "destination Pool publication proof unavailable: %w"
      (inventory_pool_for_identity (PoolName copy) (PoolUID copy) (NodeName copy));
    io_reject_if (negb (PoolHasPublishedCopy destinationPool (MoveStatus.DestinationCopy (Move.Status move))))
      (Wrapf [ErrStateConflict] "move source cleanup publication proof changed: %w").

Definition verifyMoveCleanupAuthority (cleanup : Cleanup) : io W unit :=
  let spec := Cleanup.Spec cleanup in
  move ← wrap_error "read move cleanup Move: %w" (GetMove (Authority.Name (Spec.Authority spec)));
  io_reject_if
    ((MoveSpec.ProtocolVersion (Move.Spec move) != MoveProtocolPreparedV1) ||
     (Move.UID move != Authority.UID (Spec.Authority spec)) ||
     (MoveSpec.VolumeID (Move.Spec move) != VolumeID (Spec.Target spec)) ||
     negb (some_and (MoveStatus.SourceCopy (Move.Status move)) (fun copy =>
             NodeName copy == MoveSpec.SourceNode (Move.Spec move))))
    (Wrapf [ErrStateConflict] "move cleanup authority changed: %w");;
  state ← wrap_error "read move cleanup volume state: %w" (GetState (MoveSpec.VolumeID (Move.Spec move)));
  io_reject_if ((State.UID state != VolumeUID (Spec.Target spec)) || (State.ActiveMove state != Move.Name move) ||
                is_nil (State.CurrentCopy state))
    (Wrapf [ErrStateConflict] "move cleanup volume authority changed: %w");;
  if Spec.Reason spec == "MoveSource" then verifyMoveSourceCleanupAuthority cleanup move state
  else if Spec.Reason spec == "MoveRollback" then io_lift (verifyMoveRollbackCleanupAuthority cleanup move state)
  else io_fail (Errorf "move cleanup reason %q is not implemented").

(** The volume branch of [VerifyCleanupAuthority]. *)
Definition verifyVolumeCleanupAuthority (cleanup : Cleanup) : io W unit :=
  let spec := Cleanup.Spec cleanup in
  state ← wrap_error "read volume cleanup state: %w" (GetState (Authority.Name (Spec.Authority spec)));
  io_reject_if
    ((State.UID state != Authority.UID (Spec.Authority spec)) ||
     negb (some_and (State.CurrentCopy state) (fun copy => copy == Spec.Target spec)) ||
     (State.Phase state != PhaseDeleting) || (State.DeletionOperationID state != Spec.OperationID spec) ||
     (State.ActiveMove state != "") || negb (length (State.PublishedNodes state) =? 0)%nat)
    (Wrapf [ErrStateConflict] "volume cleanup authority changed: %w");;
  if Spec.Reason spec == "CreationCancelled" then io_reject_if (negb (CancellingCreation state)) ErrStateConflict
  else io_reject_if ((Spec.Reason spec != "VolumeDelete") ||
                     (State.DeletionOperationID state == CreationCancellationPrefix +:+ State.UID state)) ErrStateConflict.

Definition VerifyCleanupAuthority (cleanup : Cleanup) : io W unit :=
  let kind := Authority.Kind (Spec.Authority (Cleanup.Spec cleanup)) in
  if kind == "ShiftPVVolume" then verifyVolumeCleanupAuthority cleanup
  else if kind == "ShiftPVMove" then verifyMoveCleanupAuthority cleanup
  else io_fail (Errorf "cleanup authority %q is not implemented").

Definition SourceAuthority (options : MoveOptions) (identity : CopyIdentity) : io W unit :=
  move ← wrap_error "read source service Move: %w" (GetMove (MoveOptions.MoveName options));
  io_reject_if (negb (sourceServiceAuthorizes move options identity))
    (Wrapf [ErrStateConflict] "source service authority changed: %w");;
  installationID ← wrap_error "read source installation identity: %w" registryInstallationID;
  io_reject_if (installationID != InstallationID identity)
    (Wrapf [ErrStateConflict] "source installation authority changed: %w");;
  pool ← wrap_error "read source Pool: %w" (pool_for_identity get_pool (PoolName identity) (PoolUID identity) (NodeName identity));
  io_reject_if (negb (poolMatchesIdentity pool identity))
    (Wrapf [ErrStateConflict] "source Pool authority changed: %w");;
  state ← wrap_error "read source volume state: %w" (GetState (VolumeID identity));
  io_reject_if (negb (sourceVolumeAuthorizes state move identity))
    (Wrapf [ErrStateConflict] "source volume authority changed: %w");;
  pod ← wrap_error "read source executor Pod: %w" (get_pod (MoveOptions.Namespace options) (MoveOptions.PodName options));
  io_reject_if (negb (sourceExecutorAuthorizes pod move identity))
    (Wrapf [ErrStateConflict] "source executor authority changed: %w");;
  io_reject_if (negb (podControlledByMove pod move))
    (Wrapf [ErrStateConflict] "source executor is not owned by the current Move: %w").

Definition ownedMoveJob (options : MoveOptions) (move : Move) (nodeName : string) : io W Job :=
  pod ← wrap_error "read move executor Pod: %w" (get_pod (MoveOptions.Namespace options) (MoveOptions.PodName options));
  io_reject_if (negb (is_nil (Pod.DeletionTimestamp pod)))
    (Wrapf [ErrStateConflict] "move executor Pod is terminating: %w");;
  io_reject_if (Pod.NodeName pod != nodeName)
    (Wrapf [ErrStateConflict] "move executor Pod runs on a different node: %w");;
  let '(jobName, jobUID) := controller_job pod in
  job ← wrap_error "read move executor Job: %w" (get_job (MoveOptions.Namespace options) jobName);
  io_reject_if ((jobUID == "") || (Job.UID job != jobUID) || negb (is_nil (Job.DeletionTimestamp job)) ||
                (label (Job.Labels job) "shiftpv.io/move-uid" != Move.UID move))
    (Wrapf [ErrStateConflict] "move executor is not authorized: %w");;
  if job_of_move job move then mret job else io_fail (Errorf "move Job is not owned by the exact ShiftPVMove").

Definition verifyOwnedMoveJob (options : MoveOptions) (move : Move) (nodeName : string) : io W unit :=
  ownedMoveJob options move nodeName;; mret tt.

Definition verifyMoveExecutor (options : MoveOptions) (move : Move) (action nodeName : string) : io W unit :=
  job ← ownedMoveJob options move nodeName;
  let wantedJob := if action == "promote" then MoveStatus.PromotionJobName (Move.Status move)
                   else MoveStatus.CopyJobName (Move.Status move) in
  io_reject_if (Job.Name job != wantedJob) (Errorf "move executor Job differs from the durable operation").

Definition MoveAuthority (options : MoveOptions) (action : string) (target : CopyIdentity) : io W unit :=
  move ← wrap_error "read Move: %w" (GetMove (MoveOptions.MoveName options));
  io_reject_if (negb (moveTransactionIntact move options)) (Wrapf [ErrStateConflict] "move authority changed: %w");;
  io_reject_if (negb (moveActionPhaseAllowed move action) || negb (moveActionOperationMatches move options action target))
    (Errorf "move operation is no longer authorized");;
  verifyMoveExecutor options move action (NodeName target);;
  installationID ← wrap_error "read installation identity: %w" registryInstallationID;
  io_reject_if (installationID != InstallationID target) (Wrapf [ErrStateConflict] "installation authority changed: %w");;
  pool ← wrap_error "read target Pool: %w" (pool_for_identity get_pool (PoolName target) (PoolUID target) (NodeName target));
  io_reject_if (negb (poolMatchesIdentity pool target)) (Wrapf [ErrStateConflict] "Pool authority changed: %w");;
  state ← wrap_error "read source volume state: %w" (GetState (MoveSpec.VolumeID (Move.Spec move)));
  io_reject_if (negb (moveSourceVolumeAuthorizes state move target))
    (Wrapf [ErrStateConflict] "source volume authority changed: %w").

Definition RecoveryAuthority (options : MoveOptions) (identity : CopyIdentity) : io W unit :=
  currentMove ← wrap_error "read recovery Move: %w" (GetMove (MoveOptions.MoveName options));
  io_reject_if (negb (recoveryOwnerAuthorizes currentMove options identity))
    (Wrapf [ErrStateConflict] "recovery authority changed: %w");;
  current ← wrap_error "read recovery volume state: %w" (GetState (MoveSpec.VolumeID (Move.Spec currentMove)));
  io_reject_if (negb (recoveryVolumeAuthorizes current currentMove identity))
    (Wrapf [ErrStateConflict] "recovery volume authority changed: %w");;
  io_reject_if (existsb (fun node => node != State.OwnerNode current) (State.PublishedNodes current))
    (Errorf "foreign publication remains");;
  verifyOwnedMoveJob options currentMove (NodeName identity);;
  installationID ← wrap_error "read recovery installation identity: %w" registryInstallationID;
  io_reject_if (installationID != InstallationID identity)
    (Wrapf [ErrStateConflict] "recovery installation authority changed: %w");;
  pool ← wrap_error "read recovery Pool: %w"
    (pool_for_identity get_pool (PoolName identity) (PoolUID identity) (NodeName identity));
  io_reject_if (negb (poolMatchesIdentity pool identity))
    (Wrapf [ErrStateConflict] "recovery Pool authority changed: %w").
End checks.

(** ** Moves that were approved *)

(** The Move was granted its execution once: its identities are those of a Move
    that held authority. *)
Definition executed (m : Move) : Prop := exists m0, authorized m0 /\ permanent m0 m.

(** Everything a Move records of a destination comes from its execution. *)
Definition origin (m : Move) : Prop := executed m \/ hasMoveDestinationIntent (Move.Status m) = false.

Lemma executed_kept (m m' : Move) : permanent m m' -> executed m -> executed m'.
Proof. intros Hp (m0 & Ha & Hm). exists m0. split; [done|]. by etrans. Qed.

(** The copies of an executed Move are apart from its source. *)
Lemma executed_elsewhere (m : Move) (target source : CopyIdentity) :
  executed m -> MoveStatus.SourceCopy (Move.Status m) = Some source ->
  MoveStatus.IncomingCopy (Move.Status m) = Some target \/ MoveStatus.DestinationCopy (Move.Status m) = Some target ->
  PoolUID target <> PoolUID source.
Proof.
  intros (m0 & (source0 & poolName & Hs0 & (_ & Hi & Hd & _) & Hne & _) & Hp) Hs Ht.
  rewrite (kept_set _ _ _ (permanent_source _ _ Hp)) in Hs by congruence.
  rewrite (kept_set _ _ _ (permanent_incoming _ _ Hp)), (kept_set _ _ _ (permanent_destination _ _ Hp)) in Ht by congruence.
  rewrite Hs0 in Hs. rewrite Hi, Hd in Ht. unfold MoveTransactionCopies in Ht. simpl in Ht. naive_solver.
Qed.

Lemma origin_elsewhere (m : Move) (target source : CopyIdentity) :
  origin m -> MoveStatus.SourceCopy (Move.Status m) = Some source ->
  MoveStatus.IncomingCopy (Move.Status m) = Some target \/ MoveStatus.DestinationCopy (Move.Status m) = Some target ->
  PoolUID target <> PoolUID source.
Proof.
  intros [He|Hno] Hs Ht; [by eapply executed_elsewhere|]. unfold hasMoveDestinationIntent in Hno. go_inv.
  by destruct Ht; congruence.
Qed.

(** A status write records a destination only with, or after, the approval. *)
Lemma transition_origin (m : Move) (next : MoveStatus) :
  authority m -> origin m -> validatePreparedTransition m next = Ok tt -> origin (Move.with_Status m next).
Proof.
  intros Ha Ho H. destruct (MoveStatus.CapacityApproved next) eqn:En.
  { left. destruct (MoveStatus.CapacityApproved (Move.Status m)) eqn:Em.
    - pose proof (authority_exact m Ha Em) as Hau. exists m. split; [done|].
      unfold validatePreparedTransition in H. rewrite !check_Ok in H. destruct H as (? & ? & ? & _).
      by apply preserveMoveIdentity_spec.
    - eexists. split; [by apply (acquire_authority m next)|]. done. }
  unfold validatePreparedTransition in H. rewrite !check_Ok in H. destruct H as (Hset & Hid & Hplan & Hprep & _ & _ & _ & Hpres).
  pose proof (preserveMoveIdentity_spec m next Hset Hid Hplan) as Hperm.
  destruct Ho as [He|Hno]; [left; by apply (executed_kept m)|]. right. simpl.
  unfold preservePreparation in Hpres. destruct (MoveStatus.Preparation (Move.Status m)) as [before|] eqn:Ep.
  - rewrite check_Ok in Hpres. destruct Hpres as [_ Hpres]. simpl in Hpres.
    destruct (MoveStatus.Preparation next) as [after|] eqn:Ea.
    + unfold ValidateMovePreparation in Hprep. simpl in Hprep. rewrite Ea in Hprep. rewrite !check_Ok, !reject_if_Ok in Hprep.
      destruct Hprep as (_ & _ & _ & [_ ?]%orb_false_iff & _). done.
    + rewrite En in Hpres. simpl in Hpres. destruct (hasMoveDestinationIntent next); [|done]. rewrite andb_false_r in Hpres.
      rewrite check_Ok, reject_if_Ok in Hpres. destruct Hpres as [Hpres _]. rewrite orb_true_r in Hpres. done.
  - unfold validatePreparationStart in Hpres. rewrite !check_Ok, !reject_if_Ok in Hpres. simpl in Hpres.
    destruct Hpres as (_ & Hpres & _). rewrite Hno in Hpres. destruct (MoveStatus.CapacityApproved (Move.Status m)) eqn:Em.
    + destruct (authority_exact m Ha Em) as (? & ? & _ & (_ & Hi & _) & _). unfold hasMoveDestinationIntent in Hno.
      by rewrite Hi in Hno.
    + by destruct (hasMoveDestinationIntent next).
Qed.

(** [origin] is kept by every write to a Move, as long as a cleanup is journaled
    only for a Move that has something to clean up. *)
Lemma move_step_origin (m m' : Move) :
  authority m -> origin m -> move_step m m' ->
  (hasMoveDestinationIntent (Move.Status m) = true \/
   MoveStatus.CleanupPhase (Move.Status m') = MoveStatus.CleanupPhase (Move.Status m)) ->
  origin m'.
Proof.
  intros Ha Ho Hs Hjournal. pose proof (move_step_permanent m m' Hs) as Hperm.
  destruct Ho as [He|Hno]; [left; by apply (executed_kept m)|].
  destruct Hs as [next hasCleanup _ _ H|copy bytes hasCleanup Hb H|phase|deleting version finalizers].
  - apply transition_origin; [done|by right|done].
  - right. exact Hno.
  - right. destruct Hjournal as [E|E]; [congruence|]. simpl in E. subst phase. unfold hasMoveDestinationIntent in *. exact Hno.
  - right. exact Hno.
Qed.

(** ** What the checks establish *)

Section established.
Context {AM : Apimachinery} {W : Type} {VC : ApiClient W VolumeObject} {MC : ApiClient W MoveObject}.
Context (get_namespace : string -> io W Metadata)
        (get_pool : string -> io W PoolObject) (clock : io W Z) (staleAfter : Z)
        (get_pod : string -> string -> io W Pod) (get_job : string -> string -> io W Job).

(** Other clients run, as either interface sees them. *)
Definition steps : relation W := rtc (fun w w' => env (Obj := VolumeObject) w w' \/ env (Obj := MoveObject) w w').

(** Every stored Move decodes to one whose destination comes from its execution. *)
Definition moves_ok (w : W) : Prop :=
  forall n o, stored w n = Some o -> exists m, moveFrom o = Ok m /\ origin m.

(** Reads change nothing: other clients may run meanwhile, and they follow the
    protocols of volumes and Moves. *)
Record cooperative : Prop := {
  pool_reads n w r w' : get_pool n w = (r, w') -> steps w w';
  clock_reads w r w' : clock w = (r, w') -> steps w w';
  namespace_reads n w r w' : get_namespace n w = (r, w') -> steps w w';
  pod_reads ns n w r w' : get_pod ns n w = (r, w') -> steps w w';
  job_reads ns n w r w' : get_job ns n w = (r, w') -> steps w w';
  volumes_kept w w' : steps w w' -> volumes_ok w -> volumes_ok w';
  moves_kept w w' : steps w w' -> moves_ok w -> moves_ok w'
}.

#[local] Instance steps_preorder : PreOrder steps.
Proof. unfold steps. apply _. Qed.

Lemma volume_steps (w w' : W) : rtc (env (Obj := VolumeObject)) w w' -> steps w w'.
Proof. apply rtc_subrel. intros ???. by left. Qed.

Lemma move_steps (w w' : W) : rtc (env (Obj := MoveObject)) w w' -> steps w w'.
Proof. apply rtc_subrel. intros ???. by right. Qed.

(** A volume or Move was stored, and decoded, at a moment between two worlds. *)
Definition held_volume (w w' : W) (n : string) (s : State) : Prop :=
  exists w1 o, steps w w1 /\ steps w1 w' /\ stored w1 n = Some o /\ stateFrom o = Ok s /\ (volumes_ok w1 -> invariant s).

Definition held_move (w w' : W) (n : string) (m : Move) : Prop :=
  exists w1 o, steps w w1 /\ steps w1 w' /\ stored w1 n = Some o /\ moveFrom o = Ok m /\ (moves_ok w1 -> origin m).

Lemma GetState_held (n : string) (w w' : W) (s : State) : GetState n w = (Ok s, w') -> held_volume w w' n s /\ steps w w'.
Proof.
  unfold GetState, getVolume. intros H. check_inv.
  match goal with H : Get _ _ = _ |- _ => apply Get_spec in H as Hget end.
  destruct Hget as (w1 & H1%volume_steps & H2%volume_steps & Hst). split; [|by etrans].
  exists w1, x. split_and!; try done. intros Hv. destruct (Hv _ _ Hst) as (s' & Hs' & Hi). congruence.
Qed.

Lemma GetMove_held (n : string) (w w' : W) (m : Move) : GetMove n w = (Ok m, w') -> held_move w w' n m /\ steps w w'.
Proof.
  unfold GetMove. intros H. check_inv.
  match goal with H : Get _ _ = _ |- _ => apply Get_spec in H as Hget end.
  destruct Hget as (w1 & H1%move_steps & H2%move_steps & Hst). split; [|by etrans].
  exists w1, x. split_and!; try done. intros Hv. destruct (Hv _ _ Hst) as (s' & Hs' & Hi). congruence.
Qed.

Lemma held_volume_invariant (w w' : W) (n : string) (s : State) :
  cooperative -> volumes_ok w -> held_volume w w' n s -> invariant s.
Proof. intros Hc Hv (w1 & o & H1 & _ & _ & _ & Hi). apply Hi. by apply (volumes_kept Hc w). Qed.

Lemma held_move_origin (w w' : W) (n : string) (m : Move) :
  cooperative -> moves_ok w -> held_move w w' n m -> origin m.
Proof. intros Hc Hv (w1 & o & H1 & _ & _ & _ & Hi). apply Hi. by apply (moves_kept Hc w). Qed.

Lemma held_volume_widen (w0 w w' w2 : W) (n : string) (s : State) :
  steps w0 w -> steps w' w2 -> held_volume w w' n s -> held_volume w0 w2 n s.
Proof. intros H0 H2 (w1 & o & H1 & H1' & H). exists w1, o. split; [by etrans|]. split; [by etrans|done]. Qed.

Lemma inventory_pool_reads (poolName uid nodeName : string) (w w' : W) (r : result Pool) :
  cooperative -> inventory_pool_for_identity get_pool clock staleAfter poolName uid nodeName w = (r, w') -> steps w w'.
Proof.
  intros Hc H. unfold inventory_pool_for_identity, mbind, io_bind, catch, io_lift in H.
  destruct (get_pool poolName w) as [got w1] eqn:E1. apply (pool_reads Hc) in E1.
  destruct (clock w1) as [[t|e] w2] eqn:E2; apply (clock_reads Hc) in E2; injection H as <- <-; by etrans.
Qed.

(** What the volume's record says about a copy that may be destroyed: the volume is
    being deleted, and nothing is published or moving; or another copy, in another
    Pool, is the volume's serving copy, and the target's node publishes nothing. *)
Definition expendable (s : State) (target : CopyIdentity) : Prop :=
  (State.Phase s = PhaseDeleting /\ State.CurrentCopy s = Some target /\ State.PublishedNodes s = [] /\ State.ActiveMove s = "") \/
  (exists copy, State.CurrentCopy s = Some copy /\ PoolUID copy <> PoolUID target) /\ serving s /\
    ~ NodeName target ∈ State.PublishedNodes s.

Lemma same_copy_true (left right : option CopyIdentity) :
  same_copy left right = true <-> exists copy, left = Some copy /\ right = Some copy.
Proof.
  unfold same_copy. rewrite some_and_true. setoid_rewrite some_and_true. setoid_rewrite bool_decide_eq_true. naive_solver.
Qed.

(** The phases in which a Move retires its source. *)
Definition retiring_source (m : Move) : Prop :=
  MoveStatus.Phase (Move.Status m) = "WaitingForDestinationPublish" \/
  MoveStatus.Phase (Move.Status m) = "CleaningSource" \/
  MoveStatus.Phase (Move.Status m) = "Blocked" /\ MoveStatus.RecoveryPhase (Move.Status m) = "Retiring" /\
    MoveStatus.RecoveryOwner (Move.Status m) = MoveStatus.DestinationNode (Move.Status m) /\
    MoveStatus.DestinationNode (Move.Status m) <> MoveSpec.SourceNode (Move.Spec m).

Lemma moveRetiringUnderRecoveryOwner_true (m : Move) (owner : string) :
  moveRetiringUnderRecoveryOwner m owner = true ->
  MoveStatus.Phase (Move.Status m) = "Blocked" /\ MoveStatus.RecoveryPhase (Move.Status m) = "Retiring" /\
  MoveStatus.RecoveryOwner (Move.Status m) = owner.
Proof. unfold moveRetiringUnderRecoveryOwner. rewrite !andb_true_iff. intros [[[? ?] ?] ?]. by go_inv. Qed.

Lemma unpublished_source (m : Move) (s : State) :
  MoveRetiresUnpublishedSource m s = true ->
  retiring_source m /\ State.Phase s = PhaseBlocked /\ State.PublishedNodes s = [] /\
  same_copy (State.CurrentCopy s) (MoveStatus.DestinationCopy (Move.Status m)) = true.
Proof.
  unfold MoveRetiresUnpublishedSource. case_match eqn:E1; [done|].
  destruct (MoveStatus.SourceCopy _) as [source|]; [|done]. destruct (MoveStatus.IncomingCopy _) as [incoming|]; [|done].
  case_match eqn:E2; [done|]. intros H. apply andb_true_iff in H as [_ H]. apply some_and_true in H as (copy & Hd & H).
  apply andb_true_iff in H as [H Hpub]. apply Nat.eqb_eq, length_zero_iff_nil in Hpub.
  go_inv. split; [right; right; by split_and!|]. do 2 (split; [done|]). apply same_copy_true. by exists copy.
Qed.

(** The decision behind a source cleanup. *)
Lemma source_cleanup_decision (cleanup : Cleanup) (m : Move) (s : State) (w w' : W) :
  cooperative -> verifyMoveSourceCleanupAuthority get_pool clock staleAfter cleanup m s w = (Ok tt, w') ->
  steps w w' /\ retiring_source m /\ State.Phase s <> "" /\
  MoveStatus.SourceCopy (Move.Status m) = Some (Spec.Target (Cleanup.Spec cleanup)) /\
  same_copy (State.CurrentCopy s) (MoveStatus.DestinationCopy (Move.Status m)) = true /\
  ~ MoveSpec.SourceNode (Move.Spec m) ∈ State.PublishedNodes s.
Proof.
  intros Hc H. unfold verifyMoveSourceCleanupAuthority in H. io_inv. go_inv.
  destruct (MoveStatus.SettlementRequested _).
  - unfold verifyUnpublishedDestination in H. io_inv. go_inv.
    destruct (unpublished_source m s) as (Hr & Hph & Hp & Hd); [done|]. rewrite Hp, Hph.
    split; [by eapply inventory_pool_reads|]. split_and!; [done..|]. by apply not_elem_of_nil.
  - check_inv. split; [by eapply inventory_pool_reads|]. unfold destinationOwnsPublishedCopy in *. go_inv.
    split; [|split; [by match goal with E : State.Phase s = _ |- _ => rewrite E end|done]].
    match goal with H : (_ || _)%bool = true |- _ => apply orb_true_iff in H as [Hph|Hre] end.
    { unfold movePostcommitCleanupPhase in Hph. apply orb_true_iff in Hph as [?|?]; go_inv; [by left|by right; left]. }
    right; right. apply moveRetiringUnderRecoveryOwner_true in Hre as (? & ? & ?). split_and!; congruence.
Qed.

(** The decision behind a rollback. *)
Lemma rollback_decision (cleanup : Cleanup) (m : Move) (s : State) :
  verifyMoveRollbackCleanupAuthority cleanup m s = Ok tt ->
  moveOwnsDestinationArtifact m (Spec.Target (Cleanup.Spec cleanup)) = true /\
  moveRetiringUnderRecoveryOwner m (MoveSpec.SourceNode (Move.Spec m)) = true /\
  State.Phase s = PhaseBlocked /\ same_copy (State.CurrentCopy s) (MoveStatus.SourceCopy (Move.Status m)) = true /\
  ~ NodeName (Spec.Target (Cleanup.Spec cleanup)) ∈ State.PublishedNodes s.
Proof. unfold verifyMoveRollbackCleanupAuthority. intros. by go_inv. Qed.

Lemma artifact_recorded (m : Move) (target : CopyIdentity) :
  moveOwnsDestinationArtifact m target = true ->
  MoveStatus.IncomingCopy (Move.Status m) = Some target \/ MoveStatus.DestinationCopy (Move.Status m) = Some target.
Proof. unfold moveOwnsDestinationArtifact. intros [H|H]%orb_true_iff; go_inv; auto. Qed.

(** A volume cleanup names its own volume. *)
Lemma volume_reason (c : Spec) :
  Spec.Validate c = Ok tt -> Spec.Reason c = "VolumeDelete" \/ Spec.Reason c = "CreationCancelled" ->
  Authority.Name (Spec.Authority c) = VolumeID (Spec.Target c) /\ Authority.UID (Spec.Authority c) = VolumeUID (Spec.Target c).
Proof.
  unfold Spec.Validate. rewrite !check_Ok. intros (_ & _ & H) Hr. rewrite (proj2 (orb_true_iff _ _)) in H by (rewrite !bool_decide_eq_true; tauto).
  rewrite !check_Ok, !reject_if_Ok in H. destruct H as [H _]. by go_inv.
Qed.

Lemma volume_cleanup_expendable (cleanup : Cleanup) (w w' : W) :
  Spec.Validate (Cleanup.Spec cleanup) = Ok tt -> verifyVolumeCleanupAuthority cleanup w = (Ok tt, w') ->
  exists s, held_volume w w' (VolumeID (Spec.Target (Cleanup.Spec cleanup))) s /\
    State.UID s = VolumeUID (Spec.Target (Cleanup.Spec cleanup)) /\ expendable s (Spec.Target (Cleanup.Spec cleanup)).
Proof.
  intros Hv H. unfold verifyVolumeCleanupAuthority in H. check_inv.
  assert (w' = x0 /\ (Spec.Reason (Cleanup.Spec cleanup) = "VolumeDelete" \/ Spec.Reason (Cleanup.Spec cleanup) = "CreationCancelled"))
    as [-> Hr] by (case_bool_decide; check_inv; go_inv; auto).
  destruct (volume_reason _ Hv Hr) as [Hname Huid]. rewrite Hname in *.
  match goal with H : GetState _ _ = _ |- _ => apply GetState_held in H as [Hs _] end.
  go_inv. match goal with H : length _ = 0%nat |- _ => apply length_zero_iff_nil in H end.
  exists x. split; [done|]. split; [congruence|]. left. by split_and!.
Qed.

Lemma move_cleanup_expendable (cleanup : Cleanup) (w w' : W) :
  cooperative -> volumes_ok w -> moves_ok w ->
  verifyMoveCleanupAuthority get_pool clock staleAfter cleanup w = (Ok tt, w') ->
  exists s, held_volume w w' (VolumeID (Spec.Target (Cleanup.Spec cleanup))) s /\
    State.UID s = VolumeUID (Spec.Target (Cleanup.Spec cleanup)) /\ expendable s (Spec.Target (Cleanup.Spec cleanup)).
Proof.
  intros Hc Hv Hm H. unfold verifyMoveCleanupAuthority in H. check_inv. go_inv. rename x into m, x3 into s, x0 into w0, x4 into w1.
  destruct (GetMove_held _ w w0 m ltac:(eassumption)) as [Hmove Hw0].
  destruct (GetState_held _ w0 w1 s ltac:(eassumption)) as [Hs Hw1].
  pose proof (held_move_origin w w0 _ m Hc Hm Hmove) as Ho.
  pose proof (held_volume_invariant w0 w1 _ s Hc (volumes_kept Hc _ _ Hw0 Hv) Hs) as Hi.
  assert (steps w1 w' /\ expendable s (Spec.Target (Cleanup.Spec cleanup))) as [Hw2 He].
  2:{ exists s. split; [|done]. apply (held_volume_widen w w0 w1 w'); [done..|congruence]. }
  case_bool_decide; [|case_bool_decide; [|done]]. 
  - destruct (source_cleanup_decision cleanup m s w1 w' Hc H) as (Hsteps & _ & Hph & Hsource & (copy & Hcur & Hdst)%same_copy_true & Hpub).
    split; [done|]. right. split; [|split; [by apply (inv_serving s Hi)|congruence]].
    exists copy. split; [done|]. apply (origin_elsewhere m); auto.
  - apply io_lift_Ok in H as [H ->]. destruct (rollback_decision cleanup m s H) as (Ha & _ & Hph & (copy & Hcur & Hsrc)%same_copy_true & Hpub).
    split; [done|]. right. split; [|split; [apply (inv_serving s Hi); by rewrite Hph|done]].
    exists copy. split; [done|]. apply not_eq_sym, (origin_elsewhere m); auto using artifact_recorded.
Qed.

(** C13: A cleanup that passes its authority check destroys nothing that serves.  While
    other clients follow the protocols of volumes and Moves, a passed check means that
    at some moment during the check the stored record of the target's volume, under
    the target's volume UID, either was being deleted, with the target as its copy and
    nothing published or moving, or named another copy, in another Pool, as its valid
    serving copy on its owner, with nothing published on the target's node. *)
Theorem cleanup_authority_spares (cleanup : Cleanup) (w w' : W) :
  cooperative -> volumes_ok w -> moves_ok w -> Spec.Validate (Cleanup.Spec cleanup) = Ok tt ->
  VerifyCleanupAuthority get_pool clock staleAfter cleanup w = (Ok tt, w') ->
  exists w1 o s, steps w w1 /\ steps w1 w' /\ stored w1 (VolumeID (Spec.Target (Cleanup.Spec cleanup))) = Some o /\
    stateFrom o = Ok s /\ State.UID s = VolumeUID (Spec.Target (Cleanup.Spec cleanup)) /\
    expendable s (Spec.Target (Cleanup.Spec cleanup)).
Proof.
  intros Hc Hv Hm Hspec H. unfold VerifyCleanupAuthority in H.
  assert (exists s, held_volume w w' (VolumeID (Spec.Target (Cleanup.Spec cleanup))) s /\
    State.UID s = VolumeUID (Spec.Target (Cleanup.Spec cleanup)) /\ expendable s (Spec.Target (Cleanup.Spec cleanup)))
    as (s & (w1 & o & H1 & H2 & Hst & Hdec & _) & Huid & He).
  { case_bool_decide; [by apply volume_cleanup_expendable|]. case_bool_decide; [by apply move_cleanup_expendable|done]. }
  exists w1, o, s. by split_and!.
Qed.

(** ** The executor *)

(** The Pod is alive on [nodeName], and its controlling Job is alive and belongs to
    the exact Move. *)
Definition executor_of (m : Move) (nodeName : string) (pod : Pod) (job : Job) : Prop :=
  Pod.DeletionTimestamp pod = None /\ Pod.NodeName pod = nodeName /\
  Job.UID job <> "" /\ (controller_job pod).2 = Job.UID job /\ Job.DeletionTimestamp job = None /\
  label (Job.Labels job) "shiftpv.io/move-uid" = Move.UID m /\ job_of_move job m = true.

Lemma ownedMoveJob_executor (options : MoveOptions) (m : Move) (nodeName : string) (w w' : W) (job : Job) :
  cooperative -> ownedMoveJob get_pod get_job options m nodeName w = (Ok job, w') ->
  steps w w' /\ exists pod w1,
    get_pod (MoveOptions.Namespace options) (MoveOptions.PodName options) w = (Ok pod, w1) /\ executor_of m nodeName pod job.
Proof.
  intros Hc H. unfold ownedMoveJob in H. check_inv. destruct (controller_job _) as [jobName jobUID] eqn:Ej. check_inv.
  destruct (job_of_move _ m) eqn:Eo; [|done]. injection H as <- <-.
  split; [etrans; [by eapply (pod_reads Hc)|by eapply (job_reads Hc)]|]. do 2 eexists. split; [eassumption|]. go_inv.
  unfold executor_of. rewrite Ej. by split_and!.
Qed.

Lemma InstallationID_reads (w w' : W) (id : string) :
  cooperative -> registryInstallationID get_namespace w = (Ok id, w') -> steps w w'.
Proof. intros Hc H. unfold registryInstallationID in H. check_inv. injection H as <- <-. by eapply (namespace_reads Hc). Qed.

Lemma pool_for_identity_reads (poolName uid nodeName : string) (w w' : W) (pool : Pool) :
  cooperative -> pool_for_identity get_pool poolName uid nodeName w = (Ok pool, w') -> steps w w'.
Proof.
  intros Hc H. unfold pool_for_identity, mbind, io_bind, catch, io_lift in H.
  destruct (get_pool poolName w) as [got w1] eqn:E1. apply (pool_reads Hc) in E1. by injection H as _ <-.
Qed.

(** The copy a transfer writes is the Move's incoming copy. *)
Lemma operation_target (m : Move) (options : MoveOptions) (action : string) (target : CopyIdentity) :
  moveActionOperationMatches m options action target = true -> MoveStatus.IncomingCopy (Move.Status m) = Some target.
Proof. unfold moveActionOperationMatches. intros [H|H]%orb_true_iff; by go_inv. Qed.

(** A transfer writes only beside the serving copy.  While other clients follow the
    protocols, a passed check of a copy or a promotion means: the stored Move of the
    expected UID records the target as its incoming copy; the stored volume was Moving
    under that Move, with a valid serving copy in another Pool that nothing on the
    source node publishes; and the helper ran in a live Pod on the target's node,
    controlled by the live Job that this very Move recorded for the action. *)
Theorem transfer_authority_sound (options : MoveOptions) (action : string) (target : CopyIdentity) (w w' : W) :
  cooperative -> volumes_ok w -> moves_ok w ->
  MoveAuthority get_namespace get_pool get_pod get_job options action target w = (Ok tt, w') ->
  exists m s copy pod job w1 w2,
    held_move w w' (MoveOptions.MoveName options) m /\ Move.UID m = MoveOptions.MoveUID options /\
    MoveStatus.IncomingCopy (Move.Status m) = Some target /\
    held_volume w w' (MoveSpec.VolumeID (Move.Spec m)) s /\ State.UID s = VolumeUID target /\
    State.Phase s = PhaseMoving /\ State.ActiveMove s = Move.Name m /\
    serving s /\ State.CurrentCopy s = Some copy /\ PoolUID target <> PoolUID copy /\
    ~ NodeName copy ∈ State.PublishedNodes s /\
    get_pod (MoveOptions.Namespace options) (MoveOptions.PodName options) w1 = (Ok pod, w2) /\
    executor_of m (NodeName target) pod job /\
    Job.Name job = (if action == "promote" then MoveStatus.PromotionJobName (Move.Status m)
                    else MoveStatus.CopyJobName (Move.Status m)).
Proof.
  intros Hc Hv Hm H. unfold MoveAuthority, verifyMoveExecutor in H. check_inv.
  rename x into m, x15 into s, x17 into job, x0 into w1, x18 into w2, x8 into w3, x12 into w4, x16 into w5.
  destruct (GetMove_held _ w w1 m ltac:(eassumption)) as [Hmove Hw1].
  destruct (ownedMoveJob_executor options m _ w1 w2 job Hc ltac:(eassumption)) as (Hw2 & pod & wp & Hpod & Hexec).
  assert (steps w2 w4) as Hw4 by (etrans; [by eapply InstallationID_reads|by eapply pool_for_identity_reads]).
  destruct (GetState_held _ w4 w5 s ltac:(eassumption)) as [Hs Hw5].
  assert (steps w w4) as Hw by (etrans; [done|]; by etrans).
  pose proof (held_move_origin w w1 _ m Hc Hm Hmove) as Ho.
  pose proof (held_volume_invariant w4 w5 _ s Hc (volumes_kept Hc _ _ Hw Hv) Hs) as Hi.
  unfold moveSourceVolumeAuthorizes, moveTransactionIntact in *. go_inv.
  match goal with H : same_copy _ _ = true |- _ => apply same_copy_true in H as (copy & Hcur & Hsrc) end.
  match goal with H : moveActionOperationMatches _ _ _ _ = true |- _ => apply operation_target in H as Htarget end.
  assert (serving s) as Hserv by (apply (inv_serving s Hi); by match goal with E : State.Phase s = _ |- _ => rewrite E end).
  assert (NodeName copy = MoveSpec.SourceNode (Move.Spec m)) as Hnode.
  { destruct Hserv as (c & Hc' & _ & _ & _ & Hn). congruence. }
  exists m, s, copy, pod, job, w1, wp. rewrite Hnode. split_and!; try done.
  - destruct Hmove as (wm & o & ? & ? & ?). exists wm, o. split; [done|]. split; [|done]. etrans; [done|]. etrans; [exact Hw2|]. by etrans.
  - by apply (held_volume_widen w w4 w5 w5).
  - apply (origin_elsewhere m); auto.
Qed.

(** ** One kind of helper at a time *)

(** The checks a helper of a Move runs. *)
Inductive helper :=
| ServeSource (options : MoveOptions) (identity : CopyIdentity)
| Transfer (options : MoveOptions) (action : string) (target : CopyIdentity)
| VerifyOwner (options : MoveOptions) (identity : CopyIdentity)
| CleanUp (cleanup : Cleanup).

Definition check (h : helper) : io W unit :=
  match h with
  | ServeSource options identity => SourceAuthority get_namespace get_pool get_pod options identity
  | Transfer options action target => MoveAuthority get_namespace get_pool get_pod get_job options action target
  | VerifyOwner options identity => RecoveryAuthority get_namespace get_pool get_pod get_job options identity
  | CleanUp cleanup => VerifyCleanupAuthority get_pool clock staleAfter cleanup
  end.

(** The Move a helper reads. *)
Definition move_name (h : helper) : string :=
  match h with
  | ServeSource options _ | Transfer options _ _ | VerifyOwner options _ => MoveOptions.MoveName options
  | CleanUp cleanup => Authority.Name (Spec.Authority (Cleanup.Spec cleanup))
  end.

(** What a helper is for: moving data, verifying a blocked Move's owner, removing the
    destination's artifacts, or removing the source.  Helpers that read no Move have
    no purpose here. *)
Inductive purpose := Moving | Verifying | RollingBack | RetiringSource.

Definition purpose_of (h : helper) : option purpose :=
  match h with
  | ServeSource _ _ | Transfer _ _ _ => Some Moving
  | VerifyOwner _ _ => Some Verifying
  | CleanUp cleanup =>
      if Authority.Kind (Spec.Authority (Cleanup.Spec cleanup)) == "ShiftPVMove" then
        Some (if Spec.Reason (Cleanup.Spec cleanup) == "MoveSource" then RetiringSource else RollingBack)
      else None
  end.

(** The Move's record admits a purpose. *)
Definition admits (m : Move) (p : purpose) : Prop :=
  match p with
  | Moving => MoveStatus.Phase (Move.Status m) = "WaitingForCapacity" \/ MoveStatus.Phase (Move.Status m) = "Copying" \/
              MoveStatus.Phase (Move.Status m) = "Promoting"
  | Verifying => MoveStatus.Phase (Move.Status m) = "Blocked" /\ MoveStatus.RecoveryPhase (Move.Status m) = "Verifying"
  | RollingBack => MoveStatus.Phase (Move.Status m) = "Blocked" /\ MoveStatus.RecoveryPhase (Move.Status m) = "Retiring" /\
                   MoveStatus.RecoveryOwner (Move.Status m) = MoveSpec.SourceNode (Move.Spec m)
  | RetiringSource => retiring_source m
  end.

Lemma admits_unique (m : Move) (p q : purpose) : admits m p -> admits m q -> p = q.
Proof.
  unfold admits, retiring_source. destruct p, q; try done; intuition congruence.
Qed.

(** Two reads of the same world give the same Move. *)
Ltac same_read :=
  match goal with
  | H : GetMove _ ?w = (Ok ?m, _), H' : GetMove _ ?w = (Ok ?x, _) |- _ => rewrite H in H'; injection H' as <- <-
  end.

Lemma check_admits (h : helper) (p : purpose) (m : Move) (w w1 w' : W) :
  cooperative -> purpose_of h = Some p -> GetMove (move_name h) w = (Ok m, w1) -> check h w = (Ok tt, w') -> admits m p.
Proof.
  intros Hc Hp Hm H. destruct h as [options identity|options action target|options identity|cleanup]; simpl in *.
  - injection Hp as <-. unfold SourceAuthority in H. check_inv. same_read. unfold sourceServiceAuthorizes in *. go_inv.
    match goal with H : (_ || _)%bool = true |- _ => apply orb_true_iff in H as [?|?]; go_inv end; simpl; auto.
  - injection Hp as <-. unfold MoveAuthority in H. check_inv. same_read. go_inv. unfold moveActionPhaseAllowed in *.
    match goal with H : (_ || _)%bool = true |- _ => apply orb_true_iff in H as [?|?]; go_inv end;
      match goal with H : (_ || _)%bool = true |- _ => apply orb_true_iff in H as [?|?]; go_inv end; simpl; auto.
  - injection Hp as <-. unfold RecoveryAuthority in H. check_inv. same_read. unfold recoveryOwnerAuthorizes in *. by go_inv.
  - destruct (_ == "ShiftPVMove") eqn:Ek in Hp; [|done]. injection Hp as <-. go_inv. unfold VerifyCleanupAuthority in H.
    rewrite Ek in H. go_eval. unfold verifyMoveCleanupAuthority in H. check_inv. same_read.
    destruct (Spec.Reason (Cleanup.Spec cleanup) == "MoveSource");
      [by apply (source_cleanup_decision _ _ _ _ _ Hc) in H as (_ & ? & _)|].
    destruct (Spec.Reason (Cleanup.Spec cleanup) == "MoveRollback"); [|done]. apply io_lift_Ok in H as [(_ & Hr & _)%rollback_decision _].
    by apply moveRetiringUnderRecoveryOwner_true.
Qed.

(** Helpers of different purposes exclude each other.  One version of a Move's
    record never passes the checks of two helpers that move its data, verify its
    owner, roll its destination back or retire its source, unless both have the same
    purpose: whatever the volume, the Pools and the executors say at the two times,
    no helper may delete what another, authorized by the same record, still copies
    or verifies, and source and destination are never both being removed. *)
Theorem helpers_exclusive (h1 h2 : helper) (p1 p2 : purpose) (m : Move) (w1 r1 w1' w2 r2 w2' : W) :
  cooperative -> purpose_of h1 = Some p1 -> purpose_of h2 = Some p2 ->
  GetMove (move_name h1) w1 = (Ok m, r1) -> GetMove (move_name h2) w2 = (Ok m, r2) ->
  check h1 w1 = (Ok tt, w1') -> check h2 w2 = (Ok tt, w2') -> p1 = p2.
Proof. intros Hc Hp1 Hp2 Hm1 Hm2 H1 H2. by apply (admits_unique m); eapply check_admits. Qed.
End established.

(** ** A sample cluster *)

(** A cluster nobody writes to, read through a lookup function. *)
Module Snapshot.
Section snapshot.
Context {W Obj : Type} {AO : ApiObject Obj} (lookup : W -> string -> option Obj).
Hypothesis lookup_name : forall w n o, lookup w n = Some o -> Metadata.Name (meta o) = n.

Definition still : relation W := fun _ _ => False.
Definition absent : error := Errorf "not found".

Lemma rtc_still (w w' : W) : rtc still w w' -> w' = w.
Proof. intros H. by inversion H. Qed.

Program Definition client : ApiClient W Obj := {|
  stored := lookup;
  env := still;
  IsNotFound e := error_is e absent;
  IsConflict e := false;
  Get n w := (match lookup w n with Some o => Ok o | None => Err absent end, w);
  Write _ _ w := (Err (Errorf "read only"), w);
  RetryOnConflict attempt w := attempt w
|}.
Next Obligation. done. Qed.
Next Obligation. done. Qed.
Next Obligation. exact lookup_name. Qed.
Next Obligation.
  intros n w r w' E. injection E as <- <-. exists w. split; [done|]. split; [done|]. by destruct (lookup w n).
Qed.
Next Obligation. intros w w' n a b E%rtc_still Ha Hb _. subst w'. congruence. Qed.
Next Obligation. done. Qed.
Next Obligation. done. Qed.
Next Obligation. intros attempt w r w' E. by apply attempt_last. Qed.
End snapshot.
End Snapshot.

Module SampleHelper.
Import SampleMove.

Record cluster := { volumes : VolumeObject; moves : MoveObject }.

Definition named {Obj : Type} `{ApiObject Obj} (o : Obj) (n : string) : option Obj :=
  if Metadata.Name (meta o) == n then Some o else None.

Lemma named_name {Obj : Type} `{ApiObject Obj} (f : cluster -> Obj) (w : cluster) (n : string) (o : Obj) :
  named (f w) n = Some o -> Metadata.Name (meta o) = n.
Proof. unfold named. case_bool_decide; [|done]. by intros [= <-]. Qed.

#[export] Instance volume_client : ApiClient cluster VolumeObject :=
  Snapshot.client (fun w => named (volumes w)) (named_name volumes).
#[export] Instance move_client : ApiClient cluster MoveObject :=
  Snapshot.client (fun w => named (moves w)) (named_name moves).

(** The Move of [SampleMove], told to resume its owner, in a given status. *)
Definition move (phase recovery owner job : string) : MoveObject :=
  let object := {| MoveObject.metadata := MoveObject.metadata object;
                   MoveObject.spec := {| MoveObject.volumeID := volume; MoveObject.sourceNode := "node-a";
                                         MoveObject.recovery := "ResumeOwner";
                                         MoveObject.protocolVersion := Present MoveProtocolPreparedV1 |};
                   MoveObject.status := no_status |} in
  let s := status phase recovery "" true true 0 in
  setMoveStatus object
    {| MoveStatus.Preparation := None; MoveStatus.PersistentVolumeUID := MoveStatus.PersistentVolumeUID s;
       MoveStatus.ClaimUID := MoveStatus.ClaimUID s; MoveStatus.PlacementPodUID := MoveStatus.PlacementPodUID s;
       MoveStatus.Phase := phase; MoveStatus.Reason := ""; MoveStatus.Message := ""; MoveStatus.LastTransitionTime := "";
       MoveStatus.LastProgressTime := ""; MoveStatus.PersistentVolumeName := "pv"; MoveStatus.ClaimNamespace := "default";
       MoveStatus.ClaimName := "claim"; MoveStatus.ConsumerName := "app-0"; MoveStatus.ConsumerUID := "app-uid";
       MoveStatus.ReplacementName := ""; MoveStatus.ReplacementUID := ""; MoveStatus.DestinationNode := "node-b";
       MoveStatus.DestinationPoolUID := "pool-b-uid"; MoveStatus.SourceBytes := 0; MoveStatus.CapacityApproved := true;
       MoveStatus.CapacityReason := ""; MoveStatus.CandidateNodes := []; MoveStatus.EvictionRequested := false;
       MoveStatus.CopyJobName := job; MoveStatus.PromotionJobName := ""; MoveStatus.CleanupPhase := "";
       MoveStatus.CopyOperationID := "copy-move-uid"; MoveStatus.PromotionOperationID := "promote-move-uid";
       MoveStatus.SourceCopy := Some source; MoveStatus.IncomingCopy := Some copies.1;
       MoveStatus.DestinationCopy := Some copies.2; MoveStatus.RollbackRequiredGeneration := 0;
       MoveStatus.SettlementRequested := false; MoveStatus.RecoveryPhase := recovery; MoveStatus.RecoveryOwner := owner;
       MoveStatus.RecoveryReason := ""; MoveStatus.RecoveryMessage := "" |}.

(** Its volume, owned by the source. *)
Definition volume_in (phase : string) (published : list string) : VolumeObject :=
  {| metadata := {| Metadata.Name := volume; Metadata.UID := "uid-1"; Metadata.ResourceVersion := "7";
                    Metadata.Generation := 1; Metadata.Finalizers := [VolumeProtectionFinalizer];
                    Metadata.DeletionTimestamp := None; Metadata.Annotations := ∅ |};
     spec := spec sample_object;
     VolumeState.status := VolumeState.status (setState sample_object
       (State.with_status sample_created phase "node-a" "move-1" published "create-uid-1" "" (Some source) None None)) |}.

Definition blocked_cluster : cluster :=
  {| volumes := volume_in PhaseBlocked ["node-a"]; moves := move "Blocked" "Retiring" "node-a" "" |}.
Definition copying_cluster : cluster :=
  {| volumes := volume_in PhaseMoving []; moves := move "Copying" "" "" "copy-job" |}.

Definition namespace (n : string) : io cluster Metadata := fun w =>
  (Ok {| Metadata.Name := n; Metadata.UID := "cluster"; Metadata.ResourceVersion := "1"; Metadata.Generation := 1;
         Metadata.Finalizers := []; Metadata.DeletionTimestamp := None; Metadata.Annotations := ∅ |}, w).

Definition pool (n : string) : io cluster PoolObject := fun w =>
  let node := if n == "pool-a" then "node-a" else "node-b" in
  let o := SamplePool.object n (n +:+ "-uid") "/pools/p" 0 in
  (Ok {| PoolObject.metadata := PoolObject.metadata o;
         PoolObject.spec := {| PoolSpec.nodeName := node; PoolSpec.poolGroup := None; PoolSpec.mountPath := "/pools/p";
                               PoolSpec.mountPolicy := ""; PoolSpec.capacityPolicy := PoolCapacityPolicyFixedBlock;
                               PoolSpec.capacityLimit := "1000000"; PoolSpec.scanEpoch := Absent |};
         PoolObject.status := PoolObject.status o |}, w).

Definition time : io cluster Z := fun w => (Ok 2000%Z, w).

(** The source's server belongs to the Move, the copy's Pod to the Job of the Move. *)
Definition move_owner : OwnerReference :=
  {| OwnerReference.APIVersion := "shiftpv.io/v1alpha1"; OwnerReference.Kind := "ShiftPVMove";
     OwnerReference.Name := "move-1"; OwnerReference.UID := uid; OwnerReference.Controller := Some true |}.
Definition job_owner : OwnerReference :=
  {| OwnerReference.APIVersion := "batch/v1"; OwnerReference.Kind := "Job"; OwnerReference.Name := "copy-job";
     OwnerReference.UID := "job-uid"; OwnerReference.Controller := Some true |}.

Definition pod (_ n : string) : io cluster Pod := fun w =>
  let source := n == "source-pod" in
  (Ok {| Pod.UID := n +:+ "-uid"; Pod.DeletionTimestamp := None; Pod.Labels := {["shiftpv.io/move-uid" := uid]};
         Pod.OwnerReferences := [if source then move_owner else job_owner];
         Pod.NodeName := if source then "node-a" else "node-b" |}, w).

Definition job (_ n : string) : io cluster Job := fun w =>
  (Ok {| Job.Name := n; Job.UID := "job-uid"; Job.DeletionTimestamp := None;
         Job.Labels := {["shiftpv.io/move-uid" := uid]}; Job.OwnerReferences := [move_owner] |}, w).

Definition options (podName : string) : MoveOptions :=
  {| MoveOptions.MoveName := "move-1"; MoveOptions.MoveUID := uid; MoveOptions.OperationID := "copy-move-uid";
     MoveOptions.Namespace := "shiftpv"; MoveOptions.PodName := podName |}.

(** The rollback of the incoming copy. *)
Definition rollback : Cleanup :=
  {| Cleanup.Name := "rollback"; Cleanup.UID := "cleanup-uid";
     Cleanup.Spec := {| Spec.OperationID := MoveRollbackOperationID uid; Spec.Target := copies.1;
                        Spec.Reason := "MoveRollback";
                        Spec.Authority := {| Authority.Kind := "ShiftPVMove"; Authority.Name := "move-1"; Authority.UID := uid |} |};
     Cleanup.Status := Cleanup.Status Cleanup.zero |}.

Lemma steps_still (w w' : cluster) : steps w w' -> w' = w.
Proof. intros H. inversion H as [|? ? ? [E|E] ?]; [done|by destruct E..]. Qed.

Lemma still_cooperative : cooperative (AM := Sample.sample) namespace pool time pod job.
Proof.
  split; try (intros; match goal with H : _ = (_, _) |- _ => injection H as _ <- end; apply rtc_refl);
    intros w w' ->%steps_still; done.
Qed.

Lemma volumes_invariant (w : cluster) (s : State) :
  stateFrom (AM := Sample.sample) (volumes w) = Ok s -> invariant s -> volumes_ok (AM := Sample.sample) w.
Proof.
  intros Hs Hi n o Ho. simpl in Ho. unfold named in Ho. case_bool_decide; [|done]. injection Ho as <-. eauto.
Qed.

Lemma moves_authorized (w : cluster) (m : Move) :
  moveFrom (moves w) = Ok m -> authorized m -> moves_ok w.
Proof.
  intros Hs Hi n o Ho. simpl in Ho. unfold named in Ho. case_bool_decide; [|done]. injection Ho as <-.
  exists m. split; [done|]. left. by exists m.
Qed.

Lemma sample_invariant (phase : string) (published : list string) :
  phase = PhaseBlocked \/ phase = PhaseMoving ->
  invariant (State.with_status sample_created phase "node-a" "move-1" published "create-uid-1" "" (Some source) None None).
Proof.
  intros Hp. split; simpl; [destruct Hp; subst; vm_compute; set_solver|by destruct Hp; subst| |].
  - intros H. exfalso. apply H. destruct Hp; subst; vm_compute; auto.
  - intros _. by exists source.
Qed.

Lemma sample_authorized (phase recovery owner job : string) :
  exists m, moveFrom (move phase recovery owner job) = Ok m /\ authorized m.
Proof.
  eexists. split; [vm_compute; reflexivity|]. exists source, "pool-b".
  split_and!; try done; vm_compute; try split_and!; try reflexivity; discriminate.
Qed.

Lemma blocked_ok : volumes_ok (AM := Sample.sample) blocked_cluster /\ moves_ok blocked_cluster.
Proof.
  split.
  - eapply volumes_invariant; [|apply sample_invariant; by left]. vm_compute. reflexivity.
  - destruct (sample_authorized "Blocked" "Retiring" "node-a" "") as (m & Hm & Ha). by apply (moves_authorized _ m).
Qed.

Lemma copying_ok : volumes_ok (AM := Sample.sample) copying_cluster /\ moves_ok copying_cluster.
Proof.
  split.
  - eapply volumes_invariant; [|apply sample_invariant; by right]. vm_compute. reflexivity.
  - destruct (sample_authorized "Copying" "" "" "copy-job") as (m & Hm & Ha). by apply (moves_authorized _ m).
Qed.
End SampleHelper.

#[local] Existing Instance SampleHelper.volume_client.
#[local] Existing Instance SampleHelper.move_client.

Lemma cleanup_authority_spares_witness :
  VerifyCleanupAuthority (AM := Sample.sample) SampleHelper.pool SampleHelper.time 0 SampleHelper.rollback SampleHelper.blocked_cluster =
    (Ok tt, SampleHelper.blocked_cluster) /\
  exists o s, stored SampleHelper.blocked_cluster (VolumeID SampleMove.copies.1) = Some o /\
    stateFrom (AM := Sample.sample) o = Ok s /\ expendable s SampleMove.copies.1.
Proof.
  assert (VerifyCleanupAuthority (AM := Sample.sample) SampleHelper.pool SampleHelper.time 0 SampleHelper.rollback
    SampleHelper.blocked_cluster = (Ok tt, SampleHelper.blocked_cluster)) as H by (vm_compute; reflexivity).
  split; [exact H|]. destruct SampleHelper.blocked_ok as [Hv Hm].
  destruct (cleanup_authority_spares (AM := Sample.sample) _ _ _ 0 _ _ SampleHelper.rollback _ _
    SampleHelper.still_cooperative Hv Hm ltac:(vm_compute; reflexivity) H) as (w1 & o & s & ->%SampleHelper.steps_still & _ & Ho & Hs & _ & He).
  exists o, s. exact (conj Ho (conj Hs He)).
Defined.

Lemma transfer_authority_sound_witness :
  let transfer := MoveAuthority (AM := Sample.sample) SampleHelper.namespace SampleHelper.pool SampleHelper.pod SampleHelper.job
    (SampleHelper.options "copy-pod") "copy" SampleMove.copies.1 in
  transfer SampleHelper.copying_cluster = (Ok tt, SampleHelper.copying_cluster) /\
  exists s copy, State.CurrentCopy s = Some copy /\ PoolUID SampleMove.copies.1 <> PoolUID copy /\
    ~ NodeName copy ∈ State.PublishedNodes s.
Proof.
  intros transfer. assert (transfer SampleHelper.copying_cluster = (Ok tt, SampleHelper.copying_cluster)) as H by (vm_compute; reflexivity).
  split; [exact H|]. destruct SampleHelper.copying_ok as [Hv Hm].
  destruct (transfer_authority_sound (AM := Sample.sample) _ _ _ _ _ _ _ _ _ _ SampleHelper.still_cooperative Hv Hm H)
    as (m & s & copy & pod & job & w1 & w2 & _ & _ & _ & _ & _ & _ & _ & _ & Hc & Hp & Hn & _).
  exists s, copy. exact (conj Hc (conj Hp Hn)).
Defined.

(** The server of the source and the copy work for the same record. *)
Lemma helpers_exclusive_witness :
  let check h := check (AM := Sample.sample) SampleHelper.namespace SampleHelper.pool SampleHelper.time 0 SampleHelper.pod
    SampleHelper.job h SampleHelper.copying_cluster in
  let serve := ServeSource (SampleHelper.options "source-pod") SampleMove.source in
  let copy := Transfer (SampleHelper.options "copy-pod") "copy" SampleMove.copies.1 in
  check serve = (Ok tt, SampleHelper.copying_cluster) /\ check copy = (Ok tt, SampleHelper.copying_cluster) /\
  purpose_of serve = purpose_of copy.
Proof.
  intros check serve copy.
  assert (check serve = (Ok tt, SampleHelper.copying_cluster)) as H1 by (vm_compute; reflexivity).
  assert (check copy = (Ok tt, SampleHelper.copying_cluster)) as H2 by (vm_compute; reflexivity).
  split; [exact H1|]. split; [exact H2|].
  destruct (GetMove "move-1" SampleHelper.copying_cluster) as [[m|e] w'] eqn:Hm; [|vm_compute in Hm; discriminate Hm].
  pose (w := SampleHelper.copying_cluster).
  refine (f_equal Some (_ : Moving = Moving)).
  exact (helpers_exclusive (AM := Sample.sample) SampleHelper.namespace SampleHelper.pool SampleHelper.time 0 SampleHelper.pod
    SampleHelper.job serve copy Moving Moving m w w' w w w' w SampleHelper.still_cooperative eq_refl eq_refl Hm Hm H1 H2).
Defined.
