(* ===== verification/Uninstall.v ===== *)
(** * Uninstall and Pool retirement checks

    src/lifecycle/uninstall/checker.go, pool_retirement.go and preserved_pool.go: what
    still depends on the driver, or on one Pool, before it may be removed.  A check
    lists every kind of dependency and reports what it finds as blockers; a report is
    safe when it has none. *)

From S2P Require Import Prelude Bytes Filepath VolumeIdentity Apimachinery Registration ApiServer VolumeState VolumeProtocol.
From S2P Require Import PoolApi VolumeRegistry PoolRegistry MoveApi Capacity CleanupJournal.
From stdpp Require Import sorting pretty.

(** ** Text *)

(** [strings.TrimSpace(s) == ""]: [s] is a sequence of UTF-8 encoded spaces. *)
Fixpoint blank (s : string) : bool :=
  match s with
  | EmptyString => true
  | String a s1 =>
      let x := Ascii.N_of_ascii a in
      if ((9 <=? x) && (x <=? 13) || (x =? 32))%N then blank s1
      else match s1 with
           | EmptyString => false
           | String b s2 =>
               let y := Ascii.N_of_ascii b in
               if ((x =? 194) && ((y =? 133) || (y =? 160)))%N then blank s2
               else match s2 with
                    | EmptyString => false
                    | String c s3 =>
                        let z := Ascii.N_of_ascii c in
                        if ((x =? 225) && (y =? 154) && (z =? 128) ||
                            (x =? 226) && (y =? 128) && ((128 <=? z) && (z <=? 138) || (z =? 168) || (z =? 169) || (z =? 175)) ||
                            (x =? 226) && (y =? 129) && (z =? 159) ||
                            (x =? 227) && (y =? 128) && (z =? 128))%N
                        then blank s3 else false
                    end
           end
  end.

(** [strings.Join] *)
Definition join_strings (parts : list string) (separator : string) : string := String.concat separator parts.

(** [%t] *)
Definition format_bool (b : bool) : string := if b then "true" else "false".

(** ** Data *)

Definition DriverName : string := "csi.shiftpv.io".
Definition TopologyKey : string := "topology.csi.shiftpv.io/node".
Definition PoolConditionIdentityReleased : string := "IdentityReleased".
Definition PoolInventoryBlockerKind : string := "ShiftPVPoolInventory".

Module Blocker.
Record Blocker := { Kind : string; Namespace : string; Name : string; Reason : string }.
End Blocker.
Notation Blocker := Blocker.Blocker.

Definition Report : Type := list Blocker.

Definition Safe (report : Report) : bool := (length report =? 0)%nat.

(** The fields of Kubernetes objects that are read. *)
Module CSI.
Record CSI := { Driver : string; VolumeHandle : string }.
End CSI.

Module Expression.
Record Expression := { Key : string; Operator : string; Values : list string }.
End Expression.

Module PersistentVolume.
Record PersistentVolume := {
  Name : string;
  CSI : option CSI.CSI;
  ClaimRef : option (string * string);
  (** [nodeAffinity.required.nodeSelectorTerms], each the match expressions of a term *)
  Required : option (list (list Expression.Expression))
}.
End PersistentVolume.
Notation PersistentVolume := PersistentVolume.PersistentVolume.

Module Claim.
Record Claim := { Namespace : string; Name : string; StorageClassName : option string; VolumeName : string }.
End Claim.
Notation Claim := Claim.Claim.

Module PodSpec.
Record PodSpec := {
  NodeName : string;
  (** the host path of each volume, if it is one *)
  HostPaths : list (option string)
}.
End PodSpec.
Notation PodSpec := PodSpec.PodSpec.

Module HelperPod.
Record HelperPod := { Namespace : string; Name : string; Phase : string; Spec : PodSpec }.
End HelperPod.
Notation HelperPod := HelperPod.HelperPod.

Module HelperJob.
Record HelperJob := {
  Namespace : string;
  Name : string;
  (** type and status *)
  Conditions : list (string * string);
  Template : PodSpec
}.
End HelperJob.
Notation HelperJob := HelperJob.HelperJob.

(** What the checker reads and writes through.  [ListVolumes] returns a map: here an
    enumeration of it. *)
Class VolumeRepository (W : Type) := {
  ListVolumes : io W (list (string * State));
  ListMoves : io W (list Move);
  ListPoolRegistrations : io W (list Pool);
  RemovePoolFinalizer : string -> string -> io W unit
}.

Class CleanupRepository (W : Type) := { ListCleanups : io W (list Cleanup) }.

Class Cluster (W : Type) := {
  ListPersistentVolumes : io W (list PersistentVolume);
  ListClaims : io W (list Claim);
  ListPods : string -> io W (list HelperPod);
  ListJobs : string -> io W (list HelperJob);
  Now : io W Z
}.

Module Checker.
Record Checker := {
  StorageClassNames : list string;
  Namespace : string;
  InventoryMaxAge : Z;
  PreserveRetiredPoolUIDs : list string
}.
End Checker.
Notation Checker := Checker.Checker.

(** ** What uses a Pool *)

Definition copyUsesPool (copy : option CopyIdentity) (pool : Pool) : bool :=
  some_and copy (fun copy => (PoolName copy == Pool.Name pool) && (PoolUID copy == Pool.UID pool)).

Definition preparationUsesPool (preparation : option MovePreparation) (pool : Pool) : bool * bool :=
  match preparation with
  | None => (false, false)
  | Some preparation =>
      let reference := MovePreparation.Pool preparation in
      if PoolReference.UID reference == Pool.UID pool then (true, true)
      else if ValidObjectName (PoolReference.Name reference) && ValidIdentityToken (PoolReference.UID reference) &&
              ValidObjectName (MovePreparation.NodeName preparation)
      then (false, true)
      else ((PoolReference.Name reference == Pool.Name pool) || (MovePreparation.NodeName preparation == "") ||
            (MovePreparation.NodeName preparation == Pool.NodeName pool), false)
  end.

Definition exactMoveCopy (copy : option CopyIdentity) (volumeID nodeName role : string) : bool :=
  some_and copy (fun copy =>
    is_ok (Validate copy) && (VolumeID copy == volumeID) && (NodeName copy == nodeName) && (Role copy == role)).

(** The last part of [moveUsesPool]: the destination, [known] by the preparation or not. *)
Definition destinationUsesPool (move : Move) (pool : Pool) (known : bool) : bool :=
  let status := Move.Status move in
  let exact copy role := exactMoveCopy copy (MoveSpec.VolumeID (Move.Spec move)) (MoveStatus.DestinationNode status) role in
  let incoming := exact (MoveStatus.IncomingCopy status) RoleIncoming in
  let serving := exact (MoveStatus.DestinationCopy status) RoleServing in
  let assigned := (MoveStatus.DestinationNode status != "") && (MoveStatus.DestinationPoolUID status != "") in
  if incoming && copyUsesPool (MoveStatus.IncomingCopy status) pool then true
  else if serving && copyUsesPool (MoveStatus.DestinationCopy status) pool then true
  else if assigned && (MoveStatus.DestinationPoolUID status == Pool.UID pool) then true
  else negb (known || incoming || serving || assigned) &&
       ((MoveStatus.DestinationNode status == Pool.NodeName pool) ||
        contains (MoveStatus.CandidateNodes status) (Pool.NodeName pool)).

Definition moveUsesPool (move : Move) (pool : Pool) : bool :=
  let status := Move.Status move in
  let '(preparationUses, known) := preparationUsesPool (MoveStatus.Preparation status) pool in
  if preparationUses then true
  else if exactMoveCopy (MoveStatus.SourceCopy status) (MoveSpec.VolumeID (Move.Spec move)) (MoveSpec.SourceNode (Move.Spec move)) RoleServing
  then copyUsesPool (MoveStatus.SourceCopy status) pool || destinationUsesPool move pool known
  else (MoveSpec.SourceNode (Move.Spec move) == Pool.NodeName pool) || destinationUsesPool move pool known.

(** Uses the Pool, and whether that is known. *)
Definition currentCopyUsesPool (volumeID : string) (state : State) (pool : Pool) : bool * bool :=
  if HasInitialReservation state then
    (some_and (State.InitialPool state) (fun reference =>
       (PoolReference.Name reference == Pool.Name pool) && (PoolReference.UID reference == Pool.UID pool)), true)
  else match State.CurrentCopy state with
       | None => (false, false)
       | Some copy =>
           if negb (is_ok (Validate copy)) || (VolumeID copy != volumeID) || (VolumeUID copy != State.UID state) ||
              (NodeName copy != State.OwnerNode state) || (Role copy != RoleServing)
           then (false, false)
           else ((PoolName copy == Pool.Name pool) && (PoolUID copy == Pool.UID pool), true)
       end.

(** The loop of [persistentVolumeTargetsNode] over the expressions of one term. *)
Fixpoint term_targets (expressions : list Expression.Expression) (nodeName : string) (known matches : bool) : bool * bool :=
  match expressions with
  | [] => (known, matches)
  | e :: expressions =>
      let listed := contains (Expression.Values e) nodeName in
      if Expression.Key e != TopologyKey then term_targets expressions nodeName known matches
      else if Expression.Operator e == "In" then term_targets expressions nodeName true listed
      else if Expression.Operator e == "NotIn" then term_targets expressions nodeName true (negb listed)
      else term_targets expressions nodeName known matches
  end.

(** Its loop over the terms. *)
Fixpoint terms_target (terms : list (list Expression.Expression)) (nodeName : string) : bool * bool :=
  match terms with
  | [] => (false, true)
  | term :: terms =>
      let '(known, matches) := term_targets term nodeName false false in
      if negb known then (false, false) else if matches then (true, true) else terms_target terms nodeName
  end.

Definition persistentVolumeTargetsNode (pv : PersistentVolume) (nodeName : string) : bool * bool :=
  match PersistentVolume.Required pv with
  | None | Some [] => (false, false)
  | Some terms => terms_target terms nodeName
  end.

(** ** Blockers *)

Definition persistentVolumeBlocker (pv : PersistentVolume) : option Blocker :=
  csi ← PersistentVolume.CSI pv;
  let reason := "driver=" +:+ DriverName +:+ " volumeHandle=" +:+ CSI.VolumeHandle csi in
  let reason := match PersistentVolume.ClaimRef pv with
                | Some (namespace, name) => reason +:+ " claim=" +:+ namespace +:+ "/" +:+ name
                | None => reason
                end in
  Some {| Blocker.Kind := "PersistentVolume"; Blocker.Namespace := ""; Blocker.Name := PersistentVolume.Name pv; Blocker.Reason := reason |}.

Definition persistentVolumeBlockers (pvs : list PersistentVolume) : list Blocker := omap persistentVolumeBlocker pvs.

(** One iteration of [poolPersistentVolumeBlockers]. *)
Definition poolPersistentVolumeBlocker (volumes : gmap string State) (pool : Pool) (pv : PersistentVolume) : option Blocker :=
  let blocker reason :=
    Some {| Blocker.Kind := "PersistentVolume"; Blocker.Namespace := ""; Blocker.Name := PersistentVolume.Name pv; Blocker.Reason := reason |} in
  let by_affinity :=
    let '(matches, known) := persistentVolumeTargetsNode pv (Pool.NodeName pool) in
    if negb known || matches
    then blocker (if matches then "node=" +:+ Pool.NodeName pool else "placement=unknown")
    else None in
  csi ← PersistentVolume.CSI pv;
  match volumes !! CSI.VolumeHandle csi with
  | None => by_affinity
  | Some state =>
      let '(usesPool, known) := currentCopyUsesPool (CSI.VolumeHandle csi) state pool in
      if known then
        if usesPool then blocker ("pool=" +:+ Pool.Name pool +:+ " poolUID=" +:+ Pool.UID pool) else None
      else by_affinity
  end.

Definition poolPersistentVolumeBlockers (pvs : list PersistentVolume) (volumes : gmap string State) (pool : Pool) : list Blocker :=
  omap (poolPersistentVolumeBlocker volumes pool) pvs.

Definition claimBlocker (storageClassNames : list string) (claim : Claim) : option Blocker :=
  class ← Claim.StorageClassName claim;
  if negb (contains storageClassNames class) then None
  else
    let reason := "references the ShiftPV StorageClass" in
    let reason := if Claim.VolumeName claim != "" then reason +:+ " volume=" +:+ Claim.VolumeName claim else reason in
    Some {| Blocker.Kind := "PersistentVolumeClaim"; Blocker.Namespace := Claim.Namespace claim; Blocker.Name := Claim.Name claim;
            Blocker.Reason := reason |}.

Definition volumeBlockers (volumes : list (string * State)) : list Blocker :=
  map (fun '(volumeID, state) =>
    let parts := ["phase=" +:+ State.Phase state; "owner=" +:+ State.OwnerNode state] ++
      (if State.ActiveMove state != "" then ["activeMove=" +:+ State.ActiveMove state] else []) ++
      (if (0 <? length (State.PublishedNodes state))%nat
       then ["publishedNodes=" +:+ join_strings (State.PublishedNodes state) ","] else []) in
    {| Blocker.Kind := "ShiftPVVolume"; Blocker.Namespace := ""; Blocker.Name := volumeID; Blocker.Reason := join_strings parts " " |}) volumes.

Definition poolVolumeBlocker (pool : Pool) (entry : string * State) : option Blocker :=
  let '(volumeID, state) := entry in
  let '(usesPool, known) := currentCopyUsesPool volumeID state pool in
  if known && negb usesPool then None
  else if negb known && negb (contains (State.PublishedNodes state) (Pool.NodeName pool)) &&
          (State.OwnerNode state != Pool.NodeName pool) &&
          negb ((State.Phase state == "") && (State.InitialNode state == Pool.NodeName pool))
  then None
  else
    let reason := "owner=" +:+ State.OwnerNode state in
    let reason := match State.CurrentCopy state with
                  | None => reason +:+ " currentCopy=missing"
                  | Some copy => reason +:+ " pool=" +:+ PoolName copy +:+ " poolUID=" +:+ PoolUID copy
                  end in
    Some {| Blocker.Kind := "ShiftPVVolume"; Blocker.Namespace := ""; Blocker.Name := volumeID; Blocker.Reason := reason |}.

Definition poolVolumeBlockers (volumes : list (string * State)) (pool : Pool) : list Blocker :=
  omap (poolVolumeBlocker pool) volumes.

(** One iteration of [moveBlockers]. *)
Definition moveBlocker (pool : option Pool) (move : Move) : option Blocker :=
  if MoveCleanupSettled move then None
  else if negb (is_nil pool) && negb (some_and pool (moveUsesPool move)) then None
  else Some {| Blocker.Kind := "ShiftPVMove"; Blocker.Namespace := ""; Blocker.Name := Move.Name move;
               Blocker.Reason := "phase=" +:+ MoveStatus.Phase (Move.Status move) +:+ " volume=" +:+ MoveSpec.VolumeID (Move.Spec move) |}.

Definition cleanupJournalBlocker (cleanup : Cleanup) : result Blocker :=
  let kind := Authority.Kind (Spec.Authority (Cleanup.Spec cleanup)) in
  let name := Authority.Name (Spec.Authority (Cleanup.Spec cleanup)) in
  if negb ((kind == "ShiftPVVolume") || (kind == "ShiftPVMove")) || blank name
  then Err (Errorf "cleanup journal %q has invalid parent authority %q/%q")
  else
    let phase := if Status.Phase (Cleanup.Status cleanup) == "" then PhasePending else Status.Phase (Cleanup.Status cleanup) in
    Ok {| Blocker.Kind := kind; Blocker.Namespace := ""; Blocker.Name := name;
          Blocker.Reason := "cleanupPhase=" +:+ phase +:+ " operation=" +:+ Spec.OperationID (Cleanup.Spec cleanup) +:+
                    " volume=" +:+ VolumeID (Spec.Target (Cleanup.Spec cleanup)) |}.

(** The loops over cleanup journals; [selected] is what the loop does not skip. *)
Fixpoint journal_blockers (selected : Cleanup -> bool) (cleanups : list Cleanup) : result (list Blocker) :=
  match cleanups with
  | [] => Ok []
  | cleanup :: cleanups =>
      if Status.Phase (Cleanup.Status cleanup) == PhaseCompleted then journal_blockers selected cleanups
      else if negb (selected cleanup) then journal_blockers selected cleanups
      else
        blocker ← cleanupJournalBlocker cleanup;
        rest ← journal_blockers selected cleanups;
        Ok (blocker :: rest)
  end.

(** A journal of the Pool, or any journal. *)
Definition cleanupUsesPool (pool : option Pool) (cleanup : Cleanup) : bool :=
  match pool with
  | None => true
  | Some pool => (PoolName (Spec.Target (Cleanup.Spec cleanup)) == Pool.Name pool) &&
                 (PoolUID (Spec.Target (Cleanup.Spec cleanup)) == Pool.UID pool)
  end.

(** Why an inventory cannot be trusted. *)
Definition inventoryReasons (pool : Pool) (inventory : PoolInventory) (now maxAge : Z) (observedAfter : option Z) : list string :=
  (if negb (PoolStatus.ObservedGeneration (Pool.Status pool) =? Pool.Generation pool)%Z
   then ["generation=" +:+ pretty (Pool.Generation pool) +:+ " observedGeneration=" +:+
         pretty (PoolStatus.ObservedGeneration (Pool.Status pool))] else []) ++
  (if negb (PoolInventory.Valid inventory) then ["valid=false"] else []) ++
  (if PoolInventory.Truncated inventory then ["truncated=true"] else []) ++
  (if PoolInventory.Message inventory != "" then ["message=" +:+ PoolInventory.Message inventory] else []) ++
  match PoolInventory.ObservedAt inventory with
  | None => ["observedAt=missing"]
  | Some observedAt =>
      if (now <? observedAt)%Z then ["observedAt=future"]
      else if (maxAge <? time_Sub now observedAt)%Z then ["observedAt=stale"]
      else if some_and observedAfter (fun after => negb (after <? observedAt)%Z) then ["observedAt=before-quiesce"]
      else []
  end.

(** One iteration over the observed copies. *)
Definition copyBlocker (pool : Pool) (observed : CopyObservation) : option Blocker :=
  if negb (CopyObservation.Present observed) && negb (CopyObservation.Published observed) then None
  else
    let parts := ["marker=" +:+ CopyObservation.Marker observed; "present=" +:+ format_bool (CopyObservation.Present observed)] ++
      match CopyObservation.Identity observed with
      | Some identity => ["role=" +:+ Role identity; "volume=" +:+ VolumeID identity; "copy=" +:+ CopyID identity]
      | None => []
      end ++
      (if CopyObservation.Published observed then ["published=true"] else []) ++
      (if CopyObservation.Problem observed != "" then ["problem=" +:+ CopyObservation.Problem observed] else []) in
    Some {| Blocker.Kind := "ShiftPVPoolCopy"; Blocker.Namespace := ""; Blocker.Name := Pool.Name pool;
            Blocker.Reason := join_strings parts " " |}.

Definition poolInventoryBlockers (pool : Pool) (now maxAge : Z) (observedAfter : option Z) : list Blocker :=
  let unknown reason :=
    [{| Blocker.Kind := PoolInventoryBlockerKind; Blocker.Namespace := ""; Blocker.Name := Pool.Name pool; Blocker.Reason := reason |}] in
  match PoolStatus.Inventory (Pool.Status pool) with
  | None => unknown "inventory=missing"
  | Some inventory =>
      let reasons := inventoryReasons pool inventory now maxAge observedAfter in
      if (0 <? length reasons)%nat then unknown (join_strings reasons " ")
      else omap (copyBlocker pool) (PoolInventory.Copies inventory)
  end.

Definition nul : string := String Ascii.zero "".

Definition blockerKey (blocker : Blocker) : string :=
  Blocker.Kind blocker +:+ nul +:+ Blocker.Namespace blocker +:+ nul +:+ Blocker.Name blocker +:+ nul +:+ Blocker.Reason blocker.

Definition key_le (left right : Blocker) : Prop := string_le (blockerKey left) (blockerKey right).

#[export] Instance key_le_dec : RelDecision key_le.
Proof. intros left right. unfold key_le. apply _. Defined.

Definition sortBlockers (blockers : list Blocker) : list Blocker := merge_sort key_le blockers.

Definition WaitingForInventory (report : Report) : bool :=
  if (length report =? 0)%nat then false
  else forallb (fun blocker => (Blocker.Kind blocker == PoolInventoryBlockerKind) || (Blocker.Kind blocker == "ShiftPVPoolIdentity")) report.

(** ** preserved_pool.go *)

Definition preservable {AM : Apimachinery} (pool : Pool) : bool :=
  Pool.RegistrationRetired pool && RegistrationApproved pool && contains (Pool.Finalizers pool) PoolProtectionFinalizer &&
  ValidObjectName (Pool.Name pool) && ValidObjectName (Pool.NodeName pool) && IsAbs (Pool.MountPath pool) &&
  (Clean (Pool.MountPath pool) == Pool.MountPath pool) && (Pool.MountPath pool != "/").

(** The loop over [PreserveRetiredPoolUIDs]. *)
Fixpoint preserve_uids {AM : Apimachinery} (pools : list Pool) (uids : list string) (preserved : gset string) : result (gset string) :=
  match uids with
  | [] => Ok preserved
  | uid :: uids =>
      reject_if (negb (ValidIdentityToken uid)) (Errorf "preserved retired Pool UID %q is invalid");;
      match filter (fun pool => Pool.UID pool = uid) pools with
      | [] => Err (Errorf "preserved retired Pool UID %q was not found")
      | [pool] =>
          reject_if (negb (preservable pool)) (Errorf "Pool %q UID %q is not an approved protected retirement");;
          preserve_uids pools uids ({[uid]} ∪ preserved)
      | _ => Err (Errorf "preserved retired Pool UID %q is ambiguous")
      end
  end.

Definition preservedPoolUIDs {AM : Apimachinery} (c : Checker) (pools : list Pool) : result (gset string) :=
  preserve_uids pools (Checker.PreserveRetiredPoolUIDs c) ∅.

(** ** Decisions of pool_retirement.go *)

(** [move.Status] with another source, destination node and no candidates. *)
Definition retirement_status (s : MoveStatus) (source : option CopyIdentity) (destination : string) : MoveStatus :=
  {| MoveStatus.Preparation := MoveStatus.Preparation s; MoveStatus.PersistentVolumeUID := MoveStatus.PersistentVolumeUID s;
     MoveStatus.ClaimUID := MoveStatus.ClaimUID s; MoveStatus.PlacementPodUID := MoveStatus.PlacementPodUID s;
     MoveStatus.Phase := MoveStatus.Phase s; MoveStatus.Reason := MoveStatus.Reason s; MoveStatus.Message := MoveStatus.Message s;
     MoveStatus.LastTransitionTime := MoveStatus.LastTransitionTime s; MoveStatus.LastProgressTime := MoveStatus.LastProgressTime s;
     MoveStatus.PersistentVolumeName := MoveStatus.PersistentVolumeName s; MoveStatus.ClaimNamespace := MoveStatus.ClaimNamespace s;
     MoveStatus.ClaimName := MoveStatus.ClaimName s; MoveStatus.ConsumerName := MoveStatus.ConsumerName s;
     MoveStatus.ConsumerUID := MoveStatus.ConsumerUID s; MoveStatus.ReplacementName := MoveStatus.ReplacementName s;
     MoveStatus.ReplacementUID := MoveStatus.ReplacementUID s; MoveStatus.DestinationNode := destination;
     MoveStatus.DestinationPoolUID := MoveStatus.DestinationPoolUID s; MoveStatus.SourceBytes := MoveStatus.SourceBytes s;
     MoveStatus.CapacityApproved := MoveStatus.CapacityApproved s; MoveStatus.CapacityReason := MoveStatus.CapacityReason s;
     MoveStatus.CandidateNodes := []; MoveStatus.EvictionRequested := MoveStatus.EvictionRequested s;
     MoveStatus.CopyJobName := MoveStatus.CopyJobName s; MoveStatus.PromotionJobName := MoveStatus.PromotionJobName s;
     MoveStatus.CleanupPhase := MoveStatus.CleanupPhase s; MoveStatus.CopyOperationID := MoveStatus.CopyOperationID s;
     MoveStatus.PromotionOperationID := MoveStatus.PromotionOperationID s; MoveStatus.SourceCopy := source;
     MoveStatus.IncomingCopy := MoveStatus.IncomingCopy s; MoveStatus.DestinationCopy := MoveStatus.DestinationCopy s;
     MoveStatus.RollbackRequiredGeneration := MoveStatus.RollbackRequiredGeneration s;
     MoveStatus.SettlementRequested := MoveStatus.SettlementRequested s; MoveStatus.RecoveryPhase := MoveStatus.RecoveryPhase s;
     MoveStatus.RecoveryOwner := MoveStatus.RecoveryOwner s; MoveStatus.RecoveryReason := MoveStatus.RecoveryReason s;
     MoveStatus.RecoveryMessage := MoveStatus.RecoveryMessage s |}.

Definition retirementMoveView (move : Move) (volumes : gmap string State) : Move :=
  let s := Move.Status move in
  let owned := some_and (volumes !! MoveSpec.VolumeID (Move.Spec move)) (fun state =>
    is_nil (MoveStatus.SourceCopy s) &&
    some_and (State.CurrentCopy state) (fun copy => VolumeUID copy == State.UID state) &&
    (State.OwnerNode state == MoveSpec.SourceNode (Move.Spec move)) &&
    exactMoveCopy (State.CurrentCopy state) (MoveSpec.VolumeID (Move.Spec move)) (MoveSpec.SourceNode (Move.Spec move)) RoleServing) in
  let source := if owned then volumes !! MoveSpec.VolumeID (Move.Spec move) ≫= State.CurrentCopy else MoveStatus.SourceCopy s in
  let unbound := negb (MoveStatus.CapacityApproved s) && is_nil (MoveStatus.Preparation s) && is_nil (MoveStatus.IncomingCopy s) &&
                 is_nil (MoveStatus.DestinationCopy s) && (MoveStatus.DestinationPoolUID s == "") in
  Move.with_Status move (retirement_status s source (if unbound then "" else MoveStatus.DestinationNode s)).

(** A copy recorded by a Move that refers to the Pool, or cannot be located. *)
Definition copyRefersToPool (pool : Pool) (copy : option CopyIdentity) : bool :=
  some_and copy (fun copy =>
    (PoolUID copy == Pool.UID pool) ||
    (negb (is_ok (Validate copy)) && ((NodeName copy == "") || (NodeName copy == Pool.NodeName pool)))).

Definition retirementMoveUsesPool (move : Move) (pool : Pool) (volumes : gmap string State) : bool :=
  let s := Move.Status move in
  if existsb (copyRefersToPool pool) [MoveStatus.SourceCopy s; MoveStatus.IncomingCopy s; MoveStatus.DestinationCopy s] then true
  else if (MoveStatus.DestinationPoolUID s == Pool.UID pool) ||
          some_and (MoveStatus.Preparation s) (fun p => PoolReference.UID (MovePreparation.Pool p) == Pool.UID pool) ||
          negb (ValidObjectName (MoveSpec.SourceNode (Move.Spec move)))
  then true
  else moveUsesPool (retirementMoveView move volumes) pool.

(** One iteration of [retirementVolumeBlockers]: a blocker, a reference for
    [poolVolumeBlockers], or neither. *)
Definition retirement_volume (pool : Pool) (entry : string * State) : option (Blocker + (string * State)) :=
  let '(id, state) := entry in
  let blocker reason :=
    Some (inl {| Blocker.Kind := "ShiftPVVolume"; Blocker.Namespace := ""; Blocker.Name := id; Blocker.Reason := reason |}) in
  if some_and (State.InitialPool state) (fun p => PoolReference.UID p == Pool.UID pool) ||
     some_and (State.CurrentCopy state) (fun copy => PoolUID copy == Pool.UID pool)
  then blocker "Pool UID reference remains"
  else if is_nil (State.InitialPool state) && UnstartedCreation state then None
  else if negb (snd (currentCopyUsesPool id state pool)) && negb (ValidObjectName (State.OwnerNode state)) &&
          ((State.Phase state != "") || negb (ValidObjectName (State.InitialNode state)))
  then blocker "Pool ownership cannot be located"
  else Some (inr entry).

Definition retirementVolumeBlockers (volumes : list (string * State)) (pool : Pool) : list Blocker :=
  let sorted := omap (retirement_volume pool) volumes in
  omap (fun x => match x with inl blocker => Some blocker | inr _ => None end) sorted ++
  poolVolumeBlockers (omap (fun x => match x with inl _ => None | inr entry => Some entry end) sorted) pool.

(** A journal whose target is on the Pool, or cannot be located. *)
Definition retirementCleanup (pool : Pool) (cleanup : Cleanup) : bool :=
  copyRefersToPool pool (Some (Spec.Target (Cleanup.Spec cleanup))).

Definition helperMountsPool (spec : PodSpec) (pool : Pool) : bool :=
  if (PodSpec.NodeName spec != "") && (PodSpec.NodeName spec != Pool.NodeName pool) then false
  else existsb (fun path => some_and path (fun path => Clean path == Pool.MountPath pool)) (PodSpec.HostPaths spec).

Definition podActor (pool : Pool) (pod : HelperPod) : option Blocker :=
  if (HelperPod.Phase pod != "Succeeded") && (HelperPod.Phase pod != "Failed") && helperMountsPool (HelperPod.Spec pod) pool
  then Some {| Blocker.Kind := "Pod"; Blocker.Namespace := HelperPod.Namespace pod; Blocker.Name := HelperPod.Name pod;
               Blocker.Reason := "active Pool helper" |}
  else None.

Definition jobActor (pool : Pool) (job : HelperJob) : option Blocker :=
  let terminal := existsb (fun '(type, status) => (status == "True") && ((type == "Complete") || (type == "Failed"))) (HelperJob.Conditions job) in
  if negb terminal && helperMountsPool (HelperJob.Template job) pool
  then Some {| Blocker.Kind := "Job"; Blocker.Namespace := HelperJob.Namespace job; Blocker.Name := HelperJob.Name job;
               Blocker.Reason := "active Pool helper" |}
  else None.

(** ** The checks *)

Section checks.
Context {AM : Apimachinery} {W : Type} {VR : VolumeRepository W} {CR : CleanupRepository W} {KC : Cluster W}.

Definition inventoryMaxAge (c : Checker) : Z :=
  if (0 <? Checker.InventoryMaxAge c)%Z then Checker.InventoryMaxAge c else DefaultPoolReadinessStaleAfter.

(** [exactPool]'s loop. *)
Fixpoint find_exact (pools : list Pool) (poolName poolUID : string) : result Pool :=
  match pools with
  | [] => Err (Errorf "Pool %q was not found")
  | pool :: pools =>
      if Pool.Name pool != poolName then find_exact pools poolName poolUID
      else if Pool.UID pool != poolUID then Err (Errorf "Pool %q identity changed")
      else Ok pool
  end.

Definition exactPool (poolName poolUID : string) : io W Pool :=
  io_reject_if (blank poolName || (poolUID == "")) (Errorf "exact Pool identity is required");;
  pools ← wrap_error "list ShiftPVPools: %w" ListPoolRegistrations;
  io_lift (find_exact pools poolName poolUID).

Definition listDriverPersistentVolumes : io W (list PersistentVolume) :=
  pvs ← wrap_error "list PersistentVolumes: %w" ListPersistentVolumes;
  mret (filter (fun pv => some_and (PersistentVolume.CSI pv) (fun csi => CSI.Driver csi == DriverName) = true) pvs).

Definition claimBlockers (c : Checker) : io W (list Blocker) :=
  claims ← wrap_error "list PersistentVolumeClaims: %w" ListClaims;
  mret (omap (claimBlocker (Checker.StorageClassNames c)) claims).

Definition moveBlockers (pool : option Pool) : io W (list Blocker) :=
  moves ← wrap_error "list ShiftPVMoves: %w" ListMoves;
  mret (omap (moveBlocker pool) moves).

Definition cleanupBlockers (pool : option Pool) : io W (list Blocker) :=
  cleanups ← wrap_error "list cleanup journals: %w" ListCleanups;
  io_lift (journal_blockers (cleanupUsesPool pool) cleanups).

Definition retirementCleanupBlockers (pool : Pool) : io W (list Blocker) :=
  cleanups ← wrap_error "list cleanup journals: %w" ListCleanups;
  io_lift (journal_blockers (retirementCleanup pool) cleanups).

Definition poolRetirementActors (c : Checker) (pool : Pool) : io W (list Blocker) :=
  pods ← wrap_error "list Pool helper Pods: %w" (ListPods (Checker.Namespace c));
  jobs ← wrap_error "list Pool helper Jobs: %w" (ListJobs (Checker.Namespace c));
  mret (omap (podActor pool) pods ++ omap (jobActor pool) jobs).

Definition retirementReferences (c : Checker) (pool : Pool) : io W Report :=
  volumes ← wrap_error "list ShiftPVVolumes: %w" ListVolumes;
  pvs ← listDriverPersistentVolumes;
  moves ← wrap_error "list ShiftPVMoves: %w" ListMoves;
  let moved := omap (fun move =>
    if negb (MoveCleanupSettled move) && retirementMoveUsesPool move pool (list_to_map volumes)
    then Some {| Blocker.Kind := "ShiftPVMove"; Blocker.Namespace := ""; Blocker.Name := Move.Name move;
                 Blocker.Reason := "unsettled Pool reference" |}
    else None) moves in
  cleanups ← retirementCleanupBlockers pool;
  actors ← poolRetirementActors c pool;
  mret (sortBlockers (retirementVolumeBlockers volumes pool ++ poolPersistentVolumeBlockers pvs (list_to_map volumes) pool ++
                      moved ++ cleanups ++ actors)).

Definition CheckPoolRetirement (c : Checker) (name uid : string) : io W Report :=
  io_reject_if (Checker.Namespace c == "") (Errorf "Pool retirement checker is not configured");;
  pool ← exactPool name uid;
  io_reject_if (negb (Pool.RetirementRequested pool) || negb (RegistrationApproved pool) || negb (IsAbs (Pool.MountPath pool)) ||
                (Pool.MountPath pool == "/"))
    (Errorf "Pool retirement requires an exact approved registration request");;
  retirementReferences c pool.

(** The identity of a deleting Pool was released on its node. *)
Definition identityBlocker (pool : Pool) : option Blocker :=
  if is_nil (Pool.DeletionTimestamp pool) then None
  else
    let released := find_condition pool PoolConditionIdentityReleased in
    if some_and released (fun condition => (Condition.Status condition == ConditionTrue) &&
                                           (Condition.ObservedGeneration condition =? Pool.Generation pool)%Z)
    then None
    else
      let reason := match released with
                    | Some condition => if Condition.Reason condition != "" then Condition.Reason condition else "identity=retained"
                    | None => "identity=retained"
                    end in
      Some {| Blocker.Kind := "ShiftPVPoolIdentity"; Blocker.Namespace := ""; Blocker.Name := Pool.Name pool; Blocker.Reason := reason |}.

(** The loop of [poolBlockers]. *)
Fixpoint pool_loop (c : Checker) (pools : list Pool) (preserved : gset string) (now : Z) (inventoryAfter : option Z) : io W (list Blocker) :=
  match pools with
  | [] => mret []
  | pool :: pools =>
      found ← (if bool_decide (Pool.UID pool ∈ preserved) then retirementReferences c pool
               else mret (poolInventoryBlockers pool now (inventoryMaxAge c) inventoryAfter ++ option_list (identityBlocker pool)));
      rest ← pool_loop c pools preserved now inventoryAfter;
      mret (found ++ rest)
  end.

Definition poolBlockers (c : Checker) (inventoryAfter : option Z) : io W (list Blocker) :=
  pools ← wrap_error "list ShiftPVPools: %w" ListPoolRegistrations;
  preserved ← io_lift (preservedPoolUIDs c pools);
  now ← Now;
  pool_loop c pools preserved now inventoryAfter.

Definition CheckAfter (c : Checker) (inventoryAfter : option Z) : io W Report :=
  io_reject_if (length (Checker.StorageClassNames c) =? 0)%nat (Errorf "at least one ShiftPV StorageClass name is required");;
  io_reject_if (existsb blank (Checker.StorageClassNames c)) (Errorf "ShiftPV StorageClass names must not be empty");;
  pvs ← listDriverPersistentVolumes;
  claimed ← claimBlockers c;
  volumes ← wrap_error "list ShiftPVVolumes: %w" ListVolumes;
  moved ← moveBlockers None;
  cleaned ← cleanupBlockers None;
  pooled ← poolBlockers c inventoryAfter;
  mret (sortBlockers (persistentVolumeBlockers pvs ++ claimed ++ volumeBlockers volumes ++ moved ++ cleaned ++ pooled)).

Definition CheckAll (c : Checker) : io W Report := CheckAfter c None.

Definition CheckPoolDeleteAfter (c : Checker) (poolName poolUID : string) (inventoryAfter : option Z) : io W Report :=
  target ← exactPool poolName poolUID;
  now ← Now;
  volumes ← wrap_error "list ShiftPVVolumes: %w" ListVolumes;
  pvs ← listDriverPersistentVolumes;
  moved ← moveBlockers (Some target);
  cleaned ← cleanupBlockers (Some target);
  mret (sortBlockers (poolInventoryBlockers target now (inventoryMaxAge c) inventoryAfter ++
                      poolPersistentVolumeBlockers pvs (list_to_map volumes) target ++ poolVolumeBlockers volumes target ++
                      moved ++ cleaned)).

(** The loop of [ReleasePoolProtectionAfter]. *)
Fixpoint release_loop (pools : list Pool) (preserved : gset string) : io W (list (result unit)) :=
  match pools with
  | [] => mret []
  | pool :: pools =>
      if bool_decide (Pool.UID pool ∈ preserved) || negb (contains (Pool.Finalizers pool) PoolProtectionFinalizer)
      then release_loop pools preserved
      else
        removed ← catch (wrap_error "release ShiftPVPool %q protection: %w" (RemovePoolFinalizer (Pool.Name pool) (Pool.UID pool)));
        rest ← release_loop pools preserved;
        mret (removed :: rest)
  end.

Definition ReleasePoolProtectionAfter (c : Checker) (inventoryAfter : option Z) : io W unit :=
  (if (0 <? length (Checker.PreserveRetiredPoolUIDs c))%nat then
     report ← CheckAfter c inventoryAfter;
     io_reject_if (negb (Safe report)) (Errorf "storage dependencies changed before Pool protection release: %+v")
   else mret tt);;
  pools ← wrap_error "list ShiftPVPools: %w" ListPoolRegistrations;
  preserved ← io_lift (preservedPoolUIDs c pools);
  results ← release_loop pools preserved;
  io_lift (Prelude.join results).

Definition ReleasePoolProtection (c : Checker) : io W unit := ReleasePoolProtectionAfter c None.
End checks.

(** ** What a safe report means *)

Lemma omap_nil {A B : Type} (f : A -> option B) (l : list A) : omap f l = [] <-> Forall (fun x => f x = None) l.
Proof.
  induction l as [|x l IH]; [done|]. cbn [omap list_omap]. rewrite Forall_cons, <- IH.
  destruct (f x); naive_solver.
Qed.

Lemma Safe_sorted (blockers : list Blocker) : Safe (sortBlockers blockers) = true -> blockers = [].
Proof.
  unfold Safe, sortBlockers. intros H%Nat.eqb_eq%length_zero_iff_nil.
  pose proof (merge_sort_Permutation key_le blockers) as Hp. rewrite H in Hp. by apply Permutation_nil.
Qed.

Lemma journal_blockers_nil (selected : Cleanup -> bool) (cleanups : list Cleanup) :
  journal_blockers selected cleanups = Ok [] ->
  Forall (fun cleanup => Status.Phase (Cleanup.Status cleanup) = PhaseCompleted \/ selected cleanup = false) cleanups.
Proof.
  induction cleanups as [|c l IH]; [done|]. simpl. case_bool_decide; [intros; constructor; auto|].
  destruct (selected c) eqn:E; simpl; [|intros; constructor; auto]. intros Hj.
  apply bind_Ok in Hj as (b & _ & Hj). by apply bind_Ok in Hj as (rest & _ & Hj).
Qed.

(** The inventory of a Pool can be trusted and shows that nothing is left: it is of
    the current generation, complete, recent, taken after [inventoryAfter], and every
    copy it lists is gone and unpublished. *)
Definition vacant (pool : Pool) (now maxAge : Z) (inventoryAfter : option Z) : Prop :=
  exists inventory observedAt,
    PoolStatus.Inventory (Pool.Status pool) = Some inventory /\ PoolInventory.ObservedAt inventory = Some observedAt /\
    PoolStatus.ObservedGeneration (Pool.Status pool) = Pool.Generation pool /\
    PoolInventory.Valid inventory = true /\ PoolInventory.Truncated inventory = false /\ PoolInventory.Message inventory = "" /\
    (observedAt <= now)%Z /\ (time_Sub now observedAt <= maxAge)%Z /\
    (forall after, inventoryAfter = Some after -> (after < observedAt)%Z) /\
    Forall (fun observed => CopyObservation.Present observed = false /\ CopyObservation.Published observed = false)
      (PoolInventory.Copies inventory).

Lemma if_nil {A : Type} (b : bool) (l : list A) : l <> [] -> (if b then l else []) = [] -> b = false.
Proof. by destruct b. Qed.

Lemma poolInventoryBlockers_vacant (pool : Pool) (now maxAge : Z) (inventoryAfter : option Z) :
  poolInventoryBlockers pool now maxAge inventoryAfter = [] -> vacant pool now maxAge inventoryAfter.
Proof.
  unfold poolInventoryBlockers, vacant. destruct (PoolStatus.Inventory (Pool.Status pool)) as [inventory|]; [|done].
  case_match eqn:El; [done|]. apply Nat.ltb_ge in El. assert (inventoryReasons pool inventory now maxAge inventoryAfter = []) as Hr.
  { apply length_zero_iff_nil. lia. }
  unfold inventoryReasons in Hr. apply app_nil in Hr as [Hg%if_nil Hr]; [|done]. apply app_nil in Hr as [Hv%if_nil Hr]; [|done].
  apply app_nil in Hr as [Ht%if_nil Hr]; [|done]. apply app_nil in Hr as [Hm%if_nil Hr]; [|done].
  destruct (PoolInventory.ObservedAt inventory) as [observedAt|] eqn:Eo; [|done].
  destruct (now <? observedAt)%Z eqn:E1; [done|]. destruct (maxAge <? _)%Z eqn:E2; [done|]. apply if_nil in Hr; [|done].
  intros Hc%omap_nil. exists inventory, observedAt. go_inv. split_and!; try done; try lia.
  - intros after ->. simpl in Hr. go_inv. lia.
  - eapply Forall_impl; [exact Hc|]. intros o. unfold copyBlocker. destruct (CopyObservation.Present o), (CopyObservation.Published o); naive_solver.
Qed.

Section soundness.
Context {AM : Apimachinery} {W : Type} {VR : VolumeRepository W} {CR : CleanupRepository W} {KC : Cluster W}.
(** What other clients do while the checker reads. *)
Context (steps : relation W) `{!PreOrder steps}.

(** The checker's reads change nothing themselves. *)
Record reading : Prop := {
  volumes_read w r w' : ListVolumes w = (r, w') -> steps w w';
  moves_read w r w' : ListMoves w = (r, w') -> steps w w';
  pools_read w r w' : ListPoolRegistrations w = (r, w') -> steps w w';
  cleanups_read w r w' : ListCleanups w = (r, w') -> steps w w';
  pvs_read w r w' : ListPersistentVolumes w = (r, w') -> steps w w';
  claims_read w r w' : ListClaims w = (r, w') -> steps w w';
  pods_read n w r w' : ListPods n w = (r, w') -> steps w w';
  jobs_read n w r w' : ListJobs n w = (r, w') -> steps w w';
  now_read w r w' : Now w = (r, w') -> steps w w'
}.

(** At some moment between two worlds, the API answered a call with [a]. *)
Definition answered {A : Type} (w w' : W) (call : io W A) (a : A) : Prop :=
  exists w1 w2, steps w w1 /\ call w1 = (Ok a, w2) /\ steps w2 w'.

Lemma answered_widen {A : Type} (w0 w w' w1 : W) (call : io W A) (a : A) :
  steps w0 w -> steps w' w1 -> answered w w' call a -> answered w0 w1 call a.
Proof. intros H0 H1 (u & v & Hu & Hc & Hv). exists u, v. split; [by etrans|]. split; [done|by etrans]. Qed.

(** The answer of a call that was made. *)
Lemma answered_call {A : Type} (w w' : W) (call : io W A) (a : A) : call w = (Ok a, w') -> answered w w' call a.
Proof. intros H. exists w, w'. done. Qed.

(** What retires a Pool: nothing in the ledger, no unfinished cleanup and no helper
    refers to it. *)
Definition unreferenced (c : Checker) (pool : Pool) (w w' : W) : Prop :=
  exists volumes moves cleanups pods jobs,
    answered w w' ListVolumes volumes /\ answered w w' ListMoves moves /\ answered w w' ListCleanups cleanups /\
    answered w w' (ListPods (Checker.Namespace c)) pods /\ answered w w' (ListJobs (Checker.Namespace c)) jobs /\
    held (Pool.UID pool) (holds volumes (list_to_map volumes) moves) = [] /\
    Forall (fun cleanup => Status.Phase (Cleanup.Status cleanup) = PhaseCompleted \/
                           PoolUID (Spec.Target (Cleanup.Spec cleanup)) <> Pool.UID pool) cleanups /\
    Forall (fun pod => podActor pool pod = None) pods /\ Forall (fun job => jobActor pool job = None) jobs.

(** The volumes that do not block a retirement hold nothing of the Pool. *)
Lemma retirement_volume_free (id : string) (state : State) (pool : Pool) (uid : string) (bytes : Z) :
  Pool.UID pool <> "" -> (forall b, retirement_volume pool (id, state) <> Some (inl b)) ->
  volume_hold state = Ok (uid, bytes) -> uid <> Pool.UID pool.
Proof.
  intros Hu Hb Hh. unfold retirement_volume in Hb. case_match eqn:E; [by edestruct Hb|]. clear Hb.
  apply orb_false_iff in E as [Ei Ec]. unfold volume_hold in Hh. apply bind_Ok in Hh as (owner & Ho & [= -> _]).
  assert (current_owner state = Ok uid -> uid <> Pool.UID pool) as Hcur.
  { unfold current_owner. destruct (State.CurrentCopy state) as [copy|]; [|done]. rewrite check_Ok. intros [_ [= <-]].
    by apply bool_decide_eq_false in Ec. }
  unfold ownerPoolUID in Ho. destruct (State.InitialPool state) as [initial|].
  - destruct (HasInitialReservation state); [|by apply Hcur]. injection Ho as <-. by apply bool_decide_eq_false in Ei.
  - destruct (UnstartedCreation state); [|by apply Hcur]. injection Ho as <-. congruence.
Qed.

Lemma held_nil (uid : string) (l : list (result (string * Z))) :
  (forall uid' bytes, Ok (uid', bytes) ∈ l -> uid' <> uid) -> held uid l = [].
Proof.
  intros H. unfold held. apply omap_nil, Forall_forall. intros [[uid' bytes]|e] Hin; [|done].
  rewrite bool_decide_eq_false_2; [done|]. by apply (H uid' bytes).
Qed.

Lemma retirement_volumes (volumes : list (string * State)) (pool : Pool) :
  Pool.UID pool <> "" -> retirementVolumeBlockers volumes pool = [] ->
  forall uid bytes, Ok (uid, bytes) ∈ map (fun entry => volume_hold entry.2) volumes -> uid <> Pool.UID pool.
Proof.
  intros Hu H uid bytes Hin. unfold retirementVolumeBlockers in H. apply app_nil in H as [H _].
  apply list_elem_of_fmap in Hin as ([id state] & Hh & Hin). eapply (retirement_volume_free id); [done| |by symmetry].
  intros b Hb. apply omap_nil in H. rewrite Forall_forall in H.
  specialize (H (inl b)). cbv beta in H. enough (Some b = None) by done. apply H. apply list_elem_of_omap. by exists (id, state).
Qed.

(** The Moves that do not block a retirement hold nothing of the Pool. *)
Lemma copyRefersToPool_false (pool : Pool) (copy : CopyIdentity) :
  copyRefersToPool pool (Some copy) = false -> PoolUID copy <> Pool.UID pool.
Proof. unfold copyRefersToPool, some_and. intros [H _]%orb_false_iff. by apply bool_decide_eq_false in H. Qed.

Lemma retirementMoveUsesPool_false (move : Move) (pool : Pool) (volumes : gmap string State) :
  retirementMoveUsesPool move pool volumes = false ->
  (forall source, MoveStatus.SourceCopy (Move.Status move) = Some source -> PoolUID source <> Pool.UID pool) /\
  MoveStatus.DestinationPoolUID (Move.Status move) <> Pool.UID pool /\
  (forall p, MoveStatus.Preparation (Move.Status move) = Some p -> PoolReference.UID (MovePreparation.Pool p) <> Pool.UID pool).
Proof.
  unfold retirementMoveUsesPool. case_match eqn:E1; [done|]. case_match eqn:E2; [done|]. intros _.
  cbn [existsb] in E1. apply orb_false_iff in E1 as [Es _]. apply orb_false_iff in E2 as [E2 _].
  apply orb_false_iff in E2 as [Ed Ep]. split_and!.
  - intros source Hs. rewrite Hs in Es. by apply copyRefersToPool_false.
  - by apply bool_decide_eq_false in Ed.
  - intros p Hp. rewrite Hp in Ep. simpl in Ep. by apply bool_decide_eq_false in Ep.
Qed.

Lemma retirement_move_free (move : Move) (volumes : gmap string State) (pool : Pool) (uid : string) (bytes : Z) :
  Pool.UID pool <> "" -> negb (MoveCleanupSettled move) && retirementMoveUsesPool move pool volumes = false ->
  moveReservation volumes move = Ok (uid, bytes) -> uid <> Pool.UID pool.
Proof.
  intros Hu Hb Hr. unfold moveReservation in Hr. destruct (MoveStatus.Preparation (Move.Status move)) as [p|] eqn:Ep.
  - assert (MoveCleanupSettled move = false) as Hs by (unfold MoveCleanupSettled; by rewrite Ep). rewrite Hs in Hb. simpl in Hb.
    apply retirementMoveUsesPool_false in Hb as (_ & _ & Hp). unfold preparationReservation in Hr.
    case_match; [|done]. case_match; [|done]. apply bind_Ok in Hr as (source & _ & Hr). rewrite !check_Ok in Hr.
    destruct Hr as (_ & _ & [= <- _]). by apply Hp.
  - destruct (MoveCleanupSettled move); simpl in Hr; [injection Hr as <- _; congruence|]. simpl in Hb.
    apply retirementMoveUsesPool_false in Hb as (Hs & Hd & _).
    destruct (MoveStatus.CapacityApproved _); simpl in Hr; [|injection Hr as <- _; congruence].
    case_match; [|done]. case_match; [|done]. case_match; [|done]. case_match; [done|]. injection Hr as <- _.
    destruct (PoolUID _ == MoveStatus.DestinationPoolUID _); [by apply Hs|done].
Qed.

(** The moves a retirement reports. *)
Lemma retirement_moves (volumes : gmap string State) (moves : list Move) (pool : Pool) :
  Pool.UID pool <> "" ->
  Forall (fun move => negb (MoveCleanupSettled move) && retirementMoveUsesPool move pool volumes = false) moves ->
  forall uid bytes, Ok (uid, bytes) ∈ map (moveReservation volumes) moves -> uid <> Pool.UID pool.
Proof.
  intros Hu H uid bytes (move & Hr & Hin)%list_elem_of_fmap. rewrite Forall_forall in H.
  by eapply retirement_move_free; [|apply H|].
Qed.

(** Open the steps of a check that returned a report. *)
Ltac report_inv :=
  check_inv; repeat match goal with
  | H : mret ?a ?w = (Ok _, _) |- _ => change (Ok a, w) with (mret (M := io W) a w) in H; injection H as <- <-
  end.

(** Reads made through the checker's helpers. *)
Ltac read_steps Hr :=
  repeat match goal with
  | |- steps ?w ?w => done
  | H : ?call ?w = (_, ?v) |- steps ?w _ =>
      etrans; [first [ exact (volumes_read Hr _ _ _ H) | exact (moves_read Hr _ _ _ H) | exact (pools_read Hr _ _ _ H)
                     | exact (cleanups_read Hr _ _ _ H) | exact (pvs_read Hr _ _ _ H) | exact (claims_read Hr _ _ _ H)
                     | exact (pods_read Hr _ _ _ _ H) | exact (jobs_read Hr _ _ _ _ H) | exact (now_read Hr _ _ _ H) ]|]
  end.

Ltac answer Hr := eexists _, _; split; [|split; [eassumption|]]; read_steps Hr.

Lemma retirementReferences_unreferenced (c : Checker) (pool : Pool) (report : Report) (w w' : W) :
  reading -> Pool.UID pool <> "" -> retirementReferences c pool w = (Ok report, w') -> Safe report = true ->
  steps w w' /\ unreferenced c pool w w'.
Proof.
  intros Hr Hu H Hs. unfold retirementReferences, listDriverPersistentVolumes, retirementCleanupBlockers, poolRetirementActors in H.
  report_inv. apply Safe_sorted in Hs. apply app_nil in Hs as [Hv Hs]. apply app_nil in Hs as [_ Hs].
  apply app_nil in Hs as [Hm%omap_nil Hs]. apply app_nil in Hs as [-> Ha]. apply app_nil in Ha as [Hpods%omap_nil Hjobs%omap_nil].
  split; [read_steps Hr|].
  eexists _, _, _, _, _. do 5 (split; [answer Hr|]). split_and!; [| |done..].
  - apply held_nil. intros uid bytes [Hin|Hin]%elem_of_app; [by eapply retirement_volumes|].
    eapply (retirement_moves (list_to_map _)); [done| |done]. eapply Forall_impl; [exact Hm|]. intros move. cbv beta. by case_match.
  - eapply Forall_impl; [by apply journal_blockers_nil|]. intros cleanup [?|Hf]; [by left|right].
    by apply copyRefersToPool_false in Hf.
Qed.

Lemma unreferenced_widen (c : Checker) (pool : Pool) (w0 w w' w1 : W) :
  steps w0 w -> steps w' w1 -> unreferenced c pool w w' -> unreferenced c pool w0 w1.
Proof.
  intros H0 H1 (volumes & moves & cleanups & pods & jobs & Hv & Hm & Hc & Hp & Hj & H).
  exists volumes, moves, cleanups, pods, jobs. do 5 (split; [by eapply answered_widen|]). done.
Qed.

Lemma find_exact_Ok (pools : list Pool) (name uid : string) (pool : Pool) :
  find_exact pools name uid = Ok pool -> pool ∈ pools /\ Pool.Name pool = name /\ Pool.UID pool = uid.
Proof.
  induction pools as [|p pools IH]; [done|]. simpl. intros H.
  destruct (Pool.Name p != name) eqn:En; [destruct (IH H) as (? & ?); split; [by right|done]|].
  destruct (Pool.UID p != uid) eqn:Eu; [done|]. injection H as <-. go_inv. split; [by left|done].
Qed.

(** C16: A Pool retires only when the ledger holds nothing of it.  If the retirement
    check of a registration returns a safe report, then the registration of that name
    and UID was listed with an exact, approved retirement request, and for the volumes
    and Moves listed during the check no hold of the capacity ledger is on the Pool,
    every unfinished cleanup targets another Pool, and no running helper mounts it. *)
Theorem retirement_releases_ledger (c : Checker) (name uid : string) (report : Report) (w w' : W) :
  reading -> CheckPoolRetirement c name uid w = (Ok report, w') -> Safe report = true ->
  exists pools pool, answered w w' ListPoolRegistrations pools /\ pool ∈ pools /\ Pool.Name pool = name /\ Pool.UID pool = uid /\
    Pool.RetirementRequested pool = true /\ RegistrationApproved pool = true /\ unreferenced c pool w w'.
Proof.
  intros Hr H Hs. unfold CheckPoolRetirement, exactPool in H. report_inv.
  match goal with H : find_exact _ _ _ = _ |- _ => apply find_exact_Ok in H as (Hin & Hname & Huid) end.
  go_inv. match goal with H : retirementReferences _ ?pool ?w1 = _, E : ListPoolRegistrations _ = (Ok ?pools, _) |- _ =>
    destruct (retirementReferences_unreferenced c pool report w1 w' Hr ltac:(done) H Hs) as [Hw Hun]; exists pools, pool;
    apply (pools_read Hr) in E as Hw1; split; [by exists w, w1|] end.
  do 5 (split; [done|]). eapply unreferenced_widen; [exact Hw1|reflexivity|exact Hun].
Qed.

(** What a safe uninstall report says of one registration: an explicitly preserved,
    protected retirement that nothing refers to, or a vacant Pool whose identity, if
    it is being deleted, was released on its node. *)
Definition settled (c : Checker) (inventoryAfter : option Z) (now : Z) (w w' : W) (pool : Pool) : Prop :=
  (Pool.UID pool ∈ Checker.PreserveRetiredPoolUIDs c /\ preservable pool = true /\ unreferenced c pool w w') \/
  vacant pool now (inventoryMaxAge c) inventoryAfter /\ identityBlocker pool = None.

Lemma preserve_uids_Ok (pools : list Pool) (uids : list string) (preserved0 preserved : gset string) :
  preserve_uids pools uids preserved0 = Ok preserved ->
  forall uid, uid ∈ preserved -> uid ∈ preserved0 \/ uid ∈ uids /\ uid <> "" /\
    forall pool, pool ∈ pools -> Pool.UID pool = uid -> preservable pool = true.
Proof.
  revert preserved0. induction uids as [|u uids IH]; intros preserved0 H uid Hin; [simpl in H; injection H as <-; by left|].
  cbn [preserve_uids] in H. rewrite check_Ok, reject_if_Ok in H. destruct H as [Hvalid%negb_false_iff H].
  destruct (filter _ pools) as [|pool [|? ?]] eqn:Ef; [done| |done]. rewrite check_Ok, reject_if_Ok in H. destruct H as [Hp%negb_false_iff H].
  destruct (IH _ H uid Hin) as [[->%elem_of_singleton|?]%elem_of_union|(? & ? & ?)]; [right|by left|right].
  - split; [by left|]. split; [by apply MoveProtocol.token_nonempty|]. intros p Hpin Hu.
    assert (p ∈ [pool]) as ->%list_elem_of_singleton; [|done]. rewrite <- Ef. by apply list_elem_of_filter.
  - split; [by right|done].
Qed.

Lemma settled_widen (c : Checker) (inventoryAfter : option Z) (now : Z) (w0 w w' w1 : W) (pool : Pool) :
  steps w0 w -> steps w' w1 -> settled c inventoryAfter now w w' pool -> settled c inventoryAfter now w0 w1 pool.
Proof. intros H0 H1 [(? & ? & ?)|?]; [left; split_and!; try done; by eapply unreferenced_widen|by right]. Qed.

Lemma pool_loop_settled (c : Checker) (pools : list Pool) (preserved : gset string) (now : Z) (inventoryAfter : option Z)
    (w w' : W) :
  reading -> (forall uid, uid ∈ preserved -> uid ∈ Checker.PreserveRetiredPoolUIDs c /\ uid <> "") ->
  (forall pool, pool ∈ pools -> Pool.UID pool ∈ preserved -> preservable pool = true) ->
  pool_loop c pools preserved now inventoryAfter w = (Ok [], w') ->
  steps w w' /\ Forall (settled c inventoryAfter now w w') pools.
Proof.
  intros Hr Hpres. revert w. induction pools as [|pool pools IH]; intros w Hp H; [by injection H as <-|].
  cbn [pool_loop] in H. apply io_bind_Ok in H as (found & w1 & Hf & H). apply io_bind_Ok in H as (rest & w2 & Hrest & H).
  change (Ok (found ++ rest), w2) with (mret (M := io W) (found ++ rest) w2) in H. injection H as [-> ->]%app_nil ->.
  destruct (IH w1) as [Hw1 Hall]; [|done|]. { intros p Hin. apply Hp. by right. }
  enough (steps w w1 /\ settled c inventoryAfter now w w1 pool) as [Hw Hpool].
  { split; [by etrans|]. constructor; [eapply settled_widen; [reflexivity|exact Hw1|exact Hpool]|].
    eapply Forall_impl; [exact Hall|]. intros p. by apply settled_widen. }
  case_bool_decide as Ein.
  - destruct (Hpres _ Ein) as [Hin Hne]. destruct (retirementReferences_unreferenced c pool [] w w1 Hr Hne Hf eq_refl) as [Hw Hun].
    split; [done|]. left. split; [done|]. split; [|done]. apply Hp; [by left|done].
  - change ((Ok (poolInventoryBlockers pool now (inventoryMaxAge c) inventoryAfter ++ option_list (identityBlocker pool)), w) = (Ok [], w1)) in Hf.
    injection Hf as Hf ->. apply app_nil in Hf as [Hv Hi]. split; [done|]. right. split; [by apply poolInventoryBlockers_vacant|].
    by destruct (identityBlocker pool).
Qed.

Lemma poolBlockers_settled (c : Checker) (inventoryAfter : option Z) (w w' : W) :
  reading -> poolBlockers c inventoryAfter w = (Ok [], w') ->
  steps w w' /\ exists pools now, answered w w' ListPoolRegistrations pools /\ answered w w' Now now /\
    Forall (settled c inventoryAfter now w w') pools.
Proof.
  intros Hr H. unfold poolBlockers in H. check_inv.
  match goal with H : preservedPoolUIDs _ _ = Ok _ |- _ => pose proof (preserve_uids_Ok _ _ _ _ H) as Hpres end.
  match goal with H : pool_loop _ ?ps ?pr ?n _ ?u = _ |- _ =>
    destruct (pool_loop_settled c ps pr n inventoryAfter u w' Hr) as [Hw Hall]; [| |exact H|];
    [intros uid Hin; destruct (Hpres uid Hin) as [?|(? & ? & _)]; [set_solver|done]
    |intros p Hp Hin; destruct (Hpres _ Hin) as [?|(_ & _ & Hx)]; [set_solver|by apply Hx]
    |assert (steps w u) as Hu by read_steps Hr; clear H] end.
  split; [by etrans|]. eexists _, _. split; [eexists _, _; split; [reflexivity|split; [eassumption|read_steps Hr; exact Hw]]|].
  split; [eexists _, _; split; [|split; [eassumption|exact Hw]]; read_steps Hr|].
  eapply Forall_impl; [exact Hall|]. intros p. by apply settled_widen.
Qed.

(** What the lists of PersistentVolumes and claims say when they give no blocker. *)
Lemma persistentVolumeBlockers_nil (pvs : list PersistentVolume) :
  persistentVolumeBlockers (filter (fun pv => some_and (PersistentVolume.CSI pv) (fun csi => CSI.Driver csi == DriverName) = true) pvs) = [] ->
  Forall (fun pv => forall csi, PersistentVolume.CSI pv = Some csi -> CSI.Driver csi <> DriverName) pvs.
Proof.
  intros H%omap_nil. rewrite Forall_forall in H. apply Forall_forall. intros pv Hin csi Hcsi Hd.
  assert (persistentVolumeBlocker pv = None) as Hn.
  { apply H, list_elem_of_filter. split; [|done]. rewrite Hcsi. by apply bool_decide_eq_true. }
  unfold persistentVolumeBlocker in Hn. by rewrite Hcsi in Hn.
Qed.

Lemma claimBlocker_None (classes : list string) (claim : Claim) :
  claimBlocker classes claim = None -> forall class, Claim.StorageClassName claim = Some class -> class ∉ classes.
Proof.
  unfold claimBlocker. intros H class Hc. rewrite Hc in H. simpl in H. destruct (contains classes class) eqn:E; [done|].
  by apply contains_false.
Qed.

Lemma moveBlocker_None (move : Move) : moveBlocker None move = None -> MoveCleanupSettled move = true.
Proof. unfold moveBlocker. by destruct (MoveCleanupSettled move). Qed.

(** C15: The driver may be uninstalled only when nothing depends on it.  If the uninstall
    check returns a safe report, then during the check the API listed no
    PersistentVolume of this driver, no claim of a given StorageClass and no
    ShiftPVVolume; every listed Move had settled and every cleanup was complete; and
    every listed Pool was vacant by a complete inventory newer than [inventoryAfter],
    with its identity released if it was being deleted, or was one of the preserved
    retirements, protected and without any reference in the ledger. *)
Theorem uninstall_safe (c : Checker) (inventoryAfter : option Z) (report : Report) (w w' : W) :
  reading -> CheckAfter c inventoryAfter w = (Ok report, w') -> Safe report = true ->
  exists pvs claims moves cleanups pools now,
    answered w w' ListPersistentVolumes pvs /\
    Forall (fun pv => forall csi, PersistentVolume.CSI pv = Some csi -> CSI.Driver csi <> DriverName) pvs /\
    answered w w' ListClaims claims /\
    Forall (fun claim => forall class, Claim.StorageClassName claim = Some class -> class ∉ Checker.StorageClassNames c) claims /\
    answered w w' ListVolumes [] /\
    answered w w' ListMoves moves /\ Forall (fun move => MoveCleanupSettled move = true) moves /\
    answered w w' ListCleanups cleanups /\
    Forall (fun cleanup => Status.Phase (Cleanup.Status cleanup) = PhaseCompleted) cleanups /\
    answered w w' ListPoolRegistrations pools /\ answered w w' Now now /\ Forall (settled c inventoryAfter now w w') pools.
Proof.
  intros Hr H Hs. unfold CheckAfter, listDriverPersistentVolumes, claimBlockers, moveBlockers, cleanupBlockers in H. report_inv.
  apply Safe_sorted in Hs. apply app_nil in Hs as [Hpvs Hs]. apply app_nil in Hs as [Hclaims%omap_nil Hs].
  apply app_nil in Hs as [Hvolumes%fmap_nil_inv Hs]. apply app_nil in Hs as [Hmoves%omap_nil Hs]. apply app_nil in Hs as [-> ->]. subst.
  match goal with H : poolBlockers _ _ _ = _ |- _ => destruct (poolBlockers_settled c inventoryAfter _ _ Hr H) as
    (Hw & pools & now & Hpools & Hnow & Hall); clear H end.
  match goal with |- context [answered w ?w' ListPersistentVolumes _] =>
    match type of Hw with steps ?u _ =>
      assert (forall A (call : io W A) (a : A) v v', steps w v -> call v = (Ok a, v') -> steps v' u -> answered w w' call a) as Hans
        by (intros ? ? ? v v' ? ? ?; exists v, v'; split; [done|]; split; [done|by etrans]);
      assert (steps w u) as Hu by read_steps Hr end end.
  eexists _, _, _, _, pools, now.
  split; [eapply Hans; [|eassumption|]; read_steps Hr|]. split; [by apply persistentVolumeBlockers_nil|].
  split; [eapply Hans; [|eassumption|]; read_steps Hr|].
  split; [eapply Forall_impl; [exact Hclaims|apply claimBlocker_None]|].
  split; [eapply Hans; [|eassumption|]; read_steps Hr|].
  split; [eapply Hans; [|eassumption|]; read_steps Hr|]. split; [eapply Forall_impl; [exact Hmoves|apply moveBlocker_None]|].
  split; [eapply Hans; [|eassumption|]; read_steps Hr|].
  split; [eapply Forall_impl; [by apply journal_blockers_nil|]; by intros ? [?|?]|].
  split; [eapply answered_widen; [exact Hu|reflexivity|exact Hpools]|].
  split; [eapply answered_widen; [exact Hu|reflexivity|exact Hnow]|].
  eapply Forall_impl; [exact Hall|]. intros p. by apply settled_widen.
Qed.
End soundness.

(** ** A sample installation *)

Module SampleUninstall.
(** A cluster that does not change: its registrations and volumes. *)
Record cluster := { pools : list Pool; volumes : list (string * State); cleanups : list Cleanup; moves : list Move }.

#[export] Instance repository : VolumeRepository cluster := {
  ListVolumes w := (Ok (volumes w), w);
  ListMoves w := (Ok (moves w), w);
  ListPoolRegistrations w := (Ok (pools w), w);
  RemovePoolFinalizer _ _ w := (Ok tt, w)
}.
#[export] Instance journals : CleanupRepository cluster := { ListCleanups w := (Ok (cleanups w), w) }.
#[export] Instance kubernetes : Cluster cluster := {
  ListPersistentVolumes w :=
    (Ok [{| PersistentVolume.Name := "foreign"; PersistentVolume.CSI := Some {| CSI.Driver := "other"; CSI.VolumeHandle := "x" |};
            PersistentVolume.ClaimRef := None; PersistentVolume.Required := None |}], w);
  ListClaims w :=
    (Ok [{| Claim.Namespace := "default"; Claim.Name := "foreign"; Claim.StorageClassName := Some "other"; Claim.VolumeName := "" |}], w);
  ListPods _ w :=
    (Ok [{| HelperPod.Namespace := "shiftpv"; HelperPod.Name := "helper"; HelperPod.Phase := "Succeeded";
            HelperPod.Spec := {| PodSpec.NodeName := "node-a"; PodSpec.HostPaths := [Some "/pools/a"] |} |}], w);
  ListJobs _ w := (Ok [], w);
  Now w := (Ok 2000%Z, w)
}.

Lemma quiet_reading : reading eq.
Proof. split; intros; match goal with H : _ = (_, _) |- _ => by injection H as _ <- end. Qed.

(** The Pool of [SamplePool], which asks for its retirement. *)
Definition pool (retiring : bool) : Pool :=
  match poolFrom SamplePool.a with
  | Ok p => {| Pool.Name := Pool.Name p; Pool.UID := Pool.UID p; Pool.NodeName := Pool.NodeName p; Pool.PoolGroup := Pool.PoolGroup p;
               Pool.MountPath := Pool.MountPath p; Pool.CapacityPolicy := Pool.CapacityPolicy p; Pool.MountPolicy := Pool.MountPolicy p;
               Pool.CapacityLimit := Pool.CapacityLimit p; Pool.Generation := Pool.Generation p;
               Pool.DeletionTimestamp := Pool.DeletionTimestamp p; Pool.Finalizers := Pool.Finalizers p;
               Pool.IdentityReleaseApproval := ""; Pool.RetirementRequest := if retiring then Pool.UID p else "";
               Pool.RetirementApproval := ""; Pool.CapacityProbeRequest := ""; Pool.Status := Pool.Status p |}
  | Err _ => {| Pool.Name := ""; Pool.UID := ""; Pool.NodeName := ""; Pool.PoolGroup := ""; Pool.MountPath := ""; Pool.CapacityPolicy := "";
                Pool.MountPolicy := ""; Pool.CapacityLimit := ""; Pool.Generation := 0; Pool.DeletionTimestamp := None;
                Pool.Finalizers := []; Pool.IdentityReleaseApproval := ""; Pool.RetirementRequest := "";
                Pool.RetirementApproval := ""; Pool.CapacityProbeRequest := ""; Pool.Status := PoolStatus.empty |}
  end.

Definition checker : Checker :=
  {| Checker.StorageClassNames := ["shiftpv"]; Checker.Namespace := "shiftpv"; Checker.InventoryMaxAge := 0;
     Checker.PreserveRetiredPoolUIDs := [] |}.

(** Nothing but a vacant Pool is left. *)
Definition drained : cluster := {| pools := [pool false]; volumes := []; cleanups := []; moves := [] |}.
(** The Pool retires while a volume serves from another one. *)
Definition retiring : cluster :=
  {| pools := [pool true]; volumes := [(VolumeProtocol.sample_id, VolumeProtocol.sample_ready)]; cleanups := []; moves := [] |}.
End SampleUninstall.

#[local] Existing Instance SampleUninstall.repository.
#[local] Existing Instance SampleUninstall.journals.
#[local] Existing Instance SampleUninstall.kubernetes.

Lemma uninstall_safe_witness :
  CheckAfter (AM := Sample.sample) SampleUninstall.checker (Some 500%Z) SampleUninstall.drained = (Ok [], SampleUninstall.drained) /\
  Forall (settled (AM := Sample.sample) eq SampleUninstall.checker (Some 500%Z) 2000 SampleUninstall.drained SampleUninstall.drained)
    (SampleUninstall.pools SampleUninstall.drained).
Proof.
  assert (CheckAfter (AM := Sample.sample) SampleUninstall.checker (Some 500%Z) SampleUninstall.drained = (Ok [], SampleUninstall.drained))
    as H by (vm_compute; reflexivity).
  split; [exact H|].
  destruct (uninstall_safe (AM := Sample.sample) eq SampleUninstall.checker (Some 500%Z) [] _ _ SampleUninstall.quiet_reading H eq_refl)
    as (pvs & claims & moves & cleanups & pools & now & _ & _ & _ & _ & _ & _ & _ & _ & _ & (w1 & w2 & <- & Hp & _) & (w3 & w4 & <- & Hn & _) & Hall).
  injection Hp as <- _. injection Hn as <- _. exact Hall.
Defined.

Lemma retirement_releases_ledger_witness :
  CheckPoolRetirement (AM := Sample.sample) SampleUninstall.checker "a" "uid-a" SampleUninstall.retiring = (Ok [], SampleUninstall.retiring) /\
  held "uid-a" (holds (SampleUninstall.volumes SampleUninstall.retiring) (list_to_map (SampleUninstall.volumes SampleUninstall.retiring))
    (SampleUninstall.moves SampleUninstall.retiring)) = [].
Proof.
  assert (CheckPoolRetirement (AM := Sample.sample) SampleUninstall.checker "a" "uid-a" SampleUninstall.retiring = (Ok [], SampleUninstall.retiring))
    as H by (vm_compute; reflexivity).
  split; [exact H|].
  destruct (retirement_releases_ledger (AM := Sample.sample) eq SampleUninstall.checker "a" "uid-a" [] _ _ SampleUninstall.quiet_reading H eq_refl)
    as (pools & pool & _ & _ & _ & Hu & _ & _ & (volumes & moves & cleanups & pods & jobs & (w1 & w2 & <- & Hv & _) & (w3 & w4 & <- & Hm & _) & _ & _ & _ & Hh & _)).
  injection Hv as <- _. injection Hm as <- _. rewrite Hu in Hh. exact Hh.
Defined.
