(* ===== verification/UninstallPermit.v ===== *)
(** * The uninstall permit

    src/lifecycle/uninstall/permit.go and gate.go: how an uninstall stops provisioning.
    A guard writes a ConfigMap that asks the controller to quiesce; the controller's
    gate closes, waits for the calls in flight, and acknowledges; only then may the
    guard grant the deletion of protected resources.  The permit expires, so that an
    abandoned uninstall does not block the driver for ever.

    The operations are handlers over a client; [step] runs a controller, guards and any
    number of provisioning calls concurrently, down to single reads and conditional
    writes, with controller restarts, failing calls and the passage of time. *)

From S2P Require Import Prelude Bytes GoTime ApiServer VolumeRegistry PoolRegistry HelperAuth.
From stdpp Require Import relations pretty.

(** ** Data *)

Definition permitLabel : string := "shiftpv.io/uninstall-permit".
Definition permitValue : string := "managed".
Definition stateQuiescing : string := "quiescing".
Definition stateGranted : string := "granted".
(** 5 minutes, in nanoseconds *)
Definition permitTTL : Z := 300000000000.
Definition stateKey : string := "state".
Definition attemptKey : string := "attempt".
Definition expiresAtKey : string := "expiresAt".
Definition controllerAckKey : string := "controllerAck".
Definition controllerAckDone : string := "observed".

Module ConfigMap.
Record ConfigMap := {
  Name : string;
  Namespace : string;
  UID : string;
  ResourceVersion : string;
  Labels : gmap string string;
  OwnerReferences : list OwnerReference;
  Data : gmap string string
}.

Definition set_Data (c : ConfigMap) (key value : string) : ConfigMap :=
  {| Name := Name c; Namespace := Namespace c; UID := UID c; ResourceVersion := ResourceVersion c; Labels := Labels c;
     OwnerReferences := OwnerReferences c; Data := <[key := value]> (Data c) |}.

Definition set_ResourceVersion (c : ConfigMap) (version : string) : ConfigMap :=
  {| Name := Name c; Namespace := Namespace c; UID := UID c; ResourceVersion := version; Labels := Labels c;
     OwnerReferences := OwnerReferences c; Data := Data c |}.
End ConfigMap.
Notation ConfigMap := ConfigMap.ConfigMap.

(** [state.Data[key]] *)
Definition datum (c : ConfigMap) (key : string) : string := label (ConfigMap.Data c) key.

Module CSIDriver.
Record CSIDriver := { Name : string; UID : string }.
End CSIDriver.
Notation CSIDriver := CSIDriver.CSIDriver.

Module Webhook.
Record Webhook := { UID : string; Labels : gmap string string; OwnerReferences : list OwnerReference }.
End Webhook.
Notation Webhook := Webhook.Webhook.

Module PermitStore.
Record PermitStore := { Namespace : string; Name : string; CSIDriver : string }.
End PermitStore.
Notation PermitStore := PermitStore.PermitStore.

(** The typed client, the clock and the source of random attempts. *)
Class PermitClient (W : Type) := {
  NotFound : error -> bool;
  Conflicts : error -> bool;
  GetConfigMap : string -> string -> io W ConfigMap;
  CreateConfigMap : ConfigMap -> io W unit;
  UpdateConfigMap : ConfigMap -> io W unit;
  (** with the UID and version it must have *)
  DeleteConfigMap : string -> string -> string -> string -> io W unit;
  GetCSIDriver : string -> io W CSIDriver;
  GetWebhook : string -> io W Webhook;
  DeleteWebhook : string -> string -> io W unit;
  PermitNow : io W Z;
  (** [time.Format(time.RFC3339Nano)] *)
  FormatNano : Z -> string;
  (** hexadecimal text of 16 random bytes *)
  randomAttempt : io W string
}.

(** ** Decisions *)

Definition permitOwnedBy (owners : list OwnerReference) (name uid : string) : bool :=
  existsb (fun owner =>
    (OwnerReference.APIVersion owner == "storage.k8s.io/v1") && (OwnerReference.Kind owner == "CSIDriver") &&
    (OwnerReference.Name owner == name) && (OwnerReference.UID owner == uid)) owners.

(** The checks of [readState] on the object: whether it is still in force. *)
Definition inForce (state : ConfigMap) (now : Z) : result bool :=
  reject_if (label (ConfigMap.Labels state) permitLabel != permitValue) (Errorf "uninstall state %s/%s is unmanaged");;
  match Parse (datum state expiresAtKey) with
  | Err _ => Err (Errorf "uninstall state %s/%s has invalid expiry")
  | Ok expiresAt => Ok (now <? expiresAt)%Z
  end.

(** What [Quiescing] returns. *)
Definition quiescingState (state : option ConfigMap) : string * bool :=
  match state with
  | None => ("", false)
  | Some state => (datum state attemptKey, (datum state stateKey == stateQuiescing) || (datum state stateKey == stateGranted))
  end.

(** The update [Acknowledge] makes, if any. *)
Definition acknowledgement (attempt : string) (state : option ConfigMap) : option ConfigMap :=
  match state with
  | None => None
  | Some state =>
      if (datum state stateKey != stateQuiescing) || (datum state attemptKey != attempt) ||
         (datum state controllerAckKey == controllerAckDone)
      then None else Some (ConfigMap.set_Data state controllerAckKey controllerAckDone)
  end.

(** The update [Grant] makes. *)
Definition grantUpdate (attempt : string) (state : option ConfigMap) : result ConfigMap :=
  match state with
  | None => Err (Errorf "controller has not acknowledged uninstall quiesce attempt %q")
  | Some state =>
      if (datum state stateKey != stateQuiescing) || (datum state attemptKey != attempt) ||
         (datum state controllerAckKey != controllerAckDone)
      then Err (Errorf "controller has not acknowledged uninstall quiesce attempt %q")
      else Ok (ConfigMap.set_Data state stateKey stateGranted)
  end.

(** What [Granted] returns. *)
Definition grantedState (state : option ConfigMap) : bool :=
  some_and state (fun state => (datum state stateKey == stateGranted) && (datum state controllerAckKey == controllerAckDone)).

Definition desired (p : PermitStore) (driver : CSIDriver) (state attempt expiresAt : string) : ConfigMap :=
  {| ConfigMap.Name := PermitStore.Name p; ConfigMap.Namespace := PermitStore.Namespace p; ConfigMap.UID := "";
     ConfigMap.ResourceVersion := ""; ConfigMap.Labels := {[permitLabel := permitValue]};
     ConfigMap.OwnerReferences :=
       [{| OwnerReference.APIVersion := "storage.k8s.io/v1"; OwnerReference.Kind := "CSIDriver";
           OwnerReference.Name := CSIDriver.Name driver; OwnerReference.UID := CSIDriver.UID driver;
           OwnerReference.Controller := None |}];
     ConfigMap.Data := {[stateKey := state; attemptKey := attempt; expiresAtKey := expiresAt]} |}.

(** ** Handlers *)

Section handlers.
Context {W : Type} {PC : PermitClient W} (p : PermitStore).

Definition validate : io W unit :=
  io_reject_if ((PermitStore.Namespace p == "") || (PermitStore.Name p == "") || (PermitStore.CSIDriver p == ""))
    (Errorf "uninstall permit store is not configured").

Definition currentDriver : io W CSIDriver :=
  wrap_error "read uninstall state owner CSIDriver: %w" (GetCSIDriver (PermitStore.CSIDriver p)).

Definition readState : io W (option ConfigMap) :=
  validate;;
  got ← catch (GetConfigMap (PermitStore.Namespace p) (PermitStore.Name p));
  match got with
  | Err err => if NotFound err then mret None else io_fail (Wrapf [err] "read uninstall state: %w")
  | Ok state =>
      now ← PermitNow;
      current ← io_lift (inForce state now);
      if negb current then mret None
      else
        driver ← currentDriver;
        io_reject_if (negb (permitOwnedBy (ConfigMap.OwnerReferences state) (PermitStore.CSIDriver p) (CSIDriver.UID driver)))
          (Errorf "uninstall state %s/%s has the wrong CSIDriver owner");;
        mret (Some state)
  end.

Definition BeginQuiesce : io W string :=
  validate;;
  driver ← currentDriver;
  attempt ← randomAttempt;
  now ← PermitNow;
  let wanted := desired p driver stateQuiescing attempt (FormatNano (now + permitTTL)) in
  got ← catch (GetConfigMap (PermitStore.Namespace p) (PermitStore.Name p));
  match got with
  | Err err =>
      if NotFound err then
        wrap_error "create uninstall quiesce state: %w" (CreateConfigMap wanted);;
        mret attempt
      else io_fail (Wrapf [err] "read uninstall quiesce state: %w")
  | Ok existing =>
      io_reject_if ((label (ConfigMap.Labels existing) permitLabel != permitValue) ||
                    negb (permitOwnedBy (ConfigMap.OwnerReferences existing) (PermitStore.CSIDriver p) (CSIDriver.UID driver)))
        (Errorf "refuse to replace unmanaged uninstall state %s/%s");;
      wrap_error "update uninstall quiesce state: %w"
        (UpdateConfigMap (ConfigMap.set_ResourceVersion wanted (ConfigMap.ResourceVersion existing)));;
      mret attempt
  end.

(** The condition [WaitForQuiesced] polls. *)
Definition quiesced (attempt : string) : io W bool :=
  state ← readState;
  match state with
  | None => io_fail (Errorf "uninstall quiesce state changed before controller acknowledgement")
  | Some state =>
      io_reject_if ((datum state attemptKey != attempt) || (datum state stateKey != stateQuiescing))
        (Errorf "uninstall quiesce state changed before controller acknowledgement");;
      mret (datum state controllerAckKey == controllerAckDone)
  end.

(** [wait.PollUntilContextCancel]: [polls] is how often the condition is tried before
    the context ends. *)
Fixpoint poll (polls : nat) (condition : io W bool) : io W unit :=
  match polls with
  | O => io_fail (Errorf "context deadline exceeded")
  | S polls => finished ← condition; if finished : bool then mret tt else poll polls condition
  end.

Definition WaitForQuiesced (polls : nat) (attempt : string) : io W unit :=
  io_reject_if (attempt == "") (Errorf "uninstall attempt is required");;
  poll polls (quiesced attempt).

Definition Quiescing : io W (string * bool) :=
  state ← readState;
  mret (quiescingState state).

Definition retryUpdate (polls : nat) (update : io W unit) : io W unit :=
  poll polls (updated ← catch update;
              match updated with
              | Ok _ => mret true
              | Err err => if Conflicts err then mret false else io_fail err
              end).

Definition Acknowledge (polls : nat) (attempt : string) : io W unit :=
  io_reject_if (attempt == "") (Errorf "uninstall attempt is required");;
  retryUpdate polls
    (state ← readState;
     match acknowledgement attempt state with
     | None => mret tt
     | Some next => UpdateConfigMap next
     end).

Definition Grant (polls : nat) (attempt : string) : io W unit :=
  io_reject_if (attempt == "") (Errorf "uninstall attempt is required");;
  retryUpdate polls
    (state ← readState;
     next ← io_lift (grantUpdate attempt state);
     UpdateConfigMap next).

Definition Granted : io W bool :=
  state ← readState;
  mret (grantedState state).

Definition Cancel (polls : nat) (attempt : string) : io W unit :=
  retryUpdate polls
    (state ← readState;
     match state with
     | None => mret tt
     | Some state =>
         if datum state attemptKey != attempt then mret tt
         else
           deleted ← catch (DeleteConfigMap (PermitStore.Namespace p) (PermitStore.Name p) (ConfigMap.UID state) (ConfigMap.ResourceVersion state));
           match deleted with
           | Ok _ => mret tt
           | Err err => if NotFound err then mret tt else io_fail (Wrapf [err] "cancel uninstall quiesce state: %w")
           end
     end).

Definition DisableValidation (configurationName : string) : io W unit :=
  validate;;
  io_reject_if (configurationName == "") (Errorf "lifecycle validation configuration name is required");;
  driver ← currentDriver;
  got ← catch (GetWebhook configurationName);
  match got with
  | Err err => if NotFound err then mret tt else io_fail (Wrapf [err] "read lifecycle validation configuration: %w")
  | Ok configuration =>
      let labels := Webhook.Labels configuration in
      io_reject_if ((label labels "app.kubernetes.io/name" != "shiftpv") ||
                    (label labels "app.kubernetes.io/managed-by" != "shiftpv-controller") ||
                    (label labels "app.kubernetes.io/component" != "lifecycle-admission") ||
                    negb (permitOwnedBy (Webhook.OwnerReferences configuration) (PermitStore.CSIDriver p) (CSIDriver.UID driver)))
        (Errorf "refuse to delete unmanaged lifecycle validation configuration %q");;
      deleted ← catch (DeleteWebhook configurationName (Webhook.UID configuration));
      match deleted with
      | Ok _ => mret tt
      | Err err => if NotFound err then mret tt else io_fail (Wrapf [err] "delete lifecycle validation configuration: %w")
      end
  end.
End handlers.
