(* ===== verification/UninstallGate.v ===== *)
(** * The quiesce gate

    src/lifecycle/uninstall/gate.go: the gate every provisioning call of the controller
    enters, and the loop that closes it while an uninstall permit is in force.  The
    operations are [Enter], [leave], [RunValidation], [observe] (the critical section of
    [sync]), [sync], [Bootstrap] and [Run].

    [step] runs one controller, any number of its provisioning calls, its certificate
    manager and any number of uninstall guards concurrently, down to single reads and
    conditional writes of the permit: a write may arrive long after it was sent, or
    after the controller that sent it died; a controller may restart at any time; any
    call may fail; time passes.  One clock stands for those of the controller and the
    guards.  The controller serves only after a first [sync] ([Bootstrap], before
    main.go starts the CSI server and the certificate manager). *)

From S2P Require Import Prelude Bytes GoTime ApiServer VolumeRegistry PoolRegistry HelperAuth UninstallPermit.
From stdpp Require Import relations pretty.

(** ** Operations *)

(** The state [mu] protects. *)
Record QuiesceGate := { quiescing : bool; active : Z }.

Definition newGate : QuiesceGate := {| quiescing := false; active := 0 |}.

Definition Enter (g : QuiesceGate) : result QuiesceGate :=
  if quiescing g then Err (Errorf "ShiftPV uninstall is quiescing new volume provisioning")
  else Ok {| quiescing := quiescing g; active := active g + 1 |}.

(** The function [Enter] returns, which takes effect once. *)
Definition leave (g : QuiesceGate) : QuiesceGate := {| quiescing := quiescing g; active := active g - 1 |}.

(** The critical section of [sync]. *)
Definition observe (g : QuiesceGate) (q : bool) : QuiesceGate * bool :=
  ({| quiescing := q; active := active g |}, q && (active g =? 0)%Z).

Section handlers.
Context {W : Type} {PC : PermitClient W} (p : PermitStore).
Context (gate : W -> QuiesceGate) (set_gate : QuiesceGate -> W -> W).

Definition RunValidation (operation : io W unit) : io W unit :=
  fun w => if quiescing (gate w) then (Ok tt, w) else operation w.

Definition sync (polls : nat) : io W unit :=
  '(attempt, q) ← Quiescing p;
  ready ← (fun w => let '(g, ready) := observe (gate w) q in (Ok ready, set_gate g w));
  if ready : bool then Acknowledge p polls attempt else mret tt.

Definition Bootstrap (polls : nat) (interval : Z) : io W unit :=
  io_reject_if (interval <=? 0)%Z (Errorf "uninstall quiesce gate is not configured");;
  sync polls.

(** [ticks] is how often the ticker fires before the context ends; errors are logged. *)
Fixpoint ticking (polls ticks : nat) : io W unit :=
  match ticks with
  | O => mret tt
  | S ticks => catch (sync polls);; ticking polls ticks
  end.

Definition Run (polls ticks : nat) (interval : Z) : io W unit :=
  Bootstrap polls interval;;
  ticking polls ticks.
End handlers.

(** ** Concurrent execution *)

Definition versionOf (revision : N) : string := "r" +:+ pretty revision.

Lemma versionOf_inj (a b : N) : versionOf a = versionOf b -> a = b.
Proof. unfold versionOf. intros H. by simplify_eq/=. Qed.

Inductive write :=
| Create (object : ConfigMap)
| Update (object : ConfigMap)
| Delete (uid version : string).

Definition stamp (object : ConfigMap) (uid : string) (revision : N) : ConfigMap :=
  {| ConfigMap.Name := ConfigMap.Name object; ConfigMap.Namespace := ConfigMap.Namespace object; ConfigMap.UID := uid;
     ConfigMap.ResourceVersion := versionOf revision; ConfigMap.Labels := ConfigMap.Labels object;
     ConfigMap.OwnerReferences := ConfigMap.OwnerReferences object; ConfigMap.Data := ConfigMap.Data object |}.

(** What a write leaves at the API server, when its preconditions hold.  An update with
    no version is unconditional. *)
Definition commit (w : write) (stored : option ConfigMap) (revision : N) : option (option ConfigMap) :=
  match w, stored with
  | Create object, None => Some (Some (stamp object (versionOf revision) revision))
  | Update object, Some current =>
      if (ConfigMap.ResourceVersion object == "") || (ConfigMap.ResourceVersion object == ConfigMap.ResourceVersion current)
      then Some (Some (stamp object (ConfigMap.UID current) revision)) else None
  | Delete uid version, Some current =>
      if (ConfigMap.UID current == uid) && (ConfigMap.ResourceVersion current == version) then Some None else None
  | _, _ => None
  end.

(** Where the goroutine of [sync] is. *)
Inductive pc :=
| Idle
| Read (snapshot : option ConfigMap)
| Decided (attempt : string) (q : bool)
| Acking (attempt : string)
| AckRead (attempt : string) (snapshot : option ConfigMap)
| AckWait (attempt : string).

Record System := {
  stored : option ConfigMap;
  revision : N;
  clock : Z;
  pending : list write;
  gate : QuiesceGate;
  calls : gset nat;
  validating : bool;
  serving : bool;
  at_pc : pc
}.

Definition set_server (s : System) (st : option ConfigMap) (rev : N) (ws : list write) : System :=
  {| stored := st; revision := rev; clock := clock s; pending := ws; gate := gate s; calls := calls s;
     validating := validating s; serving := serving s; at_pc := at_pc s |}.
Definition set_clock (s : System) (now : Z) : System :=
  {| stored := stored s; revision := revision s; clock := now; pending := pending s; gate := gate s; calls := calls s;
     validating := validating s; serving := serving s; at_pc := at_pc s |}.
Definition send (s : System) (w : write) : System := set_server s (stored s) (revision s) (w :: pending s).
Definition set_calls (s : System) (g : QuiesceGate) (cs : gset nat) : System :=
  {| stored := stored s; revision := revision s; clock := clock s; pending := pending s; gate := g; calls := cs;
     validating := validating s; serving := serving s; at_pc := at_pc s |}.
Definition set_validating (s : System) (b : bool) : System :=
  {| stored := stored s; revision := revision s; clock := clock s; pending := pending s; gate := gate s; calls := calls s;
     validating := b; serving := serving s; at_pc := at_pc s |}.
Definition set_sync (s : System) (g : QuiesceGate) (serves : bool) (next : pc) : System :=
  {| stored := stored s; revision := revision s; clock := clock s; pending := pending s; gate := g; calls := calls s;
     validating := validating s; serving := serves; at_pc := next |}.

Section system.
Context (p : PermitStore) (driver : CSIDriver).

(** What [readState] makes of the object it got. *)
Definition stateOf (got : option ConfigMap) (now : Z) : result (option ConfigMap) :=
  match got with
  | None => Ok None
  | Some state =>
      current ← inForce state now;
      if negb current then Ok None
      else if negb (permitOwnedBy (ConfigMap.OwnerReferences state) (PermitStore.CSIDriver p) (CSIDriver.UID driver))
      then Err (Errorf "uninstall state %s/%s has the wrong CSIDriver owner")
      else Ok (Some state)
  end.

Inductive step (s : System) : System -> Prop :=
| step_tick now : (clock s <= now)%Z -> step s (set_clock s now)
(** provisioning calls *)
| step_enter c g : serving s = true -> c ∉ calls s -> Enter (gate s) = Ok g -> step s (set_calls s g ({[c]} ∪ calls s))
| step_leave c : c ∈ calls s -> step s (set_calls s (leave (gate s)) (calls s ∖ {[c]}))
(** [RunValidation], which holds [validationMu] while the operation runs *)
| step_validate : serving s = true -> validating s = false -> quiescing (gate s) = false -> step s (set_validating s true)
| step_validated : step s (set_validating s false)
(** [sync] *)
| step_read : at_pc s = Idle -> step s (set_sync s (gate s) (serving s) (Read (stored s)))
| step_decide snapshot st :
    at_pc s = Read snapshot -> stateOf snapshot (clock s) = Ok st ->
    step s (set_sync s (gate s) (serving s) (Decided (quiescingState st).1 (quiescingState st).2))
| step_close attempt q g :
    at_pc s = Decided attempt q -> validating s = false -> observe (gate s) q = (g, true) ->
    step s (set_sync s g (serving s) (Acking attempt))
| step_pass attempt q g :
    at_pc s = Decided attempt q -> validating s = false -> observe (gate s) q = (g, false) -> step s (set_sync s g true Idle)
| step_ack_read attempt :
    at_pc s = Acking attempt -> attempt <> "" -> step s (set_sync s (gate s) (serving s) (AckRead attempt (stored s)))
| step_ack_send attempt snapshot st next :
    at_pc s = AckRead attempt snapshot -> stateOf snapshot (clock s) = Ok st -> acknowledgement attempt st = Some next ->
    step s (send (set_sync s (gate s) (serving s) (AckWait attempt)) (Update next))
| step_ack_none attempt snapshot st :
    at_pc s = AckRead attempt snapshot -> stateOf snapshot (clock s) = Ok st -> acknowledgement attempt st = None ->
    step s (set_sync s (gate s) true Idle)
| step_ack_done attempt : at_pc s = AckWait attempt -> step s (set_sync s (gate s) true Idle)
| step_ack_retry attempt : at_pc s = AckWait attempt -> step s (set_sync s (gate s) (serving s) (Acking attempt))
| step_error : step s (set_sync s (gate s) (serving s) Idle)
| step_restart : step s (set_calls (set_validating (set_sync s newGate false Idle) false) newGate ∅)
(** guards: [BeginQuiesce], [Grant] and [Cancel], whose writes may arrive at any later
    time *)
| step_begin_create attempt expiresAt :
    stored s = None -> step s (send s (Create (desired p driver stateQuiescing attempt expiresAt)))
| step_begin_update existing attempt expiresAt :
    stored s = Some existing ->
    step s (send s (Update (ConfigMap.set_ResourceVersion (desired p driver stateQuiescing attempt expiresAt)
                              (ConfigMap.ResourceVersion existing))))
| step_grant attempt st next :
    stateOf (stored s) (clock s) = Ok st -> grantUpdate attempt st = Ok next -> step s (send s (Update next))
| step_cancel st :
    stateOf (stored s) (clock s) = Ok (Some st) -> step s (send s (Delete (ConfigMap.UID st) (ConfigMap.ResourceVersion st)))
(** the API server *)
| step_commit before w after st :
    pending s = before ++ w :: after -> commit w (stored s) (revision s + 1) = Some st ->
    step s (set_server s st (revision s + 1) (before ++ after))
| step_collect : step s (set_server s None (revision s) (pending s)).

Definition started (now : Z) : System :=
  {| stored := None; revision := 0; clock := now; pending := []; gate := newGate; calls := ∅; validating := false;
     serving := false; at_pc := Idle |}.

(** ** The invariant *)

(** The acknowledged request [c] is in force until [t]. *)
Definition phase (c : ConfigMap) : bool := (datum c stateKey == stateQuiescing) || (datum c stateKey == stateGranted).
Definition acked (c : ConfigMap) : bool := datum c controllerAckKey == controllerAckDone.
Definition expiry (c : ConfigMap) (t : Z) : Prop := Parse (datum c expiresAtKey) = Ok t.

(** A version this server handed out, whose content is what the server has if it still
    has that version. *)
Definition known (s : System) (d : ConfigMap) : Prop :=
  (exists n, ConfigMap.ResourceVersion d = versionOf n /\ (n <= revision s)%N) /\
  forall current, stored s = Some current -> ConfigMap.ResourceVersion current = ConfigMap.ResourceVersion d -> current = d.

(** A write that may turn a request into an acknowledged one keeps its expiry. *)
Definition write_ok (s : System) (w : write) : Prop :=
  match w with
  | Create c => acked c = false
  | Update c =>
      exists d, known s d /\ ConfigMap.ResourceVersion c = ConfigMap.ResourceVersion d /\
        (acked c = true -> phase c = true /\ phase d = true /\ datum c expiresAtKey = datum d expiresAtKey)
  | Delete _ _ => True
  end.

(** An acknowledged request is stored, or may still be. *)
Definition armed (s : System) (c : ConfigMap) : Prop :=
  acked c = true /\ phase c = true /\
  exists current, stored s = Some current /\
    (current = c \/ (Update c ∈ pending s /\ ConfigMap.ResourceVersion c = ConfigMap.ResourceVersion current)).

(** What [sync] is about to do keeps the gate closed until [t]. *)
Definition closing (q : bool) (at_pc : pc) (t : Z) : Prop :=
  match at_pc with
  | Idle => True
  | Read snapshot => exists d, snapshot = Some d /\ phase d = true /\ expiry d t
  | Decided _ q => q = true
  | Acking _ | AckRead _ _ | AckWait _ => q = true
  end.

Definition closed (s : System) (t : Z) : Prop :=
  calls s = ∅ /\ validating s = false /\ (serving s = true -> quiescing (gate s) = true) /\
  closing (quiescing (gate s)) (at_pc s) t.

(** What [sync] knows while it acknowledges. *)
Definition acking (s : System) : Prop :=
  match at_pc s with
  | Acking _ | AckWait _ => quiescing (gate s) = true /\ calls s = ∅
  | AckRead _ snapshot => quiescing (gate s) = true /\ calls s = ∅ /\ forall d, snapshot = Some d -> known s d
  | _ => True
  end.

Record consistent (s : System) : Prop := {
  active_calls : active (gate s) = Z.of_nat (size (calls s));
  validation_open : quiescing (gate s) = true -> validating s = false;
  stored_known current : stored s = Some current -> known s current;
  stored_phase current : stored s = Some current -> acked current = true -> phase current = true;
  pending_ok w : w ∈ pending s -> write_ok s w;
  acking_ok : acking s;
  armed_closed c t : armed s c -> expiry c t -> (clock s < t)%Z -> closed s t
}.

(** ** Preservation *)

(** The server's object is the same, gone, or has a version nobody saw before. *)
Definition extends (s s' : System) : Prop :=
  (revision s <= revision s')%N /\
  (stored s' = stored s \/ stored s' = None \/
   exists c, stored s' = Some c /\ ConfigMap.ResourceVersion c = versionOf (revision s') /\ (revision s < revision s')%N).

Lemma known_extends (s s' : System) (d : ConfigMap) : extends s s' -> known s d -> known s' d.
Proof.
  intros [Hle Hs] [(n & Hn & Hr) Hc]. split; [exists n; split; [done | lia]|].
  destruct Hs as [-> | [-> | (c & -> & Hv & Hlt)]]; [done | done |].
  intros current Heq Hsame. simplify_eq. rewrite Hn, Hv in Hsame. apply versionOf_inj in Hsame. lia.
Qed.

Lemma write_extends (s s' : System) (w : write) : extends s s' -> write_ok s w -> write_ok s' w.
Proof. intros He. destruct w as [c|c|]; [done | | done]. intros (d & Hd & ?). exists d. split; [by eapply known_extends | done]. Qed.

Lemma commit_version (w : write) (st st' : option ConfigMap) (rev : N) (c : ConfigMap) :
  commit w st rev = Some st' -> st' = Some c -> ConfigMap.ResourceVersion c = versionOf rev.
Proof. intros H ->. destruct w, st; simpl in H; try done; repeat (case_match; try done); by simplify_eq. Qed.

Lemma step_extends (s s' : System) : step s s' -> extends s s'.
Proof.
  intros H. destruct H; unfold extends, send; simpl; try (split; [lia | by left]).
  - split; [lia|]. right. destruct st as [c|]; [right | by left]. exists c. split_and!; [done | by eapply commit_version | lia].
  - split; [lia|]. by right; left.
Qed.

(** What [stateOf] and the decisions say. *)
Lemma stateOf_Some (got : option ConfigMap) (now : Z) (c : ConfigMap) :
  stateOf got now = Ok (Some c) -> got = Some c /\ exists t, expiry c t /\ (now < t)%Z.
Proof.
  unfold stateOf. destruct got as [d|]; [|done]. unfold inForce, expiry, reject_if.
  destruct (label _ _ != _) eqn:El; simpl; [done|]. destruct (Parse _) as [t|] eqn:Ep; simpl; [|done].
  destruct (now <? t)%Z eqn:Et; simpl; [|done]. case_match; [done|]. intros Hok. simplify_eq. split; [done|].
  exists t. split; [done | lia].
Qed.

Lemma stateOf_live (d : ConfigMap) (now t : Z) (st : option ConfigMap) :
  expiry d t -> (now < t)%Z -> stateOf (Some d) now = Ok st -> st = Some d.
Proof.
  unfold expiry, stateOf, inForce, reject_if. intros Ht Hlt. destruct (label _ _ != _); simpl; [done|]. rewrite Ht. simpl.
  replace (now <? t)%Z with true by lia. simpl. case_match; congruence.
Qed.

Lemma datum_set (c : ConfigMap) (key key' value : string) :
  datum (ConfigMap.set_Data c key value) key' = if key == key' then value else datum c key'.
Proof.
  unfold datum, label. simpl. case_bool_decide as E; [subst; by rewrite lookup_insert_eq | by rewrite lookup_insert_ne].
Qed.

Lemma acknowledgement_spec (attempt : string) (st : option ConfigMap) (c : ConfigMap) :
  acknowledgement attempt st = Some c -> exists d, st = Some d /\ phase d = true /\
    c = ConfigMap.set_Data d controllerAckKey controllerAckDone.
Proof.
  destruct st as [d|]; [|done]. simpl. unfold phase. destruct (datum d stateKey == stateQuiescing) eqn:E; simpl; [|done].
  case_match; [done|]. intros Hok. simplify_eq. exists d. by rewrite E.
Qed.

Lemma grantUpdate_spec (attempt : string) (st : option ConfigMap) (c : ConfigMap) :
  grantUpdate attempt st = Ok c -> exists d, st = Some d /\ phase d = true /\ acked d = true /\
    c = ConfigMap.set_Data d stateKey stateGranted.
Proof.
  destruct st as [d|]; [|done]. simpl. unfold phase, acked. destruct (datum d stateKey == stateQuiescing) eqn:E; simpl; [|done].
  destruct (datum d attemptKey == attempt); simpl; [|done]. destruct (datum d controllerAckKey == controllerAckDone) eqn:Ea; simpl; [|done].
  intros H. simplify_eq. exists d. by rewrite E, Ea.
Qed.

Lemma acked_granted (d : ConfigMap) :
  phase d = true -> let c := ConfigMap.set_Data d stateKey stateGranted in
  phase c = true /\ acked c = acked d /\ datum c expiresAtKey = datum d expiresAtKey.
Proof. intros Hd. unfold phase, acked. by rewrite !datum_set. Qed.

Lemma phase_acked (d : ConfigMap) :
  phase d = true -> let c := ConfigMap.set_Data d controllerAckKey controllerAckDone in
  phase c = true /\ acked c = true /\ datum c expiresAtKey = datum d expiresAtKey.
Proof. intros Hd. unfold phase, acked in *. by rewrite !datum_set. Qed.

Lemma desired_unacked (version attempt expiresAt : string) :
  acked (ConfigMap.set_ResourceVersion (desired p driver stateQuiescing attempt expiresAt) version) = false.
Proof. done. Qed.

Lemma pending_send (s : System) (w w' : write) :
  (forall w, w ∈ pending s -> write_ok s w) -> write_ok s w -> w' ∈ pending (send s w) -> write_ok s w'.
Proof. intros Hp Hw [->|H]%elem_of_cons; [done | by apply Hp]. Qed.

Lemma step_pending (s s' : System) (w : write) :
  consistent s -> step s s' -> w ∈ pending s' -> write_ok s' w.
Proof.
  intros Hc Hstep Hw. eapply write_extends; [by apply step_extends|]. pose proof (pending_ok s Hc) as Hp.
  destruct Hstep; try by apply Hp.
  - eapply pending_send; [apply Hp | | exact Hw]. apply stateOf_Some in H0 as [-> _] || idtac.
    destruct (acknowledgement_spec _ _ _ H1) as (d & -> & Hd & ->). destruct (stateOf_Some _ _ _ H0) as [-> _].
    pose proof (acking_ok s Hc) as Ha. unfold acking in Ha. rewrite H in Ha. exists d.
    split_and!; [by apply Ha | done | intros _]. destruct (phase_acked d Hd) as (? & _ & ?). done.
  - eapply pending_send; [apply Hp | | exact Hw]. done.
  - eapply pending_send; [apply Hp | | exact Hw]. exists existing. split_and!; [by apply Hc | done | done].
  - eapply pending_send; [apply Hp | | exact Hw]. destruct (grantUpdate_spec _ _ _ H0) as (d & -> & Hd & _ & ->).
    destruct (stateOf_Some _ _ _ H) as [Hs _]. exists d. split_and!; [by apply Hc | done | intros _].
    destruct (acked_granted d Hd) as (? & _ & ?). done.
  - eapply pending_send; [apply Hp | | exact Hw]. done.
  - apply Hp. rewrite H. simpl in Hw. set_solver.
Qed.

Lemma step_calls (s s' : System) :
  consistent s -> step s s' ->
  active (gate s') = Z.of_nat (size (calls s')) /\ (quiescing (gate s') = true -> validating s' = false).
Proof.
  intros [Ha Hv _ _ _ _ _] Hstep. destruct Hstep; simpl; try done.
  - unfold Enter in H1. destruct (quiescing (gate s)) eqn:Eq; simplify_eq/=. split; [|done].
    rewrite size_union, size_singleton by set_solver. lia.
  - split; [|done]. rewrite size_difference, size_singleton by set_solver.
    assert (size (calls s) <> 0) by (intros E; apply size_empty_inv in E; set_solver). lia.
  - by rewrite H1.
  - unfold observe in H1. by simplify_eq/=.
  - unfold observe in H1. by simplify_eq/=.
Qed.

(** Steps that leave the gate and [sync] alone. *)
Lemma acking_frame (s s' : System) :
  acking s -> extends s s' -> at_pc s' = at_pc s -> gate s' = gate s -> calls s' = calls s -> acking s'.
Proof.
  unfold acking. intros Ha He -> -> ->. destruct (at_pc s); try done. destruct Ha as (? & ? & Hk).
  split_and!; [done | done |]. intros d Hd. eapply known_extends; [done | by apply Hk].
Qed.

(** Nothing can be entered or left while [sync] acknowledges. *)
Lemma acking_calls (s s' : System) (c : nat) :
  acking s -> (quiescing (gate s) = false \/ c ∈ calls s) -> at_pc s' = at_pc s -> acking s'.
Proof.
  unfold acking. intros Ha Hc ->. destruct (at_pc s); try done; exfalso; destruct_and?;
    (destruct Hc; [congruence | set_solver]).
Qed.

Lemma observe_ready (s : System) (q : bool) (g : QuiesceGate) (ready : bool) :
  consistent s -> observe (gate s) q = (g, ready) ->
  quiescing g = q /\ (ready = true -> q = true /\ calls s = ∅) /\ (calls s = ∅ -> q = true -> ready = true).
Proof.
  intros Hc. unfold observe. rewrite (active_calls s Hc). intros H. simplify_eq. split_and!; [done | |].
  - intros [Hq Hz]%andb_true_iff. split; [done|]. apply size_empty_inv in Hz || (apply leibniz_equiv, size_empty_inv; lia).
  - intros -> ->. by rewrite size_empty.
Qed.

Lemma step_acking (s s' : System) : consistent s -> step s s' -> acking s'.
Proof.
  intros Hc Hstep. pose proof (step_extends s s' Hstep) as He. pose proof (acking_ok s Hc) as Ha.
  destruct Hstep; try (by eapply acking_frame); try done; try (unfold acking in *; rewrite H in Ha; by simpl in *).
  - eapply (acking_calls s _ c); [done | left | done]. unfold Enter in H1. by destruct (quiescing (gate s)).
  - eapply (acking_calls s _ c); [done | by right | done].
  - destruct (observe_ready s q g true Hc H1) as (Hg & Hr & _). destruct (Hr eq_refl) as [-> ?]. done.
  - unfold acking in *. rewrite H in Ha. destruct Ha as [? ?]. simpl. split_and!; [done | done | apply Hc].
  - unfold acking in *. rewrite H in Ha. by destruct Ha as (? & ? & _).
Qed.

(** The stored request under an armed one has its expiry. *)
Lemma armed_stored (s : System) (c : ConfigMap) :
  consistent s -> armed s c -> exists current, stored s = Some current /\ phase current = true /\
    datum c expiresAtKey = datum current expiresAtKey.
Proof.
  intros Hc (Ha & Hp & current & Hs & [<-|[Hw Hv]]); exists current; [done|].
  destruct (pending_ok s Hc _ Hw) as (d & [_ Hd] & Hvd & Hack). rewrite Hvd in Hv.
  pose proof (Hd current Hs (eq_sym Hv)). subst current. by destruct (Hack Ha) as (_ & ? & ?).
Qed.

(** A gate that is closed for an armed request stays closed. *)
Lemma step_closed (s s' : System) (c : ConfigMap) (t : Z) :
  consistent s -> armed s c -> expiry c t -> (clock s < t)%Z -> closed s t -> step s s' -> closed s' t.
Proof.
  intros Hc Harm Ht Hlt (Hcalls & Hval & Hq & Hpc) Hstep. unfold closed.
  destruct Hstep; simpl; try rewrite H in Hpc; try done.
  - unfold Enter in H1. by rewrite (Hq H) in H1.
  - set_solver.
  - by rewrite (Hq H) in H1.
  - destruct (armed_stored s c Hc Harm) as (d & Hs & Hd & He). unfold expiry in *. rewrite He in Ht. by eauto 10.
  - destruct Hpc as (d & -> & Hd & Hdt). rewrite (stateOf_live _ _ _ _ Hdt Hlt H0). done.
  - destruct (observe_ready s q g true Hc H1) as (-> & _). by rewrite Hpc.
  - simpl in Hpc. subst q. destruct (observe_ready s true g false Hc H1) as (_ & _ & Hr). by specialize (Hr Hcalls eq_refl).
Qed.

Lemma commit_armed (s : System) (w : write) (st : option ConfigMap) (rev : N) (c : ConfigMap) :
  consistent s -> w ∈ pending s -> commit w (stored s) rev = Some st -> st = Some c -> acked c = true ->
  phase c = true /\ exists c0, armed s c0 /\ datum c0 expiresAtKey = datum c expiresAtKey.
Proof.
  intros Hc Hw Hcommit -> Ha. pose proof (pending_ok s Hc w Hw) as Hok.
  destruct w as [o|o|], (stored s) as [current|] eqn:Es; simpl in Hcommit; try done; try (by case_match).
  - simplify_eq. by unfold write_ok, acked, datum in *; simpl in *; congruence.
  - destruct Hok as (d & [(n & Hn & _) _] & Hv & Hack). rewrite Hv, Hn in Hcommit.
    replace (versionOf n == "") with false in Hcommit by done. simpl in Hcommit.
    destruct (versionOf n == ConfigMap.ResourceVersion current) eqn:Ev; simplify_eq.
    destruct (Hack Ha) as (Hp & _). split; [done|]. exists o. split; [|done]. split_and!; [done | done |].
    exists current. split; [done|]. right. split; [done|]. apply bool_decide_eq_true in Ev. congruence.
Qed.

(** A request that is already stored, or one the server has not seen. *)
Lemma armed_send (s : System) (w : write) (c : ConfigMap) : armed (send s w) c -> armed s c \/ w = Update c.
Proof.
  intros (Ha & Hp & current & Hs & [<-|[Hw Hv]]); simpl in *.
  - left. split_and!; [done | done |]. exists current. by auto.
  - apply elem_of_cons in Hw as [<-|Hw]; [by right|]. left. split_and!; [done | done |]. exists current. by auto.
Qed.

(** Where an armed request comes from. *)
Lemma step_armed (s s' : System) (c : ConfigMap) :
  consistent s -> step s s' -> armed s' c ->
  (exists c0, armed s c0 /\ datum c0 expiresAtKey = datum c expiresAtKey) \/ exists attempt, at_pc s' = AckWait attempt.
Proof.
  intros Hc Hstep Harm.
  destruct Hstep; try (left; exists c; done).
  - right. by exists attempt.
  - left. apply armed_send in Harm as [?|Hw]; [by exists c | done].
  - left. pose proof Harm as [Ha _]. apply armed_send in Harm as [?|Hw]; [by exists c|]. by simplify_eq.
  - left. apply armed_send in Harm as [?|Hw]; [by exists c|]. simplify_eq.
    destruct (grantUpdate_spec _ _ _ H0) as (d & -> & Hd & Ha & ->). destruct (stateOf_Some _ _ _ H) as [Hs _].
    exists d. split; [|by destruct (acked_granted d Hd) as (_ & _ & ?)]. split_and!; [done | done |]. exists d. by auto.
  - left. apply armed_send in Harm as [?|Hw]; [by exists c | done].
  - left. destruct Harm as (Ha & Hp & current & Hs & Hor). simpl in *. destruct Hor as [<-|[Hw Hv]].
    + destruct (commit_armed s w st (revision s + 1) current Hc) as (_ & ?); [rewrite H; set_solver | done..].
    + exfalso. destruct (pending_ok s Hc (Update c)) as (d & [(n & Hn & Hle) _] & Hvd & _); [rewrite H; set_solver|].
      rewrite Hvd, Hn, (commit_version w (stored s) st _ current H0 Hs) in Hv. apply versionOf_inj in Hv. lia.
  - by destruct Harm as (_ & _ & ? & ? & _).
Qed.

Lemma step_clock (s s' : System) : step s s' -> (clock s <= clock s')%Z.
Proof. intros H. destruct H; simpl; lia. Qed.

Lemma step_armed_closed (s s' : System) (c : ConfigMap) (t : Z) :
  consistent s -> step s s' -> armed s' c -> expiry c t -> (clock s' < t)%Z -> closed s' t.
Proof.
  intros Hc Hstep Harm Ht Hlt. pose proof (step_clock s s' Hstep).
  destruct (step_armed s s' c Hc Hstep Harm) as [(c0 & Harm0 & He)|[attempt Hpc]].
  - assert (expiry c0 t) by (unfold expiry; by rewrite He). eapply (step_closed s); try done; [lia|].
    eapply armed_closed; [done.. | lia].
  - pose proof (step_acking s s' Hc Hstep) as Ha. unfold acking in Ha. rewrite Hpc in Ha. destruct Ha as [Hq Hcalls].
    destruct (step_calls s s' Hc Hstep) as [_ Hv]. unfold closed, closing. rewrite Hpc. by auto.
Qed.

Lemma step_stored (s s' : System) (current : ConfigMap) :
  consistent s -> step s s' -> stored s' = Some current -> known s' current /\ (acked current = true -> phase current = true).
Proof.
  intros Hc Hstep Hs. pose proof (step_extends s s' Hstep) as He.
  assert (stored s = Some current -> known s' current /\ (acked current = true -> phase current = true)) as Hsame.
  { intros Hold. split; [eapply known_extends; [done | by apply Hc] | by apply (stored_phase s Hc)]. }
  destruct Hstep; try (by apply Hsame). simpl in Hs. subst st. clear Hsame. split.
  - split; [|intros c' Hc' _; simpl in Hc'; congruence]. exists (revision s + 1)%N. split; [by eapply commit_version | simpl; lia].
  - intros Ha. eapply commit_armed; [done | | done..]. rewrite H. set_solver.
Qed.

Lemma step_consistent (s s' : System) : consistent s -> step s s' -> consistent s'.
Proof.
  intros Hc Hstep. destruct (step_calls s s' Hc Hstep). split; [done | done | | | | |].
  - intros current Hs. by destruct (step_stored s s' current Hc Hstep Hs).
  - intros current Hs. by destruct (step_stored s s' current Hc Hstep Hs).
  - intros w. by apply (step_pending s).
  - by apply (step_acking s).
  - intros c t. by apply (step_armed_closed s).
Qed.

Lemma started_consistent (now : Z) : consistent (started now).
Proof. split; simpl; try done. intros w Hw. by apply elem_of_nil in Hw. Qed.

Lemma gate_consistent (now : Z) (s : System) : rtc step (started now) s -> consistent s.
Proof.
  intros H. remember (started now) as s0 eqn:E. assert (consistent s0) as Hc by (subst; apply started_consistent).
  clear E. induction H; [done|]. by eauto using step_consistent.
Qed.

(** C14: Whatever the interleaving of provisioning calls, gate synchronisations, guards,
    delayed writes and controller restarts, while an acknowledged permit is in force
    (what [WaitForQuiesced] waits for and [Granted] reports) no provisioning call and no
    validation is in flight, none can start, and no step of the system starts one. *)
Theorem quiesce_excludes (now : Z) (s : System) (c : ConfigMap) :
  rtc step (started now) s -> stateOf (stored s) (clock s) = Ok (Some c) -> datum c controllerAckKey = controllerAckDone ->
  calls s = ∅ /\ validating s = false /\ (serving s = true -> is_ok (Enter (gate s)) = false) /\
  forall s', step s s' -> calls s' = ∅ /\ validating s' = false.
Proof.
  intros Hr Hs Ha. apply gate_consistent in Hr as Hc. destruct (stateOf_Some _ _ _ Hs) as (Hst & t & Ht & Hlt).
  assert (acked c = true) as Hack by (unfold acked; by apply bool_decide_eq_true).
  assert (armed s c) as Harm by (split_and!; [done | by apply (stored_phase s Hc) | exists c; by auto]).
  pose proof (armed_closed s Hc c t Harm Ht Hlt) as Hclosed. pose proof Hclosed as (Hcalls & Hval & Hq & Hpc).
  split_and!; [done | done | |].
  - intros H. unfold Enter. by rewrite (Hq H).
  - intros s' Hstep. by destruct (step_closed s s' c t Hc Harm Ht Hlt Hclosed Hstep) as (? & ? & _).
Qed.
End system.

(** ** A run *)

Module SampleGate.
Definition store : PermitStore :=
  {| PermitStore.Namespace := "shiftpv"; PermitStore.Name := "uninstall"; PermitStore.CSIDriver := "shiftpv.io" |}.
Definition driver : CSIDriver := {| CSIDriver.Name := "shiftpv.io"; CSIDriver.UID := "driver" |}.
Definition expires : string := "1970-01-01T00:05:00Z".
Definition request : ConfigMap := desired store driver stateQuiescing "a1" expires.
Definition requested : ConfigMap := stamp request (versionOf 1) 1.
Definition answer : ConfigMap := ConfigMap.set_Data requested controllerAckKey controllerAckDone.
Definition acknowledged : ConfigMap := stamp answer (versionOf 1) 2.
(** The controller bootstrapped and served a call; a guard made its request. *)
Definition asked : System :=
  {| stored := Some requested; revision := 1; clock := 0; pending := []; gate := newGate; calls := ∅; validating := false;
     serving := true; at_pc := Idle |}.
(** The controller closed its gate and is about to acknowledge. *)
Definition closing : System :=
  {| stored := Some requested; revision := 1; clock := 0; pending := []; gate := {| quiescing := true; active := 0 |};
     calls := ∅; validating := false; serving := true; at_pc := AckRead "a1" (Some requested) |}.
(** The controller bootstrapped, served and finished a call, closed its gate and
    acknowledged the request of a guard. *)
Definition quiet : System :=
  {| stored := Some acknowledged; revision := 2; clock := 0; pending := []; gate := {| quiescing := true; active := 0 |};
     calls := ∅; validating := false; serving := true; at_pc := AckWait "a1" |}.
End SampleGate.

Lemma asked_reachable : rtc (step SampleGate.store SampleGate.driver) (started 0) SampleGate.asked.
Proof.
  eapply rtc_l; [by apply step_read|].
  eapply rtc_l; [by eapply (step_decide _ _ _ None None)|].
  eapply rtc_l; [by eapply (step_pass _ _ _ "" false newGate)|].
  eapply rtc_l; [by eapply (step_enter _ _ _ 1)|].
  eapply rtc_l; [by eapply (step_begin_create _ _ _ "a1" SampleGate.expires)|].
  eapply rtc_l; [by eapply (step_leave _ _ _ 1)|].
  eapply rtc_l; [by eapply (step_commit _ _ _ [] _ [])|].
  match goal with |- rtc _ ?a ?b => replace a with b; [by apply rtc_refl|] end. vm_compute. reflexivity.
Qed.

Lemma closing_reachable : rtc (step SampleGate.store SampleGate.driver) SampleGate.asked SampleGate.closing.
Proof.
  eapply rtc_l; [by apply step_read|].
  eapply rtc_l; [eapply (step_decide _ _ _ (Some SampleGate.requested) (Some SampleGate.requested)); vm_compute; reflexivity|].
  eapply rtc_l; [eapply (step_close _ _ _ "a1" true (gate SampleGate.quiet)); vm_compute; reflexivity|].
  eapply rtc_l; [eapply (step_ack_read _ _ _ "a1"); [vm_compute; reflexivity | done]|].
  match goal with |- rtc _ ?a ?b => replace a with b; [by apply rtc_refl|] end. vm_compute. reflexivity.
Qed.

Lemma quiet_reachable : rtc (step SampleGate.store SampleGate.driver) (started 0) SampleGate.quiet.
Proof.
  etransitivity; [apply asked_reachable|]. etransitivity; [apply closing_reachable|].
  eapply rtc_l;
    [eapply (step_ack_send _ _ _ "a1" (Some SampleGate.requested) (Some SampleGate.requested) SampleGate.answer);
     vm_compute; reflexivity|].
  eapply rtc_l;
    [eapply (step_commit _ _ _ [] (Update SampleGate.answer) [] (Some SampleGate.acknowledged)); vm_compute; reflexivity|].
  match goal with |- rtc _ ?a ?b => replace a with b; [by apply rtc_refl|] end. vm_compute. reflexivity.
Qed.

(** The acknowledged run excludes provisioning. *)
Lemma quiesce_excludes_witness :
  calls SampleGate.quiet = ∅ /\ validating SampleGate.quiet = false /\
  (serving SampleGate.quiet = true -> is_ok (Enter (gate SampleGate.quiet)) = false) /\
  forall s', step SampleGate.store SampleGate.driver SampleGate.quiet s' -> calls s' = ∅ /\ validating s' = false.
Proof.
  apply (quiesce_excludes SampleGate.store SampleGate.driver 0 SampleGate.quiet SampleGate.acknowledged).
  - exact quiet_reachable.
  - vm_compute. reflexivity.
  - vm_compute. reflexivity.
Defined.
