(* ===== verification/Kube.v ===== *)
(** * Kubernetes objects

    The parts of the Kubernetes API types (k8s.io/api) that the mobility controller and
    its admission webhook read or write.  A field whose inside the program never looks
    at is [opaque]: absent, or some value.  nil and empty maps and lists are not
    distinguished, except where the program does. *)

From S2P Require Import Prelude RecordUpdate.

(** A pointer to something the program never opens. *)
Definition opaque : Type := option string.

(** ** Metadata *)

Module OwnerReference.
Record OwnerReference := {
  APIVersion : string;
  Kind : string;
  Name : string;
  UID : string;
  Controller : option bool;
  BlockOwnerDeletion : option bool
}.
#[export] Instance OwnerReference_eq_dec : EqDecision OwnerReference.
Proof. solve_decision. Defined.
End OwnerReference.
Notation OwnerReference := OwnerReference.OwnerReference.
#[export] Existing Instance OwnerReference.OwnerReference_eq_dec.

Module ObjectMeta.
Record ObjectMeta := {
  Name : string;
  Namespace : string;
  UID : string;
  ResourceVersion : string;
  Generation : Z;
  Labels : gmap string string;
  Annotations : gmap string string;
  OwnerReferences : list OwnerReference;
  DeletionTimestamp : option Z
}.
#[export] Instance ObjectMeta_eq_dec : EqDecision ObjectMeta.
Proof. solve_decision. Defined.

#[export] Instance ObjectMeta_settable : Settable ObjectMeta :=
  {| eta r := {| Name := Name r; Namespace := Namespace r; UID := UID r; ResourceVersion := ResourceVersion r;
     Generation := Generation r; Labels := Labels r; Annotations := Annotations r;
     OwnerReferences := OwnerReferences r; DeletionTimestamp := DeletionTimestamp r |};
     eta_id r := ltac:(by destruct r) |}.
End ObjectMeta.
Notation ObjectMeta := ObjectMeta.ObjectMeta.
#[export] Existing Instance ObjectMeta.ObjectMeta_eq_dec.
#[export] Existing Instance ObjectMeta.ObjectMeta_settable.

(** [labels[key]] *)
Definition entry (labels : gmap string string) (key : string) : string := default "" (labels !! key).

(** [metav1.GetControllerOf] *)
Definition GetControllerOf (meta : ObjectMeta) : option OwnerReference :=
  List.find (fun owner => some_and (OwnerReference.Controller owner) id) (ObjectMeta.OwnerReferences meta).

(** ** Scheduling constraints *)

Module NodeSelectorRequirement.
Record NodeSelectorRequirement := {
  Key : string;
  Operator : string;
  Values : list string
}.
#[export] Instance NodeSelectorRequirement_eq_dec : EqDecision NodeSelectorRequirement.
Proof. solve_decision. Defined.
End NodeSelectorRequirement.
Notation NodeSelectorRequirement := NodeSelectorRequirement.NodeSelectorRequirement.
#[export] Existing Instance NodeSelectorRequirement.NodeSelectorRequirement_eq_dec.

Module NodeSelectorTerm.
Record NodeSelectorTerm := {
  MatchExpressions : list NodeSelectorRequirement;
  MatchFields : list NodeSelectorRequirement
}.
#[export] Instance NodeSelectorTerm_eq_dec : EqDecision NodeSelectorTerm.
Proof. solve_decision. Defined.
End NodeSelectorTerm.
Notation NodeSelectorTerm := NodeSelectorTerm.NodeSelectorTerm.
#[export] Existing Instance NodeSelectorTerm.NodeSelectorTerm_eq_dec.

(** [corev1.NodeSelector]: its terms *)
Definition NodeSelector : Type := list NodeSelectorTerm.

Module NodeAffinity.
Record NodeAffinity := {
  Required : option NodeSelector;
  Preferred : list opaque
}.
#[export] Instance NodeAffinity_eq_dec : EqDecision NodeAffinity.
Proof. solve_decision. Defined.
End NodeAffinity.
Notation NodeAffinity := NodeAffinity.NodeAffinity.
#[export] Existing Instance NodeAffinity.NodeAffinity_eq_dec.

Module Affinity.
Record Affinity := {
  NodeAffinity : option NodeAffinity;
  PodAffinity : opaque;
  PodAntiAffinity : opaque
}.
#[export] Instance Affinity_eq_dec : EqDecision Affinity.
Proof. solve_decision. Defined.
End Affinity.
Notation Affinity := Affinity.Affinity.
#[export] Existing Instance Affinity.Affinity_eq_dec.

Module Toleration.
Record Toleration := {
  Key : string;
  Operator : string;
  Value : string;
  Effect : string;
  TolerationSeconds : option Z
}.
#[export] Instance Toleration_eq_dec : EqDecision Toleration.
Proof. solve_decision. Defined.
End Toleration.
Notation Toleration := Toleration.Toleration.
#[export] Existing Instance Toleration.Toleration_eq_dec.

Module Taint.
Record Taint := {
  Key : string;
  Value : string;
  Effect : string
}.
#[export] Instance Taint_eq_dec : EqDecision Taint.
Proof. solve_decision. Defined.
End Taint.
Notation Taint := Taint.Taint.
#[export] Existing Instance Taint.Taint_eq_dec.

(** ** Containers and volumes *)

Module ContainerPort.
Record ContainerPort := {
  Name : string;
  HostPort : Z;
  Port : Z;
  Protocol : string;
  HostIP : string
}.
#[export] Instance ContainerPort_eq_dec : EqDecision ContainerPort.
Proof. solve_decision. Defined.

#[export] Instance ContainerPort_settable : Settable ContainerPort :=
  {| eta r := {| Name := Name r; HostPort := HostPort r; Port := Port r; Protocol := Protocol r;
     HostIP := HostIP r |}; eta_id r := ltac:(by destruct r) |}.
End ContainerPort.
Notation ContainerPort := ContainerPort.ContainerPort.
#[export] Existing Instance ContainerPort.ContainerPort_eq_dec.
#[export] Existing Instance ContainerPort.ContainerPort_settable.

(** Quantities by resource name; a quantity is its canonical text. *)
Module ResourceRequirements.
Record ResourceRequirements := {
  Requests : gmap string string;
  Limits : gmap string string;
  Claims : list opaque
}.
#[export] Instance ResourceRequirements_eq_dec : EqDecision ResourceRequirements.
Proof. solve_decision. Defined.

#[export] Instance ResourceRequirements_settable : Settable ResourceRequirements :=
  {| eta r := {| Requests := Requests r; Limits := Limits r; Claims := Claims r |};
     eta_id r := ltac:(by destruct r) |}.
End ResourceRequirements.
Notation ResourceRequirements := ResourceRequirements.ResourceRequirements.
#[export] Existing Instance ResourceRequirements.ResourceRequirements_eq_dec.
#[export] Existing Instance ResourceRequirements.ResourceRequirements_settable.

(** [FieldPath] is the API version and path of valueFrom.fieldRef; [Other] any other source. *)
Module EnvVar.
Record EnvVar := {
  Name : string;
  Value : string;
  FieldPath : option (string * string);
  Other : opaque
}.
#[export] Instance EnvVar_eq_dec : EqDecision EnvVar.
Proof. solve_decision. Defined.
End EnvVar.
Notation EnvVar := EnvVar.EnvVar.
#[export] Existing Instance EnvVar.EnvVar_eq_dec.

Module VolumeMount.
Record VolumeMount := {
  Name : string;
  MountPath : string;
  ReadOnly : bool;
  SubPath : string;
  SubPathExpr : string;
  MountPropagation : opaque
}.
#[export] Instance VolumeMount_eq_dec : EqDecision VolumeMount.
Proof. solve_decision. Defined.

#[export] Instance VolumeMount_settable : Settable VolumeMount :=
  {| eta r := {| Name := Name r; MountPath := MountPath r; ReadOnly := ReadOnly r; SubPath := SubPath r;
     SubPathExpr := SubPathExpr r; MountPropagation := MountPropagation r |}; eta_id r := ltac:(by destruct r) |}.
End VolumeMount.
Notation VolumeMount := VolumeMount.VolumeMount.
#[export] Existing Instance VolumeMount.VolumeMount_eq_dec.
#[export] Existing Instance VolumeMount.VolumeMount_settable.

Module SecurityContext.
Record SecurityContext := {
  AllowPrivilegeEscalation : option bool;
  RunAsNonRoot : option bool;
  RunAsUser : option Z;
  Drop : list string;
  Other : opaque
}.
#[export] Instance SecurityContext_eq_dec : EqDecision SecurityContext.
Proof. solve_decision. Defined.
End SecurityContext.
Notation SecurityContext := SecurityContext.SecurityContext.
#[export] Existing Instance SecurityContext.SecurityContext_eq_dec.

Module Probe.
Record Probe := {
  TCPPort : option Z;
  InitialDelaySeconds : Z;
  TimeoutSeconds : Z;
  PeriodSeconds : Z;
  SuccessThreshold : Z;
  FailureThreshold : Z;
  Other : opaque
}.
#[export] Instance Probe_eq_dec : EqDecision Probe.
Proof. solve_decision. Defined.
End Probe.
Notation Probe := Probe.Probe.
#[export] Existing Instance Probe.Probe_eq_dec.

Module Container.
Record Container := {
  Name : string;
  Image : string;
  ImagePullPolicy : string;
  Command : list string;
  Args : list string;
  Env : list EnvVar;
  EnvFrom : list opaque;
  Ports : list ContainerPort;
  Resources : ResourceRequirements;
  VolumeMounts : list VolumeMount;
  VolumeDevices : list opaque;
  SecurityContext : option SecurityContext;
  Lifecycle : opaque;
  LivenessProbe : opaque;
  ReadinessProbe : option Probe;
  StartupProbe : opaque;
  TerminationMessagePath : string;
  TerminationMessagePolicy : string
}.
#[export] Instance Container_eq_dec : EqDecision Container.
Proof. solve_decision. Defined.

#[export] Instance Container_settable : Settable Container :=
  {| eta r := {| Name := Name r; Image := Image r; ImagePullPolicy := ImagePullPolicy r; Command := Command r;
     Args := Args r; Env := Env r; EnvFrom := EnvFrom r; Ports := Ports r; Resources := Resources r;
     VolumeMounts := VolumeMounts r; VolumeDevices := VolumeDevices r; SecurityContext := SecurityContext r;
     Lifecycle := Lifecycle r; LivenessProbe := LivenessProbe r; ReadinessProbe := ReadinessProbe r;
     StartupProbe := StartupProbe r; TerminationMessagePath := TerminationMessagePath r;
     TerminationMessagePolicy := TerminationMessagePolicy r |}; eta_id r := ltac:(by destruct r) |}.
End Container.
Notation Container := Container.Container.
#[export] Existing Instance Container.Container_eq_dec.
#[export] Existing Instance Container.Container_settable.

Module KeyToPath.
Record KeyToPath := {
  Key : string;
  Path : string
}.
#[export] Instance KeyToPath_eq_dec : EqDecision KeyToPath.
Proof. solve_decision. Defined.
End KeyToPath.
Notation KeyToPath := KeyToPath.KeyToPath.
#[export] Existing Instance KeyToPath.KeyToPath_eq_dec.

Module DownwardAPIFile.
Record DownwardAPIFile := {
  Path : string;
  FieldRef : option (string * string)
}.
#[export] Instance DownwardAPIFile_eq_dec : EqDecision DownwardAPIFile.
Proof. solve_decision. Defined.
End DownwardAPIFile.
Notation DownwardAPIFile := DownwardAPIFile.DownwardAPIFile.
#[export] Existing Instance DownwardAPIFile.DownwardAPIFile_eq_dec.

(** One source of a projected volume; a source of another kind is [UnknownProjection]. *)
Inductive Projection :=
| TokenProjection (path audience : string) (expirationSeconds : option Z)
| ConfigMapProjection (name : string) (items : list KeyToPath)
| DownwardAPIProjection (items : list DownwardAPIFile)
| UnknownProjection (value : string).
#[export] Instance Projection_eq_dec : EqDecision Projection.
Proof. solve_decision. Defined.

(** The claim name of a claim; path and type of a host path; name and mode of a secret or config map; sources and mode of a projection. *)
Module Volume.
Record Volume := {
  Name : string;
  PersistentVolumeClaim : option string;
  HostPath : option (string * option string);
  Secret : option (string * option Z);
  ConfigMap : option (string * option Z);
  Projected : option (list Projection * option Z);
  Ephemeral : opaque;
  CSI : opaque;
  Other : opaque
}.
#[export] Instance Volume_eq_dec : EqDecision Volume.
Proof. solve_decision. Defined.
End Volume.
Notation Volume := Volume.Volume.
#[export] Existing Instance Volume.Volume_eq_dec.

(** ** Pods *)

Module PodSpec.
Record PodSpec := {
  NodeName : string;
  NodeSelector : gmap string string;
  Affinity : option Affinity;
  Tolerations : list Toleration;
  SchedulerName : string;
  SchedulingGates : list string;
  PriorityClassName : string;
  Priority : option Z;
  PreemptionPolicy : option string;
  RuntimeClassName : option string;
  HostNetwork : bool;
  HostPID : bool;
  HostIPC : bool;
  OS : option string;
  RestartPolicy : string;
  TerminationGracePeriodSeconds : option Z;
  AutomountServiceAccountToken : option bool;
  ServiceAccountName : string;
  InitContainers : list Container;
  Containers : list Container;
  EphemeralContainers : list opaque;
  Volumes : list Volume;
  TopologySpreadConstraints : list opaque;
  ResourceClaims : list opaque;
  Resources : option ResourceRequirements;
  SecurityContext : opaque
}.
#[export] Instance PodSpec_eq_dec : EqDecision PodSpec.
Proof. solve_decision. Defined.

#[export] Instance PodSpec_settable : Settable PodSpec :=
  {| eta r := {| NodeName := NodeName r; NodeSelector := NodeSelector r; Affinity := Affinity r;
     Tolerations := Tolerations r; SchedulerName := SchedulerName r; SchedulingGates := SchedulingGates r;
     PriorityClassName := PriorityClassName r; Priority := Priority r; PreemptionPolicy := PreemptionPolicy r;
     RuntimeClassName := RuntimeClassName r; HostNetwork := HostNetwork r; HostPID := HostPID r;
     HostIPC := HostIPC r; OS := OS r; RestartPolicy := RestartPolicy r;
     TerminationGracePeriodSeconds := TerminationGracePeriodSeconds r;
     AutomountServiceAccountToken := AutomountServiceAccountToken r; ServiceAccountName := ServiceAccountName r;
     InitContainers := InitContainers r; Containers := Containers r; EphemeralContainers := EphemeralContainers r;
     Volumes := Volumes r; TopologySpreadConstraints := TopologySpreadConstraints r;
     ResourceClaims := ResourceClaims r; Resources := Resources r; SecurityContext := SecurityContext r |};
     eta_id r := ltac:(by destruct r) |}.
End PodSpec.
Notation PodSpec := PodSpec.PodSpec.
#[export] Existing Instance PodSpec.PodSpec_eq_dec.
#[export] Existing Instance PodSpec.PodSpec_settable.

(** [Phase] and [Conditions] (type and status) are the status. *)
Module Pod.
Record Pod := {
  Meta : ObjectMeta;
  Spec : PodSpec;
  Phase : string;
  Conditions : list (string * string)
}.
#[export] Instance Pod_eq_dec : EqDecision Pod.
Proof. solve_decision. Defined.

#[export] Instance Pod_settable : Settable Pod :=
  {| eta r := {| Meta := Meta r; Spec := Spec r; Phase := Phase r; Conditions := Conditions r |};
     eta_id r := ltac:(by destruct r) |}.
End Pod.
Notation Pod := Pod.Pod.
#[export] Existing Instance Pod.Pod_eq_dec.
#[export] Existing Instance Pod.Pod_settable.

Module PodTemplateSpec.
Record PodTemplateSpec := {
  TemplateLabels : gmap string string;
  Spec : PodSpec
}.
#[export] Instance PodTemplateSpec_eq_dec : EqDecision PodTemplateSpec.
Proof. solve_decision. Defined.

#[export] Instance PodTemplateSpec_settable : Settable PodTemplateSpec :=
  {| eta r := {| TemplateLabels := TemplateLabels r; Spec := Spec r |}; eta_id r := ltac:(by destruct r) |}.
End PodTemplateSpec.
Notation PodTemplateSpec := PodTemplateSpec.PodTemplateSpec.
#[export] Existing Instance PodTemplateSpec.PodTemplateSpec_eq_dec.
#[export] Existing Instance PodTemplateSpec.PodTemplateSpec_settable.

(** ** Other objects *)

Module Job.
Record Job := {
  Meta : ObjectMeta;
  BackoffLimit : option Z;
  TTLSecondsAfterFinished : option Z;
  ActiveDeadlineSeconds : option Z;
  Template : PodTemplateSpec;
  Conditions : list (string * string)
}.
#[export] Instance Job_eq_dec : EqDecision Job.
Proof. solve_decision. Defined.

#[export] Instance Job_settable : Settable Job :=
  {| eta r := {| Meta := Meta r; BackoffLimit := BackoffLimit r;
     TTLSecondsAfterFinished := TTLSecondsAfterFinished r; ActiveDeadlineSeconds := ActiveDeadlineSeconds r;
     Template := Template r; Conditions := Conditions r |}; eta_id r := ltac:(by destruct r) |}.
End Job.
Notation Job := Job.Job.
#[export] Existing Instance Job.Job_eq_dec.
#[export] Existing Instance Job.Job_settable.

Module Node.
Record Node := {
  Meta : ObjectMeta;
  Unschedulable : bool;
  Taints : list Taint;
  Conditions : list (string * string)
}.
#[export] Instance Node_eq_dec : EqDecision Node.
Proof. solve_decision. Defined.
End Node.
Notation Node := Node.Node.
#[export] Existing Instance Node.Node_eq_dec.

Module ClaimRef.
Record ClaimRef := {
  Namespace : string;
  Name : string;
  UID : string
}.
#[export] Instance ClaimRef_eq_dec : EqDecision ClaimRef.
Proof. solve_decision. Defined.
End ClaimRef.
Notation ClaimRef := ClaimRef.ClaimRef.
#[export] Existing Instance ClaimRef.ClaimRef_eq_dec.

(** [CSI] is the driver and the volume handle; [RequiredAffinity] is spec.nodeAffinity.required. *)
Module PersistentVolume.
Record PersistentVolume := {
  Meta : ObjectMeta;
  CSI : option (string * string);
  ClaimRef : option ClaimRef;
  RequiredAffinity : option NodeSelector
}.
#[export] Instance PersistentVolume_eq_dec : EqDecision PersistentVolume.
Proof. solve_decision. Defined.
End PersistentVolume.
Notation PersistentVolume := PersistentVolume.PersistentVolume.
#[export] Existing Instance PersistentVolume.PersistentVolume_eq_dec.

Module PersistentVolumeClaim.
Record PersistentVolumeClaim := {
  Meta : ObjectMeta;
  VolumeName : string
}.
#[export] Instance PersistentVolumeClaim_eq_dec : EqDecision PersistentVolumeClaim.
Proof. solve_decision. Defined.
End PersistentVolumeClaim.
Notation PersistentVolumeClaim := PersistentVolumeClaim.PersistentVolumeClaim.
#[export] Existing Instance PersistentVolumeClaim.PersistentVolumeClaim_eq_dec.

(** A ReplicaSet or a StatefulSet. *)
Module Workload.
Record Workload := {
  Meta : ObjectMeta;
  Template : PodTemplateSpec
}.
#[export] Instance Workload_eq_dec : EqDecision Workload.
Proof. solve_decision. Defined.
End Workload.
Notation Workload := Workload.Workload.
#[export] Existing Instance Workload.Workload_eq_dec.

Module PodDisruptionBudget.
Record PodDisruptionBudget := {
  Generation : Z;
  Selector : opaque;
  ObservedGeneration : Z;
  DisruptionsAllowed : Z
}.
#[export] Instance PodDisruptionBudget_eq_dec : EqDecision PodDisruptionBudget.
Proof. solve_decision. Defined.
End PodDisruptionBudget.
Notation PodDisruptionBudget := PodDisruptionBudget.PodDisruptionBudget.
#[export] Existing Instance PodDisruptionBudget.PodDisruptionBudget_eq_dec.

Module Secret.
Record Secret := {
  Meta : ObjectMeta;
  Data : gmap string string
}.
#[export] Instance Secret_eq_dec : EqDecision Secret.
Proof. solve_decision. Defined.
End Secret.
Notation Secret := Secret.Secret.
#[export] Existing Instance Secret.Secret_eq_dec.

Module ConfigMap.
Record ConfigMap := {
  Meta : ObjectMeta;
  Data : gmap string string;
  BinaryData : gmap string string
}.
#[export] Instance ConfigMap_eq_dec : EqDecision ConfigMap.
Proof. solve_decision. Defined.
End ConfigMap.
Notation ConfigMap := ConfigMap.ConfigMap.
#[export] Existing Instance ConfigMap.ConfigMap_eq_dec.

Module ServicePort.
Record ServicePort := {
  Name : string;
  Port : Z;
  TargetPort : Z;
  Protocol : string
}.
#[export] Instance ServicePort_eq_dec : EqDecision ServicePort.
Proof. solve_decision. Defined.
End ServicePort.
Notation ServicePort := ServicePort.ServicePort.
#[export] Existing Instance ServicePort.ServicePort_eq_dec.

Module Service.
Record Service := {
  Meta : ObjectMeta;
  Selector : gmap string string;
  Ports : list ServicePort
}.
#[export] Instance Service_eq_dec : EqDecision Service.
Proof. solve_decision. Defined.
End Service.
Notation Service := Service.Service.
#[export] Existing Instance Service.Service_eq_dec.

(** ** Status *)

(** The first condition of a type decides. *)
Fixpoint condition_true (conditions : list (string * string)) (type : string) : bool :=
  match conditions with
  | [] => false
  | (t, status) :: conditions => if t == type then status == "True" else condition_true conditions type
  end.

Definition PodSucceeded : string := "Succeeded".
Definition PodFailed : string := "Failed".
Definition PodPending : string := "Pending".
Definition LabelHostname : string := "kubernetes.io/hostname".
