(* ===== verification/Mobility.v ===== *)
(** * The mobility controller: calls and state

    src/mobility/controller: the reconciler that drives every Move.  This file has what
    its parts share: the configuration, the interface to everything outside
    ([call]: the volume registry, the cleanup journals, the Kubernetes API, helper
    observations, locks and the clock), the world in which the controller runs and the
    snapshot it decides on ([observation]).

    The controller shares the cluster with many other actors.  Its world is therefore
    the history of its own calls and their answers, and an answer is whatever the
    environment chooses from that history ([Environment]): a theorem about every
    environment holds under every interleaving with other actors, for every failure and
    every lost response. *)

From S2P Require Import Prelude RecordUpdate Bytes VolumeIdentity Fsm Apimachinery Registration GoTime ApiServer VolumeState.
From S2P Require Import PoolApi VolumeRegistry MoveApi Capacity CleanupJournal History Kube.

(** ** Assignments *)

#[export] Instance MoveStatus_settable : Settable MoveStatus :=
  {| eta r := {| MoveStatus.Preparation := MoveStatus.Preparation r;
       MoveStatus.PersistentVolumeUID := MoveStatus.PersistentVolumeUID r;
       MoveStatus.ClaimUID := MoveStatus.ClaimUID r; MoveStatus.PlacementPodUID := MoveStatus.PlacementPodUID r;
       MoveStatus.Phase := MoveStatus.Phase r; MoveStatus.Reason := MoveStatus.Reason r;
       MoveStatus.Message := MoveStatus.Message r;
       MoveStatus.LastTransitionTime := MoveStatus.LastTransitionTime r;
       MoveStatus.LastProgressTime := MoveStatus.LastProgressTime r;
       MoveStatus.PersistentVolumeName := MoveStatus.PersistentVolumeName r;
       MoveStatus.ClaimNamespace := MoveStatus.ClaimNamespace r; MoveStatus.ClaimName := MoveStatus.ClaimName r;
       MoveStatus.ConsumerName := MoveStatus.ConsumerName r; MoveStatus.ConsumerUID := MoveStatus.ConsumerUID r;
       MoveStatus.ReplacementName := MoveStatus.ReplacementName r;
       MoveStatus.ReplacementUID := MoveStatus.ReplacementUID r;
       MoveStatus.DestinationNode := MoveStatus.DestinationNode r;
       MoveStatus.DestinationPoolUID := MoveStatus.DestinationPoolUID r;
       MoveStatus.SourceBytes := MoveStatus.SourceBytes r;
       MoveStatus.CapacityApproved := MoveStatus.CapacityApproved r;
       MoveStatus.CapacityReason := MoveStatus.CapacityReason r;
       MoveStatus.CandidateNodes := MoveStatus.CandidateNodes r;
       MoveStatus.EvictionRequested := MoveStatus.EvictionRequested r;
       MoveStatus.CopyJobName := MoveStatus.CopyJobName r;
       MoveStatus.PromotionJobName := MoveStatus.PromotionJobName r;
       MoveStatus.CleanupPhase := MoveStatus.CleanupPhase r;
       MoveStatus.CopyOperationID := MoveStatus.CopyOperationID r;
       MoveStatus.PromotionOperationID := MoveStatus.PromotionOperationID r;
       MoveStatus.SourceCopy := MoveStatus.SourceCopy r; MoveStatus.IncomingCopy := MoveStatus.IncomingCopy r;
       MoveStatus.DestinationCopy := MoveStatus.DestinationCopy r;
       MoveStatus.RollbackRequiredGeneration := MoveStatus.RollbackRequiredGeneration r;
       MoveStatus.SettlementRequested := MoveStatus.SettlementRequested r;
       MoveStatus.RecoveryPhase := MoveStatus.RecoveryPhase r;
       MoveStatus.RecoveryOwner := MoveStatus.RecoveryOwner r;
       MoveStatus.RecoveryReason := MoveStatus.RecoveryReason r;
       MoveStatus.RecoveryMessage := MoveStatus.RecoveryMessage r |}; eta_id r := ltac:(by destruct r) |}.

#[export] Instance Move_settable : Settable Move :=
  {| eta r := {| Move.Deleting := Move.Deleting r; Move.Name := Move.Name r; Move.UID := Move.UID r;
       Move.ResourceVersion := Move.ResourceVersion r; Move.Finalizers := Move.Finalizers r;
       Move.Spec := Move.Spec r; Move.Status := Move.Status r |}; eta_id r := ltac:(by destruct r) |}.

#[export] Instance State_settable : Settable State.State :=
  {| eta r := {| State.UID := State.UID r; State.Finalizers := State.Finalizers r;
       State.RequestName := State.RequestName r; State.CapacityBytes := State.CapacityBytes r;
       State.InitialNode := State.InitialNode r; State.InitialPool := State.InitialPool r;
       State.CreationClaim := State.CreationClaim r; State.HasCleanup := State.HasCleanup r;
       State.Deleting := State.Deleting r; State.Phase := State.Phase r; State.OwnerNode := State.OwnerNode r;
       State.ActiveMove := State.ActiveMove r; State.PublishedNodes := State.PublishedNodes r;
       State.CreationOperationID := State.CreationOperationID r;
       State.DeletionOperationID := State.DeletionOperationID r; State.CurrentCopy := State.CurrentCopy r;
       State.CreationExecutor := State.CreationExecutor r;
       State.CreationReceipt := State.CreationReceipt r |}; eta_id r := ltac:(by destruct r) |}.

#[export] Instance Observation_settable : Settable Fsm.Observation :=
  {| eta r := {| Fsm.WorkloadRetired := Fsm.WorkloadRetired r; Fsm.SettlementOnly := Fsm.SettlementOnly r;
       Fsm.ProtectionPresent := Fsm.ProtectionPresent r; Fsm.SourcePlanRecorded := Fsm.SourcePlanRecorded r;
       Fsm.SourceClaimed := Fsm.SourceClaimed r; Fsm.PreparationReserved := Fsm.PreparationReserved r;
       Fsm.PreparationChangedReason := Fsm.PreparationChangedReason r;
       Fsm.PreparationUnavailable := Fsm.PreparationUnavailable r; Fsm.SourceMoving := Fsm.SourceMoving r;
       Fsm.SourceBlocked := Fsm.SourceBlocked r; Fsm.PlacementAbsent := Fsm.PlacementAbsent r;
       Fsm.DestinationIntentRecorded := Fsm.DestinationIntentRecorded r;
       Fsm.RecoveryRequested := Fsm.RecoveryRequested r;
       Fsm.RecoveryOwnerIsDestination := Fsm.RecoveryOwnerIsDestination r;
       Fsm.RecoveryUnlockObserved := Fsm.RecoveryUnlockObserved r;
       Fsm.PreconditionsValid := Fsm.PreconditionsValid r; Fsm.PreflightDeferred := Fsm.PreflightDeferred r;
       Fsm.UnsafeReason := Fsm.UnsafeReason r; Fsm.SourceHealthy := Fsm.SourceHealthy r;
       Fsm.SourceAuthorityInvalid := Fsm.SourceAuthorityInvalid r; Fsm.ConsumerExists := Fsm.ConsumerExists r;
       Fsm.ConsumersAmbiguous := Fsm.ConsumersAmbiguous r; Fsm.PublishedOnSource := Fsm.PublishedOnSource r;
       Fsm.ReplacementExists := Fsm.ReplacementExists r; Fsm.ReplacementHeld := Fsm.ReplacementHeld r;
       Fsm.PlacementExists := Fsm.PlacementExists r; Fsm.DestinationScheduled := Fsm.DestinationScheduled r;
       Fsm.DestinationBlocked := Fsm.DestinationBlocked r;
       Fsm.DestinationUnavailable := Fsm.DestinationUnavailable r; Fsm.CapacityApproved := Fsm.CapacityApproved r;
       Fsm.CapacityBlocked := Fsm.CapacityBlocked r; Fsm.CopyComplete := Fsm.CopyComplete r;
       Fsm.CopyFailed := Fsm.CopyFailed r; Fsm.PromotionComplete := Fsm.PromotionComplete r;
       Fsm.PromotionFailed := Fsm.PromotionFailed r; Fsm.OwnerCommitted := Fsm.OwnerCommitted r;
       Fsm.PublishedOnDestination := Fsm.PublishedOnDestination r; Fsm.CleanupComplete := Fsm.CleanupComplete r;
       Fsm.CleanupFailed := Fsm.CleanupFailed r;
       Fsm.CompletionReady := Fsm.CompletionReady r |}; eta_id r := ltac:(by destruct r) |}.

#[export] Instance CleanupStatus_settable : Settable CleanupJournal.Status :=
  {| eta r := {| Status.Phase := Status.Phase r; Status.ObservedGeneration := Status.ObservedGeneration r;
       Status.Reason := Status.Reason r; Status.Message := Status.Message r;
       Status.LastTransitionTime := Status.LastTransitionTime r; Status.Executor := Status.Executor r;
       Status.Receipt := Status.Receipt r; Status.AbsenceProof := Status.AbsenceProof r;
       Status.SettledAt := Status.SettledAt r |}; eta_id r := ltac:(by destruct r) |}.

#[export] Instance CleanupAuthority_eq_dec : EqDecision CleanupJournal.Authority := _.

(** ** Configuration *)

Module Reconciler.
Record Reconciler := {
  Namespace : string;
  HelperImage : string;
  PlacementPriorityClassName : string;
  ServiceAccountName : string;
  (** durations in nanoseconds *)
  OperationTimeout : Z;
  MoveJournalRetention : Z;
  PoolReadinessStaleAfter : Z;
  (** whether the optional collaborators are configured *)
  HistoryInspector : bool;
  CapacityProbe : bool;
  SourceUsage : bool;
  PoolLocks : bool;
  Cleanups : bool;
  CleanupOperator : bool;
  Recorder : bool
}.
End Reconciler.
Notation Reconciler := Reconciler.Reconciler.

Definition DefaultMoveJournalRetention : Z := 7 * 24 * 3600 * 1000000000.
Definition DefaultOperationTimeout : Z := 5 * 60 * 1000000000.

Definition admissionNamespaceLabel : string := "shiftpv.io/admission".
Definition placementHoldName : string := "shiftpv.io/placement-hold".
Definition placementAnnotationKey : string := "shiftpv.io/placement".
Definition ManagedLabel : string := "shiftpv.io/managed".

(** ** Calls *)

Inductive call : Type -> Type :=
(** the volume registry ([Repository]); a map is an enumeration of its entries *)
| ListVolumes : call (list (string * State))
| GetVolume (volumeID : string) : call State
| CompareAndSetState (volumeID expectedPhase expectedActiveMove expectedOwner : string) (next : State) : call unit
| CompareAndSetSourceState (volumeID : string) (expected next : State) : call unit
| RequestPoolScan (target : CopyIdentity) : call Z
| Pools : call (list Pool)
| ObservePools : call (list Pool * list Pool)
| ReadyPools : call (list Pool)
| PoolForIdentity (poolName uid nodeName : string) : call Pool
| ReadyPoolForIdentity (poolName uid nodeName : string) : call Pool
| InventoryPoolForIdentity (poolName uid nodeName : string) : call Pool
| CreateMove (generateName : string) (spec : MoveSpec) : call Move
| AddMoveFinalizer (name uid : string) : call unit
| RemoveMoveFinalizer (name uid : string) : call unit
| DeleteMove (name uid : string) : call unit
| ListMoves : call (list Move)
| GetMove (name : string) : call Move
| CompareAndSetMoveStatus (move : Move) (status : MoveStatus) : call Move
| RecordSourceUsage (move : Move) (copy : CopyIdentity) (measured : Z) : call Move
(** observations made by helpers *)
| StatFSForPool (pool : Pool) : call Filesystem
| AdvanceSourceUsage (move : Move) (copy : CopyIdentity) : call (Z * bool)
| FinalizeSourceUsage (move : Move) : call bool
| MovesSettled (moves : list Move) (journals : list (string * Cleanup)) : call unit
(** cleanup journals and their operator *)
| GetJournal (authority : CleanupJournal.Authority) : call Cleanup
| GetHistory (authority : CleanupJournal.Authority) : call Cleanup
| EnsureJournal (spec : CleanupJournal.Spec) : call Cleanup
| UpdateJournal (current : Cleanup) (next : CleanupJournal.Status) : call unit
| ReconcileAbsence (current : Cleanup) : call (Cleanup * bool)
| AdvanceReclaim (current : Cleanup) : call (Cleanup * bool)
| ObserveCompletedCleanup (current : Cleanup) : call bool
(** the Kubernetes API; a deletion and an eviction carry the UID they are for *)
| GetNode (name : string) : call Node
| ListNodes : call (list Node)
| GetPersistentVolume (name : string) : call PersistentVolume
| ListPersistentVolumes : call (list PersistentVolume)
| GetClaim (namespace name : string) : call PersistentVolumeClaim
| GetNamespaceLabels (name : string) : call (gmap string string)
| GetPod (namespace name : string) : call Pod
| ListPods (namespace selector : string) : call (list Pod)
| CreatePod (pod : Pod) : call Pod
| UpdatePod (pod : Pod) : call Pod
| DeletePod (namespace name uid : string) : call unit
| EvictPod (namespace name uid : string) : call unit
| GetReplicaSet (namespace name : string) : call Workload
| GetStatefulSet (namespace name : string) : call Workload
| ListBudgets (namespace : string) : call (list PodDisruptionBudget)
| GetJob (namespace name : string) : call Job
| CreateJob (job : Job) : call Job
| DeleteJob (namespace name uid : string) : call unit
| GetSecret (namespace name : string) : call Secret
| CreateSecret (secret : Secret) : call Secret
| DeleteSecret (namespace name uid : string) : call unit
| GetConfigMap (namespace name : string) : call ConfigMap
| CreateConfigMap (configMap : ConfigMap) : call ConfigMap
| DeleteConfigMap (namespace name uid : string) : call unit
| GetService (namespace name : string) : call Service
| CreateService (service : Service) : call Service
| DeleteService (namespace name uid : string) : call unit
| RecordEvent (type reason message : string) : call unit
(** the process: [Locker.TryLock] and its unlock, the clock, [ctx.Err()], [rand.Read] *)
| TryLock (key : string) : call bool
| Unlock (key : string) : call unit
| Now : call Z
| ContextErr : call unit
| RandomPassword : call string.

(** A call and its answer. *)
Inductive event := Event (A : Type) (c : call A) (answer : result A).
Arguments Event {A} c answer.

(** ** The environment *)

Class Environment := {
  (** what the world answers after a history of calls, newest first *)
  respond {A : Type} : list event -> call A -> result A;
  (** [apierrors]: the status an error carries *)
  IsNotFound : error -> bool;
  IsAlreadyExists : error -> bool;
  IsConflict : error -> bool;
  (** [time.Format(time.RFC3339Nano)] *)
  FormatNano : Z -> string;
  (** the order in which a loop ranges over a map of Pools *)
  range : gmap string Pool -> list (string * Pool);
  range_perm m : range m ≡ₚ map_to_list m;
  (** k8s.io/component-helpers and apimachinery: node affinity, tolerations, the
      requests of a Pod (with or without its overhead), the order of quantities and
      label selectors *)
  NodeAffinityMatch : Pod -> Node -> result bool;
  NewNodeSelector : NodeSelector -> result (Node -> bool);
  ToleratesTaint : Toleration -> Taint -> bool;
  PodRequests : bool -> Pod -> gmap string string;
  QuantityLess : string -> string -> bool;
  LabelSelector : opaque -> result (gmap string string -> bool)
}.

(** The history, and the Move the current call chain points to. *)
Record Run := { log : list event; cell : Move }.

Section control.
Context {EN : Environment}.

Definition perform {A : Type} (c : call A) : io Run A := fun w =>
  let answer := respond (log w) c in (answer, {| log := Event c answer :: log w; cell := cell w |}).

(** [*move] and assignments through the pointer. *)
Definition current : io Run Move := fun w => (Ok (cell w), w).
Definition set_current (move : Move) : io Run unit := fun w => (Ok tt, {| log := log w; cell := move |}).
Definition status : io Run MoveStatus := move ← current; mret (Move.Status move).
Definition set_status (s : MoveStatus) : io Run unit := move ← current; set_current (Move.with_Status move s).

(** A call that points to a Move of its own. *)
Definition with_cell {A : Type} (move : Move) (c : io Run A) : io Run A := fun w =>
  let '(r, w') := c {| log := log w; cell := move |} in (r, {| log := log w'; cell := cell w |}).

(** [err != nil] handled by the caller. *)
Definition attempt {A : Type} (c : io Run A) : io Run (result A) := fun w => let '(r, w) := c w in (Ok r, w).

Definition wrapf {A : Type} (format : string) (c : io Run A) : io Run A :=
  r ← attempt c;
  match r with Ok a => mret a | Err err => io_fail (Wrapf [err] format) end.

(** [ctx.Err()] *)
Definition ctx_err : io Run (option error) :=
  r ← attempt (perform ContextErr);
  mret match r with Ok _ => None | Err err => Some err end.

(** A read whose object may be missing. *)
Definition optional {A : Type} (c : io Run A) : io Run (option A) :=
  r ← attempt c;
  match r with
  | Ok a => mret (Some a)
  | Err err => if IsNotFound err then mret None else io_fail err
  end.

(** [err != nil && !apierrors.IsNotFound(err)] after a deletion. *)
Definition unless_gone (format : string) (c : io Run unit) : io Run unit :=
  r ← attempt c;
  match r with
  | Ok _ => mret tt
  | Err err => if IsNotFound err then mret tt else io_fail (Wrapf [err] format)
  end.

(** [retry.RetryOnConflict(retry.DefaultBackoff, ...)]: four attempts. *)
Fixpoint retry (steps : nat) (body : io Run unit) : io Run unit :=
  r ← attempt body;
  match r with
  | Ok _ => mret tt
  | Err err => match steps with
               | S (S _ as steps) => if IsConflict err then retry steps body else io_fail err
               | _ => io_fail err
               end
  end.

Definition RetryOnConflict : io Run unit -> io Run unit := retry 4.

Definition errPoolBusy : error := Errorf "Pool capacity lock is busy".

(** [TryLock] and the deferred unlock. *)
Definition locking {A : Type} (key : string) (body : io Run A) : io Run A :=
  acquired ← perform (TryLock key);
  if negb acquired then io_fail errPoolBusy
  else
    r ← attempt body;
    perform (Unlock key);;
    io_lift r.
End control.

(** ** Typed errors *)

(** [errors.As] for an error type: the outermost value of that type, here the text it
    carries. *)
Fixpoint error_as (type err : error) {struct err} : option string :=
  match err with
  | Errorf _ => None
  | Wrapf causes message =>
      if match causes with t :: _ => error_eqb t type | [] => false end then Some message
      else (fix first (l : list error) : option string :=
              match l with
              | [] => None
              | cause :: l => match error_as type cause with Some found => Some found | None => first l end
              end) causes
  end.

Definition preparationChangedType : error := Errorf "preparationChanged".
Definition preparationChanged (reason : string) : error := Wrapf [preparationChangedType] reason.

Definition recoveryObservationErrorType : error := Errorf "recoveryObservationError".
Definition recoveryObservationError (reason : string) (err : error) : error := Wrapf [recoveryObservationErrorType; err] reason.

(** [errors.Join] of errors, nil ones dropped. *)
Definition join_errors (errs : list (option error)) : option error :=
  match omap id errs with [] => None | errs => Some (Wrapf errs "") end.

(** ** Observations *)

Module resourceNames.
Record resourceNames := {
  Base : string;
  PlacementPod : string;
  Secret : string;
  Config : string;
  SourcePod : string;
  SourceService : string;
  CopyJob : string;
  PromotionJob : string
}.
End resourceNames.
Notation resourceNames := resourceNames.resourceNames.

Module poolIndex.
Record poolIndex := { registered : gmap string Pool; ready : gmap string Pool; existing : gmap string Pool }.
Definition zero : poolIndex := {| registered := ∅; ready := ∅; existing := ∅ |}.
End poolIndex.
Notation poolIndex := poolIndex.poolIndex.

(** The zero values. *)
Definition zeroState : State :=
  {| State.UID := ""; State.Finalizers := []; State.RequestName := ""; State.CapacityBytes := 0; State.InitialNode := "";
     State.InitialPool := None; State.CreationClaim := None; State.HasCleanup := false; State.Deleting := false; State.Phase := "";
     State.OwnerNode := ""; State.ActiveMove := ""; State.PublishedNodes := []; State.CreationOperationID := "";
     State.DeletionOperationID := ""; State.CurrentCopy := None; State.CreationExecutor := None; State.CreationReceipt := None |}.

Definition zeroFacts : Fsm.Observation :=
  {| Fsm.WorkloadRetired := false; Fsm.SettlementOnly := false; Fsm.ProtectionPresent := false;
     Fsm.SourcePlanRecorded := false; Fsm.SourceClaimed := false; Fsm.PreparationReserved := false;
     Fsm.PreparationChangedReason := ""; Fsm.PreparationUnavailable := false; Fsm.SourceMoving := false;
     Fsm.SourceBlocked := false; Fsm.PlacementAbsent := false; Fsm.DestinationIntentRecorded := false;
     Fsm.RecoveryRequested := false; Fsm.RecoveryOwnerIsDestination := false; Fsm.RecoveryUnlockObserved := false;
     Fsm.PreconditionsValid := false; Fsm.PreflightDeferred := false; Fsm.UnsafeReason := "";
     Fsm.SourceHealthy := false; Fsm.SourceAuthorityInvalid := false; Fsm.ConsumerExists := false;
     Fsm.ConsumersAmbiguous := false; Fsm.PublishedOnSource := false; Fsm.ReplacementExists := false;
     Fsm.ReplacementHeld := false; Fsm.PlacementExists := false; Fsm.DestinationScheduled := false;
     Fsm.DestinationBlocked := false; Fsm.DestinationUnavailable := false; Fsm.CapacityApproved := false;
     Fsm.CapacityBlocked := false; Fsm.CopyComplete := false; Fsm.CopyFailed := false;
     Fsm.PromotionComplete := false; Fsm.PromotionFailed := false; Fsm.OwnerCommitted := false;
     Fsm.PublishedOnDestination := false; Fsm.CleanupComplete := false; Fsm.CleanupFailed := false;
     Fsm.CompletionReady := false |}.

Module observation.
Record observation := {
  FSM : Fsm.Observation;
  Volume : VolumeState.State;
  Pools : poolIndex;
  VolumeMissing : bool;
  PV : option PersistentVolume;
  Claim : option PersistentVolumeClaim;
  Consumer : option Pod;
  Replacement : option Pod;
  Placement : option Pod;
  DestinationNode : string;
  CandidateNodes : list string;
  Names : resourceNames;
  SourceCordoned : bool;
  ConsumersObserved : bool
}.
#[export] Instance observation_settable : Settable observation :=
  {| eta r := {| FSM := FSM r; Volume := Volume r; Pools := Pools r; VolumeMissing := VolumeMissing r; PV := PV r;
     Claim := Claim r; Consumer := Consumer r; Replacement := Replacement r; Placement := Placement r;
     DestinationNode := DestinationNode r; CandidateNodes := CandidateNodes r; Names := Names r;
     SourceCordoned := SourceCordoned r;
     ConsumersObserved := ConsumersObserved r |}; eta_id r := ltac:(by destruct r) |}.

(** [observation{Names: names}] *)
Definition zero (names : resourceNames) : observation :=
  {| FSM := zeroFacts; Volume := zeroState; Pools := poolIndex.zero; VolumeMissing := false; PV := None;
     Claim := None; Consumer := None; Replacement := None; Placement := None; DestinationNode := "";
     CandidateNodes := []; Names := names; SourceCordoned := false; ConsumersObserved := false |}.
End observation.
Notation observation := observation.observation.
#[export] Existing Instance observation.observation_settable.

(** [observed.FSM.field = value] *)
Notation "o '<|.' proj := value '|>'" := (o <| observation.FSM := (observation.FSM o) <| proj := value |> |>)
  (at level 12, left associativity, proj constr, value at level 200).
