(* ===== verification/MobilityRules.v ===== *)
(** * The mobility controller: rules

    src/mobility/controller: the checks and projections of the controller that read no
    API.  They say which volume states, copies, Pods and journals a Move may act on;
    the handlers of MobilityObserve, MobilityActions and MobilityRecovery apply them to
    what they have read. *)

From S2P Require Import Prelude RecordUpdate Bytes VolumeIdentity Fsm Apimachinery Registration GoTime ApiServer VolumeState.
From S2P Require Import PoolApi VolumeRegistry MoveApi Capacity CleanupJournal History Kube Mobility.
From stdpp Require Import sorting.

(** ** Names and owners (resources.go, recovery_resources.go) *)

Definition namesFor (moveName : string) : resourceNames :=
  let base := "shiftpv-move-" +:+ EncodeToString (String.substring 0 6 (Sha256.Sum256 moveName)) in
  {| resourceNames.Base := base; resourceNames.PlacementPod := base +:+ "-placement"; resourceNames.Secret := base +:+ "-auth";
     resourceNames.Config := base +:+ "-config"; resourceNames.SourcePod := base +:+ "-source";
     resourceNames.SourceService := base +:+ "-source"; resourceNames.CopyJob := base +:+ "-copy";
     resourceNames.PromotionJob := base +:+ "-promote" |}.

Definition recoveryNames (move : Move) : resourceNames := namesFor (Move.Name move +:+ "-recovery-" +:+ Move.UID move).

(** [move] is the optional last argument. *)
Definition transferLabels (names : resourceNames) (move : option Move) : gmap string string :=
  let labels : gmap string string :=
    {["app.kubernetes.io/name" := "shiftpv"; "app.kubernetes.io/component" := "mobility"; "shiftpv.io/move" := resourceNames.Base names]} in
  match move with
  | Some move => if Move.UID move != "" then <["shiftpv.io/move-uid" := Move.UID move]> labels else labels
  | None => labels
  end.

Definition sourceLabels (names : resourceNames) (move : Move) : gmap string string :=
  <["shiftpv.io/role" := "source"]> (transferLabels names (Some move)).

Definition placementRole : string := "placement".

Definition placementLabels (names : resourceNames) (move : Move) : gmap string string :=
  <["shiftpv.io/role" := placementRole]> (transferLabels names (Some move)).

Definition moveReference (move : Move) (blocking : option bool) : OwnerReference :=
  {| OwnerReference.APIVersion := "shiftpv.io/v1alpha1"; OwnerReference.Kind := "ShiftPVMove"; OwnerReference.Name := Move.Name move;
     OwnerReference.UID := Move.UID move; OwnerReference.Controller := Some true; OwnerReference.BlockOwnerDeletion := blocking |}.

Definition moveObjectMeta (move : Move) (name namespace : string) (labels : gmap string string) : ObjectMeta :=
  {| ObjectMeta.Name := name; ObjectMeta.Namespace := namespace; ObjectMeta.UID := ""; ObjectMeta.ResourceVersion := "";
     ObjectMeta.Generation := 0; ObjectMeta.Labels := labels; ObjectMeta.Annotations := ∅;
     ObjectMeta.OwnerReferences := [moveReference move (Some true)]; ObjectMeta.DeletionTimestamp := None |}.

Definition moveOwned (references : list OwnerReference) (uid : string) : bool :=
  if uid == "" then false
  else existsb (fun ref => (OwnerReference.Kind ref == "ShiftPVMove") && (OwnerReference.APIVersion ref == "shiftpv.io/v1alpha1") &&
                           (OwnerReference.UID ref == uid)) references.

(** ** Protocols and phases (reconciler.go, move.go, preflight.go) *)

Definition legacyMoveProtocol (move : Move) : bool :=
  (MoveSpec.ProtocolVersion (Move.Spec move) == "") && is_nil (MoveStatus.Preparation (Move.Status move)).

Definition supportedMoveProtocol (move : Move) : bool := MoveSpec.ProtocolVersion (Move.Spec move) == MoveProtocolPreparedV1.

Definition lifecycleState (move : Move) : Fsm.State :=
  Fsm.MkState (MoveStatus.Phase (Move.Status move)) (MoveStatus.RecoveryPhase (Move.Status move)).

Definition preparationLifecycle (move : Move) : bool :=
  contains ["";  Fsm.PhasePending; Fsm.PhasePreparing; Fsm.PhaseStartingDisruption; Fsm.PhaseCanceling; Fsm.PhaseCancelled]
    (MoveStatus.Phase (Move.Status move)).

Definition preEviction (move : Move) : bool :=
  negb (MoveStatus.EvictionRequested (Move.Status move)) &&
  ((MoveStatus.Phase (Move.Status move) == "") || (MoveStatus.Phase (Move.Status move) == Fsm.PhasePending) ||
   (MoveStatus.Phase (Move.Status move) == Fsm.PhasePreparing)).

Definition noDestinationEffectIntent (move : Move) : bool :=
  let status := Move.Status move in
  is_nil (MoveStatus.IncomingCopy status) && is_nil (MoveStatus.DestinationCopy status) && (MoveStatus.CopyJobName status == "") &&
  (MoveStatus.PromotionJobName status == "") && (MoveStatus.CopyOperationID status == "") &&
  (MoveStatus.PromotionOperationID status == "").

Definition recoveryRequested (move : Move) : bool :=
  (MoveSpec.Recovery (Move.Spec move) == "ResumeOwner") || MoveStatus.SettlementRequested (Move.Status move).

Definition needsRecoveryObservation (move : Move) : bool :=
  let status := Move.Status move in
  if (MoveStatus.Phase status != Fsm.PhaseBlocked) || negb (recoveryRequested move) ||
     (MoveStatus.RecoveryPhase status == Fsm.RecoveryRecovered)
  then false
  else MoveStatus.CapacityApproved status || negb (noDestinationEffectIntent move) || (MoveStatus.RecoveryPhase status != "").

Definition needsWorkloadLifetime (move : Move) : bool :=
  let status := Move.Status move in
  if (MoveSpec.ProtocolVersion (Move.Spec move) != MoveProtocolPreparedV1) || MoveStatus.SettlementRequested status ||
     (MoveStatus.RecoveryPhase status == Fsm.RecoveryRecovered)
  then false
  else if contains [Fsm.PhaseSucceeded; Fsm.PhaseCancelled; Fsm.PhaseCanceling] (MoveStatus.Phase status) then false
  else MoveStatus.CapacityApproved status || negb (noDestinationEffectIntent move) ||
       (negb (is_nil (MoveStatus.SourceCopy status)) && negb (is_nil (MoveStatus.Preparation status))).

Definition preparationReason (reason fallback : string) : string := if reason != "" then reason else fallback.

Definition preparationCapacityReason (unavailable : bool) : string :=
  if unavailable then "DestinationCapacityProbeUnavailable" else "DestinationReservationLimit".

(** ** Copies and Pools (observe_storage.go) *)

(** [copy == nil || copy.Validate() != nil] refused. *)
Definition valid (copy : option CopyIdentity) (rest : CopyIdentity -> bool) : bool :=
  some_and copy (fun copy => is_ok (Validate copy) && rest copy).

Definition moveSourceCopy (move : Move) (state : State) : option CopyIdentity :=
  match MoveStatus.SourceCopy (Move.Status move) with
  | Some copy => Some copy
  | None =>
      match State.CurrentCopy state with
      | Some copy => if NodeName copy == MoveSpec.SourceNode (Move.Spec move) then Some copy else None
      | None => None
      end
  end.

(** The Pool when the second result of the code is true. *)
Definition indexedCopyPool (pools : gmap string Pool) (copy : option CopyIdentity) : option Pool :=
  match copy with
  | Some copy =>
      if is_ok (Validate copy) then
        match pools !! PoolUID copy with
        | Some pool => if (Pool.Name pool == PoolName copy) && (Pool.NodeName pool == NodeName copy) then Some pool else None
        | None => None
        end
      else None
  | None => None
  end.

Fixpoint first_observation (copy : CopyIdentity) (copies : list CopyObservation) : bool :=
  match copies with
  | [] => false
  | observed :: copies =>
      if CopyObservation.Identity observed == Some copy
      then CopyObservation.Present observed && (CopyObservation.Problem observed == "")
      else first_observation copy copies
  end.

Definition sourceCopyPresent (pool : Pool) (copy : option CopyIdentity) : bool :=
  valid copy (fun copy =>
    (Role copy == RoleServing) && (PoolName copy == Pool.Name pool) && (PoolUID copy == Pool.UID pool) &&
    (NodeName copy == Pool.NodeName pool) &&
    some_and (PoolStatus.Inventory (Pool.Status pool)) (fun inventory => first_observation copy (PoolInventory.Copies inventory))).

Definition NodeReady (node : Node) : bool := condition_true (Node.Conditions node) "Ready".

(** ** Bindings and Pods (observe_workload.go, owner_placement.go, preflight.go) *)

Definition validBinding (pv : option PersistentVolume) (claim : option PersistentVolumeClaim) (volumeID : string) : bool :=
  some_and pv (fun pv => some_and claim (fun claim =>
    let pm := PersistentVolume.Meta pv in let cm := PersistentVolumeClaim.Meta claim in
    is_nil (ObjectMeta.DeletionTimestamp pm) && is_nil (ObjectMeta.DeletionTimestamp cm) &&
    (PersistentVolume.CSI pv == Some (DriverName, volumeID)) &&
    some_and (PersistentVolume.ClaimRef pv) (fun ref =>
      (ClaimRef.Namespace ref == ObjectMeta.Namespace cm) && (ClaimRef.Name ref == ObjectMeta.Name cm) &&
      (ClaimRef.UID ref != "") && (ClaimRef.UID ref == ObjectMeta.UID cm) &&
      (PersistentVolumeClaim.VolumeName claim == ObjectMeta.Name pm)))).

Definition preparedBindingMatches (move : Move) (pv : option PersistentVolume) (claim : option PersistentVolumeClaim) : bool :=
  let status := Move.Status move in
  validBinding pv claim (MoveSpec.VolumeID (Move.Spec move)) &&
  some_and pv (fun pv => some_and claim (fun claim =>
    let pm := PersistentVolume.Meta pv in let cm := PersistentVolumeClaim.Meta claim in
    (ObjectMeta.Name pm == MoveStatus.PersistentVolumeName status) && (ObjectMeta.UID pm == MoveStatus.PersistentVolumeUID status) &&
    (ObjectMeta.Namespace cm == MoveStatus.ClaimNamespace status) && (ObjectMeta.Name cm == MoveStatus.ClaimName status) &&
    (ObjectMeta.UID cm == MoveStatus.ClaimUID status))).

Definition claimNames (spec : PodSpec) : list string := omap Volume.PersistentVolumeClaim (PodSpec.Volumes spec).

(** The set of claim names. *)
Definition pvcNames (spec : PodSpec) : gset string := list_to_set (claimNames spec).

Definition podUsesClaim (pod : Pod) (claimName : string) : bool := contains (claimNames (Pod.Spec pod)) claimName.

Definition terminalPod (pod : Pod) : bool := (Pod.Phase pod == PodSucceeded) || (Pod.Phase pod == PodFailed).

Definition hasPlacementHold (pod : Pod) : bool := contains (PodSpec.SchedulingGates (Pod.Spec pod)) placementHoldName.

Definition ownerPlacementCandidate (pod : Pod) : bool :=
  let meta := Pod.Meta pod in
  (ObjectMeta.UID meta != "") && (entry (ObjectMeta.Labels meta) ManagedLabel == "true") && is_nil (ObjectMeta.DeletionTimestamp meta) &&
  (PodSpec.NodeName (Pod.Spec pod) == "") && ((Pod.Phase pod == "") || (Pod.Phase pod == PodPending)) && hasPlacementHold pod.

Definition moveBlocksOwnerPlacement (move : Move) (volumeID : string) : bool :=
  let journalUnsettled := (MoveStatus.CleanupPhase (Move.Status move) != "") &&
                          (MoveStatus.CleanupPhase (Move.Status move) != CleanupJournal.PhaseCompleted) in
  (MoveSpec.VolumeID (Move.Spec move) == volumeID) &&
  ((negb (legacyMoveProtocol move) && negb (supportedMoveProtocol move)) || journalUnsettled || negb (MoveCleanupSettled move)).

(** ** The placement reservation (placement.go, prepared_placement.go) *)

Definition validatePlacementOwner (pod : Pod) (move : Move) (names : resourceNames) : result unit :=
  let labels := ObjectMeta.Labels (Pod.Meta pod) in
  reject_if ((entry labels "shiftpv.io/move" != resourceNames.Base names) || (entry labels "shiftpv.io/role" != placementRole))
    (Errorf "placement reservation Pod %q labels do not match move");;
  if some_and (GetControllerOf (Pod.Meta pod)) (fun owner =>
       (OwnerReference.APIVersion owner == "shiftpv.io/v1alpha1") && (OwnerReference.Kind owner == "ShiftPVMove") &&
       (OwnerReference.Name owner == Move.Name move) && (OwnerReference.UID owner == Move.UID move) && (Move.UID move != ""))
  then Ok tt else Err (Errorf "placement reservation Pod %q is not owned by move %q").

Definition validatePlacementIdentity (pod : Pod) (move : Move) (names : resourceNames) : result unit :=
  validatePlacementOwner pod move names;;
  reject_if (negb (MoveStatus.CapacityApproved (Move.Status move)) && (MoveStatus.PlacementPodUID (Move.Status move) != "") &&
             (ObjectMeta.UID (Pod.Meta pod) != MoveStatus.PlacementPodUID (Move.Status move)))
    (Errorf "placement reservation Pod UID changed").

Definition nonPreemptingPlacement (pod : Pod) : bool :=
  let spec := Pod.Spec pod in
  (PodSpec.PriorityClassName spec != "") && (PodSpec.Priority spec == Some 0%Z) && (PodSpec.PreemptionPolicy spec == Some "Never").

Definition preparedPlacementMatchesReservation (pod : Pod) (move : Move) (names : resourceNames) (preparation : MovePreparation) : bool :=
  is_ok (validatePlacementIdentity pod move names) && nonPreemptingPlacement pod &&
  is_nil (ObjectMeta.DeletionTimestamp (Pod.Meta pod)) && (Pod.Phase pod != PodFailed) && (Pod.Phase pod != PodSucceeded) &&
  (PodSpec.NodeName (Pod.Spec pod) == MovePreparation.NodeName preparation).

(** ** Preparation and cancellation (preparation.go, prepared_cancellation.go, prepared_execution.go) *)

Definition preparationSourceAuthority (move : Move) (state : State) : result unit :=
  let source := MoveSpec.SourceNode (Move.Spec move) in
  reject_if (State.Deleting state || State.HasCleanup state || (State.OwnerNode state != source) ||
             negb (valid (State.CurrentCopy state) (fun copy =>
               (Role copy == RoleServing) && (VolumeUID copy == State.UID state) &&
               (VolumeID copy == MoveSpec.VolumeID (Move.Spec move)) && (NodeName copy == source))))
    (Errorf "prepared source authority is unavailable or changed");;
  reject_if ((State.ActiveMove state != "") && (State.ActiveMove state != Move.Name move))
    (Errorf "prepared source belongs to another Move");;
  reject_if ((State.Phase state != VolumeState.PhaseReady) &&
             negb ((MoveStatus.Phase (Move.Status move) == Fsm.PhaseStartingDisruption) &&
                   (State.Phase state == VolumeState.PhaseMoving) && (State.ActiveMove state == Move.Name move)))
    (Errorf "prepared source has unexpected phase %q");;
  reject_if (negb (is_nil (MoveStatus.SourceCopy (Move.Status move))) &&
             (MoveStatus.SourceCopy (Move.Status move) != State.CurrentCopy state))
    (Errorf "prepared source serving-copy identity changed").

Definition cancellablePreparation (move : Move) : result unit :=
  let status := Move.Status move in
  reject_if ((MoveSpec.ProtocolVersion (Move.Spec move) != MoveProtocolPreparedV1) || (Move.Name move == "") || (Move.UID move == ""))
    (Errorf "cancellation requires an identified prepared Move");;
  reject_if (MoveStatus.CapacityApproved status || negb (is_nil (MoveStatus.IncomingCopy status)) ||
             negb (is_nil (MoveStatus.DestinationCopy status)) || (MoveStatus.CopyOperationID status != "") ||
             (MoveStatus.PromotionOperationID status != "") || (MoveStatus.CopyJobName status != "") ||
             (MoveStatus.PromotionJobName status != "") || (MoveStatus.CleanupPhase status != "") ||
             negb (MoveStatus.RollbackRequiredGeneration status =? 0)%Z || (MoveStatus.RecoveryPhase status != "") ||
             (MoveStatus.RecoveryOwner status != ""))
    (Errorf "preparation cancellation cannot release destination execution or recovery authority").

Definition cancellationSourceIdentity (move : Move) (state : State) : result unit :=
  reject_if (negb (valid (MoveStatus.SourceCopy (Move.Status move)) (fun source =>
      (Role source == RoleServing) && (VolumeID source == MoveSpec.VolumeID (Move.Spec move)) &&
      (NodeName source == MoveSpec.SourceNode (Move.Spec move)) && (State.UID state == VolumeUID source) &&
      (State.OwnerNode state == MoveSpec.SourceNode (Move.Spec move)) && (State.CurrentCopy state == Some source))) ||
      State.Deleting state || State.HasCleanup state)
    (Errorf "cancellation cannot prove the exact authoritative source copy").

Definition cancellationSource (move : Move) (state : State) : result unit :=
  (if State.Phase state == VolumeState.PhaseBlocked then
     reject_if (((MoveStatus.Phase (Move.Status move) != Fsm.PhaseCanceling) && (MoveStatus.Phase (Move.Status move) != Fsm.PhaseCancelled)) ||
                (State.ActiveMove state != Move.Name move))
       (Errorf "blocked source restoration requires its cancellation fence");;
     cancellablePreparation move
   else reject_if ((State.Phase state != VolumeState.PhaseReady) && (State.Phase state != VolumeState.PhaseMoving))
          (Errorf "cancellation requires a Ready or Moving source"));;
  cancellationSourceIdentity move state.

(** The dereference of a nil [SourceCopy] is excluded by the plan check of the caller. *)
Definition validatePreparedExecutionPlan (move : Move) : result unit :=
  let status := Move.Status move in
  match MoveStatus.IncomingCopy status, MoveStatus.SourceCopy status with
  | Some incoming, Some source =>
      reject_if (negb (is_nil (MoveStatus.Preparation status)) || (MoveStatus.PlacementPodUID status == ""))
        (Errorf "prepared execution requires the complete approved disk plan");;
      ValidateMoveTransactionIdentities move
        {| MoveDestinationAnchor.InstallationID := InstallationID source; MoveDestinationAnchor.PoolName := PoolName incoming;
           MoveDestinationAnchor.PoolUID := MoveStatus.DestinationPoolUID status;
           MoveDestinationAnchor.NodeName := MoveStatus.DestinationNode status; MoveDestinationAnchor.VolumeUID := VolumeUID source |}
  | _, _ => Err (Errorf "prepared execution requires the complete approved disk plan")
  end.

Definition validatePreparedStage (move : Move) : result unit :=
  let status := Move.Status move in
  ValidatePreparedMovePlan move;;
  ValidateMovePreparation move;;
  if MoveStatus.CapacityApproved status || negb (noDestinationEffectIntent move) then validatePreparedExecutionPlan move
  else if MoveStatus.Phase status == Fsm.PhaseBlocked then Ok tt
  else
    reject_if (is_nil (MoveStatus.Preparation status) || negb (contains (Move.Finalizers move) MoveProtectionFinalizer))
      (Errorf "prepared execution requires its protected durable reservation");;
    reject_if (negb (contains [Fsm.PhaseWaitingForUnpublish; Fsm.PhaseWaitingForReplacement; Fsm.PhaseWaitingForDestination;
                               Fsm.PhaseWaitingForCapacity] (MoveStatus.Phase status)))
      (Errorf "prepared Move has no execution approval in phase %q").

(** The loop of [preparationMoveSnapshot]: the first Move of that name decides. *)
Fixpoint preparationMoveSnapshot (expected : Move) (moves : list Move) : result unit :=
  match moves with
  | [] => Err (Errorf "preparation Move is missing")
  | listed :: moves =>
      if Move.Name listed != Move.Name expected then preparationMoveSnapshot expected moves
      else
        reject_if ((Move.UID listed != Move.UID expected) || (Move.ResourceVersion listed != Move.ResourceVersion expected) ||
                   (Move.Spec listed != Move.Spec expected) || Move.Deleting listed ||
                   negb (contains (Move.Finalizers listed) MoveProtectionFinalizer) ||
                   negb (is_nil (MoveStatus.Preparation (Move.Status listed))))
          (conflict "%w: preparation Move changed before reservation")
  end.

Fixpoint prepared_snapshot (expected : Move) (hold : MovePreparation) (moves : list Move) : result unit :=
  match moves with
  | [] => Err (Errorf "prepared execution Move disappeared")
  | listed :: moves =>
      if Move.Name listed != Move.Name expected then prepared_snapshot expected hold moves
      else
        reject_if (negb ((Move.UID listed == Move.UID expected) && (Move.ResourceVersion listed == Move.ResourceVersion expected) &&
                         (Move.Spec listed == Move.Spec expected) && negb (Move.Deleting listed) &&
                         (MoveStatus.Preparation (Move.Status listed) == Some hold)))
          (conflict "%w: prepared execution Move changed")
  end.

Definition preparedCapacitySnapshot (expected : Move) (state : State) (moves : list Move) (pool : Pool) : result unit :=
  match MoveStatus.Preparation (Move.Status expected) with
  | None => Err (Errorf "prepared execution no longer has its exact quiesced reservation")
  | Some hold =>
      reject_if ((PoolReference.Name (MovePreparation.Pool hold) != Pool.Name pool) ||
                 (PoolReference.UID (MovePreparation.Pool hold) != Pool.UID pool) ||
                 (MovePreparation.NodeName hold != Pool.NodeName pool) ||
                 negb (State.CapacityBytes state =? MovePreparation.ReservedBytes hold)%Z ||
                 (State.Phase state != VolumeState.PhaseMoving) || (State.ActiveMove state != Move.Name expected) ||
                 negb (length (State.PublishedNodes state) =? 0)%nat)
        (Errorf "prepared execution no longer has its exact quiesced reservation");;
      cancellationSource expected state;;
      prepared_snapshot expected hold moves
  end.

Definition sourceUsageCopy (move : Move) (state : State) : result CopyIdentity :=
  let source := MoveSpec.SourceNode (Move.Spec move) in
  if (State.Phase state != VolumeState.PhaseMoving) || (State.ActiveMove state != Move.Name move) || (State.OwnerNode state != source) ||
     State.Deleting state || State.HasCleanup state || negb (length (State.PublishedNodes state) =? 0)%nat
  then Err (Errorf "source volume has no locked unpublished serving-copy identity")
  else match State.CurrentCopy state with
       | None => Err (Errorf "source volume has no locked unpublished serving-copy identity")
       | Some copy =>
           reject_if (negb (is_ok (Validate copy)) || (Role copy != RoleServing) || (NodeName copy != source) ||
                      (VolumeID copy != MoveSpec.VolumeID (Move.Spec move)) || (VolumeUID copy != State.UID state))
             (Errorf "source volume has no locked unpublished serving-copy identity");;
           reject_if (MoveStatus.SourceCopy (Move.Status move) != Some copy)
             (Errorf "source copy identity changed before capacity admission");;
           Ok copy
       end.

(** ** Owner handoff (actions.go) *)

Definition validDestinationAuthorityIntent (move : Move) : bool :=
  let status := Move.Status move in
  (Move.Name move != "") &&
  valid (MoveStatus.DestinationCopy status) (fun destination =>
    (Role destination == RoleServing) && (MoveStatus.DestinationNode status != "") &&
    (MoveStatus.DestinationNode status != MoveSpec.SourceNode (Move.Spec move)) && (MoveStatus.DestinationPoolUID status != "") &&
    (PoolUID destination == MoveStatus.DestinationPoolUID status) && (VolumeID destination == MoveSpec.VolumeID (Move.Spec move)) &&
    (NodeName destination == MoveStatus.DestinationNode status)).

Definition matchesCommittedDestinationIdentity (move : Move) (state : State) (allowReleased : bool) : bool :=
  validDestinationAuthorityIntent move &&
  some_and (MoveStatus.DestinationCopy (Move.Status move)) (fun destination =>
    (State.UID state == VolumeUID destination) && (State.OwnerNode state == MoveStatus.DestinationNode (Move.Status move)) &&
    (State.CurrentCopy state == Some destination)) &&
  ((State.ActiveMove state == Move.Name move) || (allowReleased && (State.ActiveMove state == ""))).

Definition hasCommittedDestinationAuthority (move : Move) (state : State) (allowReleased : bool) : bool :=
  (State.Phase state == VolumeState.PhaseReady) && matchesCommittedDestinationIdentity move state allowReleased.

Definition completionAllowed (move : Move) (state : State) (missing : bool) : bool :=
  if (MoveStatus.Phase (Move.Status move) != Fsm.PhaseCompleting) || negb (validDestinationAuthorityIntent move) then false
  else missing || hasCommittedDestinationAuthority move state true.

Definition ownerCommitPoolUID (move : Move) (state : State) (destination : string) : result string :=
  let status := Move.Status move in
  match MoveStatus.SourceCopy status, MoveStatus.DestinationCopy status with
  | Some source, target =>
      reject_if (negb (is_ok (Validate source)) || (Role source != RoleServing) ||
                 (VolumeID source != MoveSpec.VolumeID (Move.Spec move)) || (VolumeUID source != State.UID state) ||
                 (NodeName source != MoveSpec.SourceNode (Move.Spec move)) || (State.CurrentCopy state != Some source))
        (Errorf "source serving-copy identity does not match owner handoff");;
      match target with
      | Some target =>
          reject_if (negb (is_ok (Validate target)) || (Role target != RoleServing) || (NodeName target != destination) ||
                     (VolumeID target != MoveSpec.VolumeID (Move.Spec move)) || (VolumeUID target != VolumeUID source) ||
                     (InstallationID target != InstallationID source) || (PoolUID target != MoveStatus.DestinationPoolUID status) ||
                     (PoolUID target == PoolUID source))
            (Errorf "destination serving-copy identity does not match owner handoff");;
          Ok (PoolUID target)
      | None => Err (Errorf "destination serving-copy identity does not match owner handoff")
      end
  | None, _ => Err (Errorf "source serving-copy identity does not match owner handoff")
  end.

(** [p != nil && *p != value] *)
Definition differs (recorded : option CopyIdentity) (value : CopyIdentity) : bool := some_and recorded (fun copy => copy != value).

Definition prepareMoveCopyIdentitiesForPool (move : Move) (pool : Pool) : result Move :=
  let status := Move.Status move in
  match MoveStatus.SourceCopy status with
  | None => Err (Errorf "move source identity is missing")
  | Some source =>
      reject_if (negb (ValidIdentityToken (Move.UID move)) || negb (is_ok (Validate source))) (Errorf "move source identity is missing");;
      reject_if ((Pool.Name pool == "") || (Pool.UID pool == "") || (Pool.UID pool != MoveStatus.DestinationPoolUID status) ||
                 (Pool.NodeName pool != MoveStatus.DestinationNode status))
        (Errorf "destination Pool identity changed or is missing");;
      let '(incoming, destination) :=
        MoveTransactionCopies (Move.UID move) (MoveSpec.VolumeID (Move.Spec move))
          {| MoveDestinationAnchor.InstallationID := InstallationID source; MoveDestinationAnchor.PoolName := Pool.Name pool;
             MoveDestinationAnchor.PoolUID := Pool.UID pool; MoveDestinationAnchor.NodeName := MoveStatus.DestinationNode status;
             MoveDestinationAnchor.VolumeUID := VolumeUID source |} in
      reject_if (negb (is_ok (Validate incoming)) || negb (is_ok (Validate destination)))
        (Errorf "generated move copy identity is invalid");;
      reject_if (differs (MoveStatus.IncomingCopy status) incoming || differs (MoveStatus.DestinationCopy status) destination)
        (Errorf "move copy identity changed");;
      let copyJob := resourceNames.CopyJob (namesFor (Move.Name move)) in
      reject_if (((MoveStatus.CopyJobName status != "") && (MoveStatus.CopyJobName status != copyJob)) ||
                 ((MoveStatus.CopyOperationID status != "") && (MoveStatus.CopyOperationID status != MoveCopyOperationID (Move.UID move))) ||
                 ((MoveStatus.PromotionOperationID status != "") &&
                  (MoveStatus.PromotionOperationID status != MovePromotionOperationID (Move.UID move))))
        (Errorf "move operation identity changed");;
      Ok (Move.with_Status move
            (status <| MoveStatus.IncomingCopy := Some incoming |> <| MoveStatus.DestinationCopy := Some destination |>
                    <| MoveStatus.CopyJobName := copyJob |> <| MoveStatus.CopyOperationID := MoveCopyOperationID (Move.UID move) |>
                    <| MoveStatus.PromotionOperationID := MovePromotionOperationID (Move.UID move) |>))
  end.

(** ** Settlement and recovery (workload_settlement.go, recovery.go, recovery_cleanup.go) *)

Definition recordedOwnerIntact (move : Move) (state : State) : result unit :=
  let status := Move.Status move in
  copy ← (if State.OwnerNode state != MoveSpec.SourceNode (Move.Spec move) then
            if State.OwnerNode state != MoveStatus.DestinationNode status
            then Err (Errorf "owner is outside this Move's recorded plan")
            else Ok (MoveStatus.DestinationCopy status)
          else Ok (MoveStatus.SourceCopy status));
  reject_if (negb (valid copy (fun copy =>
      (Role copy == RoleServing) && (VolumeID copy == MoveSpec.VolumeID (Move.Spec move)) && (VolumeUID copy == State.UID state) &&
      (NodeName copy == State.OwnerNode state) && (State.CurrentCopy state == Some copy))))
    (Errorf "current owner does not carry this Move's exact recorded copy").

Definition workloadSettlementAuthority (move : Move) (state : State) : result unit :=
  reject_if ((State.ActiveMove state != Move.Name move) || State.Deleting state || State.HasCleanup state ||
             ((State.Phase state != VolumeState.PhaseMoving) && (State.Phase state != VolumeState.PhaseReady) &&
              (State.Phase state != VolumeState.PhaseBlocked)))
    (Errorf "workload settlement requires this Move's exact live authority");;
  recordedOwnerIntact move state.

Definition recoveryAuthorityIntact (move : Move) (state : State) : result unit :=
  let status := Move.Status move in
  reject_if (MoveStatus.SettlementRequested status && (State.Deleting state || State.HasCleanup state))
    (Errorf "Volume has conflicting deletion authority");;
  recordedOwnerIntact move state;;
  reject_if ((State.ActiveMove state != Move.Name move) ||
             ((State.OwnerNode state != MoveSpec.SourceNode (Move.Spec move)) && (State.OwnerNode state != MoveStatus.DestinationNode status)) ||
             (State.OwnerNode state == ""))
    (Errorf "expected this move and source or committed destination owner");;
  reject_if ((MoveStatus.RecoveryOwner status != "") && (State.OwnerNode state != MoveStatus.RecoveryOwner status))
    (Errorf "owner changed since recovery request").

(** The reason and the error, when recovery may not proceed. *)
Definition recoveryGuards (move : Move) (state : State) : option (string * error) :=
  let status := Move.Status move in
  match recoveryAuthorityIntact move state with
  | Err err => Some ("AuthorityMismatch", err)
  | Ok _ =>
      if (MoveStatus.DestinationNode status == "") && ((MoveStatus.CopyJobName status != "") || (MoveStatus.PromotionJobName status != ""))
      then Some ("DestinationUnknown", Errorf "disk work was recorded without a destination; operator investigation required")
      else
        let canBeReady := contains [Fsm.RecoveryResuming; Fsm.RecoveryRetiring; Fsm.RecoveryCompleting] (MoveStatus.RecoveryPhase status) in
        if (State.Phase state != VolumeState.PhaseBlocked) && negb (canBeReady && (State.Phase state == VolumeState.PhaseReady))
        then Some ("StateMismatch", Errorf "cannot recover volume in phase %q")
        else if existsb (fun published => published != State.OwnerNode state) (State.PublishedNodes state)
        then Some ("ForeignPublication", Errorf "node %q is still published; confirm unpublish before recovery")
        else None
  end.

Definition recoveryCapacitySettled : string := "RecoverySettled".
Definition errRecoveryCleanupNeedsReview : error := Errorf "recovery cleanup needs review".
Definition needsRecoveryCleanupReview (format : string) : error := Wrapf [errRecoveryCleanupNeedsReview] format.

Definition rollbackSourceIntent (move : Move) : result unit :=
  if Move.Name move == "" then Err (MoveIdentityMismatch "Name")
  else match MoveStatus.SourceCopy (Move.Status move) with
       | None => Err (MoveIdentityMismatch "SourceCopy")
       | Some source =>
           if negb (is_ok (Validate source)) then Err (MoveIdentityMismatch "SourceCopy")
           else if Role source != RoleServing then Err (MoveIdentityMismatch "SourceCopy.Role")
           else if NodeName source != MoveSpec.SourceNode (Move.Spec move) then Err (MoveIdentityMismatch "SourceCopy.NodeName")
           else if VolumeID source != MoveSpec.VolumeID (Move.Spec move) then Err (MoveIdentityMismatch "SourceCopy.VolumeID")
           else Ok tt
       end.

Definition rollbackDestinationHold (move : Move) : result unit :=
  let status := Move.Status move in
  if negb (MoveStatus.CapacityApproved status) then Err (MoveIdentityMismatch "CapacityApproved")
  else if (MoveStatus.SourceBytes status <=? 0)%Z then Err (MoveIdentityMismatch "SourceBytes")
  else if (MoveStatus.DestinationNode status == "") || (MoveStatus.DestinationNode status == MoveSpec.SourceNode (Move.Spec move))
  then Err (MoveIdentityMismatch "DestinationNode")
  else if MoveStatus.DestinationPoolUID status == "" then Err (MoveIdentityMismatch "DestinationPoolUID")
  else Ok tt.

Definition rollbackTransactionCopies (move : Move) : result unit :=
  let status := Move.Status move in
  match MoveStatus.IncomingCopy status, MoveStatus.DestinationCopy status, MoveStatus.SourceCopy status with
  | None, _, _ => Err (MoveIdentityMismatch "IncomingCopy")
  | Some _, None, _ => Err (MoveIdentityMismatch "DestinationCopy")
  | Some _, Some _, None => Err (MoveIdentityMismatch "SourceCopy")
  | Some incoming, Some _, Some source =>
      ValidateMoveTransactionIdentities move
        {| MoveDestinationAnchor.InstallationID := InstallationID source; MoveDestinationAnchor.PoolName := PoolName incoming;
           MoveDestinationAnchor.PoolUID := MoveStatus.DestinationPoolUID status;
           MoveDestinationAnchor.NodeName := MoveStatus.DestinationNode status; MoveDestinationAnchor.VolumeUID := VolumeUID source |}
  end.

Definition rollbackExecutorIntent (move : Move) : result unit :=
  let names := namesFor (Move.Name move) in let status := Move.Status move in
  if MoveStatus.CopyJobName status != resourceNames.CopyJob names then Err (MoveIdentityMismatch "CopyJobName")
  else if (MoveStatus.PromotionJobName status != "") && (MoveStatus.PromotionJobName status != resourceNames.PromotionJob names)
  then Err (MoveIdentityMismatch "PromotionJobName") else Ok tt.

Definition validRollbackIntent (move : Move) : result unit :=
  reject_if (MoveStatus.RecoveryPhase (Move.Status move) != Fsm.RecoveryRetiring)
    (needsRecoveryCleanupReview "rollback scan requires durable Retiring intent");;
  rollbackSourceIntent move;;
  rollbackDestinationHold move;;
  rollbackTransactionCopies move;;
  rollbackExecutorIntent move.

(** The loop of [rollbackDestinationPool]. *)
Fixpoint single_pool (node uid : string) (found : option Pool) (pools : list Pool) : result (option Pool) :=
  match pools with
  | [] => Ok found
  | pool :: pools =>
      if (Pool.NodeName pool != node) || (Pool.UID pool != uid) then single_pool node uid found pools
      else match found with
           | Some _ => Err (needsRecoveryCleanupReview "multiple destination Pools are registered")
           | None => single_pool node uid (Some pool) pools
           end
  end.

(** The dereferences of the copies are covered by [validRollbackIntent] in the callers. *)
Definition rollbackDestinationPool (move : Move) (pools : list Pool) : result Pool :=
  let status := Move.Status move in
  found ← single_pool (MoveStatus.DestinationNode status) (MoveStatus.DestinationPoolUID status) None pools;
  match found, MoveStatus.IncomingCopy status, MoveStatus.DestinationCopy status with
  | Some destination, Some incoming, Some promoted =>
      reject_if ((Pool.Name destination != PoolName incoming) || (Pool.UID destination != MoveStatus.DestinationPoolUID status) ||
                 (Pool.UID destination != PoolUID incoming) || (Pool.UID destination != PoolUID promoted))
        (needsRecoveryCleanupReview "destination Pool identity changed");;
      reject_if (negb (contains (Pool.Finalizers destination) PoolProtectionFinalizer))
        (needsRecoveryCleanupReview "destination Pool lacks lifecycle protection");;
      Ok destination
  | _, _, _ => Err (needsRecoveryCleanupReview "destination Pool identity changed")
  end.

(** The loop of [rollbackPresentArtifact]: which of the two artifacts are present. *)
Fixpoint present_artifacts (move : Move) (incoming promoted source : CopyIdentity) (destination : Pool)
    (copies : list CopyObservation) (found : bool * bool) : result (bool * bool) :=
  match copies with
  | [] => Ok found
  | observed :: copies =>
      if CopyObservation.Problem observed != "" then
        Err (needsRecoveryCleanupReview "destination inventory contains an ambiguous observation")
      else if negb (CopyObservation.Present observed) then present_artifacts move incoming promoted source destination copies found
      else match CopyObservation.Identity observed with
           | None => Err (needsRecoveryCleanupReview "destination inventory contains an unidentified artifact")
           | Some identity =>
               reject_if (negb (is_ok (Validate identity)) || (PoolName identity != Pool.Name destination) ||
                          (PoolUID identity != Pool.UID destination) || (NodeName identity != Pool.NodeName destination))
                 (needsRecoveryCleanupReview "destination inventory contains an invalid copy identity");;
               let published := CopyObservation.Published observed in
               if identity == incoming then
                 reject_if published (needsRecoveryCleanupReview "destination inventory contains a published artifact");;
                 present_artifacts move incoming promoted source destination copies (true, snd found)
               else if identity == promoted then
                 reject_if published (needsRecoveryCleanupReview "destination inventory contains a published artifact");;
                 present_artifacts move incoming promoted source destination copies (fst found, true)
               else
                 reject_if ((VolumeID identity == MoveSpec.VolumeID (Move.Spec move)) || (VolumeUID identity == VolumeUID source) ||
                            ((Role identity == RoleIncoming) && (CopyID identity == CopyID incoming)))
                   (needsRecoveryCleanupReview "destination inventory contains a conflicting volume artifact");;
                 present_artifacts move incoming promoted source destination copies found
           end
  end.

(** The artifact, if one is present. *)
Definition rollbackPresentArtifact (move : Move) (destination : Pool) : result (option CopyIdentity) :=
  let status := Move.Status move in
  match MoveStatus.IncomingCopy status, MoveStatus.DestinationCopy status, MoveStatus.SourceCopy status,
        PoolStatus.Inventory (Pool.Status destination) with
  | Some incoming, Some promoted, Some source, Some inventory =>
      '(incomingPresent, destinationPresent) ←
        present_artifacts move incoming promoted source destination (PoolInventory.Copies inventory) (false, false);
      reject_if (incomingPresent && destinationPresent)
        (needsRecoveryCleanupReview "both incoming and promoted destination artifacts are present");;
      Ok (if incomingPresent : bool then Some incoming else if destinationPresent : bool then Some promoted else None)
  | _, _, _, _ => Err (needsRecoveryCleanupReview "destination cleanup intent is incomplete: %v")
  end.

(** ** Cleanup journals (cleanup.go) *)

Definition moveCleanupAuthority (move : Move) : CleanupJournal.Authority :=
  {| Authority.Kind := "ShiftPVMove"; Authority.Name := Move.Name move; Authority.UID := Move.UID move |}.

Definition moveCleanupSpec (move : Move) : result CleanupJournal.Spec :=
  match MoveStatus.SourceCopy (Move.Status move) with
  | None => Err (Errorf "move cleanup identity is incomplete")
  | Some source =>
      reject_if ((Move.Name move == "") || (Move.UID move == "")) (Errorf "move cleanup identity is incomplete");;
      let spec := {| Spec.OperationID := MoveCleanupOperationID (Move.UID move); Spec.Target := source; Spec.Reason := "MoveSource";
                     Spec.Authority := moveCleanupAuthority move |} in
      Spec.Validate spec;;
      Ok spec
  end.

(** The journal of the rollback of the destination artifact [target]. *)
Definition rollbackSpec (move : Move) (target : CopyIdentity) : CleanupJournal.Spec :=
  {| Spec.OperationID := MoveRollbackOperationID (Move.UID move); Spec.Target := target; Spec.Reason := "MoveRollback";
     Spec.Authority := moveCleanupAuthority move |}.

Definition moveCleanupPending (move : Move) : bool :=
  negb (contains [""; CleanupJournal.PhaseCompleted; CleanupJournal.PhaseNeedsReview] (MoveStatus.CleanupPhase (Move.Status move))).

Definition cleanupIntentMatches (move : Move) (spec : CleanupJournal.Spec) : bool :=
  if Spec.Reason spec == "MoveRollback" then Spec.OperationID spec == MoveRollbackOperationID (Move.UID move)
  else if Spec.Reason spec == "MoveSource" then Spec.OperationID spec == MoveCleanupOperationID (Move.UID move)
  else false.

Definition cleanupContractComplete (r : Reconciler) (move : Move) (spec : CleanupJournal.Spec) : bool :=
  Reconciler.Cleanups r && Reconciler.CleanupOperator r && (Move.UID move != "") &&
  (Spec.Authority spec == moveCleanupAuthority move) && (VolumeID (Spec.Target spec) == MoveSpec.VolumeID (Move.Spec move)) &&
  is_ok (Spec.Validate spec).

Definition cleanupReceiptComplete (request : Cleanup) (spec : CleanupJournal.Spec) : bool :=
  let status := Cleanup.Status request in
  ((Status.Phase status == CleanupJournal.PhaseVerifying) || (Status.Phase status == CleanupJournal.PhaseConfirmingAbsence)) &&
  some_and (Status.Receipt status) (fun receipt => some_and (Status.Executor status) (fun executor =>
    (Receipt.OperationID receipt == Spec.OperationID spec) && (Receipt.ExecutorUID receipt == Executor.ExecutionUID executor) &&
    Receipt.Retired receipt && Receipt.Purged receipt)).

Definition cleanupJobNeedsSettlement (request : Cleanup) : bool :=
  let status := Cleanup.Status request in
  contains [CleanupJournal.PhaseVerifying; CleanupJournal.PhaseConfirmingAbsence; CleanupJournal.PhaseCompleted] (Status.Phase status) &&
  some_and (Status.Executor status) (fun executor => Executor.Kind executor == "").

(** ** Errors the handlers tell apart *)

Definition errLifecyclePending : error := Errorf "lifecycle action requires re-observation".
Definition errCleanupPending : error := Errorf "cleanup executor settlement is pending".
Definition errSourceUsagePending : error := Errorf "source usage observation is pending".
Definition errCapacityApprovalPersistence : error := Errorf "capacity approval persistence failed".
Definition errMoveStatusPersistence : error := Errorf "Move status persistence failed; re-observation required".
Definition ErrCapacityProbePending : error := Errorf "destination capacity probe is pending".

(** [err.Error()]; formatted arguments are not part of the model. *)
Definition Error (err : error) : string := match err with Errorf message => message | Wrapf _ message => message end.

Definition actionComplete (outcome : result unit) : result bool :=
  match outcome with
  | Ok _ => Ok true
  | Err err =>
      if error_is err errLifecyclePending || error_is err errCleanupPending || error_is err errSourceUsagePending
      then Ok false else Err err
  end.

(** ** Messages and progress (diagnostics.go) *)

Definition mobilityMessages (phase : string) : option string :=
  if phase == Fsm.PhasePending then Some "automatic retry; evaluating mobility preconditions"
  else if phase == Fsm.PhasePreparing then Some "automatic retry; reserving a destination while the source remains publishable"
  else if phase == Fsm.PhaseStartingDisruption then Some "automatic retry; starting disruption from the durable preparation intent"
  else if phase == Fsm.PhaseCanceling then Some "cancelling preparation before destination execution approval"
  else if phase == Fsm.PhaseCancelled then Some "preparation cancelled; source authority preserved"
  else if phase == Fsm.PhaseWaitingForUnpublish then Some "automatic retry; waiting for the source node to report the volume unpublished"
  else if phase == Fsm.PhaseWaitingForReplacement then Some "automatic retry; waiting for the workload controller to create a replacement Pod"
  else if phase == Fsm.PhaseWaitingForDestination then Some "automatic retry; waiting for the scheduler to select a registered destination"
  else if phase == Fsm.PhaseCopying then Some "automatic retry; waiting for the destination staging copy Job"
  else if phase == Fsm.PhasePromoting then Some "automatic retry; waiting for destination promotion"
  else if phase == Fsm.PhaseCommitting then Some "automatic retry; committing the destination as authoritative owner"
  else if phase == Fsm.PhaseReleasingDestination then Some "automatic retry; releasing the destination reservation after owner commit"
  else if phase == Fsm.PhaseWaitingForDestinationPublish then Some "automatic retry; waiting for the destination node to publish the volume"
  else if phase == Fsm.PhaseCleaningSource then Some "automatic retry; waiting for source cleanup"
  else if phase == Fsm.PhaseCompleting then Some "automatic retry; finalizing confirmed cleanup and releasing the move lock"
  else if phase == Fsm.PhaseSucceeded then Some "mobility completed; no operator action is required"
  else None.

Definition waitReasonMessage (reason : string) : string :=
  if reason == "CompletionAuthorityMismatch" then "cleanup is confirmed but volume authority changed; inspect the current owner and active Move"
  else if reason == "DisruptionBudgetDenied" then
    "the PodDisruptionBudget does not currently allow eviction; wait for budget capacity or update the budget"
  else if contains ["NoCompatibleDestination"; "DestinationUnavailable"] reason then
    "no Ready registered destination satisfies the workload constraints; restore a compatible Pool node or change the hard scheduling constraints"
  else if reason == "AdmissionNotEnabled" then
    "the workload namespace is not opted in to ShiftPV mobility; restore the namespace admission label"
  else if contains ["MultipleConsumers"; "MultiplePVCsUnsupported"] reason then
    "the workload shape is outside the supported single-consumer, single-ShiftPV-PVC contract"
  else if contains ["BarePodUnsupported"; "UnsupportedWorkloadController"; "CustomSchedulerUnsupported"] reason then
    "the workload controller or scheduler is outside the supported mobility contract"
  else if contains ["SchedulingGateUnsupported"; "InterPodAffinityUnsupported"; "TopologySpreadUnsupported"; "ResourceClaimUnsupported";
                    "SchedulerVolumeUnsupported"; "ExplicitNodeNameUnsupported"] reason then
    "a hard scheduling constraint cannot be evaluated safely by ShiftPV; remove it or move the workload explicitly"
  else "mobility is waiting because " +:+ reason.

Definition mobilityMessage (phase reason : string) : string :=
  if phase == Fsm.PhaseBlocked then
    "operator action required; automatic rollback is disabled; inspect the reason and authoritative owner, restore the failed prerequisite, then use ResumeOwner only when its recovery checks can pass"
  else if (phase == Fsm.PhaseCanceling) || (phase == Fsm.PhaseCancelled) then default "" (mobilityMessages phase)
  else if reason != "" then "automatic retry; " +:+ waitReasonMessage reason
  else match mobilityMessages phase with
       | Some message => message
       | None => "automatic retry; reconciling mobility state"
       end.

Definition recoveryPhaseMessage (phase owner : string) : string :=
  if phase == Fsm.RecoveryRecovered then
    "owner recovery completed on " +:+ owner +:+ "; the original Blocked reason is retained as history; no operator action is required"
  else "automatic retry; ResumeOwner recovery is in " +:+ phase +:+ " on authoritative owner " +:+ owner.

Definition recoveryErrorMessage (reason : string) (cause : error) : string :=
  if reason == "ObservationFailed" then "automatic retry; ResumeOwner recovery could not observe current state: " +:+ Error cause
  else "operator action required; ResumeOwner recovery cannot continue: " +:+ Error cause.

(** The fields whose change counts as progress. *)
Definition progressOf (s : MoveStatus) : list string * bool :=
  let copyID (copy : option CopyIdentity) := match copy with Some copy => CopyID copy | None => "" end in
  ([MoveStatus.Phase s; MoveStatus.RecoveryPhase s; MoveStatus.PersistentVolumeName s; MoveStatus.ClaimNamespace s;
    MoveStatus.ClaimName s; MoveStatus.ConsumerName s; MoveStatus.ConsumerUID s; MoveStatus.ReplacementName s;
    MoveStatus.ReplacementUID s; MoveStatus.DestinationNode s; MoveStatus.DestinationPoolUID s; MoveStatus.CopyJobName s;
    MoveStatus.PromotionJobName s; MoveStatus.RecoveryOwner s; MoveStatus.CopyOperationID s; MoveStatus.PromotionOperationID s;
    copyID (MoveStatus.SourceCopy s); copyID (MoveStatus.IncomingCopy s); copyID (MoveStatus.DestinationCopy s)],
   MoveStatus.EvictionRequested s).
