(* ===== verification/MobilityPods.v ===== *)
(** * The mobility controller: Pod shapes

    src/mobility/controller/preflight.go, placement.go, prepared_placement.go and
    resource_validation.go: which workloads the controller can move, the reservation
    that holds a node for a replacement, and when an existing helper object is exactly
    the one the controller would create. *)

From S2P Require Import Prelude RecordUpdate Bytes VolumeState PoolApi MoveApi Kube Mobility MobilityRules.
From stdpp Require Import sorting.

(** ** Supported workloads (preflight.go) *)

Definition unsupportedPlacement (spec : PodSpec) : string :=
  if (PodSpec.SchedulerName spec != "") && (PodSpec.SchedulerName spec != "default-scheduler") then "CustomSchedulerUnsupported"
  else if negb (length (PodSpec.SchedulingGates spec) =? 0)%nat then "SchedulingGateUnsupported"
  else if some_and (PodSpec.Affinity spec) (fun a => negb (is_nil (Affinity.PodAffinity a)) || negb (is_nil (Affinity.PodAntiAffinity a)))
  then "InterPodAffinityUnsupported"
  else if negb (length (PodSpec.TopologySpreadConstraints spec) =? 0)%nat then "TopologySpreadUnsupported"
  else if negb (length (PodSpec.ResourceClaims spec) =? 0)%nat then "ResourceClaimUnsupported"
  else if existsb (fun volume => negb (is_nil (Volume.Ephemeral volume)) || negb (is_nil (Volume.CSI volume))) (PodSpec.Volumes spec)
  then "SchedulerVolumeUnsupported" else "".

Definition unsupportedConsumerPlacement (pod template : PodSpec) : string :=
  if negb (size (pvcNames pod) =? 1)%nat || (1 <? size (pvcNames template))%nat then "MultiplePVCsUnsupported"
  else if unsupportedPlacement pod != "" then unsupportedPlacement pod
  else if unsupportedPlacement template != "" then unsupportedPlacement template
  else if PodSpec.NodeName template != "" then "ExplicitNodeNameUnsupported" else "".

Definition placementProbePod (pod : Pod) (template : PodTemplateSpec) (ownerNode : string) : Pod :=
  let spec := Pod.Spec pod in
  if (entry (ObjectMeta.Annotations (Pod.Meta pod)) placementAnnotationKey == "owner") &&
     (entry (PodSpec.NodeSelector (PodTemplateSpec.Spec template)) LabelHostname == "") &&
     (entry (PodSpec.NodeSelector spec) LabelHostname == ownerNode)
  then pod <| Pod.Spec := spec <| PodSpec.NodeSelector := delete LabelHostname (PodSpec.NodeSelector spec) |> |>
  else pod.

(** ** The reservation (placement.go) *)

Definition placementAffinity (original : option Affinity) (candidates : list string) : Affinity :=
  let requirement := {| NodeSelectorRequirement.Key := LabelHostname; NodeSelectorRequirement.Operator := "In";
                        NodeSelectorRequirement.Values := candidates |} in
  let node := match original with
              | Some a => default {| NodeAffinity.Required := None; NodeAffinity.Preferred := [] |} (Affinity.NodeAffinity a)
              | None => {| NodeAffinity.Required := None; NodeAffinity.Preferred := [] |}
              end in
  let required :=
    match NodeAffinity.Required node with
    | None | Some [] => [{| NodeSelectorTerm.MatchExpressions := [requirement]; NodeSelectorTerm.MatchFields := [] |}]
    | Some terms =>
        map (fun term => {| NodeSelectorTerm.MatchExpressions := NodeSelectorTerm.MatchExpressions term ++ [requirement];
                            NodeSelectorTerm.MatchFields := NodeSelectorTerm.MatchFields term |}) terms
    end in
  {| Affinity.NodeAffinity := Some {| NodeAffinity.Required := Some required; NodeAffinity.Preferred := NodeAffinity.Preferred node |};
     Affinity.PodAffinity := None; Affinity.PodAntiAffinity := None |}.

(** The text of a port's key is not formatted: its parts are compared. *)
Fixpoint host_ports (seen : list (string * string * Z)) (ports : list ContainerPort) : list ContainerPort * list (string * string * Z) :=
  match ports with
  | [] => ([], seen)
  | port :: ports =>
      let key := (ContainerPort.HostIP port, ContainerPort.Protocol port, ContainerPort.HostPort port) in
      if (ContainerPort.HostPort port =? 0)%Z || bool_decide (key ∈ seen) then host_ports seen ports
      else let '(rest, seen) := host_ports (key :: seen) ports in (port <| ContainerPort.Name := "" |> :: rest, seen)
  end.

Definition placementPorts (pod : Pod) : list ContainerPort :=
  fst (host_ports [] (concat (map Container.Ports (PodSpec.InitContainers (Pod.Spec pod) ++ PodSpec.Containers (Pod.Spec pod))))).

Section environment.
Context {EN : Environment} (r : Reconciler).

Definition no_resources : ResourceRequirements :=
  {| ResourceRequirements.Requests := ∅; ResourceRequirements.Limits := ∅; ResourceRequirements.Claims := [] |}.

Definition placementPod (move : Move) (replacement : Pod) (names : resourceNames) : Pod :=
  let source := Pod.Spec replacement in
  let candidates := if MoveStatus.DestinationNode (Move.Status move) != "" then [MoveStatus.DestinationNode (Move.Status move)]
                    else MoveStatus.CandidateNodes (Move.Status move) in
  {| Pod.Meta := moveObjectMeta move (resourceNames.PlacementPod names) (Reconciler.Namespace r) (placementLabels names move);
     Pod.Spec :=
       {| PodSpec.NodeName := ""; PodSpec.NodeSelector := PodSpec.NodeSelector source;
          PodSpec.Affinity := Some (placementAffinity (PodSpec.Affinity source) (merge_sort string_le candidates));
          PodSpec.Tolerations := PodSpec.Tolerations source; PodSpec.SchedulerName := PodSpec.SchedulerName source;
          PodSpec.SchedulingGates := []; PodSpec.PriorityClassName := Reconciler.PlacementPriorityClassName r;
          PodSpec.Priority := Some 0%Z; PodSpec.PreemptionPolicy := Some "Never";
          PodSpec.RuntimeClassName := PodSpec.RuntimeClassName source; PodSpec.HostNetwork := PodSpec.HostNetwork source;
          PodSpec.HostPID := false; PodSpec.HostIPC := false; PodSpec.OS := PodSpec.OS source; PodSpec.RestartPolicy := "Always";
          PodSpec.TerminationGracePeriodSeconds := Some 0%Z; PodSpec.AutomountServiceAccountToken := Some false;
          PodSpec.ServiceAccountName := ""; PodSpec.InitContainers := [];
          PodSpec.Containers :=
            [{| Container.Name := "reservation"; Container.Image := Reconciler.HelperImage r; Container.ImagePullPolicy := "";
                Container.Command := ["/bin/sh"; "-c"; "exec sleep 2147483647"]; Container.Args := []; Container.Env := [];
                Container.EnvFrom := []; Container.Ports := placementPorts replacement;
                Container.Resources := no_resources <| ResourceRequirements.Requests := PodRequests true replacement |>;
                Container.VolumeMounts := []; Container.VolumeDevices := [];
                Container.SecurityContext :=
                  Some {| SecurityContext.AllowPrivilegeEscalation := Some false; SecurityContext.RunAsNonRoot := Some true;
                          SecurityContext.RunAsUser := Some 65532%Z; SecurityContext.Drop := ["ALL"]; SecurityContext.Other := None |};
                Container.Lifecycle := None; Container.LivenessProbe := None; Container.ReadinessProbe := None;
                Container.StartupProbe := None; Container.TerminationMessagePath := ""; Container.TerminationMessagePolicy := "" |}];
          PodSpec.EphemeralContainers := []; PodSpec.Volumes := []; PodSpec.TopologySpreadConstraints := [];
          PodSpec.ResourceClaims := []; PodSpec.Resources := None;
          PodSpec.SecurityContext := Some "runAsNonRoot, user and group 65532, seccomp RuntimeDefault" |};
     Pod.Phase := ""; Pod.Conditions := [] |}.

Definition toleratesPlacement (spec : PodSpec) (node : Node) : bool :=
  forallb (fun taint =>
    if (Taint.Effect taint != "NoSchedule") && (Taint.Effect taint != "NoExecute") then true
    else existsb (fun toleration => ToleratesTaint toleration taint) (PodSpec.Tolerations spec)) (Node.Taints node).

Definition schedulableDestination (node : Node) (live template : PodSpec) (liveMatch templateMatch : bool)
    (pvAffinity : option (Node -> bool)) : bool :=
  NodeReady node && negb (Node.Unschedulable node) && liveMatch && templateMatch &&
  match pvAffinity with None => true | Some matches => matches node end &&
  toleratesPlacement live node && toleratesPlacement template node.

(** The selector, or the rejection reason. *)
Definition requiredPVAffinity (pv : PersistentVolume) : option (Node -> bool) * string :=
  match PersistentVolume.RequiredAffinity pv with
  | None => (None, "")
  | Some required => match NewNodeSelector required with
                     | Ok selector => (Some selector, "")
                     | Err _ => (None, "InvalidPVNodeAffinity")
                     end
  end.

(** ** Coverage of a workload by its reservation (prepared_placement.go) *)

(** [defaultRequests]: a limit is the request when that request was omitted. *)
Definition defaultRequests (resources : ResourceRequirements) : ResourceRequirements :=
  resources <| ResourceRequirements.Requests := ResourceRequirements.Requests resources ∪ ResourceRequirements.Limits resources |>.

Definition preparedTemplatePod (template : PodTemplateSpec) : Pod :=
  let spec := PodTemplateSpec.Spec template in
  let defaulted c := c <| Container.Resources := defaultRequests (Container.Resources c) |> in
  {| Pod.Meta := {| ObjectMeta.Name := ""; ObjectMeta.Namespace := ""; ObjectMeta.UID := ""; ObjectMeta.ResourceVersion := "";
                    ObjectMeta.Generation := 0; ObjectMeta.Labels := ∅; ObjectMeta.Annotations := ∅;
                    ObjectMeta.OwnerReferences := []; ObjectMeta.DeletionTimestamp := None |};
     Pod.Spec := spec <| PodSpec.Containers := map defaulted (PodSpec.Containers spec) |>
                      <| PodSpec.InitContainers := map defaulted (PodSpec.InitContainers spec) |>
                      <| PodSpec.Resources := defaultRequests <$> PodSpec.Resources spec |>;
     Pod.Phase := ""; Pod.Conditions := [] |}.

Definition preparedRuntimeMatches (reserved requested : PodSpec) (template : bool) : bool :=
  (PodSpec.HostNetwork reserved == PodSpec.HostNetwork requested) &&
  match PodSpec.RuntimeClassName requested with
  | Some _ => PodSpec.RuntimeClassName reserved == PodSpec.RuntimeClassName requested
  | None => template || is_nil (PodSpec.RuntimeClassName reserved)
  end &&
  (is_nil (PodSpec.OS requested) || (PodSpec.OS reserved == PodSpec.OS requested)).

Definition port_key (port : ContainerPort) : string * string * Z :=
  (ContainerPort.HostIP port, if ContainerPort.Protocol port == "" then "TCP" else ContainerPort.Protocol port, ContainerPort.HostPort port).

Definition preparedPortsCover (placement requested : Pod) : bool :=
  forallb (fun port => bool_decide (port_key port ∈ map port_key (placementPorts placement))) (placementPorts requested).

(** The loop body of [preparedPlacementCoverage]. *)
Definition uncovered (placement requested : Pod) : string :=
  let reserved := PodRequests false placement in
  if existsb (fun '(name, amount) => QuantityLess (entry reserved name) amount) (map_to_list (PodRequests false requested))
  then "PreparedResourceRequestsChanged"
  else if negb (preparedPortsCover placement requested) then "PreparedHostPortsChanged" else "".

Definition preparedPlacementCoverage (placement consumer : Pod) (template : PodTemplateSpec) : string :=
  if uncovered placement consumer != "" then uncovered placement consumer
  else if uncovered placement (preparedTemplatePod template) != "" then uncovered placement (preparedTemplatePod template)
  else if negb (preparedRuntimeMatches (Pod.Spec placement) (Pod.Spec consumer) false) ||
          negb (preparedRuntimeMatches (Pod.Spec placement) (PodTemplateSpec.Spec template) true)
  then "PreparedRuntimeChanged" else "".
End environment.

(** ** Existing helper objects (resource_validation.go) *)

Definition sameOperationJobIdentity (found expected : Job) : bool :=
  let fm := Job.Meta found in let em := Job.Meta expected in
  match Job.ActiveDeadlineSeconds expected with
  | None => is_nil (Job.ActiveDeadlineSeconds found)
  | Some _ => some_and (Job.ActiveDeadlineSeconds found) (fun seconds => (0 <? seconds)%Z)
  end &&
  is_nil (ObjectMeta.DeletionTimestamp fm) && (ObjectMeta.Name fm == ObjectMeta.Name em) &&
  (ObjectMeta.Namespace fm == ObjectMeta.Namespace em) && (ObjectMeta.OwnerReferences fm == ObjectMeta.OwnerReferences em) &&
  (entry (ObjectMeta.Labels fm) "shiftpv.io/move-uid" == entry (ObjectMeta.Labels em) "shiftpv.io/move-uid") &&
  (Job.BackoffLimit found == Job.BackoffLimit expected).

Definition sameOperationPodSpec (actual wanted : PodSpec) : bool :=
  (PodSpec.NodeName actual == PodSpec.NodeName wanted) && (PodSpec.ServiceAccountName actual == PodSpec.ServiceAccountName wanted) &&
  (PodSpec.RestartPolicy actual == PodSpec.RestartPolicy wanted) && negb (PodSpec.HostPID actual) && negb (PodSpec.HostIPC actual) &&
  negb (PodSpec.HostNetwork actual) && (length (PodSpec.InitContainers actual) =? 0)%nat &&
  (length (PodSpec.EphemeralContainers actual) =? 0)%nat && (length (PodSpec.Containers actual) =? 1)%nat &&
  (length (PodSpec.Containers wanted) =? 1)%nat && (PodSpec.Volumes actual == PodSpec.Volumes wanted).

Definition sameOperationContainer (a w : Container) : bool :=
  (Container.Name a == Container.Name w) && (Container.Image a == Container.Image w) && (Container.Command a == Container.Command w) &&
  (Container.Args a == Container.Args w) && (Container.Env a == Container.Env w) && (length (Container.EnvFrom a) =? 0)%nat &&
  (Container.Resources a == Container.Resources w) && (Container.VolumeMounts a == Container.VolumeMounts w) &&
  (Container.SecurityContext a == Container.SecurityContext w) && (length (Container.VolumeDevices a) =? 0)%nat &&
  is_nil (Container.Lifecycle a) && is_nil (Container.LivenessProbe a) && is_nil (Container.ReadinessProbe a) &&
  is_nil (Container.StartupProbe a).

(** [Containers[0]] of two Pod specs that have one container each. *)
Definition first_containers (actual wanted : PodSpec) (same : Container -> Container -> bool) : bool :=
  match PodSpec.Containers actual, PodSpec.Containers wanted with
  | a :: _, w :: _ => same a w
  | _, _ => false
  end.

Definition sameOperationJob (found expected : Job) : bool :=
  let actual := PodTemplateSpec.Spec (Job.Template found) in let wanted := PodTemplateSpec.Spec (Job.Template expected) in
  sameOperationJobIdentity found expected && sameOperationPodSpec actual wanted &&
  first_containers actual wanted sameOperationContainer.

Definition sameMoveObject (found expected : ObjectMeta) : bool :=
  is_nil (ObjectMeta.DeletionTimestamp found) && (ObjectMeta.Name found == ObjectMeta.Name expected) &&
  (ObjectMeta.Namespace found == ObjectMeta.Namespace expected) &&
  (entry (ObjectMeta.Labels found) "shiftpv.io/move" == entry (ObjectMeta.Labels expected) "shiftpv.io/move") &&
  (entry (ObjectMeta.Labels found) "shiftpv.io/move-uid" == entry (ObjectMeta.Labels expected) "shiftpv.io/move-uid") &&
  (ObjectMeta.OwnerReferences found == ObjectMeta.OwnerReferences expected).

Definition newline : string := String (Ascii.ascii_of_nat 10) "".

Definition validTransferSecret (secret : Secret) : bool :=
  let data := Secret.Data secret in
  (size data =? 2)%nat && (entry data "password" != "") &&
  (entry data "secrets" == "shiftpv:" +:+ entry data "password" +:+ newline).

(** What remains of a map by name when every wanted value was found and removed. *)
Fixpoint remove_wanted {A : Type} `{EqDecision A} (name : A -> string) (remaining : gmap string A) (wanted : list A) : option (gmap string A) :=
  match wanted with
  | [] => Some remaining
  | value :: wanted =>
      if remaining !! name value == Some value then remove_wanted name (delete (name value) remaining) wanted else None
  end.

Definition by_name {A : Type} (name : A -> string) (values : list A) : gmap string A :=
  list_to_map (reverse (map (fun value => (name value, value)) values)).

Definition validTokenProjection (path audience : string) (expirationSeconds : option Z) : bool :=
  (path == "token") && (audience == "") && some_and expirationSeconds (fun seconds => (0 <? seconds)%Z).

Definition validRootCAProjection (name : string) (items : list KeyToPath) : bool :=
  (name == "kube-root-ca.crt") && (items == [{| KeyToPath.Key := "ca.crt"; KeyToPath.Path := "ca.crt" |}]).

Definition validNamespaceProjection (items : list DownwardAPIFile) : bool :=
  items == [{| DownwardAPIFile.Path := "namespace"; DownwardAPIFile.FieldRef := Some ("v1", "metadata.namespace") |}].

(** The loop of [validServiceAccountProjection] over the sources; [None] is its early
    return. *)
Fixpoint check_projections (sources : list Projection) (seen : bool * bool * bool) : option (bool * bool * bool) :=
  match sources with
  | [] => Some seen
  | source :: sources =>
      let '(token, rootCA, namespace) := seen in
      match source with
      | TokenProjection path audience seconds => check_projections sources (validTokenProjection path audience seconds, rootCA, namespace)
      | ConfigMapProjection name items => check_projections sources (token, validRootCAProjection name items, namespace)
      | DownwardAPIProjection items => check_projections sources (token, rootCA, validNamespaceProjection items)
      | UnknownProjection _ => None
      end
  end.

Definition validServiceAccountProjection (volume : Volume) : bool :=
  HasPrefix (Volume.Name volume) "kube-api-access-" &&
  match Volume.Projected volume with
  | None => false
  | Some (sources, mode) =>
      (length sources =? 3)%nat && (mode == Some 420%Z) && (check_projections sources (false, false, false) == Some (true, true, true))
  end.

(** The name of the projected token volume, "" when there is none; [None] is a mismatch. *)
Definition sameSourceVolumes (found expected : list Volume) : option string :=
  if negb (length found =? length expected)%nat && negb (length found =? length expected + 1)%nat then None
  else if existsb (fun volume => Volume.Name volume == "") found then None
  else match remove_wanted Volume.Name (by_name Volume.Name found) expected with
       | None => None
       | Some remaining =>
           match map_to_list remaining with
           | [] => Some ""
           | [(name, volume)] => if validServiceAccountProjection volume then Some name else None
           | _ => None
           end
       end.

Definition sameSourceVolumeMounts (found expected : list VolumeMount) (serviceAccountVolume : string) : bool :=
  if negb (length found =? length expected)%nat &&
     ((serviceAccountVolume == "") || negb (length found =? length expected + 1)%nat) then false
  else if existsb (fun mount => VolumeMount.Name mount == "") found then false
  else match remove_wanted VolumeMount.Name (by_name VolumeMount.Name found) expected with
       | None => false
       | Some remaining =>
           if serviceAccountVolume == "" then (size remaining =? 0)%nat
           else some_and (remaining !! serviceAccountVolume) (fun mount =>
                  (size remaining =? 1)%nat && (VolumeMount.MountPath mount == "/var/run/secrets/kubernetes.io/serviceaccount") &&
                  VolumeMount.ReadOnly mount && (VolumeMount.SubPath mount == "") && (VolumeMount.SubPathExpr mount == "") &&
                  is_nil (VolumeMount.MountPropagation mount))
       end.

Definition sameSourcePodSpec (a w : PodSpec) (volumesMatch : bool) : bool :=
  (PodSpec.NodeName a == PodSpec.NodeName w) && (PodSpec.ServiceAccountName a == PodSpec.ServiceAccountName w) &&
  (PodSpec.RestartPolicy a == PodSpec.RestartPolicy w) && negb (PodSpec.HostPID a) && negb (PodSpec.HostIPC a) &&
  negb (PodSpec.HostNetwork a) && (length (PodSpec.InitContainers a) =? 0)%nat && (length (PodSpec.EphemeralContainers a) =? 0)%nat &&
  (length (PodSpec.Containers a) =? 1)%nat && (length (PodSpec.Containers w) =? 1)%nat && volumesMatch.

Definition sameSourceContainer (serviceAccountVolume : string) (a w : Container) : bool :=
  (Container.Name a == Container.Name w) && (Container.Image a == Container.Image w) && (Container.Command a == Container.Command w) &&
  (Container.Args a == Container.Args w) && (Container.Env a == Container.Env w) && (length (Container.EnvFrom a) =? 0)%nat &&
  (Container.Ports a == Container.Ports w) && (Container.ReadinessProbe a == Container.ReadinessProbe w) &&
  (Container.ImagePullPolicy a == Container.ImagePullPolicy w) && (Container.Resources a == Container.Resources w) &&
  (Container.TerminationMessagePath a == Container.TerminationMessagePath w) &&
  (Container.TerminationMessagePolicy a == Container.TerminationMessagePolicy w) &&
  (Container.SecurityContext a == Container.SecurityContext w) &&
  sameSourceVolumeMounts (Container.VolumeMounts a) (Container.VolumeMounts w) serviceAccountVolume &&
  (length (Container.VolumeDevices a) =? 0)%nat && is_nil (Container.Lifecycle a) && is_nil (Container.LivenessProbe a) &&
  is_nil (Container.StartupProbe a).

Definition sameSourcePod (found expected : Pod) : bool :=
  let a := Pod.Spec found in let w := Pod.Spec expected in
  let volumes := sameSourceVolumes (PodSpec.Volumes a) (PodSpec.Volumes w) in
  sameSourcePodSpec a w (negb (is_nil volumes)) && first_containers a w (sameSourceContainer (default "" volumes)).

Fixpoint sameServicePorts (found expected : list ServicePort) : bool :=
  match found, expected with
  | [], [] => true
  | f :: found, e :: expected =>
      (ServicePort.Name f == ServicePort.Name e) && (ServicePort.Port f =? ServicePort.Port e)%Z &&
      (ServicePort.TargetPort f =? ServicePort.TargetPort e)%Z &&
      ((ServicePort.Protocol f == "") || (ServicePort.Protocol f == "TCP")) && sameServicePorts found expected
  | _, _ => false
  end.
