(* ===== verification/MobilityObserve.v ===== *)
(** * The mobility controller: observations

    src/mobility/controller: what the controller reads before it decides.  observe.go,
    observe_storage.go, observe_workload.go, observe_execution.go and preflight.go build
    the snapshot of an executing Move; preparation.go, prepared_placement.go,
    prepared_execution.go and prepared_cancellation.go the one of a Move that prepares
    or cancels; recovery.go and workload_settlement.go the one of a Move that recovers. *)

From S2P Require Import Prelude RecordUpdate Bytes Filepath VolumeIdentity Fsm Apimachinery Registration GoTime ApiServer VolumeState.
From S2P Require Import PoolApi VolumeRegistry MoveApi Capacity CleanupJournal History Kube Mobility MobilityRules MobilityPods.
From stdpp Require Import sorting.

Section observe.
Context {AM : Apimachinery} {EN : Environment} (r : Reconciler).

Definition now : io Run Z := perform Now.

Definition staleAfter : Z :=
  if (Reconciler.PoolReadinessStaleAfter r <=? 0)%Z then DefaultPoolReadinessStaleAfter else Reconciler.PoolReadinessStaleAfter r.

(** ** Cleanup journals (cleanup.go) *)

Definition observeCompletedCleanup (journal : Cleanup) : io Run bool :=
  io_reject_if (negb (Reconciler.CleanupOperator r)) (Errorf "completed cleanup observer is not configured");;
  ready ← perform (ObserveCompletedCleanup journal);
  if ready : bool then mret true else io_fail errCleanupPending.

(** The journal, [None] when there is none. *)
Definition journal_or_none (c : io Run Cleanup) : io Run (option Cleanup) :=
  got ← attempt c;
  match got with
  | Ok journal => mret (Some journal)
  | Err err => if error_is err CleanupJournal.ErrNoJournal then mret None else io_fail err
  end.

(** Whether the cleanup of the source is complete, and whether it failed. *)
Definition cleanupState (move : Move) : io Run (bool * bool) :=
  match moveCleanupSpec move with
  | Err _ => mret (false, false)
  | Ok spec =>
      found ← journal_or_none (perform (GetJournal (Spec.Authority spec)));
      match found with
      | None => mret (false, false)
      | Some request =>
          io_reject_if (Cleanup.Spec request != spec) (Errorf "cleanup request belongs to a different Move");;
          let phase := Status.Phase (Cleanup.Status request) in
          if phase == CleanupJournal.PhaseCompleted then
            ready ← observeCompletedCleanup request;
            mret (ready, false)
          else mret (false, phase == CleanupJournal.PhaseNeedsReview)
      end
  end.

Definition settlementArtifactsClosed (move : Move) : io Run unit :=
  io_reject_if (negb (Reconciler.Cleanups r)) (Errorf "settlement cleanup history store is unavailable");;
  journal ← journal_or_none (perform (GetHistory (moveCleanupAuthority move)));
  let move := match journal with
              | Some stored =>
                  Move.with_Status move ((Move.Status move) <| MoveStatus.CleanupPhase := Status.Phase (Cleanup.Status stored) |>)
              | None => move
              end in
  io_lift (ValidateSettlementCompletion move journal).

(** ** Preflight (preflight.go) *)

Definition preflightPDB (pod : Pod) : io Run string :=
  budgets ← wrapf "preflight PodDisruptionBudgets: %w" (perform (ListBudgets (ObjectMeta.Namespace (Pod.Meta pod))));
  mret ((fix loop (budgets : list PodDisruptionBudget) (matched : nat) : string :=
           match budgets with
           | [] => if (1 <? matched)%nat then "MultipleDisruptionBudgets" else ""
           | budget :: budgets =>
               match LabelSelector (PodDisruptionBudget.Selector budget) with
               | Err _ => "InvalidPodDisruptionBudget"
               | Ok selector =>
                   if negb (selector (ObjectMeta.Labels (Pod.Meta pod))) then loop budgets matched
                   else if (PodDisruptionBudget.ObservedGeneration budget <? PodDisruptionBudget.Generation budget)%Z ||
                           (PodDisruptionBudget.DisruptionsAllowed budget <? 1)%Z then "DisruptionBudgetDenied"
                   else loop budgets (S matched)
               end
           end) budgets 0%nat).

(** The template of the workload controller, or the reason why there is none. *)
Definition consumerTemplate (pod : Pod) : io Run (PodTemplateSpec + string) :=
  let namespace := ObjectMeta.Namespace (Pod.Meta pod) in
  match GetControllerOf (Pod.Meta pod) with
  | None => mret (inr "BarePodUnsupported")
  | Some owner =>
      let kind := if OwnerReference.APIVersion owner == "apps/v1" then OwnerReference.Kind owner else "" in
      if (kind != "ReplicaSet") && (kind != "StatefulSet") then mret (inr "UnsupportedWorkloadController")
      else
        got ← wrapf "read consumer controller: %w"
                (optional (perform (if kind == "ReplicaSet" then GetReplicaSet namespace (OwnerReference.Name owner)
                                    else GetStatefulSet namespace (OwnerReference.Name owner))));
        mret match got with
             | None => inr "ConsumerControllerMissing"
             | Some object =>
                 if (OwnerReference.UID owner == "") || (ObjectMeta.UID (Workload.Meta object) != OwnerReference.UID owner) ||
                    negb (is_nil (ObjectMeta.DeletionTimestamp (Workload.Meta object)))
                 then inr "ConsumerControllerChanged" else inl (Workload.Template object)
             end
  end.

(** The node affinity of a template is the one of a Pod made from it. *)
Definition templatePod (template : PodTemplateSpec) : Pod :=
  {| Pod.Meta := {| ObjectMeta.Name := ""; ObjectMeta.Namespace := ""; ObjectMeta.UID := ""; ObjectMeta.ResourceVersion := "";
                    ObjectMeta.Generation := 0; ObjectMeta.Labels := ∅; ObjectMeta.Annotations := ∅;
                    ObjectMeta.OwnerReferences := []; ObjectMeta.DeletionTimestamp := None |};
     Pod.Spec := PodTemplateSpec.Spec template; Pod.Phase := ""; Pod.Conditions := [] |}.

Fixpoint compatibleDestinations (candidateNodes : list string) (live : Pod) (template : PodTemplateSpec)
    (pvAffinity : option (Node -> bool)) (candidates : list string) : io Run (list string + string) :=
  match candidateNodes with
  | [] => mret (inl candidates)
  | nodeName :: candidateNodes =>
      got ← wrapf "preflight destination Node: %w" (optional (perform (GetNode nodeName)));
      match got with
      | None => compatibleDestinations candidateNodes live template pvAffinity candidates
      | Some node =>
          match NodeAffinityMatch live node, NodeAffinityMatch (templatePod template) node with
          | Ok liveMatch, Ok templateMatch =>
              compatibleDestinations candidateNodes live template pvAffinity
                (if schedulableDestination node (Pod.Spec live) (PodTemplateSpec.Spec template) liveMatch templateMatch pvAffinity
                 then candidates ++ [nodeName] else candidates)
          | _, _ => mret (inr "InvalidNodeAffinity")
          end
      end
  end.

(** [preflight] also narrows the candidates of the snapshot. *)
Definition preflight (observed : observation) : io Run (observation * string) :=
  match observation.Consumer observed with
  | None => mret (observed, "ConsumerUnavailable")
  | Some pod =>
      if negb (is_nil (ObjectMeta.DeletionTimestamp (Pod.Meta pod))) then mret (observed, "ConsumerUnavailable")
      else if negb (is_nil (observation.Replacement observed)) then mret (observed, "MultipleConsumers")
      else
        found ← consumerTemplate pod;
        match found with
        | inr reason => mret (observed, reason)
        | inl template =>
            let reason := unsupportedConsumerPlacement (Pod.Spec pod) (PodTemplateSpec.Spec template) in
            if reason != "" then mret (observed, reason)
            else
              let live := placementProbePod pod template (State.OwnerNode (observation.Volume observed)) in
              pv ← io_lift (deref (observation.PV observed));
              let '(pvAffinity, reason) := requiredPVAffinity pv in
              if reason != "" then mret (observed, reason)
              else
                found ← compatibleDestinations (observation.CandidateNodes observed) live template pvAffinity [];
                match found with
                | inr reason => mret (observed, reason)
                | inl [] => mret (observed, "NoCompatibleDestination")
                | inl candidates =>
                    reason ← preflightPDB pod;
                    mret (observed <| observation.CandidateNodes := merge_sort string_le candidates |>, reason)
                end
        end
  end.

(** ** Storage (observe_storage.go) *)

Definition observeVolume (move : Move) (result : observation) : io Run (observation * bool) :=
  got ← attempt (perform (GetVolume (MoveSpec.VolumeID (Move.Spec move))));
  match got with
  | Err err =>
      if IsNotFound err && completionAllowed move zeroState true
      then mret (result <| observation.VolumeMissing := true |> <|. Fsm.CompletionReady := true |>, true)
      else io_fail err
  | Ok state =>
      let result := result <| observation.Volume := state |>
                           <| observation.DestinationNode := MoveStatus.DestinationNode (Move.Status move) |> in
      let phase := MoveStatus.Phase (Move.Status move) in
      if phase == Fsm.PhaseCompleting
      then mret (result <|. Fsm.CompletionReady := completionAllowed move state false |>, true)
      else
        failed ← (if (State.Phase state == VolumeState.PhaseBlocked) && matchesCommittedDestinationIdentity move state false &&
                     ((phase == Fsm.PhaseWaitingForDestinationPublish) || (phase == Fsm.PhaseCleaningSource))
                  then
                    io_reject_if (negb (Reconciler.Cleanups r)) (Errorf "cleanup journal store is not configured");;
                    outcome ← cleanupState move;
                    mret (snd outcome)
                  else mret false);
        if failed : bool then mret (result <|. Fsm.CleanupFailed := true |>, true)
        else mret (result <|. Fsm.OwnerCommitted := hasCommittedDestinationAuthority move state false |>, false)
  end.

Fixpoint index_registered (pools : list Pool) (index : gmap string Pool) : result (gmap string Pool) :=
  match pools with
  | [] => Ok index
  | pool :: pools =>
      reject_if (Pool.UID pool == "") (Errorf "ShiftPVPool %q has no UID");;
      reject_if (negb (is_nil (index !! Pool.UID pool))) (Errorf "multiple ShiftPVPools share UID %q");;
      index_registered pools (<[Pool.UID pool := pool]> index)
  end.

Definition index_ready (registered : gmap string Pool) (pools : list Pool) : gmap string Pool :=
  foldl (fun index pool =>
    if some_and (registered !! Pool.UID pool) (fun known =>
         (Pool.Name known == Pool.Name pool) && (Pool.NodeName known == Pool.NodeName pool)) &&
       Check.OK (BackingConfigurationCheck pool)
    then <[Pool.UID pool := pool]> index else index) ∅ pools.

(** The clock is read for each Pool. *)
Fixpoint index_existing (ready existing : gmap string Pool) (pools : list Pool) : io Run (gmap string Pool) :=
  match pools with
  | [] => mret existing
  | pool :: pools =>
      if negb (is_nil (ready !! Pool.UID pool)) then index_existing ready existing pools
      else
        at_ ← now;
        index_existing ready (if fst (InventoryReadyAt pool at_ staleAfter) then <[Pool.UID pool := pool]> existing else existing) pools
  end.

Definition observePools : io Run poolIndex :=
  '(pools, readyPools) ← perform ObservePools;
  registered ← io_lift (index_registered pools ∅);
  let ready := index_ready registered readyPools in
  existing ← index_existing ready ready pools;
  mret {| poolIndex.registered := registered; poolIndex.ready := ready; poolIndex.existing := existing |}.

Definition observeSource (move : Move) (pools : poolIndex) (result : observation) : io Run observation :=
  let state := observation.Volume result in
  got ← wrapf "read source Node: %w" (optional (perform (GetNode (MoveSpec.SourceNode (Move.Spec move)))));
  let copy := moveSourceCopy move state in
  let sourceHealthy :=
    some_and got NodeReady &&
    some_and (indexedCopyPool (poolIndex.existing pools) copy) (fun pool => sourceCopyPresent pool (State.CurrentCopy state)) in
  let committed := Fsm.OwnerCommitted (observation.FSM result) in
  let result := result <|. Fsm.SourceHealthy := sourceHealthy |>
                       <| observation.SourceCordoned := some_and got Node.Unschedulable |> in
  let result := if negb sourceHealthy && negb committed then result <|. Fsm.UnsafeReason := "SourceUnavailable" |> else result in
  mret (if negb (is_nil copy) && negb committed && is_nil (indexedCopyPool (poolIndex.registered pools) copy)
        then result <|. Fsm.SourceAuthorityInvalid := true |> <|. Fsm.UnsafeReason := "SourcePoolIdentityChanged" |> else result).

Fixpoint candidate_nodes (move : Move) (ready : gmap string Pool) (source : option Pool) (registered : list (string * Pool))
    (nodes : list string) : io Run (list string) :=
  match registered with
  | [] => mret nodes
  | (poolUID, registeredPool) :: registered =>
      let nodeName := Pool.NodeName registeredPool in
      if (nodeName == MoveSpec.SourceNode (Move.Spec move)) ||
         negb (some_and source (fun source => Pool.PoolGroup registeredPool == Pool.PoolGroup source)) ||
         negb (some_and (ready !! poolUID) (fun pool =>
                 negb (PoolHasConflictingServingVolume pool (MoveSpec.VolumeID (Move.Spec move))
                         (MoveStatus.DestinationCopy (Move.Status move)))))
      then candidate_nodes move ready source registered nodes
      else
        got ← wrapf "read destination Node %q: %w" (optional (perform (GetNode nodeName)));
        candidate_nodes move ready source registered
          (if some_and got (fun node => NodeReady node && negb (Node.Unschedulable node)) && negb (contains nodes nodeName)
           then nodes ++ [nodeName] else nodes)
  end.

Definition observeCandidates (move : Move) (pools : poolIndex) (result : observation) : io Run observation :=
  let source := indexedCopyPool (poolIndex.registered pools) (moveSourceCopy move (observation.Volume result)) in
  nodes ← candidate_nodes move (poolIndex.ready pools) source (range (poolIndex.registered pools)) (observation.CandidateNodes result);
  let recorded := MoveStatus.CandidateNodes (Move.Status move) in
  mret (result <| observation.CandidateNodes :=
                    if negb (length recorded =? 0)%nat then recorded else merge_sort string_le nodes |>).

Definition destinationObservationPool (move : Move) (pools : poolIndex) (result : observation) : option Pool :=
  let uid := MoveStatus.DestinationPoolUID (Move.Status move) in
  if uid != "" then
    match (if MoveStatus.CapacityApproved (Move.Status move) then poolIndex.existing pools else poolIndex.ready pools) !! uid with
    | Some pool => if Pool.NodeName pool == observation.DestinationNode result then Some pool else None
    | None => None
    end
  else match indexedCopyPool (poolIndex.registered pools) (moveSourceCopy move (observation.Volume result)) with
       | None => None
       | Some source =>
           List.find (fun pool => (Pool.NodeName pool == observation.DestinationNode result) &&
                                  (Pool.PoolGroup pool == Pool.PoolGroup source) &&
                                  negb (PoolHasConflictingServingVolume pool (MoveSpec.VolumeID (Move.Spec move))
                                          (MoveStatus.DestinationCopy (Move.Status move))))
             (map snd (range (poolIndex.ready pools)))
       end.

Definition destinationGroupMismatch (move : Move) (pools : poolIndex) (result : observation) (selected : option Pool) : bool :=
  match indexedCopyPool (poolIndex.registered pools) (moveSourceCopy move (observation.Volume result)) with
  | None => false
  | Some source =>
      match selected with
      | Some pool => Pool.PoolGroup pool != Pool.PoolGroup source
      | None =>
          let uid := MoveStatus.DestinationPoolUID (Move.Status move) in
          if uid != "" then some_and (poolIndex.registered pools !! uid) (fun pool => Pool.PoolGroup pool != Pool.PoolGroup source)
          else
            let on_node := List.filter (fun pool => Pool.NodeName pool == observation.DestinationNode result)
                             (map snd (map_to_list (poolIndex.registered pools))) in
            negb (length on_node =? 0)%nat && forallb (fun pool => Pool.PoolGroup pool != Pool.PoolGroup source) on_node
      end
  end.

(** The destination cannot serve this Move. *)
Definition refuseDestination (result : observation) (reason : string) : observation :=
  result <|. Fsm.DestinationBlocked := true |> <|. Fsm.DestinationUnavailable := false |> <|. Fsm.UnsafeReason := reason |>.

(** The judgement of [observeDestination] on the selected Pool and the Node it read. *)
Definition judgeDestination (move : Move) (pools : poolIndex) (result : observation) (selected : option Pool) (node : option Node) : observation :=
  let status := Move.Status move in
  let copyConflict := some_and selected (fun pool =>
    PoolHasConflictingServingVolume pool (MoveSpec.VolumeID (Move.Spec move)) (MoveStatus.DestinationCopy status)) in
  let result := result <|. Fsm.DestinationUnavailable :=
                             is_nil node || is_nil selected || negb (some_and node NodeReady) || copyConflict |> in
  let result := if copyConflict then result <|. Fsm.UnsafeReason := "DestinationServingCopyPresent" |> else result in
  let result :=
    if MoveStatus.CapacityApproved status &&
       negb (some_and (poolIndex.registered pools !! MoveStatus.DestinationPoolUID status) (fun pool =>
               Pool.NodeName pool == observation.DestinationNode result))
    then refuseDestination result "DestinationPoolIdentityChanged" else result in
  if destinationGroupMismatch move pools result selected then refuseDestination result "DestinationPoolGroupMismatch" else result.

(** Also whether readiness was accepted from a Pool in this Move's own crash window. *)
Definition observeDestination (move : Move) (pools : poolIndex) (result : observation) : io Run (observation * bool) :=
  let node := observation.DestinationNode result in
  let uid := MoveStatus.DestinationPoolUID (Move.Status move) in
  if node == "" then mret (result, false)
  else
    let observed := destinationObservationPool move pools result in
    '(selected, repaired) ←
      match observed, poolIndex.registered pools !! uid with
      | Some pool, _ => mret (Some pool, false)
      | None, Some registered =>
          if Pool.NodeName registered == node then
            at_ ← now;
            mret (if PoolReadyForActiveMoveRepairAt registered move (observation.Volume result) at_ staleAfter
                  then (Some registered, true) else (None, false))
          else mret (None, false)
      | None, None => mret (None, false)
      end;
    got ← wrapf "read selected destination Node %q: %w" (optional (perform (GetNode node)));
    mret (judgeDestination move pools result selected got, repaired : bool).

(** ** Workload (observe_workload.go) *)

Definition boundPersistentVolume (move : Move) : io Run (option PersistentVolume) :=
  let name := MoveStatus.PersistentVolumeName (Move.Status move) in
  if name != "" then wrapf "read PersistentVolume: %w" (optional (perform (GetPersistentVolume name)))
  else
    pvs ← wrapf "list PersistentVolumes: %w" (perform ListPersistentVolumes);
    mret (List.find (fun pv => PersistentVolume.CSI pv == Some (DriverName, MoveSpec.VolumeID (Move.Spec move))) pvs).

Definition unbound (result : observation) (reason : string) : observation * bool :=
  (result <|. Fsm.UnsafeReason := reason |> <|. Fsm.SourceAuthorityInvalid := true |>, true).

Definition observeBinding (move : Move) (result : observation) : io Run (observation * bool) :=
  pv ← boundPersistentVolume move;
  let result := result <| observation.PV := pv |> in
  match pv ≫= PersistentVolume.ClaimRef with
  | None => mret (unbound result "VolumeBindingMissing")
  | Some claimRef =>
      got ← wrapf "read PVC: %w" (optional (perform (GetClaim (ClaimRef.Namespace claimRef) (ClaimRef.Name claimRef))));
      match got with
      | None => mret (unbound result "VolumeBindingMissing")
      | Some claim =>
          let result := result <| observation.Claim := Some claim |> in
          if negb (validBinding pv (Some claim) (MoveSpec.VolumeID (Move.Spec move))) ||
             (negb (is_nil (MoveStatus.SourceCopy (Move.Status move))) && negb (preparedBindingMatches move pv (Some claim)))
          then mret (unbound result "VolumeBindingMismatch")
          else if (State.OwnerNode (observation.Volume result) != MoveSpec.SourceNode (Move.Spec move)) &&
                  negb (Fsm.OwnerCommitted (observation.FSM result))
          then mret (unbound result "OwnerMismatch")
          else
            labels ← wrapf "read workload Namespace: %w"
                       (perform (GetNamespaceLabels (ObjectMeta.Namespace (PersistentVolumeClaim.Meta claim))));
            if entry labels admissionNamespaceLabel != "enabled" then
              mret (result <|. Fsm.UnsafeReason := "AdmissionNotEnabled" |>
                           <|. Fsm.PreflightDeferred :=
                                 preEviction move || (MoveStatus.Phase (Move.Status move) == Fsm.PhaseStartingDisruption) |>, true)
            else mret (result, false)
      end
  end.

(** The loop of [observeConsumers]: the consumer and the replacement; [None] when the
    Pods are ambiguous. *)
Fixpoint separate_consumers (move : Move) (claimName : string) (pods : list Pod) (found : option Pod * option Pod) :
    option (option Pod * option Pod) :=
  match pods with
  | [] => Some found
  | pod :: pods =>
      let status := Move.Status move in
      if negb (podUsesClaim pod claimName) || terminalPod pod then separate_consumers move claimName pods found
      else if (MoveStatus.ConsumerName status != "") && (ObjectMeta.Name (Pod.Meta pod) == MoveStatus.ConsumerName status) &&
              ((MoveStatus.ConsumerUID status == "") || (ObjectMeta.UID (Pod.Meta pod) == MoveStatus.ConsumerUID status))
      then separate_consumers move claimName pods (Some pod, snd found)
      else if (MoveStatus.ConsumerName status == "") && (PodSpec.NodeName (Pod.Spec pod) == MoveSpec.SourceNode (Move.Spec move)) then
        if negb (is_nil (fst found)) then None else separate_consumers move claimName pods (Some pod, snd found)
      else if negb (is_nil (snd found)) then None else separate_consumers move claimName pods (fst found, Some pod)
  end.

Definition observeConsumers (move : Move) (result : observation) : io Run (observation * bool) :=
  claim ← io_lift (deref (observation.Claim result));
  let meta := PersistentVolumeClaim.Meta claim in
  pods ← wrapf "list consumer Pods: %w" (perform (ListPods (ObjectMeta.Namespace meta) ""));
  let result := result <| observation.ConsumersObserved := true |> in
  mret match separate_consumers move (ObjectMeta.Name meta) pods (observation.Consumer result, observation.Replacement result) with
       | Some (consumer, replacement) =>
           (result <| observation.Consumer := consumer |> <| observation.Replacement := replacement |>, false)
       | None =>
           let result := result <| observation.Consumer := None |> <| observation.Replacement := None |>
                                <|. Fsm.ConsumersAmbiguous := true |> in
           if negb (MoveStatus.CapacityApproved (Move.Status move))
           then (result <|. Fsm.UnsafeReason := "MultipleConsumers" |> <|. Fsm.PreflightDeferred := true |>, true)
           else (result, false)
       end.

Definition observeReplacement (move : Move) (result : observation) : observation :=
  match observation.Replacement result with
  | None => result
  | Some replacement =>
      if preEviction move then result
      else
        let spec := Pod.Spec replacement in
        let selected := entry (PodSpec.NodeSelector spec) LabelHostname in
        let result := if (selected != "") && negb (contains (observation.CandidateNodes result) selected)
                      then result <|. Fsm.DestinationBlocked := true |> <|. Fsm.UnsafeReason := "UnsupportedSchedulingConstraint" |>
                      else result in
        if (PodSpec.NodeName spec != "") && (observation.DestinationNode result != "") &&
           (PodSpec.NodeName spec != observation.DestinationNode result)
        then result <|. Fsm.DestinationBlocked := true |> <|. Fsm.UnsafeReason := "InvalidDestination" |> else result
  end.

Definition observePlacement (move : Move) (result : observation) : io Run observation :=
  let names := observation.Names result in
  let blocked reason := result <|. Fsm.PlacementExists := true |> <|. Fsm.DestinationBlocked := true |> <|. Fsm.UnsafeReason := reason |> in
  found ← (if (Move.Name move != "") && (MoveStatus.Phase (Move.Status move) != "")
           then wrapf "read placement reservation Pod: %w"
                  (optional (perform (GetPod (Reconciler.Namespace r) (resourceNames.PlacementPod names))))
           else mret (observation.Placement result));
  match found with
  | None => mret result
  | Some placement =>
      let node := PodSpec.NodeName (Pod.Spec placement) in
      let destination := MoveStatus.DestinationNode (Move.Status move) in
      mret ((if negb (is_ok (validatePlacementIdentity placement move names)) then blocked "PlacementReservationConflict"
             else if negb (is_nil (ObjectMeta.DeletionTimestamp (Pod.Meta placement))) then result <|. Fsm.PlacementExists := true |>
             else if Pod.Phase placement == PodFailed then blocked "PlacementReservationFailed"
             else if node == "" then result <|. Fsm.PlacementExists := true |>
             else if (destination != "") && (node != destination) then blocked "InvalidDestination"
             else if contains (observation.CandidateNodes result) node
             then result <|. Fsm.PlacementExists := true |> <| observation.DestinationNode := node |> <|. Fsm.DestinationScheduled := true |>
             else blocked "InvalidDestination") <| observation.Placement := Some placement |>)
  end.

Definition recordedWorkloadClaim (move : Move) : io Run PersistentVolumeClaim :=
  let status := Move.Status move in
  io_reject_if ((MoveStatus.PersistentVolumeName status == "") || (MoveStatus.ClaimNamespace status == "") || (MoveStatus.ClaimName status == ""))
    (Errorf "move has no recorded binding; do not patch Volume status");;
  pv ← perform (GetPersistentVolume (MoveStatus.PersistentVolumeName status));
  claim ← perform (GetClaim (MoveStatus.ClaimNamespace status) (MoveStatus.ClaimName status));
  io_reject_if (negb (validBinding (Some pv) (Some claim) (MoveSpec.VolumeID (Move.Spec move))) ||
                negb (preparedBindingMatches move (Some pv) (Some claim)))
    (Errorf "PV/PVC binding or volume handle changed");;
  labels ← perform (GetNamespaceLabels (ObjectMeta.Namespace (PersistentVolumeClaim.Meta claim)));
  io_reject_if (entry labels admissionNamespaceLabel != "enabled")
    (Errorf "workload namespace must keep ShiftPV admission enabled");;
  mret claim.

(** ** Execution (observe_execution.go) *)

Definition observeMoveState (move : Move) (result : observation) : observation :=
  let status := Move.Status move in
  let blocked := (MoveStatus.CapacityReason status != "") && negb (MoveStatus.CapacityApproved status) in
  let result :=
    result <|. Fsm.ConsumerExists := negb (is_nil (observation.Consumer result)) |>
           <|. Fsm.PublishedOnSource :=
                 contains (State.PublishedNodes (observation.Volume result)) (MoveSpec.SourceNode (Move.Spec move)) |>
           <|. Fsm.CapacityApproved := MoveStatus.CapacityApproved status |>
           <|. Fsm.CapacityBlocked := blocked |> in
  let result := if blocked then result <|. Fsm.UnsafeReason := MoveStatus.CapacityReason status |> else result in
  result <|. Fsm.ReplacementExists := negb (is_nil (observation.Replacement result)) |>
         <|. Fsm.ReplacementHeld := some_and (observation.Replacement result) hasPlacementHold |>.

(** The last condition of each type decides. *)
Definition job_outcome (conditions : list (string * string)) : bool * bool :=
  foldl (fun '(complete, failed) '(type, status) =>
    if type == "Complete" then (status == "True", failed) else if type == "Failed" then (complete, status == "True") else (complete, failed))
    (false, false) conditions.

Definition jobState (name : string) : io Run (bool * bool) :=
  got ← wrapf "read Job %q: %w" (optional (perform (GetJob (Reconciler.Namespace r) name)));
  mret match got with None => (false, false) | Some job => job_outcome (Job.Conditions job) end.

Definition observeJobs (move : Move) (repaired : bool) (result : observation) : io Run observation :=
  let names := observation.Names result in
  let phase := MoveStatus.Phase (Move.Status move) in
  '(copyComplete, copyFailed) ← jobState (resourceNames.CopyJob names);
  '(promotionComplete, promotionFailed) ← jobState (resourceNames.PromotionJob names);
  let result := result <|. Fsm.CopyComplete := copyComplete |> <|. Fsm.CopyFailed := copyFailed |>
                       <|. Fsm.PromotionComplete := promotionComplete |> <|. Fsm.PromotionFailed := promotionFailed |> in
  mret (if repaired && (((phase == Fsm.PhaseCopying) && copyComplete) || ((phase == Fsm.PhasePromoting) && promotionComplete))
        then result <|. Fsm.DestinationUnavailable := true |> else result).

Definition observeDestinationPublish (move : Move) (pools : poolIndex) (result : observation) : observation :=
  let destination := MoveStatus.DestinationCopy (Move.Status move) in
  result <|. Fsm.PublishedOnDestination :=
    (observation.DestinationNode result != "") &&
    contains (State.PublishedNodes (observation.Volume result)) (observation.DestinationNode result) &&
    some_and (indexedCopyPool (poolIndex.existing pools) destination) (fun pool => PoolHasPublishedCopy pool destination) |>.

Definition observeCleanup (move : Move) (result : observation) : io Run observation :=
  let phase := MoveStatus.Phase (Move.Status move) in
  if (phase != Fsm.PhaseWaitingForDestinationPublish) && (phase != Fsm.PhaseCleaningSource) then mret result
  else
    '(complete, failed) ← cleanupState move;
    mret (result <|. Fsm.CleanupComplete := complete |> <|. Fsm.CleanupFailed := failed |>).
End observe.
