(* ===== verification/MobilityLifecycle.v ===== *)
(** * The mobility controller: the snapshot of a lifecycle stage

    src/mobility/controller: the composition of the observations of MobilityObserve.
    observe.go builds the snapshot of an executing Move, preparation.go,
    prepared_placement.go, prepared_execution.go and prepared_cancellation.go the one of
    a Move that prepares or cancels, recovery.go and workload_settlement.go the one of a
    Move that recovers; move.go chooses among them ([observeLifecycle]) and adds the
    facts of the persisted record ([lifecycleFacts]). *)

From S2P Require Import Prelude RecordUpdate Bytes Filepath VolumeIdentity Fsm Apimachinery Registration GoTime ApiServer VolumeState.
From S2P Require Import PoolApi VolumeRegistry MoveApi Capacity CleanupJournal History Kube Mobility MobilityRules MobilityPods MobilityObserve.

(** [observation{}] *)
Definition emptyObservation : observation :=
  observation.zero
    {| resourceNames.Base := ""; resourceNames.PlacementPod := ""; resourceNames.Secret := ""; resourceNames.Config := "";
       resourceNames.SourcePod := ""; resourceNames.SourceService := ""; resourceNames.CopyJob := "";
       resourceNames.PromotionJob := "" |}.

(** ** Facts of the persisted record (move.go) *)

Definition lifecycleFacts (move : Move) (observed : observation) : observation :=
  let status := Move.Status move in
  let volume := observation.Volume observed in
  let replacement := observation.Replacement observed in
  let facts :=
    observation.FSM observed
           <| Fsm.ProtectionPresent := contains (Move.Finalizers move) MoveProtectionFinalizer |>
           <| Fsm.SourcePlanRecorded := negb (is_nil (MoveStatus.SourceCopy status)) |>
           <| Fsm.SourceClaimed := State.ActiveMove volume == Move.Name move |>
           <| Fsm.PreparationReserved := negb (is_nil (MoveStatus.Preparation status)) |>
           <| Fsm.DestinationIntentRecorded := negb (noDestinationEffectIntent move) |>
           <| Fsm.CapacityApproved := MoveStatus.CapacityApproved status |>
           <| Fsm.SourceMoving := State.Phase volume == VolumeState.PhaseMoving |>
           <| Fsm.SourceBlocked := State.Phase volume == VolumeState.PhaseBlocked |>
           <| Fsm.ConsumerExists := negb (is_nil (observation.Consumer observed)) |>
           <| Fsm.ReplacementExists := negb (is_nil replacement) |>
           <| Fsm.ReplacementHeld :=
                 some_and replacement (fun pod => hasPlacementHold pod && (PodSpec.NodeName (Pod.Spec pod) == "")) |>
           <| Fsm.RecoveryRequested := recoveryRequested move |>
           <| Fsm.SettlementOnly := MoveStatus.SettlementRequested status |>
           <| Fsm.RecoveryOwnerIsDestination :=
                 (State.OwnerNode volume != "") && (State.OwnerNode volume == MoveStatus.DestinationNode status) |> in
  observed <| observation.FSM := facts |>.

(** ** Eligibility (observe.go) *)

Definition unmetPreconditionReason (result : observation) : string :=
  match observation.Consumer result with
  | None => "ControlledConsumerMissing"
  | Some consumer =>
      if is_nil (GetControllerOf (Pod.Meta consumer)) then "BarePodUnsupported"
      else if (length (observation.CandidateNodes result) =? 0)%nat then "DestinationUnavailable"
      else if negb (observation.SourceCordoned result) then "SourceNotCordoned"
      else ""
  end.

(** ** Preparation (preparation.go) *)

(** The reason, and whether it is one of availability. *)
Definition preparationPlanDeferral (move : Move) (observed : observation) : string * bool :=
  let facts := observation.FSM observed in
  if negb (Fsm.SourceHealthy facts) || Fsm.PreflightDeferred facts ||
     ((MoveStatus.Phase (Move.Status move) != Fsm.PhaseStartingDisruption) && negb (is_nil (observation.Consumer observed)) &&
      negb (Fsm.PreconditionsValid facts))
  then (preparationReason (Fsm.UnsafeReason facts) "PreparationChanged",
        negb (Fsm.SourceAuthorityInvalid facts) && (negb (Fsm.SourceHealthy facts) || Fsm.PreflightDeferred facts))
  else ("", false).

Definition preparationDeferred (observed : observation) : bool :=
  let facts := observation.FSM observed in
  negb (Fsm.SourceHealthy facts) || Fsm.PreflightDeferred facts || negb (Fsm.PreconditionsValid facts).

(** The replacement of a consumer that left its hold or was placed. *)
Definition unexpectedPlacement (observed : observation) : bool :=
  some_and (observation.Replacement observed) (fun replacement =>
    (PodSpec.NodeName (Pod.Spec replacement) != "") || negb (hasPlacementHold replacement)).

Section lifecycle.
Context {AM : Apimachinery} {EN : Environment} (r : Reconciler).

(** [None] when the lifetime of the original claim decides nothing. *)
Definition observeWorkloadRetirement (move : Move) (state : State) : io Run (option observation) :=
  let status := Move.Status move in
  if negb (needsWorkloadLifetime move) then mret None
  else
    claim ← wrapf "observe original claim lifetime: %w"
              (optional (perform (GetClaim (MoveStatus.ClaimNamespace status) (MoveStatus.ClaimName status))));
    io_reject_if (some_and claim (fun claim => ObjectMeta.UID (PersistentVolumeClaim.Meta claim) == ""))
      (Errorf "original claim observation has no UID");;
    if some_and claim (fun claim => ObjectMeta.UID (PersistentVolumeClaim.Meta claim) == MoveStatus.ClaimUID status) then mret None
    else
      (if negb (MoveStatus.CapacityApproved status) && noDestinationEffectIntent move then
         io_lift (cancellablePreparation move);;
         io_lift (ValidateMovePreparation move);;
         io_reject_if (State.ActiveMove state != Move.Name move) (Errorf "retired preparation lost its exact source claim");;
         io_reject_if ((State.Phase state != VolumeState.PhaseReady) && (State.Phase state != VolumeState.PhaseMoving) &&
                       (State.Phase state != VolumeState.PhaseBlocked))
           (Errorf "retired preparation has no restorable source");;
         io_lift (cancellationSourceIdentity move state)
       else io_lift (validatePreparedStage move));;
      io_lift (recordedOwnerIntact move state);;
      mret (Some (emptyObservation <| observation.Volume := state |> <|. Fsm.WorkloadRetired := true |>)).

Definition deferOnPreflight (result : observation) (preconditions : bool) : io Run observation :=
  '(result, reason) ← preflight result;
  let unsafe := Fsm.UnsafeReason (observation.FSM result) in
  let reason := if (reason == "") && negb preconditions then (if unsafe == "" then "PreconditionFailed" else unsafe) else reason in
  mret (if reason != ""
        then result <|. Fsm.PreconditionsValid := false |> <|. Fsm.PreflightDeferred := true |> <|. Fsm.UnsafeReason := reason |>
        else result).

Definition observePreconditions (move : Move) (result : observation) : io Run observation :=
  let phase := MoveStatus.Phase (Move.Status move) in
  let facts := observation.FSM result in
  let sourceHealthy := Fsm.SourceHealthy facts in
  let preconditions :=
    sourceHealthy && negb (Fsm.SourceAuthorityInvalid facts) && observation.SourceCordoned result &&
    negb (length (observation.CandidateNodes result) =? 0)%nat &&
    some_and (observation.Consumer result) (fun consumer => negb (is_nil (GetControllerOf (Pod.Meta consumer)))) in
  let result :=
    if ((phase == "") || (phase == Fsm.PhasePending)) && negb preconditions && (Fsm.UnsafeReason facts == "") &&
       (unmetPreconditionReason result != "")
    then result <|. Fsm.UnsafeReason := unmetPreconditionReason result |> else result in
  let result := result <|. Fsm.PreconditionsValid := preconditions |> in
  match observation.Consumer result with
  | None => mret result
  | Some consumer =>
      if preEviction move && sourceHealthy then deferOnPreflight result preconditions
      else if (phase == Fsm.PhaseStartingDisruption) && is_nil (ObjectMeta.DeletionTimestamp (Pod.Meta consumer)) then
        reason ← (if is_nil (observation.Replacement result) then preflightPDB consumer else mret "MultipleConsumers");
        mret (if reason != ""
              then result <|. Fsm.PreflightDeferred := true |> <|. Fsm.PreparationUnavailable := true |> <|. Fsm.UnsafeReason := reason |>
              else result)
      else mret result
  end.

(** Also the Pools, and whether the partial snapshot is the final diagnosis. *)
Definition observeEligibility (move : Move) (result : observation) : io Run (observation * poolIndex * bool) :=
  '(result, done) ← observeVolume r move result;
  if done : bool then mret (result, poolIndex.zero, true)
  else
    retired ← observeWorkloadRetirement move (observation.Volume result);
    match retired with
    | Some retired => mret (retired, poolIndex.zero, true)
    | None =>
        pools ← observePools r;
        result ← observeSource move pools result;
        result ← observeCandidates move pools result;
        '(result, done) ← observeBinding move result;
        if done : bool then mret (result, pools, true)
        else
          '(result, done) ← observeConsumers move result;
          if done : bool then mret (result, pools, true)
          else
            result ← observePreconditions move result;
            mret (result, pools, false)
    end.

Definition observe (move : Move) : io Run observation :=
  '(result, pools, done) ← observeEligibility move (observation.zero (namesFor (Move.Name move)));
  if done : bool then mret result
  else
    let result := observeMoveState move result in
    let result := observeReplacement move result in
    result ← observePlacement r move result;
    '(result, repaired) ← observeDestination r move pools result;
    result ← observeJobs r move repaired result;
    let result := observeDestinationPublish move pools result in
    observeCleanup r move result.

(** The Move that discovery asks about: no object carries it yet. *)
Definition candidateMove (volumeID sourceNode : string) : Move :=
  {| Move.Deleting := false; Move.Name := ""; Move.UID := ""; Move.ResourceVersion := ""; Move.Finalizers := [];
     Move.Spec := {| MoveSpec.VolumeID := volumeID; MoveSpec.SourceNode := sourceNode; MoveSpec.Recovery := "";
                     MoveSpec.ProtocolVersion := MoveProtocolPreparedV1 |};
     Move.Status := MoveStatus.empty |}.

Definition preflightVolume (volumeID sourceNode : string) : io Run (bool * string) :=
  '(result, _, _) ← observeEligibility (candidateMove volumeID sourceNode) emptyObservation;
  mret (Fsm.PreconditionsValid (observation.FSM result), Fsm.UnsafeReason (observation.FSM result)).

(** ** The reserved placement (prepared_placement.go, preparation.go) *)

Definition preparationPoolGroup (move : Move) (pool : Pool) : io Run bool :=
  match MoveStatus.SourceCopy (Move.Status move) with
  | None => io_fail (Errorf "preparation source copy is missing")
  | Some source =>
      sourcePool ← perform (PoolForIdentity (PoolName source) (PoolUID source) (NodeName source));
      mret ((Pool.PoolGroup sourcePool == Pool.PoolGroup pool) &&
            negb (PoolHasServingVolume pool (MoveSpec.VolumeID (Move.Spec move))))
  end.

(** The rejection reason, and whether it is one of availability. *)
Definition preparedWorkloadFits (move : Move) (pv : option PersistentVolume) (placement consumer : Pod) : io Run (string * bool) :=
  found ← consumerTemplate consumer;
  match found with
  | inr reason => mret (reason, false)
  | inl template =>
      let live := placementProbePod consumer template (MoveSpec.SourceNode (Move.Spec move)) in
      let live := live <| Pod.Spec := (Pod.Spec live) <| PodSpec.SchedulingGates :=
                    List.filter (fun gate => gate != placementHoldName) (PodSpec.SchedulingGates (Pod.Spec live)) |> |> in
      let reason := unsupportedConsumerPlacement (Pod.Spec live) (PodTemplateSpec.Spec template) in
      if reason != "" then mret (reason, false)
      else
        pv ← io_lift (deref pv);
        let '(affinity, reason) := requiredPVAffinity pv in
        if reason != "" then mret (reason, false)
        else
          got ← optional (perform (GetNode (PodSpec.NodeName (Pod.Spec placement))));
          mret match got with
               | None => ("PreparedDestinationUnavailable", true)
               | Some node =>
                   if negb (NodeReady node) || Node.Unschedulable node || negb (toleratesPlacement (Pod.Spec live) node) ||
                      negb (toleratesPlacement (PodTemplateSpec.Spec template) node)
                   then ("PreparedDestinationUnavailable", true)
                   else match NodeAffinityMatch live node, NodeAffinityMatch (templatePod template) node with
                        | Ok liveMatch, Ok templateMatch =>
                            if negb liveMatch || negb templateMatch ||
                               match affinity with None => false | Some matches => negb (matches node) end
                            then ("PreparedWorkloadPlacementChanged", false)
                            else (preparedPlacementCoverage placement live template, false)
                        | _, _ => ("InvalidNodeAffinity", false)
                        end
               end
  end.

Definition validatePreparedPlacement (move : Move) (observed : observation) : io Run (string * bool) :=
  io_lift (ValidateMovePreparation move);;
  match MoveStatus.Preparation (Move.Status move) with
  | None => mret ("PreparationMissing", false)
  | Some preparation =>
      let names := namesFor (Move.Name move) in
      got ← optional (perform (GetPod (Reconciler.Namespace r) (resourceNames.PlacementPod names)));
      match got with
      | None => mret ("PreparedPlacementMissing", false)
      | Some pod =>
          if negb (preparedPlacementMatchesReservation pod move names preparation) then mret ("PreparedPlacementChanged", false)
          else
            let reference := MovePreparation.Pool preparation in
            got ← attempt (perform (ReadyPoolForIdentity (PoolReference.Name reference) (PoolReference.UID reference)
                                      (MovePreparation.NodeName preparation)));
            match got with
            | Err err =>
                if error_is err ErrPoolIdentityChanged || error_is err ErrPoolNotFound then mret ("PreparedDestinationChanged", false)
                else if error_is err ErrPoolNotReady then mret ("PreparedDestinationUnavailable", true)
                else io_fail err
            | Ok pool =>
                valid ← preparationPoolGroup move pool;
                if negb valid then mret ("PreparedDestinationChanged", false)
                else if negb (contains (observation.CandidateNodes observed) (PodSpec.NodeName (Pod.Spec pod)))
                then mret ("PreparedDestinationUnavailable", true)
                else
                  let consumer := match observation.Consumer observed with
                                  | Some consumer => if is_nil (ObjectMeta.DeletionTimestamp (Pod.Meta consumer)) then Some consumer
                                                     else observation.Replacement observed
                                  | None => observation.Replacement observed
                                  end in
                  match consumer with
                  | None => mret ("", false)
                  | Some consumer => preparedWorkloadFits move (observation.PV observed) pod consumer
                  end
            end
      end
  end.

Definition observePreparationPlan (move : Move) (result : observation) : io Run observation :=
  let status := Move.Status move in
  let facts := observation.FSM result in
  let starting := MoveStatus.Phase status == Fsm.PhaseStartingDisruption in
  let changed reason := result <|. Fsm.PreparationChangedReason := reason |> in
  if starting && negb (Fsm.SourceHealthy facts) && negb (Fsm.SourceAuthorityInvalid facts)
  then mret (changed (preparationReason (Fsm.UnsafeReason facts) "SourceUnavailable") <|. Fsm.PreparationUnavailable := true |>)
  else if negb (observation.SourceCordoned result) then mret (changed "SourceNotCordoned")
  else if is_nil (MoveStatus.SourceCopy status)
  then mret (if Fsm.SourceAuthorityInvalid facts then changed (preparationReason (Fsm.UnsafeReason facts) "VolumeBindingChanged") else result)
  else if negb (preparedBindingMatches move (observation.PV result) (observation.Claim result)) then mret (changed "VolumeBindingChanged")
  else if negb starting &&
          negb (some_and (observation.Consumer result) (fun consumer => is_nil (ObjectMeta.DeletionTimestamp (Pod.Meta consumer))))
  then mret (changed "ConsumerChanged")
  else if is_nil (MoveStatus.Preparation status)
  then (if preparationDeferred result then observePlacement r move result else mret result)
  else if State.ActiveMove (observation.Volume result) != Move.Name move
  then io_fail (Errorf "preparation reservation lost its source claim")
  else if unexpectedPlacement result then mret (changed "UnexpectedConsumerPlacement")
  else
    let '(reason, unavailable) := preparationPlanDeferral move result in
    '(reason, unavailable) ← (if reason != "" then mret (reason, unavailable) else validatePreparedPlacement move result);
    mret (changed reason <|. Fsm.PreparationUnavailable := unavailable |>).

Definition observePreparation (move : Move) : io Run observation :=
  let status := Move.Status move in
  let result := observation.zero (namesFor (Move.Name move)) in
  let starting := MoveStatus.Phase status == Fsm.PhaseStartingDisruption in
  io_reject_if (MoveStatus.CapacityApproved status || negb (noDestinationEffectIntent move) || (MoveStatus.CleanupPhase status != "") ||
                negb (MoveStatus.RollbackRequiredGeneration status =? 0)%Z)
    (Errorf "preparation cannot run with destination execution authority");;
  io_lift (ValidateMovePreparation move);;
  if Move.Deleting move && negb starting then mret (result <|. Fsm.PreparationChangedReason := "MoveDeleting" |>)
  else if negb (contains (Move.Finalizers move) MoveProtectionFinalizer) then mret result
  else
    let probe := Move.with_Status move (status <| MoveStatus.CandidateNodes := [] |>) in
    '(result, pools, _) ← observeEligibility probe result;
    let result := result <| observation.Pools := pools |> in
    let volume := observation.Volume result in
    if Fsm.WorkloadRetired (observation.FSM result) then mret result
    else if starting && (State.Phase volume == VolumeState.PhaseBlocked) && (State.ActiveMove volume == Move.Name move) then
      io_lift (cancellationSourceIdentity move volume);;
      mret (result <|. Fsm.PreparationChangedReason := "SourceBlocked" |>)
    else
      io_lift (preparationSourceAuthority move volume);;
      if Move.Deleting move then mret (result <|. Fsm.PreparationChangedReason := "MoveDeleting" |>)
      else observePreparationPlan move result.

(** ** Execution before approval (prepared_execution.go) *)

Definition preparedExecutionChanged (move : Move) (observed : observation) : io Run (string * bool) :=
  let facts := observation.FSM observed in
  let unsafe := Fsm.UnsafeReason facts in
  if negb (preparedBindingMatches move (observation.PV observed) (observation.Claim observed)) then mret ("VolumeBindingChanged", false)
  else if Fsm.SourceAuthorityInvalid facts then mret (preparationReason unsafe "SourceAuthorityInvalid", false)
  else if negb (Fsm.SourceHealthy facts) then mret (preparationReason unsafe "SourceUnavailable", true)
  else if negb (observation.SourceCordoned observed) then mret ("SourceNotCordoned", false)
  else if Fsm.PreflightDeferred facts || (unsafe == "AdmissionNotEnabled")
  then mret (preparationReason unsafe "PreparationUnavailable", true)
  else if unexpectedPlacement observed then mret ("UnexpectedConsumerPlacement", false)
  else validatePreparedPlacement move observed.

(** ** Cancellation (prepared_cancellation.go) *)

Definition cancellationVolume (move : Move) : io Run State :=
  let status := Move.Status move in
  got ← wrapf "observe cancellation source: %w" (optional (perform (GetVolume (MoveSpec.VolumeID (Move.Spec move)))));
  let state := default zeroState got in
  if some_and got (fun state => State.ActiveMove state == Move.Name move) then io_lift (cancellationSource move state);; mret state
  else if MoveStatus.Phase status == Fsm.PhaseCancelled then mret state
  else
    io_reject_if (negb (is_nil (MoveStatus.Preparation status))) (Errorf "preparation reservation has lost its exact ActiveMove");;
    io_reject_if (State.ActiveMove state != "") (Errorf "cancellation source is owned by another Move");;
    if is_nil (MoveStatus.SourceCopy status) then mret state
    else
      io_reject_if (is_nil got) (Errorf "observe planned cancellation source: %w");;
      io_lift (cancellationSource move state);;
      io_reject_if (State.Phase state != VolumeState.PhaseReady) (Errorf "unlocked cancellation source is not Ready");;
      mret state.

Definition observeCancellation (move : Move) : io Run observation :=
  let status := Move.Status move in
  let result := observation.zero (namesFor (Move.Name move)) in
  io_lift (cancellablePreparation move);;
  io_reject_if ((MoveStatus.Phase status == Fsm.PhaseCancelled) && negb (is_nil (MoveStatus.Preparation status)))
    (Errorf "cancelled Move still holds a preparation reservation");;
  io_lift (ValidateMovePreparation move);;
  state ← cancellationVolume move;
  let result := result <| observation.Volume := state |> in
  let locked := State.ActiveMove state == Move.Name move in
  if ((MoveStatus.Phase status == Fsm.PhaseCanceling) && negb locked && negb (is_nil (MoveStatus.SourceCopy status))) ||
     (locked && ((State.Phase state == VolumeState.PhaseMoving) || (State.Phase state == VolumeState.PhaseBlocked)))
  then mret result
  else
    got ← wrapf "observe cancelled placement: %w"
            (optional (perform (GetPod (Reconciler.Namespace r) (resourceNames.PlacementPod (observation.Names result)))));
    match got with
    | None => mret (result <|. Fsm.PlacementAbsent := true |>)
    | Some pod =>
        io_lift (validatePlacementOwner pod move (observation.Names result));;
        io_reject_if (ObjectMeta.UID (Pod.Meta pod) == "") (Errorf "cancelled placement Pod has no UID");;
        mret (result <| observation.Placement := Some pod |>)
    end.

(** ** Recovery (recovery.go, workload_settlement.go, resources.go) *)

Definition poolMountPath (copy : option CopyIdentity) : io Run string :=
  match copy with
  | None => io_fail (Errorf "Pool copy identity is missing")
  | Some copy =>
      io_reject_if (negb (is_ok (Validate copy))) (Errorf "Pool copy identity is missing");;
      pool ← perform (PoolForIdentity (PoolName copy) (PoolUID copy) (NodeName copy));
      let path := Clean (Pool.MountPath pool) in
      io_reject_if (negb (IsAbs path) || (path == "/")) (Errorf "Pool %q has no valid mountPath");;
      mret path
  end.

(** The loop over the nodes of the Move. *)
Fixpoint healthy_nodes (move : Move) (state : State) (names : list string) : io Run unit :=
  match names with
  | [] => mret tt
  | name :: names =>
      (if name == "" then mret tt
       else
         node ← perform (GetNode name);
         io_reject_if (negb (NodeReady node) || negb (is_nil (ObjectMeta.DeletionTimestamp (Node.Meta node))))
           (Errorf "node %q must be Ready");;
         io_reject_if ((name == State.OwnerNode state) && Node.Unschedulable node && negb (MoveStatus.SettlementRequested (Move.Status move)))
           (Errorf "uncordon current owner %q before requesting service recovery"));;
      healthy_nodes move state names
  end.

(** The loop over the copies of the Move. *)
Fixpoint mounted_pools (copies : list (option CopyIdentity)) : io Run unit :=
  match copies with
  | [] => mret tt
  | None :: copies => mounted_pools copies
  | copy :: copies => poolMountPath copy;; mounted_pools copies
  end.

Definition recoveryNodes (move : Move) (state : State) : io Run unit :=
  let status := Move.Status move in
  healthy_nodes move state [MoveSpec.SourceNode (Move.Spec move); MoveStatus.DestinationNode status];;
  io_reject_if (is_nil (State.CurrentCopy state)) (Errorf "recovery owner copy identity is missing");;
  mounted_pools [State.CurrentCopy state; MoveStatus.SourceCopy status; MoveStatus.IncomingCopy status; MoveStatus.DestinationCopy status].

(** [None] when the Volume still carries this Move. *)
Definition observeSettlementRelease (move : Move) (got : result State) : io Run (option observation) :=
  match got with
  | Err err =>
      if IsNotFound err then settlementArtifactsClosed r move;; mret (Some (emptyObservation <| observation.VolumeMissing := true |>))
      else io_fail err
  | Ok state =>
      if State.ActiveMove state == Move.Name move then mret None
      else
        io_reject_if ((State.ActiveMove state != "") || (State.OwnerNode state != MoveStatus.RecoveryOwner (Move.Status move)))
          (Errorf "settlement release has conflicting Volume authority");;
        io_lift (recordedOwnerIntact move state);;
        let ready := (State.Phase state == VolumeState.PhaseReady) && negb (State.Deleting state) && negb (State.HasCleanup state) in
        let deleting := (State.Phase state == VolumeState.PhaseDeleting) &&
                        (State.DeletionOperationID state == "delete-" +:+ State.UID state) in
        io_reject_if (negb ready && negb deleting) (Errorf "settlement release has no accepted unlock or exact deletion fence");;
        settlementArtifactsClosed r move;;
        mret (Some (emptyObservation <| observation.Volume := state |>))
  end.

(** [recoveryObservationError{reason, err}] around a failed step. *)
Definition diagnosed {A : Type} (reason : string) (c : io Run A) : io Run A :=
  got ← attempt c;
  match got with Ok a => mret a | Err err => io_fail (recoveryObservationError reason err) end.

Definition observeRecovery (move : Move) : io Run observation :=
  let status := Move.Status move in
  let result := observation.zero (namesFor (Move.Name move)) in
  let completing := MoveStatus.RecoveryPhase status == Fsm.RecoveryCompleting in
  got ← attempt (perform (GetVolume (MoveSpec.VolumeID (Move.Spec move))));
  released ← (if MoveStatus.SettlementRequested status && completing then observeSettlementRelease move got else mret None);
  match released with
  | Some released => mret released
  | None =>
      state ← io_lift got;
      let result := result <| observation.Volume := state |> in
      if completing && (State.Phase state == VolumeState.PhaseReady) && (State.ActiveMove state == "") &&
         (State.OwnerNode state == MoveStatus.RecoveryOwner status)
      then
        diagnosed "AuthorityMismatch" (io_lift (recordedOwnerIntact move state));;
        mret (result <|. Fsm.RecoveryUnlockObserved := true |>)
      else match recoveryGuards move state with
           | Some (reason, err) => io_fail (recoveryObservationError reason err)
           | None =>
               diagnosed "NodeNotReady" (recoveryNodes move state);;
               if MoveStatus.SettlementRequested status then mret result
               else
                 claim ← diagnosed "BindingMismatch" (recordedWorkloadClaim move);
                 mret (result <| observation.Claim := Some claim |>)
           end
  end.

Definition observeBlockedLifecycle (move : Move) : io Run observation :=
  retired ← (if needsWorkloadLifetime move then
               state ← perform (GetVolume (MoveSpec.VolumeID (Move.Spec move)));
               observeWorkloadRetirement move state
             else mret None);
  match retired with
  | Some retired => mret retired
  | None => if needsRecoveryObservation move then observeRecovery move else mret emptyObservation
  end.

(** ** The stage (move.go) *)

Definition observeLifecycle (move : Move) : io Run observation :=
  let status := Move.Status move in
  let phase := MoveStatus.Phase status in
  if phase == Fsm.PhaseCancelled then observeCancellation move
  else if (phase == Fsm.PhaseSucceeded) || ((phase == Fsm.PhaseBlocked) && (MoveStatus.RecoveryPhase status == Fsm.RecoveryRecovered))
  then mret emptyObservation
  else if phase == Fsm.PhaseCanceling then observeCancellation move
  else if phase == Fsm.PhaseBlocked then observeBlockedLifecycle move
  else if contains [""; Fsm.PhasePending; Fsm.PhasePreparing; Fsm.PhaseStartingDisruption] phase then observePreparation move
  else
    io_lift (validatePreparedStage move);;
    observed ← observe move;
    if negb (MoveStatus.CapacityApproved status) && noDestinationEffectIntent move then
      if Move.Deleting move then mret (observed <|. Fsm.PreparationChangedReason := "MoveDeleting" |>)
      else
        '(reason, unavailable) ← preparedExecutionChanged move observed;
        mret (observed <|. Fsm.PreparationChangedReason := reason |> <|. Fsm.PreparationUnavailable := unavailable |>)
    else mret observed.
End lifecycle.
