(* ===== verification/MobilityTransfer.v ===== *)
(** * The mobility controller: the resources of a transfer

    src/mobility/controller: transfer_source.go, operation_job.go and resources.go make
    the read-only rsync source (credentials, configuration, Pod and Service) and the copy
    and promotion Jobs of a Move, or accept the existing object of that name when it is
    exactly the one they would make; [deleteTransferResources] removes them.
    placement.go and prepared_placement.go make, pin and remove the Pod that reserves the
    destination. *)

From S2P Require Import Prelude RecordUpdate Bytes Filepath VolumeIdentity Fsm Apimachinery Registration GoTime ApiServer VolumeState.
From S2P Require Import PoolApi VolumeRegistry MoveApi Capacity CleanupJournal History Kube Mobility MobilityRules MobilityPods MobilityObserve MobilityLifecycle.

(** ** Objects *)

Definition podNameEnvironment : list EnvVar :=
  [{| EnvVar.Name := "POD_NAME"; EnvVar.Value := ""; EnvVar.FieldPath := Some ("v1", "metadata.name"); EnvVar.Other := None |}].

Definition volumeMount (name path : string) (readOnly : bool) : VolumeMount :=
  {| VolumeMount.Name := name; VolumeMount.MountPath := path; VolumeMount.ReadOnly := readOnly; VolumeMount.SubPath := "";
     VolumeMount.SubPathExpr := ""; VolumeMount.MountPropagation := None |}.

(** A volume of one of the three kinds the transfer mounts. *)
Definition podVolume (name : string) (hostPath : option (string * option string)) (secret configMap : option (string * option Z)) : Volume :=
  {| Volume.Name := name; Volume.PersistentVolumeClaim := None; Volume.HostPath := hostPath; Volume.Secret := secret;
     Volume.ConfigMap := configMap; Volume.Projected := None; Volume.Ephemeral := None; Volume.CSI := None; Volume.Other := None |}.

Definition poolVolume (root : string) : Volume := podVolume "pool" (Some (root, Some "Directory")) None None.

(** The security context of the helpers. *)
Definition rootHelper : SecurityContext :=
  {| SecurityContext.AllowPrivilegeEscalation := Some false; SecurityContext.RunAsNonRoot := None;
     SecurityContext.RunAsUser := Some 0%Z; SecurityContext.Drop := []; SecurityContext.Other := None |}.

(** A Pod spec with the fields the helpers set. *)
Definition helperSpec (node serviceAccount restart : string) (container : Container) (volumes : list Volume) : PodSpec :=
  {| PodSpec.NodeName := node; PodSpec.NodeSelector := ∅; PodSpec.Affinity := None; PodSpec.Tolerations := [];
     PodSpec.SchedulerName := ""; PodSpec.SchedulingGates := []; PodSpec.PriorityClassName := ""; PodSpec.Priority := None;
     PodSpec.PreemptionPolicy := None; PodSpec.RuntimeClassName := None; PodSpec.HostNetwork := false; PodSpec.HostPID := false;
     PodSpec.HostIPC := false; PodSpec.OS := None; PodSpec.RestartPolicy := restart; PodSpec.TerminationGracePeriodSeconds := None;
     PodSpec.AutomountServiceAccountToken := None; PodSpec.ServiceAccountName := serviceAccount; PodSpec.InitContainers := [];
     PodSpec.Containers := [container]; PodSpec.EphemeralContainers := []; PodSpec.Volumes := volumes;
     PodSpec.TopologySpreadConstraints := []; PodSpec.ResourceClaims := []; PodSpec.Resources := None;
     PodSpec.SecurityContext := None |}.

(** A container with the fields the helpers set. *)
Definition helperContainer (name image : string) (command args : list string) (env : list EnvVar) (mounts : list VolumeMount) : Container :=
  {| Container.Name := name; Container.Image := image; Container.ImagePullPolicy := ""; Container.Command := command;
     Container.Args := args; Container.Env := env; Container.EnvFrom := []; Container.Ports := [];
     Container.Resources := no_resources; Container.VolumeMounts := mounts; Container.VolumeDevices := [];
     Container.SecurityContext := Some rootHelper; Container.Lifecycle := None; Container.LivenessProbe := None;
     Container.ReadinessProbe := None; Container.StartupProbe := None; Container.TerminationMessagePath := "";
     Container.TerminationMessagePolicy := "" |}.

Definition configuration (volumeID : string) : string :=
  "uid = 0" +:+ newline +:+ "gid = 0" +:+ newline +:+ "use chroot = no" +:+ newline +:+ "read only = yes" +:+ newline +:+
  "strict modes = yes" +:+ newline +:+ "[data]" +:+ newline +:+ "path = /pool/volumes/" +:+ volumeID +:+ newline +:+
  "auth users = shiftpv" +:+ newline +:+ "secrets file = /auth/secrets" +:+ newline.

(** The arguments every helper of a Move starts with. *)
Definition helperArgs (r : Reconciler) (operation : string) (move : Move) (operationID : string) : list string :=
  [operation; "--move-name=" +:+ Move.Name move; "--move-uid=" +:+ Move.UID move; "--operation-id=" +:+ operationID;
   "--namespace=" +:+ Reconciler.Namespace r].

(** [timeout] in whole seconds, rounded up. *)
Definition deadlineSeconds (timeout : Z) : Z :=
  (timeout / 1000000000 + (if timeout mod 1000000000 =? 0 then 0 else 1))%Z.

Section transfer.
Context {AM : Apimachinery} {EN : Environment} (r : Reconciler).

(** Create an object; the existing one of that name when there is one. *)
Definition create_or_get {A : Type} (create get : io Run A) : io Run A :=
  got ← attempt create;
  match got with
  | Ok object => mret object
  | Err err => if IsAlreadyExists err then get else io_fail err
  end.

(** ** The rsync source (transfer_source.go) *)

Definition sourcePodReady (move : Move) (names : resourceNames) : io Run bool :=
  got ← wrapf "read rsync source Pod: %w" (optional (perform (GetPod (Reconciler.Namespace r) (resourceNames.SourcePod names))));
  match got with
  | None => mret false
  | Some pod =>
      if negb (is_nil (ObjectMeta.DeletionTimestamp (Pod.Meta pod))) then mret false
      else
        let expected := moveObjectMeta move (resourceNames.SourcePod names) (Reconciler.Namespace r) (sourceLabels names move) in
        io_reject_if (negb (sameMoveObject (Pod.Meta pod) expected)) (Errorf "rsync source Pod %q identity changed");;
        mret (negb (terminalPod pod) && condition_true (Pod.Conditions pod) "Ready")
  end.

Definition ensureTransferSecret (move : Move) (names : resourceNames) : io Run unit :=
  io_reject_if (Move.UID move == "") (Errorf "rsync Secret requires ShiftPVMove UID");;
  password ← wrapf "generate rsync password: %w" (perform RandomPassword);
  let namespace := Reconciler.Namespace r in
  let expected := {| Secret.Meta := moveObjectMeta move (resourceNames.Secret names) namespace (transferLabels names (Some move));
                     Secret.Data := {["password" := password; "secrets" := "shiftpv:" +:+ password +:+ newline]} |} in
  found ← wrapf "create rsync Secret: %w"
            (create_or_get (perform (CreateSecret expected)) (perform (GetSecret namespace (resourceNames.Secret names))));
  io_reject_if (negb (sameMoveObject (Secret.Meta found) (Secret.Meta expected)) || negb (validTransferSecret found))
    (Errorf "rsync Secret %q identity changed").

Definition ensureRsyncConfig (move : Move) (names : resourceNames) : io Run unit :=
  let namespace := Reconciler.Namespace r in
  let expected := {| ConfigMap.Meta := moveObjectMeta move (resourceNames.Config names) namespace (transferLabels names (Some move));
                     ConfigMap.Data := {["rsyncd.conf" := configuration (MoveSpec.VolumeID (Move.Spec move))]};
                     ConfigMap.BinaryData := ∅ |} in
  found ← wrapf "create rsync ConfigMap: %w"
            (create_or_get (perform (CreateConfigMap expected)) (perform (GetConfigMap namespace (resourceNames.Config names))));
  io_reject_if (negb (sameMoveObject (ConfigMap.Meta found) (ConfigMap.Meta expected)) ||
                (ConfigMap.Data found != ConfigMap.Data expected) || negb (size (ConfigMap.BinaryData found) =? 0)%nat)
    (Errorf "rsync ConfigMap %q identity changed").

Definition sourcePod (move : Move) (names : resourceNames) (poolRoot : string) : Pod :=
  let container :=
    helperContainer "rsync" (Reconciler.HelperImage r) ["/shiftpv-volume-helper"]
      (helperArgs r "serve-source" move (MoveStatus.CopyOperationID (Move.Status move))) podNameEnvironment
      [volumeMount "pool" "/pool" true; volumeMount "auth" "/auth" true; volumeMount "config" "/config" true] in
  {| Pod.Meta := moveObjectMeta move (resourceNames.SourcePod names) (Reconciler.Namespace r) (sourceLabels names move);
     Pod.Spec :=
       helperSpec (MoveSpec.SourceNode (Move.Spec move)) (Reconciler.ServiceAccountName r) "Always"
         (container <| Container.ImagePullPolicy := "IfNotPresent" |>
                    <| Container.Ports := [{| ContainerPort.Name := "rsync"; ContainerPort.HostPort := 0; ContainerPort.Port := 873;
                                              ContainerPort.Protocol := "TCP"; ContainerPort.HostIP := "" |}] |>
                    <| Container.ReadinessProbe :=
                         Some {| Probe.TCPPort := Some 873%Z; Probe.InitialDelaySeconds := 1; Probe.TimeoutSeconds := 1;
                                 Probe.PeriodSeconds := 1; Probe.SuccessThreshold := 1; Probe.FailureThreshold := 3;
                                 Probe.Other := None |} |>
                    <| Container.TerminationMessagePath := "/dev/termination-log" |>
                    <| Container.TerminationMessagePolicy := "File" |>)
         [poolVolume poolRoot; podVolume "auth" None (Some (resourceNames.Secret names, Some 256%Z)) None;
          podVolume "config" None None (Some (resourceNames.Config names, Some 420%Z))];
     Pod.Phase := ""; Pod.Conditions := [] |}.

Definition ensureSourcePod (move : Move) (names : resourceNames) : io Run unit :=
  let namespace := Reconciler.Namespace r in
  poolRoot ← poolMountPath (MoveStatus.SourceCopy (Move.Status move));
  let expected := sourcePod move names poolRoot in
  found ← wrapf "create rsync source Pod: %w"
            (create_or_get (perform (CreatePod expected)) (perform (GetPod namespace (resourceNames.SourcePod names))));
  io_reject_if (negb (sameMoveObject (Pod.Meta found) (Pod.Meta expected)) || negb (sameSourcePod found expected))
    (Errorf "rsync source Pod %q identity changed");;
  if terminalPod found then
    io_reject_if (ObjectMeta.UID (Pod.Meta found) == "") (Errorf "terminal rsync source Pod %q has no UID");;
    unless_gone "replace terminal rsync source Pod: %w"
      (perform (DeletePod namespace (ObjectMeta.Name (Pod.Meta found)) (ObjectMeta.UID (Pod.Meta found))))
  else mret tt.

Definition ensureSourceService (move : Move) (names : resourceNames) : io Run unit :=
  let namespace := Reconciler.Namespace r in
  let expected := {| Service.Meta := moveObjectMeta move (resourceNames.SourceService names) namespace (transferLabels names (Some move));
                     Service.Selector := sourceLabels names move;
                     Service.Ports := [{| ServicePort.Name := "rsync"; ServicePort.Port := 873; ServicePort.TargetPort := 873;
                                          ServicePort.Protocol := "" |}] |} in
  found ← wrapf "create rsync source Service: %w"
            (create_or_get (perform (CreateService expected)) (perform (GetService namespace (resourceNames.SourceService names))));
  io_reject_if (negb (sameMoveObject (Service.Meta found) (Service.Meta expected)) ||
                (Service.Selector found != Service.Selector expected) ||
                negb (sameServicePorts (Service.Ports found) (Service.Ports expected)))
    (Errorf "rsync source Service %q identity changed").

(** ** Jobs (operation_job.go) *)

Definition operationJob (name : string) (copy : CopyIdentity) (names : resourceNames) (env : list EnvVar)
    (extraMounts : list VolumeMount) (extraVolumes : list Volume) : io Run Job :=
  let timeout := if (Reconciler.OperationTimeout r =? 0)%Z then DefaultOperationTimeout else Reconciler.OperationTimeout r in
  io_reject_if (timeout <? 0)%Z (Errorf "mobility operation timeout must be positive");;
  poolRoot ← poolMountPath (Some copy);
  mret {| Job.Meta := {| ObjectMeta.Name := name; ObjectMeta.Namespace := Reconciler.Namespace r; ObjectMeta.UID := "";
                         ObjectMeta.ResourceVersion := ""; ObjectMeta.Generation := 0;
                         ObjectMeta.Labels := transferLabels names None; ObjectMeta.Annotations := ∅;
                         ObjectMeta.OwnerReferences := []; ObjectMeta.DeletionTimestamp := None |};
          Job.BackoffLimit := Some 2%Z; Job.TTLSecondsAfterFinished := Some 600%Z;
          Job.ActiveDeadlineSeconds := Some (deadlineSeconds timeout);
          Job.Template :=
            {| PodTemplateSpec.TemplateLabels := transferLabels names None;
               PodTemplateSpec.Spec :=
                 helperSpec (NodeName copy) (Reconciler.ServiceAccountName r) "Never"
                   (helperContainer "operation" (Reconciler.HelperImage r) [] [] env (volumeMount "pool" "/pool" false :: extraMounts))
                   (poolVolume poolRoot :: extraVolumes) |};
          Job.Conditions := [] |}.

(** The owner, labels and command a caller of [operationJob] adds; [edit] changes the
    container. *)
Definition ownedJob (move : Move) (blocking : option bool) (edit : Container -> Container) (job : Job) : Job :=
  let label := insert "shiftpv.io/move-uid" (Move.UID move) in
  let template := Job.Template job in
  let spec := PodTemplateSpec.Spec template in
  job <| Job.Meta := (Job.Meta job) <| ObjectMeta.OwnerReferences := [moveReference move blocking] |>
                                    <| ObjectMeta.Labels := label (ObjectMeta.Labels (Job.Meta job)) |> |>
      <| Job.Template := template <| PodTemplateSpec.TemplateLabels := label (PodTemplateSpec.TemplateLabels template) |>
                                  <| PodTemplateSpec.Spec := spec <| PodSpec.Containers := map edit (PodSpec.Containers spec) |> |> |>.

Definition ensureJob (move : Move) (name nodeName : string) (names : resourceNames) (args : list string)
    (extraMounts : list VolumeMount) (extraVolumes : list Volume) : io Run unit :=
  match MoveStatus.IncomingCopy (Move.Status move) with
  | None => io_fail (Errorf "operation Pool copy identity is missing")
  | Some incoming =>
      io_reject_if (NodeName incoming != nodeName) (Errorf "operation Pool copy identity is missing");;
      job ← operationJob name incoming names podNameEnvironment extraMounts extraVolumes;
      let job := ownedJob move (Some true)
                   (fun c => c <| Container.Command := ["/shiftpv-volume-helper"] |> <| Container.Args := args |>) job in
      got ← attempt (perform (CreateJob job));
      match got with
      | Ok _ => mret tt
      | Err err =>
          if IsAlreadyExists err then
            created ← wrapf "create mobility Job %q: %w" (perform (GetJob (Reconciler.Namespace r) name));
            io_reject_if (negb (sameOperationJob created job)) (Errorf "mobility Job %q identity changed")
          else io_fail (Wrapf [err] "create mobility Job %q: %w")
      end
  end.

Definition ensureCopyJob (move : Move) (names : resourceNames) : io Run unit :=
  let status := Move.Status move in
  io_reject_if (is_nil (MoveStatus.IncomingCopy status) || (MoveStatus.CopyOperationID status == "")) (Errorf "copy identity is missing");;
  ensureJob move (resourceNames.CopyJob names) (MoveStatus.DestinationNode status) names
    (helperArgs r "copy" move (MoveStatus.CopyOperationID status) ++
     ["--source-service=" +:+ resourceNames.SourceService names; "--password-file=/auth/password"])
    [volumeMount "auth" "/auth" true] [podVolume "auth" None (Some (resourceNames.Secret names, Some 420%Z)) None].

Definition ensurePromotionJob (move : Move) (names : resourceNames) : io Run unit :=
  let status := Move.Status move in
  io_reject_if (is_nil (MoveStatus.IncomingCopy status) || is_nil (MoveStatus.DestinationCopy status) ||
                (MoveStatus.PromotionOperationID status == "")) (Errorf "promotion identity is missing");;
  ensureJob move (resourceNames.PromotionJob names) (MoveStatus.DestinationNode status) names
    (helperArgs r "promote" move (MoveStatus.PromotionOperationID status)) [] [].

(** ** Acquisition and release (resources.go) *)

Definition ensureCopyResources (move : Move) (names : resourceNames) : io Run unit :=
  ensureTransferSecret move names;;
  ensureRsyncConfig move names;;
  ensureSourcePod move names;;
  ensureSourceService move names;;
  ready ← sourcePodReady move names;
  if ready : bool then ensureCopyJob move names else mret tt.

(** [ownedTransferObject.delete]: [get] reads the object's metadata, [del] deletes it
    under a UID; the errors are collected. *)
Definition delete_owned (kind missingUIDKind name : string) (get : io Run ObjectMeta) (del : string -> io Run unit) (moveUID : string) :
    io Run (option error) :=
  got ← attempt get;
  match got with
  | Err err => mret (if IsNotFound err then None else Some err)
  | Ok meta =>
      if negb (moveOwned (ObjectMeta.OwnerReferences meta) moveUID) || (entry (ObjectMeta.Labels meta) "shiftpv.io/move-uid" != moveUID)
      then mret (Some (Errorf ("refusing to delete unrelated " +:+ kind +:+ " " +:+ name)))
      else if ObjectMeta.UID meta == "" then mret (Some (Errorf (missingUIDKind +:+ " " +:+ name +:+ " has no UID")))
      else
        got ← attempt (del (ObjectMeta.UID meta));
        mret match got with Ok _ => None | Err err => if IsNotFound err then None else Some err end
  end.

Definition deleteTransferResources (move : Move) (names : resourceNames) : io Run unit :=
  let namespace := Reconciler.Namespace r in let uid := Move.UID move in
  pod ← delete_owned "Pod" "source Pod" (resourceNames.SourcePod names)
          (pod ← perform (GetPod namespace (resourceNames.SourcePod names)); mret (Pod.Meta pod))
          (fun uid => perform (DeletePod namespace (resourceNames.SourcePod names) uid)) uid;
  service ← delete_owned "Service" "source Service" (resourceNames.SourceService names)
          (service ← perform (GetService namespace (resourceNames.SourceService names)); mret (Service.Meta service))
          (fun uid => perform (DeleteService namespace (resourceNames.SourceService names) uid)) uid;
  configMap ← delete_owned "ConfigMap" "rsync ConfigMap" (resourceNames.Config names)
          (configMap ← perform (GetConfigMap namespace (resourceNames.Config names)); mret (ConfigMap.Meta configMap))
          (fun uid => perform (DeleteConfigMap namespace (resourceNames.Config names) uid)) uid;
  secret ← delete_owned "Secret" "rsync Secret" (resourceNames.Secret names)
          (secret ← perform (GetSecret namespace (resourceNames.Secret names)); mret (Secret.Meta secret))
          (fun uid => perform (DeleteSecret namespace (resourceNames.Secret names) uid)) uid;
  match join_errors [pod; service; configMap; secret] with
  | Some err => io_fail err
  | None => mret tt
  end.

(** ** The placement reservation (placement.go, prepared_placement.go, prepared_cancellation.go) *)

Definition ensurePlacementPod (move : Move) (desired : Pod) : io Run Pod :=
  let names := namesFor (Move.Name move) in
  let get := perform (GetPod (Reconciler.Namespace r) (resourceNames.PlacementPod names)) in
  found ← wrapf "read placement reservation Pod: %w" (optional get);
  match found with
  | Some existing => io_lift (validatePlacementIdentity existing move names);; mret existing
  | None =>
      got ← attempt (perform (CreatePod desired));
      match got with
      | Ok created => mret created
      | Err err =>
          if negb (IsAlreadyExists err) then io_fail (Wrapf [err] "create placement reservation Pod: %w")
          else
            existing ← wrapf "read concurrent placement reservation Pod: %w" get;
            io_lift (validatePlacementIdentity existing move names);;
            mret existing
      end
  end.

Definition ensurePlacement (move : Move) (observed : observation) : io Run unit :=
  match observation.Replacement observed with
  | None => io_fail (Errorf "held replacement Pod is not observed")
  | Some replacement =>
      io_reject_if (negb (hasPlacementHold replacement)) (Errorf "held replacement Pod is not observed");;
      io_reject_if (length (MoveStatus.CandidateNodes (Move.Status move)) =? 0)%nat
        (Errorf "move has no recorded destination candidates");;
      ensurePlacementPod move (placementPod r move replacement (namesFor (Move.Name move)));;
      mret tt
  end.

Definition requireScheduledPlacement (move : Move) : io Run unit :=
  let names := namesFor (Move.Name move) in
  let destination := MoveStatus.DestinationNode (Move.Status move) in
  pod ← wrapf "read placement reservation before owner commit: %w"
          (perform (GetPod (Reconciler.Namespace r) (resourceNames.PlacementPod names)));
  io_lift (validatePlacementIdentity pod move names);;
  io_reject_if (negb (is_nil (ObjectMeta.DeletionTimestamp (Pod.Meta pod))) || (PodSpec.NodeName (Pod.Spec pod) == "") ||
                (PodSpec.NodeName (Pod.Spec pod) != destination))
    (Errorf "placement reservation is not active on destination %q").

(** [pod.Spec.NodeSelector[hostname] = node] *)
Definition pinned (pod : Pod) (node : string) : Pod :=
  pod <| Pod.Spec := (Pod.Spec pod) <| PodSpec.NodeSelector := <[LabelHostname := node]> (PodSpec.NodeSelector (Pod.Spec pod)) |> |>.

(** Pinned, without the hold, and marked as placed on its owner. *)
Definition released (pod : Pod) (node : string) : Pod :=
  let pod := pinned pod node in
  pod <| Pod.Spec := (Pod.Spec pod) <| PodSpec.SchedulingGates :=
           List.filter (fun gate => gate != placementHoldName) (PodSpec.SchedulingGates (Pod.Spec pod)) |> |>
      <| Pod.Meta := (Pod.Meta pod) <| ObjectMeta.Annotations :=
           <[placementAnnotationKey := "owner"]> (ObjectMeta.Annotations (Pod.Meta pod)) |> |>.

Definition pinReplacement (move : Move) : io Run unit :=
  let status := Move.Status move in
  let destination := MoveStatus.DestinationNode status in
  io_reject_if ((MoveStatus.ReplacementName status == "") || (MoveStatus.ReplacementUID status == "") ||
                (MoveStatus.ClaimNamespace status == "") || (destination == ""))
    (Errorf "move has no durable replacement identity or destination");;
  RetryOnConflict (
    pod ← perform (GetPod (MoveStatus.ClaimNamespace status) (MoveStatus.ReplacementName status));
    let selected := entry (PodSpec.NodeSelector (Pod.Spec pod)) LabelHostname in
    io_reject_if (ObjectMeta.UID (Pod.Meta pod) != MoveStatus.ReplacementUID status) (Errorf "replacement Pod UID changed");;
    io_reject_if (negb (is_nil (ObjectMeta.DeletionTimestamp (Pod.Meta pod))) || (PodSpec.NodeName (Pod.Spec pod) != "") ||
                  negb (hasPlacementHold pod)) (Errorf "replacement Pod is not safely held before scheduling");;
    io_reject_if ((selected != "") && (selected != destination))
      (Errorf "replacement Pod requires node %q, not selected destination %q");;
    perform (UpdatePod (pinned pod destination));;
    mret tt).

Definition deletePlacement (move : Move) : io Run unit :=
  let names := namesFor (Move.Name move) in
  found ← wrapf "read placement reservation Pod: %w"
            (optional (perform (GetPod (Reconciler.Namespace r) (resourceNames.PlacementPod names))));
  match found with
  | None => mret tt
  | Some pod =>
      io_lift (validatePlacementIdentity pod move names);;
      unless_gone "delete placement reservation Pod: %w"
        (perform (DeletePod (Reconciler.Namespace r) (ObjectMeta.Name (Pod.Meta pod)) (ObjectMeta.UID (Pod.Meta pod))))
  end.

Definition deleteCancelledPlacement (move : Move) (placement : option Pod) : io Run unit :=
  match placement with
  | None => mret tt
  | Some pod =>
      if negb (is_nil (ObjectMeta.DeletionTimestamp (Pod.Meta pod))) then mret tt
      else
        io_lift (validatePlacementOwner pod move (namesFor (Move.Name move)));;
        unless_gone "delete cancelled placement: %w"
          (perform (DeletePod (Reconciler.Namespace r) (ObjectMeta.Name (Pod.Meta pod)) (ObjectMeta.UID (Pod.Meta pod))))
  end.

(** The reserved Pod, and the reason why the workload no longer fits. *)
Definition ensurePreparedPlacement (move : Move) (observed : observation) (candidates : list string) : io Run (option Pod * string) :=
  io_reject_if (Reconciler.PlacementPriorityClassName r == "") (Errorf "preparation requires a non-preempting placement PriorityClass");;
  consumer ← io_lift (deref (observation.Consumer observed));
  found ← consumerTemplate consumer;
  match found with
  | inr reason => mret (None, reason)
  | inl template =>
      let live := placementProbePod consumer template (MoveSpec.SourceNode (Move.Spec move)) in
      let desiredMove := Move.with_Status move ((Move.Status move) <| MoveStatus.CandidateNodes := candidates |>) in
      let desired := placementPod r desiredMove live (namesFor (Move.Name move)) in
      placement ← ensurePlacementPod move desired;
      let node := PodSpec.NodeName (Pod.Spec placement) in
      if negb (is_nil (ObjectMeta.DeletionTimestamp (Pod.Meta placement))) then mret (None, "")
      else if negb (nonPreemptingPlacement placement) then mret (None, "PreparedPlacementPriorityChanged")
      else
        let reason := preparedPlacementCoverage placement live template in
        if reason != "" then mret (None, reason)
        else
          let stale := if node == "" then (PodSpec.Affinity (Pod.Spec placement) != PodSpec.Affinity (Pod.Spec desired)) ||
                                          (PodSpec.NodeSelector (Pod.Spec placement) != PodSpec.NodeSelector (Pod.Spec desired))
                       else negb (contains candidates node) in
          if stale then deletePlacement move;; mret (None, "")
          else mret (Some placement, "")
  end.
End transfer.
