(* ===== verification/MobilityActions.v ===== *)
(** * The mobility controller: actions

    src/mobility/controller: the effects of a decision.  diagnostics.go persists the
    status of the Move; preparation.go, capacity.go, capacity_preparation.go,
    capacity_probe.go and source_usage.go reserve the destination, start the disruption
    and turn the reservation into approval; actions.go drives copy, promotion, owner
    commit, release and completion; cleanup.go the retirement of the source.

    A handler that takes a pointer to the Move works on the current one ([current],
    [set_status]); one that takes it by value has it as an argument. *)

From S2P Require Import Prelude RecordUpdate Bytes VolumeIdentity Fsm Apimachinery Registration GoTime ApiServer VolumeState.
From S2P Require Import PoolApi VolumeRegistry MoveApi Capacity CleanupJournal History Kube Mobility MobilityRules MobilityPods MobilityObserve MobilityLifecycle MobilityTransfer.
From stdpp Require Import sorting.

(** ** Rules *)

Definition event_kind (move : Move) (previous : MoveStatus) : string * string * string :=
  let s := Move.Status move in
  if MoveStatus.RecoveryReason s != "" then ("Warning", MoveStatus.RecoveryReason s, MoveStatus.RecoveryMessage s)
  else if (MoveStatus.RecoveryPhase previous != MoveStatus.RecoveryPhase s) && (MoveStatus.RecoveryPhase s != "")
  then ("Normal", "Recovery" +:+ MoveStatus.RecoveryPhase s, "ResumeOwner recovery entered " +:+ MoveStatus.RecoveryPhase s)
  else if MoveStatus.Reason s != ""
  then (if (MoveStatus.Phase s == Fsm.PhaseBlocked) || (MoveStatus.Reason s == "ObservationFailed") || (MoveStatus.Reason s == "ActionFailed")
        then "Warning" else "Normal", MoveStatus.Reason s, MoveStatus.Message s)
  else ("Normal", "Mobility" +:+ MoveStatus.Phase s, MoveStatus.Message s).

(** The status with the times of its last transition and progress. *)
Definition stamped (previous s : MoveStatus) (now : string) : MoveStatus :=
  let s := if (MoveStatus.LastTransitionTime s == "") || (MoveStatus.Phase previous != MoveStatus.Phase s) ||
              (MoveStatus.RecoveryPhase previous != MoveStatus.RecoveryPhase s)
           then s <| MoveStatus.LastTransitionTime := now |> else s in
  if (MoveStatus.LastProgressTime s == "") || (progressOf previous != progressOf s)
  then s <| MoveStatus.LastProgressTime := now |> else s.

(** A listed map of volumes. *)
Definition index_volumes (volumes : list (string * State)) : gmap string State := list_to_map volumes.

Fixpoint pendingPhysicalBytes (current : Move) (pool : Pool) (volumes : gmap string State) (moves : list Move) (physicalPending : Z) : result Z :=
  match moves with
  | [] => Ok physicalPending
  | move :: moves =>
      let status := Move.Status move in
      if (Move.Name move == Move.Name current) || MoveCleanupSettled move || negb (MoveStatus.CapacityApproved status) ||
         (MoveStatus.DestinationPoolUID status != Pool.UID pool)
      then pendingPhysicalBytes current pool volumes moves physicalPending
      else match volumes !! MoveSpec.VolumeID (Move.Spec move) with
           | None => Err (Errorf "approved move %q has no volume state")
           | Some state =>
               if some_and (State.CurrentCopy state) (fun copy => PoolUID copy == Pool.UID pool)
               then pendingPhysicalBytes current pool volumes moves physicalPending
               else
                 reject_if ((State.CapacityBytes state <=? 0)%Z || (MoveStatus.SourceBytes status <? 0)%Z)
                   (Errorf "approved move %q has invalid capacity state");;
                 reject_if (MaxInt64 - physicalPending <? MoveStatus.SourceBytes status)%Z
                   (Errorf "destination physical pending total overflows int64");;
                 pendingPhysicalBytes current pool volumes moves (physicalPending + MoveStatus.SourceBytes status)
           end
  end.

(** The order of [sort.Slice] by name. *)
Definition pool_le (a b : Pool) : Prop := string_le (Pool.Name a) (Pool.Name b).
#[export] Instance pool_le_dec : RelDecision pool_le := fun a b => string_le_dec (Pool.Name a) (Pool.Name b).

(** The loop of [destinationPools]. *)
Fixpoint eligible_pools (move : Move) (source : Pool) (nodeName : string) (pools : list Pool) : result (list Pool) :=
  match pools with
  | [] => Ok []
  | pool :: pools =>
      let uid := MoveStatus.DestinationPoolUID (Move.Status move) in
      if (Pool.NodeName pool != nodeName) || (Pool.PoolGroup pool != Pool.PoolGroup source) || ((uid != "") && (Pool.UID pool != uid))
      then eligible_pools move source nodeName pools
      else
        reject_if ((Pool.UID pool == "") || PoolHasServingVolume pool (MoveSpec.VolumeID (Move.Spec move)))
          (Errorf "destination Pool %q has missing identity or a serving copy");;
        rest ← eligible_pools move source nodeName pools;
        Ok (pool :: rest)
  end.

Definition confirmCommittedCopy (move : Move) (observed : observation) : result unit :=
  reject_if (is_nil (MoveStatus.DestinationCopy (Move.Status move)) ||
             (State.CurrentCopy (observation.Volume observed) != MoveStatus.DestinationCopy (Move.Status move)))
    (Errorf "committed owner has a different serving-copy identity").

(** The state that [commitOwner] writes. *)
Definition committedState (move : Move) (state : State) (destination : string) (copy : CopyIdentity) : State :=
  zeroState <| State.UID := State.UID state |> <| State.Phase := VolumeState.PhaseReady |> <| State.OwnerNode := destination |>
            <| State.ActiveMove := Move.Name move |> <| State.CurrentCopy := Some copy |>
            <| State.PublishedNodes := State.PublishedNodes state |>.

Definition contradictedCleanup {EN : Environment} (err : error) : bool := error_is err CleanupJournal.ErrConflict || IsNotFound err.

Section rules.
Context {AM : Apimachinery}.

Definition preparationPoolFits (pool : Pool) (requested : Z) (volumes : list (string * State)) (moves : list Move) : result bool :=
  limit ← LimitBytes pool;
  reserved ← ReservedBytesForPool volumes (index_volumes volumes) moves (Pool.UID pool);
  Ok ((0 <? requested)%Z && (requested <=? limit - reserved)%Z).

(** The inner loop of [preparationCandidates]: whether a Pool of the node fits, and
    whether one that fits could not be probed. *)
Fixpoint node_fits (move : Move) (source : Pool) (node : string) (requested : Z) (volumes : list (string * State)) (moves : list Move)
    (pools : list Pool) (unavailable : bool) : result (bool * bool) :=
  match pools with
  | [] => Ok (false, unavailable)
  | pool :: pools =>
      if (Pool.NodeName pool != node) || (Pool.PoolGroup pool != Pool.PoolGroup source) ||
         PoolHasServingVolume pool (MoveSpec.VolumeID (Move.Spec move))
      then node_fits move source node requested volumes moves pools unavailable
      else
        fits ← preparationPoolFits pool requested volumes moves;
        if negb fits then node_fits move source node requested volumes moves pools unavailable
        else if negb (PoolStatus.CapacityProbeSupported (Pool.Status pool))
        then node_fits move source node requested volumes moves pools true
        else Ok (true, unavailable)
  end.

Fixpoint fitting_nodes (move : Move) (source : Pool) (requested : Z) (volumes : list (string * State)) (moves : list Move)
    (pools : list Pool) (nodes : list string) (unavailable : bool) : result (list string * bool) :=
  match nodes with
  | [] => Ok ([], unavailable)
  | node :: nodes =>
      '(fits, unavailable) ← node_fits move source node requested volumes moves pools unavailable;
      '(rest, unavailable) ← fitting_nodes move source requested volumes moves pools nodes unavailable;
      Ok (if fits : bool then node :: rest else rest, unavailable)
  end.
End rules.

Section actions.
Context {AM : Apimachinery} {EN : Environment} (r : Reconciler).

(** ** Status (diagnostics.go) *)

Definition emitMoveEvent (move : Move) (previous : MoveStatus) : io Run unit :=
  let s := Move.Status move in
  if negb (Reconciler.Recorder r) ||
     ((MoveStatus.Phase previous == MoveStatus.Phase s) && (MoveStatus.Reason previous == MoveStatus.Reason s) &&
      (MoveStatus.RecoveryPhase previous == MoveStatus.RecoveryPhase s) && (MoveStatus.RecoveryReason previous == MoveStatus.RecoveryReason s))
  then mret tt
  else
    let '(type, reason, message) := event_kind move previous in
    attempt (perform (RecordEvent type reason message));;
    mret tt.

Definition persistMoveStatus (previous : MoveStatus) : io Run unit :=
  cancelled ← ctx_err;
  match cancelled with
  | Some err => io_fail (Wrapf [errMoveStatusPersistence; err] "")
  | None =>
      s ← status;
      if previous == s then mret tt
      else
        at_ ← now;
        set_status (stamped previous s (FormatNano at_));;
        move ← current;
        got ← attempt (perform (CompareAndSetMoveStatus move (Move.Status move)));
        match got with
        | Err err => io_fail (Wrapf [errMoveStatusPersistence; err] "")
        | Ok stored => set_current stored;; emitMoveEvent stored previous
        end
  end.

(** These two report an error; they never succeed. *)
Definition recordMoveError (previous : MoveStatus) (reason operation : string) (cause : error) : io Run unit :=
  cancelled ← ctx_err;
  match cancelled with
  | Some err => io_fail (Wrapf [cause; err] "")
  | None =>
      if error_is cause errMoveStatusPersistence || error_is cause errPoolBusy || error_is cause ErrCapacityProbePending
      then io_fail cause
      else
        s ← status;
        set_status (s <| MoveStatus.Reason := reason |>
                      <| MoveStatus.Message := "automatic retry; " +:+ operation +:+ ": " +:+ Error cause |>);;
        got ← attempt (persistMoveStatus previous);
        io_fail match got with
                | Ok _ => cause
                | Err statusErr => Wrapf [cause; Wrapf [statusErr] "record move diagnostic: %w"] ""
                end
  end.

Definition recoveryError (move : Move) (reason : string) (err : error) : io Run unit :=
  cancelled ← ctx_err;
  match cancelled with
  | Some cause => io_fail (Wrapf [err; cause] "")
  | None =>
      if error_is err errMoveStatusPersistence then io_fail err
      else
        let s := Move.Status move in
        let failed := s <| MoveStatus.RecoveryReason := reason |> <| MoveStatus.RecoveryMessage := Error err |>
                        <| MoveStatus.Message := recoveryErrorMessage reason err |> in
        got ← attempt (with_cell (Move.with_Status move failed) (persistMoveStatus s));
        io_fail match got with
                | Ok _ => err
                | Err statusErr => Wrapf [err] "%w (record recovery error: %v)"
                end
  end.

(** ** Source usage (source_usage.go) *)

Definition finalizeSourceUsage (move : Move) : io Run bool :=
  io_reject_if (negb (Reconciler.SourceUsage r)) (Errorf "source usage finalization is not configured");;
  perform (FinalizeSourceUsage move).

Definition measureSourceCopy : io Run unit :=
  io_reject_if (negb (Reconciler.SourceUsage r)) (Errorf "source usage observation is not configured");;
  move ← current;
  state ← perform (GetVolume (MoveSpec.VolumeID (Move.Spec move)));
  copy ← io_lift (sourceUsageCopy move state);
  (if (MoveStatus.SourceBytes (Move.Status move) <=? 0)%Z then
     '(measured, done) ← wrapf "measure source volume usage: %w" (perform (AdvanceSourceUsage move copy));
     io_reject_if (negb done) errSourceUsagePending;;
     io_reject_if (measured <=? 0)%Z (Errorf "source volume usage must be positive, got %d");;
     got ← attempt (perform (RecordSourceUsage move copy measured));
     match got with
     | Err err => io_fail (Wrapf [errMoveStatusPersistence; err] "")
     | Ok stored => set_current stored
     end
   else mret tt);;
  move ← current;
  io_reject_if (is_nil (MoveStatus.SourceCopy (Move.Status move))) (Errorf "persisted source measurement has no copy identity");;
  done ← finalizeSourceUsage move;
  io_reject_if (negb done) errSourceUsagePending.

(** ** Preparation (preparation.go, capacity.go) *)

Definition claimPreparationSource (move : Move) (state : State) : io Run unit :=
  perform (CompareAndSetSourceState (MoveSpec.VolumeID (Move.Spec move)) state (state <| State.ActiveMove := Move.Name move |>)).

Definition initializePreparation (observed : observation) : io Run unit :=
  let facts := observation.FSM observed in
  if Fsm.SourceAuthorityInvalid facts
  then io_fail (preparationChanged (preparationReason (Fsm.UnsafeReason facts) "VolumeBindingChanged"))
  else if negb (Fsm.PreconditionsValid facts) || Fsm.PreflightDeferred facts then io_fail errLifecyclePending
  else match observation.PV observed, observation.Claim observed, observation.Consumer observed with
       | Some pv, Some claim, Some consumer =>
           let pm := PersistentVolume.Meta pv in let cm := PersistentVolumeClaim.Meta claim in let podMeta := Pod.Meta consumer in
           io_reject_if ((ObjectMeta.UID pm == "") || (ObjectMeta.UID cm == "") || (ObjectMeta.UID podMeta == "") ||
                         negb (is_nil (ObjectMeta.DeletionTimestamp podMeta)))
             (Errorf "preparation requires exact live binding and consumer identities");;
           source ← io_lift (deref (State.CurrentCopy (observation.Volume observed)));
           s ← status;
           set_status (s <| MoveStatus.SourceCopy := Some source |>
                         <| MoveStatus.PersistentVolumeName := ObjectMeta.Name pm |> <| MoveStatus.PersistentVolumeUID := ObjectMeta.UID pm |>
                         <| MoveStatus.ClaimNamespace := ObjectMeta.Namespace cm |> <| MoveStatus.ClaimName := ObjectMeta.Name cm |>
                         <| MoveStatus.ClaimUID := ObjectMeta.UID cm |>
                         <| MoveStatus.ConsumerName := ObjectMeta.Name podMeta |> <| MoveStatus.ConsumerUID := ObjectMeta.UID podMeta |>
                         <| MoveStatus.CandidateNodes := observation.CandidateNodes observed |>)
       | _, _, _ => io_fail (Errorf "preparation requires exact live binding and consumer identities")
       end.

Definition preparationCandidates (move : Move) (observed : observation) (pools : poolIndex) : io Run (list string * bool) :=
  volumes ← perform ListVolumes;
  moves ← perform ListMoves;
  let requested := State.CapacityBytes (observation.Volume observed) in
  match indexedCopyPool (poolIndex.registered pools) (MoveStatus.SourceCopy (Move.Status move)) with
  | None => io_fail (Errorf "prepared source Pool or capacity is missing")
  | Some source =>
      io_reject_if (requested <=? 0)%Z (Errorf "prepared source Pool or capacity is missing");;
      io_lift (fitting_nodes move source requested volumes moves (map snd (range (poolIndex.ready pools)))
                 (observation.CandidateNodes observed) false)
  end.

Definition destinationPools (move : Move) (nodeName : string) : io Run (list Pool) :=
  let status := Move.Status move in
  match MoveStatus.SourceCopy status with
  | None => io_fail (Errorf "automatic move requires an exact source copy and another destination node")
  | Some copy =>
      io_reject_if (negb (is_ok (Validate copy)) || (nodeName == NodeName copy))
        (Errorf "automatic move requires an exact source copy and another destination node");;
      source ← perform (PoolForIdentity (PoolName copy) (PoolUID copy) (NodeName copy));
      io_reject_if (MoveStatus.CapacityApproved status &&
                    ((MoveStatus.DestinationPoolUID status == "") || (MoveStatus.DestinationNode status != nodeName)))
        (Errorf "approved destination Pool identity is missing or changed");;
      pools ← perform ReadyPools;
      eligible ← io_lift (eligible_pools move source nodeName pools);
      io_reject_if (length eligible =? 0)%nat (Errorf "node %q has no Ready Pool in source group with the required identity");;
      mret (merge_sort pool_le eligible)
  end.

Definition preparationPlacementCurrent (move : Move) (expected : Pod) (nodeName : string) : io Run unit :=
  let meta := Pod.Meta expected in
  found ← perform (GetPod (ObjectMeta.Namespace meta) (ObjectMeta.Name meta));
  io_reject_if ((ObjectMeta.UID (Pod.Meta found) != ObjectMeta.UID meta) ||
                negb (is_ok (validatePlacementIdentity found move (namesFor (Move.Name move)))) ||
                negb (is_nil (ObjectMeta.DeletionTimestamp (Pod.Meta found))) || (PodSpec.NodeName (Pod.Spec found) != nodeName) ||
                terminalPod found)
    (Errorf "preparation placement changed before reservation").

(** The hold that a grant writes, with the plan it belongs to. *)
Definition granted (s : MoveStatus) (pool : Pool) (bytes : Z) (placementUID : string) : MoveStatus :=
  s <| MoveStatus.Preparation := Some {| MovePreparation.Pool := {| PoolReference.Name := Pool.Name pool; PoolReference.UID := Pool.UID pool |};
                                         MovePreparation.NodeName := Pool.NodeName pool; MovePreparation.ReservedBytes := bytes |} |>
    <| MoveStatus.DestinationNode := Pool.NodeName pool |> <| MoveStatus.DestinationPoolUID := Pool.UID pool |>
    <| MoveStatus.PlacementPodUID := placementUID |> <| MoveStatus.CandidateNodes := [Pool.NodeName pool] |>
    <| MoveStatus.Reason := "" |> <| MoveStatus.CapacityReason := "" |>.

Definition grantPreparation (pool : Pool) (placement : Pod) : io Run bool :=
  let uid := ObjectMeta.UID (Pod.Meta placement) in
  io_reject_if (negb (Reconciler.PoolLocks r) || (uid == "") || (Pool.UID pool == "") ||
                (Pool.NodeName pool != PodSpec.NodeName (Pod.Spec placement)))
    (Errorf "preparation requires a capacity locker and exact placement Pod UID");;
  locking (Pool.UID pool) (
    move ← current;
    currentPool ← perform (ReadyPoolForIdentity (Pool.Name pool) (Pool.UID pool) (Pool.NodeName pool));
    valid ← preparationPoolGroup move currentPool;
    if negb valid then mret false
    else
      preparationPlacementCurrent move placement (Pool.NodeName pool);;
      volumes ← perform ListVolumes;
      moves ← perform ListMoves;
      let state := default zeroState (index_volumes volumes !! MoveSpec.VolumeID (Move.Spec move)) in
      io_lift (preparationSourceAuthority move state);;
      io_reject_if ((State.ActiveMove state != Move.Name move) || (State.Phase state != VolumeState.PhaseReady))
        (Errorf "preparation requires its Ready source claim");;
      io_lift (preparationMoveSnapshot move moves);;
      fits ← io_lift (preparationPoolFits currentPool (State.CapacityBytes state) volumes moves);
      if negb fits then mret false
      else
        io_reject_if (negb (PoolStatus.CapacityProbeSupported (Pool.Status currentPool))) ErrCapacityProbePending;;
        previous ← status;
        set_status (granted previous currentPool (State.CapacityBytes state) uid);;
        persistMoveStatus previous;;
        mret true).

(** The loop over the Pools of the placed node: whether one was granted, and whether a
    probe is pending. *)
Fixpoint grant_first (pools : list Pool) (placement : Pod) (unavailable : bool) : io Run (bool * bool) :=
  match pools with
  | [] => mret (false, unavailable)
  | pool :: pools =>
      got ← attempt (grantPreparation pool placement);
      match got with
      | Err err => if error_is err ErrCapacityProbePending then grant_first pools placement true else io_fail err
      | Ok true => mret (true, unavailable)
      | Ok false => grant_first pools placement unavailable
      end
  end.

(** [move.Status.Reason = reason] *)
Definition set_reason (reason : string) : io Run unit := s ← status; set_status (s <| MoveStatus.Reason := reason |>).

Definition prepareDestination (observed : observation) (pools : poolIndex) : io Run unit :=
  move ← current;
  '(candidates, unavailable) ← preparationCandidates move observed pools;
  if (length candidates =? 0)%nat then
    deletePlacement r move;;
    set_reason (preparationCapacityReason unavailable)
  else
    '(placement, reason) ← ensurePreparedPlacement r move observed candidates;
    if reason != "" then io_fail (preparationChanged reason)
    else match placement with
         | None => set_reason "WaitingForPreparedPlacement"
         | Some placement =>
             if (PodSpec.NodeName (Pod.Spec placement) == "") || negb (is_nil (ObjectMeta.DeletionTimestamp (Pod.Meta placement)))
             then set_reason "WaitingForPreparedPlacement"
             else
               poolsOnNode ← destinationPools move (PodSpec.NodeName (Pod.Spec placement));
               '(granted, unavailable) ← grant_first poolsOnNode placement false;
               if granted : bool then mret tt
               else
                 move ← current;
                 deletePlacement r move;;
                 set_reason (preparationCapacityReason unavailable)
         end.

(** ** Disruption (actions.go, capacity_probe.go, preparation.go) *)

Definition validateDisruptionConsumer (move : Move) (observed : observation) : io Run unit :=
  let status := Move.Status move in
  io_reject_if (negb (observation.ConsumersObserved observed)) errLifecyclePending;;
  match observation.Consumer observed with
  | Some consumer =>
      io_reject_if ((ObjectMeta.Name (Pod.Meta consumer) != MoveStatus.ConsumerName status) ||
                    (ObjectMeta.UID (Pod.Meta consumer) != MoveStatus.ConsumerUID status))
        (Errorf "disruption consumer identity differs from its prepared plan")
  | None =>
      io_reject_if ((MoveStatus.ClaimNamespace status == "") || (MoveStatus.ConsumerName status == "") || (MoveStatus.ConsumerUID status == ""))
        (Errorf "disruption requires the recorded consumer identity");;
      found ← wrapf "confirm disrupted consumer absence: %w"
                (optional (perform (GetPod (MoveStatus.ClaimNamespace status) (MoveStatus.ConsumerName status))));
      match found with
      | None => mret tt
      | Some pod =>
          io_reject_if (ObjectMeta.UID (Pod.Meta pod) == "") (Errorf "disruption consumer observation has no UID");;
          if terminalPod pod || (ObjectMeta.UID (Pod.Meta pod) != MoveStatus.ConsumerUID status) then mret tt
          else io_fail errLifecyclePending
      end
  end.

Definition evictConsumer (observed : observation) : io Run unit :=
  (match observation.Consumer observed with
   | Some consumer =>
       let meta := Pod.Meta consumer in
       if is_nil (ObjectMeta.DeletionTimestamp meta)
       then unless_gone "evict consumer Pod: %w"
              (perform (EvictPod (ObjectMeta.Namespace meta) (ObjectMeta.Name meta) (ObjectMeta.UID meta)))
       else mret tt
   | None => mret tt
   end);;
  s ← status;
  set_status (s <| MoveStatus.EvictionRequested := true |>).

Definition startPreparedSource (move : Move) (source : State) : io Run unit :=
  match MoveStatus.Preparation (Move.Status move) with
  | None => io_fail (Errorf "prepared disruption requires its Pool identity, locker and capacity probe")
  | Some hold =>
      let pool := MovePreparation.Pool hold in
      io_reject_if ((PoolReference.UID pool == "") || negb (Reconciler.PoolLocks r) || negb (Reconciler.CapacityProbe r))
        (Errorf "prepared disruption requires its Pool identity, locker and capacity probe");;
      locking (PoolReference.UID pool) (
        found ← perform (ReadyPoolForIdentity (PoolReference.Name pool) (PoolReference.UID pool) (MovePreparation.NodeName hold));
        io_reject_if (negb (PoolStatus.CapacityProbeSupported (Pool.Status found))) ErrCapacityProbePending;;
        wrapf "probe prepared destination before disruption: %w" (perform (StatFSForPool found));;
        perform (CompareAndSetSourceState (MoveSpec.VolumeID (Move.Spec move)) source (source <| State.Phase := VolumeState.PhaseMoving |>)))
  end.

Definition startPreparedDisruption (observed : observation) : io Run unit :=
  move ← current;
  io_reject_if ((State.ActiveMove (observation.Volume observed) != Move.Name move) || is_nil (MoveStatus.Preparation (Move.Status move)))
    (Errorf "disruption requires its source claim and durable preparation");;
  validateDisruptionConsumer move observed;;
  '(reason, unavailable) ← validatePreparedPlacement r move observed;
  if reason != "" then (if unavailable : bool then io_fail errLifecyclePending else io_fail (preparationChanged reason))
  else
    (if State.Phase (observation.Volume observed) == VolumeState.PhaseReady
     then startPreparedSource move (observation.Volume observed) else mret tt);;
    evictConsumer observed.

(** ** Approval (capacity.go, capacity_preparation.go) *)

Definition destinationCapacityForPool (move : Move) (pool : Pool) : io Run (Z * Z * Z * Z) :=
  limit ← io_lift match LimitBytes pool with
                  | Ok limit => Ok limit
                  | Err err => if error_is err ErrLimitInexact || error_is err ErrLimitNotPositive
                               then Err (Errorf "destination Pool capacity limit must be positive bytes")
                               else Err (Wrapf [err] "parse destination Pool capacity limit: %w")
                  end;
  volumes ← perform ListVolumes;
  moves ← perform ListMoves;
  match index_volumes volumes !! MoveSpec.VolumeID (Move.Spec move) with
  | None => io_fail (Errorf "volume %q has no capacity state")
  | Some state =>
      io_reject_if (State.CapacityBytes state <=? 0)%Z (Errorf "volume %q has invalid capacity");;
      io_lift (preparedCapacitySnapshot move state moves pool);;
      logicalReserved ← io_lift (ReservedBytesForPool volumes (index_volumes volumes) moves (Pool.UID pool));
      physicalPending ← io_lift (pendingPhysicalBytes move pool (index_volumes volumes) moves 0);
      mret (State.CapacityBytes state, logicalReserved, physicalPending, limit)
  end.

(** The approved plan: it replaces the hold. *)
Definition approved (planned : Move) : Move :=
  Move.with_Status planned ((Move.Status planned) <| MoveStatus.Preparation := None |> <| MoveStatus.CapacityApproved := true |>
                                                  <| MoveStatus.CapacityReason := "" |>).

Definition convertPreparation : io Run unit :=
  move ← current;
  io_lift (ValidateMovePreparation move);;
  measureSourceCopy;;
  move ← current;
  hold ← io_lift (deref (MoveStatus.Preparation (Move.Status move)));
  let reference := MovePreparation.Pool hold in
  locking (PoolReference.UID reference) (
    pool ← perform (ReadyPoolForIdentity (PoolReference.Name reference) (PoolReference.UID reference) (MovePreparation.NodeName hold));
    source ← io_lift (deref (MoveStatus.SourceCopy (Move.Status move)));
    sourcePool ← perform (PoolForIdentity (PoolName source) (PoolUID source) (NodeName source));
    io_reject_if ((Pool.PoolGroup pool != Pool.PoolGroup sourcePool) || PoolHasServingVolume pool (MoveSpec.VolumeID (Move.Spec move)))
      (Errorf "prepared destination group or serving inventory changed");;
    '(_, _, physicalPending, _) ← destinationCapacityForPool move pool;
    stats ← wrapf "inspect prepared destination filesystem: %w" (perform (StatFSForPool pool));
    let previous := Move.Status move in
    let available := Filesystem.AvailableBytes stats in
    if (available <? physicalPending)%Z || (available - physicalPending <? MoveStatus.SourceBytes previous)%Z then
      set_status (previous <| MoveStatus.CapacityReason := "DestinationFilesystemSpace" |>);;
      persistMoveStatus previous
    else
      planned ← io_lift (prepareMoveCopyIdentitiesForPool move pool);
      set_current (approved planned);;
      got ← attempt (persistMoveStatus previous);
      match got with
      | Ok _ => mret tt
      | Err err => io_fail (Wrapf [errCapacityApprovalPersistence; err] "")
      end).

Definition ensureCapacity (observed : observation) : io Run unit :=
  move ← current;
  io_reject_if ((observation.DestinationNode observed == "") || negb (Reconciler.CapacityProbe r) || negb (Reconciler.PoolLocks r))
    (Errorf "destination capacity admission is not configured");;
  io_reject_if (is_nil (MoveStatus.Preparation (Move.Status move)))
    (Errorf "execution approval requires its prepared destination reservation");;
  convertPreparation.

(** ** Copy, promotion and owner commit (actions.go) *)

Definition ensureCopy (observed : observation) : io Run unit :=
  move ← current;
  let previous := Move.Status move in
  match observation.Replacement observed with
  | None => io_fail (Errorf "scheduled destination and held replacement Pod are required")
  | Some replacement =>
      io_reject_if ((observation.DestinationNode observed == "") || negb (hasPlacementHold replacement))
        (Errorf "scheduled destination and held replacement Pod are required");;
      io_reject_if (negb (MoveStatus.CapacityApproved previous) || (MoveStatus.SourceBytes previous <=? 0)%Z)
        (Errorf "destination capacity is not approved");;
      io_reject_if (observation.DestinationNode observed != MoveStatus.DestinationNode previous)
        (Errorf "observed destination differs from the approved plan");;
      io_lift (validatePreparedStage move);;
      set_status (previous <| MoveStatus.ReplacementName := ObjectMeta.Name (Pod.Meta replacement) |>
                           <| MoveStatus.ReplacementUID := ObjectMeta.UID (Pod.Meta replacement) |>);;
      persistMoveStatus previous;;
      move ← current;
      wrapf "pin held replacement Pod: %w" (pinReplacement move);;
      ensureCopyResources r move (observation.Names observed)
  end.

Definition ensurePromotion (observed : observation) : io Run unit :=
  previous ← status;
  io_reject_if ((MoveStatus.DestinationNode previous == "") || (observation.DestinationNode observed != MoveStatus.DestinationNode previous))
    (Errorf "observed destination differs from the approved plan");;
  set_status (previous <| MoveStatus.PromotionJobName := resourceNames.PromotionJob (observation.Names observed) |>);;
  io_reject_if (is_nil (MoveStatus.IncomingCopy previous) || is_nil (MoveStatus.DestinationCopy previous) ||
                (MoveStatus.PromotionOperationID previous == "")) (Errorf "promotion identity is missing");;
  persistMoveStatus previous;;
  move ← current;
  ensurePromotionJob r move (observation.Names observed).

Definition confirmCommitConflict (move : Move) (destination : string) (destinationCopy : CopyIdentity) (conflict : error) : io Run unit :=
  found ← perform (GetVolume (MoveSpec.VolumeID (Move.Spec move)));
  io_reject_if ((State.Phase found != VolumeState.PhaseReady) || (State.OwnerNode found != destination) ||
                (State.ActiveMove found != Move.Name move) || (State.CurrentCopy found != Some destinationCopy)) conflict.

Definition commitOwner (observed : observation) : io Run unit :=
  move ← current;
  let destination := MoveStatus.DestinationNode (Move.Status move) in
  io_reject_if (destination == "") (Errorf "destination node is empty");;
  if Fsm.OwnerCommitted (observation.FSM observed) then io_lift (confirmCommittedCopy move observed)
  else
    io_reject_if (negb (Reconciler.PoolLocks r)) (Errorf "Pool capacity locker is required for owner handoff");;
    destinationPoolUID ← io_lift (ownerCommitPoolUID move (observation.Volume observed) destination);
    requireScheduledPlacement r move;;
    destinationCopy ← io_lift (deref (MoveStatus.DestinationCopy (Move.Status move)));
    locking destinationPoolUID (
      got ← attempt (perform (CompareAndSetState (MoveSpec.VolumeID (Move.Spec move)) VolumeState.PhaseMoving (Move.Name move)
                                (MoveSpec.SourceNode (Move.Spec move))
                                (committedState move (observation.Volume observed) destination destinationCopy)));
      match got with
      | Ok _ => mret tt
      | Err err => if negb (error_is err ErrStateConflict) then io_fail err
                   else confirmCommitConflict move destination destinationCopy err
      end).

(** ** Release, completion and blocking (actions.go) *)

Definition validateReplacementRelease (move : Move) (pod : Pod) : io Run unit :=
  state ← perform (GetVolume (MoveSpec.VolumeID (Move.Spec move)));
  io_reject_if (negb (hasCommittedDestinationAuthority move state false))
    (Errorf "placement release requires the exact committed destination authority");;
  claim ← recordedWorkloadClaim move;
  let meta := PersistentVolumeClaim.Meta claim in
  io_reject_if ((ObjectMeta.Namespace (Pod.Meta pod) != ObjectMeta.Namespace meta) || negb (size (pvcNames (Pod.Spec pod)) =? 1)%nat ||
                negb (podUsesClaim pod (ObjectMeta.Name meta)))
    (Errorf "replacement Pod no longer uses the recorded claim exclusively");;
  if ObjectMeta.UID (Pod.Meta pod) == MoveStatus.ReplacementUID (Move.Status move) then mret tt
  else
    io_reject_if (negb (ownerPlacementCandidate pod)) (Errorf "recreated replacement Pod is not managed and safely held");;
    found ← wrapf "observe recreated replacement controller: %w" (consumerTemplate pod);
    match found with
    | inl _ => mret tt
    | inr reason => io_fail (Errorf "recreated replacement controller is unavailable: %s")
    end.

(** One attempt of [releasePlacement]. *)
Definition release_held (move : Move) (namespace name uid : string) : io Run unit :=
  let destination := MoveStatus.DestinationNode (Move.Status move) in
  found ← optional (perform (GetPod namespace name));
  match found with
  | None => mret tt
  | Some pod =>
      io_reject_if (ObjectMeta.UID (Pod.Meta pod) != uid) (Errorf "replacement Pod identity changed before placement release");;
      validateReplacementRelease move pod;;
      let selected := entry (PodSpec.NodeSelector (Pod.Spec pod)) LabelHostname in
      io_reject_if ((selected != "") && (selected != destination))
        (Errorf "replacement Pod requires node %q, not committed destination %q");;
      if negb (hasPlacementHold pod) then
        io_reject_if (negb ((selected == destination) && (entry (ObjectMeta.Annotations (Pod.Meta pod)) placementAnnotationKey == "owner")))
          (Errorf "replacement Pod no longer has the placement hold")
      else
        io_reject_if (negb (is_nil (ObjectMeta.DeletionTimestamp (Pod.Meta pod))) || (PodSpec.NodeName (Pod.Spec pod) != ""))
          (Errorf "replacement Pod is not safely held before scheduling");;
        perform (UpdatePod (released pod destination));;
        mret tt
  end.

Definition releasePlacement (observed : observation) : io Run unit :=
  match observation.Replacement observed with
  | None => mret tt
  | Some replacement =>
      let meta := Pod.Meta replacement in
      move ← current;
      wrapf "release replacement Pod placement hold: %w"
        (RetryOnConflict (release_held move (ObjectMeta.Namespace meta) (ObjectMeta.Name meta) (ObjectMeta.UID meta)));;
      s ← status;
      set_status (s <| MoveStatus.ReplacementName := ObjectMeta.Name meta |> <| MoveStatus.ReplacementUID := ObjectMeta.UID meta |>)
  end.

Definition markSucceeded (observed : observation) : io Run unit :=
  move ← current;
  let volume := observation.Volume observed in
  '(complete, failed) ← cleanupState r move;
  io_reject_if (negb complete || failed) (Errorf "completion requires settled cleanup receipt");;
  io_reject_if (negb (completionAllowed move volume (observation.VolumeMissing observed)))
    (Errorf "completion requires durable cleanup evidence and matching destination authority");;
  deleteTransferResources r move (observation.Names observed);;
  if observation.VolumeMissing observed || (State.ActiveMove volume == "") then mret tt
  else perform (CompareAndSetState (MoveSpec.VolumeID (Move.Spec move)) VolumeState.PhaseReady (Move.Name move) (State.OwnerNode volume)
                  (volume <| State.ActiveMove := "" |>)).

Definition markBlocked (observed : observation) : io Run unit :=
  s ← status;
  set_status (s <| MoveStatus.Message := "mobility stopped without automatic rollback" |>);;
  move ← current;
  let volume := observation.Volume observed in
  let own := State.ActiveMove volume == Move.Name move in
  if (State.Phase volume == VolumeState.PhaseBlocked) && own then mret tt
  else if (State.Phase volume == VolumeState.PhaseReady) && (State.ActiveMove volume == "") && (MoveStatus.Phase (Move.Status move) == Fsm.PhasePending)
  then mret tt
  else
    io_reject_if (((State.Phase volume != VolumeState.PhaseReady) || negb own) && ((State.Phase volume != VolumeState.PhaseMoving) || negb own))
      (Errorf "cannot block volume in phase %q with active move %q");;
    got ← attempt (perform (CompareAndSetState (MoveSpec.VolumeID (Move.Spec move)) (State.Phase volume) (State.ActiveMove volume)
                              (State.OwnerNode volume)
                              (volume <| State.Phase := VolumeState.PhaseBlocked |> <| State.ActiveMove := Move.Name move |>)));
    match got with
    | Ok _ => mret tt
    | Err err =>
        if negb (error_is err ErrStateConflict) then io_fail err
        else
          found ← perform (GetVolume (MoveSpec.VolumeID (Move.Spec move)));
          io_reject_if (negb ((State.Phase found == VolumeState.PhaseBlocked) && (State.ActiveMove found == Move.Name move))) err
    end.

(** ** Source cleanup (cleanup.go) *)

Definition acknowledgeCleanup (move : Move) : io Run unit :=
  '(complete, failed) ← cleanupState r move;
  io_reject_if (negb complete || failed) (Errorf "cleanup success is not confirmed").

Definition observeTerminalExecutor (journal : Cleanup) : io Run (Cleanup * bool) :=
  if Status.Phase (Cleanup.Status journal) == CleanupJournal.PhaseCompleted then
    ready ← observeCompletedCleanup r journal;
    mret (journal, ready)
  else if negb (cleanupJobNeedsSettlement journal) then mret (journal, true)
  else
    io_reject_if (negb (Reconciler.CleanupOperator r)) (Errorf "cleanup executor settlement observer is not configured");;
    perform (AdvanceReclaim journal).

Definition driveCleanupAbsence (journal : Cleanup) : io Run unit :=
  '(next, complete) ← perform (ReconcileAbsence journal);
  if complete : bool then mret tt
  else if Status.Phase (Cleanup.Status next) == CleanupJournal.PhaseConfirmingAbsence
  then perform (ReconcileAbsence next);; mret tt
  else mret tt.

Definition ensureCleanupSpec (move : Move) (spec : CleanupJournal.Spec) : io Run unit :=
  io_reject_if (negb (cleanupContractComplete r move spec)) (Errorf "move cleanup contract is incomplete");;
  request ← perform (EnsureJournal spec);
  let phase := Status.Phase (Cleanup.Status request) in
  if phase == CleanupJournal.PhaseCompleted then observeTerminalExecutor request;; mret tt
  else
    request ←
      (if cleanupJobNeedsSettlement request ||
          ((phase != CleanupJournal.PhaseVerifying) && (phase != CleanupJournal.PhaseConfirmingAbsence))
       then
         '(request, ready) ← perform (AdvanceReclaim request);
         io_reject_if (negb ready) errCleanupPending;;
         mret request
       else mret request);
    if Status.Phase (Cleanup.Status request) == CleanupJournal.PhaseCompleted then mret tt
    else
      io_reject_if (negb (cleanupReceiptComplete request spec)) (Errorf "cleanup receipt is incomplete");;
      driveCleanupAbsence request.

Definition ensureCleanupContract : io Run unit :=
  move ← current;
  io_reject_if (is_nil (MoveStatus.SourceCopy (Move.Status move)) || is_nil (MoveStatus.DestinationCopy (Move.Status move)) || (Move.UID move == ""))
    (Errorf "move cleanup contract is incomplete");;
  spec ← io_lift (moveCleanupSpec move);
  ensureCleanupSpec move spec.

(** It reports the contradiction; it never succeeds. *)
Definition reviewCleanupJournal {A : Type} (journal : Cleanup) (reason message : string) : io Run A :=
  wrapf "mark cleanup for review after %s: %w"
    (perform (UpdateJournal journal
       ((Cleanup.Status journal) <| Status.Phase := CleanupJournal.PhaseNeedsReview |> <| Status.Reason := reason |>
                                 <| Status.Message := message |> <| Status.LastTransitionTime := "" |>)));;
  io_fail (needsRecoveryCleanupReview (reason +:+ ": " +:+ message)).

Definition settleTerminalCleanup (move : Move) : io Run unit :=
  io_reject_if (negb (Reconciler.Cleanups r)) (Errorf "cleanup journal store is not configured");;
  if negb (contains (Move.Finalizers move) MoveProtectionFinalizer) then perform (AddMoveFinalizer (Move.Name move) (Move.UID move))
  else
    found ← journal_or_none (perform (GetJournal (moveCleanupAuthority move)));
    match found with
    | None => mret tt
    | Some journal =>
        let phase := Status.Phase (Cleanup.Status journal) in
        if negb (cleanupIntentMatches move (Cleanup.Spec journal))
        then reviewCleanupJournal journal "CleanupIntentMismatch" "terminal Move carries cleanup operation %q for reason %q"
        else if phase == CleanupJournal.PhaseCompleted then observeTerminalExecutor journal;; mret tt
        else if phase == CleanupJournal.PhaseNeedsReview then mret tt
        else if (phase != CleanupJournal.PhaseVerifying) && (phase != CleanupJournal.PhaseConfirmingAbsence)
        then reviewCleanupJournal journal "TerminalMoveCleanupIntentUnfinished"
               "terminal Move carries a cleanup intent still in phase %q with no purge receipt"
        else
          got ← attempt (observeTerminalExecutor journal);
          match got with
          | Err err => if error_is err ErrPoolNotFound then reviewCleanupJournal journal "CleanupPoolIdentityChanged" (Error err)
                       else io_fail err
          | Ok (observed, ready) =>
              if negb ready then mret tt
              else
                got ← attempt (driveCleanupAbsence observed);
                match got with
                | Ok _ => mret tt
                | Err err => if contradictedCleanup err then reviewCleanupJournal observed "CleanupPoolIdentityChanged" (Error err)
                             else io_fail err
                end
          end
    end.

Definition observeTerminalCleanupHistory (move : Move) : io Run unit :=
  if negb (Reconciler.Cleanups r)
  then io_reject_if (MoveStatus.CleanupPhase (Move.Status move) != "") (Errorf "cleanup history store is not configured")
  else
    found ← journal_or_none (perform (GetHistory (moveCleanupAuthority move)));
    match found with
    | None => mret tt
    | Some journal =>
        io_reject_if (negb (cleanupIntentMatches move (Cleanup.Spec journal)))
          (Errorf "retain terminal history with mismatched cleanup intent");;
        if Status.Phase (Cleanup.Status journal) == CleanupJournal.PhaseCompleted then observeCompletedCleanup r journal;; mret tt
        else mret tt
    end.

(** ** The dispatch (actions.go) *)

Definition execute (observed : observation) (decision : Fsm.Decision) : io Run unit :=
  move ← current;
  let action := Fsm.d_Action decision in
  if action == Fsm.ActionWait then mret tt
  else if action == Fsm.ActionEnsurePlacement then ensurePlacement r move observed
  else if action == Fsm.ActionEnsureCapacity then ensureCapacity observed
  else if action == Fsm.ActionDeletePlacement then deletePlacement r move
  else if action == Fsm.ActionReleasePlacement then releasePlacement observed
  else if action == Fsm.ActionEnsureCopy then ensureCopy observed
  else if action == Fsm.ActionEnsurePromotion then ensurePromotion observed
  else if action == Fsm.ActionCommitOwner then commitOwner observed
  else if action == Fsm.ActionEnsureCleanup then ensureCleanupContract
  else if action == Fsm.ActionConfirmCleanup then acknowledgeCleanup move
  else if action == Fsm.ActionMarkSucceeded then markSucceeded observed
  else if action == Fsm.ActionMarkBlocked then markBlocked observed
  else io_fail (Errorf "unsupported mobility action %q").
End actions.
