(* ===== verification/MobilityRecovery.v ===== *)
(** * The mobility controller: recovery and settlement

    src/mobility/controller: recovery.go, recovery_resources.go, recovery_cleanup.go,
    recovery_scan.go and workload_settlement.go.  A blocked Move that an operator asks to
    resume, or whose original claim is gone, is quiesced; its owner copy is verified by a
    Job; the artifact of the side that lost is retired under a fresh scan of its Pool;
    then the owner resumes and the claim on the Volume is released. *)

From S2P Require Import Prelude RecordUpdate Bytes VolumeIdentity Fsm Apimachinery Registration GoTime ApiServer VolumeState.
From S2P Require Import PoolApi VolumeRegistry MoveApi Capacity CleanupJournal History Kube Mobility MobilityRules MobilityPods MobilityObserve MobilityLifecycle MobilityTransfer MobilityActions.

(** ** Rules *)

(** The first condition that is true and final decides: [None] is a failure. *)
Fixpoint verdict (conditions : list (string * string)) : option bool :=
  match conditions with
  | [] => Some false
  | (type, status) :: conditions =>
      if status != "True" then verdict conditions
      else if type == "Failed" then None
      else if type == "Complete" then Some true
      else verdict conditions
  end.

Definition applySettlementDecision (before : Fsm.State) (decision : Fsm.Decision) (s : MoveStatus) : MoveStatus :=
  let s := if Fsm.st_RecoveryPhase before != Fsm.st_RecoveryPhase (Fsm.d_Next decision)
           then s <| MoveStatus.RecoveryReason := "" |> <| MoveStatus.RecoveryMessage := "" |> else s in
  let s := if Fsm.d_Action decision == Fsm.ActionRequestSettlement then s <| MoveStatus.Reason := Fsm.d_Reason decision |> else s in
  s <| MoveStatus.Message :=
         if MoveStatus.RecoveryPhase s == Fsm.RecoveryRecovered
         then "original claim ended; Move settled; authoritative copy and Volume capacity retained"
         else "automatic settlement after original claim retirement; waiting for owner verification, cleanup and temporary hold release" |>.

(** [settleSourceRollback]'s first guard: the source is the exact blocked owner. *)
Definition precommitSource (move : Move) (state : State) : bool :=
  (State.Phase state == VolumeState.PhaseBlocked) && (State.ActiveMove state == Move.Name move) &&
  valid (State.CurrentCopy state) (fun copy =>
    (Role copy == RoleServing) && (NodeName copy == MoveSpec.SourceNode (Move.Spec move)) &&
    (VolumeID copy == MoveSpec.VolumeID (Move.Spec move)) && (VolumeUID copy == State.UID state)).

(** [settleDestinationCleanup]'s guard: the destination is the exact published owner. *)
Definition postcommitPublished (move : Move) (state : State) : bool :=
  (State.Phase state == VolumeState.PhaseReady) && (State.ActiveMove state == Move.Name move) &&
  some_and (MoveStatus.DestinationCopy (Move.Status move)) (fun copy =>
    (State.CurrentCopy state == Some copy) && (State.UID state == VolumeUID copy)) &&
  contains (State.PublishedNodes state) (MoveStatus.DestinationNode (Move.Status move)) &&
  negb (contains (State.PublishedNodes state) (MoveSpec.SourceNode (Move.Spec move))).

Section recovery.
Context {AM : Apimachinery} {EN : Environment} (r : Reconciler).

(** ** Quiescing (recovery_resources.go) *)

Definition removeJob (name label moveUID : string) : io Run bool :=
  found ← optional (perform (GetJob (Reconciler.Namespace r) name));
  match found with
  | None => mret true
  | Some job =>
      let meta := Job.Meta job in
      io_reject_if ((entry (ObjectMeta.Labels meta) "shiftpv.io/move" != label) ||
                    ((moveUID != "") && negb (moveOwned (ObjectMeta.OwnerReferences meta) moveUID)))
        (Errorf "refusing to delete unrelated Job %q");;
      (if is_nil (ObjectMeta.DeletionTimestamp meta) then
         got ← attempt (perform (DeleteJob (Reconciler.Namespace r) name (ObjectMeta.UID meta)));
         match got with
         | Ok _ => mret tt
         | Err err => if IsNotFound err then mret tt else io_fail err
         end
       else mret tt);;
      mret false
  end.

(** The loop over names: whether every Job is gone. *)
Fixpoint remove_jobs (names : list string) (label moveUID : string) (quiet : bool) : io Run bool :=
  match names with
  | [] => mret quiet
  | name :: names =>
      gone ← removeJob name label moveUID;
      remove_jobs names label moveUID (quiet && gone)
  end.

(** The loop over the helper Pods: whether there were none. *)
Fixpoint remove_helpers (move : Move) (names : resourceNames) (pods : list Pod) (quiet : bool) : io Run bool :=
  match pods with
  | [] => mret quiet
  | pod :: pods =>
      let meta := Pod.Meta pod in
      let node := PodSpec.NodeName (Pod.Spec pod) in
      let destination := MoveStatus.DestinationNode (Move.Status move) in
      io_reject_if (negb (moveOwned (ObjectMeta.OwnerReferences meta) (Move.UID move)) ||
                    (entry (ObjectMeta.Labels meta) "shiftpv.io/move-uid" != Move.UID move))
        (Errorf "helper Pod %q is not owned by ShiftPVMove UID %q");;
      let placement := (ObjectMeta.Name meta == resourceNames.PlacementPod names) &&
                       (entry (ObjectMeta.Labels meta) "shiftpv.io/role" == placementRole) in
      (if placement then io_lift (validatePlacementIdentity pod move names) else mret tt);;
      io_reject_if (negb placement && (node != MoveSpec.SourceNode (Move.Spec move)) && ((destination == "") || (node != destination)))
        (Errorf "helper Pod %q has unrecorded node %q");;
      (if is_nil (ObjectMeta.DeletionTimestamp meta) then
         got ← attempt (perform (DeletePod (Reconciler.Namespace r) (ObjectMeta.Name meta) (ObjectMeta.UID meta)));
         match got with
         | Ok _ => mret tt
         | Err err => if IsNotFound err then mret tt else io_fail err
         end
       else mret tt);;
      remove_helpers move names pods false
  end.

Definition quiesceMove (move : Move) : io Run bool :=
  let names := namesFor (Move.Name move) in
  quiet ← remove_jobs [resourceNames.CopyJob names; resourceNames.PromotionJob names] (resourceNames.Base names) (Move.UID move) true;
  pods ← perform (ListPods (Reconciler.Namespace r) ("shiftpv.io/move=" +:+ resourceNames.Base names));
  quiet ← remove_helpers move names pods quiet;
  if negb quiet then mret false
  else deleteTransferResources r move names;; mret true.

(** ** Owner verification (recovery_resources.go) *)

Definition verifyOwnerJob (move : Move) (names : resourceNames) (name node : string) : io Run Job :=
  state ← perform (GetVolume (MoveSpec.VolumeID (Move.Spec move)));
  match State.CurrentCopy state with
  | None => io_fail (Errorf "recovery owner copy identity is missing")
  | Some copy =>
      io_reject_if ((NodeName copy != node) || (Role copy != RoleServing)) (Errorf "recovery owner copy identity is missing");;
      job ← operationJob r name copy names [] [] [];
      let read_only mounts := match mounts with m :: rest => m <| VolumeMount.ReadOnly := true |> :: rest | [] => [] end in
      let edit c := c <| Container.Command := ["/shiftpv-volume-helper"] |>
                      <| Container.Args := helperArgs r "verify-owner" move ("verify-" +:+ Move.UID move) |>
                      <| Container.Env := podNameEnvironment |>
                      <| Container.VolumeMounts := read_only (Container.VolumeMounts c) |> in
      mret (ownedJob move None edit job <| Job.TTLSecondsAfterFinished := None |> <| Job.BackoffLimit := Some 0%Z |>)
  end.

Definition recoveryJob (move : Move) : io Run bool :=
  let names := recoveryNames move in
  let node := MoveStatus.RecoveryOwner (Move.Status move) in
  let name := resourceNames.Base names +:+ "-verify" in
  found ← optional (perform (GetJob (Reconciler.Namespace r) name));
  match found with
  | None =>
      job ← verifyOwnerJob move names name node;
      got ← attempt (perform (CreateJob job));
      match got with
      | Ok _ => mret false
      | Err err => if IsAlreadyExists err then mret false else io_fail err
      end
  | Some job =>
      let meta := Job.Meta job in
      io_reject_if ((entry (ObjectMeta.Labels meta) "shiftpv.io/move" != resourceNames.Base names) ||
                    negb (moveOwned (ObjectMeta.OwnerReferences meta) (Move.UID move)) ||
                    (PodSpec.NodeName (PodTemplateSpec.Spec (Job.Template job)) != node) ||
                    negb (is_nil (ObjectMeta.DeletionTimestamp meta)))
        (Errorf "recovery Job %q identity or node mismatch");;
      expected ← verifyOwnerJob move names name node;
      io_reject_if (negb (sameOperationJob job expected)) (Errorf "recovery Job %q execution identity changed");;
      match verdict (Job.Conditions job) with
      | None => io_fail (Errorf "recovery Job %q failed; inspect logs and storage before retry")
      | Some complete => mret complete
      end
  end.

Definition removeRecoveryJobs (move : Move) : io Run bool :=
  let base := resourceNames.Base (recoveryNames move) in
  quiet ← remove_jobs [base +:+ "-verify"; base +:+ "-retire"] base (Move.UID move) true;
  pods ← perform (ListPods (Reconciler.Namespace r) ("shiftpv.io/move=" +:+ base));
  mret (quiet && (length pods =? 0)%nat).

(** ** Resuming and completing (recovery.go) *)

(** The loop of [recoverPlacement]. *)
Fixpoint recover_pods (move : Move) (claimName : string) (pods : list Pod) (placed : bool) : io Run bool :=
  match pods with
  | [] => mret placed
  | pod :: pods =>
      let meta := Pod.Meta pod in
      if terminalPod pod || negb (podUsesClaim pod claimName) then recover_pods move claimName pods placed
      else if negb (is_nil (ObjectMeta.DeletionTimestamp meta)) then mret false
      else if (PodSpec.NodeName (Pod.Spec pod) == MoveStatus.RecoveryOwner (Move.Status move)) && negb (hasPlacementHold pod)
      then recover_pods move claimName pods true
      else
        io_reject_if (is_nil (GetControllerOf meta)) (Errorf "bare consumer %q must be handled by its operator");;
        got ← attempt (perform (EvictPod (ObjectMeta.Namespace meta) (ObjectMeta.Name meta) (ObjectMeta.UID meta)));
        match got with
        | Ok _ => mret false
        | Err err => if IsNotFound err then mret false else io_fail err
        end
  end.

Definition recoverPlacement (move : Move) (claim : option PersistentVolumeClaim) : io Run bool :=
  claim ← io_lift (deref claim);
  let meta := PersistentVolumeClaim.Meta claim in
  pods ← perform (ListPods (ObjectMeta.Namespace meta) "");
  recover_pods move (ObjectMeta.Name meta) pods false.

Definition resumeRecovery (move : Move) (state : State) (claim : option PersistentVolumeClaim) : io Run bool :=
  if State.Phase state == VolumeState.PhaseBlocked then
    perform (CompareAndSetState (MoveSpec.VolumeID (Move.Spec move)) VolumeState.PhaseBlocked (Move.Name move) (State.OwnerNode state)
               (state <| State.Phase := VolumeState.PhaseReady |>));;
    mret false
  else
    placed ← recoverPlacement move claim;
    mret (placed && contains (State.PublishedNodes state) (State.OwnerNode state)).

Definition completeRecovery (move : Move) (state : State) (volumeMissing : bool) : io Run bool :=
  let settlement := MoveStatus.SettlementRequested (Move.Status move) in
  (if settlement then settlementArtifactsClosed r move else mret tt);;
  done ← removeRecoveryJobs move;
  if negb done then mret false
  else if settlement && (volumeMissing || (State.ActiveMove state == "")) then mret true
  else
    let next := state <| State.ActiveMove := "" |> in
    perform (CompareAndSetSourceState (MoveSpec.VolumeID (Move.Spec move)) state
               (if settlement then next <| State.Phase := VolumeState.PhaseReady |> else next));;
    mret true.

(** ** The artifact of the side that lost (recovery_scan.go, recovery_cleanup.go) *)

Definition openRollbackScan (target : CopyIdentity) : io Run bool :=
  generation ← perform (RequestPoolScan target);
  io_reject_if (generation <=? 0)%Z (Errorf "rollback scan request returned no generation");;
  previous ← status;
  set_status (previous <| MoveStatus.RollbackRequiredGeneration := generation |>);;
  persistMoveStatus r previous;;
  mret false.

(** [validRollbackIntent], reported for review. *)
Definition rollback_intent (move : Move) : io Run unit :=
  io_lift match validRollbackIntent move with
          | Ok _ => Ok tt
          | Err _ => Err (needsRecoveryCleanupReview "destination cleanup intent is incomplete: %v")
          end.

Definition ensureRollbackScan : io Run bool :=
  move ← current;
  rollback_intent move;;
  if (0 <? MoveStatus.RollbackRequiredGeneration (Move.Status move))%Z then mret true
  else
    pools ← perform Pools;
    io_lift (rollbackDestinationPool move pools);;
    incoming ← io_lift (deref (MoveStatus.IncomingCopy (Move.Status move)));
    openRollbackScan incoming.

Definition rollbackInventoryFresh (destination : Pool) (requiredGeneration : Z) : io Run unit :=
  io_reject_if ((requiredGeneration <=? 0)%Z || (Pool.Generation destination <? requiredGeneration)%Z ||
                negb (PoolStatus.ObservedGeneration (Pool.Status destination) =? Pool.Generation destination)%Z)
    (Errorf "waiting for destination inventory at rollback scan generation %d");;
  at_ ← now;
  io_reject_if (negb (fst (CleanupReadyAt destination at_ (staleAfter r)))) (Errorf "destination Pool is not cleanup-ready: %s");;
  io_reject_if (negb (some_and (PoolStatus.Inventory (Pool.Status destination)) (fun inventory =>
                  PoolInventory.Valid inventory && negb (PoolInventory.Truncated inventory) && (PoolInventory.Message inventory == "") &&
                  negb (stale at_ (staleAfter r) (PoolInventory.ObservedAt inventory)))))
    (Errorf "waiting for a fresh complete destination inventory at the rollback scan fence").

Definition rollbackInventoryPool (move : Move) : io Run Pool :=
  rollback_intent move;;
  pools ← perform Pools;
  destination ← io_lift (rollbackDestinationPool move pools);
  rollbackInventoryFresh destination (MoveStatus.RollbackRequiredGeneration (Move.Status move));;
  mret destination.

Definition rollbackArtifact (move : Move) : io Run (option CopyIdentity) :=
  destination ← rollbackInventoryPool move;
  io_lift (rollbackPresentArtifact move destination).

Definition ensureRecoveryCleanup (move : Move) (spec : CleanupJournal.Spec) : io Run bool :=
  io_reject_if (negb (Reconciler.Cleanups r)) (Errorf "recovery cleanup store is not configured");;
  outcome ← attempt (ensureCleanupSpec r move spec);
  cancelled ← ctx_err;
  match cancelled with
  | Some cause => io_fail match outcome with Ok _ => Wrapf [cause] "" | Err err => Wrapf [err; cause] "" end
  | None =>
      if match outcome with Err err => error_is err errCleanupPending | Ok _ => false end then mret false
      else
        got ← attempt (perform (GetJournal (Spec.Authority spec)));
        let review := match got with
                      | Ok journal => Status.Phase (Cleanup.Status journal) == CleanupJournal.PhaseNeedsReview
                      | Err _ => false
                      end in
        io_reject_if review (needsRecoveryCleanupReview "cleanup journal entered NeedsReview: %s: %s");;
        match outcome with
        | Err err =>
            if error_is err CleanupJournal.ErrConflict
            then io_fail (needsRecoveryCleanupReview "cleanup journal conflicts with the approved recovery target: %v")
            else io_fail err
        | Ok _ =>
            journal ← io_lift got;
            mret (Status.Phase (Cleanup.Status journal) == CleanupJournal.PhaseCompleted)
        end
  end.

Definition settledRollbackJournal (move : Move) : io Run bool :=
  io_reject_if (negb (Reconciler.Cleanups r)) (Errorf "recovery cleanup store is not configured");;
  found ← journal_or_none (perform (GetJournal (moveCleanupAuthority move)));
  match found with
  | None => mret true
  | Some journal =>
      if (Spec.Reason (Cleanup.Spec journal) != "MoveRollback") || negb (cleanupIntentMatches move (Cleanup.Spec journal))
      then reviewCleanupJournal journal "CleanupIntentMismatch" "rollback settlement found cleanup operation %q for reason %q"
      else if Status.Phase (Cleanup.Status journal) == CleanupJournal.PhaseCompleted then observeCompletedCleanup r journal
      else
        got ← attempt (ensureRecoveryCleanup move (Cleanup.Spec journal));
        match got with
        | Ok complete => mret complete
        | Err err => if contradictedCleanup err && negb (error_is err errRecoveryCleanupNeedsReview)
                     then reviewCleanupJournal journal "CleanupPoolIdentityChanged" (Error err)
                     else io_fail err
        end
  end.

Definition settleSourceRollback (state : State) : io Run bool :=
  move ← current;
  io_reject_if (negb (precommitSource move state)) (needsRecoveryCleanupReview "precommit source authority is incomplete");;
  if noDestinationEffectIntent move then
    io_reject_if (MoveStatus.CapacityApproved (Move.Status move))
      (needsRecoveryCleanupReview "execution approval has no recorded destination plan");;
    mret true
  else
    io_reject_if (is_nil (MoveStatus.SourceCopy (Move.Status move)) || (State.CurrentCopy state != MoveStatus.SourceCopy (Move.Status move)))
      (needsRecoveryCleanupReview "recorded source identity differs from current authority");;
    ready ← ensureRollbackScan;
    if negb ready then mret false
    else
      move ← current;
      target ← rollbackArtifact move;
      match target with
      | None => settledRollbackJournal move
      | Some target => ensureRecoveryCleanup move (rollbackSpec move target)
      end.

Definition settleUnpublishedDestination (state : State) : io Run bool :=
  ready ← ensureRollbackScan;
  if negb ready then mret false
  else
    move ← current;
    io_reject_if (negb (MoveRetiresUnpublishedSource move state))
      (Errorf "waiting for exact fenced destination authority without publication");;
    copy ← io_lift (deref (MoveStatus.DestinationCopy (Move.Status move)));
    pool ← perform (InventoryPoolForIdentity (PoolName copy) (PoolUID copy) (NodeName copy));
    io_reject_if (negb (PoolHasUnpublishedCopy pool (Some copy) (MoveStatus.RollbackRequiredGeneration (Move.Status move))))
      (Errorf "waiting for post-retirement inventory of the exact unpublished destination");;
    spec ← io_lift (moveCleanupSpec move);
    ensureRecoveryCleanup move spec.

Definition settleDestinationCleanup (state : State) : io Run bool :=
  move ← current;
  if MoveStatus.SettlementRequested (Move.Status move) then settleUnpublishedDestination state
  else
    io_reject_if (negb (postcommitPublished move state)) (Errorf "waiting for exact destination publication before source cleanup");;
    copy ← io_lift (deref (MoveStatus.DestinationCopy (Move.Status move)));
    pool ← wrapf "waiting for exact destination scanner publication before source cleanup: %w"
             (perform (InventoryPoolForIdentity (PoolName copy) (PoolUID copy) (NodeName copy)));
    io_reject_if (negb (PoolHasPublishedCopy pool (Some copy)))
      (Errorf "waiting for exact destination scanner publication before source cleanup");;
    match moveCleanupSpec move with
    | Err _ => io_fail (needsRecoveryCleanupReview "postcommit cleanup identity is incomplete: %v")
    | Ok spec => ensureRecoveryCleanup move spec
    end.

Definition settleRecoveryArtifacts (state : State) : io Run bool :=
  move ← current;
  let status := Move.Status move in
  if MoveStatus.CapacityReason status == recoveryCapacitySettled then
    io_reject_if (MoveStatus.CapacityApproved status)
      (needsRecoveryCleanupReview "capacity hold is marked settled but remains approved");;
    mret true
  else
    settled ← (if State.OwnerNode state == MoveSpec.SourceNode (Move.Spec move) then settleSourceRollback state
               else if State.OwnerNode state == MoveStatus.DestinationNode status then settleDestinationCleanup state
               else io_fail (needsRecoveryCleanupReview "authoritative owner is neither the source nor recorded destination"));
    if negb settled then mret false
    else
      previous ← Mobility.status;
      set_status (previous <| MoveStatus.CapacityApproved := false |> <| MoveStatus.CapacityReason := recoveryCapacitySettled |>);;
      persistMoveStatus r previous;;
      mret false.

(** ** The dispatch (recovery.go) *)

Definition executeRecovery (observed : observation) (action : Fsm.Action) : io Run bool :=
  move ← current;
  let volume := observation.Volume observed in
  if action == Fsm.ActionBeginRecovery then
    set_status ((Move.Status move) <| MoveStatus.RecoveryOwner := State.OwnerNode volume |>);;
    mret true
  else if action == Fsm.ActionQuiesceRecovery then quiesceMove move
  else if action == Fsm.ActionVerifyRecovery then recoveryJob move
  else if action == Fsm.ActionRetireRecovery then settleRecoveryArtifacts volume
  else if action == Fsm.ActionResumeRecovery then resumeRecovery move volume (observation.Claim observed)
  else if action == Fsm.ActionCompleteRecovery then completeRecovery move volume (observation.VolumeMissing observed)
  else io_fail (Errorf "unsupported recovery action %q").

(** ** Settlement of a retired workload (workload_settlement.go) *)

Definition requestWorkloadSettlement (observed : observation) : io Run unit :=
  move ← current;
  let state := observation.Volume observed in
  io_reject_if (negb (Fsm.WorkloadRetired (observation.FSM observed))) (Errorf "workload settlement requires original claim retirement");;
  io_lift (workloadSettlementAuthority move state);;
  perform (CompareAndSetSourceState (MoveSpec.VolumeID (Move.Spec move)) state (state <| State.Phase := VolumeState.PhaseBlocked |>));;
  s ← status;
  set_status (s <| MoveStatus.SettlementRequested := true |> <| MoveStatus.RecoveryOwner := "" |> <| MoveStatus.RecoveryPhase := "" |>
                <| MoveStatus.RecoveryReason := "" |> <| MoveStatus.RecoveryMessage := "" |>).
End recovery.
