(* ===== verification/MobilityReconcile.v ===== *)
(** * The mobility controller: one pass over a Move

    src/mobility/controller: move.go observes the stage of a Move, asks the decision
    model (Fsm) for the next state, performs the action and persists the result;
    reconciler.go and history.go retire settled Moves; discovery.go opens a Move for a
    Volume whose node is cordoned; owner_placement.go releases a held Pod onto the owner
    of its Volume; workload_settlement.go has the maintenance entry point. *)

From S2P Require Import Prelude RecordUpdate Bytes VolumeIdentity Fsm Apimachinery Registration GoTime ApiServer VolumeState.
From S2P Require Import PoolApi VolumeRegistry MoveApi Capacity CleanupJournal History Kube Mobility MobilityRules MobilityPods MobilityObserve MobilityLifecycle MobilityTransfer MobilityActions MobilityRecovery.

(** ** Rules *)

(** [applyMoveDecision] on the Move it points to. *)
Definition applyMoveDecision (decision : Fsm.Decision) (move : Move) : Move :=
  let before := lifecycleState move in
  let next := Fsm.d_Next decision in
  let action := Fsm.d_Action decision in
  let s := (Move.Status move) <| MoveStatus.Phase := Fsm.st_Phase next |> <| MoveStatus.RecoveryPhase := Fsm.st_RecoveryPhase next |> in
  Move.with_Status move
    (if MoveStatus.SettlementRequested s then applySettlementDecision before decision s
     else if Fsm.st_RecoveryPhase before != Fsm.st_RecoveryPhase next
     then s <| MoveStatus.RecoveryReason := "" |> <| MoveStatus.RecoveryMessage := "" |>
            <| MoveStatus.Message := recoveryPhaseMessage (MoveStatus.RecoveryPhase s) (MoveStatus.RecoveryOwner s) |>
     else if (Fsm.st_Phase before == Fsm.PhaseBlocked) && (Fsm.st_Phase next == Fsm.PhaseBlocked) && recoveryRequested move &&
             (action != Fsm.ActionRequestSettlement)
     then s
     else if (Fsm.st_Phase before == Fsm.PhaseCanceling) || (Fsm.st_Phase before == Fsm.PhaseCancelled)
     then (if Fsm.st_Phase before != Fsm.st_Phase next
           then s <| MoveStatus.Message := mobilityMessage (Fsm.st_Phase next) (MoveStatus.Reason s) |> else s)
     else
       let s := if (action != Fsm.ActionReservePreparation) || (Fsm.d_Reason decision != "")
                then s <| MoveStatus.Reason := Fsm.d_Reason decision |> else s in
       s <| MoveStatus.Message := mobilityMessage (Fsm.st_Phase next) (MoveStatus.Reason s) |>).

Definition movesForVolume (moves : list Move) (volumeID : string) : list Move :=
  List.filter (fun move => MoveSpec.VolumeID (Move.Spec move) == volumeID) moves.

(** [activeMoveVolumes(moves, {volumeID: state})[volumeID]] *)
Definition activeMoveVolume (moves : list Move) (volumeID : string) (state : State) : bool :=
  existsb (fun move =>
    (MoveSpec.VolumeID (Move.Spec move) == volumeID) &&
    ((negb (legacyMoveProtocol move) && negb (supportedMoveProtocol move)) || negb (MoveCleanupSettled move) ||
     (State.ActiveMove state == Move.Name move))) moves.

Definition moveGenerateName (volumeID : string) : string := "move-" +:+ TrimPrefix volumeID "shiftpv-" +:+ "-".

Definition ErrRetiredMoveRejected : error := Errorf "Move is not eligible for retirement settlement".

(** The identities an owner placement observed. *)
Module ownerPlacementIdentity.
Record ownerPlacementIdentity := {
  claimName : string;
  claimUID : string;
  pvName : string;
  pvUID : string;
  nodeUID : string;
  copy : CopyIdentity
}.
#[export] Instance ownerPlacementIdentity_eq_dec : EqDecision ownerPlacementIdentity.
Proof. solve_decision. Defined.
End ownerPlacementIdentity.
Notation ownerPlacementIdentity := ownerPlacementIdentity.ownerPlacementIdentity.
#[export] Existing Instance ownerPlacementIdentity.ownerPlacementIdentity_eq_dec.

Section reconcile.
Context {AM : Apimachinery} {EN : Environment} (r : Reconciler).

(** ** Settled history (history.go, reconciler.go) *)

Definition settledMoveJournal (move : Move) (state : option State) : io Run (option Cleanup) :=
  journal ← wrapf "observe Move %s cleanup history: %w" (journal_or_none (perform (GetHistory (moveCleanupAuthority move))));
  wrapf "retain unsettled Move %s: %w" (io_lift (ValidateSettled move state journal));;
  mret journal.

(** The loop of [validateSettledMoves]; the journals are indexed by the Move's UID. *)
Fixpoint settled_journals (volumes : list (string * State)) (moves : list Move) (journals : gmap string Cleanup) :
    io Run (gmap string Cleanup) :=
  match moves with
  | [] => mret journals
  | move :: moves =>
      io_reject_if (existsb (fun '(_, state) => (State.ActiveMove state != "") && (State.ActiveMove state == Move.Name move)) volumes)
        (Errorf "retain Move %s still referenced by Volume %s");;
      journal ← settledMoveJournal move (index_volumes volumes !! MoveSpec.VolumeID (Move.Spec move));
      settled_journals volumes moves
        match journal with Some journal => <[Move.UID move := journal]> journals | None => journals end
  end.

Definition validateSettledMoves (moves : list Move) : io Run unit :=
  if (length moves =? 0)%nat then mret tt
  else
    io_reject_if (negb (Reconciler.Cleanups r) || negb (Reconciler.HistoryInspector r)) (Errorf "Move history observation is not configured");;
    volumes ← wrapf "observe Volume references before settling history: %w" (perform ListVolumes);
    journals ← settled_journals volumes moves ∅;
    perform (MovesSettled moves (map_to_list journals)).

Definition retireMoveHistory (move : Move) : io Run unit :=
  if contains (Move.Finalizers move) MoveProtectionFinalizer then perform (RemoveMoveFinalizer (Move.Name move) (Move.UID move))
  else if negb (length (Move.Finalizers move) =? 0)%nat then mret tt
  else
    transitionedAt ← wrapf "retain journal with invalid terminal transition time: %w"
                       (io_lift (Parse (MoveStatus.LastTransitionTime (Move.Status move))));
    at_ ← now;
    io_reject_if (at_ <? transitionedAt)%Z (Errorf "retain journal whose terminal transition time is in the future");;
    let retention := if (Reconciler.MoveJournalRetention r <=? 0)%Z then DefaultMoveJournalRetention else Reconciler.MoveJournalRetention r in
    if (at_ <? transitionedAt + retention)%Z then mret tt
    else
      found ← wrapf "confirm volume no longer references journal: %w" (optional (perform (GetVolume (MoveSpec.VolumeID (Move.Spec move)))));
      io_reject_if (some_and found (fun state => State.ActiveMove state == Move.Name move))
        (Errorf "retain journal still referenced by active volume");;
      perform (DeleteMove (Move.Name move) (Move.UID move)).

Definition reconcileTerminalMove (move : Move) : io Run unit :=
  observeTerminalCleanupHistory r move;;
  done ← finalizeSourceUsage r move;
  if negb done then mret tt else retireMoveHistory move.

(** ** The action of a decision (move.go) *)

Definition completed (c : io Run unit) : io Run bool := outcome ← attempt c; io_lift (actionComplete outcome).

(** An effect that is observed by the next pass. *)
Definition unfinished (c : io Run unit) : io Run bool := c;; mret false.

Definition executeLifecycle (observed : observation) (decision : Fsm.Decision) : io Run bool :=
  move ← current;
  let action := Fsm.d_Action decision in
  let next := Fsm.st_Phase (Fsm.d_Next decision) in
  let volume := observation.Volume observed in
  let volumeID := MoveSpec.VolumeID (Move.Spec move) in
  if action == Fsm.ActionRequestSettlement then completed (requestWorkloadSettlement observed)
  else if action == Fsm.ActionProtectMove then unfinished (perform (AddMoveFinalizer (Move.Name move) (Move.UID move)))
  else if action == Fsm.ActionInitializePreparation then completed (initializePreparation observed)
  else if action == Fsm.ActionClaimSource then unfinished (claimPreparationSource move volume)
  else if action == Fsm.ActionReservePreparation then completed (prepareDestination r observed (observation.Pools observed))
  else if action == Fsm.ActionStartDisruption then completed (startPreparedDisruption r observed)
  else if action == Fsm.ActionRestoreSource
  then unfinished (perform (CompareAndSetSourceState volumeID volume (volume <| State.Phase := VolumeState.PhaseReady |>)))
  else if action == Fsm.ActionReleasePreparation then
    set_status ((Move.Status move) <| MoveStatus.Preparation := None |> <| MoveStatus.CapacityReason := "PreparationCancelled" |>);;
    mret true
  else if action == Fsm.ActionReleaseSource
  then unfinished (perform (CompareAndSetSourceState volumeID volume (volume <| State.ActiveMove := "" |>)))
  else if (action == Fsm.ActionDeletePlacement) && ((next == Fsm.PhaseCanceling) || (next == Fsm.PhaseCancelled))
  then unfinished (deleteCancelledPlacement r move (observation.Placement observed))
  else if action == Fsm.ActionFinalizeHistory then
    if moveCleanupPending move then unfinished (settleTerminalCleanup r move)
    else
      io_reject_if ((MoveStatus.Phase (Move.Status move) != Fsm.PhaseCancelled) && negb (MoveCleanupSettled move))
        (Errorf "retain terminal move: cleanup and capacity are not settled");;
      unfinished (reconcileTerminalMove move)
  else if action == Fsm.ActionFinalizeSourceUsage then finalizeSourceUsage r move;; mret false
  else if contains [Fsm.ActionBeginRecovery; Fsm.ActionQuiesceRecovery; Fsm.ActionVerifyRecovery; Fsm.ActionRetireRecovery;
                    Fsm.ActionResumeRecovery; Fsm.ActionCompleteRecovery] action
  then executeRecovery r observed action
  else completed (execute r observed decision).

(** [advance] is the recursive call. *)
Definition requestPreparationCancellation (advance : observation -> io Run unit) (reason : string) : io Run unit :=
  move ← current;
  io_lift (cancellablePreparation move);;
  if (MoveStatus.Phase (Move.Status move) == Fsm.PhaseCanceling) || (MoveStatus.Phase (Move.Status move) == Fsm.PhaseCancelled) then mret tt
  else
    state ← perform (GetVolume (MoveSpec.VolumeID (Move.Spec move)));
    let observed := lifecycleFacts move (emptyObservation <| observation.Volume := state |>) in
    advance (observed <|. Fsm.PreparationChangedReason := reason |>).

Definition outOfFuel : error := Errorf "out of fuel".

(** What follows a failed action. *)
Definition action_failed (advance : observation -> io Run unit) (previous : MoveStatus) (err : error) : io Run unit :=
  match error_as preparationChangedType err with
  | Some changed => requestPreparationCancellation advance changed
  | None =>
      move ← current;
      if error_is err errCapacityApprovalPersistence || error_is err errMoveStatusPersistence || preparationLifecycle move then io_fail err
      else if (MoveStatus.Phase (Move.Status move) == Fsm.PhaseBlocked) && recoveryRequested move
      then recoveryError r move (if error_is err errRecoveryCleanupNeedsReview then "CleanupNeedsReview" else "RecoveryStepFailed") err
      else recordMoveError r previous "ActionFailed" "failed to execute the current mobility action" err
  end.

Fixpoint advanceMove (fuel : nat) (observed : observation) : io Run unit :=
  match fuel with
  | O => io_fail outOfFuel
  | S fuel =>
      move ← current;
      let previous := Move.Status move in
      match Fsm.Decide (lifecycleState move) (observation.FSM observed) with
      | Err err =>
          if preparationLifecycle move then io_fail err
          else recordMoveError r previous "ActionFailed" "failed to decide the next mobility action" err
      | Ok decision =>
          (if Fsm.st_Phase (Fsm.d_Next decision) == Fsm.PhaseCanceling then io_lift (cancellablePreparation move) else mret tt);;
          got ← attempt (executeLifecycle observed decision);
          match got with
          | Err err => action_failed (advanceMove fuel) previous err
          | Ok false => mret tt
          | Ok true =>
              after ← current;
              set_current (applyMoveDecision decision after);;
              persistMoveStatus r (if Move.ResourceVersion after != Move.ResourceVersion move then Move.Status after else previous)
          end
      end
  end.

(** ** The pass (move.go, reconciler.go) *)

(** [errors.Join(c, err)] *)
Definition joined (c : io Run unit) (err : option error) : io Run unit :=
  got ← attempt c;
  match join_errors [match got with Ok _ => None | Err e => Some e end; err] with
  | Some e => io_fail e
  | None => mret tt
  end.

Definition reconcileMove (fuel : nat) (move : Move) : io Run unit :=
  with_cell move (
    usageErr ← (if needsRecoveryObservation move then
                  got ← attempt (finalizeSourceUsage r move);
                  let usageErr := match got with Ok _ => None | Err err => Some err end in
                  cancelled ← ctx_err;
                  match cancelled with
                  | Some err => io_fail (default err (join_errors [usageErr; Some err]))
                  | None => mret usageErr
                  end
                else mret None);
    got ← attempt (observeLifecycle r move);
    match got with
    | Err err =>
        if preparationLifecycle move then io_fail err
        else if (MoveStatus.Phase (Move.Status move) == Fsm.PhaseBlocked) && recoveryRequested move
        then joined (recoveryError r move (default "ObservationFailed" (error_as recoveryObservationErrorType err)) err) usageErr
        else recordMoveError r (Move.Status move) "ObservationFailed" "failed to observe Kubernetes state" err
    | Ok observed => joined (advanceMove fuel (lifecycleFacts move observed)) usageErr
    end).

(** [advanceMove] calls itself at most once, to cancel a preparation that changed. *)
Definition advance_fuel : nat := 2.

Definition reconcilePersistedMove (move : Move) : io Run unit :=
  if legacyMoveProtocol move then
    wrapf "retain legacy Move without execution: %w" (validateSettledMoves [move]);;
    retireMoveHistory move
  else
    io_reject_if (negb (supportedMoveProtocol move)) (Errorf "retain unsupported protocol %q");;
    reconcileMove advance_fuel move.

(** ** Maintenance (workload_settlement.go) *)

(** [r.validate()]: the collaborators that are pointers are configured. *)
Definition configured : bool :=
  Reconciler.SourceUsage r && (Reconciler.Namespace r != "") && (Reconciler.HelperImage r != "").

Definition AdvanceRetiredMove (name uid : string) : io Run bool :=
  cancelled ← ctx_err;
  match cancelled with
  | Some err => io_fail err
  | None =>
      let rejected := Wrapf [ErrRetiredMoveRejected] "%w: %v" in
      io_reject_if (negb configured) rejected;;
      io_reject_if (negb (ValidObjectName name) || negb (ValidIdentityToken uid)) rejected;;
      move ← perform (GetMove name);
      io_reject_if ((Move.UID move != uid) || negb (supportedMoveProtocol move)) rejected;;
      (if MoveStatus.SettlementRequested (Move.Status move) then mret tt
       else
         state ← perform (GetVolume (MoveSpec.VolumeID (Move.Spec move)));
         retired ← observeWorkloadRetirement move state;
         io_reject_if (negb (some_and retired (fun retired => Fsm.WorkloadRetired (observation.FSM retired)))) rejected;;
         io_reject_if (negb (is_ok (workloadSettlementAuthority move state))) rejected);;
      if MoveStatus.SettlementRequested (Move.Status move) && MoveCleanupSettled move && (length (Move.Finalizers move) =? 0)%nat then
        validateSettledMoves [move];;
        mret true
      else
        reconcilePersistedMove move;;
        mret false
  end.

(** ** Discovery (discovery.go) *)

(** The new Move, and the reason why the Volume is not eligible. *)
Definition discoverVolumeMove (volumeID : string) (state : State) : io Run (option Move * string) :=
  found ← wrapf "read owner Node %q: %w" (optional (perform (GetNode (State.OwnerNode state))));
  if negb (some_and found (fun node => Node.Unschedulable node && NodeReady node)) then mret (None, "")
  else
    '(eligible, reason) ← wrapf "preflight volume %s: %w" (preflightVolume r volumeID (State.OwnerNode state));
    if negb eligible then mret (None, reason)
    else
      moves ← perform ListMoves;
      validateSettledMoves (movesForVolume moves volumeID);;
      fresh ← perform (GetVolume volumeID);
      if (State.UID fresh != State.UID state) || (State.OwnerNode fresh != State.OwnerNode state) ||
         (State.Phase fresh != VolumeState.PhaseReady) || (State.ActiveMove fresh != "") || State.Deleting fresh || State.HasCleanup fresh ||
         activeMoveVolume moves volumeID fresh
      then mret (None, "")
      else
        move ← perform (CreateMove (moveGenerateName volumeID)
                          {| MoveSpec.VolumeID := volumeID; MoveSpec.SourceNode := State.OwnerNode fresh; MoveSpec.Recovery := "";
                             MoveSpec.ProtocolVersion := MoveProtocolPreparedV1 |});
        let previous := Move.Status move in
        let pending := previous <| MoveStatus.Phase := Fsm.PhasePending |> <| MoveStatus.Message := mobilityMessage Fsm.PhasePending "" |> in
        stored ← with_cell (Move.with_Status move pending) (persistMoveStatus r previous;; current);
        mret (Some stored, "").

(** Also the UID and the deferral of the attempt. *)
Definition discoverVolume (volumeID : string) : io Run (option Move * string * string) :=
  found ← optional (perform (GetVolume volumeID));
  match found with
  | None => mret (None, "", "")
  | Some state =>
      if (State.Phase state != VolumeState.PhaseReady) || (State.ActiveMove state != "") then mret (None, State.UID state, "")
      else
        '(move, reason) ← discoverVolumeMove volumeID state;
        mret (move, State.UID state, reason)
  end.

(** ** Held Pods (owner_placement.go) *)

(** The loop of [ownerPlacementBinding] over the claims of the Pod. *)
Fixpoint bound_claim (namespace : string) (claims : list string) (seen : list string)
    (bound : option (PersistentVolume * PersistentVolumeClaim)) : io Run (option (PersistentVolume * PersistentVolumeClaim)) :=
  match claims with
  | [] => mret bound
  | claimName :: claims =>
      if contains seen claimName then bound_claim namespace claims seen bound
      else
        claim ← wrapf "read PVC: %w" (perform (GetClaim namespace claimName));
        if PersistentVolumeClaim.VolumeName claim == "" then bound_claim namespace claims (claimName :: seen) bound
        else
          pv ← wrapf "read PV: %w" (perform (GetPersistentVolume (PersistentVolumeClaim.VolumeName claim)));
          match PersistentVolume.CSI pv with
          | None => bound_claim namespace claims (claimName :: seen) bound
          | Some (driver, volumeID) =>
              if driver != DriverName then bound_claim namespace claims (claimName :: seen) bound
              else
                io_reject_if (negb (is_nil bound)) (Errorf "multiple bound ShiftPV volumes are unsupported");;
                io_reject_if ((ObjectMeta.UID (PersistentVolume.Meta pv) == "") || negb (validBinding (Some pv) (Some claim) volumeID))
                  (Errorf "PV/PVC binding identity is invalid");;
                bound_claim namespace claims (claimName :: seen) (Some (pv, claim))
          end
  end.

Definition ownerPlacementBinding (pod : Pod) : io Run (option (PersistentVolume * PersistentVolumeClaim)) :=
  bound_claim (ObjectMeta.Namespace (Pod.Meta pod)) (claimNames (Pod.Spec pod)) [] None.

Definition observeOwnerPlacement (pod : Pod) : io Run (option ownerPlacementIdentity) :=
  bound ← ownerPlacementBinding pod;
  match bound with
  | None => mret None
  | Some (pv, claim) =>
      csi ← io_lift (deref (PersistentVolume.CSI pv));
      let volumeID := snd csi in
      state ← wrapf "read ShiftPVVolume: %w" (perform (GetVolume volumeID));
      if State.Deleting state || State.HasCleanup state || (State.Phase state != VolumeState.PhaseReady) || (State.ActiveMove state != "")
      then mret None
      else match State.CurrentCopy state with
           | None => io_fail (Errorf "Volume has no exact serving-copy identity")
           | Some copy =>
               io_reject_if (negb (is_ok (Validate copy)) || (Role copy != RoleServing) || (VolumeID copy != volumeID) ||
                             (VolumeUID copy != State.UID state) || (NodeName copy != State.OwnerNode state))
                 (Errorf "Volume has no exact serving-copy identity");;
               node ← wrapf "read owner Node: %w" (perform (GetNode (State.OwnerNode state)));
               if negb (is_nil (ObjectMeta.DeletionTimestamp (Node.Meta node))) || Node.Unschedulable node || negb (NodeReady node)
               then mret None
               else
                 let cm := PersistentVolumeClaim.Meta claim in let pm := PersistentVolume.Meta pv in
                 mret (Some {| ownerPlacementIdentity.claimName := ObjectMeta.Name cm; ownerPlacementIdentity.claimUID := ObjectMeta.UID cm;
                               ownerPlacementIdentity.pvName := ObjectMeta.Name pm; ownerPlacementIdentity.pvUID := ObjectMeta.UID pm;
                               ownerPlacementIdentity.nodeUID := ObjectMeta.UID (Node.Meta node);
                               ownerPlacementIdentity.copy := copy |})
           end
  end.

Definition releaseOwnerPlacement (pod : Pod) (owner : string) : io Run unit :=
  io_reject_if (some_and (PodSpec.NodeSelector (Pod.Spec pod) !! LabelHostname) (fun selected => selected != owner))
    (Errorf "Pod requires node %q, not current owner %q");;
  perform (UpdatePod (released pod owner));;
  mret tt.

(** What an attempt does once it has an identity; [expected] is the identity of the
    attempt. *)
Definition place_owner (pod : Pod) (expected : ownerPlacementIdentity) : io Run unit :=
  let volumeID := VolumeID (ownerPlacementIdentity.copy expected) in
  moves ← wrapf "observe Moves before owner placement: %w" (perform ListMoves);
  if existsb (fun move => moveBlocksOwnerPlacement move volumeID) moves then mret tt
  else
    validateSettledMoves (movesForVolume moves volumeID);;
    fresh ← observeOwnerPlacement pod;
    match fresh with
    | None => mret tt
    | Some fresh =>
        io_reject_if (fresh != expected) (Errorf "binding or serving-copy identity changed before owner placement");;
        releaseOwnerPlacement pod (NodeName (ownerPlacementIdentity.copy fresh))
    end.

(** One attempt: the identity it pins for the next ones, and its outcome. *)
Definition owner_placement_attempt (volumeID : string) (observed : Pod) (expected : option ownerPlacementIdentity) :
    io Run (option ownerPlacementIdentity * result unit) :=
  let meta := Pod.Meta observed in
  got ← attempt (
    found ← optional (perform (GetPod (ObjectMeta.Namespace meta) (ObjectMeta.Name meta)));
    match found with
    | None => mret None
    | Some pod =>
        io_reject_if (ObjectMeta.UID (Pod.Meta pod) != ObjectMeta.UID meta) (Errorf "Pod identity changed before owner placement");;
        if negb (ownerPlacementCandidate pod) then mret None
        else
          identity ← observeOwnerPlacement pod;
          mret (identity ≫= fun identity =>
                  if (volumeID != "") && (VolumeID (ownerPlacementIdentity.copy identity) != volumeID) then None
                  else Some (pod, identity))
    end);
  match got with
  | Err err => mret (expected, Err err)
  | Ok None => mret (expected, Ok tt)
  | Ok (Some (pod, identity)) =>
      if some_and expected (fun expected => expected != identity)
      then mret (expected, Err (Errorf "binding or serving-copy identity changed during owner placement"))
      else
        outcome ← attempt (place_owner pod identity);
        mret (Some identity, outcome)
  end.

(** [retry.RetryOnConflict] of a closure that keeps [expected]. *)
Fixpoint retry_placement (steps : nat) (volumeID : string) (observed : Pod) (expected : option ownerPlacementIdentity) : io Run unit :=
  '(expected, outcome) ← owner_placement_attempt volumeID observed expected;
  match outcome with
  | Ok _ => mret tt
  | Err err => match steps with
               | S (S _ as steps) => if IsConflict err then retry_placement steps volumeID observed expected else io_fail err
               | _ => io_fail err
               end
  end.

Definition reconcileOwnerPlacementInVolume (volumeID : string) (observed : Pod) : io Run unit :=
  retry_placement 4 volumeID observed None.

Definition reconcileOwnerPlacement (observed : Pod) : io Run unit := reconcileOwnerPlacementInVolume "" observed.

(** The loop over the held Pods: the failures are joined. *)
Fixpoint place_owners (pods : list Pod) : io Run (list error) :=
  match pods with
  | [] => mret []
  | pod :: pods =>
      failure ← (if negb (ownerPlacementCandidate pod) then mret []
                 else
                   got ← attempt (reconcileOwnerPlacement pod);
                   mret match got with Ok _ => [] | Err err => [Wrapf [err] "restore Pod %s/%s owner placement: %w"] end);
      failures ← place_owners pods;
      mret (failure ++ failures)
  end.

Definition reconcileOwnerPlacements : io Run unit :=
  pods ← wrapf "list held workload Pods: %w" (perform (ListPods "" (ManagedLabel +:+ "=true")));
  failures ← place_owners pods;
  match join_errors (map Some failures) with
  | Some err => io_fail err
  | None => mret tt
  end.
End reconcile.
