(* ===== verification/MobilityLogic.v ===== *)
(** * The mobility controller: effects and histories

    A handler only ever extends the history of calls.  [emits E c] is its effect
    signature: every call that [c] makes has an effect in [E], in every environment and
    from every state.  [traced P c] says that each call of [c] satisfies [P] together
    with the calls before it, for the properties that depend on what was answered. *)

From S2P Require Import Prelude RecordUpdate ApiServer VolumeState MoveApi Kube Mobility.

(** ** Effects *)

Inductive effect :=
| Read        (** of an object, the clock or the context *)
| Lock        (** of a Pool's capacity *)
| VolumeWrite (** of the state of a Volume *)
| StatusWrite (** of the status of the Move *)
| MoveWrite   (** the Move object and its finalizers *)
| ScanWrite   (** a new scan generation of a Pool *)
| Helper      (** a node-side measurement *)
| JournalWrite
| PodUpdate
| Evict
| Create
| Delete
| Emit
| Assign     (** no call: the Move that is pointed to is replaced *).

#[export] Instance effect_eq_dec : EqDecision effect.
Proof. solve_decision. Defined.

Definition effect_of {A : Type} (c : call A) : effect :=
  match c with
  | CompareAndSetState _ _ _ _ _ | CompareAndSetSourceState _ _ _ => VolumeWrite
  | CompareAndSetMoveStatus _ _ | RecordSourceUsage _ _ _ => StatusWrite
  | CreateMove _ _ | AddMoveFinalizer _ _ | RemoveMoveFinalizer _ _ | DeleteMove _ _ => MoveWrite
  | RequestPoolScan _ => ScanWrite
  | StatFSForPool _ | AdvanceSourceUsage _ _ | FinalizeSourceUsage _ => Helper
  | EnsureJournal _ | UpdateJournal _ _ | ReconcileAbsence _ | AdvanceReclaim _ => JournalWrite
  | UpdatePod _ => PodUpdate
  | EvictPod _ _ _ => Evict
  | CreatePod _ | CreateJob _ | CreateSecret _ | CreateConfigMap _ | CreateService _ => Create
  | DeletePod _ _ _ | DeleteJob _ _ _ | DeleteSecret _ _ _ | DeleteConfigMap _ _ _ | DeleteService _ _ _ => Delete
  | RecordEvent _ _ _ => Emit
  | TryLock _ | Unlock _ => Lock
  | _ => Read
  end.

Definition event_effect (e : event) : effect := match e with Event c _ => effect_of c end.

Definition within (E : list effect) (e : effect) : bool := bool_decide (e ∈ E).
Definition subset (E E' : list effect) : bool := forallb (within E') E.

Definition emits (E : list effect) {A : Type} (c : io Run A) : Prop :=
  forall w, exists l, log (snd (c w)) = l ++ log w /\ Forall (fun e => within E (event_effect e) = true) l /\
                      (within E Assign = false -> cell (snd (c w)) = cell w).

Section rules.
Context {EN : Environment}.

Lemma subset_within (E E' : list effect) (e : effect) : subset E E' = true -> within E e = true -> within E' e = true.
Proof.
  unfold subset, within. rewrite forallb_forall. intros Hsub He. apply bool_decide_eq_true in He.
  apply Hsub. by apply list_elem_of_In.
Qed.

Lemma emits_sub (E E' : list effect) {A : Type} (c : io Run A) : emits E c -> subset E E' = true -> emits E' c.
Proof.
  intros Hc Hsub w. destruct (Hc w) as (l & Hl & Hall & Hcell). exists l. split_and!; [done|..].
  - eapply Forall_impl; [exact Hall|]. intros e He. by eapply subset_within.
  - intros HE'. apply Hcell. destruct (within E Assign) eqn:HE; [|done].
    by rewrite (subset_within _ _ _ Hsub HE) in HE'.
Qed.

Lemma emits_bind (E : list effect) {A B : Type} (c : io Run A) (k : A -> io Run B) :
  emits E c -> (forall a, emits E (k a)) -> emits E (c ≫= k).
Proof.
  intros Hc Hk w. unfold mbind, io_bind. destruct (Hc w) as (l & Hl & Hall & Hcell).
  destruct (c w) as [[a|e] w1]; simpl in *; [|by exists l].
  destruct (Hk a w1) as (l' & Hl' & Hall' & Hcell'). exists (l' ++ l). rewrite Hl', Hl, (assoc (++)).
  split_and!; [done|by apply Forall_app|]. intros HE. by rewrite Hcell', Hcell.
Qed.

Lemma emits_pure (E : list effect) {A : Type} (c : io Run A) : (forall w, snd (c w) = w) -> emits E c.
Proof. intros Hc w. exists []. rewrite Hc. split_and!; [done|constructor|done]. Qed.

Lemma emits_ret (E : list effect) {A : Type} (a : A) : emits E (mret a).
Proof. by apply emits_pure. Qed.

Lemma emits_fail (E : list effect) {A : Type} (err : error) : emits E (io_fail (A := A) err).
Proof. by apply emits_pure. Qed.

Lemma emits_lift (E : list effect) {A : Type} (r : result A) : emits E (io_lift r).
Proof. by apply emits_pure. Qed.

Lemma emits_current (E : list effect) : emits E current.
Proof. by apply emits_pure. Qed.

Lemma emits_status (E : list effect) : emits E status.
Proof. by apply emits_pure. Qed.

Lemma emits_set_current (E : list effect) (move : Move) : within E Assign = true -> emits E (set_current move).
Proof. intros HE w. exists []. split_and!; [done|constructor|congruence]. Qed.

Lemma emits_set_status (E : list effect) (s : MoveStatus) : within E Assign = true -> emits E (set_status s).
Proof. intros HE w. exists []. split_and!; [done|constructor|congruence]. Qed.

Lemma emits_perform (E : list effect) {A : Type} (c : call A) : within E (effect_of c) = true -> emits E (perform c).
Proof. intros Hc w. exists [Event c (respond (log w) c)]. split_and!; [done|by repeat constructor|done]. Qed.

Lemma emits_attempt (E : list effect) {A : Type} (c : io Run A) : emits E c -> emits E (attempt c).
Proof. intros Hc w. destruct (Hc w) as (l & Hl & Hall). exists l. unfold attempt. by destruct (c w). Qed.

Lemma no_assign_call (e : event) : event_effect e <> Assign.
Proof. destruct e as [A c answer]. by destruct c. Qed.

Lemma emits_with_cell (E : list effect) {A : Type} (move : Move) (c : io Run A) : emits (Assign :: E) c -> emits E (with_cell move c).
Proof.
  intros Hc w. destruct (Hc {| log := log w; cell := move |}) as (l & Hl & Hall & _). exists l. unfold with_cell.
  destruct (c _) as [res w1]; simpl in *. split_and!; [done| |done]. eapply Forall_impl; [exact Hall|].
  intros e He. pose proof (no_assign_call e). unfold within in *. rewrite bool_decide_eq_true in *. set_solver.
Qed.
End rules.

Create HintDb effects.
#[export] Hint Resolve emits_ret emits_fail emits_lift emits_current emits_status : effects.
#[export] Hint Extern 1 (emits _ (set_current _)) => apply emits_set_current; reflexivity : effects.
#[export] Hint Extern 1 (emits _ (set_status _)) => apply emits_set_status; reflexivity : effects.

(** One structural step of an effect derivation; [effects] solves the leaves. *)
Ltac effect_leaf :=
  first
    [ assumption
    | solve [auto 1 with effects nocore]
    | apply emits_perform; solve [reflexivity | repeat case_match; reflexivity]
    | eapply emits_sub; [solve [auto 2 with effects nocore] | reflexivity] ].

Ltac effect_step :=
  match goal with
  | |- emits _ (_ ≫= _) => apply emits_bind; [|intros ?]
  | |- emits _ (attempt _) => apply emits_attempt
  | |- emits _ (with_cell _ _) => apply emits_with_cell
  | |- emits _ (let _ := _ in _) => intros ?
  | |- emits _ match ?x with _ => _ end => destruct x
  | |- emits _ (match ?x with _ => _ end _) => destruct x
  | |- forall _, _ => intros ?
  | |- _ => progress cbv zeta
  end.

Ltac effects := repeat first [effect_leaf | effect_step].

Section derived.
Context {EN : Environment}.

Lemma emits_reject (E : list effect) (b : bool) (err : error) : emits E (io_reject_if b err).
Proof. apply emits_lift. Qed.

Lemma emits_wrapf (E : list effect) {A : Type} (format : string) (c : io Run A) : emits E c -> emits E (wrapf format c).
Proof. intros Hc. unfold wrapf. effects. Qed.

Lemma emits_optional (E : list effect) {A : Type} (c : io Run A) : emits E c -> emits E (optional c).
Proof. intros Hc. unfold optional. effects. Qed.

Lemma emits_unless_gone (E : list effect) (format : string) (c : io Run unit) : emits E c -> emits E (unless_gone format c).
Proof. intros Hc. unfold unless_gone. effects. Qed.

Lemma emits_ctx_err : emits [Read] ctx_err.
Proof. unfold ctx_err. effects. Qed.

Lemma emits_retry (E : list effect) (steps : nat) (body : io Run unit) : emits E body -> emits E (retry steps body).
Proof. intros Hbody. induction steps as [|steps IH]; cbn [retry]; effects. Qed.

Lemma emits_RetryOnConflict (E : list effect) (body : io Run unit) : emits E body -> emits E (RetryOnConflict body).
Proof. apply emits_retry. Qed.

Lemma emits_locking (E : list effect) {A : Type} (key : string) (body : io Run A) :
  within E Lock = true -> emits E body -> emits E (locking key body).
Proof. intros HL Hbody. unfold locking. repeat first [by apply emits_perform | effect_leaf | effect_step]. Qed.
End derived.

#[export] Hint Resolve emits_reject emits_ctx_err : effects.

Ltac effect_step' :=
  match goal with
  | |- emits _ (wrapf _ _) => apply emits_wrapf
  | |- emits _ (optional _) => apply emits_optional
  | |- emits _ (unless_gone _ _) => apply emits_unless_gone
  | |- emits _ (RetryOnConflict _) => apply emits_RetryOnConflict
  | |- emits _ (locking _ _) => apply emits_locking; [reflexivity|]
  | |- _ => effect_step
  end.

(** Derive the effects of a handler. *)
Ltac derive_effects := repeat first [effect_leaf | effect_step'].

(** ** Histories *)

(** Each call of [l], newest first, satisfies [P] after the calls before it. *)
Fixpoint trace (P : list event -> event -> Prop) (l base : list event) : Prop :=
  match l with
  | [] => True
  | e :: l => P (l ++ base) e /\ trace P l base
  end.

Definition traced (P : list event -> event -> Prop) (w : Run) {A : Type} (c : io Run A) : Prop :=
  exists l, log (snd (c w)) = l ++ log w /\ trace P l (log w).

(** What was answered [Ok a] so far. *)
Definition answered {A : Type} (w : Run) (c : call A) (a : A) : Prop := Event c (Ok a) ∈ log w.

Definition extends (w w' : Run) : Prop := exists l, log w' = l ++ log w.

Lemma trace_app P l l' base : trace P (l' ++ l) base <-> trace P l' (l ++ base) /\ trace P l base.
Proof. induction l' as [|e l' IH]; simpl; [naive_solver|]. rewrite <- (assoc (++)). naive_solver. Qed.

(** The reading of [trace] at a position. *)
Lemma trace_at P l base newer e older : trace P l base -> l = newer ++ e :: older -> P (older ++ base) e.
Proof. intros Hl ->. rewrite trace_app in Hl. simpl in Hl. naive_solver. Qed.

Lemma trace_impl (P Q : list event -> event -> Prop) l base :
  (forall older e, P older e -> Q older e) -> trace P l base -> trace Q l base.
Proof. intros HPQ. induction l; simpl; naive_solver. Qed.

Lemma trace_impl_base (P Q : list event -> event -> Prop) l base :
  (forall newer e, P (newer ++ base) e -> Q (newer ++ base) e) -> trace P l base -> trace Q l base.
Proof. intros HPQ. induction l; simpl; naive_solver. Qed.

#[export] Instance extends_preorder : PreOrder extends.
Proof.
  split; [by exists []|]. intros w1 w2 w3 [l Hl] [l' Hl']. exists (l' ++ l). by rewrite Hl', Hl, (assoc (++)).
Qed.

Lemma logged_extends (w w' : Run) (e : event) : extends w w' -> e ∈ log w -> e ∈ log w'.
Proof. intros [l Hl] He. rewrite Hl. set_solver. Qed.

Lemma answered_extends {A : Type} (w w' : Run) (c : call A) (a : A) : extends w w' -> answered w c a -> answered w' c a.
Proof. apply logged_extends. Qed.

Lemma emits_extends E {A : Type} (c : io Run A) (w w' : Run) res : emits E c -> c w = (res, w') -> extends w w'.
Proof. intros Hc Heq. destruct (Hc w) as (l & Hl & _). exists l. by rewrite Heq in Hl. Qed.

Lemma emits_cell E {A : Type} (c : io Run A) (w w' : Run) res :
  emits E c -> within E Assign = false -> c w = (res, w') -> cell w' = cell w.
Proof. intros Hc HE Heq. destruct (Hc w) as (l & _ & _ & Hcell). rewrite Heq in Hcell. by apply Hcell. Qed.

(** The reading of [traced] at a call of the run. *)
Lemma traced_at P {A : Type} (c : io Run A) (w : Run) newer e older :
  traced P w c -> log (snd (c w)) = newer ++ e :: older ++ log w -> P (older ++ log w) e.
Proof.
  intros (l & Hl & Ht) Hlog. rewrite Hl in Hlog. eapply trace_at; [exact Ht|].
  rewrite app_comm_cons, (assoc (++)) in Hlog. by apply app_inv_tail in Hlog.
Qed.

Section traced_rules.
Context {EN : Environment} (P : list event -> event -> Prop).

Lemma traced_emits E {A : Type} (c : io Run A) (w : Run) :
  emits E c -> (forall older e, within E (event_effect e) = true -> P older e) -> traced P w c.
Proof.
  intros Hc HP. destruct (Hc w) as (l & Hl & Hall & _). exists l. split; [done|]. clear Hl.
  induction Hall; simpl; naive_solver.
Qed.

Lemma traced_bind {A B : Type} (c : io Run A) (k : A -> io Run B) (w : Run) :
  traced P w c -> (forall a w1, c w = (Ok a, w1) -> traced P w1 (k a)) -> traced P w (c ≫= k).
Proof.
  intros (l & Hl & Ht) Hk. unfold traced, mbind, io_bind. destruct (c w) as [[a|e] w1]; simpl in *; [|by exists l].
  destruct (Hk a w1 eq_refl) as (l' & Hl' & Ht'). exists (l' ++ l). rewrite Hl', Hl, (assoc (++)). split; [done|].
  rewrite trace_app. rewrite Hl in Ht'. done.
Qed.

Lemma traced_perform {A : Type} (c : call A) (w : Run) :
  P (log w) (Event c (respond (log w) c)) -> traced P w (perform c).
Proof. intros HP. exists [Event c (respond (log w) c)]. by simpl. Qed.

Lemma traced_attempt {A : Type} (c : io Run A) (w : Run) : traced P w c -> traced P w (attempt c).
Proof. intros (l & Hl & Ht). exists l. unfold attempt. by destruct (c w). Qed.

Lemma traced_weaken (Q : list event -> event -> Prop) {A : Type} (c : io Run A) (w : Run) :
  (forall newer e, Q (newer ++ log w) e -> P (newer ++ log w) e) -> traced Q w c -> traced P w c.
Proof. intros HQ (l & Hl & Ht). exists l. split; [done|]. by eapply trace_impl_base. Qed.

Lemma traced_with_cell {A : Type} (move : Move) (c : io Run A) (w : Run) :
  traced P {| log := log w; cell := move |} c -> traced P w (with_cell move c).
Proof. intros (l & Hl & Ht). exists l. unfold with_cell. by destruct (c _). Qed.
End traced_rules.

(** ** Answers *)

Section answers.
Context {EN : Environment}.

Lemma perform_inv {A : Type} (c : call A) (w w' : Run) res :
  perform c w = (res, w') -> res = respond (log w) c /\ w' = {| log := Event c res :: log w; cell := cell w |}.
Proof. unfold perform. intros [= <- <-]. done. Qed.

Lemma perform_answered {A : Type} (c : call A) (w w' : Run) a : perform c w = (Ok a, w') -> answered w' c a.
Proof. intros [_ ->]%perform_inv. by left. Qed.

Lemma attempt_inv {A : Type} (c : io Run A) (w w' : Run) res : attempt c w = (res, w') -> exists r, res = Ok r /\ c w = (r, w').
Proof. unfold attempt. destruct (c w) as [r w1]. intros [= <- <-]. by exists r. Qed.

Lemma wrapf_Ok {A : Type} format (c : io Run A) (w w' : Run) a : wrapf format c w = (Ok a, w') -> c w = (Ok a, w').
Proof. unfold wrapf, attempt, mbind, io_bind. destruct (c w) as [[]]; naive_solver. Qed.

Lemma optional_Ok {A : Type} (c : io Run A) (w w' : Run) a :
  optional c w = (Ok a, w') -> match a with Some a => c w = (Ok a, w') | None => exists err, c w = (Err err, w') /\ IsNotFound err = true end.
Proof.
  unfold optional, attempt, mbind, io_bind. destruct (c w) as [[x|err] w1]; simpl; [intros [= <- <-]; done|].
  destruct (IsNotFound err) eqn:Herr; [|done]. intros [= <- <-]. by exists err.
Qed.

Lemma current_Ok (w w' : Run) move : current w = (Ok move, w') -> move = cell w /\ w' = w.
Proof. intros [= <- <-]. done. Qed.

Lemma status_Ok (w w' : Run) s : status w = (Ok s, w') -> s = Move.Status (cell w) /\ w' = w.
Proof. intros [= <- <-]. done. Qed.
End answers.

(** [e] was called between [w] and [w']. *)
Definition since (w w' : Run) (e : event) : Prop := exists l, log w' = l ++ log w /\ e ∈ l.

Lemma since_extends (w w1 w2 : Run) (e : event) : since w w1 e -> extends w1 w2 -> since w w2 e.
Proof. intros (l & Hl & He) [l' Hl']. exists (l' ++ l). rewrite Hl', Hl, (assoc (++)). split; [done|]. apply elem_of_app. by right. Qed.

Lemma since_earlier (w w1 w2 : Run) (e : event) : extends w w1 -> since w1 w2 e -> since w w2 e.
Proof. intros [l Hl] (l' & Hl' & He). exists (l' ++ l). rewrite Hl', Hl, (assoc (++)). split; [done|]. apply elem_of_app. by left. Qed.

Lemma since_perform {EN : Environment} {A : Type} (c : call A) (w w1 w2 : Run) (a : A) :
  extends w w1 -> perform c w1 = (Ok a, w2) -> since w w2 (Event c (Ok a)).
Proof. intros [l Hl] [_ ->]%perform_inv. exists (Event c (Ok a) :: l). simpl. rewrite Hl. split; [done|by left]. Qed.

Lemma since_section (w w' : Run) (e : event) (l : list event) : since w w' e -> log w' = l ++ log w -> e ∈ l.
Proof. intros (l' & Hl' & He) Hl. rewrite Hl in Hl'. apply app_inv_tail in Hl'. by subst. Qed.

(** A critical section that returned: its body ran between the lock and the unlock. *)
Lemma locking_inv {EN : Environment} {A : Type} key (body : io Run A) (w w' : Run) a :
  locking key body w = (Ok a, w') ->
  exists w2 u, body {| log := Event (TryLock key) (Ok true) :: log w; cell := cell w |} = (Ok a, w2) /\
    w' = {| log := Event (Unlock key) (Ok u) :: log w2; cell := cell w2 |}.
Proof.
  unfold locking. intros H. apply io_bind_Ok in H as (acquired & w1 & Hlock & H). apply perform_inv in Hlock as [_ ->].
  destruct acquired; [|discriminate H]. apply io_bind_Ok in H as (res & w2 & Hbody & H). apply attempt_inv in Hbody as (? & [= <-] & Hbody).
  apply io_bind_Ok in H as (u & w3 & Hunlock & H). apply perform_inv in Hunlock as [_ ->]. apply io_lift_Ok in H as [-> ->].
  by exists w2, u.
Qed.

(** Open the steps of a run that returned, down to the answers. *)
Ltac run_inv :=
  repeat match goal with
  | H : (_ ≫= _) _ = (Ok _, _) |- _ => apply io_bind_Ok in H as (? & ? & ? & H)
  | H : mret _ _ = (_, _) |- _ => injection H as ??; subst
  | H : io_lift _ _ = (Ok _, _) |- _ => apply io_lift_Ok in H as [? ->]
  | H : io_reject_if _ _ _ = (Ok _, _) |- _ => unfold io_reject_if in H
  | H : io_fail _ _ = (Ok _, _) |- _ => discriminate H
  | H : reject_if _ _ = Ok _ |- _ => apply reject_if_Ok in H
  | H : wrapf _ _ _ = (Ok _, _) |- _ => apply wrapf_Ok in H
  | H : current _ = (Ok _, _) |- _ => apply current_Ok in H as [? ?]; subst
  | H : status _ = (Ok _, _) |- _ => apply status_Ok in H as [? ?]; subst
  | H : attempt _ _ = (_, _) |- _ => apply attempt_inv in H as (? & ? & H); simplify_eq
  end.

(** Compose the growth of several runs. *)
Ltac extends_chain :=
  match goal with
  | |- extends ?a ?a => reflexivity
  | H : extends ?a ?b |- extends ?a ?b => exact H
  | H : extends ?a ?c |- extends ?a ?b => transitivity c; [exact H | extends_chain]
  end.
