(* ===== verification/MobilityEffects.v ===== *)
(** * The mobility controller: the effects of its handlers

    The effect signature of each handler.  Observation only reads; the handlers of a
    transfer create and delete; only the handlers that move authority write a Volume. *)

From S2P Require Import Prelude RecordUpdate Fsm Apimachinery ApiServer VolumeState MoveApi Kube.
From S2P Require Import Mobility MobilityRules MobilityPods MobilityObserve MobilityLifecycle MobilityTransfer MobilityActions MobilityRecovery MobilityReconcile MobilityLogic.

Section wrappers.
Context {EN : Environment} (E : list effect).

Lemma journal_or_none_effects c : emits E c -> emits E (journal_or_none c).
Proof. intros Hc. unfold journal_or_none. derive_effects. Qed.

Lemma diagnosed_effects {A} reason (c : io Run A) : emits E c -> emits E (diagnosed reason c).
Proof. intros Hc. unfold diagnosed. derive_effects. Qed.

Lemma create_or_get_effects {A} (create get : io Run A) : emits E create -> emits E get -> emits E (create_or_get create get).
Proof. intros Hc Hg. unfold create_or_get. derive_effects. Qed.

Lemma delete_owned_effects kind missing name get del uid :
  emits E get -> (forall uid, emits E (del uid)) -> emits E (delete_owned kind missing name get del uid).
Proof. intros Hg Hd. unfold delete_owned. derive_effects. Qed.

Lemma completed_effects c : emits E c -> emits E (completed c).
Proof. intros Hc. unfold completed. derive_effects. Qed.

Lemma unfinished_effects c : emits E c -> emits E (unfinished c).
Proof. intros Hc. unfold unfinished. derive_effects. Qed.

Lemma joined_effects c err : emits E c -> emits E (joined c err).
Proof. intros Hc. unfold joined. derive_effects. Qed.
End wrappers.

Ltac handler_step :=
  match goal with
  | |- emits _ (journal_or_none _) => apply journal_or_none_effects
  | |- emits _ (diagnosed _ _) => apply diagnosed_effects
  | |- emits _ (create_or_get _ _) => apply create_or_get_effects
  | |- emits _ (delete_owned _ _ _ _ _ _) => apply delete_owned_effects
  | |- emits _ (completed _) => apply completed_effects
  | |- emits _ (unfinished _) => apply unfinished_effects
  | |- emits _ (joined _ _) => apply joined_effects
  end.

(** Derive the effects of a handler from those of the handlers it calls. *)
Ltac handler_effects := repeat first [effect_leaf | handler_step | effect_step'].

Section effects.
Context {AM : Apimachinery} {EN : Environment} (r : Reconciler).

(** ** Observation (MobilityObserve) *)

Lemma now_effects : emits [Read] (now).
Proof. unfold now. handler_effects. Qed.
Local Hint Resolve now_effects : effects.

Lemma observeCompletedCleanup_effects journal : emits [Read] (observeCompletedCleanup r journal).
Proof. unfold observeCompletedCleanup. handler_effects. Qed.
Local Hint Resolve observeCompletedCleanup_effects : effects.

Lemma cleanupState_effects move : emits [Read] (cleanupState r move).
Proof. unfold cleanupState. handler_effects. Qed.
Local Hint Resolve cleanupState_effects : effects.

Lemma settlementArtifactsClosed_effects move : emits [Read] (settlementArtifactsClosed r move).
Proof. unfold settlementArtifactsClosed. handler_effects. Qed.
Local Hint Resolve settlementArtifactsClosed_effects : effects.

Lemma preflightPDB_effects pod : emits [Read] (preflightPDB pod).
Proof. unfold preflightPDB. handler_effects. Qed.
Local Hint Resolve preflightPDB_effects : effects.

Lemma consumerTemplate_effects pod : emits [Read] (consumerTemplate pod).
Proof. unfold consumerTemplate. handler_effects. Qed.
Local Hint Resolve consumerTemplate_effects : effects.

Lemma compatibleDestinations_effects candidateNodes live template pvAffinity candidates : emits [Read] (compatibleDestinations candidateNodes live template pvAffinity candidates).
Proof. revert candidates. induction candidateNodes as [|n candidateNodes IH]; intros ?; cbn [compatibleDestinations]; handler_effects. Qed.
Local Hint Resolve compatibleDestinations_effects : effects.

Lemma preflight_effects observed : emits [Read] (preflight observed).
Proof. unfold preflight. handler_effects. Qed.
Local Hint Resolve preflight_effects : effects.

Lemma observeVolume_effects move result : emits [Read] (observeVolume r move result).
Proof. unfold observeVolume. handler_effects. Qed.
Local Hint Resolve observeVolume_effects : effects.

Lemma index_existing_effects ready existing pools : emits [Read] (index_existing r ready existing pools).
Proof. revert existing. induction pools as [|p pools IH]; intros ?; cbn [index_existing]; handler_effects. Qed.
Local Hint Resolve index_existing_effects : effects.

Lemma observePools_effects : emits [Read] (observePools r).
Proof. unfold observePools. handler_effects. Qed.
Local Hint Resolve observePools_effects : effects.

Lemma observeSource_effects move pools result : emits [Read] (observeSource move pools result).
Proof. unfold observeSource. handler_effects. Qed.
Local Hint Resolve observeSource_effects : effects.

Lemma candidate_nodes_effects move ready source registered nodes : emits [Read] (candidate_nodes move ready source registered nodes).
Proof. revert nodes. induction registered as [|[uid p] registered IH]; intros ?; cbn [candidate_nodes]; handler_effects. Qed.
Local Hint Resolve candidate_nodes_effects : effects.

Lemma observeCandidates_effects move pools result : emits [Read] (observeCandidates move pools result).
Proof. unfold observeCandidates. handler_effects. Qed.
Local Hint Resolve observeCandidates_effects : effects.

Lemma observeDestination_effects move pools result : emits [Read] (observeDestination r move pools result).
Proof. unfold observeDestination. handler_effects. Qed.
Local Hint Resolve observeDestination_effects : effects.

Lemma boundPersistentVolume_effects move : emits [Read] (boundPersistentVolume move).
Proof. unfold boundPersistentVolume. handler_effects. Qed.
Local Hint Resolve boundPersistentVolume_effects : effects.

Lemma observeBinding_effects move result : emits [Read] (observeBinding move result).
Proof. unfold observeBinding. handler_effects. Qed.
Local Hint Resolve observeBinding_effects : effects.

Lemma observeConsumers_effects move result : emits [Read] (observeConsumers move result).
Proof. unfold observeConsumers. handler_effects. Qed.
Local Hint Resolve observeConsumers_effects : effects.

Lemma observePlacement_effects move result : emits [Read] (observePlacement r move result).
Proof. unfold observePlacement. handler_effects. Qed.
Local Hint Resolve observePlacement_effects : effects.

Lemma recordedWorkloadClaim_effects move : emits [Read] (recordedWorkloadClaim move).
Proof. unfold recordedWorkloadClaim. handler_effects. Qed.
Local Hint Resolve recordedWorkloadClaim_effects : effects.

Lemma jobState_effects name : emits [Read] (jobState r name).
Proof. unfold jobState. handler_effects. Qed.
Local Hint Resolve jobState_effects : effects.

Lemma observeJobs_effects move repaired result : emits [Read] (observeJobs r move repaired result).
Proof. unfold observeJobs. handler_effects. Qed.
Local Hint Resolve observeJobs_effects : effects.

Lemma observeCleanup_effects move result : emits [Read] (observeCleanup r move result).
Proof. unfold observeCleanup. handler_effects. Qed.
Local Hint Resolve observeCleanup_effects : effects.

(** ** Lifecycle snapshots (MobilityLifecycle) *)

Lemma observeWorkloadRetirement_effects move state : emits [Read] (observeWorkloadRetirement move state).
Proof. unfold observeWorkloadRetirement. handler_effects. Qed.
Local Hint Resolve observeWorkloadRetirement_effects : effects.

Lemma deferOnPreflight_effects result preconditions : emits [Read] (deferOnPreflight result preconditions).
Proof. unfold deferOnPreflight. handler_effects. Qed.
Local Hint Resolve deferOnPreflight_effects : effects.

Lemma observePreconditions_effects move result : emits [Read] (observePreconditions move result).
Proof. unfold observePreconditions. handler_effects. Qed.
Local Hint Resolve observePreconditions_effects : effects.

Lemma observeEligibility_effects move result : emits [Read] (observeEligibility r move result).
Proof. unfold observeEligibility. handler_effects. Qed.
Local Hint Resolve observeEligibility_effects : effects.

Lemma observe_effects move : emits [Read] (observe r move).
Proof. unfold observe. handler_effects. Qed.
Local Hint Resolve observe_effects : effects.

Lemma preflightVolume_effects volumeID sourceNode : emits [Read] (preflightVolume r volumeID sourceNode).
Proof. unfold preflightVolume. handler_effects. Qed.
Local Hint Resolve preflightVolume_effects : effects.

Lemma preparationPoolGroup_effects move pool : emits [Read] (preparationPoolGroup move pool).
Proof. unfold preparationPoolGroup. handler_effects. Qed.
Local Hint Resolve preparationPoolGroup_effects : effects.

Lemma preparedWorkloadFits_effects move pv placement consumer : emits [Read] (preparedWorkloadFits move pv placement consumer).
Proof. unfold preparedWorkloadFits. handler_effects. Qed.
Local Hint Resolve preparedWorkloadFits_effects : effects.

Lemma validatePreparedPlacement_effects move observed : emits [Read] (validatePreparedPlacement r move observed).
Proof. unfold validatePreparedPlacement. handler_effects. Qed.
Local Hint Resolve validatePreparedPlacement_effects : effects.

Lemma observePreparationPlan_effects move result : emits [Read] (observePreparationPlan r move result).
Proof. unfold observePreparationPlan. handler_effects. Qed.
Local Hint Resolve observePreparationPlan_effects : effects.

Lemma observePreparation_effects move : emits [Read] (observePreparation r move).
Proof. unfold observePreparation. handler_effects. Qed.
Local Hint Resolve observePreparation_effects : effects.

Lemma preparedExecutionChanged_effects move observed : emits [Read] (preparedExecutionChanged r move observed).
Proof. unfold preparedExecutionChanged. handler_effects. Qed.
Local Hint Resolve preparedExecutionChanged_effects : effects.

Lemma cancellationVolume_effects move : emits [Read] (cancellationVolume move).
Proof. unfold cancellationVolume. handler_effects. Qed.
Local Hint Resolve cancellationVolume_effects : effects.

Lemma observeCancellation_effects move : emits [Read] (observeCancellation r move).
Proof. unfold observeCancellation. handler_effects. Qed.
Local Hint Resolve observeCancellation_effects : effects.

Lemma poolMountPath_effects copy : emits [Read] (poolMountPath copy).
Proof. unfold poolMountPath. handler_effects. Qed.
Local Hint Resolve poolMountPath_effects : effects.

Lemma healthy_nodes_effects move state names : emits [Read] (healthy_nodes move state names).
Proof. induction names as [|n names IH]; cbn [healthy_nodes]; handler_effects. Qed.
Local Hint Resolve healthy_nodes_effects : effects.

Lemma mounted_pools_effects copies : emits [Read] (mounted_pools copies).
Proof. induction copies as [|[c|] copies IH]; cbn [mounted_pools]; handler_effects. Qed.
Local Hint Resolve mounted_pools_effects : effects.

Lemma recoveryNodes_effects move state : emits [Read] (recoveryNodes move state).
Proof. unfold recoveryNodes. handler_effects. Qed.
Local Hint Resolve recoveryNodes_effects : effects.

Lemma observeSettlementRelease_effects move got : emits [Read] (observeSettlementRelease r move got).
Proof. unfold observeSettlementRelease. handler_effects. Qed.
Local Hint Resolve observeSettlementRelease_effects : effects.

Lemma observeRecovery_effects move : emits [Read] (observeRecovery r move).
Proof. unfold observeRecovery. handler_effects. Qed.
Local Hint Resolve observeRecovery_effects : effects.

Lemma observeBlockedLifecycle_effects move : emits [Read] (observeBlockedLifecycle r move).
Proof. unfold observeBlockedLifecycle. handler_effects. Qed.
Local Hint Resolve observeBlockedLifecycle_effects : effects.

Lemma observeLifecycle_effects move : emits [Read] (observeLifecycle r move).
Proof. unfold observeLifecycle. handler_effects. Qed.
Local Hint Resolve observeLifecycle_effects : effects.

(** ** Transfer (MobilityTransfer) *)

Lemma sourcePodReady_effects move names : emits [Read] (sourcePodReady r move names).
Proof. unfold sourcePodReady. handler_effects. Qed.
Local Hint Resolve sourcePodReady_effects : effects.

Lemma ensureTransferSecret_effects move names : emits [Read; Create] (ensureTransferSecret r move names).
Proof. unfold ensureTransferSecret. handler_effects. Qed.
Local Hint Resolve ensureTransferSecret_effects : effects.

Lemma ensureRsyncConfig_effects move names : emits [Read; Create] (ensureRsyncConfig r move names).
Proof. unfold ensureRsyncConfig. handler_effects. Qed.
Local Hint Resolve ensureRsyncConfig_effects : effects.

Lemma ensureSourcePod_effects move names : emits [Read; Create; Delete] (ensureSourcePod r move names).
Proof. unfold ensureSourcePod. handler_effects. Qed.
Local Hint Resolve ensureSourcePod_effects : effects.

Lemma ensureSourceService_effects move names : emits [Read; Create] (ensureSourceService r move names).
Proof. unfold ensureSourceService. handler_effects. Qed.
Local Hint Resolve ensureSourceService_effects : effects.

Lemma operationJob_effects name copy names env extraMounts extraVolumes : emits [Read] (operationJob r name copy names env extraMounts extraVolumes).
Proof. unfold operationJob. handler_effects. Qed.
Local Hint Resolve operationJob_effects : effects.

Lemma ensureJob_effects move name nodeName names args extraMounts extraVolumes : emits [Read; Create] (ensureJob r move name nodeName names args extraMounts extraVolumes).
Proof. unfold ensureJob. handler_effects. Qed.
Local Hint Resolve ensureJob_effects : effects.

Lemma ensureCopyJob_effects move names : emits [Read; Create] (ensureCopyJob r move names).
Proof. unfold ensureCopyJob. handler_effects. Qed.
Local Hint Resolve ensureCopyJob_effects : effects.

Lemma ensurePromotionJob_effects move names : emits [Read; Create] (ensurePromotionJob r move names).
Proof. unfold ensurePromotionJob. handler_effects. Qed.
Local Hint Resolve ensurePromotionJob_effects : effects.

Lemma ensureCopyResources_effects move names : emits [Read; Create; Delete] (ensureCopyResources r move names).
Proof. unfold ensureCopyResources. handler_effects. Qed.
Local Hint Resolve ensureCopyResources_effects : effects.

Lemma deleteTransferResources_effects move names : emits [Read; Delete] (deleteTransferResources r move names).
Proof. unfold deleteTransferResources. handler_effects. Qed.
Local Hint Resolve deleteTransferResources_effects : effects.

Lemma ensurePlacementPod_effects move desired : emits [Read; Create] (ensurePlacementPod r move desired).
Proof. unfold ensurePlacementPod. handler_effects. Qed.
Local Hint Resolve ensurePlacementPod_effects : effects.

Lemma ensurePlacement_effects move observed : emits [Read; Create] (ensurePlacement r move observed).
Proof. unfold ensurePlacement. handler_effects. Qed.
Local Hint Resolve ensurePlacement_effects : effects.

Lemma requireScheduledPlacement_effects move : emits [Read] (requireScheduledPlacement r move).
Proof. unfold requireScheduledPlacement. handler_effects. Qed.
Local Hint Resolve requireScheduledPlacement_effects : effects.

Lemma pinReplacement_effects move : emits [Read; PodUpdate] (pinReplacement move).
Proof. unfold pinReplacement. handler_effects. Qed.
Local Hint Resolve pinReplacement_effects : effects.

Lemma deletePlacement_effects move : emits [Read; Delete] (deletePlacement r move).
Proof. unfold deletePlacement. handler_effects. Qed.
Local Hint Resolve deletePlacement_effects : effects.

Lemma deleteCancelledPlacement_effects move placement : emits [Delete] (deleteCancelledPlacement r move placement).
Proof. unfold deleteCancelledPlacement. handler_effects. Qed.
Local Hint Resolve deleteCancelledPlacement_effects : effects.

Lemma ensurePreparedPlacement_effects move observed candidates : emits [Read; Create; Delete] (ensurePreparedPlacement r move observed candidates).
Proof. unfold ensurePreparedPlacement. handler_effects. Qed.
Local Hint Resolve ensurePreparedPlacement_effects : effects.

(** ** Actions (MobilityActions) *)

Lemma emitMoveEvent_effects move previous : emits [Emit] (emitMoveEvent r move previous).
Proof. unfold emitMoveEvent. handler_effects. Qed.
Local Hint Resolve emitMoveEvent_effects : effects.

Lemma persistMoveStatus_effects previous : emits [Read; StatusWrite; Emit; Assign] (persistMoveStatus r previous).
Proof. unfold persistMoveStatus. handler_effects. Qed.
Local Hint Resolve persistMoveStatus_effects : effects.

Lemma recordMoveError_effects previous reason operation cause : emits [Read; StatusWrite; Emit; Assign] (recordMoveError r previous reason operation cause).
Proof. unfold recordMoveError. handler_effects. Qed.
Local Hint Resolve recordMoveError_effects : effects.

Lemma recoveryError_effects move reason err : emits [Read; StatusWrite; Emit] (recoveryError r move reason err).
Proof. unfold recoveryError. handler_effects. Qed.
Local Hint Resolve recoveryError_effects : effects.

Lemma finalizeSourceUsage_effects move : emits [Helper] (finalizeSourceUsage r move).
Proof. unfold finalizeSourceUsage. handler_effects. Qed.
Local Hint Resolve finalizeSourceUsage_effects : effects.

Lemma measureSourceCopy_effects : emits [Read; Helper; StatusWrite; Assign] (measureSourceCopy r).
Proof. unfold measureSourceCopy. handler_effects. Qed.
Local Hint Resolve measureSourceCopy_effects : effects.

Lemma claimPreparationSource_effects move state : emits [VolumeWrite] (claimPreparationSource move state).
Proof. unfold claimPreparationSource. handler_effects. Qed.
Local Hint Resolve claimPreparationSource_effects : effects.

Lemma initializePreparation_effects observed : emits [Assign] (initializePreparation observed).
Proof. unfold initializePreparation. handler_effects. Qed.
Local Hint Resolve initializePreparation_effects : effects.

Lemma preparationCandidates_effects move observed pools : emits [Read] (preparationCandidates move observed pools).
Proof. unfold preparationCandidates. handler_effects. Qed.
Local Hint Resolve preparationCandidates_effects : effects.

Lemma destinationPools_effects move nodeName : emits [Read] (destinationPools move nodeName).
Proof. unfold destinationPools. handler_effects. Qed.
Local Hint Resolve destinationPools_effects : effects.

Lemma preparationPlacementCurrent_effects move expected nodeName : emits [Read] (preparationPlacementCurrent move expected nodeName).
Proof. unfold preparationPlacementCurrent. handler_effects. Qed.
Local Hint Resolve preparationPlacementCurrent_effects : effects.

Lemma grantPreparation_effects pool placement : emits [Read; Lock; StatusWrite; Emit; Assign] (grantPreparation r pool placement).
Proof. unfold grantPreparation. handler_effects. Qed.
Local Hint Resolve grantPreparation_effects : effects.

Lemma grant_first_effects pools placement unavailable : emits [Read; Lock; StatusWrite; Emit; Assign] (grant_first r pools placement unavailable).
Proof. revert unavailable. induction pools as [|p pools IH]; intros ?; cbn [grant_first]; handler_effects. Qed.
Local Hint Resolve grant_first_effects : effects.

Lemma set_reason_effects reason : emits [Assign] (set_reason reason).
Proof. unfold set_reason. handler_effects. Qed.
Local Hint Resolve set_reason_effects : effects.

Lemma prepareDestination_effects observed pools : emits [Read; Lock; StatusWrite; Emit; Create; Delete; Assign] (prepareDestination r observed pools).
Proof. unfold prepareDestination. handler_effects. Qed.
Local Hint Resolve prepareDestination_effects : effects.

Lemma validateDisruptionConsumer_effects move observed : emits [Read] (validateDisruptionConsumer move observed).
Proof. unfold validateDisruptionConsumer. handler_effects. Qed.
Local Hint Resolve validateDisruptionConsumer_effects : effects.

Lemma evictConsumer_effects observed : emits [Evict; Assign] (evictConsumer observed).
Proof. unfold evictConsumer. handler_effects. Qed.
Local Hint Resolve evictConsumer_effects : effects.

Lemma startPreparedSource_effects move source : emits [Read; Lock; Helper; VolumeWrite] (startPreparedSource r move source).
Proof. unfold startPreparedSource. handler_effects. Qed.
Local Hint Resolve startPreparedSource_effects : effects.

Lemma startPreparedDisruption_effects observed : emits [Read; Lock; Helper; VolumeWrite; Evict; Assign] (startPreparedDisruption r observed).
Proof. unfold startPreparedDisruption. handler_effects. Qed.
Local Hint Resolve startPreparedDisruption_effects : effects.

Lemma destinationCapacityForPool_effects move pool : emits [Read] (destinationCapacityForPool move pool).
Proof. unfold destinationCapacityForPool. handler_effects. Qed.
Local Hint Resolve destinationCapacityForPool_effects : effects.

Lemma convertPreparation_effects : emits [Read; Lock; Helper; StatusWrite; Emit; Assign] (convertPreparation r).
Proof. unfold convertPreparation. handler_effects. Qed.
Local Hint Resolve convertPreparation_effects : effects.

Lemma ensureCapacity_effects observed : emits [Read; Lock; Helper; StatusWrite; Emit; Assign] (ensureCapacity r observed).
Proof. unfold ensureCapacity. handler_effects. Qed.
Local Hint Resolve ensureCapacity_effects : effects.

Lemma ensureCopy_effects observed : emits [Read; StatusWrite; Emit; PodUpdate; Create; Delete; Assign] (ensureCopy r observed).
Proof. unfold ensureCopy. handler_effects. Qed.
Local Hint Resolve ensureCopy_effects : effects.

Lemma ensurePromotion_effects observed : emits [Read; StatusWrite; Emit; Create; Assign] (ensurePromotion r observed).
Proof. unfold ensurePromotion. handler_effects. Qed.
Local Hint Resolve ensurePromotion_effects : effects.

Lemma confirmCommitConflict_effects move destination destinationCopy conflict : emits [Read] (confirmCommitConflict move destination destinationCopy conflict).
Proof. unfold confirmCommitConflict. handler_effects. Qed.
Local Hint Resolve confirmCommitConflict_effects : effects.

Lemma commitOwner_effects observed : emits [Read; Lock; VolumeWrite] (commitOwner r observed).
Proof. unfold commitOwner. handler_effects. Qed.
Local Hint Resolve commitOwner_effects : effects.

Lemma validateReplacementRelease_effects move pod : emits [Read] (validateReplacementRelease move pod).
Proof. unfold validateReplacementRelease. handler_effects. Qed.
Local Hint Resolve validateReplacementRelease_effects : effects.

Lemma release_held_effects move namespace name uid : emits [Read; PodUpdate] (release_held move namespace name uid).
Proof. unfold release_held. handler_effects. Qed.
Local Hint Resolve release_held_effects : effects.

Lemma releasePlacement_effects observed : emits [Read; PodUpdate; Assign] (releasePlacement observed).
Proof. unfold releasePlacement. handler_effects. Qed.
Local Hint Resolve releasePlacement_effects : effects.

Lemma markSucceeded_effects observed : emits [Read; Delete; VolumeWrite] (markSucceeded r observed).
Proof. unfold markSucceeded. handler_effects. Qed.
Local Hint Resolve markSucceeded_effects : effects.

Lemma markBlocked_effects observed : emits [Read; VolumeWrite; Assign] (markBlocked observed).
Proof. unfold markBlocked. handler_effects. Qed.
Local Hint Resolve markBlocked_effects : effects.

Lemma acknowledgeCleanup_effects move : emits [Read] (acknowledgeCleanup r move).
Proof. unfold acknowledgeCleanup. handler_effects. Qed.
Local Hint Resolve acknowledgeCleanup_effects : effects.

Lemma observeTerminalExecutor_effects journal : emits [Read; JournalWrite] (observeTerminalExecutor r journal).
Proof. unfold observeTerminalExecutor. handler_effects. Qed.
Local Hint Resolve observeTerminalExecutor_effects : effects.

Lemma driveCleanupAbsence_effects journal : emits [JournalWrite] (driveCleanupAbsence journal).
Proof. unfold driveCleanupAbsence. handler_effects. Qed.
Local Hint Resolve driveCleanupAbsence_effects : effects.

Lemma ensureCleanupSpec_effects move spec : emits [Read; JournalWrite] (ensureCleanupSpec r move spec).
Proof. unfold ensureCleanupSpec. handler_effects. Qed.
Local Hint Resolve ensureCleanupSpec_effects : effects.

Lemma ensureCleanupContract_effects : emits [Read; JournalWrite] (ensureCleanupContract r).
Proof. unfold ensureCleanupContract. handler_effects. Qed.
Local Hint Resolve ensureCleanupContract_effects : effects.

Lemma reviewCleanupJournal_effects {A} journal reason message : emits [JournalWrite] (reviewCleanupJournal (A := A) journal reason message).
Proof. unfold reviewCleanupJournal. handler_effects. Qed.
Local Hint Resolve reviewCleanupJournal_effects : effects.

Lemma settleTerminalCleanup_effects move : emits [Read; JournalWrite; MoveWrite] (settleTerminalCleanup r move).
Proof. unfold settleTerminalCleanup. handler_effects. Qed.
Local Hint Resolve settleTerminalCleanup_effects : effects.

Lemma observeTerminalCleanupHistory_effects move : emits [Read] (observeTerminalCleanupHistory r move).
Proof. unfold observeTerminalCleanupHistory. handler_effects. Qed.
Local Hint Resolve observeTerminalCleanupHistory_effects : effects.

(** ** Recovery (MobilityRecovery) *)

Lemma removeJob_effects name label moveUID : emits [Read; Delete] (removeJob r name label moveUID).
Proof. unfold removeJob. handler_effects. Qed.
Local Hint Resolve removeJob_effects : effects.

Lemma remove_jobs_effects names label moveUID quiet : emits [Read; Delete] (remove_jobs r names label moveUID quiet).
Proof. revert quiet. induction names as [|n names IH]; intros ?; cbn [remove_jobs]; handler_effects. Qed.
Local Hint Resolve remove_jobs_effects : effects.

Lemma remove_helpers_effects move names pods quiet : emits [Delete] (remove_helpers r move names pods quiet).
Proof. revert quiet. induction pods as [|p pods IH]; intros ?; cbn [remove_helpers]; handler_effects. Qed.
Local Hint Resolve remove_helpers_effects : effects.

Lemma quiesceMove_effects move : emits [Read; Delete] (quiesceMove r move).
Proof. unfold quiesceMove. handler_effects. Qed.
Local Hint Resolve quiesceMove_effects : effects.

Lemma verifyOwnerJob_effects move names name node : emits [Read] (verifyOwnerJob r move names name node).
Proof. unfold verifyOwnerJob. handler_effects. Qed.
Local Hint Resolve verifyOwnerJob_effects : effects.

Lemma recoveryJob_effects move : emits [Read; Create] (recoveryJob r move).
Proof. unfold recoveryJob. handler_effects. Qed.
Local Hint Resolve recoveryJob_effects : effects.

Lemma removeRecoveryJobs_effects move : emits [Read; Delete] (removeRecoveryJobs r move).
Proof. unfold removeRecoveryJobs. handler_effects. Qed.
Local Hint Resolve removeRecoveryJobs_effects : effects.

Lemma recover_pods_effects move claimName pods placed : emits [Evict] (recover_pods move claimName pods placed).
Proof. revert placed. induction pods as [|p pods IH]; intros ?; cbn [recover_pods]; handler_effects. Qed.
Local Hint Resolve recover_pods_effects : effects.

Lemma recoverPlacement_effects move claim : emits [Read; Evict] (recoverPlacement move claim).
Proof. unfold recoverPlacement. handler_effects. Qed.
Local Hint Resolve recoverPlacement_effects : effects.

Lemma resumeRecovery_effects move state claim : emits [Read; Evict; VolumeWrite] (resumeRecovery move state claim).
Proof. unfold resumeRecovery. handler_effects. Qed.
Local Hint Resolve resumeRecovery_effects : effects.

Lemma completeRecovery_effects move state volumeMissing : emits [Read; Delete; VolumeWrite] (completeRecovery r move state volumeMissing).
Proof. unfold completeRecovery. handler_effects. Qed.
Local Hint Resolve completeRecovery_effects : effects.

Lemma openRollbackScan_effects target : emits [ScanWrite; Read; StatusWrite; Emit; Assign] (openRollbackScan r target).
Proof. unfold openRollbackScan. handler_effects. Qed.
Local Hint Resolve openRollbackScan_effects : effects.

Lemma rollback_intent_effects move : emits [] (rollback_intent move).
Proof. unfold rollback_intent. handler_effects. Qed.
Local Hint Resolve rollback_intent_effects : effects.

Lemma ensureRollbackScan_effects : emits [ScanWrite; Read; StatusWrite; Emit; Assign] (ensureRollbackScan r).
Proof. unfold ensureRollbackScan. handler_effects. Qed.
Local Hint Resolve ensureRollbackScan_effects : effects.

Lemma rollbackInventoryFresh_effects destination requiredGeneration : emits [Read] (rollbackInventoryFresh r destination requiredGeneration).
Proof. unfold rollbackInventoryFresh. handler_effects. Qed.
Local Hint Resolve rollbackInventoryFresh_effects : effects.

Lemma rollbackInventoryPool_effects move : emits [Read] (rollbackInventoryPool r move).
Proof. unfold rollbackInventoryPool. handler_effects. Qed.
Local Hint Resolve rollbackInventoryPool_effects : effects.

Lemma rollbackArtifact_effects move : emits [Read] (rollbackArtifact r move).
Proof. unfold rollbackArtifact. handler_effects. Qed.
Local Hint Resolve rollbackArtifact_effects : effects.

Lemma ensureRecoveryCleanup_effects move spec : emits [Read; JournalWrite] (ensureRecoveryCleanup r move spec).
Proof. unfold ensureRecoveryCleanup. handler_effects. Qed.
Local Hint Resolve ensureRecoveryCleanup_effects : effects.

Lemma settledRollbackJournal_effects move : emits [Read; JournalWrite] (settledRollbackJournal r move).
Proof. unfold settledRollbackJournal. handler_effects. Qed.
Local Hint Resolve settledRollbackJournal_effects : effects.

Lemma settleSourceRollback_effects state : emits [ScanWrite; Read; StatusWrite; Emit; JournalWrite; Assign] (settleSourceRollback r state).
Proof. unfold settleSourceRollback. handler_effects. Qed.
Local Hint Resolve settleSourceRollback_effects : effects.

Lemma settleUnpublishedDestination_effects state : emits [ScanWrite; Read; StatusWrite; Emit; JournalWrite; Assign] (settleUnpublishedDestination r state).
Proof. unfold settleUnpublishedDestination. handler_effects. Qed.
Local Hint Resolve settleUnpublishedDestination_effects : effects.

Lemma settleDestinationCleanup_effects state : emits [ScanWrite; Read; StatusWrite; Emit; JournalWrite; Assign] (settleDestinationCleanup r state).
Proof. unfold settleDestinationCleanup. handler_effects. Qed.
Local Hint Resolve settleDestinationCleanup_effects : effects.

Lemma settleRecoveryArtifacts_effects state : emits [ScanWrite; Read; StatusWrite; Emit; JournalWrite; Assign] (settleRecoveryArtifacts r state).
Proof. unfold settleRecoveryArtifacts. handler_effects. Qed.
Local Hint Resolve settleRecoveryArtifacts_effects : effects.

Lemma requestWorkloadSettlement_effects observed : emits [VolumeWrite; Assign] (requestWorkloadSettlement observed).
Proof. unfold requestWorkloadSettlement. handler_effects. Qed.
Local Hint Resolve requestWorkloadSettlement_effects : effects.

(** ** The pass (MobilityReconcile) *)

Lemma settledMoveJournal_effects move state : emits [Read] (settledMoveJournal move state).
Proof. unfold settledMoveJournal. handler_effects. Qed.
Local Hint Resolve settledMoveJournal_effects : effects.

Lemma settled_journals_effects volumes moves journals : emits [Read] (settled_journals volumes moves journals).
Proof. revert journals. induction moves as [|m moves IH]; intros ?; cbn [settled_journals]; handler_effects. Qed.
Local Hint Resolve settled_journals_effects : effects.

Lemma validateSettledMoves_effects moves : emits [Read] (validateSettledMoves r moves).
Proof. unfold validateSettledMoves. handler_effects. Qed.
Local Hint Resolve validateSettledMoves_effects : effects.

Lemma retireMoveHistory_effects move : emits [Read; MoveWrite] (retireMoveHistory r move).
Proof. unfold retireMoveHistory. handler_effects. Qed.
Local Hint Resolve retireMoveHistory_effects : effects.

Lemma reconcileTerminalMove_effects move : emits [Read; Helper; MoveWrite] (reconcileTerminalMove r move).
Proof. unfold reconcileTerminalMove. handler_effects. Qed.
Local Hint Resolve reconcileTerminalMove_effects : effects.

End effects.

#[export] Hint Resolve
  now_effects observeCompletedCleanup_effects cleanupState_effects settlementArtifactsClosed_effects preflightPDB_effects
  consumerTemplate_effects compatibleDestinations_effects preflight_effects observeVolume_effects index_existing_effects
  observePools_effects observeSource_effects candidate_nodes_effects observeCandidates_effects observeDestination_effects
  boundPersistentVolume_effects observeBinding_effects observeConsumers_effects observePlacement_effects recordedWorkloadClaim_effects
  jobState_effects observeJobs_effects observeCleanup_effects observeWorkloadRetirement_effects deferOnPreflight_effects
  observePreconditions_effects observeEligibility_effects observe_effects preflightVolume_effects preparationPoolGroup_effects
  preparedWorkloadFits_effects validatePreparedPlacement_effects observePreparationPlan_effects observePreparation_effects preparedExecutionChanged_effects
  cancellationVolume_effects observeCancellation_effects poolMountPath_effects healthy_nodes_effects mounted_pools_effects
  recoveryNodes_effects observeSettlementRelease_effects observeRecovery_effects observeBlockedLifecycle_effects observeLifecycle_effects
  sourcePodReady_effects ensureTransferSecret_effects ensureRsyncConfig_effects ensureSourcePod_effects ensureSourceService_effects
  operationJob_effects ensureJob_effects ensureCopyJob_effects ensurePromotionJob_effects ensureCopyResources_effects
  deleteTransferResources_effects ensurePlacementPod_effects ensurePlacement_effects requireScheduledPlacement_effects pinReplacement_effects
  deletePlacement_effects deleteCancelledPlacement_effects ensurePreparedPlacement_effects emitMoveEvent_effects persistMoveStatus_effects
  recordMoveError_effects recoveryError_effects finalizeSourceUsage_effects measureSourceCopy_effects claimPreparationSource_effects
  initializePreparation_effects preparationCandidates_effects destinationPools_effects preparationPlacementCurrent_effects grantPreparation_effects
  grant_first_effects set_reason_effects prepareDestination_effects validateDisruptionConsumer_effects evictConsumer_effects
  startPreparedSource_effects startPreparedDisruption_effects destinationCapacityForPool_effects convertPreparation_effects ensureCapacity_effects
  ensureCopy_effects ensurePromotion_effects confirmCommitConflict_effects commitOwner_effects validateReplacementRelease_effects
  release_held_effects releasePlacement_effects markSucceeded_effects markBlocked_effects acknowledgeCleanup_effects
  observeTerminalExecutor_effects driveCleanupAbsence_effects ensureCleanupSpec_effects ensureCleanupContract_effects reviewCleanupJournal_effects
  settleTerminalCleanup_effects observeTerminalCleanupHistory_effects removeJob_effects remove_jobs_effects remove_helpers_effects
  quiesceMove_effects verifyOwnerJob_effects recoveryJob_effects removeRecoveryJobs_effects recover_pods_effects
  recoverPlacement_effects resumeRecovery_effects completeRecovery_effects openRollbackScan_effects rollback_intent_effects
  ensureRollbackScan_effects rollbackInventoryFresh_effects rollbackInventoryPool_effects rollbackArtifact_effects ensureRecoveryCleanup_effects
  settledRollbackJournal_effects settleSourceRollback_effects settleUnpublishedDestination_effects settleDestinationCleanup_effects settleRecoveryArtifacts_effects
  requestWorkloadSettlement_effects settledMoveJournal_effects settled_journals_effects validateSettledMoves_effects retireMoveHistory_effects
  reconcileTerminalMove_effects : effects.

(** Every effect there is. *)
Definition any_effect : list effect :=
  [Read; Lock; VolumeWrite; StatusWrite; MoveWrite; ScanWrite; Helper; JournalWrite; PodUpdate; Evict; Create; Delete; Emit; Assign].

(** The history only grew in the run [H]. *)
Ltac note_extends H :=
  match type of H with
  | ?c ?w = (_, ?w') =>
      let E := fresh "Hext" in
      assert (E : extends w w') by (eapply (emits_extends any_effect c w w'); [solve [handler_effects] | exact H])
  end.
