(* ===== verification/MobilityFacts.v ===== *)
(** * The mobility controller: what a snapshot rests on

    A fact of the snapshot that an irreversible action depends on was answered during
    the same pass: [supported] names the answer for each of them, and every step of an
    observation keeps it. *)

From S2P Require Import Prelude RecordUpdate Bytes VolumeIdentity Fsm Apimachinery Registration GoTime ApiServer VolumeState.
From S2P Require Import PoolApi VolumeRegistry MoveApi Capacity CleanupJournal History Kube Mobility MobilityRules MobilityPods MobilityObserve MobilityLifecycle MobilityTransfer.
From S2P Require Import MobilityLogic MobilityEffects.

(** The part of a snapshot that irreversible actions rest on. *)
Record digest := Digest {
  d_volume : State;
  d_copied : bool;
  d_promoted : bool;
  d_committed : bool;
  d_published : bool;
  d_retired : bool;
  d_names : resourceNames
}.

Definition digest_of (o : observation) : digest :=
  Digest (observation.Volume o) (Fsm.CopyComplete (observation.FSM o)) (Fsm.PromotionComplete (observation.FSM o))
    (Fsm.OwnerCommitted (observation.FSM o)) (Fsm.PublishedOnDestination (observation.FSM o))
    (Fsm.WorkloadRetired (observation.FSM o)) (observation.Names o).

(** Nothing was observed. *)
Definition blank (names : resourceNames) : digest := Digest zeroState false false false false false names.

(** The Job of that name was read complete. *)
Definition job_complete (r : Reconciler) (w : Run) (name : string) : Prop :=
  exists job, answered w (GetJob (Reconciler.Namespace r) name) job /\ fst (job_outcome (Job.Conditions job)) = true.

(** A scan of the copy's Pool was read that reports it published. *)
Definition copy_published (w : Run) (copy : option CopyIdentity) : Prop :=
  exists registered ready pool c, answered w ObservePools (registered, ready) /\ (pool ∈ registered \/ pool ∈ ready) /\ copy = Some c /\
    Pool.UID pool = PoolUID c /\ Pool.Name pool = PoolName c /\ Pool.NodeName pool = NodeName c /\ PoolHasPublishedCopy pool copy = true.

(** The claim that the Move recorded was read to be gone, or to be another one. *)
Definition claim_retired (w : Run) {EN : Environment} (m : Move) : Prop :=
  let c := GetClaim (MoveStatus.ClaimNamespace (Move.Status m)) (MoveStatus.ClaimName (Move.Status m)) in
  (exists err, Event c (Err err) ∈ log w /\ IsNotFound err = true) \/
  (exists claim, answered w c claim /\ ObjectMeta.UID (PersistentVolumeClaim.Meta claim) <> MoveStatus.ClaimUID (Move.Status m)).

Record supported_by {EN : Environment} (r : Reconciler) (m : Move) (w : Run) (d : digest) : Prop := {
  volume_read : d_volume d = zeroState \/ answered w (GetVolume (MoveSpec.VolumeID (Move.Spec m))) (d_volume d);
  copied_read : d_copied d = true -> job_complete r w (resourceNames.CopyJob (namesFor (Move.Name m)));
  promoted_read : d_promoted d = true -> job_complete r w (resourceNames.PromotionJob (namesFor (Move.Name m)));
  committed_read : d_committed d = true -> hasCommittedDestinationAuthority m (d_volume d) false = true;
  published_read : d_published d = true -> copy_published w (MoveStatus.DestinationCopy (Move.Status m));
  retired_read : d_retired d = true -> claim_retired w m
}.

Definition supported {EN : Environment} (r : Reconciler) (m : Move) (w : Run) (o : observation) : Prop := supported_by r m w (digest_of o).

(** Case analysis on the tests of a run that returned. *)
Ltac run_cases :=
  repeat (run_inv;
          match goal with
          | H : (if ?b then _ else _) _ = (Ok _, _) |- _ => destruct b eqn:?
          | H : (match ?x with _ => _ end) _ = (Ok _, _) |- _ => destruct x eqn:?
          end); run_inv.

(** An assignment to another fact, and a choice between snapshots. *)
Lemma digest_if (b : bool) (x y : observation) (d : digest) : digest_of x = d -> digest_of y = d -> digest_of (if b then x else y) = d.
Proof. by destruct b. Qed.

Ltac digest_steps :=
  repeat first
    [ apply digest_if
    | match goal with |- digest_of (assign _ ?o) = _ => transitivity (digest_of o); [reflexivity|] end
    | reflexivity ].

Section facts.
Context {AM : Apimachinery} {EN : Environment} (r : Reconciler).

(** ** Steps that leave the digest alone *)

Lemma observeSource_digest move pools o w o' w' : observeSource move pools o w = (Ok o', w') -> digest_of o' = digest_of o.
Proof. unfold observeSource. intros H. run_cases. repeat case_match; reflexivity. Qed.

Lemma observeCandidates_digest move pools o w o' w' : observeCandidates move pools o w = (Ok o', w') -> digest_of o' = digest_of o.
Proof. unfold observeCandidates. intros H. run_cases. reflexivity. Qed.

Lemma observeBinding_digest move o w o' done w' : observeBinding move o w = (Ok (o', done), w') -> digest_of o' = digest_of o.
Proof. unfold observeBinding, unbound. intros H. run_cases; simplify_eq; reflexivity. Qed.
Lemma observeConsumers_digest move o w o' done w' : observeConsumers move o w = (Ok (o', done), w') -> digest_of o' = digest_of o.
Proof. unfold observeConsumers. intros H. run_cases. repeat case_match; simplify_eq; reflexivity. Qed.

Lemma preflight_digest o w o' reason w' : preflight o w = (Ok (o', reason), w') -> digest_of o' = digest_of o.
Proof. unfold preflight. intros H. run_cases; simplify_eq; reflexivity. Qed.

Lemma deferOnPreflight_digest o b w o' w' : deferOnPreflight o b w = (Ok o', w') -> digest_of o' = digest_of o.
Proof.
  unfold deferOnPreflight. intros H. run_cases. match goal with H : preflight _ _ = _ |- _ => apply preflight_digest in H as <- end.
  repeat case_match; reflexivity.
Qed.

Lemma observePreconditions_digest move o w o' w' : observePreconditions move o w = (Ok o', w') -> digest_of o' = digest_of o.
Proof.
  unfold observePreconditions. intros H. run_cases;
    repeat match goal with H : deferOnPreflight _ _ _ = _ |- _ => apply deferOnPreflight_digest in H as -> end;
    repeat case_match; reflexivity.
Qed.

Lemma observePlacement_digest move o w o' w' : observePlacement r move o w = (Ok o', w') -> digest_of o' = digest_of o.
Proof. unfold observePlacement. intros H. run_cases; repeat case_match; reflexivity. Qed.

Lemma refuseDestination_digest o reason : digest_of (refuseDestination o reason) = digest_of o.
Proof. reflexivity. Qed.

Lemma judgeDestination_digest move pools o selected node : digest_of (judgeDestination move pools o selected node) = digest_of o.
Proof. unfold judgeDestination. cbv zeta. repeat first [rewrite refuseDestination_digest | progress digest_steps]. Qed.

Lemma observeDestination_digest move pools o w o' done w' :
  observeDestination r move pools o w = (Ok (o', done), w') -> digest_of o' = digest_of o.
Proof. unfold observeDestination. intros H. run_cases; simplify_eq; by rewrite ?judgeDestination_digest. Qed.

Lemma observeCleanup_digest move o w o' w' : observeCleanup r move o w = (Ok o', w') -> digest_of o' = digest_of o.
Proof. unfold observeCleanup. intros H. run_cases; reflexivity. Qed.

Lemma observePreparationPlan_digest move o w o' w' : observePreparationPlan r move o w = (Ok o', w') -> digest_of o' = digest_of o.
Proof.
  unfold observePreparationPlan. intros H. run_cases; repeat case_match; try reflexivity; by eapply observePlacement_digest.
Qed.

Lemma lifecycleFacts_digest move o : digest_of (lifecycleFacts move o) = digest_of o.
Proof. reflexivity. Qed.

Lemma observeMoveState_digest move o : digest_of (observeMoveState move o) = digest_of o.
Proof. unfold observeMoveState. repeat case_match; reflexivity. Qed.

Lemma observeReplacement_digest move o : digest_of (observeReplacement move o) = digest_of o.
Proof. unfold observeReplacement. repeat case_match; reflexivity. Qed.

(** ** Steps that add a fact *)

Lemma supported_blank m w names : supported_by r m w (blank names).
Proof. split; try done. by left. Qed.

Lemma job_complete_extends w w' name : extends w w' -> job_complete r w name -> job_complete r w' name.
Proof. intros Hw (job & Hjob & Hdone). exists job. split; [|done]. by eapply answered_extends. Qed.

Lemma supported_extends m w w' d : extends w w' -> supported_by r m w d -> supported_by r m w' d.
Proof.
  intros Hw [Hv Hc Hp Ho Hpub Hret]. split; try done.
  - destruct Hv; [by left|right; by eapply answered_extends].
  - intros. eapply job_complete_extends; eauto.
  - intros. eapply job_complete_extends; eauto.
  - intros H. destruct (Hpub H) as (registered & ready & pool & c & Ha & Hrest). exists registered, ready, pool, c.
    split; [by eapply answered_extends|done].
  - intros H. destruct (Hret H) as [(err & Herr & ?)|(claim & Hclaim & ?)]; [left|right].
    + exists err. split; [|done]. by eapply logged_extends.
    + exists claim. split; [by eapply answered_extends|done].
Qed.

Lemma jobState_complete name w complete failed w' :
  jobState r name w = (Ok (complete, failed), w') -> complete = true -> job_complete r w' name.
Proof.
  unfold jobState. intros H. apply io_bind_Ok in H as (got & w1 & Hgot & H). injection H as Hout <-.
  apply wrapf_Ok, optional_Ok in Hgot. destruct got as [job|]; [|intros ->; discriminate].
  intros ->. exists job. split; [by eapply perform_answered|by rewrite Hout].
Qed.

Lemma observeJobs_supported m repaired o w o' w' :
  d_names (digest_of o) = namesFor (Move.Name m) -> observeJobs r m repaired o w = (Ok o', w') -> supported r m w o -> supported r m w' o'.
Proof.
  unfold observeJobs. intros Hnames H Hw. apply io_bind_Ok in H as ([c f] & w1 & Hcopy & H).
  apply io_bind_Ok in H as ([pc pf] & w2 & Hpromotion & H). injection H as <- <-.
  pose proof (emits_extends _ _ _ _ _ (jobState_effects r _) Hcopy) as H1.
  pose proof (emits_extends _ _ _ _ _ (jobState_effects r _) Hpromotion) as H2.
  apply (supported_extends m w w2) in Hw; [|by transitivity w1]. cbn in Hnames. rewrite Hnames in Hcopy, Hpromotion.
  assert (Hd : forall x, supported_by r m w2 (Digest (observation.Volume o) c pc (Fsm.OwnerCommitted (observation.FSM o))
                 (Fsm.PublishedOnDestination (observation.FSM o)) (Fsm.WorkloadRetired (observation.FSM o)) x)).
  { intros x. destruct Hw as [Hv _ _ Ho Hpub Hret]. split; [exact Hv| | |exact Ho|exact Hpub|exact Hret].
    - intros Hc. eapply job_complete_extends; [exact H2|]. by eapply jobState_complete.
    - intros Hp. by eapply jobState_complete. }
  unfold supported. case_match; apply Hd.
Qed.

(** A map of Pools by their UID, all of them in [Q]. *)
Definition indexed (Q : Pool -> Prop) (pools : gmap string Pool) : Prop :=
  forall uid pool, pools !! uid = Some pool -> Pool.UID pool = uid /\ Q pool.

(** The Pools of a snapshot were listed. *)
Definition pools_read (w : Run) (pools : gmap string Pool) : Prop :=
  exists registered ready, answered w ObservePools (registered, ready) /\
    indexed (fun pool => pool ∈ registered \/ pool ∈ ready) pools.

Lemma indexed_insert Q pools pool : Q pool -> indexed Q pools -> indexed Q (<[Pool.UID pool := pool]> pools).
Proof.
  intros HQ Hpools uid p. destruct (decide (Pool.UID pool = uid)) as [<-|Hne]; [rewrite lookup_insert_eq|by rewrite lookup_insert_ne by done; apply Hpools].
  by intros [= <-].
Qed.

Lemma index_ready_sound registered pools : indexed (fun pool => pool ∈ pools) (index_ready registered pools).
Proof.
  unfold index_ready. assert (Hacc : indexed (fun pool => pool ∈ pools) ∅) by (intros ? ? Hempty; by rewrite lookup_empty in Hempty).
  assert (Hl : forall p, p ∈ pools -> p ∈ pools) by done. revert Hl Hacc. generalize (∅ : gmap string Pool) as acc.
  generalize pools at 1 5 as l. induction l as [|p l IH]; intros acc Hl Hacc; [done|]. simpl. apply IH.
  - intros. apply Hl. by right.
  - case_match; [|done]. apply indexed_insert; [|done]. apply Hl. by left.
Qed.

Lemma index_existing_sound ready pools existing w existing' w' (Q : Pool -> Prop) :
  index_existing r ready existing pools w = (Ok existing', w') ->
  (forall p, p ∈ pools -> Q p) -> indexed Q existing -> indexed Q existing'.
Proof.
  revert existing w. induction pools as [|p pools IH]; intros existing w H Hpools Hex; cbn [index_existing] in H; run_cases; [done|..].
  - eapply IH; [eassumption| |done]. intros; apply Hpools; by right.
  - eapply IH; [eassumption|intros; apply Hpools; by right|]. case_match; [|done]. apply indexed_insert; [|done]. apply Hpools. by left.
Qed.

Lemma observePools_read w pools w' : observePools r w = (Ok pools, w') -> pools_read w' (poolIndex.existing pools).
Proof.
  unfold observePools. intros H. apply io_bind_Ok in H as ([registered ready] & w1 & Hlist & H).
  apply io_bind_Ok in H as (index & w2 & Hindex & H). run_inv. exists registered, ready. split.
  - eapply answered_extends; [|by eapply perform_answered].
    match goal with H : index_existing _ _ _ _ _ = _ |- _ => by eapply emits_extends; [apply index_existing_effects|exact H] end.
  - match goal with H : index_existing _ _ _ _ _ = _ |- _ => eapply index_existing_sound in H; [exact H|..] end.
    + intros p Hp. by left.
    + intros uid pool Hpool. apply index_ready_sound in Hpool as [? ?]. split; [done|by right].
Qed.

Lemma pools_read_extends w w' pools : extends w w' -> pools_read w pools -> pools_read w' pools.
Proof. intros Hw (registered & ready & Ha & Hp). exists registered, ready. split; [by eapply answered_extends|done]. Qed.

Lemma observeDestinationPublish_supported m pools o w :
  pools_read w (poolIndex.existing pools) -> supported r m w o -> supported r m w (observeDestinationPublish m pools o).
Proof.
  intros (registered & ready & Ha & Hp) Hw. destruct Hw as [Hv Hc Hpr Ho Hpub Hret].
  split; [exact Hv|exact Hc|exact Hpr|exact Ho| |exact Hret]. cbn. intros Hpub'.
  apply andb_prop in Hpub' as [_ Hpub']. apply some_and_true in Hpub' as (pool & Hpool & Hpub').
  unfold indexedCopyPool in Hpool. destruct (MoveStatus.DestinationCopy (Move.Status m)) as [c|] eqn:Hcopy; [|done].
  destruct (is_ok (Validate c)); [|done]. destruct (poolIndex.existing pools !! PoolUID c) as [p|] eqn:Hlook; [|done].
  destruct ((_ == _) && _) eqn:Hsame in Hpool; [|done]. injection Hpool as ->.
  apply andb_prop in Hsame as [?%bool_decide_eq_true ?%bool_decide_eq_true]. apply Hp in Hlook as [Huid Hin]. exists registered, ready, pool, c. split_and!; try done.
Qed.

(** ** Snapshots *)

Lemma observeVolume_supported m o names w o' done w' :
  digest_of o = blank names -> observeVolume r m o w = (Ok (o', done), w') -> supported r m w' o' /\ d_names (digest_of o') = names.
Proof.
  intros Ho H. unfold observeVolume in H. apply io_bind_Ok in H as (got & w1 & Hgot & H). apply attempt_inv in Hgot as (got' & [= ->] & Hgot).
  destruct got' as [state|err].
  - apply perform_answered in Hgot. cbv zeta in H.
    assert (Hd : forall w b, extends w1 w -> (b = true -> hasCommittedDestinationAuthority m state false = true) ->
                 supported_by r m w (Digest state false false b false false names)).
    { intros w2 b Hw Hb. split; try done. right. by eapply answered_extends. }
    assert (Hd' : forall o' w b, extends w1 w -> (b = true -> hasCommittedDestinationAuthority m state false = true) ->
                  digest_of o' = Digest state false false b false false names -> supported r m w o' /\ d_names (digest_of o') = names).
    { intros o2 w2 b Hw Hb Heq. unfold supported. rewrite Heq. split; [by apply Hd|done]. }
    injection Ho as Hv Hc Hp Hco Hpu Hr Hn. destruct (_ == _) in H.
    + injection H as <- _ <-. apply Hd' with (b := false); [done|done|]. unfold digest_of. cbn. congruence.
    + apply io_bind_Ok in H as (failed & w2 & Hfailed & H).
      assert (Hw : extends w1 w2).
      { eapply emits_extends; [|exact Hfailed]. instantiate (1 := [Read]). handler_effects. }
      destruct failed; injection H as <- _ <-.
      * apply Hd' with (b := false); [done|done|]. unfold digest_of. cbn. congruence.
      * apply Hd' with (b := hasCommittedDestinationAuthority m state false); [done|done|]. unfold digest_of. cbn. congruence.
  - destruct (_ && _) in H; [|done]. injection H as <- _ <-.
    change (supported_by r m w1 (digest_of o) /\ d_names (digest_of o) = names). rewrite Ho. split; [apply supported_blank|done].
Qed.

Lemma claim_retired_extends m w w' : extends w w' -> claim_retired w m -> claim_retired w' m.
Proof.
  intros Hw [(err & Herr & ?)|(claim & Hclaim & ?)]; [left|right].
  - exists err. split; [|done]. by eapply logged_extends.
  - exists claim. split; [by eapply answered_extends|done].
Qed.

Lemma observeWorkloadRetirement_retired m state w o w' :
  observeWorkloadRetirement m state w = (Ok (Some o), w') ->
  digest_of o = Digest state false false false false true (observation.Names o) /\ claim_retired w' m.
Proof.
  unfold observeWorkloadRetirement. destruct (negb _); [discriminate|]. intros H.
  apply io_bind_Ok in H as (claim & w1 & Hclaim & H). apply wrapf_Ok in Hclaim.
  assert (Hc : claim_retired w1 m \/ some_and claim (fun claim => ObjectMeta.UID (PersistentVolumeClaim.Meta claim) == MoveStatus.ClaimUID (Move.Status m)) = true).
  { apply optional_Ok in Hclaim. destruct claim as [claim|].
    - destruct (decide (ObjectMeta.UID (PersistentVolumeClaim.Meta claim) = MoveStatus.ClaimUID (Move.Status m))) as [He|He].
      + right. by apply bool_decide_eq_true.
      + left. right. exists claim. split; [by eapply perform_answered|done].
    - destruct Hclaim as (err & Hperform & Hmissing). left. left. exists err. split; [|done].
      apply perform_inv in Hperform as [_ ->]. by left. }
  apply io_bind_Ok in H as (? & w2 & Hreject & H). apply io_lift_Ok in Hreject as [_ ->].
  destruct (some_and claim _) in H, Hc; [discriminate|]. destruct Hc as [Hc|]; [|done].
  apply io_bind_Ok in H as (? & w3 & Hcheck & H). apply io_bind_Ok in H as (? & w4 & Howner & H).
  apply io_lift_Ok in Howner as [_ ->]. injection H as <- <-. split; [reflexivity|].
  eapply claim_retired_extends; [|exact Hc]. eapply emits_extends; [|exact Hcheck]. instantiate (1 := [Read]). handler_effects.
Qed.

Lemma supported_digest m w o o' : digest_of o' = digest_of o -> supported r m w o -> supported r m w o'.
Proof. unfold supported. by intros ->. Qed.

Lemma observeEligibility_supported m o names w o' pools done w' :
  digest_of o = blank names -> observeEligibility r m o w = (Ok (o', pools, done), w') ->
  supported r m w' o' /\ (done = false -> d_names (digest_of o') = names /\ pools_read w' (poolIndex.existing pools)).
Proof.
  intros Ho H. unfold observeEligibility in H. apply io_bind_Ok in H as ([o1 done1] & w1 & Hvolume & H).
  destruct (observeVolume_supported _ _ _ _ _ _ _ Ho Hvolume) as [H1 Hn1]. destruct done1; [by injection H as <- _ <- <-|].
  apply io_bind_Ok in H as (retired & w2 & Hretired & H). note_extends Hretired. destruct retired as [o2|].
  { injection H as <- _ <- <-. split; [|done]. apply observeWorkloadRetirement_retired in Hretired as [Hd Hclaim].
    unfold supported. rewrite Hd. destruct (supported_extends _ _ _ _ Hext H1) as [Hv _ _ _ _ _]. by split. }
  apply io_bind_Ok in H as (pools' & w3 & Hpools & H). note_extends Hpools.
  apply io_bind_Ok in H as (o4 & w4 & Hsource & H). note_extends Hsource.
  apply io_bind_Ok in H as (o5 & w5 & Hcand & H). note_extends Hcand.
  apply io_bind_Ok in H as ([o6 done6] & w6 & Hbind & H). note_extends Hbind.
  apply observePools_read in Hpools. apply observeSource_digest in Hsource. apply observeCandidates_digest in Hcand.
  apply observeBinding_digest in Hbind. assert (Hd6 : digest_of o6 = digest_of o1) by congruence.
  assert (Hw6 : extends w3 w6) by extends_chain.
  assert (Hs6 : supported r m w6 o6).
  { apply (supported_digest _ _ o1); [done|]. eapply supported_extends; [|exact H1]. extends_chain. }
  destruct done6; [by injection H as <- _ <- <-|].
  apply io_bind_Ok in H as ([o7 done7] & w7 & Hcons & H). note_extends Hcons. apply observeConsumers_digest in Hcons.
  assert (Hs7 : supported r m w7 o7) by (apply (supported_digest _ _ o6); [done|]; by eapply supported_extends).
  destruct done7; [by injection H as <- _ <- <-|].
  apply io_bind_Ok in H as (o8 & w8 & Hpre & H). note_extends Hpre. apply observePreconditions_digest in Hpre.
  injection H as <- <- <- <-. split; [apply (supported_digest _ _ o7); [done|]; by eapply supported_extends|]. intros _. split; [congruence|].
  eapply pools_read_extends; [|exact Hpools]. extends_chain.
Qed.

Lemma observe_supported m w o w' : observe r m w = (Ok o, w') -> supported r m w' o.
Proof.
  unfold observe. intros H. apply io_bind_Ok in H as ([[o1 pools] done] & w1 & Helig & H).
  apply (observeEligibility_supported _ _ (namesFor (Move.Name m))) in Helig as [H1 Hdone]; [|reflexivity].
  destruct done; [by injection H as <- <-|].
  destruct (Hdone eq_refl) as [Hnames Hpools]. cbv zeta in H.
  apply io_bind_Ok in H as (o2 & w2 & Hplace & H). note_extends Hplace. apply observePlacement_digest in Hplace.
  rewrite observeReplacement_digest, observeMoveState_digest in Hplace.
  apply io_bind_Ok in H as ([o3 repaired] & w3 & Hdest & H). note_extends Hdest. apply observeDestination_digest in Hdest.
  assert (H3 : supported r m w3 o3).
  { apply (supported_digest _ _ o1); [congruence|]. eapply supported_extends; [|exact H1]. by etrans. }
  apply io_bind_Ok in H as (o4 & w4 & Hjobs & H). note_extends Hjobs.
  eapply observeJobs_supported in Hjobs; [|congruence|exact H3].
  note_extends H. apply observeCleanup_digest in H. apply (supported_digest _ _ (observeDestinationPublish m pools o4)); [done|].
  eapply supported_extends; [exact Hext2|]. apply observeDestinationPublish_supported; [|done].
  eapply pools_read_extends; [|exact Hpools]. extends_chain.
Qed.

Lemma observePreparation_supported m w o w' : observePreparation r m w = (Ok o, w') -> supported r m w' o.
Proof.
  unfold observePreparation. cbv zeta. intros H. apply io_bind_Ok in H as (? & w1 & Hr & H). apply io_lift_Ok in Hr as [_ ->].
  apply io_bind_Ok in H as (? & w1 & Hr & H). apply io_lift_Ok in Hr as [_ ->].
  destruct (_ && _) in H; [injection H as <- <-; apply supported_blank|].
  destruct (negb _) in H; [injection H as <- <-; apply supported_blank|].
  apply io_bind_Ok in H as ([[o1 pools] done] & w1 & Helig & H).
  apply (observeEligibility_supported _ _ (namesFor (Move.Name m))) in Helig as [H1 _]; [|reflexivity].
  assert (Hs : supported_by r m w1 (digest_of o1)) by (destruct H1 as [Hv Hc Hp Hco Hpu Hr]; exact (Build_supported_by _ r m w1 _ Hv Hc Hp Hco Hpu Hr)).
  clear H1. rename Hs into H1.
  destruct (Fsm.WorkloadRetired _) in H; [by injection H as <- <-|]. destruct (_ && _) in H.
  - apply io_bind_Ok in H as (? & w2 & Hr & H). apply io_lift_Ok in Hr as [_ ->]. by injection H as <- <-.
  - apply io_bind_Ok in H as (? & w2 & Hr & H). apply io_lift_Ok in Hr as [_ ->].
    destruct (Move.Deleting m); [by injection H as <- <-|]. note_extends H. apply observePreparationPlan_digest in H.
    unfold supported. rewrite H. by eapply supported_extends.
Qed.

(** A snapshot with the Volume alone. *)
Lemma supported_volume m w state names :
  state = zeroState \/ answered w (GetVolume (MoveSpec.VolumeID (Move.Spec m))) state ->
  supported_by r m w (Digest state false false false false false names).
Proof. by split. Qed.

Lemma cancellationVolume_read m w state w' :
  cancellationVolume m w = (Ok state, w') -> state = zeroState \/ answered w' (GetVolume (MoveSpec.VolumeID (Move.Spec m))) state.
Proof.
  unfold cancellationVolume. intros H. apply io_bind_Ok in H as (got & w1 & Hgot & H). apply wrapf_Ok, optional_Ok in Hgot.
  assert (Hv : default zeroState got = zeroState \/ answered w1 (GetVolume (MoveSpec.VolumeID (Move.Spec m))) (default zeroState got)).
  { destruct got; [right; by eapply perform_answered|by left]. }
  cbv zeta in H. run_cases; done.
Qed.

Lemma observeCancellation_supported m w o w' : observeCancellation r m w = (Ok o, w') -> supported r m w' o.
Proof.
  unfold observeCancellation. cbv zeta. intros H.
  apply io_bind_Ok in H as (? & ? & Hr & H). apply io_lift_Ok in Hr as [_ ->].
  apply io_bind_Ok in H as (? & ? & Hr & H). apply io_lift_Ok in Hr as [_ ->].
  apply io_bind_Ok in H as (? & ? & Hr & H). apply io_lift_Ok in Hr as [_ ->].
  apply io_bind_Ok in H as (state & w1 & Hstate & H). apply cancellationVolume_read in Hstate as Hv.
  destruct (_ || _) in H; [injection H as <- <-; by apply supported_volume|].
  apply io_bind_Ok in H as (got & w2 & Hgot & H). note_extends Hgot.
  assert (Hs : forall names, supported_by r m w2 (Digest state false false false false false names)).
  { intros names. eapply supported_extends; [exact Hext|]. by apply supported_volume. }
  destruct got; run_inv; apply Hs.
Qed.

Lemma observeSettlementRelease_supported m got w o w' :
  (forall state, got = Ok state -> answered w (GetVolume (MoveSpec.VolumeID (Move.Spec m))) state) ->
  observeSettlementRelease r m got w = (Ok (Some o), w') -> supported r m w' o.
Proof.
  unfold observeSettlementRelease. intros Hgot H. destruct got as [state|err].
  - destruct (_ == _) in H; [discriminate|]. run_inv. match goal with H : settlementArtifactsClosed _ _ _ = _ |- _ => note_extends H end.
    apply supported_volume. right. eapply answered_extends; [exact Hext|]. by apply Hgot.
  - destruct (IsNotFound err); [|discriminate]. run_inv. apply supported_blank.
Qed.

Lemma observeRecovery_supported m w o w' : observeRecovery r m w = (Ok o, w') -> supported r m w' o.
Proof.
  unfold observeRecovery. cbv zeta. intros H. apply io_bind_Ok in H as (got & w1 & Hgot & H). apply attempt_inv in Hgot as (got' & [= ->] & Hgot).
  assert (Hv : forall state, got' = Ok state -> answered w1 (GetVolume (MoveSpec.VolumeID (Move.Spec m))) state).
  { intros state ->. by eapply perform_answered. }
  apply io_bind_Ok in H as (released & w2 & Hreleased & H). note_extends Hreleased. destruct released as [o2|].
  { injection H as <- <-. destruct (_ && _) in Hreleased; [|discriminate]. by eapply observeSettlementRelease_supported. }
  apply io_bind_Ok in H as (state & w3 & Hstate & H). apply io_lift_Ok in Hstate as [-> ->].
  assert (Hs : forall w, extends w2 w -> forall names, supported_by r m w (Digest state false false false false false names)).
  { intros w3 Hw names. apply supported_volume. right. eapply answered_extends; [|by apply Hv]. by etrans. }
  destruct (_ && _) in H.
  - apply io_bind_Ok in H as (? & w3 & Hr & H). note_extends Hr. injection H as <- <-. by apply Hs.
  - destruct (recoveryGuards m state) as [[]|]; [discriminate|]. apply io_bind_Ok in H as (? & w3 & Hr & H). note_extends Hr.
    destruct (MoveStatus.SettlementRequested _); [injection H as <- <-; by apply Hs|].
    apply io_bind_Ok in H as (claim & w4 & Hclaim & H). note_extends Hclaim. injection H as <- <-. apply Hs. by etrans.
Qed.

Lemma observeBlockedLifecycle_supported m w o w' : observeBlockedLifecycle r m w = (Ok o, w') -> supported r m w' o.
Proof.
  unfold observeBlockedLifecycle. intros H. apply io_bind_Ok in H as (retired & w1 & Hretired & H). destruct retired as [o1|].
  - injection H as <- <-. destruct (needsWorkloadLifetime m); [|discriminate].
    apply io_bind_Ok in Hretired as (state & w2 & Hstate & Hretired). note_extends Hretired.
    apply observeWorkloadRetirement_retired in Hretired as [Hd Hclaim]. unfold supported. rewrite Hd. split; try done.
    right. eapply answered_extends; [exact Hext|]. by eapply perform_answered.
  - destruct (needsRecoveryObservation m); [by eapply observeRecovery_supported|]. injection H as <- <-. apply supported_blank.
Qed.

(** Every fact of a snapshot that an irreversible action rests on was answered in the
    pass. *)
Lemma observeLifecycle_supported m w o w' : observeLifecycle r m w = (Ok o, w') -> supported r m w' (lifecycleFacts m o).
Proof.
  intros H. apply (supported_digest _ _ o); [apply lifecycleFacts_digest|]. unfold observeLifecycle in H. cbv zeta in H.
  destruct (_ == _) in H; [by eapply observeCancellation_supported|].
  destruct (_ || _) in H; [injection H as <- <-; apply supported_blank|].
  destruct (_ == _) in H; [by eapply observeCancellation_supported|].
  destruct (_ == _) in H; [by eapply observeBlockedLifecycle_supported|].
  destruct (contains _ _) in H; [by eapply observePreparation_supported|].
  apply io_bind_Ok in H as (? & ? & Hr & H). apply io_lift_Ok in Hr as [_ ->].
  apply io_bind_Ok in H as (o1 & w1 & Hobserve & H). apply observe_supported in Hobserve.
  destruct (_ && _) in H; [|by injection H as <- <-]. destruct (Move.Deleting m); [by injection H as <- <-|].
  apply io_bind_Ok in H as ([reason unavailable] & w2 & Hchanged & H). note_extends Hchanged. injection H as <- <-.
  apply (supported_digest _ _ o1); [reflexivity|]. by eapply supported_extends.
Qed.
End facts.
