(* ===== verification/MobilityIdentity.v ===== *)
(** * The mobility controller: the identity of the Move

    A pass works on one Move: the record it points to is replaced by what the status
    writes answer, and keeps the name, the UID and the immutable plan.  [FaithfulStore]
    is what the pass needs of the registry for it. *)

From S2P Require Import Prelude RecordUpdate Bytes VolumeIdentity Fsm Apimachinery Registration GoTime ApiServer VolumeState.
From S2P Require Import PoolApi VolumeRegistry MoveApi Capacity CleanupJournal History Kube Mobility MobilityRules MobilityPods MobilityObserve MobilityLifecycle MobilityTransfer MobilityActions MobilityRecovery MobilityReconcile.
From S2P Require Import MobilityLogic MobilityEffects.

Definition identity (m : Move) : string * string * MoveSpec := (Move.Name m, Move.UID m, Move.Spec m).

(** The registry answers a write of the status of a Move with that Move. *)
Class FaithfulStore {EN : Environment} : Prop := {
  status_answer : forall l m s stored, respond l (CompareAndSetMoveStatus m s) = Ok stored -> identity stored = identity m;
  usage_answer : forall l m copy bytes stored, respond l (RecordSourceUsage m copy bytes) = Ok stored -> identity stored = identity m
}.

(** The registry accepts a reservation only on a Move that may hold it, and answers with the Move it stored. *)
Class CheckedStore {EN : Environment} : Prop := {
  checked_answer : forall l m s stored, respond l (CompareAndSetMoveStatus m s) = Ok stored ->
    identity stored = identity m /\ MoveStatus.Preparation (Move.Status stored) = MoveStatus.Preparation s /\
    MoveStatus.SourceCopy (Move.Status stored) = MoveStatus.SourceCopy s /\ ValidateMovePreparation stored = Ok tt
}.

(** The Go types of the two listings: a map has each key once, and the quantities are [int64]. *)
Class TypedListings {EN : Environment} : Prop := {
  volumes_once : forall l volumes, respond l ListVolumes = Ok volumes -> NoDup volumes.*1;
  volumes_int64 : forall l volumes, respond l ListVolumes = Ok volumes ->
    Forall (fun '(_, state) => int64_range (State.CapacityBytes state)) volumes;
  moves_int64 : forall l moves, respond l ListMoves = Ok moves ->
    Forall (fun m => forall p, MoveStatus.Preparation (Move.Status m) = Some p -> int64_range (MovePreparation.ReservedBytes p)) moves
}.

(** The Move that is pointed to keeps its identity. *)
Definition keeps_at (w : Run) {A : Type} (c : io Run A) : Prop := identity (cell (snd (c w))) = identity (cell w).
Definition keeps {A : Type} (c : io Run A) : Prop := forall w, keeps_at w c.

Section rules.
Context {EN : Environment}.

Lemma keeps_emits E {A : Type} (c : io Run A) : emits E c -> within E Assign = false -> keeps c.
Proof. intros Hc HE w. destruct (Hc w) as (l & _ & _ & Hcell). unfold keeps_at. by rewrite Hcell. Qed.

Lemma keeps_at_then {A B : Type} (c : io Run A) (k : A -> io Run B) (w : Run) : keeps_at w c -> (forall a, keeps (k a)) -> keeps_at w (c ≫= k).
Proof.
  intros Hc Hk. unfold keeps_at, mbind, io_bind in *. destruct (c w) as [[a|] w1]; [|done]. etrans; [apply Hk|done].
Qed.

Lemma keeps_bind {A B : Type} (c : io Run A) (k : A -> io Run B) : keeps c -> (forall a, keeps (k a)) -> keeps (c ≫= k).
Proof. intros Hc Hk w. by apply keeps_at_then. Qed.

(** After a step that assigns nothing, the Move is the same one. *)
Lemma keeps_at_bind E {A B : Type} (c : io Run A) (k : A -> io Run B) (w : Run) :
  emits E c -> within E Assign = false -> (forall a w1, c w = (Ok a, w1) -> cell w1 = cell w -> keeps_at w1 (k a)) -> keeps_at w (c ≫= k).
Proof.
  intros Hc HE Hk. unfold keeps_at, mbind, io_bind. destruct (Hc w) as (_ & _ & _ & Hcell). specialize (Hcell HE).
  destruct (c w) as [[a|] w1]; simpl in *; [|by rewrite Hcell]. rewrite <- Hcell. by apply Hk.
Qed.

Lemma keeps_attempt {A : Type} (c : io Run A) : keeps c -> keeps (attempt c).
Proof. intros Hc w. specialize (Hc w). unfold keeps_at, attempt in *. by destruct (c w). Qed.

Lemma keeps_set_status s : keeps (set_status s).
Proof. by intros w. Qed.

Lemma keeps_with_cell {A : Type} m (c : io Run A) : keeps (with_cell m c).
Proof. intros w. unfold keeps_at, with_cell. by destruct (c _). Qed.

Lemma keeps_at_locking {A : Type} key (body : io Run A) (w : Run) :
  (forall w1, cell w1 = cell w -> keeps_at w1 body) -> keeps_at w (locking key body).
Proof.
  intros Hbody. unfold locking. apply (keeps_at_bind [Lock]); [by apply emits_perform|done|]. intros acquired w1 _ Hcell.
  destruct acquired; [|done]. simpl.
  apply keeps_at_then; [|intros res; apply keeps_bind; [by apply (keeps_emits [Lock]); [apply emits_perform|]|intros ?; by apply (keeps_emits []); [apply emits_lift|]]].
  specialize (Hbody w1 Hcell). unfold keeps_at, attempt in *. by destruct (body w1).
Qed.

Lemma keeps_locking {A : Type} key (body : io Run A) : keeps body -> keeps (locking key body).
Proof. intros Hbody w. by apply keeps_at_locking. Qed.

Lemma keeps_at_set_current (m : Move) {A : Type} (c : io Run A) (w : Run) :
  identity m = identity (cell w) -> keeps c -> keeps_at w (set_current m;; c).
Proof. intros Hm Hc. unfold keeps_at, mbind, io_bind. simpl. rewrite (Hc _). done. Qed.

(** The Move that a write answers is the one that is written. *)
Lemma stored_at (w : Run) (c : call Move) (k : Move -> io Run unit) (f : error -> error) :
  (forall stored, respond (log w) c = Ok stored -> identity stored = identity (cell w)) ->
  (forall stored w1, identity (cell (snd (k stored w1))) = identity stored) ->
  keeps_at w (got ← attempt (perform c); match got with Ok stored => k stored | Err err => io_fail (f err) end).
Proof.
  intros Hc Hk. unfold keeps_at, mbind, io_bind, attempt, perform. cbn zeta. destruct (respond _ c) as [stored|err] eqn:Hres; [|done].
  rewrite Hk. by apply Hc.
Qed.

Lemma set_current_at E (m : Move) {A : Type} (c : io Run A) (w : Run) :
  emits E c -> within E Assign = false -> identity (cell (snd ((set_current m;; c) w))) = identity m.
Proof. intros Hc HE. unfold mbind, io_bind. simpl. by rewrite (keeps_emits E c Hc HE). Qed.
End rules.

Create HintDb keeps.
#[export] Hint Resolve keeps_set_status keeps_with_cell : keeps.

(** Every effect but an assignment. *)
Definition constant_effects : list effect := filter (fun e => e <> Assign) any_effect.

Ltac keep_leaf := first [assumption | solve [auto 1 with keeps nocore] | apply (keeps_emits constant_effects); [solve [handler_effects] | reflexivity]].

Ltac keep_step :=
  match goal with
  | |- keeps (_ ≫= _) => apply keeps_bind; [|intros ?]
  | |- keeps (attempt _) => apply keeps_attempt
  | |- keeps (locking _ _) => apply keeps_locking
  | |- keeps (match ?x with _ => _ end) => destruct x
  | |- keeps (match ?x with _ => _ end _) => destruct x
  | |- keeps (wrapf _ _) => unfold wrapf
  | |- keeps (RetryOnConflict _) => unfold RetryOnConflict
  | |- _ => progress cbv zeta
  end.

Ltac derive_keeps := repeat first [keep_leaf | keep_step].

Section handlers.
Context {AM : Apimachinery} {EN : Environment} {FS : FaithfulStore} (r : Reconciler).

Ltac keep_const := eapply (keeps_at_bind constant_effects); [handler_effects | reflexivity | intros ? ? ? ?].

Lemma persistMoveStatus_keeps previous : keeps (persistMoveStatus r previous).
Proof.
  unfold persistMoveStatus. apply keeps_bind; [derive_keeps|]. intros cancelled. destruct cancelled; [derive_keeps|].
  apply keeps_bind; [derive_keeps|]. intros s. destruct (_ == _); [derive_keeps|]. apply keeps_bind; [derive_keeps|]. intros at_.
  apply keeps_bind; [derive_keeps|]. intros [] w. keep_const. match goal with H : current _ = _ |- _ => apply current_Ok in H as [-> ->] end.
  apply (stored_at _ _ (fun stored => set_current stored;; emitMoveEvent r stored previous) (fun err => Wrapf [errMoveStatusPersistence; err] "")).
  - intros stored Hres. by eapply status_answer.
  - intros stored w1. eapply (set_current_at constant_effects); [handler_effects|reflexivity].
Qed.
Local Hint Resolve persistMoveStatus_keeps : keeps.

Lemma measured_keeps m copy w : cell w = m -> keeps_at w (
  '(measured, done) ← wrapf "measure source volume usage: %w" (perform (AdvanceSourceUsage m copy));
  io_reject_if (negb done) errSourceUsagePending;;
  io_reject_if (measured <=? 0)%Z (Errorf "source volume usage must be positive, got %d");;
  got ← attempt (perform (RecordSourceUsage m copy measured));
  match got with
  | Err err => io_fail (Wrapf [errMoveStatusPersistence; err] "")
  | Ok stored => set_current stored
  end).
Proof.
  intros <-. keep_const. case_match. keep_const. keep_const.
  apply (stored_at _ _ set_current (fun err => Wrapf [errMoveStatusPersistence; err] "")); [|done].
  intros stored Hres. apply usage_answer in Hres. congruence.
Qed.

Lemma measureSourceCopy_keeps : keeps (measureSourceCopy r).
Proof.
  unfold measureSourceCopy. apply keeps_bind; [derive_keeps|]. intros [] w.
  keep_const. match goal with H : current _ = _ |- _ => apply current_Ok in H as [-> ->] end. keep_const. keep_const.
  apply keeps_at_then; [|intros ?; derive_keeps]. destruct (_ <=? _)%Z; [apply measured_keeps; congruence | apply (keeps_emits constant_effects); [handler_effects|done]].
Qed.
Local Hint Resolve measureSourceCopy_keeps : keeps.

Lemma Ok_inj {A : Type} (x y : A) : Ok x = Ok y -> x = y.
Proof. by intros [= ->]. Qed.

Lemma prepareMoveCopyIdentitiesForPool_identity m pool planned :
  prepareMoveCopyIdentitiesForPool m pool = Ok planned -> identity (approved planned) = identity m.
Proof.
  unfold prepareMoveCopyIdentitiesForPool. destruct (MoveStatus.SourceCopy _); [|done]. intros H.
  do 2 apply bind_Ok in H as (? & _ & H). destruct (MoveTransactionCopies _ _ _) as [incoming target].
  do 3 apply bind_Ok in H as (? & _ & H). apply Ok_inj in H. by rewrite <- H.
Qed.

Lemma convertPreparation_keeps : keeps (convertPreparation r).
Proof.
  unfold convertPreparation. apply keeps_bind; [derive_keeps|]. intros m0. apply keeps_bind; [derive_keeps|]. intros [].
  apply keeps_bind; [derive_keeps|]. intros [] w. keep_const. match goal with H : current _ = _ |- _ => apply current_Ok in H as [-> ->] end.
  keep_const. cbv zeta. apply keeps_at_locking. intros w2 Hcell. rewrite H1 in Hcell. do 4 keep_const. keep_const.
  repeat case_match. keep_const. match goal with |- keeps_at _ (if ?b then _ else _) => destruct b end.
  { match goal with |- keeps_at _ ?c => assert (keeps c) as Hk by derive_keeps; apply Hk end. }
  keep_const. apply keeps_at_set_current; [|derive_keeps].
  match goal with H : io_lift _ _ = _ |- identity (approved _) = _ => apply io_lift_Ok in H as [H%prepareMoveCopyIdentitiesForPool_identity _] end.
  congruence.
Qed.
Local Hint Resolve convertPreparation_keeps : keeps.

Lemma recordMoveError_keeps previous reason operation cause : keeps (recordMoveError r previous reason operation cause).
Proof. unfold recordMoveError. derive_keeps. Qed.
Local Hint Resolve recordMoveError_keeps : keeps.

Lemma initializePreparation_keeps observed : keeps (initializePreparation observed).
Proof. unfold initializePreparation. derive_keeps. Qed.
Local Hint Resolve initializePreparation_keeps : keeps.

Lemma grantPreparation_keeps pool placement : keeps (grantPreparation r pool placement).
Proof. unfold grantPreparation. derive_keeps. Qed.
Local Hint Resolve grantPreparation_keeps : keeps.

Lemma grant_first_keeps pools placement unavailable : keeps (grant_first r pools placement unavailable).
Proof. revert unavailable. induction pools as [|pool pools IH]; intros unavailable; cbn [grant_first]; derive_keeps. Qed.
Local Hint Resolve grant_first_keeps : keeps.

Lemma set_reason_keeps reason : keeps (set_reason reason).
Proof. unfold set_reason. derive_keeps. Qed.
Local Hint Resolve set_reason_keeps : keeps.

Lemma prepareDestination_keeps observed pools : keeps (prepareDestination r observed pools).
Proof. unfold prepareDestination. derive_keeps. Qed.
Local Hint Resolve prepareDestination_keeps : keeps.

Lemma evictConsumer_keeps observed : keeps (evictConsumer observed).
Proof. unfold evictConsumer. derive_keeps. Qed.
Local Hint Resolve evictConsumer_keeps : keeps.

Lemma startPreparedDisruption_keeps observed : keeps (startPreparedDisruption r observed).
Proof. unfold startPreparedDisruption. derive_keeps. Qed.
Local Hint Resolve startPreparedDisruption_keeps : keeps.

Lemma ensureCapacity_keeps observed : keeps (ensureCapacity r observed).
Proof. unfold ensureCapacity. derive_keeps. Qed.
Local Hint Resolve ensureCapacity_keeps : keeps.

Lemma ensureCopy_keeps observed : keeps (ensureCopy r observed).
Proof. unfold ensureCopy. derive_keeps. Qed.
Local Hint Resolve ensureCopy_keeps : keeps.

Lemma ensurePromotion_keeps observed : keeps (ensurePromotion r observed).
Proof. unfold ensurePromotion. derive_keeps. Qed.
Local Hint Resolve ensurePromotion_keeps : keeps.

Lemma releasePlacement_keeps observed : keeps (releasePlacement observed).
Proof. unfold releasePlacement. derive_keeps. Qed.
Local Hint Resolve releasePlacement_keeps : keeps.

Lemma markBlocked_keeps observed : keeps (markBlocked observed).
Proof. unfold markBlocked. derive_keeps. Qed.
Local Hint Resolve markBlocked_keeps : keeps.

Lemma openRollbackScan_keeps target : keeps (openRollbackScan r target).
Proof. unfold openRollbackScan. derive_keeps. Qed.
Local Hint Resolve openRollbackScan_keeps : keeps.

Lemma ensureRollbackScan_keeps : keeps (ensureRollbackScan r).
Proof. unfold ensureRollbackScan. derive_keeps. Qed.
Local Hint Resolve ensureRollbackScan_keeps : keeps.

Lemma settleSourceRollback_keeps state : keeps (settleSourceRollback r state).
Proof. unfold settleSourceRollback. derive_keeps. Qed.
Local Hint Resolve settleSourceRollback_keeps : keeps.

Lemma settleUnpublishedDestination_keeps state : keeps (settleUnpublishedDestination r state).
Proof. unfold settleUnpublishedDestination. derive_keeps. Qed.
Local Hint Resolve settleUnpublishedDestination_keeps : keeps.

Lemma settleDestinationCleanup_keeps state : keeps (settleDestinationCleanup r state).
Proof. unfold settleDestinationCleanup. derive_keeps. Qed.
Local Hint Resolve settleDestinationCleanup_keeps : keeps.

Lemma settleRecoveryArtifacts_keeps state : keeps (settleRecoveryArtifacts r state).
Proof. unfold settleRecoveryArtifacts. derive_keeps. Qed.
Local Hint Resolve settleRecoveryArtifacts_keeps : keeps.

Lemma requestWorkloadSettlement_keeps observed : keeps (requestWorkloadSettlement observed).
Proof. unfold requestWorkloadSettlement. derive_keeps. Qed.
Local Hint Resolve requestWorkloadSettlement_keeps : keeps.

Lemma execute_keeps observed decision : keeps (execute r observed decision).
Proof. unfold execute. derive_keeps. Qed.
Local Hint Resolve execute_keeps : keeps.

Lemma executeRecovery_keeps observed action : keeps (executeRecovery r observed action).
Proof. unfold executeRecovery. derive_keeps. Qed.
Local Hint Resolve executeRecovery_keeps : keeps.

Lemma executeLifecycle_keeps observed decision : keeps (executeLifecycle r observed decision).
Proof. unfold executeLifecycle, completed, unfinished. derive_keeps. Qed.
Local Hint Resolve executeLifecycle_keeps : keeps.
End handlers.

#[export] Hint Resolve persistMoveStatus_keeps recordMoveError_keeps executeLifecycle_keeps : keeps.
