(* ===== verification/MobilityStore.v ===== *)
(** * The registry under the mobility controller

    What a pass needs of the registry ([FaithfulStore], [CheckedStore]) holds of the registry
    that MoveApi models, over any API server: its two writes of the status of a Move answer
    with that Move, and a reservation is stored only on a Move that may hold it.  [over_registry] is the environment in which these calls run there. *)

From S2P Require Import Prelude RecordUpdate Bytes VolumeIdentity Fsm Apimachinery Registration GoTime ApiServer VolumeState.
From S2P Require Import PoolApi VolumeRegistry PoolRegistry MoveApi MoveProtocol Kube Mobility MobilityIdentity.

Section registry.
Context {AM : Apimachinery} {W : Type} {VC : ApiClient W VolumeObject} {MC : ApiClient W MoveObject}.

Lemma moveFrom_Name (object : MoveObject) (m : Move) : moveFrom object = Ok m -> Move.Name m = Metadata.Name (ApiServer.meta object).
Proof.
  unfold moveFrom. cbv zeta. intros H. apply bind_Ok in H as (p & _ & H). apply bind_Ok in H as (s & _ & H). by injection H as <-.
Qed.

(** Objects are read and written under their names. *)
Lemma read_Name n (object : MoveObject) w w' : ApiServer.Get n w = (Ok object, w') -> Metadata.Name (ApiServer.meta object) = n.
Proof. intros H. apply Get_spec in H as (w1 & _ & _ & Hst). exact (stored_name w1 n object Hst). Qed.

Lemma written_Name (next written : MoveObject) w w' :
  ApiServer.Write true next w = (Ok written, w') -> Metadata.Name (ApiServer.meta written) = Metadata.Name (ApiServer.meta next).
Proof.
  intros H. apply Write_Ok in H as (w1 & w2 & current & _ & _ & Hst & _ & _ & Hsame). specialize (Hsame _ eq_refl).
  apply (f_equal (fun o => Metadata.Name (MoveObject.metadata o))) in Hsame. simpl in Hsame. etrans; [exact Hsame|]. exact (stored_name w1 _ current Hst).
Qed.

(** The Move that a checked answer names. *)
Lemma answered_identity (expected current m : Move) (object next written : MoveObject) w w1 w2 w3 :
  ApiServer.Get (Move.Name expected) w = (Ok object, w1) -> moveFrom object = Ok current -> Move.UID current = Move.UID expected ->
  Move.Spec current = Move.Spec expected -> Metadata.Name (ApiServer.meta next) = Metadata.Name (ApiServer.meta object) ->
  ApiServer.Write true next w2 = (Ok written, w3) -> storedMoveStatus current next written = Ok m -> identity m = identity expected.
Proof.
  intros Hget%read_Name Hcurrent Huid Hspec Hname Hwrite%written_Name Hstored. apply storedMoveStatus_Ok in Hstored as (Hm & _ & Hu & Hs & _).
  unfold identity. rewrite (moveFrom_Name _ _ Hm). congruence.
Qed.

Lemma CompareAndSetMoveStatus_answers expected next w m w' :
  MoveApi.CompareAndSetMoveStatus expected next w = (Ok m, w') -> identity m = identity expected.
Proof.
  unfold MoveApi.CompareAndSetMoveStatus. intros H.
  apply io_bind_Ok in H as ([] & w1 & [_ ->]%io_lift_Ok & H). apply io_bind_Ok in H as (object & w2 & Hget%wrap_error_Ok & H).
  apply io_bind_Ok in H as ([] & w3 & [Hid%reject_if_Ok ->]%io_lift_Ok & H). apply io_bind_Ok in H as (current & w4 & [Hcurrent ->]%io_lift_Ok & H).
  apply io_bind_Ok in H as ([] & w5 & [Hspec%reject_if_Ok ->]%io_lift_Ok & H). cbv zeta in H.
  do 2 apply io_bind_Ok in H as ([] & ? & [_ ->]%io_lift_Ok & H).
  apply io_bind_Ok in H as (written & w8 & Hwrite%wrap_error_Ok & [Hstored ->]%io_lift_Ok).
  apply orb_false_iff in Hid as [Huid _]. apply orb_false_iff in Hspec as [Hspec _]. apply negb_false_iff, bool_decide_eq_true in Huid, Hspec.
  eapply answered_identity; [exact Hget|exact Hcurrent| |exact Hspec| |exact Hwrite|exact Hstored]; [|done]. by rewrite (moveFrom_UID _ _ Hcurrent).
Qed.

(** An accepted reservation is valid on the Move that is stored. *)
Lemma CompareAndSetMoveStatus_stores expected next w m w' :
  MoveApi.CompareAndSetMoveStatus expected next w = (Ok m, w') ->
  MoveStatus.Preparation (Move.Status m) = MoveStatus.Preparation next /\ MoveStatus.SourceCopy (Move.Status m) = MoveStatus.SourceCopy next /\
  ValidateMovePreparation m = Ok tt.
Proof.
  intros H. apply CompareAndSetMoveStatus_answers in H as Hidentity. revert H. unfold MoveApi.CompareAndSetMoveStatus. intros H.
  apply io_bind_Ok in H as ([] & w1 & [_ ->]%io_lift_Ok & H). apply io_bind_Ok in H as (object & w2 & Hget%wrap_error_Ok & H).
  apply io_bind_Ok in H as ([] & w3 & [_ ->]%io_lift_Ok & H). apply io_bind_Ok in H as (current & w4 & [Hcurrent ->]%io_lift_Ok & H).
  apply io_bind_Ok in H as ([] & w5 & [_ ->]%io_lift_Ok & H). cbv zeta in H. set (stored := MoveStatus.set_CleanupPhase next _) in H.
  apply io_bind_Ok in H as ([] & ? & [_ ->]%io_lift_Ok & H). apply io_bind_Ok in H as ([] & ? & [Htrans ->]%io_lift_Ok & H).
  apply io_bind_Ok in H as (written & w8 & Hwrite%wrap_error_Ok & [Hstored ->]%io_lift_Ok).
  apply storedMoveStatus_Ok in Hstored as (Hm & Hs & Hu & Hspec & _).
  assert (Hstatus : Move.Status m = stored).
  { apply moveStatusFrom_Ok in Hs as (_ & _ & _ & _ & ->). rewrite <- (moveFrom_CleanupPhase object current Hcurrent).
    rewrite set_generation_same; [done|by eapply accepted_generation]. }
  rewrite Hstatus. split_and!; [done..|]. unfold validatePreparedTransition in Htrans. rewrite !check_Ok in Htrans.
  destruct Htrans as (_ & _ & _ & Hvalid & _). 
  assert (Hname : Move.Name m = Move.Name current).
  { rewrite (moveFrom_Name _ _ Hm), (moveFrom_Name _ _ Hcurrent). by apply written_Name in Hwrite. }
  unfold ValidateMovePreparation, validatePreparedPlan in *. simpl in Hvalid. rewrite Hstatus, Hname, Hu, Hspec. exact Hvalid.
Qed.

Lemma RecordSourceUsage_answers expected copy bytes w m w' :
  MoveApi.RecordSourceUsage expected copy bytes w = (Ok m, w') -> identity m = identity expected.
Proof.
  unfold MoveApi.RecordSourceUsage. intros H. apply io_bind_Ok in H as ([] & w1 & [_ ->]%io_lift_Ok & H).
  apply io_bind_Ok in H as (object & w2 & Hget%wrap_error_Ok & H). apply io_bind_Ok in H as (current & w3 & [Hcurrent ->]%io_lift_Ok & H).
  apply io_bind_Ok in H as ([] & w4 & [Hid%reject_if_Ok ->]%io_lift_Ok & H). apply io_bind_Ok in H as ([] & ? & [_ ->]%io_lift_Ok & H).
  apply io_bind_Ok in H as (state & w5 & _ & H). apply io_bind_Ok in H as ([] & ? & [_ ->]%io_lift_Ok & H).
  apply orb_false_iff in Hid as [Hid Hspec]. apply orb_false_iff in Hid as [Huid _]. apply negb_false_iff, bool_decide_eq_true in Huid, Hspec.
  destruct (_ =? _)%Z.
  - injection H as <- <-. unfold identity. rewrite (moveFrom_Name _ _ Hcurrent). apply read_Name in Hget. congruence.
  - cbv zeta in H. apply io_bind_Ok in H as (written & w6 & Hwrite%wrap_error_Ok & [Hstored ->]%io_lift_Ok).
    eapply answered_identity; [exact Hget|exact Hcurrent|exact Huid|exact Hspec| |exact Hwrite|exact Hstored]. done.
Qed.

(** ** The environment *)

(** The environment [EN] with the status writes of Moves answered by the modelled registry, in the state [world] it has then. *)
Definition over_registry (EN : Environment) (world : list event -> W) : Environment := {|
  respond A l c := match c in call A return result A with
                   | CompareAndSetMoveStatus move status => fst (MoveApi.CompareAndSetMoveStatus move status (world l))
                   | RecordSourceUsage move copy measured => fst (MoveApi.RecordSourceUsage move copy measured (world l))
                   | c => respond l c
                   end;
  IsNotFound := IsNotFound; IsAlreadyExists := IsAlreadyExists; IsConflict := IsConflict; FormatNano := FormatNano;
  range := range; range_perm := range_perm; NodeAffinityMatch := NodeAffinityMatch; NewNodeSelector := NewNodeSelector;
  ToleratesTaint := ToleratesTaint; PodRequests := PodRequests; QuantityLess := QuantityLess; LabelSelector := LabelSelector |}.

(** The registry keeps what a pass needs of it, whatever else happens to it between two calls. *)
#[export] Instance registry_faithful (EN : Environment) (world : list event -> W) : @FaithfulStore (over_registry EN world).
Proof.
  split.
  - intros l m s stored H. cbn in H. destruct (MoveApi.CompareAndSetMoveStatus m s (world l)) as [r w'] eqn:E. simpl in H. subst r.
    by eapply CompareAndSetMoveStatus_answers.
  - intros l m copy bytes stored H. cbn in H. destruct (MoveApi.RecordSourceUsage m copy bytes (world l)) as [r w'] eqn:E. simpl in H. subst r.
    by eapply RecordSourceUsage_answers.
Qed.

#[export] Instance registry_checked (EN : Environment) (world : list event -> W) : @CheckedStore (over_registry EN world).
Proof.
  split. intros l m s stored H. cbn in H. destruct (MoveApi.CompareAndSetMoveStatus m s (world l)) as [r w'] eqn:E. simpl in H. subst r.
  split; [by eapply CompareAndSetMoveStatus_answers|by eapply CompareAndSetMoveStatus_stores].
Qed.
End registry.
