(* ===== verification/MobilityPass.v ===== *)
(** * The mobility controller: a pass over a Move

    A pass takes one snapshot, decides once and acts; a preparation that changed under
    the action is cancelled from a second, minimal snapshot.  [pass_traced] reduces a
    property of the calls of a pass to the calls of one action under a snapshot. *)

From S2P Require Import Prelude RecordUpdate Bytes VolumeIdentity Fsm Apimachinery Registration GoTime ApiServer VolumeState.
From S2P Require Import PoolApi VolumeRegistry MoveApi Capacity CleanupJournal History Kube Mobility MobilityRules MobilityPods MobilityObserve MobilityLifecycle MobilityTransfer MobilityActions MobilityRecovery MobilityReconcile.
From S2P Require Import MobilityLogic MobilityEffects MobilityFacts MobilityIdentity.

(** The snapshot of a cancellation: the Volume, and why. *)
Definition cancellation_snapshot (m : Move) (v : State) (reason : string) : observation :=
  lifecycleFacts m (emptyObservation <| observation.Volume := v |>) <|. Fsm.PreparationChangedReason := reason |>.

Definition moved (m : Move) : call State := GetVolume (MoveSpec.VolumeID (Move.Spec m)).

(** What the action of a pass over [m] is decided on. *)
Record snapshot {AM : Apimachinery} {EN : Environment} (r : Reconciler) (m : Move) (w : Run) (o : observation) : Prop := {
  same_move : identity (cell w) = identity m;
  observed : (cell w = m /\ exists w0 o0, observeLifecycle r m w0 = (Ok o0, w) /\ o = lifecycleFacts m o0) \/
             (exists v reason, answered w (moved m) v /\ o = cancellation_snapshot (cell w) v reason)
}.

(** What a pass does besides its action. *)
Definition pass_effects : list effect := [Read; StatusWrite; Emit; Helper; MoveWrite].

Section pass.
Context {AM : Apimachinery} {EN : Environment} {FS : FaithfulStore} (r : Reconciler) (m : Move).
Context (P : list event -> event -> Prop).
Hypothesis surroundings : forall l e, within pass_effects (event_effect e) = true -> P l e.
Hypothesis action : forall w o d, snapshot r m w o -> Fsm.Decide (lifecycleState (cell w)) (observation.FSM o) = Ok d ->
  traced P w (executeLifecycle r o d).

Lemma around {A : Type} (c : io Run A) (w : Run) : emits (Assign :: pass_effects) c -> traced P w c.
Proof.
  intros Hc. eapply traced_emits; [exact Hc|]. intros older e He. apply surroundings. pose proof (no_assign_call e).
  unfold within in *. rewrite bool_decide_eq_true in *. apply elem_of_cons in He as [?|?]; [done|done].
Qed.

Lemma spec_of w : identity (cell w) = identity m -> Move.Spec (cell w) = Move.Spec m.
Proof. unfold identity. congruence. Qed.

Lemma cancellation_traced advance reason w :
  (forall o w, snapshot r m w o -> traced P w (advance o)) -> identity (cell w) = identity m ->
  traced P w (requestPreparationCancellation advance reason).
Proof.
  intros Hadvance Hsame. unfold requestPreparationCancellation. apply traced_bind; [apply around; handler_effects|].
  intros m0 w0 [-> ->]%current_Ok. apply traced_bind; [apply around; handler_effects|]. intros ? w1 [_ ->]%io_lift_Ok.
  destruct (_ || _); [apply around; handler_effects|]. apply traced_bind; [apply around; handler_effects|].
  intros v w1 [_ ->]%perform_inv.
  apply Hadvance. split; [done|]. right. exists v, reason. split; [|done]. unfold moved. rewrite <- (spec_of w) by done. by left.
Qed.

Lemma advanceMove_traced fuel o w : snapshot r m w o -> traced P w (advanceMove r fuel o).
Proof.
  revert o w. induction fuel as [|fuel IH]; intros o w Hsnap; cbn [advanceMove]; [apply around; handler_effects|].
  apply traced_bind; [apply around; handler_effects|]. intros m0 w0 [-> ->]%current_Ok. cbv zeta.
  destruct (Fsm.Decide _ _) as [d|err] eqn:Hdecide; [|destruct (preparationLifecycle _); apply around; handler_effects].
  apply traced_bind; [destruct (_ == _); apply around; handler_effects|]. intros [] w1 Hw1.
  assert (w1 = w) as ->.
  { destruct (_ == _) in Hw1; [by apply io_lift_Ok in Hw1 as [_ ->]|by injection Hw1]. } clear Hw1.
  apply traced_bind; [by apply traced_attempt, action|]. intros got w1 (res & [= ->] & Hexec)%attempt_inv.
  assert (Hsame : identity (cell w1) = identity m).
  { destruct Hsnap as [Hsame _]. rewrite <- Hsame. pose proof (executeLifecycle_keeps r o d w) as Hk. unfold keeps_at in Hk.
    by rewrite Hexec in Hk. }
  destruct res as [[]|err]; [|apply around; handler_effects|].
  - apply around. handler_effects.
  - unfold action_failed. destruct (error_as _ _) as [changed|]; [by apply cancellation_traced|]. apply around. handler_effects.
Qed.

Lemma joined_traced c err w : traced P w c -> traced P w (joined c err).
Proof.
  intros Hc. unfold joined. apply traced_bind; [by apply traced_attempt|]. intros got w1 _. apply around. handler_effects.
Qed.

Lemma reconcileMove_traced fuel w : traced P w (reconcileMove r fuel m).
Proof.
  unfold reconcileMove. apply traced_with_cell. set (w0 := {| log := log w; cell := m |}).
  eassert (Hconst : emits (Read :: Helper :: []) _); [|apply traced_bind; [apply around; eapply emits_sub; [exact Hconst|reflexivity]|]].
  { handler_effects. }
  intros usageErr w1 Hw1. apply (emits_cell _ _ _ _ _ Hconst eq_refl) in Hw1. clear Hconst.
  apply traced_bind; [apply around; handler_effects|]. intros got w2 (res & [= ->] & Hobs)%attempt_inv.
  assert (Hcell : cell w2 = m).
  { etrans; [|exact Hw1]. eapply (emits_cell [Read] (observeLifecycle r m)); [handler_effects|reflexivity|exact Hobs]. }
  destruct res as [o|err].
  - apply joined_traced, advanceMove_traced. split; [by rewrite Hcell|]. left. split; [done|]. by exists w1, o.
  - destruct (preparationLifecycle _); [apply around; handler_effects|]. destruct (_ && _); apply around; unfold joined; handler_effects.
Qed.

Lemma pass_traced w : traced P w (reconcilePersistedMove r m).
Proof.
  unfold reconcilePersistedMove. destruct (legacyMoveProtocol m); [apply around; handler_effects|].
  apply traced_bind; [apply around; handler_effects|]. intros ? w1 _. apply reconcileMove_traced.
Qed.
End pass.

(** ** The effects of an action *)

(** The calls that the action of a decision may make. *)
Definition signatures : list (Fsm.Action * list effect) :=
  [(Fsm.ActionWait, []); (Fsm.ActionProtectMove, [MoveWrite]); (Fsm.ActionInitializePreparation, [Assign]);
   (Fsm.ActionClaimSource, [VolumeWrite]); (Fsm.ActionReservePreparation, [Read; Lock; StatusWrite; Emit; Create; Delete; Assign]);
   (Fsm.ActionStartDisruption, [Read; Lock; Helper; VolumeWrite; Evict; Assign]); (Fsm.ActionRestoreSource, [VolumeWrite]);
   (Fsm.ActionReleasePreparation, [Assign]); (Fsm.ActionReleaseSource, [VolumeWrite]); (Fsm.ActionDeletePlacement, [Read; Delete]);
   (Fsm.ActionFinalizeHistory, [Read; Helper; JournalWrite; MoveWrite]); (Fsm.ActionFinalizeSourceUsage, [Helper]);
   (Fsm.ActionEnsurePlacement, [Read; Create]); (Fsm.ActionEnsureCapacity, [Read; Lock; Helper; StatusWrite; Emit; Assign]);
   (Fsm.ActionReleasePlacement, [Read; PodUpdate; Assign]);
   (Fsm.ActionEnsureCopy, [Read; StatusWrite; Emit; PodUpdate; Create; Delete; Assign]);
   (Fsm.ActionEnsurePromotion, [Read; StatusWrite; Emit; Create; Assign]); (Fsm.ActionCommitOwner, [Read; Lock; VolumeWrite]);
   (Fsm.ActionEnsureCleanup, [Read; JournalWrite]); (Fsm.ActionConfirmCleanup, [Read]);
   (Fsm.ActionMarkSucceeded, [Read; Delete; VolumeWrite]); (Fsm.ActionMarkBlocked, [Read; VolumeWrite; Assign]);
   (Fsm.ActionRequestSettlement, [VolumeWrite; Assign]); (Fsm.ActionBeginRecovery, [Assign]);
   (Fsm.ActionQuiesceRecovery, [Read; Delete]); (Fsm.ActionVerifyRecovery, [Read; Create]);
   (Fsm.ActionRetireRecovery, [ScanWrite; Read; StatusWrite; Emit; JournalWrite; Assign]);
   (Fsm.ActionResumeRecovery, [Read; Evict; VolumeWrite]); (Fsm.ActionCompleteRecovery, [Read; Delete; VolumeWrite])].

Definition signature (action : Fsm.Action) : list effect :=
  from_option snd [] (List.find (fun row => fst row == action) signatures).

(** The actions that have an effect, by the table. *)
Definition actions_with (e : effect) : list Fsm.Action := fst <$> List.filter (fun row => within (snd row) e) signatures.

Lemma row_within (table : list (Fsm.Action * list effect)) (a : Fsm.Action) (e : effect) :
  within (from_option snd [] (List.find (fun row => fst row == a) table)) e = true ->
  a ∈ fst <$> List.filter (fun row => within (snd row) e) table.
Proof.
  induction table as [|[a' s] table IH]; cbn [List.find List.filter fst snd]; [done|]. case_bool_decide as Ha; cbn [from_option snd].
  - intros ->. subst a'. by left.
  - intros H%IH. destruct (within s e); [by right|done].
Qed.

Lemma signature_within (a : Fsm.Action) (e : effect) : within (signature a) e = true -> a ∈ actions_with e.
Proof. apply row_within. Qed.

Section typed.
Context {AM : Apimachinery} {EN : Environment} (r : Reconciler).

(** The tests of the dispatch: in a branch the signature is the row of the action. *)
Ltac typed_branch :=
  match goal with
  | |- emits (signature (Fsm.d_Action ?d)) (if Fsm.d_Action ?d == ?a then _ else _) =>
      destruct (decide (Fsm.d_Action d = a)) as [Haction|Haction];
      [ rewrite (bool_decide_eq_true_2 _ Haction), Haction; let s := eval vm_compute in (signature a) in change (signature a) with s; solve [handler_effects]
      | rewrite (bool_decide_eq_false_2 _ Haction); clear Haction ]
  end.

Lemma execute_typed o d : emits (signature (Fsm.d_Action d)) (execute r o d).
Proof.
  unfold execute. apply emits_bind; [apply emits_current|]. intros m. cbv zeta. repeat typed_branch. apply emits_fail.
Qed.

Lemma executeRecovery_typed o d : emits (signature (Fsm.d_Action d)) (executeRecovery r o (Fsm.d_Action d)).
Proof.
  unfold executeRecovery. apply emits_bind; [apply emits_current|]. intros m. cbv zeta. repeat typed_branch. apply emits_fail.
Qed.

Lemma executeLifecycle_typed (o : observation) (d : Fsm.Decision) : emits (signature (Fsm.d_Action d)) (executeLifecycle r o d).
Proof.
  unfold executeLifecycle. apply emits_bind; [apply emits_current|]. intros m'. cbv zeta.
  repeat typed_branch. destruct (_ && _) eqn:Hdelete.
  { apply andb_prop in Hdelete as [Hdelete%bool_decide_eq_true _]. rewrite Hdelete. handler_effects. }
  repeat typed_branch. destruct (contains _ _); [apply executeRecovery_typed|apply completed_effects, execute_typed].
Qed.

(** C23: effects are typed by the action.  Observing a Move only reads.  Executing a decision makes no call whose effect is
    outside the signature of its action: waiting calls nothing, only the disruption of the source and the resumption of its
    owner evict Pods, only the owner commit and the claims, fences and completions of the table write a Volume, only
    retirement, source cleanup and history write a cleanup journal, and every other action is confined in the same way. *)
Theorem effects_typed (m : Move) (o : observation) (d : Fsm.Decision) :
  emits [Read] (observeLifecycle r m) /\ emits (signature (Fsm.d_Action d)) (executeLifecycle r o d).
Proof. split; [handler_effects|apply executeLifecycle_typed]. Qed.
End typed.

(** ** The fuel of a pass *)

Section fuel.
Context {AM : Apimachinery} {EN : Environment} (r : Reconciler).

Lemma approval_absent m v reason :
  cancellablePreparation m = Ok tt -> MoveStatus.RecoveryPhase (Move.Status m) = "" /\
  Fsm.beforeExecutionApproval (observation.FSM (cancellation_snapshot m v reason)) = true.
Proof.
  intros Hc. apply check_Ok in Hc as [_ Hc]. apply reject_if_Ok in Hc. rewrite !orb_false_iff in Hc.
  destruct Hc as [[[[[[[[[[Ha Hi] Hd] Hco] Hpo] Hcj] Hpj] _] _] Hr] _]. split; [by apply negb_false_iff, bool_decide_eq_true in Hr|].
  unfold Fsm.beforeExecutionApproval. cbn. rewrite Ha. unfold noDestinationEffectIntent.
  apply negb_false_iff in Hi, Hd, Hco, Hpo, Hcj, Hpj. by rewrite Hi, Hd, Hco, Hpo, Hcj, Hpj.
Qed.

(** The phases in which a preparation may change. *)
Definition preparing_phases : list Fsm.Phase := [""; Fsm.PhasePending; Fsm.PhasePreparing; Fsm.PhaseStartingDisruption].

Lemma blockedWith_waits p o fallback (l : list Fsm.Action) : Fsm.ActionWait ∈ l -> Fsm.ActionMarkBlocked ∈ l -> Fsm.d_Action (Fsm.blockedWith p o fallback) ∈ l.
Proof. intros H1 H2. destruct (Fsm.blockedWith_cases p o fallback) as [(_ & -> & _)|[_ ->]]; done. Qed.

(** The minimal snapshot of a preparing Move selects no action that prepares or disrupts. *)
Lemma cancellation_decides m v reason d :
  cancellablePreparation m = Ok tt -> MoveStatus.Phase (Move.Status m) ∈ preparing_phases ->
  Fsm.Decide (lifecycleState m) (observation.FSM (cancellation_snapshot m v reason)) = Ok d ->
  Fsm.d_Action d ∈ [Fsm.ActionWait; Fsm.ActionMarkBlocked; Fsm.ActionProtectMove].
Proof.
  intros Hc Hphase Hd. destruct (approval_absent m v reason Hc) as [Hrecovery Happroval].
  set (o := observation.FSM _) in Hd, Happroval.
  assert (Hhealthy : Fsm.SourceHealthy o = false) by reflexivity. assert (Hinvalid : Fsm.SourceAuthorityInvalid o = false) by reflexivity.
  assert (Hretired : Fsm.WorkloadRetired o = false) by reflexivity. assert (Hplacement : Fsm.PlacementExists o = false) by reflexivity.
  assert (Hs : Fsm.st_Phase (Fsm.normalize (lifecycleState m)) ∈ [Fsm.PhasePending; Fsm.PhasePreparing; Fsm.PhaseStartingDisruption]).
  { unfold Fsm.normalize, lifecycleState. cbn [Fsm.st_Phase Fsm.st_RecoveryPhase]. rewrite Hrecovery. case_bool_decide as Hempty; simpl.
    - by left.
    - unfold preparing_phases in Hphase. apply elem_of_cons in Hphase as [?|Hphase]; [done|exact Hphase]. }
  apply Decide_inv in Hd. cbv zeta in Hd. destruct Hd as [_ Hd]. revert Hd Hs. generalize (Fsm.normalize (lifecycleState m)). intros s Hd Hs.
  clearbody o. rewrite !elem_of_cons, elem_of_nil in Hs.
  assert (Hp : Fsm.decideLifecycle s o = Some (if Fsm.PreparationChangedReason o == "" then
      if Fsm.st_Phase s == Fsm.PhaseStartingDisruption then Fsm.decideStartingDisruption (Fsm.st_Phase s) o
      else Fsm.decidePreparation (Fsm.st_Phase s) o else Fsm.preparationChanged (Fsm.st_Phase s) o)).
  { unfold Fsm.decideLifecycle, Fsm.canCancelRetiredPreparation, Fsm.canRequestSettlement. rewrite Hretired, Happroval.
    destruct (bool_decide_reflect (Fsm.PreparationChangedReason o = "")) as [He|He];
      by destruct Hs as [->|[->|[->|[]]]]. }
  rewrite Hp in Hd. destruct Hd as [[= Hd]|[]]; [|done]. clear Hp Hs.
  unfold Fsm.preparationChanged, Fsm.decideStartingDisruption, Fsm.decidePreparation in Hd. rewrite Hinvalid, Hhealthy, Hplacement in Hd. simpl in Hd.
  fsm_split Hd; first [apply blockedWith_waits | idtac]; by apply (bool_decide_eq_true_1 _).
Qed.
End fuel.
