(* ===== verification/MobilitySample.v ===== *)
(** * The mobility controller: an example cluster

    A cluster in which the Move of [SampleMove] runs: two nodes with a Pool each, the
    workload of the volume and the objects of the Move.  Reads answer from the scene,
    writes succeed.  The examples of the mobility theorems run passes in it. *)

From S2P Require Import Prelude RecordUpdate Bytes VolumeIdentity Fsm Apimachinery Registration GoTime ApiServer VolumeState.
From S2P Require Import PoolApi VolumeRegistry MoveApi MoveProtocol Capacity CleanupJournal History Kube Mobility MobilityRules MobilityPods MobilityObserve MobilityLifecycle MobilityTransfer MobilityActions MobilityReconcile MobilityLogic MobilityIdentity.

Module SampleMobility.
Import SampleMove.

Definition metadata (namespace name uid : string) : ObjectMeta :=
  {| ObjectMeta.Name := name; ObjectMeta.Namespace := namespace; ObjectMeta.UID := uid; ObjectMeta.ResourceVersion := "1";
     ObjectMeta.Generation := 1; ObjectMeta.Labels := ∅; ObjectMeta.Annotations := ∅; ObjectMeta.OwnerReferences := [];
     ObjectMeta.DeletionTimestamp := None |}.

Definition controller : OwnerReference :=
  {| OwnerReference.APIVersion := "apps/v1"; OwnerReference.Kind := "StatefulSet"; OwnerReference.Name := "app";
     OwnerReference.UID := "app-set-uid"; OwnerReference.Controller := Some true; OwnerReference.BlockOwnerDeletion := Some true |}.

Definition reconciler : Reconciler :=
  {| Reconciler.Namespace := "shiftpv"; Reconciler.HelperImage := "helper"; Reconciler.PlacementPriorityClassName := "shiftpv-placement";
     Reconciler.ServiceAccountName := "shiftpv"; Reconciler.OperationTimeout := DefaultOperationTimeout;
     Reconciler.MoveJournalRetention := DefaultMoveJournalRetention; Reconciler.PoolReadinessStaleAfter := 180000000000;
     Reconciler.HistoryInspector := true; Reconciler.CapacityProbe := true; Reconciler.SourceUsage := true; Reconciler.PoolLocks := true;
     Reconciler.Cleanups := true; Reconciler.CleanupOperator := true; Reconciler.Recorder := false |}.

(** ** Objects *)

Definition pool (name node : string) (first : Z) (copies : list CopyObservation) : Pool :=
  let status := SamplePool.status first in
  {| Pool.Name := name; Pool.UID := name +:+ "-uid"; Pool.NodeName := node; Pool.PoolGroup := ""; Pool.MountPath := "/pools/" +:+ name;
     Pool.CapacityPolicy := PoolCapacityPolicyFixedBlock; Pool.MountPolicy := ""; Pool.CapacityLimit := "4294967296";
     Pool.Generation := 1; Pool.DeletionTimestamp := None; Pool.Finalizers := [PoolProtectionFinalizer];
     Pool.IdentityReleaseApproval := ""; Pool.RetirementRequest := ""; Pool.RetirementApproval := ""; Pool.CapacityProbeRequest := "";
     Pool.Status := {| PoolStatus.RegistrationApproved := true; PoolStatus.CapacityProbeSupported := true;
       PoolStatus.CapacityProbe := None; PoolStatus.FilesystemTotalBytes := 0; PoolStatus.FilesystemAvailableBytes := None;
       PoolStatus.FilesystemAvailableInodes := None; PoolStatus.ObservedGeneration := 1; PoolStatus.LastProbeTime := Some 1000%Z;
       PoolStatus.CapacityUnit := PoolStatus.CapacityUnit status; PoolStatus.MountIdentity := None;
       PoolStatus.Conditions := PoolStatus.Conditions status;
       PoolStatus.Inventory := Some {| PoolInventory.ObservedAt := Some 1000%Z; PoolInventory.Valid := true;
         PoolInventory.Truncated := false; PoolInventory.Reason := ""; PoolInventory.Message := ""; PoolInventory.Copies := copies |} |} |}.

Definition present (copy : CopyIdentity) (published : bool) : CopyObservation :=
  {| CopyObservation.Marker := ""; CopyObservation.Identity := Some copy; CopyObservation.Present := true;
     CopyObservation.Published := published; CopyObservation.Problem := "" |}.

Definition pool_a : Pool := pool "pool-a" "node-a" 0 [present source false].
Definition pool_b (copies : list CopyObservation) : Pool := pool "pool-b" "node-b" 64 copies.

Definition state (phase active owner : string) (published : list string) (copy : CopyIdentity) : State :=
  zeroState <| State.UID := "uid-1" |> <| State.Finalizers := [VolumeProtectionFinalizer] |> <| State.CapacityBytes := 1073741824%Z |>
            <| State.Phase := phase |> <| State.ActiveMove := active |> <| State.OwnerNode := owner |>
            <| State.PublishedNodes := published |> <| State.CurrentCopy := Some copy |>.

Definition node (name : string) (cordoned : bool) : Node :=
  {| Node.Meta := metadata "" name (name +:+ "-uid"); Node.Unschedulable := cordoned; Node.Taints := [];
     Node.Conditions := [("Ready", "True")] |}.

Definition pv : PersistentVolume :=
  {| PersistentVolume.Meta := metadata "" "pv" "pv-uid"; PersistentVolume.CSI := Some (DriverName, volume);
     PersistentVolume.ClaimRef := Some {| ClaimRef.Namespace := "default"; ClaimRef.Name := "claim"; ClaimRef.UID := "claim-uid" |};
     PersistentVolume.RequiredAffinity := None |}.
Definition claim : PersistentVolumeClaim :=
  {| PersistentVolumeClaim.Meta := metadata "default" "claim" "claim-uid"; PersistentVolumeClaim.VolumeName := "pv" |}.

(** A Pod of the workload: [node] is "" for the held replacement. *)
Definition template : PodSpec :=
  (helperSpec "" "app" "Always" (helperContainer "app" "app" [] [] [] []) [podVolume "data" None None None])
    <| PodSpec.Volumes := [{| Volume.Name := "data"; Volume.PersistentVolumeClaim := Some "claim"; Volume.HostPath := None;
                              Volume.Secret := None; Volume.ConfigMap := None; Volume.Projected := None; Volume.Ephemeral := None;
                              Volume.CSI := None; Volume.Other := None |}] |>.
Definition app (name uid node : string) : Pod :=
  {| Pod.Meta := (metadata "default" name uid) <| ObjectMeta.OwnerReferences := [controller] |>
                   <| ObjectMeta.Labels := {[ManagedLabel := "true"]} |>;
     Pod.Spec := template <| PodSpec.NodeName := node |>
                          <| PodSpec.SchedulingGates := if node == "" then [placementHoldName] else [] |>;
     Pod.Phase := if node == "" then "Pending" else "Running"; Pod.Conditions := [] |}.

(** ** Scenes *)

Record scene := {
  volume_state : State;
  pools : list Pool;
  nodes : list Node;
  pods : list Pod;
  (** the Jobs that are complete *)
  complete : list string;
  moves : list Move;
  claims : list PersistentVolumeClaim
}.

Definition notFound : error := Errorf "not found".
Definition found {A : Type} (a : option A) : result A := match a with Some a => Ok a | None => Err notFound end.
Definition named (meta : ObjectMeta) (namespace name : string) : bool :=
  (ObjectMeta.Namespace meta == namespace) && (ObjectMeta.Name meta == name).

Definition job (namespace name : string) : Job :=
  {| Job.Meta := metadata namespace name (name +:+ "-uid"); Job.BackoffLimit := None; Job.TTLSecondsAfterFinished := None;
     Job.ActiveDeadlineSeconds := None;
     Job.Template := {| PodTemplateSpec.TemplateLabels := ∅; PodTemplateSpec.Spec := template |};
     Job.Conditions := [("Complete", "True")] |}.

Definition answer (s : scene) {A : Type} (c : call A) : result A :=
  match c in call A return result A with
  | ListVolumes => Ok [(volume, volume_state s)]
  | GetVolume id => if id == volume then Ok (volume_state s) else Err notFound
  | CompareAndSetState _ _ _ _ _ | CompareAndSetSourceState _ _ _ => Ok tt
  | Pools => Ok (pools s)
  | ReadyPools => Ok (pools s)
  | ObservePools => Ok (pools s, pools s)
  | PoolForIdentity n u d | ReadyPoolForIdentity n u d | InventoryPoolForIdentity n u d =>
      found (List.find (fun p => (Pool.Name p == n) && (Pool.UID p == u) && (Pool.NodeName p == d)) (pools s))
  | ListMoves => Ok (moves s)
  | GetMove n => found (List.find (fun m => Move.Name m == n) (moves s))
  | CompareAndSetMoveStatus m next => ValidateMovePreparation (Move.with_Status m next);; Ok (Move.with_Status m next)
  | RecordSourceUsage m copy bytes =>
      Ok (Move.with_Status m ((Move.Status m) <| MoveStatus.SourceBytes := bytes |>))
  | StatFSForPool _ => Ok {| Filesystem.TotalBytes := 4294967296; Filesystem.AvailableBytes := 4294967296; Filesystem.AvailableInodes := 1000 |}
  | AdvanceSourceUsage _ _ => Ok (4096%Z, true)
  | FinalizeSourceUsage _ => Ok true
  | MovesSettled _ _ => Ok tt
  | GetNode n => found (List.find (fun x => ObjectMeta.Name (Node.Meta x) == n) (nodes s))
  | ListNodes => Ok (nodes s)
  | GetPersistentVolume n => if n == "pv" then Ok pv else Err notFound
  | ListPersistentVolumes => Ok [pv]
  | GetClaim ns n => found (List.find (fun c => named (PersistentVolumeClaim.Meta c) ns n) (claims s))
  | GetNamespaceLabels _ => Ok {[admissionNamespaceLabel := "enabled"]}
  | GetPod ns n => found (List.find (fun p => named (Pod.Meta p) ns n) (pods s))
  | ListPods ns _ => Ok (List.filter (fun p => ObjectMeta.Namespace (Pod.Meta p) == ns) (pods s))
  | CreatePod p => Ok p
  | UpdatePod p => Ok p
  | DeletePod _ _ _ | EvictPod _ _ _ => Ok tt
  | GetStatefulSet ns n =>
      Ok {| Workload.Meta := metadata ns n "app-set-uid";
            Workload.Template := {| PodTemplateSpec.TemplateLabels := ∅; PodTemplateSpec.Spec := template |} |}
  | ListBudgets _ => Ok []
  | GetJob ns n => if contains (complete s) n then Ok (job ns n) else Err notFound
  | CreateJob j => Ok j
  | TryLock _ => Ok true
  | Unlock _ => Ok tt
  | Now => Ok 2000%Z
  | ContextErr => Ok tt
  | RandomPassword => Ok "secret"
  | RecordEvent _ _ _ => Ok tt
  | AddMoveFinalizer _ _ | RemoveMoveFinalizer _ _ | DeleteMove _ _ => Ok tt
  | _ => Err notFound
  end.

#[export] Instance environment (s : scene) : Environment := {
  respond A l c := answer s c;
  IsNotFound err := match err with Errorf message => message == "not found" | _ => false end;
  IsAlreadyExists _ := false;
  IsConflict _ := false;
  FormatNano _ := "1970-01-01T00:00:00.000002Z";
  range := map_to_list;
  range_perm m := Permutation_refl (map_to_list m);
  NodeAffinityMatch _ _ := Ok true;
  NewNodeSelector _ := Ok (fun _ => true);
  ToleratesTaint _ _ := false;
  PodRequests _ _ := ∅;
  QuantityLess _ _ := false;
  LabelSelector _ := Ok (fun _ => false)
}.

#[export] Instance faithful (s : scene) : @FaithfulStore (environment s).
Proof. by split; [intros l m next stored ([] & _ & [= <-])%bind_Ok | intros l m copy bytes stored [= <-]]. Qed.

#[export] Instance checked (s : scene) : @CheckedStore (environment s).
Proof. by split; intros l m next stored ([] & H & [= <-])%bind_Ok. Qed.

(** ** Stages *)

(** The reservation that the scheduler placed. *)
Definition no_scene : scene :=
  {| volume_state := zeroState; pools := []; nodes := []; pods := []; complete := []; moves := []; claims := [] |}.
Definition placement (m : Move) : Pod :=
  let pod := placementPod (EN := environment no_scene) reconciler m (app "app-0" "app-uid" "node-a") (namesFor (Move.Name m)) in
  pod <| Pod.Meta := (Pod.Meta pod) <| ObjectMeta.UID := "pod-uid" |> |> <| Pod.Spec := (Pod.Spec pod) <| PodSpec.NodeName := "node-b" |> |>
      <| Pod.Phase := "Running" |>.

(** Two ready nodes, the source cordoned, and the Pods of the workload. *)
Definition around (v : State) (workload : list Pod) (m : Move) : scene :=
  {| volume_state := v; pools := [pool_a; pool_b []]; nodes := [node "node-a" true; node "node-b" false];
     pods := workload ++ [placement m]; complete := []; moves := [m]; claims := [claim] |}.

Definition at_phase (phase : string) : Move := stage ((status phase "" "" true true 0) <| MoveStatus.CandidateNodes := ["node-b"] |>).

Definition promoting : Move := at_phase "Promoting".
Definition promoted_scene : scene :=
  let s := around (state PhaseMoving "move-1" "node-a" [] source) [app "app-0" "app-uid-2" ""] promoting in
  {| volume_state := volume_state s; pools := pools s; nodes := nodes s; pods := pods s;
     complete := [resourceNames.CopyJob (namesFor "move-1"); resourceNames.PromotionJob (namesFor "move-1")]; moves := moves s; claims := claims s |}.

(** A prepared Move about to disrupt its source. *)
Definition starting : Move := stage ((status "StartingDisruption" "" "" false false 0) <| MoveStatus.CandidateNodes := ["node-b"] |>).
Definition starting_scene : scene :=
  around (state PhaseReady "move-1" "node-a" ["node-a"] source) [app "app-0" "app-uid" "node-a"] starting.

(** A Move that claimed its source and looks for a destination. *)
Definition reserving : Move :=
  stage ((status "Preparing" "" "" false false 0) <| MoveStatus.Preparation := None |> <| MoveStatus.DestinationNode := "" |>
           <| MoveStatus.DestinationPoolUID := "" |> <| MoveStatus.PlacementPodUID := "" |> <| MoveStatus.CandidateNodes := ["node-b"] |>).
Definition reserving_scene : scene :=
  around (state PhaseReady "move-1" "node-a" ["node-a"] source) [app "app-0" "app-uid" "node-a"] reserving.

(** ** Runs *)

Definition at_rest (m : Move) : Run := {| log := []; cell := m |}.
Notation history s m := (log (snd (reconcilePersistedMove (AM := Sample.sample) (EN := environment s) reconciler m (at_rest m)))).

(** The [i]th newest call of a run, with an effect, between the later and the earlier ones. *)
Lemma called (l : list event) (m : Move) (i : nat) (x : effect) :
  event_effect <$> l !! i = Some x -> exists e, event_effect e = x /\ l = take i l ++ e :: drop (S i) l ++ log (at_rest m).
Proof.
  destruct (l !! i) as [e|] eqn:He; [|done]. intros [= <-]. exists e. split; [done|]. simpl. rewrite app_nil_r. symmetry. by apply take_drop_middle.
Qed.
End SampleMobility.
