(* ===== verification/MobilityAuthority.v ===== *)
(** * The mobility controller: writes of a Volume

    Which write of a Volume's state a pass over a Move makes, and on what evidence.
    [source_change] and [state_change] are the tables of the writes that keep the owner;
    [Handoff] is the evidence of the one that changes it. *)

From S2P Require Import Prelude RecordUpdate Bytes VolumeIdentity Fsm Apimachinery Registration GoTime ApiServer VolumeState.
From S2P Require Import PoolApi VolumeRegistry MoveApi Capacity CleanupJournal History Kube Mobility MobilityRules MobilityPods MobilityObserve MobilityLifecycle MobilityTransfer MobilityActions MobilityRecovery MobilityReconcile.
From S2P Require Import MobilityLogic MobilityEffects MobilityFacts MobilityIdentity MobilityPass MoveProtocol MobilitySample.

(** ** The writes *)

(** The next state of a [CompareAndSetSourceState] from the Volume of the snapshot. *)
Definition source_change (m : Move) (action : Fsm.Action) (v : State) : option State :=
  if action == Fsm.ActionRequestSettlement then Some (v <| State.Phase := VolumeState.PhaseBlocked |>)
  else if action == Fsm.ActionClaimSource then Some (v <| State.ActiveMove := Move.Name m |>)
  else if action == Fsm.ActionStartDisruption then Some (v <| State.Phase := VolumeState.PhaseMoving |>)
  else if action == Fsm.ActionRestoreSource then Some (v <| State.Phase := VolumeState.PhaseReady |>)
  else if action == Fsm.ActionReleaseSource then Some (v <| State.ActiveMove := "" |>)
  else if action == Fsm.ActionCompleteRecovery then
    Some (if MoveStatus.SettlementRequested (Move.Status m) then v <| State.ActiveMove := "" |> <| State.Phase := VolumeState.PhaseReady |>
          else v <| State.ActiveMove := "" |>)
  else None.

(** The expected phase, Move and owner and the next state of a [CompareAndSetState] that
    keeps the owner. *)
Definition state_change (m : Move) (action : Fsm.Action) (v : State) : option (string * string * string * State) :=
  let owner := State.OwnerNode v in
  if action == Fsm.ActionMarkSucceeded then Some (VolumeState.PhaseReady, Move.Name m, owner, v <| State.ActiveMove := "" |>)
  else if action == Fsm.ActionMarkBlocked then
    Some (State.Phase v, State.ActiveMove v, owner, v <| State.Phase := VolumeState.PhaseBlocked |> <| State.ActiveMove := Move.Name m |>)
  else if action == Fsm.ActionResumeRecovery
  then Some (VolumeState.PhaseBlocked, Move.Name m, owner, v <| State.Phase := VolumeState.PhaseReady |>)
  else None.

(** The placement reservation was read: it is this Move's, and it runs on [node]. *)
Definition placement_scheduled (r : Reconciler) (m : Move) (l : list event) (node : string) : Prop :=
  exists pod, Event (GetPod (Reconciler.Namespace r) (resourceNames.PlacementPod (namesFor (Move.Name m)))) (Ok pod) ∈ l /\
    validatePlacementIdentity pod m (namesFor (Move.Name m)) = Ok tt /\
    ObjectMeta.DeletionTimestamp (Pod.Meta pod) = None /\ PodSpec.NodeName (Pod.Spec pod) = node /\ node <> "".

(** The owner changes from [source] to [target]. *)
Record Handoff (r : Reconciler) (m : Move) (v : State) (l : list event) (phase active owner : string) (next : State)
    (source target : CopyIdentity) : Prop := {
  from_moving : phase = VolumeState.PhaseMoving;
  own_claim : active = Move.Name m;
  from_source : owner = MoveSpec.SourceNode (Move.Spec m);
  to_target : next = committedState m v (MoveStatus.DestinationNode (Move.Status m)) target;
  source_recorded : MoveStatus.SourceCopy (Move.Status m) = Some source /\ State.CurrentCopy v = Some source;
  target_recorded : MoveStatus.DestinationCopy (Move.Status m) = Some target;
  same_volume : VolumeID target = MoveSpec.VolumeID (Move.Spec m) /\ VolumeID source = VolumeID target /\ VolumeUID source = VolumeUID target;
  other_pool : PoolUID target <> PoolUID source;
  placed : placement_scheduled r m l (MoveStatus.DestinationNode (Move.Status m));
  pool_locked : Event (TryLock (PoolUID target)) (Ok true) ∈ l
}.

Definition volume_write (r : Reconciler) (m : Move) (o : observation) (action : Fsm.Action) (l : list event) (e : event) : Prop :=
  let v := observation.Volume o in
  match e with
  | Event (CompareAndSetSourceState id expected next) _ =>
      id = MoveSpec.VolumeID (Move.Spec m) /\ expected = v /\ source_change m action v = Some next
  | Event (CompareAndSetState id phase active owner next) _ =>
      id = MoveSpec.VolumeID (Move.Spec m) /\
      (state_change m action v = Some (phase, active, owner, next) /\ State.Phase v <> "" \/
       action = Fsm.ActionCommitOwner /\ Fsm.OwnerCommitted (observation.FSM o) = false /\
       exists source target, Handoff r m v l phase active owner next source target)
  | _ => True
  end.

(** Only the writes of a Volume are constrained. *)
Lemma volume_write_quiet r m o action l e : event_effect e <> VolumeWrite -> volume_write r m o action l e.
Proof. destruct e as [A c answer]. by destruct c. Qed.

(** [P] is about the writes of Volumes. *)
Definition about_volumes (P : list event -> event -> Prop) : Prop := forall l e, event_effect e <> VolumeWrite -> P l e.

(** A handler that writes no Volume. *)
Lemma traced_quiet {EN : Environment} (P : list event -> event -> Prop) E {A : Type} (c : io Run A) (w : Run) :
  about_volumes P -> emits E c -> within E VolumeWrite = false -> traced P w c.
Proof. intros HP Hc HE. eapply traced_emits; [exact Hc|]. intros older e He. apply HP. congruence. Qed.

(** Every effect but the write of a Volume. *)
Definition quiet_effects : list effect := filter (fun e => e <> VolumeWrite) any_effect.

Ltac quiet :=
  match goal with
  | |- traced _ _ _ => apply (traced_quiet _ quiet_effects); [solve [assumption | exact (volume_write_quiet _ _ _ _)] | solve [handler_effects] | reflexivity]
  end.

(** The tests of a guard that did not refuse, as equations. *)
Ltac reject_facts H :=
  repeat rewrite orb_false_iff in H; repeat rewrite negb_false_iff in H; repeat rewrite bool_decide_eq_true in H;
  repeat rewrite bool_decide_eq_false in H.

Section writes.
Context {AM : Apimachinery} {EN : Environment} (r : Reconciler).

Lemma traced_locking P {A : Type} key (body : io Run A) (w : Run) :
  (forall l k a, P l (Event (TryLock k) a)) -> (forall l k a, P l (Event (Unlock k) a)) ->
  (forall w1, Event (TryLock key) (Ok true) ∈ log w1 -> cell w1 = cell w -> extends w w1 -> traced P w1 body) -> traced P w (locking key body).
Proof.
  intros HL HU Hbody. unfold locking. apply traced_bind; [by apply traced_perform|]. intros acquired w1 [Hres ->]%perform_inv.
  destruct acquired; [|by apply (traced_emits _ []); [apply emits_fail|]]. simpl.
  apply traced_bind; [apply traced_attempt, Hbody; [by left|done|by eexists [_]]|]. intros res w2 _.
  apply traced_bind; [by apply traced_perform|]. intros ? w3 _. by apply (traced_emits _ []); [apply emits_lift|].
Qed.

Lemma requireScheduledPlacement_Ok m w w' :
  requireScheduledPlacement r m w = (Ok tt, w') -> placement_scheduled r m (log w') (MoveStatus.DestinationNode (Move.Status m)) /\ cell w' = cell w.
Proof.
  unfold requireScheduledPlacement. cbv zeta. intros H. apply io_bind_Ok in H as (pod & w1 & Hpod & H). apply wrapf_Ok in Hpod.
  apply io_bind_Ok in H as ([] & w2 & Hval & H). apply io_lift_Ok in Hval as [Hval ->]. apply io_lift_Ok in H as [H ->].
  apply reject_if_Ok in H. rewrite !orb_false_iff, !negb_false_iff in H. destruct H as [[Hdel Hempty] Hnode].
  apply bool_decide_eq_true in Hnode. apply bool_decide_eq_false in Hempty.
  split; [|by apply perform_inv in Hpod as [_ ->]]. exists pod. split_and!; [by eapply perform_answered|done| |done|congruence].
  by destruct (ObjectMeta.DeletionTimestamp _).
Qed.

Lemma ownerCommitPoolUID_Ok m v destination uid :
  ownerCommitPoolUID m v destination = Ok uid -> exists source target, MoveStatus.SourceCopy (Move.Status m) = Some source /\
    MoveStatus.DestinationCopy (Move.Status m) = Some target /\ State.CurrentCopy v = Some source /\ uid = PoolUID target /\
    VolumeID source = MoveSpec.VolumeID (Move.Spec m) /\ VolumeID target = MoveSpec.VolumeID (Move.Spec m) /\
    VolumeUID target = VolumeUID source /\ PoolUID target <> PoolUID source.
Proof.
  unfold ownerCommitPoolUID. destruct (MoveStatus.SourceCopy _) as [source|]; [|done]. intros H.
  apply bind_Ok in H as ([] & Hsource & H). destruct (MoveStatus.DestinationCopy _) as [target|]; [|done].
  apply bind_Ok in H as ([] & Htarget & [= <-]). apply reject_if_Ok in Hsource, Htarget.
  reject_facts Hsource. reject_facts Htarget.
  destruct Hsource as [[[[[_ _] HsV] HsU] _] HsC], Htarget as [[[[[[[_ _] _] HtV] HtU] _] _] Hpool].
  exists source, target. split_and!; congruence.
Qed.

(** The commit of the owner is the handoff. *)
Lemma commitOwner_writes o w : traced (volume_write r (cell w) o Fsm.ActionCommitOwner) w (commitOwner r o).
Proof.
  unfold commitOwner. apply traced_bind; [quiet|]. intros m w0 [-> ->]%current_Ok. cbv zeta.
  apply traced_bind; [quiet|]. intros ? w1 [_ ->]%io_lift_Ok. destruct (Fsm.OwnerCommitted _) eqn:Hcommitted; [quiet|].
  apply traced_bind; [quiet|]. intros ? w1 [_ ->]%io_lift_Ok. apply traced_bind; [quiet|].
  intros uid w1 [(source & target & Hs & Ht & Hv & -> & HsV & HtV & HU & Hpool)%ownerCommitPoolUID_Ok ->]%io_lift_Ok.
  apply traced_bind; [quiet|]. intros [] w1 [Hplaced Hcell]%requireScheduledPlacement_Ok. rewrite Ht. simpl deref.
  apply traced_bind; [quiet|]. intros ? w2 [[= <-] ->]%io_lift_Ok. apply traced_locking; [done..|]. intros w2 Hlock _ Hext.
  apply traced_bind; [|intros got w3 _; destruct got; [quiet|]; destruct (negb _); quiet].
  apply traced_attempt, traced_perform. split; [done|]. right. split_and!; [done|done|]. exists source, target.
  split; [done..|split_and!; congruence|congruence| |done]. destruct Hplaced as (pod & Hin & Hrest). exists pod. split; [by eapply logged_extends|done].
Qed.

(** ** The writes that keep the owner *)

Lemma requestWorkloadSettlement_writes o w : traced (volume_write r (cell w) o Fsm.ActionRequestSettlement) w (requestWorkloadSettlement o).
Proof.
  unfold requestWorkloadSettlement. apply traced_bind; [quiet|]. intros m w0 [-> ->]%current_Ok. cbv zeta.
  apply traced_bind; [quiet|]. intros ? w1 [_ ->]%io_lift_Ok. apply traced_bind; [quiet|]. intros ? w1 [_ ->]%io_lift_Ok.
  apply traced_bind; [by apply traced_perform|]. intros ? w1 _. quiet.
Qed.

Lemma startPreparedDisruption_writes o w : traced (volume_write r (cell w) o Fsm.ActionStartDisruption) w (startPreparedDisruption r o).
Proof.
  unfold startPreparedDisruption. apply traced_bind; [quiet|]. intros m w0 [-> ->]%current_Ok.
  apply traced_bind; [quiet|]. intros ? w1 [_ ->]%io_lift_Ok. apply traced_bind; [quiet|]. intros ? w1 _.
  apply traced_bind; [quiet|]. intros [reason unavailable] w2 _. destruct (_ != _); [destruct unavailable; quiet|].
  apply traced_bind; [|intros ? w3 _; quiet]. destruct (_ == _); [|quiet].
  unfold startPreparedSource. destruct (MoveStatus.Preparation _) as [hold|]; [|quiet]. cbv zeta.
  apply traced_bind; [quiet|]. intros ? w3 _. apply traced_locking; [done..|]. intros w4 _ _ _.
  apply traced_bind; [quiet|]. intros ? w5 _. apply traced_bind; [quiet|]. intros ? w6 _. apply traced_bind; [quiet|]. intros ? w7 _.
  by apply traced_perform.
Qed.

Lemma resumeRecovery_writes o claim w : traced (volume_write r (cell w) o Fsm.ActionResumeRecovery) w (resumeRecovery (cell w) (observation.Volume o) claim).
Proof.
  unfold resumeRecovery. destruct (_ == _) eqn:Hphase; [|quiet]. apply bool_decide_eq_true in Hphase.
  apply traced_bind; [|intros; quiet]. apply traced_perform. split; [done|]. left. split; [done|]. by rewrite Hphase.
Qed.

Lemma completeRecovery_writes o missing w :
  traced (volume_write r (cell w) o Fsm.ActionCompleteRecovery) w (completeRecovery r (cell w) (observation.Volume o) missing).
Proof.
  unfold completeRecovery. cbv zeta. apply traced_bind; [destruct (MoveStatus.SettlementRequested _); quiet|]. intros ? w1 _.
  apply traced_bind; [quiet|]. intros finished w2 _. destruct (negb finished); [quiet|]. destruct (_ && _); [quiet|].
  apply traced_bind; [by apply traced_perform|]. intros ? w3 _. quiet.
Qed.

Lemma markSucceeded_writes o w : traced (volume_write r (cell w) o Fsm.ActionMarkSucceeded) w (markSucceeded r o).
Proof.
  unfold markSucceeded. apply traced_bind; [quiet|]. intros m w0 [-> ->]%current_Ok. cbv zeta.
  apply traced_bind; [quiet|]. intros [complete failed] w1 _. apply traced_bind; [quiet|]. intros ? w2 _.
  apply traced_bind; [quiet|]. intros ? w3 [Hallowed _]%io_lift_Ok. apply traced_bind; [quiet|]. intros ? w4 _.
  apply reject_if_Ok, negb_false_iff in Hallowed. destruct (_ || _) eqn:Hmissing; [quiet|].
  apply traced_perform. split; [done|]. left. split; [done|]. unfold completionAllowed in Hallowed.
  destruct (_ || _) in Hallowed; [done|]. apply orb_false_iff in Hmissing as [Hmissing _]. rewrite Hmissing in Hallowed. simpl in Hallowed.
  apply andb_prop in Hallowed as [Hphase%bool_decide_eq_true _]. by rewrite Hphase.
Qed.

Lemma markBlocked_writes o w : traced (volume_write r (cell w) o Fsm.ActionMarkBlocked) w (markBlocked o).
Proof.
  unfold markBlocked. apply traced_bind; [quiet|]. intros s w0 [-> ->]%status_Ok. apply traced_bind; [quiet|].
  intros [] w1 [= <-]. apply traced_bind; [quiet|]. intros m w1 [-> ->]%current_Ok. cbv zeta. simpl cell.
  destruct (_ && _); [quiet|]. destruct (_ && _); [quiet|]. apply traced_bind; [quiet|].
  intros [] w1 [Hphase ->]%io_lift_Ok. apply reject_if_Ok, andb_false_iff in Hphase.
  apply traced_bind; [|intros got w2 _; destruct got; [quiet|]; destruct (negb _); quiet].
  apply traced_attempt, traced_perform. split; [done|]. left. split; [done|]. intros Hempty. rewrite Hempty in Hphase.
  destruct Hphase as [[Hphase _]%orb_false_iff|[Hphase _]%orb_false_iff]; discriminate Hphase.
Qed.
End writes.

Section execution.
Context {AM : Apimachinery} {EN : Environment} (r : Reconciler).

(** The end of an action neither adds nor removes a write. *)
Lemma traced_completed P (c : io Run unit) (w : Run) : traced P w c -> traced P w (completed c).
Proof.
  intros Hc. unfold completed. apply traced_bind; [by apply traced_attempt|]. intros outcome w1 _.
  by apply (traced_emits P []); [apply emits_lift|].
Qed.

Lemma traced_unfinished P (c : io Run unit) (w : Run) : traced P w c -> traced P w (unfinished c).
Proof. intros Hc. unfold unfinished. apply traced_bind; [done|]. intros ? w1 _. by apply (traced_emits P []); [apply emits_ret|]. Qed.

Lemma execute_writes o d w : traced (volume_write r (cell w) o (Fsm.d_Action d)) w (execute r o d).
Proof.
  unfold execute. apply traced_bind; [quiet|]. intros m w0 [-> ->]%current_Ok. cbv zeta.
  repeat (case_bool_decide as Haction; [rewrite Haction; first
    [apply commitOwner_writes | apply markSucceeded_writes | apply markBlocked_writes | quiet]|clear Haction]). quiet.
Qed.

Lemma executeRecovery_writes o action w : traced (volume_write r (cell w) o action) w (executeRecovery r o action).
Proof.
  unfold executeRecovery. apply traced_bind; [quiet|]. intros m w0 [-> ->]%current_Ok. cbv zeta.
  repeat (case_bool_decide as Haction; [rewrite Haction; first
    [apply resumeRecovery_writes | apply completeRecovery_writes | quiet]|clear Haction]). quiet.
Qed.

(** Every write of a Volume by the action of a decision is in the table of the action,
    or is the handoff. *)
Lemma executeLifecycle_writes o d w : traced (volume_write r (cell w) o (Fsm.d_Action d)) w (executeLifecycle r o d).
Proof.
  unfold executeLifecycle. apply traced_bind; [quiet|]. intros m w0 [-> ->]%current_Ok. cbv zeta.
  repeat match goal with
  | |- traced _ _ (if ?b then _ else _) => destruct b eqn:Haction; [first
      [ quiet
      | apply bool_decide_eq_true in Haction; rewrite Haction; apply traced_completed;
        first [apply requestWorkloadSettlement_writes | apply startPreparedDisruption_writes]
      | apply bool_decide_eq_true in Haction; rewrite Haction; apply traced_unfinished; by apply traced_perform
      | apply executeRecovery_writes ]|clear Haction]
  end.
  apply traced_completed, execute_writes.
Qed.
End execution.

(** ** The writes of a pass *)

(** Only the phase and the claiming Move differ. *)
Definition relabelled (v next : State) : Prop :=
  next = v <| State.Phase := State.Phase next |> <| State.ActiveMove := State.ActiveMove next |>.

(** The promotion was recorded by an earlier pass, or its Job was read complete. *)
Definition promoted (r : Reconciler) (m : Move) (l : list event) : Prop :=
  MoveStatus.Phase (Move.Status m) = Fsm.PhaseCommitting \/
  MoveStatus.Phase (Move.Status m) = Fsm.PhasePromoting /\
  exists job, Event (GetJob (Reconciler.Namespace r) (resourceNames.PromotionJob (namesFor (Move.Name m)))) (Ok job) ∈ l /\
    fst (job_outcome (Job.Conditions job)) = true.

(** A write of a Volume after the calls [l]. *)
Definition pass_write (r : Reconciler) (m : Move) (l : list event) (e : event) : Prop :=
  match e with
  | Event (CompareAndSetSourceState id expected next) _ =>
      id = MoveSpec.VolumeID (Move.Spec m) /\ (expected = zeroState \/ Event (moved m) (Ok expected) ∈ l) /\ relabelled expected next
  | Event (CompareAndSetState id phase active owner next) _ =>
      id = MoveSpec.VolumeID (Move.Spec m) /\
      exists v, Event (moved m) (Ok v) ∈ l /\
        (owner = State.OwnerNode v /\ relabelled v next \/
         exists source target, Handoff r m v l phase active owner next source target /\ promoted r m l)
  | _ => True
  end.

Section pass.
Context {AM : Apimachinery} {EN : Environment} {FS : FaithfulStore} (r : Reconciler) (m : Move).

Lemma source_change_relabels m' action v next : source_change m' action v = Some next -> relabelled v next.
Proof. unfold source_change. intros H. repeat case_bool_decide; simplify_eq; try reflexivity. by destruct (MoveStatus.SettlementRequested _). Qed.

Lemma state_change_relabels m' action v phase active owner next :
  state_change m' action v = Some (phase, active, owner, next) -> owner = State.OwnerNode v /\ relabelled v next.
Proof. unfold state_change. intros H. repeat case_bool_decide; simplify_eq; done. Qed.

(** A snapshot of a cancellation never commits. *)
Lemma cancellation_no_commit m' v reason d :
  Fsm.Decide (lifecycleState m') (observation.FSM (cancellation_snapshot m' v reason)) = Ok d -> Fsm.d_Action d <> Fsm.ActionCommitOwner.
Proof.
  intros Hd Hcommit. destruct (Fsm.commit_requires_evidence _ _ _ Hd Hcommit) as (_ & _ & [[_ H]|(_ & _ & _ & _ & _ & _ & H & _)]); discriminate H.
Qed.

Lemma snapshot_volume w o : snapshot r m w o -> observation.Volume o = zeroState \/ Event (moved m) (Ok (observation.Volume o)) ∈ log w.
Proof.
  intros [_ [(_ & w0 & o0 & Hobs & ->)|(v & reason & Hv & ->)]]; [|by right]. apply observeLifecycle_supported in Hobs as [Hv _ _ _ _ _]. exact Hv.
Qed.

Lemma volume_write_authorised w o d newer e :
  snapshot r m w o -> Fsm.Decide (lifecycleState (cell w)) (observation.FSM o) = Ok d ->
  volume_write r (cell w) o (Fsm.d_Action d) (newer ++ log w) e -> pass_write r m (newer ++ log w) e.
Proof.
  intros Hsnap Hd Hwrite. apply snapshot_volume in Hsnap as Hv. destruct Hsnap as [Hsame Hstage]. destruct e as [A c answer].
  destruct c; try done; simpl in Hwrite |- *; rewrite (spec_of m w Hsame) in Hwrite.
  - destruct Hwrite as [-> Hwrite]. split; [done|]. exists (observation.Volume o).
    destruct Hwrite as [[Hchange Hphase]|(Hcommit & Huncommitted & source & target & Hhandoff)].
    + split; [|left; by eapply state_change_relabels]. destruct Hv as [Hv|Hv]; [by rewrite Hv in Hphase|by apply elem_of_app; right].
    + split.
      { destruct Hv as [Hv|Hv]; [|by apply elem_of_app; right]. destruct Hhandoff as [_ _ _ _ [_ H] _ _ _ _ _]. by rewrite Hv in H. }
      destruct Hstage as [(Hcell & w0 & o0 & Hobs & ->)|(v & reason & _ & ->)]; [|by apply cancellation_no_commit in Hd].
      rewrite Hcell in Hhandoff, Hd. right. exists source, target. split; [done|].
      destruct (Fsm.commit_requires_evidence _ _ _ Hd Hcommit) as (_ & _ & [[_ H]|([(Hp & Hc & _)|Hp] & _)]); [congruence| |by left].
      right. split; [exact Hp|]. apply observeLifecycle_supported in Hobs as [_ _ Hpromoted _ _ _]. destruct (Hpromoted Hc) as (job & Hjob & Hdone).
      exists job. split; [|done]. apply elem_of_app. by right.
  - destruct Hwrite as (-> & -> & Hchange). split_and!; [done| |by eapply source_change_relabels].
    destruct Hv as [Hv|Hv]; [by left|right]. apply elem_of_app. by right.
Qed.

(** The writes of a pass after any history. *)
Lemma pass_writes_from (w : Run) (newer older : list event) (e : event) :
  log (snd (reconcilePersistedMove r m w)) = newer ++ e :: older ++ log w -> pass_write r m (older ++ log w) e.
Proof.
  intros Hlog. eapply traced_at; [|exact Hlog]. apply pass_traced.
  - intros l [A c answer] He. by destruct c.
  - intros w1 o d Hsnap Hd. eapply traced_weaken; [|apply executeLifecycle_writes]. intros l e' He. by eapply volume_write_authorised.
Qed.

(** C20: a pass over a Move writes only the Volume the Move names, whatever the cluster and the helpers answer to each of its calls, and
    whatever the registry answers, as long as the registry answers its two writes of the status of a Move with the Move it was asked
    to write ([FaithfulStore]; the registry modelled in MoveApi does, by [registry_faithful]).  Every write but one keeps everything
    of the Volume except its phase and the Move that claims it, and starts from a state that this pass has read, or expects the zero
    state.  The one that moves the owner is the handoff: it starts from a Volume this pass has read, expects it moving, claimed by
    this Move and owned by its source, was decided on a promotion that the Move records or whose Job this pass has read complete,
    comes after this pass has read the placement reservation on the destination node and locked the destination Pool, and installs
    the recorded destination copy of the same Volume in another Pool. *)
Theorem pass_writes_authorised (start : Move) (newer older : list event) (e : event) :
  log (snd (reconcilePersistedMove r m {| log := []; cell := start |})) = newer ++ e :: older -> pass_write r m older e.
Proof. rewrite <- (app_nil_r older). exact (pass_writes_from {| log := []; cell := start |} newer older e). Qed.
End pass.

(** A promoted Move hands its Volume over. *)
Lemma pass_writes_authorised_witness :
  let m := SampleMobility.promoting in
  let l := SampleMobility.history SampleMobility.promoted_scene m in
  exists newer older e, l = newer ++ e :: older /\ event_effect e = VolumeWrite /\ pass_write SampleMobility.reconciler m older e.
Proof.
  intros m l. destruct (SampleMobility.called l m 4 VolumeWrite) as (e & Heffect & Hl); [vm_compute; reflexivity|].
  change (log (SampleMobility.at_rest m)) with (@nil event) in Hl. rewrite app_nil_r in Hl.
  exists (take 4 l), (drop 5 l), e. split_and!; [exact Hl|exact Heffect|].
  exact (pass_writes_authorised (AM := Sample.sample) (FS := SampleMobility.faithful SampleMobility.promoted_scene)
    SampleMobility.reconciler m m (take 4 l) (drop 5 l) e Hl).
Defined.
