(* ===== verification/MobilityDisruption.v ===== *)
(** * The mobility controller: evictions

    A pass evicts a Pod in two places: the recorded consumer, once its source is fenced,
    and, when a recovery resumes the owner, a Pod of the claim that runs elsewhere. *)

From S2P Require Import Prelude RecordUpdate Bytes VolumeIdentity Fsm Apimachinery Registration GoTime ApiServer VolumeState.
From S2P Require Import PoolApi VolumeRegistry MoveApi MoveProtocol Capacity CleanupJournal History Kube Mobility MobilityRules MobilityPods MobilityObserve MobilityLifecycle MobilityTransfer MobilityActions MobilityRecovery MobilityReconcile.
From S2P Require Import MobilityLogic MobilityEffects MobilityFacts MobilityIdentity MobilityPass MobilitySample.

(** ** What the decisions require *)

Lemma disruption_decided (s : Fsm.State) (o : Fsm.Observation) (d : Fsm.Decision) :
  Fsm.Decide s o = Ok d -> Fsm.d_Action d = Fsm.ActionStartDisruption ->
  Fsm.st_Phase s = Fsm.PhaseStartingDisruption /\ Fsm.SourceHealthy o = true /\ Fsm.SourcePlanRecorded o = true /\
  Fsm.PreparationReserved o = true /\ Fsm.PreparationChangedReason o = "" /\ Fsm.WorkloadRetired o = false.
Proof.
  intros H Haction. apply Decide_inv in H. cbv zeta in H. destruct H as [Hvalid [H|(_ & H & _)]].
  - unfold Fsm.decideLifecycle, Fsm.decideCancellation, Fsm.decideRecovery, Fsm.preparationChanged, Fsm.decidePreparation in H.
    fsm_split H; try discriminate Haction; try fsm_not_blocked Haction; try (by destruct (Fsm.RecoveryUnlockObserved o)).
    apply bool_decide_eq_true in Heqb6 as Hphase. apply normalize_phase in Hphase as Hs; [|discriminate].
    assert (Happroval : Fsm.beforeExecutionApproval o = true).
    { eapply validateState_before_approval; [exact Hvalid|]. rewrite Hphase. apply (bool_decide_eq_true_1 _). reflexivity. }
    assert (Hrecovery : Fsm.st_RecoveryPhase (Fsm.normalize s) = "").
    { destruct (validateState_well_formed _ _ Hvalid) as [_ [Hr|[Hr _]]]; [done|]. rewrite Hphase in Hr. discriminate Hr. }
    unfold Fsm.canCancelRetiredPreparation in Heqb. rewrite Happroval in Heqb, Heqb4. rewrite Hphase, Hrecovery in Heqb.
    unfold Fsm.decideStartingDisruption in H. fsm_split H; try discriminate Haction; try fsm_not_blocked Haction.
    fsm_boolean. split_and!; try done. by destruct (Fsm.WorkloadRetired o).
  - exfalso. fsm_execution H. fsm_split H; try discriminate Haction; try fsm_not_blocked Haction.
Qed.

Lemma resumption_decided (s : Fsm.State) (o : Fsm.Observation) (d : Fsm.Decision) :
  Fsm.Decide s o = Ok d -> Fsm.d_Action d = Fsm.ActionResumeRecovery -> Fsm.st_Phase s = Fsm.PhaseBlocked /\ Fsm.st_RecoveryPhase s = Fsm.RecoveryResuming.
Proof.
  intros H Haction. apply Decide_inv in H. cbv zeta in H. destruct H as [Hvalid [H|(_ & H & _)]].
  - unfold Fsm.decideLifecycle, Fsm.decideCancellation, Fsm.decideRecovery, Fsm.preparationChanged, Fsm.decidePreparation, Fsm.decideStartingDisruption in H.
    fsm_split H; try discriminate Haction; try fsm_not_blocked Haction; try (by destruct (Fsm.RecoveryUnlockObserved o)).
    all: fsm_boolean;
      match goal with
      | Hp : Fsm.st_Phase (Fsm.normalize ?s0) = _, Hr : Fsm.st_RecoveryPhase (Fsm.normalize ?s0) = _ |- _ =>
          clear - Hp Hr; unfold Fsm.normalize in Hp, Hr; destruct (_ && _)%bool; [discriminate Hp|by split]
      end.
  - exfalso. fsm_execution H. fsm_split H; try discriminate Haction; try fsm_not_blocked Haction.
Qed.

(** ** Evictions *)

(** The source was read as the exact owner, claimed by the Move, and it is Moving: read
    so, or made so by a compare-and-set from what was read. *)
Definition fenced (m : Move) (l : list event) : Prop :=
  exists v, Event (moved m) (Ok v) ∈ l /\ State.ActiveMove v = Move.Name m /\ State.OwnerNode v = MoveSpec.SourceNode (Move.Spec m) /\
    State.CurrentCopy v = MoveStatus.SourceCopy (Move.Status m) /\
    (State.Phase v = VolumeState.PhaseMoving \/
     Event (CompareAndSetSourceState (MoveSpec.VolumeID (Move.Spec m)) v (v <| State.Phase := VolumeState.PhaseMoving |>)) (Ok tt) ∈ l).

(** The claim that the Move records, read with its persistent volume: both live, bound to each other and to the Volume of the Move,
    with the recorded names and UIDs ([preparedBindingMatches]). *)
Definition recorded_claim (m : Move) (l : list event) (claim : PersistentVolumeClaim) : Prop :=
  exists pv, Event (GetPersistentVolume (MoveStatus.PersistentVolumeName (Move.Status m))) (Ok pv) ∈ l /\
    Event (GetClaim (MoveStatus.ClaimNamespace (Move.Status m)) (MoveStatus.ClaimName (Move.Status m))) (Ok claim) ∈ l /\
    preparedBindingMatches m (Some pv) (Some claim) = true.

(** A listed Pod of the recorded claim that does not run on the owner that recovery resumes, or is still held from scheduling. *)
Definition displaced (m : Move) (l : list event) (pod : Pod) : Prop :=
  exists claim pods, recorded_claim m l claim /\ Event (ListPods (MoveStatus.ClaimNamespace (Move.Status m)) "") (Ok pods) ∈ l /\ pod ∈ pods /\
    podUsesClaim pod (MoveStatus.ClaimName (Move.Status m)) = true /\ terminalPod pod = false /\ ObjectMeta.DeletionTimestamp (Pod.Meta pod) = None /\
    (PodSpec.NodeName (Pod.Spec pod) <> MoveStatus.RecoveryOwner (Move.Status m) \/ hasPlacementHold pod = true) /\
    GetControllerOf (Pod.Meta pod) <> None.

Lemma recorded_claim_names m l claim :
  recorded_claim m l claim -> ObjectMeta.Namespace (PersistentVolumeClaim.Meta claim) = MoveStatus.ClaimNamespace (Move.Status m) /\
    ObjectMeta.Name (PersistentVolumeClaim.Meta claim) = MoveStatus.ClaimName (Move.Status m).
Proof.
  intros (pv & _ & _ & H). unfold preparedBindingMatches in H. apply andb_prop in H as [_ H]. cbn [some_and] in H.
  rewrite !andb_true_iff, !bool_decide_eq_true in H. tauto.
Qed.

Lemma recorded_claim_app m l l' claim : recorded_claim m l claim -> recorded_claim m (l' ++ l) claim.
Proof. intros (pv & H1 & H2 & H3). exists pv. split_and!; [apply elem_of_app; by right..|done]. Qed.

Definition eviction (m : Move) (l : list event) (e : event) : Prop :=
  match e with
  | Event (EvictPod namespace name uid) _ =>
      (MoveStatus.Phase (Move.Status m) = Fsm.PhaseStartingDisruption /\ name = MoveStatus.ConsumerName (Move.Status m) /\
       uid = MoveStatus.ConsumerUID (Move.Status m) /\ MoveStatus.Preparation (Move.Status m) <> None /\ fenced m l) \/
      (MoveStatus.Phase (Move.Status m) = Fsm.PhaseBlocked /\ MoveStatus.RecoveryPhase (Move.Status m) = Fsm.RecoveryResuming /\
       exists pod, displaced m l pod /\ namespace = ObjectMeta.Namespace (Pod.Meta pod) /\ name = ObjectMeta.Name (Pod.Meta pod) /\
                   uid = ObjectMeta.UID (Pod.Meta pod))
  | _ => True
  end.

Lemma eviction_calm m l e : event_effect e <> Evict -> eviction m l e.
Proof. destruct e as [A c answer]. by destruct c. Qed.

(** Every effect but an eviction. *)
Definition calm_effects : list effect := filter (fun e => e <> Evict) any_effect.

Lemma traced_calm {EN : Environment} E m {A : Type} (c : io Run A) (w : Run) : emits E c -> within E Evict = false -> traced (eviction m) w c.
Proof.
  intros Hc HE. eapply traced_emits; [exact Hc|]. intros older e He. apply eviction_calm. intros Heq. rewrite Heq in He. congruence.
Qed.

Ltac calm := apply (traced_calm calm_effects); [solve [handler_effects] | reflexivity].

Section disruption.
Context {AM : Apimachinery} {EN : Environment} (r : Reconciler).

Lemma startPreparedSource_Ok m v w w' :
  startPreparedSource r m v w = (Ok tt, w') ->
  Event (CompareAndSetSourceState (MoveSpec.VolumeID (Move.Spec m)) v (v <| State.Phase := VolumeState.PhaseMoving |>)) (Ok tt) ∈ log w'.
Proof.
  unfold startPreparedSource. destruct (MoveStatus.Preparation _); [|discriminate]. cbv zeta. intros H.
  apply io_bind_Ok in H as (? & w1 & _ & H). apply locking_inv in H as (w2 & u & H & ->).
  do 3 apply io_bind_Ok in H as (? & ? & _ & H). apply perform_answered in H. by right.
Qed.

Lemma preparationSourceAuthority_Ok m v :
  preparationSourceAuthority m v = Ok tt -> MoveStatus.SourceCopy (Move.Status m) <> None ->
  State.OwnerNode v = MoveSpec.SourceNode (Move.Spec m) /\ State.CurrentCopy v = MoveStatus.SourceCopy (Move.Status m) /\
  (State.Phase v = VolumeState.PhaseReady \/ State.Phase v = VolumeState.PhaseMoving).
Proof.
  unfold preparationSourceAuthority. intros H Hplan. apply bind_Ok in H as ([] & Howner & H). apply bind_Ok in H as ([] & _ & H).
  apply bind_Ok in H as ([] & Hphase & H). apply reject_if_Ok in Howner, Hphase, H.
  rewrite !orb_false_iff, !negb_false_iff, bool_decide_eq_true in Howner. destruct Howner as [[_ Howner] _].
  split_and!; [done|..].
  - destruct (MoveStatus.SourceCopy _); [|done]. simpl in H. by apply negb_false_iff, bool_decide_eq_true in H.
  - apply andb_false_iff in Hphase as [Hphase|Hphase].
    + left. by apply negb_false_iff, bool_decide_eq_true in Hphase.
    + right. apply negb_false_iff, andb_prop in Hphase as [Hphase _]. apply andb_prop in Hphase as [_ Hphase]. by apply bool_decide_eq_true in Hphase.
Qed.

Lemma startPreparedDisruption_evicts m o w :
  cell w = m -> Event (moved m) (Ok (observation.Volume o)) ∈ log w -> MoveStatus.Phase (Move.Status m) = Fsm.PhaseStartingDisruption ->
  MoveStatus.SourceCopy (Move.Status m) <> None -> preparationSourceAuthority m (observation.Volume o) = Ok tt ->
  traced (eviction m) w (startPreparedDisruption r o).
Proof.
  intros Hcell Hread Hphase Hplan Hauthority. apply preparationSourceAuthority_Ok in Hauthority as (Howner & Hcopy & Hstate); [|done].
  unfold startPreparedDisruption. apply traced_bind; [calm|]. intros m0 w0 [-> ->]%current_Ok. rewrite Hcell.
  apply traced_bind; [calm|]. intros ? w1 [Hclaim ->]%io_lift_Ok. apply reject_if_Ok, orb_false_iff in Hclaim as [Hclaim Hhold].
  apply negb_false_iff, bool_decide_eq_true in Hclaim. apply traced_bind; [calm|]. intros ? w1 Hconsumer. note_extends Hconsumer.
  apply traced_bind; [calm|]. intros [reason unavailable] w2 Hplace. note_extends Hplace.
  destruct (reason != ""); [destruct unavailable; calm|]. apply traced_bind; [destruct (_ == _); calm|]. intros [] w3 Hstart.
  assert (Hfenced : fenced m (log w3)).
  { exists (observation.Volume o). case_bool_decide as Hready.
    - note_extends Hstart. apply startPreparedSource_Ok in Hstart. split_and!; [|done..|by right].
      eapply (logged_extends w); [|exact Hread]. by transitivity w1; [|transitivity w2].
    - injection Hstart as <-. split_and!; [|done..|left; tauto]. eapply (logged_extends w); [|exact Hread]. by transitivity w1. }
  unfold evictConsumer. apply traced_bind; [|intros [] w4 _; calm].
  unfold validateDisruptionConsumer in Hconsumer. apply io_bind_Ok in Hconsumer as (? & ? & _ & Hconsumer).
  destruct (observation.Consumer o) as [consumer|]; [|calm].
  cbv zeta. match goal with |- traced _ _ (if ?b then _ else _) => destruct b end; [|calm].
  apply io_lift_Ok in Hconsumer as [Hconsumer _]. apply reject_if_Ok, orb_false_iff in Hconsumer as [Hname Huid].
  apply negb_false_iff, bool_decide_eq_true in Hname, Huid.
  unfold unless_gone. apply traced_bind; [|intros got w4 _; destruct got; [calm|]; destruct (IsNotFound _); calm].
  apply traced_attempt, traced_perform. left. split_and!; try done. by destruct (MoveStatus.Preparation _).
Qed.

Lemma recover_pods_evicts m claim pods all placed w :
  cell w = m -> MoveStatus.Phase (Move.Status m) = Fsm.PhaseBlocked -> MoveStatus.RecoveryPhase (Move.Status m) = Fsm.RecoveryResuming ->
  recorded_claim m (log w) claim -> Event (ListPods (MoveStatus.ClaimNamespace (Move.Status m)) "") (Ok all) ∈ log w -> pods ⊆ all ->
  traced (eviction m) w (recover_pods m (MoveStatus.ClaimName (Move.Status m)) pods placed).
Proof.
  intros Hcell Hphase Hrecovery Hclaim Hread. revert placed. induction pods as [|pod pods IH]; intros placed Hsub; cbn [recover_pods]; [calm|].
  cbv zeta. assert (Hrest : pods ⊆ all) by (intros x Hx; apply Hsub; by right).
  destruct (_ || _) eqn:Hskip; [by apply IH|]. apply orb_false_iff in Hskip as [Hterminal Huses]. apply negb_false_iff in Huses.
  destruct (negb (is_nil (ObjectMeta.DeletionTimestamp _))) eqn:Hdel; [calm|].
  destruct (_ && _) eqn:Hplaced; [by apply IH|]. apply traced_bind; [calm|]. intros [] w1 [Hcontroller ->]%io_lift_Ok. apply reject_if_Ok in Hcontroller.
  apply traced_bind; [|intros got w1 _; destruct got; [calm|]; destruct (IsNotFound _); calm].
  apply traced_attempt, traced_perform. right. split_and!; [done..|]. exists pod. split_and!; [|done..]. exists claim, all.
  split_and!; [done|done|apply Hsub; by left|done|done|by destruct (ObjectMeta.DeletionTimestamp _)| |by destruct (GetControllerOf _)].
  apply andb_false_iff in Hplaced as [Hplaced|Hplaced]; [left; by apply bool_decide_eq_false in Hplaced|right; by apply negb_false_iff in Hplaced].
Qed.

(** The claim of the snapshot of a recovery is the recorded one. *)
Lemma recordedWorkloadClaim_Ok m w claim w' : recordedWorkloadClaim m w = (Ok claim, w') -> recorded_claim m (log w') claim.
Proof.
  unfold recordedWorkloadClaim. cbv zeta. intros H. apply io_bind_Ok in H as ([] & w1 & _ & H).
  apply io_bind_Ok in H as (pv & w2 & Hpv & H). apply io_bind_Ok in H as (claim' & w3 & Hclaim & H).
  apply io_bind_Ok in H as ([] & w4 & Hvalid & H). apply io_lift_Ok in Hvalid as [Hvalid ->].
  apply io_bind_Ok in H as (labels & w4 & Hlabels & H). apply io_bind_Ok in H as ([] & w5 & Hlabel & H). apply io_lift_Ok in Hlabel as [_ ->].
  injection H as <- <-. apply reject_if_Ok, orb_false_iff in Hvalid as [_ Hvalid]. apply negb_false_iff in Hvalid.
  apply perform_answered in Hpv. apply perform_answered in Hclaim as Hanswer. apply perform_inv in Hclaim as [_ ->]. apply perform_inv in Hlabels as [_ ->].
  exists pv. split_and!; [do 2 right; exact Hpv|right; exact Hanswer|done].
Qed.

Lemma observed_claim m w o w' claim :
  observeLifecycle r m w = (Ok o, w') -> MoveStatus.Phase (Move.Status m) = Fsm.PhaseBlocked -> observation.Claim o = Some claim ->
  recorded_claim m (log w') claim.
Proof.
  unfold observeLifecycle. intros H Hphase Hclaim. rewrite Hphase in H.
  change ((if MoveStatus.RecoveryPhase (Move.Status m) == Fsm.RecoveryRecovered then mret emptyObservation else observeBlockedLifecycle r m) w =
    (Ok o, w')) in H.
  destruct (_ == _) in H; [injection H as <- <-; discriminate Hclaim|].
  unfold observeBlockedLifecycle in H. apply io_bind_Ok in H as (retired & w1 & Hretired & H). destruct retired as [o1|].
  { injection H as <- <-. destruct (needsWorkloadLifetime m); [|discriminate]. apply io_bind_Ok in Hretired as (state & w2 & _ & Hretired).
    unfold observeWorkloadRetirement in Hretired. run_cases; simplify_eq; discriminate Hclaim. }
  destruct (needsRecoveryObservation m); [|injection H as <- <-; discriminate Hclaim].
  unfold observeRecovery in H. cbv zeta in H. apply io_bind_Ok in H as (got & w2 & _ & H). apply io_bind_Ok in H as (released & w3 & Hreleased & H).
  destruct released as [o2|].
  { injection H as <- <-. destruct (_ && _) in Hreleased; [|discriminate]. unfold observeSettlementRelease in Hreleased.
    run_cases; simplify_eq; discriminate Hclaim. }
  apply io_bind_Ok in H as (state & w4 & _ & H). destruct (_ && _) in H.
  { apply io_bind_Ok in H as (? & ? & _ & H). injection H as <- <-. discriminate Hclaim. }
  destruct (recoveryGuards m state) as [[]|]; [discriminate|]. apply io_bind_Ok in H as (? & w5 & _ & H).
  destruct (MoveStatus.SettlementRequested _); [injection H as <- <-; discriminate Hclaim|].
  apply io_bind_Ok in H as (claim' & w6 & Hread & H). injection H as <- <-. injection Hclaim as ->.
  unfold diagnosed in Hread. apply io_bind_Ok in Hread as (read & w7 & Hread & H'). apply attempt_inv in Hread as (res & [= ->] & Hread).
  destruct res as [c|]; [|discriminate]. injection H' as -> ->. by eapply recordedWorkloadClaim_Ok.
Qed.

(** The source of a disruption was checked against the plan. *)
Lemma observed_authority m w o w' :
  observeLifecycle r m w = (Ok o, w') -> MoveStatus.Phase (Move.Status m) = Fsm.PhaseStartingDisruption ->
  Fsm.SourceHealthy (observation.FSM o) = true -> Fsm.PreparationChangedReason (observation.FSM o) = "" ->
  Fsm.WorkloadRetired (observation.FSM o) = false -> preparationSourceAuthority m (observation.Volume o) = Ok tt.
Proof.
  unfold observeLifecycle. intros H Hphase Hhealthy Hreason Hretired. rewrite Hphase in H. cbn -[observePreparation] in H.
  change (observePreparation r m w = (Ok o, w')) in H. unfold observePreparation in H. cbv zeta in H. rewrite Hphase in H.
  do 2 apply io_bind_Ok in H as (? & ? & _ & H).
  destruct (_ && _) in H; [injection H as <- <-; discriminate Hhealthy|]. destruct (negb _) in H; [injection H as <- <-; discriminate Hhealthy|].
  apply io_bind_Ok in H as ([[o1 pools] done] & w1 & _ & H). set (o2 := o1 <| observation.Pools := pools |>) in H.
  destruct (Fsm.WorkloadRetired _) eqn:Hr in H; [injection H as <- <-; congruence|].
  destruct (_ && _) in H; [apply io_bind_Ok in H as (? & ? & _ & H); injection H as <- <-; discriminate Hreason|].
  apply io_bind_Ok in H as ([] & ? & Hauthority & H). apply io_lift_Ok in Hauthority as [Hauthority ->].
  destruct (Move.Deleting m); [injection H as <- <-; discriminate Hreason|]. apply observePreparationPlan_digest in H.
  apply (f_equal d_volume) in H. simpl in H. by rewrite H.
Qed.

Lemma executeLifecycle_evicts m w o d :
  snapshot r m w o -> Fsm.Decide (lifecycleState (cell w)) (observation.FSM o) = Ok d -> traced (eviction m) w (executeLifecycle r o d).
Proof.
  intros [Hsame Hstage] Hd. destruct (within (signature (Fsm.d_Action d)) Evict) eqn:Hevicts.
  2: { by eapply traced_calm; [apply executeLifecycle_typed|]. }
  apply signature_within in Hevicts. change (actions_with Evict) with [Fsm.ActionStartDisruption; Fsm.ActionResumeRecovery] in Hevicts.
  apply elem_of_cons in Hevicts as [Haction|Haction%list_elem_of_singleton].
  - destruct (disruption_decided _ _ _ Hd Haction) as (Hphase & Hhealthy & Hplan & Hreserved & Hreason & Hretired).
    destruct Hstage as [(Hcell & w0 & o0 & Hobs & ->)|(v & reason & _ & ->)]; [|discriminate Hhealthy].
    rewrite Hcell in Hphase. pose proof (observed_authority _ _ _ _ Hobs Hphase Hhealthy Hreason Hretired) as Hauthority.
    apply observeLifecycle_supported in Hobs as [Hv _ _ _ _ _].
    unfold executeLifecycle. apply traced_bind; [calm|]. intros ? ? [-> ->]%current_Ok. cbv zeta. rewrite Haction.
    change (traced (eviction m) w (completed (startPreparedDisruption r (lifecycleFacts m o0)))).
    unfold completed. apply traced_bind; [|intros; calm]. apply traced_attempt, startPreparedDisruption_evicts; try done.
    + destruct Hv as [Hv|Hv]; [|exact Hv]. change (observation.Volume o0 = zeroState) in Hv. rewrite Hv in Hauthority.
      apply bind_Ok in Hauthority as ([] & H & _). apply reject_if_Ok, orb_false_iff in H as [_ H]. discriminate H.
    + intros Hnone. cbn in Hplan. rewrite Hnone in Hplan. discriminate Hplan.
  - destruct (resumption_decided _ _ _ Hd Haction) as [Hphase Hrecovery].
    unfold executeLifecycle. apply traced_bind; [calm|]. intros ? ? [-> ->]%current_Ok. cbv zeta. rewrite Haction.
    change (traced (eviction m) w (executeRecovery r o Fsm.ActionResumeRecovery)).
    unfold executeRecovery. apply traced_bind; [calm|]. intros ? ? [-> ->]%current_Ok. cbv zeta.
    change (traced (eviction m) w (resumeRecovery (cell w) (observation.Volume o) (observation.Claim o))).
    unfold resumeRecovery. destruct (_ == _); [calm|]. apply traced_bind; [|intros; calm].
    unfold recoverPlacement. destruct Hstage as [(Hcell & w0 & o0 & Hobs & ->)|(v & reason & _ & ->)].
    2: { apply traced_bind; [calm|]. intros claim w1 [Hc _]%io_lift_Ok. discriminate Hc. }
    rewrite Hcell in *.
    apply traced_bind; [calm|]. intros claim w1 [Hc ->]%io_lift_Ok. cbv zeta.
    assert (Hclaim : recorded_claim m (log w) claim).
    { eapply observed_claim; [exact Hobs|exact Hphase|]. change (observation.Claim (lifecycleFacts m o0)) with (observation.Claim o0) in Hc.
      destruct (observation.Claim o0); [by injection Hc as ->|discriminate Hc]. }
    destruct (recorded_claim_names _ _ _ Hclaim) as [-> ->]. apply traced_bind; [calm|]. intros pods w1 Hpods.
    apply perform_answered in Hpods as Hread. apply perform_inv in Hpods as [_ ->].
    by eapply recover_pods_evicts; [| | |apply (recorded_claim_app _ _ [_])| |].
Qed.
End disruption.

(** C21: a pass evicts a Pod in two situations only, whatever the cluster and the helpers answer to each of its calls, and whatever the
    registry answers, as long as it answers its two writes of the status of a Move with the Move it was asked to write
    ([FaithfulStore]; the registry modelled in MoveApi does, by [registry_faithful]).  In StartingDisruption the pass evicts the
    consumer recorded in the plan, by its exact name and UID, holding a destination reservation, after it has read the source as the
    exact recorded owner claimed by this Move, and the source was read as Moving or moved there by a compare-and-set from that
    reading: no new publication can race the eviction.  While a recovery resumes the owner it evicts, by its UID, a Pod it has listed
    that uses the claim the Move records, which it has read live, with the recorded UID and bound to the Volume; the Pod is live, has
    a controller, and does not run on the resumed owner or is still held from scheduling. *)
Theorem pass_evictions_fenced {AM : Apimachinery} {EN : Environment} {FS : FaithfulStore} (r : Reconciler) (m : Move)
    (start : Move) (newer older : list event) (e : event) :
  log (snd (reconcilePersistedMove r m {| log := []; cell := start |})) = newer ++ e :: older -> eviction m older e.
Proof.
  rewrite <- (app_nil_r older). intros Hlog. eapply (traced_at _ _ {| log := []; cell := start |}); [|exact Hlog]. apply pass_traced.
  - intros l [A c answer] He. by destruct c.
  - intros w1 o d. apply executeLifecycle_evicts.
Qed.

(** A prepared Move fences its source and evicts its consumer. *)
Lemma pass_evictions_fenced_witness :
  let m := SampleMobility.starting in
  let l := SampleMobility.history SampleMobility.starting_scene m in
  exists newer older e, l = newer ++ e :: older /\ event_effect e = Evict /\ eviction m older e.
Proof.
  intros m l. destruct (SampleMobility.called l m 3 Evict) as (e & Heffect & Hl); [vm_compute; reflexivity|].
  change (log (SampleMobility.at_rest m)) with (@nil event) in Hl. rewrite app_nil_r in Hl.
  exists (take 3 l), (drop 4 l), e. split_and!; [exact Hl|exact Heffect|].
  exact (pass_evictions_fenced (AM := Sample.sample) (FS := SampleMobility.faithful SampleMobility.starting_scene)
    SampleMobility.reconciler m m (take 3 l) (drop 4 l) e Hl).
Defined.
