(* ===== verification/MobilityCapacity.v ===== *)
(** * The mobility controller: reservations

    A preparation reserves its destination Pool under the lock of that Pool: the ledger
    is read inside the critical section, and with the reservation written it is still
    within the limit. *)

From S2P Require Import Prelude RecordUpdate Bytes VolumeIdentity Fsm Apimachinery Registration GoTime ApiServer VolumeState.
From S2P Require Import PoolApi VolumeRegistry MoveApi MoveProtocol Capacity CleanupJournal History Kube Mobility MobilityRules MobilityPods MobilityObserve MobilityLifecycle MobilityTransfer MobilityActions MobilityReconcile.
From S2P Require Import MobilityLogic MobilityEffects MobilityFacts MobilityIdentity MobilityPass MobilitySample.

(** ** The ledger with one Move replaced *)

Lemma holds_middle entries volumes before m after :
  holds entries volumes (before ++ m :: after) ≡ₚ moveReservation volumes m :: holds entries volumes (before ++ after).
Proof.
  unfold holds. rewrite !map_app. simpl. rewrite (assoc (++)). symmetry. rewrite (assoc (++)). apply Permutation_middle.
Qed.

Lemma held_cons uid x l : held uid (x :: l) = held uid [x] ++ held uid l.
Proof. unfold held. simpl. repeat case_match; done. Qed.

Lemma sum_app l l' : Capacity.sum (l ++ l') = (Capacity.sum l + Capacity.sum l')%Z.
Proof. unfold Capacity.sum. induction l as [|x l IH]; simpl; lia. Qed.

Lemma ledger_exchange entries volumes before listed after next uid bytes reserved limit :
  entries ≡ₚ map_to_list volumes -> quantities_int64 volumes (before ++ listed :: after) ->
  (forall p, MoveStatus.Preparation (Move.Status next) = Some p -> int64_range (MovePreparation.ReservedBytes p)) ->
  ReservedBytesForPool entries volumes (before ++ listed :: after) uid = Ok reserved ->
  moveReservation volumes next = Ok (uid, bytes) -> (0 < bytes)%Z -> (reserved + bytes <= limit)%Z -> int64_range limit ->
  exists n, ReservedBytesForPool entries volumes (before ++ next :: after) uid = Ok n /\ (n <= limit)%Z.
Proof.
  intros He [Hv Hm] Hnext Hr Hhold Hpos Hfit Hlimit.
  apply (ReservedBytesForPool_spec entries) in Hr as (Huid & Hknown & Hall & Hsum & _); [|done|by split].
  rewrite holds_middle in Hknown, Hall, Hsum.
  set (rest := holds (map_to_list volumes) volumes (before ++ after)) in *.
  rewrite held_cons in Hall, Hsum. rewrite sum_app in Hsum. apply Forall_app in Hall as [Hold Hall].
  assert (0 <= Capacity.sum (held uid [moveReservation volumes listed]))%Z as Hnonneg by (by apply sum_nonneg).
  assert (0 <= Capacity.sum (held uid rest))%Z as Hrest by (by apply sum_nonneg).
  exists (bytes + Capacity.sum (held uid rest))%Z. split; [|lia].
  apply (ReservedBytesForPool_spec entries); [done| |].
  { split; [done|]. apply Forall_app in Hm as [Hb Ha]. apply Forall_app. split; [done|]. apply Forall_cons in Ha as [_ Ha]. by constructor. }
  cbv zeta. split; [done|]. rewrite holds_middle. fold rest. rewrite held_cons, Hhold.
  assert (held uid [Ok (uid, bytes)] = [bytes]) as -> by (unfold held; simpl; by rewrite bool_decide_eq_true_2).
  split_and!; [by apply Forall_cons in Hknown as [_ Hknown]; constructor|by constructor|by rewrite sum_app; unfold Capacity.sum; simpl; lia|].
  unfold int64_range in Hlimit. lia.
Qed.

(** ** The hold of a granted Move *)

(** The hold of [bytes] on [pool]. *)
Definition hold_of (pool : Pool) (bytes : Z) : MovePreparation :=
  {| MovePreparation.Pool := {| PoolReference.Name := Pool.Name pool; PoolReference.UID := Pool.UID pool |};
     MovePreparation.NodeName := Pool.NodeName pool; MovePreparation.ReservedBytes := bytes |}.

Lemma granted_reservation {AM : Apimachinery} volumes m stored pool state :
  identity stored = identity m -> MoveStatus.Preparation (Move.Status stored) = Some (hold_of pool (State.CapacityBytes state)) ->
  MoveStatus.SourceCopy (Move.Status stored) = MoveStatus.SourceCopy (Move.Status m) ->
  ValidateMovePreparation stored = Ok tt -> volumes !! MoveSpec.VolumeID (Move.Spec m) = Some state ->
  preparationSourceAuthority m state = Ok tt -> State.ActiveMove state = Move.Name m -> State.Phase state = VolumeState.PhaseReady ->
  moveReservation volumes stored = Ok (Pool.UID pool, State.CapacityBytes state).
Proof.
  intros [= Hname Huid Hspec] Hhold Hcopy Hvalid Hstate Hauthority Hactive Hphase.
  destruct (preparation_source stored _ Hvalid Hhold) as (source & Hs & _).
  unfold moveReservation, preparationReservation. rewrite Hhold, Hvalid, Hname, Hspec, Hstate, Hs. simpl.
  unfold preparationSourceAuthority in Hauthority. rewrite !check_Ok, !reject_if_Ok in Hauthority.
  destruct Hauthority as (Howner & _ & _ & Hexact). rewrite <- Hcopy, Hs in Hexact. simpl in Hexact.
  apply negb_false_iff, bool_decide_eq_true in Hexact. rewrite <- Hexact in Howner. rewrite !orb_false_iff in Howner.
  destruct Howner as [[[Hdel _] Howner%negb_false_iff%bool_decide_eq_true] Hvalidcopy%negb_false_iff].
  apply andb_prop in Hvalidcopy as [_ Hvalidcopy]. rewrite !andb_true_iff in Hvalidcopy.
  destruct Hvalidcopy as [[[_ Hvolume%bool_decide_eq_true] _] _].
  rewrite Hvolume, Hactive, Howner, <- Hexact, Hdel, Hphase, Z.eqb_refl.
  repeat match goal with |- context [bool_decide (?x = ?x)] => rewrite (bool_decide_eq_true_2 (x = x)) by reflexivity end. reflexivity.
Qed.

(** ** The grant *)

(** The Move was read in the list under its own name. *)
Lemma preparationMoveSnapshot_Ok m moves :
  preparationMoveSnapshot m moves = Ok tt -> exists before listed after, moves = before ++ listed :: after /\
    identity listed = identity m /\ Move.ResourceVersion listed = Move.ResourceVersion m /\ MoveStatus.Preparation (Move.Status listed) = None.
Proof.
  induction moves as [|listed moves IH]; cbn [preparationMoveSnapshot]; [done|]. case_bool_decide as Hname; simpl.
  - intros H%reject_if_Ok. rewrite !orb_false_iff, !negb_false_iff, !bool_decide_eq_true in H.
    destruct H as [[[[[Huid Hrv] Hspec] _] _] Hprep]. exists [], listed, moves. unfold identity.
    split_and!; [done|congruence|done|by destruct (MoveStatus.Preparation _)].
  - intros (before & l & after & -> & H)%IH. by exists (listed :: before), l, after.
Qed.

(** A reservation for [m] on [target], the Pool that was read as [pool], decided and written in the critical section [section]:
    [state] is the Volume and [listed] the Move as read there, [s] the status that was written and [stored] the answer. *)
Record Grant {AM : Apimachinery} (m : Move) (pool : Pool) (section : list event) (s : MoveStatus) (volumes : list (string * State))
    (state : State) (before : list Move) (listed : Move) (after : list Move) (target : Pool) (stored : Move) : Prop := {
  volumes_read : Event ListVolumes (Ok volumes) ∈ section;
  moves_read : Event ListMoves (Ok (before ++ listed :: after)) ∈ section;
  pool_read : Event (ReadyPoolForIdentity (Pool.Name pool) (Pool.UID pool) (Pool.NodeName pool)) (Ok target) ∈ section;
  volume_listed : index_volumes volumes !! MoveSpec.VolumeID (Move.Spec m) = Some state /\ (0 < State.CapacityBytes state)%Z;
  own_entry : identity listed = identity m /\ MoveStatus.Preparation (Move.Status listed) = None;
  hold_written : Event (CompareAndSetMoveStatus (Move.with_Status m s) s) (Ok stored) ∈ section;
  hold_recorded : MoveStatus.Preparation s = Some (hold_of target (State.CapacityBytes state)) /\
    MoveStatus.Preparation (Move.Status stored) = MoveStatus.Preparation s;
  hold_counted : moveReservation (index_volumes volumes) stored = Ok (Pool.UID target, State.CapacityBytes state);
  ledger_fits : exists n limit, LimitBytes target = Ok limit /\ (n <= limit)%Z /\
    ReservedBytesForPool volumes (index_volumes volumes) (before ++ stored :: after) (Pool.UID target) = Ok n
}.

Lemma authority_not_zero {AM : Apimachinery} m : preparationSourceAuthority m zeroState <> Ok tt.
Proof. intros H. apply bind_Ok in H as ([] & H & _). apply reject_if_Ok, orb_false_iff in H as [_ H]. discriminate H. Qed.

Section grant.
Context {AM : Apimachinery} {EN : Environment} (r : Reconciler).

Lemma stamped_plan previous s now :
  MoveStatus.Preparation (stamped previous s now) = MoveStatus.Preparation s /\ MoveStatus.SourceCopy (stamped previous s now) = MoveStatus.SourceCopy s.
Proof. unfold stamped. destruct (_ || _); destruct (_ || _); done. Qed.

Lemma persistMoveStatus_Ok previous w w' :
  persistMoveStatus r previous w = (Ok tt, w') -> previous <> Move.Status (cell w) ->
  exists now stored, let s := stamped previous (Move.Status (cell w)) now in
    since w w' (Event (CompareAndSetMoveStatus (Move.with_Status (cell w) s) s) (Ok stored)) /\
    exists l, respond l (CompareAndSetMoveStatus (Move.with_Status (cell w) s) s) = Ok stored.
Proof.
  unfold persistMoveStatus. intros H Hne. apply io_bind_Ok in H as (cancelled & w1 & Hctx & H). note_extends Hctx.
  destruct cancelled; [discriminate H|]. apply (emits_cell [Read]) in Hctx as Hcell; [|apply emits_ctx_err|reflexivity].
  apply io_bind_Ok in H as (s & w2 & Hs & H). apply status_Ok in Hs as [-> ->]. rewrite Hcell in H.
  rewrite bool_decide_eq_false_2 in H by done. apply io_bind_Ok in H as (at_ & w2 & Hnow & H). apply perform_inv in Hnow as [_ ->].
  apply io_bind_Ok in H as ([] & w2 & Hset & H). injection Hset as <-. apply io_bind_Ok in H as (m & w2 & Hm & H).
  apply current_Ok in Hm as [-> ->]. cbn [cell] in H. rewrite Hcell in H.
  apply io_bind_Ok in H as (got & w2 & Hgot & H). apply attempt_inv in Hgot as (? & [= <-] & Hgot).
  destruct got as [stored|]; [|discriminate H]. exists (FormatNano at_), stored. cbv zeta.
  split; [|apply perform_inv in Hgot as [Hgot _]; by eexists]. eapply since_extends; [eapply since_perform; [|exact Hgot]; etrans; [exact Hext|by eexists [_]]|]. note_extends H. exact Hext0.
Qed.

(** The ledger with the stored Move in place of the listed one. *)
Lemma granted_fits volumes before listed after target stored bytes :
  moveReservation (index_volumes volumes) stored = Ok (Pool.UID target, bytes) ->
  MoveStatus.Preparation (Move.Status stored) = Some (hold_of target bytes) -> int64_range bytes ->
  preparationPoolFits target bytes volumes (before ++ listed :: after) = Ok true ->
  NoDup volumes.*1 -> quantities_int64 (index_volumes volumes) (before ++ listed :: after) ->
  (0 < bytes)%Z /\ exists n limit, LimitBytes target = Ok limit /\ (n <= limit)%Z /\
    ReservedBytesForPool volumes (index_volumes volumes) (before ++ stored :: after) (Pool.UID target) = Ok n.
Proof.
  intros Hres Hhold Hrange Hfits Hdup Hq.
  unfold preparationPoolFits in Hfits. apply bind_Ok in Hfits as (limit & Hlimit & Hfits). apply bind_Ok in Hfits as (reserved & Hreserved & Hfits).
  injection Hfits as Hfits. apply andb_prop in Hfits as [Hpos%Z.ltb_lt Hfit%Z.leb_le]. split; [done|].
  destruct (ledger_exchange volumes (index_volumes volumes) before listed after stored (Pool.UID target)
    bytes reserved limit) as (n & Hn & Hle); try done.
  - symmetry. by apply map_to_list_to_map.
  - intros p Hp. rewrite Hhold in Hp. by injection Hp as <-.
  - lia.
  - by eapply LimitBytes_range.
  - by exists n, limit.
Qed.

(** The listings have their Go types. *)
Lemma listed_int64 {TL : TypedListings} l l' volumes moves :
  respond l ListVolumes = Ok volumes -> respond l' ListMoves = Ok moves -> quantities_int64 (index_volumes volumes) moves.
Proof.
  intros Hv Hm. split; [|by eapply moves_int64]. intros id state Hstate. apply elem_of_list_to_map_2 in Hstate.
  apply volumes_int64 in Hv. rewrite Forall_forall in Hv. exact (Hv _ Hstate).
Qed.

(** C22: a reservation fits.  When a preparation is granted to a Move without one, the grant was decided and written inside one
    critical section under the UID of the destination Pool: the Volumes, the Moves and the Pool were read there, the Move was listed
    without a reservation, and the status written there, which is what is stored, holds exactly the capacity of the Volume, a positive
    number of bytes, on the Pool that was read.  With the stored Move in place of the listed one the ledger of that Pool, over the
    Volumes and Moves as read, counts this hold, is known and is within the limit of the Pool.  Of the registry the theorem needs that
    an accepted status write answers with the stored Move, whose reservation passes ValidateMovePreparation ([CheckedStore]; the
    registry modelled in MoveApi does, by [registry_checked]), and that its listings have their Go types: a map has each volume once
    and capacities are int64 ([TypedListings]). *)
Theorem grant_within_limit {CS : CheckedStore} {TL : TypedListings} (pool : Pool) (placement : Pod) (w w' : Run) :
  grantPreparation r pool placement w = (Ok true, w') -> MoveStatus.Preparation (Move.Status (cell w)) = None ->
  exists section u s volumes state before listed after target stored,
    log w' = Event (Unlock (Pool.UID pool)) (Ok u) :: section ++ Event (TryLock (Pool.UID pool)) (Ok true) :: log w /\
    Grant (cell w) pool section s volumes state before listed after target stored.
Proof.
  intros H Hnone. unfold grantPreparation in H. cbv zeta in H. apply io_bind_Ok in H as (? & ? & Hreject & H). apply io_lift_Ok in Hreject as [_ ->].
  apply locking_inv in H as (w9 & u & H & ->). set (w0 := {| log := _ :: log w; cell := cell w |}) in H. note_extends H.
  destruct Hext as [section Hsection]. apply io_bind_Ok in H as (m & ? & Hm & H). apply current_Ok in Hm as [-> ->]. change (cell w0) with (cell w) in H.
  apply io_bind_Ok in H as (target & w1 & Hpool & H). note_extends Hpool. apply (since_perform _ w0) in Hpool as Hpool'; [|reflexivity].
  apply io_bind_Ok in H as (valid & w2 & Hgroup & H). note_extends Hgroup. destruct valid; [|discriminate H]. simpl negb in H. cbv match in H.
  apply io_bind_Ok in H as (? & w3 & Hplacement & H). note_extends Hplacement.
  apply io_bind_Ok in H as (volumes & w4 & Hvolumes & H). note_extends Hvolumes.
  apply (since_perform _ w0) in Hvolumes as Hvolumes'; [|extends_chain].
  apply io_bind_Ok in H as (moves & w5 & Hmoves & H). note_extends Hmoves. apply (since_perform _ w0) in Hmoves as Hmoves'; [|extends_chain].
  apply io_bind_Ok in H as ([] & ? & Hauthority & H). apply io_lift_Ok in Hauthority as [Hauthority ->].
  apply io_bind_Ok in H as ([] & ? & Hready & H). apply io_lift_Ok in Hready as [Hready ->].
  apply io_bind_Ok in H as ([] & ? & Hlisted & H). apply io_lift_Ok in Hlisted as [Hlisted ->].
  apply io_bind_Ok in H as (fits & ? & Hfits & H). apply io_lift_Ok in Hfits as [Hfits ->]. destruct fits; [|discriminate H]. simpl negb in H. cbv match in H.
  apply io_bind_Ok in H as ([] & ? & Hprobe & H). apply io_lift_Ok in Hprobe as [_ ->].
  apply io_bind_Ok in H as (previous & ? & Hs & H). apply status_Ok in Hs as [-> ->].
  apply io_bind_Ok in H as ([] & ? & Hset & H). injection Hset as <-.
  apply io_bind_Ok in H as ([] & w6 & Hpersist & H). injection H as ->.
  apply perform_inv in Hmoves as [Hmoves%eq_sym Hw5], Hvolumes as [Hvolumes%eq_sym Hw4].
  assert (Hcell : cell w5 = cell w).
  { apply (emits_cell constant_effects) in Hplacement, Hgroup; try done; try handler_effects.
    apply perform_inv in Hpool as [_ ->]. subst w5 w4. simpl in *. congruence. }
  rewrite Hcell in Hpersist. destruct (index_volumes volumes !! _) as [state|] eqn:Hstate.
  2: { simpl in Hauthority. by apply authority_not_zero in Hauthority. }
  simpl default in *. apply reject_if_Ok, orb_false_iff in Hready as [Hactive%negb_false_iff%bool_decide_eq_true Hphase%negb_false_iff%bool_decide_eq_true].
  destruct (preparationMoveSnapshot_Ok _ _ Hlisted) as (before & listed & after & -> & Hsame & _ & Hempty).
  pose proof Hpersist as Hwritten. apply persistMoveStatus_Ok in Hwritten as (now & stored & Hwritten & l & Hanswer).
  2: { intros Heq. apply (f_equal MoveStatus.Preparation) in Heq. simpl in Heq. congruence. }
  note_extends Hpersist. cbv zeta in Hwritten. cbn [cell] in Hwritten, Hanswer.
  set (plan := granted (Move.Status (cell w)) target (State.CapacityBytes state) (ObjectMeta.UID (Pod.Meta placement))) in *.
  set (s := stamped _ _ now) in Hwritten, Hanswer.
  assert (Hs : MoveStatus.Preparation s = MoveStatus.Preparation plan /\ MoveStatus.SourceCopy s = MoveStatus.SourceCopy plan) by apply stamped_plan.
  destruct Hs as [Hhold Hcopy]. apply (since_earlier w0 w5) in Hwritten; [|extends_chain].
  assert (Hlast : extends w5 w9) by exact Hext4.
  apply checked_answer in Hanswer as (Hidentity & Hprep & Hsource & Hvalid).
  pose proof (granted_reservation (index_volumes volumes) (cell w) stored target state) as Hcounted.
  specialize (Hcounted Hidentity (eq_trans Hprep Hhold) (eq_trans Hsource Hcopy) Hvalid Hstate Hauthority Hactive Hphase).
  pose proof (listed_int64 _ _ _ _ Hvolumes Hmoves) as Hint64.
  edestruct (granted_fits volumes before listed after target stored) as [Hpositive Hledger];
    [exact Hcounted|exact (eq_trans Hprep Hhold)|exact (proj1 Hint64 _ _ Hstate)|exact Hfits|by eapply volumes_once|exact Hint64|].
  exists section, u, s, volumes, state, before, listed, after, target, stored. split; [cbn [log]; by rewrite Hsection|].
  split; try done; (eapply since_section; [|exact Hsection]).
  - eapply since_extends; [exact Hvolumes'|]. extends_chain.
  - by eapply since_extends; [exact Hmoves'|].
  - eapply since_extends; [exact Hpool'|]. extends_chain.
  - exact Hwritten.
Qed.
End grant.

(** The sample has the Go types. *)
Lemma reserving_listings : @TypedListings (SampleMobility.environment SampleMobility.reserving_scene).
Proof.
  split; intros l answer [= <-]; cbn.
  - apply NoDup_singleton.
  - apply Forall_singleton. by vm_compute.
  - apply Forall_singleton. intros p H. discriminate H.
Qed.

(** A Move reserves the Pool of the other node. *)
Lemma grant_within_limit_witness :
  let w := SampleMobility.at_rest SampleMobility.reserving in
  let pool := SampleMobility.pool_b [] in
  exists section u s volumes state before listed after target stored w',
    log w' = Event (Unlock (Pool.UID pool)) (Ok u) :: section ++ Event (TryLock (Pool.UID pool)) (Ok true) :: log w /\
    Grant (AM := Sample.sample) (cell w) pool section s volumes state before listed after target stored.
Proof.
  intros w pool. set (placement := SampleMobility.placement SampleMobility.reserving).
  destruct (grantPreparation (AM := Sample.sample) (EN := SampleMobility.environment SampleMobility.reserving_scene)
    SampleMobility.reconciler pool placement w) as [res w'] eqn:Hrun.
  assert (res = Ok true) as -> by (transitivity (fst (grantPreparation (AM := Sample.sample) (EN := SampleMobility.environment SampleMobility.reserving_scene)
    SampleMobility.reconciler pool placement w)); [by rewrite Hrun|vm_compute; reflexivity]).
  destruct (grant_within_limit (AM := Sample.sample) (EN := SampleMobility.environment SampleMobility.reserving_scene)
    (CS := SampleMobility.checked SampleMobility.reserving_scene) (TL := reserving_listings)
    SampleMobility.reconciler pool placement w w' Hrun eq_refl)
    as (section & u & s & volumes & state & before & listed & after & target & stored & H).
  by exists section, u, s, volumes, state, before, listed, after, target, stored, w'.
Defined.
