(* ===== verification/Oracle.v ===== *)
(** * Handlers that call the outside

    The CSI services and the lifecycle controllers share the cluster with other actors.
    The world of such a handler is the history of its own calls, newest first, and every
    call is answered by an arbitrary function of that history: a theorem about all
    oracles holds under every interleaving, every failure and every lost response.

    [runs P c h Q] is the program logic: each call of [c] from the history [h] satisfies
    [P] together with the calls before it, and the result satisfies [Q]. *)

From S2P Require Import Prelude.

(** [err.Error()], as far as an error keeps its text. *)
Definition error_text (err : error) : string := match err with Errorf message | Wrapf _ message => message end.

Section oracle.
Context {call : Type -> Type}.

(** A call and its answer. *)
Inductive event := Event (A : Type) (c : call A) (answer : A).
#[global] Arguments Event {A} c answer.

Definition history : Type := list event.

Class Oracle := respond : forall A : Type, history -> call A -> A.
#[global] Arguments respond {Oracle A}.

(** [err != nil] handled by the caller. *)
Definition attempt {A : Type} (c : io history A) : io history (result A) := fun h => let '(r, h) := c h in (Ok r, h).

(** [defer leave()] after [enter()]. *)
Definition bracket {A : Type} (enter leave : io history unit) (body : io history A) : io history A :=
  enter;; r ← attempt body; leave;; io_lift r.

Section calls.
Context {O : Oracle}.

(** A call, and one whose answer may be an error. *)
Definition perform {A : Type} (c : call A) : io history A := fun h => let a := respond h c in (Ok a, Event c a :: h).
Definition ask {A : Type} (c : call (result A)) : io history A := a ← perform c; io_lift a.
End calls.

(** ** Histories *)

(** Each call of [l] satisfies [P] after the calls before it. *)
Fixpoint trace (P : history -> event -> Prop) (l base : history) : Prop :=
  match l with
  | [] => True
  | e :: l => P (l ++ base) e /\ trace P l base
  end.

Lemma calls_app P l l' base : trace P (l' ++ l) base <-> trace P l' (l ++ base) /\ trace P l base.
Proof. induction l' as [|e l' IH]; simpl; [naive_solver|]. rewrite <- (assoc (++)). naive_solver. Qed.

Lemma calls_mono (P P' : history -> event -> Prop) l base : (forall h e, P h e -> P' h e) -> trace P l base -> trace P' l base.
Proof. intros HP. induction l; simpl; naive_solver. Qed.

Definition runs (P : history -> event -> Prop) {A : Type} (c : io history A) (h : history) (Q : result A -> history -> Prop) : Prop :=
  exists l, snd (c h) = l ++ h /\ trace P l h /\ Q (fst (c h)) (snd (c h)).

(** A call of the run, with the calls before it. *)
Lemma runs_at P {A : Type} (c : io history A) h Q newer e older :
  runs P c h Q -> snd (c h) = newer ++ e :: older ++ h -> P (older ++ h) e.
Proof.
  intros (l & Hl & Ht & _) Hlog. rewrite Hl in Hlog. replace (newer ++ e :: older ++ h) with ((newer ++ e :: older) ++ h) in Hlog
    by by rewrite <- (assoc (++)). apply app_inv_tail in Hlog as ->. rewrite calls_app in Ht. simpl in Ht. naive_solver.
Qed.

(** What a run that returned has established. *)
Lemma runs_result P {A : Type} (c : io history A) h Q r h' : runs P c h Q -> c h = (r, h') -> Q r h'.
Proof. intros (l & _ & _ & HQ) Hc. by rewrite Hc in HQ. Qed.

Lemma runs_mono P (P' : history -> event -> Prop) {A : Type} (c : io history A) h Q (Q' : result A -> history -> Prop) :
  runs P c h Q -> (forall h' e, P h' e -> P' h' e) -> (forall r l, Q r (l ++ h) -> Q' r (l ++ h)) -> runs P' c h Q'.
Proof.
  intros (l & Hl & Ht & HQ) HP HQQ. exists l. split_and!; [done|by eapply calls_mono|]. rewrite Hl in *. by apply HQQ.
Qed.

Section rules.
Context (P : history -> event -> Prop).

Lemma runs_ret {A : Type} (a : A) h (Q : result A -> history -> Prop) : Q (Ok a) h -> runs P (mret a) h Q.
Proof. by exists []. Qed.

Lemma runs_fail {A : Type} err h (Q : result A -> history -> Prop) : Q (Err err) h -> runs P (io_fail err) h Q.
Proof. by exists []. Qed.

Lemma runs_lift {A : Type} (r : result A) h (Q : result A -> history -> Prop) : Q r h -> runs P (io_lift r) h Q.
Proof. by exists []. Qed.

Lemma runs_reject b err h (Q : result unit -> history -> Prop) :
  (b = true -> Q (Err err) h) -> (b = false -> Q (Ok tt) h) -> runs P (io_reject_if b err) h Q.
Proof. intros Ht Hf. apply runs_lift. unfold reject_if. destruct b; auto. Qed.

Lemma runs_bind {A B : Type} (c : io history A) (k : A -> io history B) h (Q : result B -> history -> Prop) :
  runs P c h (fun r h' => match r with Ok a => runs P (k a) h' Q | Err e => Q (Err e) h' end) -> runs P (c ≫= k) h Q.
Proof.
  intros (l & Hl & Ht & Hk). unfold runs, mbind, io_bind. destruct (c h) as [[a|e] h1]; simpl in *; [|by exists l].
  destruct Hk as (l' & Hl' & Ht' & HQ). exists (l' ++ l). rewrite Hl' in *. subst h1. rewrite <- (assoc (++)). split_and!; [done| |done].
  by rewrite calls_app.
Qed.

Lemma runs_perform {O : Oracle} {A : Type} (c : call A) h (Q : result A -> history -> Prop) :
  (forall a, P h (Event c a)) -> (forall a, Q (Ok a) (Event c a :: h)) -> runs P (perform c) h Q.
Proof. intros HP HQ. exists [Event c (respond h c)]. simpl. split_and!; [done|apply HP|done|apply HQ]. Qed.

Lemma runs_ask {O : Oracle} {A : Type} (c : call (result A)) h (Q : result A -> history -> Prop) :
  (forall a, P h (Event c a)) -> (forall a, Q a (Event c a :: h)) -> runs P (ask c) h Q.
Proof. intros HP HQ. apply runs_bind, runs_perform; [done|]. intros a. by apply runs_lift. Qed.

Lemma runs_attempt {A : Type} (c : io history A) h (Q : result (result A) -> history -> Prop) :
  runs P c h (fun r h' => Q (Ok r) h') -> runs P (attempt c) h Q.
Proof. intros (l & Hl & Ht & HQ). exists l. unfold attempt. by destruct (c h). Qed.

(** The body of a bracket, whose result is that of the whole. *)
Lemma runs_bracket {O : Oracle} {A : Type} (enter leave : call unit) (body : io history A) h (Q : result A -> history -> Prop) :
  P h (Event enter tt) -> (forall h', P h' (Event leave tt)) ->
  runs P body (Event enter tt :: h) (fun r h' => Q r (Event leave tt :: h')) -> runs P (bracket (perform enter) (perform leave) body) h Q.
Proof.
  intros He Hl Hbody. apply runs_bind, runs_perform; [by intros []|]. intros [].
  apply runs_bind, runs_attempt. eapply runs_mono; [exact Hbody|done|]. simpl. intros r l HQ.
  apply runs_bind, runs_perform; [by intros []|]. intros []. by apply runs_lift.
Qed.
End rules.

(** A fact about a history that later calls cannot undo. *)
Class Persistent (F : history -> Prop) := persistent e h : F h -> F (e :: h).

Lemma persists (F : history -> Prop) `{!Persistent F} l h : F h -> F (l ++ h).
Proof. induction l; simpl; [done|]. intros H. by apply persistent, IHl. Qed.

(** What was established before a run holds at each of its calls. *)
Lemma runs_frame (F : history -> Prop) `{!Persistent F} P {A : Type} (c : io history A) h Q :
  F h -> runs P c h Q -> runs (fun h e => P h e /\ F h) c h (fun r h' => Q r h' /\ F h').
Proof.
  intros HF (l & Hl & Ht & HQ). exists l. split_and!; [done| |done|rewrite Hl; by apply persists].
  clear Hl HQ. induction l as [|e l IH]; simpl in *; [done|]. destruct Ht. split_and!; [done|by apply persists|by apply IH].
Qed.

#[export] Instance called_persistent (e : event) : Persistent (fun h => e ∈ h).
Proof. intros e' h H. by right. Qed.

#[export] Instance and_persistent (F G : history -> Prop) : Persistent F -> Persistent G -> Persistent (fun h => F h /\ G h).
Proof. intros HF HG e h [H1 H2]. split; [by apply HF|by apply HG]. Qed.

#[export] Instance exists_persistent {A : Type} (F : A -> history -> Prop) :
  (forall a, Persistent (F a)) -> Persistent (fun h => exists a, F a h).
Proof. intros HF e h [a Ha]. exists a. by apply HF. Qed.
End oracle.

Arguments event : clear implicits.
Arguments history : clear implicits.
Arguments Oracle : clear implicits.
#[global] Hint Mode Oracle ! : typeclass_instances.

(** Symbolic execution of a handler: one step, and as many as determine the branch. *)
Ltac run_step :=
  match goal with
  | |- runs _ (_ ≫= _) _ _ => apply runs_bind
  | |- runs _ (mret _) _ _ => apply runs_ret
  | |- runs _ (io_fail _) _ _ => apply runs_fail
  | |- runs _ (io_lift _) _ _ => apply runs_lift
  | |- runs _ (io_reject_if _ _) _ _ => apply runs_reject; intros ?
  | |- runs _ (attempt _) _ _ => apply runs_attempt
  | |- runs _ (let _ := _ in _) _ _ => cbv zeta
  end.
Ltac run_simpl := repeat (run_step; cbv beta iota).
