(* ===== verification/Provisioning.v ===== *)
(** * Provisioning

    src/provisioning/consumer: where the consumer of a claim may run.
    src/provisioning/creation: the original claim of a creation, its retirement and the
    cancellation of an unfinished creation.
    src/provisioning/reclaim: the settlement of a cleanup.
    src/lifecycle/creationcontroller: the reconciler that cancels retired creations.

    This file also has what they share with the CSI controller: the calls of the
    controller process and the errors of gRPC. *)

From S2P Require Import Prelude Bytes VolumeIdentity Apimachinery Registration GoTime ApiServer VolumeState PoolApi VolumeRegistry MoveApi Capacity.
From S2P Require Import CleanupJournal Kube Oracle.

(** ** Claims *)

(** The part of a PersistentVolumeClaim the provisioner reads; a data source reference
    is its API group and its kind. *)
Module Claim.
Record Claim := { Meta : ObjectMeta; VolumeName : string; DataSourceRef : option (option string * string); Phase : string }.
End Claim.
Notation Claim := Claim.Claim.

(** ** Calls *)

(** [csi/controller.Service] has a locker of its own for volumes and, when none is shared
    with the other controllers, one for Pools. *)
Inductive locker := Lifecycles | PoolLocks | PoolLifecycles.

Inductive call : Type -> Type :=
(** the volume registry *)
| GetVolume (volumeID : string) : call (result State)
| DeleteState (volumeID uid : string) : call (result unit)
| RemoveVolumeFinalizer (volumeID uid : string) : call (result unit)
| CancelUnstartedCreation (volumeID uid : string) : call (result unit)
| BeginCreationCancellation (volumeID uid : string) (copy : CopyIdentity) : call (result State)
| PoolNodesForGroup (group : string) : call (result (list string))
| PoolForIdentity (poolName uid nodeName : string) : call (result Pool)
| BeginCreate (request : CreationRequest) : call (result State)
| CompleteCreate (volumeID uid : string) (copy : CopyIdentity) : call (result unit)
| BeginDelete (volumeID uid : string) (copy : CopyIdentity) : call (result State)
(** capacity: the ready and the registered Pools, the ledgers (a map is an enumeration of
    its entries) and a live measurement *)
| ObservePools : call (result (list Pool * list Pool))
| ListVolumes : call (result (list (string * State)))
| ListMoves : call (result (list Move))
| StatFSForPool (pool : Pool) : call (result Filesystem)
(** the cleanup journals and their executor *)
| ListForVolume (volumeID : string) : call (result (list Cleanup))
| EnsureCleanup (spec : CleanupJournal.Spec) : call (result Cleanup)
| Reclaim (current : Cleanup) : call (result Cleanup)
| ReconcileAbsence (current : Cleanup) : call (result (Cleanup * bool))
| WaitForAbsence (current : Cleanup) (wait : Z) : call (result (Cleanup * bool))
(** the node that holds a copy *)
| CreateCopy (copy : CopyIdentity) : call (result unit)
| FinalizeCreate (copy : CopyIdentity) : call (result unit)
| CreationExists (copy : CopyIdentity) : call (result bool)
(** the index of waiting requests; the zero Pool is [None] *)
| Register (namespace name uid node group : string) (requested : Z) : call unit
| RegisterObservation (namespace name uid node group : string) (observed : option Pool) : call unit
(** the Kubernetes API; a claim is read through a pointer *)
| GetClaim (namespace name : string) : call (result (option Claim))
| GetPod (namespace name : string) : call (result Pod)
| ListPods (namespace : string) : call (result (list Pod))
| ListPersistentVolumes : call (result (list PersistentVolume))
| GetNamespaceLabels (name : string) : call (result (gmap string string))
(** the process: the uninstall gate, locks and the clock *)
| EnterGate : call (result unit)
| LeaveGate : call unit
| Lock (l : locker) (key : string) : call unit
| Unlock (l : locker) (key : string) : call unit
| Now : call Z.

Notation handler := (io (history call)).

(** What the code uses of the libraries it calls. *)
Class Libraries := {
  (** [apierrors]: the status an error carries *)
  IsNotFound : error -> bool;
  IsConflict : error -> bool;
  IsTimeout : error -> bool;
  IsServerTimeout : error -> bool;
  IsTooManyRequests : error -> bool;
  IsServiceUnavailable : error -> bool;
  (** whether an error of a node executor says [Retryable()] *)
  Retryable : error -> bool;
  (** k8s.io/component-helpers/storage/ephemeral *)
  VolumeClaimName : Pod -> Volume -> string;
  VolumeIsForPod : Pod -> Claim -> bool;
  (** the order in which a loop ranges over a map *)
  range : gmap string string -> list (string * string);
  range_perm m : range m ≡ₚ map_to_list m
}.

(** ** gRPC statuses *)

Definition statusType : error := Errorf "grpc status".
Definition status_error (code message : string) : error := Wrapf [statusType; Errorf code] message.

(** The code of [status.FromError]: the first status in the chain of wrapped errors. *)
Fixpoint status_of (err : error) {struct err} : option string :=
  match err with
  | Errorf _ => None
  | Wrapf causes _ =>
      let wrapped := (fix first (l : list error) : option string :=
                        match l with
                        | [] => None
                        | cause :: l => match status_of cause with Some code => Some code | None => first l end
                        end) causes in
      match causes with
      | t :: Errorf code :: _ => if error_eqb t statusType then Some code else wrapped
      | _ => wrapped
      end
  end.

Definition Code (err : error) : string := default "Unknown" (status_of err).

Definition InvalidArgument : string := "InvalidArgument".
Definition Internal : string := "Internal".
Definition Unavailable : string := "Unavailable".
Definition FailedPrecondition : string := "FailedPrecondition".
Definition AlreadyExists : string := "AlreadyExists".
Definition Aborted : string := "Aborted".
Definition ResourceExhausted : string := "ResourceExhausted".
Definition Canceled : string := "Canceled".
Definition DeadlineExceeded : string := "DeadlineExceeded".

Definition ContextCanceled : error := Errorf "context canceled".
Definition ContextDeadlineExceeded : error := Errorf "context deadline exceeded".

Section provisioning.
Context {AM : Apimachinery} {L : Libraries} {O : Oracle call}.

(** ** Placement of a consumer (consumer/inspector.go) *)

Definition SelectedNode : string := "volume.kubernetes.io/selected-node".
Definition PopulatorKind : string := "cdi.kubevirt.io/storage.populator.kind".
Definition PrimeName : string := "cdi.kubevirt.io/storage.populator.pvcPrime".

Definition ErrIdentity : error := Errorf "PVC placement identity changed".

Inductive Placement := Unknown | Fixed | Reschedulable.

Record Request := { req_Namespace : string; req_Name : string; req_UID : string; req_Node : string }.

(** [Result]: its reason is text of a message. *)
#[local] Notation Result := Placement.

Definition usesClaim (pod : Pod) (name : string) : bool :=
  existsb (fun v => (negb (is_nil (Volume.Ephemeral v)) && (VolumeClaimName pod v == name)) ||
                    some_and (Volume.PersistentVolumeClaim v) (fun claim => claim == name))
    (PodSpec.Volumes (Pod.Spec pod)).

Definition PodSucceeded : string := "Succeeded".
Definition PodFailed : string := "Failed".

(** The loop over the Pods: the placement so far and whether a consumer is elsewhere. *)
Definition observe_consumer (name node : string) (acc : Result * bool) (pod : Pod) : Result * bool :=
  let '(result, conflict) := acc in
  if negb (usesClaim pod name) || (Pod.Phase pod == PodSucceeded) || (Pod.Phase pod == PodFailed) then acc
  else
    let assigned := PodSpec.NodeName (Pod.Spec pod) in
    let result := if assigned == node then Fixed else result in
    let result := if (assigned == "") && negb match result with Fixed => true | _ => false end then Reschedulable else result in
    (result, if (assigned != "") && (assigned != node) then true else conflict).

Definition placementForPods (pods : list Pod) (name node : string) : Result :=
  let '(result, conflict) := fold_left (observe_consumer name node) pods (Unknown, false) in
  if conflict : bool then Unknown else result.

Definition schedulerOwnsEphemeral (pod : Pod) (pvc : Claim) : bool :=
  VolumeIsForPod pod pvc &&
  existsb (fun v => negb (is_nil (Volume.Ephemeral v)) && (VolumeClaimName pod v == ObjectMeta.Name (Claim.Meta pvc)))
    (PodSpec.Volumes (Pod.Spec pod)).

Fixpoint podOwnerPlacement (owners : list OwnerReference) (pvc : Claim) (req : Request) (placement : Result) : handler Result :=
  match owners with
  | [] => mret placement
  | owner :: owners =>
      if (OwnerReference.APIVersion owner != "v1") || (OwnerReference.Kind owner != "Pod")
      then podOwnerPlacement owners pvc req placement
      else
        got ← attempt (ask (GetPod (req_Namespace req) (OwnerReference.Name owner)));
        match got with
        | Err err => if IsNotFound err then mret Unknown else io_fail err
        | Ok pod =>
            if (ObjectMeta.UID (Pod.Meta pod) != OwnerReference.UID owner) || negb (usesClaim pod (ObjectMeta.Name (Claim.Meta pvc)))
            then mret Unknown
            else if (PodSpec.NodeName (Pod.Spec pod) == "") && negb (schedulerOwnsEphemeral pod pvc) then mret Unknown
            else podOwnerPlacement owners pvc req placement
        end
  end.

Definition annotation (meta : ObjectMeta) (key : string) : string := entry (ObjectMeta.Annotations meta) key.

Definition prime (pvc : Claim) (req : Request) : handler Result :=
  let kind := annotation (Claim.Meta pvc) PopulatorKind in
  if (kind != "VolumeImportSource") && (kind != "VolumeUploadSource") then mret Unknown
  else
    match GetControllerOf (Claim.Meta pvc) with
    | None => mret Unknown
    | Some owner =>
        if (OwnerReference.APIVersion owner != "v1") || (OwnerReference.Kind owner != "PersistentVolumeClaim") then mret Unknown
        else
          got ← attempt (ask (GetClaim (req_Namespace req) (OwnerReference.Name owner)));
          match got with
          | Err err => if IsNotFound err then mret Unknown else io_fail err
          | Ok parent =>
              parent ← io_lift (deref parent);
              let meta := Claim.Meta parent in
              io_reject_if ((ObjectMeta.UID meta != OwnerReference.UID owner) || negb (is_nil (ObjectMeta.DeletionTimestamp meta)) ||
                            (annotation meta SelectedNode != req_Node req) ||
                            negb match Claim.DataSourceRef parent with
                                 | Some (Some group, sourceKind) => (group == "cdi.kubevirt.io") && (sourceKind == kind)
                                 | _ => false
                                 end) ErrIdentity;;
              io_reject_if ((annotation meta PrimeName != "") && (annotation meta PrimeName != ObjectMeta.Name (Claim.Meta pvc))) ErrIdentity;;
              mret Fixed
          end
    end.

(** [Inspector.Inspect] with a reader. *)
Definition Inspect (req : Request) : handler Result :=
  if (req_Namespace req == "") || (req_Name req == "") || (req_UID req == "") || (req_Node req == "") then mret Unknown
  else
    got ← attempt (ask (GetClaim (req_Namespace req) (req_Name req)));
    match got with
    | Err err => if IsNotFound err then mret Unknown else io_fail err
    | Ok pvc =>
        pvc ← io_lift (deref pvc);
        let meta := Claim.Meta pvc in
        io_reject_if ((ObjectMeta.UID meta != req_UID req) || (annotation meta SelectedNode != req_Node req) ||
                      negb (is_nil (ObjectMeta.DeletionTimestamp meta)) || (Claim.VolumeName pvc != "")) ErrIdentity;;
        if negb (is_nil (ObjectMeta.Annotations meta !! PopulatorKind)) then prime pvc req
        else
          pods ← ask (ListPods (req_Namespace req));
          match placementForPods pods (ObjectMeta.Name meta) (req_Node req) with
          | Fixed => mret Fixed
          | placement => podOwnerPlacement (ObjectMeta.OwnerReferences meta) pvc req placement
          end
    end.

(** ** The original claim of a creation (creation/claim.go, retirement.go) *)

Definition ErrClaimIdentity : error := Errorf "original creation claim identity changed".

Record ClaimRequest := { claim_Namespace : string; claim_Name : string; claim_RequestName : string; claim_NodeName : string }.

(** [ClaimInspector.Inspect] with a reader; [strings.CutPrefix] leaves the name unchanged
    when it has no prefix. *)
Definition InspectClaim (request : ClaimRequest) : handler ClaimReference :=
  let prefixed := HasPrefix (claim_RequestName request) "pvc-" in
  let claim := {| ClaimReference.Namespace := claim_Namespace request; ClaimReference.Name := claim_Name request;
                  ClaimReference.UID := TrimPrefix (claim_RequestName request) "pvc-" |} in
  io_reject_if (negb prefixed || negb (ClaimReference_Valid claim) || (claim_NodeName request == "")) ErrClaimIdentity;;
  got ← attempt (ask (GetClaim (claim_Namespace request) (claim_Name request)));
  match got with
  | Err err => if IsNotFound err then io_fail ErrClaimIdentity else io_fail err
  | Ok None => io_fail (Errorf "creation claim reader returned no observation")
  | Ok (Some pvc) =>
      let meta := Claim.Meta pvc in
      io_reject_if ((ObjectMeta.UID meta != ClaimReference.UID claim) || (ObjectMeta.Namespace meta != ClaimReference.Namespace claim) ||
                    (ObjectMeta.Name meta != ClaimReference.Name claim) || negb (is_nil (ObjectMeta.DeletionTimestamp meta)) ||
                    (Claim.VolumeName pvc != "") || (annotation meta SelectedNode != claim_NodeName request)) ErrClaimIdentity;;
      mret claim
  end.

Definition pvHandoff (pv : PersistentVolume) (id : string) (claim : ClaimReference) : bool :=
  some_and (PersistentVolume.CSI pv) (fun '(driver, handle) => (driver == DriverName) && (handle == id)) ||
  some_and (PersistentVolume.ClaimRef pv) (fun ref =>
    (ClaimRef.UID ref == ClaimReference.UID claim) && (ClaimRef.Namespace ref == ClaimReference.Namespace claim) &&
    (ClaimRef.Name ref == ClaimReference.Name claim)).

(** [RetirementInspector.Retired] with a reader. *)
Definition Retired (id : string) (state : State) : handler bool :=
  match State.CreationClaim state with
  | None => io_fail ErrClaimIdentity
  | Some claim =>
      io_reject_if (negb (ClaimReference_Valid claim) || (State.RequestName state != "pvc-" +:+ ClaimReference.UID claim)) ErrClaimIdentity;;
      got ← attempt (ask (GetClaim (ClaimReference.Namespace claim) (ClaimReference.Name claim)));
      live ← match got with
             | Err err => if IsNotFound err then mret false else io_fail err
             | Ok None => io_fail (Errorf "original claim observation has no exact identity")
             | Ok (Some pvc) =>
                 let meta := Claim.Meta pvc in
                 io_reject_if ((ObjectMeta.Namespace meta != ClaimReference.Namespace claim) ||
                               (ObjectMeta.Name meta != ClaimReference.Name claim) || (ObjectMeta.UID meta == ""))
                   (Errorf "original claim observation has no exact identity");;
                 let same := ObjectMeta.UID meta == ClaimReference.UID claim in
                 if same && is_nil (ObjectMeta.DeletionTimestamp meta) then mret true
                 else
                   io_reject_if (same && (Claim.VolumeName pvc != ""))
                     (Wrapf [ErrStateConflict] "%w: original claim already records a PV binding");;
                   mret false
             end;
      if live : bool then mret false
      else
        pvs ← ask ListPersistentVolumes;
        io_reject_if (existsb (fun pv => pvHandoff pv id claim) pvs)
          (Wrapf [ErrStateConflict] "%w: PV %q contradicts unfinished creation retirement");;
        mret true
  end.

(** ** Settlement of a cleanup (reclaim/settler.go) *)

Definition effectErrorType : error := Errorf "EffectError".
Definition EffectError (err : error) : error := Wrapf [effectErrorType; err] "reclaim identified volume copy".

(** [errors.As(err, &effect)]: the error the outermost effect error holds. *)
Fixpoint as_effect (err : error) {struct err} : option error :=
  match err with
  | Errorf _ => None
  | Wrapf causes _ =>
      let wrapped := (fix first (l : list error) : option error :=
                        match l with
                        | [] => None
                        | cause :: l => match as_effect cause with Some found => Some found | None => first l end
                        end) causes in
      match causes with
      | t :: effect :: _ => if error_eqb t effectErrorType then Some effect else wrapped
      | _ => wrapped
      end
  end.

Definition requiresExecutorObservation (current : Cleanup) : bool :=
  let phase := Status.Phase (Cleanup.Status current) in
  let jobReceipt := some_and (Status.Executor (Cleanup.Status current)) (fun executor => Executor.Kind executor == "") &&
                    contains [CleanupJournal.PhaseVerifying; CleanupJournal.PhaseConfirmingAbsence; CleanupJournal.PhaseCompleted] phase in
  jobReceipt || (phase == CleanupJournal.PhasePending) || (phase == CleanupJournal.PhaseRunning).

(** [if err != nil { return ..., fmt.Errorf(format, err) }] *)
Definition wrapf {A : Type} (format : string) (c : handler A) : handler A :=
  r ← attempt c;
  match r with Ok a => mret a | Err err => io_fail (Wrapf [err] format) end.

(** [Settler.Advance] with a store and an executor; [absenceWait] is the wait it may block for. *)
Definition AdvanceCleanup (absenceWait : Z) (spec : CleanupJournal.Spec) : handler bool :=
  current ← wrapf "record volume cleanup intent: %w" (ask (EnsureCleanup spec));
  current ← (if requiresExecutorObservation current then
               got ← attempt (ask (Reclaim current));
               match got with Ok current => mret current | Err err => io_fail (EffectError err) end
             else mret current);
  io_reject_if ((Cleanup.Spec current != spec) || (Cleanup.UID current != Authority.UID (Spec.Authority spec)))
    (Wrapf [CleanupJournal.ErrConflict] "%w: cleanup observation changed authority or target");;
  let phase := Status.Phase (Cleanup.Status current) in
  if contains [CleanupJournal.PhasePending; CleanupJournal.PhaseRunning] phase then mret false
  else if phase == CleanupJournal.PhaseNeedsReview
  then io_fail (Wrapf [CleanupJournal.ErrConflict] "%w: cleanup %q requires review: %s")
  else
    io_reject_if (negb (contains [CleanupJournal.PhaseVerifying; CleanupJournal.PhaseConfirmingAbsence; CleanupJournal.PhaseCompleted] phase))
      (Wrapf [CleanupJournal.ErrConflict] "%w: cleanup %q is phase=%q");;
    '(current, complete) ← wrapf "verify exact cleanup absence: %w" (
      '(current, complete) ← ask (ReconcileAbsence current);
      if negb complete && (0 <? absenceWait)%Z then ask (WaitForAbsence current absenceWait) else mret (current, complete));
    mret (complete && (Status.Phase (Cleanup.Status current) == CleanupJournal.PhaseCompleted)).

(** ** Cancellation of an unfinished creation (creation/cancellation.go) *)

Definition ErrNotCancellable : error := Errorf "volume is not an unfinished initial creation".
Definition ErrInspectionUnavailable : error := Errorf "creation executor inspection is unavailable".
Definition ErrLegacyCreation : error := Errorf "legacy creation helper responsibility must settle before cancellation".

Definition cancellation_spec (id uid : string) (fenced : State) (copy : CopyIdentity) : CleanupJournal.Spec :=
  {| Spec.OperationID := State.DeletionOperationID fenced; Spec.Target := copy; Spec.Reason := "CreationCancelled";
     Spec.Authority := {| Authority.Kind := "ShiftPVVolume"; Authority.Name := id; Authority.UID := uid |} |}.

(** [Canceller.Advance] with a repository and a settlement; [inspector] tells whether the
    executor can be inspected. *)
Definition AdvanceCancellation (inspector : bool) (absenceWait : Z) (id uid : string) : handler bool :=
  io_reject_if ((uid == "") || negb (is_ok (ValidateID id)))
    (Errorf "creation cancellation requires an exact Volume identity and repository");;
  got ← attempt (ask (GetVolume id));
  match got with
  | Err err => if IsNotFound err then mret true else io_fail err
  | Ok state =>
      io_reject_if (State.UID state != uid) ErrStateConflict;;
      if UnstartedCreation state then ask (CancelUnstartedCreation id uid);; mret true
      else
        io_reject_if (negb (CancellableCreation state) && negb (CancellingCreation state)) ErrNotCancellable;;
        io_reject_if (negb inspector) ErrInspectionUnavailable;;
        copy ← io_lift (deref (State.CurrentCopy state));
        exists_ ← wrapf "inspect creation responsibility: %w" (ask (CreationExists copy));
        io_reject_if exists_ ErrLegacyCreation;;
        fenced ← ask (BeginCreationCancellation id uid copy);
        target ← io_lift (deref (State.CurrentCopy fenced));
        complete ← AdvanceCleanup absenceWait (cancellation_spec id uid fenced target);
        if negb complete then mret false
        else
          ask (DeleteState id uid);;
          ask (RemoveVolumeFinalizer id uid);;
          mret true
  end.

(** ** The creation controller (lifecycle/creationcontroller) *)

Definition candidate (state : State) : bool :=
  if CancellingCreation state then true
  else some_and (State.CreationClaim state) (fun claim =>
         ClaimReference_Valid claim && (State.RequestName state == "pvc-" +:+ ClaimReference.UID claim)) &&
       (UnstartedCreation state || CancellableCreation state).

Definition ReconcileCreation (inspector : bool) (absenceWait : Z) (id uid : string) : handler bool :=
  got ← attempt (ask (GetVolume id));
  match got with
  | Err err => if IsNotFound err then mret true else io_fail err
  | Ok state =>
      if (State.UID state != uid) || negb (candidate state) then mret true
      else
        retired ← (if negb (CancellingCreation state) then Retired id state else mret true);
        if negb retired then mret true
        else
          got ← attempt (AdvanceCancellation inspector absenceWait id uid);
          match got with
          | Err err => if error_is err ErrNotCancellable then mret true else io_fail err
          | Ok complete => mret complete
          end
  end.
End provisioning.
