(* ===== verification/CsiController.v ===== *)
(** * The CSI controller service

    src/csi/controller: creation of a volume on the node its consumer was scheduled to
    (parsing, capacity admission under the Pool lock, the durable intent, the node's
    effect and its completion), deletion behind a settled cleanup, and the capacity that
    is reported to the scheduler.

    A message of gRPC is a record of the fields the service reads; a nil message of an
    optional field is [None].  Steps are timed for metrics in the code
    ([observeStep]); the timing is not part of the model. *)

From S2P Require Import Prelude Bytes VolumeIdentity Apimachinery Registration GoTime ApiServer VolumeState PoolApi VolumeRegistry MoveApi Capacity.
From S2P Require Import CleanupJournal Kube Oracle Provisioning.

(** ** Messages *)

Definition TopologyKey : string := "topology.csi.shiftpv.io/node".
Definition NodeContextKey : string := "shiftpv.io/node".
Definition CapacityEnforcementKey : string := "shiftpv.io/capacity-enforcement".
Definition PoolGroupKey : string := "shiftpv.io/pool-group".
Definition PVCNameKey : string := "csi.storage.k8s.io/pvc/name".
Definition PVCNamespaceKey : string := "csi.storage.k8s.io/pvc/namespace".
Definition PVNameKey : string := "csi.storage.k8s.io/pv/name".
Definition MobilityAdmissionLabel : string := "shiftpv.io/admission".
Definition capacityEnforcementNone : string := "none".
Definition mobilityEnabledValue : string := "enabled".

(** [csi.VolumeCapability]: whether it is a mount, and its access mode. *)
Module VolumeCapability.
Record VolumeCapability := { Mount : bool; AccessMode : option string }.
End VolumeCapability.
Notation VolumeCapability := VolumeCapability.VolumeCapability.

Definition SINGLE_NODE_WRITER : string := "SINGLE_NODE_WRITER".

Module CapacityRange.
Record CapacityRange := { RequiredBytes : Z; LimitBytes : Z }.
End CapacityRange.
Notation CapacityRange := CapacityRange.CapacityRange.

(** A topology is its segments. *)
Definition Topology : Type := gmap string string.

Module TopologyRequirement.
Record TopologyRequirement := { Requisite : list Topology; Preferred : list Topology }.
End TopologyRequirement.
Notation TopologyRequirement := TopologyRequirement.TopologyRequirement.

Module CreateVolumeRequest.
Record CreateVolumeRequest := {
  Name : string;
  VolumeContentSource : bool;
  MutableParameters : gmap string string;
  VolumeCapabilities : list VolumeCapability;
  Parameters : gmap string string;
  CapacityRange : option CapacityRange;
  AccessibilityRequirements : option TopologyRequirement
}.
End CreateVolumeRequest.
Notation CreateVolumeRequest := CreateVolumeRequest.CreateVolumeRequest.

Module CreateVolumeResponse.
Record CreateVolumeResponse := {
  VolumeId : string;
  CapacityBytes : Z;
  VolumeContext : gmap string string;
  AccessibleTopology : list Topology
}.
End CreateVolumeResponse.
Notation CreateVolumeResponse := CreateVolumeResponse.CreateVolumeResponse.

(** [createRequest] *)
Module createRequest.
Record createRequest := {
  id : string;
  name : string;
  nodeName : string;
  capacity : Z;
  capacityRange : option CapacityRange;
  topology : option TopologyRequirement
}.
End createRequest.
Notation createRequest := createRequest.createRequest.

(** ** Requests (request.go) *)

(** The getters of a nil message return the zero value. *)
Definition GetRequiredBytes (r : option CapacityRange) : Z := match r with Some r => CapacityRange.RequiredBytes r | None => 0 end.
Definition GetLimitBytes (r : option CapacityRange) : Z := match r with Some r => CapacityRange.LimitBytes r | None => 0 end.
Definition GetRequisite (t : option TopologyRequirement) : list Topology :=
  match t with Some t => TopologyRequirement.Requisite t | None => [] end.
Definition GetPreferred (t : option TopologyRequirement) : list Topology :=
  match t with Some t => TopologyRequirement.Preferred t | None => [] end.

(** [len(segments) == 1 && segments[TopologyKey] == node] *)
Definition names_node (node : string) (segments : Topology) : bool :=
  (size segments =? 1)%nat && (entry segments TopologyKey == node).

Definition readyNodeAllowed (node : string) (requirements : option TopologyRequirement) : bool :=
  if (length (GetRequisite requirements) =? 0)%nat then true else existsb (names_node node) (GetRequisite requirements).

Definition creationNodeAllowed (node : string) (requirements : option TopologyRequirement) : bool :=
  let candidates := if (length (GetRequisite requirements) =? 0)%nat then GetPreferred requirements else GetRequisite requirements in
  existsb (names_node node) candidates.

Definition compatibleCreateRequest (existing : State) (request : createRequest) : result unit :=
  reject_if (State.RequestName existing != createRequest.name request)
    (status_error AlreadyExists "volume %q already exists with incompatible requestName");;
  reject_if ((State.CapacityBytes existing <? GetRequiredBytes (createRequest.capacityRange request))%Z ||
             ((0 <? GetLimitBytes (createRequest.capacityRange request))%Z &&
              (GetLimitBytes (createRequest.capacityRange request) <? State.CapacityBytes existing)%Z))
    (status_error AlreadyExists "volume %q already exists outside the requested capacity range");;
  let allowed := if State.Phase existing == PhaseReady
                 then readyNodeAllowed (State.OwnerNode existing) (createRequest.topology request)
                 else creationNodeAllowed (State.InitialNode existing) (createRequest.topology request) in
  reject_if (negb allowed) (status_error AlreadyExists "volume %q already exists outside the requested topology").

Definition requestedCapacity (capacityRange : option CapacityRange) : result Z :=
  match capacityRange with
  | None => Err (Errorf "capacity range is required")
  | Some capacityRange =>
      let required := CapacityRange.RequiredBytes capacityRange in
      let limit := CapacityRange.LimitBytes capacityRange in
      reject_if ((required <? 0)%Z || (limit <? 0)%Z) (Errorf "capacity bounds must not be negative");;
      if (required =? 0)%Z then
        reject_if (limit =? 0)%Z (Errorf "at least one positive capacity bound is required");; Ok limit
      else
        reject_if ((0 <? limit)%Z && (limit <? required)%Z) (Errorf "required capacity exceeds the limit");; Ok required
  end.

(** A loop that returns the first error of its body. *)
Fixpoint check_each {A : Type} (check : A -> result unit) (l : list A) : result unit :=
  match l with
  | [] => Ok tt
  | x :: l => check x;; check_each check l
  end.

Definition validateCapability (capability : VolumeCapability) : result unit :=
  reject_if (negb (VolumeCapability.Mount capability)) (Errorf "only filesystem volumes are supported");;
  reject_if (negb (some_and (VolumeCapability.AccessMode capability) (fun mode => mode == SINGLE_NODE_WRITER)))
    (Errorf "only SINGLE_NODE_WRITER is supported").

Definition validateCapabilities (capabilities : list VolumeCapability) : result unit :=
  reject_if (length capabilities =? 0)%nat (Errorf "at least one volume capability is required");;
  check_each validateCapability capabilities.

(** The first node a list of topologies names. *)
Fixpoint first_node (candidates : list Topology) : option string :=
  match candidates with
  | [] => None
  | segments :: candidates =>
      if entry segments TopologyKey != "" then Some (entry segments TopologyKey) else first_node candidates
  end.

Definition selectedNode (requirements : option TopologyRequirement) : result string :=
  match requirements with
  | None => Err (Errorf "selected topology is required; use WaitForFirstConsumer")
  | Some _ =>
      let candidates := GetPreferred requirements ++ GetRequisite requirements in
      check_each (fun segments =>
        reject_if (negb (size segments =? 1)%nat || (entry segments TopologyKey == ""))
          (Errorf "topology must contain only %q with a node value")) candidates;;
      check_each (fun segments =>
        reject_if (negb (creationNodeAllowed (entry segments TopologyKey) requirements))
          (Errorf "preferred topology must be included in requisite topology")) (GetPreferred requirements);;
      match first_node candidates with
      | Some node => Ok node
      | None => Err (Errorf "selected topology does not contain %q")
      end
  end.

(** [status.Error(codes.InvalidArgument, err.Error())] *)
Definition coded {A : Type} (code : string) (r : result A) : result A :=
  match r with Ok a => Ok a | Err _ => Err (status_error code "%v") end.

Section requests.
Context {AM : Apimachinery} {L : Libraries}.

Definition validateParameter (parameter : string * string) : result unit :=
  let '(key, value) := parameter in
  if contains [PVCNameKey; PVCNamespaceKey; PVNameKey] key then Ok tt
  else if key == CapacityEnforcementKey
  then reject_if (value != capacityEnforcementNone) (Errorf "unsupported StorageClass parameter %q value %q")
  else if key == PoolGroupKey
  then reject_if (negb (IsDNS1123Label value)) (Errorf "invalid StorageClass pool group %q")
  else Err (Errorf "unsupported StorageClass parameter %q").

Definition validateParameters (parameters : gmap string string) : result unit := check_each validateParameter (range parameters).

Definition parseCreateRequest (req : CreateVolumeRequest) : result createRequest :=
  reject_if (CreateVolumeRequest.Name req == "") (status_error InvalidArgument "name is required");;
  reject_if (CreateVolumeRequest.VolumeContentSource req)
    (status_error InvalidArgument "snapshot restore and volume cloning are not supported");;
  reject_if (negb (size (CreateVolumeRequest.MutableParameters req) =? 0)%nat)
    (status_error InvalidArgument "mutable volume parameters are not supported");;
  coded InvalidArgument (validateCapabilities (CreateVolumeRequest.VolumeCapabilities req));;
  coded InvalidArgument (validateParameters (CreateVolumeRequest.Parameters req));;
  capacity ← coded InvalidArgument (requestedCapacity (CreateVolumeRequest.CapacityRange req));
  nodeName ← coded InvalidArgument (selectedNode (CreateVolumeRequest.AccessibilityRequirements req));
  id ← coded InvalidArgument (IDFromName (CreateVolumeRequest.Name req));
  Ok {| createRequest.id := id; createRequest.name := CreateVolumeRequest.Name req; createRequest.nodeName := nodeName;
        createRequest.capacity := capacity; createRequest.capacityRange := CreateVolumeRequest.CapacityRange req;
        createRequest.topology := CreateVolumeRequest.AccessibilityRequirements req |}.
End requests.

Definition requestedPoolGroup (parameters : gmap string string) : string :=
  if entry parameters PoolGroupKey != "" then entry parameters PoolGroupKey else DefaultPoolGroup.

Definition poolGroup (pool : Pool) : string := if Pool.PoolGroup pool != "" then Pool.PoolGroup pool else DefaultPoolGroup.

(** ** Reported capacity (get_capacity.go) *)

Module GetCapacityRequest.
Record GetCapacityRequest := {
  Parameters : gmap string string;
  VolumeCapabilities : list VolumeCapability;
  AccessibleTopology : option Topology
}.
End GetCapacityRequest.
Notation GetCapacityRequest := GetCapacityRequest.GetCapacityRequest.

Module GetCapacityResponse.
Record GetCapacityResponse := { AvailableCapacity : Z; MaximumVolumeSize : Z }.
End GetCapacityResponse.
Notation GetCapacityResponse := GetCapacityResponse.GetCapacityResponse.

Definition reservedPrefix : string := "csi.storage.k8s.io/".

(** The suffixes of the reserved parameters the provisioner itself consumes. *)
Definition provisionerParameters : list string :=
  ["fstype"; "secret-name"; "secret-namespace";
   "provisioner-secret-name"; "provisioner-secret-namespace";
   "controller-publish-secret-name"; "controller-publish-secret-namespace";
   "node-stage-secret-name"; "node-stage-secret-namespace";
   "node-publish-secret-name"; "node-publish-secret-namespace";
   "controller-expand-secret-name"; "controller-expand-secret-namespace";
   "node-expand-secret-name"; "node-expand-secret-namespace";
   "controller-modify-secret-name"; "controller-modify-secret-namespace"].

Fixpoint plugin_parameters (entries : list (string * string)) (acc : gmap string string) : result (gmap string string) :=
  match entries with
  | [] => Ok acc
  | (key, value) :: entries =>
      if HasPrefix key reservedPrefix then
        if contains provisionerParameters (TrimPrefix key reservedPrefix) then plugin_parameters entries acc
        else Err (Errorf "unsupported reserved StorageClass parameter %q")
      else plugin_parameters entries (<[key := value]> acc)
  end.

Section capacity.
Context {AM : Apimachinery} {L : Libraries}.

Definition capacityQueryParameters (parameters : gmap string string) : result (gmap string string) :=
  pluginParameters ← plugin_parameters (range parameters) ∅;
  validateParameters pluginParameters;;
  Ok pluginParameters.

(** The Pool group and the node a query is about; no node is the whole group. *)
Definition capacityQueryScope (req : GetCapacityRequest) : result (string * string) :=
  parameters ← coded InvalidArgument (capacityQueryParameters (GetCapacityRequest.Parameters req));
  (if negb (length (GetCapacityRequest.VolumeCapabilities req) =? 0)%nat
   then coded InvalidArgument (validateCapabilities (GetCapacityRequest.VolumeCapabilities req)) else Ok tt);;
  let segments := default ∅ (GetCapacityRequest.AccessibleTopology req) in
  reject_if (negb (size segments =? 0)%nat && (negb (size segments =? 1)%nat || (entry segments TopologyKey == "")))
    (status_error InvalidArgument "topology must contain only %q with a node value");;
  Ok (requestedPoolGroup parameters, entry segments TopologyKey).

Definition observedPoolHeadroom (pool : Pool) (reserved : Z) : Z :=
  match LimitBytes pool with
  | Err _ => 0
  | Ok limit =>
      if (reserved <? 0)%Z || (limit <=? reserved)%Z then 0
      else
        match PoolStatus.FilesystemAvailableBytes (Pool.Status pool), PoolStatus.FilesystemAvailableInodes (Pool.Status pool) with
        | Some available, Some inodes =>
            let total := PoolStatus.FilesystemTotalBytes (Pool.Status pool) in
            if (total <=? 0)%Z || (available <? 0)%Z || (total <? available)%Z || (inodes <=? 0)%Z then 0
            else Z.min (limit - reserved) available
        | _, _ => 0
        end
  end.

(** One candidate is added to the response. *)
Definition add_headroom (response : GetCapacityResponse) (available : Z) : GetCapacityResponse :=
  {| GetCapacityResponse.AvailableCapacity :=
       if (MaxInt64 - GetCapacityResponse.AvailableCapacity response <? available)%Z then MaxInt64
       else GetCapacityResponse.AvailableCapacity response + available;
     GetCapacityResponse.MaximumVolumeSize := Z.max (GetCapacityResponse.MaximumVolumeSize response) available |}.

Definition no_capacity : GetCapacityResponse :=
  {| GetCapacityResponse.AvailableCapacity := 0; GetCapacityResponse.MaximumVolumeSize := 0 |}.

Fixpoint report_capacity (candidates : list Pool) (volumes : list (string * State)) (moves : list Move) (response : GetCapacityResponse) :
    result GetCapacityResponse :=
  match candidates with
  | [] => Ok response
  | pool :: candidates =>
      reserved ← match ReservedBytesForPool volumes (list_to_map volumes) moves (Pool.UID pool) with
                 | Ok reserved => Ok reserved
                 | Err _ => Err (status_error Unavailable "capacity ownership observation is inconsistent: %v")
                 end;
      report_capacity candidates volumes moves (add_headroom response (observedPoolHeadroom pool reserved))
  end.
End capacity.

(** ** Errors *)

Section errors.
Context {L : Libraries}.

Definition transient (err : error) : bool :=
  IsConflict err || IsTimeout err || IsServerTimeout err || IsTooManyRequests err || IsServiceUnavailable err.

Definition kubernetesAPIError (operation : string) (err : error) : error :=
  let code := if error_is err ContextCanceled then Canceled
              else if error_is err ContextDeadlineExceeded then DeadlineExceeded
              else if transient err then Unavailable
              else Internal in
  status_error code operation.

Definition directoryOperationError (operation : string) (err : error) : error :=
  status_error (if Retryable err then Unavailable else Internal) operation.

Definition capacityProbeError (operation : string) (err : error) : error :=
  let code := if error_is err ContextCanceled then Canceled
              else if error_is err ContextDeadlineExceeded then DeadlineExceeded
              else if error_is err ErrPoolNotReady then Unavailable
              else if transient err then Unavailable
              else if Retryable err then Unavailable
              else Internal in
  status_error code operation.

Definition poolSelectionError (err : error) : error :=
  if error_is err ErrPoolConfiguration || error_is err ErrPoolNotFound || error_is err ErrPoolNotReady
  then status_error FailedPrecondition "read selected Pool: %v"
  else kubernetesAPIError "read selected Pool" err.

Definition cleanupSettlementError (err : error) : error :=
  match as_effect err with
  | Some effect => directoryOperationError "reclaim identified volume copy" effect
  | None => if error_is err CleanupJournal.ErrConflict then status_error FailedPrecondition "%v"
            else kubernetesAPIError "settle volume cleanup" err
  end.

Definition deletionAdmissionError (err : error) : error :=
  if negb (is_nil (as_effect err)) || error_is err CleanupJournal.ErrConflict then cleanupSettlementError err
  else if negb (is_nil (status_of err)) then err
  else if error_is err ErrVolumeFinalizersPending
  then status_error Unavailable "wait for other Volume protections before cancellation: %v"
  else if error_is err ErrInspectionUnavailable then status_error Unavailable "%v"
  else if error_is err ErrLegacyCreation || error_is err ErrNotCancellable then status_error FailedPrecondition "%v"
  else if error_is err ErrVolumePublished then status_error Unavailable "wait for volume unpublish before deletion: %v"
  else if error_is err ErrStateConflict then status_error FailedPrecondition "fence volume deletion: %v"
  else kubernetesAPIError "fence volume deletion" err.
End errors.

(** ** The service *)

(** The optional collaborators that are configured, and its durations in nanoseconds.
    [Configured] is the condition of [validate]. *)
Module Service.
Record Service := {
  Configured : bool;
  CreationInspector : bool;
  CreationClaims : bool;
  ConsumerPlacement : bool;
  CapacityPools : bool;
  CapacityProbe : bool;
  SharedPoolLocks : bool;
  PoolReadinessStaleAfter : Z;
  CleanupAbsenceWait : Z;
  RetryRequests : bool;
  ProvisioningGate : bool
}.
End Service.
Notation Service := Service.Service.

(** Whether a Pool can take a request, or why not. *)
Inductive poolFit := Allowed | Denied (denial : error).

Section service.
Context {AM : Apimachinery} {L : Libraries} {O : Oracle call} (s : Service).

(** [locker.Lock(key)] and the deferred unlock. *)
Definition locked {A : Type} (l : locker) (key : string) (body : handler A) : handler A :=
  bracket (perform (Lock l key)) (perform (Unlock l key)) body.

(** [if err != nil { return ..., f(err) }] *)
Definition mapped {A : Type} (f : error -> error) (c : handler A) : handler A :=
  r ← attempt c;
  match r with Ok a => mret a | Err err => io_fail (f err) end.

Definition poolLocker : locker := if Service.SharedPoolLocks s then PoolLocks else PoolLifecycles.

Definition creation_request (request : createRequest) : CreationRequest :=
  {| req_VolumeID := createRequest.id request; req_RequestName := createRequest.name request;
     req_NodeName := createRequest.nodeName request; req_CapacityBytes := createRequest.capacity request;
     req_Pool := None; req_Claim := None |}.

(** The request that a recorded creation repeats. *)
Definition recorded_request (id : string) (existing : State) (pool : option PoolReference) : CreationRequest :=
  {| req_VolumeID := id; req_RequestName := State.RequestName existing; req_NodeName := State.InitialNode existing;
     req_CapacityBytes := State.CapacityBytes existing; req_Pool := pool; req_Claim := State.CreationClaim existing |}.

Definition reference (pool : Pool) : PoolReference := {| PoolReference.Name := Pool.Name pool; PoolReference.UID := Pool.UID pool |}.

Definition with_pool (request : CreationRequest) (pool : Pool) : CreationRequest :=
  {| req_VolumeID := req_VolumeID request; req_RequestName := req_RequestName request; req_NodeName := Pool.NodeName pool;
     req_CapacityBytes := req_CapacityBytes request; req_Pool := Some (reference pool); req_Claim := req_Claim request |}.

(** *** The original claim (creation_claim.go) *)

Definition inspectCreationClaim (request : ClaimRequest) : handler ClaimReference :=
  io_reject_if (negb (Service.CreationClaims s)) (status_error Unavailable "creation claim inspection is not configured");;
  got ← attempt (InspectClaim request);
  match got with
  | Err err =>
      if error_is err ErrClaimIdentity then io_fail (status_error FailedPrecondition "%v")
      else if error_is err ContextCanceled || error_is err ContextDeadlineExceeded
      then io_fail (kubernetesAPIError "verify original creation claim" err)
      else io_fail (status_error Unavailable "verify original creation claim: %v")
  | Ok claim =>
      io_reject_if (negb (ClaimReference_Valid claim)) (status_error Unavailable "original creation claim identity is unproven");;
      io_reject_if ((ClaimReference.Namespace claim != claim_Namespace request) || (ClaimReference.Name claim != claim_Name request) ||
                    (claim_RequestName request != "pvc-" +:+ ClaimReference.UID claim))
        (status_error FailedPrecondition "verified creation claim differs from the requested original");;
      mret claim
  end.

Definition newCreationRequest (request : createRequest) (parameters : gmap string string) : handler CreationRequest :=
  let intent := creation_request request in
  let namespace := entry parameters PVCNamespaceKey in
  let name := entry parameters PVCNameKey in
  let pv := entry parameters PVNameKey in
  if (namespace == "") || (name == "") || negb (HasPrefix (createRequest.name request) "pvc-") then mret intent
  else
    io_reject_if ((pv != "") && (pv != createRequest.name request))
      (status_error FailedPrecondition "PV metadata differs from the creation request");;
    claim ← inspectCreationClaim {| claim_Namespace := namespace; claim_Name := name;
                                    claim_RequestName := createRequest.name request; claim_NodeName := createRequest.nodeName request |};
    mret {| req_VolumeID := req_VolumeID intent; req_RequestName := req_RequestName intent; req_NodeName := req_NodeName intent;
            req_CapacityBytes := req_CapacityBytes intent; req_Pool := req_Pool intent; req_Claim := Some claim |}.

Definition validateCreationClaim (existing : State) : handler unit :=
  match State.CreationClaim existing with
  | None => mret tt
  | Some claim =>
      observed ← inspectCreationClaim {| claim_Namespace := ClaimReference.Namespace claim; claim_Name := ClaimReference.Name claim;
                                         claim_RequestName := State.RequestName existing; claim_NodeName := State.InitialNode existing |};
      io_reject_if (observed != claim) (status_error FailedPrecondition "recorded original creation claim changed")
  end.

(** *** Placement and its denials (placement.go, capacity.go) *)

Definition consumer_request (parameters : gmap string string) (requestName node : string) : Request :=
  {| req_Namespace := entry parameters PVCNamespaceKey; req_Name := entry parameters PVCNameKey;
     req_UID := TrimPrefix requestName "pvc-"; req_Node := node |}.

Definition inspectConsumerPlacement (parameters : gmap string string) (requestName node : string) : handler Placement :=
  io_reject_if (negb (Service.ConsumerPlacement s)) (status_error Unavailable "consumer placement inspection is not configured");;
  got ← attempt (Inspect (consumer_request parameters requestName node));
  match got with
  | Err err => if error_is err ErrIdentity then io_fail (status_error FailedPrecondition "%s; %v")
               else io_fail (status_error Unavailable "%s; inspect PVC consumer: %v")
  | Ok placement => mret placement
  end.

Definition waitForPoolObservation (parameters : gmap string string) (requestName node : string) (observed : option Pool) : handler unit :=
  if Service.RetryRequests s then
    perform (RegisterObservation (entry parameters PVCNamespaceKey) (entry parameters PVCNameKey) (TrimPrefix requestName "pvc-")
               node (requestedPoolGroup parameters) observed)
  else mret tt.

Definition registerRetry (parameters : gmap string string) (requestName node group : string) (requested : Z) : handler unit :=
  if Service.RetryRequests s then
    perform (Register (entry parameters PVCNamespaceKey) (entry parameters PVCNameKey) (TrimPrefix requestName "pvc-") node group requested)
  else mret tt.

Definition noReadyPool (parameters : gmap string string) (requestName node : string) (registered : list Pool) : handler error :=
  let group := requestedPoolGroup parameters in
  if existsb (fun pool => (Pool.NodeName pool == node) && (poolGroup pool == group)) registered then
    waitForPoolObservation parameters requestName node None;;
    mret (status_error Unavailable "node %q has registered Pools in group %q, but none is Ready; wait for Pool observation")
  else
    got ← attempt (inspectConsumerPlacement parameters requestName node);
    match got with
    | Err err => mret err
    | Ok Reschedulable => mret (status_error ResourceExhausted "node %q has no registered Pool in group %q")
    | Ok _ =>
        waitForPoolObservation parameters requestName node None;;
        mret (status_error Unavailable "%s; %s; preserve node %q and retry")
    end.

Definition observedTotalCanFit (pool : Pool) (requested : Z) : handler bool :=
  now ← perform Now;
  let staleAfter := if (Service.PoolReadinessStaleAfter s <=? 0)%Z then DefaultPoolReadinessStaleAfter else Service.PoolReadinessStaleAfter s in
  mret (fst (ReadyAt pool now staleAfter) && (0 <? PoolStatus.FilesystemTotalBytes (Pool.Status pool))%Z &&
        (requested <=? PoolStatus.FilesystemTotalBytes (Pool.Status pool))%Z).

(** The measurement of a Pool, or the denial of the request when it cannot be made. *)
Definition inspectCapacity (parameters : gmap string string) (requestName : string) (pool : Pool) : handler (result Filesystem) :=
  got ← attempt (ask (StatFSForPool pool));
  match got with
  | Ok stats => mret (Ok stats)
  | Err err =>
      (if error_is err ErrPoolNotReady then waitForPoolObservation parameters requestName (Pool.NodeName pool) (Some pool) else mret tt);;
      mret (Err (capacityProbeError "inspect Pool filesystem capacity" err))
  end.

(** [stats] is the measurement on which the request was denied, if one was made. *)
Definition capacityDenied (parameters : gmap string string) (requestName : string) (pool : Pool) (requestedBytes limitBytes : Z)
    (stats : option Filesystem) (message : string) : handler error :=
  got ← attempt (inspectConsumerPlacement parameters requestName (Pool.NodeName pool));
  match got with
  | Err err => mret err
  | Ok Reschedulable => mret (status_error ResourceExhausted message)
  | Ok placement =>
      let message := if (limitBytes <? requestedBytes)%Z
                     then message +:+ "; request exceeds Pool limit; change capacity configuration or request size" else message in
      let unmeasured := (requestedBytes <=? limitBytes)%Z && match placement with Fixed => true | _ => false end && is_nil stats in
      fits ← (if unmeasured then observedTotalCanFit pool requestedBytes else mret true);
      stats ← (if negb fits then got ← inspectCapacity parameters requestName pool; mret match got with Ok stats => Ok (Some stats) | Err err => Err err end else mret (Ok stats));
      match stats with
      | Err err => mret err
      | Ok stats =>
          let message := if some_and stats (fun f => ExceedsTotal requestedBytes (Filesystem.TotalBytes f))
                         then message +:+ "; request exceeds filesystem total; change capacity configuration or request size" else message in
          registerRetry parameters requestName (Pool.NodeName pool) (poolGroup pool) requestedBytes;;
          mret (status_error Unavailable (message +:+ "; %s; preserve node %q and retry"))
      end
  end.

(** *** Admission (capacity.go) *)

Definition poolLimitBytes (pool : Pool) : result Z :=
  reject_if (Pool.CapacityLimit pool == "") (Errorf "spec.capacity.limit is required");;
  LimitBytes pool.

Definition poolReservedBytes (poolUID : string) : handler Z :=
  volumes ← mapped (kubernetesAPIError "list volume owners") (ask ListVolumes);
  moves ← mapped (kubernetesAPIError "list capacity-approved moves") (ask ListMoves);
  io_lift (coded FailedPrecondition (ReservedBytesForPool volumes (list_to_map volumes) moves poolUID)).

Definition poolFits (pool : Pool) (requestName : string) (requestedBytes : Z) (parameters : gmap string string) : handler poolFit :=
  match poolLimitBytes pool with
  | Err _ => mret (Denied (status_error FailedPrecondition "Pool %q capacity limit is invalid: %v"))
  | Ok limitBytes =>
      reservedBytes ← poolReservedBytes (Pool.UID pool);
      if negb (FitsReservation requestedBytes reservedBytes limitBytes) then
        denial ← capacityDenied parameters requestName pool requestedBytes limitBytes None
                    "Pool %q reservation limit exceeded: requested=%d reserved=%d limit=%d";
        mret (Denied denial)
      else
        got ← inspectCapacity parameters requestName pool;
        match got with
        | Err denial => mret (Denied denial)
        | Ok stats =>
            if (Filesystem.AvailableBytes stats <? requestedBytes)%Z then
              denial ← capacityDenied parameters requestName pool requestedBytes limitBytes (Some stats)
                        "Pool %q filesystem space is insufficient: requested=%d available=%d";
              mret (Denied denial)
            else mret Allowed
        end
  end.

(** The created state, or the denial. *)
Definition attemptCreateInPool (pool : Pool) (request : CreationRequest) (parameters : gmap string string) (initializingUID : string) :
    handler (State + error) :=
  let id := req_VolumeID request in
  locked poolLocker (Pool.UID pool) (
    (if initializingUID != "" then
       current ← mapped (kubernetesAPIError "read legacy initialization") (ask (GetVolume id));
       io_reject_if ((State.UID current != initializingUID) || negb (Initializing current) || negb (is_nil (State.InitialPool current)))
         (status_error Aborted "legacy creation changed during capacity admission")
     else mret tt);;
    fit ← poolFits pool (req_RequestName request) (req_CapacityBytes request) parameters;
    match fit with
    | Denied denial => mret (inr denial)
    | Allowed =>
        request ← (if initializingUID == "" then
                     newCreationRequest {| createRequest.id := id; createRequest.name := req_RequestName request;
                                           createRequest.nodeName := Pool.NodeName pool; createRequest.capacity := req_CapacityBytes request;
                                           createRequest.capacityRange := None; createRequest.topology := None |} parameters
                   else mret request);
        created ← ask (BeginCreate (with_pool request pool));
        mret (inl created)
    end).

(** The loop over the ready Pools; [denied] is the denial so far, [found] whether a Pool of the group is on the node. *)
Fixpoint place_in (pools : list Pool) (request : CreationRequest) (parameters : gmap string string) (initializingUID : string)
    (denied : option error) (found : bool) : handler (State + (option error * bool)) :=
  match pools with
  | [] => mret (inr (denied, found))
  | pool :: pools =>
      if (Pool.NodeName pool != req_NodeName request) || (poolGroup pool != requestedPoolGroup parameters)
      then place_in pools request parameters initializingUID denied found
      else
        got ← attempt (attemptCreateInPool pool request parameters initializingUID);
        match got with
        | Err err =>
            (if error_is err ErrPoolNotReady
             then waitForPoolObservation parameters (req_RequestName request) (req_NodeName request) (Some pool) else mret tt);;
            io_fail err
        | Ok (inl created) => mret (inl created)
        | Ok (inr denial) =>
            place_in pools request parameters initializingUID
              (if is_nil denied || (Code denial == Unavailable) then Some denial else denied) true
        end
  end.

Definition placeNewCreate (request : CreationRequest) (parameters : gmap string string) (initializingUID : string) : handler State :=
  let nodeName := req_NodeName request in
  let group := requestedPoolGroup parameters in
  got ← attempt (ask ObservePools);
  match got with
  | Err err =>
      (if error_is err ErrPoolNotReady then waitForPoolObservation parameters (req_RequestName request) nodeName None else mret tt);;
      io_fail (poolSelectionError err)
  | Ok (ready, registered) =>
      io_reject_if (existsb (fun pool => (Pool.NodeName pool == nodeName) && (poolGroup pool == group) &&
                                         PoolHasServingVolume pool (req_VolumeID request)) ready)
        (status_error FailedPrecondition "Pool %q already contains a serving copy for volume %q; wait for orphan cleanup");;
      placed ← place_in ready request parameters initializingUID None false;
      match placed with
      | inl created => mret created
      | inr (denied, found) =>
          if negb found then
            err ← noReadyPool parameters (req_RequestName request) nodeName registered;
            io_fail err
          else
            err ← io_lift (deref denied);
            io_fail err
      end
  end.

(** *** Recorded creations (capacity.go, initialization.go) *)

Definition validateExistingCreate (existing : State) (request : createRequest) (parameters : gmap string string) : handler unit :=
  io_lift (compatibleCreateRequest existing request);;
  validateCreationClaim existing;;
  if (createRequest.nodeName request == State.InitialNode existing) ||
     ((entry parameters PVCNamespaceKey == "") && (entry parameters PVCNameKey == "")) then mret tt
  else
    io_reject_if (negb (Service.ConsumerPlacement s)) (status_error Unavailable "consumer placement inspection is not configured");;
    got ← attempt (Inspect (consumer_request parameters (createRequest.name request) (State.InitialNode existing)));
    match got with
    | Err err => if error_is err ErrIdentity then io_fail (status_error FailedPrecondition "%v")
                 else io_fail (status_error Unavailable "inspect existing PVC placement: %v")
    | Ok Unknown => io_fail (status_error Unavailable "existing PVC placement is unproven")
    | Ok _ => mret tt
    end.

Definition samePoolGroup (pool : Pool) (parameters : gmap string string) : handler unit :=
  io_reject_if (poolGroup pool != requestedPoolGroup parameters) (status_error AlreadyExists "volume %q belongs to Pool group %q").

(** Both registries read a Pool by its identity through the same API. *)
Definition resumeReadyCreate (existing : State) (request : createRequest) (parameters : gmap string string) : handler State :=
  io_reject_if (negb (ValidReadyCreationHistory existing) || (State.CapacityBytes existing <=? 0)%Z ||
                negb (some_and (State.CurrentCopy existing) (fun copy => VolumeID copy == createRequest.id request)))
    (status_error FailedPrecondition "Ready volume identity or creation history is invalid");;
  io_lift (compatibleCreateRequest existing request);;
  copy ← io_lift (deref (State.CurrentCopy existing));
  pool ← mapped (fun err => if error_is err ErrStateConflict then status_error FailedPrecondition "Ready volume Pool identity changed: %v"
                            else poolSelectionError err)
           (ask (PoolForIdentity (PoolName copy) (PoolUID copy) (NodeName copy)));
  io_reject_if ((Pool.Name pool != PoolName copy) || (Pool.UID pool != PoolUID copy) || (Pool.NodeName pool != NodeName copy))
    (status_error FailedPrecondition "Ready volume Pool identity changed");;
  samePoolGroup pool parameters;;
  mret existing.

Definition resumeInitializingCreate (existing : State) (request : createRequest) (parameters : gmap string string) : handler State :=
  let id := createRequest.id request in
  io_reject_if (negb (Initializing existing)) (status_error FailedPrecondition "existing volume has no Pool copy identity");;
  match State.InitialPool existing with
  | None =>
      got ← attempt (placeNewCreate (recorded_request id existing None) parameters (State.UID existing));
      match got with
      | Ok state => mret state
      | Err err =>
          if Code err == ResourceExhausted then
            registerRetry parameters (State.RequestName existing) (State.InitialNode existing) (requestedPoolGroup parameters)
              (State.CapacityBytes existing);;
            io_fail (status_error Unavailable "%s; recorded creation must preserve node %q and retry")
          else io_fail err
      end
  | Some ref =>
      pool ← mapped poolSelectionError (ask (PoolForIdentity (PoolReference.Name ref) (PoolReference.UID ref) (State.InitialNode existing)));
      samePoolGroup pool parameters;;
      locked poolLocker (Pool.UID pool) (
        current ← mapped (kubernetesAPIError "read initializing volume") (ask (GetVolume id));
        io_reject_if (State.UID current != State.UID existing) (status_error Aborted "initializing volume identity changed");;
        ask (BeginCreate (recorded_request id existing (Some (reference pool)))))
  end.

Definition resumeExistingCreate (existing : State) (request : createRequest) (parameters : gmap string string) : handler State :=
  if State.Phase existing == PhaseReady then resumeReadyCreate existing request parameters
  else
    validateExistingCreate existing request parameters;;
    match State.CurrentCopy existing with
    | None => resumeInitializingCreate existing request parameters
    | Some copy =>
        pool ← mapped poolSelectionError (ask (PoolForIdentity (PoolName copy) (PoolUID copy) (NodeName copy)));
        samePoolGroup pool parameters;;
        ask (BeginCreate (recorded_request (createRequest.id request) existing (Some (reference pool))))
    end.

Definition beginCreateWithinPool (request : createRequest) (parameters : gmap string string) : handler State :=
  got ← attempt (ask (GetVolume (createRequest.id request)));
  match got with
  | Ok existing => resumeExistingCreate existing request parameters
  | Err err =>
      io_reject_if (negb (IsNotFound err)) (kubernetesAPIError "read volume creation intent" err);;
      placeNewCreate (creation_request request) parameters ""
  end.

(** *** Creation (service.go) *)

Definition beginCreate (request : createRequest) (parameters : gmap string string) : handler State :=
  let id := createRequest.id request in
  if Service.CapacityPools s || Service.CapacityProbe s then
    io_reject_if (negb (Service.CapacityPools s) || negb (Service.CapacityProbe s))
      (status_error Internal "Pool capacity admission is incompletely configured");;
    beginCreateWithinPool request parameters
  else
    got ← attempt (ask (GetVolume id));
    let grouped := requestedPoolGroup parameters != DefaultPoolGroup in
    let groupless := io_reject_if grouped (status_error FailedPrecondition "Pool group selection requires Pool capacity admission") in
    match got with
    | Ok existing =>
        if State.Phase existing == PhaseReady then resumeReadyCreate existing request parameters
        else
          groupless;;
          validateExistingCreate existing request parameters;;
          ask (BeginCreate (recorded_request id existing None))
    | Err err =>
        groupless;;
        io_reject_if (negb (IsNotFound err)) (kubernetesAPIError "read volume creation intent" err);;
        intent ← newCreationRequest request parameters;
        ask (BeginCreate intent)
    end.

Definition createServingCopy (id : string) (state : State) : handler unit :=
  match State.CurrentCopy state with
  | None => io_fail (status_error FailedPrecondition "volume creation has no copy identity")
  | Some copy =>
      mapped (directoryOperationError "prepare identified volume directory") (ask (CreateCopy copy));;
      mapped (kubernetesAPIError "complete volume creation") (ask (CompleteCreate id (State.UID state) copy));;
      mapped (directoryOperationError "settle volume creation helper") (ask (FinalizeCreate copy))
  end.

Definition ensureNoCleanupFence (volumeID : string) : handler unit :=
  cleanups ← mapped (kubernetesAPIError "list volume cleanup fences") (ask (ListForVolume volumeID));
  io_reject_if (existsb (fun cleanup => (VolumeID (Spec.Target (Cleanup.Spec cleanup)) == volumeID) &&
                                        (Status.Phase (Cleanup.Status cleanup) != CleanupJournal.PhaseCompleted)) cleanups)
    (status_error FailedPrecondition "volume %q has unresolved cleanup %q in phase %q").

Definition accessibleNodes (parameters : gmap string string) (owner : string) (poolNodes : list string) : handler (list string) :=
  if entry parameters PVCNamespaceKey == "" then mret [owner]
  else
    labels ← mapped (kubernetesAPIError "read PVC namespace for mobility topology") (ask (GetNamespaceLabels (entry parameters PVCNamespaceKey)));
    mret (if entry labels MobilityAdmissionLabel != mobilityEnabledValue then [owner] else poolNodes).

Definition volumeResponse (id nodeName : string) (poolNodes : list string) (capacity : Z) : CreateVolumeResponse :=
  {| CreateVolumeResponse.VolumeId := id; CreateVolumeResponse.CapacityBytes := capacity;
     CreateVolumeResponse.VolumeContext := {[ NodeContextKey := nodeName ]};
     CreateVolumeResponse.AccessibleTopology := map (fun node => {[ TopologyKey := node ]}) poolNodes |}.

Definition createVolumeResponse (id nodeName : string) (capacity : Z) (parameters : gmap string string) : handler CreateVolumeResponse :=
  poolNodes ← mapped (kubernetesAPIError "list volume topology") (ask (PoolNodesForGroup (requestedPoolGroup parameters)));
  io_reject_if (negb (contains poolNodes nodeName)) (status_error FailedPrecondition "selected node %q has no registered ShiftPVPool");;
  nodes ← accessibleNodes parameters nodeName poolNodes;
  mret (volumeResponse id nodeName nodes capacity).

Definition beginError (err : error) : error :=
  if error_is err ErrPoolCopyConflict then status_error FailedPrecondition "%v"
  else if negb (is_nil (status_of err)) then err
  else kubernetesAPIError "record volume creation intent" err.

Definition validate : handler unit :=
  io_reject_if (negb (Service.Configured s)) (status_error Internal "controller exact lifecycle is not configured").

(** [ProvisioningGate.Enter] and the deferred leave. *)
Definition gated {A : Type} (body : handler A) : handler A :=
  if Service.ProvisioningGate s then
    bracket (mapped (fun _ => status_error Unavailable "%v") (ask EnterGate)) (perform LeaveGate) body
  else body.

Definition CreateVolume (req : CreateVolumeRequest) : handler CreateVolumeResponse :=
  request ← io_lift (parseCreateRequest req);
  let id := createRequest.id request in
  let parameters := CreateVolumeRequest.Parameters req in
  validate;;
  gated (locked Lifecycles id (
    ensureNoCleanupFence id;;
    state ← mapped beginError (beginCreate request parameters);
    responseNode ← (if State.Phase state != PhaseReady then createServingCopy id state;; mret (State.InitialNode state)
                    else mret (State.OwnerNode state));
    createVolumeResponse id responseNode (State.CapacityBytes state) parameters)).

(** *** Deletion (deletion.go) *)

(** The state a deletion has to work on, if any. *)
Definition deletableState (volumeID : string) : handler (option State) :=
  got ← attempt (ask (GetVolume volumeID));
  match got with
  | Err err => if IsNotFound err then mret None else io_fail (kubernetesAPIError "read volume state" err)
  | Ok state =>
      if UnstartedCreation state then mret (Some state)
      else
        io_reject_if (State.OwnerNode state == "") (status_error FailedPrecondition "volume has no owner node");;
        io_reject_if ((State.UID state == "") || negb (some_and (State.CurrentCopy state) (fun copy => Role copy == RoleServing)))
          (status_error FailedPrecondition "identified volume state is required for cleanup");;
        mret (Some state)
  end.

Definition volumeCleanupReason (state : State) : string := if CancellingCreation state then "CreationCancelled" else "VolumeDelete".

Definition deletion_spec (volumeID : string) (fenced : State) (copy : CopyIdentity) : CleanupJournal.Spec :=
  {| Spec.OperationID := State.DeletionOperationID fenced; Spec.Target := copy; Spec.Reason := volumeCleanupReason fenced;
     Spec.Authority := {| Authority.Kind := "ShiftPVVolume"; Authority.Name := volumeID; Authority.UID := State.UID fenced |} |}.

Definition settleVolumeCleanup (volumeID : string) (fenced : State) : handler unit :=
  copy ← io_lift (deref (State.CurrentCopy fenced));
  complete ← mapped cleanupSettlementError (AdvanceCleanup (Service.CleanupAbsenceWait s) (deletion_spec volumeID fenced copy));
  io_reject_if (negb complete)
    (status_error Unavailable "cleanup is waiting for execution or a fresh post-receipt Pool absence proof").

Definition DeleteVolume (volumeID : string) : handler unit :=
  io_reject_if (volumeID == "") (status_error InvalidArgument "volume ID is required");;
  io_lift (coded InvalidArgument (ValidateID volumeID));;
  validate;;
  locked Lifecycles volumeID (
    found ← deletableState volumeID;
    match found with
    | None => mret tt
    | Some state =>
        if UnstartedCreation state || CancellableCreation state || CancellingCreation state then
          complete ← mapped deletionAdmissionError
            (AdvanceCancellation (Service.CreationInspector s) (Service.CleanupAbsenceWait s) volumeID (State.UID state));
          io_reject_if (negb complete) (status_error Unavailable "creation cancellation is waiting for cleanup settlement")
        else
          copy ← io_lift (deref (State.CurrentCopy state));
          fenced ← mapped deletionAdmissionError (ask (BeginDelete volumeID (State.UID state) copy));
          settleVolumeCleanup volumeID fenced;;
          mapped (kubernetesAPIError "delete volume state") (ask (DeleteState volumeID (State.UID fenced)));;
          mapped (kubernetesAPIError "release settled volume cleanup protection") (ask (RemoveVolumeFinalizer volumeID (State.UID fenced)))
    end).

(** *** Capacity and capabilities *)

Definition in_scope (group node : string) (pool : Pool) : bool :=
  (poolGroup pool == group) && ((node == "") || (Pool.NodeName pool == node)).

Definition GetCapacity (req : GetCapacityRequest) : handler GetCapacityResponse :=
  '(group, node) ← io_lift (capacityQueryScope req);
  io_reject_if (negb (Service.CapacityPools s)) (status_error Internal "Pool capacity observation is not configured");;
  '(ready, _) ← mapped (kubernetesAPIError "observe capacity Pools") (ask ObservePools);
  let candidates := List.filter (in_scope group node) ready in
  if (length candidates =? 0)%nat then mret no_capacity
  else
    volumes ← mapped (kubernetesAPIError "list capacity volume owners") (ask ListVolumes);
    moves ← mapped (kubernetesAPIError "list capacity Move holds") (ask ListMoves);
    io_lift (report_capacity candidates volumes moves no_capacity).

(** Whether the capabilities are confirmed. *)
Definition ValidateVolumeCapabilities (volumeID : string) (capabilities : list VolumeCapability) : result bool :=
  reject_if (volumeID == "") (status_error InvalidArgument "volume ID is required");;
  coded InvalidArgument (ValidateID volumeID);;
  Ok (is_ok (validateCapabilities capabilities)).
End service.
