(* ===== verification/CsiSample.v ===== *)
(** * A sample cluster for the CSI controller

    One Pool, a node that obeys, and three scenes: room for a creation, a full Pool with a
    consumer that waits for the scheduler, and a Ready volume whose cleanup settles. *)

From S2P Require Import Prelude Bytes VolumeIdentity Apimachinery Registration GoTime ApiServer VolumeState VolumeProtocol PoolApi VolumeRegistry MoveApi Capacity.
From S2P Require Import CleanupJournal Kube MobilitySample Oracle Provisioning CsiController.

Module SampleCsi.
Definition notFound : error := Errorf "not found".

#[export] Instance libraries : Libraries := {|
  IsNotFound e := error_is e notFound; IsConflict _ := false; IsTimeout _ := false; IsServerTimeout _ := false;
  IsTooManyRequests _ := false; IsServiceUnavailable _ := false; Retryable _ := false;
  VolumeClaimName pod v := ObjectMeta.Name (Pod.Meta pod) +:+ "-" +:+ Volume.Name v; VolumeIsForPod _ _ := false;
  range := map_to_list; range_perm m := reflexivity _ |}.

Definition service : Service := {|
  Service.Configured := true; Service.CreationInspector := true; Service.CreationClaims := true; Service.ConsumerPlacement := true;
  Service.CapacityPools := true; Service.CapacityProbe := true; Service.SharedPoolLocks := true; Service.PoolReadinessStaleAfter := 0;
  Service.CleanupAbsenceWait := 0; Service.RetryRequests := true; Service.ProvisioningGate := true |}.

Definition topology (node : string) : Topology := {[ TopologyKey := node ]}.

(** A request for [bytes] on node-a; [parameters] are those of the storage class. *)
Definition request (bytes : Z) (parameters : gmap string string) : CreateVolumeRequest := {|
  CreateVolumeRequest.Name := "pvc-1"; CreateVolumeRequest.VolumeContentSource := false; CreateVolumeRequest.MutableParameters := ∅;
  CreateVolumeRequest.VolumeCapabilities := [{| VolumeCapability.Mount := true; VolumeCapability.AccessMode := Some SINGLE_NODE_WRITER |}];
  CreateVolumeRequest.Parameters := parameters;
  CreateVolumeRequest.CapacityRange := Some {| CapacityRange.RequiredBytes := bytes; CapacityRange.LimitBytes := 0 |};
  CreateVolumeRequest.AccessibilityRequirements :=
    Some {| TopologyRequirement.Requisite := [topology "node-b"; topology "node-a"]; TopologyRequirement.Preferred := [topology "node-a"] |} |}.

Definition claim_parameters : gmap string string := {[ PVCNamespaceKey := "default"; PVCNameKey := "claim" ]}.

Definition claim : Claim := {|
  Claim.Meta := {| ObjectMeta.Name := "claim"; ObjectMeta.Namespace := "default"; ObjectMeta.UID := "1"; ObjectMeta.ResourceVersion := "1";
                   ObjectMeta.Generation := 1; ObjectMeta.Labels := ∅; ObjectMeta.Annotations := {[ SelectedNode := "node-a" ]};
                   ObjectMeta.OwnerReferences := []; ObjectMeta.DeletionTimestamp := None |};
  Claim.VolumeName := ""; Claim.DataSourceRef := None; Claim.Phase := "Pending" |}.

(** The Pool of node-a as its node last observed it. *)
Definition pool : Pool := let p := SampleMobility.pool_a in let status := Pool.Status p in
  {| Pool.Name := Pool.Name p; Pool.UID := Pool.UID p; Pool.NodeName := Pool.NodeName p; Pool.PoolGroup := Pool.PoolGroup p;
     Pool.MountPath := Pool.MountPath p; Pool.CapacityPolicy := Pool.CapacityPolicy p; Pool.MountPolicy := Pool.MountPolicy p;
     Pool.CapacityLimit := Pool.CapacityLimit p; Pool.Generation := Pool.Generation p; Pool.DeletionTimestamp := Pool.DeletionTimestamp p;
     Pool.Finalizers := Pool.Finalizers p; Pool.IdentityReleaseApproval := Pool.IdentityReleaseApproval p;
     Pool.RetirementRequest := Pool.RetirementRequest p; Pool.RetirementApproval := Pool.RetirementApproval p;
     Pool.CapacityProbeRequest := Pool.CapacityProbeRequest p;
     Pool.Status := {| PoolStatus.RegistrationApproved := PoolStatus.RegistrationApproved status;
       PoolStatus.CapacityProbeSupported := PoolStatus.CapacityProbeSupported status; PoolStatus.CapacityProbe := PoolStatus.CapacityProbe status;
       PoolStatus.FilesystemTotalBytes := 8589934592; PoolStatus.FilesystemAvailableBytes := Some 2147483648%Z;
       PoolStatus.FilesystemAvailableInodes := Some 1000%Z; PoolStatus.ObservedGeneration := PoolStatus.ObservedGeneration status;
       PoolStatus.LastProbeTime := PoolStatus.LastProbeTime status; PoolStatus.CapacityUnit := PoolStatus.CapacityUnit status;
       PoolStatus.MountIdentity := PoolStatus.MountIdentity status; PoolStatus.Conditions := PoolStatus.Conditions status;
       PoolStatus.Inventory := PoolStatus.Inventory status |} |}.

(** A query for the capacity of node-a. *)
Definition query : GetCapacityRequest := {|
  GetCapacityRequest.Parameters := {[ reservedPrefix +:+ "fstype" := "xfs" ]}; GetCapacityRequest.VolumeCapabilities := [];
  GetCapacityRequest.AccessibleTopology := Some (topology "node-a") |}.

(** The journal of a deletion once its absence is confirmed. *)
Definition journal (spec : CleanupJournal.Spec) (phase : string) : Cleanup := {|
  Cleanup.Name := "cleanup"; Cleanup.UID := Authority.UID (Spec.Authority spec); Cleanup.Spec := spec;
  Cleanup.Status := {| Status.Phase := phase; Status.ObservedGeneration := 1; Status.Reason := ""; Status.Message := "";
    Status.LastTransitionTime := ""; Status.Executor := None; Status.Receipt := None; Status.AbsenceProof := None; Status.SettledAt := "" |} |}.

(** What the cluster answers; [recorded] is the state of the volume. *)
Definition oracle (recorded : option State) : Oracle call := fun A h c =>
  match c in call A return A with
  | GetVolume _ => match recorded with Some state => Ok state | None => Err notFound end
  | DeleteState _ _ | RemoveVolumeFinalizer _ _ | CancelUnstartedCreation _ _ | CompleteCreate _ _ _ | CreateCopy _ | FinalizeCreate _
  | EnterGate => Ok tt
  | BeginCreationCancellation _ _ _ | BeginDelete _ _ _ => Ok sample_deleting
  | PoolNodesForGroup _ => Ok ["node-a"; "node-b"]
  | PoolForIdentity _ _ _ => Ok pool
  | BeginCreate _ => Ok sample_pending
  | ObservePools => Ok ([pool], [pool])
  | ListVolumes => Ok []
  | ListMoves => Ok []
  | StatFSForPool _ => Ok {| Filesystem.TotalBytes := 8589934592; Filesystem.AvailableBytes := 8589934592; Filesystem.AvailableInodes := 1000 |}
  | ListForVolume _ => Ok []
  | EnsureCleanup spec => Ok (journal spec CleanupJournal.PhasePending)
  | Reclaim current => Ok (journal (Cleanup.Spec current) CleanupJournal.PhaseVerifying)
  | ReconcileAbsence current | WaitForAbsence current _ => Ok (journal (Cleanup.Spec current) CleanupJournal.PhaseCompleted, true)
  | CreationExists _ => Ok false
  | Register _ _ _ _ _ _ | RegisterObservation _ _ _ _ _ _ | LeaveGate | Lock _ _ | Unlock _ _ => tt
  | GetClaim _ _ => Ok (Some claim)
  | GetPod _ _ => Err notFound
  | ListPods _ => Ok [SampleMobility.app "app-0" "pod-uid" ""]
  | ListPersistentVolumes => Ok []
  | GetNamespaceLabels _ => Ok ∅
  | Now => 1000%Z
  end.

(** The call of a run at a position, if it is one of those selected. *)
Lemma selected_at (select : event call -> bool) (n : nat) (h : history call) :
  some_and (h !! n) select = true -> exists e, select e = true /\ h = take n h ++ e :: drop (S n) h.
Proof. intros (e & He & Hs)%some_and_true. exists e. split; [done|]. symmetry. by apply take_drop_middle. Qed.
End SampleCsi.
