(* ===== verification/ProvisioningLogic.v ===== *)
(** * Provisioning: program logic

    Rules of [runs] for the combinators of the controller process, the handlers that only
    observe ([quietly]), and what an observation of a consumer establishes. *)

From S2P Require Import Prelude Bytes VolumeIdentity Apimachinery Registration GoTime ApiServer VolumeState PoolApi VolumeRegistry MoveApi Capacity.
From S2P Require Import CleanupJournal Kube Oracle Provisioning CsiController.

(** ** Calls that change nothing

    Reads, measurements, and registrations in the index of waiting requests, which never
    grants anything. *)

Definition quiet (e : event call) : bool :=
  match e with
  | Event c _ =>
      match c with
      | GetVolume _ | PoolNodesForGroup _ | PoolForIdentity _ _ _ | ObservePools | ListVolumes | ListMoves | StatFSForPool _
      | ListForVolume _ | CreationExists _ | Register _ _ _ _ _ _ | RegisterObservation _ _ _ _ _ _ | GetClaim _ _ | GetPod _ _
      | ListPods _ | ListPersistentVolumes | GetNamespaceLabels _ | Now => true
      | _ => false
      end
  end.

Definition quietly {A : Type} (c : handler A) : Prop := forall h, runs (fun _ e => quiet e = true) c h (fun _ _ => True).

Section rules.
Context {AM : Apimachinery} {L : Libraries} {O : Oracle call}.

Lemma runs_mapped P {A : Type} f (c : handler A) h (Q : result A -> history call -> Prop) :
  runs P c h (fun r h' => Q match r with Ok a => Ok a | Err err => Err (f err) end h') -> runs P (mapped f c) h Q.
Proof.
  intros Hc. apply runs_bind, runs_attempt. eapply runs_mono; [exact Hc|done|]. intros [a|err] l HQ; [by apply runs_ret|by apply runs_fail].
Qed.

Lemma runs_wrapf P {A : Type} format (c : handler A) h (Q : result A -> history call -> Prop) :
  runs P c h (fun r h' => Q match r with Ok a => Ok a | Err err => Err (Wrapf [err] format) end h') -> runs P (wrapf format c) h Q.
Proof. apply runs_mapped. Qed.

Lemma runs_locked P {A : Type} l key (body : handler A) h (Q : result A -> history call -> Prop) :
  P h (Event (Lock l key) tt) -> (forall h', P h' (Event (Unlock l key) tt)) ->
  runs P body (Event (Lock l key) tt :: h) (fun r h' => Q r (Event (Unlock l key) tt :: h')) -> runs P (locked l key body) h Q.
Proof. apply runs_bracket. Qed.

(** A quiet handler in a run, with a property [R] of its result. *)
Lemma runs_quiet P {A : Type} (c : handler A) h (R Q : result A -> history call -> Prop) :
  runs (fun _ e => quiet e = true) c h R -> (forall h e, quiet e = true -> P h e) ->
  (forall r l, Forall (fun e => quiet e = true) l -> R r (l ++ h) -> Q r (l ++ h)) -> runs P c h Q.
Proof.
  intros (l & Hl & Ht & HR) HP HQ. exists l. rewrite Hl in *. split_and!; [done|..].
  - eapply calls_mono; [|exact Ht]. intros h' e. by apply HP.
  - apply HQ; [|done]. clear Hl HR. induction l; simpl in Ht; constructor; naive_solver.
Qed.

Lemma quiet_calls {A : Type} (c : handler A) R : runs (fun _ e => quiet e = true) c [] R -> Forall (fun e => quiet e = true) (snd (c [])).
Proof.
  intros Hc. assert (runs (fun _ e => quiet e = true) c [] (fun _ h => Forall (fun e => quiet e = true) h)) as (l & _ & _ & H); [|exact H].
  eapply runs_quiet; [exact Hc|done|]. intros r l Hl _. by rewrite app_nil_r.
Qed.

Lemma quietly_bind {A B : Type} (c : handler A) (k : A -> handler B) : quietly c -> (forall a, quietly (k a)) -> quietly (c ≫= k).
Proof. intros Hc Hk h. apply runs_bind. eapply runs_mono; [apply Hc|done|]. intros [a|e] l _; [apply Hk|done]. Qed.

Lemma quietly_ret {A : Type} (a : A) : quietly (mret a).
Proof. intros h. by apply runs_ret. Qed.

Lemma quietly_fail {A : Type} err : quietly (io_fail (A := A) err).
Proof. intros h. by apply runs_fail. Qed.

Lemma quietly_lift {A : Type} (r : result A) : quietly (io_lift r).
Proof. intros h. by apply runs_lift. Qed.

Lemma quietly_reject b err : quietly (io_reject_if b err).
Proof. apply quietly_lift. Qed.

Lemma quietly_attempt {A : Type} (c : handler A) : quietly c -> quietly (attempt c).
Proof. intros Hc h. apply runs_attempt, Hc. Qed.

Lemma quietly_mapped {A : Type} f (c : handler A) : quietly c -> quietly (mapped f c).
Proof. intros Hc h. apply runs_mapped. eapply runs_mono; [apply Hc|done|done]. Qed.

Lemma quietly_wrapf {A : Type} format (c : handler A) : quietly c -> quietly (wrapf format c).
Proof. apply (quietly_mapped (fun err => Wrapf [err] format)). Qed.

Lemma quietly_perform {A : Type} (c : call A) : (forall a, quiet (Event c a) = true) -> quietly (perform c).
Proof. intros Hc h. by apply runs_perform. Qed.

Lemma quietly_ask {A : Type} (c : call (result A)) : (forall a, quiet (Event c a) = true) -> quietly (ask c).
Proof. intros Hc h. by apply runs_ask. Qed.
End rules.

Create HintDb quiet.
#[export] Hint Resolve quietly_ret quietly_fail quietly_lift quietly_reject : quiet.

Ltac quiet_step :=
  match goal with
  | |- quietly (_ ≫= _) => apply quietly_bind; [|intros ?]
  | |- quietly (attempt _) => apply quietly_attempt
  | |- quietly (mapped _ _) => apply quietly_mapped
  | |- quietly (wrapf _ _) => apply quietly_wrapf
  | |- quietly (ask _) => apply quietly_ask; intros ?; reflexivity
  | |- quietly (perform _) => apply quietly_perform; intros ?; reflexivity
  | |- quietly match ?x with _ => _ end => destruct x
  | |- quietly (let _ := _ in _) => cbv zeta
  | |- _ => solve [auto 1 with quiet nocore]
  end.
Ltac quiet := repeat quiet_step.

(** ** Observing handlers *)

Section observing.
Context {AM : Apimachinery} {L : Libraries} {O : Oracle call}.

Lemma podOwnerPlacement_quiet owners pvc req placement : quietly (podOwnerPlacement owners pvc req placement).
Proof. induction owners as [|owner owners IH]; cbn [podOwnerPlacement]; quiet; done. Qed.

Lemma prime_quiet pvc req : quietly (prime pvc req).
Proof. unfold prime. quiet. Qed.
#[local] Hint Resolve podOwnerPlacement_quiet prime_quiet : quiet.

Lemma Inspect_quiet req : quietly (Inspect req).
Proof. unfold Inspect. quiet. Qed.

Lemma InspectClaim_quiet request : quietly (InspectClaim request).
Proof. unfold InspectClaim. quiet. Qed.

Lemma Retired_quiet id state : quietly (Retired id state).
Proof. unfold Retired. quiet. Qed.
#[local] Hint Resolve Inspect_quiet InspectClaim_quiet : quiet.

Context (s : Service).

Lemma inspectCreationClaim_quiet request : quietly (inspectCreationClaim s request).
Proof. unfold inspectCreationClaim. quiet. Qed.
#[local] Hint Resolve inspectCreationClaim_quiet : quiet.

Lemma newCreationRequest_quiet request parameters : quietly (newCreationRequest s request parameters).
Proof. unfold newCreationRequest. quiet. Qed.

Lemma validateCreationClaim_quiet existing : quietly (validateCreationClaim s existing).
Proof. unfold validateCreationClaim. quiet. Qed.

Lemma inspectConsumerPlacement_quiet parameters requestName node : quietly (inspectConsumerPlacement s parameters requestName node).
Proof. unfold inspectConsumerPlacement. quiet. Qed.

Lemma waitForPoolObservation_quiet parameters requestName node observed : quietly (waitForPoolObservation s parameters requestName node observed).
Proof. unfold waitForPoolObservation. quiet. Qed.

Lemma registerRetry_quiet parameters requestName node group requested : quietly (registerRetry s parameters requestName node group requested).
Proof. unfold registerRetry. quiet. Qed.
#[local] Hint Resolve validateCreationClaim_quiet inspectConsumerPlacement_quiet waitForPoolObservation_quiet registerRetry_quiet : quiet.

Lemma inspectCapacity_quiet parameters requestName pool : quietly (inspectCapacity s parameters requestName pool).
Proof. unfold inspectCapacity. quiet. Qed.

Lemma observedTotalCanFit_quiet pool requested : quietly (observedTotalCanFit s pool requested).
Proof. unfold observedTotalCanFit. quiet. Qed.
#[local] Hint Resolve inspectCapacity_quiet observedTotalCanFit_quiet : quiet.

Lemma capacityDenied_quiet parameters requestName pool requested limit stats message :
  quietly (capacityDenied s parameters requestName pool requested limit stats message).
Proof. unfold capacityDenied. quiet. Qed.

Lemma noReadyPool_quiet parameters requestName node registered : quietly (noReadyPool s parameters requestName node registered).
Proof. unfold noReadyPool. quiet. Qed.

Lemma validateExistingCreate_quiet existing request parameters : quietly (validateExistingCreate s existing request parameters).
Proof. unfold validateExistingCreate. quiet. Qed.
End observing.

#[export] Hint Resolve Inspect_quiet InspectClaim_quiet Retired_quiet inspectCreationClaim_quiet newCreationRequest_quiet
  validateCreationClaim_quiet inspectConsumerPlacement_quiet waitForPoolObservation_quiet registerRetry_quiet inspectCapacity_quiet
  observedTotalCanFit_quiet capacityDenied_quiet noReadyPool_quiet validateExistingCreate_quiet : quiet.

(** ** Where a consumer may run *)

Lemma existsb_false_iff {A : Type} (f : A -> bool) (l : list A) : existsb f l = false <-> forall x, In x l -> f x = false.
Proof.
  split.
  - intros H x Hx. destruct (f x) eqn:E; [|done]. by rewrite (proj2 (existsb_exists f l)) in H by eauto.
  - intros H. induction l as [|a l IH]; simpl; [done|]. rewrite H by by left. apply IH. intros x Hx. apply H. by right.
Qed.

(** A Pod that uses the claim and has not ended. *)
Definition active_consumer {L : Libraries} (name : string) (pod : Pod) : bool :=
  usesClaim pod name && (Pod.Phase pod != PodSucceeded) && (Pod.Phase pod != PodFailed).

Definition assigned (pod : Pod) : string := PodSpec.NodeName (Pod.Spec pod).

Section consumers.
Context {L : Libraries} (name node : string).

(** The active consumers on the node, on no node and on another node. *)
Definition here (pod : Pod) : bool := active_consumer name pod && (assigned pod == node).
Definition waiting (pod : Pod) : bool := active_consumer name pod && (assigned pod == "").
Definition elsewhere (pod : Pod) : bool := active_consumer name pod && (assigned pod != "") && (assigned pod != node).

Definition is_fixed (r : Placement) : bool := match r with Fixed => true | _ => false end.

Lemma observe_consumer_eq result conflict pod :
  node <> "" ->
  observe_consumer name node (result, conflict) pod =
  (if is_fixed result || here pod then Fixed else if waiting pod then Reschedulable else result, conflict || elsewhere pod).
Proof.
  intros Hnode. unfold observe_consumer, here, waiting, elsewhere, active_consumer, assigned.
  destruct (usesClaim pod name), (Pod.Phase pod == PodSucceeded), (Pod.Phase pod == PodFailed); simpl;
    rewrite ?orb_false_r; try (by destruct result).
  destruct (bool_decide_reflect (PodSpec.NodeName (Pod.Spec pod) = node)) as [->|Hneq].
  - rewrite (bool_decide_false _ Hnode). simpl. by rewrite orb_true_r, orb_false_r.
  - destruct (_ == ""), result, conflict; done.
Qed.

Lemma placement_fold pods result conflict :
  node <> "" ->
  fold_left (observe_consumer name node) pods (result, conflict) =
  (if is_fixed result || existsb here pods then Fixed else if existsb waiting pods then Reschedulable else result,
   conflict || existsb elsewhere pods).
Proof.
  intros Hnode. revert result conflict. induction pods as [|pod pods IH]; intros result conflict; cbn [fold_left existsb].
  { rewrite !orb_false_r. by destruct result. }
  rewrite observe_consumer_eq by done. rewrite IH.
  destruct result, (here pod), (waiting pod), (existsb here pods), (existsb waiting pods), conflict; simpl; done.
Qed.

(** A claim may be released from its node exactly when it has an active consumer and none
    of them has been assigned to a node. *)
Lemma placementForPods_reschedulable (pods : list Pod) :
  node <> "" ->
  placementForPods pods name node = Reschedulable <->
  (exists pod, pod ∈ pods /\ active_consumer name pod = true) /\ (forall pod, pod ∈ pods -> active_consumer name pod = true -> assigned pod = "").
Proof.
  intros Hnode. unfold placementForPods. rewrite placement_fold by done. cbn [is_fixed orb].
  assert (Hiff : (existsb elsewhere pods = false /\ existsb here pods = false /\ existsb waiting pods = true) <->
    (exists pod, pod ∈ pods /\ active_consumer name pod = true) /\ (forall pod, pod ∈ pods -> active_consumer name pod = true -> assigned pod = "")).
  2:{ rewrite <- Hiff. destruct (existsb elsewhere pods), (existsb here pods), (existsb waiting pods); split; try done; by intros (? & ? & ?). }
  rewrite !existsb_false_iff, existsb_exists. split.
  - intros (He & Hh & (pod & Hin & Hw)). apply andb_prop in Hw as [Ha Hempty]. split.
    { exists pod. by rewrite list_elem_of_In. }
    intros p Hp Hpa. rewrite list_elem_of_In in Hp. specialize (He p Hp). specialize (Hh p Hp). unfold elsewhere, here in He, Hh.
    rewrite Hpa in He, Hh. simpl in He, Hh. rewrite Hh in He. destruct (bool_decide_reflect (assigned p = "")); [done|discriminate He].
  - intros [(pod & Hin & Ha) Hall]. split_and!.
    + intros p Hp. unfold elsewhere. destruct (active_consumer name p) eqn:Hpa; [|done]. rewrite (Hall p); [done|by rewrite list_elem_of_In|done].
    + intros p Hp. unfold here. destruct (active_consumer name p) eqn:Hpa; [|done]. rewrite (Hall p); [|by rewrite list_elem_of_In|done].
      by rewrite bool_decide_false.
    + exists pod. rewrite <- list_elem_of_In. split; [done|]. unfold waiting. rewrite Ha, (Hall pod); done.
Qed.
End consumers.
