(* ===== verification/CsiCreate.v ===== *)
(** * The CSI controller: creation

    Every creation that a run of [CreateVolume] records was admitted under the Pool lock
    or repeats a recorded one, the node's effect follows the recorded intent, and only a
    claim the scheduler still manages is sent to another node. *)

From S2P Require Import Prelude Bytes VolumeIdentity Apimachinery Registration GoTime ApiServer VolumeState PoolApi VolumeRegistry MoveApi Capacity.
From S2P Require Import CleanupJournal Kube Oracle Provisioning CsiController CsiSample ProvisioningLogic.

Notation quiet_run := (runs (fun _ e => quiet e = true)).

(** Symbolic execution of a handler whose branches are taken in turn. *)
Ltac run_branch :=
  match goal with
  | |- runs _ (_ ≫= _) _ _ => apply runs_bind
  | |- runs _ (mret _) _ _ => apply runs_ret
  | |- runs _ (io_fail _) _ _ => apply runs_fail
  | |- runs _ (io_lift _) _ _ => apply runs_lift
  | |- runs _ (attempt _) _ _ => apply runs_attempt
  | |- runs _ (mapped _ _) _ _ => apply runs_mapped
  | |- runs _ (wrapf _ _) _ _ => apply runs_wrapf
  | |- runs _ (io_reject_if ?b _) _ _ => apply runs_reject; intros ?
  | |- runs _ (let _ := _ in _) _ _ => cbv zeta
  | |- forall _, _ => intros ?
  end.
Ltac run := repeat (run_branch; cbv beta iota).

(** A call of the run whose predicate is decided by evaluation. *)
Ltac run_ask := apply runs_ask; [intros ?; try reflexivity|intros [?|?]; cbv beta iota].

(** ** The release of a claim from its node *)

#[export] Instance Placement_eq_dec : EqDecision Placement.
Proof. solve_decision. Defined.

Section release.
Context {AM : Apimachinery} {L : Libraries} {O : Oracle call} (s : Service).

(** The claim was read, unbound and selected for the node, and its consumers are all waiting for the scheduler. *)
Definition scheduler_managed (req : Request) (h : history call) : Prop :=
  exists pvc pods, Event (GetClaim (req_Namespace req) (req_Name req)) (Ok (Some pvc)) ∈ h /\ Event (ListPods (req_Namespace req)) (Ok pods) ∈ h /\
    ObjectMeta.UID (Claim.Meta pvc) = req_UID req /\ annotation (Claim.Meta pvc) SelectedNode = req_Node req /\
    ObjectMeta.DeletionTimestamp (Claim.Meta pvc) = None /\ Claim.VolumeName pvc = "" /\
    let name := ObjectMeta.Name (Claim.Meta pvc) in
    (exists pod, pod ∈ pods /\ active_consumer name pod = true) /\ (forall pod, pod ∈ pods -> active_consumer name pod = true -> assigned pod = "").

#[export] Instance scheduler_managed_persistent req : Persistent (scheduler_managed req).
Proof. unfold scheduler_managed. intros e h (pvc & pods & H1 & H2 & H). exists pvc, pods. split; [by right|]. split; [by right|done]. Qed.

(** An owner can only make the placement uncertain. *)
Lemma podOwnerPlacement_spec owners pvc req placement h :
  quiet_run (podOwnerPlacement owners pvc req placement) h (fun r _ => r = Ok Reschedulable -> placement = Reschedulable).
Proof.
  revert h. induction owners as [|owner owners IH]; intros h; cbn [podOwnerPlacement]; [run; congruence|].
  destruct (_ || _); [apply IH|]. run. run_ask; [|destruct (IsNotFound _); by run].
  destruct (_ || _); [by run|]. destruct (_ && _); [by run|apply IH].
Qed.

Lemma prime_spec pvc req h : quiet_run (prime pvc req) h (fun r _ => r <> Ok Reschedulable).
Proof.
  unfold prime. cbv zeta. destruct (_ && _); [by run|]. destruct (GetControllerOf _) as [owner|]; [|by run].
  destruct (_ || _); [by run|]. run. run_ask; [|destruct (IsNotFound _); by run]. run. destruct (deref _); by run.
Qed.

Lemma Inspect_spec req h : quiet_run (Inspect req) h (fun r h' => r = Ok Reschedulable -> scheduler_managed req h').
Proof.
  unfold Inspect. destruct (_ || _) eqn:Hreq; [by run|]. run. apply runs_ask; [done|]. intros [[pvc|]|]; [| |destruct (IsNotFound _); by run].
  2:{ by run. }
  run. cbn [deref]. run; [done|]. destruct (is_nil (_ !! _)); cbn [negb].
  2:{ eapply runs_mono; [apply prime_spec|done|]. naive_solver. }
  run. apply runs_ask; [done|]. intros [pods|]; [|done]. cbv beta iota.
  go_inv. cbv zeta. match goal with H : req_Node req <> "" |- _ => rename H into Hnode end.
  assert (Hgoal : forall l h0, placementForPods pods (ObjectMeta.Name (Claim.Meta pvc)) (req_Node req) = Reschedulable ->
    scheduler_managed req (l ++ Event (ListPods (req_Namespace req)) (Ok pods) :: Event (GetClaim (req_Namespace req) (req_Name req)) (Ok (Some pvc)) :: h0)).
  { intros l h0 Hp. apply (persists (scheduler_managed req)). apply placementForPods_reschedulable in Hp; [|done]. exists pvc, pods.
    split_and!; try done; [by right; left|by left]. }
  destruct (placementForPods _ _ _) eqn:Hp; [|by run|].
  - eapply runs_mono; [apply podOwnerPlacement_spec|done|]. naive_solver.
  - eapply runs_mono; [apply podOwnerPlacement_spec|done|]. intros r l Hr Hok. by apply Hgoal.
Qed.

(** *** Only these errors release a claim *)

Definition releases (err : error) : Prop := Code err = ResourceExhausted.

Lemma kubernetesAPIError_keeps operation err : ~ releases (kubernetesAPIError operation err).
Proof. unfold releases, kubernetesAPIError, Code. simpl. by repeat case_match. Qed.

Lemma directoryOperationError_keeps operation err : ~ releases (directoryOperationError operation err).
Proof. unfold releases, directoryOperationError, Code. simpl. by repeat case_match. Qed.

Lemma capacityProbeError_keeps operation err : ~ releases (capacityProbeError operation err).
Proof. unfold releases, capacityProbeError, Code. simpl. by repeat case_match. Qed.

Lemma poolSelectionError_keeps err : ~ releases (poolSelectionError err).
Proof. unfold poolSelectionError. case_match; [done|apply kubernetesAPIError_keeps]. Qed.

Lemma coded_keeps {A : Type} code (r : result A) err : code <> ResourceExhausted -> coded code r = Err err -> ~ releases err.
Proof. intros Hcode. destruct r; simpl; [done|]. by intros [= <-]. Qed.

(** An error that carries no status is reported as one of the API. *)
Lemma beginError_releases err : releases (beginError err) -> releases err.
Proof. unfold beginError. case_match; [done|]. case_match; [done|]. by intros []%kubernetesAPIError_keeps. Qed.

Lemma inspectConsumerPlacement_spec parameters requestName node h :
  quiet_run (inspectConsumerPlacement s parameters requestName node) h (fun r h' =>
    match r with
    | Ok placement => placement = Reschedulable -> scheduler_managed (consumer_request parameters requestName node) h'
    | Err err => ~ releases err
    end).
Proof.
  unfold inspectConsumerPlacement. run; [done|]. eapply runs_mono; [apply Inspect_spec|done|]. intros [placement|err] l Hr.
  - run. apply Hr. congruence.
  - destruct (error_is err ErrIdentity); by run.
Qed.

(** Registrations and the clock cannot fail. *)
Lemma waitForPoolObservation_ok parameters requestName node observed h :
  quiet_run (waitForPoolObservation s parameters requestName node observed) h (fun r _ => r = Ok tt).
Proof. unfold waitForPoolObservation. destruct (Service.RetryRequests s); [apply runs_perform; [done|by intros []]|by run]. Qed.

Lemma registerRetry_ok parameters requestName node group requested h :
  quiet_run (registerRetry s parameters requestName node group requested) h (fun r _ => r = Ok tt).
Proof. unfold registerRetry. destruct (Service.RetryRequests s); [apply runs_perform; [done|by intros []]|by run]. Qed.

Lemma observedTotalCanFit_ok pool requested h : quiet_run (observedTotalCanFit s pool requested) h (fun r _ => exists b, r = Ok b).
Proof. unfold observedTotalCanFit. run. apply runs_perform; [done|]. intros now. run. by eexists. Qed.

(** A measurement that cannot be made is a denial. *)
Lemma inspectCapacity_spec parameters requestName pool h :
  quiet_run (inspectCapacity s parameters requestName pool) h (fun r h' =>
    match r with
    | Ok (Ok fs) => h' = Event (StatFSForPool pool) (Ok fs) :: h
    | Ok (Err err) => ~ releases err
    | Err _ => False
    end).
Proof.
  unfold inspectCapacity. run. run_ask; [by run|]. run.
  assert (Hrest : forall h', quiet_run (if error_is err ErrPoolNotReady then
      waitForPoolObservation s parameters requestName (Pool.NodeName pool) (Some pool) else mret tt) h' (fun r _ => r = Ok tt)).
  { intros h'. destruct (error_is err ErrPoolNotReady); [apply waitForPoolObservation_ok|by run]. }
  eapply runs_mono; [apply Hrest|done|]. intros r l ->. run. apply capacityProbeError_keeps.
Qed.

(** A denial, and what it takes for it to release the claim. *)
Lemma capacityDenied_spec parameters requestName pool requested limit stats message h :
  quiet_run (capacityDenied s parameters requestName pool requested limit stats message) h (fun r h' =>
    match r with
    | Ok err => releases err -> scheduler_managed (consumer_request parameters requestName (Pool.NodeName pool)) h'
    | Err _ => False
    end).
Proof.
  unfold capacityDenied. run. eapply runs_mono; [apply inspectConsumerPlacement_spec|done|]. intros [placement|err] l Hr; [|by run].
  cbv beta iota. destruct (decide (placement = Reschedulable)) as [->|Hne]; [run; by apply Hr|].
  assert (Htail : forall message b h', quiet_run
    (fits ← (if b : bool then observedTotalCanFit s pool requested else mret true);
     stats ← (if negb fits then got ← inspectCapacity s parameters requestName pool; mret match got with Ok stats => Ok (Some stats) | Err err => Err err end
              else mret (Ok stats));
     match stats with
     | Err err => mret err
     | Ok stats =>
         let message := if some_and stats (fun f => ExceedsTotal requested (Filesystem.TotalBytes f))
                        then message +:+ "; request exceeds filesystem total; change capacity configuration or request size" else message in
         registerRetry s parameters requestName (Pool.NodeName pool) (poolGroup pool) requested;;
         mret (status_error Unavailable (message +:+ "; %s; preserve node %q and retry"))
     end) h' (fun r h' => match r with Ok err => ~ releases err | Err _ => False end)).
  { clear. intros message b h. run. assert (Hfits : quiet_run (if b then observedTotalCanFit s pool requested else mret true) h (fun r _ => exists fits, r = Ok fits)).
    { destruct b; [apply observedTotalCanFit_ok|run; by eexists]. }
    eapply runs_mono; [exact Hfits|done|]. intros r l [fits ->]. run. destruct fits; cbn [negb].
    - run. eapply runs_mono; [apply registerRetry_ok|done|]. intros r' l' ->. by run.
    - run. eapply runs_mono; [apply inspectCapacity_spec|done|]. intros [[fs|err]|err] l' Hi; [|by run|done]. run.
      eapply runs_mono; [apply registerRetry_ok|done|]. intros r' l'' ->. by run. }
  destruct placement; [| |done].
  all: cbv zeta; eapply runs_mono; [apply Htail|done|]; intros [err|err] l' Herr; [by intros ?|done].
Qed.

Lemma noReadyPool_spec parameters requestName node registered h :
  quiet_run (noReadyPool s parameters requestName node registered) h (fun r h' =>
    match r with
    | Ok err => releases err -> scheduler_managed (consumer_request parameters requestName node) h'
    | Err _ => False
    end).
Proof.
  unfold noReadyPool. cbv zeta. destruct (existsb _ _).
  { run. eapply runs_mono; [apply waitForPoolObservation_ok|done|]. intros r l ->. by run. }
  run. eapply runs_mono; [apply inspectConsumerPlacement_spec|done|]. intros [placement|err] l Hr; [|by run]. cbv beta iota.
  destruct placement; [| |run; by apply Hr].
  all: run; eapply runs_mono; [apply waitForPoolObservation_ok|done|]; intros r l' ->; by run.
Qed.
End release.

(** ** Admission *)

(** The ledgers and the measurement read in [l] leave room for the request. *)
Definition measured {AM : Apimachinery} (pool : Pool) (bytes : Z) (l : history call) : Prop :=
  exists volumes moves fs reserved limit,
    Event ListVolumes (Ok volumes) ∈ l /\ Event ListMoves (Ok moves) ∈ l /\ Event (StatFSForPool pool) (Ok fs) ∈ l /\
    ReservedBytesForPool volumes (list_to_map volumes) moves (Pool.UID pool) = Ok reserved /\ LimitBytes pool = Ok limit /\
    FitsReservation bytes reserved limit = true /\ (bytes <= Filesystem.AvailableBytes fs)%Z.

#[export] Instance measured_persistent {AM : Apimachinery} pool bytes : Persistent (measured pool bytes).
Proof.
  intros e h (volumes & moves & fs & reserved & limit & H1 & H2 & H3 & H). exists volumes, moves, fs, reserved, limit.
  split_and!; try (by right); naive_solver.
Qed.

Section admission.
Context {AM : Apimachinery} {L : Libraries} {O : Oracle call} (s : Service).

Lemma poolFits_spec pool requestName bytes parameters h :
  quiet_run (poolFits s pool requestName bytes parameters) h (fun r h' =>
    match r with
    | Ok Allowed => exists l, h' = l ++ h /\ measured pool bytes l
    | Ok (Denied err) => releases err -> scheduler_managed (consumer_request parameters requestName (Pool.NodeName pool)) h'
    | Err err => ~ releases err
    end).
Proof.
  unfold poolFits. destruct (poolLimitBytes pool) as [limit|] eqn:Hlimit; [|by run]. apply check_Ok in Hlimit as [_ Hlimit].
  unfold poolReservedBytes. run. run_ask; [|apply kubernetesAPIError_keeps]. rename value into volumes. run.
  run_ask; [|apply kubernetesAPIError_keeps]. rename value into moves. run.
  destruct (ReservedBytesForPool _ _ _ _) as [reserved|] eqn:Hreserved; [|done]. cbn [coded].
  destruct (FitsReservation bytes reserved limit) eqn:Hfits; cbn [negb].
  2:{ run. eapply runs_mono; [apply capacityDenied_spec|done|]. intros [err|err] l Herr; [run; by apply Herr|done]. }
  run. eapply runs_mono; [apply inspectCapacity_spec|done|]. intros [[fs|err]|err] l Hfs; [|by run|done]. cbv beta iota.
  destruct (Z.ltb_spec (Filesystem.AvailableBytes fs) bytes) as [|Havail].
  { run. eapply runs_mono; [apply capacityDenied_spec|done|]. intros [err|err] l' Herr; [run; by apply Herr|done]. }
  run. rewrite Hfs. exists [Event (StatFSForPool pool) (Ok fs); Event ListMoves (Ok moves); Event ListVolumes (Ok volumes)]. split; [done|].
  exists volumes, moves, fs, reserved, limit. split_and!; try done; [by right; right; left|by right; left|by left].
Qed.

(** The Pool was among the ready ones, is locked, and has had room for the request since. *)
Definition admitted (pool : Pool) (bytes : Z) (h : history call) : Prop :=
  exists section older ready registered,
    h = section ++ Event (Lock (poolLocker s) (Pool.UID pool)) tt :: older /\ Forall (fun e => quiet e = true) section /\
    measured pool bytes section /\ Event ObservePools (Ok (ready, registered)) ∈ older /\ pool ∈ ready.

(** The recorded creation that a request repeats: one that agrees with the request, in the Pool its reservation is in. *)
Definition repeats (request : createRequest) (parameters : gmap string string) (q : CreationRequest) (h : history call) : Prop :=
  let id := createRequest.id request in
  exists existing pool, Event (GetVolume id) (Ok existing) ∈ h /\ State.Phase existing <> PhaseReady /\
    compatibleCreateRequest existing request = Ok tt /\ poolGroup pool = requestedPoolGroup parameters /\
    q = recorded_request id existing (Some (reference pool)) /\
    ((exists copy, State.CurrentCopy existing = Some copy /\ Event (PoolForIdentity (PoolName copy) (PoolUID copy) (NodeName copy)) (Ok pool) ∈ h) \/
     (exists ref, State.CurrentCopy existing = None /\ State.InitialPool existing = Some ref /\
        Event (PoolForIdentity (PoolReference.Name ref) (PoolReference.UID ref) (State.InitialNode existing)) (Ok pool) ∈ h)).

#[export] Instance repeats_persistent request parameters q : Persistent (repeats request parameters q).
Proof.
  intros e h (existing & pool & H1 & H2 & H3 & H4 & H5 & H). exists existing, pool. split_and!; [by right|done|done|done|done|].
  destruct H as [(copy & Hc & H)|(ref & Hc & Hr & H)]; [left; exists copy|right; exists ref]; split_and!; try done; by right.
Qed.

(** What is to be placed: the request itself, when no creation is recorded, or a recorded creation that has no Pool yet and agrees
    with the request. *)
Definition intended (request : createRequest) (intent : CreationRequest) (h : history call) : Prop :=
  let id := createRequest.id request in
  (intent = creation_request request /\ exists err, Event (GetVolume id) (Err err) ∈ h /\ IsNotFound err = true) \/
  (exists existing, intent = recorded_request id existing None /\ Event (GetVolume id) (Ok existing) ∈ h /\ State.Phase existing <> PhaseReady /\
     State.CurrentCopy existing = None /\ State.InitialPool existing = None /\ compatibleCreateRequest existing request = Ok tt).

#[export] Instance intended_persistent request intent : Persistent (intended request intent).
Proof.
  intros e h [(-> & err & H & Hn)|(existing & -> & H & Hr)]; [left; split; [done|]; exists err|right; exists existing; split; [done|]];
    (split; [by right|done]).
Qed.

Lemma intended_id request intent h : intended request intent h -> req_VolumeID intent = createRequest.id request.
Proof. by intros [(-> & _)|(existing & -> & _)]. Qed.

(** The creation that is recorded: what is intended, on its node, in a Pool of the requested group that has room for it. *)
Definition places (request : createRequest) (parameters : gmap string string) (q : CreationRequest) (h : history call) : Prop :=
  exists intent pool, intended request intent h /\ Pool.NodeName pool = req_NodeName intent /\ poolGroup pool = requestedPoolGroup parameters /\
    req_RequestName q = req_RequestName intent /\ req_NodeName q = req_NodeName intent /\ req_CapacityBytes q = req_CapacityBytes intent /\
    req_Pool q = Some (reference pool) /\ admitted pool (req_CapacityBytes q) h.

(** The intent of a creation that is under way, and of one that is complete. *)
Definition begun (id : string) (state : State) (h : history call) : Prop :=
  exists q, req_VolumeID q = id /\ Event (BeginCreate q) (Ok state) ∈ h.

Definition completed (id : string) (state : State) (h : history call) : Prop :=
  Event (GetVolume id) (Ok state) ∈ h /\ State.Phase state = PhaseReady /\ ValidReadyCreationHistory state = true.

(** What a call of a creation requires of the calls before it.  The calls that end a
    volume or settle a cleanup are not made. *)
Definition create_call (request : createRequest) (parameters : gmap string string) (h : history call) (e : event call) : Prop :=
  let id := createRequest.id request in
  match e with
  | Event c _ =>
      match c with
      | BeginCreate q =>
          req_VolumeID q = id /\ (repeats request parameters q h \/ places request parameters q h)
      | CreateCopy copy =>
          exists state, begun id state h /\ State.Phase state <> PhaseReady /\ State.CurrentCopy state = Some copy
      | CompleteCreate volumeID uid copy =>
          Event (CreateCopy copy) (Ok tt) ∈ h /\ volumeID = id /\
          exists state, begun id state h /\ State.UID state = uid /\ State.CurrentCopy state = Some copy
      | FinalizeCreate copy => exists uid, Event (CompleteCreate id uid copy) (Ok tt) ∈ h
      | DeleteState _ _ | RemoveVolumeFinalizer _ _ | CancelUnstartedCreation _ _ | BeginCreationCancellation _ _ _ | BeginDelete _ _ _
      | EnsureCleanup _ | Reclaim _ | ReconcileAbsence _ | WaitForAbsence _ _ => False
      | _ => True
      end
  end.

Lemma quiet_create request parameters h e : quiet e = true -> create_call request parameters h e.
Proof. destruct e as [A c a]. by destruct c. Qed.

(** A claim is released because its consumer is scheduler-managed, or because the registry
    itself said so. *)
Definition release_cause (parameters : gmap string string) (name node : string) (err : error) (h : history call) : Prop :=
  releases err -> scheduler_managed (consumer_request parameters name node) h \/
                  exists q err', Event (BeginCreate q) (Err err') ∈ h /\ releases err'.

#[export] Instance release_cause_persistent parameters name node err : Persistent (release_cause parameters name node err).
Proof.
  intros e h H Herr. destruct (H Herr) as [Hm|(q & err' & Hin & Hr)]; [left; by apply persistent|right].
  exists q, err'. split; [by right|done].
Qed.

(** A request with a claim keeps everything else of the request. *)
Lemma newCreationRequest_spec request parameters h :
  quiet_run (newCreationRequest s request parameters) h (fun r _ =>
    match r with
    | Ok q => exists claim, q = {| req_VolumeID := createRequest.id request; req_RequestName := createRequest.name request;
                                   req_NodeName := createRequest.nodeName request; req_CapacityBytes := createRequest.capacity request;
                                   req_Pool := None; req_Claim := claim |}
    | Err err => ~ releases err
    end).
Proof.
  unfold newCreationRequest. cbv zeta. destruct (_ || _ || _); [run; by exists None|]. run; [done|]. unfold inspectCreationClaim. run; [done|].
  apply (runs_quiet _ _ _ (fun _ _ => True)); [apply InspectClaim_quiet|done|]. intros [claim|err] l _ _.
  - run; [done|done|]. by exists (Some claim).
  - destruct (error_is err ErrClaimIdentity); [by run|]. destruct (_ || _); [run; apply kubernetesAPIError_keeps|by run].
Qed.

Lemma attemptCreateInPool_spec asked pool request parameters initializingUID ready registered h :
  Event ObservePools (Ok (ready, registered)) ∈ h -> pool ∈ ready -> intended asked request h ->
  Pool.NodeName pool = req_NodeName request -> poolGroup pool = requestedPoolGroup parameters ->
  runs (create_call asked parameters) (attemptCreateInPool s pool request parameters initializingUID) h (fun r h' =>
    match r with
    | Ok (inl state) => begun (req_VolumeID request) state h'
    | Ok (inr err) => releases err -> scheduler_managed (consumer_request parameters (req_RequestName request) (Pool.NodeName pool)) h'
    | Err err => release_cause parameters (req_RequestName request) (Pool.NodeName pool) err h'
    end).
Proof.
  intros Hobs Hpool Hintent Hnode Hgroup. unfold attemptCreateInPool. cbv zeta. apply runs_locked; [done|done|]. run.
  set (h0 := Event (Lock _ _) tt :: h).
  apply (runs_quiet _ _ _ (fun r _ => match r with Err err => ~ releases err | _ => True end)); [|apply quiet_create|].
  { destruct (initializingUID != ""); [|by run]. run. run_ask; [|apply kubernetesAPIError_keeps]. by run. }
  intros [[]|err] l1 Hl1 Hr; [|by intros []%Hr]. run.
  eapply runs_quiet; [apply poolFits_spec|apply quiet_create|]. intros [[|err]|err] l2 Hl2 Hr2; [|run; by apply persistent, Hr2|by intros []%Hr2].
  destruct Hr2 as (section & Hsection & Hm). apply app_inv_tail in Hsection as <-. run.
  apply (runs_quiet _ _ _ (fun r _ => match r with
    | Ok q => exists node claim, q = {| req_VolumeID := req_VolumeID request; req_RequestName := req_RequestName request; req_NodeName := node;
                                   req_CapacityBytes := req_CapacityBytes request; req_Pool := req_Pool q; req_Claim := claim |}
    | Err err => ~ releases err end)); [|apply quiet_create|].
  { destruct (initializingUID == ""); [|run; exists (req_NodeName request), (req_Claim request); by destruct request].
    eapply runs_mono; [apply newCreationRequest_spec|done|]. intros [q|err] l; [|done]. intros [claim ->]. by eexists _, _. }
  intros [q|err] l3 Hl3 Hq; [|by intros []%Hq]. destruct Hq as (node & claim & ->). run. apply runs_ask.
  - intros a. split; [exact (intended_id _ _ _ Hintent)|]. right. exists request, pool. split_and!; [|done..|].
    { do 3 apply (persists (intended asked request)). by apply persistent. }
    cbn [with_pool req_CapacityBytes]. exists (l3 ++ l2 ++ l1), h, ready, registered. split_and!; [by rewrite <- !(assoc (++))|by rewrite !Forall_app| |done|done].
    apply (persists (measured pool _)). destruct Hm as (v & m & fs & rs & lim & H1 & H2 & H3 & H).
    exists v, m, fs, rs, lim. split_and!; try naive_solver; apply elem_of_app; by left.
  - intros [state|err].
    + run. eexists. split; [|by right; left]. done.
    + intros Hrel. right. eexists _, err. split; [by right; left|done].
Qed.

Lemma wait_when b parameters requestName node observed h :
  quiet_run (if b : bool then waitForPoolObservation s parameters requestName node observed else mret tt) h (fun r _ => r = Ok tt).
Proof. destruct b; [apply waitForPoolObservation_ok|by run]. Qed.

(** A quiet step that cannot fail. *)
Lemma create_quiet_ok request parameters {A : Type} (c : handler unit) (k : unit -> handler A) h Q :
  quiet_run c h (fun r _ => r = Ok tt) -> (forall l, runs (create_call request parameters) (k tt) (l ++ h) Q) ->
  runs (create_call request parameters) (c ≫= k) h Q.
Proof. intros Hc Hk. apply runs_bind. eapply runs_quiet; [exact Hc|apply quiet_create|]. intros r l _ ->. apply Hk. Qed.

Lemma place_in_spec asked pools request parameters initializingUID denied found ready registered h :
  Event ObservePools (Ok (ready, registered)) ∈ h -> (forall pool, pool ∈ pools -> pool ∈ ready) -> intended asked request h ->
  (forall err, denied = Some err -> release_cause parameters (req_RequestName request) (req_NodeName request) err h) ->
  runs (create_call asked parameters) (place_in s pools request parameters initializingUID denied found) h (fun r h' =>
    match r with
    | Ok (inl state) => begun (req_VolumeID request) state h'
    | Ok (inr (denied, _)) => forall err, denied = Some err -> release_cause parameters (req_RequestName request) (req_NodeName request) err h'
    | Err err => release_cause parameters (req_RequestName request) (req_NodeName request) err h'
    end).
Proof.
  revert denied found h. induction pools as [|pool pools IH]; intros denied found h Hobs Hin Hintent Hdenied; cbn [place_in]; [run; by apply Hdenied|].
  destruct (_ || _) eqn:Hskip; [apply IH; [done| |done|done]; intros p Hp; apply Hin; by right|]. go_inv.
  match goal with H : Pool.NodeName pool = _ |- _ => rename H into Hnode end.
  run. eapply runs_mono; [eapply (attemptCreateInPool_spec asked pool request parameters initializingUID ready registered); [done|apply Hin; by left|done..]|done|].
  rewrite Hnode. intros [[state|err]|err] l Hr; [by run| |].
  - apply IH; [by apply (persists (fun h => _ ∈ h))|intros p Hp; apply Hin; by right|by apply (persists (intended asked request))|].
    intros err' Herr'. destruct (_ || _); [injection Herr' as <-; intros Hrel; left; by apply Hr|].
    apply (persists (release_cause _ _ _ _)). by apply Hdenied.
  - apply create_quiet_ok; [apply wait_when|]. intros l'. run. by apply (persists (release_cause _ _ _ _)).
Qed.

Lemma placeNewCreate_spec asked request parameters initializingUID h :
  intended asked request h ->
  runs (create_call asked parameters) (placeNewCreate s request parameters initializingUID) h (fun r h' =>
    match r with
    | Ok state => begun (req_VolumeID request) state h'
    | Err err => release_cause parameters (req_RequestName request) (req_NodeName request) err h'
    end).
Proof.
  intros Hintent. unfold placeNewCreate. cbv zeta. run. apply runs_ask; [done|]. intros [[ready registered]|err].
  2:{ apply create_quiet_ok; [apply wait_when|]. intros l. run. by intros []%poolSelectionError_keeps. }
  run; [done|]. eapply runs_mono; [eapply (place_in_spec asked ready); [by left|done|by apply persistent|done]|done|].
  intros [[state|[denied found]]|err] l Hr; [by run| |done]. cbv beta iota. destruct found; cbn [negb].
  - run. destruct denied as [err|]; cbn [deref]; run; [by apply Hr|done].
  - run. eapply runs_quiet; [apply noReadyPool_spec|apply quiet_create|]. intros [err|err] l' _ Herr; [|done]. run. intros Hrel. left. by apply Herr.
Qed.

Lemma validateExistingCreate_spec existing request parameters h :
  quiet_run (validateExistingCreate s existing request parameters) h (fun r _ => match r with Err err => ~ releases err | Ok _ => compatibleCreateRequest existing request = Ok tt end).
Proof.
  unfold validateExistingCreate. run. destruct (compatibleCreateRequest existing request) as [[]|err] eqn:Hc.
  2:{ unfold compatibleCreateRequest in Hc. repeat (apply bind_Err in Hc as [Hc|([] & _ & Hc)]); apply reject_if_Err in Hc as [_ <-]; done. }
  run. apply (runs_quiet _ _ _ (fun r _ => match r with Err err => ~ releases err | _ => True end)); [|done|].
  { unfold validateCreationClaim. destruct (State.CreationClaim existing) as [claim|]; [|by run]. unfold inspectCreationClaim. run; [done|].
    apply (runs_quiet _ _ _ (fun _ _ => True)); [apply InspectClaim_quiet|done|]. intros [observed|err] l _ _; [by run|].
    destruct (error_is err ErrClaimIdentity); [by run|]. destruct (_ || _); [run; apply kubernetesAPIError_keeps|by run]. }
  intros [[]|err] l _ Hr; [|done]. destruct (_ || _); [by run|]. run; [done|].
  apply (runs_quiet _ _ _ (fun _ _ => True)); [apply Inspect_quiet|done|]. intros [placement|err] l' _ _.
  - by destruct placement; run.
  - destruct (error_is err ErrIdentity); by run.
Qed.

(** *** Recorded creations *)

(** The creation whose result the service reports. *)
Definition outcome (id : string) (state : State) (h : history call) : Prop := begun id state h \/ completed id state h.

#[export] Instance outcome_persistent id state : Persistent (outcome id state).
Proof. intros e h [(q & Hq & H)|(H & Hp)]; [left; exists q; split; [done|by right]|right; split; [by right|done]]. Qed.

Definition registry_cause (err : error) (h : history call) : Prop :=
  releases err -> exists q err', Event (BeginCreate q) (Err err') ∈ h /\ releases err'.

Lemma unreleased err h : ~ releases err -> registry_cause err h.
Proof. by intros H ?%H. Qed.

Definition resumed (id : string) (r : result State) (h : history call) : Prop :=
  match r with Ok state => outcome id state h | Err err => registry_cause err h end.

(** A repeated request is recorded or fails. *)
Lemma repeat_create request parameters q h :
  let id := createRequest.id request in
  req_VolumeID q = id -> repeats request parameters q h -> runs (create_call request parameters) (ask (BeginCreate q)) h (resumed id).
Proof.
  intros id Hid Hq. apply runs_ask; [intros a; split; [done|by left]|]. intros [state|err]; cbn [resumed].
  - left. exists q. split; [done|by left].
  - intros Hrel. exists q, err. split; [by left|done].
Qed.

(** A Pool is read by its identity, and errors of that read never release a claim. *)
Lemma read_pool request parameters name uid node {A : Type} f (k : Pool -> handler A) h (Q : result A -> history call -> Prop) :
  (forall err, ~ releases (f err)) -> (forall err h', ~ releases err -> Q (Err err) h') ->
  (forall pool, runs (create_call request parameters) (k pool) (Event (PoolForIdentity name uid node) (Ok pool) :: h) Q) ->
  runs (create_call request parameters) (mapped f (ask (PoolForIdentity name uid node)) ≫= k) h Q.
Proof. intros Hf HQ Hk. run. apply runs_ask; [done|]. intros [pool|err]; [apply Hk|by apply HQ]. Qed.

Lemma resumeReadyCreate_spec existing request parameters h :
  let id := createRequest.id request in
  Event (GetVolume id) (Ok existing) ∈ h -> State.Phase existing = PhaseReady ->
  runs (create_call request parameters) (resumeReadyCreate existing request parameters) h (resumed id).
Proof.
  intros id Hget Hready. unfold resumeReadyCreate. run; [by apply unreleased|]. go_inv.
  destruct (compatibleCreateRequest existing request) as [[]|err] eqn:Hc.
  2:{ apply unreleased. unfold compatibleCreateRequest in Hc.
      repeat (apply bind_Err in Hc as [Hc|([] & _ & Hc)]); apply reject_if_Err in Hc as [_ <-]; done. }
  run. match goal with H : State.CurrentCopy existing = Some _ |- _ => rewrite H end. cbn [deref].
  apply read_pool.
  { intros err. case_match; [done|apply poolSelectionError_keeps]. }
  { intros err h'. apply unreleased. }
  intros pool. unfold samePoolGroup. run; [by apply unreleased..|]. right. split_and!; [by right|done|done].
Qed.

Lemma resumeInitializingCreate_spec existing request parameters h :
  let id := createRequest.id request in
  Event (GetVolume id) (Ok existing) ∈ h -> State.Phase existing <> PhaseReady -> State.CurrentCopy existing = None ->
  compatibleCreateRequest existing request = Ok tt ->
  runs (create_call request parameters) (resumeInitializingCreate s existing request parameters) h (resumed id).
Proof.
  intros id Hget Hphase Hcopy Hc. unfold resumeInitializingCreate. cbv zeta. run; [by apply unreleased|].
  destruct (State.InitialPool existing) as [ref|] eqn:Hinitial.
  - apply read_pool; [apply poolSelectionError_keeps|intros err h'; apply unreleased|]. intros pool. unfold samePoolGroup. run; [by apply unreleased|]. go_inv.
    apply runs_locked; [done|done|]. run. apply runs_ask; [done|].
    intros [current|err]; [|apply unreleased, kubernetesAPIError_keeps]. run; [by apply unreleased|].
    eapply runs_mono; [apply repeat_create; [done|]|done|].
    { exists existing, pool. split_and!; [by do 3 right|done|done|done|done|]. right. exists ref. split_and!; [done|done|by right; right; left]. }
    intros [state|err] l Hr; cbn [resumed] in *; [by apply persistent|]. intros Hrel. destruct (Hr Hrel) as (q & err' & Hin & H').
    exists q, err'. split; [by right|done].
  - run. eapply runs_mono; [apply (placeNewCreate_spec request); right; by exists existing|done|]. intros [state|err] l Hr; [run; by left|]. cbv beta iota.
    destruct (bool_decide_reflect (Code err = ResourceExhausted)) as [|Hcode]; [|run; by apply unreleased].
    apply create_quiet_ok; [apply registerRetry_ok|]. intros l'. run. by apply unreleased.
Qed.

Lemma resumeExistingCreate_spec existing request parameters h :
  let id := createRequest.id request in
  Event (GetVolume id) (Ok existing) ∈ h ->
  runs (create_call request parameters) (resumeExistingCreate s existing request parameters) h (resumed id).
Proof.
  intros id Hget. unfold resumeExistingCreate. destruct (bool_decide_reflect (State.Phase existing = PhaseReady)) as [Hready|Hphase].
  { by apply resumeReadyCreate_spec. }
  apply runs_bind. eapply runs_quiet; [apply validateExistingCreate_spec|apply quiet_create|]. intros [[]|err] l _ Hr; [|by apply unreleased].
  destruct (State.CurrentCopy existing) as [copy|] eqn:Hcopy.
  2:{ apply resumeInitializingCreate_spec; [|done..]. by apply (persists (fun h => _ ∈ h)). }
  apply read_pool; [apply poolSelectionError_keeps|intros err h'; apply unreleased|]. intros pool. unfold samePoolGroup. run; [by apply unreleased|]. go_inv.
  apply repeat_create; [done|]. exists existing, pool. split_and!; [right; by apply (persists (fun h => _ ∈ h))|done|done|done|done|].
  left. exists copy. split; [done|by left].
Qed.

(** *** The whole creation *)

(** The claim of an unrecorded creation is released. *)
Definition released (request : createRequest) (parameters : gmap string string) (h : history call) : Prop :=
  scheduler_managed (consumer_request parameters (createRequest.name request) (createRequest.nodeName request)) h /\
  exists err, Event (GetVolume (createRequest.id request)) (Err err) ∈ h /\ IsNotFound err = true.

Definition cause (request : createRequest) (parameters : gmap string string) (err : error) (h : history call) : Prop :=
  releases err -> released request parameters h \/ exists q err', Event (BeginCreate q) (Err err') ∈ h /\ releases err'.

#[export] Instance cause_persistent request parameters err : Persistent (cause request parameters err).
Proof.
  intros e h H Herr. destruct (H Herr) as [[Hm (err' & Hin & Hn)]|(q & err' & Hin & Hr)].
  - left. split; [by apply persistent|]. exists err'. split; [by right|done].
  - right. exists q, err'. split; [by right|done].
Qed.

Lemma beginCreate_spec request parameters h :
  let id := createRequest.id request in
  Service.CapacityPools s = true ->
  runs (create_call request parameters) (beginCreate s request parameters) h (fun r h' =>
    match r with Ok state => outcome id state h' | Err err => cause request parameters err h' end).
Proof.
  intros id Hpools. unfold beginCreate. cbv zeta. rewrite Hpools. cbn [orb]. run; [done|]. unfold beginCreateWithinPool. run.
  apply runs_ask; [done|]. intros [existing|err].
  - eapply runs_mono; [apply resumeExistingCreate_spec; by left|done|]. intros [state|err] l Hr; cbn [resumed] in Hr; [done|].
    intros Hrel. right. by apply Hr.
  - run; [by intros []%kubernetesAPIError_keeps|]. go_inv. eapply runs_mono; [apply (placeNewCreate_spec request (creation_request request)); left; split; [done|]; exists err; by split; [left|]|done|].
    intros [state|err'] l Hr; [by left|]. intros Hrel. destruct (Hr Hrel) as [Hm|Hq]; [left|by right]. split; [done|].
    exists err. split; [apply elem_of_app; right; by left|done].
Qed.

(** The copy of a creation was made on its node, recorded as complete and settled there. *)
Definition made (id : string) (state : State) (h : history call) : Prop :=
  exists copy, State.CurrentCopy state = Some copy /\ Event (CreateCopy copy) (Ok tt) ∈ h /\
    Event (CompleteCreate id (State.UID state) copy) (Ok tt) ∈ h /\ Event (FinalizeCreate copy) (Ok tt) ∈ h.

Lemma createServingCopy_spec request parameters state h :
  let id := createRequest.id request in
  begun id state h -> State.Phase state <> PhaseReady ->
  runs (create_call request parameters) (createServingCopy id state) h (fun r h' => match r with Ok _ => made id state h' | Err err => ~ releases err end).
Proof.
  intros id (q & Hq & Hbegun) Hphase. unfold createServingCopy. destruct (State.CurrentCopy state) as [copy|] eqn:Hcopy; [|by run]. run.
  apply runs_ask; [intros a; exists state; split_and!; [by exists q|done|done]|].
  intros [[]|err]; [|apply directoryOperationError_keeps]. run.
  apply runs_ask; [intros a; split_and!; [by left|done|]|].
  { exists state. split_and!; [|done|done]. exists q. split; [done|by right]. }
  intros [[]|err]; [|apply kubernetesAPIError_keeps]. run.
  apply runs_ask; [intros a; exists (State.UID state); by left|].
  intros [[]|err]; [|apply directoryOperationError_keeps]. exists copy. split_and!; [done|by right; right; left|by right; left|by left].
Qed.

(** The volume has no cleanup that is not complete. *)
Definition unfenced (id : string) (h : history call) : Prop :=
  exists cleanups, Event (ListForVolume id) (Ok cleanups) ∈ h /\
    forall c, c ∈ cleanups -> VolumeID (Spec.Target (Cleanup.Spec c)) = id -> Status.Phase (Cleanup.Status c) = CleanupJournal.PhaseCompleted.

#[export] Instance unfenced_persistent id : Persistent (unfenced id).
Proof. intros e h (cleanups & Hin & H). exists cleanups. split; [by right|done]. Qed.

Lemma ensureNoCleanupFence_spec id h :
  quiet_run (ensureNoCleanupFence id) h (fun r h' => match r with Ok _ => unfenced id h' | Err err => ~ releases err end).
Proof.
  unfold ensureNoCleanupFence. run. apply runs_ask; [done|]. intros [cleanups|err]; [|apply kubernetesAPIError_keeps]. run; [done|].
  match goal with H : existsb _ _ = false |- _ => rename H into Hall end.
  exists cleanups. split; [by left|]. intros c Hc Hid. apply list_elem_of_In in Hc. rewrite existsb_false_iff in Hall. specialize (Hall c Hc).
  rewrite bool_decide_true in Hall by done. simpl in Hall. by apply negb_false_iff, bool_decide_eq_true in Hall.
Qed.

(** What the service answers: the node the volume is on, which is one of its topology. *)
Definition describes (resp : CreateVolumeResponse) (id : string) (node : string) (capacity : Z) : Prop :=
  CreateVolumeResponse.VolumeId resp = id /\ CreateVolumeResponse.CapacityBytes resp = capacity /\
  CreateVolumeResponse.VolumeContext resp = {[ NodeContextKey := node ]} /\
  {[ TopologyKey := node ]} ∈ CreateVolumeResponse.AccessibleTopology resp.

Lemma createVolumeResponse_spec id node capacity parameters h :
  quiet_run (createVolumeResponse id node capacity parameters) h (fun r _ =>
    match r with Ok resp => describes resp id node capacity | Err err => ~ releases err end).
Proof.
  assert (Hd : forall nodes, node ∈ nodes -> describes (volumeResponse id node nodes capacity) id node capacity).
  { intros nodes Hin. split_and!; [done|done|done|]. apply list_elem_of_In, in_map_iff. exists node. split; [done|by apply list_elem_of_In]. }
  unfold createVolumeResponse. run. apply runs_ask; [done|]. intros [nodes|err]; [|apply kubernetesAPIError_keeps]. run; [done|]. go_inv.
  unfold accessibleNodes. destruct (_ == ""); [run; apply Hd; by left|]. run. apply runs_ask; [done|].
  intros [labels|err]; [|apply kubernetesAPIError_keeps]. run. apply Hd. case_match; [by left|done].
Qed.

(** The state a successful creation reports, and how it came about. *)
Definition created (request : createRequest) (resp : CreateVolumeResponse) (h : history call) : Prop :=
  let id := createRequest.id request in
  exists state node, outcome id state h /\ unfenced id h /\ describes resp id node (State.CapacityBytes state) /\
    ((State.Phase state = PhaseReady /\ node = State.OwnerNode state) \/ (made id state h /\ node = State.InitialNode state)).

#[export] Instance created_persistent request resp : Persistent (created request resp).
Proof.
  intros e h (state & node & Ho & Hu & Hd & H). exists state, node. split_and!; [by apply persistent|by apply persistent|done|].
  destruct H as [H|[(copy & Hc & H1 & H2 & H3) Hn]]; [by left|right]. split; [|done]. exists copy. split_and!; [done|by right..].
Qed.

Definition create_result (request : createRequest) (parameters : gmap string string) (r : result CreateVolumeResponse) (h : history call) : Prop :=
  match r with Ok resp => created request resp h | Err err => cause request parameters err h end.

Lemma create_result_persistent request parameters r e h : create_result request parameters r h -> create_result request parameters r (e :: h).
Proof. destruct r; cbn [create_result]; intros H; by apply persistent. Qed.

Lemma not_caused request parameters err h : ~ releases err -> cause request parameters err h.
Proof. by intros H ?%H. Qed.

Lemma CreateVolume_body request parameters h :
  Service.CapacityPools s = true ->
  let id := createRequest.id request in
  runs (create_call request parameters) (
    ensureNoCleanupFence id;;
    state ← mapped beginError (beginCreate s request parameters);
    responseNode ← (if State.Phase state != PhaseReady then createServingCopy id state;; mret (State.InitialNode state)
                    else mret (State.OwnerNode state));
    createVolumeResponse id responseNode (State.CapacityBytes state) parameters) h (create_result request parameters).
Proof.
  intros Hpools id. run. eapply runs_quiet; [apply ensureNoCleanupFence_spec|apply quiet_create|].
  intros [[]|err] l1 _ Hfence; [|by apply not_caused]. run.
  eapply runs_mono; [by apply beginCreate_spec|done|]. intros [state|err] l2 Hbegin; [|intros Hrel; by apply Hbegin, beginError_releases].
  apply (persists (unfenced id)  l2) in Hfence. run. destruct (bool_decide_reflect (State.Phase state = PhaseReady)) as [Hready|Hphase]; cbn [negb].
  - run. eapply runs_quiet; [apply createVolumeResponse_spec|apply quiet_create|]. intros [resp|err] l3 _ Hresp; [|by apply not_caused].
    exists state, (State.OwnerNode state). split_and!; [by apply (persists (outcome id state))|by apply (persists (unfenced id))|done|by left].
  - destruct Hbegin as [Hbegun|(_ & Hready & _)]; [|done]. run.
    eapply runs_mono; [by apply createServingCopy_spec|done|]. intros [[]|err] l3 Hmade; [|by apply not_caused]. run.
    eapply runs_quiet; [apply createVolumeResponse_spec|apply quiet_create|]. intros [resp|err] l4 _ Hresp; [|by apply not_caused].
    exists state, (State.InitialNode state). split_and!; [|by do 2 apply (persists (unfenced id))|done|].
    + do 2 apply (persists (outcome id state)). by left.
    + right. split; [|done]. destruct Hmade as (copy & Hc & H1 & H2 & H3). exists copy. split_and!; [done|by apply (persists (fun h => _ ∈ h))..].
Qed.

Lemma CreateVolume_spec req request h :
  Service.CapacityPools s = true -> parseCreateRequest req = Ok request ->
  runs (create_call request (CreateVolumeRequest.Parameters req)) (CreateVolume s req) h (create_result request (CreateVolumeRequest.Parameters req)).
Proof.
  intros Hpools Hparse. unfold CreateVolume. run. rewrite Hparse. cbv zeta. unfold validate. run; [by apply not_caused|].
  assert (Hlocked : forall h', runs (create_call request (CreateVolumeRequest.Parameters req)) (locked Lifecycles (createRequest.id request) (
    ensureNoCleanupFence (createRequest.id request);;
    state ← mapped beginError (beginCreate s request (CreateVolumeRequest.Parameters req));
    responseNode ← (if State.Phase state != PhaseReady then createServingCopy (createRequest.id request) state;; mret (State.InitialNode state)
                    else mret (State.OwnerNode state));
    createVolumeResponse (createRequest.id request) responseNode (State.CapacityBytes state) (CreateVolumeRequest.Parameters req))) h'
    (create_result request (CreateVolumeRequest.Parameters req))).
  { intros h'. apply runs_locked; [done|done|]. eapply runs_mono; [by apply CreateVolume_body|done|]. intros r l. apply create_result_persistent. }
  unfold gated. destruct (Service.ProvisioningGate s); [|apply Hlocked]. unfold bracket. run. apply runs_ask; [done|].
  intros [[]|err]; [|by apply not_caused]. run. eapply runs_mono; [apply Hlocked|done|]. intros r l Hr. run.
  apply runs_perform; [done|]. intros []. run. by apply create_result_persistent.
Qed.

(** C7: with the Pool capacity admission configured, as the controller always configures it, in every run of [CreateVolume], whatever
    the registry, the cluster and the node answer, each call that changes something follows what authorises it.  A creation is
    recorded only for the requested volume, in a Pool of the requested group, in one of two ways.  It repeats a recorded creation
    that is not finished and agrees with the request, in the Pool its reservation is in.  Or it has the name, the node and the
    capacity of the request, when no creation was found recorded, or those of a recorded creation without a Pool that agrees with
    the request; then the Pool is on that node, was read as ready, is locked at that moment, and after the lock was taken the
    reservations of the ledger and the free space of the filesystem left room for that capacity.  A copy is made on a node only for
    the copy identity of the recorded intent, recorded as complete only after it was made, and settled on the node only after it was
    recorded.  Nothing is deleted and no cleanup is touched. *)
Theorem creation_authorised (req : CreateVolumeRequest) (newer older : history call) (e : event call) :
  Service.CapacityPools s = true -> snd (CreateVolume s req []) = newer ++ e :: older ->
  exists request, parseCreateRequest req = Ok request /\ create_call request (CreateVolumeRequest.Parameters req) older e.
Proof.
  intros Hpools Hlog. destruct (parseCreateRequest req) as [request|err] eqn:Hparse.
  - exists request. split; [done|]. rewrite <- (app_nil_r older). eapply runs_at; [by apply CreateVolume_spec|by rewrite app_nil_r].
  - unfold CreateVolume in Hlog. rewrite Hparse in Hlog. by destruct newer.
Qed.

(** C28: with the Pool capacity admission configured, a volume is reported created only when its creation is durable: no cleanup of the volume was unfinished, and the reported
    state was read Ready with a valid creation history, or was answered by the recorded intent and, unless that was already Ready,
    its copy was made on the node, recorded as complete and settled.  The response names the volume, the capacity of that state and
    the node it is on, and that node is part of the topology it reports. *)
Theorem creation_durable (req : CreateVolumeRequest) (resp : CreateVolumeResponse) (h : history call) :
  Service.CapacityPools s = true -> CreateVolume s req [] = (Ok resp, h) ->
  exists request, parseCreateRequest req = Ok request /\ created request resp h.
Proof.
  intros Hpools Hrun. destruct (parseCreateRequest req) as [request|err] eqn:Hparse.
  - exists request. split; [done|]. exact (runs_result _ _ _ _ _ _ (CreateVolume_spec req request [] Hpools Hparse) Hrun).
  - unfold CreateVolume in Hrun. rewrite Hparse in Hrun. discriminate Hrun.
Qed.

(** C29: with the Pool capacity admission configured, and a registry whose own errors do not ask for it, only a claim the scheduler
    still manages is released from its node.  A creation that fails with [ResourceExhausted], on which
    the provisioner lets the scheduler choose another node, was not recorded before, and the claim had been read unbound,
    undeleted and selected for the node, with at least one active consumer and every active consumer still unassigned. *)
Theorem release_scheduler_managed (req : CreateVolumeRequest) (err : error) (h : history call) :
  Service.CapacityPools s = true -> CreateVolume s req [] = (Err err, h) -> Code err = ResourceExhausted ->
  (forall q err', Event (BeginCreate q) (Err err') ∈ h -> Code err' <> ResourceExhausted) ->
  exists request, parseCreateRequest req = Ok request /\ released request (CreateVolumeRequest.Parameters req) h.
Proof.
  intros Hpools Hrun Hcode Hplain. destruct (parseCreateRequest req) as [request|err'] eqn:Hparse.
  - exists request. split; [done|]. pose proof (runs_result _ _ _ _ _ _ (CreateVolume_spec req request [] Hpools Hparse) Hrun) as H.
    destruct (H Hcode) as [|(q & err' & Hin & Hr)]; [done|]. by apply Hplain in Hin.
  - exfalso. unfold CreateVolume in Hrun. rewrite Hparse in Hrun. injection Hrun as -> _. unfold parseCreateRequest in Hparse.
    repeat (apply bind_Err in Hparse as [Hparse|(? & _ & Hparse)];
            [first [apply reject_if_Err in Hparse as [_ <-]; discriminate Hcode|by eapply coded_keeps in Hparse]|]). discriminate Hparse.
Qed.
End admission.

(** A creation in a Pool with room, and one that the full Pool denies. *)
#[local] Existing Instance SampleCsi.libraries.

Lemma creation_authorised_witness :
  let o := SampleCsi.oracle None in
  let h := snd (CreateVolume (AM := Sample.sample) (O := o) SampleCsi.service (SampleCsi.request 1073741824 ∅) []) in
  exists request e newer older, (match e with Event (BeginCreate _) _ => true | _ => false end) = true /\ h = newer ++ e :: older /\
    parseCreateRequest (AM := Sample.sample) (SampleCsi.request 1073741824 ∅) = Ok request /\
    create_call (AM := Sample.sample) SampleCsi.service request ∅ older e.
Proof.
  intros o h. destruct (SampleCsi.selected_at (fun e => match e with Event (BeginCreate _) _ => true | _ => false end) 7 h) as (e & He & Hh);
    [vm_compute; reflexivity|].
  destruct (creation_authorised (AM := Sample.sample) (O := o) SampleCsi.service (SampleCsi.request 1073741824 ∅) (take 7 h) (drop 8 h) e
    eq_refl Hh) as (request & Hparse & Hcall).
  exists request, e, (take 7 h), (drop 8 h). split_and!; [exact He|exact Hh|exact Hparse|exact Hcall].
Defined.

Lemma creation_durable_witness :
  exists resp h request, CreateVolume (AM := Sample.sample) (O := SampleCsi.oracle None) SampleCsi.service (SampleCsi.request 1073741824 ∅) [] = (Ok resp, h) /\
    parseCreateRequest (AM := Sample.sample) (SampleCsi.request 1073741824 ∅) = Ok request /\ created request resp h.
Proof.
  assert (exists resp h, CreateVolume (AM := Sample.sample) (O := SampleCsi.oracle None) SampleCsi.service (SampleCsi.request 1073741824 ∅) [] = (Ok resp, h))
    as (resp & h & Hrun) by (eexists _, _; vm_compute; reflexivity).
  destruct (creation_durable (AM := Sample.sample) (O := SampleCsi.oracle None) SampleCsi.service (SampleCsi.request 1073741824 ∅) resp h eq_refl Hrun)
    as (request & Hparse & Hcreated).
  exists resp, h, request. split_and!; [exact Hrun|exact Hparse|exact Hcreated].
Defined.

Lemma release_scheduler_managed_witness :
  let req := SampleCsi.request 5368709120 SampleCsi.claim_parameters in
  exists err h request, CreateVolume (AM := Sample.sample) (O := SampleCsi.oracle None) SampleCsi.service req [] = (Err err, h) /\
    Code err = ResourceExhausted /\ parseCreateRequest (AM := Sample.sample) req = Ok request /\
    released request (CreateVolumeRequest.Parameters req) h.
Proof.
  intros req. assert (exists err h, CreateVolume (AM := Sample.sample) (O := SampleCsi.oracle None) SampleCsi.service req [] = (Err err, h) /\
    Code err = ResourceExhausted /\ forallb (fun e => match e with Event (BeginCreate _) _ => false | _ => true end) h = true) as (err & h & Hrun & Hcode & Hnone)
    by (eexists _, _; split; [vm_compute; reflexivity|split; vm_compute; reflexivity]).
  destruct (release_scheduler_managed (AM := Sample.sample) (O := SampleCsi.oracle None) SampleCsi.service req err h eq_refl Hrun Hcode)
    as (request & Hparse & Hreleased).
  { intros q err' Hin. rewrite forallb_forall in Hnone. specialize (Hnone _ (proj1 (list_elem_of_In _ _) Hin)). discriminate Hnone. }
  exists err, h, request. split_and!; [exact Hrun|exact Hcode|exact Hparse|exact Hreleased].
Defined.
