(* ===== verification/CsiDelete.v ===== *)
(** * The CSI controller: deletion and cancellation

    A run that deletes a volume, or that cancels an unfinished creation, fences the exact
    copy first, settles its cleanup and only then removes the durable state. *)

From S2P Require Import Prelude Bytes VolumeIdentity Apimachinery Registration GoTime ApiServer VolumeState VolumeProtocol PoolApi VolumeRegistry MoveApi Capacity.
From S2P Require Import CleanupJournal Kube Oracle Provisioning CsiController CsiSample ProvisioningLogic CsiCreate.

Section deletion.
Context {AM : Apimachinery} {L : Libraries} {O : Oracle call}.

(** The state of the volume that was read. *)
Definition observed (id uid : string) (test : State -> bool) (h : history call) : Prop :=
  exists state, Event (GetVolume id) (Ok state) ∈ h /\ State.UID state = uid /\ test state = true.

(** The exact copy was fenced for the deletion or the cancellation that the cleanup is of. *)
Definition fenced (id : string) (spec : CleanupJournal.Spec) (h : history call) : Prop :=
  exists uid copy state, (Event (BeginDelete id uid copy) (Ok state) ∈ h \/ Event (BeginCreationCancellation id uid copy) (Ok state) ∈ h) /\
    State.CurrentCopy state = Some (Spec.Target spec) /\ Spec.OperationID spec = State.DeletionOperationID state /\
    Authority.Kind (Spec.Authority spec) = "ShiftPVVolume" /\ Authority.Name (Spec.Authority spec) = id.

(** The cleanup of the fenced copy is complete, and its absence was confirmed in this run. *)
Definition settled (id uid : string) (h : history call) : Prop :=
  exists spec observed current, fenced id spec h /\ Authority.UID (Spec.Authority spec) = uid /\
    Cleanup.Spec observed = spec /\ Cleanup.UID observed = uid /\
    (Event (ReconcileAbsence observed) (Ok (current, true)) ∈ h \/
     exists waiting wait, Event (ReconcileAbsence observed) (Ok (waiting, false)) ∈ h /\ Event (WaitForAbsence waiting wait) (Ok (current, true)) ∈ h) /\
    Status.Phase (Cleanup.Status current) = CleanupJournal.PhaseCompleted.

#[export] Instance fenced_persistent id spec : Persistent (fenced id spec).
Proof. intros e h (uid & copy & state & H & Hr). exists uid, copy, state. split; [|done]. destruct H; [left|right]; by right. Qed.

Lemma fenced_app id spec l h : fenced id spec h -> fenced id spec (l ++ h).
Proof. apply (persists (fenced id spec)). Qed.

#[export] Instance settled_persistent id uid : Persistent (settled id uid).
Proof.
  intros e h (spec & c & c' & Hf & Hu & Hs & Hcu & H & Hp). exists spec, c, c'. split_and!; [by apply persistent|done|done|done| |done].
  destruct H as [H|(w & n & H1 & H2)]; [left; by right|right; exists w, n; split; by right].
Qed.

(** What a call of a deletion requires of the calls before it. *)
Definition delete_call (id : string) (h : history call) (e : event call) : Prop :=
  match e with
  | Event c _ =>
      match c with
      | BeginDelete volumeID uid copy =>
          volumeID = id /\ Role copy = RoleServing /\
          observed id uid (fun state => (State.CurrentCopy state == Some copy) && negb (UnstartedCreation state) &&
                                        negb (CancellableCreation state) && negb (CancellingCreation state)) h
      | BeginCreationCancellation volumeID uid copy =>
          volumeID = id /\ Event (CreationExists copy) (Ok false) ∈ h /\
          observed id uid (fun state => (State.CurrentCopy state == Some copy) && (CancellableCreation state || CancellingCreation state)) h
      | CancelUnstartedCreation volumeID uid => volumeID = id /\ observed id uid UnstartedCreation h
      | EnsureCleanup spec => fenced id spec h
      | Reclaim current => exists spec, fenced id spec h /\ Event (EnsureCleanup spec) (Ok current) ∈ h
      | ReconcileAbsence current => fenced id (Cleanup.Spec current) h
      | WaitForAbsence current _ => exists before, fenced id (Cleanup.Spec before) h /\ Event (ReconcileAbsence before) (Ok (current, false)) ∈ h
      | DeleteState volumeID uid => volumeID = id /\ settled id uid h
      | RemoveVolumeFinalizer volumeID uid => volumeID = id /\ Event (DeleteState id uid) (Ok tt) ∈ h
      | BeginCreate _ | CreateCopy _ | CompleteCreate _ _ _ | FinalizeCreate _ => False
      | _ => True
      end
  end.

Lemma quiet_delete id h e : quiet e = true -> delete_call id h e.
Proof. destruct e as [A c a]. by destruct c. Qed.

Lemma AdvanceCleanup_spec id wait spec h :
  fenced id spec h ->
  runs (delete_call id) (AdvanceCleanup wait spec) h (fun r h' => r = Ok true -> settled id (Authority.UID (Spec.Authority spec)) h').
Proof.
  intros Hf. unfold AdvanceCleanup. run. apply runs_ask; [done|]. intros [current|err]; [|done]. run.
  assert (Hobs : forall l0, runs (delete_call id) (if requiresExecutorObservation current then
      got ← attempt (ask (Reclaim current)); match got with Ok current => mret current | Err err => io_fail (EffectError err) end
      else mret current) (Event (EnsureCleanup spec) (Ok current) :: l0 ++ h) (fun _ _ => True)).
  { intros l0. destruct (requiresExecutorObservation current); [|by run]. run. apply runs_ask; [|by intros []; run].
    intros a. exists spec. split; [by apply persistent, fenced_app|by left]. }
  eapply runs_mono; [apply (Hobs [])|done|]. clear Hobs. intros [latest|err] l _; [|done]. cbn [app].
  set (h1 := l ++ _). assert (Hf1 : fenced id spec h1) by by apply fenced_app, persistent. clearbody h1. clear current. rename latest into current.
  run; [done|]. match goal with H : _ || _ = false |- _ => apply orb_false_iff in H as [Hspec Huid] end.
  apply negb_false_iff, bool_decide_eq_true in Hspec, Huid.
  destruct (contains _ _); [by run|]. destruct (_ == CleanupJournal.PhaseNeedsReview); [by run|]. run; [done|].
  apply runs_ask; [intros a; cbn [delete_call]; by rewrite Hspec|]. intros [[after complete]|err]; [|done].
  assert (Hsettled : forall h2 final, Event (ReconcileAbsence current) (Ok (after, complete)) ∈ h2 -> fenced id spec h2 ->
    (complete = true /\ final = after \/ complete = false /\ exists n, Event (WaitForAbsence after n) (Ok (final, true)) ∈ h2) ->
    Status.Phase (Cleanup.Status final) = CleanupJournal.PhaseCompleted -> settled id (Authority.UID (Spec.Authority spec)) h2).
  { intros h2 final Hr Hf2 Hcase Hp. exists spec, current, final. split_and!; try done.
    destruct Hcase as [[-> ->]|[-> [n Hn]]]; [by left|right; by exists after, n]. }
  destruct complete; cbn [negb andb].
  - run. go_inv. eapply Hsettled; [by left|by apply persistent|by left|done].
  - destruct (0 <? wait)%Z; [|by run]. apply runs_ask.
    { intros a. exists current. split; [rewrite Hspec; by apply persistent|by left]. }
    intros [[final complete]|err]; [|done]. run. destruct complete; [|done]. go_inv.
    eapply Hsettled; [by right; left|by do 2 apply persistent| |done]. right. split; [done|]. exists wait. by left.
Qed.

(** The volume was absent, or its state and its protection were removed. *)
Definition gone (id : string) (h : history call) : Prop :=
  (exists err, Event (GetVolume id) (Err err) ∈ h /\ IsNotFound err = true) \/
  (exists uid, Event (CancelUnstartedCreation id uid) (Ok tt) ∈ h) \/
  (exists uid, settled id uid h /\ Event (DeleteState id uid) (Ok tt) ∈ h /\ Event (RemoveVolumeFinalizer id uid) (Ok tt) ∈ h).

#[export] Instance gone_persistent id : Persistent (gone id).
Proof.
  intros e h [(err & H & Hn)|[[uid H]|(uid & Hs & H1 & H2)]].
  - left. exists err. split; [by right|done].
  - right. left. exists uid. by right.
  - right. right. exists uid. split_and!; [by apply persistent|by right|by right].
Qed.

Lemma AdvanceCancellation_spec inspector wait id uid h :
  runs (delete_call id) (AdvanceCancellation inspector wait id uid) h (fun r h' => r = Ok true -> gone id h').
Proof.
  unfold AdvanceCancellation. run; [done|]. apply runs_ask; [done|]. intros [state|err].
  2:{ destruct (IsNotFound err) eqn:Hn; run; [|done]. left. exists err. split; [by left|done]. }
  run; [done|]. match goal with H : _ = false |- _ => apply negb_false_iff, bool_decide_eq_true in H; rename H into Huid end.
  destruct (UnstartedCreation state) eqn:Hu.
  { run. apply runs_ask; [intros a; split; [done|]; exists state; split_and!; [by left|done|done]|]. intros [[]|err]; run; [|done].
    right. left. exists uid. by left. }
  run; [done|done|]. match goal with H : negb (CancellableCreation state) && _ = false |- _ => rename H into Hc end.
  destruct (State.CurrentCopy state) as [copy|] eqn:Hcopy; cbn [deref]; [|done]. run. apply runs_ask; [done|].
  intros [exists_|err]; [|done]. run; [done|]. destruct exists_; [done|]. apply runs_ask.
  { intros a. split_and!; [done|by left|]. exists state. split_and!; [by right; left|done|]. rewrite Hcopy, bool_decide_true by done.
    simpl. destruct (CancellableCreation state); [done|]. by destruct (CancellingCreation state). }
  intros [fence|err]; [|done]. run. destruct (State.CurrentCopy fence) as [target|] eqn:Htarget; cbn [deref]; [|done]. run.
  eapply runs_mono; [apply (AdvanceCleanup_spec id)|done|].
  { exists uid, copy, fence. split; [right; by left|]. done. }
  intros [complete|err] l Hs; [|done]. destruct complete; cbn [negb]; [|by run]. cbn in Hs.
  run. apply runs_ask; [intros a; split; [done|by apply Hs]|]. intros [[]|err]; [|done]. run.
  apply runs_ask; [intros a; split; [done|by left]|]. intros [[]|err]; [|done]. run.
  right. right. exists uid. split_and!; [do 2 apply persistent; by apply Hs|by right; left|by left].
Qed.

Lemma DeleteVolume_spec s id h : runs (delete_call id) (DeleteVolume s id) h (fun r h' => r = Ok tt -> gone id h').
Proof.
  unfold DeleteVolume, validate. run; [done|]. destruct (coded _ _) as [[]|]; [|done]. run; [done|]. apply runs_locked; [done|done|].
  unfold deletableState. run. apply runs_ask; [done|]. intros [state|err].
  2:{ destruct (IsNotFound err) eqn:Hn; run; [|done]. left. exists err. split; [by right; left|done]. }
  assert (Hfound : forall h1, Event (GetVolume id) (Ok state) ∈ h1 ->
    (UnstartedCreation state = true \/ exists copy, State.CurrentCopy state = Some copy /\ Role copy = RoleServing) ->
    runs (delete_call id) (if UnstartedCreation state || CancellableCreation state || CancellingCreation state then
      complete ← mapped deletionAdmissionError
        (AdvanceCancellation (Service.CreationInspector s) (Service.CleanupAbsenceWait s) id (State.UID state));
      io_reject_if (negb complete) (status_error Unavailable "creation cancellation is waiting for cleanup settlement")
    else
      copy ← io_lift (deref (State.CurrentCopy state));
      fenced ← mapped deletionAdmissionError (ask (BeginDelete id (State.UID state) copy));
      settleVolumeCleanup s id fenced;;
      mapped (kubernetesAPIError "delete volume state") (ask (DeleteState id (State.UID fenced)));;
      mapped (kubernetesAPIError "release settled volume cleanup protection") (ask (RemoveVolumeFinalizer id (State.UID fenced))))
    h1 (fun r h' => r = Ok tt -> gone id (Event (Unlock Lifecycles id) tt :: h'))).
  { intros h1 Hget Hcopy. destruct (_ || _ || _) eqn:Hkind.
    - run. eapply runs_mono; [apply AdvanceCancellation_spec|done|]. intros [complete|err] l Hg; [|done].
      destruct complete; [|by run]. run; [done|]. by apply persistent, Hg.
    - rewrite !orb_false_iff in Hkind. destruct Hkind as [[Hu Hcl] Hcg]. destruct Hcopy as [|(copy & Hcopy & Hrole)]; [congruence|].
      run. rewrite Hcopy. cbn [deref]. run. apply runs_ask.
      { intros a. split_and!; [done|done|]. exists state. split_and!; [done|done|]. rewrite Hcopy, bool_decide_true by done. by rewrite Hu, Hcl, Hcg. }
      intros [fence|err]; [|done]. unfold settleVolumeCleanup. run. destruct (State.CurrentCopy fence) as [target|] eqn:Htarget; cbn [deref]; [|done].
      run. eapply runs_mono; [apply (AdvanceCleanup_spec id)|done|].
      { exists (State.UID state), copy, fence. split; [left; by left|]. done. }
      intros [complete|err] l Hs; [|done]. run; [done|]. destruct complete; [|done]. cbn in Hs. apply runs_ask; [intros a; split; [done|by apply Hs]|].
      intros [[]|err]; [|done]. run. apply runs_ask; [intros a; split; [done|by left]|]. intros [[]|err]; [|done]. intros _. apply persistent.
      right. right. exists (State.UID fence). split_and!; [do 2 apply persistent; by apply Hs|by right; left|by left]. }
  destruct (UnstartedCreation state) eqn:Hu.
  { run. rewrite Hu. apply Hfound; [by left|by left]. }
  run; [done|done|]. rewrite Hu. go_inv. apply Hfound; [by left|]. right. by eexists.
Qed.

(** ** The creation controller *)

(** The claim a creation was for has ended without a PersistentVolume. *)
Definition claim_ended (id : string) (claim : ClaimReference) (h : history call) : Prop :=
  (exists got, Event (GetClaim (ClaimReference.Namespace claim) (ClaimReference.Name claim)) got ∈ h /\
     match got with
     | Err err => IsNotFound err = true
     | Ok None => False
     | Ok (Some pvc) => ObjectMeta.UID (Claim.Meta pvc) <> ClaimReference.UID claim \/
                        ObjectMeta.DeletionTimestamp (Claim.Meta pvc) <> None /\ Claim.VolumeName pvc = ""
     end) /\
  exists pvs, Event ListPersistentVolumes (Ok pvs) ∈ h /\ forall pv, pv ∈ pvs -> pvHandoff pv id claim = false.

#[export] Instance claim_ended_persistent id claim : Persistent (claim_ended id claim).
Proof. intros e h [(got & H1 & H2) (pvs & H3 & H4)]. split; [exists got|exists pvs]; (split; [by right|done]). Qed.

Lemma Retired_spec id state h :
  quiet_run (Retired id state) h (fun r h' =>
    r = Ok true -> exists claim, State.CreationClaim state = Some claim /\ State.RequestName state = "pvc-" +:+ ClaimReference.UID claim /\ claim_ended id claim h').
Proof.
  unfold Retired. destruct (State.CreationClaim state) as [claim|]; [|by run]. run; [done|]. go_inv.
  apply runs_ask; [done|]. intros got. apply runs_bind.
  apply (runs_quiet _ _ _ (fun r h' => h' = Event (GetClaim (ClaimReference.Namespace claim) (ClaimReference.Name claim)) got :: h /\ (r = Ok false ->
     match got with
     | Err err => IsNotFound err = true
     | Ok None => False
     | Ok (Some pvc) => ObjectMeta.UID (Claim.Meta pvc) <> ClaimReference.UID claim \/
                        ObjectMeta.DeletionTimestamp (Claim.Meta pvc) <> None /\ Claim.VolumeName pvc = ""
     end))); [|done|].
  { destruct got as [[pvc|]|err]; [|by run; split|destruct (IsNotFound err) eqn:Hn; by run; split]. run; [by split|].
    destruct (bool_decide_reflect (ObjectMeta.UID (Claim.Meta pvc) = ClaimReference.UID claim)) as [Hsame|Hother]; cbn [andb].
    - destruct (ObjectMeta.DeletionTimestamp (Claim.Meta pvc)) as [t|] eqn:Hdel; cbn [is_nil]; [|by run; split]. run; [by split|]. go_inv.
      split; [done|]. intros _. right. done.
    - run; [by split|]. split; [done|]. intros _. by left. }
  intros [live|err] l _ [Hh Hended]; [|done]. rewrite Hh. destruct live; [by run|]. specialize (Hended eq_refl). run.
  apply runs_ask; [done|]. intros [pvs|err]; [|done]. run; [done|].
  match goal with H : existsb _ _ = false |- _ => rename H into Hnone end. rewrite existsb_false_iff in Hnone.
  exists claim. split_and!; [done|done|]. split; [exists got; split; [by right; left|done]|]. exists pvs. split; [by left|].
  intros pv Hpv. apply Hnone. by apply list_elem_of_In.
Qed.

(** A creation may be cancelled: its cancellation was already recorded, or its original claim has ended. *)
Definition cancellable (id uid : string) (h : history call) : Prop :=
  exists state, Event (GetVolume id) (Ok state) ∈ h /\ State.UID state = uid /\
    (CancellingCreation state = true \/
     (UnstartedCreation state = true \/ CancellableCreation state = true) /\
     exists claim, State.CreationClaim state = Some claim /\ State.RequestName state = "pvc-" +:+ ClaimReference.UID claim /\ claim_ended id claim h).

#[export] Instance cancellable_persistent id uid : Persistent (cancellable id uid).
Proof.
  intros e h (state & Hget & Hu & H). exists state. split_and!; [by right|done|]. destruct H as [H|(Hs & claim & Hc & Hr & He)]; [by left|right].
  split; [done|]. exists claim. split_and!; [done|done|by apply persistent].
Qed.

Definition retire_call (id uid : string) (h : history call) (e : event call) : Prop :=
  quiet e = true \/ delete_call id h e /\ cancellable id uid h.

Lemma ReconcileCreation_spec inspector wait id uid h :
  runs (retire_call id uid) (ReconcileCreation inspector wait id uid) h (fun _ _ => True).
Proof.
  assert (Hquiet : forall h e, quiet e = true -> retire_call id uid h e) by by left.
  unfold ReconcileCreation. run. apply runs_ask; [by left|]. intros [state|err]; [|destruct (IsNotFound err); by run].
  destruct (_ || _) eqn:Hskip; [by run|]. go_inv. match goal with H : candidate state = true |- _ => rename H into Hcandidate end.
  run. apply (runs_quiet _ _ _ (fun r h' => r = Ok true -> cancellable id (State.UID state) h')); [|exact Hquiet|].
  { unfold candidate in Hcandidate. destruct (CancellingCreation state) eqn:Hc; cbn [negb].
    - run. exists state. split_and!; [by left|done|by left].
    - apply andb_prop in Hcandidate as [_ Hkind]. apply orb_prop in Hkind. eapply runs_mono; [apply Retired_spec|done|].
      intros r l Hr ->. destruct (Hr eq_refl) as (claim & H). exists state. split_and!; [by apply elem_of_app; right; left|done|].
      right. split; [done|by exists claim]. }
  intros [retired|err] l _ Hr; [|done]. destruct retired; cbn [negb]; [|by run]. specialize (Hr eq_refl). run.
  eapply runs_mono; [apply (runs_frame (cancellable id (State.UID state)) (delete_call id) _ _ _ Hr (AdvanceCancellation_spec _ _ _ _ _))|by right|].
  intros [complete|err] l' _; [by run|]. destruct (error_is err ErrNotCancellable); by run.
Qed.


(** C27: the creation controller never ends a creation whose claim lives.  A call of it that changes something is one a deletion could
    make, and comes after the exact volume was read, either with its cancellation already recorded, or unfinished and after its
    recorded original claim was observed absent, replaced, or deleted while unbound, with no PersistentVolume for the volume or the
    claim. *)
Theorem retirement_spares_claims (inspector : bool) (wait : Z) (id uid : string) (newer older : history call) (e : event call) :
  snd (ReconcileCreation inspector wait id uid []) = newer ++ e :: older -> quiet e = false ->
  delete_call id older e /\ cancellable id uid older.
Proof.
  intros Hlog Hloud. rewrite <- (app_nil_r older) in Hlog |- *.
  destruct (runs_at _ _ _ _ _ _ _ (ReconcileCreation_spec inspector wait id uid []) Hlog) as [|H]; [congruence|exact H].
Qed.
End deletion.

#[local] Existing Instance SampleCsi.libraries.

(** An executing creation whose claim is gone. *)
Definition abandoned : State :=
  {| State.UID := "uid-1"; State.Finalizers := [VolumeProtectionFinalizer]; State.RequestName := "pvc-00000000-0000-4000-8000-000000000001";
     State.CapacityBytes := 1073741824; State.InitialNode := "node-a"; State.InitialPool := Some sample_pool;
     State.CreationClaim := Some {| ClaimReference.Namespace := "default"; ClaimReference.Name := "claim";
                                    ClaimReference.UID := "00000000-0000-4000-8000-000000000001" |};
     State.HasCleanup := false; State.Deleting := false; State.Phase := ""; State.OwnerNode := ""; State.ActiveMove := "";
     State.PublishedNodes := []; State.CreationOperationID := ""; State.DeletionOperationID := ""; State.CurrentCopy := None;
     State.CreationExecutor := None; State.CreationReceipt := None |}.

Lemma retirement_spares_claims_witness :
  let o := SampleCsi.oracle (Some abandoned) in
  let h := snd (ReconcileCreation (AM := Sample.sample) (O := o) true 0 sample_id "uid-1" []) in
  exists e newer older, (match e with Event (CancelUnstartedCreation _ _) _ => true | _ => false end) = true /\ h = newer ++ e :: older /\
    delete_call sample_id older e /\ cancellable sample_id "uid-1" older.
Proof.
  intros o h. destruct (SampleCsi.selected_at (fun e => match e with Event (CancelUnstartedCreation _ _) _ => true | _ => false end) 0 h) as (e & He & Hh);
    [vm_compute; reflexivity|].
  exists e, (take 0 h), (drop 1 h). split_and!; [exact He|exact Hh|..];
    apply (retirement_spares_claims (AM := Sample.sample) (O := o) true 0 sample_id "uid-1" (take 0 h) (drop 1 h) e Hh);
    destruct e as [A c a]; destruct c; try discriminate He; reflexivity.
Defined.
