(* ===== verification/CsiCapacity.v ===== *)
(** * The CSI controller: requests and reported capacity

    A request that was accepted can be repeated, and the capacity reported to the
    scheduler is the saturated sum of what the Pools in scope have left: a volume of the
    reported maximal size would be admitted by the ledger. *)

From S2P Require Import Prelude Bytes VolumeIdentity Apimachinery Registration GoTime ApiServer VolumeState VolumeProtocol PoolApi VolumeRegistry MoveApi Capacity.
From S2P Require Import CleanupJournal Kube MobilitySample Oracle Provisioning CsiController CsiSample ProvisioningLogic CsiCreate.

(** ** Requests *)

Lemma check_each_Ok {A : Type} (check : A -> result unit) (l : list A) : check_each check l = Ok tt <-> forall x, x ∈ l -> check x = Ok tt.
Proof.
  induction l as [|x l IH]; cbn [check_each].
  - split; [intros _ x Hx; by apply elem_of_nil in Hx|done].
  - rewrite check_Ok, IH. split.
    + intros [Hx Hl] y Hy. apply elem_of_cons in Hy as [->|Hy]; [done|by apply Hl].
    + intros H. split; [apply H; by left|]. intros y Hy. apply H. by right.
Qed.

Lemma coded_Ok {A : Type} code (r : result A) (a : A) : coded code r = Ok a <-> r = Ok a.
Proof. destruct r; simpl; naive_solver. Qed.

Lemma requestedCapacity_range range bytes :
  requestedCapacity range = Ok bytes ->
  (0 < bytes)%Z /\ (GetRequiredBytes range <= bytes)%Z /\ ((0 < GetLimitBytes range)%Z -> (bytes <= GetLimitBytes range)%Z).
Proof.
  unfold requestedCapacity, GetRequiredBytes, GetLimitBytes. destruct range as [[required limit]|]; [|done]. simpl. intros H. go_inv.
  destruct (Z.eqb_spec required 0); go_inv.
  - match goal with H : (_ =? 0)%Z = false |- _ => apply Z.eqb_neq in H end. lia.
  - match goal with H : _ && _ = false |- _ => rewrite andb_false_iff, !Z.ltb_ge in H end. lia.
Qed.

Lemma first_node_in candidates node :
  first_node candidates = Some node -> exists segments, segments ∈ candidates /\ entry segments TopologyKey = node.
Proof.
  induction candidates as [|segments candidates IH]; cbn [first_node]; [done|].
  destruct (bool_decide_reflect (entry segments TopologyKey = "")); cbn [negb].
  - intros (t & Ht & He)%IH. exists t. split; [by right|done].
  - intros [= <-]. exists segments. split; [by left|done].
Qed.

(** A selected node satisfies the topology it was selected from. *)
Lemma selectedNode_allowed requirements node :
  selectedNode requirements = Ok node -> creationNodeAllowed node requirements = true /\ readyNodeAllowed node requirements = true.
Proof.
  unfold selectedNode. destruct requirements as [req|]; [|done]. intros H. apply check_Ok in H as [Hone H]. apply check_Ok in H as [Hin H].
  rewrite check_each_Ok in Hone, Hin. destruct (first_node _) as [n|] eqn:Hfirst; [|done]. injection H as ->.
  apply first_node_in in Hfirst as (segments & Hsegments & <-).
  assert (Hname : names_node (entry segments TopologyKey) segments = true).
  { specialize (Hone _ Hsegments). apply reject_if_Ok in Hone. unfold names_node. apply orb_false_iff in Hone as [Hsize _].
    apply negb_false_iff in Hsize. apply andb_true_intro. split; [exact Hsize|by apply bool_decide_eq_true]. }
  assert (Hcreate : creationNodeAllowed (entry segments TopologyKey) (Some req) = true).
  { apply elem_of_app in Hsegments as [Hp|Hr].
    - specialize (Hin _ Hp). apply reject_if_Ok in Hin. by apply negb_false_iff in Hin.
    - unfold creationNodeAllowed. destruct (GetRequisite (Some req)) as [|t l]; [by apply elem_of_nil in Hr|].
      cbn [length Nat.eqb]. apply existsb_exists. exists segments. split; [by apply list_elem_of_In|done]. }
  split; [done|]. unfold readyNodeAllowed. unfold creationNodeAllowed in Hcreate. by destruct (length _ =? 0)%nat.
Qed.

(** A creation can be repeated.  An accepted request has a volume ID that depends on its name alone, a positive capacity within the
    requested range and a node within the requested topology; a state that was created from it, served where it was placed or not
    yet ready, is compatible with the same request, so that a retry resumes it instead of being rejected. *)
Theorem request_repeatable {AM : Apimachinery} {L : Libraries} (req : CreateVolumeRequest) (request : createRequest) (state : State) :
  parseCreateRequest req = Ok request ->
  IDFromName (CreateVolumeRequest.Name req) = Ok (createRequest.id request) /\ (0 < createRequest.capacity request)%Z /\
  (State.RequestName state = createRequest.name request -> State.CapacityBytes state = createRequest.capacity request ->
   (if State.Phase state == PhaseReady then State.OwnerNode state else State.InitialNode state) = createRequest.nodeName request ->
   compatibleCreateRequest state request = Ok tt).
Proof.
  intros Hparse. unfold parseCreateRequest in Hparse.
  do 3 (apply check_Ok in Hparse as [_ Hparse]). do 2 (apply check_Ok in Hparse as [_ Hparse]).
  apply bind_Ok in Hparse as (bytes & Hbytes & Hparse). apply bind_Ok in Hparse as (node & Hnode & Hparse).
  apply bind_Ok in Hparse as (id & Hid & [= <-]). apply coded_Ok in Hbytes. apply coded_Ok in Hnode. apply coded_Ok in Hid. cbn [createRequest.id createRequest.capacity createRequest.name createRequest.nodeName].
  apply requestedCapacity_range in Hbytes as (Hpos & Hmin & Hmax). apply selectedNode_allowed in Hnode as [Hcreate Hready].
  split_and!; [done|done|]. intros Hname Hcap Hplace. unfold compatibleCreateRequest.
  cbn [createRequest.name createRequest.capacityRange createRequest.topology]. rewrite Hname, Hcap. rewrite (bool_decide_true (CreateVolumeRequest.Name req = CreateVolumeRequest.Name req)) by done. simpl.
  destruct (Z.ltb_spec bytes (GetRequiredBytes (CreateVolumeRequest.CapacityRange req))); [lia|]. simpl.
  assert ((0 <? GetLimitBytes (CreateVolumeRequest.CapacityRange req))%Z && (GetLimitBytes (CreateVolumeRequest.CapacityRange req) <? bytes)%Z = false) as ->.
  { destruct (Z.ltb_spec 0 (GetLimitBytes (CreateVolumeRequest.CapacityRange req))); [|done]. simpl. apply Z.ltb_ge. lia. }
  simpl. destruct (State.Phase state == PhaseReady); rewrite Hplace; [by rewrite Hready|by rewrite Hcreate].
Qed.

Lemma request_repeatable_witness :
  let _ := SampleCsi.libraries in
  exists request, parseCreateRequest (AM := Sample.sample) (SampleCsi.request 1073741824 ∅) = Ok request /\
    compatibleCreateRequest sample_pending request = Ok tt.
Proof.
  intros lib. assert (exists request, parseCreateRequest (AM := Sample.sample) (L := lib) (SampleCsi.request 1073741824 ∅) = Ok request /\
    createRequest.name request = "pvc-1" /\ createRequest.capacity request = 1073741824%Z /\ createRequest.nodeName request = "node-a")
    as (request & Hparse & Hname & Hcap & Hnode) by (eexists; split; [vm_compute; reflexivity|done]).
  exists request. split; [exact Hparse|].
  apply (request_repeatable (AM := Sample.sample) (L := lib) (SampleCsi.request 1073741824 ∅) request sample_pending Hparse);
    [by rewrite Hname|by rewrite Hcap|by rewrite Hnode].
Defined.

(** ** Reported capacity *)

Section reported.
Context {AM : Apimachinery}.

(** What the ledger and the last observation leave of each candidate. *)
Definition headrooms (candidates : list Pool) (volumes : list (string * State)) (moves : list Move) (rooms : list Z) : Prop :=
  Forall2 (fun pool room => exists reserved, ReservedBytesForPool volumes (list_to_map volumes) moves (Pool.UID pool) = Ok reserved /\
                                             room = observedPoolHeadroom pool reserved) candidates rooms.

Definition total (rooms : list Z) : Z := fold_right Z.add 0%Z rooms.
Definition largest (rooms : list Z) : Z := fold_right Z.max 0%Z rooms.

Lemma observedPoolHeadroom_nonneg pool reserved : (0 <= observedPoolHeadroom pool reserved)%Z.
Proof.
  unfold observedPoolHeadroom. destruct (LimitBytes pool) as [limit|]; [|done]. destruct (_ || _) eqn:Hr; [done|]. go_inv.
  destruct (PoolStatus.FilesystemAvailableBytes (Pool.Status pool)), (PoolStatus.FilesystemAvailableInodes (Pool.Status pool)); try done. destruct (_ || _) eqn:Ha; [done|]. go_inv. lia.
Qed.

(** The room of a Pool is admissible and observed to be free. *)
Lemma observedPoolHeadroom_fits pool reserved bytes :
  (0 < bytes <= observedPoolHeadroom pool reserved)%Z ->
  exists limit available, LimitBytes pool = Ok limit /\ PoolStatus.FilesystemAvailableBytes (Pool.Status pool) = Some available /\
    (0 <= reserved /\ reserved + bytes <= limit)%Z /\ (bytes <= available <= PoolStatus.FilesystemTotalBytes (Pool.Status pool))%Z.
Proof.
  unfold observedPoolHeadroom. destruct (LimitBytes pool) as [limit|]; [|lia]. destruct (_ || _) eqn:Hr; [lia|]. go_inv.
  destruct (PoolStatus.FilesystemAvailableBytes (Pool.Status pool)) as [available|], (PoolStatus.FilesystemAvailableInodes (Pool.Status pool)) as [inodes|]; try lia.
  destruct (_ || _) eqn:Ha; [lia|]. go_inv. intros. exists limit, available. split_and!; [done|done|lia..].
Qed.

Lemma total_nonneg candidates volumes moves rooms : headrooms candidates volumes moves rooms -> (0 <= total rooms)%Z.
Proof.
  induction 1 as [|pool room pools rooms (reserved & _ & ->) _ IH]; [done|].
  pose proof (observedPoolHeadroom_nonneg pool reserved). unfold total in *. cbn [fold_right]. lia.
Qed.

Lemma largest_nonneg rooms : (0 <= largest rooms)%Z.
Proof. unfold largest. induction rooms; cbn [fold_right]; lia. Qed.

Lemma report_capacity_spec candidates volumes moves response answer :
  (0 <= GetCapacityResponse.AvailableCapacity response <= MaxInt64)%Z -> (0 <= GetCapacityResponse.MaximumVolumeSize response)%Z ->
  report_capacity candidates volumes moves response = Ok answer ->
  exists rooms, headrooms candidates volumes moves rooms /\
    GetCapacityResponse.AvailableCapacity answer = Z.min MaxInt64 (GetCapacityResponse.AvailableCapacity response + total rooms) /\
    GetCapacityResponse.MaximumVolumeSize answer = Z.max (GetCapacityResponse.MaximumVolumeSize response) (largest rooms).
Proof.
  revert response. induction candidates as [|pool candidates IH]; intros response Hav Hmax H; cbn [report_capacity] in H.
  { injection H as <-. exists []. split; [constructor|]. simpl. lia. }
  destruct (ReservedBytesForPool _ _ _ _) as [reserved|] eqn:Hreserved; [|done]. cbn [mbind result_bind] in H.
  pose proof (observedPoolHeadroom_nonneg pool reserved) as Hroom. remember (observedPoolHeadroom pool reserved) as room eqn:Heq.
  apply IH in H as (rooms & Hrooms & Htotal & Hlargest).
  - exists (room :: rooms). split; [constructor; [by exists reserved|done]|]. unfold add_headroom in Htotal, Hlargest. cbn in Htotal, Hlargest.
    change (total (room :: rooms)) with (room + total rooms)%Z. change (largest (room :: rooms)) with (Z.max room (largest rooms)).
    pose proof (total_nonneg _ _ _ _ Hrooms).
    destruct (Z.ltb_spec (MaxInt64 - GetCapacityResponse.AvailableCapacity response) room); lia.
  - unfold add_headroom. cbn. destruct (Z.ltb_spec (MaxInt64 - GetCapacityResponse.AvailableCapacity response) room); [unfold MaxInt64; lia|lia].
  - unfold add_headroom. cbn. lia.
Qed.

(** The largest room belongs to one of the candidates. *)
Lemma largest_in rooms : largest rooms = 0%Z \/ largest rooms ∈ rooms.
Proof.
  induction rooms as [|room rooms IH]; [by left|]. change (largest (room :: rooms)) with (Z.max room (largest rooms)).
  destruct (Z.max_spec room (largest rooms)) as [[_ ->]|[_ ->]]; [destruct IH as [->|]; [by left|right; by right]|right; by left].
Qed.

Context {L : Libraries} {O : Oracle call} (s : Service).

(** What a report is computed from. *)
Definition reported (req : GetCapacityRequest) (resp : GetCapacityResponse) (h : history call) : Prop :=
  exists group node ready registered volumes moves rooms,
    capacityQueryScope req = Ok (group, node) /\ Event ObservePools (Ok (ready, registered)) ∈ h /\
    let candidates := List.filter (in_scope group node) ready in
    (candidates <> [] -> Event ListVolumes (Ok volumes) ∈ h /\ Event ListMoves (Ok moves) ∈ h) /\
    headrooms candidates volumes moves rooms /\
    GetCapacityResponse.AvailableCapacity resp = Z.min MaxInt64 (total rooms) /\
    GetCapacityResponse.MaximumVolumeSize resp = largest rooms /\
    (forall bytes, (0 < bytes <= GetCapacityResponse.MaximumVolumeSize resp)%Z ->
       exists pool reserved limit available, pool ∈ candidates /\
         ReservedBytesForPool volumes (list_to_map volumes) moves (Pool.UID pool) = Ok reserved /\ LimitBytes pool = Ok limit /\
         PoolStatus.FilesystemAvailableBytes (Pool.Status pool) = Some available /\ (reserved + bytes <= limit)%Z /\ (bytes <= available)%Z).

Lemma GetCapacity_spec req : quiet_run (GetCapacity s req) [] (fun r h => match r with Ok resp => reported req resp h | Err _ => True end).
Proof.
  unfold GetCapacity. run. destruct (capacityQueryScope req) as [[group node]|err] eqn:Hscope; [|done]. run; [done|].
  apply runs_ask; [done|]. intros [[ready registered]|err]; [|done]. cbv zeta.
  destruct (List.filter (in_scope group node) ready) as [|p l] eqn:Hcandidates; cbn [length Nat.eqb].
  { run. exists group, node, ready, registered, [], [], []. cbv zeta. rewrite Hcandidates. split_and!; [done|by left|done|constructor|done|done|].
    intros bytes. cbn. lia. }
  run. apply runs_ask; [done|]. intros [volumes|err]; [|done]. run. apply runs_ask; [done|]. intros [moves|err]; [|done]. run.
  destruct (report_capacity _ _ _ _) as [resp|] eqn:Hreport; [|done].
  apply report_capacity_spec in Hreport as (rooms & Hrooms & Htotal & Hlargest); [|done|done].
  exists group, node, ready, registered, volumes, moves, rooms. cbv zeta. rewrite Hcandidates. split_and!; [done|by do 2 right; left| |done|done| |].
  - intros _. split; [by right; left|by left].
  - rewrite Hlargest. change (GetCapacityResponse.MaximumVolumeSize no_capacity) with 0%Z. pose proof (largest_nonneg rooms). lia.
  - intros bytes. rewrite Hlargest. change (GetCapacityResponse.MaximumVolumeSize no_capacity) with 0%Z. pose proof (largest_nonneg rooms).
    intros Hbytes. destruct (largest_in rooms) as [|Hin]; [lia|]. apply list_elem_of_lookup in Hin as [i Hi].
    destruct (Forall2_lookup_r _ _ _ _ _ Hrooms Hi) as (pool & Hpool & reserved & Hreserved & Heq).
    destruct (observedPoolHeadroom_fits pool reserved bytes) as (limit & available & Hlimit & Havailable & Hfits & Hfree); [lia|].
    exists pool, reserved, limit, available. split_and!; [by eapply list_elem_of_lookup_2|done|done|done|lia|lia].
Qed.

(** C36: the capacity reported for a topology is exact.  It is computed from one observation of the ready Pools of the requested group
    on the requested node and one reading of the ledgers: the available capacity is the sum of what the limit, the reservations and
    the last observation of the filesystem leave of each Pool, saturated at the largest 64-bit integer, and the maximal volume size is the
    largest of them.  A positive size up to that maximum fits the limit of one of these Pools beside its reservations and the space
    observed free in it; nothing is changed. *)
Theorem capacity_exact (req : GetCapacityRequest) (resp : GetCapacityResponse) (h : history call) :
  GetCapacity s req [] = (Ok resp, h) ->
  reported req resp h /\ Forall (fun e => quiet e = true) h.
Proof.
  intros Hrun. split.
  - exact (runs_result _ _ _ _ _ _ (GetCapacity_spec req) Hrun).
  - change h with (snd (Ok resp, h)). rewrite <- Hrun. apply quiet_calls with (fun _ _ => True). eapply runs_mono; [apply GetCapacity_spec|done|done].
Qed.
End reported.

Lemma capacity_exact_witness :
  let _ := SampleCsi.libraries in
  exists resp h, GetCapacity (AM := Sample.sample) (O := SampleCsi.oracle None) SampleCsi.service SampleCsi.query [] = (Ok resp, h) /\
    GetCapacityResponse.MaximumVolumeSize resp = 2147483648%Z /\ reported (AM := Sample.sample) SampleCsi.query resp h.
Proof.
  intros lib. assert (exists resp h, GetCapacity (AM := Sample.sample) (L := lib) (O := SampleCsi.oracle None) SampleCsi.service SampleCsi.query [] = (Ok resp, h) /\
    GetCapacityResponse.MaximumVolumeSize resp = 2147483648%Z) as (resp & h & Hrun & Hmax) by (eexists _, _; split; vm_compute; reflexivity).
  exists resp, h. split_and!; [exact Hrun|exact Hmax|].
  apply (capacity_exact (AM := Sample.sample) (L := lib) (O := SampleCsi.oracle None) SampleCsi.service SampleCsi.query resp h Hrun).
Defined.
