(* ===== verification/NodeDisk.v ===== *)
(** * The disk of a Pool

    What package [ownership] (src/node/ownership) sees of a Pool's filesystem, and the
    system calls it makes on it.  The package works in six directories, through file
    descriptors it holds open: the Pool root, its control directory ".shiftpv" with
    "placements", "incoming" and "retired", and the root's "volumes".  An entry of one
    of them is a marker file, a copy of a volume (a directory with its device and inode
    numbers and its tree), or something the package never follows.

    Every system call may fail.  [faults] decides, call by call, which ones do: a call
    that fails changes nothing, except that a failed write may have written a part.  A
    list in which every call from some point on fails is a crash at that point, so a
    statement for all lists of faults is a statement about every point of interruption.
    The effects of calls that returned are kept: a lost write-back of the kernel is not
    modelled.  Cancellation of a context is a fault as well. *)

From S2P Require Import Prelude Bytes VolumeIdentity.
From stdpp Require Import pretty.

(** ** Errors of the operating system *)

Definition ErrNotExist : error := Errorf "file does not exist".
Definition ENOENT : error := Wrapf [ErrNotExist] "no such file or directory".
Definition EEXIST : error := Errorf "file exists".
Definition ENOTDIR : error := Errorf "not a directory".
Definition EISDIR : error := Errorf "is a directory".
Definition ELOOP : error := Errorf "too many levels of symbolic links".
Definition ENOTEMPTY : error := Errorf "directory not empty".
Definition EXDEV : error := Errorf "invalid cross-device link".
Definition EIO : error := Errorf "input/output error".

(** ** State *)

Inductive dir : Type := Root | Control | Placements | Volumes | Incoming | Retired.

#[export] Instance dir_eq_dec : EqDecision dir.
Proof. solve_decision. Defined.

Definition dir_code (d : dir) : nat :=
  match d with Root => 0 | Control => 1 | Placements => 2 | Volumes => 3 | Incoming => 4 | Retired => 5 end.

Definition dir_decode (n : nat) : option dir :=
  match n with 0 => Some Root | 1 => Some Control | 2 => Some Placements | 3 => Some Volumes | 4 => Some Incoming
  | 5 => Some Retired | _ => None end.

#[export] Program Instance dir_countable : Countable dir :=
  inj_countable dir_code dir_decode _.
Next Obligation. by intros []. Qed.

(** Whether one of the six names is a directory. *)
Inductive subdir : Type :=
| Directory (perm uid : N)
| NotDirectory.

Record file := MkFile { f_data : string; f_perm : N; f_uid : N; f_nlink : N; f_modtime : Z }.

(** What a copy contains: files and links, and directories with their device. *)
Inductive tree : Type :=
| Leaf
| Branch (device : N) (children : list (string * tree)).

Inductive entry : Type :=
| File (f : file)
| Copy (device inode : N) (children : list (string * tree))
| Symlink
| Special.

Record disk := MkDisk {
  pool_path : string;
  pool_device : N;
  euid : N;
  now : Z;
  subdirs : gmap dir subdir;
  entries : gmap (dir * string) entry;
  (** lock files held by other processes *)
  busy : gset string;
  (** for each coming call: success, or failure after a number of bytes *)
  faults : list (option nat)
}.

Definition set_faults (d : disk) (l : list (option nat)) : disk :=
  {| pool_path := pool_path d; pool_device := pool_device d; euid := euid d; now := now d; subdirs := subdirs d;
     entries := entries d; busy := busy d; faults := l |}.
Definition set_entries (d : disk) (m : gmap (dir * string) entry) : disk :=
  {| pool_path := pool_path d; pool_device := pool_device d; euid := euid d; now := now d; subdirs := subdirs d;
     entries := m; busy := busy d; faults := faults d |}.
Definition set_subdirs (d : disk) (m : gmap dir subdir) : disk :=
  {| pool_path := pool_path d; pool_device := pool_device d; euid := euid d; now := now d; subdirs := m;
     entries := entries d; busy := busy d; faults := faults d |}.

(** What the kernel and the UUID library choose: fresh inode numbers, fresh names and
    the order in which a directory is read. *)
Class NodeEnv := {
  NewInode : disk -> N;
  NewUUID : disk -> string;
  readdir : list string -> list string;
  NewInode_nonzero d : NewInode d <> 0%N;
  NewInode_uint64 d : (NewInode d <=? 18446744073709551615)%N = true;
  NewUUID_fresh d dir : entries d !! (dir, "pending-" +:+ NewUUID d) = None;
  NewUUID_name d : ContainsAny (NewUUID d) separators = false;
  NewInode_faults d l : NewInode (set_faults d l) = NewInode d;
  NewUUID_faults d l : NewUUID (set_faults d l) = NewUUID d;
  readdir_perm l : readdir l ≡ₚ l
}.

(** ** Calls *)

(** One call that may fail without an effect; also [ctx.Err()]. *)
Definition tick : io disk unit := fun d =>
  match faults d with
  | [] => (Ok tt, d)
  | None :: rest => (Ok tt, set_faults d rest)
  | Some _ :: rest => (Err EIO, set_faults d rest)
  end.

Definition get {A : Type} (f : disk -> A) : io disk A := fun d => (Ok (f d), d).
Definition put (f : disk -> disk) : io disk unit := fun d => (Ok tt, f d).

(** The error of a call, as a value. *)
Definition attempt {A : Type} (c : io disk A) : io disk (result A) := fun d => let '(r, d) := c d in (Ok r, d).

(** [defer]: [cleanup] runs whatever [c] returned, and its error is dropped. *)
Definition deferred {A : Type} (c : io disk A) (cleanup : io disk unit) : io disk A := fun d =>
  let '(r, d) := c d in let '(_, d) := cleanup d in (r, d).

Definition fsync : io disk unit := tick.
Definition fstat : io disk unit := tick.
Definition close : io disk unit := tick.

(** [unix.Openat(parent, name, O_DIRECTORY|O_NOFOLLOW)] for one of the six. *)
Definition open_dir (x : dir) : io disk unit :=
  tick;;
  s ← get (fun d => subdirs d !! x);
  io_lift (match s with
           | None => Err ENOENT
           | Some NotDirectory => Err ENOTDIR
           | Some (Directory _ _) => Ok tt
           end).

Definition mkdir_dir (x : dir) (mode : N) : io disk unit :=
  tick;;
  s ← get (fun d => subdirs d !! x);
  match s with
  | Some _ => io_fail EEXIST
  | None => put (fun d => set_subdirs d (<[x := Directory mode (euid d)]> (subdirs d)))
  end.

(** [openOrCreateDirectory] *)
Definition openOrCreateDirectory (x : dir) (mode : N) : io disk unit :=
  r ← attempt (mkdir_dir x mode);
  match r with
  | Err err => if error_is err EEXIST then mret tt else io_fail err
  | Ok _ => mret tt
  end;;
  open_dir x.

(** [unix.Openat] of a copy: its device and inode. *)
Definition open_copy (k : dir * string) : io disk (N * N) :=
  tick;;
  e ← get (fun d => entries d !! k);
  io_lift (match e with
           | None => Err ENOENT
           | Some (Copy device inode _) => Ok (device, inode)
           | Some _ => Err ENOTDIR
           end).

Definition mkdirat `{NodeEnv} (k : dir * string) : io disk unit :=
  tick;;
  e ← get (fun d => entries d !! k);
  match e with
  | Some _ => io_fail EEXIST
  | None => put (fun d => set_entries d (<[k := Copy (pool_device d) (NewInode d) []]> (entries d)))
  end.

(** [pathExists] *)
Definition pathExists (k : dir * string) : io disk bool :=
  tick;;
  e ← get (fun d => entries d !! k);
  mret (negb (is_nil e)).

Definition unlinkat (k : dir * string) : io disk unit :=
  tick;;
  e ← get (fun d => entries d !! k);
  match e with
  | None => io_fail ENOENT
  | Some (Copy _ _ _) => io_fail EISDIR
  | Some _ => put (fun d => set_entries d (delete k (entries d)))
  end.

(** [unix.Renameat] of a marker within its directory; an existing file is replaced. *)
Definition renameat (x : dir) (from to : string) : io disk unit :=
  tick;;
  e ← get (fun d => entries d !! (x, from));
  t ← get (fun d => entries d !! (x, to));
  match e, t with
  | None, _ => io_fail ENOENT
  | _, Some (Copy _ _ _) => io_fail EISDIR
  | Some e, _ => put (fun d => set_entries d (<[(x, to) := e]> (delete (x, from) (entries d))))
  end.

(** [renameDirectory]: [unix.Renameat2] with RENAME_NOREPLACE. *)
Definition renameDirectory (from to : dir * string) : io disk unit :=
  tick;;
  e ← get (fun d => entries d !! from);
  t ← get (fun d => entries d !! to);
  match e, t with
  | None, _ => io_fail ENOENT
  | _, Some _ => io_fail EEXIST
  | Some e, None => put (fun d => set_entries d (<[to := e]> (delete from (entries d))))
  end.

Inductive openflag : Type := ReadOnly | ReadWriteCreate | CreateExclusive.

Definition new_file (d : disk) (mode : N) : file :=
  {| f_data := ""; f_perm := mode; f_uid := euid d; f_nlink := 1; f_modtime := now d |}.

(** [unix.Openat] of a file with O_NOFOLLOW|O_NONBLOCK: [None] is an open descriptor
    of something that is not a regular file. *)
Definition open_file (k : dir * string) (flag : openflag) (mode : N) : io disk (option file) :=
  tick;;
  e ← get (fun d => entries d !! k);
  match e, flag with
  | None, ReadOnly => io_fail ENOENT
  | None, _ => f ← get (fun d => new_file d mode);
               put (fun d => set_entries d (<[k := File f]> (entries d)));; mret (Some f)
  | Some _, CreateExclusive => io_fail EEXIST
  | Some (File f), _ => mret (Some f)
  | Some Symlink, _ => io_fail ELOOP
  | Some (Copy _ _ _), ReadWriteCreate => io_fail EISDIR
  | Some (Copy _ _ _), ReadOnly => mret None
  | Some Special, _ => mret None
  end.

(** [file.Write]: a failed write may have written a prefix. *)
Definition write_file (k : dir * string) (data : string) : io disk unit := fun d =>
  let write n d := match entries d !! k with
                   | Some (File f) => set_entries d (<[k := File {| f_data := String.substring 0 n data; f_perm := f_perm f;
                       f_uid := f_uid f; f_nlink := f_nlink f; f_modtime := now d |}]> (entries d))
                   | _ => d
                   end in
  match faults d with
  | Some n :: rest => (Err EIO, write n (set_faults d rest))
  | _ => match tick d with
         | (Ok _, d) => (Ok tt, write (String.length data) d)
         | r => r
         end
  end.

(** The names of a directory, in the order in which it is read. *)
Definition names `{NodeEnv} (x : dir) (d : disk) : list string :=
  readdir (omap (fun e => if fst (fst e) == x then Some (snd (fst e)) else None) (map_to_list (entries d))).

(** ** An instance *)

Module SampleNode.
Definition name_bound (d : disk) : nat :=
  foldr (fun (e : dir * string * entry) n => String.length (snd (fst e)) + n) 0 (map_to_list (entries d)).

Fixpoint zeros (n : nat) : string :=
  match n with O => "" | S n => "0" +:+ zeros n end.

Definition last_inode (d : disk) : N :=
  foldr (fun (e : dir * string * entry) n => match snd e with Copy _ i _ => N.max i n | _ => n end) 0%N (map_to_list (entries d)).

Lemma length_zeros (n : nat) : String.length (zeros n) = n.
Proof. induction n as [|n IH]; [done|]. change (S (String.length (zeros n)) = S n). lia. Qed.

Lemma name_bound_spec (d : disk) (k : dir * string) (e : entry) :
  entries d !! k = Some e -> String.length (snd k) <= name_bound d.
Proof.
  intros H%elem_of_map_to_list. unfold name_bound.
  induction (map_to_list (entries d)) as [|e' l IH]; [by apply elem_of_nil in H|].
  apply elem_of_cons in H as [<-|H]; simpl; [lia|]. specialize (IH H). lia.
Qed.

#[export] Program Instance env : NodeEnv := {
  NewInode d := (last_inode d mod 4294967296 + 1)%N;
  NewUUID d := zeros (name_bound d);
  readdir l := l
}.
Next Obligation. intros d. cbv beta. rewrite N.add_1_r. apply N.neq_succ_0. Qed.
Next Obligation. intros d. cbv beta. apply N.leb_le. pose proof (N.mod_lt (last_inode d) 4294967296). lia. Qed.
Next Obligation.
  intros d x. destruct (entries d !! _) as [e|] eqn:E; [|done]. apply name_bound_spec in E. simpl in E.
  unfold String.append in E. simpl in E. rewrite length_zeros in E. lia.
Qed.
Next Obligation.
  intros d. unfold ContainsAny. rewrite negb_false_iff. simpl. induction (name_bound d) as [|n IH]; [done|].
  change (true && string_forallb (fun c => string_forallb (fun s => negb (ascii_eqb c s)) separators) (zeros n) = true).
  exact IH.
Qed.
Next Obligation. done. Qed.
Next Obligation. done. Qed.
Next Obligation. done. Qed.

(** The empty Pool "/pool" of a node agent that runs as root. *)
Definition blank : disk :=
  {| pool_path := "/pool"; pool_device := 7; euid := 0; now := 0; subdirs := {[Root := Directory 493 0]}; entries := ∅;
     busy := ∅; faults := [] |}.

Definition SampleCopyIdentity : CopyIdentity :=
  {| InstallationID := "cluster"; PoolName := "pool-a"; PoolUID := "uid-a"; VolumeID := idPrefix +:+ zeros 32; VolumeUID := "uid-1";
     CopyID := "initial-uid-1"; NodeName := "node-a"; Role := RoleServing |}.
End SampleNode.
