(* ===== verification/OwnershipMarkers.v ===== *)
(** * Markers

    src/node/ownership/marker.go and store.go: the records that package [ownership]
    keeps beside the data.  A marker is a small file that holds the canonical JSON of a
    record; it is written to a temporary name and renamed, and it is accepted only when
    its bytes are exactly the canonical ones. *)

From S2P Require Import Prelude Bytes Json VolumeIdentity NodeDisk.
From Stdlib Require Import Ascii.

Definition ErrBusy : error := Errorf "volume operation is already locked".
Definition ErrIdentity : error := Errorf "node storage identity mismatch".
Definition ErrNeedsReview : error := Errorf "node storage state needs review".

(** ** Records *)

Module PoolIdentity.
Record PoolIdentity := { InstallationID : string; PoolUID : string }.
#[export] Instance PoolIdentity_eq_dec : EqDecision PoolIdentity.
Proof. solve_decision. Defined.
End PoolIdentity.
Notation PoolIdentity := PoolIdentity.PoolIdentity.
#[export] Existing Instance PoolIdentity.PoolIdentity_eq_dec.

Module Placement.
Record placement := { Identity : CopyIdentity; Device : N; Inode : N }.
#[export] Instance placement_eq_dec : EqDecision placement.
Proof. solve_decision. Defined.
End Placement.
Notation placement := Placement.placement.
#[export] Existing Instance Placement.placement_eq_dec.

Module LocalIntent.
Record localIntent := { OperationID : string; Target : CopyIdentity; Device : N; Inode : N }.
#[export] Instance localIntent_eq_dec : EqDecision localIntent.
Proof. solve_decision. Defined.
End LocalIntent.
Notation localIntent := LocalIntent.localIntent.
#[export] Existing Instance LocalIntent.localIntent_eq_dec.

Module Receipt.
Record Receipt := { OperationID : string; Target : CopyIdentity; Device : N; Inode : N; Retired : bool; Purged : bool }.
#[export] Instance Receipt_eq_dec : EqDecision Receipt.
Proof. solve_decision. Defined.
End Receipt.
Notation Receipt := Receipt.Receipt.
#[export] Existing Instance Receipt.Receipt_eq_dec.

Module TransferIntent.
Record transferIntent := {
  OperationID : string; Incoming : CopyIdentity; Destination : CopyIdentity; Device : N; Inode : N }.
End TransferIntent.
Notation transferIntent := TransferIntent.transferIntent.

Module TransferReceipt.
Record transferReceipt := { OperationID : string; Identity : CopyIdentity; Device : N; Inode : N }.
End TransferReceipt.
Notation transferReceipt := TransferReceipt.transferReceipt.

(** ** Their JSON form

    [of_json] is the decoding into a struct of the members in their order; numbers are
    uint64. *)
Class Marker (A : Type) := {
  to_json : A -> json;
  of_json : json -> option A;
  representable : A -> bool;
  of_to_json a : representable a = true -> of_json (to_json a) = Some a;
  to_json_well_formed a : representable a = true -> well_formed (to_json a) = true
}.

Definition uint64 (n : N) : bool := (n <=? 18446744073709551615)%N.

(** The members of an object with exactly these names. *)
Definition object_values (names : list string) (v : json) : option (list json) :=
  match v with
  | JObject fields => if fields.*1 == names then Some (fields.*2) else None
  | _ => None
  end.

Definition CopyIdentity_to_json (r : CopyIdentity) : json :=
  JObject [
    ("installationID", JString (InstallationID r)); ("poolName", JString (PoolName r));
    ("poolUID", JString (PoolUID r)); ("volumeID", JString (VolumeID r)); ("volumeUID", JString (VolumeUID r));
    ("copyID", JString (CopyID r)); ("nodeName", JString (NodeName r)); ("role", JString (Role r))].

Definition CopyIdentity_of_json (v : json) : option CopyIdentity :=
  match object_values ["installationID"; "poolName"; "poolUID"; "volumeID"; "volumeUID"; "copyID"; "nodeName"; "role"] v with
  | Some [JString x0; JString x1; JString x2; JString x3; JString x4; JString x5; JString x6; JString x7] =>
      Some {| InstallationID := x0; PoolName := x1; PoolUID := x2; VolumeID := x3; VolumeUID := x4; CopyID := x5; NodeName := x6; Role := x7 |}
  | _ => None
  end.

Definition CopyIdentity_representable (r : CopyIdentity) : bool :=
  utf8 0 (InstallationID r) && utf8 0 (PoolName r) && utf8 0 (PoolUID r) && utf8 0 (VolumeID r) &&
  utf8 0 (VolumeUID r) && utf8 0 (CopyID r) && utf8 0 (NodeName r) && utf8 0 (Role r).

Lemma CopyIdentity_of_to_json (r : CopyIdentity) : CopyIdentity_of_json (CopyIdentity_to_json r) = Some r.
Proof. by destruct r. Qed.

Lemma CopyIdentity_to_json_well_formed (r : CopyIdentity) :
  CopyIdentity_representable r = true -> well_formed (CopyIdentity_to_json r) = true.
Proof.
  destruct r. unfold CopyIdentity_representable. rewrite !andb_true_iff. intros H. destruct_and?. simpl in *.
  repeat match goal with E : utf8 0 _ = true |- _ => rewrite E; clear E end. done.
Qed.

(** The two laws of a record of strings, numbers, booleans and copies. *)
Ltac marker_fields :=
  intros [] H; match type of H with ?f _ = true => unfold f in H end; unfold CopyIdentity_representable in H;
  rewrite ?andb_true_iff in H; destruct_and?;
  try match goal with |- ?f (?g _) = _ => unfold f, g, object_values; rewrite bool_decide_eq_true_2 by done end;
  simpl in *;
  repeat match goal with E : utf8 0 _ = true |- _ => rewrite E; clear E end;
  repeat match goal with E : uint64 _ = true |- _ => rewrite E; clear E end;
  simpl; repeat match goal with c : CopyIdentity |- _ => destruct c end; done.

#[export] Instance CopyIdentity_marker : Marker CopyIdentity :=
  { to_json := CopyIdentity_to_json; of_json := CopyIdentity_of_json; representable := CopyIdentity_representable;
    of_to_json r _ := CopyIdentity_of_to_json r; to_json_well_formed := CopyIdentity_to_json_well_formed }.

Definition PoolIdentity_to_json (r : PoolIdentity) : json :=
  JObject [
    ("installationID", JString (PoolIdentity.InstallationID r)); ("poolUID", JString (PoolIdentity.PoolUID r))].

Definition PoolIdentity_of_json (v : json) : option PoolIdentity :=
  match object_values ["installationID"; "poolUID"] v with
  | Some [JString x0; JString x1] =>
      Some {| PoolIdentity.InstallationID := x0; PoolIdentity.PoolUID := x1 |}
  | _ => None
  end.

Definition PoolIdentity_representable (r : PoolIdentity) : bool :=
  utf8 0 (PoolIdentity.InstallationID r) && utf8 0 (PoolIdentity.PoolUID r).

#[export] Program Instance PoolIdentity_marker : Marker PoolIdentity :=
  { to_json := PoolIdentity_to_json; of_json := PoolIdentity_of_json; representable := PoolIdentity_representable }.
Next Obligation. marker_fields. Qed.
Next Obligation. marker_fields. Qed.

Definition placement_to_json (r : placement) : json :=
  JObject [
    ("identity", CopyIdentity_to_json (Placement.Identity r)); ("device", JNumber (Placement.Device r));
    ("inode", JNumber (Placement.Inode r))].

Definition placement_of_json (v : json) : option placement :=
  match object_values ["identity"; "device"; "inode"] v with
  | Some [x0; JNumber x1; JNumber x2] =>
      match CopyIdentity_of_json x0 with
      | Some x0 =>
          if uint64 x1 && uint64 x2 then Some {| Placement.Identity := x0; Placement.Device := x1; Placement.Inode := x2 |} else None
      | _ => None
      end
  | _ => None
  end.

Definition placement_representable (r : placement) : bool :=
  CopyIdentity_representable (Placement.Identity r) && uint64 (Placement.Device r) &&
  uint64 (Placement.Inode r).

#[export] Program Instance placement_marker : Marker placement :=
  { to_json := placement_to_json; of_json := placement_of_json; representable := placement_representable }.
Next Obligation. marker_fields. Qed.
Next Obligation. marker_fields. Qed.

Definition localIntent_to_json (r : localIntent) : json :=
  JObject [
    ("operationID", JString (LocalIntent.OperationID r));
    ("target", CopyIdentity_to_json (LocalIntent.Target r)); ("device", JNumber (LocalIntent.Device r));
    ("inode", JNumber (LocalIntent.Inode r))].

Definition localIntent_of_json (v : json) : option localIntent :=
  match object_values ["operationID"; "target"; "device"; "inode"] v with
  | Some [JString x0; x1; JNumber x2; JNumber x3] =>
      match CopyIdentity_of_json x1 with
      | Some x1 =>
          if uint64 x2 && uint64 x3 then Some {| LocalIntent.OperationID := x0; LocalIntent.Target := x1; LocalIntent.Device := x2; LocalIntent.Inode := x3 |} else None
      | _ => None
      end
  | _ => None
  end.

Definition localIntent_representable (r : localIntent) : bool :=
  utf8 0 (LocalIntent.OperationID r) && CopyIdentity_representable (LocalIntent.Target r) &&
  uint64 (LocalIntent.Device r) && uint64 (LocalIntent.Inode r).

#[export] Program Instance localIntent_marker : Marker localIntent :=
  { to_json := localIntent_to_json; of_json := localIntent_of_json; representable := localIntent_representable }.
Next Obligation. marker_fields. Qed.
Next Obligation. marker_fields. Qed.

Definition Receipt_to_json (r : Receipt) : json :=
  JObject [
    ("operationID", JString (Receipt.OperationID r)); ("target", CopyIdentity_to_json (Receipt.Target r));
    ("device", JNumber (Receipt.Device r)); ("inode", JNumber (Receipt.Inode r));
    ("retired", JBool (Receipt.Retired r)); ("purged", JBool (Receipt.Purged r))].

Definition Receipt_of_json (v : json) : option Receipt :=
  match object_values ["operationID"; "target"; "device"; "inode"; "retired"; "purged"] v with
  | Some [JString x0; x1; JNumber x2; JNumber x3; JBool x4; JBool x5] =>
      match CopyIdentity_of_json x1 with
      | Some x1 =>
          if uint64 x2 && uint64 x3 then Some {| Receipt.OperationID := x0; Receipt.Target := x1; Receipt.Device := x2; Receipt.Inode := x3; Receipt.Retired := x4; Receipt.Purged := x5 |} else None
      | _ => None
      end
  | _ => None
  end.

Definition Receipt_representable (r : Receipt) : bool :=
  utf8 0 (Receipt.OperationID r) && CopyIdentity_representable (Receipt.Target r) &&
  uint64 (Receipt.Device r) && uint64 (Receipt.Inode r).

#[export] Program Instance Receipt_marker : Marker Receipt :=
  { to_json := Receipt_to_json; of_json := Receipt_of_json; representable := Receipt_representable }.
Next Obligation. marker_fields. Qed.
Next Obligation. marker_fields. Qed.

Definition transferIntent_to_json (r : transferIntent) : json :=
  JObject [
    ("operationID", JString (TransferIntent.OperationID r));
    ("incoming", CopyIdentity_to_json (TransferIntent.Incoming r));
    ("destination", CopyIdentity_to_json (TransferIntent.Destination r));
    ("device", JNumber (TransferIntent.Device r)); ("inode", JNumber (TransferIntent.Inode r))].

Definition transferIntent_of_json (v : json) : option transferIntent :=
  match object_values ["operationID"; "incoming"; "destination"; "device"; "inode"] v with
  | Some [JString x0; x1; x2; JNumber x3; JNumber x4] =>
      match CopyIdentity_of_json x1, CopyIdentity_of_json x2 with
      | Some x1, Some x2 =>
          if uint64 x3 && uint64 x4 then Some {| TransferIntent.OperationID := x0; TransferIntent.Incoming := x1; TransferIntent.Destination := x2; TransferIntent.Device := x3; TransferIntent.Inode := x4 |} else None
      | _, _ => None
      end
  | _ => None
  end.

Definition transferIntent_representable (r : transferIntent) : bool :=
  utf8 0 (TransferIntent.OperationID r) && CopyIdentity_representable (TransferIntent.Incoming r) &&
  CopyIdentity_representable (TransferIntent.Destination r) && uint64 (TransferIntent.Device r) &&
  uint64 (TransferIntent.Inode r).

#[export] Program Instance transferIntent_marker : Marker transferIntent :=
  { to_json := transferIntent_to_json; of_json := transferIntent_of_json; representable := transferIntent_representable }.
Next Obligation. marker_fields. Qed.
Next Obligation. marker_fields. Qed.

Definition transferReceipt_to_json (r : transferReceipt) : json :=
  JObject [
    ("operationID", JString (TransferReceipt.OperationID r));
    ("identity", CopyIdentity_to_json (TransferReceipt.Identity r));
    ("device", JNumber (TransferReceipt.Device r)); ("inode", JNumber (TransferReceipt.Inode r))].

Definition transferReceipt_of_json (v : json) : option transferReceipt :=
  match object_values ["operationID"; "identity"; "device"; "inode"] v with
  | Some [JString x0; x1; JNumber x2; JNumber x3] =>
      match CopyIdentity_of_json x1 with
      | Some x1 =>
          if uint64 x2 && uint64 x3 then Some {| TransferReceipt.OperationID := x0; TransferReceipt.Identity := x1; TransferReceipt.Device := x2; TransferReceipt.Inode := x3 |} else None
      | _ => None
      end
  | _ => None
  end.

Definition transferReceipt_representable (r : transferReceipt) : bool :=
  utf8 0 (TransferReceipt.OperationID r) && CopyIdentity_representable (TransferReceipt.Identity r) &&
  uint64 (TransferReceipt.Device r) && uint64 (TransferReceipt.Inode r).

#[export] Program Instance transferReceipt_marker : Marker transferReceipt :=
  { to_json := transferReceipt_to_json; of_json := transferReceipt_of_json; representable := transferReceipt_representable }.
Next Obligation. marker_fields. Qed.
Next Obligation. marker_fields. Qed.

(** [canonical] and its inverse. *)
Definition canonical {A : Type} `{Marker A} (value : A) : string :=
  marshal (JObject [("version", JNumber 1); ("value", to_json value)]).

Definition decode_envelope {A : Type} `{Marker A} (data : string) : option A :=
  match unmarshal data with
  | Some (JObject [("version", JNumber 1); ("value", v)]) => of_json v
  | _ => None
  end.

Lemma decode_canonical {A : Type} `{Marker A} (a : A) : representable a = true -> decode_envelope (canonical a) = Some a.
Proof.
  intros Ha. unfold decode_envelope, canonical. rewrite unmarshal_marshal; [by apply of_to_json|].
  cbn [well_formed forallb snd fst length Nat.eqb]. by rewrite (to_json_well_formed a Ha).
Qed.

(** ** Names *)

Definition copyMarker (copyID : string) : string := "copy-" +:+ copyID +:+ ".json".
Definition placementMarker (copyID : string) : string := "placement-" +:+ copyID +:+ ".json".
Definition operationMarker (prefix operationID : string) : string :=
  prefix +:+ "-" +:+ EncodeToString (String.substring 0 16 (Sha256.Sum256 operationID)) +:+ ".json".

(** ** Marker files *)

(** Group or others may write, or the file has another owner or another name. *)
Definition trusted (e : N) (f : file) : bool :=
  (N.land (f_perm f) 18 =? 0)%N && (f_nlink f =? 1)%N && (f_uid f =? e)%N.

Definition openMarker (k : dir * string) (flag : openflag) (mode : N) : io disk file :=
  io_reject_if ((snd k == "") || ContainsAny (snd k) separators) ErrIdentity;;
  opened ← open_file k flag mode;
  fstat;; fstat;;
  e ← get euid;
  match opened with
  | Some f => io_reject_if (negb (trusted e f)) ErrIdentity;; mret f
  | None => io_fail ErrIdentity
  end.

Definition openControl (name : string) (flag : openflag) (mode : N) : io disk file := openMarker (Control, name) flag mode.

(** A marker has at most 8192 bytes. *)
Definition marker_limit : nat := 8 * 1024.

Lemma length_uint64 (n : N) : uint64 n = true -> String.length (decimal n) <= 20.
Proof. unfold uint64. rewrite N.leb_le. intros H. apply length_decimal; [|lia]. eapply N.le_lt_trans; [exact H|]. by vm_compute. Qed.

(** Validated identities are short. *)
Lemma length_token (s : string) : ValidIdentityToken s = true -> String.length s <= 128.
Proof.
  unfold ValidIdentityToken. intros [[[[_ H]%andb_true_iff _]%andb_true_iff _]%andb_true_iff _]%andb_true_iff. by apply Nat.leb_le.
Qed.

Lemma length_identity (c : CopyIdentity) : Validate c = Ok tt -> String.length (marshal (CopyIdentity_to_json c)) <= 64 * 100.
Proof.
  intros (H1 & [H2 _]%andb_true_iff & H3 & H4 & H5 & H6 & [H7 _]%andb_true_iff & H8)%Validate_parts.
  apply length_token in H1, H2, H3, H5, H6, H7.
  assert (String.length (VolumeID c) <= 128) as Hv.
  { apply ValidateID_ok, validID_shape in H4 as (digest & -> & Hl & _). rewrite length_append. simpl. lia. }
  assert (String.length (Role c) <= 128) as Hr.
  { rewrite !elem_of_cons in H8. destruct_or! H8; try rewrite H8; simpl; try lia. by apply elem_of_nil in H8. }
  unfold CopyIdentity_to_json. rewrite marshal_JObject. cbn [marshal_members marshal].
  rewrite !length_append.
  repeat match goal with |- context [quote (?f c)] => let E := fresh in pose proof (length_quote (f c)) as E; 
     let l := fresh in set (l := String.length (quote (f c))) in *; clearbody l end.
  simpl. lia.
Qed.

(** A record that a marker can hold: its strings are UTF-8 and it is short enough. *)
Definition storable {A : Type} `{Marker A} (v : A) : Prop :=
  representable v = true /\ String.length (canonical v) <= marker_limit.

Lemma length_canonical {A : Type} `{Marker A} (v : A) (n : nat) :
  String.length (marshal (to_json v)) <= n -> n + 30 <= marker_limit -> String.length (canonical v) <= marker_limit.
Proof.
  intros Hv Hn. unfold canonical. rewrite marshal_JObject. cbn [marshal_members marshal]. rewrite !length_append. simpl. lia.
Qed.

(** Validated records are storable. *)
Ltac storable_fields f :=
  eapply (length_canonical _ (75 * 100)); [|unfold marker_limit; lia];
  match goal with |- context [to_json ?v] => change (to_json v) with (f v) end; unfold f;
  rewrite marshal_JObject; cbn [marshal_members marshal Placement.Identity Placement.Device Placement.Inode LocalIntent.OperationID
    LocalIntent.Target LocalIntent.Device LocalIntent.Inode Receipt.OperationID Receipt.Target Receipt.Device Receipt.Inode
    Receipt.Retired Receipt.Purged];
  rewrite !length_append;
  repeat match goal with
  | |- context [String.length (marshal (CopyIdentity_to_json ?c))] => generalize dependent (String.length (marshal (CopyIdentity_to_json c)))
  | |- context [String.length (decimal ?n)] => generalize dependent (String.length (decimal n))
  | |- context [String.length (quote ?o)] => is_var o; generalize dependent (String.length (quote o))
  end; intros; simpl; lia.

Section storable.
Context (c : CopyIdentity) (Hc : Validate c = Ok tt) (Hutf : CopyIdentity_representable c = true).

Lemma storable_identity : storable c.
Proof. split; [done|]. eapply (length_canonical _ (64 * 100)); [by apply length_identity|unfold marker_limit; lia]. Qed.

Context (device inode : N) (Hd : uint64 device = true) (Hi : uint64 inode = true).

Lemma storable_placement : storable {| Placement.Identity := c; Placement.Device := device; Placement.Inode := inode |}.
Proof.
  split; [cbn; unfold placement_representable; simpl; by rewrite Hutf, Hd, Hi|].
  pose proof (length_identity c Hc). pose proof (length_uint64 _ Hd). pose proof (length_uint64 _ Hi).
  storable_fields placement_to_json.
Qed.

Context (operationID : string) (Ho : ValidIdentityToken operationID = true) (Hou : utf8 0 operationID = true).

Lemma storable_localIntent :
  storable {| LocalIntent.OperationID := operationID; LocalIntent.Target := c; LocalIntent.Device := device; LocalIntent.Inode := inode |}.
Proof.
  split; [cbn; unfold localIntent_representable; simpl; by rewrite Hou, Hutf, Hd, Hi|].
  pose proof (length_identity c Hc). pose proof (length_uint64 _ Hd). pose proof (length_uint64 _ Hi).
  pose proof (length_quote operationID). pose proof (length_token _ Ho). storable_fields localIntent_to_json.
Qed.

Lemma storable_Receipt (retired purged : bool) :
  storable {| Receipt.OperationID := operationID; Receipt.Target := c; Receipt.Device := device; Receipt.Inode := inode;
              Receipt.Retired := retired; Receipt.Purged := purged |}.
Proof.
  split; [cbn; unfold Receipt_representable; simpl; by rewrite Hou, Hutf, Hd, Hi|].
  pose proof (length_identity c Hc). pose proof (length_uint64 _ Hd). pose proof (length_uint64 _ Hi).
  pose proof (length_quote operationID). pose proof (length_token _ Ho). destruct retired, purged; storable_fields Receipt_to_json.
Qed.
End storable.

(** [io.ReadAll(io.LimitReader(file, 8193))] *)
Definition read_limited (f : file) : io disk string := tick;; mret (String.substring 0 (S marker_limit) (f_data f)).

Definition oversized (data : string) : bool := (marker_limit <? String.length data)%nat.

Definition checkMarkerAt {A : Type} `{Marker A} (k : dir * string) (expected : A) : io disk unit :=
  f ← openMarker k ReadOnly 0;
  data ← read_limited f;
  io_reject_if (oversized data || (data != canonical expected)) ErrIdentity.

Definition checkMarker {A : Type} `{Marker A} (name : string) (expected : A) : io disk unit :=
  checkMarkerAt (Control, name) expected.

Definition checkPlacementMarker (copyID : string) (expected : placement) : io disk unit :=
  checkMarkerAt (Placements, placementMarker copyID) expected.

(** [openControl("identity.lock")] and the blocking [Flock] on it. *)
Definition lock_identity : io disk unit := openControl "identity.lock" ReadWriteCreate 384;; tick.

Section markers.
Context `{NodeEnv}.

(** The temporary file of [ensureMarkerAt], written, synced and closed. *)
Definition write_temporary (k : dir * string) (data : string) : io disk unit :=
  w ← attempt (write_file k data;; fsync);
  c ← attempt close;
  io_lift (join [w; c]).

Definition ensureMarkerAt {A : Type} `{Marker A} (x : dir) (name : string) (value : A) : io disk unit :=
  lock_identity;;
  checked ← attempt (checkMarkerAt (x, name) value);
  match checked with
  | Ok _ => fsync
  | Err err =>
      io_reject_if (negb (error_is err ErrNotExist)) err;;
      temporary ← get (fun d => "pending-" +:+ NewUUID d);
      openMarker (x, temporary) CreateExclusive 384;;
      deferred
        (write_temporary (x, temporary) (canonical value);;
         renameat x temporary name;;
         fsync;;
         checkMarkerAt (x, name) value)
        (unlinkat (x, temporary))
  end.

Definition ensureMarker {A : Type} `{Marker A} (name : string) (value : A) : io disk unit := ensureMarkerAt Control name value.

Definition ensurePlacementMarker (copyID : string) (value : placement) : io disk unit :=
  ensureMarkerAt Placements (placementMarker copyID) value.
End markers.

Definition ignore_missing (r : result unit) : io disk unit :=
  match r with
  | Ok _ => mret tt
  | Err err => io_reject_if (negb (error_is err ENOENT)) err
  end.

Definition removeMarkerAt {A : Type} `{Marker A} (x : dir) (name : string) (expected : A) : io disk unit :=
  lock_identity;;
  checked ← attempt (checkMarkerAt (x, name) expected);
  match checked with
  | Err err => io_reject_if (negb (error_is err ErrNotExist)) err
  | Ok _ => removed ← attempt (unlinkat (x, name)); ignore_missing removed;; fsync
  end.

Definition removeCopyMetadata (identity : CopyIdentity) (device inode : N) : io disk unit :=
  removeMarkerAt Placements (placementMarker (CopyID identity))
    {| Placement.Identity := identity; Placement.Device := device; Placement.Inode := inode |};;
  removeMarkerAt Control (copyMarker (CopyID identity)) identity.

(** A marker of unknown content: it is decoded, and its bytes must be canonical. *)
Definition read_marker_at {A : Type} `{Marker A} (k : dir * string) : io disk A :=
  f ← openMarker k ReadOnly 0;
  read ← attempt (read_limited f);
  match read with
  | Err _ => io_fail ErrIdentity
  | Ok data =>
      io_reject_if (oversized data) ErrIdentity;;
      match decode_envelope data with
      | None => io_fail ErrIdentity
      | Some value => checkMarkerAt k value;; mret value
      end
  end.

Definition readMarker {A : Type} `{Marker A} (name : string) : io disk A := read_marker_at (Control, name).
Definition readPlacement (copyID : string) : io disk placement := read_marker_at (Placements, placementMarker copyID).

(** A temporary name: ^pending-[0-9a-f]{8}-[0-9a-f]{4}-4[0-9a-f]{3}-[89ab][0-9a-f]{3}-[0-9a-f]{12}$ *)
Fixpoint matches (pattern : list (Ascii.ascii -> bool)) (s : string) : bool :=
  match pattern, s with
  | [], EmptyString => true
  | p :: pattern, String c s => p c && matches pattern s
  | _, _ => false
  end.

Definition temporaryMarkerName (name : string) : bool :=
  let hex n := repeat is_lower_hex n in
  let dash := [ascii_eqb "-"%char] in
  matches (map ascii_eqb (String.list_ascii_of_string "pending-") ++ hex 8 ++ dash ++ hex 4 ++ dash ++ [ascii_eqb "4"%char] ++
           hex 3 ++ dash ++ [fun c => contains ["8"; "9"; "a"; "b"] (String c "")] ++ hex 3 ++ dash ++ hex 12) name.

Definition removeAbandonedPlacementMarker (name : string) : io disk unit :=
  opened ← attempt (openMarker (Placements, name) ReadOnly 0);
  match opened with
  | Err err => io_fail (Wrapf [ErrNeedsReview; err] "")
  | Ok f =>
      fstat;;
      io_reject_if (negb (f_perm f =? 384)%N || oversized (f_data f)) ErrNeedsReview;;
      unlinkat (Placements, name)
  end.

(** The loop of [removeAbandonedPlacementMarkers]; the result says whether an entry
    was removed. *)
Fixpoint remove_abandoned (names : list string) (changed : bool) : io disk (result unit * bool) :=
  match names with
  | [] => mret (Ok tt, changed)
  | name :: names =>
      cancelled ← attempt tick;
      match cancelled with
      | Err err => mret (Err err, changed)
      | Ok _ =>
          if negb (temporaryMarkerName name) then remove_abandoned names changed
          else
            removed ← attempt (removeAbandonedPlacementMarker name);
            match removed with
            | Err err => mret (Err err, changed)
            | Ok _ => remove_abandoned names true
            end
      end
  end.

Definition removeAbandonedPlacementMarkers `{NodeEnv} : io disk unit :=
  tick;;
  tick;;
  listed ← get (names Placements);
  '(outcome, changed) ← remove_abandoned listed false;
  if changed : bool then synced ← attempt fsync; io_lift (join [outcome; synced])
  else io_lift outcome.
