(* ===== verification/Publication.v ===== *)
(** * Publication on a node

    src/node/mount: bind mounts below the target root.
    src/node/publication: the publication of a copy under the storage lock of its Pool.
    src/csi/node: the CSI node service that drives both.

    A path below the target root is the list of its components.  The storage lock is
    taken by package ownership ([withLock]); here it is a call that may fail before the
    body runs. *)

From S2P Require Import Prelude Bytes Filepath VolumeIdentity Apimachinery Registration GoTime ApiServer VolumeState PoolApi NodeDisk OwnershipMarkers Oracle Provisioning CsiController.
From Stdlib Require Import Ascii.

(** ** Relative paths *)

(** Two paths without their common components. *)
Fixpoint strip_common (base target : list string) : list string * list string :=
  match base, target with
  | b :: base', t :: target' => if b == t then strip_common base' target' else (base, target)
  | _, _ => (base, target)
  end.

(** The components of [filepath.Rel(filepath.Clean(base), filepath.Clean(target))] for absolute
    paths, of which no error is possible. *)
Definition relative (base target : string) : list string :=
  let '(up, down) := strip_common (clean_components true base) (clean_components true target) in
  map (fun _ => "..") up ++ down.

Definition Rel (base target : string) : string :=
  match relative base target with [] => "." | components => join_slash components end.

(** ** Mounts (mount/bind.go, target_linux.go, identity_linux.go) *)

Definition ErrTargetVolumeMismatch : error := Errorf "target mount does not belong to the requested volume".

Definition ValidateTarget (root target : string) : result unit :=
  reject_if (negb (IsAbs root) || negb (IsAbs target)) (Errorf "target root and target path must be absolute");;
  let rel := Rel root target in
  reject_if ((rel == ".") || (rel == "..") || IsAbs rel || HasPrefix rel "../") (Errorf "target path %q is outside %q").

(** An entry of the mount table. *)
Module MountInfo.
Record MountInfo := { ID : Z; Major : Z; Minor : Z; Root : string; MountPoint : string }.
End MountInfo.
Notation MountInfo := MountInfo.MountInfo.

Inductive node_call : Type -> Type :=
(** the registries *)
| NodeGet (volumeID : string) : node_call (result State)
| BeginPublish (volumeID nodeName : string) (copy : CopyIdentity) : node_call (result unit)
| ReconcilePublished (volumeID nodeName : string) (copy : CopyIdentity) (published : bool) : node_call (result unit)
| NodePool (poolName uid nodeName : string) : node_call (result Pool)
| VerifyBacking (pool : Pool) : node_call (result unit)
(** the store of a Pool: its volume lock and the proof of a serving copy *)
| AcquireStore (root : string) (pool : PoolIdentity) (volumeID : string) (existingOnly : bool) : node_call (result unit)
| ReleaseStore (root : string) (volumeID : string) : node_call unit
| VerifyServing (root : string) (copy : CopyIdentity) : node_call (result unit)
(** the file system: whether a source is a directory and the same file as a target, the
    directories below the target root, and mounts *)
| StatSource (source : string) : node_call (result bool)
| SameFile (source target : string) : node_call (result bool)
| OpenTargetRoot (root : string) : node_call (result unit)
| MkdirTarget (root : string) (path : list string) : node_call (result unit)
| OpenTarget (root : string) (path : list string) : node_call (result unit)
| RemoveTarget (target : string) : node_call (result unit)
| IsMountPoint (target : string) : node_call (result bool)
| Mount (source target : string) : node_call (result unit)
| Unmount (target : string) : node_call (result unit)
| GetMountRefs (source : string) : node_call (result (list string))
| ParseMountInfo : node_call (result (list MountInfo))
(** the keyed mutex of the service *)
| LockPublication (volumeID : string) : node_call unit
| UnlockPublication (volumeID : string) : node_call unit.

Notation node_handler := (io (history node_call)).

(** [os.IsNotExist] *)
Definition os_IsNotExist (err : error) : bool := error_eqb err ErrNotExist || error_eqb err ENOENT.

(** [filepath.Base] and [filepath.Base(filepath.Dir(...))] of a cleaned absolute path. *)
Definition last_component (components : list string) : string := default "/" (last components).

Section mount.
Context {O : Oracle node_call}.

Definition wrapped {A : Type} (format : string) (c : node_handler A) : node_handler A :=
  r ← attempt c;
  match r with Ok a => mret a | Err err => io_fail (Wrapf [err] format) end.

(** The loop over the components; [path] is what has been opened. *)
Fixpoint secure_components (root : string) (path names : list string) (create : bool) : node_handler unit :=
  match names with
  | [] => mret tt
  | name :: names =>
      let path := path ++ [name] in
      (if create then
         got ← attempt (ask (MkdirTarget root path));
         match got with
         | Ok _ => mret tt
         | Err err => io_reject_if (negb (error_is err EEXIST)) (Wrapf [err] "create target component %q: %w")
         end
       else mret tt);;
      wrapped "open target component %q: %w" (ask (OpenTarget root path));;
      secure_components root path names create
  end.

Definition secureTargetPath (root target : string) (create : bool) : node_handler unit :=
  io_lift (ValidateTarget root target);;
  wrapped "open target root: %w" (ask (OpenTargetRoot root));;
  secure_components root [] (relative root target) create.

Fixpoint verify_mounts (mounts : list MountInfo) (target volumeID : string) : result unit :=
  match mounts with
  | [] => Err (Errorf "inspect target mount %q: mountinfo entry not found")
  | mount :: mounts =>
      if Clean (MountInfo.MountPoint mount) != target then verify_mounts mounts target volumeID
      else
        let components := clean_components true (MountInfo.Root mount) in
        if (last_component components == volumeID) && (last_component (removelast components) == "volumes") then Ok tt
        else Err (Wrapf [ErrTargetVolumeMismatch] "%w: mount root %q")
  end.

(** The last entry of the mount table for the target decides. *)
Definition verifyMountedVolume (target volumeID : string) : node_handler unit :=
  mounts ← wrapped "read mount identity: %w" (ask ParseMountInfo);
  io_lift (verify_mounts (rev mounts) (Clean target) volumeID).

Definition BinderPublish (targetRoot source target : string) : node_handler unit :=
  directory ← wrapped "stat source directory: %w" (ask (StatSource source));
  io_reject_if (negb directory) (Errorf "source path %q is not a directory");;
  wrapped "secure target directory: %w" (secureTargetPath targetRoot target true);;
  mounted ← wrapped "inspect target mount: %w" (ask (IsMountPoint target));
  if mounted : bool then
    same ← wrapped "stat mounted target: %w" (ask (SameFile source target));
    io_reject_if (negb same) (Errorf "target %q is already mounted from a different source")
  else wrapped "bind mount %q to %q: %w" (ask (Mount source target)).

Definition BinderUnpublish (targetRoot volumeID target : string) : node_handler unit :=
  io_lift (ValidateID volumeID);;
  secured ← attempt (secureTargetPath targetRoot target false);
  match secured with
  | Err err => if error_is err ErrNotExist then mret tt else io_fail (Wrapf [err] "secure target directory: %w")
  | Ok _ =>
      got ← attempt (ask (IsMountPoint target));
      match got with
      | Err err => if os_IsNotExist err then mret tt else io_fail (Wrapf [err] "inspect target mount: %w")
      | Ok mounted =>
          (if mounted : bool then
             verifyMountedVolume target volumeID;;
             wrapped "unmount target %q: %w" (ask (Unmount target))
           else mret tt);;
          got ← attempt (ask (RemoveTarget target));
          match got with
          | Err err => io_reject_if (negb (os_IsNotExist err)) (Wrapf [err] "remove target directory: %w")
          | Ok _ => mret tt
          end
      end
  end.

Definition HasPublishedTarget (source targetRoot : string) : node_handler bool :=
  refs ← wrapped "inspect source mount references: %w" (ask (GetMountRefs source));
  mret (existsb (fun ref => is_ok (ValidateTarget targetRoot ref)) refs).
End mount.

(** ** Publication (publication/publication.go) *)

Definition ErrIdentityUnavailable : error := Errorf "publication identity is no longer verifiable".
Definition ErrObservationRetry : error := Errorf "publication observation must be retried".

Definition CopyMatchesPool (copy : CopyIdentity) (pool : Pool) : bool :=
  (PoolName copy == Pool.Name pool) && (PoolUID copy == Pool.UID pool) && (NodeName copy == Pool.NodeName pool).

Definition poolIdentity (copy : CopyIdentity) : PoolIdentity :=
  {| PoolIdentity.InstallationID := InstallationID copy; PoolIdentity.PoolUID := PoolUID copy |}.

(** [csi/node.Service]: [Configured] is the condition of [validate] on the collaborators. *)
Module NodeService.
Record NodeService := { Configured : bool; NodeName : string; HostRoot : string; TargetRoot : string }.
End NodeService.
Notation NodeService := NodeService.NodeService.

(** A publication that has been validated, and the state that was read before the lock. *)
Module PublishRequest.
Record PublishRequest := { VolumeID : string; TargetPath : string; Source : string; PoolRoot : string; Copy : CopyIdentity }.
End PublishRequest.
Notation PublishRequest := PublishRequest.PublishRequest.

Module UnpublishRequest.
Record UnpublishRequest := { VolumeID : string; Source : string; PoolRoot : string; StateUID : string; Copy : CopyIdentity }.
End UnpublishRequest.
Notation UnpublishRequest := UnpublishRequest.UnpublishRequest.

Section publication.
Context {L : Libraries} {O : Oracle node_call} (s : NodeService).

Definition PoolIdentityUnavailable (err : error) : bool :=
  IsNotFound err || error_is err ErrPoolNotFound || error_is err ErrPoolIdentityChanged || error_is err ErrPoolConfiguration.

(** [Service.poolRoot] *)
Definition poolRoot (copy : CopyIdentity) : node_handler (Pool * string) :=
  io_reject_if (NodeName copy != NodeService.NodeName s) (Wrapf [ErrStateConflict] "copy node does not match this node: %w");;
  pool ← ask (NodePool (PoolName copy) (PoolUID copy) (NodeName copy));
  let mountPath := Clean (Pool.MountPath pool) in
  io_reject_if (negb (IsAbs mountPath) || (mountPath == "/")) (Errorf "pool mountPath %q must be an absolute non-root path");;
  let hostRoot := Clean (NodeService.HostRoot s) in
  io_reject_if (negb (IsAbs hostRoot)) (Errorf "host root %q must be absolute");;
  ask (VerifyBacking pool);;
  mret (pool, Join [hostRoot; TrimPrefix mountPath "/"]).

(** [ownership.WithLock] and [WithExistingLock]: whether the body was entered, and the result. *)
Definition withStore (root : string) (copy : CopyIdentity) (volumeID : string) (existingOnly : bool) (body : node_handler unit) :
    node_handler (bool * result unit) :=
  got ← attempt (ask (AcquireStore root (poolIdentity copy) volumeID existingOnly));
  match got with
  | Err err => mret (false, Err err)
  | Ok _ =>
      r ← attempt body;
      perform (ReleaseStore root volumeID);;
      mret (true, r)
  end.

(** [errors.Join] of two errors. *)
Definition joined (err err' : error) : error := Wrapf [err; err'] "".

Definition publish_body (req : PublishRequest) : node_handler unit :=
  let copy := PublishRequest.Copy req in
  let id := PublishRequest.VolumeID req in
  '(pool, root) ← wrapped "refresh node pool before publish: %w" (poolRoot copy);
  io_reject_if ((root != PublishRequest.PoolRoot req) || negb (CopyMatchesPool copy pool))
    (Wrapf [ErrStateConflict] "registered node pool changed before publish: %w");;
  got ← attempt (ask (NodeGet id));
  match got with
  | Err err => io_fail (Wrapf [joined err ErrObservationRetry] "read volume publish authority: %w")
  | Ok fresh =>
      io_reject_if ((State.CurrentCopy fresh != Some copy) || (State.Phase fresh != PhaseReady) ||
                    (State.OwnerNode fresh != NodeService.NodeName s))
        (Wrapf [ErrStateConflict] "volume publish authority changed: %w");;
      ask (VerifyServing (PublishRequest.PoolRoot req) copy);;
      ask (BeginPublish id (NodeService.NodeName s) copy);;
      published ← attempt (BinderPublish (NodeService.TargetRoot s) (PublishRequest.Source req) (PublishRequest.TargetPath req));
      match published with
      | Ok _ => mret tt
      | Err publishErr =>
          inspected ← attempt (HasPublishedTarget (PublishRequest.Source req) (NodeService.TargetRoot s));
          match inspected with
          | Err inspectErr => io_fail (joined publishErr inspectErr)
          | Ok stillPublished =>
              reconciled ← attempt (ask (ReconcilePublished id (NodeService.NodeName s) copy stillPublished));
              match reconciled with
              | Err reconcileErr => io_fail (joined publishErr reconcileErr)
              | Ok _ => io_fail publishErr
              end
          end
      end
  end.

Definition Publish (req : PublishRequest) : node_handler unit :=
  '(_, r) ← withStore (PublishRequest.PoolRoot req) (PublishRequest.Copy req) (PublishRequest.VolumeID req) false (publish_body req);
  io_lift r.

Definition unpublish_body (req : UnpublishRequest) : node_handler unit :=
  let copy := UnpublishRequest.Copy req in
  let id := UnpublishRequest.VolumeID req in
  resolved ← attempt (poolRoot copy);
  match resolved with
  | Err err => if PoolIdentityUnavailable err then io_fail ErrIdentityUnavailable
               else io_fail (Wrapf [ErrObservationRetry] "%w: refresh node pool after unpublish: %v")
  | Ok (pool, root) =>
      io_reject_if ((root != UnpublishRequest.PoolRoot req) || negb (CopyMatchesPool copy pool)) ErrIdentityUnavailable;;
      got ← attempt (ask (NodeGet id));
      match got with
      | Err err => io_fail (Wrapf [joined err ErrObservationRetry] "read volume unpublish authority: %w")
      | Ok fresh =>
          if some_and (State.CurrentCopy fresh) (fun current => (Role current == RoleServing) && (NodeName current != NodeService.NodeName s))
          then mret tt
          else
            io_reject_if ((State.UID fresh != UnpublishRequest.StateUID req) || (State.CurrentCopy fresh != Some copy) ||
                          (State.OwnerNode fresh != NodeService.NodeName s))
              (Wrapf [ErrStateConflict] "volume unpublish authority changed: %w");;
            stillPublished ← HasPublishedTarget (UnpublishRequest.Source req) (NodeService.TargetRoot s);
            ask (ReconcilePublished id (NodeService.NodeName s) copy stillPublished)
      end
  end.

(** Whether the lock was entered, and the result. *)
Definition Unpublish (req : UnpublishRequest) : node_handler (bool * result unit) :=
  let enter := fun existingOnly => withStore (UnpublishRequest.PoolRoot req) (UnpublishRequest.Copy req) (UnpublishRequest.VolumeID req)
                                     existingOnly (unpublish_body req) in
  '(enteredLock, r) ← enter true;
  match r with
  | Err err => if negb enteredLock && error_is err ErrNotExist then enter false else mret (enteredLock, r)
  | Ok _ => mret (enteredLock, r)
  end.

(** ** The node service (csi/node/service.go) *)

Definition EROFS : error := Errorf "read-only file system".

Definition publicationError (op : string) (err : error) (enteredLock : bool) : error :=
  if negb enteredLock then status_error Unavailable "reconcile publication after %s: %v"
  else if error_is err ErrObservationRetry || error_is err ErrBusy || error_is err ContextDeadlineExceeded || error_is err ContextCanceled ||
          IsConflict err || IsTimeout err || IsServerTimeout err || IsTooManyRequests err || IsServiceUnavailable err
  then status_error Unavailable "%s identified volume: %v"
  else if error_is err ErrStateConflict || error_is err OwnershipMarkers.ErrIdentity || error_is err ErrNeedsReview || error_is err EROFS
  then status_error FailedPrecondition "%s identified volume: %v"
  else status_error Internal "%s identified volume: %v".

Definition publication_locked {A : Type} (volumeID : string) (body : node_handler A) : node_handler A :=
  bracket (perform (LockPublication volumeID)) (perform (UnlockPublication volumeID)) body.

Definition node_validate : node_handler unit :=
  io_reject_if (negb (NodeService.Configured s) || (NodeService.NodeName s == "") || (NodeService.HostRoot s == "") ||
                (NodeService.TargetRoot s == "")) (status_error Internal "node service is not configured").

Definition coded_as {A : Type} (code : string) (c : node_handler A) : node_handler A :=
  r ← attempt c;
  match r with Ok a => mret a | Err _ => io_fail (status_error code "%v") end.

Definition validateNodeCapability (capability : option VolumeCapability) : result unit :=
  match capability with
  | None => Err (Errorf "only filesystem volumes are supported")
  | Some capability => validateCapability capability
  end.

Definition NodePublishVolume (volumeID target : string) (readonly : bool) (capability : option VolumeCapability) : node_handler unit :=
  node_validate;;
  io_reject_if ((volumeID == "") || (target == "")) (status_error InvalidArgument "volume ID and target path are required");;
  io_reject_if readonly (status_error InvalidArgument "read-only publish is not supported");;
  coded_as InvalidArgument (io_lift (validateNodeCapability capability));;
  coded_as InvalidArgument (io_lift (ValidateTarget (NodeService.TargetRoot s) target));;
  publication_locked volumeID (
    state ← coded_as Unavailable (ask (NodeGet volumeID));
    io_reject_if (State.Phase state != PhaseReady) (status_error FailedPrecondition "volume state is %q");;
    io_reject_if (State.OwnerNode state == "") (status_error FailedPrecondition "volume context has no owner node");;
    io_reject_if (State.OwnerNode state != NodeService.NodeName s) (status_error FailedPrecondition "volume is owned by node %q, not %q");;
    match State.CurrentCopy state with
    | None => io_fail (status_error FailedPrecondition "identified volume state is required for publish")
    | Some copy =>
        io_reject_if ((NodeName copy != NodeService.NodeName s) || (Role copy != RoleServing))
          (status_error FailedPrecondition "serving copy identity does not match this node");;
        resolved ← attempt (poolRoot copy);
        match resolved with
        | Err err => if error_is err ErrPoolIdentityChanged then io_fail (status_error FailedPrecondition "resolve node pool: %v")
                     else io_fail (status_error Unavailable "resolve node pool: %v")
        | Ok (pool, root) =>
            io_reject_if (negb (CopyMatchesPool copy pool))
              (status_error FailedPrecondition "serving copy identity does not match the registered node pool");;
            source ← coded_as InvalidArgument (io_lift (Path root volumeID));
            published ← attempt (Publish {| PublishRequest.VolumeID := volumeID; PublishRequest.TargetPath := target;
                                            PublishRequest.Source := source; PublishRequest.PoolRoot := root; PublishRequest.Copy := copy |});
            match published with
            | Ok _ => mret tt
            | Err err => io_fail (publicationError "publish" err true)
            end
        end
    end).

(** The copy whose publication this node still owns, if any. *)
Definition unpublishTarget (volumeID : string) : node_handler (option UnpublishRequest) :=
  got ← attempt (ask (NodeGet volumeID));
  match got with
  | Err err => if IsNotFound err then mret None else io_fail (status_error Unavailable "read volume state before unpublish: %v")
  | Ok state =>
      match State.CurrentCopy state with
      | None => io_fail (status_error FailedPrecondition "identified serving copy is required for unpublish")
      | Some copy =>
          io_reject_if (Role copy != RoleServing) (status_error FailedPrecondition "identified serving copy is required for unpublish");;
          if NodeName copy != NodeService.NodeName s then mret None
          else
            resolved ← attempt (poolRoot copy);
            match resolved with
            | Err err => if PoolIdentityUnavailable err then mret None
                         else io_fail (status_error Unavailable "resolve node pool after unpublish: %v")
            | Ok (pool, root) =>
                if negb (CopyMatchesPool copy pool) then mret None
                else
                  source ← coded_as InvalidArgument (io_lift (Path root volumeID));
                  mret (Some {| UnpublishRequest.VolumeID := volumeID; UnpublishRequest.Source := source; UnpublishRequest.PoolRoot := root;
                                UnpublishRequest.StateUID := State.UID state; UnpublishRequest.Copy := copy |})
            end
      end
  end.

Definition NodeUnpublishVolume (volumeID target : string) : node_handler unit :=
  node_validate;;
  io_reject_if ((volumeID == "") || (target == "")) (status_error InvalidArgument "volume ID and target path are required");;
  coded_as InvalidArgument (io_lift (ValidateID volumeID));;
  coded_as InvalidArgument (io_lift (ValidateTarget (NodeService.TargetRoot s) target));;
  publication_locked volumeID (
    unmounted ← attempt (BinderUnpublish (NodeService.TargetRoot s) volumeID target);
    match unmounted with
    | Err err => io_fail (status_error (if error_is err ErrTargetVolumeMismatch then FailedPrecondition else Internal) "unmount target: %v")
    | Ok _ =>
        found ← unpublishTarget volumeID;
        match found with
        | None => mret tt
        | Some req =>
            '(enteredLock, r) ← Unpublish req;
            match r with
            | Ok _ => mret tt
            | Err err =>
                if error_is err ErrIdentityUnavailable || (negb enteredLock && (error_is err OwnershipMarkers.ErrIdentity || error_is err ErrNeedsReview))
                then mret tt
                else io_fail (publicationError "unpublish" err enteredLock)
            end
        end
    end).
End publication.
