(* ===== verification/PublicationSafety.v ===== *)
(** * Publication on a node: safety

    Targets are confined to the target root, a copy is bound only while it is the serving
    copy of a Ready volume of this node, and the record that a volume is published is
    cleared only when no target of it remains. *)

From S2P Require Import Prelude Bytes Filepath VolumeIdentity Apimachinery Registration GoTime ApiServer VolumeState VolumeProtocol PoolApi NodeDisk OwnershipMarkers Oracle Provisioning CsiController CsiSample Publication.
From Stdlib Require Import Ascii.

(** ** Targets *)

Lemma strip_common_spec base target up down :
  strip_common base target = (up, down) -> exists common, base = common ++ up /\ target = common ++ down /\
    (up = [] \/ down = [] \/ head up <> head down).
Proof.
  revert target. induction base as [|b base IH]; intros target; cbn [strip_common].
  { intros [= <- <-]. exists []. split_and!; [done|done|by left]. }
  destruct target as [|t target]; [intros [= <- <-]; exists []; split_and!; [done|done|by right; left]|].
  destruct (bool_decide_reflect (b = t)) as [->|Hne].
  - intros (common & -> & -> & H)%IH. by exists (t :: common).
  - intros [= <- <-]. exists []. split_and!; [done|done|]. right. right. intros [= ?]. done.
Qed.

Lemma strip_common_app base rest : strip_common base (base ++ rest) = ([], rest).
Proof. induction base as [|b base IH]; cbn [strip_common app]; [by destruct rest|]. by rewrite bool_decide_true. Qed.

(** A relative path whose first component is canonical stays in its directory. *)
Lemma canonical_stays c rest :
  Filepath.canonical c -> let path := join_slash (c :: rest) in
  path <> "." /\ path <> ".." /\ IsAbs path = false /\ HasPrefix path "../" = false.
Proof.
  intros [[Hne Hfree] [Hdot Hdots]]. cbv zeta.
  assert (exists tail, join_slash (c :: rest) = c +:+ tail /\ (tail = "" \/ exists t, tail = "/" +:+ t)) as (tail & -> & Htail).
  { destruct rest as [|r rest]; [exists ""; split; [by rewrite append_empty_r|by left]|]. exists ("/" +:+ join_slash (r :: rest)). split; [done|right; by eexists]. }
  destruct c as [|a c]; [done|]. unfold slash_free in Hfree. cbn [string_forallb] in Hfree. apply andb_prop in Hfree as [Ha Hfree].
  assert (Ha' : a <> slash) by (intros ->; discriminate Ha). clear Ha Hne. unfold IsAbs, HasPrefix, slash in *.
  change (String a c +:+ tail) with (String a (c +:+ tail)). split_and!.
  - intros [= -> Hc]. destruct c as [|b c]; [done|discriminate Hc].
  - intros [= -> Hc]. destruct c as [|b c].
    + change ("" +:+ tail) with tail in Hc. subst tail. destruct Htail as [[=]|[t [= <- _]]].
    + injection Hc as -> Hc. destruct c; [done|discriminate Hc].
  - cbn [String.prefix]. destruct (ascii_dec _ a) as [<-|]; [by destruct Ha'|done].
  - cbn [String.prefix]. destruct (ascii_dec _ a) as [<-|]; [|done]. destruct c as [|b c].
    + change ("" +:+ tail) with tail. destruct Htail as [->|[t ->]]; [done|]. change ("/" +:+ t) with (String "/" t). done.
    + cbn [string_forallb] in Hfree. apply andb_prop in Hfree as [_ Hfree]. change (String b c +:+ tail) with (String b (c +:+ tail)). cbn [String.prefix].
      destruct (ascii_dec _ b) as [<-|]; [|done]. destruct c as [|d c]; [done|]. change (String d c +:+ tail) with (String d (c +:+ tail)). cbn [String.prefix].
      destruct (ascii_dec _ d) as [<-|]; [|done]. discriminate Hfree.
Qed.

(** The path below the root of a target. *)
Definition below (root target : string) (rest : list string) : Prop :=
  IsAbs root = true /\ IsAbs target = true /\ rest <> [] /\ clean_components true target = clean_components true root ++ rest.

Lemma ValidateTarget_below (root target : string) : ValidateTarget root target = Ok tt <-> exists rest, below root target rest.
Proof.
  unfold ValidateTarget, below. rewrite check_Ok, !reject_if_Ok, orb_false_iff, !negb_false_iff. unfold Rel, relative.
  destruct (strip_common _ _) as [up down] eqn:Hstrip. pose proof (clean_components_canonical target) as Hcanonical.
  apply strip_common_spec in Hstrip as (common & Hroot & Htarget & Hdiff). split.
  - intros [[Hr Ht] Hrel]. exists down. rewrite Hroot, Htarget. destruct up as [|u up].
    + rewrite app_nil_r. split_and!; [done|done| |done]. intros ->. discriminate Hrel.
    + exfalso. cbn [map app] in Hrel. destruct (map (fun _ => "..") up ++ down) as [|c rest]; [discriminate Hrel|].
      rewrite !orb_false_iff in Hrel. destruct Hrel as [_ Hrel]. 
      change (HasPrefix (String "." (String "." (String "/" (join_slash (c :: rest))))) "../" = false) in Hrel. unfold HasPrefix in Hrel.
      cbn [String.prefix] in Hrel. by destruct (join_slash (c :: rest)).
  - intros (rest & Hr & Ht & Hne & Heq). split; [done|]. rewrite Hroot, Htarget, <- (assoc (++)) in Heq. apply app_inv_head in Heq.
    assert (up = [] /\ down = rest) as [-> ->].
    { destruct up as [|u up]; [done|]. exfalso. destruct Hdiff as [|[->|Hd]]; [done|discriminate Heq|]. by rewrite Heq in Hd. }
    cbn [map app]. rewrite Htarget, Forall_app in Hcanonical. destruct Hcanonical as [_ Hcanonical]. destruct rest as [|c rest]; [done|].
    apply Forall_cons in Hcanonical as [Hc _]. destruct (canonical_stays c rest Hc) as (H1 & H2 & H3 & H4).
    rewrite (bool_decide_false _ H1), (bool_decide_false _ H2), H3, H4. done.
Qed.

(** C37: a target is accepted exactly when it is strictly below the target root after both paths are cleaned, component by component,
    whatever dots, double slashes or parent references they contain. *)
Theorem target_confined (root target : string) :
  ValidateTarget root target = Ok tt <-> exists rest, below root target rest.
Proof. apply ValidateTarget_below. Qed.

(** ** Rules *)

Section node_rules.
Context {O : Oracle node_call}.

Lemma runs_wrapped P {A : Type} format (c : node_handler A) h (Q : result A -> history node_call -> Prop) :
  runs P c h (fun r h' => Q match r with Ok a => Ok a | Err err => Err (Wrapf [err] format) end h') -> runs P (wrapped format c) h Q.
Proof.
  intros Hc. apply runs_bind, runs_attempt. eapply runs_mono; [exact Hc|done|]. intros [a|err] l HQ; [by apply runs_ret|by apply runs_fail].
Qed.

Lemma runs_coded_as P {A : Type} code (c : node_handler A) h (Q : result A -> history node_call -> Prop) :
  runs P c h (fun r h' => Q match r with Ok a => Ok a | Err _ => Err (status_error code "%v") end h') -> runs P (coded_as code c) h Q.
Proof.
  intros Hc. apply runs_bind, runs_attempt. eapply runs_mono; [exact Hc|done|]. intros [a|err] l HQ; [by apply runs_ret|by apply runs_fail].
Qed.
End node_rules.

Ltac node_branch :=
  match goal with
  | |- runs _ (_ ≫= _) _ _ => apply runs_bind
  | |- runs _ (mret _) _ _ => apply runs_ret
  | |- runs _ (io_fail _) _ _ => apply runs_fail
  | |- runs _ (io_lift _) _ _ => apply runs_lift
  | |- runs _ (attempt _) _ _ => apply runs_attempt
  | |- runs _ (wrapped _ _) _ _ => apply runs_wrapped
  | |- runs _ (coded_as _ _) _ _ => apply runs_coded_as
  | |- runs _ (io_reject_if ?b _) _ _ => apply runs_reject; intros ?
  | |- runs _ (let _ := _ in _) _ _ => cbv zeta
  | |- forall _, _ => intros ?
  end.
Ltac node_run := repeat (node_branch; cbv beta iota).

(** ** The storage lock *)

(** A call that neither takes nor gives back a storage lock. *)
Definition calm (e : event node_call) : bool :=
  match e with Event c _ => match c with AcquireStore _ _ _ _ | ReleaseStore _ _ => false | _ => true end end.

(** The storage lock of the volume is held in the Pool of the copy, and [facts] holds of the calls made since. *)
Definition under_lock (root : string) (copy : CopyIdentity) (id : string) (facts : history node_call -> Prop) (h : history node_call) : Prop :=
  exists existingOnly section older, h = section ++ Event (AcquireStore root (poolIdentity copy) id existingOnly) (Ok tt) :: older /\
    Forall (fun e => calm e = true) section /\ facts section.

Lemma under_lock_call root copy id (facts facts' : history node_call -> Prop) e h :
  calm e = true -> (forall section, facts section -> facts' (e :: section)) -> under_lock root copy id facts h -> under_lock root copy id facts' (e :: h).
Proof. intros He Hf (existing & section & older & -> & Hc & Hs). exists existing, (e :: section), older. split_and!; [done|by constructor|by apply Hf]. Qed.

Lemma under_lock_keep root copy id (facts : history node_call -> Prop) `{!Persistent facts} l h :
  Forall (fun e => calm e = true) l -> under_lock root copy id facts h -> under_lock root copy id facts (l ++ h).
Proof. induction 1; [done|]. intros H'. simpl. eapply under_lock_call; [done|intros section; by apply persistent|by apply IHForall]. Qed.

Section safety.
Context {L : Libraries} {O : Oracle node_call} (s : NodeService).
#[local] Notation node := (NodeService.NodeName s).
#[local] Notation target_root := (NodeService.TargetRoot s).

(** Since the lock, the copy was read as the current copy of the volume on this node, in its registered Pool. *)
Definition owned (id : string) (copy : CopyIdentity) (ready : bool) (l : history node_call) : Prop :=
  exists pool fresh, Event (NodePool (PoolName copy) (PoolUID copy) (NodeName copy)) (Ok pool) ∈ l /\ CopyMatchesPool copy pool = true /\
    Event (NodeGet id) (Ok fresh) ∈ l /\ State.CurrentCopy fresh = Some copy /\ State.OwnerNode fresh = node /\ NodeName copy = node /\
    (ready = true -> State.Phase fresh = PhaseReady).

Definition announced (id : string) (copy : CopyIdentity) (root : string) (l : history node_call) : Prop :=
  owned id copy true l /\ Event (VerifyServing root copy) (Ok tt) ∈ l /\ Event (BeginPublish id node copy) (Ok tt) ∈ l.

(** Whether a target of the source remains, as its mount references were read. *)
Definition remains (source : string) (published : bool) (l : history node_call) : Prop :=
  exists refs, Event (GetMountRefs source) (Ok refs) ∈ l /\ published = existsb (fun ref => is_ok (ValidateTarget target_root ref)) refs.

#[export] Instance owned_persistent id copy ready : Persistent (owned id copy ready).
Proof. intros e h (pool & fresh & H1 & H2 & H3 & H). exists pool, fresh. split_and!; [by right|done|by right|naive_solver..]. Qed.

#[export] Instance announced_persistent id copy root : Persistent (announced id copy root).
Proof. intros e h (H1 & H2 & H3). split_and!; [by apply persistent|by right|by right]. Qed.

(** What a call of a publication requires of the calls before it. *)
Definition publish_call (id target : string) (h : history node_call) (e : event node_call) : Prop :=
  match e with
  | Event c _ =>
      match c with
      | BeginPublish volumeID nodeName copy =>
          volumeID = id /\ nodeName = node /\ exists root,
            under_lock root copy id (fun l => owned id copy true l /\ Event (VerifyServing root copy) (Ok tt) ∈ l) h
      | Mount source t =>
          t = target /\ exists rest root copy, below target_root target rest /\ Path root id = Ok source /\ under_lock root copy id (announced id copy root) h
      | ReconcilePublished volumeID nodeName copy published =>
          volumeID = id /\ nodeName = node /\ exists root source, Path root id = Ok source /\
            under_lock root copy id (fun l => announced id copy root l /\ remains source published l) h
      | MkdirTarget root path => root = target_root /\ exists rest, below target_root target rest /\ path `prefix_of` rest
      | Unmount _ | RemoveTarget _ => False
      | _ => True
      end
  end.

Lemma relative_below root target : ValidateTarget root target = Ok tt -> below root target (relative root target).
Proof.
  intros (rest & Hr & Ht & Hne & Heq)%ValidateTarget_below. unfold relative. rewrite Heq, strip_common_app. done.
Qed.

(** A part of a run that keeps the storage lock. *)
Lemma runs_calm P {A : Type} (c : node_handler A) h (R Q : result A -> history node_call -> Prop) :
  runs (fun h e => P h e /\ calm e = true) c h R -> (forall r l, Forall (fun e => calm e = true) l -> R r (l ++ h) -> Q r (l ++ h)) -> runs P c h Q.
Proof.
  intros (l & Hl & Ht & HR) HQ. exists l. rewrite Hl in *. split_and!; [done|..].
  - eapply calls_mono; [|exact Ht]. by intros h' e [].
  - apply HQ; [|done]. clear Hl HR. induction l; simpl in Ht; constructor; naive_solver.
Qed.

Lemma secure_components_spec id target root path names rest h :
  root = target_root -> below target_root target rest -> path ++ names = rest ->
  runs (fun h e => publish_call id target h e /\ calm e = true) (secure_components root path names true) h (fun _ _ => True).
Proof.
  intros Hroot Hbelow. revert path h. induction names as [|name names IH]; intros path h Hrest; cbn [secure_components]; [by node_run|].
  assert (Hnext : (path ++ [name]) ++ names = rest) by by rewrite <- (assoc (++)).
  node_run. apply runs_ask.
  { intros a. split; [|done]. split; [done|]. exists rest. split; [done|]. exists names. by rewrite Hnext. }
  intros [[]|err]; node_run.
  - apply runs_ask; [done|]. intros [[]|err]; [by apply IH|done].
  - done.
  - apply runs_ask; [done|]. intros [[]|err']; [by apply IH|done].
Qed.

Lemma secureTargetPath_spec id target h :
  runs (fun h e => publish_call id target h e /\ calm e = true) (secureTargetPath target_root target true) h
    (fun r _ => r = Ok tt -> exists rest, below target_root target rest).
Proof.
  unfold secureTargetPath. node_run. destruct (ValidateTarget target_root target) as [[]|] eqn:Hv; [|done]. node_run.
  apply runs_ask; [done|]. intros [[]|err]; [|done]. apply relative_below in Hv.
  eapply runs_mono; [by eapply (secure_components_spec id target _ [] _ _ _ eq_refl Hv)|done|]. intros r l _ _. by eexists.
Qed.

Lemma BinderPublish_spec id target root copy source h :
  Path root id = Ok source -> under_lock root copy id (announced id copy root) h ->
  runs (fun h e => publish_call id target h e /\ calm e = true) (BinderPublish target_root source target) h (fun _ _ => True).
Proof.
  intros Hsource Hlock. unfold BinderPublish. node_run. apply runs_ask; [done|]. intros [directory|err]; [|done].
  apply (under_lock_keep _ _ _ _ [Event (StatSource source) (Ok directory)]) in Hlock; [|by repeat constructor]. cbn [app] in Hlock. node_run; [done|].
  eapply (runs_calm _ _ _ (fun r _ => r = Ok tt -> exists rest, below target_root target rest)).
  { eapply runs_mono; [apply (secureTargetPath_spec id)|by intros h' e []|done]. }
  intros [[]|err] l Hl Hbelow; [|done]. destruct (Hbelow eq_refl) as [rest Hrest]. apply (under_lock_keep _ _ _ _ l) in Hlock; [|done].
  node_run. apply runs_ask; [done|]. intros [mounted|err]; [|done]. destruct mounted.
  - node_run. apply runs_ask; [done|]. intros [same|err]; by node_run.
  - node_run. apply runs_ask; [|done]. intros a. split; [|done]. split; [done|]. exists rest, root, copy. split_and!; [done|done|].
    eapply under_lock_call; [done| |exact Hlock]. intros section. apply persistent.
Qed.

(** Calls that a handler makes only to observe. *)
Definition observes (e : event node_call) : bool :=
  match e with
  | Event c _ =>
      match c with
      | NodeGet _ | NodePool _ _ _ | VerifyBacking _ | VerifyServing _ _ | StatSource _ | SameFile _ _ | OpenTargetRoot _ | OpenTarget _ _
      | IsMountPoint _ | GetMountRefs _ | ParseMountInfo => true
      | _ => false
      end
  end.

Lemma observes_calm e : observes e = true -> calm e = true.
Proof. destruct e as [A c a]. by destruct c. Qed.

Lemma observes_publish id target h e : observes e = true -> publish_call id target h e.
Proof. destruct e as [A c a]. by destruct c. Qed.

(** A part of a run that only observes. *)
Lemma runs_observes P {A : Type} (c : node_handler A) h (R Q : result A -> history node_call -> Prop) :
  runs (fun _ e => observes e = true) c h R -> (forall h e, observes e = true -> P h e) ->
  (forall r l, Forall (fun e => calm e = true) l -> R r (l ++ h) -> Q r (l ++ h)) -> runs P c h Q.
Proof.
  intros Hc HP HQ. eapply runs_calm; [|exact HQ]. eapply runs_mono; [exact Hc| |done]. intros h' e He. split; [by apply HP|by apply observes_calm].
Qed.

Lemma poolRoot_spec copy h :
  runs (fun _ e => observes e = true) (poolRoot s copy) h (fun r h' =>
    match r with
    | Ok (pool, _) => NodeName copy = node /\ h' = Event (VerifyBacking pool) (Ok tt) :: Event (NodePool (PoolName copy) (PoolUID copy) (NodeName copy)) (Ok pool) :: h
    | Err _ => True
    end).
Proof.
  unfold poolRoot. node_run; [done|]. go_inv. apply runs_ask; [done|]. intros [pool|err]; [|done]. node_run; [done|done|].
  apply runs_ask; [done|]. intros [[]|err]; [|done]. by node_run.
Qed.

Lemma publish_body_spec req h :
  let id := PublishRequest.VolumeID req in let copy := PublishRequest.Copy req in let root := PublishRequest.PoolRoot req in
  Path root id = Ok (PublishRequest.Source req) -> under_lock root copy id (fun _ => True) h ->
  runs (fun h e => publish_call id (PublishRequest.TargetPath req) h e /\ calm e = true) (publish_body s req) h (fun _ _ => True).
Proof.
  intros id copy root Hsource Hlock. unfold publish_body. cbv zeta. fold id copy root. node_run.
  assert (Hobs : forall h e, observes e = true -> publish_call id (PublishRequest.TargetPath req) h e /\ calm e = true).
  { intros h' e He. split; [by apply observes_publish|by apply observes_calm]. }
  eapply runs_observes; [apply (poolRoot_spec copy)|exact Hobs|]. intros [[pool fresh_root]|err] l Hl Hpool; [|done]. destruct Hpool as [Hnode Hh].
  apply (app_inv_tail _ _ [_; _]) in Hh as ->. clear Hl. cbn [app]. node_run; [done|]. apply orb_false_iff in H as [_ Hmatch]. apply negb_false_iff in Hmatch.
  apply runs_ask; [done|]. intros [fresh|err]; [|by node_run]. node_run; [done|].
  match goal with H : _ || _ || _ = false |- _ => rewrite !orb_false_iff, !negb_false_iff, !bool_decide_eq_true in H; destruct H as [[Hcopy Hphase] Howner] end.
  set (h1 := Event (NodeGet id) (Ok fresh) :: _).
  assert (Hlock1 : under_lock root copy id (owned id copy true) h1).
  { apply (under_lock_call _ _ _ (fun l => Event (NodePool (PoolName copy) (PoolUID copy) (NodeName copy)) (Ok pool) ∈ l)); [done|..].
    - intros section Hin. exists pool, fresh. split_and!; [by right|done|by left|done..].
    - eapply under_lock_call; [done| |]. { intros section Hin. right. exact Hin. }
      eapply (under_lock_call _ _ _ (fun _ => True)); [done| |exact Hlock]. intros section _. by left. }
  clearbody h1. apply runs_ask; [done|]. intros [[]|err]; [|done]. node_run. set (h2 := Event (VerifyServing _ _) _ :: h1).
  assert (Hlock2 : under_lock root copy id (fun l => owned id copy true l /\ Event (VerifyServing root copy) (Ok tt) ∈ l) h2).
  { eapply under_lock_call; [done| |exact Hlock1]. intros section Ho. split; [by apply persistent|by left]. }
  clearbody h2. apply runs_ask; [intros a; split; [|done]; split_and!; [done|done|]; by exists root|]. intros [[]|err]; [|done]. node_run.
  set (h3 := Event (BeginPublish _ _ _) _ :: h2). assert (Hlock3 : under_lock root copy id (announced id copy root) h3).
  { eapply under_lock_call; [done| |exact Hlock2]. intros section [Ho Hv]. split_and!; [by apply persistent|by right|by left]. }
  clearbody h3. eapply runs_calm.
  { eapply runs_mono; [by apply (BinderPublish_spec id (PublishRequest.TargetPath req) root copy)|by intros h' e []|done]. }
  intros [[]|publishErr] l Hl _; [by node_run|]. apply (under_lock_keep _ _ _ _ l) in Hlock3; [|done]. unfold HasPublishedTarget. node_run.
  apply runs_ask; [done|]. intros [refs|err]; [|by node_run]. node_run. apply runs_ask; [|by intros [[]|]; node_run].
  intros a. split; [|done]. split_and!; [done|done|]. exists root, (PublishRequest.Source req). split; [done|].
  eapply under_lock_call; [done| |exact Hlock3]. intros section Ha. split; [by apply persistent|]. exists refs. split; [by left|done].
Qed.

Lemma NodePublishVolume_spec id target readonly capability h :
  runs (publish_call id target) (NodePublishVolume s id target readonly capability) h (fun _ _ => True).
Proof.
  unfold NodePublishVolume, node_validate. node_run; [done|done|done|]. destruct (validateNodeCapability capability); [|done]. node_run.
  destruct (ValidateTarget _ _); [|done]. apply runs_bracket; [done|done|]. node_run. apply runs_ask; [done|]. intros [state|err]; [|done].
  node_run; [done|done|done|]. destruct (State.CurrentCopy state) as [copy|]; [|by node_run]. node_run; [done|].
  eapply runs_observes; [apply (poolRoot_spec copy)|apply observes_publish|]. intros [[pool root]|err] l Hl _; [|destruct (error_is _ _); by node_run].
  node_run; [done|]. destruct (Path root id) as [source|] eqn:Hsource; [|done]. unfold Publish, withStore. node_run.
  apply runs_ask; [done|]. intros [[]|err]; node_run; [|done].
  eapply runs_mono; [apply (publish_body_spec {| PublishRequest.VolumeID := id; PublishRequest.TargetPath := target; PublishRequest.Source := source;
    PublishRequest.PoolRoot := root; PublishRequest.Copy := copy |} _ Hsource)|by intros h' e []|].
  { eexists false, [], _. split_and!; [reflexivity|constructor|done]. }
  intros r l' _. node_run. apply runs_perform; [done|]. intros []. node_run. by destruct r; node_run.
Qed.

(** *** Unpublication *)

(** What a call of an unpublication requires of the calls before it. *)
Definition unpublish_call (id target : string) (h : history node_call) (e : event node_call) : Prop :=
  match e with
  | Event c _ =>
      match c with
      | ReconcilePublished volumeID nodeName copy published =>
          volumeID = id /\ nodeName = node /\ exists root source, Path root id = Ok source /\
            under_lock root copy id (fun l => owned id copy false l /\ remains source published l) h
      | Unmount t => t = target /\ exists mounts, Event ParseMountInfo (Ok mounts) ∈ h /\ verify_mounts (rev mounts) (Clean target) id = Ok tt
      | RemoveTarget t => t = target /\ (Event (IsMountPoint target) (Ok false) ∈ h \/ Event (Unmount target) (Ok tt) ∈ h)
      | BeginPublish _ _ _ | Mount _ _ | MkdirTarget _ _ => False
      | _ => True
      end
  end.

Lemma observes_unpublish id target h e : observes e = true -> unpublish_call id target h e.
Proof. destruct e as [A c a]. by destruct c. Qed.

(** The target was unmounted, or observed to be absent or no mount. *)
Definition unmounted (target : string) (h : history node_call) : Prop :=
  Event (Unmount target) (Ok tt) ∈ h \/ Event (IsMountPoint target) (Ok false) ∈ h \/
  (exists err, Event (IsMountPoint target) (Err err) ∈ h /\ os_IsNotExist err = true) \/
  (exists err, error_is err ErrNotExist = true /\
     (Event (OpenTargetRoot target_root) (Err err) ∈ h \/ exists path, Event (OpenTarget target_root path) (Err err) ∈ h)).

#[export] Instance unmounted_persistent target : Persistent (unmounted target).
Proof.
  intros e h [H|[H|[(err & H & He)|(err & He & H)]]]; [left; by right|right; left; by right|right; right; left|right; right; right].
  - exists err. split; [by right|done].
  - exists err. split; [done|]. destruct H as [H|[path H]]; [left; by right|right; exists path; by right].
Qed.

(** An error while the target is opened, if it says that something does not exist, is about the target. *)
Lemma secure_components_missing path names h :
  runs (fun _ e => observes e = true) (secure_components target_root path names false) h (fun r h' =>
    match r with
    | Err err => error_is err ErrNotExist = true -> exists path err', error_is err' ErrNotExist = true /\ Event (OpenTarget target_root path) (Err err') ∈ h'
    | Ok _ => True
    end).
Proof.
  revert path h. induction names as [|name names IH]; intros path h; cbn [secure_components]; [by node_run|]. node_run.
  apply runs_ask; [done|]. intros [[]|err]; [apply IH|]. cbn. rewrite orb_false_r. intros Herr. exists (path ++ [name]), err. split; [done|by left].
Qed.

Lemma secureTargetPath_missing target h :
  runs (fun _ e => observes e = true) (secureTargetPath target_root target false) h (fun r h' =>
    match r with Err err => error_is err ErrNotExist = true -> unmounted target h' | Ok _ => True end).
Proof.
  unfold secureTargetPath. node_run. destruct (ValidateTarget target_root target) as [[]|err] eqn:Hv.
  2:{ unfold ValidateTarget in Hv. apply bind_Err in Hv as [Hv|([] & _ & Hv)]; apply reject_if_Err in Hv as [_ <-]; done. }
  node_run. apply runs_ask; [done|]. intros [[]|err].
  - eapply runs_mono; [apply secure_components_missing|done|]. intros [[]|err] l H; [done|]. intros He. destruct (H He) as (path & err' & Hn & Hin).
    right. right. right. exists err'. split; [done|right; by exists path].
  - cbn. rewrite orb_false_r. intros He. right. right. right. exists err. split; [done|left; by left].
Qed.

Lemma BinderUnpublish_spec id target h :
  runs (fun h e => unpublish_call id target h e /\ calm e = true) (BinderUnpublish target_root id target) h (fun r h' => r = Ok tt -> unmounted target h').
Proof.
  assert (Hobs : forall h e, observes e = true -> unpublish_call id target h e /\ calm e = true).
  { intros h' e He. split; [by apply observes_unpublish|by apply observes_calm]. }
  unfold BinderUnpublish. node_run. destruct (ValidateID id); [|done]. node_run.
  eapply runs_observes; [apply secureTargetPath_missing|exact Hobs|]. intros [[]|err] l _ Hmissing.
  2:{ destruct (error_is err ErrNotExist) eqn:He; node_run; [by apply Hmissing|done]. }
  node_run. apply runs_ask; [done|]. intros [mounted|err].
  2:{ destruct (os_IsNotExist err) eqn:He; node_run; [|done]. right. right. left. exists err. split; [by left|done]. }
  set (h1 := Event (IsMountPoint target) _ :: _).
  assert (Hremove : forall h2, (Event (IsMountPoint target) (Ok false) ∈ h2 \/ Event (Unmount target) (Ok tt) ∈ h2) ->
    runs (fun h e => unpublish_call id target h e /\ calm e = true) (ask (RemoveTarget target)) h2 (fun got h' =>
      runs (fun h e => unpublish_call id target h e /\ calm e = true)
        match got with
        | Err err => io_reject_if (negb (os_IsNotExist err)) (Wrapf [err] "remove target directory: %w")
        | Ok _ => mret tt
        end h' (fun r h' => r = Ok tt -> unmounted target h'))).
  { intros h2 Hgone. assert (Hu : unmounted target h2) by (destruct Hgone; [right; by left|by left]). node_run.
    apply runs_ask; [intros a; split; [by split|done]|]. intros [[]|err]; node_run; [by apply persistent|done|by apply persistent]. }
  destruct mounted; [|node_run; apply Hremove; left; by left]. unfold verifyMountedVolume. node_run. apply runs_ask; [done|].
  intros [mounts|err]; [|done]. node_run. destruct (verify_mounts _ _ _) as [[]|] eqn:Hverify; [|done]. node_run.
  apply runs_ask; [intros a; split; [|done]; split; [done|]; exists mounts; split; [by left|done]|].
  intros [[]|err]; [|done]. node_run. apply Hremove. right. by left.
Qed.

Lemma unpublish_body_spec req target h :
  let id := UnpublishRequest.VolumeID req in let copy := UnpublishRequest.Copy req in let root := UnpublishRequest.PoolRoot req in
  Path root id = Ok (UnpublishRequest.Source req) -> under_lock root copy id (fun _ => True) h ->
  runs (fun h e => unpublish_call id target h e /\ calm e = true) (unpublish_body s req) h (fun _ _ => True).
Proof.
  intros id copy root Hsource Hlock. unfold unpublish_body. cbv zeta. fold id copy root. node_run.
  assert (Hobs : forall h e, observes e = true -> unpublish_call id target h e /\ calm e = true).
  { intros h' e He. split; [by apply observes_unpublish|by apply observes_calm]. }
  eapply runs_observes; [apply (poolRoot_spec copy)|exact Hobs|].
  intros [[pool fresh_root]|err] l Hl Hpool; [|destruct (PoolIdentityUnavailable err); by node_run]. destruct Hpool as [Hnode Hh].
  apply (app_inv_tail _ _ [_; _]) in Hh as ->. clear Hl. cbn [app]. node_run; [done|].
  match goal with H : _ || _ = false |- _ => apply orb_false_iff in H as [_ Hmatch] end. apply negb_false_iff in Hmatch.
  apply runs_ask; [done|]. intros [fresh|err]; [|by node_run]. destruct (some_and _ _); [by node_run|]. node_run; [done|].
  match goal with H : _ || _ || _ = false |- _ => rewrite !orb_false_iff, !negb_false_iff, !bool_decide_eq_true in H; destruct H as [[_ Hcopy] Howner] end.
  set (h1 := Event (NodeGet id) (Ok fresh) :: _).
  assert (Hlock1 : under_lock root copy id (owned id copy false) h1).
  { apply (under_lock_call _ _ _ (fun l => Event (NodePool (PoolName copy) (PoolUID copy) (NodeName copy)) (Ok pool) ∈ l)); [done|..].
    - intros section Hin. exists pool, fresh. split_and!; [by right|done|by left|done..].
    - eapply under_lock_call; [done| |]. { intros section Hin. right. exact Hin. }
      eapply (under_lock_call _ _ _ (fun _ => True)); [done| |exact Hlock]. intros section _. by left. }
  clearbody h1. unfold HasPublishedTarget. node_run. apply runs_ask; [done|]. intros [refs|err]; [|done]. node_run. apply runs_ask; [|done].
  intros a. split; [|done]. split_and!; [done|done|]. exists root, (UnpublishRequest.Source req). split; [done|].
  eapply under_lock_call; [done| |exact Hlock1]. intros section Ho. split; [by apply persistent|]. exists refs. split; [by left|done].
Qed.

Lemma withStore_spec req target existingOnly h :
  let id := UnpublishRequest.VolumeID req in
  Path (UnpublishRequest.PoolRoot req) id = Ok (UnpublishRequest.Source req) ->
  runs (unpublish_call id target) (withStore (UnpublishRequest.PoolRoot req) (UnpublishRequest.Copy req) id existingOnly (unpublish_body s req)) h
    (fun _ _ => True).
Proof.
  intros id Hsource. unfold withStore. node_run. apply runs_ask; [done|]. intros [[]|err]; node_run; [|done].
  eapply runs_mono; [apply (unpublish_body_spec req target _ Hsource)|by intros h' e []|].
  { eexists existingOnly, [], _. split_and!; [reflexivity|constructor|done]. }
  intros r l _. node_run. apply runs_perform; [done|]. intros []. by node_run.
Qed.

Lemma NodeUnpublishVolume_spec id target h :
  runs (unpublish_call id target) (NodeUnpublishVolume s id target) h (fun r h' => r = Ok tt -> unmounted target h').
Proof.
  unfold NodeUnpublishVolume, node_validate. node_run; [done|done|]. destruct (ValidateID id); [|done]. node_run.
  destruct (ValidateTarget _ _); [|done]. apply runs_bracket; [done|done|]. node_run.
  eapply runs_mono; [apply BinderUnpublish_spec|by intros h' e []|]. intros [[]|err] l Hu; [|by node_run]. specialize (Hu eq_refl).
  unfold unpublishTarget. node_run. apply runs_ask; [done|]. intros [state|err].
  2:{ destruct (IsNotFound err); node_run; [by do 2 apply persistent|done]. }
  apply (persists (unmounted target) [Event (NodeGet id) (Ok state)]) in Hu. cbn [app] in Hu. set (h1 := Event (NodeGet id) _ :: _) in *. clearbody h1.
  destruct (State.CurrentCopy state) as [copy|]; [|by node_run]. node_run; [done|]. destruct (NodeName copy != node); [node_run; by apply persistent|].
  node_run. eapply runs_observes; [apply (poolRoot_spec copy)|apply observes_unpublish|].
  intros [[pool root]|err] l' _ _; apply (persists (unmounted target) l') in Hu; [|destruct (PoolIdentityUnavailable err); node_run; [by apply persistent|done]].
  destruct (CopyMatchesPool copy pool); cbn [negb]; [|node_run; by apply persistent]. node_run.
  destruct (Path root id) as [source|] eqn:Hsource; [|done]. node_run. unfold Unpublish. node_run.
  set (req := {| UnpublishRequest.VolumeID := id; UnpublishRequest.Source := source |}).
  assert (Hrest : forall entered (r : result unit) l'', unmounted target (l'' ++ l' ++ h1) -> runs (unpublish_call id target)
    match r with
    | Ok _ => mret tt
    | Err err => if error_is err ErrIdentityUnavailable || (negb entered && (error_is err OwnershipMarkers.ErrIdentity || error_is err ErrNeedsReview))
                 then mret tt else io_fail (publicationError "unpublish" err entered)
    end (l'' ++ l' ++ h1) (fun r h' => r = Ok tt -> unmounted target (Event (UnlockPublication id) tt :: h'))).
  { intros entered [[]|err] l'' Hu'; [node_run; by apply persistent|].
    match goal with |- runs _ (if ?b then _ else _) _ _ => destruct b end; node_run; [by apply persistent|done]. }
  eapply runs_mono; [apply (withStore_spec req target true _ Hsource)|done|]. intros [[entered r]|err] l'' _; [|done].
  apply (persists (unmounted target) l'') in Hu as Hu'.
  destruct r as [[]|err]; [node_run; by apply persistent|]. destruct (negb entered && error_is err ErrNotExist).
  - eapply runs_mono; [apply (withStore_spec req target false _ Hsource)|done|]. intros [[entered' r']|err'] l3 _; [|done].
    rewrite (assoc (++)). apply Hrest. rewrite <- (assoc (++)). by apply (persists (unmounted target)).
  - apply runs_ret. cbv beta iota. by apply (Hrest entered (Err err)).
Qed.

(** C9: whatever the registries, the store and the file system answer, a publication changes nothing without authority.  The
    publication of the copy is recorded only while the storage lock of the volume is held in the copy's Pool, and after, under that
    lock, the Pool was verified, the volume was read Ready on this node with exactly this copy, and the copy was proved on disk.  The
    mount comes after that record, goes from the directory of the volume in that Pool to the requested target, and the target and
    each directory made for it are below the target root.  A record is corrected after a failure only to what the mount table says,
    and nothing is unmounted or removed. *)
Theorem publish_fenced (id target : string) (readonly : bool) (capability : option VolumeCapability) (newer older : history node_call)
    (e : event node_call) :
  snd (NodePublishVolume s id target readonly capability []) = newer ++ e :: older -> publish_call id target older e.
Proof. intros Hlog. rewrite <- (app_nil_r older). eapply runs_at; [apply NodePublishVolume_spec|by rewrite app_nil_r]. Qed.

(** C24: an unpublication unmounts a target only after the mount table showed the requested volume on it, and removes the directory
    only after it is no mount.  The record that a volume is published is rewritten only under its storage lock, with the copy read as
    current there on this node, and to what the mount references of its directory say: it is cleared only when none of them is below
    the target root.  Success means that the target was unmounted, or was observed to be no mount or absent. *)
Theorem unpublish_exact (id target : string) :
  (forall newer e older, snd (NodeUnpublishVolume s id target []) = newer ++ e :: older -> unpublish_call id target older e) /\
  (forall h, NodeUnpublishVolume s id target [] = (Ok tt, h) -> unmounted target h).
Proof.
  split.
  - intros newer e older Hlog. rewrite <- (app_nil_r older). eapply runs_at; [apply NodeUnpublishVolume_spec|by rewrite app_nil_r].
  - intros h Hrun. exact (runs_result _ _ _ _ _ _ (NodeUnpublishVolume_spec id target []) Hrun eq_refl).
Qed.
End safety.

(** ** A node with one Pool *)

Module SampleNode.
Definition service : NodeService := {| NodeService.Configured := true; NodeService.NodeName := "node-a"; NodeService.HostRoot := "/host";
  NodeService.TargetRoot := "/var/lib/kubelet/pods" |}.

Definition target : string := "/var/lib/kubelet/pods/a/volumes/pvc-1".

Definition pool : Pool := let p := SampleCsi.pool in
  {| Pool.Name := PoolName sample_copy; Pool.UID := PoolUID sample_copy; Pool.NodeName := NodeName sample_copy; Pool.PoolGroup := Pool.PoolGroup p;
     Pool.MountPath := "/mnt/pool"; Pool.CapacityPolicy := Pool.CapacityPolicy p; Pool.MountPolicy := Pool.MountPolicy p;
     Pool.CapacityLimit := Pool.CapacityLimit p; Pool.Generation := Pool.Generation p; Pool.DeletionTimestamp := Pool.DeletionTimestamp p;
     Pool.Finalizers := Pool.Finalizers p; Pool.IdentityReleaseApproval := Pool.IdentityReleaseApproval p;
     Pool.RetirementRequest := Pool.RetirementRequest p; Pool.RetirementApproval := Pool.RetirementApproval p;
     Pool.CapacityProbeRequest := Pool.CapacityProbeRequest p; Pool.Status := Pool.Status p |}.

(** A volume that is Ready on the node and not yet mounted. *)
Definition oracle : Oracle node_call := fun A h c =>
  match c in node_call A return A with
  | NodeGet _ => Ok sample_ready
  | NodePool _ _ _ => Ok pool
  | StatSource _ | SameFile _ _ => Ok true
  | IsMountPoint _ => Ok false
  | GetMountRefs _ => Ok []
  | ParseMountInfo => Ok []
  | BeginPublish _ _ _ | ReconcilePublished _ _ _ _ | VerifyBacking _ | AcquireStore _ _ _ _ | VerifyServing _ _ | OpenTargetRoot _
  | MkdirTarget _ _ | OpenTarget _ _ | RemoveTarget _ | Mount _ _ | Unmount _ => Ok tt
  | ReleaseStore _ _ | LockPublication _ | UnlockPublication _ => tt
  end.

Definition capability : option VolumeCapability := Some {| VolumeCapability.Mount := true; VolumeCapability.AccessMode := Some SINGLE_NODE_WRITER |}.
End SampleNode.

#[local] Existing Instance SampleCsi.libraries.

Lemma publish_fenced_witness :
  let run := NodePublishVolume (O := SampleNode.oracle) SampleNode.service sample_id SampleNode.target false SampleNode.capability in
  let e := Event (Mount "/host/mnt/pool/volumes/shiftpv-0123456789abcdef0123456789abcdef" SampleNode.target) (Ok tt) in
  exists h newer older, run [] = (Ok tt, h) /\ h = newer ++ e :: older /\ publish_call SampleNode.service sample_id SampleNode.target older e.
Proof.
  intros run e. assert (exists h, run [] = (Ok tt, h) /\ h !! 2%nat = Some e) as (h & Hrun & He) by (eexists; split; [vm_compute; reflexivity|reflexivity]).
  pose proof (eq_sym (take_drop_middle h 2 e He)) as Hh. exists h, (take 2 h), (drop 3 h). split_and!; [exact Hrun|exact Hh|].
  apply (publish_fenced (O := SampleNode.oracle) SampleNode.service sample_id SampleNode.target false SampleNode.capability (take 2 h) (drop 3 h) e).
  rewrite <- Hh. unfold run in Hrun. rewrite Hrun. reflexivity.
Defined.
