(* ===== verification/Readiness.v ===== *)
(** * Pool readiness

    src/pool/readiness: the reconciler of one node, which observes its Pools and records
    what it saw, approves new registrations and releases the identity of an empty Pool
    (reconciler.go, registration.go, capacity_unit.go, work.go), and the schedule of its
    retries (run.go).

    The observations of several Pools run in parallel and may be abandoned by the waiting
    pass ([AwaitWork]); here they are listed in the order in which they are started, and
    since every call may be answered arbitrarily, nothing depends on that order. *)

From S2P Require Import Prelude RecordUpdate Bytes Filepath VolumeIdentity CapacityUnit Apimachinery Registration GoTime ApiServer VolumeState PoolApi Capacity.
From S2P Require Import Oracle Provisioning.

(** ** Data (probe.go) *)

(** The zero value. *)
Definition unchecked : Check := {| Check.OK := false; Check.Known := false; Check.Reason := ""; Check.Message := "" |}.

Definition skipped : Check :=
  {| Check.OK := false; Check.Known := false; Check.Reason := "ProbeSkipped";
     Check.Message := "check skipped because the directory prerequisite failed" |}.

Definition capacityFailure (reason message : string) : Check := failed reason message.

Module Result_.
Record Result := {
  RetryInventory : bool;
  Backing : Check;
  Independent : Check;
  CapacityUnit : option CapacityUnit;
  Accessible : Check;
  Mounted : Check;
  Writable : Check;
  CapacityReadable : Check;
  Filesystem : Filesystem;
  MountIdentity : option PoolMountIdentity
}.

#[export] Instance Result_settable : Settable Result :=
  {| eta r := {| RetryInventory := RetryInventory r; Backing := Backing r; Independent := Independent r; CapacityUnit := CapacityUnit r;
     Accessible := Accessible r; Mounted := Mounted r; Writable := Writable r; CapacityReadable := CapacityReadable r; Filesystem := Filesystem r;
     MountIdentity := MountIdentity r |}; eta_id r := ltac:(by destruct r) |}.
End Result_.
Notation Result := Result_.Result.
#[export] Existing Instance Result_.Result_settable.

#[export] Instance PoolStatus_settable : Settable PoolStatus :=
  {| eta r := {| PoolStatus.RegistrationApproved := PoolStatus.RegistrationApproved r; PoolStatus.CapacityProbeSupported := PoolStatus.CapacityProbeSupported r;
     PoolStatus.CapacityProbe := PoolStatus.CapacityProbe r; PoolStatus.FilesystemTotalBytes := PoolStatus.FilesystemTotalBytes r;
     PoolStatus.FilesystemAvailableBytes := PoolStatus.FilesystemAvailableBytes r; PoolStatus.FilesystemAvailableInodes := PoolStatus.FilesystemAvailableInodes r;
     PoolStatus.ObservedGeneration := PoolStatus.ObservedGeneration r; PoolStatus.LastProbeTime := PoolStatus.LastProbeTime r;
     PoolStatus.CapacityUnit := PoolStatus.CapacityUnit r; PoolStatus.MountIdentity := PoolStatus.MountIdentity r;
     PoolStatus.Conditions := PoolStatus.Conditions r; PoolStatus.Inventory := PoolStatus.Inventory r |}; eta_id r := ltac:(by destruct r) |}.

#[export] Instance Pool_settable : Settable Pool :=
  {| eta r := {| Pool.Name := Pool.Name r; Pool.UID := Pool.UID r; Pool.NodeName := Pool.NodeName r; Pool.PoolGroup := Pool.PoolGroup r;
     Pool.MountPath := Pool.MountPath r; Pool.CapacityPolicy := Pool.CapacityPolicy r; Pool.MountPolicy := Pool.MountPolicy r;
     Pool.CapacityLimit := Pool.CapacityLimit r; Pool.Generation := Pool.Generation r; Pool.DeletionTimestamp := Pool.DeletionTimestamp r;
     Pool.Finalizers := Pool.Finalizers r; Pool.IdentityReleaseApproval := Pool.IdentityReleaseApproval r; Pool.RetirementRequest := Pool.RetirementRequest r;
     Pool.RetirementApproval := Pool.RetirementApproval r; Pool.CapacityProbeRequest := Pool.CapacityProbeRequest r; Pool.Status := Pool.Status r |};
     eta_id r := ltac:(by destruct r) |}.

Module allocationObservation.
Record allocationObservation := { unit : option CapacityUnit; backing : Check; independent : Check }.

Definition zero : allocationObservation := {| unit := None; backing := unchecked; independent := unchecked |}.
End allocationObservation.
Notation allocationObservation := allocationObservation.allocationObservation.

(** ** Calls *)

Inductive pool_call : Type -> Type :=
| ListPoolRegistrations : pool_call (result (list Pool))
| SetPoolStatus (name uid nodeName : string) (status : PoolStatus) : pool_call (result unit)
(** [Inspector] *)
| Inspect (candidate : Pool) : pool_call Result
| InspectCapacityUnit (pool : Pool) : pool_call (option CapacityUnit * Check)
(** the inventory of the node and the release of a Pool identity *)
| TakeInventory (candidate : Pool) (now : Z) : pool_call PoolInventory
| Release (pool : Pool) : pool_call (result unit)
(** one observation at a time for a Pool, and the bound on waiting for it *)
| BeginWork (uid : string) : pool_call (result unit)
| AwaitWork (uid : string) : pool_call (result unit)
| ContextErr : pool_call (result unit)
| Time : pool_call Z.

Notation pool_handler := (io (history pool_call)).

(** [meta.SetStatusCondition] and [RemoveStatusCondition]: a condition is added or its fields are replaced. *)
Class StatusConditions {AM : Apimachinery} := {
  SetStatusCondition : list Condition -> Condition -> list Condition;
  RemoveStatusCondition : list Condition -> string -> list Condition;
  find_set cs c t : FindStatusCondition (SetStatusCondition cs c) t = if Condition.Type_ c == t then Some c else FindStatusCondition cs t;
  find_remove cs t t' : FindStatusCondition (RemoveStatusCondition cs t) t' = if t == t' then None else FindStatusCondition cs t'
}.

Definition PoolConditionIdentityReleased : string := "IdentityReleased".
Definition ConditionFalse : string := "False".
Definition ConditionUnknown : string := "Unknown".
Definition InventoryPhysicalChanged : string := "PhysicalInventoryChanged".

(** ** Conditions (reconciler.go) *)

Definition condition (conditionType : string) (check : Check) (generation : Z) : Condition :=
  {| Condition.Type_ := conditionType;
     Condition.Status := if Check.Known check then if Check.OK check then ConditionTrue else ConditionFalse else ConditionUnknown;
     Condition.ObservedGeneration := generation; Condition.Reason := Check.Reason check; Condition.Message := Check.Message check |}.

Definition reported (check : Check) : list Check := if Check.Reason check != "" then [check] else [].

(** The checks in the order in which the first failure is reported. *)
Definition ordered_checks (result : Result) : list Check :=
  reported (Result_.Backing result) ++ reported (Result_.Independent result) ++ [Result_.Accessible result] ++ reported (Result_.Mounted result) ++
  [Result_.Writable result; Result_.CapacityReadable result].

Definition succeeded (check : Check) : bool := Check.Known check && Check.OK check.

Definition readyCheck (result : Result) : Check :=
  match List.find (fun check => negb (succeeded check)) (ordered_checks result) with
  | Some check => {| Check.OK := false; Check.Known := true; Check.Reason := Check.Reason check; Check.Message := Check.Message check |}
  | None =>
      if (Filesystem.AvailableBytes (Result_.Filesystem result) <=? 0)%Z || (Filesystem.AvailableInodes (Result_.Filesystem result) <=? 0)%Z
      then failed "NoSpace" "filesystem has no available bytes or inodes for new allocation"
      else {| Check.OK := true; Check.Known := true; Check.Reason := "PoolReady";
              Check.Message := "Pool directory is accessible, writable, and has filesystem headroom" |}
  end.

Definition conditions (result : Result) (generation : Z) : list Condition :=
  let optional := fun conditionType check => if Check.Reason check != "" then [condition conditionType check generation] else [] in
  [condition PoolConditionAccessible (Result_.Accessible result) generation] ++
  optional PoolConditionCapacityBackingVerified (Result_.Backing result) ++
  optional PoolConditionCapacityIndependent (Result_.Independent result) ++
  optional PoolConditionMounted (Result_.Mounted result) ++
  [condition PoolConditionWritable (Result_.Writable result) generation;
   condition PoolConditionCapacityReadable (Result_.CapacityReadable result) generation;
   condition PoolConditionReady (readyCheck result) generation].

Definition completeInventory (inventory : option PoolInventory) : bool :=
  some_and inventory (fun i => PoolInventory.Valid i && negb (PoolInventory.Truncated i) && (PoolInventory.Message i == "")).

Definition emptyInventory (inventory : option PoolInventory) : bool :=
  completeInventory inventory && some_and inventory (fun i => (length (PoolInventory.Copies i) =? 0)%nat).

Definition needsInventoryRetry (inventory : option PoolInventory) : bool :=
  some_and inventory (fun i => negb (PoolInventory.Valid i) && (PoolInventory.Reason i == InventoryPhysicalChanged)).

(** [readiness.Reconciler]: whether its clients and intervals are set, and the callbacks configured. *)
Module Reconciler.
Record Reconciler := { NodeName : string; Configured : bool; Inventory : bool; Release : bool }.
End Reconciler.
Notation Reconciler := Reconciler.Reconciler.

Definition error_of {A : Type} (r : result A) : option error := match r with Ok _ => None | Err err => Some err end.

(** [errors.Join] of two errors that may be nil. *)
Definition joined (errs : list (option error)) : option error := error_of (join (map (fun e => match e with Some err => Err err | None => Ok tt end) errs)).

Section readiness.
Context {AM : Apimachinery} {SC : StatusConditions} {O : Oracle pool_call} (r : Reconciler).

Definition ownObservationReady (pool : Pool) (result : Result) : bool :=
  Check.OK (BackingConfigurationCheck pool) &&
  forallb succeeded ([Result_.Accessible result; Result_.Writable result; Result_.CapacityReadable result] ++
                     (if Pool.MountPolicy pool != "" then [Result_.Mounted result] else []) ++
                     (if Pool.CapacityPolicy pool != "" then [Result_.Backing result] else [])).

(** ** Registration (registration.go) *)

Definition invalidRegistrationCandidate (pool : Pool) : bool :=
  is_nil (Pool.DeletionTimestamp pool) && negb (RegistrationApproved pool) && negb (Check.OK (ConfigurationCheck pool)).

(** A check that was made and did not pass. *)
Definition refused (check : Check) : bool := (Check.Reason check != "") && negb (Check.OK check).

Definition skipRegistrationProbe (pool : Pool) (allocation : allocationObservation) : bool :=
  DeletingUnapprovedFixedBlock pool || invalidRegistrationCandidate pool || refused (allocationObservation.backing allocation) ||
  (negb (RegistrationApproved pool) && refused (allocationObservation.independent allocation)).

Definition with_unit (pool : Pool) (unit : option CapacityUnit) : Pool :=
  match PoolStatus.CapacityUnit (Pool.Status pool) with
  | Some _ => pool
  | None => pool <| Pool.Status := (Pool.Status pool) <| PoolStatus.CapacityUnit := unit |> |>
  end.

Definition inspectPool (pool : Pool) (allocation : allocationObservation) : pool_handler Result :=
  let unit := allocationObservation.unit allocation in
  result ← (if skipRegistrationProbe pool allocation
            then mret {| Result_.RetryInventory := false; Result_.Backing := allocationObservation.backing allocation;
                         Result_.Independent := allocationObservation.independent allocation; Result_.CapacityUnit := None;
                         Result_.Accessible := skipped; Result_.Mounted := unchecked; Result_.Writable := skipped; Result_.CapacityReadable := skipped;
                         Result_.Filesystem := {| Filesystem.TotalBytes := 0; Filesystem.AvailableBytes := 0; Filesystem.AvailableInodes := 0 |};
                         Result_.MountIdentity := None |}
            else
              result ← perform (Inspect (with_unit pool unit));
              let result := result <| Result_.Independent := allocationObservation.independent allocation |> in
              mret (if negb (is_nil unit) && negb (Unit.SameCapacityUnit unit (Result_.CapacityUnit result)) && Check.OK (Result_.Backing result)
                    then result <| Result_.Backing := capacityFailure "CapacityIdentityChanged" "capacity allocation changed during node observation" |>
                    else result));
  let result :=
    if Pool.CapacityPolicy pool != "" then
      let result := if Check.Reason (Result_.Backing result) == "" then result <| Result_.Backing := skipped |> else result in
      if negb (Check.OK (Result_.Backing result)) then result <| Result_.Independent := Result_.Backing result |> else result
    else result in
  let mount := Pool.MountPolicy pool == PoolMountPolicyRequireMountPoint in
  let result := if mount && negb (Check.Known (Result_.Mounted result)) && (Check.Reason (Result_.Mounted result) == "")
                then result <| Result_.Mounted := skipped |> else result in
  mret (if mount && Check.OK (Result_.Mounted result) && is_nil (Result_.MountIdentity result)
        then result <| Result_.Mounted := failed "MountIdentityMissing" "mount probe did not return an identity" |> else result).

(** ** Allocations (capacity_unit.go) *)

(** [poolWork]: the work of a Pool, unless another runs, and the bounded wait for it. *)
Definition poolWork {A : Type} (uid : string) (run : pool_handler A) : pool_handler A :=
  ask ContextErr;;
  ask (BeginWork uid);;
  result ← attempt run;
  ask (AwaitWork uid);;
  io_lift result.

Definition unavailable (err : error) : Check :=
  {| Check.OK := false; Check.Known := false; Check.Reason := "CapacityObservationUnavailable"; Check.Message := error_text err |}.

Definition backing_only (check : Check) : allocationObservation :=
  {| allocationObservation.unit := None; allocationObservation.backing := check; allocationObservation.independent := unchecked |}.

Definition capacityObservation (pool : Pool) (held : bool) : pool_handler allocationObservation :=
  if Pool.RegistrationRetired pool && is_nil (Pool.DeletionTimestamp pool)
  then mret (backing_only (failed "PoolRegistrationRetired" "registration is retired; storage and identity remain preserved"))
  else if negb (Check.OK (BackingConfigurationCheck pool)) then mret (backing_only (BackingConfigurationCheck pool))
  else if Pool.CapacityPolicy pool != PoolCapacityPolicyFixedBlock then mret allocationObservation.zero
  else
    ended ← attempt (ask ContextErr);
    match ended with
    | Err err => mret (backing_only (unavailable err))
    | Ok _ =>
        let run := '(unit, check) ← perform (InspectCapacityUnit pool);
                   mret {| allocationObservation.unit := unit; allocationObservation.backing := check; allocationObservation.independent := unchecked |} in
        if held : bool then run
        else
          work ← attempt (poolWork (Pool.UID pool) run);
          match work with
          | Err err => mret (backing_only (unavailable err))
          | Ok observed => mret observed
          end
    end.

Fixpoint observe_allocations (pools : list Pool) (heldUID : string) (results : gmap string allocationObservation) :
    pool_handler (gmap string allocationObservation) :=
  match pools with
  | [] => mret results
  | pool :: pools =>
      if Pool.NodeName pool != Reconciler.NodeName r then observe_allocations pools heldUID results
      else
        observed ← capacityObservation pool ((heldUID != "") && (Pool.UID pool == heldUID));
        observe_allocations pools heldUID (<[Pool.UID pool := observed]> results)
  end.

Definition observed_of (results : gmap string allocationObservation) (uid : string) : allocationObservation :=
  default allocationObservation.zero (results !! uid).

Definition allocation_of (results : gmap string allocationObservation) (pool : Pool) : Allocation :=
  let observed := observed_of results (Pool.UID pool) in
  {| Allocation.UID := Pool.UID pool; Allocation.NodeName := Pool.NodeName pool; Allocation.MountPath := Pool.MountPath pool;
     Allocation.Policy := Pool.CapacityPolicy pool; Allocation.Approved := RegistrationApproved pool;
     Allocation.Deleting := negb (is_nil (Pool.DeletionTimestamp pool)); Allocation.Retired := Pool.RegistrationRetired pool;
     Allocation.Unit := allocationObservation.unit observed; Allocation.Evidence := allocationObservation.backing observed |}.

Definition set_independent (observed : allocationObservation) (check : Check) : allocationObservation :=
  {| allocationObservation.unit := allocationObservation.unit observed; allocationObservation.backing := allocationObservation.backing observed;
     allocationObservation.independent := check |}.

(** The decision for one Pool; [Independent] always answers ([Independent_isolates]). *)
Definition isolate (allocations : list Allocation) (results : gmap string allocationObservation) (target : Allocation) : result (gmap string allocationObservation) :=
  let observed := observed_of results (Allocation.UID target) in
  if refused (allocationObservation.independent observed) then Ok results
  else match Independent target allocations with
       | None => Err (Errorf "invalid memory address or nil pointer dereference")
       | Some check => Ok (<[Allocation.UID target := if (Allocation.Policy target != "") || negb (Check.OK check) then set_independent observed check else observed]> results)
       end.

Fixpoint isolate_all (allocations targets : list Allocation) (results : gmap string allocationObservation) : result (gmap string allocationObservation) :=
  match targets with
  | [] => Ok results
  | target :: targets => results ← isolate allocations results target; isolate_all allocations targets results
  end.

Definition capacityIsolation (pools : list Pool) (heldUID : string) : pool_handler (gmap string allocationObservation) :=
  let held := fun pool => (heldUID != "") && (Pool.UID pool == heldUID) in
  results ← observe_allocations (List.filter held pools ++ List.filter (fun pool => negb (held pool)) pools) heldUID ∅;
  let results := (fun observed => set_independent observed (allocationObservation.backing observed)) <$> results in
  let allocations := map (allocation_of results) (List.filter (fun pool => Pool.NodeName pool == Reconciler.NodeName r) pools) in
  io_lift (isolate_all allocations allocations results).

(** The registration is still the one that was observed. *)
Definition current_registration (pool : Pool) (pools : list Pool) : bool :=
  match List.find (fun peer => Pool.Name peer == Pool.Name pool) pools with
  | None => false
  | Some peer => (Pool.UID peer == Pool.UID pool) && (Pool.NodeName peer == Pool.NodeName pool) && (Pool.Generation peer =? Pool.Generation pool)%Z &&
                 is_nil (Pool.DeletionTimestamp peer) && Check.OK (ConfigurationCheck peer)
  end.

Definition recheckRegistration (pool : Pool) (result : Result) : pool_handler Result :=
  pools ← ask ListPoolRegistrations;
  io_reject_if (negb (current_registration pool pools)) (Wrapf [ErrStateConflict] "%w: Pool registration changed during observation");;
  isolation ← capacityIsolation pools (Pool.UID pool);
  let allocation := observed_of isolation (Pool.UID pool) in
  let result := result <| Result_.Independent := allocationObservation.independent allocation |> in
  mret (if Pool.CapacityPolicy pool == PoolCapacityPolicyFixedBlock then
          let result := if negb (Check.OK (allocationObservation.backing allocation))
                        then result <| Result_.Backing := allocationObservation.backing allocation |>
                        else if negb (Unit.SameCapacityUnit (allocationObservation.unit allocation) (Result_.CapacityUnit result))
                        then result <| Result_.Backing := capacityFailure "CapacityIdentityChanged" "capacity allocation changed before registration approval" |>
                        else result in
          if negb (Check.OK (Result_.Backing result)) then result <| Result_.Independent := Result_.Backing result |> else result
        else result).

(** ** The status of one Pool (reconciler.go) *)

Definition no_inventory (now : Z) (message : string) : option PoolInventory :=
  Some {| PoolInventory.ObservedAt := Some now; PoolInventory.Valid := false; PoolInventory.Truncated := false; PoolInventory.Reason := "";
          PoolInventory.Message := message; PoolInventory.Copies := [] |}.

Definition observedInventory (pool : Pool) (result : Result) (status : PoolStatus) (now : Z) : pool_handler (option PoolInventory) :=
  if DeletingUnapprovedFixedBlock pool && Reconciler.Inventory r then
    inventory ← perform (TakeInventory pool now);
    mret (Some inventory)
  else if invalidRegistrationCandidate pool then mret (no_inventory now ("ConfigurationUnavailable: " +:+ Check.Reason (ConfigurationCheck pool)))
  else if negb (RegistrationApproved pool) && refused (Result_.Independent result)
  then mret (no_inventory now ("CapacityUnavailable: " +:+ Check.Reason (Result_.Independent result)))
  else if (Pool.CapacityPolicy pool != "") && negb (Check.OK (Result_.Backing result))
  then mret (no_inventory now ("BackingUnavailable: " +:+ Check.Reason (Result_.Backing result)))
  else if (Pool.MountPolicy pool == PoolMountPolicyRequireMountPoint) && negb (Check.OK (Result_.Mounted result))
  then mret (no_inventory now ("MountUnavailable: " +:+ Check.Reason (Result_.Mounted result)))
  else if negb (Reconciler.Inventory r) then mret (PoolStatus.Inventory status)
  else
    let observed := Pool.Status pool in
    let candidate := pool <| Pool.Status := observed
      <| PoolStatus.RegistrationApproved := PoolStatus.RegistrationApproved status |>
      <| PoolStatus.MountIdentity := match PoolStatus.MountIdentity observed with None => Result_.MountIdentity result | anchored => anchored end |>
      <| PoolStatus.CapacityUnit := match PoolStatus.CapacityUnit observed with None => Result_.CapacityUnit result | anchored => anchored end |>
      <| PoolStatus.Conditions := PoolStatus.Conditions status |> |> in
    inventory ← perform (TakeInventory candidate now);
    mret (Some inventory).

(** The status before the inventory: what was measured and its conditions. *)
Definition measured (pool : Pool) (result : Result) (now : Z) : PoolStatus :=
  let readable := Check.OK (Result_.CapacityReadable result) in
  let filesystem := Result_.Filesystem result in
  (Pool.Status pool)
    <| PoolStatus.RegistrationApproved := RegistrationApproved pool |>
    <| PoolStatus.CapacityProbeSupported := true |>
    <| PoolStatus.ObservedGeneration := Pool.Generation pool |>
    <| PoolStatus.LastProbeTime := Some now |>
    <| PoolStatus.FilesystemTotalBytes := if readable then Filesystem.TotalBytes filesystem else 0%Z |>
    <| PoolStatus.FilesystemAvailableBytes := if readable then Some (Filesystem.AvailableBytes filesystem) else None |>
    <| PoolStatus.FilesystemAvailableInodes := if readable then Some (Filesystem.AvailableInodes filesystem) else None |>
    <| PoolStatus.Conditions := foldl SetStatusCondition (PoolStatus.Conditions (Pool.Status pool)) (conditions result (Pool.Generation pool)) |>.

Definition condition_true (cs : list Condition) (t : string) : bool :=
  some_and (FindStatusCondition cs t) (fun c => Condition.Status c == ConditionTrue).

Definition set_condition (status : PoolStatus) (c : Condition) : PoolStatus :=
  status <| PoolStatus.Conditions := SetStatusCondition (PoolStatus.Conditions status) c |>.

(** A Pool with an invalid configuration or under deletion takes no new placement. *)
Definition restrict (pool : Pool) (status : PoolStatus) (allocationReady : bool) : PoolStatus :=
  let configuration := ConfigurationCheck pool in
  if negb (Check.OK configuration) then set_condition status (condition PoolConditionReady configuration (Pool.Generation pool))
  else if negb (is_nil (Pool.DeletionTimestamp pool)) && allocationReady
  then set_condition status (condition PoolConditionReady (failed "PoolDeregistering" "Pool rejects new placement while deregistration converges") (Pool.Generation pool))
  else status.

(** A ready Pool with a complete inventory is approved, and what it was observed on is anchored. *)
Definition register (pool : Pool) (result : Result) (status : PoolStatus) : PoolStatus :=
  let status := if is_nil (Pool.DeletionTimestamp pool) && Check.OK (ConfigurationCheck pool)
                then status <| PoolStatus.RegistrationApproved := true |> else status in
  let status := if (Pool.MountPolicy pool == PoolMountPolicyRequireMountPoint) && is_nil (PoolStatus.MountIdentity status)
                then status <| PoolStatus.MountIdentity := Result_.MountIdentity result |> else status in
  if (Pool.CapacityPolicy pool == PoolCapacityPolicyFixedBlock) && is_nil (PoolStatus.CapacityUnit status) && Check.OK (Result_.Independent result)
  then status <| PoolStatus.CapacityUnit := Result_.CapacityUnit result |> else status.

Definition observedStatus (pool : Pool) (result : Result) (now : Z) : pool_handler (PoolStatus * bool) :=
  let status := measured pool result now in
  let allocationReady := condition_true (PoolStatus.Conditions status) PoolConditionReady in
  let status := restrict pool status allocationReady in
  inventory ← observedInventory pool result status now;
  let status := status <| PoolStatus.Inventory := inventory |> in
  let status := if allocationReady && completeInventory inventory then register pool result status else status in
  mret (status <| PoolStatus.Conditions := RemoveStatusCondition (PoolStatus.Conditions status) PoolConditionIdentityReleased |>,
        ownObservationReady pool result).

(** The check to record, and the error of a failed release. *)
Definition identityRelease (pool : Pool) (status : PoolStatus) (cleanupReady : bool) : pool_handler (Check * option error) :=
  if RegistrationApproved pool && negb cleanupReady
  then mret (failed "PoolStorageRestorationRequired" "restore the original Pool backing and filesystem headroom; missing storage evidence cannot release its identity", None)
  else if Pool.IdentityReleaseApproval pool != Pool.UID pool
  then mret (failed "PoolIdentityReleasePending" "Pool identity remains until the controller approves exact release", None)
  else if (cleanupReady || DeletingUnapprovedFixedBlock pool) && emptyInventory (PoolStatus.Inventory status) then
    if negb (Reconciler.Release r) then mret (failed "PoolIdentityReleaseUnavailable" "node Pool identity release is not configured", None)
    else
      released ← attempt (ask (Release pool));
      match released with
      | Err err => mret (failed "PoolIdentityReleaseFailed" (error_text err), Some err)
      | Ok _ =>
          let '(reason, message) := if DeletingUnapprovedFixedBlock pool
            then ("PoolRegistrationCanceled", "unapproved registration has no storage metadata, managed data, or published target")
            else ("PoolIdentityReleased", "exact empty Pool identity was released") in
          mret ({| Check.OK := true; Check.Known := true; Check.Reason := reason; Check.Message := message |}, None)
      end
  else mret (failed "PoolIdentityRetained" "Pool identity remains until inventory is empty and complete", None).

Definition recordIdentityRelease (pool : Pool) (status : PoolStatus) (cleanupReady : bool) : pool_handler (PoolStatus * option error) :=
  if is_nil (Pool.DeletionTimestamp pool) then mret (status, None)
  else
    '(release, releaseErr) ← identityRelease pool status cleanupReady;
    mret (set_condition status (condition PoolConditionIdentityReleased release (Pool.Generation pool)), releaseErr).

Definition retired_status (pool : Pool) (now : Z) : PoolStatus :=
  set_condition (Pool.Status pool <| PoolStatus.RegistrationApproved := RegistrationApproved pool |>
                                  <| PoolStatus.ObservedGeneration := Pool.Generation pool |>
                                  <| PoolStatus.Inventory := no_inventory now "PoolRegistrationRetired: no storage observation requested" |>)
    (condition PoolConditionReady (failed "PoolRegistrationRetired" "registration is retired; storage and identity remain preserved") (Pool.Generation pool)).

Definition write_status (pool : Pool) (status : PoolStatus) : pool_handler unit :=
  ask (SetPoolStatus (Pool.Name pool) (Pool.UID pool) (Reconciler.NodeName r) status).

(** Whether the inventory must be taken again, which is reported with a late error as well. *)
Definition reconcilePool (pool : Pool) (allocation : allocationObservation) : pool_handler (bool * option error) :=
  now ← perform Time;
  if Pool.RegistrationRetired pool && is_nil (Pool.DeletionTimestamp pool) then
    write_status pool (retired_status pool now);;
    mret (false, None)
  else
    result ← inspectPool pool allocation;
    ask ContextErr;;
    '(status, cleanupReady) ← observedStatus pool result now;
    ask ContextErr;;
    '(status, cleanupReady) ←
      (if negb (RegistrationApproved pool) && PoolStatus.RegistrationApproved status then
         result ← recheckRegistration pool result;
         if negb (Check.OK (Result_.Independent result)) && (Check.Reason (Result_.Independent result) != "")
         then observedStatus pool result now else mret (status, cleanupReady)
       else mret (status, cleanupReady));
    ask ContextErr;;
    let retryInventory := needsInventoryRetry (PoolStatus.Inventory status) in
    '(status, releaseErr) ← recordIdentityRelease pool status cleanupReady;
    ended ← attempt (ask ContextErr);
    match ended with
    | Err err => mret (retryInventory, joined [Some err; releaseErr])
    | Ok _ =>
        written ← attempt (write_status pool status);
        mret (retryInventory, joined [error_of written; releaseErr])
    end.

Definition observePool (pool : Pool) (allocation : allocationObservation) : pool_handler (bool * option error) :=
  poolWork (Pool.UID pool) (reconcilePool pool allocation).

(** ** A pass (work.go, reconciler.go) *)

Definition selected (only : option (gmap string bool)) (pool : Pool) : bool :=
  (Pool.NodeName pool == Reconciler.NodeName r) && match only with None => true | Some only => default false (only !! Pool.UID pool) end.

Definition unregistered (pool : Pool) : bool :=
  negb (RegistrationApproved pool) && is_nil (Pool.DeletionTimestamp pool) && negb (Pool.RegistrationRetired pool).

(** The observations of the Pools, each with whether it asks for a retry and its error. *)
Fixpoint observe_each (isolation : gmap string allocationObservation) (pools : list Pool) : pool_handler (list (string * (bool * option error))) :=
  match pools with
  | [] => mret []
  | pool :: pools =>
      got ← attempt (observePool pool (observed_of isolation (Pool.UID pool)));
      rest ← observe_each isolation pools;
      mret ((Pool.UID pool, match got with Ok (retry, err) => (retry, err) | Err err => (false, Some err) end) :: rest)
  end.

Definition observeSelectedPools (pools : list Pool) (isolation : gmap string allocationObservation) (only : option (gmap string bool)) :
    pool_handler (list (string * (bool * option error))) :=
  let chosen := List.filter (selected only) pools in
  registered ← observe_each isolation (List.filter (fun pool => negb (unregistered pool)) chosen);
  candidates ← observe_each isolation (List.filter unregistered chosen);
  mret (registered ++ candidates).

Definition validate : result unit :=
  reject_if ((Reconciler.NodeName r == "") || negb (Reconciler.Configured r)) (Errorf "Pool readiness reconciler configuration is incomplete").

(** Which Pools ask for a retry; [None] when the registrations could not be listed. *)
Definition reconcile (only : option (gmap string bool)) : pool_handler (option (gmap string bool) * option error) :=
  ended ← attempt (io_lift validate;; ask ContextErr);
  match ended with
  | Err err => mret (None, Some err)
  | Ok _ =>
      listed ← attempt (ask ListPoolRegistrations);
      match listed with
      | Err err => mret (None, Some err)
      | Ok pools =>
          isolation ← capacityIsolation pools "";
          observations ← observeSelectedPools pools isolation only;
          ended ← attempt (ask ContextErr);
          let retry := foldl (fun m '(uid, (retry, _)) => <[uid := retry]> m) ∅ observations in
          mret (Some retry, joined (map (fun '(_, (_, err)) => err) observations ++ [error_of ended]))
      end
  end.
End readiness.

(** ** The schedule of retries (run.go) *)

Module inventoryRetry.
Record inventoryRetry := { due : Z; delay : Z }.
End inventoryRetry.
Notation inventoryRetry := inventoryRetry.inventoryRetry.

Definition second : Z := 1000000000.

Definition next_delay (pending : gmap string inventoryRetry) (uid : string) : Z :=
  let delay := Z.min (2 * match pending !! uid with Some retry => inventoryRetry.delay retry | None => 0%Z end)%Z (30 * second)%Z in
  if (delay =? 0)%Z then second else delay.

(** [onlyExpectedObservationError]: every error joined or wrapped is a changed observation or a cancellation. *)
Fixpoint onlyExpectedObservationError (err : error) : bool :=
  error_eqb err ErrPoolObservationChanged || error_eqb err ContextCanceled ||
  match err with
  | Wrapf (_ :: _ as causes) _ => forallb onlyExpectedObservationError causes
  | _ => false
  end.

Definition earliest (pending : gmap string inventoryRetry) : option Z :=
  map_fold (fun _ retry acc => Some match acc with None => inventoryRetry.due retry | Some due => Z.min due (inventoryRetry.due retry) end) None pending.

(** [timerDelay], which is asked only when something is pending. *)
Definition timerDelay (pending : gmap string inventoryRetry) (now : Z) : Z := Z.max 0 (time_Sub (default 0%Z (earliest pending)) now).

Definition in_pass (only : option (gmap string bool)) (uid : string) : bool :=
  match only with None => true | Some only => default false (only !! uid) end.

Definition updateInventoryRetries (pending : gmap string inventoryRetry) (only retry : option (gmap string bool)) (now : Z) : gmap string inventoryRetry :=
  let retry := match retry with
               | Some retry => retry
               | None => (fun _ => true) <$> filter (fun '(uid, _) => in_pass only uid = true) pending
               end in
  let kept := filter (fun '(uid, _) => in_pass only uid && negb (default false (retry !! uid)) = false) pending in
  map_imap (fun uid needed => if needed : bool then
                                let delay := next_delay kept uid in Some {| inventoryRetry.due := (now + delay)%Z; inventoryRetry.delay := delay |}
                              else None) retry ∪ kept.
