(* ===== verification/ReadinessSafety.v ===== *)
(** * Pool readiness: safety

    What a pass of the readiness reconciler may do to a Pool: probe it, record a status,
    approve its registration and release its identity. *)

From S2P Require Import Prelude RecordUpdate Bytes Filepath VolumeIdentity CapacityUnit Apimachinery Registration GoTime ApiServer VolumeState PoolApi Capacity.
From S2P Require Import Kube MobilitySample Oracle Provisioning Readiness.

Ltac pool_step :=
  match goal with
  | |- runs _ (_ ≫= _) _ _ => apply runs_bind
  | |- runs _ (mret _) _ _ => apply runs_ret
  | |- runs _ (io_fail _) _ _ => apply runs_fail
  | |- runs _ (io_lift _) _ _ => apply runs_lift
  | |- runs _ (attempt _) _ _ => apply runs_attempt
  | |- runs _ (io_reject_if ?b _) _ _ => apply runs_reject; intros ?
  | |- runs _ (let _ := _ in _) _ _ => cbv zeta
  end.
Ltac pool_run := repeat (pool_step; cbv beta iota).

Section safety.
Context {AM : Apimachinery} {SC : StatusConditions} {O : Oracle pool_call} (r : Reconciler).

(** ** Conditions *)

Lemma find_conditions cs result generation :
  FindStatusCondition (foldl SetStatusCondition cs (conditions result generation)) PoolConditionReady =
  Some (condition PoolConditionReady (readyCheck result) generation).
Proof. unfold conditions. rewrite !foldl_app. cbn [foldl]. by rewrite find_set, bool_decide_true. Qed.

Lemma condition_true_set cs t check generation t' :
  condition_true (SetStatusCondition cs (condition t check generation)) t' = if t == t' then succeeded check else condition_true cs t'.
Proof.
  unfold condition_true. rewrite find_set. simpl. destruct (t == t'); [|done]. simpl. unfold succeeded. by destruct (Check.Known check), (Check.OK check).
Qed.

Lemma condition_true_remove cs t t' : condition_true (RemoveStatusCondition cs t) t' = if t == t' then false else condition_true cs t'.
Proof. unfold condition_true. rewrite find_remove. by destruct (t == t'). Qed.

Lemma measured_ready pool result now :
  condition_true (PoolStatus.Conditions (measured pool result now)) PoolConditionReady = Check.OK (readyCheck result).
Proof.
  unfold condition_true. change (PoolStatus.Conditions (measured pool result now))
    with (foldl SetStatusCondition (PoolStatus.Conditions (Pool.Status pool)) (conditions result (Pool.Generation pool))).
  rewrite find_conditions. simpl. unfold readyCheck. destruct (List.find _ _); [done|]. by destruct (_ || _).
Qed.

(** A Pool is reported ready only when each check that was made passed and the filesystem has room. *)
Lemma readyCheck_spec result :
  Check.OK (readyCheck result) = true <->
  Forall (fun check => succeeded check = true) (ordered_checks result) /\
  (0 < Filesystem.AvailableBytes (Result_.Filesystem result))%Z /\ (0 < Filesystem.AvailableInodes (Result_.Filesystem result))%Z.
Proof.
  unfold readyCheck. destruct (List.find _ _) as [check|] eqn:Hf.
  - apply List.find_some in Hf as [Hin Hs]. split; [done|]. intros [Hall _]. rewrite Forall_forall in Hall. rewrite Hall in Hs; [done|by apply list_elem_of_In].
  - assert (Forall (fun check => succeeded check = true) (ordered_checks result)) as Hall.
    { rewrite Forall_forall. intros check Hin. pose proof (List.find_none _ _ Hf check) as H. apply list_elem_of_In in Hin. specialize (H Hin). by apply negb_false_iff in H. }
    destruct (Z.leb_spec (Filesystem.AvailableBytes (Result_.Filesystem result)) 0), (Z.leb_spec (Filesystem.AvailableInodes (Result_.Filesystem result)) 0); simpl;
      (split; [intros; split_and!; done || lia|intros (_ & H1 & H2); lia || done]).
Qed.

(** ** The status of one Pool *)

(** The observation allows new placement. *)
Definition placeable (pool : Pool) (result : Result) : Prop :=
  Check.OK (readyCheck result) = true /\ Check.OK (ConfigurationCheck pool) = true /\ Pool.DeletionTimestamp pool = None.

Definition inventoried (pool : Pool) (inventory : option PoolInventory) (h : history pool_call) : Prop :=
  exists candidate now observed, inventory = Some observed /\ Pool.UID candidate = Pool.UID pool /\ Event (TakeInventory candidate now) observed ∈ h.

(** What a status says of its observation. *)
Definition status_sound (pool : Pool) (result : Result) (status : PoolStatus) : Prop :=
  (forall identity, PoolStatus.MountIdentity (Pool.Status pool) = Some identity -> PoolStatus.MountIdentity status = Some identity) /\
  (forall unit, PoolStatus.CapacityUnit (Pool.Status pool) = Some unit -> PoolStatus.CapacityUnit status = Some unit) /\
  (condition_true (PoolStatus.Conditions status) PoolConditionReady = true -> placeable pool result) /\
  (PoolStatus.RegistrationApproved status = true -> RegistrationApproved pool = false ->
   placeable pool result /\ completeInventory (PoolStatus.Inventory status) = true).

(** Calls that change nothing. *)
Definition observing (e : event pool_call) : bool :=
  match e with Event c _ => match c with SetPoolStatus _ _ _ _ | Release _ | Inspect _ => false | _ => true end end.

Lemma observedInventory_spec pool result status now h :
  runs (fun _ e => observing e = true) (observedInventory r pool result status now) h (fun got h' => match got with
    | Ok inventory => Reconciler.Inventory r = true -> completeInventory inventory = true -> inventoried pool inventory h'
    | Err _ => True
    end).
Proof.
  unfold observedInventory. destruct (_ && Reconciler.Inventory r); pool_run.
  { apply runs_perform; [done|]. intros inventory. pool_run. intros _ _. exists pool, now, inventory. split_and!; [done|done|by left]. }
  repeat (match goal with |- runs _ (if ?b then _ else _) _ _ => destruct b eqn:?Hb end; [pool_run; try (by intros _ [=])|]).
  { intros Hi. apply negb_true_iff in Hb3. congruence. }
  pool_run. apply runs_perform; [done|]. intros inventory. pool_run. intros _ _. eexists _, now, inventory. split_and!; [done| |by left]. done.
Qed.

Lemma restrict_spec pool result now :
  let status := restrict pool (measured pool result now) (Check.OK (readyCheck result)) in
  PoolStatus.MountIdentity status = PoolStatus.MountIdentity (Pool.Status pool) /\ PoolStatus.CapacityUnit status = PoolStatus.CapacityUnit (Pool.Status pool) /\
  PoolStatus.RegistrationApproved status = RegistrationApproved pool /\
  (condition_true (PoolStatus.Conditions status) PoolConditionReady = true -> placeable pool result).
Proof.
  unfold restrict, placeable. cbv zeta. destruct (Check.OK (ConfigurationCheck pool)) eqn:Hconfig; cbn [negb andb].
  2:{ split_and!; [done..|]. unfold set_condition. change (PoolStatus.Conditions (assign ?v ?s)) with v. rewrite condition_true_set, bool_decide_true by done.
      unfold succeeded. rewrite Hconfig, andb_false_r. done. }
  destruct (is_nil (Pool.DeletionTimestamp pool)) eqn:Hdel; cbn [negb andb].
  - split_and!; [done..|]. rewrite measured_ready. intros H. split_and!; [done|done|]. by destruct (Pool.DeletionTimestamp pool).
  - destruct (Check.OK (readyCheck result)) eqn:Hready; (split_and!; [done..|]).
    + unfold set_condition. change (PoolStatus.Conditions (assign ?v ?s)) with v. rewrite condition_true_set, bool_decide_true by done. done.
    + rewrite measured_ready. by rewrite Hready.
Qed.

Lemma register_spec pool result status :
  let status' := register pool result status in
  PoolStatus.Conditions status' = PoolStatus.Conditions status /\ PoolStatus.Inventory status' = PoolStatus.Inventory status /\
  (forall identity, PoolStatus.MountIdentity status = Some identity -> PoolStatus.MountIdentity status' = Some identity) /\
  (forall unit, PoolStatus.CapacityUnit status = Some unit -> PoolStatus.CapacityUnit status' = Some unit) /\
  (PoolStatus.RegistrationApproved status' = true -> PoolStatus.RegistrationApproved status = false ->
   Check.OK (ConfigurationCheck pool) = true /\ Pool.DeletionTimestamp pool = None).
Proof.
  unfold register. cbv zeta. set (s1 := if is_nil (Pool.DeletionTimestamp pool) && _ then _ else _).
  assert (H1 : PoolStatus.Conditions s1 = PoolStatus.Conditions status /\ PoolStatus.Inventory s1 = PoolStatus.Inventory status /\
    PoolStatus.MountIdentity s1 = PoolStatus.MountIdentity status /\ PoolStatus.CapacityUnit s1 = PoolStatus.CapacityUnit status /\
    (PoolStatus.RegistrationApproved s1 = true -> PoolStatus.RegistrationApproved status = false ->
     Check.OK (ConfigurationCheck pool) = true /\ Pool.DeletionTimestamp pool = None)).
  { subst s1. destruct (Check.OK (ConfigurationCheck pool)), (Pool.DeletionTimestamp pool); simpl; split_and!; try done; congruence. }
  clearbody s1. destruct H1 as (<- & <- & <- & <- & H1). set (s2 := if _ && is_nil (PoolStatus.MountIdentity s1) then _ else _).
  assert (H2 : PoolStatus.Conditions s2 = PoolStatus.Conditions s1 /\ PoolStatus.Inventory s2 = PoolStatus.Inventory s1 /\
    (forall identity, PoolStatus.MountIdentity s1 = Some identity -> PoolStatus.MountIdentity s2 = Some identity) /\
    PoolStatus.CapacityUnit s2 = PoolStatus.CapacityUnit s1 /\ PoolStatus.RegistrationApproved s2 = PoolStatus.RegistrationApproved s1).
  { subst s2. destruct (PoolStatus.MountIdentity s1) eqn:E; [rewrite andb_false_r; by rewrite E|]. destruct (_ && _); by split_and!. }
  clearbody s2. destruct H2 as (<- & <- & Hm & <- & Ha). rewrite <- Ha in H1. destruct (PoolStatus.CapacityUnit s2) eqn:E; cbn [is_nil].
  - rewrite andb_false_r. cbn [andb]. by rewrite E.
  - destruct (_ && Check.OK (Result_.Independent result)); by split_and!.
Qed.

Lemma observedStatus_spec pool result now h :
  runs (fun _ e => observing e = true) (observedStatus r pool result now) h (fun got h' => match got with
    | Ok (status, cleanupReady) => status_sound pool result status /\ cleanupReady = ownObservationReady pool result /\
        (Reconciler.Inventory r = true -> completeInventory (PoolStatus.Inventory status) = true -> inventoried pool (PoolStatus.Inventory status) h')
    | Err _ => True
    end).
Proof.
  unfold observedStatus. cbv zeta. rewrite measured_ready. pool_run. eapply runs_mono; [apply observedInventory_spec|done|]. intros [inventory|err] l Hi; [|done].
  pool_run. destruct (restrict_spec pool result now) as (Hm & Hc & Ha & Hr). set (s1 := restrict _ _ _) in *. clearbody s1.
  set (s2 := s1 <| PoolStatus.Inventory := inventory |>). destruct (register_spec pool result s2) as (Rc & Ri & Rm & Ru & Ra).
  destruct (Check.OK (readyCheck result) && completeInventory inventory) eqn:Hready.
  - apply andb_prop in Hready as [Hready Hcomplete]. set (s3 := register pool result s2) in *. clearbody s3.
    split_and!; [unfold status_sound; change (PoolStatus.Conditions (assign ?v ?s)) with v; split_and!|done|].
    + intros identity H. apply Rm. change (PoolStatus.MountIdentity s1 = Some identity). by rewrite Hm.
    + intros unit H. apply Ru. change (PoolStatus.CapacityUnit s1 = Some unit). by rewrite Hc.
    + rewrite condition_true_remove, bool_decide_false by done. rewrite Rc. exact Hr.
    + intros Happ Hnot. destruct (Ra Happ) as [Hcfg Hdel]; [change (PoolStatus.RegistrationApproved s1 = false); by rewrite Ha|]. split; [done|].
      change (completeInventory (PoolStatus.Inventory s3) = true). by rewrite Ri.
    + change (Reconciler.Inventory r = true -> completeInventory (PoolStatus.Inventory s3) = true -> inventoried pool (PoolStatus.Inventory s3) (l ++ h)). by rewrite Ri.
  - clear Rc Ri Rm Ru Ra. split_and!; [unfold status_sound; change (PoolStatus.Conditions (assign ?v ?s)) with v; split_and!|done|exact Hi].
    + intros identity H. change (PoolStatus.MountIdentity s1 = Some identity). by rewrite Hm.
    + intros unit H. change (PoolStatus.CapacityUnit s1 = Some unit). by rewrite Hc.
    + rewrite condition_true_remove, bool_decide_false by done. exact Hr.
    + intros Happ Hnot. change (PoolStatus.RegistrationApproved s1 = true) in Happ. congruence.
Qed.

(** ** Calls *)

(** A result rests on what the inspector answered: a failed or missing check is never improved. *)
Definition derived (answer result : Result) : Prop :=
  Result_.Accessible result = Result_.Accessible answer /\ Result_.Writable result = Result_.Writable answer /\
  Result_.CapacityReadable result = Result_.CapacityReadable answer /\ Result_.Filesystem result = Result_.Filesystem answer /\
  Result_.CapacityUnit result = Result_.CapacityUnit answer /\ Result_.MountIdentity result = Result_.MountIdentity answer /\
  (Check.OK (Result_.Backing result) = true -> Result_.Backing result = Result_.Backing answer) /\
  (Check.OK (Result_.Mounted result) = true -> Result_.Mounted result = Result_.Mounted answer).

Lemma derived_trans a b c : derived a b -> derived b c -> derived a c.
Proof.
  intros (A1 & A2 & A3 & A4 & A5 & A6 & A7 & A8) (B1 & B2 & B3 & B4 & B5 & B6 & B7 & B8). split_and!; [congruence..| |].
  - intros H. rewrite B7 in * by done. auto.
  - intros H. rewrite B8 in * by done. auto.
Qed.

Definition inspected (pool : Pool) (result : Result) (h : history pool_call) : Prop :=
  exists candidate answer, Event (Inspect candidate) answer ∈ h /\ Pool.UID candidate = Pool.UID pool /\ derived answer result.

#[export] Instance inspected_persistent pool result : Persistent (inspected pool result).
Proof. intros e h (candidate & answer & H & Hrest). exists candidate, answer. split; [by right|done]. Qed.

#[export] Instance inventoried_persistent pool inventory : Persistent (inventoried pool inventory).
Proof. intros e h (candidate & now & observed & H1 & H2 & H3). exists candidate, now, observed. split_and!; [done|done|by right]. Qed.

(** What a pass has established about a Pool when it records a status. *)
Definition status_written (pool : Pool) (status : PoolStatus) (h : history pool_call) : Prop :=
  (forall identity, PoolStatus.MountIdentity (Pool.Status pool) = Some identity -> PoolStatus.MountIdentity status = Some identity) /\
  (forall unit, PoolStatus.CapacityUnit (Pool.Status pool) = Some unit -> PoolStatus.CapacityUnit status = Some unit) /\
  (condition_true (PoolStatus.Conditions status) PoolConditionReady = true -> exists result, inspected pool result h /\ placeable pool result) /\
  (PoolStatus.RegistrationApproved status = true -> RegistrationApproved pool = false ->
   exists result pools, inspected pool result h /\ placeable pool result /\ completeInventory (PoolStatus.Inventory status) = true /\
     (Reconciler.Inventory r = true -> inventoried pool (PoolStatus.Inventory status) h) /\
     Event ListPoolRegistrations (Ok pools) ∈ h /\ current_registration pool pools = true).

(** What a call about one Pool requires of the calls before it. *)
Definition pool_call_ok (pool : Pool) (allocation : allocationObservation) (h : history pool_call) (e : event pool_call) : Prop :=
  match e with
  | Event c _ =>
      match c with
      | Inspect candidate => Pool.UID candidate = Pool.UID pool /\ skipRegistrationProbe pool allocation = false
      | Release released => released = pool /\ Pool.DeletionTimestamp pool <> None /\ Pool.IdentityReleaseApproval pool = Pool.UID pool /\
          (DeletingUnapprovedFixedBlock pool = true \/ exists result, inspected pool result h /\ ownObservationReady pool result = true) /\
          (Reconciler.Inventory r = true -> exists inventory, inventoried pool (Some inventory) h /\ emptyInventory (Some inventory) = true)
      | SetPoolStatus name uid nodeName status => name = Pool.Name pool /\ uid = Pool.UID pool /\ nodeName = Reconciler.NodeName r /\ status_written pool status h
      | _ => True
      end
  end.

Lemma observing_ok pool allocation h e : observing e = true -> pool_call_ok pool allocation h e.
Proof. destruct e as [A c a]. by destruct c. Qed.

Lemma inspectPool_spec pool allocation h :
  runs (pool_call_ok pool allocation) (inspectPool pool allocation) h (fun got h' => match got with
    | Ok result => succeeded (Result_.Accessible result) = true -> inspected pool result h'
    | Err _ => True
    end).
Proof.
  unfold inspectPool. cbv zeta. apply runs_bind.
  eapply (runs_mono (pool_call_ok pool allocation) _ _ _ (fun got h' => match got with
    | Ok result => succeeded (Result_.Accessible result) = true -> inspected pool result h' | Err _ => True end)); [|done|].
  - destruct (skipRegistrationProbe pool allocation) eqn:Hskip; pool_run; [done|]. apply runs_perform; [intros answer; split; [|done]|].
    { unfold with_unit. by destruct (PoolStatus.CapacityUnit _). }
    intros answer. pool_run. set (result := answer <| _ := _ |>). intros _. eexists _, answer. split_and!; [by left|unfold with_unit; by destruct (PoolStatus.CapacityUnit _)|].
    destruct (_ && Check.OK _); by split_and!.
  - intros [result|err] l Hresult; [|done]. pool_run.
    set (s1 := if Pool.CapacityPolicy pool != "" then _ else _). assert (D1 : derived result s1).
    { subst s1. destruct (Pool.CapacityPolicy pool != ""); [|by split_and!]. destruct (Check.Reason (Result_.Backing result) == ""); [by split_and!|].
      destruct (Check.OK (Result_.Backing result)) eqn:E; cbn [negb]; split_and!; try done. }
    clearbody s1. set (s2 := if _ && negb (Check.Known (Result_.Mounted s1)) && _ then _ else _). assert (D2 : derived s1 s2).
    { subst s2. destruct (_ && _ && _); by split_and!. }
    clearbody s2. set (s3 := if _ && Check.OK (Result_.Mounted s2) && _ then _ else s2). assert (D3 : derived s2 s3).
    { subst s3. destruct (_ && _ && _); by split_and!. }
    clearbody s3. pose proof (derived_trans _ _ _ D1 (derived_trans _ _ _ D2 D3)) as Hd. intros Ha.
    destruct Hresult as (candidate & answer & Hin & Hu & Hd'); [by destruct Hd as [<- _]|]. exists candidate, answer. split_and!; [done|done|].
    by eapply derived_trans.
Qed.

(** ** Observations of the node *)

Lemma poolWork_spec {A : Type} (P : history pool_call -> event pool_call -> Prop) uid (run : io (history pool_call) A) h (Q : result A -> Prop) :
  (forall h e, observing e = true -> P h e) -> (forall err, Q (Err err)) -> (forall h, runs P run h (fun got _ => Q got)) ->
  runs P (poolWork uid run) h (fun got _ => Q got).
Proof.
  intros HP HE Hrun. unfold poolWork. apply runs_bind, runs_ask; [by auto|]. intros [?|err]; [|done].
  apply runs_bind, runs_ask; [by auto|]. intros [?|err]; [|done]. apply runs_bind, runs_attempt. eapply runs_mono; [apply Hrun|done|].
  intros got l HQ. apply runs_bind, runs_ask; [by auto|]. intros [?|err]; [|done]. by apply runs_lift.
Qed.

Lemma capacityObservation_observes pool held h : runs (fun _ e => observing e = true) (capacityObservation pool held) h (fun _ _ => True).
Proof.
  unfold capacityObservation. repeat match goal with |- runs _ (if ?b then _ else _) _ _ => destruct b; [by pool_run|] end.
  apply runs_bind, runs_attempt, runs_ask; [done|]. intros [?|err]; [|by pool_run]. cbv zeta.
  assert (Hrun : forall h, runs (fun _ e => observing e = true) ('(unit, check) ← perform (InspectCapacityUnit pool);
      mret {| allocationObservation.unit := unit; allocationObservation.backing := check; allocationObservation.independent := unchecked |}) h (fun _ _ => True)).
  { intros h'. apply runs_bind, runs_perform; [done|]. intros [unit check]. by pool_run. }
  destruct held; [apply Hrun|]. apply runs_bind, runs_attempt. eapply runs_mono; [by apply (poolWork_spec (fun _ e => observing e = true) _ _ _ (fun _ => True))|done|].
  intros [observed|err] l _; by pool_run.
Qed.

Lemma observe_allocations_observes pools heldUID results h :
  runs (fun _ e => observing e = true) (observe_allocations r pools heldUID results) h (fun _ _ => True).
Proof.
  revert results h. induction pools as [|pool pools IH]; intros results h; simpl; [by pool_run|]. destruct (Pool.NodeName pool != _); [apply IH|].
  apply runs_bind. eapply runs_mono; [apply capacityObservation_observes|done|]. intros [observed|err] l _; [apply IH|done].
Qed.

Lemma capacityIsolation_observes pools heldUID h : runs (fun _ e => observing e = true) (capacityIsolation r pools heldUID) h (fun _ _ => True).
Proof.
  unfold capacityIsolation. cbv zeta. apply runs_bind. eapply runs_mono; [apply observe_allocations_observes|done|]. intros [results|err] l _; by pool_run.
Qed.

(** Before it is approved, the registration is read again and compared with the one observed. *)
Lemma recheckRegistration_spec pool result h :
  runs (fun _ e => observing e = true) (recheckRegistration r pool result) h (fun got h' => match got with
    | Ok result' => derived result result' /\ exists pools, Event ListPoolRegistrations (Ok pools) ∈ h' /\ current_registration pool pools = true
    | Err _ => True
    end).
Proof.
  unfold recheckRegistration. apply runs_bind, runs_ask; [done|]. intros [pools|err]; [|done]. apply runs_bind, runs_reject; [done|].
  intros Hc. apply negb_false_iff in Hc. apply runs_bind. eapply runs_mono; [apply capacityIsolation_observes|done|]. intros [isolation|err] l _; [|done]. pool_run. split.
  - destruct (Pool.CapacityPolicy pool == PoolCapacityPolicyFixedBlock); [|by split_and!]. set (check := allocationObservation.backing _).
    destruct (Check.OK check) eqn:E; cbn [negb].
    + destruct (Unit.SameCapacityUnit _ _); cbn [negb]; [destruct (negb _); by split_and!|]. by split_and!.
    + change (Check.OK (Result_.Backing (assign check ?x))) with (Check.OK check). rewrite E. cbn [negb]. split_and!; try done.
      change (Check.OK check = true -> check = Result_.Backing result). congruence.
  - exists pools. split; [|done]. apply elem_of_app. right. by left.
Qed.

(** ** One Pool *)

Lemma placeable_accessible pool result : placeable pool result -> succeeded (Result_.Accessible result) = true.
Proof.
  intros (H & _ & _). apply readyCheck_spec in H as [H _]. unfold ordered_checks in H. rewrite !Forall_app in H. destruct H as (_ & _ & H & _).
  by inversion H.
Qed.

Lemma own_accessible pool result : ownObservationReady pool result = true -> succeeded (Result_.Accessible result) = true.
Proof. unfold ownObservationReady. simpl. intros H. apply andb_prop in H as [_ H]. by apply andb_prop in H as [H _]. Qed.

Lemma status_recorded pool result status h :
  (succeeded (Result_.Accessible result) = true -> inspected pool result h) -> status_sound pool result status ->
  (Reconciler.Inventory r = true -> completeInventory (PoolStatus.Inventory status) = true -> inventoried pool (PoolStatus.Inventory status) h) ->
  (PoolStatus.RegistrationApproved status = true -> RegistrationApproved pool = false ->
   exists pools, Event ListPoolRegistrations (Ok pools) ∈ h /\ current_registration pool pools = true) ->
  status_written pool status h.
Proof.
  intros Hi (Hm & Hu & Hr & Ha) Hv Hl. split_and!; [done|done| |].
  - intros H. exists result. specialize (Hr H). split; [|done]. eauto using placeable_accessible.
  - intros H H'. destruct (Ha H H') as [Hp Hc], (Hl H H') as (pools & Hin & Hcur). exists result, pools. split_and!; try done; eauto using placeable_accessible.
Qed.

(** What is known of the storage when the release is decided. *)
Definition cleanup_known (pool : Pool) (status : PoolStatus) (cleanupReady : bool) (h : history pool_call) : Prop :=
  (cleanupReady = true -> exists result, inspected pool result h /\ ownObservationReady pool result = true) /\
  (Reconciler.Inventory r = true -> completeInventory (PoolStatus.Inventory status) = true -> inventoried pool (PoolStatus.Inventory status) h).

#[local] Instance cleanup_known_persistent pool status cleanupReady : Persistent (cleanup_known pool status cleanupReady).
Proof.
  intros e h [H1 H2]. split; [intros H; destruct (H1 H) as (result & H' & ?); exists result; split; [|done]|intros H H'; specialize (H2 H H')]; by apply persistent.
Qed.

#[local] Instance status_written_persistent pool status : Persistent (status_written pool status).
Proof.
  intros e h (H1 & H2 & H3 & H4). split_and!; [done|done| |].
  - intros H. destruct (H3 H) as (result & Hi & Hp). exists result. split; [by apply persistent|done].
  - intros H H'. destruct (H4 H H') as (result & pools & Hi & Hp & Hc & Hv & Hl & Hcur). exists result, pools.
    split_and!; [by apply persistent|done|done| |by right|done]. intros H''. by apply persistent, Hv.
Qed.

Lemma recordIdentityRelease_spec pool allocation status cleanupReady h :
  status_written pool status h -> cleanup_known pool status cleanupReady h ->
  runs (pool_call_ok pool allocation) (recordIdentityRelease r pool status cleanupReady) h (fun got h' => match got with
    | Ok (status', _) => status_written pool status' h'
    | Err _ => True
    end).
Proof.
  intros Hw [Hc Hi]. unfold recordIdentityRelease. destruct (Pool.DeletionTimestamp pool) as [t|] eqn:Hd; cbn [is_nil]; [|by pool_run].
  assert (Hset : forall check h', status_written pool status h' -> status_written pool (set_condition status (condition PoolConditionIdentityReleased check (Pool.Generation pool))) h').
  { intros check h' (H1 & H2 & H3 & H4). unfold set_condition. split_and!; [exact H1|exact H2| |exact H4].
    change (PoolStatus.Conditions (assign ?v ?s)) with v. rewrite condition_true_set, bool_decide_false by done. exact H3. }
  apply runs_bind. unfold identityRelease.
  destruct (RegistrationApproved pool && _); [pool_run; by apply Hset|].
  destruct (Pool.IdentityReleaseApproval pool == Pool.UID pool) eqn:Hrel; cbn [negb]; [|pool_run; by apply Hset].
  destruct (_ && emptyInventory _) eqn:He; [|pool_run; by apply Hset].
  destruct (Reconciler.Release r); cbn [negb]; [|pool_run; by apply Hset].
  apply andb_prop in He as [Hcl He]. apply bool_decide_eq_true in Hrel.
  apply runs_bind, runs_attempt, runs_ask.
  - intros answer. split_and!; [done|by rewrite Hd|done| |].
    + apply orb_prop in Hcl as [H|H]; [right; auto|by left].
    + intros Hinv. pose proof He as Hcomplete. apply andb_prop in Hcomplete as [Hcomplete _]. specialize (Hi Hinv Hcomplete).
      destruct (PoolStatus.Inventory status) as [inventory|]; [|done]. by exists inventory.
  - intros [?|err]; [destruct (DeletingUnapprovedFixedBlock pool)|]; pool_run; apply Hset; by apply persistent.
Qed.

Lemma retired_written pool now h : status_written pool (retired_status pool now) h.
Proof.
  assert (Ha : PoolStatus.RegistrationApproved (retired_status pool now) = RegistrationApproved pool) by done.
  split_and!; [done|done| |congruence]. unfold retired_status, set_condition. change (PoolStatus.Conditions (assign ?v ?s)) with v.
  by rewrite condition_true_set, bool_decide_true.
Qed.

Lemma cleanup_observed pool result status h :
  (succeeded (Result_.Accessible result) = true -> inspected pool result h) ->
  (Reconciler.Inventory r = true -> completeInventory (PoolStatus.Inventory status) = true -> inventoried pool (PoolStatus.Inventory status) h) ->
  cleanup_known pool status (ownObservationReady pool result) h.
Proof. intros Hi Hv. split; [|done]. intros H. exists result. split; [|done]. eauto using own_accessible. Qed.

(** The observation that is recorded: the first, or the one made after the registration was refused. *)
Lemma recheck_spec pool allocation result status cleanupReady now h :
  cleanupReady = ownObservationReady pool result ->
  (succeeded (Result_.Accessible result) = true -> inspected pool result h) -> status_sound pool result status ->
  (Reconciler.Inventory r = true -> completeInventory (PoolStatus.Inventory status) = true -> inventoried pool (PoolStatus.Inventory status) h) ->
  runs (pool_call_ok pool allocation)
    (if negb (RegistrationApproved pool) && PoolStatus.RegistrationApproved status then
       result ← recheckRegistration r pool result;
       if negb (Check.OK (Result_.Independent result)) && (Check.Reason (Result_.Independent result) != "")
       then observedStatus r pool result now else mret (status, cleanupReady)
     else mret (status, cleanupReady)) h (fun got h' => match got with
    | Ok (status, cleanupReady) => status_written pool status h' /\ cleanup_known pool status cleanupReady h'
    | Err _ => True
    end).
Proof.
  intros -> Hi Hs Hv. destruct (negb (RegistrationApproved pool) && PoolStatus.RegistrationApproved status) eqn:Happ.
  - apply runs_bind. eapply runs_mono; [apply recheckRegistration_spec|intros; by apply observing_ok|]. intros [result'|err] l Hr; [|done].
    destruct Hr as (Hd & pools & Hin & Hcur).
    assert (Hi' : succeeded (Result_.Accessible result') = true -> inspected pool result' (l ++ h)).
    { intros H. rewrite (proj1 Hd) in H. destruct (Hi H) as (candidate & answer & H1 & H2 & H3). exists candidate, answer.
      split_and!; [apply elem_of_app; by right|done|]. by eapply derived_trans. }
    match goal with |- runs _ (if ?b then _ else _) _ _ => destruct b end.
    + eapply runs_mono; [apply observedStatus_spec|intros; by apply observing_ok|]. intros [[status' cleanupReady]|err] l' H; [|done].
      destruct H as (Hs' & -> & Hv'). assert (Hi'' : succeeded (Result_.Accessible result') = true -> inspected pool result' (l' ++ l ++ h)) by (intros; apply (persists (inspected pool result')); auto).
      split; [eapply status_recorded; eauto|by eapply cleanup_observed].
      intros _ _. exists pools. split; [apply elem_of_app; by right|done].
    + assert (Hi'' : succeeded (Result_.Accessible result) = true -> inspected pool result (l ++ h)) by (intros; apply (persists (inspected pool result)); auto).
      apply runs_ret. split; [eapply status_recorded; eauto|apply cleanup_observed; [done|]]; intros; apply (persists (inventoried _ _)); auto.
  - apply runs_ret. split; [eapply status_recorded; eauto|by eapply cleanup_observed]. intros Ha Hn. by rewrite Ha, Hn in Happ.
Qed.

Lemma reconcilePool_spec pool allocation h :
  runs (pool_call_ok pool allocation) (reconcilePool r pool allocation) h (fun _ _ => True).
Proof.
  unfold reconcilePool. apply runs_bind, runs_perform; [done|]. intros now. destruct (Pool.RegistrationRetired pool && _).
  { apply runs_bind. unfold write_status. apply runs_ask; [intros answer; split_and!; try done; apply retired_written|]. intros [?|err]; by pool_run. }
  apply runs_bind. eapply runs_mono; [apply inspectPool_spec|done|]. intros [result|err] l Hi; [|done].
  apply runs_bind, runs_ask; [done|]. intros [?|err]; [|done].
  apply runs_bind. eapply runs_mono; [apply observedStatus_spec|intros; by apply observing_ok|]. intros [[status cleanupReady]|err] l1 Hs; [|done].
  destruct Hs as (Hs & Hc & Hv). apply runs_bind, runs_ask; [done|]. intros [?|err]; [|done].
  apply runs_bind. eapply runs_mono; [apply recheck_spec; [exact Hc| |exact Hs|]|done|].
  { intros H. apply persistent, (persists (inspected pool result)), persistent. auto. }
  { intros H H'. apply persistent. auto. }
  clear status cleanupReady Hs Hc Hv. intros [[status cleanupReady]|err] l2 H; [|done]. destruct H as [Hw Hk].
  apply runs_bind, runs_ask; [done|]. intros [?|err]; [|done]. cbv zeta. apply runs_bind.
  eapply runs_mono; [apply recordIdentityRelease_spec; apply persistent; eassumption|done|]. intros [[status' releaseErr]|err] l3 Hw'; [|done].
  apply runs_bind, runs_attempt, runs_ask; [done|]. intros [?|err]; [|by pool_run]. apply runs_bind, runs_attempt. unfold write_status.
  apply runs_ask; [intros answer; split_and!; try done; by apply persistent|]. intros answer. by pool_run.
Qed.

(** ** A pass *)

(** A call of a pass only observes, or is about a Pool of this node that the pass has listed. *)
Definition pass_call_ok (h : history pool_call) (e : event pool_call) : Prop :=
  observing e = true \/
  exists pools pool allocation, Event ListPoolRegistrations (Ok pools) ∈ h /\ pool ∈ pools /\ Pool.NodeName pool = Reconciler.NodeName r /\
    pool_call_ok pool allocation h e.

Lemma observe_each_spec pools isolation chosen h :
  Event ListPoolRegistrations (Ok pools) ∈ h -> (forall pool, pool ∈ chosen -> pool ∈ pools /\ Pool.NodeName pool = Reconciler.NodeName r) ->
  runs pass_call_ok (observe_each r isolation chosen) h (fun _ _ => True).
Proof.
  revert h. induction chosen as [|pool chosen IH]; intros h Hl Hin; simpl; [by pool_run|]. destruct (Hin pool) as [Hp Hn]; [by left|].
  apply runs_bind, runs_attempt. eapply (runs_mono (fun h e => pool_call_ok pool (observed_of isolation (Pool.UID pool)) h e /\
    Event ListPoolRegistrations (Ok pools) ∈ h)).
  - apply (runs_frame (fun h => Event ListPoolRegistrations (Ok pools) ∈ h)); [done|].
    apply (poolWork_spec _ _ _ _ (fun _ => True)); [intros; by apply observing_ok|done|]. intros h'. apply reconcilePool_spec.
  - intros h' e [He Hl']. right. by exists pools, pool, (observed_of isolation (Pool.UID pool)).
  - intros got l [_ Hl']. apply runs_bind. eapply runs_mono; [apply IH; [done|]|done|].
    + intros pool' H. apply Hin. by right.
    + intros [rest|err] l' _; by pool_run.
Qed.

Lemma reconcile_spec only h : runs pass_call_ok (reconcile r only) h (fun _ _ => True).
Proof.
  unfold reconcile. apply runs_bind, runs_attempt, runs_bind, runs_lift. destruct (validate r) as [[]|err]; [|by pool_run]. apply runs_ask; [by left|]. intros [?|err]; [|by pool_run].
  apply runs_bind, runs_attempt, runs_ask; [by left|]. intros [pools|err]; [|by pool_run].
  apply runs_bind. eapply runs_mono; [apply capacityIsolation_observes|by left|]. intros [isolation|err] l _; [|done].
  set (h1 := l ++ _). assert (Hl : Event ListPoolRegistrations (Ok pools) ∈ h1) by (apply elem_of_app; right; by left). clearbody h1.
  assert (Hchosen : forall f pool, pool ∈ List.filter f (List.filter (selected r only) pools) -> pool ∈ pools /\ Pool.NodeName pool = Reconciler.NodeName r).
  { intros f pool H. rewrite !list_elem_of_In, !filter_In in *. destruct H as [[H Hs] _]. split; [done|]. apply andb_prop in Hs as [Hs _].
    by apply bool_decide_eq_true in Hs. }
  apply runs_bind. unfold observeSelectedPools. cbv zeta. apply runs_bind. eapply runs_mono;
    [apply (runs_frame (fun h => Event ListPoolRegistrations (Ok pools) ∈ h)); [exact Hl|eapply observe_each_spec; [exact Hl|apply Hchosen]]|by intros ? ? []|].
  intros [registered|err] l1 [_ Hl1]; [|done]. apply runs_bind. eapply runs_mono; [eapply observe_each_spec; [exact Hl1|apply Hchosen]|done|].
  intros [candidates|err] l2 _; [|done]. apply runs_ret. apply runs_bind, runs_attempt, runs_ask; [by left|]. intros answer. by pool_run.
Qed.

End safety.

(** ** The schedule of retries *)

(** The delay of a Pool that must be observed again: doubled from the last, from one second to thirty. *)
Definition backoff (last : option inventoryRetry) : Z :=
  match last with
  | Some retry => if (inventoryRetry.delay retry =? 0)%Z then second else Z.min (2 * inventoryRetry.delay retry) (30 * second)
  | None => second
  end.

Lemma updateInventoryRetries_lookup pending only retry now uid :
  updateInventoryRetries pending only (Some retry) now !! uid =
  if default false (retry !! uid) then let delay := backoff (pending !! uid) in Some {| inventoryRetry.due := now + delay; inventoryRetry.delay := delay |}
  else if in_pass only uid then None else pending !! uid.
Proof.
  unfold updateInventoryRetries. cbv zeta. set (kept := filter _ pending).
  assert (Hkept : kept !! uid = if in_pass only uid && negb (default false (retry !! uid)) then None else pending !! uid).
  { subst kept. rewrite map_lookup_filter. destruct (pending !! uid); simpl; [|by destruct (_ && _)]. destruct (in_pass only uid && _); by case_guard. }
  rewrite lookup_union, map_lookup_imap. destruct (retry !! uid) as [[]|]; simpl in *; rewrite ?andb_true_r, ?andb_false_r in Hkept.
  - unfold next_delay. rewrite Hkept. unfold backoff. destruct (pending !! uid) as [[due delay]|]; simpl; [|done].
    destruct (Z.eqb_spec delay 0) as [->|Hne]; [done|]. destruct (Z.eqb_spec (Z.min (2 * delay) (30 * second)) 0) as [E|]; [unfold second in *; lia|].
    done.
  - rewrite Hkept. by destruct (in_pass only uid), (pending !! uid).
  - rewrite Hkept. by destruct (in_pass only uid), (pending !! uid).
Qed.

(** Every scheduled delay stays between one second and thirty. *)
Lemma updateInventoryRetries_bounds pending only retry now :
  map_Forall (fun _ entry => second <= inventoryRetry.delay entry <= 30 * second)%Z pending ->
  map_Forall (fun _ entry => second <= inventoryRetry.delay entry <= 30 * second)%Z (updateInventoryRetries pending only (Some retry) now).
Proof.
  intros Hp uid entry. rewrite updateInventoryRetries_lookup. destruct (default false (retry !! uid)).
  - intros [= <-]. simpl. unfold backoff. destruct (pending !! uid) as [last|] eqn:E; [|unfold second; lia]. specialize (Hp _ _ E). simpl in Hp.
    destruct (Z.eqb_spec (inventoryRetry.delay last) 0); unfold second in *; lia.
  - destruct (in_pass only uid); [done|]. apply Hp.
Qed.

(** ** A sample node *)

Module SampleReadiness.
Fixpoint set_status (cs : list Condition) (c : Condition) : list Condition :=
  match cs with
  | [] => [c]
  | x :: cs => if Condition.Type_ x == Condition.Type_ c then c :: cs else x :: set_status cs c
  end.

Definition remove_status (cs : list Condition) (t : string) : list Condition := List.filter (fun c => Condition.Type_ c != t) cs.

Lemma find_set_status cs c t : Sample.find (set_status cs c) t = if Condition.Type_ c == t then Some c else Sample.find cs t.
Proof.
  induction cs as [|x cs IH]; simpl; [done|]. repeat case_bool_decide; simpl; repeat case_bool_decide; try congruence.
Qed.

Lemma find_remove_status cs t t' : Sample.find (remove_status cs t) t' = if t == t' then None else Sample.find cs t'.
Proof.
  induction cs as [|x cs IH]; simpl; [by case_bool_decide|]. repeat case_bool_decide; simpl; repeat case_bool_decide; try congruence.
Qed.

#[export] Instance conditions_sample : StatusConditions (AM := Sample.sample) :=
  Build_StatusConditions Sample.sample set_status remove_status find_set_status find_remove_status.

Definition reconciler : Reconciler := {| Reconciler.NodeName := "node-a"; Reconciler.Configured := true; Reconciler.Inventory := true; Reconciler.Release := true |}.

(** A new registration. *)
Definition pool : Pool := SampleMobility.pool_a <| Pool.PoolGroup := "fast" |> <| Pool.Status := {| PoolStatus.RegistrationApproved := false; PoolStatus.CapacityProbeSupported := false;
  PoolStatus.CapacityProbe := None; PoolStatus.FilesystemTotalBytes := 0; PoolStatus.FilesystemAvailableBytes := None;
  PoolStatus.FilesystemAvailableInodes := None; PoolStatus.ObservedGeneration := 0; PoolStatus.LastProbeTime := None; PoolStatus.CapacityUnit := None;
  PoolStatus.MountIdentity := None; PoolStatus.Conditions := []; PoolStatus.Inventory := None |} |>.

Definition passed (reason : string) : Check := {| Check.OK := true; Check.Known := true; Check.Reason := reason; Check.Message := "" |}.

Definition healthy : Result := {| Result_.RetryInventory := false; Result_.Backing := passed "CapacityBackingVerified"; Result_.Independent := unchecked;
  Result_.CapacityUnit := Some (SamplePool.unit_at 0); Result_.Accessible := passed "DirectoryAccessible"; Result_.Mounted := unchecked; Result_.Writable := passed "ProbeSucceeded";
  Result_.CapacityReadable := passed "StatFSSucceeded";
  Result_.Filesystem := {| Filesystem.TotalBytes := 100; Filesystem.AvailableBytes := 50; Filesystem.AvailableInodes := 10 |};
  Result_.MountIdentity := None |}.

Definition inventory : PoolInventory := {| PoolInventory.ObservedAt := None; PoolInventory.Valid := true; PoolInventory.Truncated := false;
  PoolInventory.Reason := ""; PoolInventory.Message := ""; PoolInventory.Copies := [] |}.

Definition oracle : Oracle pool_call := fun A h c =>
  match c in pool_call A return A with
  | ListPoolRegistrations => Ok [pool]
  | SetPoolStatus _ _ _ _ | Release _ | BeginWork _ | AwaitWork _ | ContextErr => Ok tt
  | Inspect _ => healthy
  | InspectCapacityUnit _ => (Some (SamplePool.unit_at 0), passed "CapacityBackingVerified")
  | TakeInventory _ _ => inventory
  | Time => 7%Z
  end.

Definition approves (e : event pool_call) : bool :=
  match e with Event (SetPoolStatus _ _ _ status) _ => PoolStatus.RegistrationApproved status | _ => false end.

Definition log : history pool_call := snd (reconcile (AM := Sample.sample) (O := oracle) reconciler None []).
End SampleReadiness.

