(* ===== verification/Ownership.v ===== *)
(** * Ownership of copies on a node

    src/node/ownership: opening a Pool's store and its volume locks (store.go), creating
    the first serving copy (serving.go, creation_receipt.go), filling and promoting an
    incoming copy (transfer.go), reclaiming a copy (reclaim.go, purge_linux.go) and
    cancelling a creation (creation_cancel.go).  Each operation runs under the lock of
    its volume; the API authority it consults is an argument. *)

From S2P Require Import Prelude Bytes Json Filepath VolumeIdentity NodeDisk OwnershipMarkers.

(** ** store.go *)

Definition pool_of (identity : CopyIdentity) : PoolIdentity :=
  {| PoolIdentity.InstallationID := InstallationID identity; PoolIdentity.PoolUID := PoolUID identity |}.

(** [validateDirectory] *)
Definition validateDirectory (x : dir) : io disk unit :=
  fstat;; fstat;;
  s ← get (fun d => subdirs d !! x);
  e ← get euid;
  io_lift (match s with
           | Some (Directory perm uid) => reject_if (negb (N.land perm 18 =? 0)%N || negb (uid =? e)%N) ErrIdentity
           | _ => Err ENOTDIR
           end).

Definition validateControl : io disk unit := validateDirectory Control;; validateDirectory Placements.

(** [unix.Mkdirat] that may find the directory. *)
Definition mkdir_if_missing (x : dir) : io disk unit :=
  r ← attempt (mkdir_dir x 448);
  match r with
  | Ok _ => mret tt
  | Err err => io_reject_if (negb (error_is err EEXIST)) err
  end.

Section store.
Context `{NodeEnv}.

Definition open (root : string) (identity : PoolIdentity) (initialize : bool) : io disk unit :=
  io_reject_if (negb (IsAbs root) || negb (ValidIdentityToken (PoolIdentity.InstallationID identity)) ||
                negb (ValidIdentityToken (PoolIdentity.PoolUID identity))) ErrIdentity;;
  path ← get pool_path;
  (if path == root then open_dir Root else tick;; io_fail ENOENT);;
  (if initialize then mkdir_if_missing Control else mret tt);;
  open_dir Control;;
  (if initialize then mkdir_if_missing Placements else mret tt);;
  open_dir Placements;;
  validateControl;;
  if initialize then ensureMarker "pool.json" identity else checkMarker "pool.json" identity.

Definition Open (root : string) (identity : PoolIdentity) : io disk unit := open root identity true.
Definition OpenExisting (root : string) (identity : PoolIdentity) : io disk unit := open root identity false.

(** [acquire] with the flags of [Acquire] or [AcquireExisting]; a lock that another
    process holds is busy. *)
Definition acquire (pool : PoolIdentity) (volumeID : string) (flag : openflag) (mode : N) : io disk unit :=
  tick;;
  io_lift (ValidateID volumeID);;
  openControl ("lock-" +:+ volumeID) flag mode;;
  tick;;
  held ← get (fun d => bool_decide ("lock-" +:+ volumeID ∈ busy d));
  io_reject_if held ErrBusy;;
  tick;;
  checkMarker "pool.json" pool.

Definition Acquire (pool : PoolIdentity) (volumeID : string) : io disk unit := acquire pool volumeID ReadWriteCreate 384.
Definition AcquireExisting (pool : PoolIdentity) (volumeID : string) : io disk unit := acquire pool volumeID ReadOnly 0.

(** [withLock] *)
Definition withLock (root : string) (pool : PoolIdentity) (volumeID : string) (existingOnly : bool) (operation : io disk unit) :
    io disk unit :=
  OpenExisting root pool;;
  (if existingOnly then AcquireExisting pool volumeID else Acquire pool volumeID);;
  operation.

Definition WithLock (root : string) (pool : PoolIdentity) (volumeID : string) (operation : io disk unit) : io disk unit :=
  withLock root pool volumeID false operation.
Definition WithExistingLock (root : string) (pool : PoolIdentity) (volumeID : string) (operation : io disk unit) : io disk unit :=
  withLock root pool volumeID true operation.
End store.

(** [placementFor] on an open directory. *)
Definition placementFor (fd : N * N) (identity : CopyIdentity) : io disk placement :=
  fstat;; mret {| Placement.Identity := identity; Placement.Device := fst fd; Placement.Inode := snd fd |}.

Definition verifyPath (k : dir * string) (record : placement) (expected : CopyIdentity) : io disk unit :=
  io_reject_if ((Placement.Identity record != expected) || (Placement.Device record =? 0)%N || (Placement.Inode record =? 0)%N)
    ErrIdentity;;
  fd ← open_copy k;
  actual ← attempt (placementFor fd expected);
  match actual with
  | Ok actual => io_reject_if (actual != record) ErrIdentity
  | Err _ => io_fail ErrIdentity
  end.

(** ** serving.go *)

Definition copyMarkerExists (identity : CopyIdentity) : io disk bool :=
  r ← attempt (checkMarker (copyMarker (CopyID identity)) identity);
  match r with
  | Ok _ => mret true
  | Err err => if error_is err ErrNotExist then mret false else io_fail err
  end.

Definition VerifyServing (identity : CopyIdentity) : io disk unit :=
  checkMarker (copyMarker (CopyID identity)) identity;;
  record ← readPlacement (CopyID identity);
  open_dir Volumes;;
  verifyPath (Volumes, VolumeID identity) record identity.

Definition stage_name (identity : CopyIdentity) : string := "create-" +:+ CopyID identity.

(** [resumeServingPlacement] *)
Definition resumeServingPlacement (identity : CopyIdentity) (record : placement) (markerExisted : bool) : io disk bool :=
  io_reject_if (negb markerExisted) (Wrapf [ErrNeedsReview] "%w: serving placement exists without copy intent");;
  io_reject_if (Placement.Identity record != identity) ErrIdentity;;
  served ← attempt (verifyPath (Volumes, VolumeID identity) record identity);
  match served with
  | Ok _ => mret true
  | Err err =>
      io_reject_if (negb (error_is err ENOENT)) err;;
      verifyPath (Incoming, stage_name identity) record identity;;
      mret false
  end.

(** [stagedPlacement] *)
Definition stagedPlacement (identity : CopyIdentity) : io disk placement :=
  fd ← open_copy (Incoming, stage_name identity);
  tick;;
  placementFor fd identity.

(** [unix.Mkdirat] of a copy that may exist. *)
Definition mkdirat_existing `{NodeEnv} (k : dir * string) : io disk unit :=
  r ← attempt (mkdirat k);
  match r with
  | Ok _ => mret tt
  | Err err => io_reject_if (negb (error_is err EEXIST)) err
  end.

(** [errors.Join] of a number of [Fsync] calls. *)
Fixpoint sync_all (n : nat) : io disk (list (result unit)) :=
  match n with
  | O => mret []
  | S n => r ← attempt fsync; rest ← sync_all n; mret (r :: rest)
  end.
Definition join_syncs (n : nat) : io disk unit := results ← sync_all n; io_lift (join results).

Section serving.
Context `{NodeEnv}.

(** [stageServingCopy] *)
Definition stageServingCopy (identity : CopyIdentity) (markerExisted : bool) : io disk placement :=
  finalExists ← pathExists (Volumes, VolumeID identity);
  io_reject_if finalExists (Wrapf [ErrNeedsReview] "%w: serving directory exists without placement receipt");;
  stageExists ← pathExists (Incoming, stage_name identity);
  (if negb markerExisted then
     io_reject_if stageExists (Wrapf [ErrNeedsReview] "%w: unrecorded serving stage");;
     ensureMarker (copyMarker (CopyID identity)) identity
   else mret tt);;
  mkdirat_existing (Incoming, stage_name identity);;
  record ← stagedPlacement identity;
  ensurePlacementMarker (CopyID identity) record;;
  mret record.

(** The last part of [ensureServing]: the stage becomes the serving copy. *)
Definition publishStage (identity : CopyIdentity) (record : placement) : io disk unit :=
  renamed ← attempt (renameDirectory (Incoming, stage_name identity) (Volumes, VolumeID identity));
  match renamed with
  | Err err => if error_is err EEXIST then io_fail (Wrapf [ErrNeedsReview] "%w: unrecorded serving directory") else io_fail err
  | Ok _ => mret tt
  end;;
  verifyPath (Volumes, VolumeID identity) record identity;;
  join_syncs 4.

Definition ensureServing (pool : PoolIdentity) (identity : CopyIdentity) : io disk unit :=
  io_reject_if ((Role identity != RoleServing) || (pool_of identity != pool)) ErrIdentity;;
  io_lift (Validate identity);;
  markerExisted ← copyMarkerExists identity;
  openOrCreateDirectory Volumes 493;;
  openOrCreateDirectory Incoming 448;;
  placed ← attempt (readPlacement (CopyID identity));
  match placed with
  | Ok record =>
      served ← resumeServingPlacement identity record markerExisted;
      if served : bool then join_syncs 2 else publishStage identity record
  | Err err =>
      io_reject_if (negb (error_is err ErrNotExist)) err;;
      record ← stageServingCopy identity markerExisted;
      publishStage identity record
  end.

Definition PrepareServing (root : string) (identity : CopyIdentity) (authority : io disk unit) : io disk unit :=
  authority;;
  Open root (pool_of identity);;
  Acquire (pool_of identity) (VolumeID identity);;
  authority;;
  ensureServing (pool_of identity) identity;;
  authority.

(** [VerifyServingPath] *)
Definition VerifyServingPath (root : string) (identity : CopyIdentity) : io disk unit :=
  io_reject_if ((Role identity != RoleServing) || negb (is_ok (Validate identity))) ErrIdentity;;
  OpenExisting root (pool_of identity);;
  VerifyServing identity.

(** creation_receipt.go *)
Definition ServingReceipt (root : string) (identity : CopyIdentity) (authority : io disk unit) : io disk string :=
  Open root (pool_of identity);;
  Acquire (pool_of identity) (VolumeID identity);;
  authority;;
  VerifyServing identity;;
  record ← readPlacement (CopyID identity);
  mret (EncodeToString (Sha256.Sum256 (marshal (to_json record)))).
End serving.

(** ** purge_linux.go *)

Definition purge_too_deep : error := Errorf "purge depth exceeds 256".

(** [openPurgeDirectory]: [unix.Openat2] beneath the parent, without links and without
    crossing into another filesystem. *)
Definition openPurgeDirectory (k : dir * string) : io disk (N * N * list (string * tree)) :=
  tick;;
  e ← get (fun d => entries d !! k);
  device ← get pool_device;
  io_lift (match e with
           | None => Err ENOENT
           | Some (Copy d i children) => if (d =? device)%N then Ok (d, i, children) else Err EXDEV
           | Some Symlink => Err ELOOP
           | Some _ => Err ENOTDIR
           end).

(** The faults of the calls on the tree of a copy. *)
Definition tree_tick (l : list (option nat)) : result unit * list (option nat) :=
  match l with
  | [] => (Ok tt, [])
  | None :: rest => (Ok tt, rest)
  | Some _ :: rest => (Err EIO, rest)
  end.

(** One pass over a directory: each name is opened as a directory and purged, or
    unlinked.  The result has what is left of the directory; [purge] purges a
    directory below. *)
Fixpoint purge_pass (purge : list (string * tree) -> list (option nat) -> result unit * list (string * tree) * list (option nat))
    (device : N) (children : list (string * tree)) (l : list (option nat)) :
    result unit * list (string * tree) * list (option nat) :=
  match children with
  | [] => let '(r, l) := tree_tick l in (r, [], l)
  | (name, child) :: rest =>
      match tree_tick l with
      | (Err err, l) => (Err err, children, l)
      | (Ok _, l) =>
          let '(purged, remaining, l) :=
            match child with
            | Leaf => (Ok tt, Leaf, l)
            | Branch d grandchildren =>
                if (d =? device)%N
                then let '(r, remaining, l) := purge grandchildren l in (r, Branch d remaining, l)
                else (Err EXDEV, child, l)
            end in
          match purged with
          | Err err => (Err err, (name, remaining) :: rest, l)
          | Ok _ =>
              match tree_tick l with
              | (Err err, l) => (Err err, (name, remaining) :: rest, l)
              | (Ok _, l) => purge_pass purge device rest l
              end
          end
      end
  end.

(** [purgeContents]; [fuel] is 257 minus the depth. *)
Fixpoint purgeContents (fuel : nat) (device : N) (children : list (string * tree)) (l : list (option nat)) :
    result unit * list (string * tree) * list (option nat) :=
  match fuel with
  | O => (Err purge_too_deep, children, l)
  | S fuel =>
      match tree_tick l with
      | (Err err, l) => (Err err, children, l)
      | (Ok _, l) => purge_pass (purgeContents fuel device) device children l
      end
  end.

(** [unix.Unlinkat(parent, name, AT_REMOVEDIR)] *)
Definition rmdirat (k : dir * string) : io disk unit :=
  tick;;
  e ← get (fun d => entries d !! k);
  match e with
  | None => io_fail ENOENT
  | Some (Copy _ _ []) => put (fun d => set_entries d (delete k (entries d)))
  | Some (Copy _ _ _) => io_fail ENOTEMPTY
  | Some _ => io_fail ENOTDIR
  end.

(** [purgeContents] on the directory of a copy. *)
Definition purge_copy (k : dir * string) : io disk unit := fun d =>
  match entries d !! k with
  | Some (Copy device inode children) =>
      let '(r, remaining, l) := purgeContents 257 device children (faults d) in
      (r, set_faults (set_entries d (<[k := Copy device inode remaining]> (entries d))) l)
  | _ => (Err ENOTDIR, d)
  end.

Definition preflightPurge : io disk unit := tick.

Definition purgeRetired (intent : localIntent) : io disk unit :=
  let k := (Retired, CopyID (LocalIntent.Target intent)) in
  open_dir Retired;;
  child ← attempt (openPurgeDirectory k);
  match child with
  | Err err => io_reject_if (negb (error_is err ENOENT)) err
  | Ok (device, inode, _) =>
      st ← attempt fstat;
      io_reject_if (negb (is_ok st) || negb (device =? LocalIntent.Device intent)%N || negb (inode =? LocalIntent.Inode intent)%N)
        ErrIdentity;;
      purge_copy k;;
      close;;
      rmdirat k;;
      fsync
  end.

(** ** reclaim.go *)

(** [openIdentityDirectory] *)
Definition openIdentityDirectory (k : dir * string) (device inode : N) : io disk unit :=
  fd ← open_copy k;
  fstat;;
  io_reject_if (negb (fst fd =? device)%N || negb (snd fd =? inode)%N) ErrIdentity.

(** The directory and name of a copy in its role; [None] for an unknown role. *)
Definition role_path (identity : CopyIdentity) : option (dir * string) :=
  if Role identity == RoleServing then Some (Volumes, VolumeID identity)
  else if Role identity == RoleIncoming then Some (Incoming, CopyID identity)
  else if Role identity == RoleRetired then Some (Retired, CopyID identity)
  else None.

(** [openRoleParent] *)
Definition openRoleParent (identity : CopyIdentity) : io disk (dir * string) :=
  match role_path identity with
  | Some k => open_dir (fst k);; mret k
  | None => io_fail ErrIdentity
  end.

Definition verifyCurrentPath (record : placement) : io disk unit :=
  k ← openRoleParent (Placement.Identity record);
  verifyPath k record (Placement.Identity record).

Definition verifyAbsent (target : CopyIdentity) : io disk unit :=
  match role_path target with
  | None => io_fail ErrIdentity
  | Some k =>
      parent ← attempt (open_dir (fst k));
      match parent with
      | Err err => io_reject_if (negb (error_is err ENOENT)) err
      | Ok _ =>
          fd ← attempt (open_copy k);
          match fd with
          | Ok _ => io_fail (Wrapf [ErrNeedsReview] "%w: cleanup target still exists")
          | Err err => io_reject_if (negb (error_is err ENOENT)) err
          end
      end
  end.

Definition exactDirectoryPresent (k : dir * string) (intent : localIntent) : io disk bool :=
  fd ← attempt (openIdentityDirectory k (LocalIntent.Device intent) (LocalIntent.Inode intent));
  match fd with
  | Err err => if error_is err ENOENT then mret false else io_fail err
  | Ok _ => close;; mret true
  end.

(** Whether the exact directory is there; a missing parent counts as absent. *)
Definition present_under (k : dir * string) (intent : localIntent) : io disk bool :=
  parent ← attempt (open_dir (fst k));
  match parent with
  | Err err => if error_is err ENOENT then mret false else io_fail err
  | Ok _ => exactDirectoryPresent k intent
  end.

Definition cleanupEffectStarted (target : CopyIdentity) (intent : localIntent) : io disk bool :=
  match role_path target with
  | None => io_fail ErrIdentity
  | Some k =>
      sourcePresent ← present_under k intent;
      if Role target == RoleRetired then mret (negb sourcePresent)
      else
        retiredPresent ← present_under (Retired, CopyID target) intent;
        io_reject_if (sourcePresent && retiredPresent) ErrIdentity;;
        mret (negb sourcePresent || retiredPresent)
  end.

Definition readLocalIntent (target : CopyIdentity) (operationID : string) : io disk (option localIntent) :=
  r ← attempt (readMarker (A := localIntent) (operationMarker "cleanup" operationID));
  match r with
  | Err err => if error_is err ErrNotExist then mret None else io_fail err
  | Ok intent =>
      io_reject_if ((LocalIntent.OperationID intent != operationID) || (LocalIntent.Target intent != target)) ErrIdentity;;
      mret (Some intent)
  end.

Definition retire (target : CopyIdentity) (intent : localIntent) : io disk unit :=
  openOrCreateDirectory Retired 448;;
  k ← openRoleParent target;
  let identified k := attempt (openIdentityDirectory k (LocalIntent.Device intent) (LocalIntent.Inode intent)) in
  source ← identified k;
  if Role target == RoleRetired then
    match source with
    | Ok _ => close
    | Err err => io_reject_if (negb (error_is err ENOENT)) err
    end
  else
    destination ← identified (Retired, CopyID target);
    match source, destination with
    | Ok _, Ok _ => io_fail ErrIdentity
    | Ok _, Err err =>
        io_reject_if (negb (error_is err ENOENT)) err;;
        renameDirectory k (Retired, CopyID target);;
        join_syncs 3
    | Err err, destination =>
        io_reject_if (negb (error_is err ENOENT)) err;;
        match destination with
        | Err err => io_reject_if (negb (error_is err ENOENT)) err
        | Ok _ => close
        end
    end.

Definition receiptDigest (receipt : Receipt) : string := EncodeToString (Sha256.Sum256 (canonical receipt)).

(** A call with its error wrapped. *)
Definition wrapped {A : Type} (format : string) (c : io disk A) : io disk A :=
  r ← attempt c;
  match r with
  | Ok a => mret a
  | Err err => io_fail (Wrapf [err] format)
  end.

(** [replayReclaimReceipt]; [None] when there is no receipt yet. *)
Definition replayReclaimReceipt (target : CopyIdentity) (operationID : string) (authority : bool -> io disk unit) :
    io disk (option (Receipt * string)) :=
  r ← attempt (readMarker (A := Receipt) (operationMarker "receipt" operationID));
  match r with
  | Err err => if error_is err ErrNotExist then mret None else io_fail err
  | Ok completed =>
      io_reject_if ((Receipt.OperationID completed != operationID) || (Receipt.Target completed != target) ||
                    negb (Receipt.Retired completed) || negb (Receipt.Purged completed)) ErrIdentity;;
      authority true;;
      verifyAbsent target;;
      wrapped "finish cleanup metadata: %w"
        (removeCopyMetadata target (Receipt.Device completed) (Receipt.Inode completed));;
      mret (Some (completed, receiptDigest completed))
  end.

Section reclaim.
Context `{NodeEnv}.

Definition ensureLocalIntent (target : CopyIdentity) (operationID : string) (placed : placement) : io disk localIntent :=
  let name := operationMarker "cleanup" operationID in
  r ← attempt (readMarker (A := localIntent) name);
  match r with
  | Ok existing =>
      io_reject_if ((LocalIntent.OperationID existing != operationID) || (LocalIntent.Target existing != target) ||
                    negb (LocalIntent.Device existing =? Placement.Device placed)%N ||
                    negb (LocalIntent.Inode existing =? Placement.Inode placed)%N) ErrIdentity;;
      mret existing
  | Err err =>
      io_reject_if (negb (error_is err ErrNotExist)) err;;
      verifyCurrentPath placed;;
      let intent := {| LocalIntent.OperationID := operationID; LocalIntent.Target := target;
                       LocalIntent.Device := Placement.Device placed; LocalIntent.Inode := Placement.Inode placed |} in
      ensureMarker name intent;;
      mret intent
  end.

Definition confirmFreshReclaimTarget (target : CopyIdentity) (operationID : string) (journal : option localIntent) :
    io disk localIntent :=
  wrapped "verify copy identity: %w" (checkMarker (copyMarker (CopyID target)) target);;
  read ← attempt (readPlacement (CopyID target));
  match read with
  | Err err => io_fail (Wrapf [Wrapf [err; ErrIdentity] ""] "verify copy placement: %w")
  | Ok placed =>
      io_reject_if (Placement.Identity placed != target) (Wrapf [Wrapf [ErrIdentity] ""] "verify copy placement: %w");;
      match journal with
      | Some intent =>
          io_reject_if (negb (LocalIntent.Device intent =? Placement.Device placed)%N ||
                        negb (LocalIntent.Inode intent =? Placement.Inode placed)%N) ErrIdentity;;
          mret intent
      | None => wrapped "persist local cleanup intent: %w" (ensureLocalIntent target operationID placed)
      end
  end.

Definition prepareReclaimIntent (target : CopyIdentity) (operationID : string) (authority : bool -> io disk unit) :
    io disk (localIntent * bool) :=
  journal ← wrapped "read local cleanup intent: %w" (readLocalIntent target operationID);
  effectStarted ← match journal with
                  | Some intent => wrapped "inspect local cleanup effect: %w" (cleanupEffectStarted target intent)
                  | None => mret false
                  end;
  authority effectStarted;;
  match journal, effectStarted with
  | Some intent, true => mret (intent, true)
  | _, _ => intent ← confirmFreshReclaimTarget target operationID journal; mret (intent, false)
  end.

Definition applyReclaimEffect (target : CopyIdentity) (intent : localIntent) (effectStarted : bool)
    (authority : bool -> io disk unit) : io disk unit :=
  tick;;
  wrapped "recheck cleanup authority before filesystem effect: %w" (authority effectStarted);;
  wrapped "verify safe purge support: %w" preflightPurge;;
  wrapped "retire cleanup target: %w" (retire target intent);;
  wrapped "purge retired target: %w" (purgeRetired intent).

Definition settleReclaim (target : CopyIdentity) (operationID : string) (intent : localIntent) : io disk (Receipt * string) :=
  let receipt := {| Receipt.OperationID := operationID; Receipt.Target := target;
                    Receipt.Device := LocalIntent.Device intent; Receipt.Inode := LocalIntent.Inode intent;
                    Receipt.Retired := true; Receipt.Purged := true |} in
  wrapped "persist local cleanup receipt: %w" (ensureMarker (operationMarker "receipt" operationID) receipt);;
  wrapped "verify cleanup absence: %w" (verifyAbsent target);;
  wrapped "finish cleanup metadata: %w" (removeCopyMetadata target (Receipt.Device receipt) (Receipt.Inode receipt));;
  mret (receipt, receiptDigest receipt).

(** [ReclaimWithResume] *)
Definition ReclaimWithResume (root : string) (target : CopyIdentity) (operationID : string) (authority : bool -> io disk unit) :
    io disk (Receipt * string) :=
  io_reject_if (negb (ValidIdentityToken operationID) || negb (is_ok (Validate target))) ErrIdentity;;
  OpenExisting root (pool_of target);;
  Acquire (pool_of target) (VolumeID target);;
  replayed ← replayReclaimReceipt target operationID authority;
  match replayed with
  | Some outcome => mret outcome
  | None =>
      '(intent, effectStarted) ← prepareReclaimIntent target operationID authority;
      applyReclaimEffect target intent effectStarted authority;;
      settleReclaim target operationID intent
  end.
End reclaim.

(** ** transfer.go *)

Definition VerifyIncoming (identity : CopyIdentity) : io disk unit :=
  io_reject_if (Role identity != RoleIncoming) ErrIdentity;;
  checkMarker (copyMarker (CopyID identity)) identity;;
  placed ← readPlacement (CopyID identity);
  open_dir Incoming;;
  verifyPath (Incoming, CopyID identity) placed identity.

Section transfer.
Context `{NodeEnv}.

Definition ensureIncoming (pool : PoolIdentity) (identity : CopyIdentity) : io disk unit :=
  io_reject_if ((Role identity != RoleIncoming) || (pool_of identity != pool)) ErrIdentity;;
  markerExisted ← copyMarkerExists identity;
  openOrCreateDirectory Incoming 448;;
  current ← attempt (readPlacement (CopyID identity));
  match current with
  | Ok current =>
      io_reject_if (negb markerExisted) (Wrapf [ErrNeedsReview] "%w: incoming placement exists without copy intent");;
      verifyPath (Incoming, CopyID identity) current identity
  | Err err =>
      io_reject_if (negb (error_is err ErrNotExist)) err;;
      directoryExists ← pathExists (Incoming, CopyID identity);
      (if negb markerExisted then
         io_reject_if directoryExists (Wrapf [ErrNeedsReview] "%w: unrecorded incoming directory");;
         ensureMarker (copyMarker (CopyID identity)) identity
       else mret tt);;
      mkdirat_existing (Incoming, CopyID identity);;
      fd ← open_copy (Incoming, CopyID identity);
      placed ← placementFor fd identity;
      recorded ← attempt (ensurePlacementMarker (CopyID identity) placed);
      match recorded with
      | Err _ => io_fail (Wrapf [ErrNeedsReview] "%w: incoming directory created before placement receipt: %v")
      | Ok _ => join_syncs 2
      end
  end.

(** [PopulateIncoming]; [populate] copies the data into the directory of the copy. *)
Definition PopulateIncoming (root : string) (identity : CopyIdentity) (operationID : string) (authority : io disk unit)
    (populate : string -> io disk unit) : io disk unit :=
  io_reject_if ((Role identity != RoleIncoming) || negb (ValidIdentityToken operationID) || negb (is_ok (Validate identity)))
    ErrIdentity;;
  authority;;
  Open root (pool_of identity);;
  Acquire (pool_of identity) (VolumeID identity);;
  authority;;
  ensureIncoming (pool_of identity) identity;;
  let receiptName := operationMarker "copy-receipt" operationID in
  read ← attempt (readMarker (A := transferReceipt) receiptName);
  match read with
  | Ok receipt =>
      io_reject_if ((TransferReceipt.OperationID receipt != operationID) || (TransferReceipt.Identity receipt != identity))
        ErrIdentity;;
      VerifyIncoming identity
  | Err err =>
      io_reject_if (negb (error_is err ErrNotExist)) err;;
      populate (Join [root; ".shiftpv"; "incoming"; CopyID identity]);;
      authority;;
      placed ← attempt (readPlacement (CopyID identity));
      match placed with
      | Err err => io_fail (Wrapf [err; ErrIdentity] "")
      | Ok placed =>
          verified ← attempt (VerifyIncoming identity);
          io_reject_if (negb (is_ok verified)) (Wrapf [ErrIdentity] "");;
          ensureMarker receiptName
            {| TransferReceipt.OperationID := operationID; TransferReceipt.Identity := identity;
               TransferReceipt.Device := Placement.Device placed; TransferReceipt.Inode := Placement.Inode placed |};;
          authority
      end
  end.

Definition validatePromotionRequest (incoming serving : CopyIdentity) (operationID : string) : result unit :=
  reject_if (negb (ValidIdentityToken operationID) || negb (is_ok (Validate incoming)) || negb (is_ok (Validate serving)) ||
             (Role incoming != RoleIncoming) || (Role serving != RoleServing) || (CopyID incoming == CopyID serving) ||
             (InstallationID incoming != InstallationID serving) || (PoolName incoming != PoolName serving) ||
             (PoolUID incoming != PoolUID serving) || (VolumeID incoming != VolumeID serving) ||
             (VolumeUID incoming != VolumeUID serving) || (NodeName incoming != NodeName serving)) ErrIdentity.

(** [replayPromotionReceipt]; [false] when there is no receipt yet. *)
Definition replayPromotionReceipt (operationID : string) (incoming serving : CopyIdentity) : io disk bool :=
  read ← attempt (readMarker (A := transferReceipt) (operationMarker "promotion-receipt" operationID));
  match read with
  | Err err => if error_is err ErrNotExist then mret false else io_fail err
  | Ok receipt =>
      io_reject_if ((TransferReceipt.OperationID receipt != operationID) || (TransferReceipt.Identity receipt != serving))
        ErrIdentity;;
      VerifyServing serving;;
      removeCopyMetadata incoming (TransferReceipt.Device receipt) (TransferReceipt.Inode receipt);;
      mret true
  end.

Definition journalPromotion (operationID : string) (incoming serving : CopyIdentity) : io disk transferIntent :=
  checkMarker (copyMarker (CopyID incoming)) incoming;;
  read ← attempt (readPlacement (CopyID incoming));
  match read with
  | Err err => io_fail (Wrapf [err; ErrIdentity] "")
  | Ok placed =>
      io_reject_if (Placement.Identity placed != incoming) (Wrapf [ErrIdentity] "");;
      let intent := {| TransferIntent.OperationID := operationID; TransferIntent.Incoming := incoming;
                       TransferIntent.Destination := serving; TransferIntent.Device := Placement.Device placed;
                       TransferIntent.Inode := Placement.Inode placed |} in
      ensureMarker (operationMarker "promotion" operationID) intent;;
      ensureMarker (copyMarker (CopyID serving)) serving;;
      mret intent
  end.

Definition publishPromotedDirectory (intent : transferIntent) (incoming serving : CopyIdentity) : io disk unit :=
  source ← attempt (openIdentityDirectory (Incoming, CopyID incoming) (TransferIntent.Device intent) (TransferIntent.Inode intent));
  match source with
  | Err err => io_reject_if (negb (error_is err ENOENT)) err
  | Ok _ =>
      target ← attempt (open_copy (Volumes, VolumeID serving));
      match target with
      | Ok _ => io_fail ErrIdentity
      | Err err =>
          io_reject_if (negb (error_is err ENOENT)) err;;
          renameDirectory (Incoming, CopyID incoming) (Volumes, VolumeID serving)
      end
  end.

Definition sealPromotedPlacement (intent : transferIntent) (serving : CopyIdentity) : io disk placement :=
  fd ← open_copy (Volumes, VolumeID serving);
  st ← attempt (placementFor fd serving);
  match st with
  | Err err => io_fail (Wrapf [err; ErrIdentity] "")
  | Ok placed =>
      io_reject_if (negb (Placement.Device placed =? TransferIntent.Device intent)%N ||
                    negb (Placement.Inode placed =? TransferIntent.Inode intent)%N) (Wrapf [ErrIdentity] "");;
      ensurePlacementMarker (CopyID serving) placed;;
      join_syncs 4;;
      mret placed
  end.

Definition commitPromotion (operationID : string) (incoming serving : CopyIdentity) (placed : placement)
    (authority : io disk unit) : io disk unit :=
  authority;;
  let receipt := {| TransferReceipt.OperationID := operationID; TransferReceipt.Identity := serving;
                    TransferReceipt.Device := Placement.Device placed; TransferReceipt.Inode := Placement.Inode placed |} in
  ensureMarker (operationMarker "promotion-receipt" operationID) receipt;;
  authority;;
  wrapped "finish promotion metadata: %w"
    (removeCopyMetadata incoming (TransferReceipt.Device receipt) (TransferReceipt.Inode receipt));;
  authority.

Definition PromoteIncoming (root : string) (incoming serving : CopyIdentity) (operationID : string) (authority : io disk unit) :
    io disk unit :=
  io_lift (validatePromotionRequest incoming serving operationID);;
  authority;;
  OpenExisting root (pool_of incoming);;
  Acquire (pool_of incoming) (VolumeID incoming);;
  authority;;
  replayed ← replayPromotionReceipt operationID incoming serving;
  if replayed : bool then mret tt
  else
    intent ← journalPromotion operationID incoming serving;
    open_dir Incoming;;
    openOrCreateDirectory Volumes 493;;
    publishPromotedDirectory intent incoming serving;;
    placed ← sealPromotedPlacement intent serving;
    commitPromotion operationID incoming serving placed authority.
End transfer.

(** ** creation_cancel.go *)

(** [metadataPathAbsent] *)
Definition metadataPathAbsent (k : dir * string) : io disk bool :=
  parent ← attempt (open_dir (fst k));
  match parent with
  | Err err => if error_is err ENOENT then mret true else io_fail err
  | Ok _ => exists_ ← pathExists k; mret (negb exists_)
  end.

(** The places of a creation in order: serving, create-stage, retired. *)
Definition creationPaths (target : CopyIdentity) : list (dir * string) :=
  [(Volumes, VolumeID target); (Incoming, stage_name target); (Retired, CopyID target)].

Definition creationPathError (err : error) : error :=
  if error_is err ELOOP || error_is err ENOTDIR then Wrapf [ErrNeedsReview; err] "" else err.

(** [creationPath.observe] *)
Definition observe_path (k : dir * string) (target : CopyIdentity) (requireEmpty : bool) : io disk (option placement) :=
  parent ← attempt (open_dir (fst k));
  match parent with
  | Err err => if error_is err ENOENT then mret None else io_fail (creationPathError err)
  | Ok _ =>
      opened ← attempt (open_copy k);
      match opened with
      | Err err => if error_is err ENOENT then mret None else io_fail (creationPathError err)
      | Ok fd =>
          (if requireEmpty : bool then
             read ← attempt tick;
             children ← get (fun d => match entries d !! k with Some (Copy _ _ children) => children | _ => [] end);
             io_reject_if (negb (is_ok read) || negb (length children =? 0)%nat)
               (Wrapf [ErrNeedsReview] "%w: unplaced creation stage is not provably empty")
           else mret tt);;
          record ← placementFor fd target;
          mret (Some record)
      end
  end.

(** The loop of [observeCreationSource]: the index of the one place that holds a copy. *)
Fixpoint observe_places (target : CopyIdentity) (emptyStage : bool) (index : nat) (paths : list (dir * string))
    (found : option (nat * placement)) : io disk (option (nat * placement)) :=
  match paths with
  | [] => mret found
  | k :: paths =>
      record ← observe_path k target ((index =? 1)%nat && emptyStage);
      match record, found with
      | Some _, Some _ => io_fail (Wrapf [ErrNeedsReview] "%w: multiple creation locations exist")
      | Some record, None => observe_places target emptyStage (S index) paths (Some (index, record))
      | None, found => observe_places target emptyStage (S index) paths found
      end
  end.

Definition observeCreationSource (target : CopyIdentity) (emptyStage : bool) : io disk (option (nat * placement)) :=
  absent ← attempt (metadataPathAbsent (Incoming, CopyID target));
  match absent with
  | Err err => io_fail (Wrapf [err; ErrNeedsReview] "")
  | Ok absent =>
      io_reject_if (negb absent) (Wrapf [ErrNeedsReview] "");;
      observe_places target emptyStage 0 (creationPaths target) None
  end.

Definition verifyCreationAbsent (target : CopyIdentity) : io disk unit :=
  source ← observeCreationSource target false;
  io_reject_if (negb (is_nil source)) (Wrapf [ErrNeedsReview] "%w: a creation location still exists").

(** The zero placement stands for a copy that was not observed. *)
Definition observed_inode (source : option (nat * placement)) : N * N :=
  match source with Some (_, p) => (Placement.Device p, Placement.Inode p) | None => (0%N, 0%N) end.

Definition validateCreationSource (marker : bool) (source : option (nat * placement)) (placed : option placement) : result unit :=
  let at_ n := match source with Some (i, _) => (i =? n)%nat | None => false end in
  reject_if (at_ 2 || (at_ 0 && is_nil placed) || (is_nil source && negb (is_nil placed)) || (negb (is_nil source) && negb marker))
    (Wrapf [ErrNeedsReview] "%w: creation location has no matching intent/placement");;
  reject_if (some_and placed (fun placed => some_and source (fun source => snd source != placed))) ErrIdentity.

Definition validateCreationResume (intent : localIntent) (marker : bool) (source : option (nat * placement))
    (placed : option placement) : result unit :=
  let other p := negb (LocalIntent.Device intent =? Placement.Device p)%N || negb (LocalIntent.Inode intent =? Placement.Inode p)%N in
  reject_if (negb (Bool.eqb (LocalIntent.Device intent =? 0)%N (LocalIntent.Inode intent =? 0)%N) ||
             (negb (LocalIntent.Inode intent =? 0)%N && negb marker) ||
             some_and source (fun source => other (snd source)) || some_and placed other) ErrIdentity.

(** [retireCreation]; an absent or already retired source only needs the parent. *)
Definition retireCreation (target : CopyIdentity) (intent : localIntent) (source : option nat) : io disk unit :=
  match source with
  | Some 0 | Some 1 =>
      let k := if source == Some 0 then (Volumes, VolumeID target) else (Incoming, stage_name target) in
      open_dir (fst k);;
      openIdentityDirectory k (LocalIntent.Device intent) (LocalIntent.Inode intent);;
      openOrCreateDirectory Retired 448;;
      renameDirectory k (Retired, CopyID target);;
      join_syncs 4
  | _ => openOrCreateDirectory Retired 448;; close
  end.

Section cancellation.
Context `{NodeEnv}.

Definition prepareCreationCancellation (target : CopyIdentity) (operationID : string) : io disk (localIntent * option nat) :=
  journal ← readLocalIntent target operationID;
  marker ← copyMarkerExists target;
  read ← attempt (readPlacement (CopyID target));
  placed ← match read with
           | Ok placed => mret (Some placed)
           | Err err => if error_is err ErrNotExist then mret None else io_fail err
           end;
  io_reject_if (some_and placed (fun placed => negb marker || (Placement.Identity placed != target))) ErrIdentity;;
  source ← observeCreationSource target (is_nil placed && is_nil journal);
  match journal with
  | Some intent => io_lift (validateCreationResume intent marker source placed);; mret (intent, fst <$> source)
  | None =>
      io_lift (validateCreationSource marker source placed);;
      let '(device, inode) := observed_inode source in
      let intent := {| LocalIntent.OperationID := operationID; LocalIntent.Target := target;
                       LocalIntent.Device := device; LocalIntent.Inode := inode |} in
      ensureMarker (operationMarker "cleanup" operationID) intent;;
      mret (intent, fst <$> source)
  end.

(** [replayCreationCancellation]; [None] when there is no receipt yet. *)
Definition replayCreationCancellation (target : CopyIdentity) (operationID : string) (authority : bool -> io disk unit) :
    io disk (option (Receipt * string)) :=
  read ← attempt (readMarker (A := Receipt) (operationMarker "receipt" operationID));
  match read with
  | Err err => if error_is err ErrNotExist then mret None else io_fail err
  | Ok receipt =>
      journal ← attempt (readLocalIntent target operationID);
      match journal with
      | Err err => io_fail (Wrapf [err; ErrIdentity] "")
      | Ok None => io_fail (Wrapf [ErrIdentity] "")
      | Ok (Some intent) =>
          io_reject_if ((Receipt.OperationID receipt != operationID) || (Receipt.Target receipt != target) ||
                        negb (Receipt.Retired receipt) || negb (Receipt.Purged receipt) ||
                        negb (Receipt.Device receipt =? LocalIntent.Device intent)%N ||
                        negb (Receipt.Inode receipt =? LocalIntent.Inode intent)%N ||
                        negb (Bool.eqb (Receipt.Device receipt =? 0)%N (Receipt.Inode receipt =? 0)%N)) (Wrapf [ErrIdentity] "");;
          verifyCreationAbsent target;;
          replayReclaimReceipt target operationID authority
      end
  end.

Definition CancelCreation (root : string) (target : CopyIdentity) (operationID : string) (authority : bool -> io disk unit) :
    io disk (Receipt * string) :=
  io_reject_if (negb (IsCreationCancellation target operationID)) ErrIdentity;;
  tick;;
  authority false;;
  Open root (pool_of target);;
  Acquire (pool_of target) (VolumeID target);;
  authority false;;
  replayed ← replayCreationCancellation target operationID authority;
  match replayed with
  | Some outcome => mret outcome
  | None =>
      '(intent, source) ← prepareCreationCancellation target operationID;
      authority (match source with Some 2 | None => true | _ => false end);;
      (if negb (LocalIntent.Inode intent =? 0)%N then
         preflightPurge;;
         retireCreation target intent source;;
         authority true;;
         purgeRetired intent
       else mret tt);;
      authority true;;
      verifyCreationAbsent target;;
      settleReclaim target operationID intent
  end.
End cancellation.
