(* ===== verification/LocalStore.v ===== *)
(** * The store of a Pool, as its clients see it

    Every operation of src/node/ownership consults the authority its caller passes before
    each part that touches the disk.  Here the parts are an interface, and an operation is
    the order of its parts and of its consultations.  On the disk model ([disk_store])
    the operations are those of Ownership; the node executor is proved against the
    interface. *)

From S2P Require Import Prelude Bytes Json VolumeIdentity NodeDisk OwnershipMarkers Ownership.

(** The world [W] is the disk, or the history of a handler that shares it with others. *)
Class LocalStore (W : Type) := {
  (** [ctx.Err()] *)
  check_context : io W unit;
  (** [Open] or [OpenExisting], and [Acquire] *)
  open_store (root : string) (copy : CopyIdentity) : io W unit;
  open_existing (root : string) (copy : CopyIdentity) : io W unit;
  (** serving.go, creation_receipt.go *)
  ensure_serving (copy : CopyIdentity) : io W unit;
  serving_digest (copy : CopyIdentity) : io W string;
  (** reclaim.go: the receipt and the journal of an operation, and whether its effect began *)
  read_receipt (target : CopyIdentity) (operationID : string) : io W (option OwnershipMarkers.Receipt);
  finish_receipt (target : CopyIdentity) (receipt : OwnershipMarkers.Receipt) : io W (OwnershipMarkers.Receipt * string);
  read_journal (target : CopyIdentity) (operationID : string) : io W (option localIntent * bool);
  confirm_target (target : CopyIdentity) (operationID : string) (journal : option localIntent) : io W localIntent;
  destroy (target : CopyIdentity) (intent : localIntent) : io W unit;
  settle (target : CopyIdentity) (operationID : string) (intent : localIntent) : io W (OwnershipMarkers.Receipt * string);
  (** creation_cancel.go *)
  read_cancellation (target : CopyIdentity) (operationID : string) : io W bool;
  prepare_cancellation (target : CopyIdentity) (operationID : string) : io W (localIntent * option nat);
  retire_cancelled (target : CopyIdentity) (intent : localIntent) (source : option nat) : io W unit;
  purge_cancelled (intent : localIntent) : io W unit;
  verify_cancelled (target : CopyIdentity) : io W unit
}.

Definition caught {W A : Type} (c : io W A) : io W (result A) := fun w => let '(r, w) := c w in (Ok r, w).

Definition recheck {W A : Type} (c : io W A) : io W A :=
  r ← caught c;
  match r with
  | Ok a => mret a
  | Err err => io_fail (Wrapf [err] "recheck cleanup authority before filesystem effect: %w")
  end.

Lemma bind_assoc {W A B C : Type} (c : io W A) (k : A -> io W B) (k' : B -> io W C) w :
  ((c ≫= k) ≫= k') w = (c ≫= (fun a => k a ≫= k')) w.
Proof. unfold mbind, io_bind. by destruct (c w) as [[a|e] w']. Qed.

Lemma bind_ret {W A B : Type} (a : A) (k : A -> io W B) w : (mret a ≫= k) w = k a w.
Proof. done. Qed.

Lemma bind_fail {W A B : Type} (err : error) (k : A -> io W B) w : (io_fail err ≫= k) w = io_fail err w.
Proof. done. Qed.

Lemma bind_same {W A B : Type} (c c' : io W A) (k k' : A -> io W B) w :
  c w = c' w -> (forall a w, k a w = k' a w) -> (c ≫= k) w = (c' ≫= k') w.
Proof. intros Hc Hk. unfold mbind, io_bind. rewrite Hc. by destruct (c' w) as [[a|e] w']. Qed.

Lemma bind_ext {W A B : Type} (c : io W A) (k k' : A -> io W B) w : (forall a w, k a w = k' a w) -> (c ≫= k) w = (c ≫= k') w.
Proof. intros Hk. unfold mbind, io_bind. by destruct (c w) as [[a|e] w']. Qed.

Section operations.
Context {W : Type} `{!LocalStore W}.

Definition prepareServing (root : string) (copy : CopyIdentity) (authority : io W unit) : io W unit :=
  authority;;
  open_store root copy;;
  authority;;
  ensure_serving copy;;
  authority.

Definition servingReceipt (root : string) (copy : CopyIdentity) (authority : io W unit) : io W string :=
  open_store root copy;;
  authority;;
  serving_digest copy.

(** [replayReclaimReceipt]; [None] when there is no receipt yet. *)
Definition replayReceipt (target : CopyIdentity) (operationID : string) (authority : bool -> io W unit) :
    io W (option (OwnershipMarkers.Receipt * string)) :=
  found ← read_receipt target operationID;
  match found with
  | None => mret None
  | Some receipt =>
      authority true;;
      outcome ← finish_receipt target receipt;
      mret (Some outcome)
  end.

Definition reclaimWithResume (root : string) (target : CopyIdentity) (operationID : string) (authority : bool -> io W unit) :
    io W (OwnershipMarkers.Receipt * string) :=
  io_reject_if (negb (ValidIdentityToken operationID) || negb (is_ok (Validate target))) OwnershipMarkers.ErrIdentity;;
  open_existing root target;;
  replayed ← replayReceipt target operationID authority;
  match replayed with
  | Some outcome => mret outcome
  | None =>
      '(journal, effectStarted) ← read_journal target operationID;
      authority effectStarted;;
      intent ← match journal, effectStarted with
               | Some intent, true => mret intent
               | _, _ => confirm_target target operationID journal
               end;
      check_context;;
      recheck (authority (effectStarted && negb (is_nil journal)));;
      destroy target intent;;
      settle target operationID intent
  end.

Definition cancelCreation (root : string) (target : CopyIdentity) (operationID : string) (authority : bool -> io W unit) :
    io W (OwnershipMarkers.Receipt * string) :=
  io_reject_if (negb (IsCreationCancellation target operationID)) OwnershipMarkers.ErrIdentity;;
  check_context;;
  authority false;;
  open_store root target;;
  authority false;;
  found ← read_cancellation target operationID;
  replayed ← (if found : bool then replayReceipt target operationID authority else mret None);
  match replayed with
  | Some outcome => mret outcome
  | None =>
      '(intent, source) ← prepare_cancellation target operationID;
      authority (match source with Some 2 | None => true | _ => false end);;
      (if negb (LocalIntent.Inode intent =? 0)%N then
         retire_cancelled target intent source;;
         authority true;;
         purge_cancelled intent
       else mret tt);;
      authority true;;
      verify_cancelled target;;
      settle target operationID intent
  end.
End operations.

(** ** The disk *)

Section disk.
Context `{NodeEnv}.

#[export] Instance disk_store : LocalStore disk := {|
  check_context := tick;
  open_store root copy := Open root (pool_of copy);; Acquire (pool_of copy) (VolumeID copy);
  open_existing root copy := OpenExisting root (pool_of copy);; Acquire (pool_of copy) (VolumeID copy);
  ensure_serving copy := ensureServing (pool_of copy) copy;
  serving_digest copy :=
    VerifyServing copy;;
    record ← readPlacement (CopyID copy);
    mret (EncodeToString (Sha256.Sum256 (marshal (to_json record))));
  read_receipt target operationID :=
    r ← attempt (readMarker (A := OwnershipMarkers.Receipt) (operationMarker "receipt" operationID));
    match r with
    | Err err => if error_is err ErrNotExist then mret None else io_fail err
    | Ok completed =>
        io_reject_if ((OwnershipMarkers.Receipt.OperationID completed != operationID) || (OwnershipMarkers.Receipt.Target completed != target) ||
                      negb (OwnershipMarkers.Receipt.Retired completed) || negb (OwnershipMarkers.Receipt.Purged completed)) OwnershipMarkers.ErrIdentity;;
        mret (Some completed)
    end;
  finish_receipt target completed :=
    verifyAbsent target;;
    wrapped "finish cleanup metadata: %w"
      (removeCopyMetadata target (OwnershipMarkers.Receipt.Device completed) (OwnershipMarkers.Receipt.Inode completed));;
    mret (completed, receiptDigest completed);
  read_journal target operationID :=
    journal ← wrapped "read local cleanup intent: %w" (readLocalIntent target operationID);
    effectStarted ← match journal with
                    | Some intent => wrapped "inspect local cleanup effect: %w" (cleanupEffectStarted target intent)
                    | None => mret false
                    end;
    mret (journal, effectStarted);
  confirm_target := confirmFreshReclaimTarget;
  destroy target intent :=
    wrapped "verify safe purge support: %w" preflightPurge;;
    wrapped "retire cleanup target: %w" (retire target intent);;
    wrapped "purge retired target: %w" (purgeRetired intent);
  settle := settleReclaim;
  read_cancellation target operationID :=
    read ← attempt (readMarker (A := OwnershipMarkers.Receipt) (operationMarker "receipt" operationID));
    match read with
    | Err err => if error_is err ErrNotExist then mret false else io_fail err
    | Ok receipt =>
        journal ← attempt (readLocalIntent target operationID);
        match journal with
        | Err err => io_fail (Wrapf [err; OwnershipMarkers.ErrIdentity] "")
        | Ok None => io_fail (Wrapf [OwnershipMarkers.ErrIdentity] "")
        | Ok (Some intent) =>
            io_reject_if ((OwnershipMarkers.Receipt.OperationID receipt != operationID) || (OwnershipMarkers.Receipt.Target receipt != target) ||
                          negb (OwnershipMarkers.Receipt.Retired receipt) || negb (OwnershipMarkers.Receipt.Purged receipt) ||
                          negb (OwnershipMarkers.Receipt.Device receipt =? LocalIntent.Device intent)%N ||
                          negb (OwnershipMarkers.Receipt.Inode receipt =? LocalIntent.Inode intent)%N ||
                          negb (Bool.eqb (OwnershipMarkers.Receipt.Device receipt =? 0)%N (OwnershipMarkers.Receipt.Inode receipt =? 0)%N))
              (Wrapf [OwnershipMarkers.ErrIdentity] "");;
            verifyCreationAbsent target;;
            mret true
        end
    end;
  prepare_cancellation := prepareCreationCancellation;
  retire_cancelled target intent source := preflightPurge;; retireCreation target intent source;
  purge_cancelled := purgeRetired;
  verify_cancelled := verifyCreationAbsent
|}.

Ltac parts :=
  cbv [check_context open_store open_existing ensure_serving serving_digest read_receipt finish_receipt read_journal confirm_target destroy settle
       read_cancellation prepare_cancellation retire_cancelled purge_cancelled verify_cancelled disk_store].

Ltac same_step :=
  repeat (rewrite ?bind_assoc, ?bind_fail; rewrite bind_ret; cbv beta iota); rewrite ?bind_assoc, ?bind_fail; first
    [ reflexivity
    | apply bind_ext; intros ? ?
    | match goal with |- context [match ?x with _ => _ end] => destruct x end ].

Lemma prepareServing_disk root copy authority d : prepareServing root copy authority d = PrepareServing root copy authority d.
Proof. unfold prepareServing, PrepareServing. parts. repeat same_step. Qed.

Lemma servingReceipt_disk root copy authority d : servingReceipt root copy authority d = ServingReceipt root copy authority d.
Proof. unfold servingReceipt, ServingReceipt. parts. repeat same_step. Qed.

Lemma replayReceipt_disk target operationID authority d :
  replayReceipt target operationID authority d = replayReclaimReceipt target operationID authority d.
Proof. unfold replayReceipt, replayReclaimReceipt. parts. repeat same_step. Qed.
Lemma reclaimWithResume_disk root target operationID authority d :
  reclaimWithResume root target operationID authority d = ReclaimWithResume root target operationID authority d.
Proof.
  unfold reclaimWithResume, ReclaimWithResume, prepareReclaimIntent, applyReclaimEffect. parts. rewrite ?bind_assoc. apply bind_ext. intros _ d1.
  rewrite ?bind_assoc. do 2 (apply bind_ext; intros ? ?). apply bind_same; [apply replayReceipt_disk|]. intros [outcome|] ?; [done|].
  rewrite ?bind_assoc. apply bind_ext. intros [intent|] d2; [|repeat same_step].
  rewrite ?bind_assoc. apply bind_ext. intros [] d3; repeat same_step.
Qed.
Lemma cancelCreation_disk root target operationID authority d :
  cancelCreation root target operationID authority d = CancelCreation root target operationID authority d.
Proof.
  unfold cancelCreation, CancelCreation, replayCreationCancellation. parts. do 6 (rewrite ?bind_assoc; apply bind_ext; intros ? ?).
  rewrite ?bind_assoc. apply bind_ext. intros [receipt|err] ?; [|repeat same_step]. rewrite ?bind_assoc. apply bind_ext.
  intros [[intent|]|err] ?; [|done|done]. rewrite ?bind_assoc. do 2 (apply bind_ext; intros ? ?; rewrite ?bind_assoc). rewrite bind_ret. cbv beta iota.
  apply bind_same; [apply replayReceipt_disk|]. intros [outcome|] ?; [done|]. repeat same_step.
Qed.
End disk.
