(* ===== verification/EffectNode.v ===== *)
(** * The executor of a node

    src/node/executor: the resident process that creates and reclaims the copies of one
    node.  It is driven by a watch ([execute]) and by direct requests ([Execute]); both
    take the lock of the volume, and both consult the durable records again before every
    part of an operation that touches the disk.  This file has the calls of the executor,
    which the client on the controller side shares. *)

From S2P Require Import Prelude RecordUpdate Bytes Filepath VolumeIdentity Apimachinery Registration GoTime ApiServer VolumeState PoolApi MoveApi CleanupJournal Kube.
From S2P Require Import NodeDisk OwnershipMarkers Ownership LocalStore Oracle Provisioning.

(** ** Calls *)

(** The part of a DaemonSet the discovery of executors reads. *)
Module DaemonSet.
Record DaemonSet := { Name : string; Namespace : string; UID : string; ServiceAccountName : string }.
End DaemonSet.
Notation DaemonSet := DaemonSet.DaemonSet.

(** src/node/rpc/protocol and connection: the operation, its request and the endpoint it is sent to. *)
Inductive Operation := OPERATION_UNSPECIFIED | CREATE | RECLAIM.

#[export] Instance Operation_eq_dec : EqDecision Operation.
Proof. solve_decision. Defined.

Module EffectRequest.
Record EffectRequest := { ExecutorUid : string; NodeName : string; VolumeName : string; VolumeUid : string; OperationId : string }.
End EffectRequest.
Notation EffectRequest := EffectRequest.EffectRequest.

Module Target.
Record Target := { Identity : NodeExecutor; Address : string; Certificate : string }.
End Target.
Notation Target := Target.Target.

(** The parts of the operations on the store of a Pool. *)
Inductive store_call : Type -> Type :=
| CheckContext : store_call unit
| OpenStore (root : string) (copy : CopyIdentity) : store_call unit
| OpenExistingStore (root : string) (copy : CopyIdentity) : store_call unit
| EnsureServing (copy : CopyIdentity) : store_call unit
| ServingDigest (copy : CopyIdentity) : store_call string
| ReadReceipt (target : CopyIdentity) (operationID : string) : store_call (option OwnershipMarkers.Receipt)
| FinishReceipt (target : CopyIdentity) (receipt : OwnershipMarkers.Receipt) : store_call (OwnershipMarkers.Receipt * string)
| ReadLocalJournal (target : CopyIdentity) (operationID : string) : store_call (option localIntent * bool)
| ConfirmTarget (target : CopyIdentity) (operationID : string) (journal : option localIntent) : store_call localIntent
| Destroy (target : CopyIdentity) (intent : localIntent) : store_call unit
| Settle (target : CopyIdentity) (operationID : string) (intent : localIntent) : store_call (OwnershipMarkers.Receipt * string)
| ReadCancellation (target : CopyIdentity) (operationID : string) : store_call bool
| PrepareCancellation (target : CopyIdentity) (operationID : string) : store_call (localIntent * option nat)
| RetireCancelled (target : CopyIdentity) (intent : localIntent) (source : option nat) : store_call unit
| PurgeCancelled (intent : localIntent) : store_call unit
| VerifyCancelled (target : CopyIdentity) : store_call unit.

Inductive effect_call : Type -> Type :=
(** the registries and the journal *)
| ReadVolume (volumeID : string) : effect_call (result State)
| ReadMove (name : string) : effect_call (result Move)
| ReadJournal (authority : Authority) : effect_call (result Cleanup)
| WriteJournal (current : Cleanup) (next : Status) : effect_call (result unit)
| BindCreation (expected : State) (executor : NodeExecutor) : effect_call (result unit)
| RecordCreationReceipt (expected : State) (receipt : CreationReceipt) : effect_call (result unit)
| ReadPool (poolName uid nodeName : string) : effect_call (result Pool)
| ReadCleanupPool (poolName uid nodeName : string) : effect_call (result Pool)
| ReadCreationPool (copy : CopyIdentity) : effect_call (result Pool)
| ReadInstallation : effect_call (result string)
(** [helperauth.VerifyCleanupAuthority] *)
| VerifyCleanup (cleanup : Cleanup) : effect_call (result unit)
(** Pods with their IP address, and the DaemonSet of the executors *)
| ReadPod (namespace name : string) : effect_call (result (Pod * string))
| UpdatePod (pod : Pod) : effect_call (result unit)
| ListNodePods (namespace node : string) : effect_call (result (list Pod))
| ReadDaemonSet (namespace name : string) : effect_call (result DaemonSet)
(** helper Pods and Jobs of earlier releases *)
| HelperCreationExists (copy : CopyIdentity) : effect_call (result bool)
| HelperCleanupExists (cleanup : Cleanup) : effect_call (result bool)
| HelperCleanupSettled (cleanup : Cleanup) : effect_call (result bool)
(** the node: the backing of a Pool, its store, and a request to the executor *)
| VerifyPoolBacking (hostRoot : string) (pool : Pool) : effect_call (result unit)
| Local {A : Type} (c : store_call A) : effect_call (result A)
| Invoke (target : Target) (operation : Operation) (req : EffectRequest) : effect_call (result unit)
(** the process: the lock of a volume, the flag of the Move watch, the clock, a poll, and the work between start and stop *)
| LockEffect (volumeID : string) : effect_call (result unit)
| UnlockEffect (volumeID : string) : effect_call unit
| MoveCleanupReady : effect_call bool
| SetMoveCleanupReady (ready : bool) : effect_call unit
| ReadClock : effect_call string
| WaitPoll : effect_call (result unit)
| SyncCaches : effect_call bool
| Serve : effect_call unit.

Notation effect_handler := (io (history effect_call)).

#[export] Instance oracle_store {O : Oracle effect_call} : LocalStore (history effect_call) := {|
  check_context := ask (Local CheckContext);
  open_store root copy := ask (Local (OpenStore root copy));
  open_existing root copy := ask (Local (OpenExistingStore root copy));
  ensure_serving copy := ask (Local (EnsureServing copy));
  serving_digest copy := ask (Local (ServingDigest copy));
  read_receipt target operationID := ask (Local (ReadReceipt target operationID));
  finish_receipt target receipt := ask (Local (FinishReceipt target receipt));
  read_journal target operationID := ask (Local (ReadLocalJournal target operationID));
  confirm_target target operationID journal := ask (Local (ConfirmTarget target operationID journal));
  destroy target intent := ask (Local (Destroy target intent));
  settle target operationID intent := ask (Local (Settle target operationID intent));
  read_cancellation target operationID := ask (Local (ReadCancellation target operationID));
  prepare_cancellation target operationID := ask (Local (PrepareCancellation target operationID));
  retire_cancelled target intent source := ask (Local (RetireCancelled target intent source));
  purge_cancelled intent := ask (Local (PurgeCancelled intent));
  verify_cancelled target := ask (Local (VerifyCancelled target))
|}.

Definition NodeEffectsAnnotation : string := "shiftpv.io/node-effects".
Definition NodeMoveCleanupAnnotation : string := "shiftpv.io/node-move-cleanup".
Definition CertificateAnnotation : string := "shiftpv.io/node-rpc-certificate".
Definition PortAnnotation : string := "shiftpv.io/node-rpc-port".

Definition nodeBinding (e : Executor) : NodeExecutor :=
  {| NodeExecutor.Namespace := Executor.Namespace e; NodeExecutor.PodName := Executor.PodName e; NodeExecutor.PodUID := Executor.PodUID e;
     NodeExecutor.NodeName := Executor.NodeName e |}.

(** [executor.Node]; [Configured] is the condition of [Run] on its collaborators. *)
Module NodeAgent.
Record NodeAgent := { Configured : bool; Identity : NodeExecutor; HostRoot : string; RPCCertificate : string; RPCPort : string }.
End NodeAgent.
Notation NodeAgent := NodeAgent.NodeAgent.

Section executor.
Context {AM : Apimachinery} {L : Libraries} {O : Oracle effect_call} (n : NodeAgent).

#[local] Notation identity := (NodeAgent.Identity n).

(** ** Authority (effects.go) *)

Definition rootForPool (copy : CopyIdentity) (pool : Pool) : result string :=
  reject_if (negb (is_ok (Validate copy)) || (NodeName copy != NodeExecutor.NodeName identity) || negb (IsAbs (NodeAgent.HostRoot n)) ||
             (Pool.Name pool != PoolName copy) || (Pool.UID pool != PoolUID copy) || (Pool.NodeName pool != NodeName copy)) ErrStateConflict;;
  reject_if (negb (bool_decide (PoolProtectionFinalizer ∈ Pool.Finalizers pool)) || negb (IsAbs (Pool.MountPath pool)) ||
             (Clean (Pool.MountPath pool) == "/")) ErrStateConflict;;
  Ok (Join [NodeAgent.HostRoot n; TrimPrefix (Clean (Pool.MountPath pool)) "/"]).

Definition poolRoot (copy : CopyIdentity) : effect_handler string :=
  io_reject_if (negb (is_ok (Validate copy)) || (NodeName copy != NodeExecutor.NodeName identity) || negb (IsAbs (NodeAgent.HostRoot n)))
    ErrStateConflict;;
  pool ← ask (ReadPool (PoolName copy) (PoolUID copy) (NodeName copy));
  io_lift (rootForPool copy pool).

(** Whether a Pod is the incarnation this process runs in. *)
Definition self (pod : Pod) : bool :=
  (ObjectMeta.UID (Pod.Meta pod) == NodeExecutor.PodUID identity) && (PodSpec.NodeName (Pod.Spec pod) == NodeExecutor.NodeName identity) &&
  is_nil (ObjectMeta.DeletionTimestamp (Pod.Meta pod)).

Definition localAuthorityForPool (copy : CopyIdentity) (root : string) (pool : Pool) : effect_handler unit :=
  '(pod, _) ← ask (ReadPod (NodeExecutor.Namespace identity) (NodeExecutor.PodName identity));
  io_reject_if (negb (self pod)) ErrStateConflict;;
  installation ← ask ReadInstallation;
  io_reject_if (installation != InstallationID copy) ErrStateConflict;;
  currentRoot ← io_lift (rootForPool copy pool);
  io_reject_if (root != currentRoot) ErrStateConflict;;
  ask (VerifyPoolBacking (NodeAgent.HostRoot n) pool).

Definition localAuthority (copy : CopyIdentity) (root : string) : effect_handler unit :=
  pool ← ask (ReadCleanupPool (PoolName copy) (PoolUID copy) (NodeName copy));
  localAuthorityForPool copy root pool.

Definition creates (copy : CopyIdentity) (current : State) : bool :=
  (State.UID current == VolumeUID copy) && (State.Phase current == PhaseNodeCreating) && (State.CurrentCopy current == Some copy) &&
  (State.CreationExecutor current == Some identity) && (State.CreationOperationID current == "create-" +:+ VolumeUID copy) &&
  (State.ActiveMove current == "") && (length (State.PublishedNodes current) =? 0)%nat &&
  bool_decide (VolumeProtectionFinalizer ∈ State.Finalizers current).

Definition creationAuthority (copy : CopyIdentity) (root : string) : effect_handler unit :=
  current ← ask (ReadVolume (VolumeID copy));
  io_reject_if (negb (creates copy current)) ErrStateConflict;;
  pool ← ask (ReadCreationPool copy);
  localAuthorityForPool copy root pool.

(** The journal as it was approved, still to be executed by this process. *)
Definition unchanged (approved current : Cleanup) : bool :=
  (Cleanup.UID current == Cleanup.UID approved) && (Cleanup.Spec current == Cleanup.Spec approved) &&
  (Status.Phase (Cleanup.Status current) == CleanupJournal.PhaseRunning) && negb (is_nil (Status.Executor (Cleanup.Status current))) &&
  (Status.Executor (Cleanup.Status current) == Status.Executor (Cleanup.Status approved)).

Definition reclaimAuthority (approved : Cleanup) (root : string) : effect_handler unit :=
  current ← ask (ReadJournal (Spec.Authority (Cleanup.Spec approved)));
  io_reject_if (negb (unchanged approved current)) CleanupJournal.ErrConflict;;
  ask (VerifyCleanup approved);;
  localAuthority (Spec.Target (Cleanup.Spec approved)) root.

(** ** Effects (effects.go) *)

Definition create (expected : State) : effect_handler unit :=
  match State.CurrentCopy expected with
  | None => io_fail ErrStateConflict
  | Some copy =>
      root ← poolRoot copy;
      prepareServing root copy (creationAuthority copy root);;
      digest ← servingReceipt root copy (creationAuthority copy root);
      now ← perform ReadClock;
      ask (RecordCreationReceipt expected
             {| CreationReceipt.OperationID := State.CreationOperationID expected; CreationReceipt.ExecutorUID := NodeExecutor.PodUID identity;
                CreationReceipt.ObservedAt := now; CreationReceipt.LocalReceiptDigest := digest |})
  end.

(** The status after an operation: under review, or with its receipt. *)
Definition reviewed (s : Status) (message : string) : Status :=
  {| Status.Phase := CleanupJournal.PhaseNeedsReview; Status.ObservedGeneration := Status.ObservedGeneration s; Status.Reason := "CopyEvidenceInvalid";
     Status.Message := message; Status.LastTransitionTime := Status.LastTransitionTime s; Status.Executor := Status.Executor s;
     Status.Receipt := Status.Receipt s; Status.AbsenceProof := Status.AbsenceProof s; Status.SettledAt := Status.SettledAt s |}.

Definition receipted (s : Status) (receipt : CleanupJournal.Receipt) : Status :=
  {| Status.Phase := CleanupJournal.PhaseVerifying; Status.ObservedGeneration := Status.ObservedGeneration s; Status.Reason := Status.Reason s;
     Status.Message := Status.Message s; Status.LastTransitionTime := Status.LastTransitionTime s; Status.Executor := Status.Executor s;
     Status.Receipt := Some receipt; Status.AbsenceProof := Status.AbsenceProof s; Status.SettledAt := Status.SettledAt s |}.

Definition reclaim (approved : Cleanup) : effect_handler unit :=
  let spec := Cleanup.Spec approved in
  let target := Spec.Target spec in
  root ← poolRoot target;
  let operation := if Spec.Reason spec == "CreationCancelled" then cancelCreation (W := history effect_call) else reclaimWithResume in
  got ← attempt (operation root target (Spec.OperationID spec) (fun _ => reclaimAuthority approved root));
  match got with
  | Err err =>
      (if error_is err ErrNeedsReview || error_is err OwnershipMarkers.ErrIdentity
       then ask (WriteJournal approved (reviewed (Cleanup.Status approved) (error_text err)))
       else mret tt);;
      io_fail err
  | Ok (receipt, digest) =>
      io_reject_if (negb (OwnershipMarkers.Receipt.Retired receipt) || negb (OwnershipMarkers.Receipt.Purged receipt))
        (Errorf "local cleanup receipt is incomplete");;
      now ← perform ReadClock;
      ask (WriteJournal approved (receipted (Cleanup.Status approved)
             {| CleanupJournal.Receipt.OperationID := Spec.OperationID spec; CleanupJournal.Receipt.ExecutorUID := NodeExecutor.PodUID identity;
                CleanupJournal.Receipt.ObservedAt := now; CleanupJournal.Receipt.Retired := true; CleanupJournal.Receipt.Purged := true;
                CleanupJournal.Receipt.LocalReceiptDigest := digest |}))
  end.

Definition resolveCleanup (volumeID : string) (state : State) : effect_handler Cleanup :=
  authority ←
    (if State.ActiveMove state != "" then
       move ← ask (ReadMove (State.ActiveMove state));
       io_reject_if ((MoveSpec.ProtocolVersion (Move.Spec move) != MoveProtocolPreparedV1) || (Move.Name move != State.ActiveMove state) ||
                     (Move.UID move == "") || (MoveSpec.VolumeID (Move.Spec move) != volumeID)) ErrStateConflict;;
       mret {| Authority.Kind := "ShiftPVMove"; Authority.Name := Move.Name move; Authority.UID := Move.UID move |}
     else mret {| Authority.Kind := "ShiftPVVolume"; Authority.Name := volumeID; Authority.UID := State.UID state |});
  approved ← ask (ReadJournal authority);
  io_reject_if ((VolumeID (Spec.Target (Cleanup.Spec approved)) != volumeID) || (VolumeUID (Spec.Target (Cleanup.Spec approved)) != State.UID state))
    ErrStateConflict;;
  mret approved.

(** Whether a journal is bound to this process. *)
Definition bound (approved : Cleanup) : bool :=
  some_and (Status.Executor (Cleanup.Status approved)) (fun e => (Executor.Kind e == ExecutorNode) && (nodeBinding e == identity)).

Definition executeLocked (name : string) : effect_handler unit :=
  got ← attempt (ask (ReadVolume name));
  match got with
  | Err err => if IsNotFound err then mret tt else io_fail err
  | Ok state =>
      if (State.Phase state == PhaseNodeCreating) && (State.CreationExecutor state == Some identity) && is_nil (State.CreationReceipt state)
      then create state
      else if (State.Phase state != PhaseDeleting) && (State.ActiveMove state == "") then mret tt
      else
        resolved ← attempt (resolveCleanup name state);
        match resolved with
        | Err err => if error_is err ErrNoJournal then mret tt else io_fail err
        | Ok approved =>
            if (Status.Phase (Cleanup.Status approved) != CleanupJournal.PhaseRunning) || negb (bound approved) then mret tt
            else reclaim approved
        end
  end.

Definition effect_locked {A : Type} (volumeID : string) (body : effect_handler A) : effect_handler A :=
  ask (LockEffect volumeID);;
  r ← attempt body;
  perform (UnlockEffect volumeID);;
  io_lift r.

Definition execute (name : string) : effect_handler unit := effect_locked name (executeLocked name).

(** ** Requests (rpc.go) *)

Definition creationRPC (state : State) (req : EffectRequest) : result bool :=
  reject_if ((State.CreationOperationID state != EffectRequest.OperationId req) || (State.CreationExecutor state != Some identity) ||
             (State.DeletionOperationID state != "") || State.HasCleanup state) ErrStateConflict;;
  if ValidCreationReceipt state then Ok true
  else reject_if (State.Phase state != PhaseNodeCreating) ErrStateConflict;; Ok false.

Definition cleanupRPC (state : State) (req : EffectRequest) : effect_handler (Cleanup * bool) :=
  (if State.ActiveMove state != "" then
     ready ← perform MoveCleanupReady;
     io_reject_if (negb ready) ErrStateConflict
   else mret tt);;
  approved ← resolveCleanup (EffectRequest.VolumeName req) state;
  io_reject_if ((Spec.OperationID (Cleanup.Spec approved) != EffectRequest.OperationId req) || negb (bound approved)) CleanupJournal.ErrConflict;;
  ask (VerifyCleanup approved);;
  let phase := Status.Phase (Cleanup.Status approved) in
  if negb (is_nil (Status.Receipt (Cleanup.Status approved))) &&
     ((phase == CleanupJournal.PhaseVerifying) || (phase == CleanupJournal.PhaseConfirmingAbsence) || (phase == CleanupJournal.PhaseCompleted))
  then mret (approved, true)
  else
    io_reject_if (phase != CleanupJournal.PhaseRunning) CleanupJournal.ErrConflict;;
    mret (approved, false).

(** A missing request is refused by the transport. *)
Definition Execute (req : EffectRequest) (operation : Operation) : effect_handler unit :=
  io_reject_if ((EffectRequest.ExecutorUid req != NodeExecutor.PodUID identity) || (EffectRequest.NodeName req != NodeExecutor.NodeName identity))
    ErrStateConflict;;
  effect_locked (EffectRequest.VolumeName req) (
    state ← ask (ReadVolume (EffectRequest.VolumeName req));
    io_reject_if (State.UID state != EffectRequest.VolumeUid req) ErrStateConflict;;
    match operation with
    | CREATE =>
        complete ← io_lift (creationRPC state req);
        if complete : bool then mret tt else executeLocked (EffectRequest.VolumeName req)
    | RECLAIM =>
        '(approved, complete) ← cleanupRPC state req;
        if complete : bool then mret tt else reclaim approved
    | OPERATION_UNSPECIFIED => io_fail ErrStateConflict
    end).

Definition VerifyRPC : effect_handler unit :=
  '(pod, _) ← ask (ReadPod (NodeExecutor.Namespace identity) (NodeExecutor.PodName identity));
  io_reject_if (negb (self pod) || (default "" (ObjectMeta.Annotations (Pod.Meta pod) !! CertificateAnnotation) != NodeAgent.RPCCertificate n))
    ErrStateConflict.

(** ** Start-up (node.go) *)

(** [retry.RetryOnConflict(retry.DefaultBackoff, ...)]: four attempts. *)
Fixpoint retry_conflict (steps : nat) (body : effect_handler unit) : effect_handler unit :=
  r ← attempt body;
  match r with
  | Ok _ => mret tt
  | Err err => match steps with
               | S (S _ as steps) => if IsConflict err then retry_conflict steps body else io_fail err
               | _ => io_fail err
               end
  end.

Definition annotated (pod : Pod) (f : gmap string string -> gmap string string) : Pod :=
  pod <| Pod.Meta := (Pod.Meta pod) <| ObjectMeta.Annotations := f (ObjectMeta.Annotations (Pod.Meta pod)) |> |>.

Definition clear_attempt : effect_handler unit :=
  '(pod, _) ← ask (ReadPod (NodeExecutor.Namespace identity) (NodeExecutor.PodName identity));
  io_reject_if (negb (self pod)) ErrStateConflict;;
  match ObjectMeta.Annotations (Pod.Meta pod) !! NodeMoveCleanupAnnotation with
  | None => mret tt
  | Some _ => ask (UpdatePod (annotated pod (delete NodeMoveCleanupAnnotation)))
  end.

Definition clearMoveCapability : effect_handler unit := retry_conflict 4 clear_attempt.

Definition advertise_attempt : effect_handler unit :=
  '(pod, _) ← ask (ReadPod (NodeExecutor.Namespace identity) (NodeExecutor.PodName identity));
  io_reject_if (negb (self pod)) ErrStateConflict;;
  ready ← perform MoveCleanupReady;
  ask (UpdatePod (annotated pod (fun m =>
         let m := <[NodeEffectsAnnotation := "v1"]> m in
         let m := if ready : bool then <[NodeMoveCleanupAnnotation := "v1"]> m else m in
         if NodeAgent.RPCCertificate n != ""
         then <[PortAnnotation := NodeAgent.RPCPort n]> (<[CertificateAnnotation := NodeAgent.RPCCertificate n]> m) else m))).

Definition advertise : effect_handler unit := retry_conflict 4 advertise_attempt.

(** [Run] once the watches are started; the workers run during [Serve]. *)
Definition Run_started : effect_handler unit :=
  synced ← perform SyncCaches;
  if negb synced then mret tt
  else
    perform (SetMoveCleanupReady true);;
    advertise;;
    perform Serve.

Definition Run : effect_handler unit :=
  io_reject_if (negb (NodeExecutor.Valid identity) || negb (NodeAgent.Configured n))
    (Errorf "resident Node executor configuration is incomplete");;
  perform (SetMoveCleanupReady false);;
  r ← attempt (clearMoveCapability;; Run_started);
  perform (SetMoveCleanupReady false);;
  io_lift r.
End executor.
