(* ===== verification/EffectClient.v ===== *)
(** * The client of the node executors

    src/provisioning/nodeexecutor: how the controller finds the executor of a node, binds a
    creation or a cleanup to that one incarnation, sends it the request and waits for its
    receipt. *)

From S2P Require Import Prelude Bytes VolumeIdentity CapacityUnit Apimachinery Registration GoTime ApiServer VolumeState PoolApi CleanupJournal Kube.
From S2P Require Import OwnershipMarkers LocalStore Oracle Provisioning EffectNode.

(** ** Errors (retry.go) *)

Definition retryType : error := Errorf "retryable".
Definition retryError (err : error) : error := Wrapf [retryType; err] "".

Definition ErrLegacyExecution : error := Errorf "legacy helper execution requires compatibility settlement".

Definition legacyExecution (message : string) : error := retryError (Wrapf [ErrLegacyExecution] message).

(** ** Discovery (discovery.go) *)

Module Discovery.
Record Discovery := { Namespace : string; DaemonSet : string }.
End Discovery.
Notation Discovery := Discovery.Discovery.

(** [nodeexecutor.Client]: [Timeout] in nanoseconds; [Inspector] and [RPC] tell whether they are configured. *)
Module Client.
Record Client := { Discovery : Discovery; Inspector : bool; RPC : bool; Timeout : Z }.
End Client.
Notation Client := Client.Client.

(** [net.ParseIP(s) != nil] and [net.JoinHostPort]. *)
Class Network := { ParseIP : string -> bool; JoinHostPort : string -> Z -> string }.

(** [strconv.Atoi] where it is used: a port number; a sign or a value beyond 64 bits is out of the range of ports anyway. *)
Definition parse_port (s : string) : option Z :=
  let digits := if HasPrefix s "+" then TrimPrefix s "+" else s in
  match ParseUint digits (2 ^ 64) with Ok port => Some (Z.of_N port) | Err _ => None end.

Definition PodRunning : string := "Running".

Definition readyExecutorPod (pod : Pod) : bool :=
  let meta := Pod.Meta pod in
  (ObjectMeta.UID meta != "") && is_nil (ObjectMeta.DeletionTimestamp meta) && (Pod.Phase pod == PodRunning) &&
  (default "" (ObjectMeta.Annotations meta !! NodeEffectsAnnotation) == "v1") &&
  existsb (fun '(type, status) => (type == "Ready") && (status == "True")) (Pod.Conditions pod).

Definition ownedExecutor (pod : Pod) (ds : DaemonSet) : bool :=
  readyExecutorPod pod && (ObjectMeta.Namespace (Pod.Meta pod) == DaemonSet.Namespace ds) &&
  (PodSpec.ServiceAccountName (Pod.Spec pod) == DaemonSet.ServiceAccountName ds) &&
  some_and (GetControllerOf (Pod.Meta pod)) (fun owner =>
    (OwnerReference.APIVersion owner == "apps/v1") && (OwnerReference.Kind owner == "DaemonSet") &&
    (OwnerReference.Name owner == DaemonSet.Name ds) && (OwnerReference.UID owner == DaemonSet.UID ds)).

Definition executorOf (pod : Pod) : NodeExecutor :=
  {| NodeExecutor.Namespace := ObjectMeta.Namespace (Pod.Meta pod); NodeExecutor.PodName := ObjectMeta.Name (Pod.Meta pod);
     NodeExecutor.PodUID := ObjectMeta.UID (Pod.Meta pod); NodeExecutor.NodeName := PodSpec.NodeName (Pod.Spec pod) |}.

Definition eligible (ds : DaemonSet) (node : string) (moveCleanup : bool) (pod : Pod) : bool :=
  (PodSpec.NodeName (Pod.Spec pod) == node) && ownedExecutor pod ds &&
  negb (moveCleanup && (default "" (ObjectMeta.Annotations (Pod.Meta pod) !! NodeMoveCleanupAnnotation) != "v1")).

(** The loop over the Pods of the node. *)
Fixpoint single_executor (ds : DaemonSet) (node : string) (moveCleanup : bool) (pods : list Pod) (found : option NodeExecutor) :
    result (option NodeExecutor) :=
  match pods with
  | [] => Ok found
  | pod :: pods =>
      if eligible ds node moveCleanup pod then
        match found with
        | Some _ => Err (Errorf "multiple resident executors on node %s")
        | None => single_executor ds node moveCleanup pods (Some (executorOf pod))
        end
      else single_executor ds node moveCleanup pods found
  end.

Section client.
Context {AM : Apimachinery} {L : Libraries} {N : Network} {O : Oracle effect_call} (c : Client).

#[local] Notation discovery := (Client.Discovery c).

Definition find (node : string) (moveCleanup : bool) : effect_handler (option NodeExecutor) :=
  if Discovery.DaemonSet discovery == "" then mret None
  else
    got ← attempt (ask (ReadDaemonSet (Discovery.Namespace discovery) (Discovery.DaemonSet discovery)));
    match got with
    | Err err => if IsNotFound err then mret None else io_fail err
    | Ok ds =>
        pods ← ask (ListNodePods (Discovery.Namespace discovery) node);
        io_lift (single_executor ds node moveCleanup pods None)
    end.

Definition Retired (executor : NodeExecutor) : effect_handler bool :=
  got ← attempt (ask (ReadPod (NodeExecutor.Namespace executor) (NodeExecutor.PodName executor)));
  match got with
  | Err err => if IsNotFound err then mret true else io_fail err
  | Ok (pod, _) => mret ((ObjectMeta.UID (Pod.Meta pod) != NodeExecutor.PodUID executor) || (Pod.Phase pod == PodFailed) || (Pod.Phase pod == PodSucceeded))
  end.

(** ** Requests (rpc.go) *)

Definition Endpoint (identity : NodeExecutor) : effect_handler (option Target) :=
  io_reject_if (negb (NodeExecutor.Valid identity) || (NodeExecutor.Namespace identity != Discovery.Namespace discovery) ||
                (Discovery.DaemonSet discovery == "")) ErrStateConflict;;
  '(pod, podIP) ← ask (ReadPod (NodeExecutor.Namespace identity) (NodeExecutor.PodName identity));
  io_reject_if ((ObjectMeta.UID (Pod.Meta pod) != NodeExecutor.PodUID identity) || (PodSpec.NodeName (Pod.Spec pod) != NodeExecutor.NodeName identity) ||
                negb (is_nil (ObjectMeta.DeletionTimestamp (Pod.Meta pod)))) ErrStateConflict;;
  ds ← ask (ReadDaemonSet (Discovery.Namespace discovery) (Discovery.DaemonSet discovery));
  io_reject_if (negb (ownedExecutor pod ds)) ErrStateConflict;;
  let annotation := fun key => default "" (ObjectMeta.Annotations (Pod.Meta pod) !! key) in
  if annotation CertificateAnnotation == "" then mret None
  else
    match parse_port (annotation PortAnnotation) with
    | Some port =>
        io_reject_if ((port <? 1)%Z || (65535 <? port)%Z || negb (ParseIP podIP)) (retryError ErrStateConflict);;
        mret (Some {| Target.Identity := identity; Target.Address := JoinHostPort podIP port; Target.Certificate := annotation CertificateAnnotation |})
    | None => io_fail (retryError ErrStateConflict)
    end.

(** Whether the executor was called; the deadline of the call is one of its answers. *)
Definition invoke (executor : NodeExecutor) (operation : Operation) (req : EffectRequest) : effect_handler bool :=
  if negb (Client.RPC c) then mret false
  else
    target ← Endpoint executor;
    match target with
    | None => mret false
    | Some target => ask (Invoke target operation req);; mret true
    end.

(** [status.Code]: OK, the code of a status, or Unknown; [classifyError] is applied to what an operation returns. *)
Definition classifyError (err : error) : error :=
  if (Code err == Unavailable) || (Code err == DeadlineExceeded) || error_is err ContextDeadlineExceeded || error_is err ErrPoolNotReady ||
     IsConflict err || IsTimeout err || IsServerTimeout err || IsTooManyRequests err || IsServiceUnavailable err
  then retryError err else err.

Definition classified {A : Type} (body : effect_handler A) : effect_handler A :=
  r ← attempt body;
  match r with Ok a => mret a | Err err => io_fail (classifyError err) end.

(** [wait.PollUntilContextTimeout] every 250ms; the context may end at any wait. *)
Fixpoint poll (polls : nat) (condition : effect_handler bool) : effect_handler unit :=
  match polls with
  | 0%nat => io_fail ContextDeadlineExceeded
  | S polls =>
      done ← condition;
      if done : bool then mret tt else ask WaitPoll;; poll polls condition
  end.

Definition polls : nat := S (Z.to_nat (Client.Timeout c / 250000000)).

(** ** Creation (client.go) *)

Definition holds (copy : CopyIdentity) (state : State) : bool :=
  (State.UID state == VolumeUID copy) && (State.CurrentCopy state == Some copy).

Definition readyCreation (state : State) (copy : CopyIdentity) : effect_handler unit :=
  io_reject_if (negb (ValidReadyCreationHistory state)) ErrStateConflict;;
  if is_nil (State.CreationExecutor state) then
    io_reject_if (negb (Client.Inspector c)) (Errorf "legacy execution inspector is not configured");;
    exists_ ← ask (HelperCreationExists copy);
    io_reject_if exists_ (legacyExecution "Ready volume still has a creation helper Pod")
  else mret tt.

(** The executor of the node, to which the creation is bound. *)
Definition bindNew (state : State) (node : string) : effect_handler unit :=
  executor ← find node false;
  match executor with
  | None => io_fail (retryError (Errorf "resident creation executor is unavailable"))
  | Some executor => ask (BindCreation state executor)
  end.

Definition rebindCreation (state : State) (executor : NodeExecutor) : effect_handler unit :=
  retired ← Retired executor;
  if retired : bool then bindNew state (State.OwnerNode state) else mret tt.

Definition prepareCreation (state : State) (copy : CopyIdentity) : effect_handler unit :=
  match State.CreationExecutor state with
  | Some executor =>
      io_reject_if ((State.Phase state != PhaseNodeCreating) && (State.Phase state != PhaseReady)) ErrStateConflict;;
      if is_nil (State.CreationReceipt state) then rebindCreation state executor else mret tt
  | None =>
      io_reject_if (State.Phase state != PhasePending) ErrStateConflict;;
      io_reject_if (negb (Client.Inspector c)) (Errorf "legacy execution inspector is not configured");;
      exists_ ← ask (HelperCreationExists copy);
      io_reject_if exists_ (legacyExecution "creation helper Pod is present");;
      bindNew state (NodeName copy)
  end.

Definition creation_request (copy : CopyIdentity) (state : State) (executor : NodeExecutor) : EffectRequest :=
  {| EffectRequest.ExecutorUid := NodeExecutor.PodUID executor; EffectRequest.NodeName := NodeName copy; EffectRequest.VolumeName := VolumeID copy;
     EffectRequest.VolumeUid := VolumeUID copy; EffectRequest.OperationId := State.CreationOperationID state |}.

Definition createDirect (copy : CopyIdentity) (state : State) : effect_handler bool :=
  io_reject_if (negb (holds copy state)) ErrStateConflict;;
  match State.CreationExecutor state with
  | None => io_fail ErrStateConflict
  | Some executor =>
      if ValidCreationReceipt state then mret true
      else
        direct ← invoke executor CREATE (creation_request copy state executor);
        if negb direct then mret false
        else
          current ← ask (ReadVolume (VolumeID copy));
          io_reject_if (negb (holds copy current) || negb (ValidCreationReceipt current)) ErrStateConflict;;
          mret true
  end.

Definition creation_settled (copy : CopyIdentity) : effect_handler bool :=
  current ← ask (ReadVolume (VolumeID copy));
  io_reject_if (negb (holds copy current) || is_nil (State.CreationExecutor current)) ErrStateConflict;;
  mret (ValidCreationReceipt current).

Definition CreateCopy (copy : CopyIdentity) : effect_handler unit := classified (
  state ← ask (ReadVolume (VolumeID copy));
  io_reject_if (negb (holds copy state)) ErrStateConflict;;
  if State.Phase state == PhaseReady then readyCreation state copy
  else
    prepareCreation state copy;;
    state ← ask (ReadVolume (VolumeID copy));
    settled ← createDirect copy state;
    if settled : bool then mret tt else poll polls (creation_settled copy)).

Definition FinalizeCreate (copy : CopyIdentity) : effect_handler unit := classified (
  state ← ask (ReadVolume (VolumeID copy));
  io_reject_if (negb (holds copy state)) ErrStateConflict;;
  readyCreation state copy).

(** ** Cleanup (client.go) *)

Definition cleanupReceiptValid (current : Cleanup) : bool :=
  match Status.Executor (Cleanup.Status current), Status.Receipt (Cleanup.Status current) with
  | Some executor, Some receipt =>
      Executor.Valid executor && (Executor.NodeName executor == NodeName (Spec.Target (Cleanup.Spec current))) &&
      (CleanupJournal.Receipt.OperationID receipt == Spec.OperationID (Cleanup.Spec current)) &&
      (CleanupJournal.Receipt.ExecutorUID receipt == Executor.ExecutionUID executor) &&
      CleanupJournal.Receipt.Retired receipt && CleanupJournal.Receipt.Purged receipt
  | _, _ => false
  end.

Definition nodeBound (current : Cleanup) : bool :=
  some_and (Status.Executor (Cleanup.Status current)) (fun e => Executor.Kind e == ExecutorNode).

Definition cleanupDone (expected current : Cleanup) : result bool :=
  reject_if ((Cleanup.UID current == "") || (Cleanup.UID current != Cleanup.UID expected) || (Cleanup.Name current != Cleanup.Name expected) ||
             (Cleanup.Spec current != Cleanup.Spec expected) || negb (is_ok (Spec.Validate (Cleanup.Spec current)))) CleanupJournal.ErrConflict;;
  let status := Cleanup.Status current in
  let phase := Status.Phase status in
  if (phase == CleanupJournal.PhaseVerifying) || (phase == CleanupJournal.PhaseConfirmingAbsence) || (phase == CleanupJournal.PhaseCompleted) then
    reject_if (negb (cleanupReceiptValid current)) CleanupJournal.ErrConflict;;
    Ok ((phase == CleanupJournal.PhaseCompleted) || nodeBound current)
  else if (phase == "") || (phase == CleanupJournal.PhasePending) then
    reject_if (negb (is_nil (Status.Receipt status)) || negb (is_nil (Status.Executor status))) CleanupJournal.ErrConflict;; Ok false
  else if phase == CleanupJournal.PhaseRunning then
    reject_if (negb (is_nil (Status.Receipt status)) ||
               negb (some_and (Status.Executor status) (fun e =>
                 Executor.Valid e && (Executor.NodeName e == NodeName (Spec.Target (Cleanup.Spec current)))))) CleanupJournal.ErrConflict;; Ok false
  else Err CleanupJournal.ErrConflict.

Definition completed (current : Cleanup) : effect_handler bool :=
  io_lift (CleanupJournal.ValidateSettled current);;
  if nodeBound current then mret true
  else
    io_reject_if (negb (Client.Inspector c)) (Errorf "legacy execution inspector is not configured");;
    settled ← ask (HelperCleanupSettled current);
    io_reject_if (negb settled) (legacyExecution "completed cleanup still has a live Job executor");;
    mret true.

Definition ObserveCompletedCleanup (current : Cleanup) : effect_handler bool := classified (completed current).

Definition inspectCleanup (expected current : Cleanup) : effect_handler bool :=
  done ← io_lift (cleanupDone expected current);
  match Status.Executor (Cleanup.Status current) with
  | Some executor =>
      if Executor.Kind executor == "" then
        io_reject_if (Status.Phase (Cleanup.Status current) != CleanupJournal.PhaseCompleted)
          (legacyExecution "Job-bound cleanup is not independently settled");;
        ObserveCompletedCleanup current
      else mret done
  | None =>
      if done : bool then mret true
      else
        io_reject_if (negb (Client.Inspector c)) (Errorf "legacy execution inspector is not configured");;
        exists_ ← ask (HelperCleanupExists current);
        io_reject_if exists_ (legacyExecution "unbound cleanup Job is present");;
        mret false
  end.

Definition cleanup_executor (executor : NodeExecutor) : Executor :=
  {| Executor.Kind := ExecutorNode; Executor.Namespace := NodeExecutor.Namespace executor; Executor.PodName := NodeExecutor.PodName executor;
     Executor.JobName := ""; Executor.JobUID := ""; Executor.PodUID := NodeExecutor.PodUID executor; Executor.NodeName := NodeExecutor.NodeName executor |}.

Definition running (s : Status) (executor : NodeExecutor) : Status :=
  {| Status.Phase := CleanupJournal.PhaseRunning; Status.ObservedGeneration := Status.ObservedGeneration s; Status.Reason := Status.Reason s;
     Status.Message := Status.Message s; Status.LastTransitionTime := Status.LastTransitionTime s; Status.Executor := Some (cleanup_executor executor);
     Status.Receipt := Status.Receipt s; Status.AbsenceProof := Status.AbsenceProof s; Status.SettledAt := Status.SettledAt s |}.

Definition bindTo (current : Cleanup) : effect_handler unit :=
  executor ← find (NodeName (Spec.Target (Cleanup.Spec current))) (Authority.Kind (Spec.Authority (Cleanup.Spec current)) == "ShiftPVMove");
  match executor with
  | None => io_fail (retryError (Errorf "resident cleanup executor is unavailable"))
  | Some executor => ask (WriteJournal current (running (Cleanup.Status current) executor))
  end.

Definition bindCleanup (current : Cleanup) : effect_handler unit :=
  match Status.Executor (Cleanup.Status current) with
  | Some executor =>
      io_reject_if ((Status.Phase (Cleanup.Status current) != CleanupJournal.PhaseRunning) || (Executor.Kind executor != ExecutorNode) ||
                    negb (Executor.Valid executor)) CleanupJournal.ErrConflict;;
      retired ← Retired (nodeBinding executor);
      if retired : bool then bindTo current else mret tt
  | None => bindTo current
  end.

Definition prepareCleanup (expected : Cleanup) : effect_handler (Cleanup * bool) :=
  current ← ask (ReadJournal (Spec.Authority (Cleanup.Spec expected)));
  ready ← inspectCleanup expected current;
  if ready : bool then mret (current, true)
  else
    let target := Spec.Target (Cleanup.Spec current) in
    ask (ReadCleanupPool (PoolName target) (PoolUID target) (NodeName target));;
    let wasNodeBound := negb (is_nil (Status.Executor (Cleanup.Status current))) in
    bindCleanup current;;
    current ← ask (ReadJournal (Spec.Authority (Cleanup.Spec expected)));
    io_reject_if (wasNodeBound && negb (nodeBound current)) CleanupJournal.ErrConflict;;
    ready ← inspectCleanup expected current;
    if ready : bool then mret (current, true)
    else
      io_reject_if (negb (nodeBound current)) CleanupJournal.ErrConflict;;
      mret (current, false).

Definition cleanupRequest (current : Cleanup) (executor : Executor) : EffectRequest :=
  let target := Spec.Target (Cleanup.Spec current) in
  {| EffectRequest.ExecutorUid := Executor.PodUID executor; EffectRequest.NodeName := NodeName target; EffectRequest.VolumeName := VolumeID target;
     EffectRequest.VolumeUid := VolumeUID target; EffectRequest.OperationId := Spec.OperationID (Cleanup.Spec current) |}.

Definition cleanupResult (expected : Cleanup) : effect_handler Cleanup :=
  current ← ask (ReadJournal (Spec.Authority (Cleanup.Spec expected)));
  io_reject_if (negb (nodeBound current)) CleanupJournal.ErrConflict;;
  done ← io_lift (cleanupDone expected current);
  io_reject_if (negb done) CleanupJournal.ErrConflict;;
  mret current.

(** The condition of the poll also keeps the journal it read, which is what the operation returns. *)
Fixpoint awaitCleanup (polls : nat) (expected : Cleanup) : effect_handler Cleanup :=
  match polls with
  | 0%nat => io_fail ContextDeadlineExceeded
  | S polls =>
      current ← ask (ReadJournal (Spec.Authority (Cleanup.Spec expected)));
      io_reject_if (negb (nodeBound current)) CleanupJournal.ErrConflict;;
      done ← io_lift (cleanupDone expected current);
      if done : bool then mret current else ask WaitPoll;; awaitCleanup polls expected
  end.

Definition Reclaim (expected : Cleanup) : effect_handler Cleanup := classified (
  '(current, ready) ← prepareCleanup expected;
  if ready : bool then mret current
  else
    match Status.Executor (Cleanup.Status current) with
    | None => io_fail CleanupJournal.ErrConflict
    | Some executor =>
        direct ← invoke (nodeBinding executor) RECLAIM (cleanupRequest current executor);
        if direct : bool then cleanupResult expected else awaitCleanup polls expected
    end).

Definition AdvanceReclaim (expected : Cleanup) : effect_handler (Cleanup * bool) := classified (prepareCleanup expected).
End client.
