(* ===== verification/EffectSafety.v ===== *)
(** * The executor of a node: safety

    Nothing is made, retired or destroyed on the disk without a complete check of the
    durable records, and a receipt says what the disk answered. *)

From S2P Require Import Prelude RecordUpdate Bytes Filepath VolumeIdentity Apimachinery Registration GoTime ApiServer VolumeState PoolApi MoveApi CleanupJournal Kube.
From S2P Require Import VolumeProtocol MobilitySample NodeDisk OwnershipMarkers LocalStore Oracle Provisioning CsiSample EffectNode.

Ltac effect_step :=
  match goal with
  | |- runs _ (_ ≫= _) _ _ => apply runs_bind
  | |- runs _ (mret _) _ _ => apply runs_ret
  | |- runs _ (io_fail _) _ _ => apply runs_fail
  | |- runs _ (io_lift _) _ _ => apply runs_lift
  | |- runs _ (attempt _) _ _ => apply runs_attempt
  | |- runs _ (io_reject_if ?b _) _ _ => apply runs_reject; intros ?
  | |- runs _ (let _ := _ in _) _ _ => cbv zeta
  end.
Ltac effect_run := repeat (effect_step; cbv beta iota).

(** ** Sections of a history *)

(** A call that neither takes nor gives back the lock of a volume. *)
Definition unlocking (e : event effect_call) : bool :=
  match e with Event c _ => match c with LockEffect _ | UnlockEffect _ => true | _ => false end end.

(** The lock of the volume is held. *)
Definition locked (id : string) (h : history effect_call) : Prop :=
  exists section older, h = section ++ Event (LockEffect id) (Ok tt) :: older /\ Forall (fun e => unlocking e = false) section.

Lemma trace_locked P id l older :
  trace (fun h e => P h e /\ unlocking e = false) l (Event (LockEffect id) (Ok tt) :: older) ->
  trace (fun h e => P h e /\ locked id h) l (Event (LockEffect id) (Ok tt) :: older).
Proof.
  intros Ht. assert (Forall (fun e => unlocking e = false) l) as Hl by (clear -Ht; induction l; simpl in Ht; constructor; naive_solver).
  induction l as [|e l IH]; simpl in *; [done|]. destruct Ht as [[HP _] Ht]. apply Forall_cons in Hl as [_ Hl].
  split; [|by apply IH]. split; [done|]. by exists l, older.
Qed.

(** Calls that only read. *)
Definition reads (e : event effect_call) : bool :=
  match e with
  | Event c _ =>
      match c with
      | ReadVolume _ | ReadMove _ | ReadJournal _ | ReadPool _ _ _ | ReadCleanupPool _ _ _ | ReadCreationPool _ | ReadInstallation | VerifyCleanup _
      | ReadPod _ _ | ListNodePods _ _ | ReadDaemonSet _ _ | HelperCreationExists _ | HelperCleanupExists _ | HelperCleanupSettled _
      | VerifyPoolBacking _ _ | MoveCleanupReady | ReadClock | WaitPoll => true
      | Local CheckContext | Local (ReadReceipt _ _) | Local (ReadLocalJournal _ _) | Local (ReadCancellation _ _) | Local (ServingDigest _)
      | Local (VerifyCancelled _) => true
      | _ => false
      end
  end.

Section safety.
Context {AM : Apimachinery} {L : Libraries} {O : Oracle effect_call} (n : NodeAgent).

#[local] Notation identity := (NodeAgent.Identity n).

(** ** What an operation rests on *)

(** The Pod of this process, the installation and the backing of the Pool, as the last three calls before [older]. *)
Definition local_granted (copy : CopyIdentity) (root : string) (pool : Pool) (h older : history effect_call) : Prop :=
  exists pod ip, self n pod = true /\ rootForPool n copy pool = Ok root /\
    h = Event (VerifyPoolBacking (NodeAgent.HostRoot n) pool) (Ok tt) :: Event ReadInstallation (Ok (InstallationID copy)) ::
        Event (ReadPod (NodeExecutor.Namespace identity) (NodeExecutor.PodName identity)) (Ok (pod, ip)) :: older.

(** The last calls read the volume as being created here with this copy, and its Pool as fit for it. *)
Definition creation_granted (copy : CopyIdentity) (root : string) (h : history effect_call) : Prop :=
  exists state pool older, creates n copy state = true /\
    local_granted copy root pool h (Event (ReadCreationPool copy) (Ok pool) :: Event (ReadVolume (VolumeID copy)) (Ok state) :: older).

(** The last calls read the journal as it was approved, and verified what authorises it and its Pool. *)
Definition reclaim_granted (approved : Cleanup) (root : string) (h : history effect_call) : Prop :=
  let target := Spec.Target (Cleanup.Spec approved) in
  exists current pool older, unchanged approved current = true /\
    local_granted target root pool h
      (Event (ReadCleanupPool (PoolName target) (PoolUID target) (NodeName target)) (Ok pool) :: Event (VerifyCleanup approved) (Ok tt) ::
       Event (ReadJournal (Spec.Authority (Cleanup.Spec approved))) (Ok current) :: older).

Lemma localAuthorityForPool_spec copy root pool h :
  runs (fun _ e => reads e = true) (localAuthorityForPool n copy root pool) h (fun r h' => r = Ok tt -> local_granted copy root pool h' h).
Proof.
  unfold localAuthorityForPool. effect_run. apply runs_ask; [done|]. intros [[pod ip]|err]; [|done]. effect_run; [done|].
  apply runs_ask; [done|]. intros [installation|err]; [|done]. effect_run; [done|]. destruct (rootForPool n copy pool) as [current|] eqn:Hroot; [|done].
  effect_run; [done|]. apply runs_ask; [done|]. intros [[]|err] Hok; [|done]. exists pod, ip.
  repeat match goal with H : negb _ = false |- _ => apply negb_false_iff in H end. rewrite bool_decide_eq_true in *. subst. done.
Qed.

Lemma creationAuthority_spec copy root h :
  runs (fun _ e => reads e = true) (creationAuthority n copy root) h (fun r h' => r = Ok tt -> creation_granted copy root h').
Proof.
  unfold creationAuthority. effect_run. apply runs_ask; [done|]. intros [state|err]; [|done]. effect_run; [done|]. apply negb_false_iff in H.
  apply runs_ask; [done|]. intros [pool|err]; [|done]. eapply runs_mono; [apply localAuthorityForPool_spec|done|].
  intros r l Hl Hok. exists state, pool, h. split; [done|by apply Hl].
Qed.

Lemma reclaimAuthority_spec approved root h :
  runs (fun _ e => reads e = true) (reclaimAuthority n approved root) h (fun r h' => r = Ok tt -> reclaim_granted approved root h').
Proof.
  unfold reclaimAuthority, localAuthority. effect_run. apply runs_ask; [done|]. intros [current|err]; [|done]. effect_run; [done|]. apply negb_false_iff in H.
  apply runs_ask; [done|]. intros [[]|err]; [|done]. effect_run. apply runs_ask; [done|]. intros [pool|err]; [|done].
  eapply runs_mono; [apply localAuthorityForPool_spec|done|]. intros r l Hl Hok. exists current, pool, h. split; [done|by apply Hl].
Qed.

Section authorised.
(** The volume, and the journals the operation may execute. *)
Context (id : string) (A : Cleanup -> Prop).

(** The copy of the volume, as it was read by its name. *)
Definition named (copy : CopyIdentity) (h : history effect_call) : Prop :=
  exists state, Event (ReadVolume id) (Ok state) ∈ h /\ State.CurrentCopy state = Some copy.

(** The root of the Pool that was read for the copy. *)
Definition rooted (copy : CopyIdentity) (root : string) (h : history effect_call) : Prop :=
  exists pool, Event (ReadPool (PoolName copy) (PoolUID copy) (NodeName copy)) (Ok pool) ∈ h /\ rootForPool n copy pool = Ok root.

Definition reclaims (target : CopyIdentity) (operationID : string) (h : history effect_call) : Prop :=
  exists approved root, A approved /\ Spec.Target (Cleanup.Spec approved) = target /\ Spec.OperationID (Cleanup.Spec approved) = operationID /\
    reclaim_granted approved root h.

(** What the disk answered to the end of a reclaim. *)
Definition reclaimed (target : CopyIdentity) (operationID : string) (receipt : OwnershipMarkers.Receipt) (digest : string) (h : history effect_call) : Prop :=
  exists older, (exists intent, h = Event (Local (Settle target operationID intent)) (Ok (receipt, digest)) :: older) \/
                (exists found, h = Event (Local (FinishReceipt target found)) (Ok (receipt, digest)) :: older).

(** What a call of the executor requires of the calls before it. *)
Definition authorised (h : history effect_call) (e : event effect_call) : Prop :=
  match e with
  | Event c _ =>
      match c with
      | Local (OpenStore root copy) => (named copy h /\ creation_granted copy root h) \/
          exists approved, A approved /\ Spec.Target (Cleanup.Spec approved) = copy /\ reclaim_granted approved root h
      | Local (OpenExistingStore root copy) => exists approved, A approved /\ Spec.Target (Cleanup.Spec approved) = copy /\ rooted copy root h
      | Local (EnsureServing copy) => named copy h /\ exists root, creation_granted copy root h
      | Local (ConfirmTarget target operationID _) => reclaims target operationID h
      | Local (FinishReceipt target _) | Local (Destroy target _) | Local (RetireCancelled target _ _) => exists operationID, reclaims target operationID h
      | Local (PurgeCancelled intent) => exists target source operationID, reclaims target operationID h /\
          Event (Local (RetireCancelled target intent source)) (Ok tt) ∈ h
      | Local (PrepareCancellation target operationID) => exists l older, h = l ++ older /\ Forall (fun e => reads e = true) l /\ reclaims target operationID older
      | Local (Settle target operationID intent) => exists older, reclaims target operationID older /\
          (h = Event (Local (Destroy target intent)) (Ok tt) :: older \/ h = Event (Local (VerifyCancelled target)) (Ok tt) :: older)
      | RecordCreationReceipt expected receipt => Event (ReadVolume id) (Ok expected) ∈ h /\ exists copy root digest now older, State.CurrentCopy expected = Some copy /\
          h = Event ReadClock now :: Event (Local (ServingDigest copy)) (Ok digest) :: older /\ creation_granted copy root older /\
          receipt = {| CreationReceipt.OperationID := State.CreationOperationID expected; CreationReceipt.ExecutorUID := NodeExecutor.PodUID identity;
                       CreationReceipt.ObservedAt := now; CreationReceipt.LocalReceiptDigest := digest |}
      | WriteJournal approved next => A approved /\
          ((exists message, next = reviewed (Cleanup.Status approved) message) \/
           exists receipt digest now older, h = Event ReadClock now :: older /\
             reclaimed (Spec.Target (Cleanup.Spec approved)) (Spec.OperationID (Cleanup.Spec approved)) receipt digest older /\
             OwnershipMarkers.Receipt.Retired receipt = true /\ OwnershipMarkers.Receipt.Purged receipt = true /\
             next = receipted (Cleanup.Status approved)
               {| CleanupJournal.Receipt.OperationID := Spec.OperationID (Cleanup.Spec approved); CleanupJournal.Receipt.ExecutorUID := NodeExecutor.PodUID identity;
                  CleanupJournal.Receipt.ObservedAt := now; CleanupJournal.Receipt.Retired := true; CleanupJournal.Receipt.Purged := true;
                  CleanupJournal.Receipt.LocalReceiptDigest := digest |})
      | BindCreation _ _ | UpdatePod _ | Invoke _ _ _ | SetMoveCleanupReady _ | SyncCaches | Serve => False
      | _ => True
      end
  end.

(** Inside the lock of the volume. *)
Definition inside (h : history effect_call) (e : event effect_call) : Prop := authorised h e /\ unlocking e = false.

Lemma reads_inside h e : reads e = true -> inside h e.
Proof. destruct e as [B c a]. destruct c as [| | | | | | | | | | | | | | | | | | |C []| | | | | | | | |]; by intros [=]. Qed.

Lemma runs_reads {B : Type} (c : effect_handler B) h (R Q : result B -> history effect_call -> Prop) :
  runs (fun _ e => reads e = true) c h R -> (forall r l, Forall (fun e => reads e = true) l -> R r (l ++ h) -> Q r (l ++ h)) -> runs inside c h Q.
Proof.
  intros (l & Hl & Ht & HR) HQ. exists l. rewrite Hl in *. split_and!; [done| |apply HQ; [|done]].
  - eapply calls_mono; [|exact Ht]. intros h' e. apply reads_inside.
  - clear -Ht. induction l; simpl in Ht; constructor; naive_solver.
Qed.

Lemma effect_poolRoot_spec copy h :
  runs (fun _ e => reads e = true) (poolRoot n copy) h (fun r h' => match r with Ok root => rooted copy root h' | Err _ => True end).
Proof.
  unfold poolRoot. effect_run; [done|]. apply runs_ask; [done|]. intros [pool|err]; [|done]. effect_run.
  destruct (rootForPool n copy pool) as [root|] eqn:Hroot; [|done]. exists pool. split; [by left|done].
Qed.

(** ** Creation *)

Lemma creation_authority copy root h (Q : result unit -> history effect_call -> Prop) :
  (forall l h', h' = l ++ h -> creation_granted copy root h' -> Q (Ok tt) h') -> (forall err h', Q (Err err) h') ->
  runs inside (creationAuthority n copy root) h Q.
Proof.
  intros Hok Herr. eapply runs_reads; [apply creationAuthority_spec|]. intros [[]|err] l _ H; [by eapply Hok, H|by apply Herr].
Qed.

Lemma create_spec expected h : Event (ReadVolume id) (Ok expected) ∈ h -> runs inside (create n expected) h (fun _ _ => True).
Proof.
  intros Hread. unfold create. destruct (State.CurrentCopy expected) as [copy|] eqn:Hcopy; [|by effect_run]. effect_run.
  assert (Hnamed : forall h', Event (ReadVolume id) (Ok expected) ∈ h' -> named copy h') by (intros h' H; by exists expected).
  eapply runs_reads; [apply effect_poolRoot_spec|]. intros [root|err] l _ _; [|done].
  unfold prepareServing, servingReceipt. cbn [open_store ensure_serving serving_digest oracle_store]. effect_run.
  apply creation_authority; [|done]. intros l1 h1 Hh1 H1. assert (R1 : Event (ReadVolume id) (Ok expected) ∈ h1) by (subst; rewrite !elem_of_app; auto).
  effect_run. apply runs_ask; [intros a; split; [left; auto|done]|]. intros [[]|err]; [|done]. effect_run.
  apply creation_authority; [|done]. intros l2 h2 Hh2 H2. assert (R2 : Event (ReadVolume id) (Ok expected) ∈ h2) by (subst h2; rewrite elem_of_app, elem_of_cons; auto).
  effect_run. apply runs_ask; [intros a; split; [split; [auto|by exists root]|done]|]. intros [[]|err]; [|done].
  apply creation_authority; [|done]. intros l3 h3 Hh3 H3. assert (R3 : Event (ReadVolume id) (Ok expected) ∈ h3) by (subst h3; rewrite elem_of_app, elem_of_cons; auto).
  effect_run. apply runs_ask; [intros a; split; [left; auto|done]|]. intros [[]|err]; [|done].
  effect_run. apply creation_authority; [|done]. intros l4 h4 Hh4 H4.
  assert (R4 : Event (ReadVolume id) (Ok expected) ∈ h4) by (subst h4; rewrite elem_of_app, elem_of_cons; auto).
  apply runs_ask; [done|]. intros [digest|err]; [|done].
  effect_run. apply runs_perform; [done|]. intros now. apply runs_ask; [|done]. intros a. split; [|done]. split; [by do 2 right|].
  by exists copy, root, digest, now, h4.
Qed.

(** ** Reclaim *)

Lemma reclaim_authority approved root h (Q : result unit -> history effect_call -> Prop) :
  (forall l h', h' = l ++ h -> reclaim_granted approved root h' -> Q (Ok tt) h') -> (forall err h', Q (Err err) h') ->
  runs inside (reclaimAuthority n approved root) h Q.
Proof.
  intros Hok Herr. eapply runs_reads; [apply reclaimAuthority_spec|]. intros [[]|err] l _ H; [by eapply Hok, H|by apply Herr].
Qed.

Lemma recheck_authority approved root h (Q : result unit -> history effect_call -> Prop) :
  (forall l h', h' = l ++ h -> reclaim_granted approved root h' -> Q (Ok tt) h') -> (forall err h', Q (Err err) h') ->
  runs inside (recheck (reclaimAuthority n approved root)) h Q.
Proof.
  intros Hok Herr. unfold recheck. apply runs_bind. change (caught (reclaimAuthority n approved root)) with (attempt (reclaimAuthority n approved root)).
  apply runs_attempt, reclaim_authority; [|intros; by effect_run]. intros l h' -> H. effect_run. by eapply Hok.
Qed.

Section operation.
Context (approved : Cleanup) (root : string) (HA : A approved).

#[local] Notation target := (Spec.Target (Cleanup.Spec approved)).
#[local] Notation operationID := (Spec.OperationID (Cleanup.Spec approved)).
#[local] Notation authority := (fun _ : bool => reclaimAuthority n approved root).

Lemma granted_reclaims h : reclaim_granted approved root h -> reclaims target operationID h.
Proof. intros H. by exists approved, root. Qed.

Lemma granted_some h : reclaim_granted approved root h -> exists operation, reclaims target operation h.
Proof. intros H. exists operationID. by apply granted_reclaims. Qed.

(** What an operation that returned has established. *)
Definition returned (r : result (OwnershipMarkers.Receipt * string)) (h : history effect_call) : Prop :=
  match r with Ok (receipt, digest) => reclaimed target operationID receipt digest h | Err _ => True end.

Lemma replayReceipt_spec h :
  runs inside (replayReceipt target operationID authority) h
    (fun r h' => match r with Ok (Some outcome) => returned (Ok outcome) h' | Ok None => exists found, h' = Event (Local (ReadReceipt target operationID)) found :: h | _ => True end).
Proof.
  unfold replayReceipt. cbn [read_receipt finish_receipt oracle_store]. effect_run. apply runs_ask; [done|].
  intros [[found|]|err]; [|by effect_run; eexists|done]. effect_run. apply reclaim_authority; [|done]. intros l h1 _ H1. effect_run.
  apply runs_ask; [intros a; split; [by apply granted_some|done]|]. intros [[receipt digest]|err]; [|done]. effect_run.
  eexists. right. by exists found.
Qed.

Lemma reclaimWithResume_spec h : rooted target root h -> runs inside (reclaimWithResume root target operationID authority) h returned.
Proof.
  intros Hroot. unfold reclaimWithResume. cbn [open_existing read_journal confirm_target check_context destroy settle oracle_store]. effect_run; [done|].
  apply runs_ask; [intros a; split; [by exists approved|done]|]. intros [[]|err]; [|done]. effect_run. eapply runs_mono; [apply replayReceipt_spec|done|].
  intros [[outcome|]|err] l Hl; [by effect_run| |done]. effect_run. apply runs_ask; [done|]. intros [[journal started]|err]; [|done]. effect_run.
  apply reclaim_authority; [|done]. intros l1 h1 _ H1. effect_run.
  assert (Hrest : forall intent h2, runs inside
    (check_context;; recheck (authority (started && negb (is_nil journal)));; destroy target intent;; settle target operationID intent) h2 returned).
  { intros intent h2. cbn [check_context destroy settle oracle_store]. effect_run. apply runs_ask; [done|]. intros [[]|err]; [|done]. effect_run.
    apply recheck_authority; [|done]. intros l3 h3 _ H3. effect_run. apply runs_ask; [intros a; split; [by apply granted_some|done]|].
    intros [[]|err]; [|done]. apply runs_ask.
    - intros a. split; [|done]. exists h3. split; [by apply granted_reclaims|by left].
    - intros [[receipt digest]|err]; [|done]. eexists. left. by exists intent. }
  destruct journal as [intent|], started; [apply runs_ret; cbv beta iota; by apply Hrest|..];
    (apply runs_ask; [intros a; split; [by apply granted_reclaims|done]|]; intros [intent'|err]; [by apply Hrest|done]).
Qed.

Lemma cancelCreation_spec h : runs inside (cancelCreation root target operationID authority) h returned.
Proof.
  unfold cancelCreation. cbn [check_context open_store read_cancellation prepare_cancellation retire_cancelled purge_cancelled verify_cancelled settle oracle_store].
  effect_run; [done|]. apply runs_ask; [done|]. intros [[]|err]; [|done]. effect_run. apply reclaim_authority; [|done]. intros l1 h1 _ H1. effect_run.
  apply runs_ask; [intros a; split; [right; by exists approved|done]|]. intros [[]|err]; [|done]. effect_run.
  apply reclaim_authority; [|done]. intros l2 h2 _ H2. effect_run. apply runs_ask; [done|]. intros [found|err]; [|done].
  set (h3 := Event (Local (ReadCancellation target operationID)) (Ok found) :: h2).
  apply runs_bind. eapply (runs_mono _ _ _ _ (fun r h' => match r with
    | Ok (Some outcome) => returned (Ok outcome) h'
    | Ok None => exists l, h' = l ++ h2 /\ Forall (fun e => reads e = true) l
    | Err _ => True
    end)); [destruct found|done|].
  { eapply runs_mono; [apply replayReceipt_spec|done|]. intros [[outcome|]|err] l Hl; [done| |done]. destruct Hl as [found Hl].
    exists [Event (Local (ReadReceipt target operationID)) found; Event (Local (ReadCancellation target operationID)) (Ok true)]. split; [exact Hl|by repeat constructor]. }
  { apply runs_ret. exists [Event (Local (ReadCancellation target operationID)) (Ok false)]. split; [done|by repeat constructor]. }
  intros [[outcome|]|err] l Hl; [by effect_run| |done]. destruct Hl as (reading & -> & Hreading). effect_run.
  apply runs_ask. { intros a. split; [|done]. exists reading, h2. split_and!; [done|done|by apply granted_reclaims]. }
  intros [[intent source]|err]; [|done]. effect_run. apply reclaim_authority; [|done]. intros l4 h4 _ H4. effect_run.
  assert (Hend : forall h', runs inside (authority true;; verify_cancelled target;; settle target operationID intent) h' returned).
  { intros h'. cbn [verify_cancelled settle oracle_store]. effect_run. apply reclaim_authority; [|done]. intros l5 h5 _ H5. effect_run.
    apply runs_ask; [done|]. intros [[]|err]; [|done]. apply runs_ask.
    - intros a. split; [|done]. exists h5. split; [by apply granted_reclaims|by right].
    - intros [[receipt digest]|err]; [|done]. eexists. left. by exists intent. }
  destruct (negb (LocalIntent.Inode intent =? 0)%N); [|apply runs_ret; cbv beta iota; by apply Hend]. effect_run. apply runs_ask; [intros a; split; [by apply granted_some|done]|].
  intros [[]|err]; [|done]. effect_run. apply reclaim_authority; [|done]. intros l5 h5 Hh5 H5. apply runs_ask; [|by intros [[]|err]; [apply Hend|]].
  intros a. split; [|done]. exists target, source, operationID. split; [by apply granted_reclaims|]. rewrite Hh5, elem_of_app. right. by left.
Qed.
End operation.

Lemma reclaim_spec approved h : A approved -> runs inside (reclaim n approved) h (fun _ _ => True).
Proof.
  intros HA. unfold reclaim. cbv zeta. effect_run. eapply runs_reads; [apply effect_poolRoot_spec|]. intros [root|err] l _ Hroot; [|done]. effect_run.
  eapply (runs_mono _ _ _ _ (returned approved)); [|done|].
  { destruct (Spec.Reason _ == _); [by apply cancelCreation_spec|by apply reclaimWithResume_spec]. }
  intros [[receipt digest]|err] l' Hret.
  - effect_run; [done|]. apply orb_false_iff in H as [Hretired Hpurged]. apply runs_perform; [done|]. intros now. apply runs_ask; [|done].
    intros a. split; [|done]. split; [done|]. right. eexists receipt, digest, now, _. split_and!; [reflexivity|exact Hret|by apply negb_false_iff..|done].
  - destruct (error_is err ErrNeedsReview || error_is err OwnershipMarkers.ErrIdentity); effect_run; [|done].
    apply runs_ask; [|intros [[]|]; by effect_run]. intros a. split; [|done]. split; [done|]. left. by eexists.
Qed.

End authorised.

(** ** Requests and events *)

(** A journal bound to this process, to be executed for the volume. *)
Definition assigned (id : string) (approved : Cleanup) : Prop :=
  bound n approved = true /\ Status.Phase (Cleanup.Status approved) = CleanupJournal.PhaseRunning /\ VolumeID (Spec.Target (Cleanup.Spec approved)) = id.

Lemma inside_mono id (A A' : Cleanup -> Prop) h e : (forall approved, A approved -> A' approved) -> inside id A h e -> inside id A' h e.
Proof.
  intros HA [He Hu]. split; [|done]. clear Hu.
  assert (Hr : forall target operationID l, reclaims A target operationID l -> reclaims A' target operationID l).
  { intros target operationID l (approved & root & Ha & Hg). exists approved, root. split; [by apply HA|done]. }
  destruct e as [B c a]. destruct c as [| | | | | | | | | | | | | | | | | | |C []| | | | | | | | |]; try exact He; naive_solver.
Qed.

Lemma resolveCleanup_spec id state h :
  runs (fun _ e => reads e = true) (resolveCleanup id state) h
    (fun r _ => match r with Ok approved => VolumeID (Spec.Target (Cleanup.Spec approved)) = id | Err _ => True end).
Proof.
  unfold resolveCleanup. effect_run. 
  assert (Hrest : forall authority h', runs (fun _ e => reads e = true) (ask (ReadJournal authority)) h' (fun r h' => match r with
    | Ok approved => runs (fun _ e => reads e = true)
        (io_reject_if ((VolumeID (Spec.Target (Cleanup.Spec approved)) != id) || (VolumeUID (Spec.Target (Cleanup.Spec approved)) != State.UID state)) ErrStateConflict;; mret approved)
        h' (fun r _ => match r with Ok approved => VolumeID (Spec.Target (Cleanup.Spec approved)) = id | Err _ => True end)
    | Err e => True end)).
  { intros authority h'. apply runs_ask; [done|]. intros [approved|err]; [|done]. effect_run; [done|]. apply orb_false_iff in H as [H _].
    apply negb_false_iff, bool_decide_eq_true in H. done. }
  destruct (State.ActiveMove state != ""); [|apply runs_ret; cbv beta iota; apply runs_bind, Hrest]. effect_run. apply runs_ask; [done|].
  intros [move|err]; [|done]. effect_run; [done|]. apply Hrest.
Qed.

Lemma executeLocked_spec id h : runs (inside id (assigned id)) (executeLocked n id) h (fun _ _ => True).
Proof.
  unfold executeLocked. effect_run. apply runs_ask; [done|]. intros [state|err]; [|destruct (IsNotFound err); by effect_run].
  destruct (_ && is_nil _); [apply create_spec; by left|]. destruct (_ && _); [by effect_run|]. effect_run.
  eapply runs_reads; [apply resolveCleanup_spec|]. intros [approved|err] l _ Hid; [|destruct (error_is err ErrNoJournal); by effect_run].
  destruct (_ || _) eqn:Hb; [by effect_run|]. apply orb_false_iff in Hb as [Hphase Hbound]. apply negb_false_iff in Hbound.
  apply negb_false_iff, bool_decide_eq_true in Hphase. by apply reclaim_spec.
Qed.

(** The journals a request may execute: a reclaim names its operation. *)
Definition requested (req : EffectRequest) (operation : Operation) (approved : Cleanup) : Prop :=
  assigned (EffectRequest.VolumeName req) approved /\ (operation = RECLAIM -> Spec.OperationID (Cleanup.Spec approved) = EffectRequest.OperationId req).

Lemma cleanupRPC_spec state req h :
  runs (fun _ e => reads e = true) (cleanupRPC n state req) h
    (fun r _ => match r with Ok (approved, false) => requested req RECLAIM approved | _ => True end).
Proof.
  unfold cleanupRPC. apply runs_bind. eapply (runs_mono (fun _ e => reads e = true) _ _ _ (fun _ _ => True)); [|done|].
  { destruct (State.ActiveMove state != ""); effect_run; [|done]. apply runs_perform; [done|]. intros ready. by effect_run. }
  intros [[]|err] l _; [|done]. effect_run. eapply runs_mono; [apply resolveCleanup_spec|done|]. intros [approved|err] l' Hid; [|done]. effect_run; [done|].
  apply orb_false_iff in H as [Hop Hbound]. apply negb_false_iff in Hbound. apply negb_false_iff, bool_decide_eq_true in Hop.
  apply runs_ask; [done|]. intros [[]|err]; [|done]. destruct (_ && _); effect_run; [done|done|].
  apply negb_false_iff, bool_decide_eq_true in H. done.
Qed.

(** A call under the lock of the volume, authorised for the journals [A]. *)
Definition guarded (id : string) (A : Cleanup -> Prop) (h : history effect_call) (e : event effect_call) : Prop :=
  authorised id A h e /\
  match e with
  | Event c _ => match c with LockEffect volumeID | UnlockEffect volumeID => volumeID = id | _ => locked id h end
  end.

Lemma effect_locked_spec id A (body : effect_handler unit) h :
  (forall h', runs (inside id A) body h' (fun _ _ => True)) -> runs (guarded id A) (effect_locked id body) h (fun _ _ => True).
Proof.
  intros Hbody. unfold effect_locked. effect_run. apply runs_ask; [done|]. intros [[]|err]; [|done]. effect_run.
  destruct (Hbody (Event (LockEffect id) (Ok tt) :: h)) as (l & Hl & Ht & _). exists l. split_and!; [done| |].
  - eapply calls_mono; [|apply (trace_locked (inside id A)), (calls_mono (inside id A)); [by intros h' e [He Hu]|exact Ht]].
    intros h' e [[He Hu] Hlocked]. split; [done|]. destruct e as [B c a]. by destruct c.
  - destruct (body _) as [r h']. simpl. effect_run. apply runs_perform; [done|]. intros []. by effect_run.
Qed.

Lemma execute_spec id h : runs (guarded id (assigned id)) (execute n id) h (fun _ _ => True).
Proof. apply effect_locked_spec. intros h'. apply executeLocked_spec. Qed.

Lemma Execute_spec req operation h : runs (guarded (EffectRequest.VolumeName req) (requested req operation)) (Execute n req operation) h (fun _ _ => True).
Proof.
  unfold Execute. effect_run; [done|]. apply effect_locked_spec. intros h'. effect_run. apply runs_ask; [done|]. intros [state|err]; [|done].
  effect_run; [done|]. destruct operation; [by effect_run|..]; effect_run.
  - destruct (creationRPC n state req) as [[]|]; [by effect_run| |done]. eapply runs_mono; [apply executeLocked_spec| |done].
    intros h1 e. apply inside_mono. intros approved Ha. by split.
  - eapply runs_reads; [apply cleanupRPC_spec|]. intros [[approved []]|err] l _ Hr; [by effect_run| |done]. by apply reclaim_spec.
Qed.

(** C10: whatever the records, the cluster and the disk answer, the executor of a node, woken by a watch or by a request, works only while
    it holds the lock of the volume it was asked for, and changes the disk only with authority.  The copy of a creation is the one
    read with that volume; a store is opened for it, and the copy made, only directly after a check that read the volume of the copy as
    being created by this very process with exactly this copy, its Pool as fit, the Pod of the process as alive, the installation as
    the copy's and the backing of the Pool as intact.  A cleanup is only one whose journal was running and bound to this process, with
    a copy of that volume as its target.  Its target is confirmed, destroyed, retired or purged, and what an earlier run left of it
    removed, only directly after a check that read the journal unchanged and still running, asked the owner of the copy, and made the
    same checks of Pool, Pod, installation and backing; a cancellation is prepared after such a check with nothing but reads between.
    Two steps have no check of their own: the store of a reclaim is opened, and the local lock of the volume taken there, at the root
    of the Pool that was read for the target; and a cleanup is settled directly after the destruction, or after the proof of absence,
    that itself came directly after a check.  A request to reclaim executes no journal but one with the operation it names; a request
    to create may meet a volume that changed since, and then executes the cleanup that is assigned to this process instead.  A receipt
    is recorded only with what the disk answered last, and a journal is written otherwise only to ask for a review. *)
Theorem effects_authorised (newer older : history effect_call) (e : event effect_call) :
  (forall id, snd (execute n id []) = newer ++ e :: older -> guarded id (assigned id) older e) /\
  (forall req operation, snd (Execute n req operation []) = newer ++ e :: older -> guarded (EffectRequest.VolumeName req) (requested req operation) older e).
Proof.
  rewrite <- (app_nil_r older). split; intros; (eapply runs_at; [|done]); [apply execute_spec|apply Execute_spec].
Qed.
End safety.

(** ** A node that creates a copy *)

Module SampleEffect.
Definition node : NodeAgent := {| NodeAgent.Configured := true; NodeAgent.Identity := sample_executor; NodeAgent.HostRoot := "/host";
  NodeAgent.RPCCertificate := "certificate"; NodeAgent.RPCPort := "9443" |}.

Definition creating : State := State.set_executor sample_pending PhaseNodeCreating (Some sample_executor).

Definition pod : Pod := SampleMobility.app "node-x" "pod-1" "node-a".

Definition pool : Pool := let p := SampleMobility.pool_a in
  {| Pool.Name := PoolName sample_copy; Pool.UID := PoolUID sample_copy; Pool.NodeName := NodeName sample_copy; Pool.PoolGroup := Pool.PoolGroup p;
     Pool.MountPath := "/mnt/pool"; Pool.CapacityPolicy := Pool.CapacityPolicy p; Pool.MountPolicy := Pool.MountPolicy p;
     Pool.CapacityLimit := Pool.CapacityLimit p; Pool.Generation := Pool.Generation p; Pool.DeletionTimestamp := Pool.DeletionTimestamp p;
     Pool.Finalizers := [PoolProtectionFinalizer]; Pool.IdentityReleaseApproval := Pool.IdentityReleaseApproval p;
     Pool.RetirementRequest := Pool.RetirementRequest p; Pool.RetirementApproval := Pool.RetirementApproval p;
     Pool.CapacityProbeRequest := Pool.CapacityProbeRequest p; Pool.Status := Pool.Status p |}.

Definition request : EffectRequest := {| EffectRequest.ExecutorUid := NodeExecutor.PodUID sample_executor; EffectRequest.NodeName := "node-a";
  EffectRequest.VolumeName := sample_id; EffectRequest.VolumeUid := "uid-1"; EffectRequest.OperationId := "create-uid-1" |}.

Definition read_before (h : history effect_call) : bool := existsb (fun e => match e with Event (ReadVolume _) _ => true | _ => false end) h.

(** What the cluster and the disk answer; with [vanishes], the volume is gone when it is read again. *)
Definition oracle (vanishes : bool) : Oracle effect_call := fun A h c =>
  match c in effect_call A return A with
  | ReadVolume _ => if vanishes && read_before h then Err SampleCsi.notFound else Ok creating
  | ReadMove _ => Err SampleCsi.notFound
  | ReadJournal _ => Err ErrNoJournal
  | ReadPool _ _ _ | ReadCleanupPool _ _ _ | ReadCreationPool _ => Ok pool
  | ReadInstallation => Ok "cluster"
  | ReadPod _ _ => Ok (pod, "10.0.0.1")
  | ListNodePods _ _ => Ok [pod]
  | ReadDaemonSet _ _ => Err SampleCsi.notFound
  | HelperCreationExists _ | HelperCleanupExists _ | HelperCleanupSettled _ => Ok false
  | Local c => match c in store_call B return result B with
               | ServingDigest _ => Ok "digest"
               | CheckContext | OpenStore _ _ | OpenExistingStore _ _ | EnsureServing _ | Destroy _ _ | RetireCancelled _ _ _ | PurgeCancelled _
               | VerifyCancelled _ => Ok tt
               | ReadCancellation _ _ => Ok false
               | ReadReceipt _ _ => Ok None
               | ReadLocalJournal _ _ => Ok (None, false)
               | FinishReceipt _ _ | ConfirmTarget _ _ _ | Settle _ _ _ | PrepareCancellation _ _ => Err ErrNeedsReview
               end
  | WriteJournal _ _ | BindCreation _ _ | RecordCreationReceipt _ _ | VerifyCleanup _ | UpdatePod _ | VerifyPoolBacking _ _ | Invoke _ _ _
  | LockEffect _ | WaitPoll => Ok tt
  | UnlockEffect _ | SetMoveCleanupReady _ | Serve => tt
  | MoveCleanupReady | SyncCaches => true
  | ReadClock => "2026-01-01T00:00:00Z"
  end.

Definition records (e : event effect_call) : bool := match e with Event (RecordCreationReceipt _ _) _ => true | _ => false end.
End SampleEffect.

#[local] Existing Instance SampleCsi.libraries.

(** A request that creates the copy and records its receipt. *)
Example creation_recorded :
  let '(r, h) := Execute (O := SampleEffect.oracle false) SampleEffect.node SampleEffect.request CREATE [] in
  r = Ok tt /\ existsb SampleEffect.records h = true /\ existsb (fun e => match e with Event (Local (EnsureServing _)) _ => true | _ => false end) h = true.
Proof. vm_compute. done. Qed.

(** A successful reply without a receipt: the volume, read for the request, is gone when the operation reads it again. *)
Lemma reply_without_receipt :
  let '(r, h) := Execute (O := SampleEffect.oracle true) SampleEffect.node SampleEffect.request CREATE [] in
  r = Ok tt /\ existsb SampleEffect.records h = false.
Proof. vm_compute. done. Qed.
