(* ===== verification/EffectClientSafety.v ===== *)
(** * The client of the node executors: safety

    A creation or a cleanup is handed from one executor to another only when the first is
    observed retired, a request goes only to the executor that the record names, and
    success means that its receipt is durable. *)

From S2P Require Import Prelude Bytes VolumeIdentity CapacityUnit Apimachinery Registration GoTime ApiServer VolumeState PoolApi CleanupJournal Kube.
From S2P Require Import OwnershipMarkers LocalStore Oracle Provisioning EffectNode EffectClient EffectSafety.

(** A call that only reads, and not the disk. *)
Definition queries (e : event effect_call) : bool := reads e && match e with Event call _ => match call with Local _ => false | _ => true end end.

(** ** Discovery *)

Lemma single_executor_spec ds node moveCleanup pods found executor :
  single_executor ds node moveCleanup pods found = Ok (Some executor) <->
  (found = Some executor /\ List.filter (eligible ds node moveCleanup) pods = []) \/
  (found = None /\ exists pod, List.filter (eligible ds node moveCleanup) pods = [pod] /\ executorOf pod = executor).
Proof.
  revert found. induction pods as [|pod pods IH]; intros found; cbn [single_executor List.filter].
  - split; [intros [= ->]; by left|intros [[-> _]|[_ (pod & [=] & _)]]; done].
  - destruct (eligible ds node moveCleanup pod); [|apply IH]. destruct found as [other|]; [split; [done|by intros [[_ [=]]|[[=] _]]]|]. rewrite IH.
    split; [intros [[[= <-] ->]|[[=] _]]; right; split; [done|by exists pod]|].
    intros [[[=] _]|[_ (pod' & [= <- Hrest] & <-)]]. by left.
Qed.

Section safety.
Context {AM : Apimachinery} {L : Libraries} {N : Network} {O : Oracle effect_call} (c : Client).

#[local] Notation discovery := (Client.Discovery c).

(** One Pod of the node, and only one, was observed to be an executor of the DaemonSet. *)
Definition found_on (node : string) (moveCleanup : bool) (executor : NodeExecutor) (h : history effect_call) : Prop :=
  exists ds pods pod, Event (ReadDaemonSet (Discovery.Namespace discovery) (Discovery.DaemonSet discovery)) (Ok ds) ∈ h /\
    Event (ListNodePods (Discovery.Namespace discovery) node) (Ok pods) ∈ h /\
    List.filter (eligible ds node moveCleanup) pods = [pod] /\ executorOf pod = executor.

(** The Pod of an executor was observed absent, replaced or finished. *)
Definition retired_seen (executor : NodeExecutor) (h : history effect_call) : Prop :=
  exists answer, Event (ReadPod (NodeExecutor.Namespace executor) (NodeExecutor.PodName executor)) answer ∈ h /\
    match answer with
    | Err err => IsNotFound err = true
    | Ok (pod, _) => ObjectMeta.UID (Pod.Meta pod) <> NodeExecutor.PodUID executor \/ Pod.Phase pod = PodFailed \/ Pod.Phase pod = PodSucceeded
    end.

(** The Pod of an executor was observed alive, as this incarnation of the DaemonSet on its node. *)
Definition alive_seen (executor : NodeExecutor) (h : history effect_call) : Prop :=
  exists pod ip ds, Event (ReadPod (NodeExecutor.Namespace executor) (NodeExecutor.PodName executor)) (Ok (pod, ip)) ∈ h /\
    ObjectMeta.UID (Pod.Meta pod) = NodeExecutor.PodUID executor /\ PodSpec.NodeName (Pod.Spec pod) = NodeExecutor.NodeName executor /\
    Event (ReadDaemonSet (Discovery.Namespace discovery) (Discovery.DaemonSet discovery)) (Ok ds) ∈ h /\ ownedExecutor pod ds = true.

#[export] Instance found_on_persistent node moveCleanup executor : Persistent (found_on node moveCleanup executor).
Proof. intros e h (ds & pods & pod & H1 & H2 & H3). exists ds, pods, pod. split_and!; [by right|by right|naive_solver..]. Qed.

#[export] Instance retired_seen_persistent executor : Persistent (retired_seen executor).
Proof. intros e h (answer & H1 & H2). exists answer. split; [by right|done]. Qed.

#[export] Instance alive_seen_persistent executor : Persistent (alive_seen executor).
Proof. intros e h (pod & ip & ds & H1 & H2 & H3 & H4 & H5). exists pod, ip, ds. split_and!; [by right|done|done|by right|done]. Qed.

Lemma find_spec node moveCleanup h :
  runs (fun _ e => queries e = true) (find c node moveCleanup) h
    (fun r h' => match r with Ok (Some executor) => found_on node moveCleanup executor h' | _ => True end).
Proof.
  unfold find. destruct (Discovery.DaemonSet discovery == ""); [by effect_run|]. effect_run. apply runs_ask; [done|].
  intros [ds|err]; [|destruct (IsNotFound err); by effect_run]. effect_run. apply runs_ask; [done|]. intros [pods|err]; [|done]. effect_run.
  destruct (single_executor _ _ _ _ _) as [[executor|]|err] eqn:Hs; [|done|done]. apply single_executor_spec in Hs as [[[=] _]|[_ (pod & Hf & He)]].
  exists ds, pods, pod. split_and!; [by right; left|by left|done|done].
Qed.

Lemma executor_retired_spec executor h :
  runs (fun _ e => queries e = true) (Retired executor) h (fun r h' => r = Ok true -> retired_seen executor h').
Proof.
  unfold Retired. effect_run. apply runs_ask; [done|]. intros [[pod ip]|err].
  - effect_run. intros [= Hr]. exists (Ok (pod, ip)). split; [by left|]. rewrite !orb_true_iff, negb_true_iff, bool_decide_eq_false, !bool_decide_eq_true in Hr. naive_solver.
  - destruct (IsNotFound err) eqn:He; effect_run; [|done]. intros _. exists (Err err). split; [by left|done].
Qed.

(** ** What a call of the client requires *)

Definition client_call (bind : history effect_call -> State -> NodeExecutor -> Prop) (rebind : history effect_call -> Cleanup -> Status -> Prop)
    (invoked : history effect_call -> Target -> Operation -> EffectRequest -> Prop) (h : history effect_call) (e : event effect_call) : Prop :=
  match e with
  | Event call _ =>
      match call with
      | BindCreation expected executor => bind h expected executor
      | WriteJournal current next => rebind h current next
      | Invoke target operation req => invoked h target operation req
      | RecordCreationReceipt _ _ | UpdatePod _ | Local _ | SetMoveCleanupReady _ => False
      | _ => True
      end
  end.

Lemma queries_client bind rebind invoked h e : queries e = true -> client_call bind rebind invoked h e.
Proof. destruct e as [B call a]. destruct call; try done. unfold queries. rewrite andb_false_r. done. Qed.

Lemma runs_queries bind rebind invoked {A : Type} (body : effect_handler A) h (R Q : result A -> history effect_call -> Prop) :
  runs (fun _ e => queries e = true) body h R -> (forall r l, R r (l ++ h) -> Q r (l ++ h)) -> runs (client_call bind rebind invoked) body h Q.
Proof. intros H HQ. eapply runs_mono; [exact H|intros h' e; apply queries_client|done]. Qed.

Lemma runs_classified P {A : Type} (body : effect_handler A) h (Q : result A -> history effect_call -> Prop) :
  runs P body h (fun r h' => Q match r with Ok a => Ok a | Err err => Err (classifyError err) end h') -> runs P (classified body) h Q.
Proof.
  intros H. apply runs_bind, runs_attempt. eapply runs_mono; [exact H|done|]. intros [a|err] l HQ; [by apply runs_ret|by apply runs_fail].
Qed.

Lemma Endpoint_spec executor h :
  runs (fun _ e => queries e = true) (Endpoint c executor) h
    (fun r h' => match r with Ok (Some target) => Target.Identity target = executor /\ alive_seen executor h' | _ => True end).
Proof.
  unfold Endpoint. effect_run; [done|]. apply runs_ask; [done|]. intros [[pod ip]|err]; [|done]. effect_run; [done|].
  apply runs_ask; [done|]. intros [ds|err]; [|done]. effect_run; [done|]. destruct (default "" _ == ""); [by effect_run|].
  destruct (parse_port _) as [port|]; effect_run; [done| |done]. split; [done|]. exists pod, ip, ds.
  repeat match goal with H : _ || _ = false |- _ => apply orb_false_iff in H as [? ?] | H : negb _ = false |- _ => apply negb_false_iff in H end.
  rewrite bool_decide_eq_true in *. split_and!; [by right; left|done|done|by left|done].
Qed.

Lemma invoke_spec bind rebind (invoked : history effect_call -> Target -> Operation -> EffectRequest -> Prop) executor operation req h :
  (forall l target, Target.Identity target = executor -> alive_seen executor (l ++ h) -> invoked (l ++ h) target operation req) ->
  runs (client_call bind rebind invoked) (invoke c executor operation req) h (fun _ _ => True).
Proof.
  intros Hi. unfold invoke. destruct (negb (Client.RPC c)); [by effect_run|]. effect_run. eapply runs_queries; [apply Endpoint_spec|].
  intros [[target|]|err] l Ht; [|by effect_run|done]. destruct Ht as [Ht Ha]. effect_run. apply runs_ask; [intros a; by apply Hi|]. intros [[]|err]; by effect_run.
Qed.

(** ** Creation *)

Definition read_as (copy : CopyIdentity) (state : State) (h : history effect_call) : Prop :=
  Event (ReadVolume (VolumeID copy)) (Ok state) ∈ h /\ holds copy state = true.

#[export] Instance read_as_persistent copy state : Persistent (read_as copy state).
Proof. intros e h [H1 H2]. split; [by right|done]. Qed.

(** A creation is bound to an executor while no other can work on it. *)
Definition creation_bound (copy : CopyIdentity) (h : history effect_call) (expected : State) (executor : NodeExecutor) : Prop :=
  read_as copy expected h /\
  match State.CreationExecutor expected with
  | None => State.Phase expected = PhasePending /\ Event (HelperCreationExists copy) (Ok false) ∈ h /\ found_on (NodeName copy) false executor h
  | Some former => State.CreationReceipt expected = None /\ retired_seen former h /\ found_on (State.OwnerNode expected) false executor h
  end.

Definition creation_invoked (copy : CopyIdentity) (h : history effect_call) (target : Target) (operation : Operation) (req : EffectRequest) : Prop :=
  operation = CREATE /\ exists state, read_as copy state h /\ State.CreationExecutor state = Some (Target.Identity target) /\
    req = creation_request copy state (Target.Identity target) /\ alive_seen (Target.Identity target) h.

Definition creation_call (copy : CopyIdentity) : history effect_call -> event effect_call -> Prop :=
  client_call (creation_bound copy) (fun _ _ _ => False) (creation_invoked copy).

(** The creation was read settled: with the history of a Ready volume, or with the receipt of its executor. *)
Definition creation_seen (copy : CopyIdentity) (h : history effect_call) : Prop :=
  exists state, read_as copy state h /\ ((State.Phase state = PhaseReady /\ ValidReadyCreationHistory state = true) \/ ValidCreationReceipt state = true).

#[export] Instance creation_seen_persistent copy : Persistent (creation_seen copy).
Proof. intros e h (state & H1 & H2). exists state. split; [by apply persistent|done]. Qed.

Lemma bindNew_spec copy expected node h :
  (forall l executor, found_on node false executor (l ++ h) -> creation_bound copy (l ++ h) expected executor) ->
  runs (creation_call copy) (bindNew c expected node) h (fun _ _ => True).
Proof.
  intros Hb. unfold bindNew. effect_run. eapply runs_queries; [apply find_spec|]. intros [[executor|]|err] l Hf; [|by effect_run|done].
  by apply runs_ask; [intros a; apply Hb|].
Qed.

Lemma prepareCreation_spec copy state h : read_as copy state h -> runs (creation_call copy) (prepareCreation c state copy) h (fun _ _ => True).
Proof.
  intros Hr. unfold prepareCreation, rebindCreation. destruct (State.CreationExecutor state) as [former|] eqn:He; effect_run; try done.
  - destruct (is_nil _) eqn:Hn; [|by effect_run]. effect_run. eapply runs_queries; [apply executor_retired_spec|]. intros [[]|err] l Hret; [|by effect_run|done].
    apply bindNew_spec. intros l' executor Hf. split; [by do 2 apply (persists (read_as copy state))|]. rewrite He. split_and!; [|by apply (persists (retired_seen former)), Hret|done].
    by destruct (State.CreationReceipt state).
  - apply runs_ask; [done|]. intros [present|err]; [|done]. effect_run; [done|]. subst present. apply negb_false_iff, bool_decide_eq_true in H.
    apply bindNew_spec. intros l executor Hf. split; [by apply (persists (read_as copy state)), persistent|]. rewrite He. split_and!; [done| |done].
    apply elem_of_app. right. by left.
Qed.

Lemma readyCreation_spec copy state h :
  read_as copy state h -> State.Phase state = PhaseReady ->
  runs (creation_call copy) (readyCreation c state copy) h (fun r h' => r = Ok tt -> creation_seen copy h').
Proof.
  intros Hr Hphase. unfold readyCreation. effect_run; [done|]. apply negb_false_iff in H.
  assert (Hs : creation_seen copy h) by (exists state; split; [done|by left]).
  destruct (is_nil _); effect_run; [done|..]; [|done]. apply runs_ask; [done|]. intros [present|err]; [|done]. effect_run; [done|]. intros _. by apply persistent.
Qed.

Lemma createDirect_spec copy state h :
  Event (ReadVolume (VolumeID copy)) (Ok state) ∈ h -> runs (creation_call copy) (createDirect c copy state) h (fun r h' => r = Ok true -> creation_seen copy h').
Proof.
  intros Hr. unfold createDirect. effect_run; [done|]. apply negb_false_iff in H. assert (Hread : read_as copy state h) by done.
  destruct (State.CreationExecutor state) as [executor|] eqn:He; [|by effect_run].
  destruct (ValidCreationReceipt state) eqn:Hv; effect_run. { intros _. exists state. split; [done|by right]. }
  eapply runs_mono; [apply invoke_spec|done|].
  { intros l target <- Ha. split; [done|]. exists state. split_and!; [by apply (persists (read_as copy state))|done|done|done]. }
  intros [[]|err] l _; cbn [negb]; [|by effect_run|done]. effect_run. apply runs_ask; [done|]. intros [current|err]; [|done]. effect_run; [done|].
  apply orb_false_iff in H0 as [Hh Hc]. apply negb_false_iff in Hh, Hc. intros _. exists current. split; [split; [by left|done]|by right].
Qed.

Lemma poll_spec P polls (condition : effect_handler bool) (F : history effect_call -> Prop) h :
  (forall h a, P h (Event WaitPoll a)) -> (forall h, runs P condition h (fun r h' => r = Ok true -> F h')) ->
  runs P (poll polls condition) h (fun r h' => r = Ok tt -> F h').
Proof.
  intros HP Hc. revert h. induction polls as [|polls IH]; intros h; cbn [poll]; effect_run; [done|].
  eapply runs_mono; [apply Hc|done|]. intros [[]|err] l HF; effect_run; [by intros _; apply HF| |done].
  apply runs_ask; [by apply HP|]. intros [[]|err]; [apply IH|done].
Qed.

Lemma CreateCopy_spec copy h : runs (creation_call copy) (CreateCopy c copy) h (fun r h' => r = Ok tt -> creation_seen copy h').
Proof.
  unfold CreateCopy. apply runs_classified. effect_run. apply runs_ask; [done|]. intros [state|err]; [|done]. effect_run; [done|]. apply negb_false_iff in H.
  assert (Hr : read_as copy state (Event (ReadVolume (VolumeID copy)) (Ok state) :: h)) by (split; [by left|done]).
  destruct (bool_decide_reflect (State.Phase state = PhaseReady)) as [Hphase|].
  { eapply runs_mono; [by apply readyCreation_spec|done|]. intros [[]|err] l Hs; [intros _; by apply Hs|done]. }
  effect_run. eapply runs_mono; [by apply prepareCreation_spec|done|]. intros [[]|err] l _; [|done]. effect_run. apply runs_ask; [done|]. intros [current|err]; [|done]. effect_run.
  eapply runs_mono; [apply createDirect_spec; by left|done|]. intros [[]|err] l' Hs; effect_run; [by intros _; apply Hs| |done].
  eapply runs_mono; [apply (poll_spec (creation_call copy) _ _ (creation_seen copy)); [done|]|done|by intros [[]|err] l'' Hp].
  intros h'. unfold creation_settled. effect_run. apply runs_ask; [done|]. intros [last|err]; [|done]. effect_run; [done|]. intros [= Hv].
  apply orb_false_iff in H0 as [Hh _]. apply negb_false_iff in Hh. exists last. split; [split; [by left|done]|by right].
Qed.

Lemma FinalizeCreate_spec copy h :
  runs (creation_call copy) (FinalizeCreate c copy) h (fun r h' => r = Ok tt -> creation_seen copy h').
Proof.
  unfold FinalizeCreate. apply runs_classified. effect_run. apply runs_ask; [done|]. intros [state|err]; [|done]. effect_run; [done|]. apply negb_false_iff in H.
  assert (Hr : read_as copy state (Event (ReadVolume (VolumeID copy)) (Ok state) :: h)) by (split; [by left|done]).
  destruct (bool_decide_reflect (State.Phase state = PhaseReady)) as [Hphase|Hphase].
  { eapply runs_mono; [by apply readyCreation_spec|done|]. intros [[]|err] l Hs; [intros _; by apply Hs|done]. }
  unfold readyCreation. effect_run; [done|]. apply negb_false_iff in H0. unfold ValidReadyCreationHistory in H0. destruct (State.CurrentCopy state); [|done]. by rewrite (bool_decide_false _ Hphase) in H0.
Qed.

(** ** Cleanup *)

Section cleanup.
Context (expected : Cleanup).

#[local] Notation authority := (Spec.Authority (Cleanup.Spec expected)).

Definition journal_read (current : Cleanup) (h : history effect_call) : Prop := Event (ReadJournal authority) (Ok current) ∈ h.

(** A cleanup is bound to an executor while it is not done and no other can work on it. *)
Definition cleanup_bound (h : history effect_call) (current : Cleanup) (next : Status) : Prop :=
  journal_read current h /\ cleanupDone expected current = Ok false /\
  exists executor, next = running (Cleanup.Status current) executor /\
    found_on (NodeName (Spec.Target (Cleanup.Spec current))) (Authority.Kind (Spec.Authority (Cleanup.Spec current)) == "ShiftPVMove") executor h /\
    match Status.Executor (Cleanup.Status current) with
    | None => Event (HelperCleanupExists current) (Ok false) ∈ h
    | Some former => Executor.Kind former = ExecutorNode /\ retired_seen (nodeBinding former) h
    end.

Definition cleanup_invoked (h : history effect_call) (target : Target) (operation : Operation) (req : EffectRequest) : Prop :=
  operation = RECLAIM /\ exists current executor, journal_read current h /\ cleanupDone expected current = Ok false /\
    Status.Executor (Cleanup.Status current) = Some executor /\ Executor.Kind executor = ExecutorNode /\
    Target.Identity target = nodeBinding executor /\ req = cleanupRequest current executor /\ alive_seen (nodeBinding executor) h.

Definition cleanup_call : history effect_call -> event effect_call -> Prop := client_call (fun _ _ _ => False) cleanup_bound cleanup_invoked.

(** The journal was read with the receipt of its executor, or settled and its Job gone. *)
Definition cleanup_seen (current : Cleanup) (h : history effect_call) : Prop :=
  journal_read current h /\ cleanupDone expected current = Ok true /\
  (nodeBound current = true \/ (CleanupJournal.ValidateSettled current = Ok tt /\ Event (HelperCleanupSettled current) (Ok true) ∈ h)).

Lemma cleanupDone_receipt current : cleanupDone expected current = Ok true -> cleanupReceiptValid current = true.
Proof.
  unfold cleanupDone. rewrite check_Ok. intros [_ H]. cbv zeta in H. destruct (_ || _ || _) in H; [|by repeat destruct (_ || _) in H; try destruct (_ == _) in H; try apply check_Ok in H as [_ H]].
  apply check_Ok in H as [H _]. apply reject_if_Ok, negb_false_iff in H. done.
Qed.

Lemma receipt_executor current executor :
  cleanupReceiptValid current = true -> Status.Executor (Cleanup.Status current) = Some executor -> Executor.Kind executor <> "" -> nodeBound current = true.
Proof.
  unfold cleanupReceiptValid, nodeBound. intros Hv He Hk. rewrite He in *. destruct (Status.Receipt _); [|done]. rewrite !andb_true_iff in Hv.
  destruct Hv as [[[[[Hv _] _] _] _] _]. unfold Executor.Valid in Hv. destruct (negb _); [done|]. simpl. destruct (Executor.Kind executor == ExecutorNode); [done|].
  rewrite (bool_decide_false _ Hk) in Hv. done.
Qed.

Lemma inspectCleanup_spec current h :
  journal_read current h ->
  runs (fun _ e => queries e = true) (inspectCleanup c expected current) h (fun r h' => match r with
    | Ok true => cleanup_seen current h'
    | Ok false => cleanupDone expected current = Ok false /\
        (Status.Executor (Cleanup.Status current) = None -> Event (HelperCleanupExists current) (Ok false) ∈ h')
    | Err _ => True
    end).
Proof.
  intros Hr. unfold inspectCleanup. effect_run. destruct (cleanupDone expected current) as [finished|] eqn:Hdone; [|done].
  destruct (Status.Executor _) as [executor|] eqn:He.
  - destruct (bool_decide_reflect (Executor.Kind executor = "")) as [Hk|Hk].
    + effect_run; [done|]. apply negb_false_iff, bool_decide_eq_true in H. unfold ObserveCompletedCleanup, completed. apply runs_classified. effect_run.
      destruct (CleanupJournal.ValidateSettled current) as [[]|] eqn:Hs; [|done]. unfold nodeBound. rewrite He. simpl. rewrite Hk, (bool_decide_false ("" = ExecutorNode)) by done. effect_run; [done|].
      apply runs_ask; [done|]. intros [settled|err]; [|done]. effect_run; [done|]. apply negb_false_iff in H1. subst settled.
      split_and!; [by right| |right; split; [done|by left]]. rewrite Hdone. unfold cleanupDone in Hdone. apply check_Ok in Hdone as [_ Hdone]. cbv zeta in Hdone.
      rewrite H in Hdone. apply check_Ok in Hdone as [_ [= <-]]. done.
    + effect_run. destruct finished; [|split; [done|by intros [=]]]. split_and!; [done|done|left]. eapply receipt_executor; [by apply cleanupDone_receipt|done|done].
  - destruct finished.
    + exfalso. apply cleanupDone_receipt in Hdone. unfold cleanupReceiptValid in Hdone. by rewrite He in Hdone.
    + effect_run; [done|]. apply runs_ask; [done|]. intros [present|err]; [|done]. effect_run; [done|]. subst present. split; [done|by left].
Qed.

#[export] Instance journal_read_persistent current : Persistent (journal_read current).
Proof. intros e h H. by right. Qed.

Lemma bindTo_spec current h :
  (forall l executor, found_on (NodeName (Spec.Target (Cleanup.Spec current))) (Authority.Kind (Spec.Authority (Cleanup.Spec current)) == "ShiftPVMove") executor (l ++ h) ->
     cleanup_bound (l ++ h) current (running (Cleanup.Status current) executor)) ->
  runs cleanup_call (bindTo c current) h (fun _ _ => True).
Proof.
  intros Hb. unfold bindTo. effect_run. eapply runs_queries; [apply find_spec|]. intros [[executor|]|err] l Hf; [|by effect_run|done].
  by apply runs_ask; [intros a; apply Hb|].
Qed.

Lemma bindCleanup_spec current h :
  journal_read current h -> cleanupDone expected current = Ok false ->
  (Status.Executor (Cleanup.Status current) = None -> Event (HelperCleanupExists current) (Ok false) ∈ h) ->
  runs cleanup_call (bindCleanup c current) h (fun _ _ => True).
Proof.
  intros Hr Hd Hn. unfold bindCleanup. destruct (Status.Executor _) as [former|] eqn:He.
  - effect_run; [done|]. rewrite !orb_false_iff, !negb_false_iff, !bool_decide_eq_true in H. destruct H as [[_ Hk] _].
    eapply runs_queries; [apply executor_retired_spec|]. intros [[]|err] l Hret; [|by effect_run|done]. specialize (Hret eq_refl).
    apply bindTo_spec. intros l' executor Hf. split_and!; [by do 2 apply (persists (journal_read current))|done|]. exists executor. rewrite He.
    split_and!; [done|done|done|by apply (persists (retired_seen (nodeBinding former)))].
  - apply bindTo_spec. intros l executor Hf. split_and!; [by apply (persists (journal_read current))|done|]. exists executor. rewrite He.
    split_and!; [done|done|]. apply elem_of_app. right. by apply Hn.
Qed.

Lemma prepareCleanup_spec h :
  runs cleanup_call (prepareCleanup c expected) h (fun r h' => match r with
    | Ok (current, true) => cleanup_seen current h'
    | Ok (current, false) => journal_read current h' /\ cleanupDone expected current = Ok false /\ nodeBound current = true
    | Err _ => True
    end).
Proof.
  unfold prepareCleanup. effect_run. apply runs_ask; [done|]. intros [current|err]; [|done]. effect_run.
  assert (Hr : journal_read current (Event (ReadJournal authority) (Ok current) :: h)) by by left.
  eapply runs_queries; [by apply inspectCleanup_spec|]. intros [[]|err] l Hi; [by effect_run| |done]. destruct Hi as [Hd Hn]. effect_run.
  apply runs_ask; [done|]. intros [pool|err]; [|done]. effect_run.
  eapply runs_mono; [apply bindCleanup_spec; [by apply persistent, (persists (journal_read current))|done|intros He; right; by apply Hn]|done|].
  intros [[]|err] l' _; [|done]. effect_run. apply runs_ask; [done|]. intros [last|err]; [|done]. effect_run; [done|].
  eapply runs_queries; [apply inspectCleanup_spec; by left|]. intros [[]|err] l'' Hi; [by effect_run| |done]. effect_run; [done|].
  apply negb_false_iff in H0. destruct Hi as [Hd' _]. split_and!; [|done|done]. apply (persists (journal_read last)). by left.
Qed.

Lemma awaitCleanup_spec polls h :
  runs cleanup_call (awaitCleanup polls expected) h (fun r h' => match r with Ok current => cleanup_seen current h' | Err _ => True end).
Proof.
  revert h. induction polls as [|polls IH]; intros h; cbn [awaitCleanup]; effect_run; [done|]. apply runs_ask; [done|]. intros [current|err]; [|done].
  effect_run; [done|]. apply negb_false_iff in H. destruct (cleanupDone expected current) as [[]|] eqn:Hd; effect_run; [| |done].
  - split_and!; [by left|done|by left].
  - apply runs_ask; [done|]. intros [[]|err]; [apply IH|done].
Qed.

Lemma Reclaim_spec h :
  runs cleanup_call (Reclaim c expected) h (fun r h' => match r with Ok current => cleanup_seen current h' | Err _ => True end).
Proof.
  unfold Reclaim. apply runs_classified. effect_run. eapply runs_mono; [apply prepareCleanup_spec|done|]. intros [[current []]|err] l Hp; [by effect_run| |done].
  destruct Hp as (Hr & Hd & Hb). destruct (Status.Executor _) as [executor|] eqn:He; [|by effect_run]. effect_run.
  unfold nodeBound in Hb. rewrite He in Hb. simpl in Hb. apply bool_decide_eq_true in Hb. eapply runs_mono; [apply invoke_spec|done|].
  { intros l' target Ht Ha. split; [done|]. exists current, executor. split_and!; [by apply (persists (journal_read current))|done..]. }
  intros [[]|err] l' _; [| |done].
  - unfold cleanupResult. effect_run. apply runs_ask; [done|]. intros [last|err]; [|done]. effect_run; [done|].
    destruct (cleanupDone expected last) as [[]|] eqn:Hl; effect_run; try done. apply negb_false_iff in H. split_and!; [by left|done|by left].
  - eapply runs_mono; [apply awaitCleanup_spec|done|]. by intros [last|err] l'' Hs.
Qed.

Lemma AdvanceReclaim_spec h :
  runs cleanup_call (AdvanceReclaim c expected) h (fun r h' => match r with Ok (current, true) => cleanup_seen current h' | _ => True end).
Proof. unfold AdvanceReclaim. apply runs_classified. eapply runs_mono; [apply prepareCleanup_spec|done|]. by intros [[current []]|err] l Hp. Qed.
End cleanup.

(** C25: a creation is executed by one process at a time, and reported only when it is durable.  Whatever the cluster and the registry
    answer, the client binds a creation to an executor only after reading it with exactly this copy and finding that executor as the
    only one of the DaemonSet on the node, and either it was never bound and no helper of an earlier release was present, or it has
    no receipt and the former executor was observed absent, replaced or finished.  It sends the request only to the executor that
    the record names and that was observed alive, with its Pod UID, the volume and the operation of the record.  Success of
    [CreateCopy] and [FinalizeCreate] means that the creation was read settled, with a valid receipt or the history of a Ready volume. *)
Theorem creation_single_executor (copy : CopyIdentity) (newer older h : history effect_call) (e : event effect_call) :
  (snd (CreateCopy c copy []) = newer ++ e :: older \/ snd (FinalizeCreate c copy []) = newer ++ e :: older -> creation_call copy older e) /\
  (CreateCopy c copy [] = (Ok tt, h) \/ FinalizeCreate c copy [] = (Ok tt, h) -> creation_seen copy h).
Proof.
  rewrite <- (app_nil_r older). split; intros [H|H].
  - eapply runs_at; [apply CreateCopy_spec|done].
  - eapply runs_at; [apply FinalizeCreate_spec|done].
  - exact (runs_result _ _ _ _ _ _ (CreateCopy_spec copy []) H eq_refl).
  - exact (runs_result _ _ _ _ _ _ (FinalizeCreate_spec copy []) H eq_refl).
Qed.

End safety.
