(* ===== verification/OwnershipMetadata.v ===== *)
(** * Inventory and metadata of a Pool

    src/node/ownership/inventory.go, metadata.go and pool_release.go: what a Pool's
    markers say is present, the collection of expired cleanup receipts, and the release
    of an empty Pool. *)

From S2P Require Import Prelude Bytes Json VolumeIdentity NodeDisk OwnershipMarkers Ownership.

(** ** inventory.go *)

Module Observation.
Record Observation := { Marker : string; Identity : option CopyIdentity; Present : bool; Problem : option error }.
End Observation.
Notation Observation := Observation.Observation.

(** [Inventory.readPlacement] *)
Definition inventory_placement (pool : PoolIdentity) (name : string) : io disk placement :=
  f ← openMarker (Placements, name) ReadOnly 0;
  read ← attempt (read_limited f);
  match read with
  | Err _ => io_fail ErrIdentity
  | Ok data =>
      io_reject_if (oversized data) ErrIdentity;;
      match decode_envelope (A := placement) data with
      | None => io_fail ErrIdentity
      | Some value =>
          let identity := Placement.Identity value in
          io_reject_if (negb (is_ok (Validate identity)) || (name != placementMarker (CopyID identity))) ErrIdentity;;
          io_reject_if (pool_of identity != pool) ErrIdentity;;
          checkPlacementMarker (CopyID identity) value;;
          checkMarker (copyMarker (CopyID identity)) identity;;
          mret value
      end
  end.

(** [Inventory.pathPresent] *)
Definition pathPresent (record : placement) : io disk bool :=
  match role_path (Placement.Identity record) with
  | None => io_fail ErrIdentity
  | Some k =>
      parent ← attempt (open_dir (fst k));
      match parent with
      | Err err => if error_is err ENOENT then mret false else io_fail err
      | Ok _ =>
          opened ← attempt (open_copy k);
          match opened with
          | Err err => if error_is err ENOENT then mret false else io_fail err
          | Ok fd =>
              actual ← attempt (placementFor fd (Placement.Identity record));
              match actual with
              | Ok actual => io_reject_if (actual != record) ErrIdentity;; mret true
              | Err _ => io_fail ErrIdentity
              end
          end
      end
  end.

(** The observation of one placement marker. *)
Definition observe_marker (pool : PoolIdentity) (name : string) : io disk Observation :=
  record ← attempt (inventory_placement pool name);
  match record with
  | Err err => mret {| Observation.Marker := name; Observation.Identity := None; Observation.Present := false;
                       Observation.Problem := Some err |}
  | Ok record =>
      present ← attempt (pathPresent record);
      mret (match present with
            | Err err => {| Observation.Marker := name; Observation.Identity := None; Observation.Present := false;
                            Observation.Problem := Some err |}
            | Ok present => {| Observation.Marker := name; Observation.Identity := Some (Placement.Identity record);
                               Observation.Present := present; Observation.Problem := None |}
            end)
  end.

Definition placement_name (name : string) : bool := HasPrefix name "placement-" && HasSuffix name ".json".

Fixpoint observe_page (pool : PoolIdentity) (names : list string) : io disk (list Observation) :=
  match names with
  | [] => mret []
  | name :: names =>
      tick;;
      if negb (placement_name name) then observe_page pool names
      else o ← observe_marker pool name; rest ← observe_page pool names; mret (o :: rest)
  end.

(** [Inventory]: the names that are still to be read. *)
Definition Inventory `{NodeEnv} (pool : PoolIdentity) : io disk (list string) :=
  checkMarker "pool.json" pool;;
  tick;;
  get (names Placements).

(** [Page]: the observations, whether the directory is finished, and what is left. *)
Definition Page (pool : PoolIdentity) (remaining : list string) (limit : nat) : io disk (list Observation * bool * list string) :=
  tick;;
  io_reject_if ((limit <? 1)%nat || (64 <? limit)%nat) (Errorf "inventory page limit must be 1..64");;
  checkMarker "pool.json" pool;;
  tick;;
  let entries := take limit remaining in
  result ← observe_page pool entries;
  mret (result, (length entries =? 0)%nat, drop limit remaining).

(** ** metadata.go *)

Definition receipt_name (name : string) : bool := HasPrefix name "receipt-" && HasSuffix name ".json".

(** [completedReclaim] *)
Definition completedReclaim (pool : PoolIdentity) (name : string) : io disk (option Receipt) :=
  read ← attempt (readMarker (A := Receipt) name);
  mret (match read with
        | Err _ => None
        | Ok r =>
            let zero := (Receipt.Device r =? 0)%N && (Receipt.Inode r =? 0)%N in
            if Receipt.Retired r && Receipt.Purged r && is_ok (Validate (Receipt.Target r)) &&
               (InstallationID (Receipt.Target r) == PoolIdentity.InstallationID pool) &&
               ValidIdentityToken (Receipt.OperationID r) && (name == operationMarker "receipt" (Receipt.OperationID r)) &&
               ((negb (Receipt.Device r =? 0)%N && negb (Receipt.Inode r =? 0)%N) ||
                (zero && IsCreationCancellation (Receipt.Target r) (Receipt.OperationID r)))
            then Some r else None
        end).

(** [expiredMarker]; every error means no. *)
Definition expiredMarker (name : string) (time retention : Z) : io disk bool :=
  opened ← attempt (openControl name ReadOnly 0);
  match opened with
  | Err _ => mret false
  | Ok f =>
      st ← attempt fstat;
      mret (is_ok st && negb (time <? f_modtime f)%Z && (retention <=? time - f_modtime f)%Z)
  end.

Definition intent_of (r : Receipt) : localIntent :=
  {| LocalIntent.OperationID := Receipt.OperationID r; LocalIntent.Target := Receipt.Target r;
     LocalIntent.Device := Receipt.Device r; LocalIntent.Inode := Receipt.Inode r |}.

Definition reclaimRecordExpired (r : Receipt) (time retention : Z) : io disk bool :=
  let receiptName := operationMarker "receipt" (Receipt.OperationID r) in
  checked ← attempt (checkMarker receiptName r);
  if negb (is_ok checked) then mret false
  else
    expired ← expiredMarker receiptName time retention;
    if negb expired then mret false
    else
      let intentName := operationMarker "cleanup" (Receipt.OperationID r) in
      journal ← attempt (checkMarker intentName (intent_of r));
      match journal with
      | Err err => mret (error_is err ErrNotExist)
      | Ok _ => expiredMarker intentName time retention
      end.

Fixpoint all_absent (paths : list (dir * string)) : io disk bool :=
  match paths with
  | [] => mret true
  | k :: paths => absent ← metadataPathAbsent k; if negb absent then mret false else all_absent paths
  end.

Definition reclaimMetadataAbsent (r : Receipt) : io disk bool :=
  let target := Receipt.Target r in
  gone ← attempt (verifyAbsent target);
  if negb (is_ok gone) then mret false
  else
    absent ← all_absent [(Volumes, VolumeID target); (Incoming, CopyID target); (Incoming, stage_name target);
                         (Retired, CopyID target)];
    if negb absent then mret false
    else
      copy ← pathExists (Control, copyMarker (CopyID target));
      if copy : bool then mret false
      else placed ← pathExists (Placements, placementMarker (CopyID target)); mret (negb placed).

(** [forgetReclaimRecord]: the intent goes before the receipt that makes it redundant. *)
Definition forgetReclaimRecord (receiptName intentName : string) : io disk unit :=
  removed ← attempt (unlinkat (Control, intentName));
  ignore_missing removed;;
  fsync;;
  unlinkat (Control, receiptName);;
  fsync.

(** [forgetExpiredReclaim]; a busy identity lock means no. *)
Definition forgetExpiredReclaim (pool : PoolIdentity) (r : Receipt) (time retention : Z) : io disk bool :=
  openControl "identity.lock" ReadWriteCreate 384;;
  tick;;
  held ← get (fun d => bool_decide ("identity.lock" ∈ busy d));
  if held : bool then mret false
  else
    checkMarker "pool.json" pool;;
    expired ← reclaimRecordExpired r time retention;
    if negb expired then mret false
    else
      absent ← reclaimMetadataAbsent r;
      if negb absent then mret false
      else
        tick;;
        forgetReclaimRecord (operationMarker "receipt" (Receipt.OperationID r)) (operationMarker "cleanup" (Receipt.OperationID r));;
        mret true.

(** [collectReclaimRecord]; [unused] asks the API. *)
Definition collectReclaimRecord (pool : PoolIdentity) (r : Receipt) (time retention : Z)
    (unused : CopyIdentity -> io disk bool) : io disk bool :=
  locked ← (if PoolUID (Receipt.Target r) == PoolIdentity.PoolUID pool
            then attempt (AcquireExisting pool (VolumeID (Receipt.Target r))) else mret (Ok tt));
  match locked with
  | Err err => if error_is err ErrBusy || error_is err ErrNotExist then mret false else io_fail err
  | Ok _ =>
      expired ← reclaimRecordExpired r time retention;
      if negb expired then mret false
      else
        absent ← reclaimMetadataAbsent r;
        if negb absent then mret false
        else
          allowed ← unused (Receipt.Target r);
          if negb allowed then mret false
          else forgetExpiredReclaim pool r time retention
  end.

Fixpoint collect_names (pool : PoolIdentity) (names : list string) (time retention : Z)
    (unused : CopyIdentity -> io disk bool) (removed : nat) : io disk nat :=
  match names with
  | [] => mret removed
  | name :: names =>
      tick;;
      if negb (receipt_name name) then collect_names pool names time retention unused removed
      else
        r ← completedReclaim pool name;
        match r with
        | None => collect_names pool names time retention unused removed
        | Some r =>
            expired ← expiredMarker name time retention;
            if negb expired then collect_names pool names time retention unused removed
            else
              done ← collectReclaimRecord pool r time retention unused;
              collect_names pool names time retention unused (if done : bool then S removed else removed)
        end
  end.

Definition hour : Z := 3600000000000.

Definition CollectMetadata `{NodeEnv} (root : string) (pool : PoolIdentity) (time retention : Z)
    (unused : CopyIdentity -> io disk bool) : io disk nat :=
  io_reject_if (retention <? hour)%Z ErrIdentity;;
  opened ← attempt (OpenExisting root pool);
  match opened with
  | Err err => if error_is err ErrNotExist then mret 0 else io_fail err
  | Ok _ => tick;; listed ← get (names Control); collect_names pool listed time retention unused 0
  end.

(** ** pool_release.go *)

(** [readDirectoryEmpty] *)
Definition readDirectoryEmpty `{NodeEnv} (x : dir) : io disk bool := tick;; listed ← get (names x); mret (length listed =? 0)%nat.

Definition directoryEmptyAt `{NodeEnv} (x : dir) : io disk bool :=
  opened ← attempt (open_dir x);
  match opened with
  | Err err => if error_is err ENOENT then mret true else io_fail err
  | Ok _ => readDirectoryEmpty x
  end.

Fixpoint all_empty `{NodeEnv} (dirs : list dir) : io disk bool :=
  match dirs with
  | [] => mret true
  | x :: dirs => empty ← directoryEmptyAt x; if negb empty then mret false else all_empty dirs
  end.

Section release.
Context `{NodeEnv}.

Definition managedDataEmpty : io disk bool :=
  empty ← all_empty [Volumes; Incoming; Retired];
  if negb empty then mret false else readDirectoryEmpty Placements.

Definition open_pool_root (root : string) : io disk unit :=
  path ← get pool_path; if path == root then open_dir Root else tick;; io_fail ENOENT.

Definition managedPoolDataEmpty (root : string) : io disk bool :=
  open_pool_root root;;
  empty ← directoryEmptyAt Volumes;
  if negb empty then mret false
  else
    control ← attempt (open_dir Control);
    match control with
    | Err err => if error_is err ENOENT then mret true else io_fail err
    | Ok _ => all_empty [Placements; Incoming; Retired]
    end.

Definition syncReleasedIdentity (root : string) : io disk unit :=
  open_pool_root root;;
  control ← attempt (open_dir Control);
  match control with
  | Err err => if error_is err ENOENT then fsync else io_fail err
  | Ok _ => fsync
  end.

Definition volume_lock_name (name : string) : bool := HasPrefix name "lock-" && is_ok (ValidateID (TrimPrefix name "lock-")).

(** [lockVolumeFiles]: every volume lock is empty and free. *)
Fixpoint lock_names (names : list string) : io disk (list string) :=
  match names with
  | [] => mret []
  | name :: names =>
      tick;;
      if negb (volume_lock_name name) then lock_names names
      else
        f ← openControl name ReadOnly 0;
        st ← attempt fstat;
        io_reject_if (negb (is_ok st) || negb (String.length (f_data f) =? 0)%nat) ErrNeedsReview;;
        flocked ← attempt tick;
        held ← get (fun d => bool_decide (name ∈ busy d));
        io_reject_if (negb (is_ok flocked) || held) ErrBusy;;
        rest ← lock_names names;
        mret (name :: rest)
  end.

Definition lockVolumeFiles : io disk (list string) := tick;; listed ← get (names Control); lock_names listed.

Fixpoint unlink_locks (locks : list string) : io disk unit :=
  match locks with
  | [] => mret tt
  | name :: locks => removed ← attempt (unlinkat (Control, name)); ignore_missing removed;; unlink_locks locks
  end.

(** [releaseLockNamespace]: the identity goes before the locks. *)
Definition releaseLockNamespace : io disk unit :=
  locks ← lockVolumeFiles;
  removed ← attempt (unlinkat (Control, "pool.json"));
  ignore_missing removed;;
  fsync;;
  unlink_locks locks;;
  fsync.

Definition ReleaseEmptyPool (root : string) (pool : PoolIdentity) : io disk unit :=
  tick;;
  opened ← attempt (OpenExisting root pool);
  match opened with
  | Err err =>
      io_reject_if (negb (error_is err ErrNotExist)) err;;
      empty ← managedPoolDataEmpty root;
      io_reject_if (negb empty) ErrNeedsReview;;
      syncReleasedIdentity root
  | Ok _ =>
      openControl "identity.lock" ReadWriteCreate 384;;
      tick;;
      held ← get (fun d => bool_decide ("identity.lock" ∈ busy d));
      io_reject_if held ErrBusy;;
      tick;;
      checkMarker "pool.json" pool;;
      removeAbandonedPlacementMarkers;;
      empty ← managedDataEmpty;
      io_reject_if (negb empty) ErrNeedsReview;;
      releaseLockNamespace
  end.
End release.
