(* ===== verification/NodeLogic.v ===== *)
(** * Reasoning about interrupted operations

    A weakest precondition for programs over a faulty disk.  [wpr F c Q d] says that
    running [c] on [d] ends in a result and a disk that satisfy [Q]; [F] is the
    proposition that calls may fail at all, so that an error that only an interruption
    can cause is known to imply [F].  With [F] false the rules describe the undisturbed
    run, with [F] true every point of interruption, in one proof. *)

From S2P Require Import Prelude Bytes Json VolumeIdentity NodeDisk OwnershipMarkers Ownership.

(** ** Disks up to coming faults *)

Definition same (d d' : disk) : Prop := set_faults d [] = set_faults d' [].

#[export] Instance same_equivalence : Equivalence same.
Proof. split; unfold same; congruence. Qed.

Lemma same_set_faults (d : disk) (l : list (option nat)) : same d (set_faults d l).
Proof. by destruct d. Qed.

Lemma same_fields (d d' : disk) :
  same d d' -> entries d' = entries d /\ subdirs d' = subdirs d /\ pool_path d' = pool_path d /\
    pool_device d' = pool_device d /\ euid d' = euid d /\ now d' = now d /\ busy d' = busy d.
Proof. destruct d, d'. unfold same, set_faults. simpl. by intros [= -> -> -> -> -> -> ->]. Qed.

Lemma same_eq (d d' : disk) : same d d' -> exists l, d' = set_faults d l.
Proof. intros H. exists (faults d'). destruct d, d'. unfold same, set_faults in *. simpl in *. by injection H as -> -> -> -> -> -> ->. Qed.

Lemma set_entries_same (d d' : disk) (m : gmap (dir * string) entry) : same d d' -> same (set_entries d m) (set_entries d' m).
Proof. destruct d, d'. unfold same, set_faults, set_entries. simpl. by intros [= -> -> -> -> -> -> ->]. Qed.

Lemma set_subdirs_same (d d' : disk) (m : gmap dir subdir) : same d d' -> same (set_subdirs d m) (set_subdirs d' m).
Proof. destruct d, d'. unfold same, set_faults, set_subdirs. simpl. by intros [= -> -> -> -> -> -> ->]. Qed.

(** An error that no call reports about an absent or existing name. *)
Definition hard (e : error) : Prop :=
  error_is e ErrNotExist = false /\ error_is e ENOENT = false /\ error_is e EEXIST = false.

Lemma hard_EIO : hard EIO.
Proof. done. Qed.
Lemma hard_ErrIdentity : hard ErrIdentity.
Proof. done. Qed.
#[export] Hint Resolve hard_EIO hard_ErrIdentity : shiftpv.

Section wpr.
Variable F : Prop.

Definition live (d : disk) : Prop := faults d = [] \/ F.

Definition wpr {A : Type} (c : io disk A) (Q : result A -> disk -> Prop) (d : disk) : Prop :=
  live d -> live (snd (c d)) /\ Q (fst (c d)) (snd (c d)).

Lemma wpr_intro {A : Type} (c : io disk A) (Q : result A -> disk -> Prop) (d : disk) :
  (live d -> live (snd (c d)) /\ Q (fst (c d)) (snd (c d))) -> wpr c Q d.
Proof. done. Qed.

Lemma wpr_run {A : Type} (c : io disk A) (Q : result A -> disk -> Prop) (d d' : disk) (r : result A) :
  wpr c Q d -> live d -> c d = (r, d') -> live d' /\ Q r d'.
Proof. intros H Hl E. specialize (H Hl). by rewrite E in H. Qed.

Lemma wpr_mono {A : Type} (c : io disk A) (Q Q' : result A -> disk -> Prop) (d : disk) :
  wpr c Q d -> (forall r d', Q r d' -> Q' r d') -> wpr c Q' d.
Proof. unfold wpr. naive_solver. Qed.

Lemma wpr_ret {A : Type} (a : A) (Q : result A -> disk -> Prop) (d : disk) : Q (Ok a) d -> wpr (mret a) Q d.
Proof. done. Qed.

Lemma wpr_fail {A : Type} (e : error) (Q : result A -> disk -> Prop) (d : disk) : Q (Err e) d -> wpr (io_fail e) Q d.
Proof. done. Qed.

Lemma wpr_lift {A : Type} (r : result A) (Q : result A -> disk -> Prop) (d : disk) : Q r d -> wpr (io_lift r) Q d.
Proof. done. Qed.

Lemma wpr_get {A : Type} (f : disk -> A) (Q : result A -> disk -> Prop) (d : disk) : Q (Ok (f d)) d -> wpr (get f) Q d.
Proof. done. Qed.

Lemma wpr_bind {A B : Type} (c : io disk A) (k : A -> io disk B) (Q : result B -> disk -> Prop) (d : disk) :
  wpr c (fun r d' => match r with Ok a => wpr (k a) Q d' | Err e => Q (Err e) d' end) d -> wpr (c ≫= k) Q d.
Proof.
  unfold wpr, mbind, io_bind. intros H Hl. destruct (H Hl) as [Hl' HQ]. destruct (c d) as [[a|e] d']; simpl in *; auto.
Qed.

Lemma wpr_attempt {A : Type} (c : io disk A) (Q : result (result A) -> disk -> Prop) (d : disk) :
  wpr c (fun r d' => Q (Ok r) d') d -> wpr (attempt c) Q d.
Proof. unfold wpr, attempt. intros H Hl. specialize (H Hl). by destruct (c d). Qed.

Lemma wpr_deferred {A : Type} (c : io disk A) (cleanup : io disk unit) (Q : result A -> disk -> Prop) (d : disk) :
  wpr c (fun r d' => wpr cleanup (fun _ d'' => Q r d'') d') d -> wpr (deferred c cleanup) Q d.
Proof.
  unfold wpr, deferred. intros H Hl. destruct (H Hl) as [Hl' HQ]. destruct (c d) as [r d']. simpl in *.
  specialize (HQ Hl'). by destruct (cleanup d').
Qed.

Lemma wpr_reject_if (b : bool) (e : error) (Q : result unit -> disk -> Prop) (d : disk) :
  (b = false -> Q (Ok tt) d) -> (b = true -> Q (Err e) d) -> wpr (io_reject_if b e) Q d.
Proof. unfold wpr, io_reject_if, io_lift, reject_if. destruct b; auto. Qed.

(** A call either has its effect or fails without one, and then [F]. *)
Lemma wpr_tick (Q : result unit -> disk -> Prop) (d : disk) :
  (forall d', same d d' -> Q (Ok tt) d') -> (F -> forall d', same d d' -> Q (Err EIO) d') -> wpr tick Q d.
Proof.
  intros Hok Herr Hl. unfold tick, live in *. destruct (faults d) as [|[n|] rest] eqn:E; simpl.
  - rewrite E. split; [done|]. by apply Hok.
  - destruct Hl as [Hl|HF]; [done|]. split; [by right|]. by apply Herr; [|apply same_set_faults].
  - destruct Hl as [Hl|HF]; [done|]. split; [by right|]. apply Hok, same_set_faults.
Qed.

Lemma wpr_put (f : disk -> disk) (Q : result unit -> disk -> Prop) (d : disk) :
  faults (f d) = faults d -> Q (Ok tt) (f d) -> wpr (put f) Q d.
Proof. unfold wpr, put, live. simpl. intros -> HQ Hl. done. Qed.
End wpr.

(** ** Disks up to noise

    Temporary files, whose content nobody trusts, and lock files, which are empty,
    come and go without a meaning. *)

Definition lock_name (n : string) : bool := (n == "identity.lock") || HasPrefix n "lock-".

Definition noise (k : dir * string) : bool :=
  match fst k with
  | Control => HasPrefix (snd k) "pending-" || lock_name (snd k)
  | Placements => HasPrefix (snd k) "pending-"
  | _ => false
  end.

Definition trusted_file (d : disk) (k : dir * string) (data : string) : Prop :=
  exists f, entries d !! k = Some (File f) /\ trusted (euid d) f = true /\ f_data f = data.

Definition locks_ok (d : disk) : Prop :=
  forall n, lock_name n = true -> entries d !! (Control, n) = None \/ exists f, entries d !! (Control, n) = Some (File f) /\ trusted (euid d) f = true.

(** The disks agree up to noise and outside [K]. *)
Record nearx (K : dir * string -> Prop) (d d' : disk) : Prop := {
  near_entries k : noise k = false -> ~ K k -> entries d' !! k = entries d !! k;
  near_subdirs : subdirs d' = subdirs d;
  near_path : pool_path d' = pool_path d;
  near_device : pool_device d' = pool_device d;
  near_euid : euid d' = euid d;
  near_busy : busy d' = busy d;
  near_locks : locks_ok d -> locks_ok d'
}.

Definition near : disk -> disk -> Prop := nearx (fun _ => False).

Lemma nearx_refl (K : dir * string -> Prop) (d : disk) : nearx K d d.
Proof. by split. Qed.

Lemma nearx_trans (K K' : dir * string -> Prop) (a b c : disk) :
  nearx K a b -> nearx K' b c -> nearx (fun k => K k \/ K' k) a c.
Proof.
  intros [] []. split; try congruence; [|auto]. intros k Hk HK. rewrite near_entries1, near_entries0; tauto.
Qed.

Lemma nearx_mono (K K' : dir * string -> Prop) (a b : disk) : (forall k, K k -> K' k) -> nearx K a b -> nearx K' a b.
Proof. intros HK []. split; auto. Qed.

#[export] Instance near_preorder : PreOrder near.
Proof. split; [intros d; apply nearx_refl|]. intros a b c H1 H2. eapply nearx_mono; [|exact (nearx_trans _ _ _ _ _ H1 H2)]. intros k. cbv beta. tauto. Qed.

Lemma near_nearx (K : dir * string -> Prop) (a b c : disk) : near a b -> nearx K b c -> nearx K a c.
Proof. intros H1 H2. eapply nearx_mono; [|exact (nearx_trans _ _ _ _ _ H1 H2)]. intros k. cbv beta. tauto. Qed.

Lemma nearx_near (K : dir * string -> Prop) (a b c : disk) : nearx K a b -> near b c -> nearx K a c.
Proof. intros H1 H2. eapply nearx_mono; [|exact (nearx_trans _ _ _ _ _ H1 H2)]. intros k. cbv beta. tauto. Qed.

(** The one key that could differ does not. *)
Lemma nearx_unchanged (key : dir * string) (d d' : disk) :
  nearx (eq key) d d' -> entries d' !! key = entries d !! key -> near d d'.
Proof.
  intros [] E. split; try done. intros k Hk _. destruct (decide (key = k)) as [<-|Hne]; auto.
Qed.

Lemma same_near (d d' : disk) : same d d' -> near d d'.
Proof.
  intros (He & Hs & Hp & Hd & Hu & _ & Hb)%same_fields. split; try done; [by intros; rewrite He|].
  unfold locks_ok. by rewrite He, Hu.
Qed.
#[export] Hint Resolve same_near nearx_refl : shiftpv.

Lemma near_lookup (d d' : disk) (k : dir * string) : near d d' -> noise k = false -> entries d' !! k = entries d !! k.
Proof. intros H Hk. apply (near_entries _ _ _ H); [done|]. by intros []. Qed.

(** ** Calls that only read

    [reads b c v]: on every disk that agrees with [b], [c] changes nothing and returns
    [v], or is interrupted. *)

Definition reads {A : Type} (b : disk) (c : io disk A) (v : result A) : Prop :=
  forall (d : disk) (F : Prop) (Q : result A -> disk -> Prop), same b d ->
    (forall d', same b d' -> Q v d') -> (F -> forall d' e, same b d' -> hard e -> Q (Err e) d') -> wpr F c Q d.

(** A computation that ends in an error of an interruption, having changed nothing. *)
Definition gives_up {A : Type} (b : disk) (c : io disk A) : Prop :=
  forall (d : disk) (F : Prop) (Q : result A -> disk -> Prop), same b d ->
    F -> (forall d' e, same b d' -> hard e -> Q (Err e) d') -> wpr F c Q d.

Section reads.
Context {A B : Type} (b : disk).

Lemma reads_ret (a : A) : reads b (mret a) (Ok a).
Proof. intros d F Q Hd HQ _. by apply wpr_ret, HQ. Qed.

Lemma reads_lift (r : result A) : reads b (io_lift r) r.
Proof. intros d F Q Hd HQ _. by apply wpr_lift, HQ. Qed.

Lemma reads_fail (e : error) : reads b (io_fail (A := A) e) (Err e).
Proof. intros d F Q Hd HQ _. by apply wpr_fail, HQ. Qed.

Lemma reads_get (f : disk -> A) (v : A) : (forall d, same b d -> f d = v) -> reads b (get f) (Ok v).
Proof. intros Hf d F Q Hd HQ _. apply wpr_get. rewrite Hf by done. by apply HQ. Qed.

Lemma reads_tick : reads b tick (Ok tt).
Proof.
  intros d F Q Hd HQ HE. apply wpr_tick; [intros d' H'; apply HQ; by transitivity d|].
  intros HF d' H'. apply HE; auto with shiftpv. by transitivity d.
Qed.

Lemma reads_reject_if (c : bool) (e : error) : reads b (io_reject_if c e) (reject_if c e).
Proof. intros d F Q Hd HQ _. by apply wpr_lift, HQ. Qed.

Lemma reads_bind (c : io disk A) (k : A -> io disk B) (a : A) (v : result B) :
  reads b c (Ok a) -> reads b (k a) v -> reads b (c ≫= k) v.
Proof.
  intros Hc Hk d F Q Hd HQ HE. apply wpr_bind, Hc; [done| |].
  - intros d' Hd'. by apply Hk.
  - intros HF d' e Hd' He. by apply HE.
Qed.

Lemma reads_bind_err (c : io disk A) (k : A -> io disk B) (e : error) : reads b c (Err e) -> reads b (c ≫= k) (Err e).
Proof. intros Hc d F Q Hd HQ HE. apply wpr_bind, Hc; auto. Qed.

Lemma reads_attempt (c : io disk A) (k : result A -> io disk B) (r : result A) (v : result B) :
  reads b c r -> reads b (k r) v -> (forall e, hard e -> gives_up b (k (Err e))) -> reads b (attempt c ≫= k) v.
Proof.
  intros Hc Hk Hg d F Q Hd HQ HE. apply wpr_bind, wpr_attempt, Hc; [done| |].
  - intros d' Hd'. by apply Hk.
  - intros HF d' e Hd' He. apply (Hg e He); [done..|]. intros. by apply HE.
Qed.

Lemma gives_up_fail (e : error) : hard e -> gives_up b (io_fail (A := A) e).
Proof. intros He d F Q Hd HF HQ. by apply wpr_fail, HQ. Qed.

Lemma gives_up_reject (e : error) (c : bool) (k : unit -> io disk A) :
  hard e -> c = true -> gives_up b (io_reject_if c e ≫= k).
Proof. intros He -> d F Q Hd HF HQ. apply wpr_bind, wpr_reject_if; [done|]. intros _. by apply HQ. Qed.

Lemma gives_up_reject_last (e : error) (c : bool) : hard e -> c = true -> gives_up b (io_reject_if c e).
Proof. intros He -> d F Q Hd HF HQ. apply wpr_reject_if; [done|]. intros _. by apply HQ. Qed.

Lemma gives_up_read (c : io disk A) (e : error) : hard e -> reads b c (Err e) -> gives_up b c.
Proof. intros He Hc d F Q Hd HF HQ. apply Hc; auto. Qed.
End reads.

(** Facts of a disk, on one that agrees with it. *)
Ltac use_same H :=
  let He := fresh in let Hs := fresh in let Hp := fresh in let Hd := fresh in let Hu := fresh in let Hb := fresh in
  pose proof (same_fields _ _ H) as (He & Hs & Hp & Hd & Hu & _ & Hb); rewrite ?He, ?Hs, ?Hp, ?Hd, ?Hu, ?Hb; clear He Hs Hp Hd Hu Hb.

(** One step of a reading computation. *)
Ltac reads_step :=
  match goal with
  | |- reads _ (tick;; _) _ => eapply reads_bind; [apply reads_tick|]
  | |- reads _ (fstat;; _) _ => eapply reads_bind; [apply reads_tick|]
  | |- reads _ (get _ ≫= _) _ =>
      eapply reads_bind; [apply reads_get; let d := fresh "d" in let H := fresh in intros d H; use_same H; reflexivity|]
  | |- reads _ (io_reject_if _ _;; _) _ =>
      eapply reads_bind; [eapply (reads_lift _ (Ok tt)) || (apply reads_reject_if)|]
  | |- reads _ (mret _) _ => apply reads_ret
  | |- reads _ (io_lift _) _ => apply reads_lift
  | |- reads _ (io_fail _) _ => apply reads_fail
  | |- reads _ tick _ => apply reads_tick
  end.

(** ** The calls of the package *)

Section calls.
Context (b : disk).

Lemma reads_pass {A : Type} (c : bool) (e : error) (k : unit -> io disk A) (v : result A) :
  c = false -> reads b (k tt) v -> reads b (io_reject_if c e ≫= k) v.
Proof. intros -> H. eapply reads_bind; [apply (reads_reject_if b false)|exact H]. Qed.

Lemma reads_open_dir (x : dir) (perm uid : N) :
  subdirs b !! x = Some (Directory perm uid) -> reads b (open_dir x) (Ok tt).
Proof. intros H. unfold open_dir. repeat reads_step. rewrite H. apply reads_lift. Qed.

Lemma reads_open_dir_absent (x : dir) : subdirs b !! x = None -> reads b (open_dir x) (Err ENOENT).
Proof. intros H. unfold open_dir. repeat reads_step. rewrite H. apply reads_lift. Qed.

Lemma reads_open_copy (k : dir * string) (device inode : N) (children : list (string * tree)) :
  entries b !! k = Some (Copy device inode children) -> reads b (open_copy k) (Ok (device, inode)).
Proof. intros H. unfold open_copy. repeat reads_step. rewrite H. apply reads_lift. Qed.

Lemma reads_open_copy_absent (k : dir * string) : entries b !! k = None -> reads b (open_copy k) (Err ENOENT).
Proof. intros H. unfold open_copy. repeat reads_step. rewrite H. apply reads_lift. Qed.

Lemma reads_pathExists (k : dir * string) : reads b (pathExists k) (Ok (negb (is_nil (entries b !! k)))).
Proof. unfold pathExists. repeat reads_step. Qed.

Lemma reads_placementFor (device inode : N) (identity : CopyIdentity) :
  reads b (placementFor (device, inode) identity)
    (Ok {| Placement.Identity := identity; Placement.Device := device; Placement.Inode := inode |}).
Proof. unfold placementFor. repeat reads_step. Qed.
End calls.

(** ** Markers *)

(** A name that [openMarker] accepts. *)
Definition marker_name (n : string) : bool := negb ((n == "") || ContainsAny n separators).

Lemma substring_all (n : nat) (s : string) : String.length s <= n -> String.substring 0 n s = s.
Proof.
  revert n. induction s as [|c s IH]; intros [|n] H; cbn [String.substring String.length] in *; [done|done|by apply Nat.nle_succ_0 in H|].
  f_equal. apply IH. lia.
Qed.

(** [k] holds the canonical form of [v]. *)
Definition marker {A : Type} `{Marker A} (d : disk) (k : dir * string) (v : A) : Prop :=
  trusted_file d k (canonical v) /\ String.length (canonical v) <= marker_limit.

Section reading_markers.
Context (b : disk) (k : dir * string) (Hn : marker_name (snd k) = true).

Lemma reads_openMarker (f : file) (mode : N) :
  entries b !! k = Some (File f) -> trusted (euid b) f = true -> reads b (openMarker k ReadOnly mode) (Ok f).
Proof.
  intros He Ht. apply negb_true_iff in Hn. apply reads_pass; [done|]. eapply reads_bind.
  - unfold open_file. repeat reads_step. rewrite He. reads_step.
  - repeat reads_step. apply reads_pass; [by rewrite Ht|]. reads_step.
Qed.

Lemma reads_openMarker_absent (mode : N) :
  entries b !! k = None -> reads b (openMarker k ReadOnly mode) (Err ENOENT).
Proof.
  intros He. apply negb_true_iff in Hn. apply reads_pass; [done|]. apply reads_bind_err. unfold open_file.
  repeat reads_step. rewrite He. reads_step.
Qed.

Lemma reads_read_limited (f : file) : String.length (f_data f) <= marker_limit -> reads b (read_limited f) (Ok (f_data f)).
Proof. intros H. unfold read_limited. reads_step. rewrite substring_all by lia. reads_step. Qed.

Context {A : Type} `{Marker A}.

Lemma reads_checkMarkerAt (v : A) : marker b k v -> reads b (checkMarkerAt k v) (Ok tt).
Proof.
  intros [(f & He & Ht & Hdata) Hlen]. eapply reads_bind; [by apply reads_openMarker|].
  eapply reads_bind; [apply reads_read_limited; by rewrite Hdata|]. rewrite Hdata. unfold oversized.
  rewrite (proj2 (Nat.ltb_ge _ _) Hlen), bool_decide_eq_true_2 by done. apply (reads_reject_if b false).
Qed.

Lemma reads_checkMarkerAt_absent (v : A) : entries b !! k = None -> reads b (checkMarkerAt k v) (Err ENOENT).
Proof. intros He. apply reads_bind_err. by apply reads_openMarker_absent. Qed.

Lemma reads_read_marker_at (v : A) : representable v = true -> marker b k v -> reads b (read_marker_at (A := A) k) (Ok v).
Proof.
  intros Hr Hm. pose proof Hm as [(f & He & Ht & Hdata) Hlen]. eapply reads_bind; [by apply reads_openMarker|].
  eapply reads_attempt; [apply reads_read_limited; by rewrite Hdata| |].
  - cbn beta iota. rewrite Hdata. apply reads_pass; [apply Nat.ltb_ge, Hlen|]. rewrite decode_canonical by done.
    eapply reads_bind; [by apply reads_checkMarkerAt|reads_step].
  - intros e Hhard. apply gives_up_fail. auto with shiftpv.
Qed.

Lemma reads_read_marker_at_absent : entries b !! k = None -> reads b (read_marker_at (A := A) k) (Err ENOENT).
Proof. intros He. apply reads_bind_err. by apply reads_openMarker_absent. Qed.
End reading_markers.

Lemma marker_same {A : Type} `{Marker A} (d d' : disk) (k : dir * string) (v : A) : same d d' -> marker d k v -> marker d' k v.
Proof. intros Hs. unfold marker, trusted_file. by use_same Hs. Qed.

Lemma marker_near {A : Type} `{Marker A} (d d' : disk) (k : dir * string) (v : A) :
  near d d' -> noise k = false -> marker d k v -> marker d' k v.
Proof. intros Hn Hk [(f & He & Ht & Hd) Hl]. split; [|done]. exists f. rewrite (near_entries _ _ _ Hn), (near_euid _ _ _ Hn); auto. Qed.

(** ** Writes *)

(** A change of noise: one key, and lock files stay lock files. *)
Lemma near_noise (d : disk) (k : dir * string) (o : option entry) :
  noise k = true ->
  (lock_name (snd k) = true -> fst k = Control -> match o with None => True | Some (File f) => trusted (euid d) f = true | _ => False end) ->
  near d (set_entries d (partial_alter (fun _ => o) k (entries d))).
Proof.
  intros Hk Hlock. split; try done.
  - intros k' Hk' _. simpl. destruct (decide (k' = k)) as [->|Hne]; [congruence|]. by rewrite lookup_partial_alter_ne.
  - intros Hl n Hn. simpl. destruct (decide ((Control, n) = k)) as [<-|Hne]; [|rewrite lookup_partial_alter_ne by done; by apply Hl].
    rewrite lookup_partial_alter_eq. specialize (Hlock Hn eq_refl).
    destruct o as [[f| | |]|]; [right; by exists f|done..|by left].
Qed.

Lemma insert_partial_alter (m : gmap (dir * string) entry) (k : dir * string) (e : entry) :
  <[k := e]> m = partial_alter (fun _ => Some e) k m.
Proof. done. Qed.

Lemma delete_partial_alter (m : gmap (dir * string) entry) (k : dir * string) : delete k m = partial_alter (fun _ => None) k m.
Proof. done. Qed.

(** Run the calls in front of the goal whose outcome is known. *)
Ltac wpr_same H := apply wpr_bind; apply H; [try (reflexivity || eassumption)|..].

Section writes.
Context (F : Prop).

Lemma wpr_fstat2 {A : Type} (k : io disk A) (Q : result A -> disk -> Prop) (d : disk) :
  (forall d', same d d' -> wpr F k Q d') -> (F -> forall d', same d d' -> Q (Err EIO) d') ->
  wpr F (fstat;; fstat;; k) Q d.
Proof.
  intros Hk He. apply wpr_bind, wpr_tick; [|done]. intros d1 H1. apply wpr_bind, wpr_tick.
  - intros d2 H2. apply Hk. by transitivity d1.
  - intros HF d2 H2. apply He; [done|]. by transitivity d1.
Qed.

Lemma trusted_new_file (d : disk) : trusted (euid d) (new_file d 384) = true.
Proof. unfold trusted. simpl. by rewrite N.eqb_refl. Qed.

(** Opening a lock file creates it if it is missing. *)
Lemma wpr_open_lock (n : string) (Q : result file -> disk -> Prop) (d : disk) :
  lock_name n = true -> marker_name n = true -> locks_ok d ->
  (forall f d', near d d' -> Q (Ok f) d') -> (F -> forall d' e, near d d' -> hard e -> Q (Err e) d') ->
  wpr F (openControl n ReadWriteCreate 384) Q d.
Proof.
  intros Hl Hn Hlocks HQ HE. apply negb_true_iff in Hn. unfold openControl, openMarker. simpl snd.
  apply wpr_bind, wpr_reject_if; [intros _|congruence]. apply wpr_bind. unfold open_file.
  apply wpr_bind, wpr_tick; [intros d1 H1|intros HF d1 H1; apply HE; auto with shiftpv].
  apply wpr_bind, wpr_get. pose proof (same_near _ _ H1) as N1. pose proof (near_locks _ _ _ N1 Hlocks n Hl) as Hfile.
  assert (forall d' f, near d d' -> trusted (euid d') f = true ->
    wpr F (fstat;; fstat;; e ← get euid; io_reject_if (negb (trusted e f)) ErrIdentity;; mret f) Q d') as Hrest.
  { intros d' f Hd' Ht. apply wpr_fstat2.
    - intros d2 H2. apply wpr_bind, wpr_get. use_same H2. rewrite Ht.
      apply wpr_bind, wpr_reject_if; [intros _|done]. apply wpr_ret, HQ. etransitivity; [exact Hd'|auto with shiftpv].
    - intros HF d2 H2. apply HE; auto with shiftpv. etransitivity; [exact Hd'|auto with shiftpv]. }
  destruct Hfile as [Hnone|(f & Hf & Ht)].
  - rewrite Hnone. apply wpr_bind, wpr_get, wpr_bind, wpr_put; [done|]. apply wpr_ret, Hrest.
    + transitivity d1; [done|]. rewrite insert_partial_alter. apply near_noise; [|intros; apply trusted_new_file].
      unfold noise. simpl. by rewrite Hl, orb_true_r.
    + exact (trusted_new_file d1).
  - rewrite Hf. apply wpr_ret. by apply Hrest.
Qed.

Lemma wpr_lock_identity (Q : result unit -> disk -> Prop) (d : disk) :
  locks_ok d -> (forall d', near d d' -> Q (Ok tt) d') -> (F -> forall d' e, near d d' -> hard e -> Q (Err e) d') ->
  wpr F lock_identity Q d.
Proof.
  intros Hl HQ HE. apply wpr_bind, wpr_open_lock; auto. intros f d1 N1.
  apply wpr_tick; [intros d2 H2; apply HQ|intros HF d2 H2; apply HE; auto with shiftpv]; (etransitivity; [exact N1|auto with shiftpv]).
Qed.
End writes.

Lemma hard_wrap (errs : list error) (m : string) :
  Forall hard errs -> m <> "no such file or directory" -> hard (Wrapf errs m).
Proof.
  intros Herrs Hm.
  assert (forall target, (forall e, hard e -> error_is e target = false) -> error_eqb (Wrapf errs m) target = false ->
    error_is (Wrapf errs m) target = false) as Hgen.
  { intros target Ht Heq. cbn [error_is]. rewrite Heq. simpl. clear Heq.
    induction Herrs as [|e errs He _ IH]; [done|]. simpl. by rewrite (Ht e He). }
  split; [|split]; apply Hgen; try (intros e (H1 & H2 & H3); assumption); try reflexivity.
  simpl. destruct (String.eqb_spec m "no such file or directory"); done.
Qed.

Section ensure.
Context (F : Prop) `{NodeEnv} {A : Type} `{Marker A} (x : dir) (name : string) (v : A).
Context (Hx : x = Control \/ x = Placements) (Hname : marker_name name = true) (Hnoise : noise (x, name) = false)
  (Hlen : String.length (canonical v) <= marker_limit).

Lemma temporary_noise (u : string) : noise (x, "pending-" +:+ u) = true.
Proof. destruct u; by destruct Hx as [-> | ->]. Qed.

Lemma temporary_not_lock (u : string) : lock_name ("pending-" +:+ u) = false.
Proof. reflexivity. Qed.

Lemma temporary_name (d : disk) : marker_name ("pending-" +:+ NewUUID d) = true.
Proof.
  pose proof (NewUUID_name d) as Hu. unfold marker_name. rewrite negb_true_iff, orb_false_iff. split; [done|].
  unfold ContainsAny in *. rewrite negb_false_iff in *. rewrite string_forallb_app, Hu. done.
Qed.

(** The temporary of [d] may have any content. *)
Lemma near_temporary (d d' : disk) (u : string) (o : option entry) :
  near d d' -> near d (set_entries d' (partial_alter (fun _ => o) (x, "pending-" +:+ u) (entries d'))).
Proof.
  intros Hd. transitivity d'; [done|]. apply near_noise; [apply temporary_noise|].
  simpl. by rewrite temporary_not_lock.
Qed.

(** [d] has the temporary [t] with the given content. *)
Definition has_temporary (d : disk) (t data : string) : Prop := trusted_file d (x, t) data.

Lemma wpr_create_temporary (u : string) (Q : result file -> disk -> Prop) (d : disk) :
  let t := "pending-" +:+ u in
  marker_name t = true -> entries d !! (x, t) = None ->
  (forall f d', near d d' -> has_temporary d' t "" -> Q (Ok f) d') ->
  (F -> forall d' e, near d d' -> hard e -> Q (Err e) d') ->
  wpr F (openMarker (x, t) CreateExclusive 384) Q d.
Proof.
  intros t Hn He HQ HE. apply negb_true_iff in Hn. apply wpr_bind, wpr_reject_if; [intros _|cbn [snd]; unfold t in *; congruence].
  apply wpr_bind. unfold open_file. apply wpr_bind, wpr_tick; [intros d1 H1|intros HF d1 H1; apply HE; auto with shiftpv].
  apply wpr_bind, wpr_get. use_same H1. rewrite He. apply wpr_bind, wpr_get, wpr_bind, wpr_put; [done|]. apply wpr_ret.
  set (d2 := set_entries d1 _).
  assert (near d d2) as N2 by (unfold d2; rewrite insert_partial_alter; apply near_temporary; auto with shiftpv).
  assert (has_temporary d2 t "") as Ht.
  { exists (new_file d1 384). unfold d2. simpl. rewrite lookup_insert_eq. split_and!; [done|apply trusted_new_file|done]. }
  apply wpr_fstat2.
  - intros d3 H3. apply wpr_bind, wpr_get. use_same H3. unfold d2 at 1. cbn [euid set_entries]. rewrite trusted_new_file.
    apply wpr_bind, wpr_reject_if; [intros _|done]. apply wpr_ret, HQ; [transitivity d2; auto with shiftpv|].
    unfold has_temporary, trusted_file. by use_same H3.
  - intros HF d3 H3. apply HE; auto with shiftpv. transitivity d2; auto with shiftpv.
Qed.

Lemma wpr_write_file (u old data : string) (Q : result unit -> disk -> Prop) (d : disk) :
  let t := "pending-" +:+ u in
  has_temporary d t old ->
  (forall d', near d d' -> has_temporary d' t data -> Q (Ok tt) d') ->
  (F -> forall d', near d d' -> Q (Err EIO) d') ->
  wpr F (write_file (x, t) data) Q d.
Proof.
  intros t (f & He & Ht & _) HQ HE Hl. unfold write_file.
  assert (forall d' n, same d d' -> near d (set_entries d' (<[(x, t) := File {| f_data := String.substring 0 n data;
    f_perm := f_perm f; f_uid := f_uid f; f_nlink := f_nlink f; f_modtime := now d' |}]> (entries d')))) as Hnear.
  { intros d' n Hs. rewrite insert_partial_alter. apply near_temporary. auto with shiftpv. }
  unfold tick. destruct (faults d) as [|[n|] rest] eqn:Ef; simpl; rewrite ?He.
  - split; [destruct Hl; [by left|by right]|]. apply HQ; [apply Hnear; reflexivity|].
    eexists. simpl. rewrite lookup_insert_eq. split_and!; [done|exact Ht|]. simpl. by apply substring_all.
  - destruct Hl as [Hl|HF]; [congruence|]. split; [by right|]. apply HE; [done|]. apply (Hnear (set_faults d rest) n), same_set_faults.
  - destruct Hl as [Hl|HF]; [congruence|]. split; [by right|].
    apply HQ; [apply (Hnear (set_faults d rest) (String.length data)), same_set_faults|].
    eexists. simpl. rewrite lookup_insert_eq. split_and!; [done|exact Ht|]. simpl. by apply substring_all.
Qed.

Lemma has_temporary_same (d d' : disk) (t data : string) : same d d' -> has_temporary d t data -> has_temporary d' t data.
Proof. intros Hs. unfold has_temporary, trusted_file. by use_same Hs. Qed.

Lemma wpr_write_temporary (u old data : string) (Q : result unit -> disk -> Prop) (d : disk) :
  let t := "pending-" +:+ u in
  has_temporary d t old ->
  (forall d', near d d' -> has_temporary d' t data -> Q (Ok tt) d') ->
  (F -> forall d' e, near d d' -> hard e -> Q (Err e) d') ->
  wpr F (write_temporary (x, t) data) Q d.
Proof.
  intros t Ht HQ HE. unfold write_temporary.
  assert (forall r d', near d d' -> (r = Ok tt -> has_temporary d' t data) -> (forall e, r = Err e -> F /\ hard e) ->
    wpr F (c ← attempt close; io_lift (join [r; c])) Q d') as Hclose.
  { intros r d' Hd' Hok Herr. apply wpr_bind, wpr_attempt, wpr_tick.
    - intros d2 H2. apply wpr_lift. assert (near d d2) as N2 by (etransitivity; [exact Hd'|auto with shiftpv]).
      destruct r as [[]|e]; simpl; [apply HQ; [done|]; eapply has_temporary_same; eauto|].
      destruct (Herr e eq_refl) as [HF He]. apply HE; [done..|]. by apply hard_wrap; [apply Forall_singleton|].
    - intros HF d2 H2. apply wpr_lift. assert (near d d2) as N2 by (etransitivity; [exact Hd'|auto with shiftpv]).
      destruct r as [[]|e]; simpl; (apply HE; [done..|]; apply hard_wrap; [|done]);
        repeat apply Forall_cons_2; try apply Forall_nil_2; auto with shiftpv. by apply Herr. }
  apply wpr_bind, wpr_attempt, wpr_bind. apply (wpr_write_file u old data); [done| |].
  - intros d1 N1 H1. apply wpr_tick.
    + intros d2 H2. apply Hclose; [etransitivity; [exact N1|auto with shiftpv]|intros _; eapply has_temporary_same; eauto|done].
    + intros HF d2 H2. apply Hclose; [etransitivity; [exact N1|auto with shiftpv]|done|]. intros e [= <-]. auto with shiftpv.
  - intros HF d1 N1. apply Hclose; [done|done|]. intros e [= <-]. auto with shiftpv.
Qed.

Notation K := (eq (x, name)).

Lemma temporary_fresh (d d' : disk) : same d d' -> entries d' !! (x, "pending-" +:+ NewUUID d) = None.
Proof. intros Hs. use_same Hs. apply NewUUID_fresh. Qed.

(** The rename that makes the temporary the marker. *)
Lemma wpr_rename_marker (u : string) (Q : result unit -> disk -> Prop) (d : disk) :
  let t := "pending-" +:+ u in
  has_temporary d t (canonical v) -> entries d !! (x, name) = None ->
  (forall d', nearx K d d' -> marker d' (x, name) v -> Q (Ok tt) d') ->
  (F -> forall d', same d d' -> Q (Err EIO) d') ->
  wpr F (renameat x t name) Q d.
Proof.
  intros t (f & He & Ht & Hdata) Hnone HQ HE. unfold renameat.
  apply wpr_bind, wpr_tick; [intros d1 H1|done]. apply wpr_bind, wpr_get, wpr_bind, wpr_get. use_same H1. rewrite He, Hnone.
  apply wpr_put; [done|]. set (d2 := set_entries d1 _).
  assert (entries d2 !! (x, name) = Some (File f)) as E2 by (unfold d2; simpl; by rewrite lookup_insert_eq).
  apply HQ.
  - use_same H1. pose proof (same_near _ _ H1) as N1. split; try apply N1.
    + intros k Hk HK. unfold d2. simpl. rewrite lookup_insert_ne by done.
      destruct (decide ((x, t) = k)) as [<-|Hne].
      { exfalso. pose proof (temporary_noise u) as Hu. unfold t in Hk. congruence. }
      rewrite lookup_delete_ne by done.
      by use_same H1.
    + intros Hl n Hlock. apply (near_locks _ _ _ N1) in Hl. unfold d2. simpl.
      rewrite lookup_insert_ne by (intros [= -> ->]; unfold noise in Hnoise; simpl in Hnoise; by rewrite Hlock, orb_true_r in Hnoise).
      destruct (decide ((x, t) = (Control, n))) as [E|Hne].
      * left. rewrite <- E. apply lookup_delete_eq.
      * rewrite lookup_delete_ne by done. by apply Hl.
  - split; [|done]. exists f. split; [done|]. split; [|done]. unfold d2. simpl. by use_same H1.
Qed.

Lemma wpr_unlink_temporary (u : string) (Q : result unit -> disk -> Prop) (d : disk) :
  (forall r d', near d d' -> Q r d') -> wpr F (unlinkat (x, "pending-" +:+ u)) Q d.
Proof.
  intros HQ. unfold unlinkat. apply wpr_bind, wpr_tick; [intros d1 H1|intros HF d1 H1; apply HQ; auto with shiftpv].
  apply wpr_bind, wpr_get. set (t := "pending-" +:+ u).
  assert (wpr F (put (fun d => set_entries d (delete (x, t) (entries d)))) Q d1) as Hdel.
  { apply wpr_put; [done|]. apply HQ. rewrite delete_partial_alter. apply near_temporary. auto with shiftpv. }
  destruct (entries d1 !! (x, t)) as [[f|? ? ?| |]|]; try exact Hdel; apply wpr_fail, HQ; auto with shiftpv.
Qed.

Lemma wpr_ensureMarkerAt (Q : result unit -> disk -> Prop) (d : disk) :
  locks_ok d -> marker d (x, name) v \/ entries d !! (x, name) = None ->
  (forall d', nearx K d d' -> marker d' (x, name) v -> Q (Ok tt) d') ->
  (F -> forall d' e, nearx K d d' -> marker d' (x, name) v \/ entries d' !! (x, name) = entries d !! (x, name) -> hard e ->
    Q (Err e) d') ->
  wpr F (ensureMarkerAt x name v) Q d.
Proof.
  intros Hlocks Hbefore HQ HE.
  assert (F -> forall d' e, near d d' -> hard e -> Q (Err e) d') as Hinterrupted.
  { intros HF d' e Hd' He. apply HE; [done|by eapply nearx_mono, Hd'|right; by apply near_lookup|done]. }
  apply wpr_bind, wpr_lock_identity; [done| |done]. intros d1 N1. apply wpr_bind, wpr_attempt.
  destruct Hbefore as [Hm|Hnone].
  { apply (marker_near d d1) in Hm; [|done..]. apply (reads_checkMarkerAt d1); [done|done|reflexivity| |].
    - intros d2 H2. apply wpr_tick.
      + intros d3 H3. assert (near d1 d3) by (transitivity d2; auto with shiftpv).
        apply HQ; [eapply nearx_mono; [|etransitivity; eauto]; done|]. by apply (marker_near d1).
      + intros HF d3 H3. apply Hinterrupted; auto with shiftpv. transitivity d1; [done|]. transitivity d2; auto with shiftpv.
    - intros HF d2 e H2 He. apply wpr_bind, wpr_reject_if; [by destruct He as [-> _]|]. intros _.
      apply Hinterrupted; auto with shiftpv. transitivity d1; auto with shiftpv. }
  assert (entries d1 !! (x, name) = None) as Hnone1 by (by rewrite (near_lookup d)).
  apply (reads_checkMarkerAt_absent d1); [done|done|reflexivity| |].
  2:{ intros HF d2 e H2 He. apply wpr_bind, wpr_reject_if; [by destruct He as [-> _]|]. intros _.
      apply Hinterrupted; auto with shiftpv. transitivity d1; auto with shiftpv. }
  intros d2 H2. apply wpr_bind, wpr_reject_if; [intros _|done]. apply wpr_bind, wpr_get.
  assert (near d d2) as N2 by (transitivity d1; auto with shiftpv).
  apply wpr_bind, wpr_create_temporary; [apply temporary_name|by apply temporary_fresh| |].
  2:{ intros HF d3 e N3 He. apply Hinterrupted; auto. by transitivity d2. }
  intros _ d3 N3 Ht. set (u := NewUUID d2) in *. apply wpr_deferred, wpr_bind.
  assert (forall d4, near d d4 -> F -> forall e, hard e -> wpr F (unlinkat (x, "pending-" +:+ u)) (fun _ d5 => Q (Err e) d5) d4) as Hcut.
  { intros d4 N4 HF e He. apply wpr_unlink_temporary. intros _ d5 N5. apply Hinterrupted; auto. by transitivity d4. }
  apply (wpr_write_temporary u ""); [done| |].
  2:{ intros HF d4 e N4 He. apply Hcut; auto. transitivity d2; [done|]. by transitivity d3. }
  intros d4 N4 Ht4. assert (near d d4) as Nd4 by (transitivity d2; [done|]; by transitivity d3).
  apply wpr_bind, (wpr_rename_marker u); [done|by rewrite (near_lookup d)| |].
  2:{ intros HF d5 H5. apply Hcut; auto with shiftpv. transitivity d4; auto with shiftpv. }
  intros d5 N5 Hm.
  assert (forall d6, near d5 d6 -> nearx K d d6 /\ marker d6 (x, name) v) as Hpost.
  { intros d6 N6. split; [|by apply (marker_near d5)]. apply (nearx_near _ _ d5); [|done]. by apply (near_nearx _ _ d4). }
  assert (forall d6, near d5 d6 -> F -> forall e, hard e -> wpr F (unlinkat (x, "pending-" +:+ u)) (fun _ d7 => Q (Err e) d7) d6) as Hlate.
  { intros d6 N6 HF e He. apply wpr_unlink_temporary. intros _ d7 N7.
    destruct (Hpost d7 ltac:(by transitivity d6)) as [Hn7 Hm7]. apply HE; auto. }
  apply wpr_bind, wpr_tick; [|intros HF d6 H6; apply Hlate; auto with shiftpv]. intros d6 H6.
  apply (reads_checkMarkerAt d6); [done|by apply (marker_same d5)|reflexivity| |].
  - intros d7 H7. apply wpr_unlink_temporary. intros _ d8 N8.
    destruct (Hpost d8) as [Hn8 Hm8]; [transitivity d6; [auto with shiftpv|]; transitivity d7; auto with shiftpv|]. by apply HQ.
  - intros HF d7 e H7 He. apply Hlate; auto. transitivity d6; auto with shiftpv.
Qed.
End ensure.

Section remove.
Context (F : Prop) {A : Type} `{Marker A} (x : dir) (name : string) (v : A).
Context (Hname : marker_name name = true) (Hnoise : noise (x, name) = false).

(** Removing a marker that is there or not. *)
Lemma wpr_removeMarkerAt (Q : result unit -> disk -> Prop) (d : disk) :
  locks_ok d -> marker d (x, name) v \/ entries d !! (x, name) = None ->
  (forall d', nearx (eq (x, name)) d d' -> entries d' !! (x, name) = None -> Q (Ok tt) d') ->
  (F -> forall d' e, nearx (eq (x, name)) d d' -> entries d' !! (x, name) = None \/ entries d' !! (x, name) = entries d !! (x, name) ->
    hard e -> Q (Err e) d') ->
  wpr F (removeMarkerAt x name v) Q d.
Proof.
  intros Hlocks Hbefore HQ HE.
  assert (F -> forall d' e, near d d' -> hard e -> Q (Err e) d') as Hinterrupted.
  { intros HF d' e Hd' He. apply HE; [done|by eapply nearx_mono, Hd'|right; by apply near_lookup|done]. }
  apply wpr_bind, wpr_lock_identity; [done| |done]. intros d1 N1. apply wpr_bind, wpr_attempt.
  assert (F -> forall d' e, same d1 d' -> hard e -> wpr F (io_reject_if (negb (error_is e ErrNotExist)) e) Q d') as Hcut.
  { intros HF d' e H' He. apply wpr_reject_if; [by destruct He as [-> _]|]. intros _.
    apply Hinterrupted; auto with shiftpv. transitivity d1; auto with shiftpv. }
  destruct Hbefore as [Hm|Hnone].
  - apply (marker_near d d1) in Hm; [|done..]. pose proof Hm as [(f & Hf & _) _].
    apply (reads_checkMarkerAt d1); [done|done|reflexivity| |done]. intros d2 H2.
    apply wpr_bind, wpr_attempt. unfold unlinkat.
    apply wpr_bind, wpr_tick.
    2:{ intros HF d3 H3. apply wpr_bind, wpr_reject_if; [done|]. intros _. apply Hinterrupted; auto with shiftpv.
        transitivity d1; [done|]. transitivity d2; auto with shiftpv. }
    intros d3 H3. assert (same d1 d3) as H13 by (by transitivity d2). apply wpr_bind, wpr_get. use_same H13. rewrite Hf. apply wpr_put; [done|].
    set (d4 := set_entries d3 _).
    assert (nearx (eq (x, name)) d d4) as N4.
    { apply (near_nearx _ _ d1); [done|]. use_same H13. pose proof (same_near _ _ H13) as N13. split; try apply N13.
      - intros k Hk HK. unfold d4. simpl. rewrite lookup_delete_ne by done. by use_same H13.
      - intros Hl n Hlock. apply (near_locks _ _ _ N13) in Hl. unfold d4. simpl. destruct (decide ((x, name) = (Control, n))) as [E|Hne].
        + left. rewrite <- E. apply lookup_delete_eq.
        + rewrite lookup_delete_ne by done. by apply Hl. }
    assert (entries d4 !! (x, name) = None) as E4 by apply lookup_delete_eq.
    apply wpr_bind. simpl. apply wpr_ret. apply wpr_tick; [intros d5 H5|intros HF d5 H5].
    + apply HQ; [apply (nearx_near _ _ d4); auto with shiftpv|by use_same H5].
    + apply HE; auto with shiftpv; [apply (nearx_near _ _ d4); auto with shiftpv|left; by use_same H5].
  - assert (entries d1 !! (x, name) = None) as Hnone1 by (by rewrite (near_lookup d)).
    apply (reads_checkMarkerAt_absent d1); [done|done|reflexivity| |done]. intros d2 H2.
    apply wpr_reject_if; [intros _|done]. apply HQ; [eapply nearx_mono; [|etransitivity; [exact N1|apply same_near, H2]]; done|].
    by use_same H2.
Qed.
End remove.
