(* ===== verification/OwnershipLogic.v ===== *)
(** * Specifications of the steps of package [ownership]

    What each helper of Ownership does on a disk whose relevant files are known, with
    every interruption: the building blocks of the recovery theorems. *)

From S2P Require Import Prelude Bytes Json Filepath VolumeIdentity NodeDisk OwnershipMarkers Ownership NodeLogic.

Ltac hard_solve := first [done | by auto with shiftpv | apply hard_wrap; [repeat apply Forall_cons_2; try apply Forall_nil_2; auto with shiftpv|done]].

(** ** Reading steps *)

Section reading.
Context (b : disk).

Lemma reads_wrapped {A : Type} (m : string) (c : io disk A) (a : A) :
  m <> "no such file or directory" -> reads b c (Ok a) -> reads b (wrapped m c) (Ok a).
Proof.
  intros Hm Hc. eapply reads_attempt; [exact Hc|apply reads_ret|]. intros e He. apply gives_up_fail.
  apply hard_wrap; [by apply Forall_singleton|done].
Qed.

Lemma reads_copyMarkerExists (identity : CopyIdentity) :
  marker_name (copyMarker (CopyID identity)) = true -> marker b (Control, copyMarker (CopyID identity)) identity ->
  reads b (copyMarkerExists identity) (Ok true).
Proof.
  intros Hn Hm. eapply reads_attempt; [by apply reads_checkMarkerAt|exact (reads_ret b true)|].
  intros e He. cbn beta iota. rewrite (proj1 He). by apply gives_up_fail.
Qed.

Lemma reads_copyMarkerExists_absent (identity : CopyIdentity) :
  marker_name (copyMarker (CopyID identity)) = true -> entries b !! (Control, copyMarker (CopyID identity)) = None ->
  reads b (copyMarkerExists identity) (Ok false).
Proof.
  intros Hn Hm. eapply reads_attempt; [by apply reads_checkMarkerAt_absent|exact (reads_ret b false)|].
  intros e He. cbn beta iota. rewrite (proj1 He). by apply gives_up_fail.
Qed.

Lemma reads_verifyPath (k : dir * string) (record : placement) (children : list (string * tree)) :
  Placement.Device record <> 0%N -> Placement.Inode record <> 0%N ->
  entries b !! k = Some (Copy (Placement.Device record) (Placement.Inode record) children) ->
  reads b (verifyPath k record (Placement.Identity record)) (Ok tt).
Proof.
  intros Hd Hi He. apply reads_pass.
  { rewrite bool_decide_eq_true_2 by done. simpl. rewrite orb_false_iff. split; by apply N.eqb_neq. }
  eapply reads_bind; [by eapply reads_open_copy|]. eapply reads_attempt; [apply reads_placementFor| |].
  - cbn beta iota. rewrite bool_decide_eq_true_2 by (by destruct record). apply (reads_reject_if b false).
  - intros e He'. apply gives_up_fail. auto with shiftpv.
Qed.

Lemma reads_verifyPath_absent (k : dir * string) (record : placement) :
  Placement.Device record <> 0%N -> Placement.Inode record <> 0%N -> entries b !! k = None ->
  reads b (verifyPath k record (Placement.Identity record)) (Err ENOENT).
Proof.
  intros Hd Hi He. apply reads_pass.
  { rewrite bool_decide_eq_true_2 by done. simpl. rewrite orb_false_iff. split; by apply N.eqb_neq. }
  apply reads_bind_err. by apply reads_open_copy_absent.
Qed.

Lemma reads_openIdentityDirectory (k : dir * string) (device inode : N) (children : list (string * tree)) :
  entries b !! k = Some (Copy device inode children) -> reads b (openIdentityDirectory k device inode) (Ok tt).
Proof.
  intros He. eapply reads_bind; [by eapply reads_open_copy|]. reads_step. cbn [fst snd]. rewrite !N.eqb_refl.
  apply (reads_reject_if b false).
Qed.

Lemma reads_openIdentityDirectory_absent (k : dir * string) (device inode : N) :
  entries b !! k = None -> reads b (openIdentityDirectory k device inode) (Err ENOENT).
Proof. intros He. apply reads_bind_err. by apply reads_open_copy_absent. Qed.

Lemma reads_exactDirectoryPresent (k : dir * string) (intent : localIntent) (children : list (string * tree)) :
  entries b !! k = Some (Copy (LocalIntent.Device intent) (LocalIntent.Inode intent) children) ->
  reads b (exactDirectoryPresent k intent) (Ok true).
Proof.
  intros He. eapply reads_attempt; [by eapply reads_openIdentityDirectory| |].
  - cbn beta iota. unfold close. repeat reads_step.
  - intros e Hh. cbn beta iota. rewrite (proj1 (proj2 Hh)). by apply gives_up_fail.
Qed.

Lemma reads_exactDirectoryPresent_absent (k : dir * string) (intent : localIntent) :
  entries b !! k = None -> reads b (exactDirectoryPresent k intent) (Ok false).
Proof.
  intros He. eapply reads_attempt; [by eapply reads_openIdentityDirectory_absent|exact (reads_ret b false)|].
  intros e Hh. cbn beta iota. rewrite (proj1 (proj2 Hh)). by apply gives_up_fail.
Qed.

(** The directory exists, or not at all. *)
Definition dir_or_absent (d : disk) (x : dir) : Prop :=
  subdirs d !! x = None \/ exists perm uid, subdirs d !! x = Some (Directory perm uid).

Lemma reads_present_under (k : dir * string) (intent : localIntent) (present : bool) :
  dir_or_absent b (fst k) ->
  (if present then exists perm uid children, subdirs b !! fst k = Some (Directory perm uid) /\
     entries b !! k = Some (Copy (LocalIntent.Device intent) (LocalIntent.Inode intent) children)
   else entries b !! k = None) ->
  reads b (present_under k intent) (Ok present).
Proof.
  intros Hdir Hp. destruct present.
  - destruct Hp as (perm & uid & children & Hs & He). eapply reads_attempt; [by eapply reads_open_dir| |].
    + cbn beta iota. by eapply reads_exactDirectoryPresent.
    + intros e Hh. cbn beta iota. rewrite (proj1 (proj2 Hh)). by apply gives_up_fail.
  - destruct Hdir as [Hs|(perm & uid & Hs)].
    + eapply reads_attempt; [by apply reads_open_dir_absent|exact (reads_ret b false)|].
      intros e Hh. cbn beta iota. rewrite (proj1 (proj2 Hh)). by apply gives_up_fail.
    + eapply reads_attempt; [by eapply reads_open_dir|by apply reads_exactDirectoryPresent_absent|].
      intros e Hh. cbn beta iota. rewrite (proj1 (proj2 Hh)). by apply gives_up_fail.
Qed.

Lemma reads_verifyAbsent (target : CopyIdentity) (k : dir * string) :
  role_path target = Some k -> dir_or_absent b (fst k) -> entries b !! k = None -> reads b (verifyAbsent target) (Ok tt).
Proof.
  intros Hk Hdir He. unfold verifyAbsent. rewrite Hk.
  assert (forall e, hard e -> gives_up b (io_reject_if (negb (error_is e ENOENT)) e)) as Hg.
  { intros e Hh. apply gives_up_reject_last; [done|]. by rewrite (proj1 (proj2 Hh)). }
  destruct Hdir as [Hs|(perm & uid & Hs)].
  - eapply reads_attempt; [by apply reads_open_dir_absent|apply (reads_reject_if b false)|exact Hg].
  - eapply reads_attempt; [by eapply reads_open_dir| |exact Hg]. cbn beta iota.
    eapply reads_attempt; [by apply reads_open_copy_absent|apply (reads_reject_if b false)|exact Hg].
Qed.

Lemma reads_readLocalIntent (target : CopyIdentity) (operationID : string) (intent : localIntent) :
  marker_name (operationMarker "cleanup" operationID) = true -> representable intent = true ->
  LocalIntent.OperationID intent = operationID -> LocalIntent.Target intent = target ->
  marker b (Control, operationMarker "cleanup" operationID) intent ->
  reads b (readLocalIntent target operationID) (Ok (Some intent)).
Proof.
  intros Hn Hr <- <- Hm. eapply reads_attempt; [by apply (reads_read_marker_at b (Control, _) Hn intent)| |].
  - cbn beta iota. apply reads_pass; [by rewrite !bool_decide_eq_true_2|reads_step].
  - intros e He. cbn beta iota. rewrite (proj1 He). by apply gives_up_fail.
Qed.

Lemma reads_readLocalIntent_absent (target : CopyIdentity) (operationID : string) :
  marker_name (operationMarker "cleanup" operationID) = true ->
  entries b !! (Control, operationMarker "cleanup" operationID) = None ->
  reads b (readLocalIntent target operationID) (Ok None).
Proof.
  intros Hn He. eapply reads_attempt; [by apply reads_read_marker_at_absent|exact (reads_ret b None)|].
  intros e Hh. cbn beta iota. rewrite (proj1 Hh). by apply gives_up_fail.
Qed.
End reading.

(** ** The store of a Pool *)

Record store_ok (root : string) (pool : PoolIdentity) (volumeID : string) (d : disk) : Prop := {
  store_root : IsAbs root = true /\ pool_path d = root;
  store_tokens : ValidIdentityToken (PoolIdentity.InstallationID pool) = true /\ ValidIdentityToken (PoolIdentity.PoolUID pool) = true;
  store_dirs : exists perm uid, subdirs d !! Root = Some (Directory perm uid);
  store_control x : x = Control \/ x = Placements -> exists perm,
    subdirs d !! x = Some (Directory perm (euid d)) /\ N.land perm 18 = 0%N;
  store_pool : marker d (Control, "pool.json") pool;
  store_volume : ValidateID volumeID = Ok tt;
  store_locks : locks_ok d;
  store_free : "lock-" +:+ volumeID ∉ busy d
}.

Lemma store_ok_nearx (root : string) (pool : PoolIdentity) (volumeID : string) (K : dir * string -> Prop) (d d' : disk) :
  nearx K d d' -> ~ K (Control, "pool.json") -> store_ok root pool volumeID d -> store_ok root pool volumeID d'.
Proof.
  intros N HK []. split; rewrite ?(near_path _ _ _ N), ?(near_subdirs _ _ _ N), ?(near_euid _ _ _ N), ?(near_busy _ _ _ N); auto.
  - destruct store_pool0 as [(f & He & Ht & Hd) Hl]. split; [|done]. exists f.
    by rewrite (near_entries _ _ _ N), (near_euid _ _ _ N).
  - by apply (near_locks _ _ _ N).
Qed.

Lemma reads_validateDirectory (b : disk) (x : dir) (perm : N) :
  subdirs b !! x = Some (Directory perm (euid b)) -> N.land perm 18 = 0%N -> reads b (validateDirectory x) (Ok tt).
Proof.
  intros Hs Hp. unfold validateDirectory. repeat reads_step. rewrite Hs, Hp. simpl. rewrite N.eqb_refl. apply reads_lift.
Qed.

Lemma reads_OpenExisting `{NodeEnv} (root : string) (pool : PoolIdentity) (volumeID : string) (b : disk) :
  store_ok root pool volumeID b -> reads b (OpenExisting root pool) (Ok tt).
Proof.
  intros []. destruct store_root0 as [Habs Hpath], store_tokens0 as [Ht1 Ht2], store_dirs0 as (perm & uid & Hroot).
  destruct (store_control0 Control) as (pc & Hc & Hpc); [by left|]. destruct (store_control0 Placements) as (pp & Hp & Hpp); [by right|].
  apply reads_pass; [by rewrite Habs, Ht1, Ht2|]. reads_step. rewrite bool_decide_eq_true_2 by done.
  eapply reads_bind; [by eapply reads_open_dir|]. eapply reads_bind; [reads_step|].
  eapply reads_bind; [by eapply reads_open_dir|]. eapply reads_bind; [reads_step|].
  eapply reads_bind; [by eapply reads_open_dir|]. eapply reads_bind; [|by apply reads_checkMarkerAt].
  eapply reads_bind; by eapply reads_validateDirectory.
Qed.

Lemma lock_name_volume (volumeID : string) : lock_name ("lock-" +:+ volumeID) = true.
Proof. apply orb_true_iff. right. apply HasPrefix_spec. eauto. Qed.

(** Taking the lock of the volume changes nothing but the lock file. *)
Lemma wpr_Acquire (F : Prop) (root : string) (pool : PoolIdentity) (volumeID : string) (Q : result unit -> disk -> Prop) (d : disk) :
  store_ok root pool volumeID d -> marker_name ("lock-" +:+ volumeID) = true ->
  (forall d', near d d' -> Q (Ok tt) d') -> (F -> forall d' e, near d d' -> hard e -> Q (Err e) d') ->
  wpr F (Acquire pool volumeID) Q d.
Proof.
  intros Hs Hn HQ HE. unfold Acquire, acquire.
  apply wpr_bind, wpr_tick; [intros d1 H1|intros HF d1 H1; apply HE; auto with shiftpv].
  pose proof (store_ok_nearx _ _ _ _ _ _ (same_near _ _ H1) ltac:(by intros []) Hs) as Hs1.
  apply wpr_bind. apply wpr_lift. rewrite (store_volume _ _ _ _ Hs). apply wpr_bind.
  apply wpr_open_lock; [apply lock_name_volume|done|apply Hs1| |].
  2:{ intros HF d2 e N2 He. apply HE; auto. transitivity d1; auto with shiftpv. }
  intros f d2 N2. assert (near d d2) as Nd2 by (transitivity d1; auto with shiftpv).
  apply wpr_bind, wpr_tick.
  2:{ intros HF d3 H3. apply HE; auto with shiftpv. transitivity d2; auto with shiftpv. }
  intros d3 H3. assert (near d d3) as Nd3 by (transitivity d2; auto with shiftpv).
  pose proof (store_ok_nearx _ _ _ _ _ _ Nd3 ltac:(by intros []) Hs) as Hs3.
  apply wpr_bind, wpr_get, wpr_bind, wpr_reject_if.
  2:{ intros Hb%bool_decide_eq_true. exfalso. by apply (store_free _ _ _ _ Hs3). }
  intros _. apply wpr_bind, wpr_tick.
  2:{ intros HF d4 H4. apply HE; auto with shiftpv. transitivity d3; auto with shiftpv. }
  intros d4 H4. apply (reads_checkMarkerAt d4 (Control, "pool.json")); [done| |reflexivity| |].
  - apply (marker_same d3 d4 _ _ H4). apply Hs3.
  - intros d5 H5. apply HQ. transitivity d3; [done|]. transitivity d4; auto with shiftpv.
  - intros HF d5 e H5 He. apply HE; auto. transitivity d3; [done|]. transitivity d4; auto with shiftpv.
Qed.

(** ** Purging *)

(** At most [fuel] levels, all on one device. *)
Fixpoint purgeable (fuel : nat) (device : N) (children : list (string * tree)) : bool :=
  match fuel with
  | O => false
  | S fuel => forallb (fun c => match snd c with
                                | Leaf => true
                                | Branch d grandchildren => (d =? device)%N && purgeable fuel device grandchildren
                                end) children
  end.

(** What [purgeContents] may return. *)
Definition purge_outcome (fuel : nat) (device : N) (l : list (option nat))
    (outcome : result unit * list (string * tree) * list (option nat)) : Prop :=
  let '(r, remaining, l') := outcome in
  purgeable fuel device remaining = true /\ (r = Ok tt -> remaining = []) /\
  (l = [] -> r = Ok tt /\ l' = []) /\ (forall e, r = Err e -> hard e).

Lemma tree_tick_spec (l : list (option nat)) :
  (exists rest, tree_tick l = (Ok tt, rest) /\ (l = [] -> rest = [])) \/ (l <> [] /\ exists rest, tree_tick l = (Err EIO, rest)).
Proof. destruct l as [|[n|] rest]; simpl; [left; by exists []|right; split; [done|by exists rest]|left; by exists rest]. Qed.

Lemma purge_pass_spec (fuel : nat) (device : N) (children : list (string * tree)) (l : list (option nat)) :
  (forall children l, purgeable fuel device children = true -> purge_outcome fuel device l (purgeContents fuel device children l)) ->
  purgeable (S fuel) device children = true ->
  purge_outcome (S fuel) device l (purge_pass (purgeContents fuel device) device children l).
Proof.
  intros IH. revert l. induction children as [|[name child] rest IHrest]; intros l Hp; cbn [purge_pass].
  { destruct (tree_tick_spec l) as [(l1 & -> & Hl1)|(Hne & l1 & ->)]; split_and!; auto; try done; by intros e [= <-]. }
  pose proof Hp as Hall. cbn [purgeable forallb snd] in Hp. apply andb_true_iff in Hp as [Hc Hrest].
  destruct (tree_tick_spec l) as [(l1 & -> & Hl1)|(Hne & l1 & ->)]; [|by split_and!; [..|intros e [= <-]]].
  set (step := match child with Leaf => _ | Branch _ _ => _ end).
  assert (match step with (purged, remaining, l2) =>
    match remaining with Leaf => true | Branch d g => (d =? device)%N && purgeable fuel device g end = true /\
    (l = [] -> purged = Ok tt /\ l2 = []) /\ (forall e, purged = Err e -> hard e) end) as Hstep.
  { unfold step. destruct child as [|d g]; [split_and!; auto; done|]. apply andb_true_iff in Hc as [Hd Hg]. rewrite Hd.
    specialize (IH g l1 Hg). destruct (purgeContents fuel device g l1) as [[r rem] l2]. destruct IH as (H1 & H2 & H3 & H4).
    rewrite Hd, H1. split_and!; auto. }
  destruct step as [[purged remaining] l2]. destruct Hstep as (Hrem & Hclean & Hhard).
  assert (purgeable (S fuel) device ((name, remaining) :: rest) = true) as Hleft
    by (cbn [purgeable forallb snd]; by rewrite Hrem).
  destruct purged as [[]|e]; [|split_and!; [done|done|intros Hl; by destruct (Hclean Hl)|intros e' [= <-]; auto]].
  destruct (tree_tick_spec l2) as [(l3 & -> & Hl3)|(Hne & l3 & ->)].
  - specialize (IHrest l3 Hrest). destruct (purge_pass _ device rest l3) as [[r rem] l4].
    destruct IHrest as (H1 & H2 & H3 & H4). split_and!; auto. intros Hl. apply H3, Hl3. by destruct (Hclean Hl).
  - split_and!; [done|done| |by intros e [= <-]]. intros Hl. by destruct (Hclean Hl) as [_ ->].
Qed.

Lemma purgeContents_spec (fuel : nat) (device : N) (children : list (string * tree)) (l : list (option nat)) :
  purgeable fuel device children = true -> purge_outcome fuel device l (purgeContents fuel device children l).
Proof.
  revert children l. induction fuel as [|fuel IH]; intros children l Hp; [done|]. cbn [purgeContents].
  destruct (tree_tick_spec l) as [(l1 & -> & Hl1)|(Hne & l1 & ->)]; [|by split_and!; [..|intros e [= <-]]].
  pose proof (purge_pass_spec fuel device children l1 IH Hp) as H. destruct (purge_pass _ device children l1) as [[r rem] l2].
  destruct H as (H1 & H2 & H3 & H4). split_and!; auto.
Qed.

(** ** Steps that change the Pool *)

(** The disks agree up to noise and outside [K]; directories of the package may have
    been created. *)
Record framed (K : dir * string -> Prop) (d d' : disk) : Prop := {
  framed_entries k : noise k = false -> ~ K k -> entries d' !! k = entries d !! k;
  framed_subdirs x s : subdirs d !! x = Some s -> subdirs d' !! x = Some s;
  framed_created x s : subdirs d' !! x = Some s -> subdirs d !! x = Some s \/ exists perm, s = Directory perm (euid d);
  framed_path : pool_path d' = pool_path d;
  framed_device : pool_device d' = pool_device d;
  framed_euid : euid d' = euid d;
  framed_busy : busy d' = busy d;
  framed_locks : locks_ok d -> locks_ok d'
}.

Lemma framed_refl (K : dir * string -> Prop) (d : disk) : framed K d d.
Proof. split; auto. Qed.

Lemma framed_trans (K : dir * string -> Prop) (a b c : disk) : framed K a b -> framed K b c -> framed K a c.
Proof.
  intros [] []. split; try congruence; auto.
  - intros k Hk HK. rewrite framed_entries1, framed_entries0; auto.
  - intros x s [H|[perm ->]]%framed_created1; [auto|]. right. exists perm. congruence.
Qed.

Lemma nearx_framed (K K' : dir * string -> Prop) (d d' : disk) : (forall k, K' k -> K k) -> nearx K' d d' -> framed K d d'.
Proof. intros HK [He Hs]. split; rewrite ?Hs; auto. Qed.

Lemma near_framed (K : dir * string -> Prop) (d d' : disk) : near d d' -> framed K d d'.
Proof. apply nearx_framed. by intros k []. Qed.

Lemma same_framed (K : dir * string -> Prop) (d d' : disk) : same d d' -> framed K d d'.
Proof. intros H. by apply near_framed, same_near. Qed.
#[export] Hint Resolve framed_refl near_framed same_framed : shiftpv.

Lemma framed_mono (K K' : dir * string -> Prop) (d d' : disk) : (forall k, K k -> K' k) -> framed K d d' -> framed K' d d'.
Proof. intros HK []. split; auto. Qed.

(** A change of entries outside the control directory. *)
Lemma framed_put (K : dir * string -> Prop) (d : disk) (m : gmap (dir * string) entry) :
  (forall k, K k -> fst k <> Control) -> (forall k, ~ K k -> m !! k = entries d !! k) -> framed K d (set_entries d m).
Proof.
  intros HK Hm. split; auto. intros Hl n Hn. simpl. rewrite Hm; [by apply Hl|]. by intros E%HK.
Qed.

Lemma dir_or_absent_framed (K : dir * string -> Prop) (d d' : disk) (x : dir) :
  framed K d d' -> dir_or_absent d x -> dir_or_absent d' x.
Proof.
  intros Hf Hd. destruct (subdirs d' !! x) as [s|] eqn:E; [right|by left].
  destruct (framed_created _ _ _ Hf _ _ E) as [Hs|[perm ->]]; [|eauto].
  destruct Hd as [Hn|(perm & uid & Hd)]; [congruence|]. rewrite Hs in Hd. injection Hd as ->. eauto.
Qed.

Lemma store_ok_framed (root : string) (pool : PoolIdentity) (volumeID : string) (K : dir * string -> Prop) (d d' : disk) :
  framed K d d' -> ~ K (Control, "pool.json") -> store_ok root pool volumeID d -> store_ok root pool volumeID d'.
Proof.
  intros N HK []. split; rewrite ?(framed_path _ _ _ N), ?(framed_euid _ _ _ N), ?(framed_busy _ _ _ N); auto.
  - destruct store_dirs0 as (perm & uid & Hs). exists perm, uid. by apply (framed_subdirs _ _ _ N).
  - intros x Hx. destruct (store_control0 x Hx) as (perm & Hs & Hp). exists perm. split; [|done]. by apply (framed_subdirs _ _ _ N).
  - destruct store_pool0 as [(f & He & Ht & Hd) Hl]. split; [|done]. exists f.
    by rewrite (framed_entries _ _ _ N), (framed_euid _ _ _ N).
  - by apply (framed_locks _ _ _ N).
Qed.

Section steps.
Context (F : Prop).

Lemma wpr_wrapped {A : Type} (m : string) (c : io disk A) (Q : result A -> disk -> Prop) (d : disk) :
  wpr F c (fun r d' => match r with Ok a => Q (Ok a) d' | Err e => Q (Err (Wrapf [e] m)) d' end) d -> wpr F (wrapped m c) Q d.
Proof.
  intros Hc. unfold wrapped. apply wpr_bind, wpr_attempt. eapply wpr_mono; [exact Hc|].
  intros [a|e] d' HQ; [by apply wpr_ret|by apply wpr_fail].
Qed.

Lemma wpr_join_syncs (n : nat) (Q : result unit -> disk -> Prop) (d : disk) :
  (forall d', same d d' -> Q (Ok tt) d') -> (F -> forall d' e, same d d' -> hard e -> Q (Err e) d') -> wpr F (join_syncs n) Q d.
Proof.
  intros HQ HE. unfold join_syncs. apply wpr_bind.
  assert (forall (R : list (result unit) -> disk -> Prop),
    (forall rs d', same d d' -> Forall (fun r => r = Ok tt \/ (F /\ r = Err EIO)) rs -> R rs d') ->
    wpr F (sync_all n) (fun r d' => match r with Ok rs => R rs d' | Err e => Q (Err e) d' end) d) as Hall.
  { clear HQ HE. revert d. induction n as [|n IH]; intros d R HR; cbn [sync_all]; [apply wpr_ret, HR; [reflexivity|constructor]|].
    assert (forall r d1, same d d1 -> (r = Ok tt \/ (F /\ r = Err EIO)) ->
      wpr F (rest ← sync_all n; mret (r :: rest)) (fun r d' => match r with Ok rs => R rs d' | Err e => Q (Err e) d' end) d1) as Hrest.
    { intros r d1 H1 Hr. apply wpr_bind, IH. intros rs d2 H2 Hrs. apply wpr_ret, HR; [by transitivity d1|by constructor]. }
    apply wpr_bind, wpr_attempt, wpr_tick; [|intros HF]; intros d1 H1; apply Hrest; auto. }
  apply Hall. intros rs d' Hd' Hrs. apply wpr_lift. unfold join.
  set (errs := omap _ rs).
  assert (Forall (fun e => F /\ e = EIO) errs) as Herrs.
  { unfold errs. clear -Hrs. induction Hrs as [|r rs [->|[HF ->]] Hr IH]; [done|exact IH|by constructor]. }
  destruct errs as [|e es]; [by apply HQ|]. inversion Herrs as [|? ? [HF ->] Hes]; subst. apply HE; [done..|].
  apply hard_wrap; [|done]. eapply Forall_impl; [exact Herrs|]. intros e [_ ->]. auto with shiftpv.
Qed.

(** Directories that are opened are created when missing. *)
Lemma wpr_openOrCreateDirectory (x : dir) (mode : N) (Q : result unit -> disk -> Prop) (d : disk) :
  dir_or_absent d x ->
  (forall d', framed (fun _ => False) d d' -> entries d' = entries d -> (exists perm uid, subdirs d' !! x = Some (Directory perm uid)) ->
    Q (Ok tt) d') ->
  (F -> forall d' e, framed (fun _ => False) d d' -> entries d' = entries d -> hard e -> Q (Err e) d') ->
  wpr F (openOrCreateDirectory x mode) Q d.
Proof.
  intros Hdir HQ HE. unfold openOrCreateDirectory.
  assert (forall d1, framed (fun _ => False) d d1 -> entries d1 = entries d ->
    (exists perm uid, subdirs d1 !! x = Some (Directory perm uid)) -> wpr F (open_dir x) Q d1) as Hopen.
  { intros d1 N1 E1 (perm & uid & Hs). apply (reads_open_dir d1 x perm uid Hs); [reflexivity| |].
    - intros d2 H2. apply HQ; [eapply framed_trans; [exact N1|auto with shiftpv]|by use_same H2|]. use_same H2. eauto.
    - intros HF d2 e H2 He. apply HE; [done|eapply framed_trans; [exact N1|auto with shiftpv]|by use_same H2|done]. }
  apply wpr_bind, wpr_attempt. unfold mkdir_dir. apply wpr_bind, wpr_tick.
  2:{ intros HF d1 H1. apply wpr_bind, wpr_fail. apply HE; [done|auto with shiftpv|by use_same H1|auto with shiftpv]. }
  intros d1 H1. apply wpr_bind, wpr_get. use_same H1. destruct Hdir as [Hn|(perm & uid & Hs)].
  - rewrite Hn. apply wpr_put; [done|]. apply wpr_bind, wpr_ret, Hopen; [|simpl; by use_same H1|].
    + pose proof (same_framed (fun _ => False) _ _ H1) as N1. eapply framed_trans; [exact N1|]. split; auto; simpl.
      * intros y s Hy. rewrite lookup_insert_ne; [done|]. intros <-. revert Hy. use_same H1. congruence.
      * intros y s. destruct (decide (x = y)) as [<-|Hne]; [rewrite lookup_insert_eq; intros [= <-]; eauto|].
        rewrite lookup_insert_ne by done. auto.
    + simpl. rewrite lookup_insert_eq. eauto.
  - rewrite Hs. apply wpr_fail, wpr_bind, wpr_ret, Hopen; [auto with shiftpv|by use_same H1|]. use_same H1. eauto.
Qed.

Lemma wpr_renameDirectory (from to : dir * string) (e : entry) (Q : result unit -> disk -> Prop) (d : disk) :
  entries d !! from = Some e -> entries d !! to = None ->
  (forall d', same d d' -> Q (Ok tt) (set_entries d' (<[to := e]> (delete from (entries d))))) ->
  (F -> forall d', same d d' -> Q (Err EIO) d') ->
  wpr F (renameDirectory from to) Q d.
Proof.
  intros He Hn HQ HE. unfold renameDirectory. apply wpr_bind, wpr_tick; [intros d1 H1|done].
  apply wpr_bind, wpr_get, wpr_bind, wpr_get. use_same H1. rewrite He, Hn. apply wpr_put; [done|].
  specialize (HQ d1 H1). by pose proof (proj1 (same_fields _ _ H1)) as ->.
Qed.

Lemma wpr_purge_copy (k : dir * string) (device inode : N) (children : list (string * tree)) (Q : result unit -> disk -> Prop) (d : disk) :
  entries d !! k = Some (Copy device inode children) -> purgeable 257 device children = true ->
  (forall d', same d d' -> Q (Ok tt) (set_entries d' (<[k := Copy device inode []]> (entries d)))) ->
  (F -> forall d' rest e, same d d' -> purgeable 257 device rest = true -> hard e ->
    Q (Err e) (set_entries d' (<[k := Copy device inode rest]> (entries d)))) ->
  wpr F (purge_copy k) Q d.
Proof.
  intros He Hp HQ HE Hl. unfold purge_copy. rewrite He. pose proof (purgeContents_spec 257 device children (faults d) Hp) as Hs.
  destruct (purgeContents 257 device children (faults d)) as [[r rest] l]. destruct Hs as (H1 & H2 & H3 & H4).
  change (set_faults (set_entries d ?m) l) with (set_entries (set_faults d l) m). cbn [fst snd]. split.
  - destruct Hl as [Hl|HF]; [left|by right]. simpl. by apply H3.
  - destruct r as [[]|e]; [rewrite H2 by done; apply HQ, same_set_faults|]. apply HE; auto; [|apply same_set_faults].
    destruct Hl as [Hl|HF]; [|done]. by destruct (H3 Hl).
Qed.

Lemma wpr_rmdirat (k : dir * string) (device inode : N) (Q : result unit -> disk -> Prop) (d : disk) :
  entries d !! k = Some (Copy device inode []) ->
  (forall d', same d d' -> Q (Ok tt) (set_entries d' (delete k (entries d)))) -> (F -> forall d', same d d' -> Q (Err EIO) d') ->
  wpr F (rmdirat k) Q d.
Proof.
  intros He HQ HE. unfold rmdirat. apply wpr_bind, wpr_tick; [intros d1 H1|done]. apply wpr_bind, wpr_get. use_same H1. rewrite He.
  apply wpr_put; [done|]. specialize (HQ d1 H1). by pose proof (proj1 (same_fields _ _ H1)) as ->.
Qed.
End steps.

(** ** Names of markers *)

Lemma token_marker_name (prefix token suffix : string) :
  ContainsAny prefix separators = false -> prefix <> "" -> ContainsAny token separators = false ->
  ContainsAny suffix separators = false -> marker_name (prefix +:+ token +:+ suffix) = true.
Proof.
  intros Hp Hne Ht Hs. unfold marker_name. rewrite negb_true_iff, orb_false_iff. split.
  - apply bool_decide_eq_false_2. by destruct prefix.
  - unfold ContainsAny in *. rewrite negb_false_iff in *. by rewrite !string_forallb_app, Hp, Ht, Hs.
Qed.

Lemma operationMarker_name (prefix operationID : string) :
  ContainsAny prefix separators = false -> prefix <> "" -> marker_name (operationMarker prefix operationID) = true.
Proof.
  intros Hp Hne. unfold operationMarker. rewrite <- append_assoc. apply token_marker_name; [|by destruct prefix| |done].
  - unfold ContainsAny in *. rewrite negb_false_iff in *. by rewrite string_forallb_app, Hp.
  - apply is_lower_hex_not_separator, EncodeToString_lower_hex.
Qed.

Lemma token_separators (token : string) : ValidIdentityToken token = true -> ContainsAny token separators = false.
Proof. unfold ValidIdentityToken. intros [_ H]%andb_true_iff. by apply negb_true_iff. Qed.

Lemma copyMarker_name (copyID : string) : ValidIdentityToken copyID = true -> marker_name (copyMarker copyID) = true.
Proof. intros H. by apply token_marker_name; [..|apply token_separators|]. Qed.

Lemma placementMarker_name (copyID : string) : ValidIdentityToken copyID = true -> marker_name (placementMarker copyID) = true.
Proof. intros H. by apply token_marker_name; [..|apply token_separators|]. Qed.

Lemma lock_marker_name (volumeID : string) : ValidateID volumeID = Ok tt -> marker_name ("lock-" +:+ volumeID) = true.
Proof.
  intros (digest & -> & _ & Hhex)%ValidateID_ok%validID_shape. rewrite <- (append_empty_r (idPrefix +:+ digest)).
  apply token_marker_name; try done. apply is_lower_hex_not_separator in Hhex. unfold ContainsAny in *.
  rewrite negb_false_iff in *. by rewrite string_forallb_app, Hhex.
Qed.

(** ** Markers that are there or not *)

Definition kept {A : Type} `{Marker A} (b : bool) (d : disk) (k : dir * string) (v : A) : Prop :=
  if b then marker d k v else entries d !! k = None.

Lemma kept_framed {A : Type} `{Marker A} (K : dir * string -> Prop) (b : bool) (d d' : disk) (k : dir * string) (v : A) :
  framed K d d' -> ~ K k -> noise k = false -> kept b d k v -> kept b d' k v.
Proof.
  intros Hf HK Hk. destruct b; simpl; [|by rewrite (framed_entries _ _ _ Hf)].
  intros [(f & He & Ht & Hd) Hl]. split; [|done]. exists f. by rewrite (framed_entries _ _ _ Hf), (framed_euid _ _ _ Hf).
Qed.

(** ** Interruptions *)

(** The disks that interrupted runs of an operation leave, by the stage they are at. *)
Class Stages {S : Type} (I : disk -> S -> Prop) : Prop :=
  stages_same d d' s : same d d' -> I d s -> I d' s.

Section stages.
Context {S : Type} (I : disk -> S -> Prop) `{!Stages I} (F : Prop).

(** An interruption may leave any stage. *)
Definition safe {A : Type} (Q : result A -> disk -> Prop) : Prop :=
  F -> forall d s e, I d s -> Q (Err e) d.

Lemma step_read {A : Type} (c : io disk A) (v : A) (Q : result A -> disk -> Prop) (d : disk) (s : S) :
  reads d c (Ok v) -> I d s -> safe Q -> (forall d', I d' s -> Q (Ok v) d') -> wpr F c Q d.
Proof.
  intros Hc Hs Hq HQ. apply Hc; [reflexivity| |].
  - intros d' Hd'. apply HQ. by eapply stages_same.
  - intros HF d' e Hd' _. eapply Hq; [done|]. by eapply stages_same.
Qed.

Lemma step_bind {A B : Type} (c : io disk A) (f : A -> io disk B) (v : A) (Q : result B -> disk -> Prop) (d : disk) (s : S) :
  reads d c (Ok v) -> I d s -> safe Q -> (forall d', I d' s -> wpr F (f v) Q d') -> wpr F (c ≫= f) Q d.
Proof.
  intros Hc Hs Hq HQ. apply wpr_bind. eapply step_read; [done..| |done]. intros HF d' s' e Hs'. by eapply Hq.
Qed.
End stages.

(** What is safe for a computation is safe for a part of it. *)
Ltac safely := let HF := fresh in let Hs := fresh in intros HF ? ? ? Hs;
  match goal with Hq : safe _ _ _ |- _ => eapply Hq; [exact HF|exact Hs] end.

(** Runs that are cut short by the given faults, one after the other. *)
Definition rerun {A : Type} (c : io disk A) (interruptions : list (list (option nat))) (d : disk) : disk :=
  foldl (fun d l => snd (c (set_faults d l))) d interruptions.

(** Executable forms of the hypotheses. *)
Definition marker_check {A : Type} `{Marker A} (d : disk) (key : dir * string) (v : A) : bool :=
  match entries d !! key with
  | Some (File f) => trusted (euid d) f && (f_data f == canonical v) && (String.length (canonical v) <=? marker_limit)%nat
  | _ => false
  end.

Lemma marker_checked {A : Type} `{Marker A} (d : disk) (key : dir * string) (v : A) : marker_check d key v = true -> marker d key v.
Proof.
  unfold marker_check. destruct (entries d !! key) as [[f| | |]|] eqn:E; try done.
  intros [[Ht Hd%bool_decide_eq_true]%andb_true_iff Hl%Nat.leb_le]%andb_true_iff. split; [|done]. by exists f.
Qed.

Definition locks_check (d : disk) : bool :=
  forallb (fun e => negb ((fst (fst e) == Control) && lock_name (snd (fst e))) ||
                    match snd e with File f => trusted (euid d) f | _ => false end) (map_to_list (entries d)).

Lemma locks_checked (d : disk) : locks_check d = true -> locks_ok d.
Proof.
  unfold locks_check. rewrite forallb_forall. intros Hall n Hn. destruct (entries d !! (Control, n)) as [e|] eqn:E; [right|by left].
  apply elem_of_map_to_list, list_elem_of_In in E. specialize (Hall _ E). simpl in Hall. rewrite Hn in Hall.
  destruct e as [f| | |]; try done. by exists f.
Qed.
