(* ===== verification/OwnershipReclaim.v ===== *)
(** * Reclaiming a copy survives every interruption

    [ReclaimWithResume] (src/node/ownership/reclaim.go) journals what it is about to
    destroy, moves the directory to "retired", purges it, writes a receipt and removes
    the metadata.  The stages below are all the disks an interrupted run can leave; each
    of them is one from which another run continues, and a run that is not interrupted
    finishes with the receipt of exactly the journaled directory. *)

From S2P Require Import Prelude Bytes Json Filepath VolumeIdentity NodeDisk OwnershipMarkers Ownership NodeLogic OwnershipLogic.

(** ** Stages *)

(** Where the directory of the copy is. *)
Inductive place : Type :=
| AtRole
| AtRetired (children : list (string * tree))
| Gone.

Record stage := MkStage { location : place; journaled : bool; receipted : bool; placed : bool; copied : bool }.

(** The stages a reclaim goes through, in its order of effects. *)
Definition legal (s : stage) : Prop :=
  match location s with AtRole => True | _ => journaled s = true end /\
  (if receipted s then location s = Gone /\ journaled s = true else placed s = true /\ copied s = true).

Section reclaim.
Context `{NodeEnv} (root : string) (target : CopyIdentity) (operationID : string) (device inode : N) (k : dir * string)
  (children : list (string * tree)).

Definition intentKey : dir * string := (Control, operationMarker "cleanup" operationID).
Definition receiptKey : dir * string := (Control, operationMarker "receipt" operationID).
Definition copyKey : dir * string := (Control, copyMarker (CopyID target)).
Definition placementKey : dir * string := (Placements, placementMarker (CopyID target)).
Definition retiredKey : dir * string := (Retired, CopyID target).

Definition intent : localIntent :=
  {| LocalIntent.OperationID := operationID; LocalIntent.Target := target; LocalIntent.Device := device; LocalIntent.Inode := inode |}.
Definition receipt : Receipt :=
  {| Receipt.OperationID := operationID; Receipt.Target := target; Receipt.Device := device; Receipt.Inode := inode;
     Receipt.Retired := true; Receipt.Purged := true |}.
Definition record : placement :=
  {| Placement.Identity := target; Placement.Device := device; Placement.Inode := inode |}.

(** The keys that the reclaim of [target] may change. *)
Definition own (key : dir * string) : Prop := key ∈ [k; retiredKey; intentKey; receiptKey; copyKey; placementKey].

(** A request that passes the checks of its arguments. *)
Record request : Prop := {
  request_operation : ValidIdentityToken operationID = true;
  request_target : Validate target = Ok tt;
  request_role : role_path target = Some k;
  request_not_retired : Role target <> RoleRetired;
  request_utf8 : utf8 0 operationID = true /\ CopyIdentity_representable target = true;
  request_device : device <> 0%N /\ uint64 device = true;
  request_inode : inode <> 0%N /\ uint64 inode = true
}.

(** The Pool that holds the copy. *)
Record holds_pool (d : disk) : Prop := {
  holds_store : store_ok root (pool_of target) (VolumeID target) d;
  holds_parent : exists perm uid, subdirs d !! fst k = Some (Directory perm uid);
  holds_retired : dir_or_absent d Retired;
  holds_device : pool_device d = device;
  holds_content : purgeable 257 device children = true
}.

Definition located (d : disk) (p : place) : Prop :=
  match p with
  | AtRole => entries d !! k = Some (Copy device inode children) /\
                       entries d !! retiredKey = None
  | AtRetired children => purgeable 257 device children = true /\ entries d !! k = None /\
                          entries d !! retiredKey = Some (Copy device inode children) /\
                          exists perm uid, subdirs d !! Retired = Some (Directory perm uid)
  | Gone => entries d !! k = None /\ entries d !! retiredKey = None
  end.

(** [d] is the Pool [d0] with the reclaim at stage [s]. *)
Record stands (d0 d : disk) (s : stage) : Prop := {
  stands_frame : framed own d0 d;
  stands_place : located d (location s);
  stands_intent : kept (journaled s) d intentKey intent;
  stands_receipt : kept (receipted s) d receiptKey receipt;
  stands_placed : kept (placed s) d placementKey record;
  stands_copied : kept (copied s) d copyKey target;
  stands_legal : legal s
}.

Context (Hreq : request) (d0 : disk) (Hpool : holds_pool d0).

Lemma role_dir : fst k = Volumes \/ fst k = Incoming.
Proof.
  pose proof (request_role Hreq) as Hr. unfold role_path in Hr. pose proof (request_not_retired Hreq).
  repeat case_bool_decide; [left|right|done|done]; by injection Hr as <-.
Qed.

Lemma copy_id_valid : ValidIdentityToken (CopyID target) = true.
Proof. pose proof (Validate_parts _ (request_target Hreq)). tauto. Qed.

Lemma request_storable : storable intent /\ storable receipt /\ storable record /\ storable target.
Proof.
  destruct Hreq. destruct_and!. split_and!;
    [by apply storable_localIntent|by apply storable_Receipt|by apply storable_placement|by apply storable_identity].
Qed.

Lemma intent_fits : String.length (canonical intent) <= marker_limit.
Proof. exact (proj2 (proj1 request_storable)). Qed.

Lemma receipt_fits : String.length (canonical receipt) <= marker_limit.
Proof. exact (proj2 (proj1 (proj2 request_storable))). Qed.

Lemma role_not_noise : noise k = false.
Proof. pose proof role_dir. destruct k as [x n]. simpl in *. unfold noise. simpl. by destruct x; try naive_solver. Qed.

(** The keys of the reclaim are not noise, are different, and are not the Pool's. *)
Ltac keys :=
  let H := fresh in pose proof role_dir as H; unfold own, intentKey, receiptKey, copyKey, placementKey, retiredKey in *;
  first [ reflexivity | apply role_not_noise
        | let E := fresh in intros E; first [discriminate E | destruct k; simpl in H; destruct H as [-> | ->]; discriminate E]
        | set_solver ].

Lemma stands_store (d : disk) (s : stage) : stands d0 d s -> store_ok root (pool_of target) (VolumeID target) d.
Proof.
  intros Hs. apply (store_ok_framed _ _ _ _ _ _ (stands_frame _ _ _ Hs)); [|apply Hpool]. unfold own.
  rewrite !elem_of_cons, elem_of_nil. intros E. destruct_or! E; revert E; try done; keys.
Qed.

Lemma located_framed (K : dir * string -> Prop) (d d' : disk) (p : place) :
  framed K d d' -> ~ K k -> ~ K retiredKey -> located d p -> located d' p.
Proof.
  intros Hf Hk Hr. destruct p; simpl; rewrite (framed_entries _ _ _ Hf k role_not_noise Hk);
    rewrite (framed_entries _ _ _ Hf retiredKey eq_refl Hr); [done| |done].
  intros (H1 & H2 & H3 & perm & uid & Hs). split_and!; [done..|]. exists perm, uid. by apply (framed_subdirs _ _ _ Hf).
Qed.

Lemma stands_framed (d d' : disk) (s : stage) : framed (fun _ => False) d d' -> stands d0 d s -> stands d0 d' s.
Proof.
  intros Hf []. split; [|eapply located_framed; [exact Hf|by intros []|by intros []|done]|
    (eapply kept_framed; [exact Hf|by intros []|done|done])..|done].
  eapply framed_trans; [done|]. destruct Hf. by split; auto.
Qed.

Lemma stands_same (d d' : disk) (s : stage) : same d d' -> stands d0 d s -> stands d0 d' s.
Proof. intros Hs. apply stands_framed. auto with shiftpv. Qed.

Lemma stands_near (d d' : disk) (s : stage) : near d d' -> stands d0 d s -> stands d0 d' s.
Proof. intros Hs. apply stands_framed. auto with shiftpv. Qed.

(** A change of one marker. *)
Ltac change_marker Hn :=
  match type of Hn with nearx (eq ?key) ?d ?d' =>
    let Hf := fresh "Hf" in assert (framed (eq key) d d') as Hf by (by eapply nearx_framed, Hn);
    split; cbn [location journaled receipted placed copied];
      [ eapply framed_trans; [done|]; eapply nearx_framed, Hn; intros ? <-; keys
      | eapply located_framed; [exact Hf|keys|keys|done]
      | first [done | eapply kept_framed; [exact Hf|keys|keys|done]].. | ]
  end.

Lemma stands_intend (d d' : disk) (s : stage) :
  stands d0 d s -> nearx (eq intentKey) d d' -> kept true d' intentKey intent ->
  stands d0 d' (MkStage (location s) true (receipted s) (placed s) (copied s)).
Proof.
  intros [] Hn Hm. change_marker Hn. destruct stands_legal0 as [H1 H2]. split; simpl; [by destruct (location s)|].
  destruct (receipted s); naive_solver.
Qed.

Lemma stands_acknowledge (d d' : disk) (s : stage) :
  stands d0 d s -> location s = Gone -> nearx (eq receiptKey) d d' -> kept true d' receiptKey receipt ->
  stands d0 d' (MkStage (location s) (journaled s) true (placed s) (copied s)).
Proof.
  intros [] Hgone Hn Hm. change_marker Hn. destruct stands_legal0 as [H1 H2]. split; simpl; [done|].
  split; [done|]. by rewrite Hgone in H1.
Qed.

Lemma stands_unplace (d d' : disk) (s : stage) :
  stands d0 d s -> receipted s = true -> nearx (eq placementKey) d d' -> kept false d' placementKey record ->
  stands d0 d' (MkStage (location s) (journaled s) (receipted s) false (copied s)).
Proof.
  intros [] Hr Hn Hm. change_marker Hn. destruct stands_legal0 as [H1 H2]. rewrite Hr in H2. split; simpl; [done|]. by rewrite Hr.
Qed.

Lemma stands_uncopy (d d' : disk) (s : stage) :
  stands d0 d s -> receipted s = true -> nearx (eq copyKey) d d' -> kept false d' copyKey target ->
  stands d0 d' (MkStage (location s) (journaled s) (receipted s) (placed s) false).
Proof.
  intros [] Hr Hn Hm. change_marker Hn. destruct stands_legal0 as [H1 H2]. rewrite Hr in H2. split; simpl; [done|]. by rewrite Hr.
Qed.

Lemma stands_gone (d : disk) (s : stage) : stands d0 d s -> receipted s = true -> location s = Gone.
Proof. intros [] Hr. destruct stands_legal0 as [_ H2]. rewrite Hr in H2. apply H2. Qed.

Lemma stands_settled (d : disk) (s : stage) :
  stands d0 d s -> receipted s = true -> stands d0 d (MkStage Gone true true (placed s) (copied s)).
Proof.
  intros Hs Hr. pose proof (stands_legal _ _ _ Hs) as [_ Hl]. destruct s. simpl in *. subst. by destruct Hl as [-> ->].
Qed.

(** A change of the directories of the copy. *)
Lemma stands_move (d : disk) (m : gmap (dir * string) entry) (s : stage) (p : place) :
  stands d0 d s -> (forall key, k <> key -> retiredKey <> key -> m !! key = entries d !! key) -> located (set_entries d m) p ->
  let s' := MkStage p (journaled s) (receipted s) (placed s) (copied s) in legal s' -> stands d0 (set_entries d m) s'.
Proof.
  intros [] Hm Hp s' Hlegal.
  assert (framed (fun key => k = key \/ retiredKey = key) d (set_entries d m)) as Hf.
  { apply framed_put; [|intros key Hkey; apply Hm; tauto]. pose proof role_dir.
    intros key [<-|<-]; [|done]. destruct_or!; congruence. }
  split; [|done|(eapply kept_framed; [exact Hf|intros [E|E]; revert E; keys|keys|done])..|done].
  eapply framed_trans; [done|]. eapply framed_mono; [|exact Hf]. intros key [<-|<-]; keys.
Qed.

(** ** Steps *)

#[local] Instance stands_stages : Stages (stands d0) := stands_same.

Section steps.
Context (F : Prop).

Notation safe := (safe (stands d0) F).
Notation step_bind := (step_bind (stands d0) F).
Notation step_read := (step_read (stands d0) F).

(** The metadata goes, whether or not an earlier run removed some of it. *)
Lemma wpr_removeCopyMetadata (Q : result unit -> disk -> Prop) (d : disk) (s : stage) :
  stands d0 d s -> receipted s = true -> safe Q ->
  (forall d', stands d0 d' (MkStage Gone true true false false) -> Q (Ok tt) d') ->
  wpr F (removeCopyMetadata target device inode) Q d.
Proof.
  intros Hs Hr Hq HQ. pose proof copy_id_valid as Hid. pose proof (stands_store _ _ Hs) as Hstore.
  apply wpr_bind. apply wpr_removeMarkerAt; [by apply placementMarker_name|done|apply Hstore| | |].
  { pose proof (stands_placed _ _ _ Hs) as Hp. destruct (placed s); [by left|by right]. }
  - intros d1 N1 E1. pose proof (stands_unplace _ _ _ Hs Hr N1 E1) as Hs1. pose proof (stands_store _ _ Hs1) as Hstore1.
    apply wpr_removeMarkerAt; [by apply copyMarker_name|done|apply Hstore1| | |].
    + pose proof (stands_copied _ _ _ Hs1) as Hc. simpl in Hc. destruct (copied s); [by left|by right].
    + intros d2 N2 E2. apply HQ. by apply (stands_settled _ _ (stands_uncopy _ _ _ Hs1 Hr N2 E2)).
    + intros HF d2 e N2 [E2|E2] _.
      * eapply Hq; [done|]. by apply (stands_uncopy _ _ _ Hs1).
      * eapply Hq; [done|]. eapply (stands_near d1); [|exact Hs1]. by eapply nearx_unchanged.
  - intros HF d1 e N1 [E1|E1] _; (eapply Hq; [done|]).
    + by apply (stands_unplace _ _ _ Hs).
    + eapply (stands_near d); [|exact Hs]. by eapply nearx_unchanged.
Qed.

(** The receipt, and then the metadata. *)
Lemma wpr_settleReclaim (Q : result (Receipt * string) -> disk -> Prop) (d : disk) (s : stage) :
  stands d0 d s -> location s = Gone -> receipted s = false -> safe Q ->
  (forall d', stands d0 d' (MkStage Gone true true false false) -> Q (Ok (receipt, receiptDigest receipt)) d') ->
  wpr F (settleReclaim target operationID intent) Q d.
Proof.
  intros Hs Hgone Hr Hq HQ. pose proof (stands_store _ _ Hs) as Hstore. unfold settleReclaim. simpl LocalIntent.Device. simpl LocalIntent.Inode.
  fold receipt. apply wpr_bind, wpr_wrapped.
  apply (wpr_ensureMarkerAt F Control (operationMarker "receipt" operationID) receipt);
    [by left|by apply operationMarker_name|done|apply receipt_fits|apply Hstore| | |].
  { right. pose proof (stands_receipt _ _ _ Hs) as Hk. by rewrite Hr in Hk. }
  2:{ intros HF d1 e N1 [Hm|Hm] _; (eapply Hq; [done|]).
      - by apply (stands_acknowledge _ _ _ Hs).
      - apply (stands_near d); [|exact Hs]. by eapply nearx_unchanged. }
  intros d1 N1 Hm. pose proof (stands_acknowledge _ _ _ Hs Hgone N1 Hm) as Hs1.
  eapply step_bind; [|exact Hs1|done|].
  { apply reads_wrapped; [done|]. pose proof (stands_place _ _ _ Hs1) as Hp. simpl in Hp. rewrite Hgone in Hp. destruct Hp as [Hk _].
    eapply reads_verifyAbsent; [apply (request_role Hreq)| |done].
    eapply dir_or_absent_framed; [apply (stands_frame _ _ _ Hs1)|]. right. apply (holds_parent _ Hpool). }
  intros d2 Hs2. apply wpr_bind, wpr_wrapped. eapply wpr_removeCopyMetadata; [exact Hs2|done|safely|].
  intros d3 Hs3. by apply wpr_ret, HQ.
Qed.


Notation moving p := (MkStage p true false true true).

Lemma stands_emptied (d d' : disk) (before rest : list (string * tree)) :
  stands d0 d (moving (AtRetired before)) -> same d d' -> purgeable 257 device rest = true ->
  stands d0 (set_entries d' (<[retiredKey := Copy device inode rest]> (entries d))) (moving (AtRetired rest)).
Proof.
  intros Hs Hd Hp. pose proof (stands_same _ _ _ Hd Hs) as Hs'. destruct (stands_place _ _ _ Hs') as (_ & Hk & _ & Hdir).
  pose proof (proj1 (same_fields _ _ Hd)) as <-. apply (stands_move d' _ (moving (AtRetired before))); [done| | |done].
  - intros key _ Hne. by rewrite lookup_insert_ne.
  - split_and!; [done| |simpl; by rewrite lookup_insert_eq|done]. simpl. rewrite lookup_insert_ne; [done|]. intros E. symmetry in E. revert E. keys.
Qed.

Lemma stands_removed (d d' : disk) (before : list (string * tree)) :
  stands d0 d (moving (AtRetired before)) -> same d d' ->
  stands d0 (set_entries d' (delete retiredKey (entries d))) (moving Gone).
Proof.
  intros Hs Hd. pose proof (stands_same _ _ _ Hd Hs) as Hs'. destruct (stands_place _ _ _ Hs') as (_ & Hk & _).
  pose proof (proj1 (same_fields _ _ Hd)) as <-. apply (stands_move d' _ (moving (AtRetired before))); [done| | |done].
  - intros key _ Hne. by rewrite lookup_delete_ne.
  - split; simpl; [|by rewrite lookup_delete_eq]. rewrite lookup_delete_ne; [done|]. intros E. symmetry in E. revert E. keys.
Qed.

Lemma stands_retired (d d' : disk) :
  stands d0 d (moving AtRole) -> same d d' -> (exists perm uid, subdirs d !! Retired = Some (Directory perm uid)) ->
  stands d0 (set_entries d' (<[retiredKey := Copy device inode children]> (delete k (entries d)))) (moving (AtRetired children)).
Proof.
  intros Hs Hd Hdir. pose proof (stands_same _ _ _ Hd Hs) as Hs'. destruct (stands_place _ _ _ Hs') as (Hk & _). pose proof (holds_content _ Hpool) as Hp.
  pose proof (proj1 (same_fields _ _ Hd)) as <-. apply (stands_move d' _ (moving AtRole)); [done| | |done].
  - intros key Hk' Hne. by rewrite lookup_insert_ne, lookup_delete_ne.
  - split_and!; [done| |simpl; by rewrite lookup_insert_eq|simpl; by use_same Hd]. simpl. rewrite lookup_insert_ne, lookup_delete_eq; [done|].
    intros E. symmetry in E. revert E. keys.
Qed.

Lemma wpr_purgeRetired (Q : result unit -> disk -> Prop) (d : disk) (p : place) :
  stands d0 d (moving p) -> p <> AtRole ->
  (exists perm uid, subdirs d !! Retired = Some (Directory perm uid)) -> safe Q ->
  (forall d', stands d0 d' (moving Gone) -> Q (Ok tt) d') -> wpr F (purgeRetired intent) Q d.
Proof.
  intros Hs Hp (perm & uid & Hdir) Hq HQ. unfold purgeRetired. cbn [LocalIntent.Target intent]. fold retiredKey.
  eapply step_bind; [by eapply reads_open_dir|exact Hs|done|]. intros d1 Hs1. apply wpr_bind, wpr_attempt.
  unfold openPurgeDirectory. apply wpr_bind, wpr_tick.
  2:{ intros HF d2 H2. apply wpr_reject_if; [done|]. intros _. eapply Hq; [done|]. by eapply stands_same. }
  intros d2 H2. pose proof (stands_same _ _ _ H2 Hs1) as Hs2. apply wpr_bind, wpr_get, wpr_bind, wpr_get.
  destruct p as [|left|]; [done| |].
  2:{ destruct (stands_place _ _ _ Hs2) as [_ Hr]. rewrite Hr. apply wpr_lift, wpr_reject_if; [intros _; by apply HQ|done]. }
  destruct (stands_place _ _ _ Hs2) as (Hc & _ & Hr & _). rewrite Hr. apply wpr_lift.
  rewrite (framed_device _ _ _ (stands_frame _ _ _ Hs2)), (holds_device _ Hpool), N.eqb_refl.
  apply wpr_bind, wpr_attempt, wpr_tick.
  2:{ intros HF d3 H3. apply wpr_bind, wpr_reject_if; [done|]. intros _. eapply Hq; [done|]. by eapply stands_same. }
  intros d3 H3. pose proof (stands_same _ _ _ H3 Hs2) as Hs3. apply wpr_bind, wpr_reject_if; [intros _|by rewrite !N.eqb_refl].
  destruct (stands_place _ _ _ Hs3) as (_ & _ & Hr3 & _). apply wpr_bind. eapply wpr_purge_copy; [exact Hr3|exact Hc| |].
  2:{ intros HF d4 rest e H4 Hrest _. eapply Hq; [done|]. by eapply stands_emptied. }
  intros d4 H4. pose proof (stands_emptied d3 d4 left [] Hs3 H4 eq_refl) as Hs5. set (d5 := set_entries d4 _) in *.
  eapply step_bind; [apply reads_tick|exact Hs5|done|]. intros d6 Hs6. destruct (stands_place _ _ _ Hs6) as (_ & _ & Hr6 & _).
  apply wpr_bind. eapply wpr_rmdirat; [exact Hr6| |].
  2:{ intros HF d7 H7. eapply Hq; [done|]. by eapply stands_same. }
  intros d7 H7. pose proof (stands_removed d6 d7 [] Hs6 H7) as Hs8. eapply step_read; [apply reads_tick|exact Hs8|done|done].
Qed.

Lemma reads_openRoleParent (d : disk) (s : stage) : stands d0 d s -> reads d (openRoleParent target) (Ok k).
Proof.
  intros Hs. unfold openRoleParent. rewrite (request_role Hreq). destruct (holds_parent _ Hpool) as (perm & uid & Hp).
  eapply reads_bind; [|apply reads_ret]. eapply reads_open_dir. by apply (framed_subdirs _ _ _ (stands_frame _ _ _ Hs)).
Qed.

(** What opening the exact directory finds in both places. *)
Lemma located_identified (d : disk) (p : place) :
  located d p ->
  reads d (openIdentityDirectory k device inode) (match p with AtRole => Ok tt | _ => Err ENOENT end) /\
  reads d (openIdentityDirectory (Retired, CopyID target) device inode) (match p with AtRetired _ => Ok tt | _ => Err ENOENT end).
Proof.
  intros Hp. destruct p; simpl in Hp; destruct_and? Hp; split;
    first [by apply reads_openIdentityDirectory_absent | by eapply reads_openIdentityDirectory].
Qed.

(** The copy ends in "retired", unless it is already gone. *)
Lemma wpr_retire (Q : result unit -> disk -> Prop) (d : disk) (p : place) :
  stands d0 d (moving p) -> safe Q ->
  (forall d' p', stands d0 d' (moving p') -> p' <> AtRole ->
    (exists perm uid, subdirs d' !! Retired = Some (Directory perm uid)) -> Q (Ok tt) d') ->
  wpr F (retire target intent) Q d.
Proof.
  intros Hs Hq HQ. unfold retire. apply wpr_bind, wpr_openOrCreateDirectory.
  { eapply dir_or_absent_framed; [apply (stands_frame _ _ _ Hs)|apply (holds_retired _ Hpool)]. }
  2:{ intros HF d1 e Hf _ _. eapply Hq; [done|]. by eapply stands_framed. }
  intros d1 Hf _ Hdir. pose proof (stands_framed _ _ _ Hf Hs) as Hs1. clear Hf.
  assert (forall d', same d1 d' -> stands d0 d' (moving p)) as Hsame by (intros d' Hd'; by eapply stands_same).
  assert (F -> forall d' e, same d1 d' -> Q (Err e) d') as Hcut by (intros HF d' e Hd'; eapply Hq; auto).
  apply wpr_bind, (reads_openRoleParent d1 _ Hs1); [reflexivity| |auto].
  intros d2 H2. cbn zeta. cbn [LocalIntent.Device LocalIntent.Inode intent]. rewrite bool_decide_eq_false_2 by apply (request_not_retired Hreq).
  destruct (located_identified d1 p (stands_place _ _ _ Hs1)) as (Hrs & Hrd).
  apply wpr_bind, wpr_attempt, Hrs; [done| |].
  2:{ intros HF d3 e H3 He. apply wpr_bind, wpr_attempt, Hrd; [done| |]; intros; (apply wpr_bind, wpr_reject_if;
        [by rewrite (proj1 (proj2 He))|intros _; by apply Hcut]). }
  intros d3 H3. apply wpr_bind, wpr_attempt, Hrd; [done| |].
  2:{ intros HF d4 e H4 He. destruct p; [|apply wpr_bind; simpl; apply wpr_ret..];
        [apply wpr_bind|..]; (apply wpr_reject_if; [by rewrite (proj1 (proj2 He))|intros _; by apply Hcut]). }
  intros d4 H4. pose proof (stands_place _ _ _ (Hsame _ H4)) as Hp. destruct p as [|left|].
  - apply wpr_bind. simpl. apply wpr_ret, wpr_bind. eapply wpr_renameDirectory.
    + apply Hp.
    + apply Hp.
    + intros d5 H5. pose proof (stands_retired _ _ (Hsame _ H4) H5 ltac:(by use_same H4)) as Hs5. fold retiredKey. set (d6 := set_entries d5 _) in *.
      apply wpr_join_syncs.
      * intros d7 H7. eapply (HQ _ (AtRetired children)); [by eapply stands_same|done|]. use_same H7. unfold d6. simpl.
        assert (same d1 d5) as H15 by (by transitivity d4). by use_same H15.
      * intros HF d7 e H7 _. eapply Hq; [done|]. by eapply stands_same.
    + intros HF d5 H5. apply Hcut; [done|]. by transitivity d4.
  - apply wpr_bind. simpl. apply wpr_ret, wpr_tick.
    + intros d5 H5. assert (same d1 d5) as H15 by (by transitivity d4).
      eapply (HQ _ (AtRetired left)); [auto|done|by use_same H15].
    + intros HF d5 H5. apply Hcut; [done|]. by transitivity d4.
  - apply wpr_bind. simpl. apply wpr_ret, wpr_reject_if; [intros _|done].
    eapply (HQ _ Gone); [auto|done|by use_same H4].
Qed.

Definition started (p : place) : bool := match p with AtRole => false | _ => true end.

Lemma reads_cleanupEffectStarted (d : disk) (s : stage) :
  stands d0 d s -> reads d (cleanupEffectStarted target intent) (Ok (started (location s))).
Proof.
  intros Hs. unfold cleanupEffectStarted. rewrite (request_role Hreq).
  rewrite bool_decide_eq_false_2 by apply (request_not_retired Hreq).
  pose proof (stands_place _ _ _ Hs) as Hp. pose proof (stands_frame _ _ _ Hs) as Hf.
  assert (exists perm uid, subdirs d !! fst k = Some (Directory perm uid)) as Hparent.
  { destruct (holds_parent _ Hpool) as (perm & uid & Hd). exists perm, uid. by apply (framed_subdirs _ _ _ Hf). }
  pose proof (dir_or_absent_framed _ _ _ _ Hf (holds_retired _ Hpool)) as Hdir.
  fold retiredKey. destruct (location s) as [|left|] eqn:El.
  - destruct Hp as (Hk & Hr), Hparent as (perm & uid & Hd). eapply reads_bind; [|eapply reads_bind].
    + eapply (reads_present_under d k intent true); [right; eauto|]. by eexists perm, uid, _.
    + by eapply (reads_present_under d retiredKey intent false).
    + apply reads_pass; [done|]. exact (reads_ret d false).
  - destruct Hp as (_ & Hk & Hr & perm & uid & Hd). eapply reads_bind; [|eapply reads_bind].
    + eapply (reads_present_under d k intent false); [by right|done].
    + eapply (reads_present_under d retiredKey intent true); [done|]. by eexists perm, uid, _.
    + apply reads_pass; [done|]. exact (reads_ret d true).
  - destruct Hp as (Hk & Hr). eapply reads_bind; [|eapply reads_bind].
    + eapply (reads_present_under d k intent false); [by right|done].
    + by eapply (reads_present_under d retiredKey intent false).
    + apply reads_pass; [done|]. exact (reads_ret d true).
Qed.

Lemma intent_name : marker_name (operationMarker "cleanup" operationID) = true.
Proof. by apply operationMarker_name. Qed.

Lemma reads_journal (d : disk) (s : stage) :
  stands d0 d s -> reads d (readLocalIntent target operationID) (Ok (if journaled s then Some intent else None)).
Proof.
  intros Hs. pose proof (stands_intent _ _ _ Hs) as Hm. destruct (journaled s); simpl in Hm.
  - apply reads_readLocalIntent; [apply intent_name|apply request_storable|done|done|exact Hm].
  - apply reads_readLocalIntent_absent; [apply intent_name|exact Hm].
Qed.

Lemma reads_record (d : disk) (s : stage) :
  stands d0 d s -> placed s = true -> reads d (readPlacement (CopyID target)) (Ok record).
Proof.
  intros Hs Hp. pose proof (stands_placed _ _ _ Hs) as Hm. rewrite Hp in Hm. apply (reads_read_marker_at d placementKey); [|apply request_storable|done].
  apply placementMarker_name, copy_id_valid.
Qed.

Lemma legal_moving (s : stage) : legal s -> receipted s = false -> s = MkStage (location s) (journaled s) false true true.
Proof. destruct s as [p j r pl c]. intros [_ H2] Hr. simpl in *. subst. by destruct H2 as [-> ->]. Qed.

(** The placement that the intent is taken from. *)
Lemma wpr_ensureLocalIntent (Q : result localIntent -> disk -> Prop) (d : disk) :
  stands d0 d (MkStage AtRole false false true true) -> safe Q ->
  (forall d', stands d0 d' (moving AtRole) -> Q (Ok intent) d') ->
  wpr F (ensureLocalIntent target operationID record) Q d.
Proof.
  intros Hs Hq HQ. unfold ensureLocalIntent. apply wpr_bind, wpr_attempt.
  apply (reads_read_marker_at_absent d intentKey intent_name); [exact (stands_intent _ _ _ Hs)|reflexivity| |].
  2:{ intros HF d1 e H1 He. apply wpr_bind, wpr_reject_if; [by rewrite (proj1 He)|]. intros _. eapply Hq; [done|]. by eapply stands_same. }
  intros d1 H1. pose proof (stands_same _ _ _ H1 Hs) as Hs1. apply wpr_bind, wpr_reject_if; [intros _|done].
  eapply step_bind; [|exact Hs1|done|].
  { unfold verifyCurrentPath. cbn [Placement.Identity record]. eapply reads_bind; [by eapply reads_openRoleParent|].
    destruct (stands_place _ _ _ Hs1) as (Hk & _). eapply (reads_verifyPath d1 k record);
      [apply (request_device Hreq)|apply (request_inode Hreq)|exact Hk]. }
  intros d2 Hs2. cbn zeta. cbn [Placement.Device Placement.Inode record]. fold intent. apply wpr_bind.
  apply (wpr_ensureMarkerAt F Control (operationMarker "cleanup" operationID) intent);
    [by left|apply intent_name|done|apply intent_fits|apply (stands_store _ _ Hs2)|right; exact (stands_intent _ _ _ Hs2)| |].
  - intros d3 N3 Hm. apply wpr_ret, HQ. by apply (stands_intend _ _ _ Hs2).
  - intros HF d3 e N3 [Hm|Hm] _; (eapply Hq; [done|]).
    + by apply (stands_intend _ _ _ Hs2).
    + eapply (stands_near d2); [|exact Hs2]. by eapply nearx_unchanged.
Qed.

Lemma wpr_confirmFreshReclaimTarget (Q : result localIntent -> disk -> Prop) (d : disk) (j : bool) :
  stands d0 d (MkStage AtRole j false true true) -> safe Q ->
  (forall d', stands d0 d' (moving AtRole) -> Q (Ok intent) d') ->
  wpr F (confirmFreshReclaimTarget target operationID (if j then Some intent else None)) Q d.
Proof.
  intros Hs Hq HQ. unfold confirmFreshReclaimTarget. eapply step_bind; [|exact Hs|done|].
  { apply reads_wrapped; [done|]. apply reads_checkMarkerAt; [apply copyMarker_name, copy_id_valid|exact (stands_copied _ _ _ Hs)]. }
  intros d1 Hs1. apply wpr_bind, wpr_attempt, (reads_record _ _ Hs1 eq_refl); [reflexivity| |].
  2:{ intros HF d2 e H2 _. apply wpr_fail. eapply Hq; [done|]. by eapply stands_same. }
  intros d2 H2. pose proof (stands_same _ _ _ H2 Hs1) as Hs2. apply wpr_bind, wpr_reject_if; [intros _|by rewrite bool_decide_eq_true_2].
  destruct j.
  - apply wpr_bind, wpr_reject_if; [intros _; by apply wpr_ret, HQ|by rewrite !N.eqb_refl].
  - apply wpr_wrapped. eapply wpr_ensureLocalIntent; [exact Hs2|safely|done].
Qed.

(** ** The whole operation *)

Context (authority : bool -> io disk unit) (Hauthority : forall resumed d, reads d (authority resumed) (Ok tt)).

Lemma wpr_prepareReclaimIntent (Q : result (localIntent * bool) -> disk -> Prop) (d : disk) (s : stage) :
  stands d0 d s -> receipted s = false -> safe Q ->
  (forall d', stands d0 d' (moving (location s)) -> Q (Ok (intent, started (location s))) d') ->
  wpr F (prepareReclaimIntent target operationID authority) Q d.
Proof.
  intros Hs Hr Hq HQ. pose proof (legal_moving s (stands_legal _ _ _ Hs) Hr) as Es. unfold prepareReclaimIntent.
  eapply step_bind; [apply reads_wrapped; [done|by eapply reads_journal]|exact Hs|done|]. intros d1 Hs1.
  eapply (step_bind _ _ (started (location s))); [|exact Hs1|done|].
  { pose proof (stands_legal _ _ _ Hs) as [Hl _]. destruct (journaled s) eqn:Ej.
    - apply reads_wrapped; [done|]. by apply reads_cleanupEffectStarted.
    - destruct (location s); [apply reads_ret|congruence..]. }
  intros d2 Hs2. eapply step_bind; [apply Hauthority|exact Hs2|done|]. intros d3 Hs3.
  destruct (location s) as [|left|] eqn:El.
  - rewrite Es in Hs3.
    replace (match (if journaled s then Some intent else None) with _ => _ end) with
      (intent ← confirmFreshReclaimTarget target operationID (if journaled s then Some intent else None); mret (intent, false))
      by (by destruct (journaled s)).
    apply wpr_bind. eapply wpr_confirmFreshReclaimTarget; [exact Hs3|safely|]. intros d4 Hs4. by apply wpr_ret, HQ.
  - assert (journaled s = true) as Ej by (pose proof (stands_legal _ _ _ Hs) as [Hl _]; by rewrite El in Hl).
    rewrite Ej in *. rewrite Es in Hs3. by apply wpr_ret, HQ.
  - assert (journaled s = true) as Ej by (pose proof (stands_legal _ _ _ Hs) as [Hl _]; by rewrite El in Hl).
    rewrite Ej in *. rewrite Es in Hs3. by apply wpr_ret, HQ.
Qed.

Lemma wpr_applyReclaimEffect (Q : result unit -> disk -> Prop) (d : disk) (p : place) :
  stands d0 d (moving p) -> safe Q -> (forall d', stands d0 d' (moving Gone) -> Q (Ok tt) d') ->
  wpr F (applyReclaimEffect target intent (started p) authority) Q d.
Proof.
  intros Hs Hq HQ. unfold applyReclaimEffect. eapply step_bind; [apply reads_tick|exact Hs|done|]. intros d1 Hs1.
  eapply step_bind; [apply reads_wrapped; [done|apply Hauthority]|exact Hs1|done|]. intros d2 Hs2.
  eapply step_bind; [apply reads_wrapped; [done|apply reads_tick]|exact Hs2|done|]. intros d3 Hs3.
  apply wpr_bind, wpr_wrapped. eapply wpr_retire; [exact Hs3|safely|]. intros d4 p' Hs4 Hp' Hdir.
  apply wpr_wrapped. eapply wpr_purgeRetired; [exact Hs4|done|done|safely|done].
Qed.

Lemma receipt_name : marker_name (operationMarker "receipt" operationID) = true.
Proof. by apply operationMarker_name. Qed.

Lemma wpr_replayReclaimReceipt (Q : result (option (Receipt * string)) -> disk -> Prop) (d : disk) (s : stage) :
  stands d0 d s -> safe Q ->
  (receipted s = true -> forall d', stands d0 d' (MkStage Gone true true false false) -> Q (Ok (Some (receipt, receiptDigest receipt))) d') ->
  (receipted s = false -> forall d', stands d0 d' s -> Q (Ok None) d') ->
  wpr F (replayReclaimReceipt target operationID authority) Q d.
Proof.
  intros Hs Hq Hsome Hnone. unfold replayReclaimReceipt. apply wpr_bind, wpr_attempt.
  assert (F -> forall d' e, same d d' -> hard e ->
    wpr F (if error_is e ErrNotExist then mret None else io_fail e) Q d') as Hcut.
  { intros HF d' e Hd' He. rewrite (proj1 He). apply wpr_fail. eapply Hq; [done|]. by eapply stands_same. }
  pose proof (stands_receipt _ _ _ Hs) as Hm. destruct (receipted s) eqn:Er; simpl in Hm.
  2:{ apply (reads_read_marker_at_absent d receiptKey receipt_name); [exact Hm|reflexivity| |exact Hcut].
      intros d1 H1. apply wpr_ret, Hnone; [done|]. by eapply stands_same. }
  apply (reads_read_marker_at d receiptKey receipt_name receipt); [apply request_storable|exact Hm|reflexivity| |exact Hcut].
  intros d1 H1. pose proof (stands_same _ _ _ H1 Hs) as Hs1.
  apply wpr_bind, wpr_reject_if; [intros _|by rewrite !bool_decide_eq_true_2 by done].
  eapply step_bind; [apply Hauthority|exact Hs1|done|]. intros d2 Hs2. eapply step_bind; [|exact Hs2|done|].
  { pose proof (stands_place _ _ _ Hs2) as Hp. rewrite (stands_gone _ _ Hs2 Er) in Hp. destruct Hp as [Hk _].
    eapply reads_verifyAbsent; [apply (request_role Hreq)| |exact Hk].
    eapply dir_or_absent_framed; [apply (stands_frame _ _ _ Hs2)|]. right. apply (holds_parent _ Hpool). }
  intros d3 Hs3. apply wpr_bind, wpr_wrapped. eapply wpr_removeCopyMetadata; [exact Hs3|done|safely|].
  intros d4 Hs4. apply wpr_ret. by apply Hsome.
Qed.

Lemma wpr_ReclaimWithResume (Q : result (Receipt * string) -> disk -> Prop) (d : disk) (s : stage) :
  stands d0 d s -> safe Q ->
  (forall d', stands d0 d' (MkStage Gone true true false false) -> Q (Ok (receipt, receiptDigest receipt)) d') ->
  wpr F (ReclaimWithResume root target operationID authority) Q d.
Proof.
  intros Hs Hq HQ. unfold ReclaimWithResume. apply wpr_bind, wpr_reject_if; [intros _|].
  2:{ by rewrite (request_operation Hreq), (request_target Hreq). }
  eapply step_bind; [eapply reads_OpenExisting, stands_store, Hs|exact Hs|done|]. intros d1 Hs1.
  pose proof (stands_store _ _ Hs1) as Hstore. apply wpr_bind. eapply wpr_Acquire; [exact Hstore| | |].
  { apply lock_marker_name, (store_volume _ _ _ _ Hstore). }
  2:{ intros HF d2 e N2 _. eapply Hq; [done|]. by eapply stands_near. }
  intros d2 N2. pose proof (stands_near _ _ _ N2 Hs1) as Hs2. apply wpr_bind. eapply wpr_replayReclaimReceipt; [exact Hs2|safely| |].
  - intros _ d3 Hs3. by apply wpr_ret, HQ.
  - intros Hr d3 Hs3. apply wpr_bind. eapply wpr_prepareReclaimIntent; [exact Hs3|done|safely|]. intros d4 Hs4.
    apply wpr_bind. eapply wpr_applyReclaimEffect; [exact Hs4|safely|]. intros d5 Hs5.
    by eapply wpr_settleReclaim; [exact Hs5|done..].
Qed.
End steps.
End reclaim.

(** ** Properties *)

(** A copy that is recorded and was never reclaimed. *)
Definition untouched : stage := MkStage AtRole false false true true.

Section recovery.
Context `{NodeEnv} (root : string) (target : CopyIdentity) (operationID : string) (device inode : N) (k : dir * string)
  (children : list (string * tree)) (authority : bool -> io disk unit).

Lemma rerun_stands (interruptions : list (list (option nat))) (d0 d : disk) (s : stage) :
  request target operationID device inode k -> holds_pool root target device k children d0 ->
  (forall resumed d, reads d (authority resumed) (Ok tt)) -> stands target operationID device inode k children d0 d s ->
  exists s', stands target operationID device inode k children d0 (rerun (ReclaimWithResume root target operationID authority) interruptions d) s'.
Proof.
  intros Hreq Hpool Hauth. revert d s. induction interruptions as [|l interruptions IH]; intros d s Hs; [by exists s|].
  apply stands_same with (d' := set_faults d l) in Hs; [|done|apply same_set_faults].
  destruct (wpr_ReclaimWithResume root target operationID device inode k children Hreq d0 Hpool True authority Hauth
    (fun _ d' => exists s', stands target operationID device inode k children d0 d' s') _ s Hs) as [_ [s' Hs']].
  - intros _ d' s' e Hs'. by exists s'.
  - intros d' Hs'. by eexists.
  - by right.
  - by eapply IH.
Qed.
End recovery.

(** A reclaim may be cut short at any call, any number of times.  Until the intent
    is journaled the directory is where it was, with its whole content, and nothing is
    ever at both places; the copy and placement markers stay until there is a receipt;
    a receipt exists only when the directory is gone; and nothing of any other copy
    changes. *)
Theorem reclaim_interrupted `{NodeEnv} (root : string) (target : CopyIdentity) (operationID : string) (device inode : N) (k : dir * string)
    (children : list (string * tree)) (authority : bool -> io disk unit) (interruptions : list (list (option nat))) (d : disk) :
  request target operationID device inode k -> holds_pool root target device k children d ->
  (forall resumed d, reads d (authority resumed) (Ok tt)) ->
  stands target operationID device inode k children d d untouched ->
  let d' := rerun (ReclaimWithResume root target operationID authority) interruptions d in
  (entries d' !! k = Some (Copy device inode children) /\ entries d' !! retiredKey target = None \/
   entries d' !! k = None /\ marker d' (intentKey operationID) (intent target operationID device inode)) /\
  (entries d' !! receiptKey operationID = None /\ marker d' (copyKey target) target /\
     marker d' (placementKey target) (record target device inode) \/
   marker d' (receiptKey operationID) (receipt target operationID device inode) /\ entries d' !! k = None /\
     entries d' !! retiredKey target = None) /\
  framed (own target operationID k) d d'.
Proof.
  intros Hreq Hpool Hauth Hfresh d'. destruct (rerun_stands root target operationID device inode k children authority interruptions
    d d untouched Hreq Hpool Hauth Hfresh) as [s Hs]. fold d' in Hs. destruct Hs as [Hf Hp Hi Hr Hpl Hc [Hl1 Hl2]]. split_and!; [| |done].
  - destruct (location s); simpl in Hp; [by left|right..]; rewrite Hl1 in Hi; tauto.
  - destruct (receipted s); [right|left]; destruct Hl2 as [E1 E2]; rewrite E1 in *; [simpl in Hp; tauto|].
    rewrite E2 in *. done.
Qed.

(** C5: However often a reclaim was interrupted before, the next run that is not returns
    the receipt for exactly the recorded device and inode, the directory is in neither
    place, its markers are removed, and nothing of any other copy changed. *)
Theorem reclaim_recovers `{NodeEnv} (root : string) (target : CopyIdentity) (operationID : string) (device inode : N) (k : dir * string)
    (children : list (string * tree)) (authority : bool -> io disk unit) (interruptions : list (list (option nat))) (d : disk) :
  request target operationID device inode k -> holds_pool root target device k children d ->
  (forall resumed d, reads d (authority resumed) (Ok tt)) ->
  stands target operationID device inode k children d d untouched ->
  let reclaim := ReclaimWithResume root target operationID authority in
  let '(r, d') := reclaim (set_faults (rerun reclaim interruptions d) []) in
  let done := receipt target operationID device inode in
  r = Ok (done, receiptDigest done) /\ marker d' (receiptKey operationID) done /\
  entries d' !! k = None /\ entries d' !! retiredKey target = None /\
  entries d' !! copyKey target = None /\ entries d' !! placementKey target = None /\ framed (own target operationID k) d d'.
Proof.
  intros Hreq Hpool Hauth Hfresh reclaim. destruct (rerun_stands root target operationID device inode k children authority interruptions
    d d untouched Hreq Hpool Hauth Hfresh) as [s Hs]. fold reclaim in Hs.
  apply stands_same with (d' := set_faults (rerun reclaim interruptions d) []) in Hs; [|done|apply same_set_faults].
  destruct (wpr_ReclaimWithResume root target operationID device inode k children Hreq d Hpool False authority Hauth
    (fun r d' => let done := receipt target operationID device inode in
       r = Ok (done, receiptDigest done) /\ stands target operationID device inode k children d d' (MkStage Gone true true false false))
    _ s Hs) as [_ HQ]; [by intros []|by intros d' Hs'|by left|]. fold reclaim in HQ.
  destruct (reclaim _) as [r d']. simpl in HQ. destruct HQ as [-> [Hf Hp Hi Hr Hpl Hc _]]. simpl in *. tauto.
Qed.

(** ** A concrete Pool *)

Module SampleCopy.
Import SampleNode.

Definition copy : CopyIdentity := SampleNode.SampleCopyIdentity.
Definition operation : string := "delete-uid-1".
Definition content : list (string * tree) := [("lost+found", Branch 7 []); ("data", Branch 7 [("a", Leaf); ("b", Leaf)]); ("c", Leaf)].
Definition allow : bool -> io disk unit := fun _ => tick.
Definition home : dir * string := (Volumes, VolumeID copy).

(** The Pool after the copy was prepared and filled. *)
Definition pool : disk :=
  Eval vm_compute in
  let d := snd (PrepareServing "/pool" copy (mret tt) blank) in
  match entries d !! home with
  | Some (Copy device inode _) => set_entries d (<[home := Copy device inode content]> (entries d))
  | _ => d
  end.

Lemma sample_allow (resumed : bool) (d : disk) : reads d (allow resumed) (Ok tt).
Proof. apply reads_tick. Qed.

Lemma sample_store : store_ok "/pool" (pool_of copy) (VolumeID copy) pool.
Proof.
  split; [done|done|by exists 493%N, 0%N| |by apply marker_checked; vm_compute|done|by apply locks_checked; vm_compute|by vm_compute].
  intros x [-> | ->]; by exists 448%N.
Qed.

Lemma sample_request : request copy operation 7 1 home.
Proof. by split. Qed.

Lemma sample_holds : holds_pool "/pool" copy 7 home content pool.
Proof. split; [apply sample_store|by exists 493%N, 0%N|by left|done|done]. Qed.

Lemma sample_untouched : stands copy operation 7 1 home content pool pool untouched.
Proof. split; [apply framed_refl|done|done|done|by apply marker_checked; vm_compute|by apply marker_checked; vm_compute|done]. Qed.
End SampleCopy.

#[local] Existing Instance SampleNode.env.

(** A failed call before the journal, a crash in the middle of the purge, and a failed
    call of the run after it. *)
Definition sample_interruptions : list (list (option nat)) :=
  [repeat None 30 ++ [Some 5]; repeat None 90 ++ repeat (Some 0) 400; repeat None 60 ++ [Some 0]].

Lemma reclaim_interrupted_witness :
  let d' := rerun (ReclaimWithResume "/pool" SampleCopy.copy SampleCopy.operation SampleCopy.allow) sample_interruptions SampleCopy.pool in
  (entries d' !! SampleCopy.home = Some (Copy 7 1 SampleCopy.content) /\ entries d' !! retiredKey SampleCopy.copy = None \/
   entries d' !! SampleCopy.home = None /\ marker d' (intentKey SampleCopy.operation) (intent SampleCopy.copy SampleCopy.operation 7 1)).
Proof.
  apply (reclaim_interrupted (H := SampleNode.env) "/pool" SampleCopy.copy SampleCopy.operation 7 1 SampleCopy.home SampleCopy.content SampleCopy.allow
    sample_interruptions SampleCopy.pool SampleCopy.sample_request SampleCopy.sample_holds SampleCopy.sample_allow SampleCopy.sample_untouched).
Defined.

Lemma reclaim_recovers_witness :
  let reclaim := ReclaimWithResume "/pool" SampleCopy.copy SampleCopy.operation SampleCopy.allow in
  let '(r, d') := reclaim (set_faults (rerun reclaim sample_interruptions SampleCopy.pool) []) in
  is_ok r = true /\ entries d' !! SampleCopy.home = None.
Proof.
  pose proof (reclaim_recovers (H := SampleNode.env) "/pool" SampleCopy.copy SampleCopy.operation 7 1 SampleCopy.home SampleCopy.content SampleCopy.allow
    sample_interruptions SampleCopy.pool SampleCopy.sample_request SampleCopy.sample_holds SampleCopy.sample_allow SampleCopy.sample_untouched) as Hr.
  cbv zeta in *. destruct (ReclaimWithResume _ _ _ _ _) as [r d']. destruct Hr as (-> & _ & Hk & _). split; [reflexivity|exact Hk].
Defined.
