(* ===== verification/OwnershipServing.v ===== *)
(** * Creating a serving copy survives every interruption

    [PrepareServing] (src/node/ownership/serving.go) opens or initialises the store of a
    Pool, records its intent, makes a staging directory, records its inode and renames it
    into place.  As for reclaiming, the phases below are all the disks an interrupted run
    can leave, and a run that is not interrupted finishes from each of them. *)

From S2P Require Import Prelude Bytes Json Filepath VolumeIdentity NodeDisk OwnershipMarkers Ownership NodeLogic OwnershipLogic.

(** ** Opening a store *)

Definition poolKey : dir * string := (Control, "pool.json").

(** The directory is missing, or nobody else can write to it. *)
Definition private_or_absent (d : disk) (x : dir) : Prop :=
  subdirs d !! x = None \/ exists perm, subdirs d !! x = Some (Directory perm (euid d)) /\ N.land perm 18 = 0%N.

(** A Pool whose store is initialised or can be. *)
Record openable (root : string) (pool : PoolIdentity) (volumeID : string) (d : disk) : Prop := {
  openable_root : IsAbs root = true /\ pool_path d = root;
  openable_tokens : ValidIdentityToken (PoolIdentity.InstallationID pool) = true /\ ValidIdentityToken (PoolIdentity.PoolUID pool) = true;
  openable_dirs : exists perm uid, subdirs d !! Root = Some (Directory perm uid);
  openable_control x : x = Control \/ x = Placements -> private_or_absent d x;
  openable_pool : marker d poolKey pool \/ entries d !! poolKey = None;
  openable_volume : ValidateID volumeID = Ok tt;
  openable_locks : locks_ok d;
  openable_free : "lock-" +:+ volumeID ∉ busy d
}.

Lemma store_ok_openable (root : string) (pool : PoolIdentity) (volumeID : string) (d : disk) :
  store_ok root pool volumeID d -> openable root pool volumeID d.
Proof. intros []. split; auto. intros x Hx. right. auto. Qed.

Section opening.
Context (F : Prop) `{NodeEnv} (root : string) (pool : PoolIdentity) (volumeID : string) (Hpool : storable pool).

(** What a step of [Open] may do. *)
Definition opened_from (d d' : disk) : Prop := framed (eq poolKey) d d' /\ openable root pool volumeID d'.

Lemma openable_nearx (K : dir * string -> Prop) (d d' : disk) :
  nearx K d d' -> ~ K poolKey -> openable root pool volumeID d -> openable root pool volumeID d'.
Proof.
  intros N HK []. split; unfold private_or_absent in *;
    rewrite ?(near_path _ _ _ N), ?(near_subdirs _ _ _ N), ?(near_euid _ _ _ N), ?(near_busy _ _ _ N); auto.
  - destruct openable_pool0 as [[(f & He & Ht & Hd) Hl]|Hn]; [left|right].
    + split; [|done]. exists f. by rewrite (near_entries _ _ _ N), (near_euid _ _ _ N).
    + by rewrite (near_entries _ _ _ N).
  - by apply (near_locks _ _ _ N).
Qed.

Lemma opened_refl (d : disk) : openable root pool volumeID d -> opened_from d d.
Proof. split; [apply framed_refl|done]. Qed.

Lemma opened_trans (a b c : disk) : opened_from a b -> opened_from b c -> opened_from a c.
Proof. intros [H1 _] [H2 H3]. split; [by eapply framed_trans|done]. Qed.

Lemma opened_near (d d' : disk) : near d d' -> openable root pool volumeID d -> opened_from d d'.
Proof. intros Hn Ho. split; [auto with shiftpv|]. eapply openable_nearx; [exact Hn|by intros []|done]. Qed.

Lemma opened_same (d d' : disk) : same d d' -> openable root pool volumeID d -> opened_from d d'.
Proof. intros Hs. by apply opened_near, same_near. Qed.

(** A control directory that is missing is created. *)
Lemma wpr_mkdir_if_missing (x : dir) (Q : result unit -> disk -> Prop) (d : disk) :
  x = Control \/ x = Placements -> openable root pool volumeID d ->
  (forall d', opened_from d d' ->
    (exists perm, subdirs d' !! x = Some (Directory perm (euid d')) /\ N.land perm 18 = 0%N) -> Q (Ok tt) d') ->
  (F -> forall d' e, opened_from d d' -> Q (Err e) d') ->
  wpr F (mkdir_if_missing x) Q d.
Proof.
  intros Hx Ho HQ HE. apply wpr_bind, wpr_attempt. unfold mkdir_dir. apply wpr_bind, wpr_tick.
  2:{ intros HF d1 H1. apply wpr_reject_if; [done|]. intros _. apply HE; [done|by apply opened_same]. }
  intros d1 H1. destruct (opened_same _ _ H1 Ho) as [Hf1 Ho1]. apply wpr_bind, wpr_get.
  destruct (openable_control _ _ _ _ Ho1 x Hx) as [Hn|(perm & Hs & Hp)].
  - rewrite Hn. apply wpr_put; [done|]. apply wpr_ret. set (d2 := set_subdirs d1 _).
    assert (subdirs d2 !! x = Some (Directory 448 (euid d2))) as Hnew by (unfold d2; simpl; by rewrite lookup_insert_eq).
    apply HQ; [|by exists 448%N].
    apply (opened_trans _ d1); [by split|]. split.
    + split; auto; unfold d2; simpl.
      * intros y s Hy. rewrite lookup_insert_ne; [done|]. intros <-. congruence.
      * intros y s. destruct (decide (x = y)) as [<-|Hne]; [rewrite lookup_insert_eq; intros [= <-]; eauto|].
        rewrite lookup_insert_ne by done. auto.
    + destruct Ho1. split; auto.
      * destruct openable_dirs0 as (perm & uid & Hr). exists perm, uid. unfold d2. simpl. rewrite lookup_insert_ne; [done|]. by destruct Hx as [-> | ->].
      * intros y Hy. unfold private_or_absent. destruct (decide (x = y)) as [<-|Hne]; [right; by exists 448%N|].
        unfold d2. simpl. rewrite lookup_insert_ne by done. by apply openable_control0.
  - rewrite Hs. apply wpr_fail, wpr_reject_if; [intros _|done]. apply HQ; [by split|by exists perm].
Qed.

(** A private directory is opened. *)
Definition private (d : disk) (x : dir) : Prop :=
  exists perm, subdirs d !! x = Some (Directory perm (euid d)) /\ N.land perm 18 = 0%N.

Lemma private_framed (K : dir * string -> Prop) (d d' : disk) (x : dir) : framed K d d' -> private d x -> private d' x.
Proof.
  intros Hf (perm & Hs & Hp). exists perm. split; [|done]. rewrite (framed_euid _ _ _ Hf). by apply (framed_subdirs _ _ _ Hf).
Qed.

Lemma opened_read {A B : Type} (c : io disk A) (f : A -> io disk B) (v : A) (Q : result B -> disk -> Prop) (d0 d : disk) :
  reads d c (Ok v) -> opened_from d0 d -> (F -> forall d' e, opened_from d0 d' -> Q (Err e) d') ->
  (forall d', same d d' -> opened_from d0 d' -> wpr F (f v) Q d') -> wpr F (c ≫= f) Q d.
Proof.
  intros Hc Ho HE HQ. apply wpr_bind, Hc; [reflexivity| |].
  - intros d' Hd'. apply HQ; [done|]. eapply opened_trans; [exact Ho|]. apply opened_same; [done|apply Ho].
  - intros HF d' e Hd' _. apply HE; [done|]. eapply opened_trans; [exact Ho|]. apply opened_same; [done|apply Ho].
Qed.

Lemma wpr_Open (Q : result unit -> disk -> Prop) (d : disk) :
  openable root pool volumeID d ->
  (forall d', framed (eq poolKey) d d' -> store_ok root pool volumeID d' -> Q (Ok tt) d') ->
  (F -> forall d' e, opened_from d d' -> Q (Err e) d') ->
  wpr F (Open root pool) Q d.
Proof.
  intros Ho HQ HE. destruct (openable_root _ _ _ _ Ho) as [Habs Hpath], (openable_tokens _ _ _ _ Ho) as [Ht1 Ht2].
  destruct (openable_dirs _ _ _ _ Ho) as (pr & ur & Hroot). unfold Open, open.
  apply wpr_bind, wpr_reject_if; [intros _|by rewrite Habs, Ht1, Ht2]. apply wpr_bind, wpr_get. rewrite bool_decide_eq_true_2 by done.
  eapply opened_read; [by eapply reads_open_dir|by apply opened_refl|done|]. intros d1 _ O1.
  apply wpr_bind, wpr_mkdir_if_missing; [by left|apply O1| |intros HF d2 e O2; apply HE; [done|by eapply opened_trans]].
  intros d2 O2 P2. pose proof (opened_trans _ _ _ O1 O2) as O02. pose proof P2 as (pc & Hc & _).
  eapply opened_read; [by eapply reads_open_dir|exact O02|done|]. intros d3 H3 O3.
  apply (private_framed _ _ _ _ (same_framed (fun _ => False) _ _ H3)) in P2.
  apply wpr_bind, wpr_mkdir_if_missing; [by right|apply O3| |intros HF d4 e O4; apply HE; [done|by eapply opened_trans]].
  intros d4 O4 P4. pose proof (opened_trans _ _ _ O3 O4) as O04. pose proof P4 as (pp & Hp & _).
  apply (private_framed _ _ _ _ (proj1 O4)) in P2.
  eapply opened_read; [by eapply reads_open_dir|exact O04|done|]. intros d5 H5 O5.
  apply (private_framed _ _ _ _ (same_framed (fun _ => False) _ _ H5)) in P2, P4.
  destruct P2 as (p2 & Hs2 & Hp2), P4 as (p4 & Hs4 & Hp4).
  eapply opened_read; [eapply reads_bind; by eapply reads_validateDirectory|exact O5|done|]. intros d6 H6 O6.
  assert (forall d', nearx (eq poolKey) d6 d' -> marker d' poolKey pool -> store_ok root pool volumeID d') as Hdone.
  { intros d' N' Hm. destruct O6 as [Hf6 []]. split; rewrite ?(near_path _ _ _ N'), ?(near_subdirs _ _ _ N'), ?(near_busy _ _ _ N'); auto.
    - use_same H6. rewrite (near_euid _ _ _ N'). intros x [-> | ->]; use_same H6; [by exists p2|by exists p4].
    - by apply (near_locks _ _ _ N'). }
  apply (wpr_ensureMarkerAt F Control "pool.json" pool);
    [by left|done|done|apply Hpool|apply O6|apply O6| |].
  - intros d7 N7 Hm. apply HQ; [|by apply Hdone]. eapply framed_trans; [apply O6|]. by eapply nearx_framed.
  - intros HF d7 e N7 [Hm|Hm] _; apply HE; auto; (eapply opened_trans; [exact O6|]).
    + split; [by eapply nearx_framed|]. apply store_ok_openable. by apply Hdone.
    + apply opened_near; [by eapply nearx_unchanged|apply O6].
Qed.
End opening.

(** ** Phases *)

Inductive phase : Type :=
| Absent
| Marked
| Staged (inode : N)
| Placed (inode : N)
| Published (inode : N).

Section serving.
Context `{NodeEnv} (identity : CopyIdentity) (device : N).

Definition markKey : dir * string := (Control, copyMarker (CopyID identity)).
Definition placeKey : dir * string := (Placements, placementMarker (CopyID identity)).
Definition stageKey : dir * string := (Incoming, stage_name identity).
Definition homeKey : dir * string := (Volumes, VolumeID identity).

Definition place_of (inode : N) : placement :=
  {| Placement.Identity := identity; Placement.Device := device; Placement.Inode := inode |}.

(** The keys that the creation may change. *)
Definition creates (key : dir * string) : Prop := key ∈ [homeKey; stageKey; markKey; placeKey].

Record creation : Prop := {
  creation_valid : Validate identity = Ok tt;
  creation_role : Role identity = RoleServing;
  creation_utf8 : CopyIdentity_representable identity = true;
  creation_device : device <> 0%N /\ uint64 device = true
}.

Definition inode_ok (inode : N) : Prop := inode <> 0%N /\ uint64 inode = true.

(** The files of the creation in each phase. *)
Definition at_phase (d : disk) (p : phase) : Prop :=
  match p with
  | Absent => entries d !! markKey = None /\ entries d !! stageKey = None /\ entries d !! placeKey = None /\ entries d !! homeKey = None
  | Marked => marker d markKey identity /\ entries d !! stageKey = None /\ entries d !! placeKey = None /\ entries d !! homeKey = None
  | Staged i => inode_ok i /\ marker d markKey identity /\ entries d !! stageKey = Some (Copy device i []) /\
                entries d !! placeKey = None /\ entries d !! homeKey = None
  | Placed i => inode_ok i /\ marker d markKey identity /\ entries d !! stageKey = Some (Copy device i []) /\
                marker d placeKey (place_of i) /\ entries d !! homeKey = None
  | Published i => inode_ok i /\ marker d markKey identity /\ entries d !! stageKey = None /\
                   marker d placeKey (place_of i) /\ entries d !! homeKey = Some (Copy device i [])
  end.

(** The Pool that the copy is created in. *)
Record hosts (root : string) (d : disk) : Prop := {
  hosts_store : store_ok root (pool_of identity) (VolumeID identity) d;
  hosts_volumes : dir_or_absent d Volumes;
  hosts_incoming : dir_or_absent d Incoming;
  hosts_device : pool_device d = device
}.

Definition rises (d0 d : disk) (p : phase) : Prop := framed creates d0 d /\ at_phase d p.

Lemma marker_framed {A : Type} `{Marker A} (K : dir * string -> Prop) (d d' : disk) (key : dir * string) (v : A) :
  framed K d d' -> ~ K key -> noise key = false -> marker d key v -> marker d' key v.
Proof. intros Hf HK Hn. exact (kept_framed K true d d' key v Hf HK Hn). Qed.

Lemma at_phase_framed (K : dir * string -> Prop) (d d' : disk) (p : phase) :
  framed K d d' -> (forall key, K key -> ~ creates key) -> at_phase d p -> at_phase d' p.
Proof.
  intros Hf HK.
  assert (forall key, creates key -> noise key = false -> entries d' !! key = entries d !! key) as He.
  { intros key Hkey Hn. apply (framed_entries _ _ _ Hf); [done|]. intros Hk. by apply (HK key). }
  assert (creates homeKey /\ creates stageKey /\ creates markKey /\ creates placeKey) as (K1 & K2 & K3 & K4) by (unfold creates; set_solver).
  destruct p; simpl; rewrite (He homeKey), (He stageKey) by done; rewrite ?(He markKey) by done; rewrite ?(He placeKey) by done;
    intros Hp; destruct_and! Hp; split_and!; try done; (eapply marker_framed; [exact Hf|intros Hk; by eapply HK|done|done]).
Qed.

Lemma rises_framed (d0 d d' : disk) (p : phase) : framed (fun _ => False) d d' -> rises d0 d p -> rises d0 d' p.
Proof.
  intros Hf [H1 H2]. split; [|eapply at_phase_framed; [exact Hf|by intros key []|done]].
  eapply framed_trans; [exact H1|]. eapply framed_mono; [|exact Hf]. by intros key [].
Qed.

Lemma rises_same (d0 d d' : disk) (p : phase) : same d d' -> rises d0 d p -> rises d0 d' p.
Proof. intros Hs. apply rises_framed. auto with shiftpv. Qed.

Lemma rises_near (d0 d d' : disk) (p : phase) : near d d' -> rises d0 d p -> rises d0 d' p.
Proof. intros Hs. apply rises_framed. auto with shiftpv. Qed.

#[local] Instance rises_stages (d0 : disk) : Stages (rises d0) := rises_same d0.

Context (root : string) (Hc : creation) (d0 : disk) (Hhost : hosts root d0).

Lemma serving_token : ValidIdentityToken (CopyID identity) = true.
Proof. pose proof (Validate_parts _ (creation_valid Hc)). tauto. Qed.

Lemma mark_name : marker_name (copyMarker (CopyID identity)) = true.
Proof. apply copyMarker_name, serving_token. Qed.

Lemma place_name : marker_name (placementMarker (CopyID identity)) = true.
Proof. apply placementMarker_name, serving_token. Qed.

Lemma place_storable (inode : N) : inode_ok inode -> storable (place_of inode).
Proof. intros [_ Hi]. destruct Hc. destruct creation_device0. by apply storable_placement. Qed.

Lemma rises_store (d : disk) (p : phase) : rises d0 d p -> store_ok root (pool_of identity) (VolumeID identity) d.
Proof.
  intros [Hf _]. eapply store_ok_framed; [exact Hf| |apply Hhost]. unfold creates. rewrite !elem_of_cons, elem_of_nil.
  intros E. destruct_or! E; done.
Qed.

(** ** Steps *)

Ltac serving_keys := unfold homeKey, stageKey, markKey, placeKey, creates in *; first [done | congruence | set_solver].

Lemma rises_mark (d d' : disk) : rises d0 d Absent -> nearx (eq markKey) d d' -> marker d' markKey identity -> rises d0 d' Marked.
Proof.
  intros [Hf (_ & H2 & H3 & H4)] N Hm. split.
  - eapply framed_trans; [exact Hf|]. eapply nearx_framed, N. intros key <-. serving_keys.
  - split_and!; [done|rewrite (near_entries _ _ _ N); [done..|serving_keys]..].
Qed.

Lemma rises_place (d d' : disk) (i : N) :
  rises d0 d (Staged i) -> nearx (eq placeKey) d d' -> marker d' placeKey (place_of i) -> rises d0 d' (Placed i).
Proof.
  intros [Hf (Hi & H1 & H2 & _ & H4)] N Hm. split.
  - eapply framed_trans; [exact Hf|]. eapply nearx_framed, N. intros key <-. serving_keys.
  - split_and!; [apply Hi..| | |done|]; [|rewrite (near_entries _ _ _ N); [done..|serving_keys]..].
    eapply (marker_framed (eq placeKey)); [eapply nearx_framed, N; done|serving_keys|done|done].
Qed.

(** Directories that appear or move. *)
Lemma framed_dirs (d : disk) (m : gmap (dir * string) entry) :
  (forall key, stageKey <> key -> homeKey <> key -> m !! key = entries d !! key) ->
  framed (fun key => stageKey = key \/ homeKey = key) d (set_entries d m).
Proof. intros Hm. apply framed_put; [by intros key [<-|<-]|]. intros key Hk. apply Hm; tauto. Qed.

Lemma rises_stage (d d' : disk) (i : N) :
  rises d0 d Marked -> same d d' -> inode_ok i ->
  rises d0 (set_entries d' (<[stageKey := Copy device i []]> (entries d'))) (Staged i).
Proof.
  intros Hr Hs Hi. destruct (rises_same _ _ _ _ Hs Hr) as [Hf (H1 & H2 & H3 & H4)].
  pose proof (framed_dirs d' (<[stageKey := Copy device i []]> (entries d')) ltac:(intros; by rewrite lookup_insert_ne)) as Hd. split.
  - eapply framed_trans; [exact Hf|]. eapply framed_mono, Hd. intros key [<-|<-]; serving_keys.
  - split_and!; [apply Hi..| | | |]; simpl; [|by rewrite lookup_insert_eq|by rewrite lookup_insert_ne..].
    eapply (marker_framed _ _ _ _ _ Hd); [by intros [E|E]|done|done].
Qed.

Lemma rises_publish (d d' : disk) (i : N) :
  rises d0 d (Placed i) -> same d d' ->
  rises d0 (set_entries d' (<[homeKey := Copy device i []]> (delete stageKey (entries d)))) (Published i).
Proof.
  intros Hr Hs. destruct (rises_same _ _ _ _ Hs Hr) as [Hf (Hi & H1 & H2 & H3 & H4)].
  pose proof (proj1 (same_fields _ _ Hs)) as <-.
  pose proof (framed_dirs d' (<[homeKey := Copy device i []]> (delete stageKey (entries d')))
    ltac:(intros; by rewrite lookup_insert_ne, lookup_delete_ne)) as Hd. split.
  - eapply framed_trans; [exact Hf|]. eapply framed_mono, Hd. intros key [<-|<-]; serving_keys.
  - split_and!; [apply Hi..| | | |]; simpl.
    + eapply (marker_framed _ _ _ _ _ Hd); [by intros [E|E]|done|done].
    + by rewrite lookup_insert_ne, lookup_delete_eq.
    + eapply (marker_framed _ _ _ _ _ Hd); [by intros [E|E]|done|done].
    + by rewrite lookup_insert_eq.
Qed.

Section steps.
Context (F : Prop).

Notation safe := (safe (rises d0) F).
Notation step_bind := (step_bind (rises d0) F).
Notation step_read := (step_read (rises d0) F).

Lemma wpr_publishStage (Q : result unit -> disk -> Prop) (d : disk) (i : N) :
  rises d0 d (Placed i) -> safe Q -> (forall d', rises d0 d' (Published i) -> Q (Ok tt) d') ->
  wpr F (publishStage identity (place_of i)) Q d.
Proof.
  intros Hr Hq HQ. destruct (proj2 Hr) as ([Hi _] & _ & Hst & _ & Hh). unfold publishStage. apply wpr_bind, wpr_attempt.
  fold stageKey homeKey. eapply wpr_renameDirectory; [exact Hst|exact Hh| |].
  2:{ intros HF d1 H1. apply wpr_bind, wpr_fail. eapply Hq; [done|]. by eapply rises_same. }
  intros d1 H1. pose proof (rises_publish _ _ _ Hr H1) as Hr2. set (d2 := set_entries d1 _) in *. apply wpr_bind, wpr_ret.
  eapply step_bind; [|exact Hr2|done|].
  { eapply (reads_verifyPath d2 homeKey (place_of i)); [apply (creation_device Hc)|exact Hi|apply (proj2 Hr2)]. }
  intros d3 Hr3. apply wpr_join_syncs.
  - intros d4 H4. apply HQ. by eapply rises_same.
  - intros HF d4 e H4 _. eapply Hq; [done|]. by eapply rises_same.
Qed.

(** The stage directory is made, or is there from an earlier run. *)
Lemma wpr_mkdirat_existing (Q : result unit -> disk -> Prop) (d : disk) (p : phase) :
  rises d0 d p -> (p = Marked \/ exists i, p = Staged i) -> safe Q -> (forall d' i, rises d0 d' (Staged i) -> Q (Ok tt) d') ->
  wpr F (mkdirat_existing stageKey) Q d.
Proof.
  intros Hr Hp Hq HQ. unfold mkdirat_existing. apply wpr_bind, wpr_attempt. unfold mkdirat. apply wpr_bind, wpr_tick.
  2:{ intros HF d1 H1. apply wpr_reject_if; [done|]. intros _. eapply Hq; [done|]. by eapply rises_same. }
  intros d1 H1. pose proof (rises_same _ _ _ _ H1 Hr) as Hr1. apply wpr_bind, wpr_get. destruct Hp as [->|[i ->]].
  - destruct (proj2 Hr1) as (_ & Hn & _). rewrite Hn. apply wpr_put; [done|]. apply wpr_ret.
    rewrite (framed_device _ _ _ (proj1 Hr1)), (hosts_device _ _ Hhost). eapply HQ. eapply (rises_stage d1 d1); [exact Hr1|reflexivity|].
    split; [apply NewInode_nonzero|apply NewInode_uint64].
  - destruct (proj2 Hr1) as (_ & _ & He & _). rewrite He. apply wpr_fail, wpr_reject_if; [intros _|done]. by eapply HQ.
Qed.

(** Recording the stage. *)
Lemma wpr_record_stage (Q : result placement -> disk -> Prop) (d : disk) (i : N) :
  rises d0 d (Staged i) -> safe Q -> (forall d', rises d0 d' (Placed i) -> Q (Ok (place_of i)) d') ->
  wpr F (record ← stagedPlacement identity; ensurePlacementMarker (CopyID identity) record;; mret record) Q d.
Proof.
  intros Hr Hq HQ. eapply step_bind; [|exact Hr|done|].
  { unfold stagedPlacement. fold stageKey. eapply reads_bind; [eapply reads_open_copy, (proj2 Hr)|].
    eapply reads_bind; [apply reads_tick|]. apply reads_placementFor. }
  intros d1 Hr1. fold (place_of i). destruct (proj2 Hr1) as (Hi & _ & _ & Hn & _). apply wpr_bind.
  apply (wpr_ensureMarkerAt F Placements (placementMarker (CopyID identity)) (place_of i));
    [by right|apply place_name|done|by apply place_storable|apply (rises_store _ _ Hr1)|by right| |].
  - intros d2 N2 Hm. apply wpr_ret, HQ. by apply (rises_place d1).
  - intros HF d2 e N2 [Hm|Hm] _; (eapply Hq; [done|]).
    + by apply (rises_place d1).
    + eapply (rises_near _ d1); [by eapply nearx_unchanged|exact Hr1].
Qed.

Lemma wpr_stageServingCopy (Q : result placement -> disk -> Prop) (d : disk) (p : phase) :
  rises d0 d p -> (p = Absent \/ p = Marked \/ exists i, p = Staged i) -> safe Q ->
  (forall d' i, rises d0 d' (Placed i) -> Q (Ok (place_of i)) d') ->
  wpr F (stageServingCopy identity (match p with Absent => false | _ => true end)) Q d.
Proof.
  intros Hr Hp Hq HQ. unfold stageServingCopy. fold homeKey stageKey.
  assert (entries d !! homeKey = None) as Hh by (pose proof (proj2 Hr); destruct p; simpl in *; naive_solver).
  eapply (step_bind _ _ false); [|exact Hr|done|].
  { pose proof (reads_pathExists d homeKey) as Hx. by rewrite Hh in Hx. }
  intros d1 Hr1. apply wpr_bind, wpr_reject_if; [intros _|done].
  eapply step_bind; [apply reads_pathExists|exact Hr1|done|]. intros d2 Hr2.
  assert (forall d3 p3, rises d0 d3 p3 -> (p3 = Marked \/ exists i, p3 = Staged i) ->
    wpr F (mkdirat_existing stageKey;; record ← stagedPlacement identity; ensurePlacementMarker (CopyID identity) record;; mret record) Q d3) as Hrest.
  { intros d3 p3 Hr3 Hp3. apply wpr_bind. eapply wpr_mkdirat_existing; [exact Hr3|done|safely|]. intros d4 i Hr4.
    eapply wpr_record_stage; [exact Hr4|done|]. intros d5 Hr5. by apply HQ. }
  destruct p; cbn [negb]; try (apply wpr_bind, wpr_ret; eapply Hrest; [exact Hr2|]; naive_solver).
  destruct (proj2 Hr2) as (Hm & Hs & _). rewrite (proj1 (proj2 (proj2 Hr1))). apply wpr_bind, wpr_bind, wpr_reject_if; [intros _|done].
  apply (wpr_ensureMarkerAt F Control (copyMarker (CopyID identity)) identity);
    [by left|apply mark_name|done| |apply (rises_store _ _ Hr2)|by right| |].
  - apply storable_identity; apply Hc.
  - intros d3 N3 Hm3. eapply Hrest; [by apply (rises_mark d2)|by left].
  - intros HF d3 e N3 [Hm3|Hm3] _; (eapply Hq; [done|]).
    + by apply (rises_mark d2).
    + eapply (rises_near _ d2); [by eapply nearx_unchanged|exact Hr2].
Qed.

Definition marked (p : phase) : bool := match p with Absent => false | _ => true end.

Lemma reads_marked (d : disk) (p : phase) : rises d0 d p -> reads d (copyMarkerExists identity) (Ok (marked p)).
Proof.
  intros [_ Hp]. destruct p; simpl in Hp; [apply reads_copyMarkerExists_absent; [apply mark_name|apply Hp]|..];
    (apply reads_copyMarkerExists; [apply mark_name|apply Hp]).
Qed.

(** Making the parents. *)
Lemma wpr_parent (x : dir) (mode : N) (Q : result unit -> disk -> Prop) (d : disk) (p : phase) :
  rises d0 d p -> dir_or_absent d0 x -> safe Q -> (forall d', rises d0 d' p -> Q (Ok tt) d') ->
  wpr F (openOrCreateDirectory x mode) Q d.
Proof.
  intros Hr Hd Hq HQ. apply wpr_openOrCreateDirectory.
  - eapply dir_or_absent_framed; [apply (proj1 Hr)|exact Hd].
  - intros d1 Hf _ _. apply HQ. by eapply rises_framed.
  - intros HF d1 e Hf _ _. eapply Hq; [done|]. by eapply rises_framed.
Qed.

(** A recorded placement is resumed, wherever its directory is. *)
Lemma wpr_resume (Q : result unit -> disk -> Prop) (d : disk) (p : phase) (i : N) :
  rises d0 d p -> (p = Placed i \/ p = Published i) -> safe Q -> (forall d', rises d0 d' (Published i) -> Q (Ok tt) d') ->
  wpr F (served ← resumeServingPlacement identity (place_of i) true;
         if served : bool then join_syncs 2 else publishStage identity (place_of i)) Q d.
Proof.
  intros Hr Hp Hq HQ. apply wpr_bind. unfold resumeServingPlacement. fold homeKey stageKey.
  apply wpr_bind, wpr_reject_if; [intros _|done]. apply wpr_bind, wpr_reject_if; [intros _|by rewrite bool_decide_eq_true_2].
  apply wpr_bind, wpr_attempt.
  assert (F -> forall d' e, same d d' -> hard e -> wpr F
    (io_reject_if (negb (error_is e ENOENT)) e;; verifyPath stageKey (place_of i) identity;; mret false)
    (fun r d' => match r with Ok a => wpr F (if a then join_syncs 2 else publishStage identity (place_of i)) Q d' | Err e => Q (Err e) d' end) d') as Hcut.
  { intros HF d' e Hd' He. apply wpr_bind, wpr_reject_if; [by rewrite (proj1 (proj2 He))|]. intros _. eapply Hq; [done|]. by eapply rises_same. }
  destruct Hp as [-> | ->]; destruct (proj2 Hr) as ([Hi _] & _ & Hs & _ & Hh).
  - apply (reads_verifyPath_absent d homeKey (place_of i)); [apply (creation_device Hc)|exact Hi|exact Hh|reflexivity| |exact Hcut].
    intros d1 H1. pose proof (rises_same _ _ _ _ H1 Hr) as Hr1. apply wpr_bind, wpr_reject_if; [intros _|done].
    eapply step_bind; [|exact Hr1|safely|].
    { eapply (reads_verifyPath d1 stageKey (place_of i)); [apply (creation_device Hc)|exact Hi|apply (proj2 Hr1)]. }
    intros d2 Hr2. apply wpr_ret. by apply (wpr_publishStage _ _ i).
  - apply (reads_verifyPath d homeKey (place_of i) []); [apply (creation_device Hc)|exact Hi|exact Hh|reflexivity| |exact Hcut].
    intros d1 H1. apply wpr_ret, wpr_join_syncs.
    + intros d2 H2. apply HQ. eapply rises_same; [|exact Hr]. by transitivity d1.
    + intros HF d2 e H2 _. eapply Hq; [done|]. eapply rises_same; [|exact Hr]. by transitivity d1.
Qed.

Lemma wpr_ensureServing (Q : result unit -> disk -> Prop) (d : disk) (p : phase) :
  rises d0 d p -> safe Q ->
  (forall d' i, rises d0 d' (Published i) -> (forall j, p = Placed j \/ p = Published j -> i = j) -> Q (Ok tt) d') ->
  wpr F (ensureServing (pool_of identity) identity) Q d.
Proof.
  intros Hr Hq HQ. unfold ensureServing. apply wpr_bind, wpr_reject_if; [intros _|].
  2:{ rewrite (creation_role Hc). by rewrite !bool_decide_eq_true_2. }
  apply wpr_bind, wpr_lift. rewrite (creation_valid Hc).
  eapply step_bind; [by apply reads_marked|exact Hr|done|]. intros d1 Hr1.
  apply wpr_bind. eapply wpr_parent; [exact Hr1|apply Hhost|safely|]. intros d2 Hr2.
  apply wpr_bind. eapply wpr_parent; [exact Hr2|apply Hhost|safely|]. intros d3 Hr3.
  apply wpr_bind, wpr_attempt.
  assert (F -> forall d' e, same d3 d' -> hard e ->
    wpr F (io_reject_if (negb (error_is e ErrNotExist)) e;; record ← stageServingCopy identity (marked p); publishStage identity record) Q d') as Hcut.
  { intros HF d' e Hd' He. apply wpr_bind, wpr_reject_if; [by rewrite (proj1 He)|]. intros _. eapply Hq; [done|]. by eapply rises_same. }
  assert ((p = Absent \/ p = Marked \/ (exists i, p = Staged i)) \/ exists i, p = Placed i \/ p = Published i) as [Hp|[i Hp]]
    by (destruct p; naive_solver).
  - assert (entries d3 !! placeKey = None) as Hn by (pose proof (proj2 Hr3); destruct p; simpl in *; naive_solver).
    apply (reads_read_marker_at_absent d3 placeKey place_name); [exact Hn|reflexivity| |exact Hcut].
    intros d4 H4. apply wpr_bind, wpr_reject_if; [intros _|done]. apply wpr_bind.
    eapply wpr_stageServingCopy; [eapply rises_same; [exact H4|exact Hr3]|done|safely|]. intros d5 i Hr5.
    eapply wpr_publishStage; [exact Hr5|done|]. intros d6 Hr6. eapply HQ; [exact Hr6|]. naive_solver.
  - assert (marker d3 placeKey (place_of i) /\ inode_ok i) as [Hm Hi] by (pose proof (proj2 Hr3); destruct Hp; subst; simpl in *; tauto).
    apply (reads_read_marker_at d3 placeKey place_name (place_of i)); [by apply place_storable|exact Hm|reflexivity| |exact Hcut].
    intros d4 H4. replace (marked p) with true by (by destruct Hp; subst).
    eapply wpr_resume; [eapply rises_same; [exact H4|exact Hr3]|done|done|]. intros d5 Hr5.
    eapply HQ; [exact Hr5|]. naive_solver.
Qed.
End steps.
End serving.

(** ** The whole operation *)

(** The keys that preparing a serving copy may change. *)
Definition prepares (identity : CopyIdentity) (key : dir * string) : Prop := creates identity key \/ key = poolKey.

(** The Pool that a copy can be prepared in, with the creation at some phase. *)
Record preparing (root : string) (identity : CopyIdentity) (device : N) (d : disk) (p : phase) : Prop := {
  preparing_open : openable root (pool_of identity) (VolumeID identity) d;
  preparing_volumes : dir_or_absent d Volumes;
  preparing_incoming : dir_or_absent d Incoming;
  preparing_device : pool_device d = device;
  preparing_phase : at_phase identity device d p
}.

Section prepare.
Context `{NodeEnv} (root : string) (identity : CopyIdentity) (device : N) (Hc : creation identity device) (F : Prop)
  (authority : io disk unit) (Hauthority : forall d, reads d authority (Ok tt)).

Lemma pool_storable : storable (pool_of identity).
Proof.
  pose proof (Validate_parts _ (creation_valid _ _ Hc)) as (H1 & _ & H3 & _). apply length_token in H1, H3.
  pose proof (creation_utf8 _ _ Hc) as Hu. unfold CopyIdentity_representable in Hu. rewrite !andb_true_iff in Hu.
  split; [unfold representable; simpl; unfold PoolIdentity_representable; simpl; rewrite andb_true_iff; tauto|].
  pose proof (length_quote (InstallationID identity)). pose proof (length_quote (PoolUID identity)).
  eapply (length_canonical _ (16 * 100)); [|unfold marker_limit; lia].
  change (to_json (pool_of identity)) with (PoolIdentity_to_json (pool_of identity)). unfold PoolIdentity_to_json.
  rewrite marshal_JObject. cbn [marshal_members marshal pool_of PoolIdentity.InstallationID PoolIdentity.PoolUID]. rewrite !length_append.
  generalize dependent (String.length (quote (InstallationID identity))).
  generalize dependent (String.length (quote (PoolUID identity))). intros. simpl. lia.
Qed.

Lemma preparing_framed (d d' : disk) (p p' : phase) (K : dir * string -> Prop) :
  preparing root identity device d p -> framed K d d' -> openable root (pool_of identity) (VolumeID identity) d' ->
  at_phase identity device d' p' -> preparing root identity device d' p'.
Proof.
  intros [] Hf Ho Hp. split; [done|by eapply dir_or_absent_framed..| |done]. by rewrite (framed_device _ _ _ Hf).
Qed.

Lemma pool_not_created : ~ creates identity poolKey.
Proof. unfold creates. rewrite !elem_of_cons, elem_of_nil. intros E. destruct_or! E; done. Qed.

Lemma wpr_PrepareServing (Q : result unit -> disk -> Prop) (d : disk) (p : phase) :
  preparing root identity device d p ->
  (F -> forall d' p' e, preparing root identity device d' p' -> framed (prepares identity) d d' -> Q (Err e) d') ->
  (forall d' i, preparing root identity device d' (Published i) -> framed (prepares identity) d d' ->
    (forall j, p = Placed j \/ p = Published j -> i = j) -> Q (Ok tt) d') ->
  wpr F (PrepareServing root identity authority) Q d.
Proof.
  intros Hr HE HQ.
  assert (forall d', opened_from root (pool_of identity) (VolumeID identity) d d' ->
    preparing root identity device d' p /\ framed (prepares identity) d d') as Hopened.
  { intros d' [Hf Ho]. split; [|eapply framed_mono, Hf; intros key <-; by right]. eapply preparing_framed; [exact Hr|exact Hf|done|].
    eapply at_phase_framed; [exact Hf| |apply Hr]. intros key <-. apply pool_not_created. }
  apply wpr_bind, (Hauthority d); [reflexivity| |].
  2:{ intros HF d1 e H1 _. destruct (Hopened d1) as [Hr1 Hf1]; [by apply opened_same; [|apply Hr]|]. by eapply HE. }
  intros d1 H1. destruct (opened_same root _ _ _ _ H1 (preparing_open _ _ _ _ _ Hr)) as [Hf1 Ho1].
  apply wpr_bind, (wpr_Open _ _ _ (VolumeID identity)); [apply pool_storable|exact Ho1| |].
  2:{ intros HF d2 e O2. destruct (Hopened d2) as [Hr2 Hf2]; [eapply opened_trans; [by split|exact O2]|]. by eapply HE. }
  intros d2 Hf2 Hs2. destruct (Hopened d2) as [Hr2 Hf02]; [split; [by eapply framed_trans|by apply store_ok_openable]|].
  assert (hosts identity device root d2) as Hhost by (split; [done|apply Hr2..]).
  assert (forall d' p', rises identity device d2 d' p' -> preparing root identity device d' p' /\ framed (prepares identity) d d') as Hrises.
  { intros d' p' [Hf' Hp']. split.
    - eapply preparing_framed; [exact Hr2|exact Hf'| |done]. apply store_ok_openable. eapply store_ok_framed; [exact Hf'|apply pool_not_created|done].
    - eapply framed_trans; [exact Hf02|]. eapply framed_mono, Hf'. intros key Hk. by left. }
  assert (safe (rises identity device d2) F Q) as Hq.
  { intros HF d' p' e Hr'. destruct (Hrises _ _ Hr'). by eapply HE. }
  pose proof (rises_stages identity device d2) as Hstages.
  assert (rises identity device d2 d2 p) as Hd2 by (split; [apply framed_refl|apply Hr2]).
  apply wpr_bind. eapply wpr_Acquire; [exact Hs2|apply lock_marker_name, Hs2| |].
  2:{ intros HF d3 e N3 _. eapply Hq; [done|]. by eapply rises_near. }
  intros d3 N3. pose proof (rises_near _ _ _ _ _ _ N3 Hd2) as Hr3.
  eapply (step_bind _ _ _ _ tt); [apply Hauthority|exact Hr3|done|]. intros d4 Hr4.
  apply wpr_bind. eapply wpr_ensureServing; [exact Hc|exact Hhost|exact Hr4|safely|].
  intros d5 i Hr5 Hi. eapply (step_read _ _ _ tt); [apply Hauthority|exact Hr5|done|].
  intros d6 Hr6. destruct (Hrises _ _ Hr6). by eapply HQ.
Qed.
End prepare.

(** ** Properties *)

Section recovery.
Context `{NodeEnv} (root : string) (identity : CopyIdentity) (device : N) (authority : io disk unit).
Context (Hc : creation identity device) (Hauthority : forall d, reads d authority (Ok tt)).

Lemma preparing_faults (d : disk) (l : list (option nat)) (p : phase) :
  preparing root identity device d p -> preparing root identity device (set_faults d l) p.
Proof.
  intros Hp. pose proof (same_set_faults d l) as Hs. eapply preparing_framed; [exact Hp|by apply (same_framed (fun _ => False))| |].
  - apply (opened_same root _ _ _ _ Hs), Hp.
  - eapply at_phase_framed; [by apply (same_framed (fun _ => False))|by intros key []|apply Hp].
Qed.

Lemma rerun_preparing (interruptions : list (list (option nat))) (d : disk) (p : phase) :
  preparing root identity device d p ->
  let d' := rerun (PrepareServing root identity authority) interruptions d in
  framed (prepares identity) d d' /\ exists p', preparing root identity device d' p'.
Proof.
  revert d p. induction interruptions as [|l interruptions IH]; intros d p Hp; [split; [apply framed_refl|by exists p]|].
  destruct (wpr_PrepareServing root identity device Hc True authority Hauthority
    (fun _ d' => framed (prepares identity) (set_faults d l) d' /\ exists p', preparing root identity device d' p')
    (set_faults d l) p (preparing_faults _ _ _ Hp)) as [_ [Hf [p' Hp']]]; [eauto|eauto|by right|].
  destruct (IH _ _ Hp') as [Hf' Hex]. split; [|exact Hex].
  eapply framed_trans; [|exact Hf']. eapply framed_trans; [|exact Hf]. apply same_framed, same_set_faults.
Qed.
End recovery.

(** C18: [PrepareServing] may be cut short at any call, any number of times, on a Pool
    that has a store or none yet; the next run that is not interrupted succeeds.  Then
    the copy and placement markers record the directory that serves the volume, which is
    empty, no staging directory is left, and nothing of any other copy changed. *)
Theorem serving_recovers `{NodeEnv} (root : string) (identity : CopyIdentity) (device : N) (authority : io disk unit)
    (interruptions : list (list (option nat))) (d : disk) :
  creation identity device -> (forall d, reads d authority (Ok tt)) -> preparing root identity device d Absent ->
  let prepare := PrepareServing root identity authority in
  let '(r, d') := prepare (set_faults (rerun prepare interruptions d) []) in
  r = Ok tt /\ framed (prepares identity) d d' /\
  exists inode, entries d' !! homeKey identity = Some (Copy device inode []) /\ entries d' !! stageKey identity = None /\
    marker d' (markKey identity) identity /\ marker d' (placeKey identity) (place_of identity device inode).
Proof.
  intros Hc Hauth Hp prepare. destruct (rerun_preparing root identity device authority Hc Hauth interruptions d Absent Hp) as [Hf [p Hp']].
  fold prepare in Hf, Hp'. set (d1 := rerun prepare interruptions d) in *.
  destruct (wpr_PrepareServing root identity device Hc False authority Hauth
    (fun r d' => r = Ok tt /\ framed (prepares identity) (set_faults d1 []) d' /\ exists i, at_phase identity device d' (Published i))
    (set_faults d1 []) p (preparing_faults _ _ _ _ _ _ Hp')) as [_ HQ].
  - done.
  - intros d' i Hi Hf' _. split_and!; [done..|]. exists i. apply Hi.
  - by left.
  - fold prepare in HQ. destruct (prepare (set_faults d1 [])) as [r d']. simpl in HQ. destruct HQ as (-> & Hf' & i & _ & Hm & Hs & Hpl & Hh).
    split_and!; [done| |by exists i]. eapply framed_trans; [exact Hf|]. eapply framed_trans; [|exact Hf']. apply same_framed, same_set_faults.
Qed.

(** A serving copy that is in place, or only recorded, is kept: preparing it again
    succeeds and serves the same inode. *)
Theorem serving_idempotent `{NodeEnv} (root : string) (identity : CopyIdentity) (device : N) (authority : io disk unit)
    (inode : N) (p : phase) (d : disk) :
  creation identity device -> (forall d, reads d authority (Ok tt)) -> p = Placed inode \/ p = Published inode ->
  preparing root identity device d p ->
  let '(r, d') := PrepareServing root identity authority (set_faults d []) in
  r = Ok tt /\ preparing root identity device d' (Published inode) /\ framed (prepares identity) d d'.
Proof.
  intros Hc Hauth Hp Hd.
  destruct (wpr_PrepareServing root identity device Hc False authority Hauth
    (fun r d' => r = Ok tt /\ preparing root identity device d' (Published inode) /\ framed (prepares identity) (set_faults d []) d')
    (set_faults d []) p (preparing_faults _ _ _ _ _ _ Hd)) as [_ HQ].
  - done.
  - intros d' i Hi Hf' Hsame. by rewrite <- (Hsame inode Hp).
  - by left.
  - destruct (PrepareServing root identity authority (set_faults d [])) as [r d']. simpl in HQ. destruct HQ as (-> & Hr & Hf).
    split_and!; [done..|]. eapply framed_trans; [|exact Hf]. apply same_framed, same_set_faults.
Qed.

(** ** A concrete Pool *)

Module SampleServing.
Definition copy : CopyIdentity := SampleNode.SampleCopyIdentity.

Lemma sample_creation : creation copy 7.
Proof. by split. Qed.

Lemma sample_preparing : preparing "/pool" copy 7 SampleNode.blank Absent.
Proof.
  split; [|by left|by left|done|done]. split; [done|done|by exists 493%N, 0%N|by intros x [-> | ->]; left|by right|done|by left|by vm_compute].
Qed.

(** The Pool after the placement was recorded and before the rename. *)
Definition recorded : disk :=
  Eval vm_compute in
  set_faults (snd (PrepareServing (H := SampleNode.env) "/pool" copy tick (set_faults SampleNode.blank (repeat None 84 ++ [Some 0])))) [].

Lemma sample_recorded : preparing "/pool" copy 7 recorded (Placed 1).
Proof.
  split; [|right; by eexists _, _..|done|].
  - apply store_ok_openable. split; [done|done|by exists 493%N, 0%N| |by apply marker_checked; vm_compute|done|by apply locks_checked; vm_compute|by vm_compute].
    intros x [-> | ->]; by exists 448%N.
  - split_and!; [by split..|by apply marker_checked; vm_compute|done|by apply marker_checked; vm_compute|done].
Qed.
End SampleServing.

#[local] Existing Instance SampleNode.env.

(** Crashes before the store is there, while the intent is written and while the
    placement is written. *)
Definition sample_crashes : list (list (option nat)) :=
  [repeat None 12 ++ repeat (Some 0) 100; repeat None 50 ++ repeat (Some 3) 100; repeat None 60 ++ repeat (Some 0) 100].

Lemma serving_recovers_witness :
  let prepare := PrepareServing "/pool" SampleServing.copy tick in
  let '(r, d') := prepare (set_faults (rerun prepare sample_crashes SampleNode.blank) []) in
  r = Ok tt /\ exists inode, entries d' !! homeKey SampleServing.copy = Some (Copy 7 inode []).
Proof.
  pose proof (serving_recovers (H := SampleNode.env) "/pool" SampleServing.copy 7 tick sample_crashes SampleNode.blank
    SampleServing.sample_creation reads_tick SampleServing.sample_preparing) as Hr.
  cbv zeta in *. destruct (PrepareServing _ _ _ _) as [r d']. destruct Hr as (-> & _ & inode & Hh & _).
  split; [reflexivity|by exists inode].
Defined.

Lemma serving_idempotent_witness :
  let '(r, d') := PrepareServing "/pool" SampleServing.copy tick (set_faults SampleServing.recorded []) in
  r = Ok tt /\ preparing "/pool" SampleServing.copy 7 d' (Published 1).
Proof.
  pose proof (serving_idempotent (H := SampleNode.env) "/pool" SampleServing.copy 7 tick 1 (Placed 1) SampleServing.recorded
    SampleServing.sample_creation reads_tick (or_introl eq_refl) SampleServing.sample_recorded) as Hr.
  cbv zeta in *. destruct (PrepareServing _ _ _ _) as [r d']. destruct Hr as (-> & Hp & _). split; [reflexivity|exact Hp].
Defined.
