(* ===== verification/OwnershipSafety.v ===== *)
(** * What the operations of package [ownership] can touch

    Facts about every disk, however damaged, and every sequence of failing calls: an
    operation on a copy reaches no entry of another one. *)

From S2P Require Import Prelude Bytes Json Filepath VolumeIdentity NodeDisk OwnershipMarkers Ownership NodeLogic OwnershipLogic.

(** ** Computations that preserve a relation *)

Record preserves {A : Type} (R : disk -> disk -> Prop) (c : io disk A) : Prop := { preserved d : R d (snd (c d)) }.

Section preserves.
Context (R : disk -> disk -> Prop) `{!PreOrder R}.

Lemma preserves_ret {A : Type} (a : A) : preserves R (mret a).
Proof. by split. Qed.
Lemma preserves_fail {A : Type} (e : error) : preserves R (io_fail (A := A) e).
Proof. by split. Qed.
Lemma preserves_lift {A : Type} (r : result A) : preserves R (io_lift r).
Proof. by split. Qed.
Lemma preserves_reject (b : bool) (e : error) : preserves R (io_reject_if b e).
Proof. by split. Qed.
Lemma preserves_get {A : Type} (f : disk -> A) : preserves R (get f).
Proof. by split. Qed.

Lemma preserves_bind {A B : Type} (c : io disk A) (f : A -> io disk B) :
  preserves R c -> (forall a, preserves R (f a)) -> preserves R (c ≫= f).
Proof.
  intros [Hc] Hf. split. intros d. unfold mbind, io_bind. specialize (Hc d). destruct (c d) as [[a|e] d']; simpl in *; [|done].
  etransitivity; [exact Hc|apply Hf].
Qed.

Lemma preserves_attempt {A : Type} (c : io disk A) : preserves R c -> preserves R (attempt c).
Proof. intros [Hc]. split. intros d. unfold attempt. specialize (Hc d). by destruct (c d). Qed.

Lemma preserves_deferred {A : Type} (c : io disk A) (cleanup : io disk unit) :
  preserves R c -> preserves R cleanup -> preserves R (deferred c cleanup).
Proof.
  intros [Hc] [Hd]. split. intros d. unfold deferred. specialize (Hc d). destruct (c d) as [r d1]. specialize (Hd d1). destruct (cleanup d1) as [r' d2].
  simpl in *. by etransitivity.
Qed.

Lemma preserves_wrapped {A : Type} (m : string) (c : io disk A) : preserves R c -> preserves R (wrapped m c).
Proof.
  intros Hc. unfold wrapped. apply preserves_bind; [by apply preserves_attempt|]. intros [a|e]; [apply preserves_ret|apply preserves_fail].
Qed.
End preserves.

(** ** Values that a computation can return *)

Definition returns {A : Type} (c : io disk A) (a : A) : Prop := exists d, fst (c d) = Ok a.

Lemma returns_bind {A B : Type} (c : io disk A) (f : A -> io disk B) (b : B) :
  returns (c ≫= f) b -> exists a, returns c a /\ returns (f a) b.
Proof.
  intros [d Hd]. unfold mbind, io_bind in Hd. destruct (c d) as [[a|e] d'] eqn:E; [|done].
  exists a. split; [exists d; by rewrite E|by exists d'].
Qed.

Lemma returns_ret {A : Type} (a b : A) : returns (mret a) b -> b = a.
Proof. by intros [d [= ->]]. Qed.

Lemma returns_fail {A : Type} (e : error) (a : A) : returns (io_fail e) a -> False.
Proof. by intros [d Hd]. Qed.

Lemma returns_reject (b : bool) (e : error) (u : unit) : returns (io_reject_if b e) u -> b = false.
Proof. intros [d Hd]. by destruct b. Qed.

Lemma returns_attempt {A : Type} (c : io disk A) (r : result A) (a : A) : returns (attempt c) r -> r = Ok a -> returns c a.
Proof. intros [d Hd] ->. exists d. unfold attempt in Hd. by destruct (c d); simpl in *; simplify_eq. Qed.

Lemma returns_wrapped {A : Type} (m : string) (c : io disk A) (a : A) : returns (wrapped m c) a -> returns c a.
Proof.
  intros (r & Hr & Ha)%returns_bind. destruct r as [a'|e]; [|by apply returns_fail in Ha].
  apply returns_ret in Ha as ->. by eapply returns_attempt.
Qed.

(** Go through a computation that returned. *)
Ltac returned :=
  repeat match goal with
  | H : returns (_ ≫= _) _ |- _ => apply returns_bind in H as (? & ? & ?)
  | H : returns (mret _) _ |- _ => apply returns_ret in H; simplify_eq
  | H : returns (io_fail _) _ |- _ => by apply returns_fail in H
  | H : returns (io_reject_if _ _) _ |- _ => apply returns_reject in H
  | H : returns (wrapped _ _) _ |- _ => apply returns_wrapped in H
  | H : returns (match ?r with Ok _ => _ | Err _ => _ end) _ |- _ => destruct r
  | H : returns (match ?r with Some _ => _ | None => _ end) _ |- _ => destruct r
  | H : returns (if ?b then _ else _) _ |- _ => destruct b
  | H : returns (let '(_, _) := ?p in _) _ |- _ => destruct p
  | H : (_ || _) = false |- _ => apply orb_false_iff in H as [? ?]
  | H : negb _ = false |- _ => apply negb_false_iff in H
  | H : bool_decide _ = true |- _ => apply bool_decide_eq_true in H
  end.

Lemma preserves_bind_value {A B : Type} (R : disk -> disk -> Prop) `{!PreOrder R} (c : io disk A) (f : A -> io disk B) :
  preserves R c -> (forall a, returns c a -> preserves R (f a)) -> preserves R (c ≫= f).
Proof.
  intros [Hc] Hf. split. intros d. unfold mbind, io_bind. specialize (Hc d). destruct (c d) as [[a|e] d'] eqn:E; simpl in *; [|done].
  etransitivity; [exact Hc|]. apply Hf. exists d. by rewrite E.
Qed.

(** ** Entries outside a set *)

(** The owner of new files is as before and directories of the package stay. *)
Definition settled (d d' : disk) : Prop :=
  euid d' = euid d /\ forall x s, subdirs d !! x = Some s -> subdirs d' !! x = Some s.

(** And so are the entries outside [K]. *)
Definition outside (K : dir * string -> Prop) (d d' : disk) : Prop :=
  settled d d' /\ forall k, ~ K k -> entries d' !! k = entries d !! k.

#[export] Instance outside_preorder (K : dir * string -> Prop) : PreOrder (outside K).
Proof.
  split; [done|]. intros a b c [[E1 S1] H1] [[E2 S2] H2]. split; [split; [congruence|auto]|]. intros k Hk. rewrite H2, H1; auto.
Qed.

Notation touches K := (preserves (outside K)).

Section leaves.
Context (K : dir * string -> Prop).

Lemma outside_insert (d : disk) (k : dir * string) (e : entry) : K k -> outside K d (set_entries d (<[k := e]> (entries d))).
Proof. intros Hk. split; [done|]. intros k' Hk'. simpl. rewrite lookup_insert_ne; [done|]. by intros <-. Qed.

Lemma outside_delete (d : disk) (k : dir * string) : K k -> outside K d (set_entries d (delete k (entries d))).
Proof. intros Hk. split; [done|]. intros k' Hk'. simpl. rewrite lookup_delete_ne; [done|]. by intros <-. Qed.

Lemma outside_move (d : disk) (from to : dir * string) (e : entry) :
  K from -> K to -> outside K d (set_entries d (<[to := e]> (delete from (entries d)))).
Proof.
  intros Hf Ht. split; [done|]. intros k' Hk'. simpl. rewrite lookup_insert_ne, lookup_delete_ne; [done|by intros <-|by intros <-].
Qed.

Lemma touches_tick : touches K tick.
Proof. split. intros d. unfold tick. by repeat case_match. Qed.

Lemma touches_put (f : disk -> disk) : (forall d, outside K d (f d)) -> touches K (put f).
Proof. intros Hf. split. intros d. apply Hf. Qed.
End leaves.

Create HintDb touch.
#[export] Hint Resolve preserves_ret preserves_fail preserves_lift preserves_reject preserves_get touches_tick outside_preorder : touch.

(** Goes through a computation call by call. *)
Ltac touch :=
  repeat first
    [ progress intros
    | solve [eauto 2 with touch nocore]
    | match goal with
      | |- preserves _ (_ ≫= _) => apply preserves_bind; [apply _|..]
      | |- preserves _ (attempt _) => apply preserves_attempt
      | |- preserves _ (wrapped _ _) => apply preserves_wrapped; [apply _|]
      | |- preserves _ (deferred _ _) => apply preserves_deferred; [apply _|..]
      | |- preserves _ (put _) => apply touches_put
      | |- outside _ _ (set_entries _ (<[_ := _]> (delete _ _))) => apply outside_move
      | |- outside _ _ (set_entries _ (<[_ := _]> _)) => apply outside_insert
      | |- outside _ _ (set_entries _ (delete _ _)) => apply outside_delete
      end
    | match goal with |- preserves _ (if ?b then _ else _) => destruct b end
    | match goal with |- preserves _ (match ?r with Ok _ => _ | Err _ => _ end) => destruct r end
    | match goal with |- preserves _ (match ?r with Some _ => _ | None => _ end) => destruct r end
    | match goal with |- preserves _ (match ?e with _ => _ end) => destruct e end
    | match goal with |- preserves _ ((match ?e with _ => _ end) _) => destruct e end ].

Section calls.
Context (K : dir * string -> Prop).

Lemma touches_open_dir (x : dir) : touches K (open_dir x).
Proof. unfold open_dir. touch. Qed.
Lemma touches_mkdir_dir (x : dir) (mode : N) : touches K (mkdir_dir x mode).
Proof.
  split. intros d. unfold mkdir_dir, mbind, io_bind. destruct (tick d) as [r d1] eqn:Et.
  pose proof (preserved _ _ (touches_tick K) d) as Ht. rewrite Et in Ht. destruct r as [[]|e]; [|exact Ht].
  simpl. destruct (subdirs d1 !! x) eqn:Ex; simpl; [exact Ht|]. etransitivity; [exact Ht|]. split; [split; [done|]|done].
  intros y s Hy. simpl in *. rewrite lookup_insert_ne; [done|]. intros <-. congruence.
Qed.
Lemma touches_open_copy (k : dir * string) : touches K (open_copy k).
Proof. unfold open_copy. touch. Qed.
Lemma touches_pathExists (k : dir * string) : touches K (pathExists k).
Proof. unfold pathExists. touch. Qed.
Lemma touches_mkdirat `{NodeEnv} (k : dir * string) : K k -> touches K (mkdirat k).
Proof. unfold mkdirat. touch. Qed.
Lemma touches_unlinkat (k : dir * string) : K k -> touches K (unlinkat k).
Proof. unfold unlinkat. touch. Qed.
Lemma touches_rmdirat (k : dir * string) : K k -> touches K (rmdirat k).
Proof. unfold rmdirat. touch. Qed.
Lemma touches_renameat (x : dir) (from to : string) : K (x, from) -> K (x, to) -> touches K (renameat x from to).
Proof. unfold renameat. touch. Qed.
Lemma touches_renameDirectory (from to : dir * string) : K from -> K to -> touches K (renameDirectory from to).
Proof. unfold renameDirectory. touch. Qed.
Lemma touches_open_file_read (k : dir * string) (mode : N) : touches K (open_file k ReadOnly mode).
Proof. unfold open_file. touch. Qed.
Lemma touches_open_file (k : dir * string) (flag : openflag) (mode : N) : K k -> touches K (open_file k flag mode).
Proof. unfold open_file. touch. Qed.

Lemma touches_write_file (k : dir * string) (data : string) : K k -> touches K (write_file k data).
Proof.
  intros Hk. split. intros d. unfold write_file, tick. repeat case_match; simplify_eq/=; try done;
    (split; [done|]; intros k' Hk'; simpl; rewrite lookup_insert_ne; [done|by intros <-]).
Qed.

Lemma touches_purge_copy (k : dir * string) : K k -> touches K (purge_copy k).
Proof.
  intros Hk. split. intros d. unfold purge_copy. destruct (entries d !! k) as [[|device inode children| |]|]; try done.
  destruct (purgeContents 257 device children (faults d)) as [[r rest] l]. split; [done|]. intros k' Hk'. simpl. rewrite lookup_insert_ne; [done|by intros <-].
Qed.
End calls.

#[export] Hint Resolve touches_open_dir touches_mkdir_dir touches_open_copy touches_pathExists touches_open_file_read : touch.

(** ** Operations *)

(** What an operation [operationID] on a copy may reach. *)
Definition reach (identity : CopyIdentity) (operationID : string) (k : dir * string) : Prop :=
  ((fst k = Control \/ fst k = Placements) /\ HasPrefix (snd k) "pending-" = true) \/
  k ∈ [(Control, "identity.lock"); (Control, "pool.json"); (Control, "lock-" +:+ VolumeID identity);
       (Control, copyMarker (CopyID identity)); (Placements, placementMarker (CopyID identity)); (Volumes, VolumeID identity);
       (Incoming, CopyID identity); (Incoming, stage_name identity); (Retired, CopyID identity)] \/
  exists prefix, k = (Control, operationMarker prefix operationID).

Section operations.
Context `{NodeEnv} (K : dir * string -> Prop).
Context (Ktemporary : forall x u, x = Control \/ x = Placements -> K (x, "pending-" +:+ u)).
Context (Klock : K (Control, "identity.lock")).

Lemma touches_openMarker_read (k : dir * string) (mode : N) : touches K (openMarker k ReadOnly mode).
Proof. unfold openMarker, fstat. touch. Qed.

Lemma touches_openMarker (k : dir * string) (flag : openflag) (mode : N) : K k -> touches K (openMarker k flag mode).
Proof. intros Hk. pose proof (touches_open_file K k flag mode Hk). unfold openMarker, fstat. touch. Qed.

Lemma touches_openControl_read (name : string) (mode : N) : touches K (openControl name ReadOnly mode).
Proof. apply touches_openMarker_read. Qed.

Lemma touches_checkMarkerAt {A : Type} `{Marker A} (k : dir * string) (v : A) : touches K (checkMarkerAt k v).
Proof. pose proof (touches_openMarker_read k 0). unfold checkMarkerAt, read_limited. touch. Qed.

Lemma touches_checkMarker {A : Type} `{Marker A} (name : string) (v : A) : touches K (checkMarker name v).
Proof. apply touches_checkMarkerAt. Qed.

Lemma touches_read_marker_at {A : Type} `{Marker A} (k : dir * string) : touches K (read_marker_at (A := A) k).
Proof. pose proof (touches_openMarker_read k 0). unfold read_marker_at, read_limited. touch. apply touches_checkMarkerAt. Qed.

Lemma touches_lock_identity : touches K lock_identity.
Proof. pose proof (touches_openMarker (Control, "identity.lock") ReadWriteCreate 384 Klock). unfold lock_identity, openControl. touch. Qed.

Lemma touches_ensureMarkerAt {A : Type} `{Marker A} (x : dir) (name : string) (v : A) :
  x = Control \/ x = Placements -> K (x, name) -> touches K (ensureMarkerAt x name v).
Proof.
  intros Hx Hk. pose proof touches_lock_identity. pose proof (touches_checkMarkerAt (x, name) v).
  pose proof (fun u => touches_openMarker (x, "pending-" +:+ u) CreateExclusive 384 (Ktemporary x u Hx)).
  pose proof (fun u => touches_write_file K (x, "pending-" +:+ u) (canonical v) (Ktemporary x u Hx)).
  pose proof (fun u => touches_renameat K x ("pending-" +:+ u) name (Ktemporary x u Hx) Hk).
  pose proof (fun u => touches_unlinkat K (x, "pending-" +:+ u) (Ktemporary x u Hx)).
  unfold ensureMarkerAt, fsync. apply preserves_bind; [apply _|done|intros _]. apply preserves_bind; [apply _|by apply preserves_attempt|].
  intros [[]|e]; [apply touches_tick|]. apply preserves_bind; [apply _|apply preserves_reject; apply _|intros _].
  split. intros d. unfold mbind, io_bind. simpl. set (u := NewUUID d).
  assert (touches K (openMarker (x, "pending-" +:+ u) CreateExclusive 384;;
    deferred (write_temporary (x, "pending-" +:+ u) (canonical v);; renameat x ("pending-" +:+ u) name;; tick;; checkMarkerAt (x, name) v)
      (unlinkat (x, "pending-" +:+ u)))) as Hrest by (unfold write_temporary, fsync, close; touch).
  apply Hrest.
Qed.

Lemma touches_removeMarkerAt {A : Type} `{Marker A} (x : dir) (name : string) (v : A) :
  K (x, name) -> touches K (removeMarkerAt x name v).
Proof.
  intros Hk. pose proof touches_lock_identity. pose proof (touches_checkMarkerAt (x, name) v). pose proof (touches_unlinkat K (x, name) Hk).
  unfold removeMarkerAt, ignore_missing, fsync. touch.
Qed.

Lemma touches_sync_all (n : nat) : touches K (sync_all n).
Proof. induction n as [|n IH]; cbn [sync_all]; unfold fsync; touch. Qed.

Lemma touches_join_syncs (n : nat) : touches K (join_syncs n).
Proof. pose proof (touches_sync_all n). unfold join_syncs. touch. Qed.

Lemma touches_openOrCreateDirectory (x : dir) (mode : N) : touches K (openOrCreateDirectory x mode).
Proof. unfold openOrCreateDirectory. touch. Qed.
End operations.

#[export] Hint Resolve touches_openMarker_read touches_openControl_read touches_checkMarkerAt touches_checkMarker touches_read_marker_at
  touches_lock_identity touches_join_syncs touches_openOrCreateDirectory : touch.

Section whole.
Context `{NodeEnv} (identity : CopyIdentity) (K : dir * string -> Prop).
Context (Ktemporary : forall x u, x = Control \/ x = Placements -> K (x, "pending-" +:+ u)).
Context (Klock : K (Control, "identity.lock")) (Kpool : K (Control, "pool.json")) (Kvolume : K (Control, "lock-" +:+ VolumeID identity)).
Context (Kcopy : K (Control, copyMarker (CopyID identity))) (Kplacement : K (Placements, placementMarker (CopyID identity))).
Context (Kserving : K (Volumes, VolumeID identity)) (Kincoming : K (Incoming, CopyID identity)) (Kstage : K (Incoming, stage_name identity)).
Context (Kretired : K (Retired, CopyID identity)).

Lemma touches_ensureMarker {A : Type} `{Marker A} (name : string) (v : A) : K (Control, name) -> touches K (ensureMarker name v).
Proof. intros Hk. unfold ensureMarker. apply touches_ensureMarkerAt; [exact Ktemporary|exact Klock|by left|exact Hk]. Qed.

Lemma touches_ensurePlacementMarker (v : placement) : touches K (ensurePlacementMarker (CopyID identity) v).
Proof. unfold ensurePlacementMarker. apply touches_ensureMarkerAt; [exact Ktemporary|exact Klock|by right|exact Kplacement]. Qed.

Lemma touches_removeCopyMetadata (device inode : N) : touches K (removeCopyMetadata identity device inode).
Proof.
  unfold removeCopyMetadata. apply preserves_bind; [apply _|..]; [|intros _].
  - apply touches_removeMarkerAt; [exact Klock|exact Kplacement].
  - apply touches_removeMarkerAt; [exact Klock|exact Kcopy].
Qed.

Lemma touches_validateDirectory (x : dir) : touches K (validateDirectory x).
Proof. unfold validateDirectory, fstat. touch. Qed.

Lemma touches_open (root : string) (initialize : bool) : touches K (open root (pool_of identity) initialize).
Proof.
  pose proof (touches_ensureMarker "pool.json" (pool_of identity) Kpool). pose proof touches_validateDirectory.
  unfold open, mkdir_if_missing, validateControl. touch.
Qed.

Lemma touches_Acquire : touches K (Acquire (pool_of identity) (VolumeID identity)).
Proof.
  pose proof (touches_openMarker K (Control, "lock-" +:+ VolumeID identity) ReadWriteCreate 384 Kvolume).
  unfold Acquire, acquire, openControl. touch.
Qed.

Lemma touches_verifyPath (k : dir * string) (record : placement) (expected : CopyIdentity) : touches K (verifyPath k record expected).
Proof. unfold verifyPath, placementFor, fstat. touch. Qed.

Lemma touches_openIdentityDirectory (k : dir * string) (device inode : N) : touches K (openIdentityDirectory k device inode).
Proof. unfold openIdentityDirectory, fstat. touch. Qed.

Lemma touches_openRoleParent (target : CopyIdentity) : touches K (openRoleParent target).
Proof. unfold openRoleParent. touch. Qed.

Lemma touches_verifyAbsent (target : CopyIdentity) : touches K (verifyAbsent target).
Proof. unfold verifyAbsent. touch. Qed.

Lemma touches_present_under (k : dir * string) (intent : localIntent) : touches K (present_under k intent).
Proof. pose proof touches_openIdentityDirectory. unfold present_under, exactDirectoryPresent, close. touch. Qed.

Lemma touches_readLocalIntent (target : CopyIdentity) (operationID : string) : touches K (readLocalIntent target operationID).
Proof. unfold readLocalIntent, readMarker. touch. Qed.

#[local] Hint Resolve touches_ensureMarker touches_ensurePlacementMarker touches_removeCopyMetadata touches_open touches_Acquire
  touches_verifyPath touches_openIdentityDirectory touches_openRoleParent touches_verifyAbsent touches_present_under
  touches_readLocalIntent : touch.

(** *** Reclaim *)

Context (operationID : string) (Koperation : forall prefix, K (Control, operationMarker prefix operationID)).
Context (authority : bool -> io disk unit) (Hauthority : forall resumed, touches K (authority resumed)).

Lemma role_reached (k : dir * string) : role_path identity = Some k -> K k.
Proof. unfold role_path. intros Hk. repeat case_bool_decide; by simplify_eq. Qed.

Lemma openRoleParent_returns (k : dir * string) : returns (openRoleParent identity) k -> K k.
Proof.
  unfold openRoleParent. destruct (role_path identity) as [k'|] eqn:E; intros Hr; returned. by apply role_reached.
Qed.

Lemma touches_retire (intent : localIntent) : touches K (retire identity intent).
Proof.
  unfold retire, close. apply preserves_bind; [apply _|touch|intros _]. apply preserves_bind_value; [apply _|touch|].
  intros k Hk%openRoleParent_returns. pose proof (touches_renameDirectory K k (Retired, CopyID identity) Hk Kretired). touch.
Qed.

Lemma touches_purgeRetired (intent : localIntent) : LocalIntent.Target intent = identity -> touches K (purgeRetired intent).
Proof.
  intros E. unfold purgeRetired, openPurgeDirectory, close, fsync. rewrite E.
  pose proof (touches_purge_copy K _ Kretired). pose proof (touches_rmdirat K _ Kretired). touch.
Qed.

Lemma readLocalIntent_returns (target : CopyIdentity) (intent : localIntent) :
  returns (readLocalIntent target operationID) (Some intent) -> LocalIntent.Target intent = target.
Proof. unfold readLocalIntent. intros Hr. by returned. Qed.

Lemma ensureLocalIntent_returns (placed : placement) (intent : localIntent) :
  returns (ensureLocalIntent identity operationID placed) intent -> LocalIntent.Target intent = identity.
Proof. unfold ensureLocalIntent. intros Hr. by returned. Qed.

Lemma prepareReclaimIntent_returns (intent : localIntent) (started : bool) :
  returns (prepareReclaimIntent identity operationID authority) (intent, started) -> LocalIntent.Target intent = identity.
Proof.
  unfold prepareReclaimIntent, confirmFreshReclaimTarget. intros Hr. returned; try by eapply readLocalIntent_returns.
  by eapply ensureLocalIntent_returns.
Qed.

Lemma touches_prepareReclaimIntent : touches K (prepareReclaimIntent identity operationID authority).
Proof.
  assert (forall placed, touches K (ensureLocalIntent identity operationID placed)).
  { intros placed. unfold ensureLocalIntent, readMarker, verifyCurrentPath. touch. }
  unfold prepareReclaimIntent, confirmFreshReclaimTarget, cleanupEffectStarted, readPlacement. touch.
Qed.

Lemma touches_settleReclaim (intent : localIntent) : touches K (settleReclaim identity operationID intent).
Proof. unfold settleReclaim. touch. Qed.

Lemma touches_replayReclaimReceipt : touches K (replayReclaimReceipt identity operationID authority).
Proof. unfold replayReclaimReceipt, readMarker. touch. Qed.

Lemma touches_ReclaimWithResume (root : string) : touches K (ReclaimWithResume root identity operationID authority).
Proof.
  pose proof touches_replayReclaimReceipt. pose proof touches_settleReclaim.
  unfold ReclaimWithResume, OpenExisting. repeat (apply preserves_bind; [apply _|touch|intros ?]). match goal with |- preserves _ (match ?r with Some _ => _ | None => _ end) => destruct r end; [touch|].
  apply preserves_bind_value; [apply _|apply touches_prepareReclaimIntent|]. intros [intent started] Hr%prepareReclaimIntent_returns.
  pose proof (touches_retire intent). pose proof (touches_purgeRetired intent Hr). unfold applyReclaimEffect, preflightPurge. touch.
Qed.

(** *** Creation *)

Lemma touches_PrepareServing (root : string) : touches K (PrepareServing root identity (authority false)).
Proof.
  pose proof (touches_renameDirectory K _ _ Kstage Kserving). pose proof (touches_mkdirat K _ Kstage).
  unfold PrepareServing, Open, ensureServing, copyMarkerExists, readPlacement, resumeServingPlacement, stageServingCopy, stagedPlacement,
    publishStage, mkdirat_existing, placementFor, fstat. touch.
Qed.

Lemma touches_observe_path (k : dir * string) (empty : bool) : touches K (observe_path k identity empty).
Proof. unfold observe_path, placementFor, fstat. touch. Qed.

Lemma touches_observe_places (empty : bool) (index : nat) (paths : list (dir * string)) (found : option (nat * placement)) :
  touches K (observe_places identity empty index paths found).
Proof.
  pose proof touches_observe_path. revert index found. induction paths as [|k paths IH]; intros index found; cbn [observe_places]; touch.
Qed.

Lemma touches_observeCreationSource (empty : bool) : touches K (observeCreationSource identity empty).
Proof. pose proof touches_observe_places. unfold observeCreationSource, metadataPathAbsent. touch. Qed.

Lemma prepareCreationCancellation_returns (intent : localIntent) (source : option nat) :
  returns (prepareCreationCancellation identity operationID) (intent, source) -> LocalIntent.Target intent = identity.
Proof. unfold prepareCreationCancellation. intros Hr. returned; first [done | by eapply readLocalIntent_returns]. Qed.

Lemma touches_CancelCreation (root : string) : touches K (CancelCreation root identity operationID authority).
Proof.
  pose proof touches_observeCreationSource. pose proof touches_replayReclaimReceipt. pose proof touches_settleReclaim.
  pose proof (touches_renameDirectory K _ _ Kstage Kretired). pose proof (touches_renameDirectory K _ _ Kserving Kretired).
  unfold CancelCreation, Open, replayCreationCancellation, verifyCreationAbsent, readMarker.
  repeat (apply preserves_bind; [apply _|touch|intros ?]). match goal with |- preserves _ (match ?r with Some _ => _ | None => _ end) => destruct r end; [touch|].
  apply preserves_bind_value; [apply _|unfold prepareCreationCancellation, copyMarkerExists, readPlacement; touch|].
  intros [intent source] Hr%prepareCreationCancellation_returns. pose proof (touches_purgeRetired intent Hr).
  unfold preflightPurge, retireCreation, verifyCreationAbsent, close. touch.
Qed.

(** *** Transfer *)

Lemma touches_VerifyIncoming : touches K (VerifyIncoming identity).
Proof. unfold VerifyIncoming, readPlacement. touch. Qed.

Lemma touches_PopulateIncoming (root : string) (populate : string -> io disk unit) :
  (forall path, touches K (populate path)) -> touches K (PopulateIncoming root identity operationID (authority false) populate).
Proof.
  intros Hpopulate. pose proof (touches_mkdirat K _ Kincoming). pose proof touches_VerifyIncoming.
  unfold PopulateIncoming, Open, ensureIncoming, copyMarkerExists, readPlacement, readMarker, mkdirat_existing, placementFor, fstat. touch.
Qed.
End whole.

#[export] Hint Resolve touches_verifyPath touches_openIdentityDirectory touches_openRoleParent touches_verifyAbsent touches_present_under
  touches_readLocalIntent : touch.

(** *** Promotion *)

Section promotion.
Context `{NodeEnv} (incoming serving : CopyIdentity) (operationID : string) (K : dir * string -> Prop).
Context (Ktemporary : forall x u, x = Control \/ x = Placements -> K (x, "pending-" +:+ u)).
Context (Klock : K (Control, "identity.lock")) (Kpool : K (Control, "pool.json")) (Kvolume : K (Control, "lock-" +:+ VolumeID incoming)).
Context (Kcopy : forall c, c = incoming \/ c = serving -> K (Control, copyMarker (CopyID c)) /\ K (Placements, placementMarker (CopyID c))).
Context (Kincoming : K (Incoming, CopyID incoming)) (Kserving : K (Volumes, VolumeID serving)).
Context (Koperation : forall prefix, K (Control, operationMarker prefix operationID)).
Context (authority : io disk unit) (Hauthority : touches K authority).

Lemma touches_PromoteIncoming (root : string) : touches K (PromoteIncoming root incoming serving operationID authority).
Proof.
  destruct (Kcopy incoming) as [Kc1 Kp1]; [by left|]. destruct (Kcopy serving) as [Kc2 Kp2]; [by right|].
  pose proof (touches_open incoming K Ktemporary Klock Kpool root false). pose proof (touches_Acquire incoming K Kvolume).
  pose proof (touches_removeCopyMetadata incoming K Klock Kc1 Kp1).
  pose proof (touches_ensurePlacementMarker serving K Ktemporary Klock Kp2).
  pose proof (fun A (m : Marker A) name (v : A) => touches_ensureMarker K Ktemporary Klock name v).
  pose proof (touches_renameDirectory K _ _ Kincoming Kserving).
  unfold PromoteIncoming, OpenExisting, replayPromotionReceipt, journalPromotion, publishPromotedDirectory, sealPromotedPlacement,
    commitPromotion, VerifyServing, readMarker, readPlacement, placementFor, fstat. touch.
Qed.
End promotion.

(** ** Properties *)

Lemma reach_temporary (identity : CopyIdentity) (operationID : string) (x : dir) (u : string) :
  x = Control \/ x = Placements -> reach identity operationID (x, "pending-" +:+ u).
Proof. intros Hx. left. split; [done|]. apply HasPrefix_spec. by exists u. Qed.

Lemma reach_operation (identity : CopyIdentity) (operationID prefix : string) :
  reach identity operationID (Control, operationMarker prefix operationID).
Proof. right. right. by exists prefix. Qed.

(** One of the listed names. *)
Ltac listed := first [right; left; rewrite !elem_of_cons; by repeat first [left; reflexivity | right] | by apply reach_operation | by apply reach_temporary].


