(* ===== verification/OwnershipExact.v ===== *)
(** * A reclaim destroys what its journal names

    Facts about every disk, however damaged, and every sequence of failing calls.  A
    marker that is accepted is there byte for byte; and [ReclaimWithResume]
    (src/node/ownership/reclaim.go) moves or removes only the directory whose device and
    inode are in the journal that it has made durable before. *)

From S2P Require Import Prelude Bytes Json Filepath VolumeIdentity NodeDisk OwnershipMarkers Ownership NodeLogic OwnershipLogic OwnershipSafety.

(** ** Successful runs *)

(** [P] holds when [c] returns from [d]. *)
Definition okay {A : Type} (c : io disk A) (P : A -> disk -> Prop) (d : disk) : Prop := forall a d', c d = (Ok a, d') -> P a d'.

Section okay.
Context {A B : Type}.

Lemma okay_bind (c : io disk A) (f : A -> io disk B) (P : B -> disk -> Prop) (d : disk) :
  okay c (fun a d' => okay (f a) P d') d -> okay (c ≫= f) P d.
Proof.
  intros Hc b d' E. unfold mbind, io_bind in E. destruct (c d) as [[a|e] d1] eqn:E1; [|done]. by eapply Hc.
Qed.

Lemma okay_ret (a : A) (P : A -> disk -> Prop) (d : disk) : P a d -> okay (mret a) P d.
Proof. by intros HP a' d' [= <- <-]. Qed.

Lemma okay_fail (e : error) (P : A -> disk -> Prop) (d : disk) : okay (io_fail e) P d.
Proof. by intros a d' E. Qed.

Lemma okay_attempt (c : io disk A) (P : result A -> disk -> Prop) (d : disk) :
  okay c (fun a d' => P (Ok a) d') d -> (forall e d', c d = (Err e, d') -> P (Err e) d') -> okay (attempt c) P d.
Proof.
  intros Hc He r d' E. unfold attempt in E. destruct (c d) as [[a|e] d1] eqn:E1; injection E as <- <-; [by apply Hc|by apply He].
Qed.

Lemma okay_mono (c : io disk A) (P Q : A -> disk -> Prop) (d : disk) : okay c P d -> (forall a d', P a d' -> Q a d') -> okay c Q d.
Proof. intros Hc HPQ a d' E. by apply HPQ, Hc. Qed.
End okay.

Lemma okay_reject (b : bool) (e : error) (P : unit -> disk -> Prop) (d : disk) : (b = false -> P tt d) -> okay (io_reject_if b e) P d.
Proof. intros HP [] d' E. destruct b; [done|]. injection E as <-. by apply HP. Qed.

(** [c] ran without touching an entry. *)
Definition inert (d d' : disk) : Prop := outside (fun _ => False) d d'.

Lemma inert_entries (d d' : disk) : inert d d' -> entries d' = entries d /\ euid d' = euid d.
Proof. intros [[He _] Hk]. split; [|done]. apply map_eq. intros k. apply Hk. by intros []. Qed.

Lemma inert_outside (K : dir * string -> Prop) (d d' : disk) : inert d d' -> outside K d d'.
Proof. intros [Hs Hk]. split; [done|]. intros k _. apply Hk. by intros []. Qed.

Lemma okay_inert {A : Type} (c : io disk A) (P : A -> disk -> Prop) (d : disk) :
  touches (fun _ => False) c -> (forall a d', inert d d' -> P a d') -> okay c P d.
Proof. intros [Hc] HP a d' E. apply HP. specialize (Hc d). by rewrite E in Hc. Qed.

Lemma marker_outside {A : Type} `{Marker A} (K : dir * string -> Prop) (d d' : disk) (k : dir * string) (v : A) :
  outside K d d' -> ~ K k -> marker d k v -> marker d' k v.
Proof. intros [[He _] Hk] HK [(f & Hf & Ht & Hd) Hl]. split; [|done]. exists f. by rewrite Hk, He. Qed.

Lemma marker_inert {A : Type} `{Marker A} (d d' : disk) (k : dir * string) (v : A) : inert d d' -> marker d k v -> marker d' k v.
Proof. intros Hi. eapply marker_outside; [exact Hi|]. by intros []. Qed.

#[export] Instance inert_preorder : PreOrder inert := outside_preorder _.

Lemma okay_tick (P : unit -> disk -> Prop) (d : disk) : (forall d', inert d d' -> P tt d') -> okay tick P d.
Proof. intros HP. apply okay_inert; [apply touches_tick|]. intros [] d'. apply HP. Qed.

Lemma okay_get {A : Type} (f : disk -> A) (P : A -> disk -> Prop) (d : disk) : P (f d) d -> okay (get f) P d.
Proof. by intros HP a d' [= <- <-]. Qed.

(** A marker that was accepted is there, byte for byte. *)
Lemma okay_openMarker (k : dir * string) (mode : N) (P : file -> disk -> Prop) (d : disk) :
  (forall f d', inert d d' -> entries d !! k = Some (File f) -> trusted (euid d) f = true -> P f d') ->
  okay (openMarker k ReadOnly mode) P d.
Proof.
  intros HP. unfold openMarker, open_file, fstat. apply okay_bind, okay_reject. intros _. apply okay_bind, okay_bind, okay_tick.
  intros d1 H1. apply okay_bind, okay_get. rewrite (proj1 (inert_entries _ _ H1)).
  assert (forall o, okay (tick;; tick;; e ← get euid;
    match o with Some f => io_reject_if (negb (trusted e f)) ErrIdentity;; mret f | None => io_fail ErrIdentity end)
    (fun f d' => o = Some f /\ inert d d' /\ trusted (euid d) f = true) d1) as Hrest.
  { intros o. apply okay_bind, okay_tick. intros d2 H2. apply okay_bind, okay_tick. intros d3 H3. apply okay_bind, okay_get.
    assert (inert d d3) as H03 by (transitivity d1; [done|]; by transitivity d2). rewrite (proj2 (inert_entries _ _ H03)).
    destruct o as [f|]; [|apply okay_fail]. apply okay_bind, okay_reject. intros Ht%negb_false_iff. by apply okay_ret. }
  destruct (entries d !! k) as [[f|? ? ?| |]|] eqn:Ek; try apply okay_fail; apply okay_ret.
  - eapply okay_mono; [apply (Hrest (Some f))|]. intros f' d' ([= <-] & Hi & Ht). by apply HP.
  - eapply okay_mono; [apply (Hrest None)|]. by intros f' d' [? _].
  - eapply okay_mono; [apply (Hrest None)|]. by intros f' d' [? _].
Qed.

Lemma substring_short (n : nat) (s : string) : String.length (String.substring 0 (S n) s) <= n -> String.substring 0 (S n) s = s.
Proof.
  revert n. induction s as [|c s IH]; intros n Hl; [done|]. cbn [String.substring String.length] in *. f_equal.
  destruct n as [|n]; [lia|]. apply IH. lia.
Qed.

Lemma okay_checkMarkerAt {A : Type} `{Marker A} (k : dir * string) (v : A) (P : unit -> disk -> Prop) (d : disk) :
  (forall d', inert d d' -> marker d k v -> P tt d') -> okay (checkMarkerAt k v) P d.
Proof.
  intros HP. unfold checkMarkerAt, read_limited. apply okay_bind, okay_openMarker. intros f d1 H1 Hf Ht.
  apply okay_bind, okay_bind, okay_tick. intros d2 H2. apply okay_ret, okay_reject. intros [Ho Hc]%orb_false_iff.
  apply negb_false_iff, bool_decide_eq_true in Hc. apply Nat.ltb_ge in Ho.
  apply HP; [by transitivity d1|]. split; [|by rewrite <- Hc]. exists f. split_and!; [done..|]. rewrite <- Hc. symmetry. by apply substring_short.
Qed.

Lemma okay_any {A : Type} (c : io disk A) (P : A -> disk -> Prop) (d : disk) : (forall a d', P a d') -> okay c P d.
Proof. intros HP a d' _. apply HP. Qed.

Lemma okay_deferred {A : Type} (K : dir * string -> Prop) (c : io disk A) (cleanup : io disk unit) (P : A -> disk -> Prop) (d : disk) :
  touches K cleanup -> okay c (fun a d1 => forall d2, outside K d1 d2 -> P a d2) d -> okay (deferred c cleanup) P d.
Proof.
  intros [Hk] Hc a d' E. unfold deferred in E. destruct (c d) as [r d1] eqn:E1. specialize (Hk d1). destruct (cleanup d1) as [r' d2].
  injection E as -> <-. by apply (Hc a d1).
Qed.

Lemma okay_read_marker_at {A : Type} `{Marker A} (k : dir * string) (P : A -> disk -> Prop) (d : disk) :
  (forall v d', inert d d' -> marker d k v -> P v d') -> okay (read_marker_at k) P d.
Proof.
  intros HP. unfold read_marker_at, read_limited. apply okay_bind, okay_openMarker. intros f d1 H1 Hf Ht. apply okay_bind, okay_attempt.
  2:{ intros e d2 _. apply okay_fail. }
  apply okay_bind, okay_tick. intros d2 H2. apply okay_ret, okay_bind, okay_reject. intros _.
  destruct (decode_envelope _) as [v|]; [|apply okay_fail]. apply okay_bind, okay_checkMarkerAt. intros d3 H3 Hm.
  assert (inert d d2) as H02 by (by transitivity d1). apply okay_ret, HP; [by transitivity d2|].
  destruct Hm as [(g & Hg & Htg & Hdg) Hl]. split; [|done]. exists g. destruct (inert_entries _ _ H02) as [He Hu]. by rewrite He, Hu in *.
Qed.

Lemma okay_ensureMarkerAt `{NodeEnv} {A : Type} `{Marker A} (x : dir) (name : string) (v : A) (P : unit -> disk -> Prop) (d : disk) :
  (forall u, name <> "pending-" +:+ u) -> (forall d', marker d' (x, name) v -> P tt d') ->
  okay (ensureMarkerAt x name v) P d.
Proof.
  intros Hname HP. unfold ensureMarkerAt, fsync. apply okay_bind, okay_any. intros _ d1. apply okay_bind, okay_attempt.
  - apply okay_checkMarkerAt. intros d2 H2 Hm. apply okay_tick. intros d3 H3. apply HP. eapply marker_inert; [|exact Hm]. by transitivity d2.
  - intros e d2 _. apply okay_bind, okay_reject. intros _. apply okay_bind, okay_get, okay_bind, okay_any. intros _ d3.
    set (t := "pending-" +:+ NewUUID d2).
    eapply (okay_deferred (eq (x, t))); [by apply touches_unlinkat|].
    do 3 (apply okay_bind, okay_any; intros _ ?). apply okay_checkMarkerAt. intros d4 H4 Hm d5 H5. apply HP.
    eapply marker_outside; [exact H5| |by eapply marker_inert]. intros [= E]. by apply (Hname (NewUUID d2)).
Qed.

(** ** The directory of a reclaim *)

(** The directories that hold markers. *)
Definition records (k : dir * string) : Prop := fst k = Control \/ fst k = Placements.

Section exact.
Context (target : CopyIdentity) (device inode : N).

(** Copies other than the one with this device and inode are where and what they were. *)
Definition others (d d' : disk) : Prop :=
  forall k dv ino children, ~ records k -> entries d !! k = Some (Copy dv ino children) ->
    entries d' !! k = Some (Copy dv ino children) \/
    (dv = device /\ ino = inode /\ (role_path target = Some k \/ k = (Retired, CopyID target))).

#[export] Instance others_preorder : PreOrder others.
Proof.
  split; [intros d k dv ino children _; by left|]. intros a b c H1 H2 k dv ino children Hr Hk.
  destruct (H1 _ _ _ _ Hr Hk) as [H'|H']; [by apply H2|by right].
Qed.

Lemma outside_others (d d' : disk) : outside records d d' -> others d d'.
Proof. intros [_ He] k dv ino children Hr Hk. left. by rewrite He. Qed.

Lemma preserves_records {A : Type} (c : io disk A) : touches records c -> preserves others c.
Proof. intros [Hc]. split. intros d. apply outside_others, Hc. Qed.

(** The step of [preserves] with what the first part found. *)
Lemma others_bind {A B : Type} (c : io disk A) (f : A -> io disk B) (d : disk) :
  others d (snd (c d)) -> okay c (fun a d' => others d' (snd (f a d'))) d -> others d (snd ((c ≫= f) d)).
Proof.
  intros Hc Hf. unfold mbind, io_bind. destruct (c d) as [[a|e] d'] eqn:E; [|exact Hc].
  etransitivity; [exact Hc|]. by apply Hf.
Qed.

Lemma records_temporary (x : dir) (u : string) : x = Control \/ x = Placements -> records (x, "pending-" +:+ u).
Proof. done. Qed.

(** Opening the exact directory finds it. *)
Lemma okay_openIdentityDirectory (k : dir * string) (dv ino : N) (P : unit -> disk -> Prop) (d : disk) :
  (forall d' children, inert d d' -> entries d !! k = Some (Copy dv ino children) -> P tt d') ->
  okay (openIdentityDirectory k dv ino) P d.
Proof.
  intros HP. unfold openIdentityDirectory, open_copy, fstat. apply okay_bind, okay_bind, okay_tick. intros d1 H1.
  apply okay_bind, okay_get. rewrite (proj1 (inert_entries _ _ H1)).
  destruct (entries d !! k) as [[|dv' ino' children| |]|] eqn:Ek; try (apply okay_fail).
  apply okay_ret, okay_bind, okay_tick. intros d2 H2. apply okay_reject. cbn [fst snd].
  intros [->%negb_false_iff%N.eqb_eq ->%negb_false_iff%N.eqb_eq]%orb_false_iff. eapply HP; [by transitivity d1|done].
Qed.

Context (intent : localIntent) (Htarget : LocalIntent.Target intent = target).
Context (Hdevice : LocalIntent.Device intent = device) (Hinode : LocalIntent.Inode intent = inode).

(** A rename of the directory of the intent. *)
Lemma others_renameDirectory (k : dir * string) (children : list (string * tree)) (d : disk) :
  role_path target = Some k -> entries d !! k = Some (Copy device inode children) ->
  others d (snd (renameDirectory k (Retired, CopyID target) d)).
Proof.
  intros Hk He. unfold renameDirectory. unfold mbind, io_bind. destruct (tick d) as [r d1] eqn:Et.
  pose proof (preserved _ _ (touches_tick (fun _ => False)) d) as Hi. rewrite Et in Hi. simpl in Hi.
  destruct (inert_entries _ _ Hi) as [Hd _]. destruct r as [[]|e]; [|by apply outside_others, inert_outside].
  simpl. rewrite Hd, He. destruct (entries d !! (Retired, CopyID target)) eqn:Er; simpl.
  { intros k' dv ino ch _ Hk'. left. by rewrite Hd. }
  intros k' dv ino ch _ Hk'. destruct (decide (k = k')) as [<-|Hne]; [rewrite He in Hk'; simplify_eq; right; auto|].
  left. simpl. rewrite Hd. rewrite lookup_insert_ne by (intros <-; congruence). by rewrite lookup_delete_ne.
Qed.

(** [retire] moves the directory of the intent or nothing. *)
Lemma others_retire : preserves others (retire target intent).
Proof.
  unfold retire. rewrite Hdevice, Hinode. apply preserves_bind; [apply _|apply preserves_records; touch|intros _].
  apply preserves_bind_value; [apply _|apply preserves_records; touch|]. intros k Hk. assert (role_path target = Some k) as Hrole.
  { unfold openRoleParent in Hk. destruct (role_path target); returned; done. }
  split. intros d. cbn zeta.
  assert (forall k', others d (snd (attempt (openIdentityDirectory k' device inode) d))) as Hatt.
  { intros k'. apply preserves_records. touch. }
  apply others_bind; [apply Hatt|].
  apply okay_attempt.
  - apply okay_openIdentityDirectory. intros d1 children H1 He.
    destruct (Role target == RoleRetired); [apply preserves_records; unfold close; touch|].
    apply others_bind; [apply preserves_records; touch|]. apply okay_attempt; [apply okay_any; intros; apply preserves_records; touch|].
    intros e d2 E2. assert (inert d1 d2) as H2.
    { pose proof (preserved _ _ (touches_openIdentityDirectory (fun _ => False) (Retired, CopyID target) device inode) d1) as Hi.
      by rewrite E2 in Hi. }
    apply others_bind; [apply preserves_records; touch|]. apply okay_reject. intros _.
    apply others_bind; [|apply okay_any; intros; apply preserves_records; touch].
    eapply others_renameDirectory; [done|]. assert (inert d d2) as [Hd _]%inert_entries by (by transitivity d1). by rewrite Hd.
  - intros e d1 _. apply preserves_records. unfold close. touch.
Qed.

(** [purgeRetired] removes the directory of the intent or nothing. *)
Lemma others_purgeRetired : preserves others (purgeRetired intent).
Proof.
  unfold purgeRetired. rewrite Htarget, Hdevice, Hinode. apply preserves_bind; [apply _|apply preserves_records; touch|intros _].
  split. intros d. apply others_bind; [apply preserves_records; unfold openPurgeDirectory; touch|]. apply okay_attempt.
  2:{ intros e d1 _. apply preserves_records. touch. }
  unfold openPurgeDirectory. apply okay_bind, okay_tick. intros d1 H1. apply okay_bind, okay_get, okay_bind, okay_get.
  destruct (entries d1 !! (Retired, CopyID target)) as [[|dv ino children| |]|] eqn:Ek; try (apply okay_fail).
  destruct (dv =? pool_device d1)%N; [|apply okay_fail]. apply okay_ret.
  apply others_bind; [apply preserves_records; unfold fstat; touch|]. apply okay_attempt.
  2:{ intros e d2 _. exact (reflexivity d2). }
  apply okay_tick. intros d2 H2. apply others_bind; [apply preserves_records; touch|]. apply okay_reject.
  intros [[_ ->%negb_false_iff%N.eqb_eq]%orb_false_iff ->%negb_false_iff%N.eqb_eq]%orb_false_iff.
  assert (entries d2 !! (Retired, CopyID target) = Some (Copy device inode children)) as Ek2 by (by rewrite (proj1 (inert_entries _ _ H2))).
  assert (touches (eq (Retired, CopyID target)) (purge_copy (Retired, CopyID target);; close;; rmdirat (Retired, CopyID target);; fsync)) as [Ht].
  { pose proof (touches_purge_copy (eq (Retired, CopyID target)) _ eq_refl). pose proof (touches_rmdirat (eq (Retired, CopyID target)) _ eq_refl).
    unfold close, fsync. touch. }
  destruct (Ht d2) as [_ Hout]. intros k dv ino ch _ Hk. destruct (decide ((Retired, CopyID target) = k)) as [<-|Hne].
  - right. rewrite Ek2 in Hk. injection Hk as -> -> ->. auto.
  - left. by rewrite Hout.
Qed.
End exact.

(** ** The journal comes first *)

Section journal.
Context `{NodeEnv} (root : string) (target : CopyIdentity) (operationID : string) (authority : bool -> io disk unit).
Context (Hauthority : forall resumed, touches (fun _ => False) (authority resumed)).

Definition journalKey : dir * string := (Control, operationMarker "cleanup" operationID).

(** The journal of [intent] is on the disk. *)
Definition journal_of (intent : localIntent) (d : disk) : Prop :=
  LocalIntent.Target intent = target /\ LocalIntent.OperationID intent = operationID /\ marker d journalKey intent.

Lemma journal_inert (intent : localIntent) (d d' : disk) : inert d d' -> journal_of intent d -> journal_of intent d'.
Proof. intros Hi (H1 & H2 & H3). split_and!; [done..|]. by eapply marker_inert. Qed.

Lemma okay_readLocalIntent (P : option localIntent -> disk -> Prop) (d : disk) :
  (forall d', inert d d' -> P None d') -> (forall intent d', inert d d' -> journal_of intent d' -> P (Some intent) d') ->
  okay (readLocalIntent target operationID) P d.
Proof.
  intros Hnone Hsome. unfold readLocalIntent. apply okay_bind, okay_attempt.
  - apply okay_read_marker_at. intros intent d1 H1 Hm. apply okay_bind, okay_reject.
    intros [Ho%negb_false_iff%bool_decide_eq_true Ht%negb_false_iff%bool_decide_eq_true]%orb_false_iff.
    apply okay_ret, Hsome; [done|]. split_and!; [done..|]. by eapply marker_inert.
  - intros e d1 E1. pose proof (preserved _ _ (touches_read_marker_at (fun _ => False) (A := localIntent) journalKey) d) as Hi.
    unfold readMarker in E1. fold journalKey in E1. rewrite E1 in Hi. destruct (error_is e ErrNotExist); [by apply okay_ret, Hnone|apply okay_fail].
Qed.

Lemma okay_wrapped {A : Type} (m : string) (c : io disk A) (P : A -> disk -> Prop) (d : disk) : okay c P d -> okay (wrapped m c) P d.
Proof.
  intros Hc. unfold wrapped. apply okay_bind, okay_attempt; [|intros; apply okay_fail].
  eapply okay_mono; [exact Hc|]. intros a d' HP. by apply okay_ret.
Qed.

Lemma okay_ensureLocalIntent (placed : placement) (P : localIntent -> disk -> Prop) (d : disk) :
  (forall intent d', journal_of intent d' -> P intent d') -> okay (ensureLocalIntent target operationID placed) P d.
Proof.
  intros HP. unfold ensureLocalIntent. cbn zeta. apply okay_bind, okay_attempt.
  - apply okay_read_marker_at. intros intent d1 H1 Hm. apply okay_bind, okay_reject. intros Hc.
    rewrite !orb_false_iff in Hc. destruct Hc as [[[Ho%negb_false_iff%bool_decide_eq_true Ht%negb_false_iff%bool_decide_eq_true] _] _].
    apply okay_ret, HP. split_and!; [done..|]. by eapply marker_inert.
  - intros e d1 _. apply okay_bind, okay_any. intros _ d2. apply okay_bind, okay_any. intros _ d3. apply okay_bind.
    apply okay_ensureMarkerAt; [done|]. intros d4 Hm. by apply okay_ret, HP.
Qed.

Lemma okay_confirm (journal : option localIntent) (P : localIntent -> disk -> Prop) (d : disk) :
  (forall intent, journal = Some intent -> journal_of intent d) -> (forall intent d', journal_of intent d' -> P intent d') ->
  okay (confirmFreshReclaimTarget target operationID journal) P d.
Proof.
  intros Hj HP. unfold confirmFreshReclaimTarget. apply okay_bind, okay_inert.
  { apply preserves_wrapped; [apply _|]. apply touches_checkMarker. }
  intros _ d1 H1. apply okay_bind, okay_attempt; [|intros; apply okay_fail]. apply okay_read_marker_at. intros placed d2 H2 _.
  apply okay_bind, okay_reject. intros _. destruct journal as [intent|].
  - apply okay_bind, okay_reject. intros _. apply okay_ret, HP. eapply journal_inert; [|by apply Hj]. by transitivity d1.
  - apply okay_wrapped, okay_ensureLocalIntent, HP.
Qed.

Lemma okay_prepareReclaimIntent (d : disk) :
  okay (prepareReclaimIntent target operationID authority) (fun r d' => journal_of (fst r) d') d.
Proof.
  unfold prepareReclaimIntent.
  assert (forall journal d1, (forall intent, journal = Some intent -> journal_of intent d1) ->
    okay (effectStarted ← match journal with
                  | Some intent => wrapped "inspect local cleanup effect: %w" (cleanupEffectStarted target intent)
                  | None => mret false end;
          authority effectStarted;;
          match journal, effectStarted with
          | Some intent, true => mret (intent, true)
          | _, _ => intent ← confirmFreshReclaimTarget target operationID journal; mret (intent, false)
          end) (fun r d' => journal_of (fst r) d') d1) as Hrest.
  { intros journal d1 Hj. apply okay_bind, okay_inert; [unfold cleanupEffectStarted; touch|]. intros started d2 H2.
    apply okay_bind, okay_inert; [apply Hauthority|]. intros _ d3 H3.
    assert (forall intent, journal = Some intent -> journal_of intent d3) as Hj3.
    { intros intent Hi. eapply journal_inert; [|by apply Hj]. by transitivity d2. }
    assert (okay (intent ← confirmFreshReclaimTarget target operationID journal; mret (intent, false)) (fun r d' => journal_of (fst r) d') d3) as Hc.
    { apply okay_bind, okay_confirm; [exact Hj3|]. intros intent d' Hd'. by apply okay_ret. }
    destruct journal as [intent|], started; try exact Hc. apply okay_ret. by apply Hj3. }
  apply okay_bind, okay_wrapped, okay_readLocalIntent.
  - intros d1 H1. by apply (Hrest None).
  - intros intent d1 H1 Hj. apply (Hrest (Some intent)). by intros intent' [= <-].
Qed.

(** What is after the journal does not touch it. *)
Lemma journal_kept (intent : localIntent) (started : bool) :
  LocalIntent.Target intent = target -> touches (fun k => k <> journalKey)
    (applyReclaimEffect target intent started authority;; settleReclaim target operationID intent).
Proof.
  intros Ht. set (K := fun k : dir * string => k <> journalKey).
  assert (forall x u, x = Control \/ x = Placements -> K (x, "pending-" +:+ u)) as Kt by (intros x u _; unfold K, journalKey; by intros [= ]).
  assert (K (Control, "identity.lock")) as Kl by (by intros [= ]). assert (K (Retired, CopyID target)) as Kr by done.
  assert (K (Control, copyMarker (CopyID target))) as Kc by (by intros [= ]). assert (K (Placements, placementMarker (CopyID target))) as Kp by done.
  assert (K (Volumes, VolumeID target)) as Kv by done. assert (K (Incoming, CopyID target)) as Ki by done.
  assert (K (Control, operationMarker "receipt" operationID)) as Ko by (by intros [= ]).
  pose proof (touches_retire target K Kv Ki Kr intent). pose proof (touches_purgeRetired target K Kr intent Ht).
  pose proof (touches_removeCopyMetadata target K Kl Kc Kp). pose proof (fun (v : Receipt) => touches_ensureMarker K Kt Kl _ v Ko).
  assert (forall resumed, touches K (authority resumed)).
  { intros resumed. split. intros d. apply inert_outside, Hauthority. }
  unfold applyReclaimEffect, settleReclaim, preflightPurge. touch.
Qed.

(** The run kept all copies, or made a journal and then touched only the copy in it. *)
Definition accounted (d d' : disk) : Prop :=
  outside records d d' \/
  exists intent d1, outside records d d1 /\ journal_of intent d' /\ others target (LocalIntent.Device intent) (LocalIntent.Inode intent) d1 d'.

Lemma accounted_bind {A B : Type} (c : io disk A) (f : A -> io disk B) (d : disk) :
  touches records c -> okay c (fun a d1 => accounted d1 (snd (f a d1))) d -> accounted d (snd ((c ≫= f) d)).
Proof.
  intros [Hc] Hf. specialize (Hc d). unfold mbind, io_bind. destruct (c d) as [[a|e] d1] eqn:E; [|by left].
  simpl in Hc. destruct (Hf a d1 E) as [H1|(intent & d2 & H1 & H2 & H3)]; [left; by transitivity d1|].
  right. exists intent, d2. split_and!; [by transitivity d1|done|done].
Qed.

Lemma touches_records {A : Type} (c : io disk A) : touches (fun _ => False) c -> touches records c.
Proof. intros [Hc]. split. intros d. apply inert_outside, Hc. Qed.

Lemma accounted_ReclaimWithResume (d : disk) : accounted d (snd (ReclaimWithResume root target operationID authority d)).
Proof.
  assert (forall resumed, touches records (authority resumed)) as Hauth by (intros resumed; by apply touches_records).
  assert (forall x u, x = Control \/ x = Placements -> records (x, "pending-" +:+ u)) as Kt by done.
  assert (forall prefix, records (Control, operationMarker prefix operationID)) as Ko by (by left).
  assert (records (Control, copyMarker (CopyID target))) as Kc by (by left).
  assert (records (Placements, placementMarker (CopyID target))) as Kp by (by right).
  assert (forall name, records (Control, name)) as Kn by (by left).
  pose proof (touches_open target records Kt (Kn _) (Kn _)). pose proof (touches_Acquire target records (Kn _)).
  pose proof (touches_replayReclaimReceipt target records (Kn _) Kc Kp operationID authority Hauth).
  pose proof (touches_prepareReclaimIntent target records Kt (Kn _) operationID Ko authority Hauth) as Hprep.
  pose proof (touches_settleReclaim target records Kt (Kn _) Kc Kp operationID Ko) as Hsettle.
  unfold ReclaimWithResume, OpenExisting. do 4 (apply accounted_bind; [touch|apply okay_any; intros ? ?]).
  match goal with |- accounted _ (snd (match ?r with Some _ => _ | None => _ end _)) => destruct r as [outcome|] end.
  { left. reflexivity. }
  apply accounted_bind; [exact Hprep|]. eapply okay_mono; [apply okay_prepareReclaimIntent|]. intros [intent started] d1 Hj. simpl in Hj.
  set (rest := applyReclaimEffect _ _ _ _;; _).
  right. exists intent, d1. split_and!; [reflexivity| |].
  - split_and!; [apply Hj..|]. eapply marker_outside; [apply (journal_kept intent started), Hj|auto|apply Hj].
  - assert (preserves (others target (LocalIntent.Device intent) (LocalIntent.Inode intent)) rest) as Hrest; [|apply Hrest].
    unfold rest, applyReclaimEffect, preflightPurge.
    repeat first [ exact (others_retire target _ _ intent (proj1 Hj) eq_refl eq_refl)
                 | exact (others_purgeRetired target _ _ intent (proj1 Hj) eq_refl eq_refl)
                 | apply preserves_records, Hsettle
                 | match goal with
                   | |- preserves _ (_ ≫= _) => apply preserves_bind; [apply _| |intros ?]
                   | |- preserves _ (wrapped _ _) => apply preserves_wrapped; [apply _|]
                   end ];
      apply preserves_records; touch.
Qed.
End journal.

(** C6: On every disk and through every interruption: when a reclaim changes a directory
    of copies, that directory is the target's own, in its role's place or retired, and
    its device and inode are those in the journal of exactly this operation, which is on
    the disk. *)
Theorem reclaim_exact `{NodeEnv} (root : string) (target : CopyIdentity) (operationID : string) (authority : bool -> io disk unit)
    (d : disk) (x : dir) (name : string) (device inode : N) (children : list (string * tree)) :
  (forall resumed, touches (fun _ => False) (authority resumed)) ->
  x <> Control -> x <> Placements -> entries d !! (x, name) = Some (Copy device inode children) ->
  let d' := snd (ReclaimWithResume root target operationID authority d) in
  entries d' !! (x, name) = Some (Copy device inode children) \/
  (role_path target = Some (x, name) \/ (x, name) = (Retired, CopyID target)) /\
  exists intent, LocalIntent.Device intent = device /\ LocalIntent.Inode intent = inode /\ journal_of target operationID intent d'.
Proof.
  intros Hauth Hx Hp He d'. assert (~ records (x, name)) as Hr by (intros [E|E]; by simpl in E).
  destruct (accounted_ReclaimWithResume root target operationID authority Hauth d) as [[_ Ho]|(intent & d1 & [_ Ho] & Hj & Hothers)].
  - left. unfold d'. by rewrite Ho.
  - rewrite <- (Ho _ Hr) in He. destruct (Hothers _ _ _ _ Hr He) as [Hk|(-> & -> & Hk)]; [by left|]. right. split; [done|]. by exists intent.
Qed.

Lemma reclaim_exact_witness :
  let reclaim := ReclaimWithResume (H := SampleNode.env) "/pool" SampleNode.SampleCopyIdentity "delete-uid-1" (fun _ => tick) in
  let d := set_entries SampleNode.blank {[(Volumes, "another") := Copy 7 9 [("data", Leaf)]]} in
  entries (snd (reclaim d)) !! (Volumes, "another") = Some (Copy 7 9 [("data", Leaf)]).
Proof.
  destruct (reclaim_exact (H := SampleNode.env) "/pool" SampleNode.SampleCopyIdentity "delete-uid-1" (fun _ => tick)
    (set_entries SampleNode.blank {[(Volumes, "another") := Copy 7 9 [("data", Leaf)]]}) Volumes "another" 7 9 [("data", Leaf)]
    (fun _ => touches_tick _) ltac:(discriminate) ltac:(discriminate) eq_refl) as [E|[[E|E] _]]; [exact E|discriminate E..].
Defined.

(** C32: On every disk, a marker that is read successfully is a regular file that only
    the agent can write, with exactly the canonical bytes of the value returned, and
    reading changes no entry; every other content is an error. *)
Theorem read_marker_exact {A : Type} `{Marker A} (k : dir * string) (d : disk) :
  let '(r, d') := read_marker_at (A := A) k d in
  inert d d' /\ match r with Ok v => marker d k v | Err _ => True end.
Proof.
  destruct (read_marker_at (A := A) k d) as [r d'] eqn:E.
  pose proof (preserved _ _ (touches_read_marker_at (fun _ => False) (A := A) k) d) as Hi. rewrite E in Hi.
  split; [exact Hi|]. destruct r as [v|e]; [|done].
  exact (okay_read_marker_at k (fun v _ => marker d k v) d (fun v' d1 _ Hm => Hm) v d' E).
Qed.

(** What the next undisturbed read of a marker returns. *)
Definition reread {A : Type} `{Marker A} (k : dir * string) (d : disk) : result A := fst (read_marker_at k (set_faults d [])).

(** C31: A marker that [ensureMarkerAt] reports as written, on any disk, is read back as
    the same value by the next undisturbed read. *)
Theorem ensureMarker_roundtrip `{NodeEnv} {A : Type} `{Marker A} (x : dir) (name : string) (v : A) (d d' : disk) :
  marker_name name = true -> HasPrefix name "pending-" = false -> representable v = true ->
  ensureMarkerAt x name v d = (Ok tt, d') -> reread (x, name) d' = Ok v.
Proof.
  intros Hn Hp Hr E.
  assert (marker d' (x, name) v) as Hm.
  { eapply (okay_ensureMarkerAt x name v (fun _ d' => marker d' (x, name) v) d); [|done|exact E].
    intros u ->. by rewrite (proj2 (HasPrefix_spec _ _) (ex_intro _ u eq_refl)) in Hp. }
  apply (marker_same _ (set_faults d' [])) in Hm; [|apply same_set_faults].
  destruct (reads_read_marker_at _ (x, name) Hn v Hr Hm (set_faults d' []) False (fun r _ => r = Ok v)) as [_ HQ];
    [reflexivity|done|done|by left|exact HQ].
Qed.

Lemma ensureMarker_roundtrip_witness :
  let '(r, d') := ensureMarkerAt (H := SampleNode.env) Control "copy-initial-uid-1.json" SampleNode.SampleCopyIdentity SampleNode.blank in
  r = Ok tt /\ reread (Control, "copy-initial-uid-1.json") d' = Ok SampleNode.SampleCopyIdentity.
Proof.
  destruct (ensureMarkerAt (H := SampleNode.env) Control "copy-initial-uid-1.json" SampleNode.SampleCopyIdentity SampleNode.blank) as [r d'] eqn:E.
  assert (r = Ok tt) as -> by (vm_compute in E; by injection E as <- _). split; [reflexivity|].
  apply (ensureMarker_roundtrip (H := SampleNode.env) Control "copy-initial-uid-1.json" SampleNode.SampleCopyIdentity SampleNode.blank d');
    [reflexivity|reflexivity|reflexivity|exact E].
Defined.
