(* ===== verification/OwnershipRelease.v ===== *)
(** * The identity of a Pool outlives its data

    [ReleaseEmptyPool] (src/node/ownership/pool_release.go) and [CollectMetadata]
    (metadata.go) delete records.  On every disk and through every interruption, the
    Pool identity goes only from a Pool without data, and a collected record had
    expired. *)

From S2P Require Import Prelude Bytes Json Filepath VolumeIdentity NodeDisk OwnershipMarkers Ownership OwnershipMetadata NodeLogic OwnershipLogic OwnershipSafety OwnershipExact.

(** The directories that hold copies. *)
Definition data_dirs : list dir := [Volumes; Incoming; Retired].

(** Copies are in directories that exist. *)
Definition rooted (d : disk) : Prop := forall x name e, x ∈ data_dirs -> entries d !! (x, name) = Some e -> subdirs d !! x <> None.

Section release.
Context `{NodeEnv}.

Lemma names_nil (x : dir) (d : disk) (name : string) : names x d = [] -> entries d !! (x, name) = None.
Proof.
  unfold names. intros Hn. destruct (entries d !! (x, name)) as [e|] eqn:E; [|done]. exfalso.
  apply elem_of_map_to_list in E. set (l := omap _ _) in Hn.
  assert (name ∈ l) as Hin.
  { apply list_elem_of_omap. exists (x, name, e). split; [done|]. simpl. by rewrite bool_decide_eq_true_2. }
  rewrite <- (readdir_perm l), Hn in Hin. by apply elem_of_nil in Hin.
Qed.

Lemma okay_readDirectoryEmpty (x : dir) (P : bool -> disk -> Prop) (d : disk) :
  (forall b d', inert d d' -> (b = true -> forall name, entries d !! (x, name) = None) -> P b d') -> okay (readDirectoryEmpty x) P d.
Proof.
  intros HP. unfold readDirectoryEmpty. apply okay_bind, okay_tick. intros d1 H1. apply okay_bind, okay_get, okay_ret, HP; [done|].
  intros Hl%Nat.eqb_eq%nil_length_inv name. rewrite <- (proj1 (inert_entries _ _ H1)). by apply names_nil.
Qed.

(** A directory that is found empty has no entries, or did not exist. *)
Lemma okay_directoryEmptyAt (x : dir) (P : bool -> disk -> Prop) (d : disk) :
  (forall b d', inert d d' -> (b = true -> subdirs d !! x = None \/ forall name, entries d !! (x, name) = None) -> P b d') ->
  okay (directoryEmptyAt x) P d.
Proof.
  intros HP. unfold directoryEmptyAt. apply okay_bind, okay_attempt.
  - apply okay_inert; [apply touches_open_dir|]. intros _ d1 H1. apply okay_readDirectoryEmpty. intros b d2 H2 Hb.
    apply HP; [by transitivity d1|]. intros Ht. right. intros name. rewrite <- (proj1 (inert_entries _ _ H1)). by apply Hb.
  - intros e d1 E1. pose proof (preserved _ _ (touches_open_dir (fun _ => False) x) d) as Hi. rewrite E1 in Hi.
    destruct (error_is e ENOENT) eqn:Ee; [|apply okay_fail]. apply okay_ret, HP; [exact Hi|]. intros _. left. revert E1.
    unfold open_dir, mbind, io_bind, tick. destruct (faults d) as [|[n|] rest]; simpl; intros E1.
    + destruct (subdirs d !! x) as [[]|]; [done| |done]. injection E1 as <- <-. done.
    + injection E1 as <- <-. done.
    + destruct (subdirs d !! x) as [[]|]; [done| |done]. injection E1 as <- <-. done.
Qed.

Lemma okay_all_empty (dirs : list dir) (P : bool -> disk -> Prop) (d : disk) :
  (forall b d', inert d d' ->
    (b = true -> forall x, x ∈ dirs -> (exists d1, inert d d1 /\ subdirs d1 !! x = None) \/ forall name, entries d !! (x, name) = None) -> P b d') ->
  okay (all_empty dirs) P d.
Proof.
  revert P d. induction dirs as [|x dirs IH]; intros P d HP; cbn [all_empty].
  { apply okay_ret, HP; [reflexivity|]. intros _ x Hx. by apply elem_of_nil in Hx. }
  apply okay_bind, okay_directoryEmptyAt. intros b d1 H1 Hb. destruct b; simpl; [|by apply okay_ret, HP].
  apply IH. intros b d2 H2 Hrest. apply HP; [by transitivity d1|]. intros Ht y [->|Hy]%elem_of_cons.
  - destruct (Hb eq_refl) as [Hs|Hn]; [left; by exists d|by right].
  - destruct (Hrest Ht y Hy) as [(d3 & H3 & Hs)|Hn]; [left; exists d3; split; [by transitivity d1|done]|right].
    intros name. rewrite <- (proj1 (inert_entries _ _ H1)). apply Hn.
Qed.

(** With rooted entries, that means no data. *)
Lemma okay_managedDataEmpty (P : bool -> disk -> Prop) (d : disk) :
  (forall b d', inert d d' -> (b = true -> rooted d -> forall x name, x ∈ data_dirs -> entries d !! (x, name) = None) -> P b d') ->
  okay managedDataEmpty P d.
Proof.
  intros HP. unfold managedDataEmpty. apply okay_bind, okay_all_empty. intros b d1 H1 Hb. destruct b; simpl; [|by apply okay_ret, HP].
  apply okay_inert; [unfold readDirectoryEmpty; touch|]. intros b d2 H2. apply HP; [by transitivity d1|].
  intros _ Hr x name Hx. destruct (Hb eq_refl x Hx) as [(d3 & [[_ Hs] _] & Hn)|Hn]; [|apply Hn].
  destruct (entries d !! (x, name)) as [e|] eqn:E; [|done]. exfalso. apply Hr in E; [|done]. destruct (subdirs d !! x) as [s|] eqn:Es; [|done].
  apply Hs in Es. congruence.
Qed.

Definition identityKey : dir * string := (Control, "pool.json").

Definition no_data (d : disk) : Prop := forall x name, x ∈ data_dirs -> entries d !! (x, name) = None.

(** What comes before the removal of the identity may touch this. *)
Definition preliminary (k : dir * string) : Prop := k = (Control, "identity.lock") \/ fst k = Placements.

(** The identity is kept, unless there was no data. *)
Definition guarded (d d' : disk) : Prop := rooted d -> entries d' !! identityKey = entries d !! identityKey \/ no_data d.

Lemma data_not_preliminary (x : dir) (name : string) : x ∈ data_dirs -> ~ preliminary (x, name).
Proof. unfold data_dirs. rewrite !elem_of_cons, elem_of_nil. intros Hx [[= -> _]|E]; [|simpl in E; subst]; by destruct_or! Hx. Qed.

Lemma rooted_outside (d d' : disk) : outside preliminary d d' -> rooted d -> rooted d'.
Proof.
  intros [[_ Hs] Hk] Hr x name e Hx He. rewrite Hk in He by (by apply data_not_preliminary).
  apply Hr in He; [|done]. destruct (subdirs d !! x) as [s|] eqn:E; [|done]. by rewrite (Hs _ _ E).
Qed.

Lemma guarded_bind {A B : Type} (c : io disk A) (f : A -> io disk B) (d : disk) :
  touches preliminary c -> (rooted d -> okay c (fun a d1 => guarded d1 (snd (f a d1))) d) -> guarded d (snd ((c ≫= f) d)).
Proof.
  intros [Hc] Hf Hr. specialize (Hc d). unfold mbind, io_bind. destruct (c d) as [[a|e] d1] eqn:E; simpl in Hc.
  - destruct (Hf Hr a d1 E (rooted_outside _ _ Hc Hr)) as [Hk|Hn].
    + left. rewrite Hk. apply Hc. intros [E'|E']; [discriminate E'|by simpl in E'].
    + right. intros x name Hx. rewrite <- (proj2 Hc); [by apply Hn|]. by apply data_not_preliminary.
  - left. apply Hc. intros [E'|E']; [discriminate E'|by simpl in E'].
Qed.

Lemma guarded_touches {A : Type} (c : io disk A) (d : disk) : touches preliminary c -> guarded d (snd (c d)).
Proof. intros [Hc] _. left. apply Hc. intros [E|E]; [discriminate E|by simpl in E]. Qed.

Lemma touches_preliminary {A : Type} (c : io disk A) : touches (fun _ => False) c -> touches preliminary c.
Proof. intros [Hc]. split. intros d. apply inert_outside, Hc. Qed.

Lemma touches_remove_abandoned (names : list string) (changed : bool) : touches preliminary (remove_abandoned names changed).
Proof.
  assert (forall name, touches preliminary (unlinkat (Placements, name))) by (intros name; apply touches_unlinkat; by right).
  revert changed. induction names as [|name names IH]; intros changed; cbn [remove_abandoned]; [touch|].
  unfold removeAbandonedPlacementMarker, fstat. touch.
Qed.

Lemma touches_directoryEmptyAt (K : dir * string -> Prop) (x : dir) : touches K (directoryEmptyAt x).
Proof. unfold directoryEmptyAt, readDirectoryEmpty. touch. Qed.

Lemma touches_all_empty (K : dir * string -> Prop) (dirs : list dir) : touches K (all_empty dirs).
Proof. pose proof (touches_directoryEmptyAt K). induction dirs as [|x dirs IH]; cbn [all_empty]; touch. Qed.

Lemma touches_managedDataEmpty (K : dir * string -> Prop) : touches K managedDataEmpty.
Proof. pose proof (touches_all_empty K). unfold managedDataEmpty, readDirectoryEmpty. touch. Qed.

Lemma touches_OpenExisting (K : dir * string -> Prop) (root : string) (pool : PoolIdentity) : touches K (OpenExisting root pool).
Proof. pose proof (touches_validateDirectory K). unfold OpenExisting, open, validateControl. touch. Qed.

Lemma guarded_ReleaseEmptyPool (root : string) (pool : PoolIdentity) (d : disk) : guarded d (snd (ReleaseEmptyPool root pool d)).
Proof.
  pose proof (touches_OpenExisting preliminary root pool). pose proof touches_remove_abandoned. pose proof (touches_managedDataEmpty preliminary).
  pose proof (touches_all_empty preliminary). pose proof (touches_directoryEmptyAt preliminary).
  pose proof (touches_openMarker preliminary (Control, "identity.lock") ReadWriteCreate 384 ltac:(by left)).
  unfold ReleaseEmptyPool. do 2 (apply guarded_bind; [touch|intros _; apply okay_any; intros ? ?]).
  match goal with |- guarded _ (snd (match ?r with Ok _ => _ | Err _ => _ end _)) => destruct r as [[]|e] end.
  2:{ apply guarded_touches. unfold managedPoolDataEmpty, syncReleasedIdentity, open_pool_root, fsync. touch. }
  do 6 (apply guarded_bind; [unfold openControl; touch|intros _; apply okay_any; intros ? ?]).
  apply guarded_bind; [unfold removeAbandonedPlacementMarkers, fsync; touch|intros _; apply okay_any; intros ? ?].
  apply guarded_bind; [touch|]. intros Hrooted. apply okay_managedDataEmpty. intros b dn Hn Hb.
  apply guarded_bind; [touch|]. intros _. apply okay_reject. intros ->%negb_false_iff _. right.
  intros x name Hx. rewrite (proj1 (inert_entries _ _ Hn)). by apply Hb.
Qed.
End release.

(** C30: On every disk, and however [ReleaseEmptyPool] is interrupted, no copy is
    touched, and the Pool's identity marker is removed or changed only when the Pool has
    no serving, incoming, staged or retired copy left. *)
Theorem release_keeps_data `{NodeEnv} (root : string) (pool : PoolIdentity) (d : disk) :
  rooted d ->
  let d' := snd (ReleaseEmptyPool root pool d) in
  (forall x name, x ∈ data_dirs -> entries d' !! (x, name) = entries d !! (x, name)) /\
  (entries d' !! (Control, "pool.json") = entries d !! (Control, "pool.json") \/
   forall x name, x ∈ data_dirs -> entries d !! (x, name) = None).
Proof.
  intros Hr d'. split; [|by apply guarded_ReleaseEmptyPool].
  assert (touches records (ReleaseEmptyPool root pool)) as [Ht].
  { pose proof (touches_OpenExisting records root pool). pose proof (touches_managedDataEmpty records). pose proof (touches_all_empty records).
    pose proof (touches_directoryEmptyAt records).
    assert (forall names changed, touches records (remove_abandoned names changed)).
    { intros names changed. split. intros d1. destruct (preserved _ _ (touches_remove_abandoned names changed) d1) as [Hs Hk].
      split; [done|]. intros k Hrec. apply Hk. intros [-> |E]; apply Hrec; [by left|by right]. }
    assert (forall name, records (Control, name)) as Kn by (by left).
    pose proof (fun name mode flag => touches_openMarker records (Control, name) mode flag (Kn name)).
    pose proof (fun name => touches_unlinkat records (Control, name) (Kn name)).
    assert (forall names, touches records (lock_names names)).
    { induction names as [|name names IH]; cbn [lock_names]; unfold openControl, fstat; touch. }
    assert (forall names, touches records (unlink_locks names)).
    { induction names as [|name names IH]; cbn [unlink_locks]; unfold ignore_missing; touch. }
    unfold ReleaseEmptyPool, managedPoolDataEmpty, syncReleasedIdentity, open_pool_root, removeAbandonedPlacementMarkers, releaseLockNamespace,
      lockVolumeFiles, openControl, ignore_missing, fsync. touch. }
  intros x name Hx. apply Ht. unfold data_dirs in Hx. rewrite !elem_of_cons, elem_of_nil in Hx. intros [E|E]; simpl in E; subst; by destruct_or! Hx.
Qed.

Lemma release_keeps_data_witness :
  let d := set_subdirs (set_entries SampleNode.blank {[(Volumes, "x") := Copy 7 9 [("data", Leaf)]]}) (<[Volumes := Directory 493 0]> (subdirs SampleNode.blank)) in
  entries (snd (ReleaseEmptyPool (H := SampleNode.env) "/pool" (pool_of SampleNode.SampleCopyIdentity) d)) !! (Volumes, "x") =
    Some (Copy 7 9 [("data", Leaf)]).
Proof.
  cbv zeta.
  etransitivity; [apply (release_keeps_data (H := SampleNode.env) "/pool" (pool_of SampleNode.SampleCopyIdentity))|reflexivity].
  - intros x name e _ He. simpl in He. destruct (decide ((x, name) = (Volumes, "x"))) as [[= -> ->]|Hne]; [done|].
    rewrite lookup_singleton_ne in He by done. done.
  - unfold data_dirs. apply list_elem_of_here.
Defined.
